(* ===== verification/_CoqProject ===== *)
-Q . S2P
Prelude.v
Bitset.v
Bloom.v
ElasticBloom.v
ElasticBloomSpec.v
AttenuatedBloom.v
Utf8.v
Cbor.v
BloomCodec.v
CString.v
Endian.v
Base58.v
MessageId.v
CborWire.v
CborDecoder.v
CborGrammar.v
CborStream.v
CborDecoderTheorems.v
CborEncoder.v
Node.v
NodeId.v
Packet.v
ChannelPacket.v
Subtopic.v
TopicAlias.v
Notice.v
Ring.v
Route.v
Protocol.v
Quasar.v
Channel.v
ChannelManager.v
ManagerTheorems.v
ClientProtocol.v
ClientStream.v
ClientSession.v
SessionTheorems.v
Transport.v
WebSocket.v
TransportTheorems.v
WebSocketTheorems.v
WebSocketTable.v
StreamTransport.v
QuicTransport.v
WebTransport.v
StreamTransportTheorems.v
QuicTransportTheorems.v
WebTransportTheorems.v
Client.v
ClientTheorems.v
Refcount.v
Buffers.v
Vec.v
HashMap.v
HashMapTheorems.v
MemoryPool.v
MemoryPoolTheorems.v
Async.v
WorkQueue.v
WorkQueueTheorems.v
WorkPool.v
WorkPoolTheorems.v
Query.v
Measure.v
Gossip.v
Dispatch.v
Rendv.v
Relay.v
Wheel.v
WheelTheorems.v
Debouncer.v
KeyPair.v
QuicStore.v
ProtocolLifecycle.v
Isolation.v
RelayLifecycle.v
Daemon.v
QuasarSpec.v
QuasarTheorems.v
QuasarNetwork.v
