(* ===== verification/Prelude.v ===== *)
(** * Poseidon: a verification development

    Poseidon is a publish/subscribe overlay written in C.  Nodes form a
    latency-aware peer-to-peer network (Meridian), route messages on topics
    through it with gossiped Bloom filters (Quasar), group topics into channels
    with owners and signed administration, and serve local applications through
    a daemon with a framed CBOR client protocol.  This library translates the
    C sources under [src/src] into executable definitions and proves what makes
    them correct, or shows by theorem where they are not.

    ** How the parts fit together

    A client program uses the C client library ([Client]), whose requests travel
    over one of the daemon's transports: Unix and TCP sockets ([Transport]),
    WebSocket ([WebSocket]), QUIC and WebTransport ([StreamTransport],
    [QuicTransport], [WebTransport]).  The transport cuts the bytes into frames
    ([ClientStream], [ClientProtocol]) and hands them to a session
    ([ClientSession]), which acts on the channels of the daemon
    ([ChannelManager]).  A channel ([Channel]) is a Quasar node plus subtopic
    table ([Subtopic]), alias registry ([TopicAlias]), key pair ([KeyPair]) and
    configuration; its administration is by signed notices ([Notice]).  The
    Quasar node ([Quasar]) publishes route messages ([Route], [MessageId]),
    decides where they go with attenuated Bloom filters ([AttenuatedBloom], on
    [ElasticBloom]), drops duplicates with a Bloom filter ([Bloom], on
    [Bitset]), and sends packets through a Meridian endpoint ([Protocol],
    [Dispatch], started and stopped in [ProtocolLifecycle]).  Meridian keeps
    latency rings ([Ring]), measures peers ([Measure]), gossips about them
    ([Gossip]), answers closest-node queries ([Query]) and crosses NATs with
    rendezvous points ([Rendv]) and relays ([Relay], [RelayLifecycle]).  Below
    everything are the worker pool ([WorkQueue], [WorkPool]), promises and joins
    ([Async]), the timing wheel and the debouncer ([Wheel], [Debouncer], on
    [HashMap]), reference counts ([Refcount]), buffers, vectors and pooled memory
    ([Buffers], [Vec], [MemoryPool]) and the vendored CBOR library ([Cbor],
    [CborWire], [CborDecoder], [CborEncoder], [Utf8]).  Two executables put the
    parts together ([Daemon]).

    ** Conventions

    - A [w]-bit unsigned integer is a [Z]; [u8], [u16], [u32], [u64] and [s32]
      reduce to the type and appear wherever the C expression can leave it.
    - [exec A] is [Ret a] or [Trap]: undefined behaviour (an access out of
      bounds, a division by zero, a failed assertion of libcbor, a use of freed
      memory) is [Trap], so a theorem that an operation returns [Ret] is a
      memory-safety statement.  Error codes are values, as in the source.
    - [f_nn] is the body of [f] on non-null arguments; [f] adds its NULL guards,
      with [option] for pointers that may be NULL.
    - Where the code shares mutable objects (queries, sessions, timers,
      rendezvous points, channels) the model has a heap of addresses; where an
      object has one owner it is a value.
    - Locks make the operations atomic; an interleaving of threads is a sequence
      of operations, and invariants are proved for every sequence.
    - The clock, XXH3, BLAKE3, libm's logarithm, system calls, msquic and libwtf
      are arguments: their outcomes are, and what is asked of msquic is logged.
      [QuicStore] replays such a log on a store of handles, in which using or
      closing a handle that is not open fails.  What a theorem needs of an
      argument is a hypothesis or a field of a class, and each such theorem is
      instantiated at a concrete function by its witness.
    - Signatures are a class ([SignatureScheme] in [Notice]); [KeyPair] implements
      it from OpenSSL, itself a class with the documented laws.  A membership
      filter is a class at the end of [Bloom].
    - The codecs take libcbor's reader as an argument with the law that it reads
      back what the wire format says; [CborDecoder] models the reader and
      [CborDecoderTheorems] proves that it is one.

    ** Files and sources

    - [Prelude]: notation, machine integers, [exec], tactics, generic lemmas,
      [struct timeval].
    - [Bitset], [Bloom], [ElasticBloom], [AttenuatedBloom]: [src/Bloom/*.c].
      [ElasticBloomSpec] holds the contract of the elastic filter, [BloomCodec]
      the CBOR form.
    - [Cbor], [CborWire]: the items of the vendored libcbor the codecs build and
      their bytes; [CborDecoder] its loaders, streaming switch, builder callbacks
      and stack, [CborGrammar] the items of RFC 8949 as a recursive reader,
      [CborStream] and [CborDecoderTheorems] the equivalence of the two,
      [CborEncoder] its writer, [Utf8] its validator
      ([deps/libcbor/src/cbor.c], [cbor/streaming.c], [cbor/encoding.c],
      [cbor/serialization.c], [cbor/internal/*.c]).
    - [CString], [Endian]: C character arrays and integers in memory.
    - [Base58], [NodeId], [Node]: [src/Util/base58.c], [src/Crypto/node_id.c],
      [src/Network/Meridian/meridian.c]; [KeyPair]: [src/Crypto/key_pair.c].
    - [MessageId], [Route], [Quasar]: [src/Network/Quasar/*.c]; [QuasarSpec] and
      [QuasarTheorems] prove the contract of a node, [QuasarNetwork] composes many
      nodes as the README of that directory describes.
    - [Packet], [ChannelPacket]: [src/Network/Meridian/meridian_packet.c].
    - [Ring], [Protocol], [Dispatch], [Gossip], [Measure], [Query], [Rendv],
      [Relay]: the files [meridian_*.c] of the same names
      ([Dispatch] is the second half of [meridian_protocol.c], [Relay] holds
      [meridian_relay.c], [meridian_relay_server.c] and [meridian_conn.c]).
      [ProtocolLifecycle] and [RelayLifecycle] hold the functions of these files
      that open and close msquic objects, on [QuicStore].
    - [Subtopic], [TopicAlias], [Notice], [Channel], [ChannelManager]:
      [src/Channel/*.c]; [ManagerTheorems] proves the manager's contract,
      [Isolation] what the daemon's use of it can reach.
    - [ClientProtocol], [ClientStream], [ClientSession]:
      [src/ClientAPIs/client_protocol.c], the stream transports,
      [client_session.c]; [SessionTheorems] proves what a client relies on.
    - [Transport], [WebSocket], [StreamTransport], [QuicTransport],
      [WebTransport]: [src/ClientAPIs/transport_*.c], with their theorems in
      [TransportTheorems], [WebSocketTheorems], [WebSocketTable],
      [StreamTransportTheorems], [QuicTransportTheorems] and
      [WebTransportTheorems].
    - [Client], [ClientTheorems]: [src/ClientLibs/c/*.c].
    - [Refcount], [Buffers], [Vec]: [src/RefCounter/refcounter.c],
      [src/Buffer/buffer.c], [src/Util/vec.c] with the macros of [vec.h];
      [MemoryPool]: [src/Util/memory_pool.c]; [HashMap]:
      [deps/hashmap/src/hashmap.c] and [src/Util/hash.c].
    - [WorkQueue], [WorkPool], [Async]: [src/Workers/*.c]; [Wheel], [Debouncer]:
      [src/Time/wheel.c], [src/Time/debouncer.c].  Files of the same name with
      [Theorems] added hold their proofs.
    - [Daemon]: [src/poseidond.c] and [src/relay_main.c].

    ** What the theorems show

    - Overlay: under every sequence of publications, receptions, gossip and ticks
      a node delivers an identifier at most once; a subscriber's node delivers and
      re-publishes; forwarding is bounded by hop budget and fan-out and follows the
      nearest level; a subscription lives exactly its number of ticks; gossip
      makes a neighbour's topic visible one level further away.  The route parser
      returns on every byte string, and serialization round-trips.  A network of
      nodes comes to rest however packets are ordered or lost, and when none is
      lost a message handed to a subscriber is delivered exactly once by every
      subscriber connected to it through subscribers; a publication, which is
      several messages, is delivered more often (a finding).
    - Filters: no false negatives within the fingerprint budget across resizing,
      merging and deletion; resizing refines the identity where the filter can be resized; the decoder establishes
      the invariant; topics are seen up to the level horizon and no further.
    - Channels: the manager's table invariants over all operations and deliverable
      messages; bootstrap succeeds exactly when the clocks read equal; a delete or
      modify notice on a subscribed dial channel recurses without end; owner
      notices verify, and so do notices of any other key holder (a finding).
    - Clients: over sockets, WebSocket, QUIC and WebTransport the daemon handles
      the bodies sent, in order and unmodified, however the bytes are cut, and
      the client library's conversation in unsigned calls of bounded size is the
      direct one; the parsers are safe
      on every input; client tables, registry and sessions agree under every
      sequence of events; every request gets one answer; a publication reaches
      exactly the subscribed sessions; administrative effects require the owner's
      signature, which the client library cannot produce (a finding).
    - Meridian: ring, peer and relay tables keep their invariants; the query table
      refines a finite map and its tick partitions it; the latency cache evicts
      the oldest; the gossip scheduler follows its two-phase schedule; the
      datagrams of relay clients are not understood by the relay server (a
      finding).
    - Life cycles: in every reachable state of a Meridian node, of the relay's
      client and server and of a rendezvous handle, the log of msquic calls
      replays and the open handles are those the state names, but for connections a
      node accepts while its peer table is full, above which it closes its
      registration (a finding); the executables
      release what they started in an order the components allow, whatever fails.
      The daemon never starts a channel's Meridian node, so no peer is ever
      reached (a finding).
    - Keys: OpenSSL objects are balanced on every path; a key written and loaded
      again is the same key; notices signed with one verify.
    - Timers: a timer is fired at the tick its duration names under any
      interleaving of other operations, never after a cancellation; a timer is in
      memory exactly while a slot holds it, with an exact reference count, and
      stopping and destroying the wheel frees every timer once.  This holds until
      the counter of identifiers runs over (a finding).  The map of the timers
      refines a finite map and never touches a slot outside its table, while memory
      is served.
    - Workers: the linked queues refine lists; under every interleaving each piece
      of work is accounted for and run or aborted at most once; a shutdown comes to
      an end, and by then what was queued before it has been run or aborted.
    - Memory: the pool hands no block out twice; reference counts refine ownership
      with yields; vectors refine lists; buffers keep within their sizes.
    - CBOR: the decoder is total and safe on every byte string and every pattern
      of allocation failure, and agrees with the grammar; what the encoder writes
      it reads back.

    ** Bounds and fuel

    [process_frames] and [stream_frames] take the buffer length as fuel, and
    [process_ws_frames] one more: each frame removes at least its header, and the
    theorems show that no complete frame is left.  The load loop of libcbor takes
    the input length plus one (each round consumes a byte) and its stack is
    limited to 2048 as in the source.  The recursion of [dial_publish] through
    the intercept takes its depth; [None] means deeper, and one theorem shows
    that no depth suffices for a notice, while the session and manager theorems
    hold for every depth at which the run returns and their witnesses compute it.
    The doubling of buffers takes 64 rounds and the rounding of vector capacities
    31, the widths of the types.  The loops of the hash map are bounded by the
    table size as in the source, and a table of up to [2 ^ 29] entries is covered:
    beyond, the source shifts an [int] out of its width.  [Base58] loops take
    buffer lengths.  The worker pool is a step relation with a computed bound on
    its steps after a shutdown.  The other definitions are structural.

    ** Not modelled

    The internals of OpenSSL, BLAKE3, xxHash, msquic, libwtf and the kernel; the
    sleep of the ticker; the socket that punches holes for the rendezvous; the
    XPC and Binder transports, which are stubs; logging and thread wrappers;
    directories, paths and performance counters, which have no caller; libcbor's
    copying, printing and reference counts; memory allocation failure
    outside libcbor, the hash map and the vectors, which aborts in [get_memory].
    Reference counts are followed for queries, rendezvous points, timers, work,
    buffers and the counter itself, not for nodes. *)

From Stdlib Require Export ZArith Lia.
From stdpp Require Export base option list numbers.

#[export] Set Warnings "-clear-no-such-hyp".

(** ** Notation scope of the development *)

Declare Scope poseidon_scope.
Delimit Scope poseidon_scope with pos.
Open Scope Z_scope.

(** ** Machine integers

    A [w]-bit unsigned C integer is a [Z]; the conversion to the type is the
    reduction modulo [2^w], written out wherever the source converts. *)

Definition u8 (x : Z) : Z := x mod 2 ^ 8.
Definition u16 (x : Z) : Z := x mod 2 ^ 16.
Definition u32 (x : Z) : Z := x mod 2 ^ 32.
Definition u64 (x : Z) : Z := x mod 2 ^ 64.

(** Conversion to a signed 32-bit [int]. *)
Definition s32 (x : Z) : Z := let y := u32 x in if y <? 2 ^ 31 then y else y - 2 ^ 32.

(** The largest [size_t] of a 64-bit target. *)
Definition SIZE_MAX : Z := 2 ^ 64 - 1.

Definition is_u8 (x : Z) : Prop := 0 <= x < 2 ^ 8.
Definition is_u16 (x : Z) : Prop := 0 <= x < 2 ^ 16.
Definition is_u32 (x : Z) : Prop := 0 <= x < 2 ^ 32.
Definition is_u64 (x : Z) : Prop := 0 <= x < 2 ^ 64.

(** A byte string: every element is an octet. *)
Definition bytes_ok (l : list Z) : Prop := Forall is_u8 l.

(** [Z]-indexed length and access, the way the C code indexes arrays. *)
Definition zlen {A} (l : list A) : Z := Z.of_nat (length l).
Definition byte_at (l : list Z) (i : Z) : Z := default 0 (l !! Z.to_nat i).

(** ** Executions

    A C function either returns or performs an operation whose behaviour C
    leaves undefined (division by zero, an out-of-bounds access, a violated
    library precondition).  [Trap] is the latter: nothing is claimed of a run
    after it. *)

Inductive exec (A : Type) : Type :=
| Ret (a : A)
| Trap.
Arguments Ret {A} a.
Arguments Trap {A}.

Definition xbind {A B : Type} (m : exec A) (f : A → exec B) : exec B :=
  match m with Ret a => f a | Trap => Trap end.

Notation "x <- m ;; k" := (xbind m (fun x => k))
  (at level 100, m at next level, right associativity) : poseidon_scope.
Notation "' pat <- m ;; k" := (xbind m (fun x => match x with pat => k end))
  (at level 20, pat pattern, m at level 99, k at level 200) : poseidon_scope.
Open Scope poseidon_scope.

(** The counted loop [for (i = lo; i < lo + n; i++) s = body(i, s)]. *)
Fixpoint for_range {S : Type} (n : nat) (i : Z) (body : Z → S → exec S) (s : S) : exec S :=
  match n with
  | O => Ret s
  | Datatypes.S n' => s' <- body i s ;; for_range n' (i + 1) body s'
  end.

(** The loop that returns [false] as soon as one iteration does. *)
Fixpoint all_range (n : nat) (i : Z) (body : Z → exec bool) : exec bool :=
  match n with
  | O => Ret true
  | S n' => b <- body i ;; if (b : bool) then all_range n' (i + 1) body else Ret false
  end.

(** ** Lemmas on executions *)

Lemma bind_ret {A B} (m : exec A) (f : A → exec B) b :
  xbind m f = Ret b ↔ ∃ a, m = Ret a ∧ f a = Ret b.
Proof. destruct m; simpl; split; [by eauto|by intros (? & [= ->] & ?)|done|by intros (? & ? & ?)]. Qed.

Lemma bind_Ret_l {A B} (a : A) (f : A → exec B) : xbind (Ret a) f = f a.
Proof. reflexivity. Qed.

Section loops.
Context {S : Type} (body : Z → S → exec S).

(** Hoare rule of the counted loop: an indexed invariant carried from
    [lo] to [lo + n]; every run that the rule covers returns. *)
Lemma for_range_inv (I : Z → S → Prop) n lo s :
  I lo s →
  (∀ i s, lo <= i < lo + Z.of_nat n → I i s → ∃ s', body i s = Ret s' ∧ I (i + 1) s') →
  ∃ s', for_range n lo body s = Ret s' ∧ I (lo + Z.of_nat n) s'.
Proof.
  revert lo s. induction n as [|n IH]; intros lo s H0 Hstep.
  - exists s. split; [done|]. by rewrite Z.add_0_r.
  - destruct (Hstep lo s) as (s1 & E1 & H1); [lia|done|].
    destruct (IH (lo + 1) s1) as (s2 & E2 & H2); [done| |].
    + intros i s' Hi. apply Hstep. lia.
    + exists s2. simpl. rewrite E1. simpl. split; [done|].
      replace (lo + Z.of_nat (Datatypes.S n)) with (lo + 1 + Z.of_nat n) by lia. done.
Qed.

(** The same rule, for a run already known to return. *)
Lemma for_range_pres (I : Z → S → Prop) n lo s s' :
  for_range n lo body s = Ret s' →
  I lo s →
  (∀ i s s', lo <= i < lo + Z.of_nat n → I i s → body i s = Ret s' → I (i + 1) s') →
  I (lo + Z.of_nat n) s'.
Proof.
  revert lo s. induction n as [|n IH]; intros lo s Hrun H0 Hstep; simpl in Hrun.
  - simplify_eq. by rewrite Z.add_0_r.
  - apply bind_ret in Hrun as (s1 & E1 & Hrun).
    replace (lo + Z.of_nat (Datatypes.S n)) with (lo + 1 + Z.of_nat n) by lia.
    eapply IH; [done| |].
    + eapply Hstep; [|done|done]. lia.
    + intros i t t' Hi. apply Hstep. lia.
Qed.
End loops.

Lemma all_range_true n lo (body : Z → exec bool) :
  all_range n lo body = Ret true ↔ ∀ i, lo <= i < lo + Z.of_nat n → body i = Ret true.
Proof.
  revert lo. induction n as [|n IH]; intros lo; simpl.
  - split; [intros _ i; lia|done].
  - split.
    + intros H i Hi. apply bind_ret in H as (b & E & H). destruct b; [|done].
      destruct (decide (i = lo)) as [->|]; [done|]. apply (proj1 (IH (lo + 1)) H). lia.
    + intros H. rewrite H by lia. simpl. apply IH. intros i Hi. apply H. lia.
Qed.

(** A loop none of whose iterations traps returns [true] or [false]. *)
Lemma all_range_total n lo (body : Z → exec bool) :
  (∀ i, lo <= i < lo + Z.of_nat n → ∃ b, body i = Ret b) →
  ∃ b, all_range n lo body = Ret b.
Proof.
  revert lo. induction n as [|n IH]; intros lo H; simpl; [by eexists|].
  destruct (H lo) as [b E]; [lia|]. rewrite E. simpl.
  destruct b; [|by eexists]. apply IH. intros i Hi. apply H. lia.
Qed.

(** ** Integers and bits *)

Lemma u8_range x : is_u8 (u8 x).
Proof. apply Z.mod_pos_bound; lia. Qed.
Lemma u16_range x : is_u16 (u16 x).
Proof. apply Z.mod_pos_bound; lia. Qed.
Lemma u32_range x : is_u32 (u32 x).
Proof. apply Z.mod_pos_bound; lia. Qed.
Lemma u64_range x : is_u64 (u64 x).
Proof. apply Z.mod_pos_bound; lia. Qed.

Lemma u8_id x : is_u8 x → u8 x = x.
Proof. apply Z.mod_small. Qed.
Lemma u16_id x : is_u16 x → u16 x = x.
Proof. apply Z.mod_small. Qed.
Lemma u32_id x : is_u32 x → u32 x = x.
Proof. apply Z.mod_small. Qed.
Lemma u64_id x : is_u64 x → u64 x = x.
Proof. apply Z.mod_small. Qed.

Lemma s32_id x : 0 <= x < 2 ^ 31 → s32 x = x.
Proof.
  intros Hx. unfold s32. rewrite u32_id by (unfold is_u32; lia).
  by destruct (Z.ltb_spec x (2 ^ 31)); [|lia].
Qed.

Lemma testbit_u8 x i : 0 <= i < 8 → Z.testbit (u8 x) i = Z.testbit x i.
Proof. intros. unfold u8. by rewrite Z.mod_pow2_bits_low by lia. Qed.

Lemma is_u8_testbit x : is_u8 x ↔ 0 <= x ∧ ∀ i, 8 <= i → Z.testbit x i = false.
Proof.
  split.
  - intros Hx. split; [apply Hx|]. intros i Hi.
    rewrite <- (u8_id x) by done. unfold u8. apply Z.mod_pow2_bits_high. lia.
  - intros [Hx Hb]. enough (x = u8 x) as -> by apply u8_range.
    apply Z.bits_inj'. intros i Hi. destruct (decide (i < 8)).
    + by rewrite testbit_u8.
    + unfold u8. rewrite Hb, Z.mod_pow2_bits_high by lia. done.
Qed.

(** Two octets with the same eight bits are equal. *)
Lemma u8_bits_inj x y :
  is_u8 x → is_u8 y → (∀ i, 0 <= i < 8 → Z.testbit x i = Z.testbit y i) → x = y.
Proof.
  intros [Hx0 Hx]%is_u8_testbit [Hy0 Hy]%is_u8_testbit H.
  apply Z.bits_inj'. intros i Hi. destruct (decide (i < 8)); [apply H; lia|].
  rewrite Hx, Hy by lia. done.
Qed.

(** [x & (1 << k)] tests bit [k]. *)
Lemma land_bit_test x k :
  0 <= k → negb (Z.land x (Z.shiftl 1 k) =? 0) = Z.testbit x k.
Proof.
  intros Hk.
  assert (E : ∀ j, 0 <= j → Z.testbit (Z.land x (Z.shiftl 1 k)) j = (j =? k) && Z.testbit x k).
  { intros j Hj. rewrite Z.land_spec, Z.shiftl_1_l, Z.pow2_bits_eqb by done.
    destruct (Z.eqb_spec k j), (Z.eqb_spec j k); subst; simpl;
      rewrite ?andb_true_r, ?andb_false_r; done || lia. }
  destruct (Z.eqb_spec (Z.land x (Z.shiftl 1 k)) 0) as [H|H]; simpl.
  - specialize (E k Hk). rewrite H, Z.testbit_0_l, Z.eqb_refl in E. by simpl in E.
  - destruct (Z.testbit x k) eqn:Ex; [done|]. exfalso. apply H.
    apply Z.bits_inj'. intros j Hj. rewrite E, Z.testbit_0_l by done. apply andb_false_r.
Qed.

(** [(a << k) | b] for a [b] that fits below bit [k]. *)
Lemma lor_shiftl_add k a b : 0 <= k → 0 <= b < 2 ^ k → Z.lor (Z.shiftl a k) b = a * 2 ^ k + b.
Proof.
  intros Hk Hb. rewrite Z.shiftl_mul_pow2 by done.
  assert (H : Z.land (a * 2 ^ k) b = 0).
  { apply Z.bits_inj'. intros n Hn. rewrite Z.land_spec, Z.testbit_0_l.
    destruct (decide (n < k)).
    - by rewrite Z.mul_pow2_bits_low by lia.
    - destruct (decide (b = 0)) as [->|]; [by rewrite Z.testbit_0_l, andb_false_r|].
      rewrite (Z.bits_above_log2 b n); [apply andb_false_r|lia|].
      apply Z.log2_lt_pow2; [lia|]. apply Z.lt_le_trans with (2 ^ k); [lia|].
      apply Z.pow_le_mono_r; lia. }
  rewrite <- Z.lxor_lor by done. symmetry. by apply Z.add_nocarry_lxor.
Qed.

(** ** Lists *)

Lemma zlen_nonneg {A} (l : list A) : 0 <= zlen l.
Proof. unfold zlen. lia. Qed.

Lemma zlen_app {A} (l k : list A) : zlen (l ++ k) = zlen l + zlen k.
Proof. unfold zlen. rewrite length_app. lia. Qed.

Lemma zlen_cons {A} (x : A) l : zlen (x :: l) = zlen l + 1.
Proof. unfold zlen. simpl length. lia. Qed.

Lemma zlen_snoc {A} (l : list A) x : zlen (l ++ [x]) = zlen l + 1.
Proof. rewrite zlen_app. done. Qed.

Lemma zlen_insert {A} (l : list A) i x : zlen (<[i:=x]> l) = zlen l.
Proof. unfold zlen. by rewrite length_insert. Qed.

Lemma byte_at_ok l i : bytes_ok l → is_u8 (byte_at l i).
Proof.
  intros H. unfold byte_at. destruct (l !! Z.to_nat i) eqn:E; simpl.
  - eapply Forall_lookup_1; [exact H|exact E].
  - unfold is_u8; lia.
Qed.

Lemma byte_at_beyond l i : zlen l <= i → byte_at l i = 0.
Proof.
  intros H. unfold byte_at, zlen in *. rewrite lookup_ge_None_2; [done|lia].
Qed.

Lemma byte_at_insert l i j x :
  0 <= i < zlen l → 0 <= j →
  byte_at (<[Z.to_nat i:=x]> l) j = if decide (i = j) then x else byte_at l j.
Proof.
  intros Hi Hj. unfold byte_at, zlen in *. case_decide; subst.
  - rewrite list_lookup_insert_eq; [done|lia].
  - rewrite list_lookup_insert_ne; [done|lia].
Qed.

Lemma byte_at_app l k i :
  0 <= i → byte_at (l ++ k) i = if decide (i < zlen l) then byte_at l i else byte_at k (i - zlen l).
Proof.
  intros Hi. unfold byte_at, zlen. case_decide.
  - rewrite lookup_app_l; [done|lia].
  - rewrite lookup_app_r by lia. do 2 f_equal. lia.
Qed.

Lemma byte_at_replicate n i : byte_at (replicate n 0) i = 0.
Proof.
  unfold byte_at. destruct (decide (Z.to_nat i < n)%nat).
  - rewrite lookup_replicate_2; done.
  - rewrite lookup_ge_None_2; [done|]. rewrite length_replicate. lia.
Qed.

(** Byte strings of the same length that agree at every index are equal. *)
Lemma byte_at_ext l k :
  zlen l = zlen k → (∀ i, 0 <= i < zlen l → byte_at l i = byte_at k i) → l = k.
Proof.
  unfold zlen, byte_at. intros Hlen H. apply list_eq_same_length with (length k); [done|lia|].
  intros i x y Hi Hx Hy. specialize (H (Z.of_nat i)).
  rewrite Nat2Z.id, Hx, Hy in H. apply H. lia.
Qed.

(** ** Arrays with a fill count

    The tables of the program are arrays with a count of used slots, searched
    from the front; an entry is removed by moving the last one into its slot. *)

Fixpoint find_index {A} (p : A → bool) (l : list A) : option nat :=
  match l with
  | [] => None
  | x :: l' => if p x then Some O else S <$> find_index p l'
  end.

Definition swap_remove {A} (i : nat) (l : list A) : list A :=
  match list.last l with
  | Some x => take (length l - 1) (<[i:=x]> l)
  | None => l
  end.

Lemma find_index_Some {A} (p : A → bool) l i :
  find_index p l = Some i →
  ∃ x, l !! i = Some x ∧ p x = true ∧ Forall (fun y => p y = false) (take i l).
Proof.
  revert i. induction l as [|x l IH]; intros i; [done|]. cbn [find_index]. destruct (p x) eqn:E.
  - intros [= <-]. exists x. split_and!; [done|done|constructor].
  - destruct (find_index p l) as [j|]; [|done]. intros [= <-].
    destruct (IH j eq_refl) as (y & H1 & H2 & H3). exists y. split_and!; [done|done|by constructor].
Qed.

Lemma find_index_None {A} (p : A → bool) l : find_index p l = None ↔ Forall (fun y => p y = false) l.
Proof.
  induction l as [|x l IH]; cbn [find_index]; [split; [constructor|done]|]. destruct (p x) eqn:E.
  - split; [done|]. intros H. apply Forall_cons_1 in H as [H _]. congruence.
  - destruct (find_index p l).
    + split; [done|]. intros H. apply Forall_cons_1 in H as [_ H]. by apply IH in H.
    + split; [intros _; constructor; [done|by apply IH]|done].
Qed.

Lemma swap_remove_perm {A} (i : nat) (l : list A) :
  (i < length l)%nat → swap_remove i l ≡ₚ delete i l.
Proof.
  intros Hi. destruct l as [|x l _] using rev_ind; [simpl in Hi; lia|].
  rewrite length_app in Hi. simpl in Hi. unfold swap_remove. rewrite last_snoc, length_app.
  simpl (length [x]). replace (length l + 1 - 1)%nat with (length l) by lia.
  destruct (decide (i = length l)) as [->|Hne].
  - rewrite insert_app_r_alt, Nat.sub_diag by lia. rewrite take_app_length.
    rewrite delete_take_drop, take_app_length. rewrite drop_ge by (rewrite length_app; simpl; lia).
    by rewrite app_nil_r.
  - rewrite insert_app_l, take_app_length' by (rewrite ?length_insert; lia).
    destruct (lookup_lt_is_Some_2 l i) as [y Hy]; [lia|].
    rewrite insert_take_drop by lia. rewrite delete_take_drop, take_app_le, drop_app_le by lia.
    rewrite (assoc_L (++)). rewrite <- (Permutation_app_comm [x]). cbn [app].
    by rewrite Permutation_middle.
Qed.

Lemma swap_remove_elem {A} (i : nat) (l : list A) x :
  l !! i = Some x → l ≡ₚ x :: swap_remove i l.
Proof.
  intros H. pose proof (lookup_lt_Some _ _ _ H). rewrite swap_remove_perm by done. by apply delete_Permutation.
Qed.

Lemma swap_remove_length {A} (i : nat) (l : list A) :
  (i < length l)%nat → length (swap_remove i l) = (length l - 1)%nat.
Proof.
  intros H. destruct (lookup_lt_is_Some_2 l i H) as [x Hx].
  apply swap_remove_elem, Permutation_length in Hx. simpl in Hx. lia.
Qed.

Lemma alter_as_insert {A} (f : A → A) i (l : list A) x :
  l !! i = Some x → alter f i l = <[i := f x]> l.
Proof.
  revert i. induction l as [|y l IH]; intros [|i] H; try done; cbn in *.
  - by injection H as ->.
  - f_equal. by apply IH.
Qed.

(** Replacing one of several lists changes their concatenation in one place. *)
Lemma concat_insert {A} (ls : list (list A)) i l :
  ls !! i = Some l →
  ∃ rest, concat ls ≡ₚ l ++ rest ∧ (∀ l', concat (<[i := l']> ls) ≡ₚ l' ++ rest) ∧
    ∀ j k, j ≠ i → ls !! j = Some k → ∀ x, x ∈ k → x ∈ rest.
Proof.
  revert i. induction ls as [|k ls IH]; intros i Hi; [done|]. destruct i as [|i].
  - injection Hi as ->. exists (concat ls). split_and!; [done|done|]. intros [|j] k Hj; [done|]. cbn. intros Hk x Hx.
    apply list_elem_of_In, in_concat. exists k. split; apply list_elem_of_In; [by eapply list_elem_of_lookup_2|done].
  - cbn in Hi. destruct (IH i Hi) as (rest & E & Ei & Hr). exists (k ++ rest). split_and!.
    + cbn [concat]. rewrite E. solve_Permutation.
    + intros l'. cbn. rewrite Ei. solve_Permutation.
    + intros [|j] k' Hj Hk x Hx.
      * injection Hk as ->. apply elem_of_app. by left.
      * apply elem_of_app. right. eapply (Hr j k'); [lia|done|done].
Qed.

Lemma flat_map_insert {A B} (f : A → list B) l k x :
  l !! k = Some x → ∃ rest, flat_map f l ≡ₚ f x ++ rest ∧ ∀ y, flat_map f (<[k := y]> l) ≡ₚ f y ++ rest.
Proof.
  intros H. destruct (concat_insert (map f l) k (f x)) as (rest & E & Ei & _).
  { change (map ?f) with (fmap (M := list) f). by rewrite list_lookup_fmap, H. }
  exists rest. rewrite flat_map_concat_map. split; [done|]. intros y. rewrite flat_map_concat_map.
  change (map ?f) with (fmap (M := list) f) in *. rewrite list_fmap_insert. apply Ei.
Qed.

Lemma filter_perm {A} (f : A → bool) l l' : l ≡ₚ l' → List.filter f l ≡ₚ List.filter f l'.
Proof.
  induction 1 as [|x l l' _ IH|x y l|l1 l2 l3 _ IH1 _ IH2]; cbn; [done| | |by etrans].
  - by destruct (f x); [rewrite IH|].
  - destruct (f x), (f y); try done. apply perm_swap.
Qed.

Lemma omap_length {A B} (f : A → option B) (l : list A) : (length (omap f l) <= length l)%nat.
Proof. induction l as [|x l IH]; cbn; [done|]. destruct (f x); cbn in *; lia. Qed.

(** ** Automation *)

Create HintDb poseidon.
#[export] Hint Resolve u8_range u16_range u32_range u64_range zlen_nonneg byte_at_ok : poseidon.
Create Rewrite HintDb poseidon.
#[export] Hint Rewrite @zlen_app @zlen_insert : poseidon.

(** Case analysis on every boolean comparison of the goal and context. *)
Ltac zcases :=
  repeat match goal with
  | |- context [?a =? ?b] => destruct (Z.eqb_spec a b)
  | |- context [?a <=? ?b] => destruct (Z.leb_spec a b)
  | |- context [?a <? ?b] => destruct (Z.ltb_spec a b)
  | H : context [?a =? ?b] |- _ => destruct (Z.eqb_spec a b)
  | H : context [?a <=? ?b] |- _ => destruct (Z.leb_spec a b)
  | H : context [?a <? ?b] |- _ => destruct (Z.ltb_spec a b)
  end.

(** Inversion of a run that returned: peels binds and decides the branches the
    run cannot have taken. *)
Ltac exec_inv H :=
  repeat match type of H with
  | xbind _ _ = Ret _ =>
      let a := fresh "a" in let E := fresh "E" in apply bind_ret in H as (a & E & H); cbn beta in H
  | (if ?b then Ret None else _) = Ret (Some _) =>
      let Eb := fresh "Eb" in destruct b eqn:Eb; [discriminate H|]
  | (if ?b then Trap else _) = Ret _ =>
      let Eb := fresh "Eb" in destruct b eqn:Eb; [discriminate H|]
  | (match ?r with Some _ => _ | None => Ret None end) = Ret (Some _) =>
      is_var r; destruct r; [|discriminate H]
  | Ret (Some _) = Ret (Some _) => injection H as H
  end.

(** ** [struct timeval] and its macros

    [timeradd], [timersub] and [timercmp] as [<sys/time.h>] defines them, used by
    the query table, the latency cache and the gossip scheduler; on normalised
    values they are arithmetic on microseconds. *)

Record timeval := mkTimeval {
  tv_sec : Z;
  tv_usec : Z
}.

#[export] Instance timeval_eq_dec : EqDecision timeval.
Proof. solve_decision. Defined.

Definition timeradd (a b : timeval) : timeval :=
  let s := tv_sec a + tv_sec b in
  let u := tv_usec a + tv_usec b in
  if 1000000 <=? u then mkTimeval (s + 1) (u - 1000000) else mkTimeval s u.

Definition timersub (a b : timeval) : timeval :=
  let s := tv_sec a - tv_sec b in
  let u := tv_usec a - tv_usec b in
  if u <? 0 then mkTimeval (s - 1) (u + 1000000) else mkTimeval s u.

(** [timercmp(a, b, CMP)]: the seconds decide unless they are equal. *)
Definition timercmp (cmp : Z → Z → bool) (a b : timeval) : bool :=
  if tv_sec a =? tv_sec b then cmp (tv_usec a) (tv_usec b) else cmp (tv_sec a) (tv_sec b).

(** [timeout_ms] milliseconds as the code writes them. *)
Definition timeval_of_ms (ms : Z) : timeval := mkTimeval (ms / 1000) ((ms mod 1000) * 1000).

(** ** Microseconds *)

Definition tv_us (t : timeval) : Z := tv_sec t * 1000000 + tv_usec t.
Definition tv_ok (t : timeval) : Prop := 0 <= tv_usec t < 1000000.

Lemma timeradd_us a b : tv_ok a → tv_ok b → tv_ok (timeradd a b) ∧ tv_us (timeradd a b) = tv_us a + tv_us b.
Proof.
  unfold tv_ok, tv_us, timeradd. intros. destruct (Z.leb_spec 1000000 (tv_usec a + tv_usec b)); simpl; lia.
Qed.

Lemma timersub_us a b : tv_ok a → tv_ok b → tv_ok (timersub a b) ∧ tv_us (timersub a b) = tv_us a - tv_us b.
Proof.
  unfold tv_ok, tv_us, timersub. intros. destruct (Z.ltb_spec (tv_usec a - tv_usec b) 0); simpl; lia.
Qed.

Lemma timercmp_gt a b : tv_ok a → tv_ok b → timercmp Z.gtb a b = (tv_us b <? tv_us a).
Proof.
  unfold tv_ok, tv_us, timercmp. intros. rewrite !Z.gtb_ltb.
  destruct (Z.eqb_spec (tv_sec a) (tv_sec b)); apply eq_true_iff_eq; rewrite !Z.ltb_lt; lia.
Qed.

Lemma timercmp_ge a b : tv_ok a → tv_ok b → timercmp Z.geb a b = (tv_us b <=? tv_us a).
Proof.
  unfold tv_ok, tv_us, timercmp. intros. rewrite !Z.geb_leb.
  destruct (Z.eqb_spec (tv_sec a) (tv_sec b)); apply eq_true_iff_eq; rewrite !Z.leb_le; lia.
Qed.

Lemma timercmp_lt a b : tv_ok a → tv_ok b → timercmp Z.ltb a b = (tv_us a <? tv_us b).
Proof.
  unfold tv_ok, tv_us, timercmp. intros.
  destruct (Z.eqb_spec (tv_sec a) (tv_sec b)); apply eq_true_iff_eq; rewrite !Z.ltb_lt; lia.
Qed.

Lemma timeval_of_ms_us ms : 0 <= ms → tv_ok (timeval_of_ms ms) ∧ tv_us (timeval_of_ms ms) = ms * 1000.
Proof.
  intros Hms. unfold tv_ok, tv_us, timeval_of_ms. simpl.
  pose proof (Z.div_mod ms 1000 ltac:(lia)). pose proof (Z.mod_pos_bound ms 1000 ltac:(lia)). lia.
Qed.

(** A deadline has passed when more than the timeout has elapsed. *)
Lemma expired_us start timeout now :
  tv_ok start → tv_ok timeout → tv_ok now →
  timercmp Z.gtb now (timeradd start timeout) = (tv_us start + tv_us timeout <? tv_us now).
Proof. intros. destruct (timeradd_us start timeout) as [? E]; [done|done|]. by rewrite timercmp_gt, E. Qed.
