(* ===== verification/Bitset.v ===== *)
(** * Bitset: the growable bit set of [src/Bloom/bitset.c]

    The struct [{uint8_t* data; size_t size}] is the list of the [size] bytes
    [data] points to.  Allocation never fails ([get_clear_memory] aborts), and
    the per-set lock makes each operation atomic, so operations are functions
    on the byte list. *)

From S2P Require Import Prelude.

Record bitset_t := mkBitset { bits_data : list Z }.

Definition bitset_size (set : bitset_t) : Z := zlen (bits_data set).
Definition bitset_bit_count (set : bitset_t) : Z := bitset_size set * 8.

Definition bitset_create (byte_size : Z) : bitset_t :=
  mkBitset (replicate (Z.to_nat byte_size) 0).

(** [bitset_ensure_capacity]: a fresh zeroed array of [byte_index + 1] bytes
    with the old contents copied in. *)
Definition bitset_ensure_capacity (set : bitset_t) (byte_index : Z) : bitset_t :=
  if byte_index <? bitset_size set then set
  else
    let new_size := byte_index + 1 in
    mkBitset (bits_data set ++ replicate (Z.to_nat (new_size - bitset_size set)) 0).

Definition bitset_get (set : bitset_t) (bit_index : Z) : bool :=
  let byte_index := bit_index / 8 in
  let bit_offset := bit_index mod 8 in
  if bitset_size set <=? byte_index then false
  else negb (Z.land (byte_at (bits_data set) byte_index) (Z.shiftl 1 bit_offset) =? 0).

(** Returns the previous value of the bit and the updated set. *)
Definition bitset_set (set : bitset_t) (bit_index : Z) (value : bool) : bool * bitset_t :=
  let byte_index := bit_index / 8 in
  let bit_offset := bit_index mod 8 in
  let set := bitset_ensure_capacity set byte_index in
  let b := byte_at (bits_data set) byte_index in
  let old := negb (Z.land b (Z.shiftl 1 bit_offset) =? 0) in
  let b' := if value then u8 (Z.lor b (Z.shiftl 1 bit_offset))
            else u8 (Z.land b (Z.lnot (Z.shiftl 1 bit_offset))) in
  (old, mkBitset (<[Z.to_nat byte_index := b']> (bits_data set))).

(** The call with its result ignored. *)
Definition bitset_put (set : bitset_t) (bit_index : Z) (value : bool) : bitset_t :=
  (bitset_set set bit_index value).2.

Definition bitset_update (set : bitset_t) (bit_index : Z) (value : bool) : bool * bitset_t :=
  bitset_set set bit_index value.

(** The comparison loop over the common prefix: the first differing pair of
    bytes replaces the two sizes. *)
Fixpoint bitset_compare_tails (a b : list Z) (a_tail b_tail : Z) : Z * Z :=
  match a, b with
  | x :: a', y :: b' =>
      if x =? y then bitset_compare_tails a' b' a_tail b_tail else (x, y)
  | _, _ => (a_tail, b_tail)
  end.

Definition bitset_compare (a b : bitset_t) : Z :=
  let '(a_tail, b_tail) :=
    bitset_compare_tails (bits_data a) (bits_data b) (bitset_size a) (bitset_size b) in
  if b_tail <? a_tail then 1
  else if a_tail <? b_tail then -1
  else 0.

Definition bitset_eq (a b : bitset_t) : bool := bitset_compare a b =? 0.

Definition op_xor (a b : Z) : Z := u8 (Z.lxor a b).
Definition op_and (a b : Z) : Z := u8 (Z.land a b).
Definition op_or (a b : Z) : Z := u8 (Z.lor a b).

(** [op] bytewise on the common prefix, [op x 0] on the rest of the longer. *)
Definition bitset_bitwise_op (a b : bitset_t) (op : Z → Z → Z) : bitset_t :=
  let min := Z.to_nat (Z.min (bitset_size a) (bitset_size b)) in
  let longer := if bitset_size b <=? bitset_size a then a else b in
  mkBitset (zip_with op (take min (bits_data a)) (take min (bits_data b)) ++
            map (fun x => op x 0) (drop min (bits_data longer))).

Definition bitset_xor (a b : bitset_t) : bitset_t := bitset_bitwise_op a b op_xor.
Definition bitset_and (a b : bitset_t) : bitset_t := bitset_bitwise_op a b op_and.
Definition bitset_or (a b : bitset_t) : bitset_t := bitset_bitwise_op a b op_or.

Definition bitset_not (a : bitset_t) : bitset_t :=
  mkBitset (map (fun x => u8 (Z.lnot x)) (bits_data a)).

(** [while (size > 1 && data[size - 1] == 0) size--]: at most [size]
    iterations, so [fuel = size] covers the loop. *)
Fixpoint compact_loop (fuel : nat) (data : list Z) (size : Z) : Z :=
  match fuel with
  | O => size
  | S fuel' =>
      if (1 <? size) && (byte_at data (size - 1) =? 0)
      then compact_loop fuel' data (size - 1)
      else size
  end.

Definition bitset_compact (set : bitset_t) : bitset_t :=
  let size := compact_loop (length (bits_data set)) (bits_data set) (bitset_size set) in
  mkBitset (take (Z.to_nat size) (bits_data set)).

(** ** Invariant *)

Definition bitset_wf (s : bitset_t) : Prop := bytes_ok (bits_data s).

(** ** Reads *)

(** A read is the test of one bit of one byte; out of range reads are 0. *)
Lemma bitset_get_testbit s i :
  0 <= i → bitset_get s i = Z.testbit (byte_at (bits_data s) (i / 8)) (i mod 8).
Proof.
  intros Hi. unfold bitset_get.
  pose proof (Z.mod_pos_bound i 8). destruct (Z.leb_spec (bitset_size s) (i / 8)).
  - rewrite byte_at_beyond by done. by rewrite Z.testbit_0_l.
  - apply land_bit_test. lia.
Qed.

Lemma bitset_get_beyond s i : bitset_bit_count s <= i → bitset_get s i = false.
Proof.
  intros H. unfold bitset_get, bitset_bit_count in *.
  destruct (Z.leb_spec (bitset_size s) (i / 8)); [done|].
  pose proof (Z.div_mod i 8). pose proof (Z.mod_pos_bound i 8). lia.
Qed.

Lemma bitset_get_create n i : 0 <= i → bitset_get (bitset_create n) i = false.
Proof.
  intros Hi. rewrite bitset_get_testbit by done. simpl.
  by rewrite byte_at_replicate, Z.testbit_0_l.
Qed.

Lemma bitset_create_wf n : bitset_wf (bitset_create n).
Proof. apply Forall_replicate. unfold is_u8. lia. Qed.

Lemma bitset_create_size n : 0 <= n → bitset_size (bitset_create n) = n.
Proof. intros. unfold bitset_size, zlen. simpl. rewrite length_replicate. lia. Qed.

(** Two sets of the same size with the same bits are equal. *)
Lemma bitset_ext a b :
  bitset_wf a → bitset_wf b → bitset_size a = bitset_size b →
  (∀ i, 0 <= i → bitset_get a i = bitset_get b i) → a = b.
Proof.
  intros Ha Hb Hs H. destruct a as [da], b as [db]. f_equal. unfold bitset_size in Hs. simpl in Hs.
  apply byte_at_ext; [done|]. intros i Hi. apply u8_bits_inj; [by apply byte_at_ok..|]. intros j Hj.
  specialize (H (8 * i + j) ltac:(lia)). rewrite !bitset_get_testbit in H by lia. simpl in H.
  rewrite (Z.mul_comm 8), Z.add_comm, Z.div_add, Z.mod_add in H by lia.
  rewrite Z.div_small, Z.mod_small in H by lia. exact H.
Qed.

(** ** Growth *)

Lemma ensure_capacity_at s k i :
  0 <= i → byte_at (bits_data (bitset_ensure_capacity s k)) i = byte_at (bits_data s) i.
Proof.
  intros Hi. unfold bitset_ensure_capacity. destruct (Z.ltb_spec k (bitset_size s)); [done|].
  simpl. rewrite byte_at_app by done. case_decide; [done|].
  rewrite byte_at_replicate, byte_at_beyond; [done|lia].
Qed.

Lemma ensure_capacity_size s k :
  0 <= k → bitset_size (bitset_ensure_capacity s k) = Z.max (bitset_size s) (k + 1).
Proof.
  intros Hk. unfold bitset_ensure_capacity. destruct (Z.ltb_spec k (bitset_size s)); [lia|].
  unfold bitset_size in *. simpl. rewrite zlen_app. unfold zlen in *.
  rewrite length_replicate. lia.
Qed.

Lemma ensure_capacity_wf s k : bitset_wf s → bitset_wf (bitset_ensure_capacity s k).
Proof.
  intros H. unfold bitset_ensure_capacity. destruct (k <? bitset_size s); [done|].
  apply Forall_app. split; [done|]. apply Forall_replicate. unfold is_u8. lia.
Qed.

(** ** Writes *)

Lemma bitset_set_wf s i v : bitset_wf s → bitset_wf (bitset_set s i v).2.
Proof.
  intros H. unfold bitset_set. simpl. apply Forall_insert.
  - by apply ensure_capacity_wf.
  - destruct v; apply u8_range.
Qed.

Lemma bitset_set_size s i v :
  0 <= i → bitset_size (bitset_set s i v).2 = Z.max (bitset_size s) (i / 8 + 1).
Proof.
  intros Hi. unfold bitset_set. simpl. unfold bitset_size at 1. simpl.
  rewrite zlen_insert. apply ensure_capacity_size. apply Z.div_pos; lia.
Qed.

Lemma bitset_set_old s i v : 0 <= i → (bitset_set s i v).1 = bitset_get s i.
Proof.
  intros Hi. pose proof (Z.mod_pos_bound i 8). assert (0 <= i / 8) by (apply Z.div_pos; lia).
  unfold bitset_set. simpl. rewrite ensure_capacity_at, land_bit_test by lia.
  by rewrite bitset_get_testbit.
Qed.

(** The write of one bit, bit by bit. *)
Lemma write_bit_testbit b k j (v : bool) :
  0 <= k < 8 → 0 <= j < 8 →
  Z.testbit (if v then u8 (Z.lor b (Z.shiftl 1 k)) else u8 (Z.land b (Z.lnot (Z.shiftl 1 k)))) j
  = if decide (k = j) then v else Z.testbit b j.
Proof.
  intros Hk Hj. destruct v; rewrite testbit_u8 by done.
  - rewrite Z.lor_spec, Z.shiftl_1_l, Z.pow2_bits_eqb by lia.
    case_decide; subst; zcases; try lia; by rewrite ?orb_true_r, ?orb_false_r.
  - rewrite Z.land_spec, Z.lnot_spec, Z.shiftl_1_l, Z.pow2_bits_eqb by lia.
    case_decide; subst; zcases; try lia; by rewrite ?andb_true_r, ?andb_false_r.
Qed.

(** Read after write: exactly the written bit changes, and the set grows as
    needed. *)
Lemma bitset_get_set s i j v :
  0 <= i → 0 <= j →
  bitset_get (bitset_set s i v).2 j = if decide (i = j) then v else bitset_get s j.
Proof.
  intros Hi Hj. rewrite !bitset_get_testbit by done.
  assert (0 <= i / 8) by (apply Z.div_pos; lia). assert (0 <= j / 8) by (apply Z.div_pos; lia).
  pose proof (Z.mod_pos_bound i 8). pose proof (Z.mod_pos_bound j 8).
  pose proof (Z.div_mod i 8). pose proof (Z.div_mod j 8).
  unfold bitset_set. simpl. rewrite byte_at_insert by
    (unfold bitset_size in *; pose proof (ensure_capacity_size s (i / 8)); unfold bitset_size in *; lia).
  case_decide as E.
  - rewrite write_bit_testbit, ensure_capacity_at by lia.
    repeat case_decide; try done; try lia. by rewrite E.
  - rewrite ensure_capacity_at by done. case_decide; [subst; done|done].
Qed.

Lemma bitset_put_wf s i v : bitset_wf s → bitset_wf (bitset_put s i v).
Proof. apply bitset_set_wf. Qed.

Lemma bitset_put_size s i v :
  0 <= i → bitset_size (bitset_put s i v) = Z.max (bitset_size s) (i / 8 + 1).
Proof. apply bitset_set_size. Qed.

Lemma bitset_get_put s i j v :
  0 <= i → 0 <= j →
  bitset_get (bitset_put s i v) j = if decide (i = j) then v else bitset_get s j.
Proof. apply bitset_get_set. Qed.

(** ** Comparison *)

(** The reference order: lexicographic on bytes, the shorter list first. *)
Fixpoint lex_compare (a b : list Z) : comparison :=
  match a, b with
  | [], [] => Eq
  | [], _ :: _ => Lt
  | _ :: _, [] => Gt
  | x :: a', y :: b' => match x ?= y with Eq => lex_compare a' b' | c => c end
  end.

Definition sign_of (c : comparison) : Z :=
  match c with Lt => -1 | Eq => 0 | Gt => 1 end.

Lemma lex_compare_eq a b : lex_compare a b = Eq ↔ a = b.
Proof.
  revert b. induction a as [|x a IH]; intros [|y b]; simpl; try done.
  destruct (Z.compare_spec x y); subst.
  - rewrite IH. split; [by intros ->|by intros [= ->]].
  - split; [done|]. intros [= -> ->]. lia.
  - split; [done|]. intros [= -> ->]. lia.
Qed.

Lemma compare_tails_lex a b na nb :
  na - zlen a = nb - zlen b →
  (let '(x, y) := bitset_compare_tails a b na nb in
   if y <? x then 1 else if x <? y then -1 else 0) = sign_of (lex_compare a b).
Proof.
  revert b. induction a as [|x a IH]; intros [|y b] H; simpl; unfold zlen in *; simpl in H.
  - zcases; simpl; lia.
  - zcases; simpl; lia.
  - zcases; simpl; lia.
  - destruct (Z.eqb_spec x y) as [->|].
    + rewrite Z.compare_refl. apply IH. unfold zlen. lia.
    + destruct (Z.compare_spec x y); simpl; zcases; lia.
Qed.

(** [bitset_compare] is the sign of the lexicographic order. *)
Lemma bitset_compare_lex a b :
  bitset_compare a b = sign_of (lex_compare (bits_data a) (bits_data b)).
Proof. apply compare_tails_lex. unfold bitset_size. lia. Qed.

Lemma bitset_eq_spec a b : bitset_eq a b = true ↔ a = b.
Proof.
  unfold bitset_eq. rewrite bitset_compare_lex, Z.eqb_eq.
  destruct a as [da], b as [db]. simpl.
  transitivity (lex_compare da db = Eq).
  - destruct (lex_compare da db); simpl; naive_solver lia.
  - rewrite lex_compare_eq. naive_solver.
Qed.

(** ** Bitwise operations *)

(** The byte of the result of a bitwise operation at any index. *)
Lemma bitwise_op_at a b op i :
  0 <= i → op 0 0 = 0 → (∀ x y, op x y = op y x) →
  byte_at (bits_data (bitset_bitwise_op a b op)) i =
  op (byte_at (bits_data a) i) (byte_at (bits_data b) i).
Proof.
  intros Hi H00 Hcomm. unfold bitset_bitwise_op. simpl.
  destruct a as [da], b as [db]. unfold bitset_size, zlen. simpl.
  set (m := Z.to_nat (Z.min (Z.of_nat (length da)) (Z.of_nat (length db)))).
  unfold byte_at. set (n := Z.to_nat i).
  destruct (decide (n < m)%nat).
  - rewrite lookup_app_l by (rewrite length_zip_with, !length_take; lia).
    rewrite lookup_zip_with, !lookup_take_lt by done.
    destruct (lookup_lt_is_Some_2 da n) as [x ->]; [lia|].
    destruct (lookup_lt_is_Some_2 db n) as [y ->]; [lia|]. done.
  - rewrite lookup_app_r by (rewrite length_zip_with, !length_take; lia).
    rewrite length_zip_with, !length_take.
    replace (n - _ `min` _)%nat with (n - m)%nat by lia.
    destruct (Z.leb_spec (Z.of_nat (length db)) (Z.of_nat (length da))); rewrite list_lookup_fmap, lookup_drop;
      replace (m + (n - m))%nat with n by lia; simpl.
    + rewrite (lookup_ge_None_2 db) by lia. destruct (da !! n); simpl; congruence.
    + rewrite (lookup_ge_None_2 da) by lia. destruct (db !! n); simpl; [apply Hcomm|congruence].
Qed.

Lemma op_xor_comm x y : op_xor x y = op_xor y x.
Proof. unfold op_xor. by rewrite Z.lxor_comm. Qed.
Lemma op_and_comm x y : op_and x y = op_and y x.
Proof. unfold op_and. by rewrite Z.land_comm. Qed.
Lemma op_or_comm x y : op_or x y = op_or y x.
Proof. unfold op_or. by rewrite Z.lor_comm. Qed.

Lemma bitset_bitwise_wf a b op : (∀ x y, is_u8 (op x y)) → bitset_wf (bitset_bitwise_op a b op).
Proof.
  intros H. apply Forall_app. split; [|apply Forall_map, Forall_true; auto].
  apply Forall_lookup_2. intros i x Hx.
  apply lookup_zip_with_Some in Hx as (? & ? & -> & _). auto.
Qed.

Lemma bitset_or_wf a b : bitset_wf (bitset_or a b).
Proof. apply bitset_bitwise_wf. intros. apply u8_range. Qed.

(** The size of the result is the larger of the two sizes. *)
Lemma bitset_bitwise_size a b op :
  bitset_size (bitset_bitwise_op a b op) = Z.max (bitset_size a) (bitset_size b).
Proof.
  unfold bitset_bitwise_op, bitset_size, zlen. simpl.
  rewrite length_app, length_zip_with, !length_take, length_map, length_drop.
  destruct (Z.leb_spec (Z.of_nat (length (bits_data b))) (Z.of_nat (length (bits_data a)))); lia.
Qed.

(** Bit by bit, [bitset_xor], [bitset_and] and [bitset_or] are the boolean
    operations, whatever the sizes of the operands. *)
Lemma bitset_bitwise_get a b i :
  0 <= i →
  bitset_get (bitset_xor a b) i = xorb (bitset_get a i) (bitset_get b i) ∧
  bitset_get (bitset_and a b) i = andb (bitset_get a i) (bitset_get b i) ∧
  bitset_get (bitset_or a b) i = orb (bitset_get a i) (bitset_get b i).
Proof.
  intros Hi. assert (0 <= i / 8) by (apply Z.div_pos; lia). pose proof (Z.mod_pos_bound i 8).
  rewrite !bitset_get_testbit by done. unfold bitset_xor, bitset_and, bitset_or.
  rewrite !bitwise_op_at by (done || auto using op_xor_comm, op_and_comm, op_or_comm).
  unfold op_xor, op_and, op_or. rewrite !testbit_u8 by lia.
  by rewrite Z.lxor_spec, Z.land_spec, Z.lor_spec.
Qed.

Lemma bitset_get_or a b i :
  0 <= i → bitset_get (bitset_or a b) i = orb (bitset_get a i) (bitset_get b i).
Proof. intros Hi. by destruct (bitset_bitwise_get a b i Hi) as (_ & _ & ->). Qed.

(** Complement flips the bits in range and keeps the size. *)
Lemma bitset_get_not a i :
  0 <= i < bitset_bit_count a → bitset_get (bitset_not a) i = negb (bitset_get a i).
Proof.
  intros Hi. unfold bitset_bit_count, bitset_size, zlen in Hi.
  rewrite !bitset_get_testbit by lia. pose proof (Z.mod_pos_bound i 8).
  assert (0 <= i / 8 < Z.of_nat (length (bits_data a))) by (split; [apply Z.div_pos|apply Z.div_lt_upper_bound]; lia).
  simpl. unfold byte_at. rewrite list_lookup_fmap.
  destruct (lookup_lt_is_Some_2 (bits_data a) (Z.to_nat (i / 8))) as [x ->]; [lia|]. simpl.
  rewrite testbit_u8 by lia. by rewrite Z.lnot_spec by lia.
Qed.

(** ** Compaction *)

Lemma compact_loop_spec fuel data size :
  0 <= size <= Z.of_nat fuel →
  let r := compact_loop fuel data size in
  Z.min 1 size <= r <= size ∧
  (∀ i, r <= i < size → byte_at data i = 0) ∧
  (1 < r → byte_at data (r - 1) ≠ 0).
Proof.
  revert size. induction fuel as [|fuel IH]; intros size Hs; simpl.
  - split_and!; intros; lia.
  - destruct (Z.ltb_spec 1 size); simpl; [|split_and!; intros; lia].
    destruct (Z.eqb_spec (byte_at data (size - 1)) 0) as [E|E].
    + destruct (IH (size - 1)) as (H1 & H2 & H3); [lia|].
      split_and!; [lia|lia| |done]. intros i Hi.
      destruct (decide (i = size - 1)) as [->|]; [done|]. apply H2. lia.
    + split_and!; intros; lia.
Qed.

(** [bitset_compact] changes no bit and leaves no trailing zero byte beyond
    the first. *)
Lemma bitset_compact_spec s :
  (∀ i, 0 <= i → bitset_get (bitset_compact s) i = bitset_get s i) ∧
  bitset_size (bitset_compact s) <= bitset_size s ∧
  (1 < bitset_size (bitset_compact s) →
   byte_at (bits_data (bitset_compact s)) (bitset_size (bitset_compact s) - 1) ≠ 0).
Proof.
  destruct (compact_loop_spec (length (bits_data s)) (bits_data s) (bitset_size s))
    as (H1 & H2 & H3); [unfold bitset_size, zlen; lia|].
  unfold bitset_compact. set (r := compact_loop _ _ _) in *.
  assert (Hsz : bitset_size (mkBitset (take (Z.to_nat r) (bits_data s))) = r).
  { unfold bitset_size, zlen in *. simpl. rewrite length_take. lia. }
  assert (Hat : ∀ i, 0 <= i → byte_at (take (Z.to_nat r) (bits_data s)) i = byte_at (bits_data s) i).
  { intros i Hi. destruct (decide (i < r)).
    - unfold byte_at. by rewrite lookup_take_lt by lia.
    - rewrite (byte_at_beyond (take _ _)) by (unfold bitset_size in Hsz; simpl in Hsz; lia).
      destruct (decide (i < bitset_size s)); [by rewrite H2 by lia|].
      by rewrite byte_at_beyond by (unfold bitset_size in *; lia). }
  rewrite Hsz. split_and!.
  - intros i Hi. rewrite !bitset_get_testbit by done. simpl.
    by rewrite Hat by (apply Z.div_pos; lia).
  - lia.
  - intros Hr. simpl. rewrite Hat by lia. auto.
Qed.

#[global] Arguments bitset_set : simpl never.
#[global] Arguments bitset_put : simpl never.
#[global] Arguments bitset_get : simpl never.
#[global] Arguments bitset_create : simpl never.
#[global] Arguments bitset_or : simpl never.
