(* ===== verification/Bloom.v ===== *)
(** * Bloom: the classical Bloom filter of [src/Bloom/bloom_filter.c]

    The hash function [XXH3_64bits_withSeed] of the vendored xxHash is an
    argument of every operation that hashes: all theorems hold for an
    arbitrary function of the data and the seed.  [bloom_filter_optimal_size]
    (libm sizing advice, no state) is not modelled.

    Each operation comes as the body on non-null pointers ([..._nn]) and the
    exported function with its NULL guards. *)

From S2P Require Import Prelude Bitset.

Record bloom_filter_t := mkBloom {
  bf_bits : bitset_t;
  bf_size : Z;
  bf_hash_count : Z;
  bf_seed_a : Z;
  bf_seed_b : Z;
  bf_count : Z
}.

(** [size / 8], rounded up: the number of bytes that hold [size] bits. *)
Definition byte_size_of (size : Z) : Z :=
  if 0 <? size mod 8 then size / 8 + 1 else size / 8.

Definition bloom_filter_create (size hash_count : Z) : bloom_filter_t :=
  {| bf_bits := bitset_create (byte_size_of size);
     bf_size := size;
     bf_hash_count := hash_count;
     bf_seed_a := 1;
     bf_seed_b := 2;
     bf_count := 0 |}.

Definition bloom_filter_count (filter : bloom_filter_t) : Z := bf_count filter.
Definition bloom_filter_size (filter : bloom_filter_t) : Z := bf_size filter.

(** [(a + (uint64_t)i * b + (uint64_t)i * i) % size]; a division by zero when
    the filter has no bits. *)
Definition bloom_index (size a b i : Z) : exec Z :=
  if size =? 0 then Trap
  else Ret (u64 (u64 (a + u64 (i * b)) + u64 (i * i)) mod size).

Definition bloom_filter_reset_nn (f : bloom_filter_t) : bloom_filter_t :=
  {| bf_bits := bitset_create (byte_size_of (bf_size f));
     bf_size := bf_size f;
     bf_hash_count := bf_hash_count f;
     bf_seed_a := bf_seed_a f;
     bf_seed_b := bf_seed_b f;
     bf_count := 0 |}.

Definition bloom_filter_reset (filter : option bloom_filter_t) : option bloom_filter_t :=
  bloom_filter_reset_nn <$> filter.

Section hashing.
Context (XXH3_64bits_withSeed : list Z → Z → Z).

(** One iteration of the insertion loop on [(is_new, bits)]. *)
Definition bloom_add_step (size a b i : Z) (st : bool * bitset_t) : exec (bool * bitset_t) :=
  index <- bloom_index size a b i ;;
  let is_new := if bitset_get st.2 index then st.1 else true in
  Ret (is_new, bitset_put st.2 index true).

Definition bloom_filter_add_nn (f : bloom_filter_t) (data : list Z) : exec bloom_filter_t :=
  let a := XXH3_64bits_withSeed data (bf_seed_a f) in
  let b := XXH3_64bits_withSeed data (bf_seed_b f) in
  st <- for_range (Z.to_nat (bf_hash_count f)) 0 (bloom_add_step (bf_size f) a b) (false, bf_bits f) ;;
  Ret {| bf_bits := st.2;
         bf_size := bf_size f;
         bf_hash_count := bf_hash_count f;
         bf_seed_a := bf_seed_a f;
         bf_seed_b := bf_seed_b f;
         bf_count := if st.1 then u64 (bf_count f + 1) else bf_count f |}.

Definition bloom_filter_contains_nn (f : bloom_filter_t) (data : list Z) : exec bool :=
  let a := XXH3_64bits_withSeed data (bf_seed_a f) in
  let b := XXH3_64bits_withSeed data (bf_seed_b f) in
  all_range (Z.to_nat (bf_hash_count f)) 0 (fun i =>
    index <- bloom_index (bf_size f) a b i ;;
    Ret (bitset_get (bf_bits f) index)).

(** The exported functions: NULL filter or NULL data is rejected. *)
Definition bloom_filter_add (filter : option bloom_filter_t) (data : option (list Z))
    : exec (Z * option bloom_filter_t) :=
  match filter, data with
  | Some f, Some d => f' <- bloom_filter_add_nn f d ;; Ret (0, Some f')
  | _, _ => Ret (-1, filter)
  end.

Definition bloom_filter_contains (filter : option bloom_filter_t) (data : option (list Z))
    : exec bool :=
  match filter, data with
  | Some f, Some d => bloom_filter_contains_nn f d
  | _, _ => Ret false
  end.

(** A sequence of insertions. *)
Fixpoint bloom_filter_add_all (f : bloom_filter_t) (xs : list (list Z)) : exec bloom_filter_t :=
  match xs with
  | [] => Ret f
  | x :: xs' => f' <- bloom_filter_add_nn f x ;; bloom_filter_add_all f' xs'
  end.

(** ** Invariant and specification *)

Record bloom_wf (f : bloom_filter_t) : Prop := {
  bloom_bits_wf : bitset_wf (bf_bits f);
  bloom_bits_size : bitset_size (bf_bits f) = byte_size_of (bf_size f);
  bloom_size_pos : 0 < bf_size f;
  bloom_hash_count_u32 : is_u32 (bf_hash_count f);
  bloom_count_u64 : is_u64 (bf_count f)
}.

(** The [i]-th bit position of an element in a filter with [f]'s shape. *)
Definition bloom_position (f : bloom_filter_t) (x : list Z) (i : Z) : Z :=
  u64 (u64 (XXH3_64bits_withSeed x (bf_seed_a f) + u64 (i * XXH3_64bits_withSeed x (bf_seed_b f)))
       + u64 (i * i)) mod bf_size f.

(** Position [p] is one of the [hash_count] positions of [x]. *)
Definition bloom_hits (f : bloom_filter_t) (x : list Z) (p : Z) : Prop :=
  ∃ i, 0 <= i < bf_hash_count f ∧ p = bloom_position f x i.

(** Two filters of the same shape have the same positions. *)
Definition same_shape (f g : bloom_filter_t) : Prop :=
  bf_size f = bf_size g ∧ bf_hash_count f = bf_hash_count g ∧
  bf_seed_a f = bf_seed_a g ∧ bf_seed_b f = bf_seed_b g.

#[export] Instance same_shape_equiv : Equivalence same_shape.
Proof.
  split; unfold same_shape.
  - intros f. done.
  - intros f g (-> & -> & -> & ->). done.
  - intros f g h (-> & -> & -> & ->) (-> & -> & -> & ->). done.
Qed.

#[export] Instance bloom_hits_proper : Proper (same_shape ==> eq ==> eq ==> iff) bloom_hits.
Proof.
  intros f g (H1 & H2 & H3 & H4) x ? <- p ? <-.
  unfold bloom_hits, bloom_position. by rewrite H1, H2, H3, H4.
Qed.

(** ** Lemmas *)

Lemma byte_size_of_pos n : 0 <= n → n <= 8 * byte_size_of n ∧ 0 <= byte_size_of n.
Proof.
  intros Hn. unfold byte_size_of. pose proof (Z.div_mod n 8). pose proof (Z.mod_pos_bound n 8).
  assert (0 <= n / 8) by (apply Z.div_pos; lia).
  destruct (Z.ltb_spec 0 (n mod 8)); lia.
Qed.

Lemma bloom_position_range f x i : 0 < bf_size f → 0 <= bloom_position f x i < bf_size f.
Proof. intros. apply Z.mod_pos_bound. done. Qed.

Lemma bloom_index_position f x i :
  0 < bf_size f →
  bloom_index (bf_size f) (XXH3_64bits_withSeed x (bf_seed_a f))
    (XXH3_64bits_withSeed x (bf_seed_b f)) i = Ret (bloom_position f x i).
Proof. intros H. unfold bloom_index. destruct (Z.eqb_spec (bf_size f) 0); [lia|done]. Qed.

Lemma bloom_create_wf size k : 0 < size → is_u32 k → bloom_wf (bloom_filter_create size k).
Proof.
  intros Hs Hk. split; simpl; try done.
  - apply bitset_create_wf.
  - apply bitset_create_size. apply byte_size_of_pos. lia.
Qed.

(** What the insertion loop has established after its first [i] iterations. *)
Definition bloom_add_inv (f : bloom_filter_t) (x : list Z) (i : Z) (st : bool * bitset_t) : Prop :=
  bitset_wf st.2 ∧ bitset_size st.2 = byte_size_of (bf_size f) ∧
  (∀ p, 0 <= p → bitset_get st.2 p = true ↔
     bitset_get (bf_bits f) p = true ∨ ∃ j, 0 <= j < i ∧ p = bloom_position f x j) ∧
  (if st.1 then ∃ p, bloom_hits f x p ∧ bitset_get (bf_bits f) p = false
   else ∀ j, 0 <= j < i → bitset_get (bf_bits f) (bloom_position f x j) = true).

Lemma bloom_add_step_inv f x i st :
  bloom_wf f → 0 <= i < bf_hash_count f → bloom_add_inv f x i st →
  ∃ st', bloom_add_step (bf_size f) (XXH3_64bits_withSeed x (bf_seed_a f))
           (XXH3_64bits_withSeed x (bf_seed_b f)) i st = Ret st' ∧ bloom_add_inv f x (i + 1) st'.
Proof.
  intros Hwf Hi (Hb & Hsz & Hget & Hnew). pose proof (bloom_size_pos f Hwf) as Hpos.
  destruct (byte_size_of_pos (bf_size f)) as [Hbs _]; [lia|].
  unfold bloom_add_step. rewrite bloom_index_position by done. rewrite bind_Ret_l.
  pose proof (bloom_position_range f x i Hpos) as Hr.
  assert (bloom_position f x i / 8 < byte_size_of (bf_size f))
    by (apply Z.div_lt_upper_bound; lia).
  eexists. split; [reflexivity|]. unfold bloom_add_inv. cbn [fst snd]. split_and!.
  - by apply bitset_put_wf.
  - rewrite bitset_put_size by lia. lia.
  - intros p Hp. rewrite bitset_get_put by lia. case_decide as E; subst.
    + split; [|done]. intros _. right. exists i. split; [lia|done].
    + rewrite Hget by done. split.
      * intros [?|(j & ? & ?)]; [by left|]. right. exists j. split; [lia|done].
      * intros [?|(j & ? & ->)]; [by left|]. right. exists j. split; [|done].
        destruct (decide (j = i)) as [->|]; [done|lia].
  - destruct (bitset_get st.2 (bloom_position f x i)) eqn:E.
    + destruct st.1; [done|]. intros j Hj.
      destruct (decide (j = i)) as [->|]; [|apply Hnew; lia].
      apply Hget in E; [|lia]. destruct E as [|(j' & Hj' & ->)]; [done|]. by apply Hnew.
    + exists (bloom_position f x i). split; [exists i; split; [lia|done]|].
      destruct (bitset_get (bf_bits f) (bloom_position f x i)) eqn:E'; [|done].
      rewrite <- E. symmetry. apply Hget; [lia|by left].
Qed.

(** What one insertion does: it returns, keeps the invariant and the shape,
    sets exactly the positions of the element, and bumps the count exactly
    when one of them was clear. *)
Lemma bloom_add_spec f x :
  bloom_wf f →
  ∃ f', bloom_filter_add_nn f x = Ret f' ∧ bloom_wf f' ∧ same_shape f' f ∧
    (∀ p, 0 <= p → bitset_get (bf_bits f') p = true ↔
                   bitset_get (bf_bits f) p = true ∨ bloom_hits f x p) ∧
    (bf_count f' = bf_count f ∧ (∀ p, bloom_hits f x p → bitset_get (bf_bits f) p = true) ∨
     bf_count f' = u64 (bf_count f + 1) ∧ ∃ p, bloom_hits f x p ∧ bitset_get (bf_bits f) p = false).
Proof.
  intros Hwf. destruct (bloom_hash_count_u32 f Hwf) as [Hk0 Hk1].
  destruct (for_range_inv
    (bloom_add_step (bf_size f) (XXH3_64bits_withSeed x (bf_seed_a f)) (XXH3_64bits_withSeed x (bf_seed_b f)))
    (bloom_add_inv f x) (Z.to_nat (bf_hash_count f)) 0 (false, bf_bits f))
    as ([new bits] & Erun & Hb & Hsz & Hget & Hnew).
  - split_and!; simpl; [apply Hwf|apply Hwf| |intros; lia].
    intros p Hp. split; [by left|]. intros [|(j & ? & _)]; [done|lia].
  - intros i st Hi. apply bloom_add_step_inv; [done|lia].
  - simpl in *. rewrite Z2Nat.id in Hget, Hnew by lia.
    eexists. split; [unfold bloom_filter_add_nn; rewrite Erun; reflexivity|].
    split_and!; simpl.
    + split; simpl; try apply Hwf; try done.
      destruct new; [apply u64_range|apply Hwf].
    + done.
    + intros p Hp. rewrite Hget by done. done.
    + destruct new; [by right|]. left. split; [done|].
      intros p (j & Hj & ->). by apply Hnew.
Qed.

(** Membership is the conjunction of the element's positions. *)
Lemma bloom_contains_iff f x :
  bloom_wf f →
  bloom_filter_contains_nn f x = Ret true ↔ ∀ p, bloom_hits f x p → bitset_get (bf_bits f) p = true.
Proof.
  intros Hwf. pose proof (bloom_size_pos f Hwf). destruct (bloom_hash_count_u32 f Hwf).
  unfold bloom_filter_contains_nn. rewrite all_range_true. split.
  - intros H' p (i & Hi & ->). specialize (H' i). rewrite bloom_index_position in H' by done.
    rewrite bind_Ret_l in H'. assert (0 <= i < 0 + Z.of_nat (Z.to_nat (bf_hash_count f))) as Hi' by lia.
    specialize (H' Hi'). congruence.
  - intros H' i Hi. rewrite bloom_index_position by done. rewrite bind_Ret_l. f_equal.
    apply H'. exists i. split; [lia|done].
Qed.

Lemma bloom_contains_total f x :
  bloom_wf f → ∃ b, bloom_filter_contains_nn f x = Ret b.
Proof.
  intros Hwf. apply all_range_total. intros i Hi.
  rewrite bloom_index_position by apply Hwf. by eexists.
Qed.

(** The abstract contents after a sequence of insertions: bit [p] is set iff
    it was, or is a position of one of the elements. *)
Lemma bloom_add_all_spec f xs :
  bloom_wf f →
  ∃ f', bloom_filter_add_all f xs = Ret f' ∧ bloom_wf f' ∧ same_shape f' f ∧
    (∀ p, 0 <= p → bitset_get (bf_bits f') p = true ↔
                   bitset_get (bf_bits f) p = true ∨ ∃ x, x ∈ xs ∧ bloom_hits f x p).
Proof.
  revert f. induction xs as [|x xs IH]; intros f Hwf; simpl.
  - exists f. split_and!; try done. intros p Hp. split; [by left|].
    intros [|(x & Hx & _)]; [done|]. by apply elem_of_nil in Hx.
  - destruct (bloom_add_spec f x Hwf) as (f1 & E1 & Hwf1 & Hsh1 & Hb1 & _).
    destruct (IH f1 Hwf1) as (f2 & E2 & Hwf2 & Hsh2 & Hb2).
    exists f2. rewrite E1, bind_Ret_l. split_and!; try done; [by etrans|].
    intros p Hp. rewrite Hb2, Hb1 by done. setoid_rewrite Hsh1.
    setoid_rewrite elem_of_cons.
    clear. naive_solver.
Qed.

(** A filter without bits cannot be used: the index computation divides by
    zero as soon as there is one hash function. *)
Lemma bloom_add_zero_size f x :
  bf_size f = 0 → 0 < bf_hash_count f → bloom_filter_add_nn f x = Trap.
Proof.
  intros Hs Hk. unfold bloom_filter_add_nn.
  destruct (Z.to_nat (bf_hash_count f)) eqn:E; [lia|]. simpl.
  unfold bloom_add_step, bloom_index. by rewrite Hs.
Qed.

(** The emptied filter recognises nothing. *)
Lemma bloom_reset_empty f x :
  bloom_wf f → 0 < bf_hash_count f →
  bloom_wf (bloom_filter_reset_nn f) ∧
  bloom_filter_contains_nn (bloom_filter_reset_nn f) x = Ret false.
Proof.
  intros Hwf Hk.
  assert (Hwf' : bloom_wf (bloom_filter_reset_nn f)).
  { split; simpl; try apply Hwf; [apply bitset_create_wf| |done].
    apply bitset_create_size, byte_size_of_pos. pose proof (bloom_size_pos f Hwf). lia. }
  split; [done|]. destruct (bloom_contains_total _ x Hwf') as [[|] E]; [|done].
  pose proof (proj1 (bloom_contains_iff _ x Hwf') E (bloom_position (bloom_filter_reset_nn f) x 0)) as H.
  cbn [bloom_filter_reset_nn bf_bits] in H. rewrite bitset_get_create in H.
  - discriminate H. exists 0. split; [simpl; lia|done].
  - apply bloom_position_range, Hwf'.
Qed.
End hashing.

(** ** Properties *)

(** No false negatives, and exactly which false positives.  Starting from
    a fresh filter, any sequence of insertions returns (no trap), and a query
    answers [true] exactly when every bit position of the queried key is a
    position of some inserted key; in particular every inserted key is
    found. *)
Theorem bloom_filter_membership (XXH3 : list Z → Z → Z) (size k : Z) (xs : list (list Z)) :
  0 < size → is_u32 k →
  ∃ f, bloom_filter_add_all XXH3 (bloom_filter_create size k) xs = Ret f ∧
    (∀ y, bloom_filter_contains XXH3 (Some f) (Some y) = Ret true ↔
       ∀ p, bloom_hits XXH3 f y p → ∃ x, x ∈ xs ∧ bloom_hits XXH3 f x p) ∧
    (∀ x, x ∈ xs → bloom_filter_contains XXH3 (Some f) (Some x) = Ret true).
Proof.
  intros Hs Hk. destruct (bloom_add_all_spec XXH3 (bloom_filter_create size k) xs)
    as (f & E & Hwf & Hsh & Hbits); [by apply bloom_create_wf|].
  assert (Hh : ∀ x p, bloom_hits XXH3 f x p ↔ bloom_hits XXH3 (bloom_filter_create size k) x p)
    by (intros; by rewrite Hsh).
  setoid_rewrite <- Hh in Hbits.
  assert (Hiff : ∀ y, bloom_filter_contains XXH3 (Some f) (Some y) = Ret true ↔
       ∀ p, bloom_hits XXH3 f y p → ∃ x, x ∈ xs ∧ bloom_hits XXH3 f x p).
  { intros y. simpl. rewrite bloom_contains_iff by done. apply forall_proper. intros p.
    assert (Hr : bloom_hits XXH3 f y p → 0 <= p)
      by (intros (i & _ & ->); apply bloom_position_range, Hwf).
    split; intros H Hp; specialize (H Hp).
    - apply Hbits in H; [|auto]. destruct H as [H|H]; [|done].
      simpl in H. by rewrite bitset_get_create in H by auto.
    - apply Hbits; [auto|by right]. }
  exists f. split_and!; [done|done|]. intros x Hx. apply Hiff. eauto.
Qed.

Lemma bloom_filter_membership_witness :
  ∃ f, bloom_filter_add_all (fun d s => 7 * s + nth 0 d 0) (bloom_filter_create 64 3) [[5]; [9; 2]] = Ret f ∧
    bloom_filter_contains (fun d s => 7 * s + nth 0 d 0) (Some f) (Some [9; 2]) = Ret true.
Proof.
  destruct (bloom_filter_membership (fun d s => 7 * s + nth 0 d 0) 64 3 [[5]; [9; 2]])
    as (f & E & _ & H); [lia|unfold is_u32; lia|].
  exists f. split; [exact E|]. apply H. apply elem_of_cons. right. apply elem_of_cons. by left.
Defined.

(** ** What the routing layer asks of a membership filter

    Deduplication and the visited set of a walk rely on three promises of a
    Bloom filter, stated here as an interface: operations return on legal
    filters, an inserted key is recognised, and insertion never makes a key
    unrecognised.  False positives are left open.  The routing layer is proved
    against the interface; the Bloom filter discharges it. *)

Class MembershipFilter (F : Type) := {
  mf_ok : F → Prop;
  mf_add : F → list Z → exec F;
  mf_has : F → list Z → exec bool;
  mf_add_spec f x :
    mf_ok f → ∃ f', mf_add f x = Ret f' ∧ mf_ok f' ∧ mf_has f' x = Ret true ∧
                    ∀ y, mf_has f y = Ret true → mf_has f' y = Ret true;
  mf_has_total f x : mf_ok f → ∃ b, mf_has f x = Ret b
}.

Section derived.
Context `{MembershipFilter F}.

(** Keys already present stay present through any number of insertions. *)
Fixpoint mf_add_all (f : F) (xs : list (list Z)) : exec F :=
  match xs with
  | [] => Ret f
  | x :: xs' => f' <- mf_add f x ;; mf_add_all f' xs'
  end.

Lemma mf_add_all_spec f xs :
  mf_ok f → ∃ f', mf_add_all f xs = Ret f' ∧ mf_ok f' ∧
    (∀ y, y ∈ xs → mf_has f' y = Ret true) ∧ (∀ y, mf_has f y = Ret true → mf_has f' y = Ret true).
Proof.
  revert f. induction xs as [|x xs IH]; intros f Hf; simpl.
  - exists f. split_and!; [done|done| |done]. intros y Hy. by apply elem_of_nil in Hy.
  - destruct (mf_add_spec f x Hf) as (f1 & E1 & Hf1 & Hx & Hmono).
    destruct (IH f1 Hf1) as (f2 & E2 & Hf2 & Hall & Hmono2).
    exists f2. rewrite E1. simpl. split_and!; [done|done| |auto].
    intros y [->|Hy]%elem_of_cons; auto.
Qed.
End derived.

(** ** The Bloom filter keeps the promises *)

#[export, refine] Instance bloom_membership (XXH3 : list Z → Z → Z) : MembershipFilter bloom_filter_t := {
  mf_ok := bloom_wf;
  mf_add := bloom_filter_add_nn XXH3;
  mf_has := bloom_filter_contains_nn XXH3
}.
Proof.
  - intros f x Hf. destruct (bloom_add_spec XXH3 f x Hf) as (f' & E & Hf' & Hsh & Hbits & _).
    assert (Hnn : ∀ y p, bloom_hits XXH3 f y p → 0 <= p)
      by (intros y p (i & _ & ->); apply bloom_position_range, Hf).
    exists f'. split_and!; [done|done| |].
    + apply bloom_contains_iff; [done|]. intros p Hp. setoid_rewrite Hsh in Hp.
      apply Hbits; [by eapply Hnn|by right].
    + intros y Hy. apply bloom_contains_iff; [done|]. intros p Hp. setoid_rewrite Hsh in Hp.
      apply Hbits; [by eapply Hnn|]. left. by apply (proj1 (bloom_contains_iff XXH3 f y Hf) Hy).
  - intros f x. apply bloom_contains_total.
Defined.
