(* ===== verification/ElasticBloom.v ===== *)
(** * ElasticBloom: the elastic Bloom filter of [src/Bloom/elastic_bloom_filter.c]

    A bit array with one bucket of fingerprints per bit.  A bucket (a linked
    list of [ebf_bucket_entry_t]) is the list of its fingerprints, head first;
    the array of buckets is a list of lists.  [float] is IEEE binary32, in the
    Standard Library's executable specification.  The CBOR codec is in
    [BloomCodec]. *)

From Stdlib Require Import Floats.SpecFloat.
From S2P Require Import Prelude Bitset Bloom.

(** ** binary32 arithmetic *)

Definition float32 : Type := spec_float.
(** [(float)n] of an unsigned integer, rounded to nearest even. *)
Definition f32_of_size (n : Z) : float32 := binary_normalize 24 128 n 0 false.
Definition f32_div (x y : float32) : float32 := SFdiv 24 128 x y.
Definition f32_lt (x y : float32) : bool := SFltb x y.

(** The constants [0.5f] and [0.75f]. *)
Definition f32_half : float32 := S754_finite false 8388608 (-24).
Definition f32_three_quarters : float32 := S754_finite false 12582912 (-24).

Record elastic_bloom_filter_t := mkEbf {
  ebf_bits : bitset_t;
  ebf_size : Z;
  ebf_bucket_count : Z;
  ebf_buckets : list (list Z);
  ebf_hash_count : Z;
  ebf_seed_a : Z;
  ebf_seed_b : Z;
  ebf_omega : float32;
  ebf_fp_bits : Z;
  ebf_count : Z
}.

(** ** Buckets *)

Definition bucket_insert (head : list Z) (fp : Z) : list Z := fp :: head.

(** Unlinks the first entry with this fingerprint. *)
Fixpoint bucket_remove (head : list Z) (fp : Z) : bool * list Z :=
  match head with
  | [] => (false, [])
  | e :: next =>
      if e =? fp then (true, next)
      else let '(found, next') := bucket_remove next fp in (found, e :: next')
  end.

Fixpoint bucket_contains (head : list Z) (fp : Z) : bool :=
  match head with
  | [] => false
  | e :: next => if e =? fp then true else bucket_contains next fp
  end.

Definition bucket_is_empty (head : list Z) : bool :=
  match head with [] => true | _ => false end.

(** [buckets[i]]; the invariant keeps every index used in range. *)
Definition bucket_at (buckets : list (list Z)) (i : Z) : list Z :=
  default [] (buckets !! Z.to_nat i).

(** ** Bit array rebuilt from the buckets *)

(** [for (i = 0; i < size; i++) if (!bucket_is_empty(buckets[i])) set bit i]. *)
Fixpoint set_occupied (i : Z) (buckets : list (list Z)) (bits : bitset_t) : bitset_t :=
  match buckets with
  | [] => bits
  | b :: rest =>
      set_occupied (i + 1) rest
        (if bucket_is_empty b then bits else bitset_put bits i true)
  end.

(** The record with other bits, buckets, sizes and count. *)
Definition ebf_with (e : elastic_bloom_filter_t) (bits : bitset_t) (size bucket_count : Z)
    (buckets : list (list Z)) (count : Z) : elastic_bloom_filter_t :=
  {| ebf_bits := bits;
     ebf_size := size;
     ebf_bucket_count := bucket_count;
     ebf_buckets := buckets;
     ebf_hash_count := ebf_hash_count e;
     ebf_seed_a := ebf_seed_a e;
     ebf_seed_b := ebf_seed_b e;
     ebf_omega := ebf_omega e;
     ebf_fp_bits := ebf_fp_bits e;
     ebf_count := count |}.

Definition rebuild_bitset (e : elastic_bloom_filter_t) : elastic_bloom_filter_t :=
  let bits := set_occupied 0 (ebf_buckets e) (bitset_create (byte_size_of (ebf_size e))) in
  ebf_with e bits (ebf_size e) (ebf_bucket_count e) (ebf_buckets e) (ebf_count e).

(** ** Creation and size queries *)

Definition elastic_bloom_filter_create (size hash_count : Z) (omega : float32) (fp_bits : Z)
    : elastic_bloom_filter_t :=
  {| ebf_bits := bitset_create (byte_size_of size);
     ebf_size := size;
     ebf_bucket_count := size;
     ebf_buckets := replicate (Z.to_nat size) [];
     ebf_hash_count := hash_count;
     ebf_seed_a := 1;
     ebf_seed_b := 2;
     ebf_omega := omega;
     ebf_fp_bits := fp_bits;
     ebf_count := 0 |}.

Definition elastic_bloom_filter_count (e : elastic_bloom_filter_t) : Z := ebf_count e.
Definition elastic_bloom_filter_size (e : elastic_bloom_filter_t) : Z := ebf_size e.

(** The number of non-empty buckets. *)
Definition occupied_count (buckets : list (list Z)) : Z :=
  zlen (filter (fun b => bucket_is_empty b = false) buckets).

Definition elastic_bloom_filter_ratio (e : elastic_bloom_filter_t) : float32 :=
  if ebf_bucket_count e =? 0 then S754_zero false
  else f32_div (f32_of_size (occupied_count (ebf_buckets e))) (f32_of_size (ebf_bucket_count e)).

(** ** Resizing *)

(** One bucket of an expansion: the low bit of the fingerprint decides whether
    the entry stays or moves, and is dropped; both lists come out reversed. *)
Fixpoint expand_bucket (curr stay move : list Z) : list Z * list Z :=
  match curr with
  | [] => (stay, move)
  | fp :: next =>
      if Z.land fp 1 =? 0 then expand_bucket next (Z.shiftr fp 1 :: stay) move
      else expand_bucket next stay (Z.shiftr fp 1 :: move)
  end.

Definition elastic_bloom_filter_expand_nn (e : elastic_bloom_filter_t) : elastic_bloom_filter_t :=
  let split := map (fun b => expand_bucket b [] []) (ebf_buckets e) in
  let new_buckets := map fst split ++ map snd split in
  rebuild_bitset
    (ebf_with e (ebf_bits e) (u64 (ebf_size e * 2)) (u64 (ebf_bucket_count e * 2))
       new_buckets (ebf_count e)).

Definition elastic_bloom_filter_expand (ebf : option elastic_bloom_filter_t)
    : Z * option elastic_bloom_filter_t :=
  match ebf with
  | None => (-1, None)
  | Some e => (0, Some (elastic_bloom_filter_expand_nn e))
  end.

(** Prepends a bit to every fingerprint of [curr] and pushes the entries, one
    by one, on [merged]. *)
Fixpoint push_shifted (curr : list Z) (bit : Z) (merged : list Z) : list Z :=
  match curr with
  | [] => merged
  | fp :: next => push_shifted next bit (u32 (Z.lor (Z.shiftl fp 1) bit) :: merged)
  end.

(** The upper half's entries first (bit 1), then the lower half's (bit 0). *)
Definition compress_pair (first second : list Z) : list Z :=
  push_shifted first 0 (push_shifted second 1 []).

Definition elastic_bloom_filter_compress_nn (e : elastic_bloom_filter_t)
    : Z * elastic_bloom_filter_t :=
  if ebf_bucket_count e <? 2 then (-1, e)
  else
    let new_bucket_count := ebf_bucket_count e / 2 in
    let n := Z.to_nat new_bucket_count in
    let merged := zip_with compress_pair (take n (ebf_buckets e))
                    (take n (drop n (ebf_buckets e))) in
    (0, rebuild_bitset
          (ebf_with e (ebf_bits e) (ebf_size e / 2) new_bucket_count merged (ebf_count e))).

Definition elastic_bloom_filter_compress (ebf : option elastic_bloom_filter_t)
    : Z * option elastic_bloom_filter_t :=
  match ebf with
  | None => (-1, None)
  | Some e => let '(rc, e') := elastic_bloom_filter_compress_nn e in (rc, Some e')
  end.

(** ** Merge *)

(** Inserts the fingerprints of [src] that [dest] lacks. *)
Fixpoint merge_bucket (dest src : list Z) : list Z :=
  match src with
  | [] => dest
  | fp :: next =>
      merge_bucket (if bucket_contains dest fp then dest else bucket_insert dest fp) next
  end.

(** [dest->buckets[i]] for each [i]; [src] has the same bucket count. *)
Fixpoint merge_buckets (dest src : list (list Z)) : list (list Z) :=
  match dest with
  | [] => []
  | d :: dest' => merge_bucket d (default [] (head src)) :: merge_buckets dest' (tail src)
  end.

Definition elastic_bloom_filter_merge_nn (dest src : elastic_bloom_filter_t)
    : Z * elastic_bloom_filter_t :=
  if negb (ebf_size dest =? ebf_size src) || negb (ebf_bucket_count dest =? ebf_bucket_count src)
  then (-2, dest)
  else (0, ebf_with dest (bitset_or (ebf_bits dest) (ebf_bits src)) (ebf_size dest)
             (ebf_bucket_count dest) (merge_buckets (ebf_buckets dest) (ebf_buckets src))
             (u64 (ebf_count dest + ebf_count src))).

Definition elastic_bloom_filter_merge (dest src : option elastic_bloom_filter_t)
    : Z * option elastic_bloom_filter_t :=
  match dest, src with
  | Some d, Some s => let '(rc, d') := elastic_bloom_filter_merge_nn d s in (rc, Some d')
  | _, _ => (-1, dest)
  end.

(** ** Iteration and raw access *)

(** The sequence of callback invocations [(bucket_idx, fingerprint)]. *)
Fixpoint iterate_from (i : Z) (buckets : list (list Z)) : list (Z * Z) :=
  match buckets with
  | [] => []
  | b :: rest => map (fun fp => (i, fp)) b ++ iterate_from (i + 1) rest
  end.

Definition elastic_bloom_filter_iterate (e : elastic_bloom_filter_t) : list (Z * Z) :=
  iterate_from 0 (ebf_buckets e).

Definition elastic_bloom_filter_bucket_insert_nn (e : elastic_bloom_filter_t)
    (bucket_idx fingerprint : Z) : Z * elastic_bloom_filter_t :=
  if ebf_bucket_count e <=? bucket_idx then (-1, e)
  else
    let b := bucket_at (ebf_buckets e) bucket_idx in
    let b' := if bucket_contains b fingerprint then b else bucket_insert b fingerprint in
    (0, ebf_with e (bitset_put (ebf_bits e) bucket_idx true) (ebf_size e) (ebf_bucket_count e)
          (<[Z.to_nat bucket_idx := b']> (ebf_buckets e)) (ebf_count e)).

Definition elastic_bloom_filter_get_bitset (e : elastic_bloom_filter_t) : list Z * Z :=
  (bits_data (ebf_bits e), bitset_size (ebf_bits e)).

Definition elastic_bloom_filter_set_bitset (e : elastic_bloom_filter_t) (data : list Z)
    : Z * elastic_bloom_filter_t :=
  if negb (zlen data =? bitset_size (ebf_bits e)) then (-1, e)
  else (0, ebf_with e (mkBitset data) (ebf_size e) (ebf_bucket_count e) (ebf_buckets e) (ebf_count e)).

(** ** Hash-based operations *)

Section hashing.
Context (XXH3_64bits_withSeed : list Z → Z → Z).

(** The [i]-th 64-bit hash of [data]. *)
Definition ebf_hash (e : elastic_bloom_filter_t) (data : list Z) (i : Z) : Z :=
  u64 (XXH3_64bits_withSeed data (u64 (ebf_seed_a e + u64 (i * ebf_seed_b e)))).

(** Returns [(fp, index)].  Undefined when the filter is empty (division by
    zero) or [fp_bits >= 64] (oversized shift). *)
Definition compute_hash_pair (e : elastic_bloom_filter_t) (data : list Z) (i : Z)
    : exec (Z * Z) :=
  let h := ebf_hash e data i in
  if (ebf_size e =? 0) || (64 <=? ebf_fp_bits e) then Trap
  else Ret (u32 ((h / ebf_size e) mod (2 ^ ebf_fp_bits e)), h mod ebf_size e).

Definition ebf_add_step (e : elastic_bloom_filter_t) (data : list Z) (i : Z)
    (st : bitset_t * list (list Z)) : exec (bitset_t * list (list Z)) :=
  '(fp, index) <- compute_hash_pair e data i ;;
  let bits := bitset_put st.1 index true in
  let b := bucket_at st.2 index in
  Ret (bits, if bucket_contains b fp then st.2
             else <[Z.to_nat index := bucket_insert b fp]> st.2).

(** The insertion under the lock, before the load check. *)
Definition ebf_add_locked (e : elastic_bloom_filter_t) (data : list Z)
    : exec elastic_bloom_filter_t :=
  '(bits, buckets) <- for_range (Z.to_nat (ebf_hash_count e)) 0 (ebf_add_step e data)
                        (ebf_bits e, ebf_buckets e) ;;
  Ret (ebf_with e bits (ebf_size e) (ebf_bucket_count e) buckets (u64 (ebf_count e + 1))).

Definition elastic_bloom_filter_add_nn (e : elastic_bloom_filter_t) (data : list Z)
    : exec elastic_bloom_filter_t :=
  e' <- ebf_add_locked e data ;;
  Ret (if f32_lt (ebf_omega e') (elastic_bloom_filter_ratio e')
       then elastic_bloom_filter_expand_nn e' else e').

Definition elastic_bloom_filter_add (ebf : option elastic_bloom_filter_t) (data : option (list Z))
    : exec (Z * option elastic_bloom_filter_t) :=
  match ebf, data with
  | Some e, Some d => e' <- elastic_bloom_filter_add_nn e d ;; Ret (0, Some e')
  | _, _ => Ret (-1, ebf)
  end.

Definition elastic_bloom_filter_contains_nn (e : elastic_bloom_filter_t) (data : list Z)
    : exec bool :=
  all_range (Z.to_nat (ebf_hash_count e)) 0 (fun i =>
    '(fp, index) <- compute_hash_pair e data i ;;
    Ret (bitset_get (ebf_bits e) index)).

Definition elastic_bloom_filter_contains (ebf : option elastic_bloom_filter_t)
    (data : option (list Z)) : exec bool :=
  match ebf, data with
  | Some e, Some d => elastic_bloom_filter_contains_nn e d
  | _, _ => Ret false
  end.

Definition ebf_remove_step (e : elastic_bloom_filter_t) (data : list Z) (i : Z)
    (st : bitset_t * list (list Z)) : exec (bitset_t * list (list Z)) :=
  '(fp, index) <- compute_hash_pair e data i ;;
  let b := (bucket_remove (bucket_at st.2 index) fp).2 in
  let bits := if bucket_is_empty b then bitset_put st.1 index false else st.1 in
  Ret (bits, <[Z.to_nat index := b]> st.2).

(** The removal under the lock, before the load check. *)
Definition ebf_remove_locked (e : elastic_bloom_filter_t) (data : list Z)
    : exec elastic_bloom_filter_t :=
  '(bits, buckets) <- for_range (Z.to_nat (ebf_hash_count e)) 0 (ebf_remove_step e data)
                        (ebf_bits e, ebf_buckets e) ;;
  Ret (ebf_with e bits (ebf_size e) (ebf_bucket_count e) buckets
         (if 0 <? ebf_count e then ebf_count e - 1 else ebf_count e)).

Definition elastic_bloom_filter_remove_nn (e : elastic_bloom_filter_t) (data : list Z)
    : exec elastic_bloom_filter_t :=
  e' <- ebf_remove_locked e data ;;
  Ret (if f32_lt (elastic_bloom_filter_ratio e') (f32_div (ebf_omega e') (f32_of_size 4))
       then (elastic_bloom_filter_compress_nn e').2 else e').

Definition elastic_bloom_filter_remove (ebf : option elastic_bloom_filter_t)
    (data : option (list Z)) : exec (Z * option elastic_bloom_filter_t) :=
  match ebf, data with
  | Some e, Some d => e' <- elastic_bloom_filter_remove_nn e d ;; Ret (0, Some e')
  | _, _ => Ret (-1, ebf)
  end.
End hashing.

(** ** Invariant *)

Record ebf_wf (e : elastic_bloom_filter_t) : Prop := {
  ebf_wf_size : 0 < ebf_size e;
  ebf_wf_bucket_count : ebf_bucket_count e = ebf_size e;
  ebf_wf_len : zlen (ebf_buckets e) = ebf_size e;
  ebf_wf_bits : bitset_wf (ebf_bits e);
  ebf_wf_bits_size : bitset_size (ebf_bits e) = byte_size_of (ebf_size e);
  (** a bit is set exactly when its bucket is occupied *)
  ebf_wf_sync : ∀ p, 0 <= p →
    bitset_get (ebf_bits e) p = negb (bucket_is_empty (bucket_at (ebf_buckets e) p));
  ebf_wf_fps : Forall (Forall is_u32) (ebf_buckets e);
  ebf_wf_hash_count : is_u32 (ebf_hash_count e);
  ebf_wf_fp_bits : 0 <= ebf_fp_bits e < 64
}.

(** ** The abstract content

    An entry [fp] in bucket [i] of a filter of [size] buckets stands for the
    number [i + size * fp], the part of the hash the filter remembers.  The
    abstract content of a filter is the set of these numbers. *)

Definition ebf_value (e : elastic_bloom_filter_t) (v : Z) : Prop :=
  ∃ i b fp, ebf_buckets e !! i = Some b ∧ fp ∈ b ∧ v = Z.of_nat i + ebf_size e * fp.

(** ** Bucket lemmas *)

Lemma bucket_contains_spec b fp : bucket_contains b fp = true ↔ fp ∈ b.
Proof.
  induction b as [|x b IH]; simpl.
  - split; [done|]. intros H. by apply elem_of_nil in H.
  - rewrite elem_of_cons. destruct (Z.eqb_spec x fp); [naive_solver|]. rewrite IH. naive_solver.
Qed.

Lemma bucket_is_empty_spec b : bucket_is_empty b = false ↔ ∃ fp, fp ∈ b.
Proof.
  destruct b as [|x b]; simpl.
  - split; [done|]. intros [fp H]. by apply elem_of_nil in H.
  - split; [|done]. intros _. exists x. by left.
Qed.

Lemma bucket_is_empty_true b : bucket_is_empty b = true ↔ ∀ fp, fp ∉ b.
Proof.
  destruct b as [|x b]; simpl.
  - split; [|done]. intros _ fp. apply not_elem_of_nil.
  - split; [done|]. intros H. destruct (H x). by left.
Qed.

Lemma bucket_remove_subset b fp x : x ∈ (bucket_remove b fp).2 → x ∈ b.
Proof.
  induction b as [|y b IH]; simpl; [done|].
  destruct (Z.eqb_spec y fp); simpl; [by right|].
  destruct (bucket_remove b fp) as [found b'] eqn:E. simpl in *.
  rewrite !elem_of_cons. naive_solver.
Qed.

Lemma bucket_remove_other b fp x : x ∈ b → x ≠ fp → x ∈ (bucket_remove b fp).2.
Proof.
  induction b as [|y b IH]; simpl; [done|]. rewrite elem_of_cons. intros Hx Hne.
  destruct (Z.eqb_spec y fp); simpl; [naive_solver|].
  destruct (bucket_remove b fp) as [found b'] eqn:E. simpl in *.
  rewrite elem_of_cons. naive_solver.
Qed.

Lemma bucket_at_lookup bs i b : bs !! i = Some b → bucket_at bs (Z.of_nat i) = b.
Proof. intros H. unfold bucket_at. by rewrite Nat2Z.id, H. Qed.

Lemma bucket_at_beyond bs i : zlen bs <= i → bucket_at bs i = [].
Proof. intros H. unfold bucket_at, zlen in *. by rewrite lookup_ge_None_2 by lia. Qed.

Lemma bucket_at_insert bs i j b :
  0 <= i < zlen bs → 0 <= j →
  bucket_at (<[Z.to_nat i := b]> bs) j = if decide (i = j) then b else bucket_at bs j.
Proof.
  intros Hi Hj. unfold bucket_at, zlen in *. case_decide; subst.
  - rewrite list_lookup_insert_eq; [done|lia].
  - rewrite list_lookup_insert_ne; [done|lia].
Qed.

Lemma bucket_at_fps bs i : Forall (Forall is_u32) bs → Forall is_u32 (bucket_at bs i).
Proof.
  intros H. unfold bucket_at. destruct (bs !! Z.to_nat i) eqn:E; simpl; [|constructor].
  exact (Forall_lookup_1 _ _ _ _ H E).
Qed.

(** Content, through [bucket_at]. *)
Lemma ebf_value_at e v :
  ebf_wf e →
  ebf_value e v ↔ ∃ i fp, 0 <= i < ebf_size e ∧ fp ∈ bucket_at (ebf_buckets e) i ∧
                          v = i + ebf_size e * fp.
Proof.
  intros Hwf. pose proof (ebf_wf_len e Hwf) as Hlen. unfold zlen in Hlen. split.
  - intros (i & b & fp & Hi & Hfp & ->). exists (Z.of_nat i), fp.
    rewrite (bucket_at_lookup _ _ _ Hi). pose proof (lookup_lt_Some _ _ _ Hi). split_and!; [lia|lia|done|done].
  - intros (i & fp & Hi & Hfp & ->). unfold bucket_at in Hfp.
    destruct (ebf_buckets e !! Z.to_nat i) as [b|] eqn:E; simpl in Hfp; [|by apply elem_of_nil in Hfp].
    exists (Z.to_nat i), b, fp. split_and!; [done|done|lia].
Qed.

(** ** Rebuilding the bit array *)

Lemma set_occupied_get i bs bits p :
  0 <= i → 0 <= p →
  bitset_get (set_occupied i bs bits) p =
  bitset_get bits p || ((i <=? p) && negb (bucket_is_empty (bucket_at bs (p - i)))).
Proof.
  revert i bits. induction bs as [|b bs IH]; intros i bits Hi Hp; simpl.
  - by rewrite andb_false_r, orb_false_r.
  - rewrite IH by lia.
    assert (E : (i <=? p) && negb (bucket_is_empty (bucket_at (b :: bs) (p - i))) =
                (i =? p) && negb (bucket_is_empty b) ||
                ((i + 1 <=? p) && negb (bucket_is_empty (bucket_at bs (p - (i + 1)))))).
    { destruct (Z.eqb_spec i p) as [->|].
      - rewrite Z.sub_diag, Z.leb_refl. destruct (Z.leb_spec (p + 1) p); [lia|]. simpl.
        by rewrite orb_false_r.
      - destruct (Z.leb_spec i p), (Z.leb_spec (i + 1) p); simpl; try lia.
        unfold bucket_at. replace (Z.to_nat (p - i)) with (S (Z.to_nat (p - (i + 1)))) by lia. done. }
    rewrite E, orb_assoc. f_equal. destruct (bucket_is_empty b); simpl.
    + by rewrite andb_false_r, orb_false_r.
    + rewrite bitset_get_put by lia. case_decide; zcases; subst; try lia; simpl;
        by rewrite ?orb_true_r, ?orb_false_r.
Qed.

Lemma set_occupied_wf i bs bits : bitset_wf bits → bitset_wf (set_occupied i bs bits).
Proof.
  revert i bits. induction bs as [|b bs IH]; intros i bits H; simpl; [done|].
  apply IH. destruct (bucket_is_empty b); [done|]. by apply bitset_put_wf.
Qed.

Lemma set_occupied_size i bs bits :
  0 <= i → i + zlen bs <= 8 * bitset_size bits →
  bitset_size (set_occupied i bs bits) = bitset_size bits.
Proof.
  revert i bits. induction bs as [|b bs IH]; intros i bits Hi Hs; simpl; [done|].
  unfold zlen in Hs. simpl in Hs.
  assert (E : bitset_size (if bucket_is_empty b then bits else bitset_put bits i true)
              = bitset_size bits).
  { destruct (bucket_is_empty b); [done|]. rewrite bitset_put_size by done.
    assert (i / 8 < bitset_size bits) by (apply Z.div_lt_upper_bound; lia). lia. }
  rewrite IH; rewrite ?E; unfold zlen; lia.
Qed.

(** Rebuilding establishes the invariant from the shape of the buckets. *)
Lemma rebuild_bitset_wf e :
  0 < ebf_size e → ebf_bucket_count e = ebf_size e → zlen (ebf_buckets e) = ebf_size e →
  Forall (Forall is_u32) (ebf_buckets e) → is_u32 (ebf_hash_count e) → 0 <= ebf_fp_bits e < 64 →
  ebf_wf (rebuild_bitset e).
Proof.
  intros Hs Hc Hl Hf Hk Hb. destruct (byte_size_of_pos (ebf_size e)) as [Hbs Hbs0]; [lia|].
  assert (Hcs : bitset_size (bitset_create (byte_size_of (ebf_size e))) = byte_size_of (ebf_size e))
    by by apply bitset_create_size.
  split; simpl; try done.
  - apply set_occupied_wf, bitset_create_wf.
  - rewrite set_occupied_size; rewrite ?Hcs; [done|lia|lia].
  - intros p Hp. rewrite set_occupied_get, bitset_get_create by lia.
    rewrite Z.sub_0_r. by destruct (Z.leb_spec 0 p); [|lia].
Qed.

Lemma rebuild_bitset_value e v : ebf_value (rebuild_bitset e) v ↔ ebf_value e v.
Proof. done. Qed.

(** ** Expansion *)

Lemma land_1_mod fp : Z.land fp 1 = fp mod 2.
Proof. change 1 with (Z.ones 1). by rewrite Z.land_ones by lia. Qed.

Lemma shiftr_1_div fp : Z.shiftr fp 1 = fp / 2.
Proof. by rewrite Z.shiftr_div_pow2 by lia. Qed.

(** What ends up in the two halves of a split bucket. *)
Lemma expand_bucket_elem c s m :
  (∀ q, q ∈ (expand_bucket c s m).1 ↔ q ∈ s ∨ ∃ fp, fp ∈ c ∧ fp = 2 * q) ∧
  (∀ q, q ∈ (expand_bucket c s m).2 ↔ q ∈ m ∨ ∃ fp, fp ∈ c ∧ fp = 2 * q + 1).
Proof.
  revert s m. induction c as [|fp c IH]; intros s m; simpl.
  - split; intros q; (split; [by left|]; intros [|(fp & Hfp & _)]; [done|by apply elem_of_nil in Hfp]).
  - rewrite land_1_mod, shiftr_1_div.
    pose proof (Z.div_mod fp 2). pose proof (Z.mod_pos_bound fp 2).
    destruct (Z.eqb_spec (fp mod 2) 0).
    + destruct (IH (fp / 2 :: s) m) as [H1 H2].
      split; intros q; rewrite ?H1, ?H2; setoid_rewrite elem_of_cons; split; intros Hq; destruct_or?;
        naive_solver lia.
    + destruct (IH s (fp / 2 :: m)) as [H1 H2].
      split; intros q; rewrite ?H1, ?H2; setoid_rewrite elem_of_cons; split; intros Hq; destruct_or?;
        naive_solver lia.
Qed.

Lemma expand_bucket_fps c s m :
  Forall is_u32 c → Forall is_u32 s → Forall is_u32 m →
  Forall is_u32 (expand_bucket c s m).1 ∧ Forall is_u32 (expand_bucket c s m).2.
Proof.
  revert s m. induction c as [|fp c IH]; intros s m Hc Hs Hm; simpl; [done|].
  apply Forall_cons_1 in Hc as [Hfp Hc]. rewrite shiftr_1_div.
  assert (is_u32 (fp / 2)).
  { unfold is_u32 in *. split; [apply Z.div_pos; lia|]. apply Z.div_lt_upper_bound; lia. }
  destruct (Z.land fp 1 =? 0); apply IH; try done; by constructor.
Qed.

(** Lookup in the doubled bucket array. *)
Lemma expanded_lookup bs i b' :
  let split := map (fun b => expand_bucket b [] []) bs in
  (map fst split ++ map snd split) !! i = Some b' ↔
  ∃ b, (bs !! i = Some b ∧ b' = (expand_bucket b [] []).1) ∨
       (length bs ≤ i)%nat ∧ bs !! (i - length bs)%nat = Some b ∧ b' = (expand_bucket b [] []).2.
Proof.
  simpl. rewrite lookup_app_Some, !length_map, !list_lookup_fmap. split.
  - intros [H|[Hi H]].
    + destruct (bs !! i) as [b|]; simpl in H; [|done]. simplify_eq. eauto.
    + destruct (bs !! (i - length bs)%nat) as [b|]; simpl in H; [|done]. simplify_eq. eauto 6.
  - intros (b & [[H ->]|(Hi & H & ->)]); rewrite H; [by left|by right].
Qed.

(** ** Compression *)

Lemma push_shifted_elem c bit m q :
  q ∈ push_shifted c bit m ↔ q ∈ m ∨ ∃ fp, fp ∈ c ∧ q = u32 (Z.lor (Z.shiftl fp 1) bit).
Proof.
  revert m. induction c as [|fp c IH]; intros m; simpl.
  - split; [by left|]. intros [|(fp & Hfp & _)]; [done|by apply elem_of_nil in Hfp].
  - rewrite IH. setoid_rewrite elem_of_cons. naive_solver.
Qed.

(** Prepending a bit: doubling plus the bit, when 31 bits suffice. *)
Lemma shift_in_bit fp bit :
  0 <= fp < 2 ^ 31 → bit = 0 ∨ bit = 1 → u32 (Z.lor (Z.shiftl fp 1) bit) = 2 * fp + bit.
Proof.
  intros Hfp Hbit. assert (E : Z.lor (Z.shiftl fp 1) bit = 2 * fp + bit).
  { rewrite Z.shiftl_mul_pow2 by lia. destruct Hbit as [->| ->].
    - rewrite Z.lor_0_r. lia.
    - apply Z.bits_inj'. intros n Hn. rewrite Z.lor_spec.
      replace (fp * 2 ^ 1) with (2 * fp) by lia.
      destruct (decide (n = 0)) as [->|].
      + rewrite Z.testbit_even_0, Z.testbit_odd_0. done.
      + replace n with (Z.succ (n - 1)) by lia.
        rewrite Z.testbit_even_succ, Z.testbit_odd_succ by lia.
        change 1 with (2 * 0 + 1) at 2. rewrite Z.testbit_odd_succ, Z.testbit_0_l by lia.
        apply orb_false_r. }
  rewrite E. apply u32_id. unfold is_u32. lia.
Qed.

Lemma compress_pair_elem b1 b2 q :
  Forall (fun fp => 0 <= fp < 2 ^ 31) b1 → Forall (fun fp => 0 <= fp < 2 ^ 31) b2 →
  q ∈ compress_pair b1 b2 ↔ (∃ fp, fp ∈ b1 ∧ q = 2 * fp) ∨ (∃ fp, fp ∈ b2 ∧ q = 2 * fp + 1).
Proof.
  intros H1 H2. rewrite list.Forall_forall in H1. rewrite list.Forall_forall in H2. cbn beta in H1, H2.
  unfold compress_pair. rewrite !push_shifted_elem, elem_of_nil. split.
  - intros [[[]|(fp & Hfp & ->)]|(fp & Hfp & ->)]; [right|left]; exists fp;
      (split; [done|]); rewrite shift_in_bit by auto; lia.
  - intros [(fp & Hfp & ->)|(fp & Hfp & ->)]; [right|left; right]; exists fp;
      (split; [done|]); rewrite shift_in_bit by auto; lia.
Qed.

Lemma compress_pair_fps b1 b2 : Forall is_u32 (compress_pair b1 b2).
Proof.
  apply list.Forall_forall. intros q. unfold compress_pair. rewrite !push_shifted_elem, elem_of_nil.
  intros [[[]|(fp & _ & ->)]|(fp & _ & ->)]; apply u32_range.
Qed.

(** Every fingerprint has room for one more bit. *)
Definition ebf_fps_room (e : elastic_bloom_filter_t) : Prop :=
  Forall (Forall (fun fp => 0 <= fp < 2 ^ 31)) (ebf_buckets e).

Section resizing.
Context (e : elastic_bloom_filter_t) (Hwf : ebf_wf e).

(** Expansion keeps the abstract content: each entry's number is split
    differently between bucket index and fingerprint. *)
Lemma ebf_expand_value v :
  ebf_size e < 2 ^ 63 →
  ebf_value (elastic_bloom_filter_expand_nn e) v ↔ ebf_value e v.
Proof.
  intros Hs. pose proof (ebf_wf_size e Hwf). pose proof (ebf_wf_len e Hwf) as Hlen.
  unfold elastic_bloom_filter_expand_nn. rewrite rebuild_bitset_value.
  unfold ebf_value. cbn [ebf_buckets ebf_size ebf_with].
  rewrite u64_id by (unfold is_u64; lia). unfold zlen in Hlen. split.
  - intros (i & b' & q & Hi & Hq & ->). apply expanded_lookup in Hi as (b & [[Hb ->]|(Hn & Hb & ->)]).
    + apply (expand_bucket_elem b [] []) in Hq as [Hq|(fp & Hfp & ->)]; [by apply elem_of_nil in Hq|].
      exists i, b, (2 * q). split_and!; [done|done|ring].
    + apply (expand_bucket_elem b [] []) in Hq as [Hq|(fp & Hfp & ->)]; [by apply elem_of_nil in Hq|].
      exists (i - length (ebf_buckets e))%nat, b, (2 * q + 1). split_and!; [done|done|].
      rewrite Nat2Z.inj_sub, Hlen by done. ring.
  - intros (i & b & fp & Hi & Hfp & ->).
    pose proof (Z.div_mod fp 2 ltac:(lia)) as Ediv. pose proof (Z.mod_pos_bound fp 2 ltac:(lia)).
    destruct (decide (fp mod 2 = 0)) as [E|E].
    + exists i, (expand_bucket b [] []).1, (fp / 2). split_and!; [|apply expand_bucket_elem; right; exists fp; split; [done|lia]|].
      * apply expanded_lookup. exists b. by left.
      * rewrite Ediv at 1. rewrite E. ring.
    + exists (i + length (ebf_buckets e))%nat, (expand_bucket b [] []).2, (fp / 2).
      split_and!; [|apply expand_bucket_elem; right; exists fp; split; [done|lia]|].
      * apply expanded_lookup. exists b. right. split_and!; [lia| |done].
        by replace (i + length (ebf_buckets e) - length (ebf_buckets e))%nat with i by lia.
      * rewrite Nat2Z.inj_add, Hlen. rewrite Ediv at 1. replace (fp mod 2) with 1 by lia. ring.
Qed.

Lemma ebf_expand_wf : ebf_size e < 2 ^ 63 → ebf_wf (elastic_bloom_filter_expand_nn e).
Proof.
  intros Hs. destruct Hwf. unfold elastic_bloom_filter_expand_nn.
  apply rebuild_bitset_wf; simpl; rewrite ?u64_id by (unfold is_u64; lia); try done; try lia.
  - rewrite zlen_app. unfold zlen in *. rewrite !length_map. lia.
  - apply Forall_app. rewrite !map_map, !Forall_map.
    split; eapply Forall_impl; try exact ebf_wf_fps0; intros b Hb; simpl;
      by apply (expand_bucket_fps b [] []).
Qed.

(** The bucket array of a compression, entry by entry. *)
Lemma compressed_lookup n i b' :
  (2 * n ≤ length (ebf_buckets e))%nat →
  zip_with compress_pair (take n (ebf_buckets e)) (take n (drop n (ebf_buckets e))) !! i = Some b' ↔
  (i < n)%nat ∧ ∃ b1 b2, ebf_buckets e !! i = Some b1 ∧ ebf_buckets e !! (n + i)%nat = Some b2 ∧
    b' = compress_pair b1 b2.
Proof.
  intros Hn. rewrite lookup_zip_with_Some. split.
  - intros (b1 & b2 & -> & H1 & H2). apply lookup_take_Some in H1 as [H1 Hi].
    rewrite lookup_take_Some, lookup_drop in H2. naive_solver.
  - intros (Hi & b1 & b2 & H1 & H2 & ->). exists b1, b2.
    by rewrite !lookup_take_lt, lookup_drop by done.
Qed.

(** Compression of an even number of buckets keeps the abstract content, as
    long as no fingerprint overflows 32 bits. *)
Lemma ebf_compress_value v :
  1 < ebf_size e → ebf_size e mod 2 = 0 → ebf_fps_room e →
  ebf_value (elastic_bloom_filter_compress_nn e).2 v ↔ ebf_value e v.
Proof.
  intros Hs Heven Hroom. pose proof (ebf_wf_len e Hwf) as Hlen.
  pose proof (ebf_wf_bucket_count e Hwf) as Hbc.
  pose proof (Z.div_mod (ebf_size e) 2 ltac:(lia)) as Ediv. rewrite Heven, Z.add_0_r in Ediv.
  unfold elastic_bloom_filter_compress_nn. rewrite Hbc.
  destruct (Z.ltb_spec (ebf_size e) 2); [lia|]. cbn [snd]. rewrite rebuild_bitset_value.
  set (m := ebf_size e / 2) in *. unfold ebf_value. cbn [ebf_buckets ebf_size ebf_with].
  unfold zlen in Hlen. assert (Hn : (2 * Z.to_nat m ≤ length (ebf_buckets e))%nat) by lia.
  assert (Hr : ∀ i b, ebf_buckets e !! i = Some b → Forall (fun fp => 0 <= fp < 2 ^ 31) b)
    by (intros i b Hb; exact (Forall_lookup_1 _ _ _ _ Hroom Hb)).
  split.
  - intros (i & b' & q & Hi & Hq & ->).
    apply compressed_lookup in Hi as (Hi & b1 & b2 & H1 & H2 & ->); [|done].
    apply compress_pair_elem in Hq as [(fp & Hfp & ->)|(fp & Hfp & ->)]; [| |eauto..].
    + exists i, b1, fp. split_and!; [done|done|]. rewrite Ediv. ring.
    + exists (Z.to_nat m + i)%nat, b2, fp. split_and!; [done|done|].
      rewrite Ediv, Nat2Z.inj_add, Z2Nat.id by lia. ring.
  - intros (i & b & fp & Hi & Hfp & ->). pose proof (lookup_lt_Some _ _ _ Hi).
    destruct (decide (i < Z.to_nat m)%nat) as [Hlt|Hge].
    + destruct (lookup_lt_is_Some_2 (ebf_buckets e) (Z.to_nat m + i)) as [b2 H2]; [lia|].
      exists i, (compress_pair b b2), (2 * fp). split_and!; [|apply compress_pair_elem; eauto|rewrite Ediv; ring].
      apply compressed_lookup; [done|]. eauto 6.
    + destruct (lookup_lt_is_Some_2 (ebf_buckets e) (i - Z.to_nat m)) as [b1 H1]; [lia|].
      exists (i - Z.to_nat m)%nat, (compress_pair b1 b), (2 * fp + 1).
      split_and!; [|apply compress_pair_elem; eauto|rewrite Ediv, Nat2Z.inj_sub, Z2Nat.id by lia; ring].
      apply compressed_lookup; [done|]. split; [lia|]. exists b1, b. split_and!; [done| |done].
      by replace (Z.to_nat m + (i - Z.to_nat m))%nat with i by lia.
Qed.

Lemma ebf_compress_wf : ebf_wf (elastic_bloom_filter_compress_nn e).2.
Proof.
  destruct Hwf. unfold elastic_bloom_filter_compress_nn.
  destruct (Z.ltb_spec (ebf_bucket_count e) 2); [done|]. simpl.
  pose proof (Z.div_mod (ebf_size e) 2 ltac:(lia)). pose proof (Z.mod_pos_bound (ebf_size e) 2 ltac:(lia)).
  apply rebuild_bitset_wf; simpl; try done; try lia.
  - by rewrite ebf_wf_bucket_count0.
  - unfold zlen in *. rewrite length_zip_with, !length_take, length_drop, ebf_wf_bucket_count0. lia.
  - apply Forall_lookup_2. intros i b' Hb.
    apply lookup_zip_with_Some in Hb as (b1 & b2 & -> & _). apply compress_pair_fps.
Qed.
End resizing.

(** ** Replacing one bucket *)

(** The filter with other bits and buckets, shape and count unchanged. *)
Definition ebf_set (e : elastic_bloom_filter_t) (st : bitset_t * list (list Z))
    : elastic_bloom_filter_t :=
  ebf_with e st.1 (ebf_size e) (ebf_bucket_count e) st.2 (ebf_count e).

Lemma ebf_with_count_wf e st c :
  ebf_wf (ebf_set e st) → ebf_wf (ebf_with e st.1 (ebf_size e) (ebf_bucket_count e) st.2 c).
Proof. intros []. by split. Qed.

Section replace.
Context (e : elastic_bloom_filter_t) (st : bitset_t * list (list Z)).
Context (Hwf : ebf_wf (ebf_set e st)).
Context (idx : Z) (Hidx : 0 <= idx < ebf_size e).

(** Writing bucket [idx] and its bit consistently keeps the invariant. *)
Lemma ebf_replace_wf_gen b bits :
  Forall is_u32 b → bitset_wf bits → bitset_size bits = bitset_size st.1 →
  (∀ p, 0 <= p → bitset_get bits p =
     if decide (idx = p) then negb (bucket_is_empty b) else bitset_get st.1 p) →
  ebf_wf (ebf_set e (bits, <[Z.to_nat idx := b]> st.2)).
Proof.
  intros Hb Hbw Hbsz' Hget. destruct Hwf as [Hs Hbc Hl Hbits Hbsz Hsync Hfps Hk Hfb]. simpl in *.
  split; simpl; try done; try congruence.
  - by rewrite zlen_insert.
  - intros p Hp. rewrite Hget, bucket_at_insert by lia. case_decide; auto.
  - by apply Forall_insert.
Qed.

Lemma ebf_replace_wf b :
  Forall is_u32 b →
  ebf_wf (ebf_set e (bitset_put st.1 idx (negb (bucket_is_empty b)), <[Z.to_nat idx := b]> st.2)).
Proof.
  intros Hb. pose proof (ebf_wf_bits_size _ Hwf) as Hbsz. simpl in Hbsz.
  destruct (byte_size_of_pos (ebf_size e)) as [Hbs _]; [lia|].
  apply ebf_replace_wf_gen; [done|by apply bitset_put_wf, Hwf| |].
  - rewrite bitset_put_size by lia.
    assert (idx / 8 < byte_size_of (ebf_size e)) by (apply Z.div_lt_upper_bound; lia). lia.
  - intros p Hp. by apply bitset_get_put; lia.
Qed.

(** The content then: the other buckets' entries and those of [b]. *)
Lemma ebf_replace_value b bits v :
  ebf_value (ebf_set e (bits, <[Z.to_nat idx := b]> st.2)) v ↔
  (v mod ebf_size e ≠ idx ∧ ebf_value (ebf_set e st) v) ∨ (∃ fp, fp ∈ b ∧ v = idx + ebf_size e * fp).
Proof.
  pose proof (ebf_wf_len _ Hwf) as Hl. unfold zlen in Hl. simpl in Hl.
  assert (Hmod : ∀ i fp, 0 <= i < ebf_size e → (i + ebf_size e * fp) mod ebf_size e = i).
  { intros i fp Hi. rewrite Z.mul_comm, Z.mod_add by lia. by apply Z.mod_small. }
  unfold ebf_value. simpl. split.
  - intros (i & b' & fp & Hi & Hfp & ->).
    apply list_lookup_insert_Some in Hi as [(<- & <- & _)|(Hne & Hi)].
    + right. exists fp. rewrite Z2Nat.id by lia. done.
    + left. pose proof (lookup_lt_Some _ _ _ Hi). rewrite Hmod by lia. split; [lia|eauto 8].
  - intros [(Hne & i & b' & fp & Hi & Hfp & ->)|(fp & Hfp & ->)].
    + pose proof (lookup_lt_Some _ _ _ Hi). rewrite Hmod in Hne by lia.
      exists i, b', fp. split_and!; [|done|done]. rewrite list_lookup_insert_ne by lia. done.
    + exists (Z.to_nat idx), b, fp. split_and!; [|done|lia].
      apply list_lookup_insert_eq. lia.
Qed.

(** The entries of bucket [idx] are the values congruent to [idx]. *)
Lemma ebf_bucket_value fp :
  fp ∈ bucket_at st.2 idx ↔ ebf_value (ebf_set e st) (idx + ebf_size e * fp).
Proof.
  rewrite ebf_value_at by done. simpl. split.
  - intros Hfp. exists idx, fp. done.
  - intros (i & fp' & Hi & Hfp & E).
    assert (i = idx ∧ fp' = fp) as [-> ->]; [|done].
    destruct (Z.lt_trichotomy fp fp') as [?|[->|?]]; [nia|split; [lia|done]|nia].
Qed.

(** Insertion of one entry, the step shared by [add] and [bucket_insert]. *)
Lemma ebf_insert_entry fp :
  is_u32 fp →
  let b := bucket_at st.2 idx in
  let st' := (bitset_put st.1 idx true,
              if bucket_contains b fp then st.2 else <[Z.to_nat idx := bucket_insert b fp]> st.2) in
  ebf_wf (ebf_set e st') ∧
  ∀ v, ebf_value (ebf_set e st') v ↔ ebf_value (ebf_set e st) v ∨ v = idx + ebf_size e * fp.
Proof.
  intros Hfp b st'. pose proof (ebf_wf_len _ Hwf) as Hl. unfold zlen in Hl. simpl in Hl.
  set (b' := if bucket_contains b fp then b else bucket_insert b fp).
  assert (E : st' = (bitset_put st.1 idx true, <[Z.to_nat idx := b']> st.2)).
  { unfold st', b'. f_equal. destruct (bucket_contains b fp); [|done].
    symmetry. apply list_insert_id. unfold b, bucket_at.
    destruct (lookup_lt_is_Some_2 st.2 (Z.to_nat idx)) as [c ->]; [lia|done]. }
  assert (Hb' : ∀ q, q ∈ b' ↔ q ∈ b ∨ q = fp).
  { intros q. unfold b'. destruct (bucket_contains b fp) eqn:Ec.
    - apply bucket_contains_spec in Ec. naive_solver.
    - unfold bucket_insert. rewrite elem_of_cons. tauto. }
  rewrite E. split.
  - assert (Hne : bucket_is_empty b' = false)
      by (apply bucket_is_empty_spec; exists fp; apply Hb'; by right).
    change true with (negb false). rewrite <- Hne. apply ebf_replace_wf.
    apply list.Forall_forall. intros q [Hq| ->]%Hb'; [|done].
    pose proof (bucket_at_fps st.2 idx (ebf_wf_fps _ Hwf)) as Hf.
    rewrite list.Forall_forall in Hf. auto.
  - intros v. rewrite ebf_replace_value. setoid_rewrite Hb'. split.
    + intros [[_ ?]|(q & [Hq| ->] & ->)]; [by left| |by right].
      left. by apply ebf_bucket_value.
    + destruct (decide (v mod ebf_size e = idx)) as [Hm|Hm]; [|].
      * intros [Hv| ->]; right; [|by eauto].
        exists (v / ebf_size e). pose proof (Z.div_mod v (ebf_size e) ltac:(lia)).
        split; [left|lia]. apply ebf_bucket_value. by replace (idx + _) with v by lia.
      * intros [Hv| ->]; [by left|]. right. eauto.
Qed.

(** Removal of one entry, the step of [remove]. *)
Lemma ebf_remove_entry fp :
  let b := (bucket_remove (bucket_at st.2 idx) fp).2 in
  let st' := (if bucket_is_empty b then bitset_put st.1 idx false else st.1,
              <[Z.to_nat idx := b]> st.2) in
  ebf_wf (ebf_set e st') ∧
  (∀ v, ebf_value (ebf_set e st') v → ebf_value (ebf_set e st) v) ∧
  (∀ v, ebf_value (ebf_set e st) v → v ≠ idx + ebf_size e * fp → ebf_value (ebf_set e st') v).
Proof.
  intros b st'. pose proof (bucket_at_fps st.2 idx (ebf_wf_fps _ Hwf)) as Hf.
  assert (Hb : Forall is_u32 b).
  { rewrite list.Forall_forall in Hf. apply list.Forall_forall. intros q Hq.
    apply Hf. by eapply bucket_remove_subset. }
  unfold st'. split_and!.
  - destruct (bucket_is_empty b) eqn:E.
    + change false with (negb true). rewrite <- E. by apply ebf_replace_wf.
    + apply ebf_replace_wf_gen; [done|apply Hwf|done|].
      intros p Hp. case_decide as Ep; [subst p|done]. rewrite E.
      etrans; [exact (ebf_wf_sync _ Hwf idx Hp)|]. f_equal.
      apply bucket_is_empty_spec. apply bucket_is_empty_spec in E as [q Hq].
      exists q. by eapply bucket_remove_subset.
  - intros v. rewrite ebf_replace_value. intros [[_ ?]|(q & Hq & ->)]; [done|].
    apply ebf_bucket_value. by eapply bucket_remove_subset.
  - intros v Hv Hne. rewrite ebf_replace_value.
    destruct (decide (v mod ebf_size e = idx)) as [Hm|Hm]; [right|by left].
    pose proof (Z.div_mod v (ebf_size e) ltac:(lia)).
    exists (v / ebf_size e). split; [|lia]. apply bucket_remove_other.
    + apply ebf_bucket_value. by replace (idx + _) with v by lia.
    + intros Efp. apply Hne. rewrite <- Efp. lia.
Qed.
End replace.

(** ** Insertion, lookup and removal *)

Section membership.
Context (XXH3_64bits_withSeed : list Z → Z → Z).
Abbreviation hash := (ebf_hash XXH3_64bits_withSeed).

(** The number an insertion of [x] stores for its [i]-th hash. *)
Definition ebf_key (e : elastic_bloom_filter_t) (x : list Z) (i : Z) : Z :=
  hash e x i mod ebf_size e +
  ebf_size e * u32 ((hash e x i / ebf_size e) mod 2 ^ ebf_fp_bits e).

(** With at most 32 fingerprint bits that is the hash modulo
    [size * 2^fp_bits]. *)
Lemma ebf_key_mod e x i :
  0 < ebf_size e → 0 <= ebf_fp_bits e <= 32 →
  ebf_key e x i = hash e x i mod (ebf_size e * 2 ^ ebf_fp_bits e).
Proof.
  intros Hs Hf. unfold ebf_key.
  assert (0 < 2 ^ ebf_fp_bits e) by (apply Z.pow_pos_nonneg; lia).
  rewrite Z.rem_mul_r by lia. rewrite u32_id; [done|].
  pose proof (Z.mod_pos_bound (hash e x i / ebf_size e) (2 ^ ebf_fp_bits e) ltac:(done)).
  assert (2 ^ ebf_fp_bits e <= 2 ^ 32) by (apply Z.pow_le_mono_r; lia).
  unfold is_u32. lia.
Qed.

Lemma ebf_key_index e x i :
  0 < ebf_size e → ebf_key e x i mod ebf_size e = hash e x i mod ebf_size e.
Proof.
  intros Hs. unfold ebf_key. rewrite Z.mul_comm, Z.mod_add by lia. apply Z.mod_mod. lia.
Qed.

Lemma compute_hash_pair_ret e x i :
  0 < ebf_size e → ebf_fp_bits e < 64 →
  compute_hash_pair XXH3_64bits_withSeed e x i =
  Ret (u32 ((hash e x i / ebf_size e) mod 2 ^ ebf_fp_bits e), hash e x i mod ebf_size e).
Proof.
  intros Hs Hf. unfold compute_hash_pair.
  destruct (Z.eqb_spec (ebf_size e) 0); [lia|]. by destruct (Z.leb_spec 64 (ebf_fp_bits e)); [lia|].
Qed.

(** A query answers [true] exactly when, for each hash function, the content
    has a number congruent to the hash modulo the current size. *)
Lemma ebf_contains_iff e x :
  ebf_wf e →
  elastic_bloom_filter_contains_nn XXH3_64bits_withSeed e x = Ret true ↔
  ∀ i, 0 <= i < ebf_hash_count e →
    ∃ v, ebf_value e v ∧ v mod ebf_size e = hash e x i mod ebf_size e.
Proof.
  intros Hwf. pose proof (ebf_wf_size e Hwf). destruct (ebf_wf_hash_count e Hwf).
  unfold elastic_bloom_filter_contains_nn. rewrite all_range_true.
  apply forall_proper. intros i. rewrite Z.add_0_l, Z2Nat.id by lia.
  assert (Hr : 0 <= hash e x i mod ebf_size e < ebf_size e) by (apply Z.mod_pos_bound; lia).
  rewrite compute_hash_pair_ret by (done || apply Hwf). rewrite bind_Ret_l.
  rewrite (ebf_wf_sync e Hwf) by lia.
  enough (bucket_is_empty (bucket_at (ebf_buckets e) (hash e x i mod ebf_size e)) = false ↔
    ∃ v, ebf_value e v ∧ v mod ebf_size e = hash e x i mod ebf_size e) as Hiff.
  { rewrite <- Hiff. destruct (bucket_is_empty _); simpl; naive_solver. }
  rewrite bucket_is_empty_spec. setoid_rewrite (ebf_value_at e _ Hwf). split.
  - intros [fp Hfp]. eexists. split; [eexists _, fp; split_and!; [| |exact Hfp|reflexivity]; lia|].
    rewrite (Z.mul_comm (ebf_size e)), Z.mod_add by lia. by apply Z.mod_mod; lia.
  - intros (v & (j & fp & Hj & Hfp & ->) & E).
    rewrite (Z.mul_comm (ebf_size e)), Z.mod_add, (Z.mod_small j) in E by lia. subst j. eauto.
Qed.

Lemma ebf_contains_total e x :
  ebf_wf e → ∃ b, elastic_bloom_filter_contains_nn XXH3_64bits_withSeed e x = Ret b.
Proof.
  intros Hwf. apply all_range_total. intros i _.
  rewrite compute_hash_pair_ret by apply Hwf. by eexists.
Qed.

(** The insertion loop: the invariant holds throughout, and after [i]
    iterations the first [i] keys have been added to the content. *)
Lemma ebf_add_locked_spec e x :
  ebf_wf e →
  ∃ e', ebf_add_locked XXH3_64bits_withSeed e x = Ret e' ∧ ebf_wf e' ∧
    ebf_size e' = ebf_size e ∧
    ∀ v, ebf_value e' v ↔ ebf_value e v ∨ ∃ i, 0 <= i < ebf_hash_count e ∧ v = ebf_key e x i.
Proof.
  intros Hwf. pose proof (ebf_wf_size e Hwf). destruct (ebf_wf_hash_count e Hwf).
  destruct (for_range_inv (ebf_add_step XXH3_64bits_withSeed e x)
    (fun i st => ebf_wf (ebf_set e st) ∧
       ∀ v, ebf_value (ebf_set e st) v ↔ ebf_value e v ∨ ∃ j, 0 <= j < i ∧ v = ebf_key e x j)
    (Z.to_nat (ebf_hash_count e)) 0 (ebf_bits e, ebf_buckets e)) as ([bits bs] & Erun & Hwf' & Hv).
  - split; [by destruct Hwf; split|]. intros v. split; [by left|]. intros [|(j & ? & _)]; [done|lia].
  - intros i st Hi [Hst Hv].
    assert (Hr : 0 <= hash e x i mod ebf_size e < ebf_size e) by (apply Z.mod_pos_bound; lia).
    destruct (ebf_insert_entry e st Hst _ Hr (u32 ((hash e x i / ebf_size e) mod 2 ^ ebf_fp_bits e)))
      as [Hst' Hv']; [apply u32_range|].
    eexists. split; [|split; [exact Hst'|]].
    + unfold ebf_add_step. rewrite compute_hash_pair_ret by (done || apply Hwf). reflexivity.
    + intros v. rewrite Hv', Hv. fold (ebf_key e x i). split.
      * intros [[?|(j & ? & ->)]| ->]; [by left|right; exists j; split; [lia|done]|].
        right. exists i. split; [lia|done].
      * intros [?|(j & ? & ->)]; [by left; left|]. destruct (decide (j = i)) as [->|]; [by right|].
        left. right. exists j. split; [lia|done].
  - unfold ebf_add_locked. rewrite Erun. eexists. split; [reflexivity|].
    split_and!; [by apply (ebf_with_count_wf e (bits, bs))|done|].
    intros v. rewrite Z.add_0_l, Z2Nat.id in Hv by lia. apply Hv.
Qed.

(** The whole insertion, the load-driven expansion included. *)
Lemma ebf_add_spec e x :
  ebf_wf e → ebf_size e < 2 ^ 63 →
  ∃ e', elastic_bloom_filter_add_nn XXH3_64bits_withSeed e x = Ret e' ∧ ebf_wf e' ∧
    (ebf_size e' = ebf_size e ∨ ebf_size e' = 2 * ebf_size e) ∧
    ∀ v, ebf_value e' v ↔ ebf_value e v ∨ ∃ i, 0 <= i < ebf_hash_count e ∧ v = ebf_key e x i.
Proof.
  intros Hwf Hs. destruct (ebf_add_locked_spec e x Hwf) as (e1 & E1 & Hwf1 & Hs1 & Hv1).
  unfold elastic_bloom_filter_add_nn. rewrite E1. eexists. split; [reflexivity|].
  destruct (f32_lt _ _); [|split_and!; auto].
  split_and!.
  - apply ebf_expand_wf; [done|lia].
  - right. simpl. rewrite u64_id; [lia|]. pose proof (ebf_wf_size e Hwf). unfold is_u64. lia.
  - intros v. by rewrite ebf_expand_value by (done || lia).
Qed.

(** The removal loop never adds to the content and removes only the keys of
    the element. *)
Lemma ebf_remove_locked_spec e x :
  ebf_wf e →
  ∃ e', ebf_remove_locked XXH3_64bits_withSeed e x = Ret e' ∧ ebf_wf e' ∧
    ebf_size e' = ebf_size e ∧
    (∀ v, ebf_value e' v → ebf_value e v) ∧
    (∀ v, ebf_value e v → (∀ i, 0 <= i < ebf_hash_count e → v ≠ ebf_key e x i) → ebf_value e' v).
Proof.
  intros Hwf. pose proof (ebf_wf_size e Hwf). destruct (ebf_wf_hash_count e Hwf).
  destruct (for_range_inv (ebf_remove_step XXH3_64bits_withSeed e x)
    (fun i st => ebf_wf (ebf_set e st) ∧ (∀ v, ebf_value (ebf_set e st) v → ebf_value e v) ∧
       ∀ v, ebf_value e v → (∀ j, 0 <= j < ebf_hash_count e → v ≠ ebf_key e x j) →
            ebf_value (ebf_set e st) v)
    (Z.to_nat (ebf_hash_count e)) 0 (ebf_bits e, ebf_buckets e)) as ([bits bs] & Erun & Hwf' & Hv1 & Hv2).
  - split_and!; [by destruct Hwf; split|done|done].
  - intros i st Hi (Hst & Hv1 & Hv2).
    assert (Hr : 0 <= hash e x i mod ebf_size e < ebf_size e) by (apply Z.mod_pos_bound; lia).
    destruct (ebf_remove_entry e st Hst _ Hr (u32 ((hash e x i / ebf_size e) mod 2 ^ ebf_fp_bits e)))
      as (Hst' & Hv1' & Hv2').
    eexists. split; [|split_and!; [exact Hst'|by auto|]].
    + unfold ebf_remove_step. rewrite compute_hash_pair_ret by (done || apply Hwf). reflexivity.
    + intros v Hv Hk. apply Hv2'; [by auto|]. apply Hk. lia.
  - unfold ebf_remove_locked. rewrite Erun. eexists. split; [reflexivity|].
    split_and!; [by apply (ebf_with_count_wf e (bits, bs))|done|done|done].
Qed.
End membership.

(** ** Merge *)

Lemma merge_bucket_elem d s q : q ∈ merge_bucket d s ↔ q ∈ d ∨ q ∈ s.
Proof.
  revert d. induction s as [|fp s IH]; intros d; simpl.
  - rewrite elem_of_nil. tauto.
  - rewrite IH, elem_of_cons. destruct (bucket_contains d fp) eqn:E.
    + apply bucket_contains_spec in E. naive_solver.
    + unfold bucket_insert. rewrite elem_of_cons. tauto.
Qed.

Lemma merge_buckets_lookup d s i :
  merge_buckets d s !! i = (fun b => merge_bucket b (default [] (s !! i))) <$> d !! i.
Proof.
  revert s i. induction d as [|b d IH]; intros s i; simpl; [done|].
  destruct i as [|i]; simpl; [by destruct s|]. rewrite IH. by destruct s.
Qed.

Lemma merge_buckets_length d s : length (merge_buckets d s) = length d.
Proof. revert s. induction d; intros s; simpl; auto. Qed.

Section merging.
Context (d s : elastic_bloom_filter_t) (Hd : ebf_wf d) (Hs : ebf_wf s).

Lemma ebf_merge_ret : ebf_size d = ebf_size s → (elastic_bloom_filter_merge_nn d s).1 = 0.
Proof.
  intros E. unfold elastic_bloom_filter_merge_nn.
  rewrite (ebf_wf_bucket_count d Hd), (ebf_wf_bucket_count s Hs), E. by rewrite !Z.eqb_refl.
Qed.

(** Filters of different sizes are left alone. *)
Lemma ebf_merge_mismatch :
  ebf_size d ≠ ebf_size s → elastic_bloom_filter_merge_nn d s = (-2, d).
Proof.
  intros E. unfold elastic_bloom_filter_merge_nn. by destruct (Z.eqb_spec (ebf_size d) (ebf_size s)).
Qed.

Lemma ebf_merge_bucket_at p :
  bucket_at (merge_buckets (ebf_buckets d) (ebf_buckets s)) p =
  if decide (p < ebf_size d) then
    merge_bucket (bucket_at (ebf_buckets d) p) (bucket_at (ebf_buckets s) p)
  else [].
Proof.
  pose proof (ebf_wf_len d Hd) as Hl. unfold zlen in Hl. unfold bucket_at.
  rewrite merge_buckets_lookup. case_decide.
  - destruct (lookup_lt_is_Some_2 (ebf_buckets d) (Z.to_nat p)) as [b ->]; [|done].
    pose proof (ebf_wf_size d Hd). lia.
  - by rewrite (lookup_ge_None_2 (ebf_buckets d)) by lia.
Qed.

Lemma merge_bucket_is_empty b1 b2 :
  bucket_is_empty (merge_bucket b1 b2) = bucket_is_empty b1 && bucket_is_empty b2.
Proof.
  apply eq_bool_prop_intro. rewrite !Is_true_true, andb_true_iff, !bucket_is_empty_true.
  setoid_rewrite merge_bucket_elem. naive_solver.
Qed.

Lemma ebf_merge_wf :
  ebf_size d = ebf_size s → ebf_wf (elastic_bloom_filter_merge_nn d s).2.
Proof.
  intros E. unfold elastic_bloom_filter_merge_nn.
  rewrite (ebf_wf_bucket_count d Hd), (ebf_wf_bucket_count s Hs), E, !Z.eqb_refl. simpl.
  pose proof (ebf_wf_len d Hd). pose proof (ebf_wf_len s Hs).
  split; simpl; try (apply Hs); try (apply Hd); try done.
  - unfold zlen in *. rewrite merge_buckets_length. lia.
  - apply bitset_or_wf.
  - unfold bitset_or. rewrite bitset_bitwise_size, (ebf_wf_bits_size d Hd), (ebf_wf_bits_size s Hs), E. lia.
  - intros p Hp. rewrite bitset_get_or, (ebf_wf_sync d Hd), (ebf_wf_sync s Hs), ebf_merge_bucket_at by done.
    case_decide.
    + by rewrite merge_bucket_is_empty, negb_andb.
    + by rewrite !bucket_at_beyond by lia.
  - apply Forall_lookup_2. intros i b. rewrite merge_buckets_lookup.
    destruct (ebf_buckets d !! i) as [b1|] eqn:E1; simpl; [|done]. intros [= <-].
    pose proof (Forall_lookup_1 _ _ _ _ (ebf_wf_fps d Hd) E1) as H1.
    pose proof (bucket_at_fps (ebf_buckets s) (Z.of_nat i) (ebf_wf_fps s Hs)) as H2.
    unfold bucket_at in H2. rewrite Nat2Z.id in H2.
    rewrite list.Forall_forall in H1. rewrite list.Forall_forall in H2.
    apply list.Forall_forall. intros q [?|?]%merge_bucket_elem; auto.
Qed.

(** The content of a merge is the union of the contents. *)
Lemma ebf_merge_value v :
  ebf_size d = ebf_size s →
  ebf_value (elastic_bloom_filter_merge_nn d s).2 v ↔ ebf_value d v ∨ ebf_value s v.
Proof.
  intros E. pose proof (ebf_merge_wf E) as Hm.
  rewrite !ebf_value_at by done.
  assert (Hms : ebf_size (elastic_bloom_filter_merge_nn d s).2 = ebf_size d).
  { unfold elastic_bloom_filter_merge_nn. destruct (_ || _); done. }
  assert (Hmb : ∀ i, 0 <= i < ebf_size d →
    bucket_at (ebf_buckets (elastic_bloom_filter_merge_nn d s).2) i =
    merge_bucket (bucket_at (ebf_buckets d) i) (bucket_at (ebf_buckets s) i)).
  { intros i Hi. unfold elastic_bloom_filter_merge_nn.
    rewrite (ebf_wf_bucket_count d Hd), (ebf_wf_bucket_count s Hs), E, !Z.eqb_refl. simpl.
    rewrite ebf_merge_bucket_at. case_decide; [done|lia]. }
  rewrite Hms, <- E. split.
  - intros (i & fp & Hi & Hfp & ->). rewrite Hmb in Hfp by done.
    apply merge_bucket_elem in Hfp as [?|?]; eauto 10.
  - intros [(i & fp & Hi & Hfp & ->)|(i & fp & Hi & Hfp & ->)];
      exists i, fp; rewrite Hmb by done; rewrite merge_bucket_elem; auto.
Qed.
End merging.

(** ** Fingerprint head-room, in terms of the content *)

Lemma ebf_fps_room_value e :
  ebf_wf e → ebf_fps_room e ↔ ∀ v, ebf_value e v → v < ebf_size e * 2 ^ 31.
Proof.
  intros Hwf. pose proof (ebf_wf_size e Hwf) as Hs. pose proof (ebf_wf_len e Hwf) as Hl. unfold zlen in Hl.
  unfold ebf_fps_room. split.
  - intros Hr v (i & b & fp & Hi & Hfp & ->). pose proof (lookup_lt_Some _ _ _ Hi).
    pose proof (Forall_lookup_1 _ _ _ _ Hr Hi) as Hb. rewrite list.Forall_forall in Hb.
    specialize (Hb fp Hfp). simpl in Hb. nia.
  - intros Hv. apply Forall_lookup_2. intros i b Hi. apply list.Forall_forall. intros fp Hfp.
    pose proof (Forall_lookup_1 _ _ _ _ (ebf_wf_fps e Hwf) Hi) as Hb. rewrite list.Forall_forall in Hb.
    destruct (Hb fp Hfp). specialize (Hv (Z.of_nat i + ebf_size e * fp)).
    assert (Z.of_nat i + ebf_size e * fp < ebf_size e * 2 ^ 31) by (apply Hv; by exists i, b, fp). nia.
Qed.

(** ** Removal with its load-driven compression *)

Lemma ebf_remove_spec XXH3 e x :
  ebf_wf e → ebf_size e = 1 ∨ ebf_size e mod 2 = 0 → ebf_fps_room e →
  ∃ e', elastic_bloom_filter_remove_nn XXH3 e x = Ret e' ∧ ebf_wf e' ∧
    (ebf_size e' = ebf_size e ∨ ebf_size e = 2 * ebf_size e') ∧
    (∀ v, ebf_value e' v → ebf_value e v) ∧
    (∀ v, ebf_value e v → (∀ i, 0 <= i < ebf_hash_count e → v ≠ ebf_key XXH3 e x i) → ebf_value e' v).
Proof.
  intros Hwf Heven Hroom.
  destruct (ebf_remove_locked_spec XXH3 e x Hwf) as (e1 & E1 & Hwf1 & Hs1 & Hsub & Hkeep).
  unfold elastic_bloom_filter_remove_nn. rewrite E1. eexists. split; [reflexivity|].
  destruct (f32_lt _ _); [|split_and!; auto].
  destruct (decide (ebf_size e1 = 1)) as [H1|H1].
  - assert ((elastic_bloom_filter_compress_nn e1).2 = e1) as ->; [|split_and!; auto].
    unfold elastic_bloom_filter_compress_nn. by rewrite (ebf_wf_bucket_count e1 Hwf1), H1.
  - assert (Hroom1 : ebf_fps_room e1).
    { apply ebf_fps_room_value; [done|]. rewrite Hs1. intros v Hv.
      by apply (proj1 (ebf_fps_room_value e Hwf) Hroom), Hsub. }
    pose proof (ebf_wf_size e1 Hwf1). assert (ebf_size e1 mod 2 = 0) by (destruct Heven; [lia|congruence]).
    split_and!.
    + by apply ebf_compress_wf.
    + right. unfold elastic_bloom_filter_compress_nn. rewrite (ebf_wf_bucket_count e1 Hwf1).
      destruct (Z.ltb_spec (ebf_size e1) 2); [lia|]. simpl.
      pose proof (Z.div_mod (ebf_size e1) 2). lia.
    + intros v. rewrite ebf_compress_value by (done || lia). auto.
    + intros v Hv Hk. rewrite ebf_compress_value by (done || lia). auto.
Qed.
