(* ===== verification/ElasticBloomSpec.v ===== *)
(** * ElasticBloomSpec: what the elastic Bloom filter promises

    The contract of [ElasticBloom] over whole histories of operations: the
    representation invariant, the refinement of resizing to "nothing changes",
    no false negatives within the fingerprint budget, exact deletion, and the
    two limits of the implementation (the budget, deletion after expansion). *)

From stdpp Require Import relations.
From S2P Require Import Prelude Bitset Bloom ElasticBloom.

(** ** Hashing parameters never change *)

Definition ebf_same_params (e e' : elastic_bloom_filter_t) : Prop :=
  ebf_hash_count e' = ebf_hash_count e ∧ ebf_seed_a e' = ebf_seed_a e ∧
  ebf_seed_b e' = ebf_seed_b e ∧ ebf_fp_bits e' = ebf_fp_bits e.

#[export] Instance ebf_same_params_equiv : Equivalence ebf_same_params.
Proof.
  split; unfold ebf_same_params.
  - intros e. done.
  - intros e e' (-> & -> & -> & ->). done.
  - intros e e' e'' (-> & -> & -> & ->) (-> & -> & -> & ->). done.
Qed.

Lemma ebf_expand_params e : ebf_same_params e (elastic_bloom_filter_expand_nn e).
Proof. done. Qed.

Lemma ebf_compress_params e : ebf_same_params e (elastic_bloom_filter_compress_nn e).2.
Proof. unfold elastic_bloom_filter_compress_nn. by destruct (_ <? _). Qed.

Lemma ebf_merge_params d s : ebf_same_params d (elastic_bloom_filter_merge_nn d s).2.
Proof. unfold elastic_bloom_filter_merge_nn. by destruct (_ || _). Qed.

Section params.
Context (XXH3 : list Z → Z → Z).

Lemma ebf_add_params e x e' :
  elastic_bloom_filter_add_nn XXH3 e x = Ret e' → ebf_same_params e e'.
Proof.
  unfold elastic_bloom_filter_add_nn, ebf_add_locked. intros H.
  apply bind_ret in H as (e1 & H1 & [= <-]). apply bind_ret in H1 as ([bits bs] & _ & [= <-]).
  by destruct (f32_lt _ _).
Qed.

Lemma ebf_remove_params e x e' :
  elastic_bloom_filter_remove_nn XXH3 e x = Ret e' → ebf_same_params e e'.
Proof.
  unfold elastic_bloom_filter_remove_nn, ebf_remove_locked. intros H.
  apply bind_ret in H as (e1 & H1 & [= <-]). apply bind_ret in H1 as ([bits bs] & _ & [= <-]).
  destruct (f32_lt _ _); [|done]. etrans; [|apply ebf_compress_params]. done.
Qed.

Lemma ebf_hash_params e e' x i :
  ebf_same_params e e' → ebf_hash XXH3 e' x i = ebf_hash XXH3 e x i.
Proof. intros (_ & Ha & Hb & _). unfold ebf_hash. by rewrite Ha, Hb. Qed.
End params.

(** ** Histories *)

Section histories.
Context (XXH3 : list Z → Z → Z).

(** Every filter the exported operations build.  The premises on sizes say
    that the doubled bucket array still fits the address space. *)
Inductive ebf_reachable : elastic_bloom_filter_t → Prop :=
| reach_create size k omega fp_bits :
    0 < size → is_u32 k → 0 <= fp_bits < 64 →
    ebf_reachable (elastic_bloom_filter_create size k omega fp_bits)
| reach_add e x e' :
    ebf_reachable e → ebf_size e < 2 ^ 63 →
    elastic_bloom_filter_add_nn XXH3 e x = Ret e' → ebf_reachable e'
| reach_remove e x e' :
    ebf_reachable e → elastic_bloom_filter_remove_nn XXH3 e x = Ret e' → ebf_reachable e'
| reach_expand e :
    ebf_reachable e → ebf_size e < 2 ^ 63 → ebf_reachable (elastic_bloom_filter_expand_nn e)
| reach_compress e :
    ebf_reachable e → ebf_reachable (elastic_bloom_filter_compress_nn e).2
| reach_merge e s :
    ebf_reachable e → ebf_reachable s → ebf_reachable (elastic_bloom_filter_merge_nn e s).2
| reach_bucket_insert e idx fp :
    ebf_reachable e → 0 <= idx → is_u32 fp →
    ebf_reachable (elastic_bloom_filter_bucket_insert_nn e idx fp).2.

Lemma ebf_create_wf size k omega fp_bits :
  0 < size → is_u32 k → 0 <= fp_bits < 64 →
  ebf_wf (elastic_bloom_filter_create size k omega fp_bits).
Proof.
  intros Hs Hk Hf. destruct (byte_size_of_pos size) as [_ Hb]; [lia|].
  assert (Hl : ∀ p, bucket_at (replicate (Z.to_nat size) []) p = []).
  { intros p. unfold bucket_at. destruct (_ !! _) eqn:E; [|done].
    by apply lookup_replicate in E as [-> _]. }
  split; simpl; try done.
  - unfold zlen. rewrite length_replicate. lia.
  - apply bitset_create_wf.
  - by apply bitset_create_size.
  - intros p Hp. by rewrite bitset_get_create, Hl by done.
  - apply Forall_replicate. constructor.
Qed.

Lemma ebf_bucket_insert_wf e idx fp :
  ebf_wf e → 0 <= idx → is_u32 fp → ebf_wf (elastic_bloom_filter_bucket_insert_nn e idx fp).2.
Proof.
  intros Hwf Hi Hfp. unfold elastic_bloom_filter_bucket_insert_nn.
  rewrite (ebf_wf_bucket_count e Hwf).
  destruct (Z.leb_spec (ebf_size e) idx) as [|Hlt]; [done|]. cbn [snd].
  assert (Hst : ebf_wf (ebf_set e (ebf_bits e, ebf_buckets e))) by (by destruct Hwf; split).
  destruct (ebf_insert_entry e _ Hst idx ltac:(lia) fp Hfp) as [H _]. cbn [fst snd] in H.
  unfold ebf_set in H. cbn [fst snd] in H. rewrite (ebf_wf_bucket_count e Hwf) in H.
  destruct (bucket_contains _ _); [|done].
  rewrite list_insert_id; [done|]. unfold bucket_at.
  pose proof (ebf_wf_len e Hwf). unfold zlen in *.
  by destruct (lookup_lt_is_Some_2 (ebf_buckets e) (Z.to_nat idx)) as [b ->]; [lia|].
Qed.

Lemma ebf_remove_wf e x e' :
  ebf_wf e → elastic_bloom_filter_remove_nn XXH3 e x = Ret e' → ebf_wf e'.
Proof.
  intros Hwf E. destruct (ebf_remove_locked_spec XXH3 e x Hwf) as (e1 & E1 & Hwf1 & _).
  unfold elastic_bloom_filter_remove_nn in E. rewrite E1 in E. simpl in E. injection E as <-.
  destruct (f32_lt _ _); [by apply ebf_compress_wf|done].
Qed.

Lemma ebf_reachable_invariant e : ebf_reachable e → ebf_wf e.
Proof.
  induction 1 as [size k omega fp_bits Hs Hk Hf|e x e' _ IH Hs E|e x e' _ IH E|e _ IH Hs|e _ IH
                 |e s _ IH _ IHs|e idx fp _ IH Hi Hfp].
  - by apply ebf_create_wf.
  - destruct (ebf_add_spec XXH3 e x IH Hs) as (e1 & E1 & Hwf & _). congruence.
  - by eapply ebf_remove_wf.
  - by apply ebf_expand_wf.
  - by apply ebf_compress_wf.
  - destruct (decide (ebf_size e = ebf_size s)).
    + by apply ebf_merge_wf.
    + by rewrite ebf_merge_mismatch.
  - by apply ebf_bucket_insert_wf.
Qed.

(** One operation of a history along which the numbers of [keep] must
    survive: insertions, resizing, merges, and removals of elements none of
    whose keys is in [keep]. *)
Inductive ebf_step (keep : Z → Prop) : relation elastic_bloom_filter_t :=
| step_add e y e' :
    ebf_size e < 2 ^ 63 → elastic_bloom_filter_add_nn XXH3 e y = Ret e' → ebf_step keep e e'
| step_expand e :
    ebf_size e < 2 ^ 63 → ebf_step keep e (elastic_bloom_filter_expand_nn e)
| step_compress e :
    1 < ebf_size e → ebf_size e mod 2 = 0 → ebf_fps_room e →
    ebf_step keep e (elastic_bloom_filter_compress_nn e).2
| step_merge e s :
    ebf_wf s → ebf_step keep e (elastic_bloom_filter_merge_nn e s).2
| step_remove e y e' :
    ebf_size e = 1 ∨ ebf_size e mod 2 = 0 → ebf_fps_room e →
    (∀ i, 0 <= i < ebf_hash_count e → ¬ keep (ebf_key XXH3 e y i)) →
    elastic_bloom_filter_remove_nn XXH3 e y = Ret e' → ebf_step keep e e'.

Lemma ebf_step_pres keep e e' :
  ebf_step keep e e' → ebf_wf e →
  ebf_wf e' ∧ ebf_same_params e e' ∧ ∀ v, keep v → ebf_value e v → ebf_value e' v.
Proof.
  intros Hstep Hwf. destruct Hstep as [e y e' Hs E|e Hs|e H1 H2 Hr|e s Hsw|e y e' Hev Hr Hk E].
  - destruct (ebf_add_spec XXH3 e y Hwf Hs) as (e1 & E1 & Hwf1 & _ & Hv).
    rewrite E in E1. injection E1 as <-. split_and!; [done|by eapply ebf_add_params|].
    intros v _ H. apply Hv. by left.
  - split_and!; [by apply ebf_expand_wf|apply ebf_expand_params|].
    intros v _ H. by apply ebf_expand_value.
  - split_and!; [by apply ebf_compress_wf|apply ebf_compress_params|].
    intros v _ H. by apply ebf_compress_value.
  - destruct (decide (ebf_size e = ebf_size s)).
    + split_and!; [by apply ebf_merge_wf|apply ebf_merge_params|].
      intros v _ H. apply ebf_merge_value; auto.
    + rewrite ebf_merge_mismatch by done. done.
  - destruct (ebf_remove_spec XXH3 e y Hwf Hev Hr) as (e1 & E1 & Hwf1 & _ & _ & Hv).
    rewrite E in E1. injection E1 as <-. split_and!; [done|by eapply ebf_remove_params|].
    intros v Hkv H. apply Hv; [done|]. intros i Hi ->. by apply (Hk i).
Qed.

Lemma ebf_steps_pres keep e e' :
  rtc (ebf_step keep) e e' → ebf_wf e →
  ebf_wf e' ∧ ebf_same_params e e' ∧ ∀ v, keep v → ebf_value e v → ebf_value e' v.
Proof.
  induction 1 as [e|e e1 e2 Hstep _ IH]; intros Hwf; [done|].
  destruct (ebf_step_pres keep e e1 Hstep Hwf) as (Hwf1 & Hp1 & Hv1).
  destruct (IH Hwf1) as (Hwf2 & Hp2 & Hv2). split_and!; [done|by etrans|auto].
Qed.

(** The numbers an insertion of [x] into [e] stores. *)
Definition ebf_keys (e : elastic_bloom_filter_t) (x : list Z) (v : Z) : Prop :=
  ∃ i, 0 <= i < ebf_hash_count e ∧ v = ebf_key XXH3 e x i.

(** A filter that has kept the keys of [x] still recognises [x] while its
    size divides the modulus the keys were taken at. *)
Lemma ebf_keys_contains e0 e x :
  ebf_wf e0 → ebf_fp_bits e0 <= 32 → ebf_wf e → ebf_same_params e0 e →
  (∀ v, ebf_keys e0 x v → ebf_value e v) →
  (ebf_size e | ebf_size e0 * 2 ^ ebf_fp_bits e0) →
  elastic_bloom_filter_contains_nn XXH3 e x = Ret true.
Proof.
  intros Hwf0 Hf Hwf Hp Hkeys Hdiv. pose proof (ebf_wf_size e0 Hwf0). pose proof (ebf_wf_size e Hwf).
  pose proof (ebf_wf_fp_bits e0 Hwf0).
  apply ebf_contains_iff; [done|]. intros i Hi.
  exists (ebf_key XXH3 e0 x i). split.
  - apply Hkeys. exists i. split; [|done]. destruct Hp as (Hk & _). by rewrite <- Hk.
  - rewrite ebf_key_mod by lia. rewrite (ebf_hash_params XXH3 e0 e) by done.
    by apply Z.mod_mod_divide.
Qed.
End histories.

(** ** Deletion in the absence of duplicates *)

Definition ebf_nodup (e : elastic_bloom_filter_t) : Prop := Forall (@base.NoDup Z) (ebf_buckets e).

Lemma bucket_remove_nodup b fp :
  base.NoDup b → base.NoDup (bucket_remove b fp).2 ∧ ∀ q, q ∈ (bucket_remove b fp).2 → q ≠ fp.
Proof.
  induction b as [|x b IH]; simpl; intros Hb; [split; [done|]; intros q H; by apply elem_of_nil in H|].
  apply list.NoDup_cons in Hb as [Hx Hb]. destruct (Z.eqb_spec x fp) as [->|Hne]; simpl.
  - split; [done|]. intros q Hq ->. done.
  - specialize (IH Hb). pose proof (bucket_remove_subset b fp) as Hsub.
    destruct (bucket_remove b fp) as [found b']. simpl in *. destruct IH as [IH1 IH2]. split.
    + apply list.NoDup_cons. split; [|done]. intros H. by apply Hx, Hsub.
    + intros q [->|Hq]%elem_of_cons; [done|]. by apply IH2.
Qed.

Lemma bucket_at_nodup bs i : Forall (@base.NoDup Z) bs → base.NoDup (bucket_at bs i).
Proof.
  intros H. unfold bucket_at. destruct (bs !! Z.to_nat i) eqn:E; simpl; [|constructor].
  exact (Forall_lookup_1 _ _ _ _ H E).
Qed.

Section deletion.
Context (XXH3 : list Z → Z → Z).

(** Insertion keeps buckets free of duplicates. *)
Lemma ebf_add_locked_nodup e x e' :
  ebf_wf e → ebf_nodup e → ebf_add_locked XXH3 e x = Ret e' → ebf_nodup e'.
Proof.
  intros Hwf Hnd E. unfold ebf_add_locked in E. apply bind_ret in E as ([bits bs] & E & [= <-]).
  eapply (for_range_pres _ (fun _ st => Forall (@base.NoDup Z) st.2)) in E; [exact E|exact Hnd|].
  intros i st st' _ Hst Estep. unfold ebf_add_step in Estep.
  rewrite compute_hash_pair_ret in Estep by apply Hwf. injection Estep as <-. simpl.
  destruct (bucket_contains _ _) eqn:Ec; [done|]. apply Forall_insert; [done|].
  apply list.NoDup_cons. split; [|by apply bucket_at_nodup].
  intros H. apply bucket_contains_spec in H. congruence.
Qed.

(** In a duplicate-free filter, removing an element removes exactly its
    keys. *)
Lemma ebf_remove_locked_exact e x :
  ebf_wf e → ebf_nodup e →
  ∃ e', ebf_remove_locked XXH3 e x = Ret e' ∧ ebf_wf e' ∧ ebf_size e' = ebf_size e ∧
    ∀ v, ebf_value e' v ↔ ebf_value e v ∧ ¬ ebf_keys XXH3 e x v.
Proof.
  intros Hwf Hnd. destruct (ebf_remove_locked_spec XXH3 e x Hwf) as (e' & E & Hwf' & Hs' & Hsub & Hkeep).
  exists e'. split_and!; [done..|]. intros v. split.
  - intros Hv. split; [auto|]. intros (i & Hi & ->).
    unfold ebf_remove_locked in E. apply bind_ret in E as ([bits bs] & E & Ee). injection Ee as <-.
    pose proof (ebf_wf_size e Hwf). destruct (ebf_wf_hash_count e Hwf).
    pose (gone := fun (n : Z) (st : bitset_t * list (list Z)) =>
      ebf_wf (ebf_set e st) ∧ Forall (@base.NoDup Z) st.2 ∧
      ∀ j, 0 <= j < n → ¬ ebf_value (ebf_set e st) (ebf_key XXH3 e x j)).
    assert (Hg : gone (ebf_hash_count e) (bits, bs)).
    { replace (ebf_hash_count e) with (0 + Z.of_nat (Z.to_nat (ebf_hash_count e))) by lia.
      eapply for_range_pres; [exact E| |].
      - split_and!; [by destruct Hwf; split|exact Hnd|]. intros j Hj. lia.
      - intros n st st' Hn (Hw & Hd & Hnot) Estep. unfold ebf_remove_step in Estep.
        rewrite compute_hash_pair_ret in Estep by apply Hwf. injection Estep as <-.
        assert (Hr : 0 <= ebf_hash XXH3 e x n mod ebf_size e < ebf_size e) by (apply Z.mod_pos_bound; lia).
        set (fp := u32 _).
        destruct (ebf_remove_entry e st Hw _ Hr fp) as (Hw' & Hsub' & _).
        destruct (bucket_remove_nodup _ fp (bucket_at_nodup st.2 (ebf_hash XXH3 e x n mod ebf_size e) Hd))
          as [Hd' Hne].
        split_and!; [done|by apply Forall_insert|].
        intros j Hj Hv'. destruct (decide (j = n)) as [->|].
        + apply (ebf_bucket_value e _ Hw' _ Hr) in Hv'. cbn [snd] in Hv'.
          pose proof (ebf_wf_len _ Hw) as Hl. cbn [ebf_set ebf_with ebf_buckets ebf_size] in Hl.
          rewrite bucket_at_insert in Hv' by lia. rewrite decide_True in Hv' by done.
          by apply (Hne fp Hv').
        + apply (Hnot j); [lia|]. by apply Hsub'. }
    destruct Hg as (_ & _ & Hg). by apply (Hg i Hi).
  - intros [Hv Hk]. apply Hkeep; [done|]. intros i Hi ->. apply Hk. by exists i.
Qed.

(** The same for the exported operation, compression included. *)
Lemma ebf_remove_exact e x e' v :
  ebf_wf e → ebf_nodup e → ebf_size e = 1 ∨ ebf_size e mod 2 = 0 → ebf_fps_room e →
  elastic_bloom_filter_remove_nn XXH3 e x = Ret e' →
  ebf_value e' v ↔ ebf_value e v ∧ ¬ ebf_keys XXH3 e x v.
Proof.
  intros Hwf Hnd Hev Hroom E.
  destruct (ebf_remove_locked_exact e x Hwf Hnd) as (e1 & E1 & Hwf1 & Hs1 & Hv1).
  unfold elastic_bloom_filter_remove_nn in E. rewrite E1 in E. simpl in E. injection E as <-.
  rewrite <- Hv1. destruct (f32_lt _ _); [|done].
  destruct (decide (ebf_size e1 = 1)) as [H1|H1].
  - unfold elastic_bloom_filter_compress_nn. by rewrite (ebf_wf_bucket_count e1 Hwf1), H1.
  - pose proof (ebf_wf_size e1 Hwf1). apply ebf_compress_value; [done|lia|destruct Hev; [lia|congruence]|].
    apply ebf_fps_room_value; [done|]. rewrite Hs1. intros w [Hw _]%Hv1.
    by apply (proj1 (ebf_fps_room_value e Hwf) Hroom).
Qed.
End deletion.

(** ** The contract *)

(** Every filter built by the exported operations satisfies the
    representation invariant (a bit is set exactly when its bucket is occupied,
    the arrays have the announced lengths, fingerprints are 32-bit), and on
    every such filter queries, insertions (while the array can still double)
    and removals return: no division by zero, oversized shift or out-of-bounds
    access. *)
Theorem ebf_reachable_safe XXH3 e :
  ebf_reachable XXH3 e →
  ebf_wf e ∧ ∀ x,
    (∃ b, elastic_bloom_filter_contains_nn XXH3 e x = Ret b) ∧
    (∃ e', elastic_bloom_filter_remove_nn XXH3 e x = Ret e' ∧ ebf_reachable XXH3 e') ∧
    (ebf_size e < 2 ^ 63 → ∃ e', elastic_bloom_filter_add_nn XXH3 e x = Ret e' ∧ ebf_reachable XXH3 e').
Proof.
  intros Hr. pose proof (ebf_reachable_invariant XXH3 e Hr) as Hwf. split; [done|]. intros x. split_and!.
  - by apply ebf_contains_total.
  - destruct (ebf_remove_locked_spec XXH3 e x Hwf) as (e1 & E1 & _).
    assert (∃ e', elastic_bloom_filter_remove_nn XXH3 e x = Ret e') as [e' E'].
    { unfold elastic_bloom_filter_remove_nn. rewrite E1. by eexists. }
    exists e'. split; [done|]. by eapply reach_remove.
  - intros Hs. destruct (ebf_add_spec XXH3 e x Hwf Hs) as (e' & E' & _).
    exists e'. split; [done|]. by eapply reach_add.
Qed.

(** C11. Resizing refines "nothing changes".  Expansion of any well-formed filter
    of fewer than [2^63] buckets, of odd size or of one bucket too, doubles the
    size and keeps the invariant and the abstract content.  Compression of a
    one-bucket filter is refused and changes nothing; of any other well-formed
    filter it halves the size, rounding down, and keeps the invariant; and it keeps
    the abstract content when the number of buckets is even and every fingerprint
    has a bit to spare. *)
Theorem ebf_resize_refines_skip e :
  ebf_wf e →
  (ebf_size e < 2 ^ 63 →
   ebf_wf (elastic_bloom_filter_expand_nn e) ∧
   ebf_size (elastic_bloom_filter_expand_nn e) = 2 * ebf_size e ∧
   ∀ v, ebf_value (elastic_bloom_filter_expand_nn e) v ↔ ebf_value e v) ∧
  (ebf_size e = 1 → elastic_bloom_filter_compress_nn e = (-1, e)) ∧
  (1 < ebf_size e →
   (elastic_bloom_filter_compress_nn e).1 = 0 ∧
   ebf_wf (elastic_bloom_filter_compress_nn e).2 ∧
   ebf_size (elastic_bloom_filter_compress_nn e).2 = ebf_size e / 2 ∧
   (ebf_size e mod 2 = 0 → ebf_fps_room e →
    ∀ v, ebf_value (elastic_bloom_filter_compress_nn e).2 v ↔ ebf_value e v)).
Proof.
  intros Hwf. split; [intros Hs; split_and!|split; [intros H1|intros H1; split_and!]].
  - by apply ebf_expand_wf.
  - simpl. rewrite u64_id; [lia|]. unfold is_u64. pose proof (ebf_wf_size e Hwf). lia.
  - intros v. by apply ebf_expand_value.
  - unfold elastic_bloom_filter_compress_nn. by rewrite (ebf_wf_bucket_count e Hwf), H1.
  - unfold elastic_bloom_filter_compress_nn. rewrite (ebf_wf_bucket_count e Hwf).
    by destruct (Z.ltb_spec (ebf_size e) 2); [lia|].
  - by apply ebf_compress_wf.
  - unfold elastic_bloom_filter_compress_nn. rewrite (ebf_wf_bucket_count e Hwf).
    by destruct (Z.ltb_spec (ebf_size e) 2); [lia|].
  - intros H2 Hr v. by apply ebf_compress_value.
Qed.


(** Deletion undoes insertion: in a filter without duplicate fingerprints
    that holds none of the keys of [x], inserting [x] without triggering an
    expansion and then removing it gives back exactly the original content,
    the compression that the removal may trigger included. *)
Theorem ebf_remove_undoes_add XXH3 e x e1 :
  ebf_wf e → ebf_nodup e → ebf_size e < 2 ^ 63 → ebf_size e = 1 ∨ ebf_size e mod 2 = 0 →
  ebf_fps_room e → ebf_fp_bits e <= 31 →
  (∀ v, ebf_keys XXH3 e x v → ¬ ebf_value e v) →
  elastic_bloom_filter_add_nn XXH3 e x = Ret e1 → ebf_size e1 = ebf_size e →
  ∃ e2, elastic_bloom_filter_remove_nn XXH3 e1 x = Ret e2 ∧ ebf_wf e2 ∧
    ∀ v, ebf_value e2 v ↔ ebf_value e v.
Proof.
  intros Hwf Hnd Hs Hev Hroom Hf Hfresh E Hsz. pose proof (ebf_wf_size e Hwf) as Hpos.
  destruct (ebf_add_locked_spec XXH3 e x Hwf) as (e1' & E1 & Hwf1 & Hs1 & Hv1).
  pose proof (ebf_add_locked_nodup XXH3 e x e1' Hwf Hnd E1) as Hnd1.
  pose proof (ebf_add_params XXH3 e x e1 E) as Hp.
  assert (e1 = e1') as ->.
  { unfold elastic_bloom_filter_add_nn in E. rewrite E1 in E. simpl in E. injection E as <-.
    destruct (f32_lt _ _); [|done]. simpl in Hsz. rewrite u64_id in Hsz by (unfold is_u64; lia). lia. }
  assert (Hkey : ∀ i, ebf_key XXH3 e1' x i = ebf_key XXH3 e x i).
  { intros i. unfold ebf_key. rewrite (ebf_hash_params XXH3 e e1' x i Hp), Hs1.
    destruct Hp as (_ & _ & _ & ->). done. }
  assert (Hroom1 : ebf_fps_room e1').
  { apply ebf_fps_room_value; [done|]. rewrite Hs1. intros v [Hv|(i & Hi & ->)]%Hv1.
    - by apply (proj1 (ebf_fps_room_value e Hwf) Hroom).
    - destruct (ebf_wf_fp_bits e Hwf). rewrite ebf_key_mod by lia.
      pose proof (Z.pow_pos_nonneg 2 (ebf_fp_bits e)).
      pose proof (Z.pow_le_mono_r 2 (ebf_fp_bits e) 31).
      pose proof (Z.mod_pos_bound (ebf_hash XXH3 e x i) (ebf_size e * 2 ^ ebf_fp_bits e)). nia. }
  destruct (ebf_remove_spec XXH3 e1' x Hwf1) as (e2 & E2 & Hwf2 & _ & Hsub & Hkeep); [by rewrite Hs1|done|].
  exists e2. split_and!; [done..|]. intros v.
  enough (Hex : ebf_value e2 v ↔ ebf_value e1' v ∧ ¬ ebf_keys XXH3 e1' x v).
  { rewrite Hex, Hv1. split.
    - intros [[|(i & Hi & ->)] Hn]; [done|]. destruct Hn. exists i.
      destruct Hp as (-> & _). by rewrite Hkey.
    - intros Hv. split; [by left|]. intros (i & Hi & ->). destruct Hp as (Hk & _).
      apply (Hfresh (ebf_key XXH3 e1' x i)); [|done]. exists i. by rewrite <- Hk, Hkey. }
  apply ebf_remove_exact; [done|done|by rewrite Hs1|done|done].
Qed.

(** ** Limits of the implementation *)

(** The fingerprint budget is real: a filter of two buckets with one-bit
    fingerprints forgets an element after two expansions, since nothing stops
    the expansion when the fingerprint bits are used up. *)
Theorem ebf_budget_exhausted :
  ∃ (XXH3 : list Z → Z → Z) e x e1,
    e = elastic_bloom_filter_create 2 1 f32_three_quarters 1 ∧
    ebf_add_locked XXH3 e x = Ret e1 ∧
    elastic_bloom_filter_contains_nn XXH3 e1 x = Ret true ∧
    elastic_bloom_filter_contains_nn XXH3 (elastic_bloom_filter_expand_nn e1) x = Ret true ∧
    elastic_bloom_filter_contains_nn XXH3
      (elastic_bloom_filter_expand_nn (elastic_bloom_filter_expand_nn e1)) x = Ret false.
Proof. eexists (fun _ _ => 4), _, [0], _. split_and!; [reflexivity|vm_compute; reflexivity..]. Qed.

(** Deletion does not survive expansion: the fingerprint of an element is
    recomputed with the full [fp_bits] although the expansion has consumed one
    of them, so removing an element that was inserted before an expansion can
    leave its entry behind and the filter still answers [true]. *)
Theorem ebf_remove_after_expand_stale :
  ∃ (XXH3 : list Z → Z → Z) e x e1 e2,
    e = elastic_bloom_filter_create 2 1 f32_three_quarters 1 ∧
    ebf_add_locked XXH3 e x = Ret e1 ∧
    elastic_bloom_filter_remove_nn XXH3 (elastic_bloom_filter_expand_nn e1) x = Ret e2 ∧
    elastic_bloom_filter_contains_nn XXH3 e2 x = Ret true.
Proof. eexists (fun _ _ => 6), _, [0], _, _. split_and!; [reflexivity|vm_compute; reflexivity..]. Qed.

(** Compression of a filter with an odd number of buckets drops the last
    bucket: the content is lost and membership answers change. *)
Theorem ebf_compress_odd_loses :
  ∃ (XXH3 : list Z → Z → Z) e x e1,
    e = elastic_bloom_filter_create 3 1 f32_three_quarters 4 ∧
    ebf_add_locked XXH3 e x = Ret e1 ∧
    elastic_bloom_filter_contains_nn XXH3 e1 x = Ret true ∧
    (elastic_bloom_filter_compress_nn e1).1 = 0 ∧
    elastic_bloom_filter_contains_nn XXH3 (elastic_bloom_filter_compress_nn e1).2 x = Ret false ∧
    elastic_bloom_filter_iterate (elastic_bloom_filter_compress_nn e1).2 = [].
Proof. eexists (fun _ _ => 2), _, [0], _. split_and!; [reflexivity|vm_compute; reflexivity..]. Qed.

(** ** Concrete instances *)

(** An additive hash, for evaluation on concrete inputs. *)
Definition sum_hash (data : list Z) (seed : Z) : Z := foldr Z.add seed data.

Definition demo_ebf : elastic_bloom_filter_t :=
  elastic_bloom_filter_create 16 3 f32_three_quarters 8.

Lemma demo_ebf_wf : ebf_wf demo_ebf.
Proof. apply ebf_create_wf; unfold is_u32; lia. Qed.

Lemma ebf_reachable_safe_witness : ∃ b, elastic_bloom_filter_contains_nn sum_hash demo_ebf [7] = Ret b.
Proof.
  apply (ebf_reachable_safe sum_hash demo_ebf). apply reach_create; unfold is_u32; lia.
Defined.

Lemma demo_room e : ebf_fps_room (elastic_bloom_filter_create 16 3 f32_three_quarters e).
Proof. apply Forall_replicate. constructor. Qed.

Definition demo_ebf1 : elastic_bloom_filter_t :=
  match elastic_bloom_filter_add_nn sum_hash demo_ebf [7; 1] with Ret e => e | Trap => demo_ebf end.

Lemma demo_ebf1_wf : ebf_wf demo_ebf1.
Proof.
  destruct (ebf_add_spec sum_hash demo_ebf [7; 1] demo_ebf_wf) as (e' & E & Hwf & _); [by vm_compute|].
  unfold demo_ebf1. by rewrite E.
Qed.

(** The filter holds the three keys of one element. *)
Lemma ebf_resize_refines_skip_witness :
  ebf_buckets demo_ebf1 = [[]; []; []; []; []; []; []; []; []; [0]; []; [0]; []; [0]; []; []] ∧
  ebf_size (elastic_bloom_filter_compress_nn demo_ebf1).2 = 8 ∧
  (∀ v, ebf_value (elastic_bloom_filter_expand_nn demo_ebf1) v ↔ ebf_value demo_ebf1 v) ∧
  (∀ v, ebf_value (elastic_bloom_filter_compress_nn demo_ebf1).2 v ↔ ebf_value demo_ebf1 v).
Proof.
  assert (E : ebf_buckets demo_ebf1 = [[]; []; []; []; []; []; []; []; []; [0]; []; [0]; []; [0]; []; []]) by (vm_compute; reflexivity).
  assert (Hroom : ebf_fps_room demo_ebf1) by (unfold ebf_fps_room; rewrite E; repeat constructor; lia).
  destruct (ebf_resize_refines_skip demo_ebf1 demo_ebf1_wf) as (He & _ & Hc).
  destruct Hc as (_ & _ & _ & Hc); [vm_compute; reflexivity|].
  split; [exact E|]. split; [vm_compute; reflexivity|]. split.
  - apply He. vm_compute. reflexivity.
  - apply Hc; [vm_compute; reflexivity|exact Hroom].
Defined.


Lemma ebf_remove_undoes_add_witness :
  ∃ e2, elastic_bloom_filter_remove_nn sum_hash demo_ebf1 [7; 1] = Ret e2 ∧ ebf_wf e2 ∧
    ∀ v, ebf_value e2 v ↔ ebf_value demo_ebf v.
Proof.
  apply (ebf_remove_undoes_add sum_hash demo_ebf [7; 1] demo_ebf1);
    [apply demo_ebf_wf|apply Forall_replicate; constructor|vm_compute; reflexivity|right; reflexivity
    |apply demo_room|vm_compute; discriminate| |vm_compute; reflexivity|vm_compute; reflexivity].
  intros v _ (i & b & fp & Hi & Hfp & _). apply lookup_replicate in Hi as [-> _].
  by apply elem_of_nil in Hfp.
Defined.
