(* ===== verification/AttenuatedBloom.v ===== *)
(** * AttenuatedBloom: the levelled filter of [src/Bloom/attenuated_bloom_filter.c]

    Level [i] summarises the topics reachable in [i] hops.  A neighbour's
    filter is merged one level down ([attenuated_bloom_filter_merge]), and a
    query returns the first level that matches.  A filter is never merged
    into itself by its clients, so source and destination are distinct values.
    Indexing [levels] outside the array is undefined ([Trap]). *)

From S2P Require Import Prelude Bitset Bloom ElasticBloom ElasticBloomSpec.

Record attenuated_bloom_filter_t := mkAbf {
  abf_level_count : Z;
  abf_levels : list elastic_bloom_filter_t
}.

Definition attenuated_bloom_filter_create (levels size hash_count : Z) (omega : float32)
    (fp_bits : Z) : attenuated_bloom_filter_t :=
  {| abf_level_count := levels;
     abf_levels := replicate (Z.to_nat levels) (elastic_bloom_filter_create size hash_count omega fp_bits) |}.

Definition abf_with_levels (a : attenuated_bloom_filter_t) (ls : list elastic_bloom_filter_t)
    : attenuated_bloom_filter_t :=
  {| abf_level_count := abf_level_count a; abf_levels := ls |}.

(** [a->levels[i]]. *)
Definition level_at (ls : list elastic_bloom_filter_t) (i : Z) : exec elastic_bloom_filter_t :=
  match ls !! Z.to_nat i with Some e => Ret e | None => Trap end.

Definition attenuated_bloom_filter_get_level (abf : option attenuated_bloom_filter_t) (level : Z)
    : option elastic_bloom_filter_t :=
  match abf with
  | None => None
  | Some a => if abf_level_count a <=? level then None else abf_levels a !! Z.to_nat level
  end.

Definition attenuated_bloom_filter_level_count (abf : option attenuated_bloom_filter_t) : Z :=
  match abf with None => 0 | Some a => abf_level_count a end.

(** ** Merge: level [i] of the source goes to level [i + 1] *)

Definition abf_merge_step (src : attenuated_bloom_filter_t) (i : Z)
    (ls : list elastic_bloom_filter_t) : exec (list elastic_bloom_filter_t) :=
  d <- level_at ls (i + 1) ;;
  s <- level_at (abf_levels src) i ;;
  Ret (<[Z.to_nat (i + 1) := (elastic_bloom_filter_merge_nn d s).2]> ls).

(** [dest->level_count - 1] is computed on [uint32_t]. *)
Definition abf_max_levels (dest src : attenuated_bloom_filter_t) : Z :=
  if abf_level_count src <? u32 (abf_level_count dest - 1)
  then abf_level_count src else u32 (abf_level_count dest - 1).

(** The return code of each level's merge is ignored. *)
Definition attenuated_bloom_filter_merge_nn (dest src : attenuated_bloom_filter_t)
    : exec attenuated_bloom_filter_t :=
  ls <- for_range (Z.to_nat (abf_max_levels dest src)) 0 (abf_merge_step src) (abf_levels dest) ;;
  Ret (abf_with_levels dest ls).

Definition attenuated_bloom_filter_merge (dest src : option attenuated_bloom_filter_t)
    : exec (Z * option attenuated_bloom_filter_t) :=
  match dest, src with
  | Some d, Some s => d' <- attenuated_bloom_filter_merge_nn d s ;; Ret (0, Some d')
  | _, _ => Ret (-1, dest)
  end.

(** ** Operations that hash *)

Section hashing.
Context (XXH3 : list Z → Z → Z).

Definition attenuated_bloom_filter_subscribe_nn (a : attenuated_bloom_filter_t) (topic : list Z)
    : exec attenuated_bloom_filter_t :=
  e <- level_at (abf_levels a) 0 ;;
  e' <- elastic_bloom_filter_add_nn XXH3 e topic ;;
  Ret (abf_with_levels a (<[0%nat := e']> (abf_levels a))).

Definition attenuated_bloom_filter_subscribe (abf : option attenuated_bloom_filter_t)
    (topic : option (list Z)) : exec (Z * option attenuated_bloom_filter_t) :=
  match abf, topic with
  | Some a, Some t => a' <- attenuated_bloom_filter_subscribe_nn a t ;; Ret (0, Some a')
  | _, _ => Ret (-1, abf)
  end.

Definition attenuated_bloom_filter_unsubscribe_nn (a : attenuated_bloom_filter_t) (topic : list Z)
    : exec attenuated_bloom_filter_t :=
  e <- level_at (abf_levels a) 0 ;;
  e' <- elastic_bloom_filter_remove_nn XXH3 e topic ;;
  Ret (abf_with_levels a (<[0%nat := e']> (abf_levels a))).

Definition attenuated_bloom_filter_unsubscribe (abf : option attenuated_bloom_filter_t)
    (topic : option (list Z)) : exec (Z * option attenuated_bloom_filter_t) :=
  match abf, topic with
  | Some a, Some t => a' <- attenuated_bloom_filter_unsubscribe_nn a t ;; Ret (0, Some a')
  | _, _ => Ret (-1, abf)
  end.

(** The scan over the levels from [level] on; [Some h] is the result [true]
    with [*out_hops = h]. *)
Fixpoint check_levels (n : nat) (level : Z) (ls : list elastic_bloom_filter_t) (topic : list Z)
    : exec (option Z) :=
  match n with
  | O => Ret None
  | S n' =>
      e <- level_at ls level ;;
      b <- elastic_bloom_filter_contains_nn XXH3 e topic ;;
      if (b : bool) then Ret (Some level) else check_levels n' (level + 1) ls topic
  end.

Definition attenuated_bloom_filter_check_nn (a : attenuated_bloom_filter_t) (topic : list Z)
    : exec (option Z) :=
  check_levels (Z.to_nat (abf_level_count a)) 0 (abf_levels a) topic.

Definition attenuated_bloom_filter_check (abf : option attenuated_bloom_filter_t)
    (topic : option (list Z)) : exec (option Z) :=
  match abf, topic with
  | Some a, Some t => attenuated_bloom_filter_check_nn a t
  | _, _ => Ret None
  end.
End hashing.

(** ** Invariant *)

Record abf_wf (a : attenuated_bloom_filter_t) : Prop := {
  abf_wf_len : zlen (abf_levels a) = abf_level_count a;
  abf_wf_pos : 0 < abf_level_count a;
  abf_wf_u32 : is_u32 (abf_level_count a);
  abf_wf_levels : Forall ebf_wf (abf_levels a)
}.

(** Every level has [n] buckets, so that merges are not rejected. *)
Definition abf_uniform (n : Z) (a : attenuated_bloom_filter_t) : Prop :=
  Forall (fun e => ebf_size e = n) (abf_levels a).

Lemma level_at_Some ls i e : level_at ls i = Ret e ↔ ls !! Z.to_nat i = Some e.
Proof. unfold level_at. destruct (ls !! Z.to_nat i); naive_solver. Qed.

Lemma abf_level_ex a i :
  abf_wf a → 0 <= i < abf_level_count a → ∃ e, level_at (abf_levels a) i = Ret e ∧ ebf_wf e.
Proof.
  intros Hwf Hi. pose proof (abf_wf_len a Hwf) as Hl. unfold zlen in Hl.
  destruct (lookup_lt_is_Some_2 (abf_levels a) (Z.to_nat i)) as [e He]; [lia|].
  exists e. rewrite level_at_Some. split; [done|].
  exact (Forall_lookup_1 _ _ _ _ (abf_wf_levels a Hwf) He).
Qed.

Lemma abf_create_wf levels size k omega fp :
  0 < levels → is_u32 levels → 0 < size → is_u32 k → 0 <= fp < 64 →
  abf_wf (attenuated_bloom_filter_create levels size k omega fp).
Proof.
  intros Hl Hu Hs Hk Hf. split; simpl; [unfold zlen; rewrite length_replicate; lia|done|done|].
  apply Forall_replicate. by apply ebf_create_wf.
Qed.

Lemma abf_set_level_wf a i e :
  abf_wf a → ebf_wf e → abf_wf (abf_with_levels a (<[i := e]> (abf_levels a))).
Proof.
  intros [] He. split; simpl; [by rewrite zlen_insert|done|done|]. by apply Forall_insert.
Qed.

(** Unsubscription and subscription return on a well-formed filter. *)
Lemma abf_unsubscribe_total XXH3 a t :
  abf_wf a → ∃ a', attenuated_bloom_filter_unsubscribe_nn XXH3 a t = Ret a' ∧ abf_wf a' ∧
    abf_level_count a' = abf_level_count a.
Proof.
  intros Hwf. destruct (abf_level_ex a 0 Hwf) as (e & He & Hewf); [pose proof (abf_wf_pos a Hwf); lia|].
  destruct (ebf_remove_locked_spec XXH3 e t Hewf) as (e1 & E1 & _).
  assert (∃ e', elastic_bloom_filter_remove_nn XXH3 e t = Ret e') as [e' E'].
  { unfold elastic_bloom_filter_remove_nn. rewrite E1. by eexists. }
  unfold attenuated_bloom_filter_unsubscribe_nn. rewrite He, bind_Ret_l, E', bind_Ret_l.
  eexists. split_and!; [reflexivity| |done]. apply abf_set_level_wf; [done|]. by eapply ebf_remove_wf.
Qed.

Lemma abf_subscribe_total XXH3 a t :
  abf_wf a → (∀ e, abf_levels a !! 0%nat = Some e → ebf_size e < 2 ^ 63) →
  ∃ a' e', attenuated_bloom_filter_subscribe_nn XXH3 a t = Ret a' ∧ abf_wf a' ∧
    abf_level_count a' = abf_level_count a ∧ abf_levels a' !! 0%nat = Some e' ∧
    ∀ e, abf_levels a !! 0%nat = Some e → elastic_bloom_filter_add_nn XXH3 e t = Ret e'.
Proof.
  intros Hwf Hs. destruct (abf_level_ex a 0 Hwf) as (e & He & Hewf); [pose proof (abf_wf_pos a Hwf); lia|].
  pose proof (proj1 (level_at_Some _ _ _) He) as He'. change (Z.to_nat 0) with 0%nat in He'.
  destruct (ebf_add_spec XXH3 e t Hewf (Hs e He')) as (e' & E' & Hewf' & _).
  unfold attenuated_bloom_filter_subscribe_nn. rewrite He, bind_Ret_l, E', bind_Ret_l.
  eexists _, e'. split_and!; [reflexivity|by apply abf_set_level_wf|done| |].
  - simpl. rewrite list_lookup_insert_eq; [done|]. by eapply lookup_lt_Some.
  - intros e0 He0. rewrite He' in He0. by injection He0 as <-.
Qed.

(** ** Merge *)

Section merging.
Context (d s : attenuated_bloom_filter_t) (Hd : abf_wf d) (Hs : abf_wf s).

Lemma abf_max_levels_range :
  0 <= abf_max_levels d s ∧ abf_max_levels d s <= abf_level_count s ∧
  abf_max_levels d s < abf_level_count d ∧
  (abf_max_levels d s = abf_level_count s ∨ abf_max_levels d s = abf_level_count d - 1).
Proof.
  pose proof (abf_wf_pos d Hd). pose proof (abf_wf_pos s Hs). destruct (abf_wf_u32 d Hd).
  unfold abf_max_levels. rewrite u32_id by (unfold is_u32; lia). zcases; lia.
Qed.

Lemma ebf_merge_any_wf e f : ebf_wf e → ebf_wf f → ebf_wf (elastic_bloom_filter_merge_nn e f).2.
Proof.
  intros He Hf. destruct (decide (ebf_size e = ebf_size f)).
  - by apply ebf_merge_wf.
  - by rewrite ebf_merge_mismatch.
Qed.

(** The levels after the first [n] iterations. *)
Definition merged_levels (n : Z) (ls : list elastic_bloom_filter_t) : Prop :=
  length ls = length (abf_levels d) ∧
  ∀ (j : nat) e, ls !! j = Some e ↔
    ∃ e0, abf_levels d !! j = Some e0 ∧
      if decide (1 <= Z.of_nat j <= n)
      then ∃ f, abf_levels s !! (j - 1)%nat = Some f ∧ e = (elastic_bloom_filter_merge_nn e0 f).2
      else e = e0.

Lemma abf_merge_step_inv i ls :
  0 <= i < abf_max_levels d s → merged_levels i ls →
  ∃ ls', abf_merge_step s i ls = Ret ls' ∧ merged_levels (i + 1) ls'.
Proof.
  intros Hi [Hlen Hls]. pose proof abf_max_levels_range as (_ & Hm1 & Hm2 & _).
  destruct (abf_level_ex d (i + 1) Hd) as (e0 & He0 & _); [lia|].
  destruct (abf_level_ex s i Hs) as (f & Hf & _); [lia|].
  apply level_at_Some in He0.
  assert (Ht : Z.to_nat (i + 1) = S (Z.to_nat i)) by lia.
  assert (He1 : ls !! Z.to_nat (i + 1) = Some e0).
  { apply Hls. exists e0. split; [done|]. rewrite decide_False by lia. done. }
  unfold abf_merge_step. rewrite (proj2 (level_at_Some _ _ _) He1), Hf. apply level_at_Some in Hf.
  eexists. split; [reflexivity|]. split; [by rewrite length_insert|]. intros j e.
  pose proof (lookup_lt_Some _ _ _ He1) as Hlt.
  destruct (decide (j = Z.to_nat (i + 1))) as [->|Hne].
  - rewrite list_lookup_insert_eq by done. rewrite Ht in *. split.
    + intros [= <-]. exists e0. split; [done|]. rewrite decide_True by lia.
      exists f. split; [|done]. by replace (S (Z.to_nat i) - 1)%nat with (Z.to_nat i) by lia.
    + intros (e' & He' & H). rewrite decide_True in H by lia. destruct H as (f' & Hf' & ->).
      replace (S (Z.to_nat i) - 1)%nat with (Z.to_nat i) in Hf' by lia. congruence.
  - rewrite list_lookup_insert_ne by done. rewrite Hls.
    assert (Hiff : (1 <= Z.of_nat j <= i) ↔ (1 <= Z.of_nat j <= i + 1)) by lia.
    apply exist_proper. intros e1. destruct (decide (1 <= Z.of_nat j <= i)), (decide (1 <= Z.of_nat j <= i + 1));
      tauto.
Qed.

Lemma abf_merge_levels :
  ∃ d', attenuated_bloom_filter_merge_nn d s = Ret d' ∧ abf_level_count d' = abf_level_count d ∧
    merged_levels (abf_max_levels d s) (abf_levels d').
Proof.
  pose proof abf_max_levels_range as (Hm0 & _).
  destruct (for_range_inv (abf_merge_step s) merged_levels (Z.to_nat (abf_max_levels d s)) 0 (abf_levels d))
    as (ls & E & Hls).
  - split; [done|]. intros j e. split.
    + intros He. exists e. split; [done|]. rewrite decide_False by lia. done.
    + intros (e0 & He0 & H). rewrite decide_False in H by lia. congruence.
  - intros i ls Hi. apply abf_merge_step_inv. lia.
  - exists (abf_with_levels d ls). unfold attenuated_bloom_filter_merge_nn. rewrite E.
    split_and!; [done..|]. by rewrite Z.add_0_l, Z2Nat.id in Hls by lia.
Qed.

Lemma abf_merge_wf d' : attenuated_bloom_filter_merge_nn d s = Ret d' → abf_wf d'.
Proof.
  intros E. destruct abf_merge_levels as (d1 & E1 & Hc & Hlen & Hls).
  rewrite E in E1. injection E1 as <-. split.
  - unfold zlen. rewrite Hlen, Hc. apply (abf_wf_len d Hd).
  - rewrite Hc. apply Hd.
  - rewrite Hc. apply Hd.
  - apply Forall_lookup_2. intros j e He. apply Hls in He as (e0 & He0 & He).
    pose proof (Forall_lookup_1 _ _ _ _ (abf_wf_levels d Hd) He0).
    case_decide; [|by subst]. destruct He as (f & Hf & ->).
    apply ebf_merge_any_wf; [done|]. exact (Forall_lookup_1 _ _ _ _ (abf_wf_levels s Hs) Hf).
Qed.
End merging.

(** ** The scan *)

Section scanning.
Context (XXH3 : list Z → Z → Z).
Abbreviation contains := (elastic_bloom_filter_contains_nn XXH3).

(** Level [i] of [ls] recognises [x]. *)
Definition level_has (ls : list elastic_bloom_filter_t) (i : Z) (x : list Z) (b : bool) : Prop :=
  ∃ e, level_at ls i = Ret e ∧ contains e x = Ret b.

Lemma check_levels_spec n lo ls x :
  0 <= lo → lo + Z.of_nat n <= zlen ls → Forall ebf_wf ls →
  ∃ r, check_levels XXH3 n lo ls x = Ret r ∧
    match r with
    | Some h => lo <= h < lo + Z.of_nat n ∧ level_has ls h x true ∧
                ∀ j, lo <= j < h → level_has ls j x false
    | None => ∀ j, lo <= j < lo + Z.of_nat n → level_has ls j x false
    end.
Proof.
  revert lo. induction n as [|n IH]; intros lo Hlo Hlen Hwf; simpl.
  - exists None. split; [done|]. intros j Hj. lia.
  - unfold zlen in Hlen. destruct (lookup_lt_is_Some_2 ls (Z.to_nat lo)) as [e He]; [lia|].
    pose proof (Forall_lookup_1 _ _ _ _ Hwf He) as Hewf. apply level_at_Some in He. rewrite He.
    destruct (ebf_contains_total XXH3 e x Hewf) as [b Hb]. simpl. rewrite Hb. simpl. destruct b.
    + exists (Some lo). split_and!; [done|lia|lia|by exists e|]. intros j Hj. lia.
    + destruct (IH (lo + 1)) as (r & E & Hr); [lia|unfold zlen; lia|done|].
      assert (Hfst : level_has ls lo x false) by (by exists e).
      exists r. split; [done|]. destruct r as [h|].
      * destruct Hr as (Hh & Ht & Hf). split_and!; [lia|lia|done|]. intros j Hj.
        destruct (decide (j = lo)) as [->|]; [done|]. apply Hf. lia.
      * intros j Hj. destruct (decide (j = lo)) as [->|]; [done|]. apply Hr. lia.
Qed.

Lemma level_has_fun ls i x b b' : level_has ls i x b → level_has ls i x b' → b = b'.
Proof. intros (e & H1 & H2) (e' & H1' & H2'). congruence. Qed.

(** A level that recognises [x] bounds the answer. *)
Lemma check_bound a x i :
  abf_wf a → 0 <= i < abf_level_count a → level_has (abf_levels a) i x true →
  ∃ h, attenuated_bloom_filter_check_nn XXH3 a x = Ret (Some h) ∧ 0 <= h <= i.
Proof.
  intros Hwf Hi Hx. pose proof (abf_wf_len a Hwf).
  destruct (check_levels_spec (Z.to_nat (abf_level_count a)) 0 (abf_levels a) x)
    as (r & E & Hr); [lia|lia|apply Hwf|].
  destruct r as [h|].
  - exists h. split; [done|]. destruct Hr as (Hh & _ & Hf). split; [lia|].
    destruct (decide (i < h)) as [Hlt|]; [|lia]. exfalso.
    discriminate (level_has_fun _ _ _ _ _ Hx (Hf i ltac:(lia))).
  - exfalso. discriminate (level_has_fun _ _ _ _ _ Hx (Hr i ltac:(lia))).
Qed.

(** Merging keeps what a level recognises: the content of both filters. *)
Lemma ebf_merge_contains_r e f x :
  ebf_wf e → ebf_wf f → ebf_size e = ebf_size f → ebf_same_params e f →
  contains f x = Ret true → contains (elastic_bloom_filter_merge_nn e f).2 x = Ret true.
Proof.
  intros He Hf Hsz Hp Hx. pose proof (ebf_merge_params e f) as Hp'.
  assert (Hs' : ebf_size (elastic_bloom_filter_merge_nn e f).2 = ebf_size e)
    by (unfold elastic_bloom_filter_merge_nn; by destruct (_ || _)).
  apply ebf_contains_iff; [by apply ebf_merge_wf|]. intros i Hi. rewrite Hs'.
  pose proof (proj1 (ebf_contains_iff XXH3 f x Hf) Hx i) as (v & Hv & Hm).
  { destruct Hp as (-> & _). by destruct Hp' as (<- & _). }
  exists v. split; [apply ebf_merge_value; auto|].
  rewrite (ebf_hash_params XXH3 e _ x i Hp'), Hsz, Hm, (ebf_hash_params XXH3 e f x i Hp). done.
Qed.

Lemma ebf_merge_contains_l e f x :
  ebf_wf e → ebf_wf f → contains e x = Ret true →
  contains (elastic_bloom_filter_merge_nn e f).2 x = Ret true.
Proof.
  intros He Hf Hx. destruct (decide (ebf_size e = ebf_size f)) as [Hsz|]; [|by rewrite ebf_merge_mismatch].
  pose proof (ebf_merge_params e f) as Hp'.
  assert (Hs' : ebf_size (elastic_bloom_filter_merge_nn e f).2 = ebf_size e)
    by (unfold elastic_bloom_filter_merge_nn; by destruct (_ || _)).
  apply ebf_contains_iff; [by apply ebf_merge_wf|]. intros i Hi. rewrite Hs'.
  pose proof (proj1 (ebf_contains_iff XXH3 e x He) Hx i) as (v & Hv & Hm);
    [by destruct Hp' as (<- & _)|].
  exists v. split; [apply ebf_merge_value; auto|]. by rewrite (ebf_hash_params XXH3 e _ x i Hp').
Qed.
End scanning.

(** ** Compatible filters *)

(** Every level has [e0]'s size and hashing parameters. *)
Definition abf_like (e0 : elastic_bloom_filter_t) (a : attenuated_bloom_filter_t) : Prop :=
  Forall (fun e => ebf_size e = ebf_size e0 ∧ ebf_same_params e0 e) (abf_levels a).

Section attenuation.
Context (XXH3 : list Z → Z → Z) (e0 : elastic_bloom_filter_t).

Lemma abf_merge_like d s d' :
  abf_wf d → abf_wf s → abf_like e0 d → attenuated_bloom_filter_merge_nn d s = Ret d' → abf_like e0 d'.
Proof.
  intros Hd Hs Hl E. destruct (abf_merge_levels d s Hd Hs) as (d1 & E1 & _ & _ & Hls).
  rewrite E in E1. injection E1 as <-. apply Forall_lookup_2. intros j e He.
  apply Hls in He as (e1 & He1 & He). destruct (Forall_lookup_1 _ _ _ _ Hl He1) as [Hsz Hp].
  case_decide; [|by subst]. destruct He as (f & _ & ->). split.
  - unfold elastic_bloom_filter_merge_nn. by destruct (_ || _).
  - etrans; [exact Hp|apply ebf_merge_params].
Qed.

(** What level [i] of the source recognises, level [i + 1] of the merged
    filter does. *)
Lemma abf_merge_shifts d s d' i x :
  abf_wf d → abf_wf s → abf_like e0 d → abf_like e0 s →
  attenuated_bloom_filter_merge_nn d s = Ret d' →
  0 <= i < abf_level_count s → i + 1 < abf_level_count d →
  level_has XXH3 (abf_levels s) i x true → level_has XXH3 (abf_levels d') (i + 1) x true.
Proof.
  intros Hd Hs Hld Hlsrc E Hi Hi1 (f & Hf & Hx).
  destruct (abf_merge_levels d s Hd Hs) as (d1 & E1 & _ & _ & Hls).
  rewrite E in E1. injection E1 as <-.
  pose proof (abf_max_levels_range d s Hd Hs) as (_ & _ & _ & Hmax).
  destruct (abf_level_ex d (i + 1) Hd) as (e & He & Hewf); [lia|].
  apply level_at_Some in Hf, He.
  pose proof (Forall_lookup_1 _ _ _ _ (abf_wf_levels s Hs) Hf) as Hfwf.
  destruct (Forall_lookup_1 _ _ _ _ Hlsrc Hf) as [Hszf Hpf].
  destruct (Forall_lookup_1 _ _ _ _ Hld He) as [Hsze Hpe].
  exists (elastic_bloom_filter_merge_nn e f).2. split.
  - apply level_at_Some, Hls. exists e. split; [done|]. rewrite decide_True by lia.
    exists f. split; [|done]. by replace (Z.to_nat (i + 1) - 1)%nat with (Z.to_nat i) by lia.
  - apply ebf_merge_contains_r; [done|done|congruence| |done]. etrans; [|exact Hpf]. by symmetry.
Qed.

(** What a level of the destination recognises, it still does. *)
Lemma abf_merge_keeps d s d' i x :
  abf_wf d → abf_wf s → attenuated_bloom_filter_merge_nn d s = Ret d' → 0 <= i →
  level_has XXH3 (abf_levels d) i x true → level_has XXH3 (abf_levels d') i x true.
Proof.
  intros Hd Hs E Hi (e & He & Hx). destruct (abf_merge_levels d s Hd Hs) as (d1 & E1 & _ & _ & Hls).
  rewrite E in E1. injection E1 as <-. apply level_at_Some in He.
  pose proof (Forall_lookup_1 _ _ _ _ (abf_wf_levels d Hd) He) as Hewf.
  pose proof (abf_max_levels_range d s Hd Hs) as (_ & Hms & _ & _).
  destruct (decide (1 <= Z.of_nat (Z.to_nat i) <= abf_max_levels d s)) as [Hin|Hout].
  - destruct (abf_level_ex s (i - 1) Hs) as (f & Hf & Hfwf); [lia|]. apply level_at_Some in Hf.
    replace (Z.to_nat (i - 1)) with (Z.to_nat i - 1)%nat in Hf by lia.
    exists (elastic_bloom_filter_merge_nn e f).2. split; [|by apply ebf_merge_contains_l].
    apply level_at_Some, Hls. exists e. split; [done|]. rewrite decide_True by lia. by exists f.
  - exists e. split; [|done]. apply level_at_Some, Hls. exists e. by rewrite decide_False by lia.
Qed.

(** Gossip along a path: each node merges the filter of its predecessor. *)
Fixpoint gossip_path (a : attenuated_bloom_filter_t) (path : list attenuated_bloom_filter_t)
    : exec attenuated_bloom_filter_t :=
  match path with
  | [] => Ret a
  | n :: path' => n' <- attenuated_bloom_filter_merge_nn n a ;; gossip_path n' path'
  end.

Lemma gossip_path_reaches path a i x :
  abf_wf a → abf_like e0 a → Forall (fun n => abf_wf n ∧ abf_like e0 n) path →
  Forall (fun n => i + zlen path < abf_level_count n) (a :: path) → 0 <= i →
  level_has XXH3 (abf_levels a) i x true →
  ∃ b, gossip_path a path = Ret b ∧ abf_wf b ∧ i + zlen path < abf_level_count b ∧
    level_has XXH3 (abf_levels b) (i + zlen path) x true.
Proof.
  revert a i. induction path as [|n path IH]; intros a i Ha Hla Hpath Hlen Hi Hx.
  - exists a. apply Forall_cons_1 in Hlen as [Hlen _]. unfold zlen in *. simpl in *.
    rewrite Z.add_0_r in *. done.
  - apply Forall_cons_1 in Hpath as [[Hn Hln] Hpath].
    apply Forall_cons_1 in Hlen as [Hlen0 Hlen]. pose proof (Forall_cons_1 _ _ _ Hlen) as [Hlen1 _].
    assert (Ez : i + zlen (n :: path) = i + 1 + zlen path) by (unfold zlen; simpl; lia).
    rewrite Ez in *. pose proof (zlen_nonneg path).
    destruct (abf_merge_levels n a Hn Ha) as (n' & E & Hc & _). simpl. rewrite E. simpl.
    apply IH; [exact (abf_merge_wf n a Hn Ha n' E)|exact (abf_merge_like n a n' Hn Ha Hln E)|done| |lia|].
    + apply Forall_cons_1 in Hlen as [_ Hlen]. constructor; [by rewrite Hc|done].
    + eapply abf_merge_shifts; [exact Hn|exact Ha|done|done|exact E|lia|lia|done].
Qed.
End attenuation.

(** ** Properties *)

(** The query returns, and its answer is the first level that matches:
    [Some h] when level [h] recognises the topic and no earlier level does,
    [None] when no level does. *)
Theorem abf_check_first_level XXH3 a x :
  abf_wf a →
  ∃ r, attenuated_bloom_filter_check_nn XXH3 a x = Ret r ∧
    match r with
    | Some h => 0 <= h < abf_level_count a ∧ level_has XXH3 (abf_levels a) h x true ∧
                ∀ j, 0 <= j < h → level_has XXH3 (abf_levels a) j x false
    | None => ∀ j, 0 <= j < abf_level_count a → level_has XXH3 (abf_levels a) j x false
    end.
Proof.
  intros Hwf. pose proof (abf_wf_len a Hwf). pose proof (abf_wf_pos a Hwf).
  destruct (check_levels_spec XXH3 (Z.to_nat (abf_level_count a)) 0 (abf_levels a) x)
    as (r & E & Hr); [lia|lia|apply Hwf|].
  rewrite Z.add_0_l, Z2Nat.id in Hr by lia. exists r. split; [exact E|exact Hr].
Qed.

(** Merging a neighbour's filter returns, keeps the invariant, never loses
    a topic the node already knew and learns the neighbour's topics one hop
    further away: a topic at level [i] of the neighbour is found at a distance
    of at most [i + 1]. *)
Theorem abf_merge_attenuates XXH3 e0 d s :
  abf_wf d → abf_wf s → abf_like e0 d → abf_like e0 s →
  ∃ d', attenuated_bloom_filter_merge_nn d s = Ret d' ∧ abf_wf d' ∧
    (∀ i x, 0 <= i < abf_level_count d → level_has XXH3 (abf_levels d) i x true →
       level_has XXH3 (abf_levels d') i x true) ∧
    (∀ i x, 0 <= i < abf_level_count s → i + 1 < abf_level_count d →
       level_has XXH3 (abf_levels s) i x true →
       ∃ h, attenuated_bloom_filter_check_nn XXH3 d' x = Ret (Some h) ∧ 0 <= h <= i + 1).
Proof.
  intros Hd Hs Hld Hls. destruct (abf_merge_levels d s Hd Hs) as (d' & E & Hc & _).
  pose proof (abf_merge_wf d s Hd Hs d' E) as Hwf'. exists d'. split_and!; [done..| |].
  - intros i x Hi Hx. apply (abf_merge_keeps XXH3 d s d'); [done..|lia|done].
  - intros i x Hi Hi1 Hx. apply check_bound; [done|lia|].
    eapply (abf_merge_shifts XXH3 e0 d s); done.
Qed.

(** The horizon of gossip: when a topic is recognised by a node and each
    node of a path merges its predecessor's filter, the last node of a path of
    [k] hops (with more than [k] levels) finds the topic at a distance of at
    most [k]. *)
Theorem abf_gossip_horizon XXH3 e0 a path x :
  abf_wf a → abf_like e0 a → Forall (fun n => abf_wf n ∧ abf_like e0 n) path →
  Forall (fun n => zlen path < abf_level_count n) (a :: path) →
  level_has XXH3 (abf_levels a) 0 x true →
  ∃ b h, gossip_path a path = Ret b ∧
    attenuated_bloom_filter_check_nn XXH3 b x = Ret (Some h) ∧ 0 <= h <= zlen path.
Proof.
  intros Ha Hla Hpath Hlen Hx. pose proof (zlen_nonneg path).
  destruct (gossip_path_reaches XXH3 e0 path a 0 x) as (b & E & Hb & Hlb & Hxb); [done..|].
  rewrite Z.add_0_l in *. destruct (check_bound XXH3 b x (zlen path)) as (h & Eh & Hh); [done|lia|done|].
  eauto.
Qed.

(** A neighbour's topics are lost without an error once the two filters
    differ in size: a subscriber whose levels have expanded is merged with the
    result 0, and its topic is not found. *)
Theorem abf_merge_drops_resized :
  ∃ (XXH3 : list Z → Z → Z) s s',
    let d := attenuated_bloom_filter_create 2 4 1 f32_three_quarters 8 in
    attenuated_bloom_filter_subscribe_nn XXH3 d [5] = Ret s ∧
    s' = abf_with_levels s (map elastic_bloom_filter_expand_nn (abf_levels s)) ∧
    attenuated_bloom_filter_check_nn XXH3 s' [5] = Ret (Some 0) ∧
    attenuated_bloom_filter_merge (Some d) (Some s') = Ret (0, Some d) ∧
    attenuated_bloom_filter_check_nn XXH3 d [5] = Ret None.
Proof.
  pose (d := attenuated_bloom_filter_create 2 4 1 f32_three_quarters 8).
  pose (s := match attenuated_bloom_filter_subscribe_nn sum_hash d [5] with Ret a => a | Trap => d end).
  exists sum_hash, s, (abf_with_levels s (map elastic_bloom_filter_expand_nn (abf_levels s))).
  repeat split; vm_compute; reflexivity.
Qed.

(** ** Concrete instances *)

Definition demo_abf : attenuated_bloom_filter_t :=
  attenuated_bloom_filter_create 3 16 3 f32_three_quarters 8.

Lemma demo_abf_wf : abf_wf demo_abf.
Proof. apply abf_create_wf; unfold is_u32; lia. Qed.

Lemma demo_abf_like : abf_like demo_ebf demo_abf.
Proof. by apply Forall_replicate. Qed.

Definition demo_subscribed : attenuated_bloom_filter_t :=
  match attenuated_bloom_filter_subscribe_nn sum_hash demo_abf [9] with Ret a => a | Trap => demo_abf end.

Lemma demo_subscribed_wf : abf_wf demo_subscribed.
Proof.
  destruct (ebf_add_spec sum_hash demo_ebf [9] demo_ebf_wf) as (e & E & He & _); [vm_compute; reflexivity|].
  replace demo_subscribed with (abf_with_levels demo_abf (<[0%nat := e]> (abf_levels demo_abf))).
  - by apply abf_set_level_wf; [apply demo_abf_wf|].
  - unfold demo_subscribed, attenuated_bloom_filter_subscribe_nn. 
    change (level_at (abf_levels demo_abf) 0) with (Ret demo_ebf). by rewrite bind_Ret_l, E.
Qed.

Lemma demo_subscribed_like : abf_like demo_ebf demo_subscribed.
Proof. repeat (constructor; [by vm_compute|]). constructor. Qed.

Lemma abf_check_first_level_witness :
  ∃ r, attenuated_bloom_filter_check_nn sum_hash demo_abf [1] = Ret r.
Proof. destruct (abf_check_first_level sum_hash demo_abf [1] demo_abf_wf) as (r & E & _). by exists r. Defined.

Lemma abf_merge_attenuates_witness :
  ∃ d', attenuated_bloom_filter_merge_nn demo_abf demo_subscribed = Ret d' ∧
    ∃ h, attenuated_bloom_filter_check_nn sum_hash d' [9] = Ret (Some h) ∧ 0 <= h <= 1.
Proof.
  destruct (abf_merge_attenuates sum_hash demo_ebf demo_abf demo_subscribed demo_abf_wf
    demo_subscribed_wf demo_abf_like demo_subscribed_like) as (d' & E & _ & _ & H).
  exists d'. split; [exact E|]. apply (H 0 [9]); [by vm_compute|by vm_compute|].
  eexists. split; [vm_compute; reflexivity|vm_compute; reflexivity].
Defined.

Lemma abf_gossip_horizon_witness :
  ∃ b h, gossip_path demo_subscribed [demo_abf; demo_abf] = Ret b ∧
    attenuated_bloom_filter_check_nn sum_hash b [9] = Ret (Some h) ∧ 0 <= h <= 2.
Proof.
  apply (abf_gossip_horizon sum_hash demo_ebf demo_subscribed [demo_abf; demo_abf] [9]);
    [apply demo_subscribed_wf|apply demo_subscribed_like| | |].
  - repeat (constructor; [split; [apply demo_abf_wf|apply demo_abf_like]|]). constructor.
  - repeat (constructor; [by vm_compute|]). constructor.
  - eexists. split; [vm_compute; reflexivity|vm_compute; reflexivity].
Defined.
