(* ===== verification/Utf8.v ===== *)
(** * Utf8: the UTF-8 validator of libcbor

    [deps/libcbor/src/cbor/internal/unicode.c]: the table-driven automaton that
    [cbor_string_set_handle] runs over every text string, with its table as the
    source writes it (256 byte classes, then 16 transitions for each of the nine
    states).  The theorem relates it to the grammar of RFC 3629. *)

From S2P Require Import Prelude.

#[local] Set Warnings "-register-all".

Definition UTF8_ACCEPT : Z := 0.
Definition UTF8_REJECT : Z := 1.

Definition utf8d : list Z :=
  [
   0; 0; 0; 0; 0; 0; 0; 0; 0; 0; 0; 0; 0; 0; 0; 0; 0; 0; 0; 0; 0; 0; 0; 0; 0; 0; 0; 0; 0; 0; 0; 0;
   0; 0; 0; 0; 0; 0; 0; 0; 0; 0; 0; 0; 0; 0; 0; 0; 0; 0; 0; 0; 0; 0; 0; 0; 0; 0; 0; 0; 0; 0; 0; 0;
   0; 0; 0; 0; 0; 0; 0; 0; 0; 0; 0; 0; 0; 0; 0; 0; 0; 0; 0; 0; 0; 0; 0; 0; 0; 0; 0; 0; 0; 0; 0; 0;
   0; 0; 0; 0; 0; 0; 0; 0; 0; 0; 0; 0; 0; 0; 0; 0; 0; 0; 0; 0; 0; 0; 0; 0; 0; 0; 0; 0; 0; 0; 0; 0;
   1; 1; 1; 1; 1; 1; 1; 1; 1; 1; 1; 1; 1; 1; 1; 1; 9; 9; 9; 9; 9; 9; 9; 9; 9; 9; 9; 9; 9; 9; 9; 9;
   7; 7; 7; 7; 7; 7; 7; 7; 7; 7; 7; 7; 7; 7; 7; 7; 7; 7; 7; 7; 7; 7; 7; 7; 7; 7; 7; 7; 7; 7; 7; 7;
   8; 8; 2; 2; 2; 2; 2; 2; 2; 2; 2; 2; 2; 2; 2; 2; 2; 2; 2; 2; 2; 2; 2; 2; 2; 2; 2; 2; 2; 2; 2; 2;
   10; 3; 3; 3; 3; 3; 3; 3; 3; 3; 3; 3; 3; 4; 3; 3; 11; 6; 6; 6; 5; 8; 8; 8; 8; 8; 8; 8; 8; 8; 8; 8;
   0; 1; 2; 3; 5; 8; 7; 1; 1; 1; 4; 6; 1; 1; 1; 1; 1; 1; 1; 1; 1; 1; 1; 1; 1; 1; 1; 1; 1; 1; 1; 1;
   1; 0; 1; 1; 1; 1; 1; 0; 1; 0; 1; 1; 1; 1; 1; 1; 1; 2; 1; 1; 1; 1; 1; 2; 1; 2; 1; 1; 1; 1; 1; 1;
   1; 1; 1; 1; 1; 1; 1; 2; 1; 1; 1; 1; 1; 1; 1; 1; 1; 2; 1; 1; 1; 1; 1; 1; 1; 2; 1; 1; 1; 1; 1; 1;
   1; 1; 1; 1; 1; 1; 1; 3; 1; 3; 1; 1; 1; 1; 1; 1; 1; 3; 1; 1; 1; 1; 1; 3; 1; 3; 1; 1; 1; 1; 1; 1;
   1; 3; 1; 1; 1; 1; 1; 1; 1; 1; 1; 1; 1; 1; 1; 1].

(** [p[k]], undefined outside the array. *)
Definition deref (p : list Z) (k : Z) : exec Z :=
  if (0 <=? k) && (k <? zlen p) then Ret (byte_at p k) else Trap.

(** The new state and code point. *)
Definition cbor_unicode_decode (state codep byte : Z) : exec (Z * Z) :=
  type <- deref utf8d byte ;;
  let codep' :=
    if negb (state =? UTF8_ACCEPT) then Z.lor (Z.land byte 0x3f) (u32 (Z.shiftl codep 6))
    else Z.land (Z.shiftr 0xff type) byte in
  state' <- deref utf8d (256 + state * 16 + type) ;;
  Ret (state', codep').

Inductive cbor_unicode_status_error := CBOR_UNICODE_OK | CBOR_UNICODE_BADCP.

Record cbor_unicode_status := mkUnicodeStatus {
  us_status : cbor_unicode_status_error;
  us_location : Z
}.

(** The loop from position [pos], and what follows it. *)
Fixpoint codepoint_loop (source : list Z) (pos count state codep : Z)
  : exec (Z * cbor_unicode_status) :=
  match source with
  | [] =>
      if negb (state =? UTF8_ACCEPT) then Ret (0, mkUnicodeStatus CBOR_UNICODE_BADCP pos)
      else Ret (count, mkUnicodeStatus CBOR_UNICODE_OK 0)
  | byte :: source' =>
      '(state', codep') <- cbor_unicode_decode state codep byte ;;
      if state' =? UTF8_ACCEPT then codepoint_loop source' (pos + 1) (count + 1) state' codep'
      else if state' =? UTF8_REJECT then Ret (0, mkUnicodeStatus CBOR_UNICODE_BADCP pos)
      else codepoint_loop source' (pos + 1) count state' codep'
  end.

(** [codepoint] is not initialized before the first byte and not read either. *)
Definition cbor_unicode_codepoint_count (source : list Z) : exec (Z * cbor_unicode_status) :=
  codepoint_loop source 0 0 UTF8_ACCEPT 0.

(** ** The grammar (RFC 3629, section 4) *)

Definition in_range (lo hi b : Z) : bool := (lo <=? b) && (b <=? hi).
Abbreviation tail := (in_range 0x80 0xBF).

Definition utf8_char (c : list Z) : bool :=
  match c with
  | [a] => in_range 0 0x7F a
  | [a; b] => in_range 0xC2 0xDF a && tail b
  | [a; b; c] =>
      (in_range 0xE0 0xE0 a && in_range 0xA0 0xBF b && tail c) ||
      (in_range 0xE1 0xEC a && tail b && tail c) ||
      (in_range 0xED 0xED a && in_range 0x80 0x9F b && tail c) ||
      (in_range 0xEE 0xEF a && tail b && tail c)
  | [a; b; c; d] =>
      (in_range 0xF0 0xF0 a && in_range 0x90 0xBF b && tail c && tail d) ||
      (in_range 0xF1 0xF3 a && tail b && tail c && tail d) ||
      (in_range 0xF4 0xF4 a && in_range 0x80 0x8F b && tail c && tail d)
  | _ => false
  end.

Definition utf8_text (chars : list (list Z)) (l : list Z) : Prop :=
  l = concat chars ∧ Forall (fun c => utf8_char c = true) chars.

(** ** The automaton by ranges *)

(** The transitions the table holds, as ranges of bytes. *)
Definition utf8_next (s b : Z) : Z :=
  if s =? 0 then
    if in_range 0 0x7F b then 0 else if in_range 0xC2 0xDF b then 2
    else if in_range 0xE0 0xE0 b then 4 else if in_range 0xED 0xED b then 5
    else if in_range 0xE1 0xEF b then 3
    else if in_range 0xF0 0xF0 b then 6 else if in_range 0xF1 0xF3 b then 7
    else if in_range 0xF4 0xF4 b then 8 else 1
  else if s =? 2 then if tail b then 0 else 1
  else if s =? 3 then if tail b then 2 else 1
  else if s =? 4 then if in_range 0xA0 0xBF b then 2 else 1
  else if s =? 5 then if in_range 0x80 0x9F b then 2 else 1
  else if s =? 6 then if in_range 0x90 0xBF b then 3 else 1
  else if s =? 7 then if tail b then 3 else 1
  else if s =? 8 then if in_range 0x80 0x8F b then 3 else 1
  else 1.

(** What completes a character from a state. *)
Definition utf8_suffix (s : Z) (t : list Z) : bool :=
  match t with
  | [] => s =? 0
  | [a] => (s =? 2) && tail a
  | [a; b] =>
      ((s =? 3) && tail a || (s =? 4) && in_range 0xA0 0xBF a || (s =? 5) && in_range 0x80 0x9F a) && tail b
  | [a; b; c] =>
      ((s =? 6) && in_range 0x90 0xBF a || (s =? 7) && tail a || (s =? 8) && in_range 0x80 0x8F a)
      && tail b && tail c
  | _ => false
  end.

Definition ints (n : nat) : list Z := Z.of_nat <$> seq 0 n.

Lemma elem_of_ints n x : 0 <= x < Z.of_nat n → x ∈ ints n.
Proof.
  intros H. unfold ints. apply list_elem_of_fmap. exists (Z.to_nat x).
  split; [lia|]. apply elem_of_seq. lia.
Qed.

(** Quantification over small ranges is a computation. *)
Lemma forall_ints n (P : Z → bool) : forallb P (ints n) = true → ∀ x, 0 <= x < Z.of_nat n → P x = true.
Proof. intros H x Hx. apply (proj1 (forallb_forall _ _) H), list_elem_of_In, elem_of_ints, Hx. Qed.

Definition table_agrees (s b : Z) : bool :=
  match cbor_unicode_decode s 0 b with Ret (s', _) => s' =? utf8_next s b | Trap => false end.

Lemma table_agrees_all : forallb (fun s => forallb (table_agrees s) (ints 256)) (ints 9) = true.
Proof. vm_compute. reflexivity. Qed.

Lemma decode_next s codep b :
  0 <= s < 9 → is_u8 b → ∃ codep', cbor_unicode_decode s codep b = Ret (utf8_next s b, codep').
Proof.
  intros Hs Hb. pose proof (forall_ints _ _ table_agrees_all s Hs) as H. cbn beta in H.
  pose proof (forall_ints _ _ H b Hb) as H'. unfold table_agrees, cbor_unicode_decode in *.
  destruct (deref utf8d b) as [ty|]; [|done]. cbn [xbind] in *.
  destruct (deref utf8d (256 + s * 16 + ty)) as [s'|]; [|done]. cbn [xbind] in *.
  apply Z.eqb_eq in H'. subst. eauto.
Qed.

Lemma utf8_next_range s b : 0 <= utf8_next s b < 9.
Proof.
  unfold utf8_next. repeat match goal with |- context [if ?c then _ else _] => destruct c end; lia.
Qed.

(** An equation of booleans over one byte is checked at all 256 of them, once
    the tests of the other bytes are replaced by their values. *)
Ltac by_bytes b :=
  repeat match goal with
  | |- context [in_range ?lo ?hi ?c] =>
      lazymatch c with b => fail | _ => idtac end;
      let r := fresh "r" in generalize (in_range lo hi c); intros r; destruct r
  end;
  match goal with
  | Hb : is_u8 b |- ?l = ?r =>
      let e := eval pattern b in (Bool.eqb l r) in
      match e with ?f b => exact (Bool.eqb_prop _ _ (forall_ints 256 f (@eq_refl bool true <: forallb f (ints 256) = true) b Hb)) end
  end.

(** One byte into a character, from the start and from within. *)
Lemma utf8_char_first b t : is_u8 b → utf8_char (b :: t) = utf8_suffix (utf8_next 0 b) t.
Proof.
  intros Hb. unfold utf8_char, utf8_suffix. destruct t as [|c [|d [|e [|f t]]]]; [| | | |done]; by_bytes b.
Qed.

Lemma utf8_suffix_step s b t :
  0 <= s < 9 → s ≠ 0 → is_u8 b → utf8_suffix s (b :: t) = utf8_suffix (utf8_next s b) t.
Proof.
  intros Hs H0 Hb. unfold utf8_suffix.
  assert (s = 1 ∨ s = 2 ∨ s = 3 ∨ s = 4 ∨ s = 5 ∨ s = 6 ∨ s = 7 ∨ s = 8) as Hc by lia.
  destruct Hc as [->|[->|[->|[->|[->|[->|[->| ->]]]]]]];
    destruct t as [|c [|d [|e [|f t]]]]; try done; by_bytes b.
Qed.

Lemma utf8_suffix_reject t : utf8_suffix 1 t = false.
Proof. by destruct t as [|a [|b [|c [|d t]]]]. Qed.

Lemma utf8_suffix_accept t : utf8_suffix 0 t = true → t = [].
Proof. by destruct t as [|a [|b [|c [|d t]]]]. Qed.

(** ** The loop *)

(** The texts that bring state [s] to acceptance, with their characters. *)
Definition completes (s : Z) (l : list Z) (k : Z) : Prop :=
  ∃ t chars, l = t ++ concat chars ∧ Forall (fun c => utf8_char c = true) chars ∧
    utf8_suffix s t = true ∧ k = zlen chars + (if s =? 0 then 0 else 1).

Lemma completes_nil s k : completes s [] k ↔ s = 0 ∧ k = 0.
Proof.
  split.
  - intros (t & chars & E & Hc & Hs & ->). symmetry in E. apply app_eq_nil in E as [-> E].
    cbn in Hs. apply Z.eqb_eq in Hs. subst s. split; [done|].
    destruct chars as [|c chars]; [done|]. cbn in E. apply app_eq_nil in E as [-> _].
    by apply Forall_cons_1 in Hc as [? _].
  - intros [-> ->]. by exists [], [].
Qed.

Lemma completes_cons s b l k :
  0 <= s < 9 → is_u8 b →
  completes s (b :: l) k ↔ completes (utf8_next s b) l (if utf8_next s b =? 0 then k - 1 else k).
Proof.
  intros Hs Hb. set (s' := utf8_next s b). split.
  - intros (t & chars & E & Hc & Ht & ->). destruct t as [|a t].
    + cbn in Ht. apply Z.eqb_eq in Ht. subst s. destruct chars as [|[|a c] chars]; [done| |].
      { by apply Forall_cons_1 in Hc as [? _]. }
      cbn in E. injection E as <- ->. apply Forall_cons_1 in Hc as [Hc1 Hc].
      rewrite utf8_char_first in Hc1 by done. exists c, chars. split_and!; [done..|].
      fold s'. rewrite zlen_cons. destruct (s' =? 0); cbn; lia.
    + cbn in E. injection E as <- ->. assert (s ≠ 0) as H0 by (intros ->; by apply utf8_suffix_accept in Ht).
      rewrite utf8_suffix_step in Ht by done. exists t, chars. split_and!; [done..|].
      rewrite (proj2 (Z.eqb_neq s 0) H0). fold s'. destruct (s' =? 0); lia.
  - intros (t & chars & -> & Hc & Ht & Hk). destruct (decide (s = 0)) as [->|H0].
    + exists [], ((b :: t) :: chars). split_and!; [done| |done|].
      * constructor; [|done]. by rewrite utf8_char_first.
      * rewrite zlen_cons. cbn. destruct (s' =? 0); lia.
    + exists (b :: t), chars. split_and!; [done..| |].
      * by rewrite utf8_suffix_step.
      * rewrite (proj2 (Z.eqb_neq s 0) H0). destruct (s' =? 0); lia.
Qed.

Lemma completes_reject l k : ¬ completes 1 l k.
Proof. intros (t & chars & _ & _ & H & _). by rewrite utf8_suffix_reject in H. Qed.

Lemma codepoint_loop_spec l pos count s codep :
  bytes_ok l → 0 <= s < 9 → s ≠ 1 →
  ∃ n st, codepoint_loop l pos count s codep = Ret (n, st) ∧
    (us_status st = CBOR_UNICODE_OK → ∀ k, completes s l k ↔ k = n - count) ∧
    (us_status st = CBOR_UNICODE_BADCP → n = 0 ∧ ∀ k, ¬ completes s l k).
Proof.
  intros Hl. revert pos count s codep. induction Hl as [|b l Hb Hl IH]; intros pos count s codep Hs H1; cbn.
  - unfold UTF8_ACCEPT. destruct (Z.eqb_spec s 0) as [->|H0]; cbn.
    + do 2 eexists. split; [done|]. split; [|done]. intros _ k. rewrite completes_nil. lia.
    + do 2 eexists. split; [done|]. split; [done|]. intros _. split; [done|].
      intros k [? _]%completes_nil. done.
  - destruct (decode_next s codep b Hs Hb) as [codep' ->]. cbn [xbind]. unfold UTF8_ACCEPT, UTF8_REJECT.
    pose proof (utf8_next_range s b) as Hr. pose proof (completes_cons s b l) as Hstep.
    destruct (Z.eqb_spec (utf8_next s b) 0) as [E0|E0].
    + destruct (IH (pos + 1) (count + 1) (utf8_next s b) codep') as (n & st & -> & Hok & Hbad); [lia..|].
      exists n, st. split; [done|]. split; intros Hst.
      * intros k. rewrite Hstep, (Hok Hst) by done. lia.
      * split; [by apply Hbad|]. intros k Hk%Hstep; [|done..]. by apply (proj2 (Hbad Hst) _ Hk).
    + destruct (Z.eqb_spec (utf8_next s b) 1) as [E1|E1].
      * do 2 eexists. split; [done|]. split; [done|]. intros _. split; [done|].
        intros k Hk%Hstep; [|done..]. rewrite E1 in Hk. by apply completes_reject in Hk.
      * destruct (IH (pos + 1) count (utf8_next s b) codep') as (n & st & -> & Hok & Hbad); [lia..|].
        exists n, st. split; [done|]. split; intros Hst.
        -- intros k. rewrite Hstep by done. auto.
        -- split; [by apply Hbad|]. intros k Hk%Hstep; [|done..]. by apply (proj2 (Hbad Hst) _ Hk).
Qed.

Lemma completes_text l k : completes 0 l k ↔ ∃ chars, utf8_text chars l ∧ k = zlen chars.
Proof.
  split.
  - intros (t & chars & -> & Hc & Ht & ->). apply utf8_suffix_accept in Ht as ->.
    exists chars. by rewrite Z.add_0_r.
  - intros (chars & [-> Hc] & ->). exists [], chars. by rewrite Z.add_0_r.
Qed.

(** Characters take at least a byte each. *)
Lemma utf8_text_length chars l : utf8_text chars l → zlen chars <= zlen l.
Proof.
  intros [-> H]. induction H as [|c chars Hc H IH]; cbn; [done|]. rewrite zlen_app, zlen_cons.
  destruct c as [|b c]; [done|]. rewrite zlen_cons. pose proof (zlen_nonneg c). lia.
Qed.

(** The count never exceeds the length. *)
Lemma codepoint_count_le l : bytes_ok l → ∃ n st, cbor_unicode_codepoint_count l = Ret (n, st) ∧ n <= zlen l.
Proof.
  intros Hl. unfold cbor_unicode_codepoint_count.
  destruct (codepoint_loop_spec l 0 0 UTF8_ACCEPT 0) as (n & st & E & Hok & Hbad); [done|unfold UTF8_ACCEPT; lia..|].
  exists n, st. split; [done|]. unfold UTF8_ACCEPT in *. rewrite Z.sub_0_r in Hok. destruct (us_status st).
  - destruct (proj1 (completes_text l n)) as (chars & Ht & ->); [by apply (Hok eq_refl)|]. by apply utf8_text_length.
  - destruct (Hbad eq_refl) as [-> _]. apply zlen_nonneg.
Qed.

(** ** Properties *)

(** The UTF-8 automaton of libcbor stays within its table on every byte
    string and decides the grammar of RFC 3629: it reports success exactly on
    the sequences of well-formed characters (no overlong forms, no surrogates,
    nothing above U+10FFFF), and then the count is the number of characters,
    which never exceeds the length, the assertion of [cbor_string_set_handle]. *)
Theorem utf8_automaton_decides_grammar l :
  bytes_ok l →
  ∃ n st, cbor_unicode_codepoint_count l = Ret (n, st) ∧ n <= zlen l ∧
    (us_status st = CBOR_UNICODE_OK ↔ ∃ chars, utf8_text chars l) ∧
    (∀ chars, utf8_text chars l → n = zlen chars).
Proof.
  intros Hl. unfold cbor_unicode_codepoint_count.
  destruct (codepoint_loop_spec l 0 0 UTF8_ACCEPT 0) as (n & st & E & Hok & Hbad); [done|unfold UTF8_ACCEPT; lia..|].
  unfold UTF8_ACCEPT in *. exists n, st. split; [done|]. destruct (us_status st) eqn:Est.
  - specialize (Hok eq_refl). rewrite Z.sub_0_r in Hok.
    destruct (proj1 (completes_text l n)) as (chars & Ht & En); [by apply Hok|].
    split_and!; [apply utf8_text_length in Ht; lia|by split; eauto|].
    intros chars' Ht'. symmetry. apply Hok, completes_text. eauto.
  - destruct (Hbad eq_refl) as [-> Hno].
    assert (∀ chars, ¬ utf8_text chars l) as Hn by (intros chars Ht; apply (Hno (zlen chars)), completes_text; eauto).
    split_and!; [apply zlen_nonneg| |by intros chars ?%Hn]. split; [done|by intros [chars ?%Hn]].
Qed.

Lemma utf8_automaton_decides_grammar_witness :
  bytes_ok [0x50; 0xC3; 0xA9; 0xF0; 0x9F; 0x94; 0xB1] ∧
  (∃ n st, cbor_unicode_codepoint_count [0x50; 0xC3; 0xA9; 0xF0; 0x9F; 0x94; 0xB1] = Ret (n, st) ∧ n = 3) ∧
  (∃ n st, cbor_unicode_codepoint_count [0xED; 0xA0; 0x80] = Ret (n, st) ∧ n = 0).
Proof.
  assert (bytes_ok [0x50; 0xC3; 0xA9; 0xF0; 0x9F; 0x94; 0xB1]) as Hb
    by (repeat constructor; vm_compute; congruence).
  split; [exact Hb|]. split; [|do 2 eexists; split; vm_compute; reflexivity].
  destruct (utf8_automaton_decides_grammar [0x50; 0xC3; 0xA9; 0xF0; 0x9F; 0x94; 0xB1] Hb)
    as (n & st & E & _ & _ & Hn).
  exists n, st. split; [exact E|].
  apply (Hn [[0x50]; [0xC3; 0xA9]; [0xF0; 0x9F; 0x94; 0xB1]]).
  split; [reflexivity|repeat constructor].
Defined.
