(* ===== verification/Cbor.v ===== *)
(** * Cbor: the items of libcbor that the codecs build and inspect

    The item type and accessors of the vendored libcbor
    ([deps/libcbor/src/cbor/{ints,bytestrings,strings,arrays,maps,common}.c])
    that the sources under [src/] call.  An accessor whose [CBOR_ASSERT] fails
    is undefined behaviour of the caller ([Trap]); this is where a decoder that
    trusts the shape of a remote message goes wrong.  Reference counts
    ([cbor_incref], [cbor_move], [cbor_decref]) manage memory only and have no
    counterpart; allocation does not fail. *)

From S2P Require Import Prelude.

#[local] Set Warnings "-register-all".

Inductive cbor_int_width := CBOR_INT_8 | CBOR_INT_16 | CBOR_INT_32 | CBOR_INT_64.

#[export] Instance cbor_int_width_eq_dec : EqDecision cbor_int_width.
Proof. solve_decision. Defined.

(** An indefinite string is a list of chunks; its [length] field stays 0. *)
Inductive cbor_item : Type :=
| CUint (width : cbor_int_width) (value : Z)
| CNegint (width : cbor_int_width) (value : Z)
| CBytes (data : list Z)
| CBytesIndef (chunks : list (list Z))
| CString (data : list Z)
| CStringIndef (chunks : list (list Z))
| CArray (definite : bool) (allocated : Z) (elems : list cbor_item)
| CMap (definite : bool) (allocated : Z) (pairs : list (cbor_item * cbor_item))
| CTag (value : Z) (item : cbor_item)
| CFloatCtrl (width value : Z).

(** ** Type tests *)

Definition cbor_isa_uint (i : cbor_item) : bool := match i with CUint _ _ => true | _ => false end.
Definition cbor_isa_bytestring (i : cbor_item) : bool :=
  match i with CBytes _ | CBytesIndef _ => true | _ => false end.
Definition cbor_isa_string (i : cbor_item) : bool :=
  match i with CString _ | CStringIndef _ => true | _ => false end.
Definition cbor_isa_array (i : cbor_item) : bool := match i with CArray _ _ _ => true | _ => false end.
Definition cbor_isa_map (i : cbor_item) : bool := match i with CMap _ _ _ => true | _ => false end.

(** ** Integers *)

(** [cbor_is_int] and the width, for the accessors below. *)
Definition cbor_get_width (w : cbor_int_width) (i : cbor_item) : exec Z :=
  match i with
  | CUint w' v | CNegint w' v => if decide (w' = w) then Ret v else Trap
  | _ => Trap
  end.

Definition cbor_get_uint8 : cbor_item → exec Z := cbor_get_width CBOR_INT_8.
Definition cbor_get_uint16 : cbor_item → exec Z := cbor_get_width CBOR_INT_16.
Definition cbor_get_uint32 : cbor_item → exec Z := cbor_get_width CBOR_INT_32.
Definition cbor_get_uint64 : cbor_item → exec Z := cbor_get_width CBOR_INT_64.

Definition cbor_get_int (i : cbor_item) : exec Z :=
  match i with CUint _ v | CNegint _ v => Ret v | _ => Trap end.

Definition cbor_build_uint8 (v : Z) : cbor_item := CUint CBOR_INT_8 (u8 v).
Definition cbor_build_uint16 (v : Z) : cbor_item := CUint CBOR_INT_16 (u16 v).
Definition cbor_build_uint32 (v : Z) : cbor_item := CUint CBOR_INT_32 (u32 v).
Definition cbor_build_uint64 (v : Z) : cbor_item := CUint CBOR_INT_64 (u64 v).

(** ** Byte and text strings *)

Definition cbor_build_bytestring (data : list Z) : cbor_item := CBytes data.
Definition cbor_build_string (val : list Z) : cbor_item := CString val.
Definition cbor_build_stringn (val : list Z) : cbor_item := CString val.

Definition cbor_bytestring_length (i : cbor_item) : exec Z :=
  match i with CBytes d => Ret (zlen d) | CBytesIndef _ => Ret 0 | _ => Trap end.

(** The [length] bytes that may be read through the handle. *)
Definition cbor_bytestring_handle (i : cbor_item) : exec (list Z) :=
  match i with CBytes d => Ret d | CBytesIndef _ => Ret [] | _ => Trap end.

Definition cbor_string_length (i : cbor_item) : exec Z :=
  match i with CString d => Ret (zlen d) | CStringIndef _ => Ret 0 | _ => Trap end.

Definition cbor_string_handle (i : cbor_item) : exec (list Z) :=
  match i with CString d => Ret d | CStringIndef _ => Ret [] | _ => Trap end.

(** ** Arrays *)

Definition cbor_new_definite_array (size : Z) : cbor_item := CArray true size [].

Definition cbor_array_is_definite (i : cbor_item) : exec bool :=
  match i with CArray d _ _ => Ret d | _ => Trap end.

Definition cbor_array_size (i : cbor_item) : exec Z :=
  match i with CArray _ _ es => Ret (zlen es) | _ => Trap end.

Definition cbor_array_handle (i : cbor_item) : exec (list cbor_item) :=
  match i with CArray _ _ es => Ret es | _ => Trap end.

(** [elems[k]]: past the last element the slot is NULL or outside the array,
    and every use of it is undefined. *)
Definition elem_at (elems : list cbor_item) (k : Z) : exec cbor_item :=
  match elems !! Z.to_nat k with Some i => Ret i | None => Trap end.

(** A definite array never grows: [None] is the result [false].  An indefinite
    array doubles its allocation. *)
Definition cbor_array_push (arr pushee : cbor_item) : exec (option cbor_item) :=
  match arr with
  | CArray true alloc es =>
      Ret (if alloc <=? zlen es then None else Some (CArray true alloc (es ++ [pushee])))
  | CArray false alloc es =>
      let alloc' := if alloc <=? zlen es then (if alloc =? 0 then 1 else 2 * alloc) else alloc in
      Ret (Some (CArray false alloc' (es ++ [pushee])))
  | _ => Trap
  end.

(** The idiom of every encoder:
    [if (!cbor_array_push(arr, x1)) goto fail; if (!cbor_array_push(arr, x2)) goto fail; ...]
    where [fail] releases the array and returns NULL. *)
Fixpoint push_all (arr : cbor_item) (xs : list cbor_item) : exec (option cbor_item) :=
  match xs with
  | [] => Ret (Some arr)
  | x :: xs' =>
      r <- cbor_array_push arr x ;;
      match r with Some arr' => push_all arr' xs' | None => Ret None end
  end.

(** [!cbor_isa_array(item) || !cbor_array_is_definite(item)], the guard of the
    decoders. *)
Definition is_definite_array (i : cbor_item) : bool :=
  match i with CArray true _ _ => true | _ => false end.

(** ** Maps *)

Definition cbor_new_definite_map (size : Z) : cbor_item := CMap true size [].

Definition cbor_map_add (m k v : cbor_item) : exec (option cbor_item) :=
  match m with
  | CMap true alloc ps =>
      Ret (if alloc <=? zlen ps then None else Some (CMap true alloc (ps ++ [(k, v)])))
  | CMap false alloc ps =>
      let alloc' := if alloc <=? zlen ps then (if alloc =? 0 then 1 else 2 * alloc) else alloc in
      Ret (Some (CMap false alloc' (ps ++ [(k, v)])))
  | _ => Trap
  end.

Definition cbor_map_size (m : cbor_item) : exec Z :=
  match m with CMap _ _ ps => Ret (zlen ps) | _ => Trap end.

Definition cbor_map_handle (m : cbor_item) : exec (list (cbor_item * cbor_item)) :=
  match m with CMap _ _ ps => Ret ps | _ => Trap end.

(** ** Lemmas *)

(** A definite array filled within its allocation. *)
Lemma push_all_definite n es xs :
  zlen es + zlen xs <= n → push_all (CArray true n es) xs = Ret (Some (CArray true n (es ++ xs))).
Proof.
  revert es. induction xs as [|x xs IH]; intros es H; simpl; [by rewrite app_nil_r|].
  unfold zlen in *. simpl in *. destruct (Z.leb_spec n (Z.of_nat (length es))); [lia|].
  rewrite IH by (rewrite length_app; simpl; lia). by rewrite <- (assoc_L (++)).
Qed.

(** One element too many and the whole encoding is given up. *)
Lemma push_all_overflow n es xs :
  n < zlen es + zlen xs → zlen es <= n → push_all (CArray true n es) xs = Ret None.
Proof.
  revert es. induction xs as [|x xs IH]; intros es H He; simpl; [unfold zlen in *; simpl in *; lia|].
  unfold zlen in *. simpl in *. destruct (Z.leb_spec n (Z.of_nat (length es))); [done|].
  apply IH; rewrite length_app; simpl; lia.
Qed.

Lemma push_all_app arr xs ys :
  push_all arr (xs ++ ys) =
  (r <- push_all arr xs ;; match r with Some a => push_all a ys | None => Ret None end).
Proof.
  revert arr. induction xs as [|x xs IH]; intros arr; simpl; [done|].
  destruct (cbor_array_push arr x) as [[a|]|]; simpl; [apply IH|done|done].
Qed.

Lemma elem_at_app_r es xs k :
  zlen es <= k → elem_at (es ++ xs) k = elem_at xs (k - zlen es).
Proof.
  intros H. unfold elem_at, zlen in *. rewrite lookup_app_r by lia.
  by replace (Z.to_nat k - length es)%nat with (Z.to_nat (k - Z.of_nat (length es))) by lia.
Qed.

(** ** Items as they come off the wire *)

Definition int_bound (w : cbor_int_width) : Z :=
  match w with
  | CBOR_INT_8 => 2 ^ 8 | CBOR_INT_16 => 2 ^ 16 | CBOR_INT_32 => 2 ^ 32 | CBOR_INT_64 => 2 ^ 64
  end.

(** Integers fit their width, strings are byte strings, and a definite array
    is full: what [cbor_load] produces. *)
Fixpoint cbor_ok (i : cbor_item) : Prop :=
  match i with
  | CUint w v | CNegint w v => 0 <= v < int_bound w
  | CBytes d | CString d => bytes_ok d
  | CBytesIndef cs | CStringIndef cs => Forall bytes_ok cs
  | CArray definite alloc es =>
      (definite = true → alloc = zlen es) ∧
      (fix all es := match es with [] => True | e :: es' => cbor_ok e ∧ all es' end) es
  | CMap definite alloc ps =>
      (definite = true → alloc = zlen ps) ∧
      (fix all ps := match ps with [] => True | (k, v) :: ps' => (cbor_ok k ∧ cbor_ok v) ∧ all ps' end) ps
  | CTag _ it => cbor_ok it
  | CFloatCtrl _ _ => True
  end.

Lemma cbor_ok_array d n es : cbor_ok (CArray d n es) ↔ (d = true → n = zlen es) ∧ Forall cbor_ok es.
Proof.
  simpl. apply and_iff_compat_l. induction es as [|e es IH]; [done|].
  rewrite IH. split; [by intros []; constructor|by intros []%Forall_cons_1].
Qed.

Lemma cbor_ok_map d n ps :
  cbor_ok (CMap d n ps) ↔ (d = true → n = zlen ps) ∧ Forall (fun p => cbor_ok p.1 ∧ cbor_ok p.2) ps.
Proof.
  simpl. apply and_iff_compat_l. induction ps as [|[k v] ps IH]; [done|].
  rewrite IH. split; [by intros []; constructor|by intros []%Forall_cons_1].
Qed.

Lemma cbor_get_width_ok w i v : cbor_ok i → cbor_get_width w i = Ret v → 0 <= v < int_bound w.
Proof. destruct i; simpl; try done; case_decide; intros ? [= <-]; by subst. Qed.

Lemma cbor_get_uint64_ok i v : cbor_ok i → cbor_get_uint64 i = Ret v → is_u64 v.
Proof. apply cbor_get_width_ok. Qed.

Lemma elem_at_ok es k i : Forall cbor_ok es → elem_at es k = Ret i → cbor_ok i.
Proof.
  intros H. unfold elem_at. destruct (es !! Z.to_nat k) eqn:E; [|done]. intros [= <-].
  exact (Forall_lookup_1 _ _ _ _ H E).
Qed.

Lemma array_handle_ok i es : cbor_ok i → cbor_array_handle i = Ret es → Forall cbor_ok es.
Proof. destruct i; try done. intros [_ H]%cbor_ok_array. by intros [= <-]. Qed.
