(* ===== verification/BloomCodec.v ===== *)
(** * BloomCodec: the CBOR codecs of the elastic and attenuated filters

    [elastic_bloom_filter_encode/decode] and
    [attenuated_bloom_filter_encode/decode]: the form in which Quasar gossips
    routing filters.  The occupancy bits travel but are rebuilt from the
    buckets on arrival; [omega] and [count] do not travel. *)

From S2P Require Import Prelude Bitset Bloom ElasticBloom ElasticBloomSpec AttenuatedBloom Cbor.

(** ** Elastic filter: encoder *)

(** The sub-array [[bucket_index, num_fps, fp1, fp2, ...]] of one bucket. *)
Definition encode_bucket (i : Z) (b : list Z) : exec (option cbor_item) :=
  push_all (cbor_new_definite_array (2 + zlen b))
    ([cbor_build_uint64 i; cbor_build_uint64 (zlen b)] ++ map cbor_build_uint32 b).

(** The loop over the buckets from index [i] on; empty ones are skipped. *)
Fixpoint encode_buckets (arr : cbor_item) (i : Z) (buckets : list (list Z)) : exec (option cbor_item) :=
  match buckets with
  | [] => Ret (Some arr)
  | b :: rest =>
      if bucket_is_empty b then encode_buckets arr (i + 1) rest
      else
        rb <- encode_bucket i b ;;
        match rb with
        | None => Ret None
        | Some bucket_arr =>
            ra <- cbor_array_push arr bucket_arr ;;
            match ra with
            | None => Ret None
            | Some arr' => encode_buckets arr' (i + 1) rest
            end
        end
  end.

Definition elastic_bloom_filter_encode_nn (e : elastic_bloom_filter_t) : exec (option cbor_item) :=
  let num_occupied := occupied_count (ebf_buckets e) in
  r <- push_all (cbor_new_definite_array (8 + num_occupied))
         [cbor_build_uint64 (ebf_size e);
          cbor_build_uint32 (ebf_hash_count e);
          cbor_build_uint32 (ebf_fp_bits e);
          cbor_build_uint64 (ebf_seed_a e);
          cbor_build_uint64 (ebf_seed_b e);
          cbor_build_uint64 (bitset_size (ebf_bits e));
          cbor_build_bytestring (bits_data (ebf_bits e));
          cbor_build_uint64 num_occupied] ;;
  match r with
  | None => Ret None
  | Some arr => encode_buckets arr 0 (ebf_buckets e)
  end.

Definition elastic_bloom_filter_encode (ebf : option elastic_bloom_filter_t) : exec (option cbor_item) :=
  match ebf with None => Ret None | Some e => elastic_bloom_filter_encode_nn e end.

(** ** Elastic filter: decoder *)

(** [for (f = fp_count; f > 0; f--) bucket_insert(bucket, bucket_elems[1 + f])]. *)
Fixpoint insert_fps (f : nat) (bucket_elems : list cbor_item) (b : list Z) : exec (list Z) :=
  match f with
  | O => Ret b
  | S f' =>
      it <- elem_at bucket_elems (1 + Z.of_nat f) ;;
      fp <- cbor_get_int it ;;
      insert_fps f' bucket_elems (bucket_insert b (u32 fp))
  end.

(** One iteration of the reconstruction loop; [None] is the early return of
    NULL. *)
Definition decode_bucket (bucket_count : Z) (buckets : list (list Z)) (bucket_item : cbor_item)
    : exec (option (list (list Z))) :=
  if negb (is_definite_array bucket_item) then Ret None
  else
    bucket_elems <- cbor_array_handle bucket_item ;;
    if zlen bucket_elems <? 2 then Ret None
    else
      i0 <- elem_at bucket_elems 0 ;; bucket_index <- cbor_get_uint64 i0 ;;
      i1 <- elem_at bucket_elems 1 ;; fp_count <- cbor_get_uint64 i1 ;;
      if negb (zlen bucket_elems =? u64 (2 + fp_count)) || (bucket_count <=? bucket_index)
      then Ret None
      else
        b <- insert_fps (Z.to_nat fp_count) bucket_elems (bucket_at buckets bucket_index) ;;
        Ret (Some (<[Z.to_nat bucket_index := b]> buckets)).

(** The loop over [elems[8 .. 8 + num_occupied - 1]], the tail of the array. *)
Fixpoint decode_buckets (bucket_count : Z) (buckets : list (list Z)) (items : list cbor_item)
    : exec (option (list (list Z))) :=
  match items with
  | [] => Ret (Some buckets)
  | it :: rest =>
      r <- decode_bucket bucket_count buckets it ;;
      match r with
      | None => Ret None
      | Some buckets' => decode_buckets bucket_count buckets' rest
      end
  end.

(** With [size >= 2^61] the byte size of the bucket array wraps and the array
    is shorter than [bucket_count], so that the traversals that follow (or the
    cleanup) leave it: undefined. *)
Definition elastic_bloom_filter_decode_nn (item : cbor_item) : exec (option elastic_bloom_filter_t) :=
  if negb (is_definite_array item) then Ret None
  else
    elems <- cbor_array_handle item ;;
    if zlen elems <? 8 then Ret None
    else
      i0 <- elem_at elems 0 ;; size <- cbor_get_uint64 i0 ;;
      i1 <- elem_at elems 1 ;; hash_count <- cbor_get_int i1 ;;
      i2 <- elem_at elems 2 ;; fp_bits <- cbor_get_int i2 ;;
      i3 <- elem_at elems 3 ;; seed_a <- cbor_get_uint64 i3 ;;
      i4 <- elem_at elems 4 ;; seed_b <- cbor_get_uint64 i4 ;;
      i5 <- elem_at elems 5 ;; bitset_byte_len <- cbor_get_uint64 i5 ;;
      i6 <- elem_at elems 6 ;;
      if negb (cbor_isa_bytestring i6) then Ret None
      else
        len <- cbor_bytestring_length i6 ;;
        if negb (len =? bitset_byte_len) then Ret None
        else
          i7 <- elem_at elems 7 ;; num_occupied <- cbor_get_uint64 i7 ;;
          if negb (zlen elems =? u64 (8 + num_occupied)) then Ret None
          else if 2 ^ 61 <=? size then Trap
          else
            let e := elastic_bloom_filter_create size (u32 hash_count) f32_half (u32 fp_bits) in
            data <- cbor_bytestring_handle i6 ;;
            r <- decode_buckets (ebf_bucket_count e) (ebf_buckets e) (drop 8 elems) ;;
            match r with
            | None => Ret None
            | Some buckets =>
                Ret (Some (rebuild_bitset
                  {| ebf_bits := mkBitset data;
                     ebf_size := ebf_size e;
                     ebf_bucket_count := ebf_bucket_count e;
                     ebf_buckets := buckets;
                     ebf_hash_count := ebf_hash_count e;
                     ebf_seed_a := seed_a;
                     ebf_seed_b := seed_b;
                     ebf_omega := ebf_omega e;
                     ebf_fp_bits := ebf_fp_bits e;
                     ebf_count := ebf_count e |}))
            end.

Definition elastic_bloom_filter_decode (item : option cbor_item) : exec (option elastic_bloom_filter_t) :=
  match item with None => Ret None | Some i => elastic_bloom_filter_decode_nn i end.

(** ** Attenuated filter *)

Fixpoint encode_levels (levels_arr : cbor_item) (levels : list elastic_bloom_filter_t)
    : exec (option cbor_item) :=
  match levels with
  | [] => Ret (Some levels_arr)
  | e :: rest =>
      r <- elastic_bloom_filter_encode_nn e ;;
      match r with
      | None => Ret None
      | Some encoded =>
          ra <- cbor_array_push levels_arr encoded ;;
          match ra with
          | None => Ret None
          | Some arr' => encode_levels arr' rest
          end
      end
  end.

Definition attenuated_bloom_filter_encode_nn (a : attenuated_bloom_filter_t) : exec (option cbor_item) :=
  r <- encode_levels (cbor_new_definite_array (abf_level_count a)) (abf_levels a) ;;
  match r with
  | None => Ret None
  | Some levels_arr =>
      push_all (cbor_new_definite_array 2) [cbor_build_uint32 (abf_level_count a); levels_arr]
  end.

Definition attenuated_bloom_filter_encode (abf : option attenuated_bloom_filter_t)
    : exec (option cbor_item) :=
  match abf with None => Ret None | Some a => attenuated_bloom_filter_encode_nn a end.

(** The loop over the [level_count] level items. *)
Fixpoint decode_levels (items : list cbor_item) : exec (option (list elastic_bloom_filter_t)) :=
  match items with
  | [] => Ret (Some [])
  | it :: rest =>
      r <- elastic_bloom_filter_decode_nn it ;;
      match r with
      | None => Ret None
      | Some e =>
          rs <- decode_levels rest ;;
          match rs with None => Ret None | Some es => Ret (Some (e :: es)) end
      end
  end.

Definition attenuated_bloom_filter_decode_nn (item : cbor_item)
    : exec (option attenuated_bloom_filter_t) :=
  if negb (is_definite_array item) then Ret None
  else
    elems <- cbor_array_handle item ;;
    if negb (zlen elems =? 2) then Ret None
    else
      i0 <- elem_at elems 0 ;; n <- cbor_get_int i0 ;;
      let level_count := u32 n in
      levels_item <- elem_at elems 1 ;;
      if negb (is_definite_array levels_item) then Ret None
      else
        level_elems <- cbor_array_handle levels_item ;;
        if negb (zlen level_elems =? level_count) then Ret None
        else
          r <- decode_levels level_elems ;;
          match r with
          | None => Ret None
          | Some ls => Ret (Some {| abf_level_count := level_count; abf_levels := ls |})
          end.

Definition attenuated_bloom_filter_decode (item : option cbor_item)
    : exec (option attenuated_bloom_filter_t) :=
  match item with None => Ret None | Some i => attenuated_bloom_filter_decode_nn i end.

(** ** What the receiver reconstructs *)

(** The filter without the two fields that do not travel. *)
Definition ebf_received (e : elastic_bloom_filter_t) : elastic_bloom_filter_t :=
  {| ebf_bits := ebf_bits e;
     ebf_size := ebf_size e;
     ebf_bucket_count := ebf_bucket_count e;
     ebf_buckets := ebf_buckets e;
     ebf_hash_count := ebf_hash_count e;
     ebf_seed_a := ebf_seed_a e;
     ebf_seed_b := ebf_seed_b e;
     ebf_omega := f32_half;
     ebf_fp_bits := ebf_fp_bits e;
     ebf_count := 0 |}.

Definition abf_received (a : attenuated_bloom_filter_t) : attenuated_bloom_filter_t :=
  {| abf_level_count := abf_level_count a; abf_levels := map ebf_received (abf_levels a) |}.

(** Bounds that hold of every filter in memory: the bucket array and its lists
    fit the address space. *)
Record ebf_in_memory (e : elastic_bloom_filter_t) : Prop := {
  ebf_mem_size : ebf_size e < 2 ^ 61;
  ebf_mem_lists : Forall (fun b => zlen b < 2 ^ 61) (ebf_buckets e);
  ebf_mem_seed_a : is_u64 (ebf_seed_a e);
  ebf_mem_seed_b : is_u64 (ebf_seed_b e)
}.

(** ** Round trip of the buckets *)

(** The sub-arrays of the non-empty buckets, from index [i] on. *)
Fixpoint bucket_items (i : Z) (buckets : list (list Z)) : list cbor_item :=
  match buckets with
  | [] => []
  | b :: rest =>
      (if bucket_is_empty b then []
       else [CArray true (2 + zlen b)
               ([cbor_build_uint64 i; cbor_build_uint64 (zlen b)] ++ map cbor_build_uint32 b)])
      ++ bucket_items (i + 1) rest
  end.

Lemma bucket_items_length i bs : zlen (bucket_items i bs) = occupied_count bs.
Proof.
  unfold occupied_count. revert i. induction bs as [|b bs IH]; intros i; simpl; [done|].
  rewrite zlen_app, IH. rewrite filter_cons. destruct b as [|fp b]; simpl.
  - unfold zlen. simpl. lia.
  - unfold zlen. simpl. lia.
Qed.

Lemma encode_bucket_ok i b :
  encode_bucket i b = Ret (Some (CArray true (2 + zlen b)
    ([cbor_build_uint64 i; cbor_build_uint64 (zlen b)] ++ map cbor_build_uint32 b))).
Proof.
  unfold encode_bucket, cbor_new_definite_array. rewrite push_all_definite; [done|].
  rewrite zlen_app. unfold zlen. rewrite length_map. simpl. lia.
Qed.

Lemma encode_buckets_ok n es i bs :
  zlen es + occupied_count bs <= n →
  encode_buckets (CArray true n es) i bs = Ret (Some (CArray true n (es ++ bucket_items i bs))).
Proof.
  revert es i. induction bs as [|b bs IH]; intros es i Hn; simpl; [by rewrite app_nil_r|].
  rewrite <- (bucket_items_length i) in Hn. simpl in Hn. rewrite zlen_app, bucket_items_length in Hn.
  destruct b as [|fp b]; simpl in *; [apply IH; unfold zlen in *; simpl in *; lia|].
  rewrite encode_bucket_ok, bind_Ret_l. unfold cbor_array_push.
  pose proof (zlen_nonneg (filter (fun b => bucket_is_empty b = false) bs)) as Hnn.
  fold (occupied_count bs) in Hnn.
  unfold zlen in Hn at 2. simpl in Hn. simpl. destruct (Z.leb_spec n (zlen es)); [lia|].
  rewrite IH by (rewrite zlen_app; unfold zlen in *; simpl; lia). by rewrite <- (assoc_L (++)).
Qed.

Lemma insert_fps_ok i n fps b k :
  Forall is_u32 fps → (k <= length fps)%nat →
  insert_fps k (i :: n :: map cbor_build_uint32 fps) b = Ret (take k fps ++ b).
Proof.
  intros Hfp. revert b. induction k as [|k IH]; intros b Hk; [done|].
  cbn [insert_fps]. destruct (lookup_lt_is_Some_2 fps k) as [fp Hk']; [lia|].
  assert (E : elem_at (i :: n :: map cbor_build_uint32 fps) (1 + Z.of_nat (S k)) = Ret (cbor_build_uint32 fp)).
  { unfold elem_at. replace (Z.to_nat (1 + Z.of_nat (S k))) with (S (S k)) by lia. simpl.
    by rewrite list_lookup_fmap, Hk'. }
  rewrite E, bind_Ret_l. unfold cbor_build_uint32, cbor_get_int. rewrite bind_Ret_l, IH by lia.
  assert (is_u32 fp) by exact (Forall_lookup_1 _ _ _ _ Hfp Hk').
  rewrite !u32_id by (try apply u32_range; done). unfold bucket_insert.
  rewrite (take_S_r _ _ fp) by done. by rewrite <- (assoc_L (++)).
Qed.

Lemma decode_bucket_ok count buckets i b :
  0 <= i < count → is_u64 i → Forall is_u32 b → zlen b < 2 ^ 61 → bucket_at buckets i = [] →
  decode_bucket count buckets (CArray true (2 + zlen b)
    ([cbor_build_uint64 i; cbor_build_uint64 (zlen b)] ++ map cbor_build_uint32 b)) =
  Ret (Some (<[Z.to_nat i := b]> buckets)).
Proof.
  intros Hi Hu Hb Hlen He. pose proof (zlen_nonneg b).
  unfold decode_bucket. cbn [is_definite_array negb cbor_array_handle]. rewrite bind_Ret_l.
  assert (El : zlen ([cbor_build_uint64 i; cbor_build_uint64 (zlen b)] ++ map cbor_build_uint32 b)
               = 2 + zlen b) by (rewrite zlen_app; unfold zlen; rewrite length_map; simpl; lia).
  rewrite El. destruct (Z.ltb_spec (2 + zlen b) 2); [lia|].
  unfold elem_at. simpl. rewrite !(u64_id (zlen b)), (u64_id i) by (done || (unfold is_u64; lia)).
  rewrite u64_id by (unfold is_u64; lia). rewrite Z.eqb_refl. simpl.
  destruct (Z.leb_spec count i); [lia|].
  rewrite He, insert_fps_ok by (done || (unfold zlen; lia)). simpl.
  rewrite app_nil_r, firstn_all2 by (unfold zlen; lia). done.
Qed.

Lemma decode_buckets_ok pre suf :
  Forall (Forall is_u32) suf → Forall (fun b => zlen b < 2 ^ 61) suf → zlen (pre ++ suf) < 2 ^ 61 →
  decode_buckets (zlen (pre ++ suf)) (pre ++ replicate (length suf) []) (bucket_items (zlen pre) suf)
  = Ret (Some (pre ++ suf)).
Proof.
  revert pre. induction suf as [|b suf IH]; intros pre Hf Hl Hs; [done|].
  apply Forall_cons_1 in Hf as [Hfb Hf]. apply Forall_cons_1 in Hl as [Hlb Hl].
  assert (E : pre ++ b :: suf = (pre ++ [b]) ++ suf) by by rewrite <- (assoc_L (++)).
  assert (Ez : zlen (pre ++ [b]) = zlen pre + 1) by (rewrite zlen_app; done).
  destruct b as [|fp b].
  - cbn [bucket_items bucket_is_empty app length replicate].
    rewrite E, <- Ez. replace (pre ++ [] :: replicate (length suf) [])
      with ((pre ++ [[]]) ++ replicate (length suf) []) by by rewrite <- (assoc_L (++)).
    apply IH; [done|done|by rewrite <- E].
  - cbn [bucket_items bucket_is_empty decode_buckets length replicate].
    set (B := fp :: b) in *. rewrite zlen_app in Hs. pose proof (zlen_nonneg pre).
    pose proof (zlen_nonneg (B :: suf)).
    assert (0 < zlen (B :: suf)) by (unfold zlen; simpl; lia).
    assert (Hat : bucket_at (pre ++ [] :: replicate (length suf) []) (zlen pre) = []).
    { unfold bucket_at, zlen. rewrite Nat2Z.id, lookup_app_r, Nat.sub_diag by lia. done. }
    cbn [app]. cbn [decode_buckets].
    rewrite (decode_bucket_ok _ _ (zlen pre) B); [|rewrite zlen_app; lia|unfold is_u64; lia|done|done|done].
    rewrite bind_Ret_l. unfold zlen at 2. rewrite Nat2Z.id, insert_app_r_alt, Nat.sub_diag by lia.
    cbn [insert list_insert]. rewrite E, <- Ez.
    replace (pre ++ B :: replicate (length suf) []) with ((pre ++ [B]) ++ replicate (length suf) [])
      by by rewrite <- (assoc_L (++)).
    apply IH; [done|done|rewrite <- E, zlen_app; lia].
Qed.

(** ** Round trip of whole filters *)

(** The eight fixed fields. *)
Definition ebf_header (e : elastic_bloom_filter_t) : list cbor_item :=
  [cbor_build_uint64 (ebf_size e); cbor_build_uint32 (ebf_hash_count e);
   cbor_build_uint32 (ebf_fp_bits e); cbor_build_uint64 (ebf_seed_a e);
   cbor_build_uint64 (ebf_seed_b e); cbor_build_uint64 (bitset_size (ebf_bits e));
   cbor_build_bytestring (bits_data (ebf_bits e));
   cbor_build_uint64 (occupied_count (ebf_buckets e))].

Definition ebf_item (e : elastic_bloom_filter_t) : cbor_item :=
  CArray true (8 + occupied_count (ebf_buckets e)) (ebf_header e ++ bucket_items 0 (ebf_buckets e)).

Lemma occupied_count_range bs : 0 <= occupied_count bs <= zlen bs.
Proof.
  unfold occupied_count, zlen. pose proof (length_filter (fun b => bucket_is_empty b = false) bs). lia.
Qed.

Lemma ebf_encode_ok e : elastic_bloom_filter_encode_nn e = Ret (Some (ebf_item e)).
Proof.
  pose proof (occupied_count_range (ebf_buckets e)).
  unfold elastic_bloom_filter_encode_nn, cbor_new_definite_array.
  rewrite push_all_definite by (unfold zlen; simpl; lia). rewrite bind_Ret_l.
  rewrite encode_buckets_ok; [done|]. unfold zlen. simpl. lia.
Qed.

(** Rebuilding the bits of a well-formed filter gives them back. *)
Lemma rebuild_bits_id e e' :
  ebf_wf e → ebf_buckets e' = ebf_buckets e → ebf_size e' = ebf_size e →
  ebf_bits (rebuild_bitset e') = ebf_bits e.
Proof.
  intros Hwf Hb Hs. pose proof (ebf_wf_size e Hwf). pose proof (ebf_wf_len e Hwf).
  destruct (byte_size_of_pos (ebf_size e)) as [Hbs Hbs0]; [lia|].
  assert (Hcs : bitset_size (bitset_create (byte_size_of (ebf_size e))) = byte_size_of (ebf_size e))
    by by apply bitset_create_size.
  simpl. rewrite Hb, Hs. apply bitset_ext.
  - apply set_occupied_wf, bitset_create_wf.
  - apply Hwf.
  - rewrite set_occupied_size; rewrite ?Hcs; [|lia|lia]. by rewrite (ebf_wf_bits_size e Hwf).
  - intros i Hi. rewrite set_occupied_get, bitset_get_create, (ebf_wf_sync e Hwf), Z.sub_0_r by lia.
    by destruct (Z.leb_spec 0 i); [|lia].
Qed.

Lemma ebf_decode_item e :
  ebf_wf e → ebf_in_memory e → elastic_bloom_filter_decode_nn (ebf_item e) = Ret (Some (ebf_received e)).
Proof.
  intros Hwf Hm. pose proof (occupied_count_range (ebf_buckets e)) as Hocc.
  pose proof (ebf_wf_size e Hwf). pose proof (ebf_wf_len e Hwf) as Hl. pose proof (ebf_mem_size e Hm).
  destruct (ebf_wf_fp_bits e Hwf). destruct (byte_size_of_pos (ebf_size e)) as [_ Hbs0]; [lia|].
  assert (Hbs : byte_size_of (ebf_size e) <= ebf_size e + 1).
  { unfold byte_size_of. pose proof (Z.div_le_upper_bound (ebf_size e) 8 (ebf_size e)). zcases; lia. }
  unfold elastic_bloom_filter_decode_nn, ebf_item. cbn [is_definite_array negb cbor_array_handle].
  rewrite bind_Ret_l. rewrite zlen_app, bucket_items_length.
  change (zlen (ebf_header e)) with 8. destruct (Z.ltb_spec (8 + occupied_count (ebf_buckets e)) 8); [lia|].
  pose proof (ebf_wf_bits_size e Hwf) as Hbl.
  unfold elem_at, ebf_header. simpl. unfold bitset_size in *.
  rewrite !(u64_id (zlen (bits_data (ebf_bits e)))), Z.eqb_refl
    by (unfold is_u64; rewrite Hbl; lia).
  rewrite (u64_id (occupied_count _)) by (unfold is_u64; lia).
  rewrite (u64_id (8 + _)), Z.eqb_refl by (unfold is_u64; lia). simpl.
  rewrite (u64_id (ebf_size e)) by (unfold is_u64; lia). destruct (Z.leb_spec (2 ^ 61) (ebf_size e)); [lia|].
  rewrite drop_0.
  pose proof (decode_buckets_ok [] (ebf_buckets e) (ebf_wf_fps e Hwf) (ebf_mem_lists e Hm)) as Hd.
  cbn [app] in Hd. rewrite Hl in Hd. specialize (Hd ltac:(lia)). change (zlen []) with 0 in Hd.
  replace (length (ebf_buckets e)) with (Z.to_nat (ebf_size e)) in Hd by (unfold zlen in Hl; lia).
  rewrite Hd, bind_Ret_l. do 2 f_equal. unfold rebuild_bitset at 1.
  rewrite !u32_id, !u64_id by (try apply u32_range; try apply Hwf; try apply Hm; unfold is_u32; lia).
  unfold ebf_received. unfold ebf_with. f_equal; [|by rewrite (ebf_wf_bucket_count e Hwf)].
  by apply (rebuild_bits_id e (ebf_received e) Hwf).
Qed.

(** The elastic filter survives the wire: encoding succeeds and decoding
    the result gives back the filter (bits, buckets, sizes, hash parameters),
    with [omega] and [count] reset to their placeholders. *)
Theorem ebf_codec_roundtrip e :
  ebf_wf e → ebf_in_memory e →
  ∃ item, elastic_bloom_filter_encode (Some e) = Ret (Some item) ∧
    elastic_bloom_filter_decode (Some item) = Ret (Some (ebf_received e)).
Proof. intros Hwf Hm. exists (ebf_item e). split; [apply ebf_encode_ok|by apply ebf_decode_item]. Qed.

(** ** Decoding untrusted input *)

Lemma insert_fps_u32 k elems b b' :
  Forall is_u32 b → insert_fps k elems b = Ret b' → Forall is_u32 b'.
Proof.
  revert b. induction k as [|k IH]; intros b Hb H; cbn [insert_fps] in H; [by injection H as <-|].
  exec_inv H. eapply IH; [|exact H]. constructor; [apply u32_range|done].
Qed.

Lemma decode_bucket_inv count bs it bs' :
  decode_bucket count bs it = Ret (Some bs') → Forall (Forall is_u32) bs →
  zlen bs' = zlen bs ∧ Forall (Forall is_u32) bs'.
Proof.
  unfold decode_bucket. intros H Hbs. exec_inv H. subst bs'. split; [apply zlen_insert|].
  apply Forall_insert; [done|]. eapply insert_fps_u32; [|done]. by apply bucket_at_fps.
Qed.

Lemma decode_buckets_inv count bs its bs' :
  decode_buckets count bs its = Ret (Some bs') → Forall (Forall is_u32) bs →
  zlen bs' = zlen bs ∧ Forall (Forall is_u32) bs'.
Proof.
  revert bs. induction its as [|it its IH]; intros bs H Hbs; simpl in H; [by injection H as <-|].
  exec_inv H.
  destruct (decode_bucket_inv _ _ _ _ E Hbs) as [Hl Hb1]. destruct (IH _ H Hb1) as [Hl2 ?].
  split; [congruence|done].
Qed.

(** C13. Whatever CBOR item arrives, a filter that the decoder accepts
    satisfies the representation invariant, provided the announced size is not
    zero and the announced fingerprint width is below 64; the decoder checks
    neither. *)
Theorem ebf_decode_establishes_wf item e :
  cbor_ok item → elastic_bloom_filter_decode (Some item) = Ret (Some e) →
  0 < ebf_size e → ebf_fp_bits e < 64 → ebf_wf e.
Proof.
  intros Hok H Hs Hf. simpl in H. unfold elastic_bloom_filter_decode_nn in H. exec_inv H.
  match goal with D : decode_buckets _ _ _ = _ |- _ =>
    apply decode_buckets_inv in D as [Hl Hb]; [|apply Forall_replicate; constructor] end.
  subst e.
  simpl in Hl, Hs, Hf. unfold zlen at 2 in Hl. rewrite length_replicate in Hl.
  apply rebuild_bitset_wf; simpl; [done|done|lia|done|apply u32_range|].
  split; [|done]. apply u32_range.
Qed.

(** The two missing checks are real: a well-formed CBOR array announcing
    size 0 is accepted, and the first membership query on the result divides by
    zero; an array whose size field is a one-byte integer violates libcbor's
    width precondition. *)
Theorem ebf_decode_unchecked (XXH3 : list Z → Z → Z) :
  (∃ item e, cbor_ok item ∧ elastic_bloom_filter_decode (Some item) = Ret (Some e) ∧
     ebf_size e = 0 ∧ ∀ x, elastic_bloom_filter_contains XXH3 (Some e) (Some x) = Trap) ∧
  (∃ item, cbor_ok item ∧ elastic_bloom_filter_decode (Some item) = Trap).
Proof.
  pose (hdr := [CUint CBOR_INT_32 1; CUint CBOR_INT_32 8; CUint CBOR_INT_64 1; CUint CBOR_INT_64 2;
                CUint CBOR_INT_64 0; CBytes []; CUint CBOR_INT_64 0]). split.
  - exists (CArray true 8 (CUint CBOR_INT_64 0 :: hdr)). eexists. split; [|split; [reflexivity|split]].
    + apply cbor_ok_array. split; [done|]. repeat constructor; vm_compute; done.
    + done.
    + done.
  - exists (CArray true 8 (CUint CBOR_INT_8 0 :: hdr)). split; [|done].
    apply cbor_ok_array. split; [done|]. repeat constructor; vm_compute; done.
Qed.

(** ** Attenuated filter *)

Definition abf_in_memory (a : attenuated_bloom_filter_t) : Prop := Forall ebf_in_memory (abf_levels a).

Lemma encode_levels_ok n es ls :
  zlen es + zlen ls <= n →
  encode_levels (CArray true n es) ls = Ret (Some (CArray true n (es ++ map ebf_item ls))).
Proof.
  revert es. induction ls as [|e ls IH]; intros es H; simpl; [by rewrite app_nil_r|].
  rewrite ebf_encode_ok. simpl. unfold zlen in H. simpl in H.
  destruct (Z.leb_spec n (zlen es)) as [Hle|]; [unfold zlen in Hle; lia|].
  rewrite IH by (rewrite zlen_app; unfold zlen; simpl; lia). by rewrite <- (assoc_L (++)).
Qed.

Lemma decode_levels_ok ls :
  Forall ebf_wf ls → Forall ebf_in_memory ls →
  decode_levels (map ebf_item ls) = Ret (Some (map ebf_received ls)).
Proof.
  induction ls as [|e ls IH]; intros Hw Hm; [done|].
  apply Forall_cons_1 in Hw as [Hwe Hw]. apply Forall_cons_1 in Hm as [Hme Hm].
  cbn [map decode_levels]. rewrite (ebf_decode_item e Hwe Hme), bind_Ret_l, (IH Hw Hm). done.
Qed.

Lemma abf_codec_lemma a :
  abf_wf a → abf_in_memory a →
  ∃ levels, encode_levels (CArray true (abf_level_count a) []) (abf_levels a) = Ret (Some levels) ∧
    attenuated_bloom_filter_decode_nn (CArray true 2 [cbor_build_uint32 (abf_level_count a); levels]) =
    Ret (Some (abf_received a)).
Proof.
  intros Hwf Hm. pose proof (abf_wf_len a Hwf) as Hl. pose proof (abf_wf_u32 a Hwf) as Hu.
  eexists. split; [apply encode_levels_ok; rewrite Hl; unfold zlen; simpl; lia|].
  unfold attenuated_bloom_filter_decode_nn. simpl. rewrite !u32_id by (try apply u32_range; done).
  unfold zlen in *. rewrite length_map, Hl, Z.eqb_refl. simpl.
  rewrite decode_levels_ok by (done || apply Hwf). done.
Qed.

(** The attenuated filter survives the wire level by level, in order: a
    neighbour that decodes what was gossiped answers every query, distance
    included, as the sender does. *)
Theorem abf_codec_roundtrip XXH3 a :
  abf_wf a → abf_in_memory a →
  ∃ item, attenuated_bloom_filter_encode (Some a) = Ret (Some item) ∧
    attenuated_bloom_filter_decode (Some item) = Ret (Some (abf_received a)) ∧
    ∀ x, attenuated_bloom_filter_check XXH3 (Some (abf_received a)) (Some x) =
         attenuated_bloom_filter_check XXH3 (Some a) (Some x).
Proof.
  intros Hwf Hm. destruct (abf_codec_lemma a Hwf Hm) as (levels & El & Ed). eexists. split_and!.
  - simpl. unfold attenuated_bloom_filter_encode_nn, cbor_new_definite_array. rewrite El, bind_Ret_l.
    by apply push_all_definite.
  - exact Ed.
  - intros x. simpl. unfold attenuated_bloom_filter_check_nn. simpl.
    generalize (Z.to_nat (abf_level_count a)) 0. intros n. induction n as [|n IH]; intros lv; [done|].
    simpl. unfold level_at. rewrite list_lookup_fmap. destruct (abf_levels a !! Z.to_nat lv) as [e|]; [|done].
    simpl. change (elastic_bloom_filter_contains_nn XXH3 (ebf_received e) x)
      with (elastic_bloom_filter_contains_nn XXH3 e x).
    destruct (elastic_bloom_filter_contains_nn XXH3 e x) as [[|]|]; simpl; [done|apply IH|done].
Qed.

(** ** Concrete instances *)

Lemma ebf_in_memory_demo : ebf_in_memory demo_ebf1.
Proof.
  split; [by vm_compute| |by vm_compute|by vm_compute].
  repeat (constructor; [by vm_compute|]). constructor.
Qed.

Lemma ebf_codec_roundtrip_witness :
  ∃ item, elastic_bloom_filter_encode (Some demo_ebf1) = Ret (Some item) ∧
    elastic_bloom_filter_decode (Some item) = Ret (Some (ebf_received demo_ebf1)).
Proof. apply (ebf_codec_roundtrip demo_ebf1); [apply demo_ebf1_wf|apply ebf_in_memory_demo]. Defined.

Lemma ebf_decode_establishes_wf_witness : ebf_wf (ebf_received demo_ebf1).
Proof.
  apply (ebf_decode_establishes_wf (ebf_item demo_ebf1)); [|vm_compute; reflexivity|by vm_compute|by vm_compute].
  vm_compute. repeat split; try discriminate; repeat constructor; discriminate.
Defined.

Lemma abf_codec_roundtrip_witness :
  ∃ item, attenuated_bloom_filter_encode (Some demo_abf) = Ret (Some item) ∧
    attenuated_bloom_filter_decode (Some item) = Ret (Some (abf_received demo_abf)).
Proof.
  destruct (abf_codec_roundtrip sum_hash demo_abf demo_abf_wf) as (item & E1 & E2 & _).
  - repeat (constructor; [split; [by vm_compute| |by vm_compute|by vm_compute];
      repeat (constructor; [by vm_compute|]); constructor|]). constructor.
  - by exists item.
Defined.
