(* ===== verification/CString.v ===== *)
(** * CString: C strings and character arrays

    A [const char*] argument is the list of its bytes before the terminating
    NUL; a [char buf[N]] field is the list of its [N] bytes.  [c_str] reads the
    string held by an array, [strncpy] and [memcpy] write into one the way the
    C library does, so that truncation and stale bytes are part of the model. *)

From Stdlib Require Ascii String.
Export String.StringSyntax.
From S2P Require Import Prelude.

(** The bytes of a string literal. *)
Definition lit (s : String.string) : list Z :=
  map (fun a => Z.of_N (Ascii.N_of_ascii a)) (String.list_ascii_of_string s).
Arguments lit s%_string_scope.

(** A C string: octets, none of them NUL. *)
Definition cstr_ok (s : list Z) : Prop := Forall (fun b => 0 < b < 256) s.

(** The string an array holds: the bytes before its first NUL. *)
Fixpoint c_str (buf : list Z) : list Z :=
  match buf with
  | [] => []
  | b :: buf' => if b =? 0 then [] else b :: c_str buf'
  end.

(** [strncpy(dst, src, n)]: at most [n] bytes of [src], padded with NULs up to
    [n]; the bytes of [dst] from [n] on stay. *)
Definition strncpy (dst src : list Z) (n : nat) : list Z :=
  take n (src ++ replicate n 0) ++ drop n dst.

(** [memcpy(dst, src, len)] of the whole of [src]. *)
Definition memcpy (dst src : list Z) : list Z := src ++ drop (length src) dst.

(** [strcmp(a, b) == 0]. *)
Definition str_eq (a b : list Z) : bool := bool_decide (a = b).

(** A zeroed array of [n] bytes. *)
Definition zeros (n : nat) : list Z := replicate n 0.

(** Passing an array as a C string: without a NUL in it the callee runs past
    its end. *)
Definition str_of (buf : list Z) : exec (list Z) :=
  if existsb (fun b => b =? 0) buf then Ret (c_str buf) else Trap.

(** The first [len] bytes of an array. *)
Definition bytes_of (buf : list Z) (len : Z) : exec (list Z) :=
  if zlen buf <? len then Trap else Ret (take (Z.to_nat len) buf).

(** An array of [n] bytes holding the string [s], zero filled. *)
Definition str_buf (n : nat) (s : list Z) : list Z := s ++ zeros (n - length s).

(** ** Lemmas *)

Lemma str_eq_true a b : str_eq a b = true ↔ a = b.
Proof. apply bool_decide_eq_true. Qed.

Lemma str_eq_false a b : str_eq a b = false ↔ a ≠ b.
Proof. apply bool_decide_eq_false. Qed.

Lemma str_eq_refl a : str_eq a a = true.
Proof. by apply str_eq_true. Qed.

Lemma cstr_bytes s : cstr_ok s → bytes_ok s.
Proof. intros H. eapply Forall_impl; [|exact H]. unfold is_u8. simpl. intros. lia. Qed.

Lemma c_str_ok buf : bytes_ok buf → cstr_ok (c_str buf).
Proof.
  induction buf as [|b buf IH]; intros H; simpl; [constructor|].
  apply Forall_cons_1 in H as [Hb H]. unfold is_u8 in Hb.
  destruct (Z.eqb_spec b 0); [constructor|]. constructor; [lia|by apply IH].
Qed.

(** A string followed by a NUL is read back. *)
Lemma c_str_app s rest : cstr_ok s → c_str (s ++ 0 :: rest) = s.
Proof.
  induction s as [|b s IH]; intros H; simpl; [done|]. apply Forall_cons_1 in H as [Hb H].
  destruct (Z.eqb_spec b 0); [lia|]. by rewrite IH.
Qed.

Lemma c_str_id s : cstr_ok s → c_str s = s.
Proof.
  induction s as [|b s IH]; intros H; simpl; [done|]. apply Forall_cons_1 in H as [Hb H].
  destruct (Z.eqb_spec b 0); [lia|]. by rewrite IH.
Qed.

Lemma c_str_length buf : (length (c_str buf) <= length buf)%nat.
Proof. induction buf as [|b buf IH]; simpl; [done|]. destruct (_ =? _); simpl; lia. Qed.

Lemma c_str_padded s n : cstr_ok s → c_str (s ++ zeros n) = s.
Proof. intros H. destruct n; [unfold zeros; simpl; by rewrite app_nil_r, c_str_id|by apply c_str_app]. Qed.

Lemma strncpy_length dst src n : (n <= length dst)%nat → length (strncpy dst src n) = length dst.
Proof.
  intros H. unfold strncpy. rewrite length_app, length_take, length_drop, length_app, length_replicate. lia.
Qed.

Lemma strncpy_fits dst src n :
  (length src <= n)%nat → strncpy dst src n = src ++ zeros (n - length src) ++ drop n dst.
Proof.
  intros H. unfold strncpy, zeros. rewrite take_app_ge by done.
  rewrite take_replicate, Nat.min_l by lia. by rewrite (assoc_L (++)).
Qed.

Lemma strncpy_truncates dst src n :
  (n <= length src)%nat → strncpy dst src n = take n src ++ drop n dst.
Proof. intros H. unfold strncpy. by rewrite take_app_le. Qed.

(** Copying into an array whose byte [n] is NUL keeps the string, cut at [n]:
    the arrays are one byte longer than the bound given to [strncpy]. *)
Lemma c_str_strncpy dst src n rest :
  cstr_ok src → drop n dst = 0 :: rest → c_str (strncpy dst src n) = take n src.
Proof.
  intros Hs Hd. destruct (decide (length src <= n)%nat) as [Hle|Hgt].
  - rewrite strncpy_fits, Hd, (take_ge src) by lia.
    destruct (n - length src)%nat eqn:E; unfold zeros; simpl; by rewrite c_str_app.
  - rewrite strncpy_truncates, Hd by lia. apply c_str_app. by apply Forall_take.
Qed.

Lemma zeros_drop n k : (k < n)%nat → drop k (zeros n) = 0 :: zeros (n - k - 1).
Proof.
  intros H. unfold zeros. rewrite drop_replicate. replace (n - k)%nat with (S (n - k - 1)) by lia.
  simpl. do 2 f_equal. lia.
Qed.

(** The common use: a zeroed array of [S n] bytes. *)
Lemma c_str_strncpy_zeros n src : cstr_ok src → c_str (strncpy (zeros (S n)) src n) = take n src.
Proof. intros H. eapply c_str_strncpy; [done|]. apply zeros_drop. lia. Qed.

#[export] Hint Resolve cstr_bytes c_str_ok : poseidon.

Lemma str_buf_length n s : (length s <= n)%nat → length (str_buf n s) = n.
Proof. intros H. unfold str_buf, zeros. rewrite length_app, length_replicate. lia. Qed.

Lemma c_str_buf n s : cstr_ok s → c_str (str_buf n s) = s.
Proof. apply c_str_padded. Qed.

Lemma str_of_buf n s : cstr_ok s → (length s < n)%nat → str_of (str_buf n s) = Ret s.
Proof.
  intros Hs Hl. unfold str_of. rewrite c_str_buf by done.
  assert (existsb (fun b => b =? 0) (str_buf n s) = true) as ->; [|done].
  unfold str_buf. rewrite existsb_app. apply orb_true_iff. right.
  destruct (n - length s)%nat eqn:E; [lia|done].
Qed.

(** Writing a string into a zeroed array. *)
Lemma memcpy_zeros n s : memcpy (zeros n) s = str_buf n s.
Proof. unfold memcpy, str_buf, zeros. by rewrite drop_replicate. Qed.

Lemma strncpy_zeros n s : (length s < n)%nat → strncpy (zeros n) s (n - 1) = str_buf n s.
Proof.
  intros H. rewrite strncpy_fits by lia. unfold str_buf, zeros. f_equal.
  rewrite drop_replicate, <- replicate_add. f_equal. lia.
Qed.

Lemma bytes_of_buf n s : bytes_of (str_buf n s) (zlen s) = Ret s.
Proof.
  unfold bytes_of, str_buf. rewrite zlen_app. rewrite (proj2 (Z.ltb_ge _ _)).
  - unfold zlen. by rewrite Nat2Z.id, take_app_length.
  - pose proof (zlen_nonneg (zeros (n - length s))). lia.
Qed.
