(* ===== verification/Endian.v ===== *)
(** * Endian: integers in memory and on the wire

    [memcpy] of an integer writes its bytes in host order (the targets are
    little-endian); [htonl]/[ntohl] swap the bytes of a 32-bit integer.  The
    checked reads [read_bytes] and [read_u32_at] are the accesses of the
    parsers: outside the buffer they are undefined ([Trap]). *)

From S2P Require Import Prelude.

(** The [n] bytes of [x], least significant first. *)
Fixpoint le_bytes (n : nat) (x : Z) : list Z :=
  match n with
  | O => []
  | S n' => u8 x :: le_bytes n' (x / 256)
  end.

Fixpoint le_decode (l : list Z) : Z :=
  match l with
  | [] => 0
  | b :: l' => b + 256 * le_decode l'
  end.

(** Most significant byte first. *)
Definition be_bytes (n : nat) (x : Z) : list Z := rev (le_bytes n x).
Definition be_decode (l : list Z) : Z := le_decode (rev l).

(** The byte swap of a 32-bit integer on a little-endian host. *)
Definition htonl (x : Z) : Z := le_decode (be_bytes 4 x).
Definition ntohl (x : Z) : Z := htonl x.

(** [len] bytes at [off], and a 32-bit integer in host order at [off]. *)
Definition read_bytes (data : list Z) (off len : Z) : exec (list Z) :=
  if (0 <=? off) && (0 <=? len) && (off + len <=? zlen data)
  then Ret (take (Z.to_nat len) (drop (Z.to_nat off) data)) else Trap.

Definition read_u32_at (data : list Z) (off : Z) : exec Z :=
  b <- read_bytes data off 4 ;; Ret (le_decode b).

(** ** Lemmas *)

Lemma le_bytes_length n x : length (le_bytes n x) = n.
Proof. revert x. induction n as [|n IH]; intros x; simpl; [done|]. by rewrite IH. Qed.

Lemma le_bytes_ok n x : bytes_ok (le_bytes n x).
Proof.
  revert x. induction n as [|n IH]; intros x; simpl; [constructor|].
  constructor; [apply u8_range|apply IH].
Qed.

Lemma le_decode_bytes n x : le_decode (le_bytes n x) = x mod 256 ^ Z.of_nat n.
Proof.
  revert x. induction n as [|n IH]; intros x; [by rewrite Z.mod_1_r|].
  cbn [le_bytes le_decode]. rewrite IH. unfold u8. change (2 ^ 8) with 256.
  rewrite Nat2Z.inj_succ, Z.pow_succ_r by lia.
  rewrite (Z.rem_mul_r x 256 (256 ^ Z.of_nat n)) by (try apply Z.pow_nonzero; lia). done.
Qed.

Lemma le_decode_range l : bytes_ok l → 0 <= le_decode l < 256 ^ zlen l.
Proof.
  induction l as [|b l IH]; intros H; [by vm_compute|].
  apply Forall_cons_1 in H as [Hb H]. specialize (IH H). unfold is_u8 in Hb.
  unfold zlen in *. simpl length. rewrite Nat2Z.inj_succ, Z.pow_succ_r by lia. simpl. lia.
Qed.

Lemma le_bytes_decode l : bytes_ok l → le_bytes (length l) (le_decode l) = l.
Proof.
  induction l as [|b l IH]; intros H; [done|]. apply Forall_cons_1 in H as [Hb H].
  cbn [length le_bytes le_decode]. unfold is_u8 in Hb. f_equal.
  - unfold u8. change (2 ^ 8) with 256. rewrite Z.mul_comm, Z.mod_add by lia. by apply Z.mod_small.
  - rewrite (Z.mul_comm 256), Z.div_add by lia. rewrite Z.div_small by lia. by apply IH.
Qed.

Lemma le_bytes_inj n x y :
  0 <= x < 256 ^ Z.of_nat n → 0 <= y < 256 ^ Z.of_nat n → le_bytes n x = le_bytes n y → x = y.
Proof.
  intros Hx Hy H. apply (f_equal le_decode) in H. rewrite !le_decode_bytes in H.
  by rewrite !Z.mod_small in H.
Qed.

Lemma be_bytes_length n x : length (be_bytes n x) = n.
Proof. unfold be_bytes. by rewrite length_rev, le_bytes_length. Qed.

Lemma bytes_ok_rev l : bytes_ok l → bytes_ok (rev l).
Proof. intros H. apply Forall_rev. exact H. Qed.

Lemma be_bytes_ok n x : bytes_ok (be_bytes n x).
Proof. apply bytes_ok_rev, le_bytes_ok. Qed.

(** What [memcpy] writes of a swapped integer is its big-endian form, and
    reading it back in host order and swapping gives the integer. *)
Lemma memcpy_htonl x : le_bytes 4 (htonl x) = be_bytes 4 x.
Proof.
  unfold htonl. pose proof (le_bytes_decode (be_bytes 4 x) (be_bytes_ok 4 x)) as H.
  by rewrite be_bytes_length in H.
Qed.

Lemma ntohl_be l : length l = 4%nat → bytes_ok l → ntohl (le_decode l) = be_decode l.
Proof.
  intros Hl Hok. unfold ntohl, htonl, be_bytes, be_decode. rewrite <- Hl. by rewrite le_bytes_decode.
Qed.

Lemma be_decode_range l : bytes_ok l → 0 <= be_decode l < 256 ^ zlen l.
Proof.
  intros H. unfold be_decode. replace (zlen l) with (zlen (rev l)) by (unfold zlen; by rewrite length_rev).
  apply le_decode_range, List.Forall_rev, H.
Qed.

Lemma be_decode_bytes n x : be_decode (be_bytes n x) = x mod 256 ^ Z.of_nat n.
Proof. unfold be_decode, be_bytes. by rewrite rev_involutive, le_decode_bytes. Qed.

Lemma be32_roundtrip x : is_u32 x → ntohl (le_decode (be_bytes 4 x)) = x.
Proof.
  intros Hx. rewrite ntohl_be by (apply be_bytes_length || apply be_bytes_ok).
  rewrite be_decode_bytes. by apply Z.mod_small.
Qed.

Lemma htonl_range x : is_u32 (htonl x).
Proof.
  unfold htonl. pose proof (le_decode_range (be_bytes 4 x) (be_bytes_ok 4 x)) as H.
  unfold zlen in H. by rewrite be_bytes_length in H.
Qed.

(** A read that stays inside the buffer returns. *)
Lemma read_bytes_ret data off len :
  0 <= off → 0 <= len → off + len <= zlen data →
  read_bytes data off len = Ret (take (Z.to_nat len) (drop (Z.to_nat off) data)).
Proof.
  intros H1 H2 H3. unfold read_bytes.
  destruct (Z.leb_spec 0 off), (Z.leb_spec 0 len), (Z.leb_spec (off + len) (zlen data)); simpl; done || lia.
Qed.

(** Reading back a field of a concatenation. *)
Lemma read_bytes_at pre x suf off len :
  zlen pre = off → zlen x = len → read_bytes (pre ++ x ++ suf) off len = Ret x.
Proof.
  intros <- <-. pose proof (zlen_nonneg pre). pose proof (zlen_nonneg x). pose proof (zlen_nonneg suf).
  rewrite read_bytes_ret by (rewrite ?zlen_app; lia).
  unfold zlen. rewrite !Nat2Z.id, drop_app_length, take_app_length. done.
Qed.

Lemma read_bytes_len data off len b : read_bytes data off len = Ret b → zlen b = len.
Proof.
  unfold read_bytes. destruct (Z.leb_spec 0 off), (Z.leb_spec 0 len), (Z.leb_spec (off + len) (zlen data));
    simpl; try done. intros [= <-]. unfold zlen in *. rewrite length_take, length_drop. lia.
Qed.

Lemma read_bytes_ok data off len b : bytes_ok data → read_bytes data off len = Ret b → bytes_ok b.
Proof.
  unfold read_bytes. intros H. destruct (_ && _); [|done]. intros [= <-].
  by apply Forall_take, Forall_drop.
Qed.
