(* ===== verification/Base58.v ===== *)
(** * Base58: the textual form of node identities

    [src/Util/base58.c].  A big integer is the list of the [len] bytes of its
    buffer, least significant first; the buffers have [BIGINT_SIZE] bytes and a
    write past them is undefined.  The carry of a limb is a 32-bit integer. *)

From S2P Require Import Prelude CString Endian.

Definition BASE58_ALPHABET : list Z :=
  lit "123456789ABCDEFGHJKLMNPQRSTUVWXYZabcdefghijkmnopqrstuvwxyz".

Definition BASE58_MAP : list Z :=
  replicate 48 (-1) ++
  [-1; 0; 1; 2; 3; 4; 5; 6; 7; 8; -1; -1; -1; -1; -1; -1;
   -1; 9; 10; 11; 12; 13; 14; 15; 16; -1; 17; 18; 19; 20; 21; -1;
   22; 23; 24; 25; 26; 27; 28; 29; 30; 31; 32; -1; -1; -1; -1; -1;
   -1; 33; 34; 35; 36; 37; 38; 39; 40; 41; 42; 43; -1; 44; 45; 46;
   47; 48; 49; 50; 51; 52; 53; 54; 55; 56; 57; -1; -1; -1; -1; -1] ++
  replicate 128 (-1).

Definition BIGINT_SIZE : Z := 200.

(** ** Big integers *)

(** [while (carry > 0) { result[len++] = carry & 0xFF; carry >>= 8; }]; a
    32-bit carry is used up in four rounds. *)
Fixpoint bigint_carry (fuel : nat) (l : list Z) (carry : Z) : exec (list Z) :=
  if carry <=? 0 then Ret l
  else match fuel with
  | O => Trap
  | S f =>
      if BIGINT_SIZE <=? zlen l then Trap
      else bigint_carry f (l ++ [Z.land carry 0xFF]) (Z.shiftr carry 8)
  end.

Fixpoint mul_limbs (l : list Z) (factor carry : Z) : list Z * Z :=
  match l with
  | [] => ([], carry)
  | x :: l' =>
      let val := u32 (x * factor + carry) in
      let '(r, c) := mul_limbs l' factor (Z.shiftr val 8) in
      (Z.land val 0xFF :: r, c)
  end.

Definition bigint_multiply (l : list Z) (factor : Z) : exec (list Z) :=
  let '(r, c) := mul_limbs l factor 0 in bigint_carry 4 r c.

Fixpoint add_limbs (l : list Z) (carry : Z) : list Z * Z :=
  match l with
  | [] => ([], carry)
  | x :: l' =>
      if carry <=? 0 then (l, carry)
      else
        let val := u32 (x + carry) in
        let '(r, c) := add_limbs l' (Z.shiftr val 8) in
        (Z.land val 0xFF :: r, c)
  end.

Definition bigint_add (l : list Z) (value : Z) : exec (list Z) :=
  let '(r, c) := add_limbs l value in bigint_carry 4 r c.

(** The division runs from the most significant limb down. *)
Fixpoint div_limbs (l : list Z) (divisor : Z) : list Z * Z :=
  match l with
  | [] => ([], 0)
  | x :: l' =>
      let '(q, remainder) := div_limbs l' divisor in
      let val := u32 (Z.lor (Z.shiftl remainder 8) x) in
      (u8 (val / divisor) :: q, val mod divisor)
  end.

(** [while (len > 0 && result[len - 1] == 0) len--]. *)
Fixpoint trim (l : list Z) : list Z :=
  match l with
  | [] => []
  | x :: l' => match trim l' with [] => if x =? 0 then [] else [x] | t => x :: t end
  end.

Definition bigint_divmod (l : list Z) (divisor : Z) : list Z * Z :=
  let '(q, remainder) := div_limbs l divisor in (trim q, u8 remainder).

(** [while (bigint_len > 0) digits[digits_len++] = bigint_divmod(...)], into a
    buffer of [BIGINT_SIZE] bytes. *)
Fixpoint bigint_digits (room : nat) (l : list Z) (divisor : Z) : exec (list Z) :=
  match l with
  | [] => Ret []
  | _ =>
      match room with
      | O => Trap
      | S room' =>
          let '(l', d) := bigint_divmod l divisor in
          ds <- bigint_digits room' l' divisor ;; Ret (d :: ds)
      end
  end.

(** ** The codec *)

Definition base58_encoded_length (input_len : Z) : Z := u64 (u64 (input_len * 138) / 100 + 1).
Definition base58_decoded_length (str_len : Z) : Z := u64 (u64 (str_len * 733) / 1000 + 1).

(** The number of leading elements equal to [x]. *)
Fixpoint count_leading (x : Z) (l : list Z) : nat :=
  match l with
  | [] => O
  | y :: l' => if y =? x then S (count_leading x l') else O
  end.

Fixpoint encode_bigint (input l : list Z) : exec (list Z) :=
  match input with
  | [] => Ret l
  | b :: input' => l1 <- bigint_multiply l 256 ;; l2 <- bigint_add l1 b ;; encode_bigint input' l2
  end.

Definition base58_char (d : Z) : exec Z :=
  match BASE58_ALPHABET !! Z.to_nat d with Some c => Ret c | None => Trap end.

Fixpoint base58_chars (ds : list Z) : exec (list Z) :=
  match ds with
  | [] => Ret []
  | d :: ds' => c <- base58_char d ;; cs <- base58_chars ds' ;; Ret (c :: cs)
  end.

(** The characters written to [output], [None] for -1; no pointer is NULL. *)
Definition base58_encode (input : list Z) (output_size : Z) : exec (option (list Z)) :=
  if zlen input =? 0 then Ret (if output_size <? 1 then None else Some [])
  else if BIGINT_SIZE / 2 <? zlen input then Ret None
  else
    let leading_zeros := count_leading 0 input in
    bigint <- encode_bigint input [] ;;
    digits <- bigint_digits (Z.to_nat BIGINT_SIZE) bigint 58 ;;
    if output_size <? Z.of_nat leading_zeros + zlen digits then Ret None
    else
      cs <- base58_chars (rev digits) ;;
      Ret (Some (replicate leading_zeros 49 ++ cs)).

(** [None] at the first character outside the alphabet. *)
Fixpoint decode_bigint (input l : list Z) : exec (option (list Z)) :=
  match input with
  | [] => Ret (Some l)
  | c :: input' =>
      let val := default (-1) (BASE58_MAP !! Z.to_nat c) in
      if val <? 0 then Ret None
      else
        l1 <- bigint_multiply l 58 ;;
        l2 <- bigint_add l1 val ;;
        decode_bigint input' l2
  end.

(** The bytes written to [output]; [*bytes_written] is their number. *)
Definition base58_decode (input : list Z) (output_size : Z) : exec (option (list Z)) :=
  if zlen input =? 0 then Ret (Some [])
  else if BIGINT_SIZE <? zlen input then Ret None
  else
    let leading_ones := count_leading 49 input in
    r <- decode_bigint (drop leading_ones input) [] ;;
    match r with
    | None => Ret None
    | Some bigint =>
        bytes <- bigint_digits (Z.to_nat BIGINT_SIZE) bigint 256 ;;
        if output_size <? Z.of_nat leading_ones + zlen bytes then Ret None
        else Ret (Some (replicate leading_ones 0 ++ rev bytes))
    end.

(** ** Positional notation *)

(** The value of a list of digits, least significant first. *)
Fixpoint zeval (b : Z) (l : list Z) : Z :=
  match l with [] => 0 | d :: l' => d + b * zeval b l' end.

(** Digits below the base, and no superfluous most significant zero. *)
Definition digits_ok (b : Z) (l : list Z) : Prop := Forall (fun d => 0 <= d < b) l.
Definition normal (b : Z) (l : list Z) : Prop := l = [] ∨ b ^ (zlen l - 1) <= zeval b l.

Lemma zeval_256 l : zeval 256 l = le_decode l.
Proof. induction l as [|d l IH]; simpl; [done|]. by rewrite IH. Qed.

Lemma zeval_app b l k : 0 < b → zeval b (l ++ k) = zeval b l + b ^ zlen l * zeval b k.
Proof.
  intros Hb. induction l as [|d l IH]; simpl.
  - change (zlen (@nil Z)) with 0. rewrite Z.pow_0_r. lia.
  - rewrite IH. unfold zlen. simpl length. rewrite Nat2Z.inj_succ, Z.pow_succ_r by lia. unfold zlen. lia.
Qed.

Lemma zeval_range b l : 0 < b → digits_ok b l → 0 <= zeval b l < b ^ zlen l.
Proof.
  intros Hb. induction l as [|d l IH]; intros H; simpl.
  - change (zlen (@nil Z)) with 0. rewrite Z.pow_0_r. lia.
  - apply Forall_cons_1 in H as [Hd H]. specialize (IH H). unfold zlen in *. simpl length.
    rewrite Nat2Z.inj_succ, Z.pow_succ_r by lia. nia.
Qed.

Lemma normal_pos b l : 1 < b → normal b l → l ≠ [] → 0 < zeval b l.
Proof.
  intros Hb [->|H] Hne; [done|]. enough (0 < b ^ (zlen l - 1)) by lia.
  apply Z.pow_pos_nonneg; [lia|]. destruct l; [done|]. unfold zlen. simpl length. lia.
Qed.

(** Normal digits of the same value have the same number of digits, and are
    the same digits. *)
Lemma normal_length b l k :
  1 < b → digits_ok b l → digits_ok b k → normal b l → normal b k → zeval b l = zeval b k →
  zlen l <= zlen k.
Proof.
  intros Hb Hl Hk Nl Nk E. destruct Nl as [->|Nl]; [apply zlen_nonneg|].
  pose proof (zeval_range b k ltac:(lia) Hk) as Hr.
  destruct (decide (zlen l <= zlen k)); [done|]. exfalso.
  assert (b ^ zlen k <= b ^ (zlen l - 1)) by (apply Z.pow_le_mono_r; lia). lia.
Qed.

Lemma zeval_inj b l k :
  0 < b → digits_ok b l → digits_ok b k → length l = length k → zeval b l = zeval b k → l = k.
Proof.
  intros Hb. revert k. induction l as [|d l IH]; intros [|e k] Hl Hk Hlen E; try done.
  apply Forall_cons_1 in Hl as [Hd Hl]. apply Forall_cons_1 in Hk as [He Hk]. simpl in E.
  assert (d = e) as ->.
  { apply (f_equal (fun x => x mod b)) in E. rewrite !(Z.mul_comm b), !Z.mod_add in E by lia.
    by rewrite !Z.mod_small in E. }
  f_equal. apply IH; [done|done|by injection Hlen|nia].
Qed.

Lemma normal_unique b l k :
  1 < b → digits_ok b l → digits_ok b k → normal b l → normal b k → zeval b l = zeval b k → l = k.
Proof.
  intros Hb Hl Hk Nl Nk E. apply (zeval_inj b); [lia|done|done| |done].
  pose proof (normal_length b l k Hb Hl Hk Nl Nk E).
  pose proof (normal_length b k l Hb Hk Hl Nk Nl (eq_sym E)). unfold zlen in *. lia.
Qed.

(** ** The big-integer routines compute *)

Lemma land_ff x : Z.land x 0xFF = x mod 256.
Proof. change 0xFF with (Z.ones 8). by rewrite Z.land_ones. Qed.

Lemma shiftr_8 x : Z.shiftr x 8 = x / 256.
Proof. by rewrite Z.shiftr_div_pow2. Qed.

Lemma normal_snoc b l k :
  1 < b → digits_ok b l → k ≠ [] → normal b k → normal b (l ++ k).
Proof.
  intros Hb Hl Hk [->|N]; [done|]. right. rewrite zlen_app, zeval_app by lia.
  pose proof (zeval_range b l ltac:(lia) Hl). pose proof (zlen_nonneg l).
  assert (0 <= zlen k - 1) by (destruct k; [done|unfold zlen; simpl length; lia]).
  replace (zlen l + zlen k - 1) with (zlen l + (zlen k - 1)) by lia.
  rewrite Z.pow_add_r by lia.
  assert (0 < b ^ zlen l) by (apply Z.pow_pos_nonneg; lia). nia.
Qed.

(** The bytes of the carry are appended: as many as it needs. *)
Lemma bigint_carry_spec fuel l carry :
  0 <= carry < 256 ^ Z.of_nat fuel → zlen l + Z.of_nat fuel <= BIGINT_SIZE →
  ∃ k, bigint_carry fuel l carry = Ret (l ++ k) ∧ digits_ok 256 k ∧ normal 256 k ∧
    zeval 256 k = carry ∧ zlen k <= Z.of_nat fuel.
Proof.
  revert l carry. induction fuel as [|f IH]; intros l carry Hc Hroom.
  - simpl in Hc. exists []. unfold bigint_carry. rewrite (proj2 (Z.leb_le carry 0)) by lia.
    rewrite app_nil_r. split_and!; [done|constructor|by left|simpl; lia|done].
  - cbn [bigint_carry]. destruct (Z.leb_spec carry 0).
    + exists []. rewrite app_nil_r. split_and!; [done|constructor|by left|simpl; lia|unfold zlen; simpl; lia].
    + rewrite Nat2Z.inj_succ, Z.pow_succ_r in Hc by lia. rewrite Nat2Z.inj_succ in Hroom.
      rewrite (proj2 (Z.leb_gt _ _)) by lia. rewrite land_ff, shiftr_8.
      destruct (IH (l ++ [carry mod 256]) (carry / 256)) as (k & E & Hk & Nk & Vk & Lk).
      { split; [apply Z.div_pos; lia|]. apply Z.div_lt_upper_bound; lia. }
      { rewrite zlen_app. change (zlen [carry mod 256]) with 1. lia. }
      exists (carry mod 256 :: k). rewrite E, <- (assoc_L (++)). split_and!; [done| | | |].
      * constructor; [apply Z.mod_pos_bound; lia|done].
      * change (carry mod 256 :: k) with ([carry mod 256] ++ k). destruct k as [|y k].
        -- right. cbn [app zeval] in *. change (zlen [carry mod 256]) with 1. simpl (256 ^ (1 - 1)).
           pose proof (Z.div_mod carry 256 ltac:(lia)). lia.
        -- apply normal_snoc; [lia| |done|done]. constructor; [apply Z.mod_pos_bound; lia|constructor].
      * cbn [zeval]. rewrite Vk. pose proof (Z.div_mod carry 256 ltac:(lia)). lia.
      * unfold zlen in *. simpl length. lia.
Qed.

Lemma mul_limbs_spec l factor carry :
  digits_ok 256 l → 0 < factor <= 256 → 0 <= carry < factor →
  let '(r, c) := mul_limbs l factor carry in
  digits_ok 256 r ∧ length r = length l ∧ 0 <= c < factor ∧
  zeval 256 r + 256 ^ zlen l * c = zeval 256 l * factor + carry.
Proof.
  intros Hl Hf. revert carry. induction l as [|x l IH]; intros carry Hc; cbn [mul_limbs].
  - split_and!; [constructor|done|lia|lia|]. change (zlen (@nil Z)) with 0. simpl. lia.
  - apply Forall_cons_1 in Hl as [Hx Hl]. rewrite u32_id by (unfold is_u32; nia).
    rewrite land_ff, shiftr_8.
    set (val := x * factor + carry) in *. assert (Hv : 0 <= val < 256 * factor) by (unfold val; nia).
    specialize (IH Hl (val / 256)). destruct (mul_limbs l factor (val / 256)) as [r c].
    destruct IH as (Hr & Hlen & Hcc & E).
    { split; [apply Z.div_pos; lia|apply Z.div_lt_upper_bound; lia]. }
    pose proof (Z.div_mod val 256 ltac:(lia)) as Hdm.
    split_and!; [constructor; [apply Z.mod_pos_bound; lia|done]|simpl; lia|lia|lia|].
    unfold zlen in *. cbn [length zeval]. rewrite Nat2Z.inj_succ, Z.pow_succ_r by lia.
    unfold val in *. nia.
Qed.

Lemma normal_mono l v : digits_ok 256 l → normal 256 l → zeval 256 l <= v →
  ∀ r, digits_ok 256 r → length r = length l → zeval 256 r = v → normal 256 r.
Proof.
  intros Hl N Hv r Hr Hlen E. destruct N as [->|N]; [left; by apply nil_length_inv|].
  right. unfold zlen in *. rewrite Hlen, E. lia.
Qed.

(** Appending the bytes of a carry to limbs that kept their length. *)
Lemma normal_carry l r k c v :
  digits_ok 256 l → normal 256 l → digits_ok 256 r → length r = length l →
  digits_ok 256 k → normal 256 k → zeval 256 k = c →
  zeval 256 r + 256 ^ zlen l * c = v → zeval 256 l <= v →
  digits_ok 256 (r ++ k) ∧ normal 256 (r ++ k) ∧ zeval 256 (r ++ k) = v.
Proof.
  intros Hl Nl Hr Hlen Hk Nk Ek E Hv.
  assert (Ev : zeval 256 (r ++ k) = v) by (rewrite zeval_app by lia; unfold zlen in *; rewrite Hlen, Ek; lia).
  split_and!; [by apply Forall_app|..|done].
  destruct k as [|y k]; [|by apply normal_snoc].
  rewrite app_nil_r in Ev |- *. exact (normal_mono l v Hl Nl Hv r Hr Hlen Ev).
Qed.

Lemma bigint_multiply_spec l factor :
  digits_ok 256 l → normal 256 l → 0 < factor <= 256 → zlen l + 4 <= BIGINT_SIZE →
  ∃ r, bigint_multiply l factor = Ret r ∧ digits_ok 256 r ∧ normal 256 r ∧
    zeval 256 r = zeval 256 l * factor ∧ zlen r <= zlen l + 4.
Proof.
  intros Hl Nl Hf Hroom. unfold bigint_multiply.
  pose proof (mul_limbs_spec l factor 0 Hl Hf ltac:(lia)) as H.
  destruct (mul_limbs l factor 0) as [r c]. destruct H as (Hr & Hlen & Hc & E).
  destruct (bigint_carry_spec 4 r c) as (k & -> & Hk & Nk & Vk & Lk).
  { change (256 ^ Z.of_nat 4) with 4294967296. lia. }
  { unfold zlen in *. rewrite Hlen. lia. }
  pose proof (zeval_range 256 l ltac:(lia) Hl).
  destruct (normal_carry l r k c (zeval 256 l * factor)) as (H1 & H2 & H3); try done; [nia..|].
  exists (r ++ k). split_and!; try done. rewrite zlen_app. unfold zlen in *. lia.
Qed.

Lemma add_limbs_spec l carry :
  digits_ok 256 l → 0 <= carry < 256 →
  let '(r, c) := add_limbs l carry in
  digits_ok 256 r ∧ length r = length l ∧ 0 <= c < 256 ∧
  zeval 256 r + 256 ^ zlen l * c = zeval 256 l + carry.
Proof.
  revert carry. induction l as [|x l IH]; intros carry Hl Hc; cbn [add_limbs].
  - split_and!; [constructor|done|lia|lia|]. change (zlen (@nil Z)) with 0. simpl. lia.
  - destruct (Z.leb_spec carry 0).
    { split_and!; [done|done|lia|lia|]. replace carry with 0 by lia. lia. }
    apply Forall_cons_1 in Hl as [Hx Hl]. rewrite u32_id by (unfold is_u32; lia).
    rewrite land_ff, shiftr_8. specialize (IH ((x + carry) / 256) Hl).
    destruct (add_limbs l ((x + carry) / 256)) as [r c]. destruct IH as (Hr & Hlen & Hcc & E).
    { split; [apply Z.div_pos; lia|apply Z.div_lt_upper_bound; lia]. }
    pose proof (Z.div_mod (x + carry) 256 ltac:(lia)) as Hdm.
    split_and!; [constructor; [apply Z.mod_pos_bound; lia|done]|simpl; lia|lia|lia|].
    unfold zlen in *. cbn [length zeval]. rewrite Nat2Z.inj_succ, Z.pow_succ_r by lia. nia.
Qed.

Lemma bigint_add_spec l value :
  digits_ok 256 l → normal 256 l → 0 <= value < 256 → zlen l + 4 <= BIGINT_SIZE →
  ∃ r, bigint_add l value = Ret r ∧ digits_ok 256 r ∧ normal 256 r ∧
    zeval 256 r = zeval 256 l + value ∧ zlen r <= zlen l + 4.
Proof.
  intros Hl Nl Hv Hroom. unfold bigint_add.
  pose proof (add_limbs_spec l value Hl Hv) as H.
  destruct (add_limbs l value) as [r c]. destruct H as (Hr & Hlen & Hc & E).
  destruct (bigint_carry_spec 4 r c) as (k & -> & Hk & Nk & Vk & Lk).
  { change (256 ^ Z.of_nat 4) with 4294967296. lia. }
  { unfold zlen in *. rewrite Hlen. lia. }
  destruct (normal_carry l r k c (zeval 256 l + value)) as (H1 & H2 & H3); try done; [lia|].
  exists (r ++ k). split_and!; try done. rewrite zlen_app. unfold zlen in *. lia.
Qed.

Lemma div_limbs_spec l divisor :
  digits_ok 256 l → 0 < divisor <= 256 →
  let '(q, r) := div_limbs l divisor in
  digits_ok 256 q ∧ length q = length l ∧ 0 <= r < divisor ∧
  zeval 256 q * divisor + r = zeval 256 l.
Proof.
  intros Hl Hd. induction l as [|x l IH]; cbn [div_limbs].
  - split_and!; [constructor|done|lia|lia|done].
  - apply Forall_cons_1 in Hl as [Hx Hl]. specialize (IH Hl).
    destruct (div_limbs l divisor) as [q r]. destruct IH as (Hq & Hlen & Hr & E).
    rewrite lor_shiftl_add by (change (2 ^ 8) with 256; lia). change (2 ^ 8) with 256.
    rewrite u32_id by (unfold is_u32; lia).
    pose proof (Z.div_mod (r * 256 + x) divisor ltac:(lia)) as Hdm.
    assert (0 <= (r * 256 + x) / divisor < 256)
      by (split; [apply Z.div_pos; lia|apply Z.div_lt_upper_bound; nia]).
    pose proof (Z.mod_pos_bound (r * 256 + x) divisor ltac:(lia)).
    rewrite u8_id by done.
    split_and!; [constructor; done|simpl; lia|lia|lia|]. cbn [zeval]. nia.
Qed.

Lemma trim_spec l :
  digits_ok 256 l → digits_ok 256 (trim l) ∧ normal 256 (trim l) ∧ zeval 256 (trim l) = zeval 256 l.
Proof.
  induction l as [|x l IH]; intros H; cbn [trim]; [split_and!; [constructor|by left|done]|].
  apply Forall_cons_1 in H as [Hx H]. destruct (IH H) as (H1 & H2 & H3).
  destruct (trim l) as [|y t].
  - simpl in H3. destruct (Z.eqb_spec x 0) as [->|Hne].
    + split_and!; [constructor|by left|simpl; lia].
    + split_and!; [constructor; [done|constructor]| |simpl; lia]. right. simpl. change (zlen [x]) with 1.
      simpl (256 ^ (1 - 1)). lia.
  - split_and!; [by constructor| |cbn [zeval] in *; lia].
    change (x :: y :: t) with ([x] ++ y :: t). apply normal_snoc; [lia| |done|done].
    constructor; [done|constructor].
Qed.

Lemma normal_bound b l n : 1 < b → 0 <= n → normal b l → zeval b l < b ^ n → zlen l <= n.
Proof.
  intros Hb Hn [->|N] Hv; [done|]. destruct (decide (zlen l <= n)); [done|]. exfalso.
  assert (b ^ n <= b ^ (zlen l - 1)) by (apply Z.pow_le_mono_r; lia). lia.
Qed.

(** Repeated division yields the normal digits of the value. *)
Lemma bigint_digits_spec room l divisor :
  digits_ok 256 l → normal 256 l → 1 < divisor <= 256 → zeval 256 l < divisor ^ Z.of_nat room →
  ∃ ds, bigint_digits room l divisor = Ret ds ∧ digits_ok divisor ds ∧ normal divisor ds ∧
    zeval divisor ds = zeval 256 l.
Proof.
  intros Hl Nl Hd. revert l Hl Nl. induction room as [|room IH]; intros l Hl Nl Hv.
  - assert (l = []) as ->.
    { destruct l; [done|]. pose proof (normal_pos 256 (z :: l) ltac:(lia) Nl ltac:(done)).
      rewrite Z.pow_0_r in Hv. lia. }
    exists []. split_and!; [done|constructor|by left|done].
  - destruct l as [|x l0]; [exists []; split_and!; [done|constructor|by left|done]|].
    set (l := x :: l0) in *. pose proof (normal_pos 256 l ltac:(lia) Nl ltac:(done)) as Hpos.
    assert (E : bigint_digits (S room) l divisor =
      (let '(l', d) := bigint_divmod l divisor in
       ds <- bigint_digits room l' divisor ;; Ret (d :: ds))) by done.
    rewrite E. unfold bigint_divmod. pose proof (div_limbs_spec l divisor Hl ltac:(lia)) as H.
    destruct (div_limbs l divisor) as [q r]. destruct H as (Hq & Hlen & Hr & Ev).
    destruct (trim_spec q Hq) as (H1 & H2 & H3). rewrite u8_id by (unfold is_u8; lia).
    destruct (IH (trim q) H1 H2) as (ds & -> & Hds & Nds & Vds).
    { rewrite H3. rewrite Nat2Z.inj_succ, Z.pow_succ_r in Hv by lia. nia. }
    exists (r :: ds). cbn [xbind]. split_and!; [done|constructor; done| |cbn [zeval]; nia].
    destruct ds as [|y ds].
    + right. simpl in *. change (zlen [r]) with 1. simpl (divisor ^ (1 - 1)). lia.
    + change (r :: y :: ds) with ([r] ++ y :: ds). apply normal_snoc; [lia| |done|done].
      constructor; [done|constructor].
Qed.

(** The value of the bytes of the input, most significant first. *)
Lemma encode_bigint_spec input l :
  bytes_ok input → digits_ok 256 l → normal 256 l → zlen l + zlen input <= 100 →
  ∃ r, encode_bigint input l = Ret r ∧ digits_ok 256 r ∧ normal 256 r ∧
    zeval 256 r = zeval 256 (rev input ++ l).
Proof.
  revert l. induction input as [|x input IH]; intros l Hi Hl Nl Hlen; cbn [encode_bigint].
  - exists l. split_and!; done.
  - apply Forall_cons_1 in Hi as [Hx Hi]. unfold zlen in Hlen. simpl length in Hlen. fold (zlen l) in Hlen.
    destruct (bigint_multiply_spec l 256 Hl Nl) as (r & -> & Hr & Nr & Vr & _); [lia|unfold BIGINT_SIZE; lia|].
    assert (Lr : zlen r <= zlen l + 1).
    { apply (normal_bound 256); [lia|pose proof (zlen_nonneg l); lia|done|].
      pose proof (zeval_range 256 l ltac:(lia) Hl). pose proof (zlen_nonneg l).
      rewrite Vr, Z.pow_add_r by lia. lia. }
    cbn [xbind]. destruct (bigint_add_spec r x Hr Nr Hx) as (s & -> & Hs & Ns & Vs & _).
    { unfold BIGINT_SIZE. lia. }
    assert (Ls : zlen s <= zlen l + 1).
    { apply (normal_bound 256); [lia|pose proof (zlen_nonneg l); lia|done|].
      pose proof (zeval_range 256 l ltac:(lia) Hl). pose proof (zlen_nonneg l). unfold is_u8 in Hx.
      rewrite Vs, Vr, Z.pow_add_r by lia. lia. }
    cbn [xbind]. destruct (IH s Hi Hs Ns) as (t & -> & Ht & Nt & Vt); [unfold zlen in *; lia|].
    exists t. split_and!; try done. rewrite Vt. cbn [rev]. rewrite <- (assoc_L (++)).
    rewrite !zeval_app by lia. f_equal. f_equal. rewrite Vs, Vr. change (zlen [x]) with 1. cbn [zeval]. lia.
Qed.

(** ** The alphabet *)

(** Character and digit agree; '1' (49) is the digit zero. *)
Definition char_digit (c d : Z) : Prop :=
  0 < c < 256 ∧ BASE58_MAP !! Z.to_nat c = Some d ∧ (c = 49 ↔ d = 0).

Definition char_digit_b (d : nat) : bool :=
  match BASE58_ALPHABET !! d with
  | Some c => (0 <? c) && (c <? 256) && bool_decide (BASE58_MAP !! Z.to_nat c = Some (Z.of_nat d)) &&
              Bool.eqb (c =? 49) (Z.of_nat d =? 0)
  | None => false
  end.

Lemma alphabet_check : Forall (fun d => char_digit_b d = true) (seq 0 58).
Proof. repeat constructor. Qed.

Lemma alphabet_ok d : 0 <= d < 58 → ∃ c, base58_char d = Ret c ∧ char_digit c d.
Proof.
  intros Hd. pose proof alphabet_check as H. rewrite list.Forall_forall in H.
  specialize (H (Z.to_nat d) ltac:(apply elem_of_seq; lia)). unfold char_digit_b in H.
  unfold base58_char. destruct (BASE58_ALPHABET !! Z.to_nat d) as [c|]; [|discriminate H].
  exists c. split; [done|]. rewrite Z2Nat.id in H by lia. rewrite !andb_true_iff in H.
  destruct H as [[[H1 H2] H3] H4]. apply Z.ltb_lt in H1, H2. apply bool_decide_eq_true in H3.
  apply eqb_prop in H4. split_and!; [done|done|done|].
  destruct (Z.eqb_spec c 49), (Z.eqb_spec d 0); done.
Qed.

Lemma base58_chars_spec ds :
  digits_ok 58 ds → ∃ cs, base58_chars ds = Ret cs ∧ Forall2 char_digit cs ds.
Proof.
  induction ds as [|d ds IH]; intros H; cbn [base58_chars]; [by exists []|].
  apply Forall_cons_1 in H as [Hd H]. destruct (alphabet_ok d Hd) as (c & -> & Hc).
  destruct (IH H) as (cs & -> & Hcs). exists (c :: cs). split; [done|by constructor].
Qed.

Lemma chars_cstr cs ds : Forall2 char_digit cs ds → cstr_ok cs.
Proof. induction 1 as [|c d cs ds Hc _ IH]; constructor; [apply Hc|done]. Qed.

(** Decoding the characters, most significant first; [58^200 < 256^147], so
    200 characters stay far from the end of the buffer. *)
Lemma decode_bigint_spec cs ds l n :
  Forall2 char_digit cs ds → digits_ok 58 ds → digits_ok 256 l → normal 256 l →
  0 <= n → zeval 256 l < 58 ^ n → n + zlen cs <= 200 →
  ∃ r, decode_bigint cs l = Ret (Some r) ∧ digits_ok 256 r ∧ normal 256 r ∧
    zeval 256 r = zeval 58 (rev ds) + 58 ^ zlen ds * zeval 256 l.
Proof.
  intros Hcs. revert l n. induction Hcs as [|c d cs ds Hc Hcs IH]; intros l n Hds Hl Nl Hn Hv Hlen;
    cbn [decode_bigint].
  - exists l. split_and!; [done|done|done|]. change (zlen (@nil Z)) with 0. simpl. lia.
  - apply Forall_cons_1 in Hds as [Hd Hds]. destruct Hc as (_ & Hm & _). rewrite Hm.
    unfold zlen in Hlen. simpl length in Hlen. fold (zlen cs) in Hlen.
    change (default (-1) (Some d)) with d. cbv zeta. rewrite (proj2 (Z.ltb_ge d 0)) by lia.
    assert (Hroom : ∀ k, digits_ok 256 k → normal 256 k → zeval 256 k < 58 ^ (n + 1) → zlen k + 4 <= BIGINT_SIZE).
    { intros k Hk Nk Vk. enough (zlen k <= 147) by (unfold BIGINT_SIZE; lia).
      apply (normal_bound 256); [lia|lia|done|].
      assert (58 ^ (n + 1) <= 58 ^ 200) by (apply Z.pow_le_mono_r; unfold zlen in *; lia).
      assert (58 ^ 200 < 256 ^ 147) by (vm_compute; reflexivity). lia. }
    pose proof (zeval_range 256 l ltac:(lia) Hl) as Hl0.
    assert (Hpow : 58 ^ (n + 1) = 58 * 58 ^ n) by (rewrite Z.pow_add_r by lia; lia).
    destruct (bigint_multiply_spec l 58 Hl Nl) as (r & -> & Hr & Nr & Vr & _);
      [lia|apply Hroom; [done|done|lia]|].
    cbn [xbind]. destruct (bigint_add_spec r d Hr Nr) as (s & -> & Hs & Ns & Vs & _);
      [lia|apply Hroom; [done|done|lia]|].
    cbn [xbind]. destruct (IH s (n + 1) Hds Hs Ns) as (t & -> & Ht & Nt & Vt);
      [lia|lia|unfold zlen in *; lia|].
    exists t. split_and!; try done. rewrite Vt, Vs, Vr. cbn [rev]. rewrite zeval_app by lia.
    unfold zlen. rewrite length_rev. simpl length. rewrite Nat2Z.inj_succ, Z.pow_succ_r by lia.
    cbn [zeval]. lia.
Qed.

Lemma count_leading_app x n l :
  count_leading x (replicate n x ++ l) = (n + count_leading x l)%nat.
Proof. induction n as [|n IH]; simpl; [done|]. by rewrite Z.eqb_refl, IH. Qed.

(** A list is its leading run of [x] and a rest that does not start with [x]. *)
Lemma count_leading_split x l :
  ∃ rest, l = replicate (count_leading x l) x ++ rest ∧ count_leading x rest = O.
Proof.
  induction l as [|y l IH]; simpl; [by exists []|].
  destruct (Z.eqb_spec y x) as [->|Hne].
  - destruct IH as (rest & E & H). exists rest. simpl. split; [by f_equal|done].
  - exists (y :: l). split; [done|]. simpl. by rewrite (proj2 (Z.eqb_neq y x)).
Qed.

Lemma rev_replicate n (x : Z) : rev (replicate n x) = replicate n x.
Proof. rewrite rev_alt. apply reverse_replicate. Qed.

Lemma zeval_zeros b n : zeval b (replicate n 0) = 0.
Proof. induction n as [|n IH]; simpl; [done|]. rewrite IH. lia. Qed.

(** Most-significant-first digits without a leading zero are normal. *)
Lemma normal_rev b l : 1 < b → digits_ok b l → count_leading 0 l = O → normal b (rev l).
Proof.
  intros Hb Hl Hc. destruct l as [|x l]; [by left|]. apply Forall_cons_1 in Hl as [Hx Hl].
  simpl in Hc. destruct (Z.eqb_spec x 0); [done|]. cbn [rev].
  apply normal_snoc; [done|by apply Forall_rev|done|]. right. change (zlen [x]) with 1. simpl. lia.
Qed.

Lemma normal_last b l : 1 < b → digits_ok b l → normal b l → count_leading 0 (rev l) = O.
Proof.
  intros Hb Hl [->|N]; [done|]. destruct l as [|x l' _] using rev_ind; [done|].
  rewrite rev_unit. simpl. destruct (Z.eqb_spec x 0) as [->|]; [|done]. exfalso.
  apply Forall_app in Hl as [Hl _]. pose proof (zeval_range b l' ltac:(lia) Hl).
  rewrite zeval_app, zlen_app in N by lia. change (zlen [0]) with 1 in N. simpl in N.
  replace (zlen l' + 1 - 1) with (zlen l') in N by lia. lia.
Qed.

(** ** Encoding and decoding *)

Lemma digits_256 l : digits_ok 256 l ↔ bytes_ok l.
Proof. done. Qed.

(** What [base58_encode] writes: a '1' per leading zero byte, then the
    characters of the normal base-58 digits of the value. *)
Lemma base58_encode_spec input out :
  bytes_ok input → 0 < zlen input <= 100 →
  ∃ ds cs,
    digits_ok 58 ds ∧ normal 58 ds ∧ zeval 58 ds = zeval 256 (rev input) ∧
    Forall2 char_digit cs (rev ds) ∧
    base58_encode input out =
      Ret (if out <? Z.of_nat (count_leading 0 input) + zlen ds then None
           else Some (replicate (count_leading 0 input) 49 ++ cs)).
Proof.
  intros Hi Hlen. unfold base58_encode. rewrite (proj2 (Z.eqb_neq _ 0)) by lia.
  change (BIGINT_SIZE / 2) with 100. rewrite (proj2 (Z.ltb_ge 100 _)) by lia.
  destruct (encode_bigint_spec input [] Hi) as (r & -> & Hr & Nr & Vr);
    [constructor|by left|change (zlen (@nil Z)) with 0; lia|]. cbn [xbind].
  rewrite app_nil_r in Vr. assert (Hv : zeval 256 r < 58 ^ 200).
  { pose proof (zeval_range 256 (rev input) ltac:(lia) (bytes_ok_rev _ Hi)) as H.
    assert (256 ^ zlen (rev input) <= 256 ^ 100).
    { apply Z.pow_le_mono_r; [lia|]. unfold zlen in *. rewrite length_rev. lia. }
    assert (256 ^ 100 < 58 ^ 200) by (vm_compute; reflexivity). lia. }
  destruct (bigint_digits_spec (Z.to_nat BIGINT_SIZE) r 58 Hr Nr) as (ds & -> & Hds & Nds & Vds);
    [lia|exact Hv|]. cbn [xbind].
  destruct (base58_chars_spec (rev ds) ltac:(by apply Forall_rev)) as (cs & Ecs & Hcs).
  exists ds, cs. split_and!; [done|done|by rewrite Vds|done|].
  destruct (_ <? _); [done|]. by rewrite Ecs.
Qed.

(** The value of a byte string does not depend on its leading zeros. *)
Lemma zeval_leading input rest n :
  input = replicate n 0 ++ rest → zeval 256 (rev input) = zeval 256 (rev rest).
Proof.
  intros ->. rewrite rev_app_distr, zeval_app, rev_replicate, zeval_zeros by lia. lia.
Qed.

(** The encoding is never longer than [12 + n] characters for [n <= 32] bytes,
    nor than [2 * n] for any input. *)
Lemma base58_length input ds k :
  bytes_ok input → digits_ok 58 ds → normal 58 ds → zeval 58 ds = zeval 256 (rev input) →
  0 <= k → 256 ^ (zlen input - Z.of_nat (count_leading 0 input)) <= 58 ^ k →
  zlen ds <= k.
Proof.
  intros Hi Hd Nd E Hk Hp. apply (normal_bound 58); [lia|done|done|].
  destruct (count_leading_split 0 input) as (rest & Er & Hrest). rewrite E.
  assert (Hri : bytes_ok rest) by (rewrite Er in Hi; by apply Forall_app in Hi as [_ ?]).
  rewrite (zeval_leading _ _ _ Er). pose proof (zeval_range 256 (rev rest) ltac:(lia) (bytes_ok_rev _ Hri)) as H.
  enough (zlen (rev rest) = zlen input - Z.of_nat (count_leading 0 input)) as Hz by (rewrite Hz in H; lia).
  apply (f_equal (@length Z)) in Er. rewrite length_app, length_replicate in Er.
  unfold zlen. rewrite length_rev. lia.
Qed.

Lemma pow_256_58 n : 0 <= n → 256 ^ n <= 58 ^ (2 * n).
Proof. intros H. rewrite Z.pow_mul_r by lia. apply Z.pow_le_mono_l. lia. Qed.

Lemma pow_256_58_small n : 0 <= n <= 32 → 256 ^ n <= 58 ^ (12 + n).
Proof.
  assert (H : Forall (fun k => (256 ^ Z.of_nat k <=? 58 ^ (12 + Z.of_nat k)) = true) (seq 0 33))
    by (repeat constructor).
  intros Hn. rewrite list.Forall_forall in H. specialize (H (Z.to_nat n) ltac:(apply elem_of_seq; lia)).
  apply Z.leb_le in H. by rewrite Z2Nat.id in H by lia.
Qed.

Lemma leading_le x l : Z.of_nat (count_leading x l) <= zlen l.
Proof. induction l as [|y l IH]; simpl; [done|]. destruct (_ =? _); unfold zlen in *; simpl length; lia. Qed.

(** Only the digit zero is written '1', and normal digits do not start with it. *)
Lemma chars_leading cs ds :
  Forall2 char_digit cs (rev ds) → digits_ok 58 ds → normal 58 ds → count_leading 49 cs = O.
Proof.
  intros Hcs Hds Nds. pose proof (normal_last 58 ds ltac:(lia) Hds Nds) as Hlast.
  destruct Hcs as [|c d cs' ds' (_ & _ & H1) _]; [done|]. simpl in *.
  destruct (Z.eqb_spec c 49) as [->|]; [|done]. destruct H1 as [H1 _]. by rewrite (H1 eq_refl) in Hlast.
Qed.

(** Decoding the normal digits of a byte string without leading zeros. *)
Lemma base58_decode_spec n cs ds rest out :
  Forall2 char_digit cs (rev ds) → digits_ok 58 ds → normal 58 ds →
  bytes_ok rest → count_leading 0 rest = O → zlen rest <= 200 →
  zeval 58 ds = zeval 256 (rev rest) →
  0 < Z.of_nat n + zlen ds <= 200 → Z.of_nat n + zlen rest <= out →
  base58_decode (replicate n 49 ++ cs) out = Ret (Some (replicate n 0 ++ rest)).
Proof.
  intros Hcs Hds Nds Hr Hlead Hlr Ev Hlen Hout. unfold base58_decode.
  assert (Hlc : zlen cs = zlen ds).
  { unfold zlen. by rewrite (Forall2_length Hcs), length_rev. }
  rewrite zlen_app, Hlc. change (zlen (replicate n 49)) with (Z.of_nat (length (replicate n 49))).
  rewrite length_replicate. rewrite (proj2 (Z.eqb_neq _ 0)) by lia.
  rewrite (proj2 (Z.ltb_ge BIGINT_SIZE _)) by (unfold BIGINT_SIZE; lia).
  rewrite count_leading_app, (chars_leading cs ds), Nat.add_0_r by done.
  rewrite drop_app_length' by (by rewrite length_replicate).
  destruct (decode_bigint_spec cs (rev ds) [] 0 Hcs) as (b & -> & Hb & Nb & Vb);
    [by apply Forall_rev|constructor|by left|lia|done|lia|].
  rewrite rev_involutive in Vb. simpl (zeval 256 []) in Vb. rewrite Z.mul_0_r, Z.add_0_r in Vb.
  cbn [xbind]. destruct (bigint_digits_spec (Z.to_nat BIGINT_SIZE) b 256 Hb Nb) as (bs & -> & Hbs & Nbs & Vbs).
  { lia. }
  { pose proof (zeval_range 256 (rev rest) ltac:(lia) (bytes_ok_rev _ Hr)).
    rewrite Vb, Ev. apply Z.lt_le_trans with (256 ^ zlen (rev rest)); [lia|].
    apply Z.pow_le_mono_r; [lia|]. unfold zlen in *. rewrite length_rev. unfold BIGINT_SIZE. lia. }
  cbn [xbind]. assert (bs = rev rest) as ->.
  { apply (normal_unique 256); [lia|done|by apply bytes_ok_rev|done|by apply normal_rev|].
    by rewrite Vbs, Vb, Ev. }
  rewrite rev_involutive. assert (zlen (rev rest) = zlen rest) as -> by (unfold zlen; by rewrite length_rev).
  by rewrite (proj2 (Z.ltb_ge out _)) by lia.
Qed.

(** Inputs the encoder accepts. *)
Lemma base58_encode_some input out s :
  base58_encode input out = Ret (Some s) → zlen input <= 100 ∧ (zlen input = 0 → s = []).
Proof.
  unfold base58_encode. destruct (Z.eqb_spec (zlen input) 0) as [->|].
  { destruct (out <? 1); [done|]. intros [= <-]. by split. }
  change (BIGINT_SIZE / 2) with 100. destruct (Z.ltb_spec 100 (zlen input)); [done|]. intros _. lia.
Qed.

Lemma base58_roundtrip_aux input out out' s :
  bytes_ok input → base58_encode input out = Ret (Some s) → zlen input <= out' →
  cstr_ok s ∧ base58_decode s out' = Ret (Some input).
Proof.
  intros Hi He Hout. destruct (base58_encode_some _ _ _ He) as [Hle H0].
  pose proof (zlen_nonneg input) as Hpos. destruct input as [|x xs] eqn:Ein.
  { rewrite (H0 eq_refl). split; [constructor|done]. }
  rewrite <- Ein in *. assert (Hnz : 0 < zlen input) by (rewrite Ein; unfold zlen; simpl length; lia).
  destruct (base58_encode_spec input out Hi ltac:(lia)) as (ds & cs & Hds & Nds & Vds & Hcs & E).
  rewrite E in He. destruct (_ <? _) eqn:Eroom; [done|]. injection He as <-.
  split; [apply Forall_app_2; [by apply Forall_replicate|by eapply chars_cstr]|].
  destruct (count_leading_split 0 input) as (rest & Er & Hrest). pose proof (leading_le 0 input) as Hlz.
  set (n := count_leading 0 input) in *.
  assert (Hll : Z.of_nat n + zlen rest = zlen input).
  { rewrite Er. rewrite zlen_app. unfold zlen. rewrite length_replicate. lia. }
  assert (Hlen : zlen ds <= 2 * (zlen input - Z.of_nat n)).
  { eapply base58_length; [exact Hi|done|done|done|lia|]. apply pow_256_58. unfold n. lia. }
  assert (Hri : bytes_ok rest) by (rewrite Er in Hi; by apply Forall_app in Hi as [_ ?]).
  pose proof (zeval_leading _ _ _ Er) as Ev. rewrite Ev in Vds. rewrite Er at 1.
  apply base58_decode_spec with ds; try done; [lia| |lia]. split; [|lia].
  destruct rest as [|y rest]; [change (zlen (@nil Z)) with 0 in Hll; pose proof (zlen_nonneg ds); lia|].
  enough (ds ≠ []) by (destruct ds; [done|unfold zlen; simpl length; lia]). intros ->.
  pose proof (normal_pos 256 _ ltac:(lia) (normal_rev 256 (y :: rest) ltac:(lia) Hri Hrest)) as Hp.
  rewrite <- Vds in Hp. simpl in Hp. enough (0 < 0) by lia. apply Hp. intros H. by apply app_nil in H as [_ ?].
Qed.

(** Base58 is lossless: whatever [base58_encode] writes for a byte string
    (leading zero bytes included), [base58_decode] turns back into exactly
    those bytes, given room for them; and the text is a C string. *)
Theorem base58_roundtrip input out out' s :
  bytes_ok input → base58_encode input out = Ret (Some s) → zlen input <= out' →
  cstr_ok s ∧ base58_decode s out' = Ret (Some input).
Proof. apply base58_roundtrip_aux. Qed.

Lemma base58_roundtrip_witness :
  base58_encode [0; 0; 255; 1] 10 = Ret (Some (lit "11LQY")) ∧
  base58_decode (lit "11LQY") 4 = Ret (Some [0; 0; 255; 1]).
Proof.
  split; [vm_compute; reflexivity|].
  apply (base58_roundtrip [0; 0; 255; 1] 10 4);
    [repeat constructor; vm_compute; congruence|vm_compute; reflexivity|by vm_compute].
Defined.
