(* ===== verification/MessageId.v ===== *)
(** * MessageId: [src/Network/Quasar/quasar_message_id.c]

    Message identifiers: a monotonic timestamp and a global counter.  The
    counter is the state of the generator; the successive readings of
    [CLOCK_MONOTONIC] are the argument [clock], indexed by the number of the
    call. *)

From S2P Require Import Prelude Bitset Endian.

Record quasar_message_id_t := mkId {
  id_time : Z;
  id_nanos : Z;
  id_count : Z
}.

#[export] Instance quasar_message_id_eq_dec : EqDecision quasar_message_id_t.
Proof. solve_decision. Defined.

Definition QUASAR_MESSAGE_ID_SIZE : Z := 24.

(** The generator: [g_message_id_count] before and after. *)
Definition quasar_message_id_get_next (clock : Z → Z * Z) (g_message_id_count : Z)
    : quasar_message_id_t * Z :=
  let ts := clock g_message_id_count in
  ({| id_time := u64 ts.1; id_nanos := u64 ts.2; id_count := g_message_id_count |},
   u64 (g_message_id_count + 1)).

Definition quasar_message_id_compare (a b : quasar_message_id_t) : Z :=
  if id_time b <? id_time a then 1
  else if id_time a <? id_time b then -1
  else if id_nanos b <? id_nanos a then 1
  else if id_nanos a <? id_nanos b then -1
  else if id_count b <? id_count a then 1
  else if id_count a <? id_count b then -1
  else 0.

Definition write_uint64 (val : Z) : list Z :=
  let high := htonl (u32 (Z.shiftr val 32)) in
  let low := htonl (u32 (Z.land val 0xFFFFFFFF)) in
  le_bytes 4 high ++ le_bytes 4 low.

Definition read_uint64 (buf : list Z) (off : Z) : exec Z :=
  high <- read_u32_at buf off ;;
  low <- read_u32_at buf (off + 4) ;;
  Ret (Z.lor (Z.shiftl (ntohl high) 32) (ntohl low)).

(** The 24 bytes written at [buf]. *)
Definition quasar_message_id_serialize (id : quasar_message_id_t) : list Z :=
  write_uint64 (id_time id) ++ write_uint64 (id_nanos id) ++ write_uint64 (id_count id).

Definition quasar_message_id_deserialize (buf : list Z) (off : Z) : exec quasar_message_id_t :=
  time <- read_uint64 buf off ;;
  nanos <- read_uint64 buf (off + 8) ;;
  count <- read_uint64 buf (off + 16) ;;
  Ret {| id_time := time; id_nanos := nanos; id_count := count |}.

(** The bytes of the structure in memory, the key under which the routing
    layer remembers an identifier ([&msg->id], [sizeof(msg->id)]). *)
Definition id_memory (id : quasar_message_id_t) : list Z :=
  le_bytes 8 (id_time id) ++ le_bytes 8 (id_nanos id) ++ le_bytes 8 (id_count id).

(** ** Invariant *)

Definition id_wf (id : quasar_message_id_t) : Prop :=
  is_u64 (id_time id) ∧ is_u64 (id_nanos id) ∧ is_u64 (id_count id).

Lemma get_next_wf clock g : is_u64 g → id_wf (quasar_message_id_get_next clock g).1.
Proof. intros H. split_and!; simpl; [apply u64_range..|done]. Qed.

(** ** Big-endian order *)

Lemma lex_compare_app a b c d :
  length a = length b →
  lex_compare (a ++ c) (b ++ d) = match lex_compare a b with Eq => lex_compare c d | r => r end.
Proof.
  revert b. induction a as [|x a IH]; intros [|y b] H; simpl in *; try done.
  destruct (x ?= y); [|done|done]. apply IH. lia.
Qed.

Lemma be_bytes_S n x : be_bytes (S n) x = be_bytes n (x / 256) ++ [u8 x].
Proof. done. Qed.

(** Lexicographic order of big-endian forms is the order of the integers. *)
Lemma lex_compare_be n x y :
  0 <= x < 256 ^ Z.of_nat n → 0 <= y < 256 ^ Z.of_nat n →
  lex_compare (be_bytes n x) (be_bytes n y) = (x ?= y).
Proof.
  revert x y. induction n as [|n IH]; intros x y Hx Hy.
  - simpl in *. replace x with y by lia. by rewrite Z.compare_refl.
  - rewrite !be_bytes_S, lex_compare_app by by rewrite !be_bytes_length.
    rewrite Nat2Z.inj_succ, Z.pow_succ_r in Hx, Hy by lia.
    pose proof (Z.div_mod x 256 ltac:(lia)). pose proof (Z.div_mod y 256 ltac:(lia)).
    pose proof (Z.mod_pos_bound x 256 ltac:(lia)). pose proof (Z.mod_pos_bound y 256 ltac:(lia)).
    rewrite IH by lia. simpl. unfold u8. change (2 ^ 8) with 256.
    destruct (Z.compare_spec (x / 256) (y / 256)), (Z.compare_spec (x mod 256) (y mod 256)),
      (Z.compare_spec x y); done || lia.
Qed.

Lemma be_bytes_split n m x :
  be_bytes (n + m) x = be_bytes n (x / 256 ^ Z.of_nat m) ++ be_bytes m x.
Proof.
  revert x. induction m as [|m IH]; intros x.
  - simpl. by rewrite Nat.add_0_r, Z.div_1_r, app_nil_r.
  - rewrite Nat.add_succ_r, !be_bytes_S, IH, <- (assoc_L (++)).
    rewrite Z.div_div by (try apply Z.pow_pos_nonneg; lia).
    by rewrite Nat2Z.inj_succ, Z.pow_succ_r by lia.
Qed.

Lemma le_bytes_u n x : le_bytes n (x mod 256 ^ Z.of_nat n) = le_bytes n x.
Proof.
  revert x. induction n as [|n IH]; intros x; [done|]. cbn [le_bytes]. f_equal.
  - unfold u8. change (2 ^ 8) with 256. rewrite Nat2Z.inj_succ, Z.pow_succ_r by lia.
    apply Z.mod_mod_divide. apply Z.divide_factor_l.
  - rewrite <- (IH (x / 256)). f_equal. rewrite Nat2Z.inj_succ, Z.pow_succ_r by lia.
    rewrite Z.rem_mul_r by (try apply Z.pow_nonzero; lia).
    rewrite Z.mul_comm, Z.div_add by lia. rewrite Z.div_small; [lia|]. apply Z.mod_pos_bound. lia.
Qed.

Lemma write_uint64_be x : write_uint64 x = be_bytes 8 x.
Proof.
  unfold write_uint64. rewrite !memcpy_htonl. change 8%nat with (4 + 4)%nat. rewrite be_bytes_split.
  rewrite Z.shiftr_div_pow2 by lia. change (256 ^ Z.of_nat 4) with (2 ^ 32).
  change 0xFFFFFFFF with (Z.ones 32). rewrite Z.land_ones by lia. unfold u32.
  rewrite Z.mod_mod by lia. unfold be_bytes.
  change (2 ^ 32) with (256 ^ Z.of_nat 4). by rewrite !le_bytes_u.
Qed.

Lemma write_uint64_length x : zlen (write_uint64 x) = 8.
Proof. rewrite write_uint64_be. unfold zlen. by rewrite be_bytes_length. Qed.

Lemma write_uint64_ok x : bytes_ok (write_uint64 x).
Proof. rewrite write_uint64_be. apply be_bytes_ok. Qed.

Lemma read_u32_at_app pre l suf off :
  zlen pre = off → length l = 4%nat → read_u32_at (pre ++ l ++ suf) off = Ret (le_decode l).
Proof.
  intros Hp Hl. unfold read_u32_at. rewrite (read_bytes_at pre l suf) by (done || (unfold zlen; lia)). done.
Qed.

Lemma read_write_uint64 pre x suf off :
  zlen pre = off → is_u64 x → read_uint64 (pre ++ write_uint64 x ++ suf) off = Ret x.
Proof.
  intros Hp Hx. unfold read_uint64. unfold write_uint64. rewrite <- (assoc_L (++)).
  rewrite read_u32_at_app by (done || apply le_bytes_length). rewrite bind_Ret_l.
  rewrite (assoc_L (++) pre). rewrite read_u32_at_app
    by (apply le_bytes_length || (rewrite zlen_app, Hp; unfold zlen; by rewrite le_bytes_length)).
  rewrite bind_Ret_l, !memcpy_htonl, !be32_roundtrip by apply u32_range. f_equal.
  rewrite lor_shiftl_add by (lia || apply u32_range).
  change 0xFFFFFFFF with (Z.ones 32). rewrite Z.land_ones, Z.shiftr_div_pow2 by lia.
  unfold u32, is_u64 in *. rewrite Z.mod_mod, (Z.mod_small (x / 2 ^ 32)) by
    (try split; try apply Z.div_pos; try apply Z.div_lt_upper_bound; lia).
  pose proof (Z.div_mod x (2 ^ 32)). lia.
Qed.

Lemma id_serialize_length id : zlen (quasar_message_id_serialize id) = QUASAR_MESSAGE_ID_SIZE.
Proof. unfold quasar_message_id_serialize. by rewrite !zlen_app, !write_uint64_length. Qed.

Lemma id_roundtrip pre id suf off :
  zlen pre = off → id_wf id →
  quasar_message_id_deserialize (pre ++ quasar_message_id_serialize id ++ suf) off = Ret id.
Proof.
  intros Hp (H1 & H2 & H3). unfold quasar_message_id_deserialize, quasar_message_id_serialize.
  rewrite <- !(assoc_L (++)). rewrite read_write_uint64 by done. rewrite bind_Ret_l.
  rewrite (assoc_L (++) pre). rewrite read_write_uint64 by
    (done || (rewrite zlen_app, write_uint64_length; lia)). rewrite bind_Ret_l.
  rewrite (assoc_L (++) (pre ++ _)). rewrite read_write_uint64 by
    (done || (rewrite !zlen_app, !write_uint64_length; lia)). by destruct id.
Qed.

(** The key of an identifier determines it. *)
Lemma id_memory_inj a b : id_wf a → id_wf b → id_memory a = id_memory b → a = b.
Proof.
  intros (H1 & H2 & H3) (H1' & H2' & H3') H. unfold id_memory in H.
  apply app_inj_1 in H as [Ht H]; [|by rewrite !le_bytes_length].
  apply app_inj_1 in H as [Hn Hc]; [|by rewrite !le_bytes_length].
  apply le_bytes_inj in Ht, Hn, Hc; [|done..]. destruct a, b. simpl in *. congruence.
Qed.

Lemma id_compare_serialize a b :
  id_wf a → id_wf b →
  quasar_message_id_compare a b =
  sign_of (lex_compare (quasar_message_id_serialize a) (quasar_message_id_serialize b)).
Proof.
  intros (H1 & H2 & H3) (H1' & H2' & H3'). unfold quasar_message_id_serialize.
  rewrite !write_uint64_be, !lex_compare_app by by rewrite !be_bytes_length.
  rewrite !lex_compare_be by done. unfold quasar_message_id_compare.
  destruct (Z.compare_spec (id_time a) (id_time b)), (Z.compare_spec (id_nanos a) (id_nanos b)),
    (Z.compare_spec (id_count a) (id_count b)); zcases; done || lia.
Qed.

(** ** Properties *)

(** Identifiers survive the wire at any offset, and the byte order of
    the serialized forms is the order [quasar_message_id_compare] defines, so
    identifiers can be compared without decoding them. *)
Theorem message_id_serialization a b pre suf :
  id_wf a → id_wf b →
  quasar_message_id_deserialize (pre ++ quasar_message_id_serialize a ++ suf) (zlen pre) = Ret a ∧
  zlen (quasar_message_id_serialize a) = QUASAR_MESSAGE_ID_SIZE ∧
  quasar_message_id_compare a b =
    sign_of (lex_compare (quasar_message_id_serialize a) (quasar_message_id_serialize b)).
Proof.
  intros Ha Hb. split_and!; [by apply id_roundtrip|apply id_serialize_length|by apply id_compare_serialize].
Qed.

(** The identifier of the [n]-th call. *)
Definition nth_id (clock : Z → Z * Z) (n : Z) : quasar_message_id_t :=
  (quasar_message_id_get_next clock n).1.

(** Identifiers of different calls differ until the 64-bit counter wraps,
    whatever the clock does; when the clock never goes backwards (what
    [CLOCK_MONOTONIC] guarantees), later calls give greater identifiers. *)
Theorem message_id_unique_increasing clock n m :
  0 <= n < m → m < 2 ^ 64 →
  nth_id clock n ≠ nth_id clock m ∧
  id_memory (nth_id clock n) ≠ id_memory (nth_id clock m) ∧
  ((∀ i j, 0 <= i <= j → j < 2 ^ 64 →
      is_u64 (clock i).1 ∧ is_u64 (clock i).2 ∧ is_u64 (clock j).1 ∧ is_u64 (clock j).2 ∧
      ((clock i).1 < (clock j).1 ∨ (clock i).1 = (clock j).1 ∧ (clock i).2 <= (clock j).2)) →
   quasar_message_id_compare (nth_id clock n) (nth_id clock m) = -1).
Proof.
  intros Hnm Hm.
  assert (Hne : nth_id clock n ≠ nth_id clock m) by (intros [= _ _ H]; lia).
  assert (is_u64 n) by (unfold is_u64; lia). assert (is_u64 m) by (unfold is_u64; lia).
  split_and!; [done| |].
  - intros H'. apply Hne. by apply id_memory_inj; [apply get_next_wf..|].
  - intros Hclock. destruct (Hclock n m ltac:(lia) Hm) as (? & ? & ? & ? & Hle).
    unfold quasar_message_id_compare. simpl. rewrite !u64_id by done. zcases; lia.
Qed.

Lemma message_id_serialization_witness :
  quasar_message_id_deserialize ([9] ++ quasar_message_id_serialize (mkId 5 6 7) ++ []) (zlen [9])
  = Ret (mkId 5 6 7).
Proof. apply (message_id_serialization (mkId 5 6 7) (mkId 5 6 8) [9] []); repeat split; vm_compute; congruence. Defined.

Lemma message_id_unique_increasing_witness :
  quasar_message_id_compare (nth_id (fun n => (1, n)) 3) (nth_id (fun n => (1, n)) 4) = -1.
Proof.
  apply (message_id_unique_increasing (fun n => (1, n)) 3 4); [lia|lia|].
  intros i j Hi Hj. unfold is_u64. simpl. lia.
Defined.
