(* ===== verification/CborWire.v ===== *)
(** * CborWire: CBOR items as bytes

    The encoding of the vendored libcbor ([internal/encoders.c],
    [serialization.c]) for the items the codecs under [src/] build: integers
    keep their width, strings, arrays and maps are definite.  The reader is the
    grammar of RFC 8949 for the same fragment, with libcbor's rule that the
    width of an integer item is the width it was written with.  Items outside
    the fragment are [None] on both sides. *)

From S2P Require Import Prelude Bitset Endian MessageId Cbor.

#[local] Set Warnings "-register-all".

(** ** Writing *)

Definition encode_uint8 (value offset : Z) : list Z :=
  if value <=? 23 then [u8 (value + offset)] else [0x18 + offset; u8 value].
Definition encode_uint16 (value offset : Z) : list Z := (0x19 + offset) :: be_bytes 2 value.
Definition encode_uint32 (value offset : Z) : list Z := (0x1A + offset) :: be_bytes 4 value.
Definition encode_uint64 (value offset : Z) : list Z := (0x1B + offset) :: be_bytes 8 value.

(** The shortest head that holds the value (lengths of strings and arrays). *)
Definition encode_uint (value offset : Z) : list Z :=
  if value <=? 0xFFFF then
    if value <=? 0xFF then encode_uint8 value offset else encode_uint16 value offset
  else if value <=? 0xFFFFFFFF then encode_uint32 value offset else encode_uint64 value offset.

Definition encode_int (w : cbor_int_width) (value offset : Z) : list Z :=
  match w with
  | CBOR_INT_8 => encode_uint8 value offset
  | CBOR_INT_16 => encode_uint16 value offset
  | CBOR_INT_32 => encode_uint32 value offset
  | CBOR_INT_64 => encode_uint64 value offset
  end.

Fixpoint cbor_serialize (i : cbor_item) : option (list Z) :=
  match i with
  | CUint w v => Some (encode_int w v 0)
  | CNegint w v => Some (encode_int w v 0x20)
  | CBytes d => Some (encode_uint (zlen d) 0x40 ++ d)
  | CString d => Some (encode_uint (zlen d) 0x60 ++ d)
  | CArray true _ es =>
      body ← (fix all es :=
        match es with
        | [] => Some []
        | e :: es' => b ← cbor_serialize e; bs ← all es'; Some (b ++ bs)
        end) es;
      Some (encode_uint (zlen es) 0x80 ++ body)
  | CMap true _ ps =>
      body ← (fix all ps :=
        match ps with
        | [] => Some []
        | (k, v) :: ps' =>
            a ← cbor_serialize k; b ← cbor_serialize v; bs ← all ps'; Some (a ++ b ++ bs)
        end) ps;
      Some (encode_uint (zlen ps) 0xA0 ++ body)
  | _ => None
  end.

(** ** Reading *)

(** Initial byte and argument: major type, width, value, rest. *)
Definition decode_head (l : list Z) : option (Z * cbor_int_width * Z * list Z) :=
  match l with
  | [] => None
  | b :: l' =>
      let major := b / 32 in
      let info := b mod 32 in
      if info <? 24 then Some (major, CBOR_INT_8, info, l')
      else
        let take_be n w :=
          if (zlen l' <? Z.of_nat n) then None
          else Some (major, w, be_decode (take n l'), drop n l') in
        if info =? 24 then take_be 1%nat CBOR_INT_8
        else if info =? 25 then take_be 2%nat CBOR_INT_16
        else if info =? 26 then take_be 4%nat CBOR_INT_32
        else if info =? 27 then take_be 8%nat CBOR_INT_64
        else None
  end.

Section sequences.
Context (item : list Z → option (cbor_item * list Z)).

Fixpoint decode_seq (n : nat) (l : list Z) : option (list cbor_item * list Z) :=
  match n with
  | O => Some ([], l)
  | S n' =>
      '(i, l1) ← item l;
      '(its, l2) ← decode_seq n' l1;
      Some (i :: its, l2)
  end.

Fixpoint decode_pairs (n : nat) (l : list Z) : option (list (cbor_item * cbor_item) * list Z) :=
  match n with
  | O => Some ([], l)
  | S n' =>
      '(k, l1) ← item l;
      '(v, l2) ← item l1;
      '(ps, l3) ← decode_pairs n' l2;
      Some ((k, v) :: ps, l3)
  end.
End sequences.

(** One item; an announced length or count beyond the remaining bytes is the
    end of the data.  The fuel bounds the nesting depth. *)
Fixpoint decode_item (fuel : nat) (l : list Z) : option (cbor_item * list Z) :=
  match fuel with
  | O => None
  | S f =>
      '(major, w, v, rest) ← decode_head l;
      if major =? 0 then Some (CUint w v, rest)
      else if major =? 1 then Some (CNegint w v, rest)
      else if zlen rest <? v then None
      else if major =? 2 then Some (CBytes (take (Z.to_nat v) rest), drop (Z.to_nat v) rest)
      else if major =? 3 then Some (CString (take (Z.to_nat v) rest), drop (Z.to_nat v) rest)
      else if major =? 4 then
        '(es, rest') ← decode_seq (decode_item f) (Z.to_nat v) rest;
        Some (CArray true v es, rest')
      else if major =? 5 then
        '(ps, rest') ← decode_pairs (decode_item f) (Z.to_nat v) rest;
        Some (CMap true v ps, rest')
      else None
  end.

(** The first item of the buffer, NULL on error; every level of nesting takes
    a byte, so the length of the buffer is fuel enough. *)
Definition cbor_load (data : list Z) : option cbor_item := fst <$> decode_item (length data) data.

Definition cbor_serialize_alloc (i : cbor_item) : list Z := default [] (cbor_serialize i).

(** ** Round trip *)

Fixpoint cbor_depth (i : cbor_item) : nat :=
  match i with
  | CArray _ _ es => S ((fix all es := match es with [] => O | e :: es' => Nat.max (cbor_depth e) (all es') end) es)
  | CMap _ _ ps =>
      S ((fix all ps := match ps with
          | [] => O | (k, v) :: ps' => Nat.max (Nat.max (cbor_depth k) (cbor_depth v)) (all ps') end) ps)
  | _ => 1
  end.

Lemma be_decode_take n v suf :
  0 <= v < 256 ^ Z.of_nat n → be_decode (take n (be_bytes n v ++ suf)) = v ∧ drop n (be_bytes n v ++ suf) = suf.
Proof.
  intros Hv. rewrite take_app_length', drop_app_length' by by rewrite be_bytes_length.
  by rewrite be_decode_bytes, Z.mod_small.
Qed.

(** Decides the comparisons of a head byte that is a constant. *)
Ltac head_cases :=
  repeat match goal with
  | |- context [Zpos ?a <? Zpos ?b] =>
      let r := eval vm_compute in (Zpos a <? Zpos b) in change (Zpos a <? Zpos b) with r; cbv iota
  | |- context [Zpos ?a =? Zpos ?b] =>
      let r := eval vm_compute in (Zpos a =? Zpos b) in change (Zpos a =? Zpos b) with r; cbv iota
  end; cbv zeta beta.

(** Heads: [offset] is the major type times 32. *)
Lemma decode_head_int w v major suf :
  0 <= major < 8 → 0 <= v < int_bound w →
  decode_head (encode_int w v (32 * major) ++ suf) = Some (major, w, v, suf).
Proof.
  intros Hm Hv. unfold decode_head, encode_int, encode_uint8, encode_uint16, encode_uint32, encode_uint64.
  assert (Hinfo : ∀ k, 24 <= k < 32 → (k + 32 * major) / 32 = major ∧ (k + 32 * major) mod 32 = k).
  { intros k Hk. rewrite (Z.mul_comm 32), Z.div_add, Z.mod_add by lia.
    rewrite Z.div_small, Z.mod_small by lia. lia. }
  assert (Hlen : ∀ n x, (zlen (be_bytes n x ++ suf) <? Z.of_nat n) = false).
  { intros n x. apply Z.ltb_ge. rewrite zlen_app. unfold zlen. rewrite be_bytes_length. lia. }
  destruct w; simpl in Hv.
  - destruct (Z.leb_spec v 23).
    + simpl. rewrite u8_id by (unfold is_u8; lia).
      rewrite (Z.mul_comm 32), Z.div_add, Z.mod_add by lia. rewrite Z.div_small, Z.mod_small by lia.
      by rewrite (proj2 (Z.ltb_lt v 24)) by lia.
    + simpl. destruct (Hinfo 24) as [-> ->]; [lia|]. rewrite u8_id by (unfold is_u8; lia). simpl.
      rewrite (proj2 (Z.ltb_ge _ _)) by (unfold zlen; simpl; lia).
      unfold be_decode. simpl. rewrite drop_0. do 3 f_equal. lia.
  - rewrite <- app_comm_cons. destruct (Hinfo 25) as [-> ->]; [lia|]. head_cases.
    rewrite (Hlen 2%nat v). destruct (be_decode_take 2 v suf) as [-> ->]; [done|]. done.
  - rewrite <- app_comm_cons. destruct (Hinfo 26) as [-> ->]; [lia|]. head_cases.
    rewrite (Hlen 4%nat v). destruct (be_decode_take 4 v suf) as [-> ->]; [done|]. done.
  - rewrite <- app_comm_cons. destruct (Hinfo 27) as [-> ->]; [lia|]. head_cases.
    rewrite (Hlen 8%nat v). destruct (be_decode_take 8 v suf) as [-> ->]; [done|]. done.
Qed.

Lemma encode_uint_int v offset :
  0 <= v < 2 ^ 64 → ∃ w, encode_uint v offset = encode_int w v offset ∧ 0 <= v < int_bound w.
Proof.
  intros Hv. unfold encode_uint. zcases.
  - exists CBOR_INT_8. split; [done|]. simpl. lia.
  - exists CBOR_INT_16. split; [done|]. simpl. lia.
  - exists CBOR_INT_32. split; [done|]. simpl. lia.
  - exists CBOR_INT_64. split; [done|]. simpl. lia.
Qed.

Lemma encode_int_nonempty w v o : (1 <= length (encode_int w v o))%nat.
Proof. destruct w; simpl; unfold encode_uint8; try (by destruct (_ <=? _); simpl; lia); simpl; lia. Qed.

Lemma decode_head_uint v major suf :
  0 <= major < 8 → 0 <= v < 2 ^ 64 →
  ∃ w, decode_head (encode_uint v (32 * major) ++ suf) = Some (major, w, v, suf) ∧
    (1 <= length (encode_uint v (32 * major)))%nat.
Proof.
  intros Hm Hv. destruct (encode_uint_int v (32 * major) Hv) as (w & -> & Hw).
  exists w. split; [by apply decode_head_int|apply encode_int_nonempty].
Qed.

(** Integers fit their width and definite arrays and maps are full. *)
Fixpoint cbor_fits (i : cbor_item) : Prop :=
  match i with
  | CUint w v | CNegint w v => 0 <= v < int_bound w
  | CArray definite alloc es =>
      (definite = true → alloc = zlen es) ∧
      (fix all es := match es with [] => True | e :: es' => cbor_fits e ∧ all es' end) es
  | CMap definite alloc ps =>
      (definite = true → alloc = zlen ps) ∧
      (fix all ps := match ps with [] => True | (k, v) :: ps' => (cbor_fits k ∧ cbor_fits v) ∧ all ps' end) ps
  | CTag _ it => cbor_fits it
  | _ => True
  end.

Lemma cbor_fits_array d n es : cbor_fits (CArray d n es) ↔ (d = true → n = zlen es) ∧ Forall cbor_fits es.
Proof.
  simpl. apply and_iff_compat_l. induction es as [|e es IH]; [done|].
  rewrite IH. split; [by intros []; constructor|by intros []%Forall_cons_1].
Qed.

Lemma cbor_fits_map d n ps :
  cbor_fits (CMap d n ps) ↔ (d = true → n = zlen ps) ∧ Forall (fun p => cbor_fits p.1 ∧ cbor_fits p.2) ps.
Proof.
  simpl. apply and_iff_compat_l. induction ps as [|[k v] ps IH]; [done|].
  rewrite IH. split; [by intros []; constructor|by intros []%Forall_cons_1].
Qed.

Definition roundtrips (i : cbor_item) : Prop :=
  ∀ b, cbor_serialize i = Some b → cbor_fits i → (zlen b < 2 ^ 64) →
    (cbor_depth i <= length b)%nat ∧
    ∀ fuel suf, (cbor_depth i <= fuel)%nat → decode_item fuel (b ++ suf) = Some (i, suf).

(** Induction over items with their elements. *)
Section induction.
Context (P : cbor_item → Prop).
Context (Hleaf : ∀ i, (∀ d n es, i ≠ CArray d n es) → (∀ d n ps, i ≠ CMap d n ps) → (∀ v t, i ≠ CTag v t) → P i).
Context (Harray : ∀ d n es, Forall P es → P (CArray d n es)).
Context (Hmap : ∀ d n ps, Forall (fun p => P p.1 ∧ P p.2) ps → P (CMap d n ps)).
Context (Htag : ∀ v t, P t → P (CTag v t)).

Fixpoint cbor_item_nested_ind (i : cbor_item) : P i.
Proof.
  destruct i as [w v|w v|d|cs|d|cs|d n es|d n ps|v t|w v];
    try (apply Hleaf; congruence).
  - apply Harray. revert es. fix all 1. intros [|e es]; constructor; [apply cbor_item_nested_ind|apply all].
  - apply Hmap. revert ps. fix all 1. intros [|[k v] ps]; constructor;
      [split; apply cbor_item_nested_ind|apply all].
  - apply Htag, cbor_item_nested_ind.
Defined.
End induction.

(** The bodies of arrays and maps. *)
Fixpoint serialize_all (es : list cbor_item) : option (list Z) :=
  match es with
  | [] => Some []
  | e :: es' => b ← cbor_serialize e; bs ← serialize_all es'; Some (b ++ bs)
  end.

Fixpoint depth_all (es : list cbor_item) : nat :=
  match es with [] => O | e :: es' => Nat.max (cbor_depth e) (depth_all es') end.

Lemma roundtrips_seq es body :
  Forall roundtrips es → Forall cbor_fits es → serialize_all es = Some body → zlen body < 2 ^ 64 →
  (depth_all es <= length body)%nat ∧ (length es <= length body)%nat ∧
  ∀ fuel suf, (depth_all es <= fuel)%nat → decode_seq (decode_item fuel) (length es) (body ++ suf) = Some (es, suf).
Proof.
  revert body. induction es as [|e es IH]; intros body Hr Hok Hs Hlen; simpl in Hs.
  - injection Hs as <-. simpl. split_and!; [lia|lia|done].
  - apply bind_Some in Hs as (b & Eb & Hs). apply bind_Some in Hs as (bs & Ebs & [= <-]).
    apply Forall_cons_1 in Hr as [Hre Hr]. apply Forall_cons_1 in Hok as [Hoke Hok].
    rewrite zlen_app in Hlen. pose proof (zlen_nonneg b). pose proof (zlen_nonneg bs).
    destruct (Hre b Eb Hoke ltac:(lia)) as [Hd He]. destruct (IH bs Hr Hok Ebs ltac:(lia)) as (Hd' & Hl' & He').
    assert (1 <= cbor_depth e)%nat by (destruct e; simpl; lia).
    simpl. rewrite length_app. split_and!; [lia|lia|]. intros fuel suf Hf.
    rewrite <- (assoc_L (++)), He by lia. simpl. rewrite He' by lia. done.
Qed.

Fixpoint serialize_pairs (ps : list (cbor_item * cbor_item)) : option (list Z) :=
  match ps with
  | [] => Some []
  | (k, v) :: ps' =>
      a ← cbor_serialize k; b ← cbor_serialize v; bs ← serialize_pairs ps'; Some (a ++ b ++ bs)
  end.

Fixpoint depth_pairs (ps : list (cbor_item * cbor_item)) : nat :=
  match ps with
  | [] => O
  | (k, v) :: ps' => Nat.max (Nat.max (cbor_depth k) (cbor_depth v)) (depth_pairs ps')
  end.

Lemma roundtrips_pairs ps body :
  Forall (fun p => roundtrips p.1 ∧ roundtrips p.2) ps → Forall (fun p => cbor_fits p.1 ∧ cbor_fits p.2) ps →
  serialize_pairs ps = Some body → zlen body < 2 ^ 64 →
  (depth_pairs ps <= length body)%nat ∧ (length ps <= length body)%nat ∧
  ∀ fuel suf, (depth_pairs ps <= fuel)%nat →
    decode_pairs (decode_item fuel) (length ps) (body ++ suf) = Some (ps, suf).
Proof.
  revert body. induction ps as [|[k v] ps IH]; intros body Hr Hok Hs Hlen; simpl in Hs.
  - injection Hs as <-. simpl. split_and!; [lia|lia|done].
  - apply bind_Some in Hs as (a & Ea & Hs). apply bind_Some in Hs as (b & Eb & Hs).
    apply bind_Some in Hs as (bs & Ebs & [= <-]).
    apply Forall_cons_1 in Hr as [[Hrk Hrv] Hr]. apply Forall_cons_1 in Hok as [[Hokk Hokv] Hok].
    rewrite !zlen_app in Hlen. pose proof (zlen_nonneg a). pose proof (zlen_nonneg b). pose proof (zlen_nonneg bs).
    destruct (Hrk a Ea Hokk ltac:(lia)) as [Hd1 He1]. destruct (Hrv b Eb Hokv ltac:(lia)) as [Hd2 He2].
    destruct (IH bs Hr Hok Ebs ltac:(lia)) as (Hd' & Hl' & He').
    assert (1 <= cbor_depth k)%nat by (destruct k; simpl; lia).
    simpl in *. rewrite !length_app. split_and!; [lia|lia|]. intros fuel suf Hf.
    rewrite <- !(assoc_L (++)), He1 by lia. simpl. rewrite He2 by lia. simpl. rewrite He' by lia. done.
Qed.

Lemma cbor_roundtrips i : roundtrips i.
Proof.
  induction i as [i Ha Hm Ht|d n es IH|d n ps IH|v t IH] using cbor_item_nested_ind.
  - intros b Hs Hok Hlen. destruct i as [w v|w v|d|cs|d|cs|d n es|d n ps|v t|w v]; simpl in Hs;
      try discriminate; try (exfalso; by eapply Ha); try (exfalso; by eapply Hm); injection Hs as <-.
    + split; [simpl; apply encode_int_nonempty|]. intros [|fuel] suf Hf; [simpl in Hf; lia|].
      cbn [decode_item]. pose proof (decode_head_int w v 0 suf ltac:(lia) Hok) as E.
      change (32 * 0) with 0 in E. by rewrite E.
    + split; [simpl; apply encode_int_nonempty|]. intros [|fuel] suf Hf; [simpl in Hf; lia|].
      cbn [decode_item]. pose proof (decode_head_int w v 1 suf ltac:(lia) Hok) as E.
      change (32 * 1) with 0x20 in E. by rewrite E.
    + rewrite zlen_app in Hlen. pose proof (zlen_nonneg d). pose proof (zlen_nonneg (encode_uint (zlen d) 64)).
      destruct (decode_head_uint (zlen d) 2 []) as (? & _ & Hne); [lia|lia|]. change (32 * 2) with 64 in Hne.
      split; [rewrite length_app; cbn [cbor_depth]; lia|]. intros [|fuel] suf Hf; [simpl in Hf; lia|].
      cbn [decode_item]. rewrite <- (assoc_L (++)). change 0x40 with (32 * 2).
      destruct (decode_head_uint (zlen d) 2 (d ++ suf)) as (w & -> & _); [lia|lia|]. simpl.
      rewrite (proj2 (Z.ltb_ge _ _)) by (rewrite zlen_app; pose proof (zlen_nonneg suf); lia).
      unfold zlen. rewrite Nat2Z.id, take_app_length, drop_app_length. done.
    + rewrite zlen_app in Hlen. pose proof (zlen_nonneg d). pose proof (zlen_nonneg (encode_uint (zlen d) 96)).
      destruct (decode_head_uint (zlen d) 3 []) as (? & _ & Hne); [lia|lia|]. change (32 * 3) with 96 in Hne.
      split; [rewrite length_app; cbn [cbor_depth]; lia|]. intros [|fuel] suf Hf; [simpl in Hf; lia|].
      cbn [decode_item]. rewrite <- (assoc_L (++)). change 0x60 with (32 * 3).
      destruct (decode_head_uint (zlen d) 3 (d ++ suf)) as (w & -> & _); [lia|lia|]. simpl.
      rewrite (proj2 (Z.ltb_ge _ _)) by (rewrite zlen_app; pose proof (zlen_nonneg suf); lia).
      unfold zlen. rewrite Nat2Z.id, take_app_length, drop_app_length. done.
  - intros b Hs Hok Hlen. destruct d; [|done]. simpl in Hs. fold serialize_all in Hs.
    apply cbor_fits_array in Hok as [Hn Hok]. specialize (Hn eq_refl). subst n.
    apply bind_Some in Hs as (body & Eb & [= <-]). rewrite zlen_app in Hlen.
    pose proof (zlen_nonneg es). pose proof (zlen_nonneg body). pose proof (zlen_nonneg (encode_uint (zlen es) 128)).
    destruct (roundtrips_seq es body IH Hok Eb ltac:(lia)) as (Hd & Hl & He).
    assert (Hes : 0 <= zlen es < 2 ^ 64) by (unfold zlen in *; lia).
    destruct (decode_head_uint (zlen es) 4 [] ltac:(lia) Hes) as (? & _ & Hne). change (32 * 4) with 128 in Hne.
    split; [rewrite length_app; cbn [cbor_depth]; fold depth_all; lia|].
    intros [|fuel] suf Hf; [simpl in Hf; lia|]. simpl in Hf. fold depth_all in Hf.
    cbn [decode_item]. rewrite <- (assoc_L (++)). change 0x80 with (32 * 4).
    destruct (decode_head_uint (zlen es) 4 (body ++ suf) ltac:(lia) Hes) as (w & -> & _). simpl.
    rewrite (proj2 (Z.ltb_ge _ _)) by (rewrite zlen_app; pose proof (zlen_nonneg suf); unfold zlen in *; lia).
    replace (Z.to_nat (zlen es)) with (length es) by (unfold zlen; lia). by rewrite He by lia.
  - intros b Hs Hok Hlen. destruct d; [|done]. simpl in Hs. fold serialize_pairs in Hs.
    apply cbor_fits_map in Hok as [Hn Hok]. specialize (Hn eq_refl). subst n.
    apply bind_Some in Hs as (body & Eb & [= <-]). rewrite zlen_app in Hlen.
    pose proof (zlen_nonneg ps). pose proof (zlen_nonneg body). pose proof (zlen_nonneg (encode_uint (zlen ps) 160)).
    destruct (roundtrips_pairs ps body IH Hok Eb ltac:(lia)) as (Hd & Hl & He).
    assert (Hps : 0 <= zlen ps < 2 ^ 64) by (unfold zlen in *; lia).
    destruct (decode_head_uint (zlen ps) 5 [] ltac:(lia) Hps) as (? & _ & Hne). change (32 * 5) with 160 in Hne.
    split; [rewrite length_app; cbn [cbor_depth]; fold depth_pairs; lia|].
    intros [|fuel] suf Hf; [simpl in Hf; lia|]. simpl in Hf. fold depth_pairs in Hf.
    cbn [decode_item]. rewrite <- (assoc_L (++)). change 0xA0 with (32 * 5).
    destruct (decode_head_uint (zlen ps) 5 (body ++ suf) ltac:(lia) Hps) as (w & -> & _). simpl.
    rewrite (proj2 (Z.ltb_ge _ _)) by (rewrite zlen_app; pose proof (zlen_nonneg suf); unfold zlen in *; lia).
    replace (Z.to_nat (zlen ps)) with (length ps) by (unfold zlen; lia). by rewrite He by lia.
  - intros b Hs. done.
Qed.

Lemma cbor_ok_fits i : cbor_ok i → cbor_fits i.
Proof.
  induction i as [i Ha Hm Ht|d n es IH|d n ps IH|v t IH] using cbor_item_nested_ind.
  - destruct i as [w v|w v|d|cs|d|cs|d n es|d n ps|v t|w v]; try done;
      [by destruct (Ha d n es)|by destruct (Hm d n ps)|by destruct (Ht v t)].
  - rewrite cbor_ok_array, cbor_fits_array. intros [Hn H]. split; [done|]. clear Hn.
    rewrite list.Forall_forall in IH, H |- *. intros e He. by apply IH, H.
  - rewrite cbor_ok_map, cbor_fits_map. intros [Hn H]. split; [done|]. clear Hn.
    rewrite list.Forall_forall in IH, H |- *. intros p Hp. destruct (IH p Hp), (H p Hp). auto.
  - exact IH.
Qed.

(** The reader reads back what the writer wrote. *)
Lemma cbor_load_alloc i :
  cbor_fits i → 0 < zlen (cbor_serialize_alloc i) < 2 ^ 32 → cbor_load (cbor_serialize_alloc i) = Some i.
Proof.
  unfold cbor_serialize_alloc, cbor_load. destruct (cbor_serialize i) as [b|] eqn:E; [|by cbn; intros _ []].
  change (default [] (Some b)) with b. intros Hf Hl. destruct (cbor_roundtrips i b E Hf) as [Hd He]; [lia|].
  specialize (He (length b) [] Hd). rewrite app_nil_r in He. by rewrite He.
Qed.

(** ** Properties *)

(** Every item of the fragment the codecs use is read back exactly as it
    was written (integer widths included), whatever follows it in the buffer;
    the reader needs no more fuel than the length of the data. *)
Theorem cbor_wire_roundtrip i b suf :
  cbor_serialize i = Some b → cbor_ok i → zlen b < 2 ^ 64 →
  cbor_load (b ++ suf) = Some i ∧ cbor_load (cbor_serialize_alloc i) = Some i.
Proof.
  intros Hs Hok Hlen. destruct (cbor_roundtrips i b Hs (cbor_ok_fits i Hok) Hlen) as [Hd He].
  unfold cbor_serialize_alloc, cbor_load. rewrite Hs. simpl. split.
  - by rewrite He by (rewrite length_app; lia).
  - pose proof (He (length b) [] Hd) as H. rewrite app_nil_r in H. by rewrite H.
Qed.

Lemma cbor_wire_roundtrip_witness :
  cbor_load ([0x82; 0x05; 0x43; 1; 2; 3] ++ [9]) = Some (CArray true 2 [CUint CBOR_INT_8 5; CBytes [1; 2; 3]]).
Proof.
  apply (cbor_wire_roundtrip (CArray true 2 [CUint CBOR_INT_8 5; CBytes [1; 2; 3]])
    [0x82; 0x05; 0x43; 1; 2; 3] [9]);
    [vm_compute; reflexivity| |by vm_compute].
  apply cbor_ok_array. split; [done|]. repeat constructor; vm_compute; congruence.
Defined.
