(* ===== verification/CborDecoder.v ===== *)
(** * CborDecoder: libcbor's streaming decoder and item builder

    [cbor_load] of the vendored libcbor: the byte-level decoder
    ([cbor/streaming.c], [internal/loaders.c]) calls back into the builder
    ([internal/builder_callbacks.c]), which keeps the items under construction
    on a stack ([internal/stack.c]) of at most [CBOR_MAX_STACK_SIZE] frames.

    A pointer into the buffer is the list of the bytes from it to the end.  An
    item on the stack is a [cbor_partial]: an open string, array, map or tag;
    the key of a pair whose value is still NULL is [pm_key].  [malloc] says
    which sizes are served and is an argument, because the decoder has a path
    for every allocation that fails.  Reference counts are not followed. *)

From S2P Require Import Prelude Endian Utf8 Cbor.

#[local] Set Warnings "-register-all".

Definition CBOR_BUFFER_GROWTH : Z := 2.
Definition CBOR_MAX_STACK_SIZE : Z := 2048.

(** ** Loaders *)

Definition cbor_load_uint8 (source : list Z) : exec Z := deref source 0.

Definition cbor_load_uint16 (source : list Z) : exec Z :=
  b0 <- deref source 0 ;; b1 <- deref source 1 ;;
  Ret (u16 (Z.shiftl b0 8 + b1)).

Definition cbor_load_uint32 (source : list Z) : exec Z :=
  b0 <- deref source 0 ;; b1 <- deref source 1 ;; b2 <- deref source 2 ;; b3 <- deref source 3 ;;
  Ret (u32 (Z.shiftl b0 0x18 + Z.shiftl b1 0x10 + Z.shiftl b2 0x08 + b3)).

Definition cbor_load_uint64 (source : list Z) : exec Z :=
  b0 <- deref source 0 ;; b1 <- deref source 1 ;; b2 <- deref source 2 ;; b3 <- deref source 3 ;;
  b4 <- deref source 4 ;; b5 <- deref source 5 ;; b6 <- deref source 6 ;; b7 <- deref source 7 ;;
  Ret (u64 (Z.shiftl b0 0x38 + Z.shiftl b1 0x30 + Z.shiftl b2 0x28 + Z.shiftl b3 0x20 +
            u32 (Z.shiftl b4 0x18) + Z.shiftl b5 0x10 + Z.shiftl b6 0x08 + b7)).

(** Floating-point values are their IEEE 754 bits.  [mant * 2^exp], exact, as
    a single. *)
Definition float_bits (mant exp : Z) : Z :=
  if mant =? 0 then 0
  else let k := Z.log2 mant in
       Z.shiftl (exp + k + 127) 23 + Z.shiftl (mant - 2 ^ k) (23 - k).

Definition FLOAT_INFINITY : Z := 0x7f800000.
Definition FLOAT_NAN : Z := 0x7fc00000.

Definition cbor_decode_half (half : Z) : Z :=
  let exp := Z.land (Z.shiftr half 10) 0x1f in
  let mant := Z.land half 0x3ff in
  let val :=
    if exp =? 0 then float_bits mant (-24)
    else if negb (exp =? 31) then float_bits (mant + 1024) (exp - 25)
    else if mant =? 0 then FLOAT_INFINITY else FLOAT_NAN in
  if negb (Z.land half 0x8000 =? 0) then Z.lxor val (2 ^ 31) else val.

Definition cbor_load_half (source : list Z) : exec Z :=
  b0 <- deref source 0 ;; b1 <- deref source 1 ;; Ret (cbor_decode_half (Z.shiftl b0 8 + b1)).

Definition cbor_load_float (source : list Z) : exec Z := cbor_load_uint32 source.
Definition cbor_load_double (source : list Z) : exec Z := cbor_load_uint64 source.

(** ** The streaming decoder *)

Inductive cbor_decoder_status := CBOR_DECODER_FINISHED | CBOR_DECODER_NEDATA | CBOR_DECODER_ERROR.

Record cbor_decoder_result := mkDecoderResult {
  dr_read : Z;
  dr_status : cbor_decoder_status;
  dr_required : Z
}.

(** Every callback gets the context; strings come as a pointer and a length. *)
Record cbor_callbacks (C : Type) := mkCallbacks {
  cb_uint8 : Z → C → exec C;
  cb_uint16 : Z → C → exec C;
  cb_uint32 : Z → C → exec C;
  cb_uint64 : Z → C → exec C;
  cb_negint8 : Z → C → exec C;
  cb_negint16 : Z → C → exec C;
  cb_negint32 : Z → C → exec C;
  cb_negint64 : Z → C → exec C;
  cb_byte_string : list Z → Z → C → exec C;
  cb_byte_string_start : C → exec C;
  cb_string : list Z → Z → C → exec C;
  cb_string_start : C → exec C;
  cb_array_start : Z → C → exec C;
  cb_indef_array_start : C → exec C;
  cb_map_start : Z → C → exec C;
  cb_indef_map_start : C → exec C;
  cb_tag : Z → C → exec C;
  cb_float2 : Z → C → exec C;
  cb_float4 : Z → C → exec C;
  cb_float8 : Z → C → exec C;
  cb_undefined : C → exec C;
  cb_null : C → exec C;
  cb_boolean : bool → C → exec C;
  cb_indef_break : C → exec C
}.
Arguments mkCallbacks {C}.
Arguments cb_uint8 {C}. Arguments cb_uint16 {C}. Arguments cb_uint32 {C}. Arguments cb_uint64 {C}.
Arguments cb_negint8 {C}. Arguments cb_negint16 {C}. Arguments cb_negint32 {C}. Arguments cb_negint64 {C}.
Arguments cb_byte_string {C}. Arguments cb_byte_string_start {C}.
Arguments cb_string {C}. Arguments cb_string_start {C}.
Arguments cb_array_start {C}. Arguments cb_indef_array_start {C}.
Arguments cb_map_start {C}. Arguments cb_indef_map_start {C}. Arguments cb_tag {C}.
Arguments cb_float2 {C}. Arguments cb_float4 {C}. Arguments cb_float8 {C}.
Arguments cb_undefined {C}. Arguments cb_null {C}. Arguments cb_boolean {C}. Arguments cb_indef_break {C}.

Definition claim_bytes (required provided : Z) (result : cbor_decoder_result)
  : exec (bool * cbor_decoder_result) :=
  if provided <? dr_read result then Trap
  else if provided - dr_read result <? required then
    Ret (false, mkDecoderResult 0 CBOR_DECODER_NEDATA (u64 (required + dr_read result)))
  else Ret (true, mkDecoderResult (dr_read result + required) (dr_status result) 0).

Section stream.
Context {C : Type} (callbacks : cbor_callbacks C).

(** [if (claim_bytes(n, source_size, &result)) callback(...); return result;] *)
Definition claim_invoke (n : Z) (source : list Z) (result : cbor_decoder_result) (context : C)
    (callback : C → exec C) : exec (cbor_decoder_result * C) :=
  '(ok, result') <- claim_bytes n (zlen source) result ;;
  if (ok : bool) then c <- callback context ;; Ret (result', c) else Ret (result', context).

(** [CLAIM_BYTES_AND_INVOKE] *)
Definition claim_bytes_and_invoke (callback : list Z → Z → C → exec C) (length extra : Z)
    (source : list Z) (result : cbor_decoder_result) (context : C) : exec (cbor_decoder_result * C) :=
  claim_invoke length source result context (callback (drop (Z.to_nat (1 + extra)) source) length).

(** [READ_CLAIM_INVOKE] *)
Definition read_claim_invoke (callback : list Z → Z → C → exec C) (length_reader : list Z → exec Z)
    (length_bytes : Z) (source : list Z) (result : cbor_decoder_result) (context : C)
  : exec (cbor_decoder_result * C) :=
  '(ok, result') <- claim_bytes length_bytes (zlen source) result ;;
  if (ok : bool) then
    length <- length_reader (drop 1 source) ;;
    claim_bytes_and_invoke callback length length_bytes source result' context
  else Ret (result', context).

(** A callback that takes one integer read from [source + 1]. *)
Definition read_invoke (callback : Z → C → exec C) (reader : list Z → exec Z) (n : Z)
    (source : list Z) (result : cbor_decoder_result) (context : C) : exec (cbor_decoder_result * C) :=
  claim_invoke n source result context (fun c => v <- reader (drop 1 source) ;; callback v c).

Definition invoke (callback : C → exec C) (result : cbor_decoder_result) (context : C)
  : exec (cbor_decoder_result * C) :=
  c <- callback context ;; Ret (result, c).

Definition decoder_error : cbor_decoder_result := mkDecoderResult 0 CBOR_DECODER_ERROR 0.

(** The cases 0x00 to 0x1F: unsigned integers. *)
Definition decode_uint (b : Z) (source : list Z) (result : cbor_decoder_result) (context : C)
  : exec (cbor_decoder_result * C) :=
  if b <=? 0x17 then invoke (cb_uint8 callbacks b) result context
  else if b =? 0x18 then read_invoke (cb_uint8 callbacks) cbor_load_uint8 1 source result context
  else if b =? 0x19 then read_invoke (cb_uint16 callbacks) cbor_load_uint16 2 source result context
  else if b =? 0x1a then read_invoke (cb_uint32 callbacks) cbor_load_uint32 4 source result context
  else if b =? 0x1b then read_invoke (cb_uint64 callbacks) cbor_load_uint64 8 source result context
  else Ret (decoder_error, context).

(** 0x20 to 0x3F: negative integers. *)
Definition decode_negint (b : Z) (source : list Z) (result : cbor_decoder_result) (context : C)
  : exec (cbor_decoder_result * C) :=
  if b <=? 0x37 then invoke (cb_negint8 callbacks (u8 (b - 0x20))) result context
  else if b =? 0x38 then read_invoke (cb_negint8 callbacks) cbor_load_uint8 1 source result context
  else if b =? 0x39 then read_invoke (cb_negint16 callbacks) cbor_load_uint16 2 source result context
  else if b =? 0x3a then read_invoke (cb_negint32 callbacks) cbor_load_uint32 4 source result context
  else if b =? 0x3b then read_invoke (cb_negint64 callbacks) cbor_load_uint64 8 source result context
  else Ret (decoder_error, context).

(** 0x40 to 0x5F: byte strings. *)
Definition decode_byte_string (b : Z) (source : list Z) (result : cbor_decoder_result) (context : C)
  : exec (cbor_decoder_result * C) :=
  if b <=? 0x57 then
    claim_bytes_and_invoke (cb_byte_string callbacks) (u8 (b - 0x40)) 0 source result context
  else if b =? 0x58 then read_claim_invoke (cb_byte_string callbacks) cbor_load_uint8 1 source result context
  else if b =? 0x59 then read_claim_invoke (cb_byte_string callbacks) cbor_load_uint16 2 source result context
  else if b =? 0x5a then read_claim_invoke (cb_byte_string callbacks) cbor_load_uint32 4 source result context
  else if b =? 0x5b then read_claim_invoke (cb_byte_string callbacks) cbor_load_uint64 8 source result context
  else if b <=? 0x5e then Ret (decoder_error, context)
  else invoke (cb_byte_string_start callbacks) result context.

(** 0x60 to 0x7F: text strings. *)
Definition decode_string (b : Z) (source : list Z) (result : cbor_decoder_result) (context : C)
  : exec (cbor_decoder_result * C) :=
  if b <=? 0x77 then
    claim_bytes_and_invoke (cb_string callbacks) (u8 (b - 0x60)) 0 source result context
  else if b =? 0x78 then read_claim_invoke (cb_string callbacks) cbor_load_uint8 1 source result context
  else if b =? 0x79 then read_claim_invoke (cb_string callbacks) cbor_load_uint16 2 source result context
  else if b =? 0x7a then read_claim_invoke (cb_string callbacks) cbor_load_uint32 4 source result context
  else if b =? 0x7b then read_claim_invoke (cb_string callbacks) cbor_load_uint64 8 source result context
  else if b <=? 0x7e then Ret (decoder_error, context)
  else invoke (cb_string_start callbacks) result context.

(** 0x80 to 0x9F: arrays. *)
Definition decode_array (b : Z) (source : list Z) (result : cbor_decoder_result) (context : C)
  : exec (cbor_decoder_result * C) :=
  if b <=? 0x97 then invoke (cb_array_start callbacks (u8 (b - 0x80))) result context
  else if b =? 0x98 then read_invoke (cb_array_start callbacks) cbor_load_uint8 1 source result context
  else if b =? 0x99 then read_invoke (cb_array_start callbacks) cbor_load_uint16 2 source result context
  else if b =? 0x9a then read_invoke (cb_array_start callbacks) cbor_load_uint32 4 source result context
  else if b =? 0x9b then read_invoke (cb_array_start callbacks) cbor_load_uint64 8 source result context
  else if b <=? 0x9e then Ret (decoder_error, context)
  else invoke (cb_indef_array_start callbacks) result context.

(** 0xA0 to 0xBF: maps. *)
Definition decode_map (b : Z) (source : list Z) (result : cbor_decoder_result) (context : C)
  : exec (cbor_decoder_result * C) :=
  if b <=? 0xb7 then invoke (cb_map_start callbacks (u8 (b - 0xA0))) result context
  else if b =? 0xb8 then read_invoke (cb_map_start callbacks) cbor_load_uint8 1 source result context
  else if b =? 0xb9 then read_invoke (cb_map_start callbacks) cbor_load_uint16 2 source result context
  else if b =? 0xba then read_invoke (cb_map_start callbacks) cbor_load_uint32 4 source result context
  else if b =? 0xbb then read_invoke (cb_map_start callbacks) cbor_load_uint64 8 source result context
  else if b <=? 0xbe then Ret (decoder_error, context)
  else invoke (cb_indef_map_start callbacks) result context.

(** 0xC0 to 0xDF: tags. *)
Definition decode_tag (b : Z) (source : list Z) (result : cbor_decoder_result) (context : C)
  : exec (cbor_decoder_result * C) :=
  if b <=? 0xd7 then invoke (cb_tag callbacks (u8 (b - 0xC0))) result context
  else if b =? 0xd8 then read_invoke (cb_tag callbacks) cbor_load_uint8 1 source result context
  else if b =? 0xd9 then read_invoke (cb_tag callbacks) cbor_load_uint16 2 source result context
  else if b =? 0xda then read_invoke (cb_tag callbacks) cbor_load_uint32 4 source result context
  else if b =? 0xdb then read_invoke (cb_tag callbacks) cbor_load_uint64 8 source result context
  else Ret (decoder_error, context).

(** 0xE0 to 0xFF: simple values, floats and the break. *)
Definition decode_simple (b : Z) (source : list Z) (result : cbor_decoder_result) (context : C)
  : exec (cbor_decoder_result * C) :=
  if b <=? 0xF3 then Ret (decoder_error, context)
  else if b =? 0xF4 then invoke (cb_boolean callbacks false) result context
  else if b =? 0xF5 then invoke (cb_boolean callbacks true) result context
  else if b =? 0xF6 then invoke (cb_null callbacks) result context
  else if b =? 0xF7 then invoke (cb_undefined callbacks) result context
  else if b =? 0xF8 then Ret (decoder_error, context)
  else if b =? 0xF9 then read_invoke (cb_float2 callbacks) cbor_load_half 2 source result context
  else if b =? 0xFA then read_invoke (cb_float4 callbacks) cbor_load_float 4 source result context
  else if b =? 0xFB then read_invoke (cb_float8 callbacks) cbor_load_double 8 source result context
  else if b <=? 0xFE then Ret (decoder_error, context)
  else invoke (cb_indef_break callbacks) result context.

(** The initial byte is claimed first; the switch is on its value. *)
Definition cbor_stream_decode (source : list Z) (context : C) : exec (cbor_decoder_result * C) :=
  '(ok, result) <- claim_bytes 1 (zlen source) (mkDecoderResult 0 CBOR_DECODER_FINISHED 0) ;;
  if negb ok then Ret (result, context)
  else
    b <- deref source 0 ;;
    if b <=? 0x1F then decode_uint b source result context
    else if b <=? 0x3F then decode_negint b source result context
    else if b <=? 0x5F then decode_byte_string b source result context
    else if b <=? 0x7F then decode_string b source result context
    else if b <=? 0x9F then decode_array b source result context
    else if b <=? 0xBF then decode_map b source result context
    else if b <=? 0xDF then decode_tag b source result context
    else decode_simple b source result context.
End stream.

(** ** Allocation *)

Definition sizeof_cbor_item_t : Z := 48.
Definition sizeof_cbor_pair : Z := 16.
Definition sizeof_pointer : Z := 8.
Definition sizeof_indefinite_string_data : Z := 24.
Definition sizeof_stack_record : Z := 24.

(** The loop shifts a [size_t] to zero: 64 rounds at most. *)
Fixpoint highest_bit_loop (fuel : nat) (number bit : Z) : Z :=
  match fuel with
  | O => bit
  | S fuel' => if number =? 0 then bit else highest_bit_loop fuel' (Z.shiftr number 1) (bit + 1)
  end.
Definition cbor_highest_bit (number : Z) : Z := highest_bit_loop 64 number 0.

Definition cbor_safe_to_multiply (a b : Z) : bool :=
  if (a <=? 1) || (b <=? 1) then true
  else cbor_highest_bit a + cbor_highest_bit b <=? 64.

(** ** Items under construction *)

Inductive cbor_partial :=
| PBytes (chunks : list (list Z)) (chunk_capacity : Z)
| PString (chunks : list (list Z)) (chunk_capacity : Z)
| PArray (definite : bool) (allocated : Z) (elems : list cbor_item)
| PMap (definite : bool) (allocated : Z) (pairs : list (cbor_item * cbor_item)) (pm_key : option cbor_item)
| PTag (value : Z).

(** The item a frame holds when it is popped; a NULL component in it would be
    dereferenced by whoever reads the item. *)
Definition partial_item (p : cbor_partial) : exec cbor_item :=
  match p with
  | PBytes cs _ => Ret (CBytesIndef cs)
  | PString cs _ => Ret (CStringIndef cs)
  | PArray d n es => Ret (CArray d n es)
  | PMap d n ps None => Ret (CMap d n ps)
  | PMap _ _ _ (Some _) => Trap
  | PTag _ => Trap
  end.

(** [end_ptr] of a map: a key takes a slot before its value is known. *)
Definition pending (k : option cbor_item) : Z := match k with Some _ => 1 | None => 0 end.

Record cbor_stack_record := mkStackRecord {
  sr_item : cbor_partial;
  sr_subitems : Z
}.

Record cbor_decoder_context := mkContext {
  cx_creation_failed : bool;
  cx_syntax_error : bool;
  cx_root : option cbor_item;
  cx_stack : list cbor_stack_record
}.

Definition cx_with_stack (c : cbor_decoder_context) (s : list cbor_stack_record) : cbor_decoder_context :=
  mkContext (cx_creation_failed c) (cx_syntax_error c) (cx_root c) s.
Definition cx_fail (c : cbor_decoder_context) : cbor_decoder_context :=
  mkContext true (cx_syntax_error c) (cx_root c) (cx_stack c).
Definition cx_bad_syntax (c : cbor_decoder_context) : cbor_decoder_context :=
  mkContext (cx_creation_failed c) true (cx_root c) (cx_stack c).

Section builder.
Context (malloc : Z → bool).

(** [_cbor_alloc_multiple] and [_cbor_realloc_multiple]: whether the block is
    served. *)
Definition cbor_alloc_multiple (item_size item_count : Z) : bool :=
  if cbor_safe_to_multiply item_size item_count then malloc (u64 (item_size * item_count)) else false.

(** The exponential growth shared by arrays, maps and chunk lists: the new
    capacity, or [None] when it cannot be had. *)
Definition grow_buffer (item_size allocated : Z) : option Z :=
  if negb (cbor_safe_to_multiply CBOR_BUFFER_GROWTH allocated) then None
  else
    let new_allocation := if allocated =? 0 then 1 else u64 (CBOR_BUFFER_GROWTH * allocated) in
    if cbor_alloc_multiple item_size new_allocation then Some new_allocation else None.

Definition partial_array_push (array : cbor_partial) (pushee : cbor_item) : exec (option cbor_partial) :=
  match array with
  | PArray true alloc es =>
      Ret (if alloc <=? zlen es then None else Some (PArray true alloc (es ++ [pushee])))
  | PArray false alloc es =>
      if alloc <=? zlen es then
        Ret (match grow_buffer sizeof_pointer alloc with
             | Some alloc' => Some (PArray false alloc' (es ++ [pushee]))
             | None => None
             end)
      else Ret (Some (PArray false alloc (es ++ [pushee])))
  | _ => Trap
  end.

(** A second key on top of a pending one would leave a pair without value. *)
Definition cbor_map_add_key (item : cbor_partial) (key : cbor_item) : exec (option cbor_partial) :=
  match item with
  | PMap definite alloc ps k =>
      let put alloc' := match k with None => Ret (Some (PMap definite alloc' ps (Some key))) | Some _ => Trap end in
      if alloc <=? zlen ps + pending k then
        if definite then Ret None
        else match grow_buffer sizeof_cbor_pair alloc with
             | Some alloc' => put alloc'
             | None => Ret None
             end
      else put alloc
  | _ => Trap
  end.

(** The value goes into the last pair. *)
Definition cbor_map_add_value (item : cbor_partial) (value : cbor_item) : exec cbor_partial :=
  match item with
  | PMap definite alloc ps (Some key) => Ret (PMap definite alloc (ps ++ [(key, value)]) None)
  | PMap definite alloc ps None =>
      match list.last ps with
      | Some (key, _) => Ret (PMap definite alloc (removelast ps ++ [(key, value)]) None)
      | None => Trap
      end
  | _ => Trap
  end.

Definition cbor_bytestring_add_chunk (item : cbor_partial) (chunk : list Z) : exec (option cbor_partial) :=
  match item with
  | PBytes cs cap =>
      if zlen cs =? cap then
        Ret (match grow_buffer sizeof_pointer cap with
             | Some cap' => Some (PBytes (cs ++ [chunk]) cap')
             | None => None
             end)
      else Ret (Some (PBytes (cs ++ [chunk]) cap))
  | _ => Trap
  end.

Definition cbor_string_add_chunk (item : cbor_partial) (chunk : list Z) : exec (option cbor_partial) :=
  match item with
  | PString cs cap =>
      if zlen cs =? cap then
        Ret (match grow_buffer sizeof_pointer cap with
             | Some cap' => Some (PString (cs ++ [chunk]) cap')
             | None => None
             end)
      else Ret (Some (PString (cs ++ [chunk]) cap))
  | _ => Trap
  end.

(** ** The stack *)

(** [None] is the NULL of a full stack or a failed allocation. *)
Definition cbor_stack_push (stack : list cbor_stack_record) (item : cbor_partial) (subitems : Z)
  : option (list cbor_stack_record) :=
  if zlen stack =? CBOR_MAX_STACK_SIZE then None
  else if negb (malloc sizeof_stack_record) then None
  else Some (mkStackRecord item subitems :: stack).

(** [PUSH_CTX_STACK] *)
Definition push_ctx_stack (ctx : cbor_decoder_context) (res : cbor_partial) (subitems : Z)
  : cbor_decoder_context :=
  match cbor_stack_push (cx_stack ctx) res subitems with
  | Some s => cx_with_stack ctx s
  | None => cx_fail ctx
  end.

(** ** The builder *)

(** [_cbor_builder_append] on the stack [stack] of [ctx]: the recursion is on
    the frames that the appended item completes. *)
Fixpoint append_item (stack : list cbor_stack_record) (item : cbor_item) (ctx : cbor_decoder_context)
  : exec cbor_decoder_context :=
  match stack with
  | [] => Ret (mkContext (cx_creation_failed ctx) (cx_syntax_error ctx) (Some item) [])
  | top :: lower =>
      let here := cx_with_stack ctx stack in
      match sr_item top with
      | PArray definite _ _ =>
          if (definite : bool) then
            if sr_subitems top <=? 0 then Trap
            else
              r <- partial_array_push (sr_item top) item ;;
              match r with
              | None => Ret (cx_fail here)
              | Some arr =>
                  if sr_subitems top - 1 =? 0 then
                    stack_item <- partial_item arr ;; append_item lower stack_item ctx
                  else Ret (cx_with_stack ctx (mkStackRecord arr (sr_subitems top - 1) :: lower))
              end
          else
            r <- partial_array_push (sr_item top) item ;;
            match r with
            | None => Ret (cx_fail here)
            | Some arr => Ret (cx_with_stack ctx (mkStackRecord arr (sr_subitems top) :: lower))
            end
      | PMap definite _ _ _ =>
          r <- (if negb (sr_subitems top mod 2 =? 0) then
                  m <- cbor_map_add_value (sr_item top) item ;; Ret (Some m)
                else cbor_map_add_key (sr_item top) item) ;;
          match r with
          | None => Ret (cx_fail here)
          | Some m =>
              if (definite : bool) then
                if sr_subitems top <=? 0 then Trap
                else if sr_subitems top - 1 =? 0 then
                  map_entry <- partial_item m ;; append_item lower map_entry ctx
                else Ret (cx_with_stack ctx (mkStackRecord m (sr_subitems top - 1) :: lower))
              else Ret (cx_with_stack ctx (mkStackRecord m (Z.lxor (sr_subitems top) 1) :: lower))
          end
      | PTag value =>
          if negb (sr_subitems top =? 1) then Trap
          else append_item lower (CTag value item) ctx
      | PBytes _ _ | PString _ _ => Ret (cx_bad_syntax here)
      end
  end.

Definition cbor_builder_append (item : cbor_item) (ctx : cbor_decoder_context) : exec cbor_decoder_context :=
  append_item (cx_stack ctx) item ctx.

(** [res = cbor_new_...(); CHECK_RES(ctx, res); ...; _cbor_builder_append(res, ctx)]
    for the items with a combined allocation of [extra] more bytes. *)
Definition build_leaf (extra : Z) (item : cbor_item) (ctx : cbor_decoder_context)
  : exec cbor_decoder_context :=
  if malloc (sizeof_cbor_item_t + extra) then cbor_builder_append item ctx else Ret (cx_fail ctx).

Definition cbor_builder_uint8_callback (value : Z) := build_leaf 1 (CUint CBOR_INT_8 (u8 value)).
Definition cbor_builder_uint16_callback (value : Z) := build_leaf 2 (CUint CBOR_INT_16 (u16 value)).
Definition cbor_builder_uint32_callback (value : Z) := build_leaf 4 (CUint CBOR_INT_32 (u32 value)).
Definition cbor_builder_uint64_callback (value : Z) := build_leaf 8 (CUint CBOR_INT_64 (u64 value)).
Definition cbor_builder_negint8_callback (value : Z) := build_leaf 1 (CNegint CBOR_INT_8 (u8 value)).
Definition cbor_builder_negint16_callback (value : Z) := build_leaf 2 (CNegint CBOR_INT_16 (u16 value)).
Definition cbor_builder_negint32_callback (value : Z) := build_leaf 4 (CNegint CBOR_INT_32 (u32 value)).
Definition cbor_builder_negint64_callback (value : Z) := build_leaf 8 (CNegint CBOR_INT_64 (u64 value)).

Definition CBOR_FLOAT_0 : Z := 0.
Definition CBOR_FLOAT_16 : Z := 1.
Definition CBOR_FLOAT_32 : Z := 2.
Definition CBOR_FLOAT_64 : Z := 3.
Definition CBOR_CTRL_FALSE : Z := 20.
Definition CBOR_CTRL_TRUE : Z := 21.
Definition CBOR_CTRL_NULL : Z := 22.
Definition CBOR_CTRL_UNDEF : Z := 23.

Definition cbor_builder_float2_callback (value : Z) := build_leaf 4 (CFloatCtrl CBOR_FLOAT_16 value).
Definition cbor_builder_float4_callback (value : Z) := build_leaf 4 (CFloatCtrl CBOR_FLOAT_32 value).
Definition cbor_builder_float8_callback (value : Z) := build_leaf 8 (CFloatCtrl CBOR_FLOAT_64 value).
Definition cbor_builder_null_callback := build_leaf 0 (CFloatCtrl CBOR_FLOAT_0 CBOR_CTRL_NULL).
Definition cbor_builder_undefined_callback := build_leaf 0 (CFloatCtrl CBOR_FLOAT_0 CBOR_CTRL_UNDEF).
Definition cbor_builder_boolean_callback (value : bool) :=
  build_leaf 0 (CFloatCtrl CBOR_FLOAT_0 (if value then CBOR_CTRL_TRUE else CBOR_CTRL_FALSE)).

(** The handle is set to [length] copied bytes; [CHECK_LENGTH] cannot fail when
    [size_t] has 64 bits. *)
Definition cbor_builder_byte_string_callback (data : list Z) (length : Z) (ctx : cbor_decoder_context)
  : exec cbor_decoder_context :=
  if negb (malloc length) then Ret (cx_fail ctx)
  else
    handle <- read_bytes data 0 length ;;
    if negb (malloc sizeof_cbor_item_t) then Ret (cx_fail ctx)
    else
      match cx_stack ctx with
      | mkStackRecord (PBytes _ _ as top) subitems :: lower =>
          r <- cbor_bytestring_add_chunk top handle ;;
          match r with
          | None => Ret (cx_fail ctx)
          | Some top' => Ret (cx_with_stack ctx (mkStackRecord top' subitems :: lower))
          end
      | _ => cbor_builder_append (CBytes handle) ctx
      end.

(** The assertion on the code points of [handle]; the count itself is only read
    by [cbor_string_codepoint_count]. *)
Definition cbor_string_set_handle (handle : list Z) : exec cbor_item :=
  '(codepoint_count, _) <- cbor_unicode_codepoint_count handle ;;
  if zlen handle <? codepoint_count then Trap else Ret (CString handle).

Definition cbor_builder_string_callback (data : list Z) (length : Z) (ctx : cbor_decoder_context)
  : exec cbor_decoder_context :=
  if negb (malloc length) then Ret (cx_fail ctx)
  else
    handle <- read_bytes data 0 length ;;
    if negb (malloc sizeof_cbor_item_t) then Ret (cx_fail ctx)
    else
      new_chunk <- cbor_string_set_handle handle ;;
      match cx_stack ctx with
      | mkStackRecord (PString _ _ as top) subitems :: lower =>
          r <- cbor_string_add_chunk top handle ;;
          match r with
          | None => Ret (cx_fail ctx)
          | Some top' => Ret (cx_with_stack ctx (mkStackRecord top' subitems :: lower))
          end
      | _ => cbor_builder_append new_chunk ctx
      end.

Definition cbor_builder_byte_string_start_callback (ctx : cbor_decoder_context) : exec cbor_decoder_context :=
  if malloc sizeof_cbor_item_t && malloc sizeof_indefinite_string_data
  then Ret (push_ctx_stack ctx (PBytes [] 0) 0) else Ret (cx_fail ctx).

Definition cbor_builder_string_start_callback (ctx : cbor_decoder_context) : exec cbor_decoder_context :=
  if malloc sizeof_cbor_item_t && malloc sizeof_indefinite_string_data
  then Ret (push_ctx_stack ctx (PString [] 0) 0) else Ret (cx_fail ctx).

Definition cbor_builder_array_start_callback (size : Z) (ctx : cbor_decoder_context)
  : exec cbor_decoder_context :=
  if malloc sizeof_cbor_item_t && cbor_alloc_multiple sizeof_pointer size then
    if 0 <? size then Ret (push_ctx_stack ctx (PArray true size []) size)
    else cbor_builder_append (CArray true size []) ctx
  else Ret (cx_fail ctx).

Definition cbor_builder_indef_array_start_callback (ctx : cbor_decoder_context) : exec cbor_decoder_context :=
  if malloc sizeof_cbor_item_t then Ret (push_ctx_stack ctx (PArray false 0 []) 0) else Ret (cx_fail ctx).

Definition cbor_builder_map_start_callback (size : Z) (ctx : cbor_decoder_context)
  : exec cbor_decoder_context :=
  if malloc sizeof_cbor_item_t && cbor_alloc_multiple sizeof_cbor_pair size then
    if 0 <? size then Ret (push_ctx_stack ctx (PMap true size [] None) (u64 (size * 2)))
    else cbor_builder_append (CMap true size []) ctx
  else Ret (cx_fail ctx).

Definition cbor_builder_indef_map_start_callback (ctx : cbor_decoder_context) : exec cbor_decoder_context :=
  if malloc sizeof_cbor_item_t then Ret (push_ctx_stack ctx (PMap false 0 [] None) 0) else Ret (cx_fail ctx).

Definition cbor_builder_tag_callback (value : Z) (ctx : cbor_decoder_context) : exec cbor_decoder_context :=
  if malloc sizeof_cbor_item_t then Ret (push_ctx_stack ctx (PTag value) 1) else Ret (cx_fail ctx).

Definition cbor_is_indefinite (p : cbor_partial) : bool :=
  match p with
  | PBytes _ _ | PString _ _ => true
  | PArray definite _ _ => negb definite
  | PMap definite _ _ _ => negb definite
  | PTag _ => false
  end.

Definition is_partial_map (p : cbor_partial) : bool := match p with PMap _ _ _ _ => true | _ => false end.

Definition cbor_builder_indef_break_callback (ctx : cbor_decoder_context) : exec cbor_decoder_context :=
  match cx_stack ctx with
  | top :: lower =>
      if cbor_is_indefinite (sr_item top) &&
         (negb (is_partial_map (sr_item top)) || (sr_subitems top mod 2 =? 0))
      then
        item <- partial_item (sr_item top) ;;
        cbor_builder_append item (cx_with_stack ctx lower)
      else Ret (cx_bad_syntax ctx)
  | [] => Ret (cx_bad_syntax ctx)
  end.

(** The [callbacks] of [cbor_load]. *)
Definition builder_callbacks : cbor_callbacks cbor_decoder_context := {|
  cb_uint8 := cbor_builder_uint8_callback;
  cb_uint16 := cbor_builder_uint16_callback;
  cb_uint32 := cbor_builder_uint32_callback;
  cb_uint64 := cbor_builder_uint64_callback;
  cb_negint8 := cbor_builder_negint8_callback;
  cb_negint16 := cbor_builder_negint16_callback;
  cb_negint32 := cbor_builder_negint32_callback;
  cb_negint64 := cbor_builder_negint64_callback;
  cb_byte_string := cbor_builder_byte_string_callback;
  cb_byte_string_start := cbor_builder_byte_string_start_callback;
  cb_string := cbor_builder_string_callback;
  cb_string_start := cbor_builder_string_start_callback;
  cb_array_start := cbor_builder_array_start_callback;
  cb_indef_array_start := cbor_builder_indef_array_start_callback;
  cb_map_start := cbor_builder_map_start_callback;
  cb_indef_map_start := cbor_builder_indef_map_start_callback;
  cb_tag := cbor_builder_tag_callback;
  cb_float2 := cbor_builder_float2_callback;
  cb_float4 := cbor_builder_float4_callback;
  cb_float8 := cbor_builder_float8_callback;
  cb_undefined := cbor_builder_undefined_callback;
  cb_null := cbor_builder_null_callback;
  cb_boolean := cbor_builder_boolean_callback;
  cb_indef_break := cbor_builder_indef_break_callback |}.

(** ** Loading *)

Inductive cbor_error_code :=
| CBOR_ERR_NONE | CBOR_ERR_NOTENOUGHDATA | CBOR_ERR_NODATA
| CBOR_ERR_MALFORMATED | CBOR_ERR_MEMERROR | CBOR_ERR_SYNTAXERROR.

#[export] Instance cbor_error_code_eq_dec : EqDecision cbor_error_code.
Proof. solve_decision. Defined.

Record cbor_load_result := mkLoadResult {
  lr_position : Z;
  lr_code : cbor_error_code;
  lr_read : Z
}.

(** One round of the loop at offset [read]: an error code, or the bytes
    consumed and the context. *)
Definition load_round (source : list Z) (read : Z) (context : cbor_decoder_context)
  : exec (cbor_error_code + Z * cbor_decoder_context) :=
  if read <? zlen source then
    '(decode_result, context') <- cbor_stream_decode builder_callbacks (drop (Z.to_nat read) source) context ;;
    match dr_status decode_result with
    | CBOR_DECODER_NEDATA => Ret (inl CBOR_ERR_NOTENOUGHDATA)
    | CBOR_DECODER_ERROR => Ret (inl CBOR_ERR_MALFORMATED)
    | CBOR_DECODER_FINISHED =>
        if cx_creation_failed context' then Ret (inl CBOR_ERR_MEMERROR)
        else if cx_syntax_error context' then Ret (inl CBOR_ERR_SYNTAXERROR)
        else Ret (inr (dr_read decode_result, context'))
    end
  else Ret (inl CBOR_ERR_NOTENOUGHDATA).

(** [None] is a loop that is still running after [fuel] rounds. *)
Fixpoint load_loop (fuel : nat) (source : list Z) (read : Z) (context : cbor_decoder_context)
  : option (exec (option cbor_item * cbor_load_result)) :=
  match fuel with
  | O => None
  | S fuel' =>
      match load_round source read context with
      | Trap => Some Trap
      | Ret (inl code) => Some (Ret (None, mkLoadResult read code read))
      | Ret (inr (n, context')) =>
          match cx_stack context' with
          | [] => Some (Ret (cx_root context', mkLoadResult 0 CBOR_ERR_NONE (read + n)))
          | _ => load_loop fuel' source (read + n) context'
          end
      end
  end.

(** [result0] is what the caller's result structure holds before the call. *)
Definition cbor_load_stream (source : list Z) (result0 : cbor_load_result)
  : option (exec (option cbor_item * cbor_load_result)) :=
  if zlen source =? 0 then
    Some (Ret (None, mkLoadResult (lr_position result0) CBOR_ERR_NODATA (lr_read result0)))
  else load_loop (S (length source)) source 0 (mkContext false false None []).
End builder.
