(* ===== verification/CborGrammar.v ===== *)
(** * CborGrammar: what a CBOR item is

    The grammar of RFC 8949 as libcbor reads it, as an inductive relation over
    byte strings, independent of the decoder's stack and callbacks: [next] is
    the token at the head of a buffer, [item_at d l i rest] says that [l] starts
    with an encoding of [i] that nests at most [d] containers deep and leaves
    [rest].  [CborWire.cbor_serialize] produces such encodings. *)

From S2P Require Import Prelude Bitset Endian Utf8 Cbor CborWire CborDecoder.

#[local] Set Warnings "-register-all".

(** ** Tokens *)

Inductive cbor_token :=
| TUint (w : cbor_int_width) (v : Z)
| TNegint (w : cbor_int_width) (v : Z)
| TBytes (d : list Z)
| TBytesStart
| TString (d : list Z)
| TStringStart
| TArray (n : Z)
| TArrayStart
| TMap (n : Z)
| TMapStart
| TTag (v : Z)
| TFloat (width bits : Z)
| TCtrl (v : Z)
| TBreak.

Inductive cbor_head :=
| Token (t : cbor_token) (rest : list Z)
| Short
| Reserved.

(** The argument after an initial byte with additional information [info]. *)
Definition head_arg (info : Z) (l : list Z) : option (cbor_int_width * Z * list Z) :=
  if info <? 24 then Some (CBOR_INT_8, info, l)
  else
    let take_be n w := if zlen l <? Z.of_nat n then None else Some (w, be_decode (take n l), drop n l) in
    if info =? 24 then take_be 1%nat CBOR_INT_8
    else if info =? 25 then take_be 2%nat CBOR_INT_16
    else if info =? 26 then take_be 4%nat CBOR_INT_32
    else if info =? 27 then take_be 8%nat CBOR_INT_64
    else None.

(** Major type 7: simple values, floats and the break code. *)
Definition simple_head (info : Z) (l : list Z) : cbor_head :=
  if info =? 31 then Token TBreak l
  else if (20 <=? info) && (info <=? 23) then Token (TCtrl info) l
  else if (25 <=? info) && (info <=? 27) then
    match head_arg info l with
    | Some (_, v, rest) =>
        Token (if info =? 25 then TFloat CBOR_FLOAT_16 (cbor_decode_half v)
               else TFloat (if info =? 26 then CBOR_FLOAT_32 else CBOR_FLOAT_64) v) rest
    | None => Short
    end
  else Reserved.

Definition string_head (mk : list Z → cbor_token) (v : Z) (l : list Z) : cbor_head :=
  if zlen l <? v then Short else Token (mk (take (Z.to_nat v) l)) (drop (Z.to_nat v) l).

Definition head_of (major info : Z) (l : list Z) : cbor_head :=
  if major =? 7 then simple_head info l
  else if info <? 28 then
    match head_arg info l with
    | None => Short
    | Some (w, v, rest) =>
        if major =? 0 then Token (TUint w v) rest
        else if major =? 1 then Token (TNegint w v) rest
        else if major =? 2 then string_head TBytes v rest
        else if major =? 3 then string_head TString v rest
        else if major =? 4 then Token (TArray v) rest
        else if major =? 5 then Token (TMap v) rest
        else Token (TTag v) rest
    end
  else if info =? 31 then
    if major =? 2 then Token TBytesStart l
    else if major =? 3 then Token TStringStart l
    else if major =? 4 then Token TArrayStart l
    else if major =? 5 then Token TMapStart l
    else Reserved
  else Reserved.

Definition next (l : list Z) : cbor_head :=
  match l with [] => Short | b :: l' => head_of (b / 32) (b mod 32) l' end.

(** ** Items *)

(** Capacity of a buffer that grew one slot at a time. *)
Fixpoint capacity (n : nat) : Z :=
  match n with
  | O => 0
  | S n' => if capacity n' <=? Z.of_nat n' then (if capacity n' =? 0 then 1 else 2 * capacity n') else capacity n'
  end.

(** The items that are a token. *)
Definition token_item (t : cbor_token) : option cbor_item :=
  match t with
  | TUint w v => Some (CUint w v)
  | TNegint w v => Some (CNegint w v)
  | TBytes d => Some (CBytes d)
  | TString d => Some (CString d)
  | TFloat w v => Some (CFloatCtrl w v)
  | TCtrl v => Some (CFloatCtrl CBOR_FLOAT_0 v)
  | TArray n => if n =? 0 then Some (CArray true n []) else None
  | TMap n => if n =? 0 then Some (CMap true n []) else None
  | _ => None
  end.

(** The chunks of an indefinite string, up to the break. *)
Inductive chunks_at (mk : list Z → cbor_token) : list Z → list (list Z) → list Z → Prop :=
| chunks_end l rest : next l = Token TBreak rest → chunks_at mk l [] rest
| chunks_more l d l1 cs rest :
    next l = Token (mk d) l1 → chunks_at mk l1 cs rest → chunks_at mk l (d :: cs) rest.

Inductive item_at : nat → list Z → cbor_item → list Z → Prop :=
| at_token d l t i rest : next l = Token t rest → token_item t = Some i → item_at d l i rest
| at_bytes d l l1 cs rest :
    next l = Token TBytesStart l1 → chunks_at TBytes l1 cs rest → item_at (S d) l (CBytesIndef cs) rest
| at_string d l l1 cs rest :
    next l = Token TStringStart l1 → chunks_at TString l1 cs rest → item_at (S d) l (CStringIndef cs) rest
| at_array d l n l1 es rest :
    next l = Token (TArray n) l1 → n ≠ 0 → items_at d (Z.to_nat n) l1 es rest →
    item_at (S d) l (CArray true n es) rest
| at_array_indef d l l1 es rest :
    next l = Token TArrayStart l1 → elems_at d l1 es rest →
    item_at (S d) l (CArray false (capacity (length es)) es) rest
| at_map d l n l1 ps rest :
    next l = Token (TMap n) l1 → n ≠ 0 → pairs_at d (Z.to_nat n) l1 ps rest →
    item_at (S d) l (CMap true n ps) rest
| at_map_indef d l l1 ps rest :
    next l = Token TMapStart l1 → entries_at d l1 ps rest →
    item_at (S d) l (CMap false (capacity (length ps)) ps) rest
| at_tag d l v l1 i rest :
    next l = Token (TTag v) l1 → item_at d l1 i rest → item_at (S d) l (CTag v i) rest

(** [n] items in a row. *)
with items_at : nat → nat → list Z → list cbor_item → list Z → Prop :=
| items_nil d l : items_at d 0 l [] l
| items_cons d n l i l1 es rest :
    item_at d l i l1 → items_at d n l1 es rest → items_at d (S n) l (i :: es) rest

(** Items up to a break. *)
with elems_at : nat → list Z → list cbor_item → list Z → Prop :=
| elems_end d l rest : next l = Token TBreak rest → elems_at d l [] rest
| elems_more d l i l1 es rest :
    item_at d l i l1 → elems_at d l1 es rest → elems_at d l (i :: es) rest

(** [n] pairs in a row. *)
with pairs_at : nat → nat → list Z → list (cbor_item * cbor_item) → list Z → Prop :=
| pairs_nil d l : pairs_at d 0 l [] l
| pairs_cons d n l k l1 v l2 ps rest :
    item_at d l k l1 → item_at d l1 v l2 → pairs_at d n l2 ps rest →
    pairs_at d (S n) l ((k, v) :: ps) rest

(** Pairs up to a break. *)
with entries_at : nat → list Z → list (cbor_item * cbor_item) → list Z → Prop :=
| entries_end d l rest : next l = Token TBreak rest → entries_at d l [] rest
| entries_more d l k l1 v l2 ps rest :
    item_at d l k l1 → item_at d l1 v l2 → entries_at d l2 ps rest →
    entries_at d l ((k, v) :: ps) rest.

Scheme item_at_mind := Minimality for item_at Sort Prop
  with items_at_mind := Minimality for items_at Sort Prop
  with elems_at_mind := Minimality for elems_at Sort Prop
  with pairs_at_mind := Minimality for pairs_at Sort Prop
  with entries_at_mind := Minimality for entries_at Sort Prop.
Combined Scheme grammar_ind from item_at_mind, items_at_mind, elems_at_mind, pairs_at_mind, entries_at_mind.

(** ** Tokens consume bytes *)

Lemma head_arg_rest info l w v rest :
  head_arg info l = Some (w, v, rest) → ∃ p, l = p ++ rest.
Proof.
  unfold head_arg. intros H. repeat (case_match; simplify_eq);
    first [by exists []|eexists; by rewrite take_drop].
Qed.

Lemma string_head_rest mk v l t rest : string_head mk v l = Token t rest → ∃ p, l = p ++ rest.
Proof. unfold string_head. case_match; [done|]. intros [= _ <-]. eexists. by rewrite take_drop. Qed.

(** The rest of a token is a proper suffix. *)
Lemma next_rest l t rest : next l = Token t rest → ∃ b p, l = b :: p ++ rest.
Proof.
  destruct l as [|b l]; [done|]. cbn. unfold head_of, simple_head. intros H.
  assert (∃ p, l = p ++ rest) as [p ->]; [|eauto].
  repeat (case_match; simplify_eq);
    repeat match goal with
    | H : head_arg _ _ = Some _ |- _ => apply head_arg_rest in H as [? ->]
    | H : string_head _ _ _ = Token _ _ |- _ => apply string_head_rest in H as [? ->]
    end; try (eexists; done); try by exists [].
  all: eexists; by rewrite app_assoc.
Qed.

Lemma next_length l t rest : next l = Token t rest → (S (length rest) <= length l)%nat.
Proof. intros (b & p & ->)%next_rest. rewrite length_cons, length_app. lia. Qed.

(** Items take bytes: one each at least. *)
Lemma chunks_length mk l cs rest : chunks_at mk l cs rest → (length cs + length rest < length l)%nat.
Proof.
  induction 1 as [l rest E|l d l1 cs rest E _ IH]; apply next_length in E; cbn; lia.
Qed.

Lemma grammar_length :
  (∀ d l i rest, item_at d l i rest → (length rest < length l)%nat) ∧
  (∀ d n l es rest, items_at d n l es rest → (n + length rest <= length l)%nat) ∧
  (∀ d l es rest, elems_at d l es rest → (length es + length rest < length l)%nat) ∧
  (∀ d n l ps rest, pairs_at d n l ps rest → (n + length rest <= length l)%nat) ∧
  (∀ d l ps rest, entries_at d l ps rest → (length ps + length rest < length l)%nat).
Proof.
  apply grammar_ind; intros;
    repeat match goal with
    | H : next _ = Token _ _ |- _ => apply next_length in H
    | H : chunks_at _ _ _ _ |- _ => apply chunks_length in H
    end; cbn [length]; lia.
Qed.

(** ** Tokens of byte strings *)

Definition token_ok (t : cbor_token) : Prop :=
  match t with
  | TUint w v | TNegint w v => 0 <= v < int_bound w
  | TBytes d | TString d => bytes_ok d
  | TArray n | TMap n | TTag n => is_u64 n
  | TFloat w _ => w = CBOR_FLOAT_16 ∨ w = CBOR_FLOAT_32 ∨ w = CBOR_FLOAT_64
  | TCtrl v => 20 <= v <= 23
  | _ => True
  end.

Lemma int_bound_u64 w v : 0 <= v < int_bound w → is_u64 v.
Proof. unfold is_u64. destruct w; cbn; lia. Qed.

Lemma head_arg_ok info l w v rest :
  bytes_ok l → 0 <= info → head_arg info l = Some (w, v, rest) → bytes_ok rest ∧ 0 <= v < int_bound w.
Proof.
  intros Hl Hi. unfold head_arg.
  assert (∀ n w', 256 ^ Z.of_nat n = int_bound w' →
    (if zlen l <? Z.of_nat n then None else Some (w', be_decode (take n l), drop n l)) = Some (w, v, rest) →
    bytes_ok rest ∧ 0 <= v < int_bound w) as Hbe.
  { intros n w' En. destruct (Z.ltb_spec (zlen l) (Z.of_nat n)); [done|]. intros [= <- <- <-].
    split; [by apply Forall_drop|]. rewrite <- En.
    replace (Z.of_nat n) with (zlen (take n l)) by (unfold zlen in *; rewrite length_take; lia).
    by apply be_decode_range, Forall_take. }
  destruct (Z.ltb_spec info 24); [intros [= <- <- <-]; split; [done|cbn; lia]|].
  destruct (info =? 24); [by apply Hbe|]. destruct (info =? 25); [by apply Hbe|].
  destruct (info =? 26); [by apply Hbe|]. by destruct (info =? 27); [apply Hbe|].
Qed.

Lemma next_ok l t rest : bytes_ok l → next l = Token t rest → bytes_ok rest ∧ token_ok t.
Proof.
  destruct l as [|b l]; [done|]. intros [Hb Hl]%Forall_cons_1. cbn [next].
  assert (0 <= b mod 32) as Hi by (apply Z.mod_pos_bound; lia). set (info := b mod 32) in *. clearbody info.
  unfold head_of, simple_head, string_head. intros H.
  repeat case_match; simplify_eq;
    repeat match goal with H : head_arg _ _ = Some _ |- _ => apply head_arg_ok in H as [? ?]; [|done|done] end;
    cbn [token_ok]; unfold bytes_ok in *; eauto using int_bound_u64, Forall_take, Forall_drop.
  split; [done|].
  match goal with H : _ && _ = true |- _ => apply andb_true_iff in H as [?%Z.leb_le ?%Z.leb_le] end. lia.
Qed.

(** The bytes of a string are bytes of the buffer. *)
Lemma next_string l t rest d :
  next l = Token t rest → t = TBytes d ∨ t = TString d → zlen d + zlen rest < zlen l.
Proof.
  destruct l as [|b l]; [done|]. cbn [next]. unfold head_of, simple_head, string_head. intros H Ht. rewrite zlen_cons.
  repeat case_match; simplify_eq; destruct Ht; simplify_eq;
    repeat match goal with H : head_arg _ _ = Some _ |- _ => apply head_arg_rest in H as [p ->] end;
    rewrite zlen_app; unfold zlen in *; rewrite length_take, length_drop; lia.
Qed.

(** ** The reference reader and the writer *)

Lemma decode_head_arg b l :
  decode_head (b :: l) = '(w, v, rest) ← head_arg (b mod 32) l; Some (b / 32, w, v, rest).
Proof. unfold decode_head, head_arg. by repeat case_match. Qed.

Lemma next_of_head l major w v rest :
  decode_head l = Some (major, w, v, rest) → major < 7 →
  next l = if major =? 0 then Token (TUint w v) rest
           else if major =? 1 then Token (TNegint w v) rest
           else if major =? 2 then string_head TBytes v rest
           else if major =? 3 then string_head TString v rest
           else if major =? 4 then Token (TArray v) rest
           else if major =? 5 then Token (TMap v) rest
           else Token (TTag v) rest.
Proof.
  destruct l as [|b l]; [done|]. rewrite decode_head_arg. intros H Hm.
  apply bind_Some in H as ([[w' v'] rest'] & E & [= <- <- <- <-]). cbn [next]. unfold head_of.
  rewrite (proj2 (Z.eqb_neq _ _)) by lia.
  assert (b mod 32 < 28) as Hi.
  { revert E. unfold head_arg. zcases; try lia. done. }
  by rewrite (proj2 (Z.ltb_lt _ _) Hi), E.
Qed.

Lemma decode_head_ok l major w v rest :
  bytes_ok l → decode_head l = Some (major, w, v, rest) → bytes_ok rest ∧ 0 <= v.
Proof.
  destruct l as [|b l]; [done|]. intros [Hb Hl]%Forall_cons_1. rewrite decode_head_arg. intros H.
  apply bind_Some in H as ([[w' v'] rest'] & E & [= <- <- <- <-]).
  apply head_arg_ok in E as [? ?]; [|done|apply Z.mod_pos_bound; lia]. split; [done|lia].
Qed.

Lemma decode_seq_items d n l es rest :
  (∀ l i rest, bytes_ok l → decode_item (S d) l = Some (i, rest) → item_at d l i rest ∧ bytes_ok rest) →
  bytes_ok l → decode_seq (decode_item (S d)) n l = Some (es, rest) → items_at d n l es rest ∧ bytes_ok rest.
Proof.
  intros Hi. revert l es. induction n as [|n IH]; intros l es Hl H; cbn [decode_seq] in H.
  - injection H as <- <-. split; [constructor|done].
  - apply bind_Some in H as ([i l1] & E1 & H). apply bind_Some in H as ([es' l2] & E2 & [= <- <-]).
    destruct (Hi _ _ _ Hl E1) as [Hi1 Hl1]. destruct (IH _ _ Hl1 E2) as [Hi2 Hl2]. split; [by econstructor|done].
Qed.

Lemma decode_pairs_items d n l ps rest :
  (∀ l i rest, bytes_ok l → decode_item (S d) l = Some (i, rest) → item_at d l i rest ∧ bytes_ok rest) →
  bytes_ok l → decode_pairs (decode_item (S d)) n l = Some (ps, rest) → pairs_at d n l ps rest ∧ bytes_ok rest.
Proof.
  intros Hi. revert l ps. induction n as [|n IH]; intros l ps Hl H; cbn [decode_pairs] in H.
  - injection H as <- <-. split; [constructor|done].
  - apply bind_Some in H as ([k l1] & E1 & H). apply bind_Some in H as ([v l2] & E2 & H).
    apply bind_Some in H as ([ps' l3] & E3 & [= <- <-]).
    destruct (Hi _ _ _ Hl E1) as [Hi1 Hl1]. destruct (Hi _ _ _ Hl1 E2) as [Hi2 Hl2].
    destruct (IH _ _ Hl2 E3) as [Hi3 Hl3]. split; [by econstructor|done].
Qed.

(** The reference reader only accepts items of the grammar. *)
Lemma decode_item_grammar d l i rest :
  bytes_ok l → decode_item (S d) l = Some (i, rest) → item_at d l i rest ∧ bytes_ok rest.
Proof.
  revert l i rest. induction d as [d IH] using lt_wf_ind. intros l i rest Hl H. cbn [decode_item] in H.
  apply bind_Some in H as ([[[major w] v] r] & Eh & H).
  destruct (decode_head_ok _ _ _ _ _ Hl Eh) as [Hr Hv]. pose proof (next_of_head _ _ _ _ _ Eh) as En.
  unfold string_head in En.
  destruct (Z.eqb_spec major 0); [injection H as <- <-; split; [|done]; eapply at_token; [apply En; lia|done]|].
  destruct (Z.eqb_spec major 1); [injection H as <- <-; split; [|done]; eapply at_token; [apply En; lia|done]|].
  destruct (zlen r <? v); [done|].
  destruct (Z.eqb_spec major 2).
  { injection H as <- <-. split; [eapply at_token; [apply En; lia|done]|by apply Forall_drop]. }
  destruct (Z.eqb_spec major 3).
  { injection H as <- <-. split; [eapply at_token; [apply En; lia|done]|by apply Forall_drop]. }
  destruct (Z.eqb_spec major 4).
  { apply bind_Some in H as ([es r'] & Es & [= <- <-]). destruct (Z.eq_dec v 0) as [->|H0].
    - injection Es as <- <-. split; [|done]. eapply at_token; [apply En; lia|done].
    - replace (Z.to_nat v) with (S (Z.to_nat (v - 1))) in Es by lia. destruct d as [|d]; [done|].
      apply decode_seq_items in Es as [Hes ?]; [|intros; by apply IH; [lia|..]|done]. split; [|done].
      eapply at_array; [apply En; lia|done|]. by replace (Z.to_nat v) with (S (Z.to_nat (v - 1))) by lia. }
  destruct (Z.eqb_spec major 5); [|done].
  apply bind_Some in H as ([ps r'] & Es & [= <- <-]). destruct (Z.eq_dec v 0) as [->|H0].
  - injection Es as <- <-. split; [|done]. eapply at_token; [apply En; lia|done].
  - replace (Z.to_nat v) with (S (Z.to_nat (v - 1))) in Es by lia. destruct d as [|d]; [done|].
    apply decode_pairs_items in Es as [Hps ?]; [|intros; by apply IH; [lia|..]|done]. split; [|done].
    eapply at_map; [apply En; lia|done|]. by replace (Z.to_nat v) with (S (Z.to_nat (v - 1))) by lia.
Qed.

(** What the writer produces is bytes. *)
Lemma encode_int_ok w v o : 0 <= o <= 0xA0 → bytes_ok (encode_int w v o).
Proof.
  intros Ho. assert (∀ k, 0 <= k <= 0x1B → is_u8 (k + o)) as Hk by (unfold is_u8; lia).
  destruct w; cbn [encode_int]; unfold encode_uint8, encode_uint16, encode_uint32, encode_uint64.
  - case_match; repeat constructor; try apply u8_range; apply Hk; lia.
  - constructor; [apply Hk; lia|apply be_bytes_ok].
  - constructor; [apply Hk; lia|apply be_bytes_ok].
  - constructor; [apply Hk; lia|apply be_bytes_ok].
Qed.

Lemma encode_uint_ok v o : 0 <= o <= 0xA0 → bytes_ok (encode_uint v o).
Proof.
  intros Ho. unfold encode_uint. repeat case_match.
  - by apply (encode_int_ok CBOR_INT_8).
  - by apply (encode_int_ok CBOR_INT_16).
  - by apply (encode_int_ok CBOR_INT_32).
  - by apply (encode_int_ok CBOR_INT_64).
Qed.

Lemma cbor_serialize_ok i : ∀ b, cbor_serialize i = Some b → cbor_ok i → bytes_ok b.
Proof.
  induction i as [i Ha Hm Ht|d n es IH|d n ps IH|v t IH] using cbor_item_nested_ind; intros b Hs Hok.
  - destruct i as [w v|w v|d|cs|d|cs|d n es|d n ps|v t|w v]; simpl in Hs;
      try discriminate; try (exfalso; by eapply Ha); try (exfalso; by eapply Hm); injection Hs as <-.
    + by apply encode_int_ok.
    + by apply encode_int_ok.
    + apply Forall_app_2; [by apply encode_uint_ok|done].
    + apply Forall_app_2; [by apply encode_uint_ok|done].
  - destruct d; [|done]. simpl in Hs. fold serialize_all in Hs. apply cbor_ok_array in Hok as [_ Hok].
    apply bind_Some in Hs as (body & Eb & [= <-]). apply Forall_app_2; [by apply encode_uint_ok|].
    clear n. revert body Eb Hok. induction IH as [|e es He _ IHes]; intros body Eb Hok; simpl in Eb.
    + by injection Eb as <-.
    + apply bind_Some in Eb as (b1 & E1 & Eb). apply bind_Some in Eb as (b2 & E2 & [= <-]).
      apply Forall_cons_1 in Hok as [? ?]. apply Forall_app_2; [by apply He|by apply IHes].
  - destruct d; [|done]. simpl in Hs. fold serialize_pairs in Hs. apply cbor_ok_map in Hok as [_ Hok].
    apply bind_Some in Hs as (body & Eb & [= <-]). apply Forall_app_2; [by apply encode_uint_ok|].
    clear n. revert body Eb Hok. induction IH as [|[k v] ps [Hk Hv] _ IHps]; intros body Eb Hok; simpl in Eb.
    + by injection Eb as <-.
    + apply bind_Some in Eb as (b1 & E1 & Eb). apply bind_Some in Eb as (b2 & E2 & Eb).
      apply bind_Some in Eb as (b3 & E3 & [= <-]). apply Forall_cons_1 in Hok as [[? ?] ?].
      apply Forall_app_2; [by apply Hk|]. apply Forall_app_2; [by apply Hv|by apply IHps].
  - done.
Qed.

(** What the writer produces is in the grammar, at the depth of the item. *)
Lemma serialized_item_at d i b suf :
  cbor_serialize i = Some b → cbor_ok i → zlen b < 2 ^ 64 → bytes_ok suf → (cbor_depth i <= S d)%nat →
  item_at d (b ++ suf) i suf ∧ bytes_ok (b ++ suf).
Proof.
  intros Hs Hok Hlen Hsuf Hd. pose proof (cbor_serialize_ok i b Hs Hok) as Hb.
  assert (bytes_ok (b ++ suf)) as Hbs by by apply Forall_app_2.
  destruct (cbor_roundtrips i b Hs (cbor_ok_fits i Hok) Hlen) as [_ He]. split; [|done].
  by apply decode_item_grammar; [|apply He].
Qed.
