(* ===== verification/CborStream.v ===== *)
(** * CborStream: the switch of the streaming decoder

    [cbor_stream_decode] claims exactly the bytes of one token of [CborGrammar]
    and reports it with the callback of its kind, whatever the callbacks are;
    short and reserved heads are told apart.  The loaders read big-endian
    integers. *)

From S2P Require Import Prelude Bitset Endian Utf8 Cbor CborWire CborDecoder CborGrammar.

#[local] Set Warnings "-register-all".

(** ** Loaders *)

Lemma deref_in p k b : 0 <= k → p !! Z.to_nat k = Some b → deref p k = Ret b.
Proof.
  intros Hk H. unfold deref, byte_at. pose proof (lookup_lt_Some _ _ _ H). unfold zlen.
  rewrite (proj2 (Z.leb_le 0 _)), (proj2 (Z.ltb_lt _ _)) by lia. cbn. by rewrite H.
Qed.

Lemma bytes_split n l :
  bytes_ok l → Z.of_nat (S n) <= zlen l → ∃ b l', l = b :: l' ∧ is_u8 b ∧ bytes_ok l' ∧ Z.of_nat n <= zlen l'.
Proof.
  intros H Hn. destruct l as [|b l]; [unfold zlen in Hn; cbn in Hn; lia|].
  apply Forall_cons_1 in H as [Hb H]. rewrite zlen_cons in Hn. exists b, l. split_and!; [done..|lia].
Qed.

(** What each loader reads is the big-endian value of its bytes. *)
Definition reads_be (reader : list Z → exec Z) (n : nat) : Prop :=
  ∀ l, bytes_ok l → Z.of_nat n <= zlen l → reader l = Ret (be_decode (take n l)).

Ltac split_bytes n l :=
  match n with
  | O => idtac
  | S ?m =>
      match goal with
      | Hb : bytes_ok l, Hn : _ <= zlen l |- _ =>
          let b := fresh "b" in let l' := fresh "l" in let Hb' := fresh "Hb" in
          destruct (bytes_split m l Hb Hn) as (b & l' & -> & ? & Hb' & ?); clear Hb Hn; split_bytes m l'
      end
  end.

Ltac loader n :=
  intros l Hb Hn; split_bytes n l; unfold is_u8 in *;
  repeat match goal with |- context [deref ?p ?k] => rewrite (deref_in p k _ ltac:(lia) eq_refl) end;
  cbn [xbind]; f_equal; unfold be_decode, u16, u32, u64; cbn [firstn]; rewrite take_0; cbn [rev app le_decode];
  rewrite ?Z.shiftl_mul_pow2 by lia; rewrite ?(Z.mod_small (_ * 2 ^ 0x18)) by lia; rewrite ?Z.mod_small; lia.

Lemma load_uint8_be : reads_be cbor_load_uint8 1.
Proof. unfold cbor_load_uint8. loader 1%nat. Qed.

Lemma load_uint16_be : reads_be cbor_load_uint16 2.
Proof. unfold cbor_load_uint16. loader 2%nat. Qed.

Lemma load_uint32_be : reads_be cbor_load_uint32 4.
Proof. unfold cbor_load_uint32. loader 4%nat. Qed.

Lemma load_uint64_be : reads_be cbor_load_uint64 8.
Proof. unfold cbor_load_uint64. loader 8%nat. Qed.

Lemma load_half_be l :
  bytes_ok l → 2 <= zlen l → cbor_load_half l = Ret (cbor_decode_half (be_decode (take 2 l))).
Proof.
  intros Hb Hn. pose proof (load_uint16_be l Hb Hn) as E. split_bytes 2%nat l. revert E.
  unfold cbor_load_half, cbor_load_uint16. unfold is_u8 in *.
  repeat match goal with |- context [deref ?p ?k] => rewrite (deref_in p k _ ltac:(lia) eq_refl) end.
  cbn [xbind]. intros E. injection E as E. do 2 f_equal. etransitivity; [|exact E].
  unfold u16. rewrite Z.mod_small; [done|]. rewrite Z.shiftl_mul_pow2 by lia. lia.
Qed.

(** ** The switch *)

Section stream.
Context {C : Type} (cb : cbor_callbacks C).

(** The callback a token is reported with. *)
Definition deliver (t : cbor_token) (rest : list Z) (c : C) : exec C :=
  match t with
  | TUint CBOR_INT_8 v => cb_uint8 cb v c
  | TUint CBOR_INT_16 v => cb_uint16 cb v c
  | TUint CBOR_INT_32 v => cb_uint32 cb v c
  | TUint CBOR_INT_64 v => cb_uint64 cb v c
  | TNegint CBOR_INT_8 v => cb_negint8 cb v c
  | TNegint CBOR_INT_16 v => cb_negint16 cb v c
  | TNegint CBOR_INT_32 v => cb_negint32 cb v c
  | TNegint CBOR_INT_64 v => cb_negint64 cb v c
  | TBytes d => cb_byte_string cb (d ++ rest) (zlen d) c
  | TBytesStart => cb_byte_string_start cb c
  | TString d => cb_string cb (d ++ rest) (zlen d) c
  | TStringStart => cb_string_start cb c
  | TArray n => cb_array_start cb n c
  | TArrayStart => cb_indef_array_start cb c
  | TMap n => cb_map_start cb n c
  | TMapStart => cb_indef_map_start cb c
  | TTag v => cb_tag cb v c
  | TFloat w v =>
      if w =? CBOR_FLOAT_16 then cb_float2 cb v c
      else if w =? CBOR_FLOAT_32 then cb_float4 cb v c else cb_float8 cb v c
  | TCtrl v =>
      if v =? 20 then cb_boolean cb false c else if v =? 21 then cb_boolean cb true c
      else if v =? 22 then cb_null cb c else cb_undefined cb c
  | TBreak => cb_indef_break cb c
  end.

(** What the decoder answers at a head. *)
Definition answers (source : list Z) (c : C) (h : cbor_head) (r : exec (cbor_decoder_result * C)) : Prop :=
  match h with
  | Token t rest =>
      r = (c' <- deliver t rest c ;;
           Ret (mkDecoderResult (zlen source - zlen rest) CBOR_DECODER_FINISHED 0, c'))
  | Short => ∃ res, r = Ret (res, c) ∧ dr_status res = CBOR_DECODER_NEDATA
  | Reserved => r = Ret (decoder_error, c)
  end.

Lemma claim_short n provided res :
  dr_read res <= provided → provided - dr_read res < n →
  ∃ res', claim_bytes n provided res = Ret (false, res') ∧ dr_status res' = CBOR_DECODER_NEDATA.
Proof.
  intros H1 H2. unfold claim_bytes.
  rewrite (proj2 (Z.ltb_ge _ _)), (proj2 (Z.ltb_lt _ _)) by lia. eauto.
Qed.

Lemma claim_enough n provided res :
  dr_read res <= provided → n <= provided - dr_read res →
  claim_bytes n provided res = Ret (true, mkDecoderResult (dr_read res + n) (dr_status res) 0).
Proof. intros H1 H2. unfold claim_bytes. by rewrite !(proj2 (Z.ltb_ge _ _)) by lia. Qed.

(** The result after the initial byte was claimed. *)
Abbreviation first_claim := (mkDecoderResult 1 CBOR_DECODER_FINISHED 0).

Lemma read_invoke_answers callback reader n value tok b l c :
  (∀ l, bytes_ok l → Z.of_nat n <= zlen l → reader l = Ret (value (be_decode (take n l)))) → bytes_ok l →
  (∀ v rest, deliver (tok v) rest c = callback (value v) c) →
  answers (b :: l) c
    (if zlen l <? Z.of_nat n then Short else Token (tok (be_decode (take n l))) (drop n l))
    (read_invoke callback reader (Z.of_nat n) (b :: l) first_claim c).
Proof.
  intros Hr Hb Ht. unfold read_invoke, claim_invoke. rewrite zlen_cons.
  destruct (Z.ltb_spec (zlen l) (Z.of_nat n)) as [Hn|Hn].
  - destruct (claim_short (Z.of_nat n) (zlen l + 1) first_claim) as (res & -> & Hs); [cbn; pose proof (zlen_nonneg l); lia..|].
    exists res. done.
  - rewrite claim_enough by (cbn; pose proof (zlen_nonneg l); lia). cbn [xbind answers dr_read dr_status drop].
    rewrite drop_0, Hr by done. cbn [xbind]. rewrite Ht. destruct (callback _ c); [|done]. cbn [xbind].
    do 3 f_equal. rewrite zlen_cons. unfold zlen in *. rewrite length_drop. lia.
Qed.

Lemma claim_string_answers callback mk v extra b l c :
  0 <= v → 0 <= extra <= zlen l →
  (∀ d rest, deliver (mk d) rest c = callback (d ++ rest) (zlen d) c) →
  answers (b :: l) c (string_head mk v (drop (Z.to_nat extra) l))
    (claim_bytes_and_invoke callback v extra (b :: l) (mkDecoderResult (1 + extra) CBOR_DECODER_FINISHED 0) c).
Proof.
  intros Hv He Ht. unfold claim_bytes_and_invoke, claim_invoke, string_head.
  rewrite zlen_cons. set (l1 := drop (Z.to_nat extra) l).
  assert (zlen l1 = zlen l - extra) as El by (unfold l1, zlen in *; rewrite length_drop; lia).
  replace (Z.to_nat (1 + extra)) with (S (Z.to_nat extra)) by lia. cbn [drop]. fold l1.
  destruct (Z.ltb_spec (zlen l1) v) as [Hn|Hn].
  - destruct (claim_short v (zlen l + 1) (mkDecoderResult (1 + extra) CBOR_DECODER_FINISHED 0))
      as (res & -> & Hs); [cbn; lia..|]. exists res. done.
  - rewrite claim_enough by (cbn; lia). cbn [xbind answers dr_read dr_status].
    rewrite Ht, take_drop. replace (zlen (take (Z.to_nat v) l1)) with v
      by (unfold zlen in *; rewrite length_take; lia).
    destruct (callback l1 v c); [|done]. cbn [xbind]. do 3 f_equal. rewrite zlen_cons.
    unfold zlen in *. rewrite length_drop. lia.
Qed.

Lemma read_claim_answers callback mk reader n b l c :
  reads_be reader n → bytes_ok l →
  (∀ d rest, deliver (mk d) rest c = callback (d ++ rest) (zlen d) c) →
  answers (b :: l) c
    (if zlen l <? Z.of_nat n then Short else string_head mk (be_decode (take n l)) (drop n l))
    (read_claim_invoke callback reader (Z.of_nat n) (b :: l) first_claim c).
Proof.
  intros Hr Hb Ht. unfold read_claim_invoke. rewrite zlen_cons.
  destruct (Z.ltb_spec (zlen l) (Z.of_nat n)) as [Hn|Hn].
  - destruct (claim_short (Z.of_nat n) (zlen l + 1) first_claim) as (res & -> & Hs); [cbn; pose proof (zlen_nonneg l); lia..|].
    exists res. done.
  - rewrite claim_enough by (cbn; pose proof (zlen_nonneg l); lia). cbn [xbind dr_read dr_status drop].
    rewrite drop_0, Hr by done. cbn [xbind].
    pose proof (claim_string_answers callback mk (be_decode (take n l)) (Z.of_nat n) b l c) as H.
    rewrite Nat2Z.id in H. apply H; [|lia|done]. apply be_decode_range, Forall_take, Hb.
Qed.

(** Decides the tests of a switch whose operand is known well enough. *)
Ltac decide_tests :=
  repeat match goal with
  | |- context [?a <=? ?b] => first [rewrite (proj2 (Z.leb_le a b)) by lia | rewrite (proj2 (Z.leb_gt a b)) by lia]
  | |- context [?a =? ?b] => first [rewrite (proj2 (Z.eqb_eq a b)) by lia | rewrite (proj2 (Z.eqb_neq a b)) by lia]
  | |- context [?a <? 24] => first [rewrite (proj2 (Z.ltb_lt a 24)) by lia | rewrite (proj2 (Z.ltb_ge a 24)) by lia]
  | |- context [?a <? 28] => first [rewrite (proj2 (Z.ltb_lt a 28)) by lia | rewrite (proj2 (Z.ltb_ge a 28)) by lia]
  end; cbn [negb andb].

Lemma short_arg {A} (b : bool) (x : A) (f : A → cbor_head) :
  match (if b then None else Some x) with Some y => f y | None => Short end = if b then Short else f x.
Proof. by destruct b. Qed.

Lemma invoke_answers callback t b l c :
  deliver t l c = callback c → answers (b :: l) c (Token t l) (invoke callback first_claim c).
Proof.
  intros H. unfold invoke. cbn [answers]. rewrite H. destruct (callback c); [|done]. cbn [xbind].
  do 3 f_equal. rewrite zlen_cons. lia.
Qed.

Lemma stream_decode_answers source c :
  bytes_ok source → source ≠ [] → answers source c (next source) (cbor_stream_decode cb source c).
Proof.
  destruct source as [|b l]; [done|]. intros [Hb Hl]%Forall_cons_1 _. cbn [next].
  unfold cbor_stream_decode. rewrite claim_enough by (rewrite zlen_cons; cbn; pose proof (zlen_nonneg l); lia).
  cbn [xbind negb dr_read dr_status]. rewrite (deref_in (b :: l) 0 b) by done. cbn [xbind].
  assert (b = 32 * (b / 32) + b mod 32) as Eb by (apply Z.div_mod; lia).
  assert (0 <= b mod 32 < 32) as Hi by (apply Z.mod_pos_bound; lia).
  assert (0 <= b / 32 < 8) as Hm by (unfold is_u8 in Hb; split; [apply Z.div_pos; lia|apply Z.div_lt_upper_bound; lia]).
  set (m := b / 32) in *. set (i := b mod 32) in *. clearbody m i. subst b.
  assert (m = 0 ∨ m = 1 ∨ m = 2 ∨ m = 3 ∨ m = 4 ∨ m = 5 ∨ m = 6 ∨ m = 7) as Hc by lia.
  assert (i <= 23 ∨ i = 24 ∨ i = 25 ∨ i = 26 ∨ i = 27 ∨ 28 <= i <= 30 ∨ i = 31) as Hic by lia.
  destruct Hc as [->|[->|[->|[->|[->|[->|[->| ->]]]]]]].
  8: assert (i < 20 ∨ i = 20 ∨ i = 21 ∨ i = 22 ∨ i = 23 ∨ 24 <= i) as [H|[->|[->|[->|[->|H]]]]] by lia.
  all: destruct Hic as [Hic|[->|[->|[->|[->|[Hic| ->]]]]]]; try lia.
  all: unfold head_of, simple_head, head_arg; decide_tests;
    unfold decode_uint, decode_negint, decode_byte_string, decode_string, decode_array, decode_map, decode_tag, decode_simple;
    decide_tests; rewrite ?short_arg; cbv beta iota.
  all: try reflexivity.
  all: try (apply invoke_answers; cbn [deliver]; rewrite ?u8_id by (unfold is_u8; lia); f_equal; lia).
  all: try (match goal with |- context [u8 ?x] => replace (u8 x) with i by (rewrite u8_id; unfold is_u8; lia) end).
  all: try (apply (claim_string_answers _ _ i 0); [lia|pose proof (zlen_nonneg l); lia|done]).
  all: try (apply read_claim_answers; [|done|done];
            first [exact load_uint8_be|exact load_uint16_be|exact load_uint32_be|exact load_uint64_be]).
  all: try (apply (read_invoke_answers _ _ 2 cbor_decode_half (fun v => TFloat CBOR_FLOAT_16 (cbor_decode_half v)));
            [exact load_half_be|done|done]).
  all: match goal with
    | |- answers _ _ (if zlen _ <? Z.of_nat ?n then _ else Token (?tok _) _) _ =>
        apply (read_invoke_answers _ _ n (fun v => v) tok); [|done|done];
        first [exact load_uint8_be|exact load_uint16_be|exact load_uint32_be|exact load_uint64_be]
    end.
Qed.
End stream.
