(* ===== verification/CborDecoderTheorems.v ===== *)
(** * CborDecoderTheorems: the decoder implements the grammar

    The builder's stack is a continuation: [denotes] says which items the
    frames on it can still become, and every round of [cbor_load] preserves it.
    So the decoder returns exactly the items of the grammar, on every input it
    returns, and what it returns is well formed. *)

From S2P Require Import Prelude Bitset Endian Utf8 Cbor CborWire CborDecoder CborGrammar CborStream.

#[local] Set Warnings "-register-all".

(** ** Frames *)

(** Frames above a stack that is not full. *)
Definition stack_limit : nat := Z.to_nat CBOR_MAX_STACK_SIZE.
#[local] Opaque stack_limit.

(** [finish d f l k l']: [l] holds the rest of the open item [f], which becomes
    [k] at [l'], nesting at most [d] further containers. *)
Definition finish (d : nat) (f : cbor_stack_record) (l : list Z) (k : cbor_item) (l' : list Z) : Prop :=
  match sr_item f with
  | PBytes cs _ => ∃ cs', chunks_at TBytes l cs' l' ∧ k = CBytesIndef (cs ++ cs')
  | PString cs _ => ∃ cs', chunks_at TString l cs' l' ∧ k = CStringIndef (cs ++ cs')
  | PArray true n es =>
      ∃ es', items_at d (Z.to_nat (sr_subitems f)) l es' l' ∧ k = CArray true n (es ++ es')
  | PArray false _ es =>
      ∃ es', elems_at d l es' l' ∧ k = CArray false (capacity (length (es ++ es'))) (es ++ es')
  | PMap true n ps None =>
      ∃ ps', pairs_at d (Z.to_nat (sr_subitems f / 2)) l ps' l' ∧ k = CMap true n (ps ++ ps')
  | PMap true n ps (Some key) =>
      ∃ v l1 ps', item_at d l v l1 ∧ pairs_at d (Z.to_nat (sr_subitems f / 2)) l1 ps' l' ∧
        k = CMap true n (ps ++ (key, v) :: ps')
  | PMap false _ ps None =>
      ∃ ps', entries_at d l ps' l' ∧ k = CMap false (capacity (length (ps ++ ps'))) (ps ++ ps')
  | PMap false _ ps (Some key) =>
      ∃ v l1 ps', item_at d l v l1 ∧ entries_at d l1 ps' l' ∧
        k = CMap false (capacity (length (ps ++ (key, v) :: ps'))) (ps ++ (key, v) :: ps')
  | PTag v => ∃ i, item_at d l i l' ∧ k = CTag v i
  end.

(** [accept d f j l k l']: the same after [f] has received the item [j]. *)
Definition accept (d : nat) (f : cbor_stack_record) (j : cbor_item) (l : list Z) (k : cbor_item) (l' : list Z)
  : Prop :=
  match sr_item f with
  | PBytes _ _ | PString _ _ => False
  | PArray true n es =>
      ∃ es', items_at d (Z.to_nat (sr_subitems f - 1)) l es' l' ∧ k = CArray true n (es ++ j :: es')
  | PArray false _ es =>
      ∃ es', elems_at d l es' l' ∧ k = CArray false (capacity (length (es ++ j :: es'))) (es ++ j :: es')
  | PMap true n ps None =>
      ∃ v l1 ps', item_at d l v l1 ∧ pairs_at d (Z.to_nat ((sr_subitems f - 1) / 2)) l1 ps' l' ∧
        k = CMap true n (ps ++ (j, v) :: ps')
  | PMap true n ps (Some key) =>
      ∃ ps', pairs_at d (Z.to_nat (sr_subitems f / 2)) l ps' l' ∧ k = CMap true n (ps ++ (key, j) :: ps')
  | PMap false _ ps None =>
      ∃ v l1 ps', item_at d l v l1 ∧ entries_at d l1 ps' l' ∧
        k = CMap false (capacity (length (ps ++ (j, v) :: ps'))) (ps ++ (j, v) :: ps')
  | PMap false _ ps (Some key) =>
      ∃ ps', entries_at d l ps' l' ∧
        k = CMap false (capacity (length (ps ++ (key, j) :: ps'))) (ps ++ (key, j) :: ps')
  | PTag v => k = CTag v j ∧ l' = l
  end.

(** What the whole stack becomes once its top receives [j]. *)
Fixpoint resume (st : list cbor_stack_record) (j : cbor_item) (l : list Z) (I : cbor_item) (R : list Z) : Prop :=
  match st with
  | [] => I = j ∧ R = l
  | f :: s => ∃ k l', accept (stack_limit - length st) f j l k l' ∧ resume s k l' I R
  end.

Definition denotes (st : list cbor_stack_record) (l : list Z) (I : cbor_item) (R : list Z) : Prop :=
  match st with
  | [] => item_at stack_limit l I R
  | f :: s => ∃ k l', finish (stack_limit - length st) f l k l' ∧ resume s k l' I R
  end.

(** ** The grammar, one token at a time *)

(** The frame a token opens. *)
Definition opens (t : cbor_token) : option cbor_stack_record :=
  match t with
  | TBytesStart => Some (mkStackRecord (PBytes [] 0) 0)
  | TStringStart => Some (mkStackRecord (PString [] 0) 0)
  | TArray n => Some (mkStackRecord (PArray true n []) n)
  | TArrayStart => Some (mkStackRecord (PArray false 0 []) 0)
  | TMap n => Some (mkStackRecord (PMap true n [] None) (n * 2))
  | TMapStart => Some (mkStackRecord (PMap false 0 [] None) 0)
  | TTag v => Some (mkStackRecord (PTag v) 1)
  | _ => None
  end.

Definition starts (d : nat) (t : cbor_token) (l : list Z) (j : cbor_item) (l' : list Z) : Prop :=
  match token_item t with
  | Some i => j = i ∧ l' = l
  | None => match d, opens t with S d', Some f => finish d' f l j l' | _, _ => False end
  end.

Lemma item_at_next d l t rest j l' : next l = Token t rest → item_at d l j l' ↔ starts d t rest j l'.
Proof.
  intros En. unfold starts. split.
  - intros H. destruct H as [d l t' i r E Ei|d l l1 cs r E Hc|d l l1 cs r E Hc|d l n l1 es r E Hn Hc
      |d l l1 es r E Hc|d l n l1 ps r E Hn Hc|d l l1 ps r E Hc|d l v l1 i r E Hc];
      rewrite En in E; simplify_eq; cbn [token_item opens]; [by rewrite Ei| | | | | | |];
      rewrite ?(proj2 (Z.eqb_neq _ _) Hn); unfold finish; cbn [sr_item sr_subitems];
      rewrite ?Z.div_mul by lia; eauto.
  - destruct (token_item t) as [i|] eqn:Et; [by intros [-> ->]; eapply at_token|].
    destruct d as [|d]; [done|]. destruct t; cbn [opens]; try done; unfold finish; cbn [sr_item sr_subitems] in *;
      cbn [token_item] in Et; rewrite ?Z.div_mul by lia.
    + intros (cs & Hc & ->). by eapply at_bytes.
    + intros (cs & Hc & ->). by eapply at_string.
    + intros (es & Hc & ->). eapply at_array; [done|by intros ->|done].
    + intros (es & Hc & ->). by eapply at_array_indef.
    + intros (ps & Hc & ->). eapply at_map; [done|by intros ->|done].
    + intros (ps & Hc & ->). by eapply at_map_indef.
    + intros (i & Hc & ->). by eapply at_tag.
Qed.

(** No item starts at the end of the data, a reserved byte or a break. *)
Lemma item_at_token d l j l' : item_at d l j l' → ∃ t rest, next l = Token t rest ∧ t ≠ TBreak.
Proof.
  intros H. destruct H as [d l t' i r E Ei|d l l1 cs r E Hc|d l l1 cs r E Hc|d l n l1 es r E Hn Hc
      |d l l1 es r E Hc|d l n l1 ps r E Hn Hc|d l l1 ps r E Hc|d l v l1 i r E Hc];
    do 2 eexists; (split; [exact E|]); try done. by intros ->.
Qed.

Lemma items_at_S d n l es l' :
  items_at d (S n) l es l' ↔ ∃ i l1 es', item_at d l i l1 ∧ items_at d n l1 es' l' ∧ es = i :: es'.
Proof.
  split; [inversion 1; subst; eauto 10|]. intros (i & l1 & es' & Hi & Hs & ->). by econstructor.
Qed.

Lemma pairs_at_S d n l ps l' :
  pairs_at d (S n) l ps l' ↔
  ∃ k l1 v l2 ps', item_at d l k l1 ∧ item_at d l1 v l2 ∧ pairs_at d n l2 ps' l' ∧ ps = (k, v) :: ps'.
Proof.
  split; [inversion 1; subst; eauto 12|]. intros (k & l1 & v & l2 & ps' & Hk & Hv & Hs & ->). by econstructor.
Qed.

(** ** Well-formed frames *)

Definition pair_ok (p : cbor_item * cbor_item) : Prop := cbor_ok p.1 ∧ cbor_ok p.2.

(** The counters agree with the contents, the contents are well formed and no
    longer than the bytes read so far. *)
Definition frame_ok (read : Z) (f : cbor_stack_record) : Prop :=
  match sr_item f with
  | PBytes cs cap | PString cs cap => cap = capacity (length cs) ∧ zlen cs <= read ∧ Forall bytes_ok cs
  | PArray true n es =>
      sr_subitems f = n - zlen es ∧ 0 < sr_subitems f ∧ zlen es <= read ∧ Forall cbor_ok es
  | PArray false a es => a = capacity (length es) ∧ zlen es <= read ∧ Forall cbor_ok es
  | PMap true n ps key =>
      sr_subitems f = 2 * (n - zlen ps) - pending key ∧ 0 < sr_subitems f ∧
      zlen ps + pending key <= read ∧ Forall pair_ok ps ∧ from_option cbor_ok True key
  | PMap false a ps key =>
      a = capacity (length ps + Z.to_nat (pending key)) ∧ sr_subitems f = pending key ∧
      zlen ps + pending key <= read ∧ Forall pair_ok ps ∧ from_option cbor_ok True key
  | PTag _ => sr_subitems f = 1
  end.

(** A token that extends the open string on top. *)
Definition is_chunk (f : cbor_stack_record) (t : cbor_token) : bool :=
  match sr_item f, t with
  | PBytes _ _, TBytes _ | PString _ _, TString _ => true
  | _, _ => false
  end.

(** The item that a break fills. *)
Definition closes (f : cbor_stack_record) : option cbor_item :=
  match sr_item f with
  | PBytes cs _ => Some (CBytesIndef cs)
  | PString cs _ => Some (CStringIndef cs)
  | PArray false a es => Some (CArray false a es)
  | PMap false a ps None => Some (CMap false a ps)
  | _ => None
  end.

Lemma odd_half x : (2 * x + 1) / 2 = x.
Proof. rewrite (Z.mul_comm 2), Z.div_add_l, Z.div_small by lia. lia. Qed.

Lemma even_half x : 2 * x / 2 = x.
Proof. by rewrite Z.mul_comm, Z.div_mul. Qed.

Lemma elems_at_item d l t rest es l' :
  next l = Token t rest → t ≠ TBreak →
  elems_at d l es l' ↔ ∃ i l1 es', item_at d l i l1 ∧ elems_at d l1 es' l' ∧ es = i :: es'.
Proof.
  intros En Ht. split.
  - inversion 1 as [? ? ? E|]; subst; [congruence|eauto 10].
  - intros (i & l1 & es' & Hi & Hs & ->). by eapply elems_more.
Qed.

Lemma entries_at_item d l t rest ps l' :
  next l = Token t rest → t ≠ TBreak →
  entries_at d l ps l' ↔
  ∃ k l1 v l2 ps', item_at d l k l1 ∧ item_at d l1 v l2 ∧ entries_at d l2 ps' l' ∧ ps = (k, v) :: ps'.
Proof.
  intros En Ht. split.
  - inversion 1 as [? ? ? E|]; subst; [congruence|eauto 12].
  - intros (k & l1 & v & l2 & ps' & Hk & Hv & Hs & ->). by eapply entries_more.
Qed.

(** An open container continues with an item... *)
Lemma finish_item read d f l t rest k l' :
  frame_ok read f → next l = Token t rest → t ≠ TBreak → is_chunk f t = false →
  finish d f l k l' ↔ ∃ j l1, item_at d l j l1 ∧ accept d f j l1 k l'.
Proof.
  intros Hf En Ht Hk. unfold finish, accept, frame_ok, is_chunk in *. destruct f as [p sub]. cbn [sr_item sr_subitems] in *.
  destruct p as [cs cap|cs cap|[|] n es|[|] n ps [key|]|v].
  - split; [|by intros (? & ? & ? & [])]. intros (cs' & Hc & _). inversion Hc; subst; [congruence|].
    by rewrite En in *; simplify_eq.
  - split; [|by intros (? & ? & ? & [])]. intros (cs' & Hc & _). inversion Hc; subst; [congruence|].
    by rewrite En in *; simplify_eq.
  - destruct Hf as (Hs & Hp & _). replace (Z.to_nat sub) with (S (Z.to_nat (sub - 1))) by lia.
    setoid_rewrite items_at_S. naive_solver.
  - setoid_rewrite (elems_at_item d l t rest _ _ En Ht). naive_solver.
  - naive_solver.
  - destruct Hf as (Hs & Hp & _). cbn [pending] in Hs.
    assert (sub / 2 = n - zlen ps ∧ (sub - 1) / 2 = n - zlen ps - 1) as [-> ->].
    { split; [rewrite <- (even_half (n - zlen ps))|rewrite <- (odd_half (n - zlen ps - 1))]; f_equal; lia. }
    replace (Z.to_nat (n - zlen ps)) with (S (Z.to_nat (n - zlen ps - 1))) by lia.
    setoid_rewrite pairs_at_S. naive_solver.
  - naive_solver.
  - setoid_rewrite (entries_at_item d l t rest _ _ En Ht). naive_solver.
  - naive_solver.
Qed.

Lemma no_item_break d l rest j l' : next l = Token TBreak rest → ¬ item_at d l j l'.
Proof. intros En (t & r & E & Ht)%item_at_token. congruence. Qed.

Lemma no_items_break d n l rest es l' : next l = Token TBreak rest → ¬ items_at d (S n) l es l'.
Proof. intros En (i & l1 & es' & Hi & _)%items_at_S. by eapply no_item_break. Qed.

(** ... or is closed by a break... *)
Lemma finish_break read d f l rest k l' :
  frame_ok read f → next l = Token TBreak rest → finish d f l k l' ↔ closes f = Some k ∧ l' = rest.
Proof.
  intros Hf En. pose proof (no_item_break d l rest) as Hno. unfold finish, frame_ok, closes in *.
  destruct f as [p sub]. cbn [sr_item sr_subitems] in *.
  destruct p as [cs cap|cs cap|[|] n es|[|] n ps [key|]|v].
  - split.
    + intros (cs' & Hc & ->). inversion Hc; subst; [|congruence]. rewrite app_nil_r. split; congruence.
    + intros [[= <-] ->]. exists []. rewrite app_nil_r. split; [by constructor|done].
  - split.
    + intros (cs' & Hc & ->). inversion Hc; subst; [|congruence]. rewrite app_nil_r. split; congruence.
    + intros [[= <-] ->]. exists []. rewrite app_nil_r. split; [by constructor|done].
  - destruct Hf as (_ & Hp & _). replace (Z.to_nat sub) with (S (Z.to_nat (sub - 1))) by lia.
    split; [|by intros []]. intros (es' & Hi & _). by eapply no_items_break in Hi.
  - destruct Hf as (-> & _). split.
    + intros (es' & Hc & ->). inversion Hc; subst; [|by exfalso; eapply Hno]. rewrite app_nil_r. split; congruence.
    + intros [[= <-] ->]. exists []. rewrite app_nil_r. split; [by constructor|done].
  - split; [|by intros []]. intros (v & l1 & ps' & Hi & _). by apply Hno in Hi.
  - destruct Hf as (Hs & Hp & _). cbn [pending] in Hs. split; [|by intros []]. intros (ps' & Hi & _).
    assert (sub / 2 = n - zlen ps) as E2 by (rewrite <- (even_half (n - zlen ps)); f_equal; lia). rewrite E2 in Hi.
    replace (Z.to_nat (n - zlen ps)) with (S (Z.to_nat (n - zlen ps - 1))) in Hi by lia.
    apply pairs_at_S in Hi as (? & ? & ? & ? & ? & Hi & _). by apply Hno in Hi.
  - split; [|by intros []]. intros (v & l1 & ps' & Hi & _). by apply Hno in Hi.
  - destruct Hf as (-> & _). cbn [pending]. rewrite Nat.add_0_r. split.
    + intros (ps' & Hc & ->). inversion Hc; subst; [|by exfalso; eapply Hno]. rewrite app_nil_r. split; congruence.
    + intros [[= <-] ->]. exists []. rewrite app_nil_r. split; [by constructor|done].
  - split; [|by intros []]. intros (i & Hi & _). by apply Hno in Hi.
Qed.

(** ... and cannot go on without a token. *)
Lemma finish_token read d f l k l' : frame_ok read f → finish d f l k l' → ∃ t rest, next l = Token t rest.
Proof.
  assert (∀ mk cs, chunks_at mk l cs l' → ∃ t rest, next l = Token t rest) as Hch by (inversion 1; eauto).
  assert (∀ j l1, item_at d l j l1 → ∃ t rest, next l = Token t rest) as Hit
    by (intros j l1 (t & r & ? & _)%item_at_token; eauto).
  intros Hf. unfold finish, frame_ok in *. destruct f as [p sub]. cbn [sr_item sr_subitems] in *.
  destruct p as [cs cap|cs cap|[|] n es|[|] n ps [key|]|v].
  - intros (? & ? & _). eauto.
  - intros (? & ? & _). eauto.
  - destruct Hf as (_ & Hp & _). replace (Z.to_nat sub) with (S (Z.to_nat (sub - 1))) by lia.
    intros (? & (? & ? & ? & ? & _)%items_at_S & _). eauto.
  - intros (? & Hc & _). inversion Hc; subst; eauto.
  - intros (? & ? & ? & ? & _). eauto.
  - destruct Hf as (Hs & Hp & _). cbn [pending] in Hs.
    assert (sub / 2 = n - zlen ps) as -> by (rewrite <- (even_half (n - zlen ps)); f_equal; lia).
    replace (Z.to_nat (n - zlen ps)) with (S (Z.to_nat (n - zlen ps - 1))) by lia.
    intros (? & (? & ? & ? & ? & ? & ? & _)%pairs_at_S & _). eauto.
  - intros (? & ? & ? & ? & _). eauto.
  - intros (? & Hc & _). inversion Hc; subst; eauto.
  - intros (? & ? & _). eauto.
Qed.

(** ** Stacks, one token at a time *)

Definition top_is_chunk (st : list cbor_stack_record) (t : cbor_token) : bool :=
  match st with f :: _ => is_chunk f t | [] => false end.

Lemma denotes_item read st l t rest I R :
  Forall (frame_ok read) st → next l = Token t rest → t ≠ TBreak → top_is_chunk st t = false →
  denotes st l I R ↔ ∃ j l1, starts (stack_limit - length st) t rest j l1 ∧ resume st j l1 I R.
Proof.
  intros Hst En Ht Hc. setoid_rewrite <- (item_at_next _ _ _ _ _ _ En). destruct st as [|f s].
  - cbn [denotes resume length]. rewrite Nat.sub_0_r. naive_solver.
  - apply Forall_cons_1 in Hst as [Hf _]. unfold denotes. cbn [resume].
    setoid_rewrite (finish_item _ _ _ _ _ _ _ _ Hf En Ht Hc). naive_solver.
Qed.

Lemma denotes_break read st l rest I R :
  Forall (frame_ok read) st → next l = Token TBreak rest →
  denotes st l I R ↔ match st with
                     | [] => False
                     | f :: s => match closes f with Some k => resume s k rest I R | None => False end
                     end.
Proof.
  intros Hst En. destruct st as [|f s]; cbn [denotes].
  - split; [|done]. by apply (no_item_break _ _ _ _ _ En).
  - apply Forall_cons_1 in Hst as [Hf _]. setoid_rewrite (finish_break _ _ _ _ _ _ _ Hf En).
    destruct (closes f); naive_solver.
Qed.

Lemma denotes_token read st l I R :
  Forall (frame_ok read) st → denotes st l I R → ∃ t rest, next l = Token t rest.
Proof.
  destruct st as [|f s]; cbn [denotes].
  - intros _ (t & r & ? & _)%item_at_token. eauto.
  - intros [Hf _]%Forall_cons_1 (k & l' & H & _). by eapply finish_token.
Qed.

(** Opening a frame. *)
Lemma starts_open (st : list cbor_stack_record) t rest f I R :
  token_item t = None → opens t = Some f → (length st < stack_limit)%nat →
  (∃ j l1, starts (stack_limit - length st) t rest j l1 ∧ resume st j l1 I R) ↔ denotes (f :: st) rest I R.
Proof.
  intros Et Eo Hl. unfold starts. rewrite Et, Eo. cbn [denotes length].
  replace (stack_limit - length st)%nat with (S (stack_limit - S (length st))) by lia. done.
Qed.

Lemma starts_full (st : list cbor_stack_record) t rest j l1 :
  token_item t = None → (stack_limit <= length st)%nat → ¬ starts (stack_limit - length st) t rest j l1.
Proof.
  intros Et Hl. unfold starts. rewrite Et. replace (stack_limit - length st)%nat with 0%nat by lia. by intros [].
Qed.

Lemma starts_token (st : list cbor_stack_record) t rest i I R :
  token_item t = Some i →
  (∃ j l1, starts (stack_limit - length st) t rest j l1 ∧ resume st j l1 I R) ↔ resume st i rest I R.
Proof. intros Et. unfold starts. rewrite Et. naive_solver. Qed.

(** ** Buffer growth *)

Lemma highest_bit_loop_spec fuel n bit :
  0 <= n < 2 ^ Z.of_nat fuel → highest_bit_loop fuel n bit = bit + (if n =? 0 then 0 else Z.log2 n + 1).
Proof.
  revert n bit. induction fuel as [|fuel IH]; intros n bit Hn; cbn [highest_bit_loop].
  - replace n with 0 by (cbn in Hn; lia). cbn. lia.
  - destruct (Z.eqb_spec n 0); [lia|]. rewrite Z.shiftr_div_pow2 by lia. change (2 ^ 1) with 2.
    rewrite Nat2Z.inj_succ, Z.pow_succ_r in Hn by lia.
    rewrite IH by (split; [apply Z.div_pos; lia|apply Z.div_lt_upper_bound; lia]).
    destruct (Z.eqb_spec (n / 2) 0) as [E|E].
    + apply Z.div_small_iff in E as [?|?]; [|lia..]. replace n with 1 by lia. cbn. lia.
    + assert (1 < n) by (destruct (Z.eq_dec n 1) as [->|]; [done|lia]).
      pose proof (Z.log2_shiftr n 1 ltac:(lia)) as El. rewrite Z.shiftr_div_pow2 in El by lia. change (2 ^ 1) with 2 in El.
      pose proof (Z.log2_pos n ltac:(lia)). lia.
Qed.

Lemma highest_bit_spec n : 0 < n < 2 ^ 64 → cbor_highest_bit n = Z.log2 n + 1.
Proof.
  intros Hn. unfold cbor_highest_bit. rewrite highest_bit_loop_spec by (change (Z.of_nat 64) with 64; lia).
  rewrite (proj2 (Z.eqb_neq _ _)) by lia. lia.
Qed.

(** The check is conservative: it never lets a product overflow. *)
Lemma safe_to_multiply_sound a b :
  is_u64 a → is_u64 b → cbor_safe_to_multiply a b = true → 0 <= a * b < 2 ^ 64.
Proof.
  unfold is_u64, cbor_safe_to_multiply. intros Ha Hb H. destruct (Z.leb_spec a 1); [cbn in H; nia|].
  destruct (Z.leb_spec b 1); [cbn in H; nia|]. cbn [orb] in H. rewrite !highest_bit_spec in H by lia.
  apply Z.leb_le in H. split; [nia|].
  pose proof (Z.log2_spec a ltac:(lia)) as [_ HA]. pose proof (Z.log2_spec b ltac:(lia)) as [_ HB].
  apply Z.lt_le_trans with (2 ^ Z.succ (Z.log2 a) * 2 ^ Z.succ (Z.log2 b)); [nia|].
  rewrite <- Z.pow_add_r by (pose proof (Z.log2_nonneg a); pose proof (Z.log2_nonneg b); lia).
  apply Z.pow_le_mono_r; lia.
Qed.

Lemma safe_to_multiply_small a b k : 0 < a < 2 ^ k → 0 <= k <= 64 → 0 <= b < 2 ^ (64 - k) → cbor_safe_to_multiply a b = true.
Proof.
  intros Ha Hk Hb. unfold cbor_safe_to_multiply. destruct (Z.leb_spec a 1); [done|]. destruct (Z.leb_spec b 1); [done|]. cbn [orb].
  assert (2 ^ k <= 2 ^ 64) by (apply Z.pow_le_mono_r; lia).
  assert (2 ^ (64 - k) <= 2 ^ 64) by (apply Z.pow_le_mono_r; lia).
  rewrite !highest_bit_spec by lia. apply Z.leb_le.
  pose proof (proj1 (Z.log2_lt_pow2 a k ltac:(lia)) ltac:(lia)).
  pose proof (proj1 (Z.log2_lt_pow2 b (64 - k) ltac:(lia)) ltac:(lia)). lia.
Qed.

Lemma capacity_enough n : Z.of_nat n <= capacity n.
Proof. induction n as [|n IH]; [done|]. cbn [capacity]. zcases; lia. Qed.

(** A buffer grows exactly when it is full. *)
Lemma capacity_S n :
  capacity (S n) = if capacity n <=? Z.of_nat n then (if capacity n =? 0 then 1 else 2 * capacity n) else capacity n.
Proof. done. Qed.

Section builder.
Context (malloc : Z → bool) (N : Z).

(** What [malloc] must serve for [N] bytes of input. *)
Definition serves : Prop := N < 2 ^ 58 ∧ ∀ s, 0 <= s <= 64 + 32 * N → malloc s = true.

Lemma grow_buffer_some size a a' :
  0 <= a < 2 ^ 64 → grow_buffer malloc size a = Some a' → a' = if a =? 0 then 1 else 2 * a.
Proof.
  intros Ha. unfold grow_buffer, CBOR_BUFFER_GROWTH. destruct (cbor_safe_to_multiply 2 a) eqn:Es; [|done].
  cbn [negb]. case_match; [|done]. intros [= <-]. destruct (a =? 0); [done|].
  apply safe_to_multiply_sound in Es; [|unfold is_u64; lia..]. by rewrite u64_id.
Qed.

Lemma alloc_multiple_serves size n :
  serves → 0 < size <= 16 → 0 <= n <= 2 * N → cbor_alloc_multiple malloc size n = true.
Proof.
  intros [HN Hm] Hs Hn. unfold cbor_alloc_multiple.
  rewrite (safe_to_multiply_small size n 5) by lia.
  apply Hm. rewrite u64_id by (unfold is_u64; nia). nia.
Qed.

Lemma grow_buffer_serves size a :
  serves → 0 < size <= 16 → 0 <= a <= N → 0 < N → ∃ a', grow_buffer malloc size a = Some a'.
Proof.
  intros Hs Hz Ha HN. unfold grow_buffer, CBOR_BUFFER_GROWTH. pose proof Hs as [HN' _].
  rewrite (safe_to_multiply_small 2 a 2) by lia. cbn [negb].
  rewrite alloc_multiple_serves; [by eauto|done|done|].
  destruct (a =? 0); [lia|]. rewrite u64_id by (unfold is_u64; lia). lia.
Qed.

Context (HN : 0 <= N < 2 ^ 64).

(** One more slot, or the allocation failed. *)
Lemma grow_step size (n : nat) :
  0 < size <= 16 → Z.of_nat n < N →
  (capacity n <= Z.of_nat n →
    grow_buffer malloc size (capacity n) = Some (capacity (S n)) ∨
    grow_buffer malloc size (capacity n) = None ∧ ¬ serves) ∧
  (Z.of_nat n < capacity n → capacity n = capacity (S n)).
Proof.
  intros Hs Hn. pose proof (capacity_enough n) as Hc. rewrite capacity_S. split; intros H.
  - rewrite (proj2 (Z.leb_le _ _)) by lia. destruct (grow_buffer malloc size (capacity n)) as [a'|] eqn:E.
    + left. f_equal. by eapply grow_buffer_some; [|exact E]; lia.
    + right. split; [done|]. intros Hv. destruct (grow_buffer_serves size (capacity n)) as [a' E']; [done|done|lia..|].
      congruence.
  - by rewrite (proj2 (Z.leb_gt _ _)) by lia.
Qed.

Lemma array_push_indef es j :
  zlen es < N →
  let r := partial_array_push malloc (PArray false (capacity (length es)) es) j in
  r = Ret (Some (PArray false (capacity (S (length es))) (es ++ [j]))) ∨ r = Ret None ∧ ¬ serves.
Proof.
  intros Hn r. unfold r, partial_array_push. destruct (grow_step sizeof_pointer (length es)) as [H1 H2]; [done|done|].
  unfold zlen in *. destruct (Z.leb_spec (capacity (length es)) (Z.of_nat (length es))) as [H|H].
  - destruct (H1 H) as [->|[-> ?]]; auto.
  - rewrite <- (H2 H). auto.
Qed.

Lemma map_add_key_indef ps key :
  zlen ps < N →
  let r := cbor_map_add_key malloc (PMap false (capacity (length ps)) ps None) key in
  r = Ret (Some (PMap false (capacity (S (length ps))) ps (Some key))) ∨ r = Ret None ∧ ¬ serves.
Proof.
  intros Hn r. unfold r, cbor_map_add_key. destruct (grow_step sizeof_cbor_pair (length ps)) as [H1 H2]; [done|done|].
  cbn [pending]. rewrite Z.add_0_r. unfold zlen in *. destruct (Z.leb_spec (capacity (length ps)) (Z.of_nat (length ps))) as [H|H].
  - destruct (H1 H) as [->|[-> ?]]; auto.
  - rewrite <- (H2 H). auto.
Qed.

(** A chunk list is grown on [chunk_count == chunk_capacity]. *)
Lemma add_chunk_ok cs chunk :
  zlen cs < N →
  (let r := cbor_bytestring_add_chunk malloc (PBytes cs (capacity (length cs))) chunk in
   r = Ret (Some (PBytes (cs ++ [chunk]) (capacity (S (length cs))))) ∨ r = Ret None ∧ ¬ serves) ∧
  (let r := cbor_string_add_chunk malloc (PString cs (capacity (length cs))) chunk in
   r = Ret (Some (PString (cs ++ [chunk]) (capacity (S (length cs))))) ∨ r = Ret None ∧ ¬ serves).
Proof.
  intros Hn. unfold cbor_bytestring_add_chunk, cbor_string_add_chunk.
  destruct (grow_step sizeof_pointer (length cs)) as [H1 H2]; [done|done|].
  pose proof (capacity_enough (length cs)). unfold zlen in *.
  destruct (Z.eqb_spec (Z.of_nat (length cs)) (capacity (length cs))) as [H'|H'].
  - destruct (H1 ltac:(lia)) as [->|[-> ?]]; auto.
  - rewrite <- (H2 ltac:(lia)). auto.
Qed.

(** ** Appending *)

(** [settles read P rest ctx]: after a callback the context stands for the
    results [P] that were still possible before it. *)
Definition settles (read : Z) (P : cbor_item → list Z → Prop) (rest : list Z) (ctx : cbor_decoder_context) : Prop :=
  if cx_creation_failed ctx then serves → ∀ I R, ¬ P I R
  else if cx_syntax_error ctx then ∀ I R, ¬ P I R
  else match cx_stack ctx with
       | [] => ∃ i, cx_root ctx = Some i ∧ cbor_ok i ∧ ∀ I R, P I R ↔ I = i ∧ R = rest
       | st => cx_root ctx = None ∧ Forall (frame_ok read) st ∧ (length st <= stack_limit)%nat ∧
               ∀ I R, P I R ↔ denotes st rest I R
       end.

Lemma settles_ext read P Q rest ctx :
  (∀ I R, P I R ↔ Q I R) → settles read P rest ctx → settles read Q rest ctx.
Proof.
  intros H. unfold settles. destruct (cx_creation_failed ctx); [by intros HP Hs I R ?%H; eapply HP|].
  destruct (cx_syntax_error ctx); [by intros HP I R ?%H; eapply HP|].
  destruct (cx_stack ctx); [intros (i & E & Hi & HP)|intros (E & Hf & Hl & HP)].
  - exists i. split_and!; [done..|]. intros I R. by rewrite <- H.
  - split_and!; [done..|]. intros I R. by rewrite <- H.
Qed.

Lemma frame_ok_mono read read' f : read <= read' → frame_ok read f → frame_ok read' f.
Proof.
  clear HN. intros H. unfold frame_ok. destruct (sr_item f) as [cs cap|cs cap|[|] n es|[|] n ps key|v]; intros Hf;
    repeat match goal with H : _ ∧ _ |- _ => destruct H end; split_and?; first [assumption|lia].
Qed.

(** The contexts the callbacks start from. *)
Abbreviation fresh_ctx st := (mkContext false false None st).

(** The item fills its frame: the frame is popped and the item goes below. *)
Lemma accept_closed f s j k rest I R :
  (∀ k' l', accept (stack_limit - length (f :: s)) f j rest k' l' ↔ k' = k ∧ l' = rest) →
  resume s k rest I R ↔ resume (f :: s) j rest I R.
Proof.
  intros H. cbn [resume]. setoid_rewrite H. split; [eauto|]. by intros (? & ? & [-> ->] & ?).
Qed.

(** The frame stays open. *)
Lemma accept_open f f' s j rest I R :
  (∀ k' l', accept (stack_limit - length (f :: s)) f j rest k' l' ↔ finish (stack_limit - length (f' :: s)) f' rest k' l') →
  denotes (f' :: s) rest I R ↔ resume (f :: s) j rest I R.
Proof. intros H. cbn [resume denotes]. by setoid_rewrite H. Qed.

Lemma items_at_0 d l es l' : items_at d 0 l es l' ↔ es = [] ∧ l' = l.
Proof. split; [by inversion 1|intros [-> ->]; constructor]. Qed.

Lemma pairs_at_0 d l ps l' : pairs_at d 0 l ps l' ↔ ps = [] ∧ l' = l.
Proof. split; [by inversion 1|intros [-> ->]; constructor]. Qed.

Lemma settles_open read P st rest :
  st ≠ [] → Forall (frame_ok read) st → (length st <= stack_limit)%nat →
  (∀ I R, denotes st rest I R ↔ P I R) → settles read P rest (fresh_ctx st).
Proof.
  intros Hne Hf Hl HP. unfold settles. cbn [cx_creation_failed cx_syntax_error cx_stack cx_root].
  destruct st as [|f s]; [done|]. split_and!; [done..|]. intros I R. by rewrite HP.
Qed.

Lemma frames_mono read st : Forall (frame_ok read) st → Forall (frame_ok (read + 1)) st.
Proof. apply List.Forall_impl. intros f. apply frame_ok_mono. lia. Qed.

Lemma settles_fail read P rest ctx : cx_creation_failed ctx = true → ¬ serves → settles read P rest ctx.
Proof. intros E Hs. unfold settles. rewrite E. by intros ?%Hs. Qed.

Lemma app_one {A} (l l' : list A) x : (l ++ [x]) ++ l' = l ++ x :: l'.
Proof. by rewrite <- app_assoc. Qed.

(** The new frame after an item is [frame_ok] and stands for what [accept] says. *)
Definition replaces (read : Z) (f f' : cbor_stack_record) (j : cbor_item) : Prop :=
  frame_ok (read + 1) f' ∧ ∀ d l k l', accept d f j l k l' ↔ finish d f' l k l'.

Definition fills (f : cbor_stack_record) (j k : cbor_item) : Prop :=
  cbor_ok k ∧ ∀ d l k' l', accept d f j l k' l' ↔ k' = k ∧ l' = l.

Lemma array_replaces read n es sub j :
  frame_ok read (mkStackRecord (PArray true n es) sub) → cbor_ok j → sub ≠ 1 →
  replaces read (mkStackRecord (PArray true n es) sub) (mkStackRecord (PArray true n (es ++ [j])) (sub - 1)) j.
Proof.
  intros (Es & Hp & Hle & Hes) Hj H1. cbn [sr_item sr_subitems] in *. split.
  - unfold frame_ok. cbn [sr_item sr_subitems]. rewrite zlen_app, zlen_cons. change (zlen []) with 0.
    split_and!; [lia..|]. by apply Forall_app_2; [|constructor].
  - intros d l k l'. unfold accept, finish. cbn [sr_item sr_subitems]. by setoid_rewrite app_one.
Qed.

Lemma array_fills read n es j :
  frame_ok read (mkStackRecord (PArray true n es) 1) → cbor_ok j →
  fills (mkStackRecord (PArray true n es) 1) j (CArray true n (es ++ [j])).
Proof.
  intros (Es & Hp & Hle & Hes) Hj. cbn [sr_item sr_subitems] in *. split.
  - apply cbor_ok_array. split; [intros _; rewrite zlen_app, zlen_cons; change (zlen []) with 0; lia|].
    by apply Forall_app_2; [|constructor].
  - intros d l k l'. unfold accept. cbn [sr_item sr_subitems]. change (Z.to_nat (1 - 1)) with 0%nat.
    setoid_rewrite items_at_0. split; [by intros (es' & [-> ->] & ->)|]. intros [-> ->]. by exists [].
Qed.

Lemma indef_array_replaces read a es sub j :
  frame_ok read (mkStackRecord (PArray false a es) sub) → cbor_ok j →
  replaces read (mkStackRecord (PArray false a es) sub)
    (mkStackRecord (PArray false (capacity (S (length es))) (es ++ [j])) sub) j.
Proof.
  intros (Ea & Hle & Hes) Hj. cbn [sr_item sr_subitems] in *. split.
  - unfold frame_ok. cbn [sr_item sr_subitems]. rewrite zlen_app, zlen_cons, length_app. change (zlen []) with 0.
    split_and!; [f_equal; cbn; lia|lia|]. by apply Forall_app_2; [|constructor].
  - intros d l k l'. unfold accept, finish. cbn [sr_item sr_subitems]. by setoid_rewrite app_one.
Qed.

Lemma key_replaces read d' a a' ps sub sub' j :
  frame_ok read (mkStackRecord (PMap d' a ps None) sub) → cbor_ok j →
  (d' = true → a' = a ∧ sub' = sub - 1) → (d' = false → a' = capacity (S (length ps)) ∧ sub' = 1) →
  replaces read (mkStackRecord (PMap d' a ps None) sub) (mkStackRecord (PMap d' a' ps (Some j)) sub') j.
Proof.
  intros Hf Hj Ht Hd. unfold frame_ok in Hf. cbn [sr_item sr_subitems] in Hf. destruct d'; split.
  - destruct Ht as [-> ->]; [done|]. destruct Hf as (Es & Hp & Hle & Hps & _). unfold frame_ok.
    cbn [sr_item sr_subitems pending from_option] in *. split_and!; [lia..|done|done].
  - destruct Ht as [-> ->]; [done|]. intros d l k l'. unfold accept, finish. by cbn [sr_item sr_subitems].
  - destruct Hd as [-> ->]; [done|]. destruct Hf as (Es & Hp & Hle & Hps & _). unfold frame_ok.
    cbn [sr_item sr_subitems pending from_option] in *. split_and!; [f_equal; lia|done|lia|done|done].
  - intros d l k l'. unfold accept, finish. by cbn [sr_item sr_subitems].
Qed.

Lemma value_replaces read d' a ps key sub sub' j :
  frame_ok read (mkStackRecord (PMap d' a ps (Some key)) sub) → cbor_ok j →
  (d' = true → sub ≠ 1 ∧ sub' = sub - 1) → (d' = false → sub' = 0) →
  replaces read (mkStackRecord (PMap d' a ps (Some key)) sub) (mkStackRecord (PMap d' a (ps ++ [(key, j)]) None) sub') j.
Proof.
  intros Hf Hj Ht Hd. unfold frame_ok in Hf. cbn [sr_item sr_subitems] in Hf.
  assert (Forall pair_ok (ps ++ [(key, j)])) as Hok.
  { destruct d'; destruct Hf as (_ & _ & _ & Hps & Hk); (apply Forall_app_2; [done|]); repeat constructor; done. }
  assert (zlen (ps ++ [(key, j)]) = zlen ps + 1) as El by (by rewrite zlen_app).
  destruct d'; split.
  - destruct Ht as [H1 ->]; [done|]. destruct Hf as (Es & Hp & Hle & Hps & Hk). unfold frame_ok.
    cbn [sr_item sr_subitems pending from_option] in *. rewrite El. split_and!; [lia..|done|done].
  - destruct Ht as [H1 ->]; [done|]. intros d l k l'. unfold accept, finish. cbn [sr_item sr_subitems].
    destruct Hf as (Es & Hp & _). cbn [pending] in Es.
    assert ((sub - 1) / 2 = sub / 2) as ->.
    { replace sub with (2 * (a - zlen ps - 1) + 1) by lia. rewrite odd_half.
      replace (2 * (a - zlen ps - 1) + 1 - 1) with (2 * (a - zlen ps - 1)) by lia. apply even_half. }
    by setoid_rewrite app_one.
  - rewrite Hd by done. destruct Hf as (Es & Hp & Hle & Hps & Hk). unfold frame_ok.
    cbn [sr_item sr_subitems pending from_option] in *. rewrite El.
    split_and!; [rewrite Es, length_app; f_equal; cbn; lia|done|lia|done|done].
  - intros d l k l'. unfold accept, finish. cbn [sr_item sr_subitems]. by setoid_rewrite app_one.
Qed.

Lemma value_fills read a ps key j :
  frame_ok read (mkStackRecord (PMap true a ps (Some key)) 1) → cbor_ok j →
  fills (mkStackRecord (PMap true a ps (Some key)) 1) j (CMap true a (ps ++ [(key, j)])).
Proof.
  intros (Es & Hp & Hle & Hps & Hk) Hj. cbn [sr_item sr_subitems pending from_option] in *. split.
  - apply cbor_ok_map. split; [intros _; rewrite zlen_app; change (zlen [(key, j)]) with 1; lia|].
    apply Forall_app_2; [done|]. repeat constructor; done.
  - intros d l k l'. unfold accept. cbn [sr_item sr_subitems]. change (Z.to_nat (1 / 2)) with 0%nat.
    setoid_rewrite pairs_at_0. split; [by intros (es' & [-> ->] & ->)|]. intros [-> ->]. by exists [].
Qed.

Lemma fills_resume f s j k rest I R : fills f j k → resume s k rest I R ↔ resume (f :: s) j rest I R.
Proof. intros [_ H]. by apply accept_closed. Qed.

Lemma replaces_settles read f f' s j rest :
  Forall (frame_ok read) s → (length (f :: s) <= stack_limit)%nat → replaces read f f' j →
  settles (read + 1) (resume (f :: s) j rest) rest (fresh_ctx (f' :: s)).
Proof.
  intros Hst Hl [Hf Ha]. apply settles_open; [done|constructor; [done|by apply frames_mono]|done|].
  intros I R. apply accept_open. intros k' l'. apply Ha.
Qed.

(** Appending to the stack [st], from any context in good order. *)
Lemma append_settles read st st0 j rest :
  0 <= read < N → Forall (frame_ok read) st → (length st <= stack_limit)%nat → cbor_ok j →
  ∃ ctx, append_item malloc st j (fresh_ctx st0) = Ret ctx ∧ settles (read + 1) (resume st j rest) rest ctx.
Proof.
  intros Hr Hst. revert j. induction Hst as [|f s Hf Hst IH]; intros j Hl Hj; cbn [append_item].
  { eexists. split; [reflexivity|]. exists j. by split_and!. }
  assert (∀ k, fills f j k →
    ∃ ctx, append_item malloc s k (fresh_ctx st0) = Ret ctx ∧ settles (read + 1) (resume (f :: s) j rest) rest ctx) as Hclose.
  { intros k Hk. destruct (IH k) as (ctx & E & Hs); [cbn in Hl; lia|by apply Hk|]. exists ctx. split; [done|].
    eapply settles_ext; [|exact Hs]. intros I R. by apply fills_resume. }
  assert (∀ f', replaces read f f' j → ∃ ctx, Ret (fresh_ctx (f' :: s)) = Ret ctx ∧
    settles (read + 1) (resume (f :: s) j rest) rest ctx) as Hopen.
  { intros f' Hf'. eexists. split; [reflexivity|]. by apply replaces_settles. }
  assert (∀ ctx, cx_creation_failed ctx = true → ¬ serves → ∃ ctx', Ret ctx = Ret ctx' ∧
    settles (read + 1) (resume (f :: s) j rest) rest ctx') as Hfail.
  { intros ctx E Hs. eexists. split; [reflexivity|]. by apply settles_fail. }
  destruct f as [p sub]. cbn [sr_item sr_subitems]. destruct p as [cs cap|cs cap|[|] n es|d n ps key|v].
  - eexists. split; [reflexivity|]. by intros I R (k & l' & [] & _).
  - eexists. split; [reflexivity|]. by intros I R (k & l' & [] & _).
  - pose proof Hf as (Es & Hp & _). cbn [sr_item sr_subitems] in Es, Hp. rewrite (proj2 (Z.leb_gt _ _)) by lia.
    cbn [partial_array_push]. rewrite (proj2 (Z.leb_gt _ _)) by lia. cbn [xbind].
    destruct (Z.eqb_spec (sub - 1) 0) as [E|E].
    + replace sub with 1 in * by lia. cbn [partial_item xbind]. by eapply Hclose, array_fills.
    + apply Hopen, array_replaces; [done..|lia].
  - pose proof Hf as (Ea & Hle & _). cbn [sr_item sr_subitems] in Ea, Hle. subst n.
    destruct (array_push_indef es j) as [->|[-> Hs]]; [lia| |]; cbn [xbind].
    + by apply Hopen, indef_array_replaces.
    + by apply Hfail.
  - assert (sub mod 2 = pending key) as ->.
    { unfold frame_ok in Hf. cbn [sr_item sr_subitems] in Hf. destruct d; [destruct Hf as (-> & _)|destruct Hf as (_ & -> & _)].
      - destruct key; cbn [pending].
        + replace (2 * (n - zlen ps) - 1) with (1 + (n - zlen ps - 1) * 2) by lia. by rewrite Z.mod_add.
        + replace (2 * (n - zlen ps) - 0) with (0 + (n - zlen ps) * 2) by lia. by rewrite Z.mod_add.
      - by destruct key. }
    destruct key as [key|]; cbn [pending Z.eqb negb cbor_map_add_value xbind].
    + destruct d.
      * pose proof Hf as (Es & Hp & _). cbn [sr_item sr_subitems] in Es, Hp. rewrite (proj2 (Z.leb_gt _ _)) by lia.
        destruct (Z.eqb_spec (sub - 1) 0) as [E|E].
        -- replace sub with 1 in * by lia. cbn [partial_item xbind]. by eapply Hclose, value_fills.
        -- apply Hopen, value_replaces; [done..| |done]. intros _. split; [lia|done].
      * pose proof Hf as (_ & Es & _). cbn [sr_item sr_subitems pending] in Es. subst sub.
        by apply Hopen, value_replaces.
    + destruct d.
      * pose proof Hf as (Es & Hp & _). cbn [sr_item sr_subitems pending] in Es, Hp. unfold cbor_map_add_key.
        cbn [pending]. rewrite (proj2 (Z.leb_gt _ _)) by lia. cbn [xbind]. rewrite (proj2 (Z.leb_gt _ _)) by lia.
        rewrite (proj2 (Z.eqb_neq _ _)) by lia. by apply Hopen, key_replaces.
      * pose proof Hf as (Ea & Es & Hle & _). cbn [sr_item sr_subitems pending] in Ea, Es, Hle.
        change (Z.to_nat 0) with 0%nat in Ea. rewrite Nat.add_0_r in Ea. subst n sub.
        destruct (map_add_key_indef ps j) as [->|[-> Hs]]; [lia| |]; cbn [xbind].
        -- by apply Hopen, key_replaces.
        -- by apply Hfail.
  - pose proof Hf as Es. unfold frame_ok in Es. cbn [sr_item sr_subitems] in Es. subst sub. cbn [Z.eqb negb].
    apply (Hclose (CTag v j)). split; [done|]. intros. by unfold accept.
Qed.

(** ** Callbacks *)

Lemma malloc_fails s : 0 <= s <= 64 → malloc s = false → ¬ serves.
Proof. intros Hs E [_ H]. rewrite H in E by lia. done. Qed.

Section token.
Context (read : Z) (st : list cbor_stack_record) (l : list Z) (t : cbor_token) (rest : list Z).
Context (Hread : 0 <= read) (Hl : read + zlen l <= N) (Hlen : 0 < zlen l).
Context (Hst : Forall (frame_ok read) st) (Hlim : (length st <= stack_limit)%nat).
Context (Hbytes : bytes_ok l) (En : next l = Token t rest).

Abbreviation good m := (∃ ctx, m = Ret ctx ∧ settles (read + 1) (denotes st l) rest ctx).

Lemma good_fail : ¬ serves → good (Ret (cx_fail (fresh_ctx st))).
Proof. intros Hs. eexists. split; [reflexivity|]. by apply settles_fail. Qed.

Lemma good_append i : token_item t = Some i → t ≠ TBreak → top_is_chunk st t = false → cbor_ok i →
  good (cbor_builder_append malloc i (fresh_ctx st)).
Proof.
  intros Ei Ht Hc Hi. unfold cbor_builder_append. cbn [cx_stack].
  destruct (append_settles read st st i rest) as (ctx & E & Hs); [lia|done..|]. exists ctx. split; [done|].
  eapply settles_ext; [|exact Hs]. intros I R. by rewrite (denotes_item read st l t rest), starts_token.
Qed.

Lemma good_leaf extra i :
  token_item t = Some i → t ≠ TBreak → top_is_chunk st t = false → cbor_ok i → 0 <= extra <= 8 →
  good (build_leaf malloc extra i (fresh_ctx st)).
Proof.
  intros Ei Ht Hc Hi He. unfold build_leaf, sizeof_cbor_item_t. destruct (malloc (48 + extra)) eqn:Em.
  - by apply good_append.
  - apply good_fail. apply (malloc_fails (48 + extra) ltac:(lia) Em).
Qed.

Lemma good_push f :
  token_item t = None → opens t = Some f → top_is_chunk st t = false → frame_ok (read + 1) f →
  good (Ret (push_ctx_stack malloc (fresh_ctx st) (sr_item f) (sr_subitems f))).
Proof.
  intros Ei Eo Hc Hf. assert (t ≠ TBreak) as Ht by by intros ->.
  unfold push_ctx_stack, cbor_stack_push. cbn [cx_stack].
  assert (Hd : ∀ I R, denotes st l I R ↔ ∃ j l1, starts (stack_limit - length st) t rest j l1 ∧ resume st j l1 I R)
    by (intros; by apply (denotes_item read)).
  destruct (Z.eqb_spec (zlen st) CBOR_MAX_STACK_SIZE) as [E|E].
  - eexists. split; [reflexivity|]. intros _ I R (j & l1 & Hs & _)%Hd.
    eapply starts_full; [exact Ei| |exact Hs]. unfold zlen in E. with_strategy transparent [stack_limit] unfold stack_limit.
    lia.
  - destruct (malloc sizeof_stack_record) eqn:Em; [|apply good_fail, (malloc_fails sizeof_stack_record); [done|done]].
    eexists. split; [reflexivity|]. destruct f as [p sub]. cbn [negb sr_item sr_subitems] in *.
    assert (length st < stack_limit)%nat as Hlt.
    { apply Nat.le_neq. split; [done|]. intros El. apply E. unfold zlen. rewrite El. reflexivity. }
    apply settles_open; [done|constructor; [done|by apply frames_mono]|cbn; lia|].
    intros I R. by rewrite Hd, starts_open.
Qed.

Lemma read_string d : read_bytes (d ++ rest) 0 (zlen d) = Ret d.
Proof.
  unfold read_bytes. rewrite zlen_app. pose proof (zlen_nonneg d). pose proof (zlen_nonneg rest).
  rewrite !(proj2 (Z.leb_le _ _)) by lia. cbn [andb]. rewrite drop_0. unfold zlen. rewrite Nat2Z.id. by rewrite take_app_length.
Qed.

Lemma string_malloc d : t = TBytes d ∨ t = TString d → malloc (zlen d) = false → ¬ serves.
Proof.
  intros Ht E [_ H]. pose proof (next_string _ _ _ _ En Ht). pose proof (zlen_nonneg d). pose proof (zlen_nonneg rest).
  rewrite H in E by lia. done.
Qed.

(** A chunk on top of the string it extends. *)
Lemma good_chunk f f' s :
  st = f :: s → frame_ok (read + 1) f' →
  (∀ d k l', finish d f l k l' ↔ finish d f' rest k l') → good (Ret (fresh_ctx (f' :: s))).
Proof.
  intros E Hf Hfin. eexists. split; [reflexivity|]. subst st.
  apply settles_open; [done|constructor; [done|by apply frames_mono; apply Forall_cons_1 in Hst as [_ ?]]|done|].
  intros I R. cbn [denotes]. by setoid_rewrite Hfin.
Qed.

Lemma chunks_at_chunk (mk : list Z → cbor_token) d cs l' :
  (∀ d d', mk d = mk d' → d = d') → mk d ≠ TBreak → t = mk d →
  chunks_at mk l cs l' ↔ ∃ cs', cs = d :: cs' ∧ chunks_at mk rest cs' l'.
Proof.
  intros Hinj Hb ->. split.
  - inversion 1; subst; rewrite En in *; simplify_eq.
    match goal with H : mk _ = mk _ |- _ => apply Hinj in H as -> end. eauto.
  - intros (cs' & -> & H). by eapply chunks_more.
Qed.

Lemma chunk_frame_ok cs d : Forall bytes_ok cs → bytes_ok d → zlen cs <= read →
  capacity (S (length cs)) = capacity (length (cs ++ [d])) ∧ zlen (cs ++ [d]) <= read + 1 ∧ Forall bytes_ok (cs ++ [d]).
Proof.
  intros Hcs Hd Hle. rewrite zlen_app, length_app, Nat.add_1_r. change (zlen [d]) with 1.
  split_and!; [done|lia|]. by apply Forall_app_2; [|constructor].
Qed.

Lemma good_byte_string d :
  t = TBytes d → good (cbor_builder_byte_string_callback malloc (d ++ rest) (zlen d) (fresh_ctx st)).
Proof.
  intros Et. assert (bytes_ok d) as Hd by (apply next_ok in En as [_ H]; [by subst t|done]).
  unfold cbor_builder_byte_string_callback. destruct (malloc (zlen d)) eqn:Em;
    [|apply good_fail; eapply string_malloc; eauto]. cbn [negb]. rewrite read_string. cbn [xbind].
  destruct (malloc sizeof_cbor_item_t) eqn:Em2; [|apply good_fail, (malloc_fails sizeof_cbor_item_t); done].
  cbn [negb cx_stack].
  assert (top_is_chunk st t = false → good (cbor_builder_append malloc (CBytes d) (fresh_ctx st))) as Happ.
  { intros Hc. apply good_append; [by subst t|by subst t|done|done]. }
  assert (∀ cs cap sub s, st = mkStackRecord (PBytes cs cap) sub :: s →
    good (r <- cbor_bytestring_add_chunk malloc (PBytes cs cap) d ;;
          match r with
          | None => Ret (cx_fail (fresh_ctx st))
          | Some top' => Ret (fresh_ctx (mkStackRecord top' sub :: s))
          end)) as Hch.
  { intros cs cap sub s Es. pose proof Hst as Hst'. rewrite Es in Hst'.
    apply Forall_cons_1 in Hst' as [(Ec & Hle & Hcs) _]. cbn [sr_item] in Ec. subst cap.
    destruct (add_chunk_ok cs d) as [[->|[-> Hs]] _]; [lia| |]; cbn [xbind]; [|by apply good_fail].
    eapply good_chunk; [exact Es|by apply chunk_frame_ok|].
    intros m k l'. unfold finish. cbn [sr_item]. setoid_rewrite (chunks_at_chunk TBytes d); [|congruence|done|done].
    setoid_rewrite app_one. naive_solver. }
  clear - Happ Hch Et. destruct st as [|[p sub] s]; [by apply Happ|].
  destruct p as [cs cap| | | |]; try by (apply Happ; subst t). by apply Hch.
Qed.

Lemma good_string d :
  t = TString d → good (cbor_builder_string_callback malloc (d ++ rest) (zlen d) (fresh_ctx st)).
Proof.
  intros Et. assert (bytes_ok d) as Hd by (apply next_ok in En as [_ H]; [by subst t|done]).
  unfold cbor_builder_string_callback. destruct (malloc (zlen d)) eqn:Em;
    [|apply good_fail; eapply string_malloc; eauto]. cbn [negb]. rewrite read_string. cbn [xbind].
  destruct (malloc sizeof_cbor_item_t) eqn:Em2; [|apply good_fail, (malloc_fails sizeof_cbor_item_t); done].
  cbn [negb cx_stack]. unfold cbor_string_set_handle. destruct (codepoint_count_le d Hd) as (n & us & -> & Hn).
  cbn [xbind]. rewrite (proj2 (Z.ltb_ge _ _)) by lia. cbn [xbind].
  assert (top_is_chunk st t = false → good (cbor_builder_append malloc (CString d) (fresh_ctx st))) as Happ.
  { intros Hc. apply good_append; [by subst t|by subst t|done|done]. }
  assert (∀ cs cap sub s, st = mkStackRecord (PString cs cap) sub :: s →
    good (r <- cbor_string_add_chunk malloc (PString cs cap) d ;;
          match r with
          | None => Ret (cx_fail (fresh_ctx st))
          | Some top' => Ret (fresh_ctx (mkStackRecord top' sub :: s))
          end)) as Hch.
  { intros cs cap sub s Es. pose proof Hst as Hst'. rewrite Es in Hst'.
    apply Forall_cons_1 in Hst' as [(Ec & Hle & Hcs) _]. cbn [sr_item] in Ec. subst cap.
    destruct (add_chunk_ok cs d) as [_ [->|[-> Hs]]]; [lia| |]; cbn [xbind]; [|by apply good_fail].
    eapply good_chunk; [exact Es|by apply chunk_frame_ok|].
    intros m k l'. unfold finish. cbn [sr_item]. setoid_rewrite (chunks_at_chunk TString d); [|congruence|done|done].
    setoid_rewrite app_one. naive_solver. }
  clear - Happ Hch Et. destruct st as [|[p sub] s]; [by apply Happ|].
  destruct p as [|cs cap| | |]; try by (apply Happ; subst t). by apply Hch.
Qed.

(** An announced length that cannot be allocated is beyond the data. *)
Lemma good_huge n :
  token_item t = None → t = TArray n ∨ t = TMap n → (serves → 2 * N < n) →
  good (Ret (cx_fail (fresh_ctx st))).
Proof.
  intros Ei Ht Hbig. eexists. split; [reflexivity|]. intros Hs I R Hden. specialize (Hbig Hs).
  rewrite (denotes_item read st l t rest) in Hden; [|done|done|by destruct Ht as [-> | ->]|].
  2:{ destruct Ht as [-> | ->]; clear - st; destruct st as [|[[] ?] ?]; done. }
  destruct Hden as (j & l1 & Hst1 & _). unfold starts in Hst1. rewrite Ei in Hst1.
  destruct (stack_limit - length st)%nat as [|d]; [done|].
  pose proof (next_length _ _ _ En) as Hrest. destruct grammar_length as (_ & Hi & _ & Hp & _).
  destruct Ht as [-> | ->]; cbn [opens] in Hst1; unfold finish in Hst1; cbn [sr_item sr_subitems] in Hst1.
  - destruct Hst1 as (es & H%Hi & _). unfold zlen in *. lia.
  - destruct Hst1 as (ps & H%Hp & _). rewrite Z.div_mul in H by lia. unfold zlen in *. lia.
Qed.

Lemma top_not_chunk : (∀ d, t ≠ TBytes d) → (∀ d, t ≠ TString d) → top_is_chunk st t = false.
Proof.
  intros H1 H2. clear - H1 H2. destruct st as [|[[] ?] ?]; [done|..]; destruct t; try done; cbn;
    [by edestruct H1|by edestruct H2].
Qed.

Lemma good_array_start n : t = TArray n → good (cbor_builder_array_start_callback malloc n (fresh_ctx st)).
Proof.
  intros Et. assert (is_u64 n) as Hn by (apply next_ok in En as [_ H]; [by subst t|done]). unfold is_u64 in Hn.
  assert (top_is_chunk st t = false) as Hc by (apply top_not_chunk; by subst t).
  unfold cbor_builder_array_start_callback.
  destruct (malloc sizeof_cbor_item_t) eqn:Em; [|apply good_fail, (malloc_fails sizeof_cbor_item_t); done].
  cbn [andb]. destruct (Z.ltb_spec 0 n) as [H0|H0].
  - assert (token_item t = None) as Ei by (subst t; cbn; by rewrite (proj2 (Z.eqb_neq _ _)) by lia).
    destruct (cbor_alloc_multiple malloc sizeof_pointer n) eqn:Ea.
    + apply (good_push (mkStackRecord (PArray true n []) n)); [done|by subst t|done|].
      unfold frame_ok. cbn [sr_item sr_subitems]. change (zlen []) with 0. split_and!; [lia..|constructor].
    + eapply good_huge; [done|by left|]. intros Hs. apply Z.nle_gt. intros Hle.
      rewrite alloc_multiple_serves in Ea; [done|done|done|lia].
  - assert (n = 0) as -> by lia. destruct (cbor_alloc_multiple malloc sizeof_pointer 0) eqn:Ea.
    + apply good_append; [by subst t|by subst t|done|]. apply cbor_ok_array. by split.
    + apply good_fail. intros Hs. rewrite alloc_multiple_serves in Ea; [done|done|done|lia].
Qed.

Lemma good_map_start n : t = TMap n → good (cbor_builder_map_start_callback malloc n (fresh_ctx st)).
Proof.
  intros Et. assert (is_u64 n) as Hn by (apply next_ok in En as [_ H]; [by subst t|done]). unfold is_u64 in Hn.
  assert (top_is_chunk st t = false) as Hc by (apply top_not_chunk; by subst t).
  unfold cbor_builder_map_start_callback.
  destruct (malloc sizeof_cbor_item_t) eqn:Em; [|apply good_fail, (malloc_fails sizeof_cbor_item_t); done].
  cbn [andb]. destruct (Z.ltb_spec 0 n) as [H0|H0].
  - assert (token_item t = None) as Ei by (subst t; cbn; by rewrite (proj2 (Z.eqb_neq _ _)) by lia).
    destruct (cbor_alloc_multiple malloc sizeof_cbor_pair n) eqn:Ea.
    + assert (n * 2 < 2 ^ 64) as Hu.
      { unfold cbor_alloc_multiple in Ea. destruct (cbor_safe_to_multiply sizeof_cbor_pair n) eqn:Es; [|done].
        apply safe_to_multiply_sound in Es; [unfold sizeof_cbor_pair in Es; lia|by vm_compute|done]. }
      rewrite u64_id by (unfold is_u64; lia).
      apply (good_push (mkStackRecord (PMap true n [] None) (n * 2))); [done|by subst t|done|].
      unfold frame_ok. cbn [sr_item sr_subitems pending from_option]. change (zlen []) with 0.
      split_and!; [lia..|constructor|done].
    + eapply good_huge; [done|by right|]. intros Hs. apply Z.nle_gt. intros Hle.
      rewrite alloc_multiple_serves in Ea; [done|done|done|lia].
  - assert (n = 0) as -> by lia. destruct (cbor_alloc_multiple malloc sizeof_cbor_pair 0) eqn:Ea.
    + apply good_append; [by subst t|by subst t|done|]. apply cbor_ok_map. by split.
    + apply good_fail. intros Hs. rewrite alloc_multiple_serves in Ea; [done|done|done|lia].
Qed.

Lemma break_condition f :
  frame_ok read f →
  let cond := cbor_is_indefinite (sr_item f) && (negb (is_partial_map (sr_item f)) || (sr_subitems f mod 2 =? 0)) in
  match closes f with
  | Some k => cond = true ∧ partial_item (sr_item f) = Ret k ∧ cbor_ok k
  | None => cond = false
  end.
Proof.
  unfold frame_ok, closes. destruct f as [p sub]. cbn [sr_item sr_subitems]. intros Hf.
  destruct p as [cs cap|cs cap|[|] n es|[|] n ps [key|]|v]; cbn [cbor_is_indefinite is_partial_map negb orb andb partial_item];
    try done.
  - split_and!; [done..|]. apply Hf.
  - split_and!; [done..|]. apply Hf.
  - split_and!; [done..|]. apply cbor_ok_array. split; [done|apply Hf].
  - destruct Hf as (_ & -> & _). done.
  - destruct Hf as (_ & -> & _ & Hps & _). split_and!; [done..|]. apply cbor_ok_map. by split.
Qed.

Lemma good_break : t = TBreak → good (cbor_builder_indef_break_callback malloc (fresh_ctx st)).
Proof.
  intros Et. unfold cbor_builder_indef_break_callback. cbn [cx_stack].
  assert (∀ I R, denotes st l I R ↔ match st with
    | [] => False
    | f :: s => match closes f with Some k => resume s k rest I R | None => False end end) as Hd.
  { intros I R. rewrite Et in En. by apply (denotes_break read). }
  assert (∀ f s, st = f :: s → _) as Hcond by (intros f s E; rewrite E in Hst; apply Forall_cons_1 in Hst as [Hf _];
    exact (break_condition f Hf)).
  assert (read < N) as HrN by lia.
  clear En. destruct st as [|f s]; [eexists; split; [reflexivity|]; by intros I R ?%Hd|].
  pose proof Hst as [_ Hs]%Forall_cons_1. specialize (Hcond f s eq_refl). destruct (closes f) as [k|].
  - destruct Hcond as (-> & -> & Hk). cbn [xbind]. unfold cbor_builder_append, cx_with_stack. cbn [cx_stack].
    destruct (append_settles read s s k rest) as (ctx & E & Hset); [lia|done|cbn in Hlim; lia|done|].
    exists ctx. split; [done|]. eapply settles_ext; [|exact Hset]. intros I R. by rewrite Hd.
  - rewrite Hcond. eexists. split; [reflexivity|]. by intros I R ?%Hd.
Qed.

(** Every token, whatever is on the stack. *)
Lemma deliver_good t0 : t = t0 → good (deliver (builder_callbacks malloc) t0 rest (fresh_ctx st)).
Proof.
  intros Et. pose proof (next_ok _ _ _ Hbytes En) as [_ Hok]. rewrite Et in Hok.
  assert (∀ extra i, token_item t0 = Some i → t0 ≠ TBreak → (∀ d, t0 ≠ TBytes d) → (∀ d, t0 ≠ TString d) →
    cbor_ok i → 0 <= extra <= 8 → good (build_leaf malloc extra i (fresh_ctx st))) as Hleaf.
  { rewrite <- Et. intros extra i Ei Hb H1 H2 Hi He. by apply good_leaf; [| |apply top_not_chunk| |]. }
  assert (∀ f, token_item t0 = None → opens t0 = Some f → frame_ok (read + 1) f →
    good (Ret (push_ctx_stack malloc (fresh_ctx st) (sr_item f) (sr_subitems f)))) as Hpush.
  { rewrite <- Et. intros f Ei Eo Hf. apply good_push; [done|done| |done].
    apply top_not_chunk; by intros d E; rewrite E in Eo. }
  assert (∀ s, 0 <= s <= 64 → malloc s = false → good (Ret (cx_fail (fresh_ctx st)))) as Hfail.
  { intros s Hs E. apply good_fail. by apply (malloc_fails s). }
  destruct t0 as [w v|w v|d| |d| |n| |n| |v|w v|v|]; cbn [deliver builder_callbacks cb_uint8 cb_uint16 cb_uint32 cb_uint64
    cb_negint8 cb_negint16 cb_negint32 cb_negint64 cb_byte_string cb_byte_string_start cb_string cb_string_start
    cb_array_start cb_indef_array_start cb_map_start cb_indef_map_start cb_tag cb_float2 cb_float4 cb_float8
    cb_undefined cb_null cb_boolean cb_indef_break].
  - destruct w; cbn [token_ok int_bound] in Hok;
      unfold cbor_builder_uint8_callback, cbor_builder_uint16_callback, cbor_builder_uint32_callback, cbor_builder_uint64_callback;
      rewrite ?u8_id, ?u16_id, ?u32_id, ?u64_id by done; apply Hleaf; done || lia.
  - destruct w; cbn [token_ok int_bound] in Hok;
      unfold cbor_builder_negint8_callback, cbor_builder_negint16_callback, cbor_builder_negint32_callback, cbor_builder_negint64_callback;
      rewrite ?u8_id, ?u16_id, ?u32_id, ?u64_id by done; apply Hleaf; done || lia.
  - by apply good_byte_string.
  - unfold cbor_builder_byte_string_start_callback.
    destruct (malloc sizeof_cbor_item_t) eqn:E1; [|by apply (Hfail sizeof_cbor_item_t)].
    destruct (malloc sizeof_indefinite_string_data) eqn:E2; [|by apply (Hfail sizeof_indefinite_string_data)].
    apply (Hpush (mkStackRecord (PBytes [] 0) 0)); [done|done|]. split_and!; [done|change (zlen []) with 0; lia|constructor].
  - by apply good_string.
  - unfold cbor_builder_string_start_callback.
    destruct (malloc sizeof_cbor_item_t) eqn:E1; [|by apply (Hfail sizeof_cbor_item_t)].
    destruct (malloc sizeof_indefinite_string_data) eqn:E2; [|by apply (Hfail sizeof_indefinite_string_data)].
    apply (Hpush (mkStackRecord (PString [] 0) 0)); [done|done|]. split_and!; [done|change (zlen []) with 0; lia|constructor].
  - by apply good_array_start.
  - unfold cbor_builder_indef_array_start_callback.
    destruct (malloc sizeof_cbor_item_t) eqn:E1; [|by apply (Hfail sizeof_cbor_item_t)].
    apply (Hpush (mkStackRecord (PArray false 0 []) 0)); [done|done|]. split_and!; [done|change (zlen []) with 0; lia|constructor].
  - by apply good_map_start.
  - unfold cbor_builder_indef_map_start_callback.
    destruct (malloc sizeof_cbor_item_t) eqn:E1; [|by apply (Hfail sizeof_cbor_item_t)].
    apply (Hpush (mkStackRecord (PMap false 0 [] None) 0)); [done|done|].
    split_and!; [done|done|change (zlen []) with 0; cbn; lia|constructor|done].
  - unfold cbor_builder_tag_callback.
    destruct (malloc sizeof_cbor_item_t) eqn:E1; [|by apply (Hfail sizeof_cbor_item_t)].
    by apply (Hpush (mkStackRecord (PTag v) 1)).
  - destruct Hok as [->|[->| ->]]; apply Hleaf; done || lia.
  - cbn [token_ok] in Hok. assert (v = 20 ∨ v = 21 ∨ v = 22 ∨ v = 23) as [->|[->|[->| ->]]] by lia; apply Hleaf; done || lia.
  - by apply good_break.
Qed.
End token.
End builder.

(** ** The loop *)

Lemma next_suffix l t rest : next l = Token t rest → rest = drop (Z.to_nat (zlen l - zlen rest)) l ∧ zlen rest < zlen l.
Proof.
  intros (b & p & ->)%next_rest. rewrite zlen_cons, zlen_app. unfold zlen. split; [|lia].
  replace (Z.to_nat _) with (S (length p)) by lia. cbn [drop]. by rewrite drop_app_length.
Qed.

(** What the loop returns from a stack that stands for [P]. *)
Definition loads (malloc : Z → bool) (data : list Z) (P : cbor_item → list Z → Prop)
    (r : option cbor_item * cbor_load_result) : Prop :=
  match r with
  | (Some i, res) =>
      lr_code res = CBOR_ERR_NONE ∧ 0 < lr_read res <= zlen data ∧ cbor_ok i ∧
      ∀ I R, P I R ↔ I = i ∧ R = drop (Z.to_nat (lr_read res)) data
  | (None, res) => lr_code res ≠ CBOR_ERR_NONE ∧ (serves malloc (zlen data) → ∀ I R, ¬ P I R)
  end.

Lemma load_loop_loads malloc data fuel read st :
  bytes_ok data → zlen data < 2 ^ 64 → 0 <= read <= zlen data → Forall (frame_ok read) st →
  (length st <= stack_limit)%nat → zlen data - read < Z.of_nat fuel →
  ∃ r, load_loop malloc fuel data read (mkContext false false None st) = Some (Ret r) ∧
    loads malloc data (denotes st (drop (Z.to_nat read) data)) r.
Proof.
  intros Hb HN. revert read st. induction fuel as [|fuel IH]; intros read st Hr Hst Hlim Hfuel; [lia|].
  cbn [load_loop]. unfold load_round. set (l := drop (Z.to_nat read) data).
  assert (zlen l = zlen data - read) as El by (unfold l, zlen in *; rewrite length_drop; lia).
  assert (bytes_ok l) as Hbl by by apply Forall_drop.
  pose proof (denotes_token read st l) as Htok.
  destruct (Z.ltb_spec read (zlen data)) as [Hlt|Hge].
  2:{ eexists. split; [reflexivity|]. split; [done|]. intros _ I R (t & rest & E)%Htok; [|done].
      apply next_suffix in E as [_ E]. pose proof (zlen_nonneg rest). lia. }
  assert (l ≠ []) as Hne by (intros E; rewrite E in El; change (zlen []) with 0 in El; lia).
  pose proof (stream_decode_answers (builder_callbacks malloc) l (mkContext false false None st) Hbl Hne) as Ha.
  unfold answers in Ha. destruct (next l) as [t rest| |] eqn:En.
  - destruct (deliver_good malloc (zlen data) ltac:(lia) read st l t rest) with (t0 := t) as (ctx & Ed & Hset);
      [lia..|done|done|done|done|done|]. rewrite Ed in Ha. rewrite Ha. clear Ha Ed.
    cbn [xbind dr_status dr_read]. destruct (next_suffix _ _ _ En) as [Erest Hlt'].
    pose proof (zlen_nonneg rest) as Hrest. set (n := zlen l - zlen rest) in *.
    assert (0 < n <= zlen l) as Hn by lia. clearbody n.
    assert (rest = drop (Z.to_nat (read + n)) data) as Er by (rewrite Erest; unfold l; rewrite drop_drop; f_equal; lia).
    unfold settles in Hset.
    destruct (cx_creation_failed ctx) eqn:Ecr; [eexists; split; [reflexivity|]; split; [done|exact Hset]|].
    destruct (cx_syntax_error ctx) eqn:Esyn; [eexists; split; [reflexivity|]; split; [done|auto]|].
    cbn [xbind]. destruct (cx_stack ctx) as [|f s] eqn:Estk.
    + destruct Hset as (i & -> & Hi & HP). eexists. split; [reflexivity|]. split_and!; [done|cbn; lia..|done|].
      cbn [lr_read]. intros I R. rewrite HP. by rewrite <- Er.
    + destruct Hset as (Eroot & Hf & Hl' & HP).
      destruct (IH (read + n) (f :: s)) as (r & Er' & Hloads); [lia| |done|lia|].
      { eapply List.Forall_impl; [|exact Hf]. intros g. apply frame_ok_mono. lia. }
      exists r. split.
      * rewrite <- Er'. f_equal. destruct ctx. cbn in *. congruence.
      * rewrite <- Er in Hloads. unfold loads in *. destruct r as [[i|] res].
        -- destruct Hloads as (? & ? & ? & HQ). split_and!; [done|lia..|done|]. intros I R. by rewrite HP.
        -- destruct Hloads as [? HQ]. split; [done|]. intros Hs I R ?%HP. by eapply HQ.
  - destruct Ha as (res & -> & Es). cbn [xbind]. rewrite Es.
    eexists. split; [reflexivity|]. split; [done|]. intros _ I R (t & rest & E)%Htok; [congruence|done].
  - rewrite Ha. cbn [xbind decoder_error dr_status].
    eexists. split; [reflexivity|]. split; [done|]. intros _ I R (t & rest & E)%Htok; [congruence|done].
Qed.

Lemma load_stream_loads malloc data r0 :
  bytes_ok data → zlen data < 2 ^ 64 →
  ∃ r, cbor_load_stream malloc data r0 = Some (Ret r) ∧ loads malloc data (item_at stack_limit data) r.
Proof.
  intros Hb HN. unfold cbor_load_stream. destruct (Z.eqb_spec (zlen data) 0) as [E|E].
  - eexists. split; [reflexivity|]. split; [done|]. intros _ I R (t & rest & E' & _)%item_at_token.
    apply next_suffix in E' as [_ E']. pose proof (zlen_nonneg rest). lia.
  - apply (load_loop_loads malloc data _ 0 []); [done|done|pose proof (zlen_nonneg data); lia|constructor|cbn; lia|].
    unfold zlen. lia.
Qed.

(** ** Properties *)

(** C14. The vendored CBOR decoder is total and safe on every byte string and
    whatever sizes [malloc] refuses (one answer per size; reference counts are not
    followed): it returns within one round per byte, no assertion of libcbor fails,
    nothing is read outside the buffer and no item with a missing component
    escapes.  NULL comes with an error code; an item comes with none, is well
    formed (integers in range, definite containers full), and is what the grammar
    says about the bytes that were read. *)
Theorem cbor_load_total_and_safe malloc data result0 :
  bytes_ok data → zlen data < 2 ^ 64 →
  ∃ item res, cbor_load_stream malloc data result0 = Some (Ret (item, res)) ∧
    (item = None ↔ lr_code res ≠ CBOR_ERR_NONE) ∧
    (∀ i, item = Some i → cbor_ok i ∧ 0 < lr_read res <= zlen data ∧
      item_at stack_limit data i (drop (Z.to_nat (lr_read res)) data)).
Proof.
  intros Hb HN. destruct (load_stream_loads malloc data result0 Hb HN) as ([[i|] res] & E & H); exists (Some i), res || exists None, res;
    (split; [exact E|]); unfold loads in H.
  - destruct H as (Ec & Hr & Hi & HP). split; [split; [done|congruence]|]. intros i' [= <-].
    split_and!; [done|lia..|]. by apply HP.
  - destruct H as [Hc _]. split; [done|by intros i ?].
Qed.

Lemma cbor_load_total_and_safe_witness :
  ∃ item res, cbor_load_stream (fun s => s <=? 100) [0x82; 0x18; 0xC8; 0x9B; 0; 0; 1; 0; 0; 0; 0; 0] (mkLoadResult 0 CBOR_ERR_NONE 0)
    = Some (Ret (item, res)) ∧ (item = None ↔ lr_code res ≠ CBOR_ERR_NONE).
Proof.
  destruct (cbor_load_total_and_safe (fun s => s <=? 100) [0x82; 0x18; 0xC8; 0x9B; 0; 0; 1; 0; 0; 0; 0; 0]
    (mkLoadResult 0 CBOR_ERR_NONE 0)) as (item & res & E & H & _).
  - repeat constructor; vm_compute; congruence.
  - reflexivity.
  - exists item, res. split; [exact E|exact H].
Defined.

(** C15. With an allocator that serves a small multiple of the input, the
    decoder's stack machine and the recursive grammar agree in both directions:
    it returns the item [i] having read [n] bytes exactly when the first [n]
    bytes are an encoding of [i] nesting at most 2048 containers. *)
Theorem cbor_load_implements_grammar malloc data result0 i n :
  bytes_ok data → serves malloc (zlen data) →
  (∃ res, cbor_load_stream malloc data result0 = Some (Ret (Some i, res)) ∧ lr_read res = n) ↔
  (∃ rest, item_at stack_limit data i rest ∧ n = zlen data - zlen rest).
Proof.
  intros Hb Hs. assert (zlen data < 2 ^ 64) as HN by (destruct Hs as [? _]; lia).
  destruct (load_stream_loads malloc data result0 Hb HN) as ([[i'|] res] & E & H); unfold loads in H; rewrite E.
  - destruct H as (Ec & Hr & Hi & HP).
    assert (zlen (drop (Z.to_nat (lr_read res)) data) = zlen data - lr_read res) as El
      by (unfold zlen in *; rewrite length_drop; lia).
    split.
    + intros (res' & [= <- <-] & <-). eexists. split; [by apply HP|]. lia.
    + intros (rest & [-> ->]%HP & ->). exists res. split; [done|]. lia.
  - destruct H as [_ HP]. split; [by intros (? & [=] & _)|]. intros (rest & H & _). by apply HP in H.
Qed.

Lemma cbor_load_implements_grammar_witness :
  let data := [0x9F; 0x01; 0x61; 0x50; 0xFF; 0x07] in
  bytes_ok data ∧ serves (fun _ => true) (zlen data) ∧
  ∃ rest, item_at stack_limit data (CArray false 2 [CUint CBOR_INT_8 1; CString [0x50]]) rest ∧
    5 = zlen data - zlen rest.
Proof.
  intros data.
  assert (bytes_ok data) as Hb by (repeat constructor; vm_compute; congruence).
  assert (serves (fun _ => true) (zlen data)) as Hs by (split; [reflexivity|reflexivity]).
  split; [exact Hb|]. split; [exact Hs|].
  apply (cbor_load_implements_grammar (fun _ => true) data (mkLoadResult 0 CBOR_ERR_NONE 0) _ 5 Hb Hs).
  eexists. split; vm_compute; reflexivity.
Defined.

(** Every item the codecs serialize, up to the decoder's nesting limit, is
    read back by libcbor exactly as it was written, integer widths included,
    whatever bytes follow it, and the bytes read are those written. *)
Theorem cbor_load_reads_serialized malloc i b suf result0 :
  cbor_serialize i = Some b → cbor_ok i → bytes_ok suf → (cbor_depth i <= S stack_limit)%nat →
  serves malloc (zlen (b ++ suf)) →
  ∃ res, cbor_load_stream malloc (b ++ suf) result0 = Some (Ret (Some i, res)) ∧
    lr_code res = CBOR_ERR_NONE ∧ lr_read res = zlen b.
Proof.
  intros Hs Hok Hsuf Hd Hserve. assert (zlen (b ++ suf) < 2 ^ 64) as HN by (destruct Hserve as [? _]; lia).
  assert (zlen b < 2 ^ 64) as Hlen by (rewrite zlen_app in HN; pose proof (zlen_nonneg suf); lia).
  destruct (serialized_item_at stack_limit i b suf Hs Hok Hlen Hsuf Hd) as [Hat Hb].
  destruct (load_stream_loads malloc (b ++ suf) result0 Hb HN) as ([[i'|] res] & E & H); unfold loads in H.
  - destruct H as (Ec & Hr & _ & HP). apply HP in Hat as [-> Er]. exists res. split_and!; [done..|].
    apply (f_equal zlen) in Er. unfold zlen in *. rewrite length_drop, length_app in Er. rewrite length_app in Hr. lia.
  - destruct H as [_ HP]. by apply HP in Hat.
Qed.

Lemma cbor_load_reads_serialized_witness :
  let i := CArray true 2 [CUint CBOR_INT_16 5; CMap true 1 [(CString [0x50], CBytes [1; 2])]] in
  ∃ res, cbor_load_stream (fun s => s <=? 1000) ([0x82; 0x19; 0; 5; 0xA1; 0x61; 0x50; 0x42; 1; 2] ++ [0xFF]) (mkLoadResult 0 CBOR_ERR_NONE 0)
    = Some (Ret (Some i, res)) ∧ lr_code res = CBOR_ERR_NONE ∧ lr_read res = 10.
Proof.
  intros i. apply (cbor_load_reads_serialized (fun s => s <=? 1000) i [0x82; 0x19; 0; 5; 0xA1; 0x61; 0x50; 0x42; 1; 2] [0xFF]).
  - vm_compute. reflexivity.
  - apply cbor_ok_array. split; [reflexivity|]. repeat constructor; vm_compute; congruence.
  - repeat constructor; vm_compute; congruence.
  - apply Nat.leb_le. vm_compute. reflexivity.
  - split; [reflexivity|]. intros s [_ Hs]. apply Z.leb_le. eapply Z.le_trans; [exact Hs|]. vm_compute. congruence.
Defined.

(** ** The reader the sources call *)

(** [cbor_load(data, len, &result)], whose callers look at the item only. *)
Definition libcbor_load (malloc : Z → bool) (data : list Z) : option cbor_item :=
  match cbor_load_stream malloc data (mkLoadResult 0 CBOR_ERR_NONE 0) with
  | Some (Ret (item, _)) => item
  | _ => None
  end.

(** It reads back what the writer wrote... *)
Lemma libcbor_load_alloc malloc i :
  cbor_ok i → (cbor_depth i <= S stack_limit)%nat → 0 < zlen (cbor_serialize_alloc i) →
  serves malloc (zlen (cbor_serialize_alloc i)) → libcbor_load malloc (cbor_serialize_alloc i) = Some i.
Proof.
  unfold cbor_serialize_alloc, libcbor_load. destruct (cbor_serialize i) as [b|] eqn:Es; [|by intros]. change (default [] (Some b)) with b.
  intros Hok Hd Hlen Hserve. assert (zlen b < 2 ^ 64) as HN by (destruct Hserve as [? _]; cbn in *; lia).
  destruct (serialized_item_at stack_limit i b [] Es Hok HN ltac:(constructor) Hd) as [Hat Hb]. rewrite app_nil_r in *.
  destruct (load_stream_loads malloc b (mkLoadResult 0 CBOR_ERR_NONE 0) Hb HN) as ([[i'|] res] & -> & H); unfold loads in H.
  - destruct H as (_ & _ & _ & HP). apply HP in Hat as [-> _]. done.
  - destruct H as [_ HP]. by apply HP in Hat.
Qed.

(** ... and hands only well-formed items to the decoders of messages. *)
Lemma libcbor_load_ok malloc data i :
  bytes_ok data → zlen data < 2 ^ 64 → libcbor_load malloc data = Some i → cbor_ok i.
Proof.
  intros Hb HN. unfold libcbor_load.
  destruct (load_stream_loads malloc data (mkLoadResult 0 CBOR_ERR_NONE 0) Hb HN) as ([r res] & -> & H).
  intros ->. apply H.
Qed.
