(* ===== verification/CborEncoder.v ===== *)
(** * CborEncoder: the writer of libcbor

    [deps/libcbor/src/cbor/internal/encoders.c], [encoding.c] and
    [serialization.c], through which every packet, frame and notice is written.
    A writer gets the part of the buffer from its pointer to the end (the
    window) and returns the number of bytes written, 0 when they do not fit, with
    the window as it leaves it: bytes may have been written before it gives up.
    Floating-point items carry the bits of their value.

    [CborWire.cbor_serialize] says what the bytes of an item are; here it is shown
    that the code computes their number in advance, never writes past the buffer
    and writes exactly them. *)

From S2P Require Import Prelude Bitset Endian MessageId Cbor CborWire CborDecoder CborGrammar CborDecoderTheorems.

#[local] Set Warnings "-register-all".

Abbreviation window := (list Z).

(** [buffer[0] = ..., buffer[1] = ...]. *)
Definition store (win : window) (bytes : list Z) : window := bytes ++ drop (length bytes) win.

(** ** internal/encoders.c *)

Definition _cbor_encode_uint8 (value : Z) (win : window) (offset : Z) : Z * window :=
  if value <=? 23 then
    if 1 <=? zlen win then (1, store win [u8 (value + offset)]) else (0, win)
  else
    if 2 <=? zlen win then (2, store win [u8 (0x18 + offset); value]) else (0, win).

Definition byte_of (value shift : Z) : Z := u8 (Z.shiftr value shift).

Definition _cbor_encode_uint16 (value : Z) (win : window) (offset : Z) : Z * window :=
  if zlen win <? 3 then (0, win)
  else (3, store win [u8 (0x19 + offset); byte_of value 8; byte_of value 0]).

Definition _cbor_encode_uint32 (value : Z) (win : window) (offset : Z) : Z * window :=
  if zlen win <? 5 then (0, win)
  else (5, store win [u8 (0x1A + offset); byte_of value 24; byte_of value 16; byte_of value 8; byte_of value 0]).

Definition _cbor_encode_uint64 (value : Z) (win : window) (offset : Z) : Z * window :=
  if 9 <=? zlen win then
    (9, store win [u8 (0x1B + offset); byte_of value 56; byte_of value 48; byte_of value 40; byte_of value 32;
                   byte_of value 24; byte_of value 16; byte_of value 8; byte_of value 0])
  else (0, win).

Definition _cbor_encode_uint (value : Z) (win : window) (offset : Z) : Z * window :=
  if value <=? 0xFFFF then
    if value <=? 0xFF then _cbor_encode_uint8 (u8 value) win offset else _cbor_encode_uint16 (u16 value) win offset
  else if value <=? 0xFFFFFFFF then _cbor_encode_uint32 (u32 value) win offset
  else _cbor_encode_uint64 value win offset.

(** ** encoding.c *)

Definition _cbor_encode_byte (value : Z) (win : window) : Z * window :=
  if 1 <=? zlen win then (1, store win [value]) else (0, win).

Definition cbor_encode_uint8 (value : Z) (win : window) := _cbor_encode_uint8 value win 0x00.
Definition cbor_encode_uint16 (value : Z) (win : window) := _cbor_encode_uint16 value win 0x00.
Definition cbor_encode_uint32 (value : Z) (win : window) := _cbor_encode_uint32 value win 0x00.
Definition cbor_encode_uint64 (value : Z) (win : window) := _cbor_encode_uint64 value win 0x00.
Definition cbor_encode_negint8 (value : Z) (win : window) := _cbor_encode_uint8 value win 0x20.
Definition cbor_encode_negint16 (value : Z) (win : window) := _cbor_encode_uint16 value win 0x20.
Definition cbor_encode_negint32 (value : Z) (win : window) := _cbor_encode_uint32 value win 0x20.
Definition cbor_encode_negint64 (value : Z) (win : window) := _cbor_encode_uint64 value win 0x20.
Definition cbor_encode_bytestring_start (length : Z) (win : window) := _cbor_encode_uint length win 0x40.
Definition cbor_encode_indef_bytestring_start (win : window) := _cbor_encode_byte 0x5F win.
Definition cbor_encode_string_start (length : Z) (win : window) := _cbor_encode_uint length win 0x60.
Definition cbor_encode_indef_string_start (win : window) := _cbor_encode_byte 0x7F win.
Definition cbor_encode_array_start (length : Z) (win : window) := _cbor_encode_uint length win 0x80.
Definition cbor_encode_indef_array_start (win : window) := _cbor_encode_byte 0x9F win.
Definition cbor_encode_map_start (length : Z) (win : window) := _cbor_encode_uint length win 0xA0.
Definition cbor_encode_indef_map_start (win : window) := _cbor_encode_byte 0xBF win.
Definition cbor_encode_tag (value : Z) (win : window) := _cbor_encode_uint value win 0xC0.
Definition cbor_encode_break (win : window) := _cbor_encode_byte 0xFF win.
Definition cbor_encode_ctrl (value : Z) (win : window) := _cbor_encode_uint8 value win 0xE0.

(** The exponent is all ones and the mantissa is not zero. *)
Definition isnan32 (val : Z) : bool := (Z.land val 0x7F800000 =? 0x7F800000) && negb (Z.land val 0x7FFFFF =? 0).
Definition isnan64 (val : Z) : bool :=
  (Z.land val 0x7FF0000000000000 =? 0x7FF0000000000000) && negb (Z.land val 0xFFFFFFFFFFFFF =? 0).

(** The half-precision bits of a [float], from its bits. *)
Definition half_bits (val : Z) : Z :=
  let exp := u8 (Z.shiftr (Z.land val 0x7F800000) 23) in
  let mant := Z.land val 0x7FFFFF in
  let sign := Z.shiftr (Z.land val 0x80000000) 16 in
  if exp =? 0xFF then
    if isnan32 val then 0x7E00 else u16 (Z.lor sign 0x7C00)
  else if exp =? 0 then u16 (Z.lor sign (Z.shiftr mant 13))
  else
    let logical_exp := exp - 127 in
    if logical_exp <? -24 then 0
    else if logical_exp <? -14 then
      Z.lor (u16 sign) (u16 (Z.shiftl 1 (24 + logical_exp)) + u16 (Z.shiftr (Z.shiftr mant (- logical_exp - 2) + 1) 1))
    else u16 (Z.lor (Z.lor sign (Z.shiftl (u8 logical_exp + 15) 10)) (u16 (Z.shiftr mant 13))).

Definition cbor_encode_half (val : Z) (win : window) : Z * window := _cbor_encode_uint16 (u16 (half_bits val)) win 0xE0.

Definition cbor_encode_single (val : Z) (win : window) : Z * window :=
  if isnan32 val then _cbor_encode_uint32 (Z.shiftl 0x7FC0 16) win 0xE0 else _cbor_encode_uint32 val win 0xE0.

Definition cbor_encode_double (val : Z) (win : window) : Z * window :=
  if isnan64 val then _cbor_encode_uint64 (Z.shiftl 0x7FF8 48) win 0xE0 else _cbor_encode_uint64 val win 0xE0.

(** ** serialization.c *)

Definition cbor_serialize_uint (w : cbor_int_width) (value : Z) (win : window) : Z * window :=
  match w with
  | CBOR_INT_8 => cbor_encode_uint8 value win
  | CBOR_INT_16 => cbor_encode_uint16 value win
  | CBOR_INT_32 => cbor_encode_uint32 value win
  | CBOR_INT_64 => cbor_encode_uint64 value win
  end.

Definition cbor_serialize_negint (w : cbor_int_width) (value : Z) (win : window) : Z * window :=
  match w with
  | CBOR_INT_8 => cbor_encode_negint8 value win
  | CBOR_INT_16 => cbor_encode_negint16 value win
  | CBOR_INT_32 => cbor_encode_negint32 value win
  | CBOR_INT_64 => cbor_encode_negint64 value win
  end.

Definition cbor_serialize_float_ctrl (w value : Z) (win : window) : Z * window :=
  if w =? CBOR_FLOAT_0 then cbor_encode_ctrl value win
  else if w =? CBOR_FLOAT_16 then cbor_encode_half value win
  else if w =? CBOR_FLOAT_32 then cbor_encode_single value win
  else cbor_encode_double value win.

(** The window from [buffer + written] on. *)
Definition at_offset (written : Z) (win : window) (f : window → Z * window) : Z * window :=
  let '(n, rest) := f (drop (Z.to_nat written) win) in (n, take (Z.to_nat written) win ++ rest).

(** A definite string: the head, then the bytes if they fit. *)
Definition write_string (start : Z → window → Z * window) (data : list Z) (win : window) : Z * window :=
  let '(written, win1) := start (zlen data) win in
  if (0 <? written) && (zlen data <=? zlen win - written) then
    (written + zlen data, take (Z.to_nat written) win1 ++ store (drop (Z.to_nat written) win1) data)
  else (0, win1).

(** [for (...) { n = f(x, buffer + written, ...); if (n == 0) return 0; written += n; }]. *)
Fixpoint write_each {X} (f : X → window → Z * window) (xs : list X) (written : Z) (win : window) : Z * window :=
  match xs with
  | [] => (written, win)
  | x :: xs' =>
      let '(n, win1) := at_offset written win (f x) in
      if n =? 0 then (0, win1) else write_each f xs' (written + n) win1
  end.

(** The break that ends an indefinite item. *)
Definition write_break (written : Z) (win : window) : Z * window :=
  let '(n, win1) := at_offset written win cbor_encode_break in if n =? 0 then (0, win1) else (written + n, win1).

Definition write_chunks (start : window → Z * window) (chunk : list Z → window → Z * window) (chunks : list (list Z)) (win : window)
  : Z * window :=
  let '(written, win1) := start win in
  if written =? 0 then (0, win1)
  else
    let '(written2, win2) := write_each chunk chunks written win1 in
    if written2 =? 0 then (0, win2) else write_break written2 win2.

Definition cbor_serialize_bytestring_chunk := write_string cbor_encode_bytestring_start.
Definition cbor_serialize_string_chunk := write_string cbor_encode_string_start.

Fixpoint cbor_write (i : cbor_item) (win : window) : Z * window :=
  match i with
  | CUint w v => cbor_serialize_uint w v win
  | CNegint w v => cbor_serialize_negint w v win
  | CBytes d => cbor_serialize_bytestring_chunk d win
  | CBytesIndef cs => write_chunks cbor_encode_indef_bytestring_start cbor_serialize_bytestring_chunk cs win
  | CString d => cbor_serialize_string_chunk d win
  | CStringIndef cs => write_chunks cbor_encode_indef_string_start cbor_serialize_string_chunk cs win
  | CArray definite _ es =>
      let '(written, win1) := if definite then cbor_encode_array_start (zlen es) win else cbor_encode_indef_array_start win in
      if written =? 0 then (0, win1)
      else
        let '(written2, win2) :=
          (fix all es written win :=
             match es with
             | [] => (written, win)
             | e :: es' =>
                 let '(n, win1) := at_offset written win (cbor_write e) in
                 if n =? 0 then (0, win1) else all es' (written + n) win1
             end) es written win1 in
        if written2 =? 0 then (0, win2) else if definite then (written2, win2) else write_break written2 win2
  | CMap definite _ ps =>
      let '(written, win1) := if definite then cbor_encode_map_start (zlen ps) win else cbor_encode_indef_map_start win in
      if written =? 0 then (0, win1)
      else
        let '(written2, win2) :=
          (fix all ps written win :=
             match ps with
             | [] => (written, win)
             | (k, v) :: ps' =>
                 let '(n, win1) := at_offset written win (cbor_write k) in
                 if n =? 0 then (0, win1)
                 else
                   let '(m, win2) := at_offset (written + n) win1 (cbor_write v) in
                   if m =? 0 then (0, win2) else all ps' (written + n + m) win2
             end) ps written win1 in
        if written2 =? 0 then (0, win2) else if definite then (written2, win2) else write_break written2 win2
  | CTag v it =>
      let '(written, win1) := cbor_encode_tag v win in
      if written =? 0 then (0, win1)
      else let '(n, win2) := at_offset written win1 (cbor_write it) in if n =? 0 then (0, win2) else (written + n, win2)
  | CFloatCtrl w v => cbor_serialize_float_ctrl w v win
  end.

(** *** The size in advance *)

Definition _cbor_encoded_header_size (size : Z) : Z :=
  if size <=? 23 then 1 else if size <=? 0xFF then 2 else if size <=? 0xFFFF then 3 else if size <=? 0xFFFFFFFF then 5 else 9.

(** A sum that overflows is 0, and 0 is kept. *)
Definition _cbor_safe_signaling_add (a b : Z) : Z :=
  if (a =? 0) || (b =? 0) then 0 else if (a <=? u64 (a + b)) && (b <=? u64 (a + b)) then u64 (a + b) else 0.

Definition string_size (data : list Z) : Z :=
  if zlen data =? 0 then _cbor_encoded_header_size (zlen data)
  else _cbor_safe_signaling_add (_cbor_encoded_header_size (zlen data)) (zlen data).

Fixpoint cbor_serialized_size (i : cbor_item) : Z :=
  match i with
  | CUint w v | CNegint w v =>
      match w with CBOR_INT_8 => if v <=? 23 then 1 else 2 | CBOR_INT_16 => 3 | CBOR_INT_32 => 5 | CBOR_INT_64 => 9 end
  | CBytes d | CString d => string_size d
  | CBytesIndef cs | CStringIndef cs => fold_left (fun acc c => _cbor_safe_signaling_add acc (string_size c)) cs 2
  | CArray definite _ es =>
      (fix all es acc := match es with [] => acc | e :: es' => all es' (_cbor_safe_signaling_add acc (cbor_serialized_size e)) end)
        es (if definite then _cbor_encoded_header_size (zlen es) else 2)
  | CMap definite _ ps =>
      (fix all ps acc :=
         match ps with
         | [] => acc
         | (k, v) :: ps' =>
             all ps' (_cbor_safe_signaling_add acc (_cbor_safe_signaling_add (cbor_serialized_size k) (cbor_serialized_size v)))
         end) ps (if definite then _cbor_encoded_header_size (zlen ps) else 2)
  | CTag v it => _cbor_safe_signaling_add (_cbor_encoded_header_size v) (cbor_serialized_size it)
  | CFloatCtrl w v =>
      if w =? CBOR_FLOAT_0 then _cbor_encoded_header_size v
      else if w =? CBOR_FLOAT_16 then 3 else if w =? CBOR_FLOAT_32 then 5 else 9
  end.

(** [malloc] yields the bytes of the new buffer, if it serves the size; the
    assertion that the size was right is the trap. *)
Definition serialize_alloc (malloc : Z → option (list Z)) (i : cbor_item) : exec (option (list Z)) :=
  let size := cbor_serialized_size i in
  if size =? 0 then Ret None
  else
    match malloc size with
    | None => Ret None
    | Some buffer => let '(written, buffer') := cbor_write i buffer in if written =? size then Ret (Some buffer') else Trap
    end.

(** ** The bytes of an item *)

Definition float_wire (w v : Z) : list Z :=
  if w =? CBOR_FLOAT_0 then encode_uint8 v 0xE0
  else if w =? CBOR_FLOAT_16 then encode_uint16 (u16 (half_bits v)) 0xE0
  else if w =? CBOR_FLOAT_32 then encode_uint32 (if isnan32 v then Z.shiftl 0x7FC0 16 else v) 0xE0
  else encode_uint64 (if isnan64 v then Z.shiftl 0x7FF8 48 else v) 0xE0.

(** Every kind of item, the fragment of [CborWire.cbor_serialize] included. *)
Fixpoint cbor_wire (i : cbor_item) : list Z :=
  match i with
  | CUint w v => encode_int w v 0
  | CNegint w v => encode_int w v 0x20
  | CBytes d => encode_uint (zlen d) 0x40 ++ d
  | CBytesIndef cs => [0x5F] ++ concat (map (fun d => encode_uint (zlen d) 0x40 ++ d) cs) ++ [0xFF]
  | CString d => encode_uint (zlen d) 0x60 ++ d
  | CStringIndef cs => [0x7F] ++ concat (map (fun d => encode_uint (zlen d) 0x60 ++ d) cs) ++ [0xFF]
  | CArray definite _ es =>
      let body := (fix all es := match es with [] => [] | e :: es' => cbor_wire e ++ all es' end) es in
      if definite then encode_uint (zlen es) 0x80 ++ body else [0x9F] ++ body ++ [0xFF]
  | CMap definite _ ps =>
      let body := (fix all ps := match ps with [] => [] | (k, v) :: ps' => cbor_wire k ++ cbor_wire v ++ all ps' end) ps in
      if definite then encode_uint (zlen ps) 0xA0 ++ body else [0xBF] ++ body ++ [0xFF]
  | CTag v it => encode_uint v 0xC0 ++ cbor_wire it
  | CFloatCtrl w v => float_wire w v
  end.

(** Values fit their fields. *)
Fixpoint item_ok (i : cbor_item) : Prop :=
  match i with
  | CUint w v | CNegint w v => 0 <= v < int_bound w
  | CArray _ _ es => (fix all es := match es with [] => True | e :: es' => item_ok e ∧ all es' end) es
  | CMap _ _ ps => (fix all ps := match ps with [] => True | (k, v) :: ps' => (item_ok k ∧ item_ok v) ∧ all ps' end) ps
  | CTag v it => is_u64 v ∧ item_ok it
  | CFloatCtrl w v => w = CBOR_FLOAT_0 → is_u8 v
  | _ => True
  end.

Lemma item_ok_array d n es : item_ok (CArray d n es) ↔ Forall item_ok es.
Proof. induction es as [|e es IH]; [done|]. cbn in *. rewrite IH. split; [by intros []; constructor|by intros []%Forall_cons_1]. Qed.

Lemma item_ok_map d n ps : item_ok (CMap d n ps) ↔ Forall (fun p => item_ok p.1 ∧ item_ok p.2) ps.
Proof. induction ps as [|[k v] ps IH]; [done|]. cbn in *. rewrite IH. split; [by intros []; constructor|by intros []%Forall_cons_1]. Qed.

(** *** What a writer does *)

(** [r] writes [bs] if they fit the window, and otherwise reports 0 and stays
    inside it. *)
Definition writes (r : window → Z * window) (bs : list Z) : Prop :=
  0 < zlen bs ∧ ∀ win,
    if zlen bs <=? zlen win then r win = (zlen bs, store win bs)
    else (r win).1 = 0 ∧ length (r win).2 = length win.

Lemma to_nat_zlen {A} (l : list A) : Z.to_nat (zlen l) = length l.
Proof. apply Nat2Z.id. Qed.

Lemma store_length win bs : zlen bs <= zlen win → length (store win bs) = length win.
Proof. unfold store, zlen. intros H. rewrite length_app, length_drop. lia. Qed.

Lemma writes_length r bs win : writes r bs → length (r win).2 = length win.
Proof.
  intros [_ H]. specialize (H win). destruct (Z.leb_spec (zlen bs) (zlen win)) as [Hle|]; [|apply H].
  rewrite H. by apply store_length.
Qed.

Lemma store_app win a b : store win (a ++ b) = a ++ store (drop (length a) win) b.
Proof. unfold store. by rewrite <- (assoc_L (++)), drop_drop, length_app. Qed.

Lemma store_split win a : take (length a) (store win a) = a ∧ drop (length a) (store win a) = drop (length a) win.
Proof. unfold store. split; [apply take_app_length|apply drop_app_length]. Qed.

(** Writing at an offset, after bytes that are there. *)
Lemma at_offset_writes r bs a win :
  writes r bs → zlen a <= zlen win →
  let '(n, win') := at_offset (zlen a) (store win a) r in
  if zlen a + zlen bs <=? zlen win then n = zlen bs ∧ win' = store win (a ++ bs)
  else n = 0 ∧ length win' = length win.
Proof.
  intros [Hp H] Ha. unfold at_offset. rewrite to_nat_zlen. destruct (store_split win a) as [-> ->].
  specialize (H (drop (length a) win)). destruct (r (drop (length a) win)) as [n rest].
  assert (El : zlen (drop (length a) win) = zlen win - zlen a) by (unfold zlen in *; rewrite length_drop; lia). rewrite El in H.
  destruct (Z.leb_spec (zlen a + zlen bs) (zlen win)).
  - rewrite (proj2 (Z.leb_le _ _)) in H by lia. injection H as -> ->. by rewrite store_app.
  - rewrite (proj2 (Z.leb_gt _ _)) in H by lia. cbn in H. destruct H as [-> Hl]. split; [done|].
    rewrite length_app, Hl, length_drop. unfold zlen in *. lia.
Qed.

Lemma writes_then r bs (k : Z → window → Z * window) a win :
  writes r bs → zlen a <= zlen win →
  (let '(n, win1) := at_offset (zlen a) (store win a) r in if n =? 0 then (0, win1) else k (zlen a + n) win1)
  = (if zlen a + zlen bs <=? zlen win then k (zlen (a ++ bs)) (store win (a ++ bs))
     else (0, (at_offset (zlen a) (store win a) r).2)).
Proof.
  intros Hw Ha. pose proof (at_offset_writes r bs a win Hw Ha) as H. destruct Hw as [Hp _].
  destruct (at_offset (zlen a) (store win a) r) as [n win1]. destruct (_ <=? zlen win).
  - destruct H as [-> ->]. rewrite (proj2 (Z.eqb_neq _ _)) by lia. by rewrite zlen_app.
  - by destruct H as [-> _].
Qed.

Lemma at_offset_length r bs a win : writes r bs → zlen a <= zlen win → length (at_offset (zlen a) (store win a) r).2 = length win.
Proof.
  intros Hw Ha. pose proof (at_offset_writes r bs a win Hw Ha) as H. destruct (at_offset _ _ _) as [n win1].
  destruct (Z.leb_spec (zlen a + zlen bs) (zlen win)); destruct H as [_ H]; [|done]. subst win1. apply store_length. rewrite zlen_app. lia.
Qed.

(** What is left of a writer once [a] is written: a fact about the rest. *)
Definition continues (k : Z → window → Z * window) (bs : list Z) : Prop :=
  ∀ a win, 0 < zlen a → zlen a <= zlen win →
    if zlen a + zlen bs <=? zlen win then k (zlen a) (store win a) = (zlen a + zlen bs, store win (a ++ bs))
    else (k (zlen a) (store win a)).1 = 0 ∧ length (k (zlen a) (store win a)).2 = length win.

Lemma continues_done : continues (fun n win => (n, win)) [].
Proof.
  intros a win _ H. rewrite app_nil_r. unfold zlen at 2 6. cbn. rewrite !Z.add_0_r. by rewrite (proj2 (Z.leb_le _ _)).
Qed.

Lemma continues_cons r bs k cs :
  writes r bs → continues k cs →
  continues (fun written win => let '(n, win1) := at_offset written win r in if n =? 0 then (0, win1) else k (written + n) win1) (bs ++ cs).
Proof.
  intros Hw Hk a win Hp Ha. rewrite (writes_then r bs k a win Hw Ha), !zlen_app. pose proof (zlen_nonneg cs). pose proof (proj1 Hw).
  destruct (Z.leb_spec (zlen a + zlen bs) (zlen win)) as [Hle|Hgt].
  - specialize (Hk (a ++ bs) win). rewrite zlen_app, <- (assoc_L (++)) in Hk. rewrite Z.add_assoc. apply Hk; lia.
  - rewrite (proj2 (Z.leb_gt _ _)) by lia. cbn. split; [done|]. by apply (at_offset_length r bs).
Qed.

(** A head followed by the rest of the item. *)
Lemma writes_head r hs k bs :
  writes r hs → continues k bs →
  writes (fun win => let '(n, win1) := r win in if n =? 0 then (0, win1) else k n win1) (hs ++ bs).
Proof.
  intros [Hp H] Hk. pose proof (zlen_nonneg bs). split; [rewrite zlen_app; lia|]. intros win. specialize (H win). rewrite zlen_app.
  destruct (Z.leb_spec (zlen hs) (zlen win)) as [Hle|Hgt].
  - rewrite H. rewrite (proj2 (Z.eqb_neq _ _)) by lia. apply Hk; lia.
  - rewrite (proj2 (Z.leb_gt _ _)) by lia. destruct (r win) as [n win1]. cbn in H. destruct H as [-> H]. by cbn.
Qed.

Lemma writes_ext r r' bs : (∀ win, r win = r' win) → writes r bs → writes r' bs.
Proof. intros E [Hp H]. split; [done|]. intros win. specialize (H win). by rewrite E in H. Qed.

(** *** Heads *)

Lemma writes_bytes bs n (r : window → Z * window) :
  0 < n → zlen bs = n → (∀ win, r win = if zlen win <? n then (0, win) else (n, store win bs)) → writes r bs.
Proof.
  intros Hn El Er. split; [lia|]. intros win. rewrite Er, El. by destruct (Z.leb_spec n (zlen win)), (Z.ltb_spec (zlen win) n); try lia.
Qed.

Lemma geb_ltb (n x : Z) {A} (a b : A) : (if n <=? x then a else b) = if x <? n then b else a.
Proof. by destruct (Z.leb_spec n x), (Z.ltb_spec x n); try lia. Qed.

Lemma byte_of_div v k : 0 <= k → byte_of v k = (v / 2 ^ k) mod 256.
Proof. intros H. unfold byte_of, u8. by rewrite Z.shiftr_div_pow2. Qed.

Lemma be_bytes_2 v : be_bytes 2 v = [byte_of v 8; byte_of v 0].
Proof. rewrite !byte_of_div by lia. cbn. by rewrite Z.div_1_r. Qed.

Lemma be_bytes_4 v : be_bytes 4 v = [byte_of v 24; byte_of v 16; byte_of v 8; byte_of v 0].
Proof. rewrite !byte_of_div by lia. cbn. by rewrite Z.div_1_r, !Zdiv_Zdiv by lia. Qed.

Lemma be_bytes_8 v :
  be_bytes 8 v = [byte_of v 56; byte_of v 48; byte_of v 40; byte_of v 32; byte_of v 24; byte_of v 16; byte_of v 8; byte_of v 0].
Proof. rewrite !byte_of_div by lia. cbn. by rewrite Z.div_1_r, !Zdiv_Zdiv by lia. Qed.

Section heads.
Context (offset : Z) (Ho : 0 <= offset <= 0xE0).

Lemma writes_uint8 v : is_u8 v → writes (fun win => _cbor_encode_uint8 v win offset) (encode_uint8 v offset).
Proof.
  intros Hv. unfold _cbor_encode_uint8, encode_uint8. destruct (v <=? 23).
  - apply (writes_bytes _ 1); [lia|done|]. intros win. apply geb_ltb.
  - rewrite (u8_id v) by done. rewrite (u8_id (24 + offset)) by (unfold is_u8; lia). apply (writes_bytes _ 2); [lia|done|]. intros win. apply geb_ltb.
Qed.

Lemma writes_uint16 v : writes (fun win => _cbor_encode_uint16 v win offset) (encode_uint16 v offset).
Proof.
  unfold _cbor_encode_uint16, encode_uint16. rewrite be_bytes_2, (u8_id (25 + offset)) by (unfold is_u8; lia).
  by apply (writes_bytes _ 3); [lia|..].
Qed.

Lemma writes_uint32 v : writes (fun win => _cbor_encode_uint32 v win offset) (encode_uint32 v offset).
Proof.
  unfold _cbor_encode_uint32, encode_uint32. rewrite be_bytes_4, (u8_id (26 + offset)) by (unfold is_u8; lia).
  by apply (writes_bytes _ 5); [lia|..].
Qed.

Lemma writes_uint64 v : writes (fun win => _cbor_encode_uint64 v win offset) (encode_uint64 v offset).
Proof.
  unfold _cbor_encode_uint64, encode_uint64. rewrite be_bytes_8, (u8_id (27 + offset)) by (unfold is_u8; lia).
  apply (writes_bytes _ 9); [lia|done|]. intros win. apply geb_ltb.
Qed.

Lemma writes_uint v : 0 <= v → writes (fun win => _cbor_encode_uint v win offset) (encode_uint v offset).
Proof.
  intros Hv. unfold _cbor_encode_uint, encode_uint. destruct (Z.leb_spec v 0xFFFF); [destruct (Z.leb_spec v 0xFF)|destruct (Z.leb_spec v 0xFFFFFFFF)].
  - rewrite u8_id by (unfold is_u8; lia). apply writes_uint8. unfold is_u8. lia.
  - rewrite u16_id by (unfold is_u16; lia). apply writes_uint16.
  - rewrite u32_id by (unfold is_u32; lia). apply writes_uint32.
  - apply writes_uint64.
Qed.

Lemma writes_int w v :
  0 <= v < int_bound w →
  writes (fun win => match w with
                     | CBOR_INT_8 => _cbor_encode_uint8 v win offset
                     | CBOR_INT_16 => _cbor_encode_uint16 v win offset
                     | CBOR_INT_32 => _cbor_encode_uint32 v win offset
                     | CBOR_INT_64 => _cbor_encode_uint64 v win offset
                     end) (encode_int w v offset).
Proof. destruct w; cbn [int_bound encode_int]; intros H; [by apply writes_uint8|apply writes_uint16|apply writes_uint32|apply writes_uint64]. Qed.
End heads.

Lemma writes_byte b : writes (_cbor_encode_byte b) [b].
Proof. apply (writes_bytes _ 1); [lia|done|]. intros win. apply geb_ltb. Qed.

(** *** Items *)

Lemma writes_string start off d :
  writes (start (zlen d)) (encode_uint (zlen d) off) → writes (write_string start d) (encode_uint (zlen d) off ++ d).
Proof.
  intros [Hp H]. set (h := encode_uint (zlen d) off) in *. pose proof (zlen_nonneg d). split; [rewrite zlen_app; lia|]. intros win.
  unfold write_string. specialize (H win). rewrite zlen_app. destruct (Z.leb_spec (zlen h) (zlen win)) as [Hle|Hgt].
  - rewrite H. rewrite (proj2 (Z.ltb_lt _ _)) by lia. cbn [andb].
    destruct (Z.leb_spec (zlen h + zlen d) (zlen win)).
    + rewrite (proj2 (Z.leb_le _ _)) by lia. rewrite to_nat_zlen. destruct (store_split win h) as [-> ->]. by rewrite store_app.
    + rewrite (proj2 (Z.leb_gt _ _)) by lia. cbn. split; [done|]. by apply store_length.
  - rewrite (proj2 (Z.leb_gt (zlen h + zlen d) _)) by lia. destruct (start (zlen d) win) as [n win1]. cbn in H. destruct H as [-> H]. done.
Qed.

Lemma continues_each {X} (f : X → window → Z * window) (g : X → list Z) xs k bs :
  Forall (fun x => writes (f x) (g x)) xs → continues k bs →
  continues (fun written win => let '(n, win1) := write_each f xs written win in if n =? 0 then (0, win1) else k n win1)
    (concat (map g xs) ++ bs).
Proof.
  intros Hf Hk. induction Hf as [|x xs Hx _ IH].
  - intros a win Hp Ha. cbn. rewrite (proj2 (Z.eqb_neq _ _)) by lia. by apply Hk.
  - cbn [map concat]. rewrite <- (assoc_L (++)). pose proof (continues_cons (f x) (g x) _ _ Hx IH) as H. intros a win Hp Ha.
    specialize (H a win Hp Ha). cbn [write_each]. cbv beta in H. destruct (at_offset (zlen a) (store win a) (f x)) as [n win1]. by destruct (n =? 0).
Qed.

Lemma continues_break : continues write_break [0xFF].
Proof.
  pose proof (continues_cons _ _ _ _ (writes_byte 0xFF) continues_done) as H. rewrite app_nil_r in H. exact H.
Qed.

Lemma writes_chunks start b chunk off cs :
  writes start [b] → (∀ d, writes (chunk d) (encode_uint (zlen d) off ++ d)) →
  writes (write_chunks start chunk cs) ([b] ++ concat (map (fun d => encode_uint (zlen d) off ++ d) cs) ++ [0xFF]).
Proof.
  intros Hs Hc. apply (writes_head start [b] _ _ Hs).
  apply (continues_each chunk (fun d => encode_uint (zlen d) off ++ d)); [by apply List.Forall_forall|apply continues_break].
Qed.

(** The loops of [cbor_write] over elements and pairs. *)
Fixpoint write_elems (es : list cbor_item) (written : Z) (win : window) : Z * window :=
  match es with
  | [] => (written, win)
  | e :: es' => let '(n, win1) := at_offset written win (cbor_write e) in if n =? 0 then (0, win1) else write_elems es' (written + n) win1
  end.

Fixpoint write_pairs (ps : list (cbor_item * cbor_item)) (written : Z) (win : window) : Z * window :=
  match ps with
  | [] => (written, win)
  | (k, v) :: ps' =>
      let '(n, win1) := at_offset written win (cbor_write k) in
      if n =? 0 then (0, win1)
      else let '(m, win2) := at_offset (written + n) win1 (cbor_write v) in
           if m =? 0 then (0, win2) else write_pairs ps' (written + n + m) win2
  end.

Fixpoint wire_pairs (ps : list (cbor_item * cbor_item)) : list Z :=
  match ps with [] => [] | (k, v) :: ps' => cbor_wire k ++ cbor_wire v ++ wire_pairs ps' end.

Lemma write_elems_each es written win : write_elems es written win = write_each cbor_write es written win.
Proof. revert written win. induction es as [|e es IH]; intros written win; cbn; [done|]. destruct (at_offset _ _ _) as [n win1]. by rewrite IH. Qed.

Lemma continues_pairs ps k bs :
  Forall (fun p => writes (cbor_write p.1) (cbor_wire p.1) ∧ writes (cbor_write p.2) (cbor_wire p.2)) ps → continues k bs →
  continues (fun written win => let '(n, win1) := write_pairs ps written win in if n =? 0 then (0, win1) else k n win1) (wire_pairs ps ++ bs).
Proof.
  intros Hf Hk. induction Hf as [|[x y] ps [Hx Hy] _ IH].
  - intros a win Hp Ha. cbn. rewrite (proj2 (Z.eqb_neq _ _)) by lia. by apply Hk.
  - cbn [wire_pairs]. rewrite <- !(assoc_L (++)). pose proof (continues_cons _ _ _ _ Hx (continues_cons _ _ _ _ Hy IH)) as H.
    intros a win Hp Ha. specialize (H a win Hp Ha). cbn [write_pairs]. cbv beta in H. cbn [fst snd] in H.
    destruct (at_offset (zlen a) (store win a) (cbor_write x)) as [n win1]. destruct (n =? 0); [done|].
    destruct (at_offset (zlen a + n) win1 (cbor_write y)) as [m win2]. by destruct (m =? 0).
Qed.

(** The end of an array or map. *)
Definition finish_item (definite : bool) (written : Z) (win : window) : Z * window :=
  if definite then (written, win) else write_break written win.

Lemma continues_finish definite : continues (finish_item definite) (if definite then [] else [0xFF]).
Proof. destruct definite; [apply continues_done|apply continues_break]. Qed.

Lemma cbor_write_array d n es win :
  cbor_write (CArray d n es) win
  = let '(written, win1) := if d then cbor_encode_array_start (zlen es) win else cbor_encode_indef_array_start win in
    if written =? 0 then (0, win1)
    else let '(written2, win2) := write_elems es written win1 in
         if written2 =? 0 then (0, win2) else finish_item d written2 win2.
Proof.
  assert (E : ∀ es w win,
    (fix all es written win :=
       match es with
       | [] => (written, win)
       | e :: es' => let '(n, win1) := at_offset written win (cbor_write e) in if n =? 0 then (0, win1) else all es' (written + n) win1
       end) es w win = write_elems es w win).
  { clear. induction es as [|e es IH]; intros w win; [done|]. cbn. destruct (at_offset _ _ _) as [n win1]. by rewrite IH. }
  cbn [cbor_write]. destruct (if d then _ else _) as [w win1]. by rewrite E.
Qed.

Lemma cbor_write_map d n ps win :
  cbor_write (CMap d n ps) win
  = let '(written, win1) := if d then cbor_encode_map_start (zlen ps) win else cbor_encode_indef_map_start win in
    if written =? 0 then (0, win1)
    else let '(written2, win2) := write_pairs ps written win1 in
         if written2 =? 0 then (0, win2) else finish_item d written2 win2.
Proof.
  assert (E : ∀ ps w win,
    (fix all ps written win :=
       match ps with
       | [] => (written, win)
       | (k, v) :: ps' =>
           let '(n, win1) := at_offset written win (cbor_write k) in
           if n =? 0 then (0, win1)
           else let '(m, win2) := at_offset (written + n) win1 (cbor_write v) in
                if m =? 0 then (0, win2) else all ps' (written + n + m) win2
       end) ps w win = write_pairs ps w win).
  { clear. induction ps as [|[k v] ps IH]; intros w win; [done|]. cbn. destruct (at_offset w _ _) as [m win1].
    destruct (m =? 0); [done|]. destruct (at_offset _ win1 _) as [m' win2]. by rewrite IH. }
  cbn [cbor_write]. destruct (if d then _ else _) as [w win1]. by rewrite E.
Qed.

Lemma cbor_wire_array d n es :
  cbor_wire (CArray d n es)
  = (if d then encode_uint (zlen es) 0x80 else [0x9F]) ++ concat (map cbor_wire es) ++ if d then [] else [0xFF].
Proof.
  assert (E : (fix all es := match es with [] => [] | e :: es' => cbor_wire e ++ all es' end) es = concat (map cbor_wire es))
    by (induction es as [|e es IH]; [done|]; cbn; by rewrite IH).
  cbn [cbor_wire]. rewrite E. destruct d; [by rewrite app_nil_r|done].
Qed.

Lemma cbor_wire_map d n ps :
  cbor_wire (CMap d n ps) = (if d then encode_uint (zlen ps) 0xA0 else [0xBF]) ++ wire_pairs ps ++ if d then [] else [0xFF].
Proof.
  assert (E : (fix all ps := match ps with [] => [] | (k, v) :: ps' => cbor_wire k ++ cbor_wire v ++ all ps' end) ps = wire_pairs ps)
    by (induction ps as [|[k v] ps IH]; [done|]; cbn; by rewrite IH).
  cbn [cbor_wire]. rewrite E. destruct d; [by rewrite app_nil_r|done].
Qed.

Lemma writes_float w v : (w = CBOR_FLOAT_0 → is_u8 v) → writes (cbor_serialize_float_ctrl w v) (float_wire w v).
Proof.
  intros Hv. unfold cbor_serialize_float_ctrl, float_wire. destruct (Z.eqb_spec w CBOR_FLOAT_0); [apply writes_uint8; [lia|by apply Hv]|].
  destruct (w =? CBOR_FLOAT_16); [apply writes_uint16; lia|]. destruct (w =? CBOR_FLOAT_32).
  - unfold cbor_encode_single. destruct (isnan32 v); apply writes_uint32; lia.
  - unfold cbor_encode_double. destruct (isnan64 v); apply writes_uint64; lia.
Qed.

Lemma cbor_write_writes i : item_ok i → writes (cbor_write i) (cbor_wire i).
Proof.
  induction i as [i Ha Hm Ht|d n es IH|d n ps IH|v t IH] using cbor_item_nested_ind; intros Hok.
  - destruct i as [w v|w v|d|cs|d|cs|d n es|d n ps|v t|w v]; try (by exfalso; eapply Ha + eapply Hm + eapply Ht).
    + apply (writes_ext (fun win => match w with
                     | CBOR_INT_8 => _cbor_encode_uint8 v win 0 | CBOR_INT_16 => _cbor_encode_uint16 v win 0
                     | CBOR_INT_32 => _cbor_encode_uint32 v win 0 | CBOR_INT_64 => _cbor_encode_uint64 v win 0 end)); [by destruct w|].
      apply (writes_int 0); [lia|done].
    + apply (writes_ext (fun win => match w with
                     | CBOR_INT_8 => _cbor_encode_uint8 v win 0x20 | CBOR_INT_16 => _cbor_encode_uint16 v win 0x20
                     | CBOR_INT_32 => _cbor_encode_uint32 v win 0x20 | CBOR_INT_64 => _cbor_encode_uint64 v win 0x20 end)); [by destruct w|].
      apply (writes_int 0x20); [lia|done].
    + apply writes_string, writes_uint; [lia|apply zlen_nonneg].
    + apply writes_chunks; [apply writes_byte|]. intros d. apply writes_string, writes_uint; [lia|apply zlen_nonneg].
    + apply writes_string, writes_uint; [lia|apply zlen_nonneg].
    + apply writes_chunks; [apply writes_byte|]. intros d. apply writes_string, writes_uint; [lia|apply zlen_nonneg].
    + by apply writes_float.
  - apply item_ok_array in Hok. rewrite cbor_wire_array. eapply writes_ext; [intros win; symmetry; apply cbor_write_array|].
    eapply writes_ext; [|apply (writes_head (fun win => if d then cbor_encode_array_start (zlen es) win else cbor_encode_indef_array_start win)
      (if d then encode_uint (zlen es) 0x80 else [0x9F]));
      [|apply (continues_each cbor_write cbor_wire es); [|apply (continues_finish d)]]].
    + intros win. cbv beta. destruct (if d then _ else _) as [w win1]. destruct (w =? 0); [done|]. by rewrite write_elems_each.
    + destruct d; [apply writes_uint; [lia|apply zlen_nonneg]|apply writes_byte].
    + eapply Forall_impl; [|exact (List.Forall_and IH Hok)]. cbn. intros e [H1 H2]. auto.
  - apply item_ok_map in Hok. rewrite cbor_wire_map. eapply writes_ext; [intros win; symmetry; apply cbor_write_map|].
    apply (writes_head (fun win => if d then cbor_encode_map_start (zlen ps) win else cbor_encode_indef_map_start win)
      (if d then encode_uint (zlen ps) 0xA0 else [0xBF])); [|apply continues_pairs; [|apply (continues_finish d)]].
    + destruct d; [apply writes_uint; [lia|apply zlen_nonneg]|apply writes_byte].
    + eapply Forall_impl; [|exact (List.Forall_and IH Hok)]. cbn. intros e [[H1 H2] [H3 H4]]. auto.
  - destruct Hok as [Hv Hok]. cbn [cbor_wire].
    pose proof (continues_cons _ _ _ _ (IH Hok) continues_done) as Hc. rewrite app_nil_r in Hc.
    apply (writes_head (cbor_encode_tag v) (encode_uint v 0xC0) _ _ (writes_uint 0xC0 ltac:(lia) v ltac:(unfold is_u64 in Hv; lia)) Hc).
Qed.

(** ** The size *)

Lemma header_size v off : 0 <= v → _cbor_encoded_header_size v = zlen (encode_uint v off).
Proof.
  intros Hv. unfold _cbor_encoded_header_size, encode_uint, encode_uint8, encode_uint16, encode_uint32, encode_uint64.
  destruct (Z.leb_spec v 23), (Z.leb_spec v 0xFFFF), (Z.leb_spec v 0xFF), (Z.leb_spec v 0xFFFFFFFF); try lia; try done;
    rewrite zlen_cons; unfold zlen; by rewrite be_bytes_length.
Qed.

Lemma signaling_add a b : 0 < a → 0 < b → a + b < 2 ^ 64 → _cbor_safe_signaling_add a b = a + b.
Proof.
  intros Ha Hb Hs. unfold _cbor_safe_signaling_add. rewrite !(proj2 (Z.eqb_neq _ _)) by lia. cbn [orb].
  rewrite u64_id by (unfold is_u64; lia). by rewrite !(proj2 (Z.leb_le _ _)) by lia.
Qed.

Lemma encode_uint_pos v off : 0 < zlen (encode_uint v off).
Proof.
  unfold encode_uint, encode_uint8, encode_uint16, encode_uint32, encode_uint64.
  repeat (destruct (_ <=? _)); rewrite ?zlen_cons; unfold zlen; cbn; lia.
Qed.

Lemma string_size_spec d off : zlen (encode_uint (zlen d) off ++ d) < 2 ^ 64 → string_size d = zlen (encode_uint (zlen d) off ++ d).
Proof.
  rewrite zlen_app. intros H. pose proof (zlen_nonneg d). pose proof (encode_uint_pos (zlen d) off). unfold string_size.
  rewrite (header_size (zlen d) off) by done. destruct (Z.eqb_spec (zlen d) 0); [lia|]. apply signaling_add; lia.
Qed.

(** A loop that adds up the sizes of the parts. *)
Lemma sizes_add {X} (size : X → Z) (wire : X → list Z) xs acc :
  Forall (fun x => 0 < zlen (wire x) ∧ (zlen (wire x) < 2 ^ 64 → size x = zlen (wire x))) xs →
  0 < acc → acc + zlen (concat (map wire xs)) < 2 ^ 64 →
  fold_left (fun acc x => _cbor_safe_signaling_add acc (size x)) xs acc = acc + zlen (concat (map wire xs)).
Proof.
  intros Hx. revert acc. induction Hx as [|x xs [Hp Hs] _ IH]; intros acc Ha Hb; cbn [map concat fold_left] in *.
  - unfold zlen. cbn. lia.
  - rewrite zlen_app in *. pose proof (zlen_nonneg (concat (map wire xs))). rewrite Hs, signaling_add by lia. rewrite IH by lia. lia.
Qed.

Lemma wire_pos i : item_ok i → 0 < zlen (cbor_wire i).
Proof. intros H. apply (proj1 (cbor_write_writes i H)). Qed.

Lemma size_array d n es :
  cbor_serialized_size (CArray d n es)
  = fold_left (fun acc e => _cbor_safe_signaling_add acc (cbor_serialized_size e)) es (if d then _cbor_encoded_header_size (zlen es) else 2).
Proof. cbn [cbor_serialized_size]. generalize (if d then _cbor_encoded_header_size (zlen es) else 2). induction es as [|e es IH]; intros acc; [done|apply IH]. Qed.

Definition pair_size (p : cbor_item * cbor_item) : Z := _cbor_safe_signaling_add (cbor_serialized_size p.1) (cbor_serialized_size p.2).

Lemma size_map d n ps :
  cbor_serialized_size (CMap d n ps)
  = fold_left (fun acc p => _cbor_safe_signaling_add acc (pair_size p)) ps (if d then _cbor_encoded_header_size (zlen ps) else 2).
Proof. cbn [cbor_serialized_size]. generalize (if d then _cbor_encoded_header_size (zlen ps) else 2). induction ps as [|[k v] ps IH]; intros acc; [done|apply IH]. Qed.

Lemma wire_pairs_concat ps : wire_pairs ps = concat (map (fun p => cbor_wire p.1 ++ cbor_wire p.2) ps).
Proof. induction ps as [|[k v] ps IH]; [done|]. cbn. by rewrite IH, (assoc_L (++)). Qed.

Lemma size_int w v off : 0 <= v → match w with CBOR_INT_8 => if v <=? 23 then 1 else 2 | CBOR_INT_16 => 3 | CBOR_INT_32 => 5 | CBOR_INT_64 => 9 end = zlen (encode_int w v off).
Proof.
  intros Hv. destruct w; cbn [encode_int]; unfold encode_uint8, encode_uint16, encode_uint32, encode_uint64;
    [by destruct (v <=? 23)|rewrite zlen_cons; unfold zlen; by rewrite be_bytes_length..].
Qed.

Lemma serialized_size_exact i : item_ok i → zlen (cbor_wire i) < 2 ^ 64 → cbor_serialized_size i = zlen (cbor_wire i).
Proof.
  induction i as [i Ha Hm Ht|d n es IH|d n ps IH|v t IH] using cbor_item_nested_ind; intros Hok Hb.
  - destruct i as [w v|w v|d|cs|d|cs|d n es|d n ps|v t|w v]; try (by exfalso; eapply Ha + eapply Hm + eapply Ht);
      cbn [cbor_serialized_size cbor_wire item_ok] in *.
    + apply size_int. lia.
    + apply size_int. lia.
    + by apply string_size_spec.
    + rewrite (sizes_add string_size (fun d => encode_uint (zlen d) 0x40 ++ d)); rewrite !zlen_app in *; change (zlen [0x5F]) with 1 in *; change (zlen [0xFF]) with 1 in *; [lia| |lia|lia].
      apply List.Forall_forall. intros d _. split; [rewrite zlen_app; pose proof (encode_uint_pos (zlen d) 0x40); pose proof (zlen_nonneg d); lia|apply string_size_spec].
    + by apply string_size_spec.
    + rewrite (sizes_add string_size (fun d => encode_uint (zlen d) 0x60 ++ d)); rewrite !zlen_app in *; change (zlen [0x7F]) with 1 in *; change (zlen [0xFF]) with 1 in *; [lia| |lia|lia].
      apply List.Forall_forall. intros d _. split; [rewrite zlen_app; pose proof (encode_uint_pos (zlen d) 0x60); pose proof (zlen_nonneg d); lia|apply string_size_spec].
    + unfold float_wire. destruct (Z.eqb_spec w CBOR_FLOAT_0) as [E|E].
      * specialize (Hok E). unfold is_u8 in Hok. rewrite (header_size v 0xE0) by lia. unfold encode_uint.
        by rewrite !(proj2 (Z.leb_le _ _)) by lia.
      * destruct (w =? CBOR_FLOAT_16); [|destruct (w =? CBOR_FLOAT_32)]; unfold encode_uint16, encode_uint32, encode_uint64;
          rewrite zlen_cons; unfold zlen; by rewrite be_bytes_length.
  - apply item_ok_array in Hok. rewrite size_array. rewrite cbor_wire_array, !zlen_app in *.
    assert (Es : (if d then _cbor_encoded_header_size (zlen es) else 2) = zlen (if d then encode_uint (zlen es) 0x80 else [0x9F]) + zlen (if d then [] else [0xFF])).
    { destruct d; [|done]. rewrite (header_size (zlen es) 0x80) by apply zlen_nonneg. change (zlen (@nil Z)) with 0. lia. }
    rewrite Es. rewrite (sizes_add cbor_serialized_size cbor_wire); [lia| | |lia].
    + eapply Forall_impl; [|exact (List.Forall_and IH Hok)]. cbn. intros e [H1 H2]. split; [by apply wire_pos|auto].
    + destruct d; [pose proof (encode_uint_pos (zlen es) 0x80); change (zlen (@nil Z)) with 0; lia|done].
  - apply item_ok_map in Hok. rewrite size_map. rewrite cbor_wire_map, wire_pairs_concat, !zlen_app in *.
    assert (Es : (if d then _cbor_encoded_header_size (zlen ps) else 2) = zlen (if d then encode_uint (zlen ps) 0xA0 else [0xBF]) + zlen (if d then [] else [0xFF])).
    { destruct d; [|done]. rewrite (header_size (zlen ps) 0xA0) by apply zlen_nonneg. change (zlen (@nil Z)) with 0. lia. }
    rewrite Es. rewrite (sizes_add pair_size (fun p => cbor_wire p.1 ++ cbor_wire p.2)); [lia| | |lia].
    + eapply Forall_impl; [|exact (List.Forall_and IH Hok)]. cbn. intros [k v] [[H1 H2] [H3 H4]]. cbn in *. rewrite zlen_app.
      pose proof (wire_pos k H3). pose proof (wire_pos v H4). split; [lia|]. intros Hl. unfold pair_size. cbn.
      rewrite H1, H2, signaling_add by (done || lia). done.
    + destruct d; [pose proof (encode_uint_pos (zlen ps) 0xA0); change (zlen (@nil Z)) with 0; lia|done].
  - destruct Hok as [Hv Hok]. cbn [cbor_serialized_size cbor_wire] in *. rewrite zlen_app in *. unfold is_u64 in Hv.
    pose proof (encode_uint_pos v 0xC0). pose proof (wire_pos t Hok). rewrite (header_size v 0xC0) by lia. rewrite IH by (done || lia).
    apply signaling_add; lia.
Qed.

(** *** The bytes of the codecs *)

Lemma serialize_wire i : ∀ b, cbor_serialize i = Some b → b = cbor_wire i.
Proof.
  induction i as [i Ha Hm Ht|d n es IH|d n ps IH|v t IH] using cbor_item_nested_ind; intros b; [| | |done].
  - destruct i; try (by exfalso; eapply Ha + eapply Hm + eapply Ht); by intros [= <-].
  - destruct d; [|done]. rewrite cbor_wire_array, app_nil_r. cbn [cbor_serialize]. intros (body & Hb & [= <-])%bind_Some. f_equal.
    revert body Hb. induction IH as [|e es He _ IHl]; intros body; [by intros [= <-]|].
    intros (x & Hx & (xs & Hxs & [= <-])%bind_Some)%bind_Some. cbn. by rewrite (He x Hx), (IHl xs Hxs).
  - destruct d; [|done]. rewrite cbor_wire_map, app_nil_r. cbn [cbor_serialize]. intros (body & Hb & [= <-])%bind_Some. f_equal.
    revert body Hb. induction IH as [|[k v] ps [Hk Hv] _ IHl]; intros body; [by intros [= <-]|].
    intros (x & Hx & (y & Hy & (xs & Hxs & [= <-])%bind_Some)%bind_Some)%bind_Some. cbn in *. by rewrite (Hk x Hx), (Hv y Hy), (IHl xs Hxs).
Qed.

Lemma serialize_item_ok i : ∀ b, cbor_serialize i = Some b → cbor_ok i → item_ok i.
Proof.
  induction i as [i Ha Hm Ht|d n es IH|d n ps IH|v t IH] using cbor_item_nested_ind; intros b; [| | |done].
  - destruct i; try (by exfalso; eapply Ha + eapply Hm + eapply Ht); done.
  - destruct d; [|done]. intros Hs [_ Hok]%cbor_ok_array. apply item_ok_array. cbn [cbor_serialize] in Hs.
    apply bind_Some in Hs as (body & Hb & _). clear b. revert body Hb.
    induction IH as [|e es He _ IHl]; intros body; [constructor|]. apply Forall_cons_1 in Hok as [Ho Hok].
    intros (x & Hx & (xs & Hxs & _)%bind_Some)%bind_Some. constructor; [by eapply He|by eapply IHl].
  - destruct d; [|done]. intros Hs [_ Hok]%cbor_ok_map. apply item_ok_map. cbn [cbor_serialize] in Hs.
    apply bind_Some in Hs as (body & Hb & _). clear b. revert body Hb.
    induction IH as [|[k v] ps [Hk Hv] _ IHl]; intros body; [constructor|]. apply Forall_cons_1 in Hok as [[Ho1 Ho2] Hok].
    intros (x & Hx & (y & Hy & (xs & Hxs & _)%bind_Some)%bind_Some)%bind_Some. constructor; [split; [by eapply Hk|by eapply Hv]|by eapply IHl].
Qed.

(** ** Properties *)

(** The writer of libcbor is exact, for every kind of item: the size it
    computes is the number of bytes of the item, a buffer that holds them
    receives exactly them and is otherwise untouched, a shorter one makes it
    report 0 without a byte written past its end, and [cbor_serialize_alloc]
    returns exactly the item's bytes, its assertion never failing. *)
Theorem cbor_writer_exact i win malloc :
  item_ok i → zlen (cbor_wire i) < 2 ^ 64 → (∀ n b, malloc n = Some b → zlen b = n) →
  cbor_serialized_size i = zlen (cbor_wire i) ∧
  (zlen (cbor_wire i) <= zlen win → cbor_write i win = (zlen (cbor_wire i), cbor_wire i ++ drop (length (cbor_wire i)) win)) ∧
  (zlen win < zlen (cbor_wire i) → (cbor_write i win).1 = 0 ∧ length (cbor_write i win).2 = length win) ∧
  serialize_alloc malloc i = Ret (match malloc (zlen (cbor_wire i)) with Some _ => Some (cbor_wire i) | None => None end).
Proof.
  intros Hok Hb Hm. pose proof (serialized_size_exact i Hok Hb) as Hs. destruct (cbor_write_writes i Hok) as [Hp Hw]. split_and!; [done| | |].
  - intros Hle. specialize (Hw win). by rewrite (proj2 (Z.leb_le _ _)) in Hw by done.
  - intros Hlt. specialize (Hw win). by rewrite (proj2 (Z.leb_gt _ _)) in Hw by done.
  - unfold serialize_alloc. rewrite Hs, (proj2 (Z.eqb_neq _ _)) by lia. destruct (malloc (zlen (cbor_wire i))) as [buf|] eqn:Em; [|done].
    specialize (Hw buf). rewrite (Hm _ _ Em), Z.leb_refl in Hw. rewrite Hw, Z.eqb_refl. do 2 f_equal. unfold store.
    rewrite drop_ge by (apply Hm in Em; unfold zlen in Em; lia). apply app_nil_r.
Qed.

Definition malloc_zeros (n : Z) : option (list Z) := Some (replicate (Z.to_nat n) 0).

Lemma cbor_writer_exact_witness :
  let i := CTag 24 (CArray false 4 [CFloatCtrl 1 0x3F800000; CBytesIndef [[1]; []]; CMap true 1 [(CString [0x50], CUint CBOR_INT_16 7)]]) in
  cbor_serialized_size i = 18 ∧ cbor_write i [9; 9] = (0, [216; 24]) ∧ (cbor_write i (replicate 21 9)).1 = 18.
Proof.
  intros i. assert (Hok : item_ok i) by (vm_compute; intuition congruence).
  assert (Hb : zlen (cbor_wire i) < 2 ^ 64) by (vm_compute; reflexivity).
  assert (Hm : ∀ n b, 0 <= n → malloc_zeros n = Some b → zlen b = n).
  { intros n b Hn [= <-]. unfold zlen. rewrite length_replicate. lia. }
  assert (Hm' : ∀ n b, (if 0 <=? n then malloc_zeros n else None) = Some b → zlen b = n).
  { intros n b. destruct (Z.leb_spec 0 n); [by apply Hm|done]. }
  destruct (cbor_writer_exact i (replicate 21 9) _ Hok Hb Hm') as (H1 & H2 & _ & _). split_and!.
  - rewrite H1. vm_compute. reflexivity.
  - vm_compute. reflexivity.
  - rewrite H2; [vm_compute; reflexivity|vm_compute; congruence].
Defined.

(** C35. What the codecs hand to libcbor comes back: an item of the fragment
    they build, nested no deeper than the decoder's stack allows, is serialized
    by [cbor_serialize_alloc] into bytes from which [cbor_load] rebuilds exactly
    that item, integer widths included, when the allocations of both are served. *)
Theorem libcbor_roundtrip i b alloc malloc :
  cbor_serialize i = Some b → cbor_ok i → (cbor_depth i <= S stack_limit)%nat → serves malloc (zlen b) →
  (∀ n b, alloc n = Some b → zlen b = n) → is_Some (alloc (zlen b)) →
  serialize_alloc alloc i = Ret (Some b) ∧ libcbor_load malloc b = Some i.
Proof.
  intros Hs Hok Hd Hserve Ha [buf Eb]. pose proof (serialize_wire i b Hs) as Ew. pose proof (serialize_item_ok i b Hs Hok) as Hi.
  assert (Hb : zlen b < 2 ^ 64) by (destruct Hserve; lia). rewrite Ew in Hb. split.
  - unfold serialize_alloc. rewrite (serialized_size_exact i Hi Hb). destruct (cbor_write_writes i Hi) as [Hp Hw].
    rewrite (proj2 (Z.eqb_neq _ _)) by lia. rewrite <- Ew in *. rewrite Eb. specialize (Hw buf). pose proof (Ha _ _ Eb) as El.
    rewrite El, Z.leb_refl in Hw. rewrite Hw, Z.eqb_refl. do 2 f_equal. unfold store. rewrite drop_ge by (unfold zlen in El; lia). apply app_nil_r.
  - assert (Ea : cbor_serialize_alloc i = b) by (unfold cbor_serialize_alloc; by rewrite Hs). rewrite <- Ea.
    apply libcbor_load_alloc; [done|done| |by rewrite Ea]. rewrite Ea, Ew. by apply wire_pos.
Qed.

Lemma libcbor_roundtrip_witness :
  let i := CArray true 2 [CUint CBOR_INT_16 5; CMap true 1 [(CString [0x50], CBytes [1; 2])]] in
  let b := [0x82; 0x19; 0; 5; 0xA1; 0x61; 0x50; 0x42; 1; 2] in
  serialize_alloc (fun n => if 0 <=? n then malloc_zeros n else None) i = Ret (Some b) ∧ libcbor_load (fun s => s <=? 1000) b = Some i.
Proof.
  intros i b. apply (libcbor_roundtrip i b).
  - vm_compute. reflexivity.
  - apply cbor_ok_array. split; [reflexivity|]. repeat constructor; vm_compute; congruence.
  - apply Nat.leb_le. vm_compute. reflexivity.
  - split; [reflexivity|]. intros s [_ Hs]. apply Z.leb_le. eapply Z.le_trans; [exact Hs|]. vm_compute. congruence.
  - intros n l. destruct (Z.leb_spec 0 n); [|discriminate]. intros [= <-]. unfold zlen. rewrite length_replicate. lia.
  - vm_compute. by eexists.
Defined.

(** *** Half-precision floats *)

Definition half_is_nan (h : Z) : bool := (Z.land h 0x7C00 =? 0x7C00) && negb (Z.land h 0x3FF =? 0).

Fixpoint every (p : Z → bool) (n : nat) (h : Z) : bool := match n with O => true | S n' => p h && every p n' (h + 1) end.

Lemma every_spec p n h x : every p n h = true → h <= x < h + Z.of_nat n → p x = true.
Proof.
  revert h. induction n as [|n IH]; intros h; cbn [every]; [lia|]. rewrite andb_true_iff. intros [H1 H2] Hx.
  destruct (decide (x = h)) as [->|]; [done|]. apply (IH (h + 1)); [done|lia].
Qed.

(** Every half but the NaNs is read and written back unchanged. *)
Lemma half_roundtrip h : is_u16 h → half_is_nan h = false → u16 (half_bits (cbor_decode_half h)) = h.
Proof.
  intros Hh Hn.
  assert (All : every (fun h => half_is_nan h || (u16 (half_bits (cbor_decode_half h)) =? h)) (Z.to_nat 65536) 0 = true) by (vm_compute; reflexivity).
  pose proof (every_spec _ _ _ h All) as H. cbv beta in H. rewrite Hn in H. apply Z.eqb_eq, H. unfold is_u16 in Hh. lia.
Qed.
