(* ===== verification/Node.v ===== *)
(** * Node: peers and their identities

    [src/Network/Meridian/meridian.c] and the comparisons of
    [src/Crypto/node_id.c].  Reference counts are in [Refcount]; a
    node here is the value behind the pointer. *)

From S2P Require Import Prelude Bitset Endian.

Definition POSEIDON_NODE_ID_HASH_SIZE : nat := 32.
Definition POSEIDON_NODE_ID_STRING_SIZE : nat := 48.

Record poseidon_node_id_t := mkNodeId {
  nid_hash : list Z;
  nid_str : list Z
}.

#[export] Instance poseidon_node_id_eq_dec : EqDecision poseidon_node_id_t.
Proof. solve_decision. Defined.

Definition poseidon_node_id_clear : poseidon_node_id_t :=
  {| nid_hash := replicate POSEIDON_NODE_ID_HASH_SIZE 0;
     nid_str := replicate POSEIDON_NODE_ID_STRING_SIZE 0 |}.

(** [memcmp] on the hashes, reduced to its sign; NULL sorts first. *)
Definition poseidon_node_id_compare (a b : option poseidon_node_id_t) : Z :=
  match a, b with
  | None, None => 0
  | None, Some _ => -1
  | Some _, None => 1
  | Some a, Some b => sign_of (lex_compare (nid_hash a) (nid_hash b))
  end.

Definition poseidon_node_id_equals (a b : option poseidon_node_id_t) : bool :=
  poseidon_node_id_compare a b =? 0.

Definition poseidon_node_id_is_null (id : option poseidon_node_id_t) : bool :=
  match id with
  | None => true
  | Some i => forallb (fun b => b =? 0) (nid_hash i)
  end.

(** The first eight bytes of the hash, in host order. *)
Definition poseidon_node_id_hash (id : option poseidon_node_id_t) : Z :=
  match id with None => 0 | Some i => le_decode (take 8 (nid_hash i)) end.

Definition node_id_wf (i : poseidon_node_id_t) : Prop :=
  length (nid_hash i) = POSEIDON_NODE_ID_HASH_SIZE ∧ bytes_ok (nid_hash i) ∧
  length (nid_str i) = POSEIDON_NODE_ID_STRING_SIZE ∧ bytes_ok (nid_str i).

(** ** Meridian nodes *)

Definition MERIDIAN_NODE_FLAG_NONE : Z := 0.
Definition MERIDIAN_NODE_FLAG_RENDEZVOUS : Z := 1.

Record meridian_node_t := mkNode {
  node_id : poseidon_node_id_t;
  node_addr : Z;
  node_port : Z;
  node_rendv_addr : Z;
  node_rendv_port : Z;
  node_flags : Z
}.

#[export] Instance meridian_node_eq_dec : EqDecision meridian_node_t.
Proof. solve_decision. Defined.

Definition meridian_node_create (addr port : Z) (id : option poseidon_node_id_t) : meridian_node_t :=
  {| node_id := match id with Some i => i | None => poseidon_node_id_clear end;
     node_addr := addr;
     node_port := port;
     node_rendv_addr := 0;
     node_rendv_port := 0;
     node_flags := MERIDIAN_NODE_FLAG_NONE |}.

Definition meridian_node_create_rendv (addr port rendv_addr rendv_port : Z)
    (id : option poseidon_node_id_t) : meridian_node_t :=
  {| node_id := match id with Some i => i | None => poseidon_node_id_clear end;
     node_addr := addr;
     node_port := port;
     node_rendv_addr := rendv_addr;
     node_rendv_port := rendv_port;
     node_flags := MERIDIAN_NODE_FLAG_RENDEZVOUS |}.

Definition meridian_node_create_unidentified (addr port : Z) : meridian_node_t :=
  meridian_node_create addr port None.

Definition meridian_node_latency_cmp (a b : meridian_node_t) : Z :=
  if negb (poseidon_node_id_is_null (Some (node_id a))) &&
     negb (poseidon_node_id_is_null (Some (node_id b)))
  then poseidon_node_id_compare (Some (node_id a)) (Some (node_id b))
  else if node_addr a <? node_addr b then -1
  else if node_addr b <? node_addr a then 1
  else if node_port a <? node_port b then -1
  else if node_port b <? node_port a then 1
  else 0.

Definition meridian_node_equals_by_id (a b : option meridian_node_t) : bool :=
  match a, b with
  | Some a, Some b =>
      if poseidon_node_id_is_null (Some (node_id a)) || poseidon_node_id_is_null (Some (node_id b))
      then false
      else poseidon_node_id_compare (Some (node_id a)) (Some (node_id b)) =? 0
  | _, _ => false
  end.

Definition meridian_node_equals_by_addr (a b : option meridian_node_t) : bool :=
  match a, b with
  | Some a, Some b => (node_addr a =? node_addr b) && (node_port a =? node_port b)
  | _, _ => false
  end.

(** The six bytes [addr ++ port] in memory order: the key of a node in the
    routing filters. *)
Definition node_key (addr port : Z) : list Z := le_bytes 4 addr ++ le_bytes 2 port.

Lemma node_key_inj a p a' p' :
  is_u32 a → is_u16 p → is_u32 a' → is_u16 p' → node_key a p = node_key a' p' → a = a' ∧ p = p'.
Proof.
  intros Ha Hp Ha' Hp' H. apply app_inj_1 in H as [H1 H2]; [|by rewrite !le_bytes_length].
  apply le_bytes_inj in H1, H2; done.
Qed.

Lemma node_id_compare_eq a b :
  poseidon_node_id_compare (Some a) (Some b) = 0 ↔ nid_hash a = nid_hash b.
Proof.
  simpl. rewrite <- lex_compare_eq. by destruct (lex_compare _ _).
Qed.

Lemma node_id_clear_null : poseidon_node_id_is_null (Some poseidon_node_id_clear) = true.
Proof. reflexivity. Qed.
