(* ===== verification/NodeId.v ===== *)
(** * NodeId: identities derived from public keys

    The derivation and verification half of [src/Crypto/node_id.c].  BLAKE3 is
    a library the sources only call: the functions take it as an argument, and
    the lemmas assume of it that a digest is 32 bytes. *)

From S2P Require Import Prelude Bitset CString Endian Base58 Node.

Definition HASH_SIZE : Z := Z.of_nat POSEIDON_NODE_ID_HASH_SIZE.
Definition STRING_SIZE : Z := Z.of_nat POSEIDON_NODE_ID_STRING_SIZE.

Section node_id.
Context (blake3 : list Z → list Z).

(** [poseidon_blake3_hash] fails only on NULL arguments.  [id0] is the
    previous content of the structure: bytes of the string behind the NUL
    stay. *)
Definition poseidon_node_id_from_public_key (pub_key : list Z) (id0 : poseidon_node_id_t)
  : exec (option poseidon_node_id_t) :=
  let hash := blake3 pub_key in
  r <- base58_encode hash (STRING_SIZE - 1) ;;
  match r with
  | None => Ret None
  | Some s => Ret (Some {| nid_hash := hash; nid_str := memcpy (nid_str id0) (s ++ [0]) |})
  end.

(** The decoded bytes stay at the beginning of the hash, zero filled. *)
Definition poseidon_node_id_from_string (str : list Z) (id0 : poseidon_node_id_t)
  : exec (option poseidon_node_id_t) :=
  if STRING_SIZE <=? zlen str then Ret None
  else
    let str' := memcpy (nid_str id0) (str ++ [0]) in
    r <- base58_decode str HASH_SIZE ;;
    match r with
    | None => Ret None
    | Some bytes =>
        Ret (Some {| nid_hash := bytes ++ zeros (POSEIDON_NODE_ID_HASH_SIZE - length bytes);
                     nid_str := str' |})
    end.

Definition poseidon_node_id_verify_public_key (node_id : poseidon_node_id_t) (public_key : list Z) : Z :=
  if zlen public_key =? 0 then -1
  else if bool_decide (blake3 public_key = nid_hash node_id) then 0 else -1.

(** ** Lemmas *)

Context (blake3_length : ∀ k, length (blake3 k) = POSEIDON_NODE_ID_HASH_SIZE).
Context (blake3_bytes : ∀ k, bytes_ok (blake3 k)).

(** 32 bytes take at most 44 characters, so the 47 characters of the string
    field always suffice. *)
Lemma base58_hash_fits h :
  length h = POSEIDON_NODE_ID_HASH_SIZE → bytes_ok h →
  ∃ s, base58_encode h (STRING_SIZE - 1) = Ret (Some s) ∧ zlen s <= 44 ∧ cstr_ok s ∧
    base58_decode s HASH_SIZE = Ret (Some h).
Proof.
  intros Hl Hb. assert (Hz : zlen h = 32) by (unfold zlen; by rewrite Hl).
  destruct (base58_encode_spec h (STRING_SIZE - 1) Hb ltac:(lia)) as (ds & cs & Hds & Nds & Vds & Hcs & E).
  pose proof (leading_le 0 h) as Hlz.
  assert (Hlen : zlen ds <= 12 + (zlen h - Z.of_nat (count_leading 0 h))).
  { eapply base58_length; [exact Hb|done|done|done|lia|]. apply pow_256_58_small. lia. }
  rewrite (proj2 (Z.ltb_ge _ _)) in E by (unfold STRING_SIZE, POSEIDON_NODE_ID_STRING_SIZE; lia).
  exists (replicate (count_leading 0 h) 49 ++ cs). split; [done|].
  assert (zlen cs = zlen ds) by (unfold zlen; by rewrite (Forall2_length Hcs), length_rev).
  split; [rewrite zlen_app; unfold zlen at 1; rewrite length_replicate; lia|].
  apply (base58_roundtrip_aux h (STRING_SIZE - 1)); [done|done|]. rewrite Hz. done.
Qed.

Lemma from_public_key_ret pk id0 :
  length (nid_str id0) = POSEIDON_NODE_ID_STRING_SIZE →
  ∃ s id, poseidon_node_id_from_public_key pk id0 = Ret (Some id) ∧
    nid_hash id = blake3 pk ∧ c_str (nid_str id) = s ∧ cstr_ok s ∧ zlen s <= 44 ∧
    length (nid_str id) = POSEIDON_NODE_ID_STRING_SIZE ∧
    base58_decode s HASH_SIZE = Ret (Some (blake3 pk)).
Proof.
  intros Hid. destruct (base58_hash_fits (blake3 pk)) as (s & E & Hs & Hok & Hd); [done|done|].
  exists s. eexists. unfold poseidon_node_id_from_public_key. rewrite E. cbn [xbind].
  split; [reflexivity|]. cbn [nid_hash nid_str]. split; [done|]. unfold memcpy.
  rewrite <- (assoc_L (++)). cbn [app]. split; [by apply c_str_app|]. split_and!; [done|done| |done].
  rewrite length_app. cbn [length]. rewrite length_drop, length_app. cbn [length].
  unfold zlen, POSEIDON_NODE_ID_STRING_SIZE in *. lia.
Qed.

Lemma from_string_ret s id0 h :
  zlen s <= 44 → base58_decode s HASH_SIZE = Ret (Some h) → length h = POSEIDON_NODE_ID_HASH_SIZE →
  ∃ id, poseidon_node_id_from_string s id0 = Ret (Some id) ∧ nid_hash id = h ∧
    nid_str id = memcpy (nid_str id0) (s ++ [0]).
Proof.
  intros Hs Hd Hl. unfold poseidon_node_id_from_string.
  rewrite (proj2 (Z.leb_gt _ _)) by (unfold STRING_SIZE, POSEIDON_NODE_ID_STRING_SIZE; lia).
  rewrite Hd. cbn [xbind]. eexists. split; [reflexivity|]. cbn [nid_hash nid_str].
  rewrite Hl, Nat.sub_diag. split; [apply app_nil_r|done].
Qed.
End node_id.

(** ** Properties *)

(** An identity survives its textual form: deriving the identity of a
    public key always succeeds, its string parses back to an identity that
    compares equal, and that identity accepts the key and only keys with the
    same digest. *)
Theorem node_identity_roundtrip blake3 pk id0 id1 :
  (∀ k, length (blake3 k) = POSEIDON_NODE_ID_HASH_SIZE) → (∀ k, bytes_ok (blake3 k)) →
  length (nid_str id0) = POSEIDON_NODE_ID_STRING_SIZE → pk ≠ [] →
  ∃ id id',
    poseidon_node_id_from_public_key blake3 pk id0 = Ret (Some id) ∧
    poseidon_node_id_from_string (c_str (nid_str id)) id1 = Ret (Some id') ∧
    poseidon_node_id_compare (Some id) (Some id') = 0 ∧
    poseidon_node_id_verify_public_key blake3 id' pk = 0 ∧
    ∀ pk', poseidon_node_id_verify_public_key blake3 id' pk' = 0 → blake3 pk' = blake3 pk.
Proof.
  intros Hl Hb Hid Hpk.
  destruct (from_public_key_ret blake3 Hl Hb pk id0 Hid) as (s & id & E & Hh & Hs & _ & Hlen & _ & Hd).
  destruct (from_string_ret s id1 (blake3 pk) Hlen Hd (Hl pk)) as (id' & E' & Hh' & _).
  exists id, id'. rewrite Hs. unfold poseidon_node_id_verify_public_key. rewrite Hh'.
  split_and!; [done|done|apply node_id_compare_eq; congruence| |].
  - rewrite (proj2 (Z.eqb_neq _ 0)) by (destruct pk; [done|unfold zlen; simpl length; lia]).
    by rewrite bool_decide_true.
  - intros pk'. destruct (_ =? _); [done|]. by case_bool_decide.
Qed.

(** A digest of the right shape, for the examples: the length and the sum. *)
Definition toy_blake3 (k : list Z) : list Z :=
  u8 (zlen k) :: u8 (foldr Z.add 0 k) :: zeros 30.

Lemma toy_blake3_ok k : length (toy_blake3 k) = POSEIDON_NODE_ID_HASH_SIZE ∧ bytes_ok (toy_blake3 k).
Proof.
  split; [done|]. unfold toy_blake3. repeat (constructor; [apply u8_range|]).
  apply Forall_replicate. by vm_compute.
Qed.

Lemma node_identity_roundtrip_witness :
  ∃ id, poseidon_node_id_from_public_key toy_blake3 [7; 8; 9] poseidon_node_id_clear = Ret (Some id) ∧
    poseidon_node_id_verify_public_key toy_blake3 id [7; 8; 9] = 0.
Proof.
  destruct (node_identity_roundtrip toy_blake3 [7; 8; 9] poseidon_node_id_clear poseidon_node_id_clear)
    as (id & id' & E & _); [apply toy_blake3_ok|apply toy_blake3_ok|done|done|].
  exists id. split; [exact E|]. unfold poseidon_node_id_from_public_key in E.
  apply bind_ret in E as ([s|] & _ & E); [|discriminate E]. injection E as <-.
  vm_compute. reflexivity.
Defined.

(** The parser accepts strings that decode to fewer than 32 bytes and pads
    them: different strings name the same identity. *)
Lemma node_id_strings_collide :
  ∃ a b, poseidon_node_id_from_string (lit "1") poseidon_node_id_clear = Ret (Some a) ∧
    poseidon_node_id_from_string (lit "11") poseidon_node_id_clear = Ret (Some b) ∧
    poseidon_node_id_compare (Some a) (Some b) = 0.
Proof. do 2 eexists. split; [vm_compute; reflexivity|]. split; vm_compute; reflexivity. Qed.
