(* ===== verification/Packet.v ===== *)
(** * Packet: the Meridian packets as CBOR arrays

    The fixed packets of [src/Network/Meridian/meridian_packet.c]: the base
    header, gossip, ping and response packets, and the NAT-traversal packets.
    An encoder returns [None] for NULL; a decoder returns [None] for NULL or -1
    and [Trap] where it applies a libcbor accessor to an item of another type
    or width, or reads past the array.  Allocation does not fail. *)

From S2P Require Import Prelude Cbor Node.

Definition MERIDIAN_PACKET_TYPE_RET_RESPONSE : Z := 9.
Definition MERIDIAN_PACKET_TYPE_GOSSIP : Z := 10.
Definition MERIDIAN_PACKET_TYPE_PING : Z := 14.
Definition MERIDIAN_PACKET_TYPE_ADDR_RESPONSE : Z := 31.
Definition MERIDIAN_PACKET_TYPE_PUNCH_REQUEST : Z := 33.
Definition MERIDIAN_PACKET_TYPE_PUNCH_SYNC : Z := 34.
Definition PACKET_MAX_NODES : Z := 256.
Definition MERIDIAN_MAGIC_NUMBER : Z := 0x0A0B0C0D.

Record meridian_packet_t := mkPacket {
  pkt_type : Z;
  pkt_query_id : Z;
  pkt_magic : Z;
  pkt_rendv_addr : Z;
  pkt_rendv_port : Z
}.

Record meridian_gossip_packet_t := mkGossip { gossip_base : meridian_packet_t; gossip_targets : list meridian_node_t }.

Record meridian_ping_packet_t := mkPing {
  ping_base : meridian_packet_t;
  ping_nodes : list meridian_node_t;
  ping_latencies : list Z
}.

Record meridian_node_latency_t := mkNl { nl_addr : Z; nl_port : Z; nl_latency_us : Z }.

Record meridian_ret_response_t := mkRet {
  rr_type : Z;
  rr_query_id : Z;
  rr_magic : Z;
  rr_rendv_addr : Z;
  rr_rendv_port : Z;
  rr_closest_addr : Z;
  rr_closest_port : Z;
  rr_targets : list meridian_node_latency_t
}.

Record meridian_addr_response_t := mkAddrResponse {
  ar_type : Z;
  ar_query_id : Z;
  ar_reflexive_addr : Z;
  ar_reflexive_port : Z;
  ar_endpoint_id : Z
}.

Record meridian_punch_request_t := mkPunchRequest {
  pr_type : Z;
  pr_query_id : Z;
  pr_from_endpoint_id : Z;
  pr_target_addr : Z;
  pr_target_port : Z
}.

Record meridian_punch_sync_t := mkPunchSync {
  ps_type : Z;
  ps_query_id : Z;
  ps_from_endpoint_id : Z;
  ps_from_addr : Z;
  ps_from_port : Z
}.

(** ** Constructors and builders *)

Definition base_packet (type : Z) : meridian_packet_t :=
  {| pkt_type := type; pkt_query_id := 0; pkt_magic := MERIDIAN_MAGIC_NUMBER;
     pkt_rendv_addr := 0; pkt_rendv_port := 0 |}.

Definition meridian_gossip_packet_create : meridian_gossip_packet_t :=
  {| gossip_base := base_packet MERIDIAN_PACKET_TYPE_GOSSIP; gossip_targets := [] |}.

Definition meridian_gossip_packet_add_target (pkt : option meridian_gossip_packet_t)
    (node : option meridian_node_t) : Z * option meridian_gossip_packet_t :=
  match pkt, node with
  | Some p, Some n => (0, Some {| gossip_base := gossip_base p; gossip_targets := gossip_targets p ++ [n] |})
  | _, _ => (-1, pkt)
  end.

Definition meridian_ping_packet_create : meridian_ping_packet_t :=
  {| ping_base := base_packet MERIDIAN_PACKET_TYPE_PING; ping_nodes := []; ping_latencies := [] |}.

Definition meridian_ping_packet_add_node (pkt : option meridian_ping_packet_t)
    (node : option meridian_node_t) (latency : Z) : Z * option meridian_ping_packet_t :=
  match pkt, node with
  | Some p, Some n =>
      (0, Some {| ping_base := ping_base p; ping_nodes := ping_nodes p ++ [n];
                  ping_latencies := ping_latencies p ++ [latency] |})
  | _, _ => (-1, pkt)
  end.

Definition meridian_ret_response_create : meridian_ret_response_t :=
  {| rr_type := MERIDIAN_PACKET_TYPE_RET_RESPONSE; rr_query_id := 0; rr_magic := MERIDIAN_MAGIC_NUMBER;
     rr_rendv_addr := 0; rr_rendv_port := 0; rr_closest_addr := 0; rr_closest_port := 0; rr_targets := [] |}.

Definition rr_with_targets (p : meridian_ret_response_t) (ts : list meridian_node_latency_t)
  : meridian_ret_response_t :=
  {| rr_type := rr_type p; rr_query_id := rr_query_id p; rr_magic := rr_magic p;
     rr_rendv_addr := rr_rendv_addr p; rr_rendv_port := rr_rendv_port p;
     rr_closest_addr := rr_closest_addr p; rr_closest_port := rr_closest_port p; rr_targets := ts |}.

Definition meridian_ret_response_add_target (pkt : option meridian_ret_response_t) (addr port latency : Z)
  : Z * option meridian_ret_response_t :=
  match pkt with
  | None => (-1, None)
  | Some p =>
      (0, Some (rr_with_targets p
        (rr_targets p ++ [{| nl_addr := addr; nl_port := port; nl_latency_us := latency |}])))
  end.

Definition meridian_node_from_latency (nl : option meridian_node_latency_t) : option meridian_node_t :=
  nl ← nl; Some (meridian_node_create (nl_addr nl) (nl_port nl) None).

Definition meridian_addr_response_create (query_id reflexive_addr reflexive_port endpoint_id : Z)
  : meridian_addr_response_t :=
  {| ar_type := MERIDIAN_PACKET_TYPE_ADDR_RESPONSE; ar_query_id := query_id;
     ar_reflexive_addr := reflexive_addr; ar_reflexive_port := reflexive_port; ar_endpoint_id := endpoint_id |}.

Definition meridian_punch_request_create (query_id from_endpoint_id target_addr target_port : Z)
  : meridian_punch_request_t :=
  {| pr_type := MERIDIAN_PACKET_TYPE_PUNCH_REQUEST; pr_query_id := query_id;
     pr_from_endpoint_id := from_endpoint_id; pr_target_addr := target_addr; pr_target_port := target_port |}.

Definition meridian_punch_sync_create (query_id from_endpoint_id from_addr from_port : Z)
  : meridian_punch_sync_t :=
  {| ps_type := MERIDIAN_PACKET_TYPE_PUNCH_SYNC; ps_query_id := query_id;
     ps_from_endpoint_id := from_endpoint_id; ps_from_addr := from_addr; ps_from_port := from_port |}.

(** ** Encoders *)

Definition qid_hi (q : Z) : Z := Z.shiftr q 32.
Definition qid_lo (q : Z) : Z := Z.land q 0xFFFFFFFF.

(** [[type, query_id_hi, query_id_lo, magic, rendv_addr, rendv_port]]. *)
Definition header_items (p : meridian_packet_t) : list cbor_item :=
  [cbor_build_uint8 (pkt_type p);
   cbor_build_uint64 (qid_hi (pkt_query_id p)); cbor_build_uint64 (qid_lo (pkt_query_id p));
   cbor_build_uint32 (pkt_magic p);
   cbor_build_uint32 (pkt_rendv_addr p); cbor_build_uint16 (pkt_rendv_port p)].

(** The loops over targets: build a small array, push it, give everything up
    on the first failure. *)
Fixpoint push_each {A} (build : A → exec (option cbor_item)) (arr : cbor_item) (xs : list A)
  : exec (option cbor_item) :=
  match xs with
  | [] => Ret (Some arr)
  | x :: xs' =>
      t <- build x ;;
      match t with
      | None => Ret None
      | Some t =>
          r <- cbor_array_push arr t ;;
          match r with Some arr' => push_each build arr' xs' | None => Ret None end
      end
  end.

Definition then_push_each {A} (m : exec (option cbor_item)) (build : A → exec (option cbor_item))
    (xs : list A) : exec (option cbor_item) :=
  r <- m ;; match r with None => Ret None | Some arr => push_each build arr xs end.

Definition gossip_target (n : meridian_node_t) : exec (option cbor_item) :=
  push_all (cbor_new_definite_array 4)
    [cbor_build_uint32 (node_addr n); cbor_build_uint16 (node_port n);
     cbor_build_uint32 (node_rendv_addr n); cbor_build_uint16 (node_rendv_port n)].

Definition meridian_gossip_encode (pkt : option meridian_gossip_packet_t) : exec (option cbor_item) :=
  match pkt with
  | None => Ret None
  | Some p =>
      let n := zlen (gossip_targets p) in
      then_push_each
        (push_all (cbor_new_definite_array (7 + n)) (header_items (gossip_base p) ++ [cbor_build_uint8 n]))
        gossip_target (gossip_targets p)
  end.

(** The [i]-th node with the [i]-th latency: reading past the latencies is
    undefined. *)
Fixpoint ping_entries (nodes : list meridian_node_t) (latencies : list Z) : list (meridian_node_t * option Z) :=
  match nodes with
  | [] => []
  | n :: nodes' => (n, head latencies) :: ping_entries nodes' (tail latencies)
  end.

Definition ping_node (e : meridian_node_t * option Z) : exec (option cbor_item) :=
  match e with
  | (n, Some latency) =>
      push_all (cbor_new_definite_array 3)
        [cbor_build_uint32 (node_addr n); cbor_build_uint16 (node_port n); cbor_build_uint32 latency]
  | (n, None) => Trap
  end.

Definition meridian_ping_encode (pkt : option meridian_ping_packet_t) : exec (option cbor_item) :=
  match pkt with
  | None => Ret None
  | Some p =>
      let n := zlen (ping_nodes p) in
      then_push_each
        (push_all (cbor_new_definite_array (6 + n)) (header_items (ping_base p) ++ [cbor_build_uint8 n]))
        ping_node (ping_entries (ping_nodes p) (ping_latencies p))
  end.

Definition meridian_packet_encode (pkt : option meridian_packet_t) : exec (option cbor_item) :=
  match pkt with
  | None => Ret None
  | Some p => push_all (cbor_new_definite_array 5) (header_items p)
  end.

Definition response_target (t : meridian_node_latency_t) : exec (option cbor_item) :=
  push_all (cbor_new_definite_array 3)
    [cbor_build_uint32 (nl_addr t); cbor_build_uint16 (nl_port t); cbor_build_uint32 (nl_latency_us t)].

Definition meridian_ret_response_encode (pkt : option meridian_ret_response_t) : exec (option cbor_item) :=
  match pkt with
  | None => Ret None
  | Some p =>
      let n := zlen (rr_targets p) in
      then_push_each
        (push_all (cbor_new_definite_array (9 + n))
          [cbor_build_uint8 (rr_type p);
           cbor_build_uint64 (qid_hi (rr_query_id p)); cbor_build_uint64 (qid_lo (rr_query_id p));
           cbor_build_uint32 (rr_magic p);
           cbor_build_uint32 (rr_rendv_addr p); cbor_build_uint16 (rr_rendv_port p);
           cbor_build_uint32 (rr_closest_addr p); cbor_build_uint16 (rr_closest_port p);
           cbor_build_uint8 n])
        response_target (rr_targets p)
  end.

Definition meridian_addr_response_encode (pkt : option meridian_addr_response_t) : exec (option cbor_item) :=
  match pkt with
  | None => Ret None
  | Some p =>
      push_all (cbor_new_definite_array 6)
        [cbor_build_uint8 (ar_type p);
         cbor_build_uint64 (qid_hi (ar_query_id p)); cbor_build_uint64 (qid_lo (ar_query_id p));
         cbor_build_uint32 (ar_reflexive_addr p); cbor_build_uint16 (ar_reflexive_port p);
         cbor_build_uint32 (ar_endpoint_id p)]
  end.

Definition meridian_punch_request_encode (pkt : option meridian_punch_request_t) : exec (option cbor_item) :=
  match pkt with
  | None => Ret None
  | Some p =>
      push_all (cbor_new_definite_array 6)
        [cbor_build_uint8 (pr_type p);
         cbor_build_uint64 (qid_hi (pr_query_id p)); cbor_build_uint64 (qid_lo (pr_query_id p));
         cbor_build_uint32 (pr_from_endpoint_id p); cbor_build_uint32 (pr_target_addr p);
         cbor_build_uint16 (pr_target_port p)]
  end.

Definition meridian_punch_sync_encode (pkt : option meridian_punch_sync_t) : exec (option cbor_item) :=
  match pkt with
  | None => Ret None
  | Some p =>
      push_all (cbor_new_definite_array 6)
        [cbor_build_uint8 (ps_type p);
         cbor_build_uint64 (qid_hi (ps_query_id p)); cbor_build_uint64 (qid_lo (ps_query_id p));
         cbor_build_uint32 (ps_from_endpoint_id p); cbor_build_uint32 (ps_from_addr p);
         cbor_build_uint16 (ps_from_port p)]
  end.

(** ** Decoders *)

(** [item == NULL || !cbor_array_is_definite(item)], then
    [cbor_array_size(item) < min]: the elements, or [None] to return NULL. *)
Definition open_array (item : option cbor_item) (min : Z) : exec (option (list cbor_item)) :=
  match item with
  | None => Ret None
  | Some i =>
      definite <- cbor_array_is_definite i ;;
      if negb definite then Ret None
      else
        size <- cbor_array_size i ;;
        if size <? min then Ret None else (es <- cbor_array_handle i ;; Ret (Some es))
  end.

Definition get8 (items : list cbor_item) (k : Z) : exec Z := i <- elem_at items k ;; cbor_get_uint8 i.
Definition get16 (items : list cbor_item) (k : Z) : exec Z := i <- elem_at items k ;; cbor_get_uint16 i.
Definition get32 (items : list cbor_item) (k : Z) : exec Z := i <- elem_at items k ;; cbor_get_uint32 i.
Definition get64 (items : list cbor_item) (k : Z) : exec Z := i <- elem_at items k ;; cbor_get_uint64 i.

(** [(qid_1 << 32) | qid_2] in a [uint64_t]. *)
Definition join_qid (hi lo : Z) : Z := Z.lor (u64 (Z.shiftl hi 32)) lo.

(** The six header fields. *)
Definition decode_header (items : list cbor_item) : exec meridian_packet_t :=
  type <- get8 items 0 ;;
  qid_1 <- get64 items 1 ;;
  qid_2 <- get64 items 2 ;;
  magic <- get32 items 3 ;;
  rendv_addr <- get32 items 4 ;;
  rendv_port <- get16 items 5 ;;
  Ret {| pkt_type := type; pkt_query_id := join_qid qid_1 qid_2; pkt_magic := magic;
         pkt_rendv_addr := rendv_addr; pkt_rendv_port := rendv_port |}.

(** The loop over the [num] announced targets from index [idx]: each must be a
    definite array of [size] elements, which [read] interprets. *)
Fixpoint decode_targets {A} (size : Z) (read : list cbor_item → exec A) (items : list cbor_item)
    (num : nat) (idx : Z) : exec (option (list A)) :=
  match num with
  | O => Ret (Some [])
  | S num' =>
      if zlen items <=? idx then Ret None
      else
        arr <- elem_at items idx ;;
        definite <- cbor_array_is_definite arr ;;
        if negb definite then Ret None
        else
          n <- cbor_array_size arr ;;
          if negb (n =? size) then Ret None
          else
            es <- cbor_array_handle arr ;;
            x <- read es ;;
            rest <- decode_targets size read items num' (idx + 1) ;;
            match rest with None => Ret None | Some xs => Ret (Some (x :: xs)) end
  end.

(** The count is read as a 64-bit integer, checked against the array, and the
    targets follow it. *)
Definition decode_counted {A} (size : Z) (read : list cbor_item → exec A) (items : list cbor_item)
    (idx : Z) : exec (option (list A)) :=
  num <- get64 items idx ;;
  if (PACKET_MAX_NODES <? num) || (zlen items - (idx + 1) <? num) then Ret None
  else decode_targets size read items (Z.to_nat num) (idx + 1).

Definition read_gossip_target (es : list cbor_item) : exec meridian_node_t :=
  addr <- get32 es 0 ;; port <- get16 es 1 ;; rendv_addr <- get32 es 2 ;; rendv_port <- get16 es 3 ;;
  Ret (meridian_node_create_rendv addr port rendv_addr rendv_port None).

Definition meridian_gossip_decode (item : option cbor_item) : exec (option meridian_gossip_packet_t) :=
  r <- open_array item 7 ;;
  match r with
  | None => Ret None
  | Some items =>
      base <- decode_header items ;;
      if negb (pkt_magic base =? MERIDIAN_MAGIC_NUMBER) then Ret None
      else
        ts <- decode_counted 4 read_gossip_target items 6 ;;
        match ts with
        | None => Ret None
        | Some ts => Ret (Some {| gossip_base := base; gossip_targets := ts |})
        end
  end.

(** [cbor_item_t* node_items = cbor_array_handle(node_arr)] takes the array of
    pointers for an array of items: reading the first one is undefined. *)
Definition read_misaddressed {A} (es : list cbor_item) : exec A := Trap.

Definition meridian_ping_decode (item : option cbor_item) : exec (option meridian_ping_packet_t) :=
  r <- open_array item 6 ;;
  match r with
  | None => Ret None
  | Some items =>
      base <- decode_header items ;;
      if negb (pkt_magic base =? MERIDIAN_MAGIC_NUMBER) then Ret None
      else
        ts <- decode_counted 3 (read_misaddressed (A := meridian_node_t * Z)) items 6 ;;
        match ts with
        | None => Ret None
        | Some ts =>
            Ret (Some {| ping_base := base; ping_nodes := map fst ts; ping_latencies := map snd ts |})
        end
  end.

(** The size check admits five elements, six are read. *)
Definition meridian_packet_decode (item : option cbor_item) : exec (option meridian_packet_t) :=
  r <- open_array item 5 ;;
  match r with
  | None => Ret None
  | Some items =>
      base <- decode_header items ;;
      Ret (if negb (pkt_magic base =? MERIDIAN_MAGIC_NUMBER) then None else Some base)
  end.

Definition meridian_ret_response_decode (item : option cbor_item) : exec (option meridian_ret_response_t) :=
  r <- open_array item 9 ;;
  match r with
  | None => Ret None
  | Some items =>
      base <- decode_header items ;;
      closest_addr <- get32 items 6 ;;
      closest_port <- get16 items 7 ;;
      if negb (pkt_magic base =? MERIDIAN_MAGIC_NUMBER) then Ret None
      else
        ts <- decode_counted 3 (read_misaddressed (A := meridian_node_latency_t)) items 8 ;;
        match ts with
        | None => Ret None
        | Some ts =>
            Ret (Some {| rr_type := pkt_type base; rr_query_id := pkt_query_id base;
                         rr_magic := pkt_magic base; rr_rendv_addr := pkt_rendv_addr base;
                         rr_rendv_port := pkt_rendv_port base; rr_closest_addr := closest_addr;
                         rr_closest_port := closest_port; rr_targets := ts |})
        end
  end.

Definition meridian_addr_response_decode (item : option cbor_item) : exec (option meridian_addr_response_t) :=
  r <- open_array item 6 ;;
  match r with
  | None => Ret None
  | Some items =>
      type <- get8 items 0 ;; qid_1 <- get64 items 1 ;; qid_2 <- get64 items 2 ;;
      addr <- get32 items 3 ;; port <- get16 items 4 ;; endpoint <- get32 items 5 ;;
      Ret (if negb (type =? MERIDIAN_PACKET_TYPE_ADDR_RESPONSE) then None
           else Some {| ar_type := type; ar_query_id := join_qid qid_1 qid_2;
                        ar_reflexive_addr := addr; ar_reflexive_port := port; ar_endpoint_id := endpoint |})
  end.

Definition meridian_punch_request_decode (item : option cbor_item) : exec (option meridian_punch_request_t) :=
  r <- open_array item 6 ;;
  match r with
  | None => Ret None
  | Some items =>
      type <- get8 items 0 ;; qid_1 <- get64 items 1 ;; qid_2 <- get64 items 2 ;;
      from <- get32 items 3 ;; addr <- get32 items 4 ;; port <- get16 items 5 ;;
      Ret (if negb (type =? MERIDIAN_PACKET_TYPE_PUNCH_REQUEST) then None
           else Some {| pr_type := type; pr_query_id := join_qid qid_1 qid_2;
                        pr_from_endpoint_id := from; pr_target_addr := addr; pr_target_port := port |})
  end.

Definition meridian_punch_sync_decode (item : option cbor_item) : exec (option meridian_punch_sync_t) :=
  r <- open_array item 6 ;;
  match r with
  | None => Ret None
  | Some items =>
      type <- get8 items 0 ;; qid_1 <- get64 items 1 ;; qid_2 <- get64 items 2 ;;
      from <- get32 items 3 ;; addr <- get32 items 4 ;; port <- get16 items 5 ;;
      Ret (if negb (type =? MERIDIAN_PACKET_TYPE_PUNCH_SYNC) then None
           else Some {| ps_type := type; ps_query_id := join_qid qid_1 qid_2;
                        ps_from_endpoint_id := from; ps_from_addr := addr; ps_from_port := port |})
  end.

(** ** Lemmas *)

Lemma join_split_qid q : is_u64 q → join_qid (u64 (qid_hi q)) (u64 (qid_lo q)) = q.
Proof.
  intros Hq. unfold is_u64 in Hq. unfold join_qid, qid_hi, qid_lo.
  change 0xFFFFFFFF with (Z.ones 32). rewrite Z.land_ones, Z.shiftr_div_pow2 by lia.
  assert (0 <= q / 2 ^ 32 < 2 ^ 32) by (split; [apply Z.div_pos; lia|apply Z.div_lt_upper_bound; lia]).
  pose proof (Z.mod_pos_bound q (2 ^ 32) ltac:(lia)).
  rewrite !u64_id by (unfold is_u64; rewrite ?Z.shiftl_mul_pow2, ?u64_id by (unfold is_u64; lia); lia).
  rewrite lor_shiftl_add by lia. pose proof (Z.div_mod q (2 ^ 32) ltac:(lia)). lia.
Qed.

(** The getters of a well-typed element. *)
Lemma get_build items k :
  (∀ v, items !! Z.to_nat k = Some (cbor_build_uint8 v) → get8 items k = Ret (u8 v)) ∧
  (∀ v, items !! Z.to_nat k = Some (cbor_build_uint16 v) → get16 items k = Ret (u16 v)) ∧
  (∀ v, items !! Z.to_nat k = Some (cbor_build_uint32 v) → get32 items k = Ret (u32 v)) ∧
  (∀ v, items !! Z.to_nat k = Some (cbor_build_uint64 v) → get64 items k = Ret (u64 v)).
Proof. unfold get8, get16, get32, get64, elem_at. split_and!; intros v ->; reflexivity. Qed.

(** A count written with eight bits is not read with sixty-four. *)
Lemma get64_build8 items k v :
  items !! Z.to_nat k = Some (cbor_build_uint8 v) → get64 items k = Trap.
Proof. unfold get64, elem_at. intros ->. reflexivity. Qed.

Lemma push_each_app {A} (build : A → exec (option cbor_item)) n es xs :
  (∀ x, ∃ t, build x = Ret (Some t)) → zlen es + zlen xs <= n →
  ∃ ts, push_each build (CArray true n es) xs = Ret (Some (CArray true n (es ++ ts))).
Proof.
  intros Hb. revert es. induction xs as [|x xs IH]; intros es H; cbn [push_each].
  - exists []. by rewrite app_nil_r.
  - destruct (Hb x) as [t ->]. cbn [xbind cbor_array_push]. unfold zlen in *. simpl length in H.
    rewrite (proj2 (Z.leb_gt _ _)) by (unfold zlen; lia). cbn [xbind].
    destruct (IH (es ++ [t])) as [ts ->]; [rewrite length_app; simpl; lia|].
    exists (t :: ts). by rewrite <- (assoc_L (++)).
Qed.

(** One element more than allocated: the encoder gives up. *)
Lemma push_each_overflow {A} (build : A → exec (option cbor_item)) n es xs i :
  n < zlen es + zlen xs → zlen es <= n → push_each build (CArray true n es) xs ≠ Ret (Some i).
Proof.
  revert es. induction xs as [|x xs IH]; intros es H He; cbn [push_each].
  - unfold zlen in *. simpl length in H. lia.
  - destruct (build x) as [[t|]|]; cbn [xbind]; [|done|done]. cbn [cbor_array_push].
    destruct (Z.leb_spec n (zlen es)); cbn [xbind]; [done|]. apply IH;
      rewrite zlen_app; change (zlen [t]) with 1; unfold zlen in *; simpl length in H; lia.
Qed.

Lemma open_array_definite n es min : min <= zlen es → open_array (Some (CArray true n es)) min = Ret (Some es).
Proof. intros H. cbn. by rewrite (proj2 (Z.ltb_ge _ _)). Qed.

(** Evaluates the reads of a list whose elements are known. *)
Ltac read_items :=
  repeat match goal with
  | |- context [get8 ?l ?k] => let r := eval hnf in (get8 l k) in change (get8 l k) with r; rewrite bind_Ret_l
  | |- context [get16 ?l ?k] => let r := eval hnf in (get16 l k) in change (get16 l k) with r; rewrite bind_Ret_l
  | |- context [get32 ?l ?k] => let r := eval hnf in (get32 l k) in change (get32 l k) with r; rewrite bind_Ret_l
  | |- context [get64 ?l ?k] => let r := eval hnf in (get64 l k) in change (get64 l k) with r; rewrite bind_Ret_l
  end.

Lemma header_length p x : zlen (header_items p ++ [x]) = 7.
Proof. reflexivity. Qed.

Lemma ping_entries_length nodes ls : zlen (ping_entries nodes ls) = zlen nodes.
Proof.
  unfold zlen. f_equal. revert ls. induction nodes as [|x l IH]; intros ls; [done|].
  cbn [ping_entries length]. by rewrite IH.
Qed.

Lemma gossip_undecodable p : ∃ i, meridian_gossip_encode (Some p) = Ret (Some i) ∧ ∀ q, meridian_gossip_decode (Some i) ≠ Ret (Some q).
Proof.
  unfold meridian_gossip_encode, then_push_each, cbor_new_definite_array.
  pose proof (zlen_nonneg (gossip_targets p)).
  rewrite push_all_definite by (rewrite header_length; change (zlen (@nil cbor_item)) with 0; lia).
  rewrite bind_Ret_l.
  edestruct (push_each_app gossip_target) as [ts ->]; [|rewrite app_nil_l, header_length; lia|].
  { intros n. eexists. unfold gossip_target, cbor_new_definite_array.
    by rewrite push_all_definite by by vm_compute. }
  eexists. split; [reflexivity|]. intros q. unfold meridian_gossip_decode.
  match goal with |- context [open_array ?i ?n] => destruct (open_array i n) as [[items|]|] eqn:Eo end; cbn [xbind]; [|done|done].
  assert (Hi : items !! 6%nat = Some (cbor_build_uint8 (zlen (gossip_targets p)))).
  { cbn in Eo. destruct (_ <? 7); [done|]. by injection Eo as <-. }
  destruct (decode_header items) as [b|]; cbn [xbind]; [|done]. destruct (negb _); [done|].
  unfold decode_counted. by rewrite (get64_build8 items 6 _ Hi).
Qed.

Lemma ret_response_undecodable p : ∃ i, meridian_ret_response_encode (Some p) = Ret (Some i) ∧ ∀ q, meridian_ret_response_decode (Some i) ≠ Ret (Some q).
Proof.
  unfold meridian_ret_response_encode, then_push_each, cbor_new_definite_array.
  pose proof (zlen_nonneg (rr_targets p)).
  rewrite push_all_definite by (unfold zlen in *; simpl length; lia). rewrite bind_Ret_l, app_nil_l.
  edestruct (push_each_app response_target) as [ts ->]; [|unfold zlen in *; simpl length; lia|].
  { intros n. eexists. unfold response_target, cbor_new_definite_array.
    by rewrite push_all_definite by by vm_compute. }
  eexists. split; [reflexivity|]. intros q. unfold meridian_ret_response_decode.
  match goal with |- context [open_array ?i ?n] => destruct (open_array i n) as [[items|]|] eqn:Eo end; cbn [xbind]; [|done|done].
  assert (Hi : items !! 8%nat = Some (cbor_build_uint8 (zlen (rr_targets p)))).
  { cbn in Eo. destruct (_ <? 9); [done|]. by injection Eo as <-. }
  destruct (decode_header items) as [b|]; cbn [xbind]; [|done].
  destruct (get32 items 6); cbn [xbind]; [|done]. destruct (get16 items 7); cbn [xbind]; [|done].
  destruct (negb _); [done|]. unfold decode_counted. by rewrite (get64_build8 items 8 _ Hi).
Qed.

(** ** Properties *)

(** The NAT-traversal packets survive the wire: decoding what an encoder
    produced gives back the packet, every field at its full width. *)
Theorem nat_packets_roundtrip q a p e :
  is_u64 q → is_u32 a → is_u16 p → is_u32 e →
  (i <- meridian_addr_response_encode (Some (meridian_addr_response_create q a p e)) ;;
   meridian_addr_response_decode i) = Ret (Some (meridian_addr_response_create q a p e)) ∧
  (i <- meridian_punch_request_encode (Some (meridian_punch_request_create q e a p)) ;;
   meridian_punch_request_decode i) = Ret (Some (meridian_punch_request_create q e a p)) ∧
  (i <- meridian_punch_sync_encode (Some (meridian_punch_sync_create q e a p)) ;;
   meridian_punch_sync_decode i) = Ret (Some (meridian_punch_sync_create q e a p)).
Proof.
  intros Hq Ha Hp He.
  pose proof (join_split_qid q Hq) as Ej. pose proof (u32_id a Ha) as Ea. pose proof (u16_id p Hp) as Ep.
  pose proof (u32_id e He) as Ee. split_and!.
  - unfold meridian_addr_response_encode, cbor_new_definite_array. rewrite push_all_definite by by vm_compute.
    rewrite bind_Ret_l. unfold meridian_addr_response_decode. rewrite open_array_definite by by vm_compute.
    rewrite bind_Ret_l. cbn [app]. read_items. cbn [ar_query_id ar_reflexive_addr ar_reflexive_port ar_endpoint_id
      pr_query_id pr_from_endpoint_id pr_target_addr pr_target_port
      ps_query_id ps_from_endpoint_id ps_from_addr ps_from_port meridian_addr_response_create].
    rewrite Ej, Ea, Ep, Ee. reflexivity.
  - unfold meridian_punch_request_encode, cbor_new_definite_array. rewrite push_all_definite by by vm_compute.
    rewrite bind_Ret_l. unfold meridian_punch_request_decode. rewrite open_array_definite by by vm_compute.
    rewrite bind_Ret_l. cbn [app]. read_items. cbn [ar_query_id ar_reflexive_addr ar_reflexive_port ar_endpoint_id
      pr_query_id pr_from_endpoint_id pr_target_addr pr_target_port
      ps_query_id ps_from_endpoint_id ps_from_addr ps_from_port meridian_punch_request_create].
    rewrite Ej, Ea, Ep, Ee. reflexivity.
  - unfold meridian_punch_sync_encode, cbor_new_definite_array. rewrite push_all_definite by by vm_compute.
    rewrite bind_Ret_l. unfold meridian_punch_sync_decode. rewrite open_array_definite by by vm_compute.
    rewrite bind_Ret_l. cbn [app]. read_items. cbn [ar_query_id ar_reflexive_addr ar_reflexive_port ar_endpoint_id
      pr_query_id pr_from_endpoint_id pr_target_addr pr_target_port
      ps_query_id ps_from_endpoint_id ps_from_addr ps_from_port meridian_punch_sync_create].
    rewrite Ej, Ea, Ep, Ee. reflexivity.
Qed.

Lemma nat_packets_roundtrip_witness :
  (i <- meridian_punch_sync_encode (Some (meridian_punch_sync_create (2 ^ 63 + 5) 7 0x7F000001 8080)) ;;
   meridian_punch_sync_decode i) = Ret (Some (meridian_punch_sync_create (2 ^ 63 + 5) 7 0x7F000001 8080)).
Proof.
  apply (nat_packets_roundtrip (2 ^ 63 + 5) 0x7F000001 8080 7); vm_compute; split; congruence.
Defined.

(** The ring packets never cross the wire.  The base header and the ping
    packet allocate one element less than they push, so their encoders always
    give up; gossip and response packets write the number of targets with
    eight bits and read it with sixty-four, so no encoded packet is ever
    decoded. *)
Theorem ring_packets_undecodable :
  (∀ p, meridian_packet_encode (Some p) = Ret None) ∧
  (∀ p i, meridian_ping_encode (Some p) ≠ Ret (Some i)) ∧
  (∀ p, ∃ i, meridian_gossip_encode (Some p) = Ret (Some i) ∧
     ∀ q, meridian_gossip_decode (Some i) ≠ Ret (Some q)) ∧
  (∀ p, ∃ i, meridian_ret_response_encode (Some p) = Ret (Some i) ∧
     ∀ q, meridian_ret_response_decode (Some i) ≠ Ret (Some q)).
Proof.
  split_and!.
  - intros p. unfold meridian_packet_encode, cbor_new_definite_array.
    by rewrite push_all_overflow by by vm_compute.
  - intros p i. unfold meridian_ping_encode, then_push_each, cbor_new_definite_array.
    pose proof (zlen_nonneg (ping_nodes p)).
    pose proof (ping_entries_length (ping_nodes p) (ping_latencies p)) as El.
    destruct (decide (zlen (ping_nodes p) = 0)) as [E0|].
    + rewrite push_all_overflow; [done|rewrite E0; by vm_compute|rewrite E0; by vm_compute].
    + rewrite push_all_definite by (rewrite header_length; change (zlen (@nil cbor_item)) with 0; lia).
      rewrite bind_Ret_l. apply push_each_overflow; rewrite ?El, app_nil_l, header_length; lia.
  - apply gossip_undecodable.
  - apply ret_response_undecodable.
Qed.
