(* ===== verification/ChannelPacket.v ===== *)
(** * ChannelPacket: bootstrap packets and signed notices

    The channel half of [src/Network/Meridian/meridian_packet.c]: bootstrap
    requests and replies, and the delete and modify notices.  Fields of type
    [char[N]] and [uint8_t[N]] are their [N] bytes; on failure a decoder
    returns [None] and its output structure is not used. *)

From S2P Require Import Prelude CString Cbor Packet.

Definition MERIDIAN_PACKET_TYPE_CHANNEL_BOOTSTRAP : Z := 40.
Definition MERIDIAN_PACKET_TYPE_CHANNEL_BOOTSTRAP_REPLY : Z := 41.
Definition MERIDIAN_PACKET_TYPE_CHANNEL_DELETE_NOTICE : Z := 60.
Definition MERIDIAN_PACKET_TYPE_CHANNEL_MODIFY_NOTICE : Z := 61.
Definition POSEIDON_CHANNEL_NOTICE_MAX_PUBLIC_KEY : Z := 64.
Definition POSEIDON_CHANNEL_NOTICE_MAX_SIGNATURE : Z := 64.
Definition POSEIDON_CHANNEL_MAX_RINGS : nat := 10.

(** ** Bootstrap packets *)

Definition meridian_channel_bootstrap_encode (topic_id sender_node_id : option (list Z)) (timestamp_us : Z)
  : exec (option cbor_item) :=
  match topic_id, sender_node_id with
  | Some topic, Some sender =>
      push_all (cbor_new_definite_array 4)
        [cbor_build_uint8 MERIDIAN_PACKET_TYPE_CHANNEL_BOOTSTRAP; cbor_build_string topic;
         cbor_build_string sender; cbor_build_uint64 timestamp_us]
  | _, _ => Ret None
  end.

(** [!cbor_isa_uint(items[k]) || cbor_get_uint8(items[k]) != type]. *)
Definition type_differs (items : list cbor_item) (k type : Z) : exec bool :=
  i <- elem_at items k ;;
  if negb (cbor_isa_uint i) then Ret true else (t <- cbor_get_uint8 i ;; Ret (negb (t =? type))).

(** A text item copied into a buffer of [size] bytes with its NUL. *)
Definition string_field (items : list cbor_item) (k size : Z) : exec (option (list Z)) :=
  i <- elem_at items k ;;
  if negb (cbor_isa_string i) then Ret None
  else
    len <- cbor_string_length i ;;
    if size <=? len then Ret None else (s <- cbor_string_handle i ;; Ret (Some s)).

(** An integer item of the width [get] expects. *)
Definition uint_field (get : cbor_item → exec Z) (items : list cbor_item) (k : Z) : exec (option Z) :=
  i <- elem_at items k ;;
  if negb (cbor_isa_uint i) then Ret None else (v <- get i ;; Ret (Some v)).

(** [None] is the early [return -1]. *)
Notation "x <-? m ;; k" := (xbind m (fun o => match o with None => Ret None | Some x => k end))
  (at level 100, m at next level, right associativity) : poseidon_scope.

Definition meridian_channel_bootstrap_decode (item : option cbor_item) (topic_buf_size node_id_buf_size : Z)
  : exec (option (list Z * list Z * Z)) :=
  items <-? open_array item 4 ;;
  differs <- type_differs items 0 MERIDIAN_PACKET_TYPE_CHANNEL_BOOTSTRAP ;;
  if (differs : bool) then Ret None
  else
    topic <-? string_field items 1 topic_buf_size ;;
    sender <-? string_field items 2 node_id_buf_size ;;
    timestamp_us <-? uint_field cbor_get_uint64 items 3 ;;
    Ret (Some (topic, sender, timestamp_us)).

Definition seed_item (seed : Z * Z) : exec (option cbor_item) :=
  push_all (cbor_new_definite_array 2) [cbor_build_uint32 seed.1; cbor_build_uint16 seed.2].

(** [seeds] are the [num_seeds] pairs of the two arrays, which may be NULL
    when there are none. *)
Definition meridian_channel_bootstrap_reply_encode (topic_id responder_node_id : option (list Z))
    (responder_addr responder_port timestamp_us : Z) (seeds : list (Z * Z)) : exec (option cbor_item) :=
  match topic_id, responder_node_id with
  | Some topic, Some responder =>
      array <-? push_all (cbor_new_definite_array 7)
        [cbor_build_uint8 MERIDIAN_PACKET_TYPE_CHANNEL_BOOTSTRAP_REPLY; cbor_build_string topic;
         cbor_build_string responder; cbor_build_uint32 responder_addr;
         cbor_build_uint16 responder_port; cbor_build_uint64 timestamp_us] ;;
      seeds_item <-? push_each seed_item (cbor_new_definite_array (zlen seeds)) seeds ;;
      cbor_array_push array seeds_item
  | _, _ => Ret None
  end.

(** One seed: a definite array that starts with two integers. *)
Definition read_seed (i : cbor_item) : exec (option (Z * Z)) :=
  definite <- cbor_array_is_definite i ;;
  if negb definite then Ret None
  else
    size <- cbor_array_size i ;;
    if size <? 2 then Ret None
    else
      pair <- cbor_array_handle i ;;
      p0 <- elem_at pair 0 ;;
      p1 <- elem_at pair 1 ;;
      if negb (cbor_isa_uint p0) || negb (cbor_isa_uint p1) then Ret None
      else (addr <- cbor_get_uint32 p0 ;; port <- cbor_get_uint16 p1 ;; Ret (Some (addr, port))).

Fixpoint read_seeds (seeds : list cbor_item) : exec (option (list (Z * Z))) :=
  match seeds with
  | [] => Ret (Some [])
  | i :: seeds' => s <-? read_seed i ;; ss <-? read_seeds seeds' ;; Ret (Some (s :: ss))
  end.

Record bootstrap_reply := mkReply {
  br_topic : list Z;
  br_responder : list Z;
  br_addr : Z;
  br_port : Z;
  br_timestamp_us : Z;
  br_seeds : list (Z * Z)
}.

Definition meridian_channel_bootstrap_reply_decode (item : option cbor_item)
    (topic_buf_size node_id_buf_size max_seeds : Z) : exec (option bootstrap_reply) :=
  items <-? open_array item 7 ;;
  differs <- type_differs items 0 MERIDIAN_PACKET_TYPE_CHANNEL_BOOTSTRAP_REPLY ;;
  if (differs : bool) then Ret None
  else
    topic <-? string_field items 1 topic_buf_size ;;
    responder <-? string_field items 2 node_id_buf_size ;;
    addr <-? uint_field cbor_get_uint32 items 3 ;;
    port <-? uint_field cbor_get_uint16 items 4 ;;
    timestamp_us <-? uint_field cbor_get_uint64 items 5 ;;
    i <- elem_at items 6 ;;
    seeds <-? (if cbor_isa_array i
               then (es <- cbor_array_handle i ;; read_seeds (take (Z.to_nat max_seeds) es))
               else Ret (Some [])) ;;
    Ret (Some {| br_topic := topic; br_responder := responder; br_addr := addr; br_port := port;
                 br_timestamp_us := timestamp_us; br_seeds := seeds |}).

(** ** Channel configuration *)

Record poseidon_channel_config_t := mkConfig {
  ring_sizes : list Z;
  gossip_init_interval_s : Z;
  gossip_steady_interval_s : Z;
  gossip_num_init_intervals : Z;
  quasar_max_hops : Z;
  quasar_alpha : Z;
  quasar_seen_size : Z;
  quasar_seen_hashes : Z
}.

Definition poseidon_channel_config_defaults : poseidon_channel_config_t :=
  {| ring_sizes := replicate POSEIDON_CHANNEL_MAX_RINGS 8;
     gossip_init_interval_s := 5;
     gossip_steady_interval_s := 30;
     gossip_num_init_intervals := 6;
     quasar_max_hops := 5;
     quasar_alpha := 3;
     quasar_seen_size := 1024;
     quasar_seen_hashes := 3 |}.

(** ** Notices *)

Record meridian_channel_delete_notice_t := mkDelete {
  dn_type : Z;
  dn_topic_id : list Z;
  dn_node_id : list Z;
  dn_key_type : list Z;
  dn_public_key : list Z;
  dn_public_key_len : Z;
  dn_timestamp_us : Z;
  dn_signature : list Z;
  dn_signature_len : Z
}.

(** The modify notice has the fields of a delete notice and a configuration. *)
Record meridian_channel_modify_notice_t := mkModify {
  mn_notice : meridian_channel_delete_notice_t;
  mn_config : poseidon_channel_config_t
}.

(** The four identity items both notices carry. *)
Definition identity_items (n : meridian_channel_delete_notice_t) : exec (list cbor_item) :=
  topic <- str_of (dn_topic_id n) ;;
  node <- str_of (dn_node_id n) ;;
  key_type <- str_of (dn_key_type n) ;;
  key <- bytes_of (dn_public_key n) (dn_public_key_len n) ;;
  Ret [cbor_build_string topic; cbor_build_string node; cbor_build_string key_type; cbor_build_bytestring key].

Definition meridian_channel_delete_notice_encode (notice : option meridian_channel_delete_notice_t)
  : exec (option cbor_item) :=
  match notice with
  | None => Ret None
  | Some n =>
      ids <- identity_items n ;;
      signature <- bytes_of (dn_signature n) (dn_signature_len n) ;;
      push_all (cbor_new_definite_array 7)
        (cbor_build_uint8 MERIDIAN_PACKET_TYPE_CHANNEL_DELETE_NOTICE :: ids ++
         [cbor_build_uint64 (dn_timestamp_us n); cbor_build_bytestring signature])
  end.

(** [snprintf(key, 4, "r%d", i)] for a ring number of one digit. *)
Definition ring_key (i : nat) : list Z := [114; 48 + Z.of_nat i].

(** [cbor_map_add] of the pairs in turn, giving up on the first failure. *)
Fixpoint map_add_all (m : cbor_item) (ps : list (list Z * Z)) : exec (option cbor_item) :=
  match ps with
  | [] => Ret (Some m)
  | (k, v) :: ps' =>
      m' <-? cbor_map_add m (cbor_build_string k) (cbor_build_uint32 v) ;; map_add_all m' ps'
  end.

Definition ring_size_at (c : poseidon_channel_config_t) (i : nat) : Z := default 0 (ring_sizes c !! i).

Definition config_pairs (c : poseidon_channel_config_t) : list (list Z * Z) :=
  map (fun i => (ring_key i, ring_size_at c i)) (seq 0 POSEIDON_CHANNEL_MAX_RINGS) ++
  [(lit "gis", gossip_init_interval_s c); (lit "gss", gossip_steady_interval_s c);
   (lit "gni", gossip_num_init_intervals c); (lit "qmh", quasar_max_hops c);
   (lit "qa", quasar_alpha c); (lit "qss", quasar_seen_size c); (lit "qsh", quasar_seen_hashes c)].

Definition config_map (c : poseidon_channel_config_t) : exec (option cbor_item) :=
  map_add_all (cbor_new_definite_map (8 + Z.of_nat POSEIDON_CHANNEL_MAX_RINGS)) (config_pairs c).

Definition meridian_channel_modify_notice_encode (notice : option meridian_channel_modify_notice_t)
  : exec (option cbor_item) :=
  match notice with
  | None => Ret None
  | Some m =>
      let n := mn_notice m in
      ids <- identity_items n ;;
      array <-? push_all (cbor_new_definite_array 8)
        (cbor_build_uint8 MERIDIAN_PACKET_TYPE_CHANNEL_MODIFY_NOTICE :: ids ++
         [cbor_build_uint64 (dn_timestamp_us n)]) ;;
      cfg <-? config_map (mn_config m) ;;
      signature <- bytes_of (dn_signature n) (dn_signature_len n) ;;
      push_all array [cfg; cbor_build_bytestring signature]
  end.

(** The bytes of a text or byte item that must be shorter than, or at most as
    long as, the array they are copied to. *)
Definition copy_string (i : cbor_item) (size : nat) : exec (option (list Z)) :=
  len <- cbor_string_length i ;;
  if Z.of_nat size <=? len then Ret None
  else (s <- cbor_string_handle i ;; Ret (Some (memcpy (zeros size) s))).

Definition copy_bytes (i : cbor_item) (max : Z) : exec (option (list Z * Z)) :=
  len <- cbor_bytestring_length i ;;
  if max <? len then Ret None
  else (b <- cbor_bytestring_handle i ;; Ret (Some (memcpy (zeros (Z.to_nat max)) b, len))).

(** The fields from the type to the time stamp, items 0 to 5. *)
Definition decode_identity (i0 i1 i2 i3 i4 i5 : cbor_item)
  : exec (option (Z * list Z * list Z * list Z * (list Z * Z) * Z)) :=
  type <- cbor_get_uint8 i0 ;;
  topic <-? copy_string i1 64 ;;
  node <-? copy_string i2 64 ;;
  key_type <-? copy_string i3 16 ;;
  key <-? copy_bytes i4 POSEIDON_CHANNEL_NOTICE_MAX_PUBLIC_KEY ;;
  timestamp_us <- cbor_get_uint64 i5 ;;
  Ret (Some (type, topic, node, key_type, key, timestamp_us)).

Definition meridian_channel_delete_notice_decode (item : option cbor_item)
  : exec (option meridian_channel_delete_notice_t) :=
  match item with
  | None => Ret None
  | Some item =>
      if negb (cbor_isa_array item) then Ret None
      else
        items <- cbor_array_handle item ;;
        match items with
        | [i0; i1; i2; i3; i4; i5; i6] =>
            if negb (cbor_isa_uint i0 && cbor_isa_string i1 && cbor_isa_string i2 && cbor_isa_string i3 &&
                     cbor_isa_bytestring i4 && cbor_isa_uint i5 && cbor_isa_bytestring i6)
            then Ret None
            else
              r <- decode_identity i0 i1 i2 i3 i4 i5 ;;
              match r with
              | None => Ret None
              | Some (type, topic, node, key_type, (key, key_len), timestamp_us) =>
                  s <- copy_bytes i6 POSEIDON_CHANNEL_NOTICE_MAX_SIGNATURE ;;
                  match s with
                  | None => Ret None
                  | Some (signature, signature_len) =>
                      Ret (Some {| dn_type := type; dn_topic_id := topic; dn_node_id := node;
                                   dn_key_type := key_type; dn_public_key := key;
                                   dn_public_key_len := key_len; dn_timestamp_us := timestamp_us;
                                   dn_signature := signature; dn_signature_len := signature_len |})
                  end
              end
        | _ => Ret None
        end
  end.

Definition cfg_with_ring (c : poseidon_channel_config_t) (i : nat) (v : Z) : poseidon_channel_config_t :=
  {| ring_sizes := <[i := v]> (ring_sizes c); gossip_init_interval_s := gossip_init_interval_s c;
     gossip_steady_interval_s := gossip_steady_interval_s c;
     gossip_num_init_intervals := gossip_num_init_intervals c; quasar_max_hops := quasar_max_hops c;
     quasar_alpha := quasar_alpha c; quasar_seen_size := quasar_seen_size c;
     quasar_seen_hashes := quasar_seen_hashes c |}.

(** Replaces one of the scalar fields, in the order of the structure. *)
Definition cfg_with (c : poseidon_channel_config_t) (gis gss gni qmh qa qss qsh : Z) : poseidon_channel_config_t :=
  {| ring_sizes := ring_sizes c; gossip_init_interval_s := gis; gossip_steady_interval_s := gss;
     gossip_num_init_intervals := gni; quasar_max_hops := qmh; quasar_alpha := qa;
     quasar_seen_size := qss; quasar_seen_hashes := qsh |}.

(** The chain of comparisons on the key; an unknown key changes nothing. *)
Definition apply_pair (c : poseidon_channel_config_t) (key : list Z) (val : Z) : poseidon_channel_config_t :=
  let '(mkConfig _ gis gss gni qmh qa qss qsh) := c in
  match key with
  | [k0; k1] =>
      if (k0 =? 114) && (48 <=? k1) && (k1 <=? 57) then
        (if k1 - 48 <? Z.of_nat POSEIDON_CHANNEL_MAX_RINGS then cfg_with_ring c (Z.to_nat (k1 - 48)) val else c)
      else if bool_decide (key = lit "qa") then cfg_with c gis gss gni qmh val qss qsh
      else c
  | [_; _; _] =>
      if bool_decide (key = lit "gis") then cfg_with c val gss gni qmh qa qss qsh
      else if bool_decide (key = lit "gss") then cfg_with c gis val gni qmh qa qss qsh
      else if bool_decide (key = lit "gni") then cfg_with c gis gss val qmh qa qss qsh
      else if bool_decide (key = lit "qmh") then cfg_with c gis gss gni val qa qss qsh
      else if bool_decide (key = lit "qss") then cfg_with c gis gss gni qmh qa val qsh
      else if bool_decide (key = lit "qsh") then cfg_with c gis gss gni qmh qa qss val
      else c
  | _ => c
  end.

(** Pairs of other types are skipped; an integer of another width than 32 bits
    is read as if it had 32. *)
Fixpoint apply_pairs (c : poseidon_channel_config_t) (ps : list (cbor_item * cbor_item))
  : exec poseidon_channel_config_t :=
  match ps with
  | [] => Ret c
  | (k, v) :: ps' =>
      if negb (cbor_isa_string k) || negb (cbor_isa_uint v) then apply_pairs c ps'
      else
        key <- cbor_string_handle k ;;
        val <- cbor_get_uint32 v ;;
        apply_pairs (apply_pair c key val) ps'
  end.

Definition meridian_channel_modify_notice_decode (item : option cbor_item)
  : exec (option meridian_channel_modify_notice_t) :=
  match item with
  | None => Ret None
  | Some item =>
      if negb (cbor_isa_array item) then Ret None
      else
        items <- cbor_array_handle item ;;
        match items with
        | [i0; i1; i2; i3; i4; i5; i6; i7] =>
            if negb (cbor_isa_uint i0 && cbor_isa_string i1 && cbor_isa_string i2 && cbor_isa_string i3 &&
                     cbor_isa_bytestring i4 && cbor_isa_uint i5 && cbor_isa_map i6 && cbor_isa_bytestring i7)
            then Ret None
            else
              r <- decode_identity i0 i1 i2 i3 i4 i5 ;;
              match r with
              | None => Ret None
              | Some (type, topic, node, key_type, (key, key_len), timestamp_us) =>
                  pairs <- cbor_map_handle i6 ;;
                  config <- apply_pairs poseidon_channel_config_defaults pairs ;;
                  s <- copy_bytes i7 POSEIDON_CHANNEL_NOTICE_MAX_SIGNATURE ;;
                  match s with
                  | None => Ret None
                  | Some (signature, signature_len) =>
                      Ret (Some {| mn_notice :=
                        {| dn_type := type; dn_topic_id := topic; dn_node_id := node;
                           dn_key_type := key_type; dn_public_key := key;
                           dn_public_key_len := key_len; dn_timestamp_us := timestamp_us;
                           dn_signature := signature; dn_signature_len := signature_len |};
                        mn_config := config |})
                  end
              end
        | _ => Ret None
        end
  end.

(** ** Well-formed notices *)

(** The structure holding the given strings, key and signature, unused bytes
    zero: what [calloc] and the copies produce. *)
Definition make_notice (type : Z) (topic node key_type key : list Z) (timestamp_us : Z) (signature : list Z)
  : meridian_channel_delete_notice_t :=
  {| dn_type := type; dn_topic_id := str_buf 64 topic; dn_node_id := str_buf 64 node;
     dn_key_type := str_buf 16 key_type; dn_public_key := str_buf 64 key; dn_public_key_len := zlen key;
     dn_timestamp_us := timestamp_us; dn_signature := str_buf 64 signature;
     dn_signature_len := zlen signature |}.

Record notice_parts (topic node key_type key : list Z) (timestamp_us : Z) (signature : list Z) : Prop := {
  np_topic : cstr_ok topic ∧ (length topic < 64)%nat;
  np_node : cstr_ok node ∧ (length node < 64)%nat;
  np_key_type : cstr_ok key_type ∧ (length key_type < 16)%nat;
  np_key : (length key <= 64)%nat;
  np_time : is_u64 timestamp_us;
  np_signature : (length signature <= 64)%nat
}.

Record config_wf (c : poseidon_channel_config_t) : Prop := {
  cfg_rings : length (ring_sizes c) = POSEIDON_CHANNEL_MAX_RINGS ∧ Forall is_u32 (ring_sizes c);
  cfg_fields : is_u32 (gossip_init_interval_s c) ∧ is_u32 (gossip_steady_interval_s c) ∧
    is_u32 (gossip_num_init_intervals c) ∧ is_u32 (quasar_max_hops c) ∧ is_u32 (quasar_alpha c) ∧
    is_u32 (quasar_seen_size c) ∧ is_u32 (quasar_seen_hashes c)
}.

(** ** Lemmas *)

Lemma identity_items_make type topic node kt key ts sig :
  notice_parts topic node kt key ts sig →
  identity_items (make_notice type topic node kt key ts sig) =
    Ret [cbor_build_string topic; cbor_build_string node; cbor_build_string kt; cbor_build_bytestring key].
Proof.
  intros [[? ?] [? ?] [? ?] ? ? ?]. unfold identity_items, make_notice.
  cbn [dn_topic_id dn_node_id dn_key_type dn_public_key dn_public_key_len].
  rewrite !str_of_buf, bytes_of_buf by done. done.
Qed.

Lemma copy_string_build s n :
  (length s < n)%nat → copy_string (cbor_build_string s) n = Ret (Some (str_buf n s)).
Proof.
  intros H. unfold copy_string. cbn [cbor_build_string cbor_string_length cbor_string_handle xbind].
  rewrite (proj2 (Z.leb_gt _ _)) by (unfold zlen; lia). by rewrite memcpy_zeros.
Qed.

Lemma copy_bytes_build s max :
  zlen s <= max → copy_bytes (cbor_build_bytestring s) max = Ret (Some (str_buf (Z.to_nat max) s, zlen s)).
Proof.
  intros H. unfold copy_bytes.
  cbn [cbor_build_bytestring cbor_bytestring_length cbor_bytestring_handle xbind].
  rewrite (proj2 (Z.ltb_ge _ _)) by lia. by rewrite memcpy_zeros.
Qed.

Lemma decode_identity_build type topic node kt key ts sig :
  notice_parts topic node kt key ts sig → is_u8 type →
  decode_identity (cbor_build_uint8 type) (cbor_build_string topic) (cbor_build_string node)
    (cbor_build_string kt) (cbor_build_bytestring key) (cbor_build_uint64 ts) =
  Ret (Some (type, str_buf 64 topic, str_buf 64 node, str_buf 16 kt, (str_buf 64 key, zlen key), ts)).
Proof.
  intros [[? ?] [? ?] [? ?] ? Hts ?] Hty. unfold decode_identity.
  change (cbor_get_uint8 (cbor_build_uint8 type)) with (@Ret Z (u8 type)).
  change (cbor_get_uint64 (cbor_build_uint64 ts)) with (@Ret Z (u64 ts)).
  rewrite bind_Ret_l, !copy_string_build by done. cbn [xbind].
  rewrite copy_bytes_build by (unfold zlen, POSEIDON_CHANNEL_NOTICE_MAX_PUBLIC_KEY; lia). cbn [xbind].
  by rewrite u8_id, u64_id by done.
Qed.

(** Adding pairs to a definite map with room for them. *)
Lemma map_add_all_ret n es ps :
  zlen es + zlen ps <= n →
  map_add_all (CMap true n es) ps =
    Ret (Some (CMap true n (es ++ map (fun p => (cbor_build_string p.1, cbor_build_uint32 p.2)) ps))).
Proof.
  revert es. induction ps as [|[k v] ps IH]; intros es H; cbn [map_add_all map]; [by rewrite app_nil_r|].
  unfold zlen in *. simpl length in H. cbn [cbor_map_add]. unfold zlen.
  rewrite (proj2 (Z.leb_gt _ _)) by lia. cbn [xbind].
  rewrite IH by (rewrite length_app; simpl; lia). by rewrite <- (assoc_L (++)).
Qed.

(** The received configuration is the folded effect of the pairs. *)
Lemma apply_pairs_build c ps :
  apply_pairs c (map (fun p => (cbor_build_string p.1, cbor_build_uint32 p.2)) ps) =
    Ret (foldl (fun c p => apply_pair c p.1 (u32 p.2)) c ps).
Proof. revert c. induction ps as [|[k v] ps IH]; intros c; [done|]. cbn. apply IH. Qed.

Lemma apply_config_pairs c :
  config_wf c → foldl (fun c p => apply_pair c p.1 (u32 p.2)) poseidon_channel_config_defaults (config_pairs c) = c.
Proof.
  intros [[Hl Hr] (H1 & H2 & H3 & H4 & H5 & H6 & H7)]. destruct c as [rs g1 g2 g3 q1 q2 q3 q4].
  cbn [ring_sizes gossip_init_interval_s gossip_steady_interval_s gossip_num_init_intervals
       quasar_max_hops quasar_alpha quasar_seen_size quasar_seen_hashes] in *.
  do 10 (destruct rs as [|? rs]; [done|]). destruct rs; [|done].
  repeat (apply Forall_cons_1 in Hr as [? Hr]). cbn. by rewrite !u32_id by done.
Qed.

(** The head of an encoded delete notice announces its type. *)
Lemma delete_notice_head topic node kt key ts sig :
  notice_parts topic node kt key ts sig →
  let d := make_notice MERIDIAN_PACKET_TYPE_CHANNEL_DELETE_NOTICE topic node kt key ts sig in
  ∃ es, meridian_channel_delete_notice_encode (Some d) =
    Ret (Some (CArray true 7 (cbor_build_uint8 MERIDIAN_PACKET_TYPE_CHANNEL_DELETE_NOTICE :: es))).
Proof.
  intros Hp d. unfold meridian_channel_delete_notice_encode, d. rewrite identity_items_make by done.
  rewrite bind_Ret_l. cbn [dn_signature dn_signature_len dn_timestamp_us make_notice].
  rewrite bytes_of_buf, bind_Ret_l. unfold cbor_new_definite_array.
  rewrite push_all_definite by by vm_compute. by eexists.
Qed.

(** ** Properties *)

Lemma notice_roundtrip_aux topic node kt key ts sig c :
  notice_parts topic node kt key ts sig → config_wf c →
  let d := make_notice MERIDIAN_PACKET_TYPE_CHANNEL_DELETE_NOTICE topic node kt key ts sig in
  let m := mkModify (make_notice MERIDIAN_PACKET_TYPE_CHANNEL_MODIFY_NOTICE topic node kt key ts sig) c in
  (i <- meridian_channel_delete_notice_encode (Some d) ;; meridian_channel_delete_notice_decode i) = Ret (Some d) ∧
  (i <- meridian_channel_modify_notice_encode (Some m) ;; meridian_channel_modify_notice_decode i) = Ret (Some m).
Proof.
  intros Hp Hc d m. pose proof (np_signature _ _ _ _ _ _ Hp) as Hsig. split.
  - unfold meridian_channel_delete_notice_encode, d. rewrite identity_items_make by done.
    rewrite bind_Ret_l. cbn [dn_signature dn_signature_len dn_timestamp_us make_notice].
    rewrite bytes_of_buf, bind_Ret_l. unfold cbor_new_definite_array.
    rewrite push_all_definite by by vm_compute. rewrite bind_Ret_l.
    cbn [meridian_channel_delete_notice_decode cbor_isa_array cbor_array_handle xbind negb app andb
         cbor_isa_uint cbor_isa_string cbor_isa_bytestring].
    cbn [cbor_build_uint8 cbor_build_string cbor_build_bytestring cbor_build_uint64 andb negb].
    rewrite (decode_identity_build _ _ _ _ _ _ _ Hp) by by vm_compute. cbn [xbind].
    rewrite copy_bytes_build by (unfold zlen, POSEIDON_CHANNEL_NOTICE_MAX_SIGNATURE; lia). done.
  - unfold meridian_channel_modify_notice_encode, m. cbn [mn_notice mn_config].
    rewrite identity_items_make by done. rewrite bind_Ret_l. unfold cbor_new_definite_array.
    rewrite push_all_definite by by vm_compute. rewrite bind_Ret_l.
    unfold config_map, cbor_new_definite_map. rewrite map_add_all_ret by by vm_compute. rewrite bind_Ret_l.
    cbn [dn_signature dn_signature_len dn_timestamp_us make_notice]. rewrite bytes_of_buf, bind_Ret_l.
    rewrite push_all_definite by by vm_compute. rewrite bind_Ret_l.
    cbn [meridian_channel_modify_notice_decode cbor_isa_array cbor_array_handle xbind negb app andb].
    cbn [cbor_build_uint8 cbor_build_string cbor_build_bytestring cbor_build_uint64 andb negb
         cbor_isa_uint cbor_isa_string cbor_isa_bytestring cbor_isa_map cbor_map_handle].
    rewrite (decode_identity_build _ _ _ _ _ _ _ Hp) by by vm_compute. cbn [xbind].
    rewrite apply_pairs_build, apply_config_pairs by done. cbn [xbind].
    rewrite copy_bytes_build by (unfold zlen, POSEIDON_CHANNEL_NOTICE_MAX_SIGNATURE; lia). done.
Qed.

(** Signed notices survive the wire: decoding what the encoders produced
    gives back the notice, byte for byte, and for a modify notice the exact
    configuration (the receiver starts from the defaults and overwrites every
    field). *)
Theorem notice_roundtrip topic node kt key ts sig c :
  notice_parts topic node kt key ts sig → config_wf c →
  let d := make_notice MERIDIAN_PACKET_TYPE_CHANNEL_DELETE_NOTICE topic node kt key ts sig in
  let m := mkModify (make_notice MERIDIAN_PACKET_TYPE_CHANNEL_MODIFY_NOTICE topic node kt key ts sig) c in
  (i <- meridian_channel_delete_notice_encode (Some d) ;; meridian_channel_delete_notice_decode i) = Ret (Some d) ∧
  (i <- meridian_channel_modify_notice_encode (Some m) ;; meridian_channel_modify_notice_decode i) = Ret (Some m).
Proof. apply notice_roundtrip_aux. Qed.

Lemma demo_parts : notice_parts (lit "topic") (lit "owner") (lit "ED25519") [1; 2; 3] 42 [9; 9].
Proof. constructor; [split..| | |]; try (vm_compute; repeat constructor; congruence); vm_compute; lia. Qed.

Lemma demo_config_wf : config_wf poseidon_channel_config_defaults.
Proof.
  constructor; [split; [done|apply Forall_replicate; unfold is_u32; lia]|].
  cbn. unfold is_u32. split_and!; lia.
Qed.

Lemma notice_roundtrip_witness :
  let d := make_notice MERIDIAN_PACKET_TYPE_CHANNEL_DELETE_NOTICE
    (lit "topic") (lit "owner") (lit "ED25519") [1; 2; 3] 42 [9; 9] in
  (i <- meridian_channel_delete_notice_encode (Some d) ;; meridian_channel_delete_notice_decode i) = Ret (Some d).
Proof.
  apply (notice_roundtrip (lit "topic") (lit "owner") (lit "ED25519") [1; 2; 3] 42 [9; 9]
    poseidon_channel_config_defaults); [exact demo_parts|exact demo_config_wf].
Defined.

Lemma string_field_build items k size s :
  items !! Z.to_nat k = Some (cbor_build_string s) → zlen s < size → string_field items k size = Ret (Some s).
Proof.
  intros E H. unfold string_field, elem_at. rewrite E. cbn [xbind].
  cbn [cbor_build_string cbor_isa_string negb cbor_string_length cbor_string_handle xbind].
  by rewrite (proj2 (Z.leb_gt _ _)) by lia.
Qed.

(** The integer fields of a list whose elements are known. *)
Lemma uint_field_build items k v :
  (items !! Z.to_nat k = Some (cbor_build_uint16 v) → uint_field cbor_get_uint16 items k = Ret (Some (u16 v))) ∧
  (items !! Z.to_nat k = Some (cbor_build_uint32 v) → uint_field cbor_get_uint32 items k = Ret (Some (u32 v))) ∧
  (items !! Z.to_nat k = Some (cbor_build_uint64 v) → uint_field cbor_get_uint64 items k = Ret (Some (u64 v))).
Proof. unfold uint_field, elem_at. split_and!; intros ->; reflexivity. Qed.

Lemma type_differs_build items k t :
  items !! Z.to_nat k = Some (cbor_build_uint8 t) → is_u8 t → type_differs items k t = Ret false.
Proof.
  intros E Ht. unfold type_differs, elem_at. rewrite E.
  transitivity (Ret (negb (u8 t =? t))); [reflexivity|]. by rewrite u8_id, Z.eqb_refl.
Qed.

Lemma read_seeds_built n pre seeds :
  Forall (fun s => is_u32 s.1 ∧ is_u16 s.2) seeds → zlen pre + zlen seeds <= n →
  ∃ es, push_each seed_item (CArray true n pre) seeds = Ret (Some (CArray true n (pre ++ es))) ∧
    zlen es = zlen seeds ∧ read_seeds es = Ret (Some seeds).
Proof.
  revert pre. induction seeds as [|[a p] seeds IH]; intros pre Hs Hn; cbn [push_each].
  - exists []. by rewrite app_nil_r.
  - apply Forall_cons_1 in Hs as [[Ha Hp] Hs]. cbn [fst snd] in *.
    unfold seed_item at 1, cbor_new_definite_array. rewrite push_all_definite by by vm_compute.
    rewrite bind_Ret_l. cbn [cbor_array_push]. unfold zlen in Hn. simpl length in Hn. fold (zlen pre) in Hn.
    rewrite (proj2 (Z.leb_gt _ _)) by lia. rewrite bind_Ret_l.
    set (t := CArray true 2 _). destruct (IH (pre ++ [t]) Hs) as (es & -> & Hl & Hr).
    { rewrite zlen_app. change (zlen [t]) with 1. unfold zlen in *. lia. }
    exists (t :: es). rewrite <- (assoc_L (++)). split; [reflexivity|].
    split; [unfold zlen in *; simpl length; lia|]. cbn [read_seeds].
    assert (read_seed t = Ret (Some (u32 a, u16 p))) as -> by reflexivity.
    rewrite bind_Ret_l, Hr, bind_Ret_l. by rewrite u32_id, u16_id by done.
Qed.

(** The reply item, whose head announces its type, and what the reader makes
    of it. *)
Lemma bootstrap_reply_wire topic node addr port ts seeds tb nb ms :
  zlen topic < tb → zlen node < nb → is_u32 addr → is_u16 port → is_u64 ts →
  Forall (fun s => is_u32 s.1 ∧ is_u16 s.2) seeds → zlen seeds <= ms →
  ∃ es, let i := CArray true 7 (cbor_build_uint8 MERIDIAN_PACKET_TYPE_CHANNEL_BOOTSTRAP_REPLY :: es) in
    meridian_channel_bootstrap_reply_encode (Some topic) (Some node) addr port ts seeds = Ret (Some i) ∧
    meridian_channel_bootstrap_reply_decode (Some i) tb nb ms = Ret (Some (mkReply topic node addr port ts seeds)).
Proof.
  intros Htb Hnb Ha Hp Hts Hs Hms.
  unfold meridian_channel_bootstrap_reply_encode. unfold cbor_new_definite_array at 1.
  rewrite push_all_definite by by vm_compute. rewrite bind_Ret_l, app_nil_l. unfold cbor_new_definite_array.
  destruct (read_seeds_built (zlen seeds) [] seeds Hs) as (es & -> & Hl & Hr); [done|].
  rewrite bind_Ret_l. cbn [cbor_array_push]. rewrite (proj2 (Z.leb_gt _ _)) by by vm_compute.
  rewrite app_nil_l. cbn [app]. eexists. split; [reflexivity|].
  unfold meridian_channel_bootstrap_reply_decode.
  rewrite open_array_definite by by vm_compute. rewrite bind_Ret_l.
  rewrite type_differs_build, bind_Ret_l by done.
  rewrite (string_field_build _ 1 tb topic), bind_Ret_l by done.
  rewrite (string_field_build _ 2 nb node), bind_Ret_l by done.
  rewrite (proj1 (proj2 (uint_field_build _ 3 addr))), bind_Ret_l by done.
  rewrite (proj1 (uint_field_build _ 4 port)), bind_Ret_l by done.
  rewrite (proj2 (proj2 (uint_field_build _ 5 ts))), bind_Ret_l by done.
  change (elem_at _ 6) with (Ret (CArray true (zlen seeds) es)). rewrite bind_Ret_l.
  cbn [cbor_isa_array cbor_array_handle]. rewrite bind_Ret_l.
  rewrite (take_ge es) by (unfold zlen in *; lia). rewrite Hr, bind_Ret_l.
  by rewrite u64_id, u32_id, u16_id by done.
Qed.

(** Bootstrap packets survive the wire: a request comes back with its
    topic, sender and time stamp, a reply with its responder, address, time
    stamp and (up to the receiver's limit) its seeds in order. *)
Theorem bootstrap_roundtrip topic node addr port ts seeds tb nb ms :
  cstr_ok topic → cstr_ok node → zlen topic < tb → zlen node < nb →
  is_u32 addr → is_u16 port → is_u64 ts → Forall (fun s => is_u32 s.1 ∧ is_u16 s.2) seeds →
  zlen seeds <= ms →
  (i <- meridian_channel_bootstrap_encode (Some topic) (Some node) ts ;;
   meridian_channel_bootstrap_decode i tb nb) = Ret (Some (topic, node, ts)) ∧
  (i <- meridian_channel_bootstrap_reply_encode (Some topic) (Some node) addr port ts seeds ;;
   meridian_channel_bootstrap_reply_decode i tb nb ms) =
     Ret (Some (mkReply topic node addr port ts seeds)).
Proof.
  intros Ht Hn Htb Hnb Ha Hp Hts Hs Hms. split.
  - unfold meridian_channel_bootstrap_encode, cbor_new_definite_array.
    rewrite push_all_definite by by vm_compute. rewrite bind_Ret_l, app_nil_l.
    unfold meridian_channel_bootstrap_decode. rewrite open_array_definite by by vm_compute.
    rewrite bind_Ret_l, type_differs_build, bind_Ret_l by done.
    rewrite (string_field_build _ 1 tb topic), bind_Ret_l by done.
    rewrite (string_field_build _ 2 nb node), bind_Ret_l by done.
    rewrite (proj2 (proj2 (uint_field_build _ 3 ts))), bind_Ret_l by done. by rewrite u64_id.
  - destruct (bootstrap_reply_wire topic node addr port ts seeds tb nb ms) as (es & E & D); try done.
    by rewrite E, bind_Ret_l, D.
Qed.

Lemma bootstrap_roundtrip_witness :
  (i <- meridian_channel_bootstrap_reply_encode (Some (lit "topic")) (Some (lit "node")) 0x7F000001 9000 77
      [(1, 2); (3, 4)] ;;
   meridian_channel_bootstrap_reply_decode i 64 64 16) =
  Ret (Some (mkReply (lit "topic") (lit "node") 0x7F000001 9000 77 [(1, 2); (3, 4)])).
Proof.
  apply (bootstrap_roundtrip (lit "topic") (lit "node") 0x7F000001 9000 77 [(1, 2); (3, 4)] 64 64 16).
  - repeat (constructor; [cbn; lia|]). constructor.
  - repeat (constructor; [cbn; lia|]). constructor.
  - vm_compute. reflexivity.
  - vm_compute. reflexivity.
  - unfold is_u32. lia.
  - unfold is_u16. lia.
  - unfold is_u64. lia.
  - repeat (constructor; [cbn; unfold is_u32, is_u16; lia|]). constructor.
  - vm_compute. discriminate.
Defined.
