(* ===== verification/Subtopic.v ===== *)
(** * Subtopic: hierarchical subtopics and the subscription table

    [src/Channel/subtopic.c].  Paths are C strings; a path stored in the table
    is cut at 511 bytes (the last byte of the slot is never written and stays
    NUL).  The table is its used slots, in order; locks are not modelled. *)

From stdpp Require Import gmap.
From S2P Require Import Prelude CString.

Definition SUBTOPIC_MAX_PARTS : nat := 8.
Definition SUBTOPIC_MAX_PART_LEN : Z := 64.
Definition SUBTOPIC_SEPARATOR : Z := 47.
Definition SUBTOPIC_TABLE_MAX_SUBS : Z := 64.
Definition SUBTOPIC_PATH_MAX : nat := 511.

(** ** Parsing *)

(** The scan of [subtopic_parse]: [seg] is the text from [start] to [p]; the
    result is the parts still to be stored, [None] for -1. *)
Fixpoint parse_loop (rest seg : list Z) (count max_parts : Z) : option (list (list Z)) :=
  match rest with
  | [] =>
      if (0 <? zlen seg) && (count <? max_parts)
      then (if SUBTOPIC_MAX_PART_LEN <=? zlen seg then None else Some [seg])
      else Some []
  | c :: rest' =>
      if max_parts <=? count then Some []
      else if c =? SUBTOPIC_SEPARATOR then
        if SUBTOPIC_MAX_PART_LEN <=? zlen seg then None
        else if 0 <? zlen seg
        then (ps ← parse_loop rest' [] (count + 1) max_parts; Some (seg :: ps))
        else parse_loop rest' [] count max_parts
      else parse_loop rest' (seg ++ [c]) count max_parts
  end.

Definition subtopic_parse (path : option (list Z)) (max_parts : Z) : option (list (list Z)) :=
  if max_parts <=? 0 then None
  else match path with
  | None => None
  | Some [] => Some []
  | Some p => parse_loop p [] 0 max_parts
  end.

(** ** Matching *)

(** [while (sub_len > 0 && subscription[sub_len - 1] == '/') sub_len--]. *)
Fixpoint strip_separators (l : list Z) : list Z :=
  match l with
  | [] => []
  | c :: l' =>
      match strip_separators l' with
      | [] => if c =? SUBTOPIC_SEPARATOR then [] else [c]
      | s => c :: s
      end
  end.

Definition subtopic_matches (message_subtopic subscription : option (list Z)) : bool :=
  match message_subtopic, subscription with
  | Some m, Some s =>
      match s with
      | [] => true
      | _ =>
          let sub := strip_separators s in
          if zlen m <? zlen sub then false
          else if negb (bool_decide (take (length sub) m = sub)) then false
          else if zlen m =? zlen sub then true
          else bool_decide (m !! length sub = Some SUBTOPIC_SEPARATOR)
      end
  | _, _ => false
  end.

(** ** The table *)

Record subtopic_entry_t := mkEntry { st_path : list Z; st_ttl : Z }.

#[export] Instance subtopic_entry_eq_dec : EqDecision subtopic_entry_t.
Proof. solve_decision. Defined.

Definition subtopic_table_t : Type := list subtopic_entry_t.

Definition subtopic_table_create : subtopic_table_t := [].

Definition path_is (path : list Z) (e : subtopic_entry_t) : bool := str_eq (st_path e) path.

Definition subtopic_table_subscribe (table : option subtopic_table_t) (path : option (list Z)) (ttl : Z)
  : Z * option subtopic_table_t :=
  match table, path with
  | Some t, Some p =>
      match find_index (path_is p) t with
      | Some i => (0, Some (alter (fun e => {| st_path := st_path e; st_ttl := ttl |}) i t))
      | None =>
          if SUBTOPIC_TABLE_MAX_SUBS <=? zlen t then (-1, table)
          else (0, Some (t ++ [{| st_path := take SUBTOPIC_PATH_MAX p; st_ttl := ttl |}]))
      end
  | _, _ => (-1, table)
  end.

Definition subtopic_table_unsubscribe (table : option subtopic_table_t) (path : option (list Z))
  : Z * option subtopic_table_t :=
  match table, path with
  | Some t, Some p =>
      match find_index (path_is p) t with
      | Some i => (0, Some (swap_remove i t))
      | None => (-1, table)
      end
  | _, _ => (-1, table)
  end.

Definition subtopic_table_is_subscribed (table : option subtopic_table_t) (path : option (list Z)) : bool :=
  match table, path with
  | Some t, Some p => existsb (path_is p) t
  | _, _ => false
  end.

Definition subtopic_table_should_deliver (table : option subtopic_table_t) (message_subtopic : option (list Z))
  : bool :=
  match table, message_subtopic with
  | Some t, Some m => existsb (fun e => subtopic_matches (Some m) (Some (st_path e))) t
  | _, _ => false
  end.

(** An entry whose time to live is already zero is dropped by the next tick. *)
Definition tick_entry (e : subtopic_entry_t) : option subtopic_entry_t :=
  if 0 <? st_ttl e then
    (if 0 <? st_ttl e - 1 then Some {| st_path := st_path e; st_ttl := st_ttl e - 1 |} else None)
  else None.

Definition subtopic_table_tick (table : option subtopic_table_t) : option subtopic_table_t :=
  match table with None => None | Some t => Some (omap (M := list) tick_entry t) end.

(** ** Parsing is splitting *)

(** The reference: split at the separators, drop the empty pieces. *)
Fixpoint split_on (l seg : list Z) : list (list Z) :=
  match l with
  | [] => [seg]
  | c :: l' => if c =? SUBTOPIC_SEPARATOR then seg :: split_on l' [] else split_on l' (seg ++ [c])
  end.

Definition non_empty (s : list Z) : bool := 0 <? zlen s.

Definition segments (l : list Z) : list (list Z) := List.filter non_empty (split_on l []).

Definition parts_fit (ps : list (list Z)) : bool := forallb (fun s => zlen s <? SUBTOPIC_MAX_PART_LEN) ps.

(** The first [k] parts, refused when one of them is too long. *)
Definition bounded (k : nat) (ps : list (list Z)) : option (list (list Z)) :=
  if parts_fit (take k ps) then Some (take k ps) else None.

Lemma bounded_cons k s ps :
  bounded (S k) (s :: ps) =
  if SUBTOPIC_MAX_PART_LEN <=? zlen s then None else (ps' ← bounded k ps; Some (s :: ps')).
Proof.
  unfold bounded. simpl. rewrite Z.ltb_antisym. destruct (_ <=? _); simpl; [done|].
  by destruct (parts_fit (take k ps)).
Qed.

Lemma parse_loop_spec rest seg count max_parts :
  0 <= count →
  parse_loop rest seg count max_parts =
    bounded (Z.to_nat (max_parts - count)) (List.filter non_empty (split_on rest seg)).
Proof.
  revert seg count. induction rest as [|c rest IH]; intros seg count Hc; cbn [parse_loop split_on List.filter].
  - unfold non_empty. destruct (Z.ltb_spec 0 (zlen seg)); cbn [andb]; [|unfold bounded; by rewrite take_nil].
    destruct (Z.ltb_spec count max_parts).
    + replace (Z.to_nat (max_parts - count)) with (S (Z.to_nat (max_parts - count - 1))) by lia.
      rewrite bounded_cons. destruct (_ <=? _); [done|]. unfold bounded. by rewrite take_nil.
    + by replace (Z.to_nat (max_parts - count)) with O by lia.
  - destruct (Z.leb_spec max_parts count).
    { by replace (Z.to_nat (max_parts - count)) with O by lia. }
    destruct (c =? SUBTOPIC_SEPARATOR); [|by apply IH]. cbn [List.filter]. unfold non_empty at 1.
    destruct (Z.ltb_spec 0 (zlen seg)).
    + replace (Z.to_nat (max_parts - count)) with (S (Z.to_nat (max_parts - (count + 1)))) by lia.
      rewrite bounded_cons. destruct (_ <=? _); [done|]. by rewrite IH by lia.
    + rewrite (proj2 (Z.leb_gt _ _)) by (unfold SUBTOPIC_MAX_PART_LEN; lia). by apply IH.
Qed.

(** ** Matching is a prefix test on segments *)

(** What may follow a matched prefix: the end, or a separator. *)
Definition boundary (rest : list Z) : Prop := rest = [] ∨ head rest = Some SUBTOPIC_SEPARATOR.

Lemma subtopic_matches_spec m s :
  s ≠ [] →
  subtopic_matches (Some m) (Some s) = true ↔ ∃ rest, m = strip_separators s ++ rest ∧ boundary rest.
Proof.
  intros Hs. unfold subtopic_matches. destruct s as [|c s]; [done|]. set (sub := strip_separators (c :: s)).
  split.
  - destruct (Z.ltb_spec (zlen m) (zlen sub)); [done|]. case_bool_decide as Hp; [|done]. simpl.
    intros H2. exists (drop (length sub) m). split; [by rewrite <- Hp at 1; rewrite take_drop|].
    destruct (Z.eqb_spec (zlen m) (zlen sub)) as [He|].
    + left. apply nil_length_inv. rewrite length_drop. unfold zlen in *. lia.
    + right. apply bool_decide_eq_true in H2. rewrite head_lookup, lookup_drop, Nat.add_0_r. done.
  - intros (rest & -> & Hb). rewrite zlen_app. pose proof (zlen_nonneg rest).
    rewrite (proj2 (Z.ltb_ge _ _)) by lia. rewrite take_app_length, bool_decide_true by done. simpl.
    destruct Hb as [->|Hb]; [rewrite (proj2 (Z.eqb_eq _ _)); [done|change (zlen (@nil Z)) with 0; lia]|].
    destruct (_ =? _); [done|]. apply bool_decide_eq_true. rewrite lookup_app_r, Nat.sub_diag by done.
    by rewrite <- head_lookup.
Qed.

(** The pieces between separators, empty ones included. *)
Definition pieces (l : list Z) : list (list Z) := split_on l [].

(** Pieces joined by single separators. *)
Fixpoint join (ss : list (list Z)) : list Z :=
  match ss with
  | [] => []
  | s :: ss' => s ++ match ss' with [] => [] | _ => SUBTOPIC_SEPARATOR :: join ss' end
  end.

Definition join_tail (ss : list (list Z)) : list Z :=
  match ss with [] => [] | _ => SUBTOPIC_SEPARATOR :: join ss end.

Lemma join_cons s ss : join (s :: ss) = s ++ join_tail ss.
Proof. done. Qed.

Lemma join_tail_boundary ss : boundary (join_tail ss).
Proof. destruct ss; [by left|by right]. Qed.

Lemma join_app ss ts : ss ≠ [] → join (ss ++ ts) = join ss ++ join_tail ts.
Proof.
  induction ss as [|s ss IH]; intros H; [done|]. cbn [app]. rewrite !join_cons, <- (assoc_L (++)).
  f_equal. destruct ss as [|s2 ss]; [by destruct ts|]. cbn [join_tail app] in *. f_equal. by apply IH.
Qed.

Lemma split_on_nonempty l seg : split_on l seg ≠ [].
Proof. revert seg. induction l as [|c l IH]; intros seg; cbn; [done|]. by destruct (c =? _). Qed.

Lemma join_split l seg : join (split_on l seg) = seg ++ l.
Proof.
  revert seg. induction l as [|c l IH]; intros seg; cbn [split_on]; [done|].
  destruct (Z.eqb_spec c SUBTOPIC_SEPARATOR) as [->|].
  - rewrite join_cons. f_equal. specialize (IH []). pose proof (split_on_nonempty l []). destruct (split_on l []); [done|].
    cbn [join_tail]. by rewrite IH.
  - rewrite IH. by rewrite <- (assoc_L (++)).
Qed.

Lemma split_on_app a b seg : split_on (a ++ SUBTOPIC_SEPARATOR :: b) seg = split_on a seg ++ split_on b [].
Proof.
  revert seg. induction a as [|c a IH]; intros seg; cbn [app split_on]; [by rewrite Z.eqb_refl|].
  destruct (c =? SUBTOPIC_SEPARATOR); [|done]. cbn [app]. by rewrite IH.
Qed.

(** Text and what follows it at a boundary: the pieces of one are the first pieces
    of the other. *)
Lemma pieces_prefix a m : (∃ rest, m = a ++ rest ∧ boundary rest) ↔ pieces a `prefix_of` pieces m.
Proof.
  unfold pieces. split.
  - intros (rest & -> & [->|Hb]); [by rewrite app_nil_r|]. destruct rest as [|c b]; [done|]. injection Hb as ->.
    rewrite split_on_app. apply prefix_app_r, reflexivity.
  - intros [t E]. exists (join_tail t). split; [|apply join_tail_boundary].
    pose proof (join_split m []) as Hm. rewrite E, join_app, join_split in Hm by apply split_on_nonempty. done.
Qed.

Lemma strip_trailing l k : strip_separators (l ++ replicate k SUBTOPIC_SEPARATOR) = strip_separators l.
Proof.
  induction l as [|c l IH]; cbn [app strip_separators]; [|by rewrite IH].
  induction k as [|k IH]; [done|]. cbn [replicate strip_separators]. by rewrite IH.
Qed.

(** ** Properties *)

(** Parsing a path is splitting it at the separators and dropping the empty
    pieces: the first [max_parts] of them are returned, and the parse fails
    exactly when one of these does not fit a part buffer. *)
Theorem subtopic_parse_splits path max_parts :
  0 < max_parts →
  subtopic_parse (Some path) max_parts = bounded (Z.to_nat max_parts) (segments path).
Proof.
  intros Hm. unfold subtopic_parse. rewrite (proj2 (Z.leb_gt _ _)) by done. destruct path as [|c path].
  - unfold bounded, segments. by destruct (Z.to_nat max_parts).
  - rewrite parse_loop_spec by done. by rewrite Z.sub_0_r.
Qed.

Lemma subtopic_parse_splits_witness :
  subtopic_parse (Some (lit "Feeds//friend-only/")) 8 = Some [lit "Feeds"; lit "friend-only"].
Proof.
  rewrite (subtopic_parse_splits (lit "Feeds//friend-only/") 8 ltac:(reflexivity)). vm_compute. reflexivity.
Defined.

(** C39. A subscription receives exactly the messages at or below its path, for
    all strings: the empty subscription receives everything; any other receives a
    message exactly if the pieces between its separators, once trailing separators
    are dropped, are the first pieces of the message ("Feeds" does not receive
    "Feedstock").  Empty pieces count: a double separator in the one must be matched
    by one in the other.  Further trailing separators never matter to a subscription
    that is not empty, but a subscription of separators only is not the empty one:
    it receives the messages that are empty or start with a separator. *)
Theorem subtopic_matches_hierarchy m s :
  subtopic_matches (Some m) (Some []) = true ∧
  (s ≠ [] → (subtopic_matches (Some m) (Some s) = true ↔ pieces (strip_separators s) `prefix_of` pieces m)) ∧
  (∀ k, s ≠ [] → subtopic_matches (Some m) (Some (s ++ replicate k SUBTOPIC_SEPARATOR)) = subtopic_matches (Some m) (Some s)) ∧
  (∀ k, (0 < k)%nat → (subtopic_matches (Some m) (Some (replicate k SUBTOPIC_SEPARATOR)) = true ↔ boundary m)).
Proof.
  split; [done|]. split; [|split].
  - intros Hs. rewrite subtopic_matches_spec by done. apply pieces_prefix.
  - intros k Hs. unfold subtopic_matches. rewrite strip_trailing. by destruct s.
  - intros k Hk. rewrite subtopic_matches_spec by (by destruct k; [lia|]). change (replicate k SUBTOPIC_SEPARATOR) with ([] ++ replicate k SUBTOPIC_SEPARATOR).
    rewrite strip_trailing. cbn [strip_separators app]. split; [by intros (rest & -> & Hb)|intros Hb; by exists m].
Qed.

Lemma subtopic_matches_hierarchy_witness :
  subtopic_matches (Some (lit "Feeds/friends")) (Some (lit "Feeds/")) = true ∧
  subtopic_matches (Some (lit "Feedstock")) (Some (lit "Feeds/")) = false ∧
  subtopic_matches (Some (lit "Feeds")) (Some (lit "/")) = false.
Proof.
  split_and!.
  - apply (subtopic_matches_hierarchy (lit "Feeds/friends") (lit "Feeds/")); [done|]. exists [lit "friends"]. vm_compute. reflexivity.
  - apply not_true_iff_false. intros H. apply (subtopic_matches_hierarchy (lit "Feedstock") (lit "Feeds/")) in H; [|done].
    destruct H as [t H]. vm_compute in H. discriminate H.
  - apply not_true_iff_false. intros H. destruct (subtopic_matches_hierarchy (lit "Feeds") []) as (_ & _ & _ & Hk).
    apply (Hk 1%nat ltac:(lia)) in H. destruct H as [H|H]; discriminate H.
Defined.

(** ** The table is a finite map

    What the table promises to the channel: a map from paths to times to
    live, of bounded size. *)

Definition entry_pair (e : subtopic_entry_t) : list Z * Z := (st_path e, st_ttl e).

Definition table_paths (t : subtopic_table_t) : list (list Z) := map st_path t.

Record table_rep (t : subtopic_table_t) (m : gmap (list Z) Z) : Prop := {
  tr_nodup : NoDup (table_paths t);
  tr_size : zlen t <= SUBTOPIC_TABLE_MAX_SUBS;
  tr_map : ∀ p v, m !! p = Some v ↔ mkEntry p v ∈ t
}.

(** One tick on the map. *)
Definition tick_ttl (v : Z) : option Z := if 1 <? v then Some (v - 1) else None.

Lemma elem_of_path t p v : mkEntry p v ∈ t → p ∈ table_paths t.
Proof. intros H. apply list_elem_of_fmap. by exists (mkEntry p v). Qed.

Lemma path_ttl_unique t p v w : NoDup (table_paths t) → mkEntry p v ∈ t → mkEntry p w ∈ t → v = w.
Proof.
  induction t as [|e t IH]; intros Hn Hv Hw; [by apply not_elem_of_nil in Hv|].
  cbn in Hn. apply list.NoDup_cons in Hn as [He Hn].
  apply elem_of_cons in Hv as [Hv|Hv], Hw as [Hw|Hw]; [congruence| | |by apply IH]; exfalso; apply He.
  - rewrite <- Hv. by apply (elem_of_path t p w).
  - rewrite <- Hw. by apply (elem_of_path t p v).
Qed.

Lemma path_is_spec p e : path_is p e = true ↔ st_path e = p.
Proof. apply str_eq_true. Qed.

Lemma find_path_None t p : find_index (path_is p) t = None ↔ p ∉ table_paths t.
Proof.
  rewrite find_index_None, list.Forall_forall. split.
  - intros H Hp. apply list_elem_of_fmap in Hp as (e & -> & He). specialize (H e He).
    unfold path_is in H. by rewrite str_eq_refl in H.
  - intros H e He. apply str_eq_false. intros <-. apply H, list_elem_of_fmap. by exists e.
Qed.

Lemma rep_dom t m p : table_rep t m → p ∈ dom m ↔ p ∈ table_paths t.
Proof.
  intros [_ _ Hm]. rewrite elem_of_dom. split.
  - intros [v Hv]. apply Hm in Hv. by eapply elem_of_path.
  - intros H. apply list_elem_of_fmap in H as ([q v] & -> & H). exists v. by apply Hm.
Qed.

Lemma rep_size t m : table_rep t m → Z.of_nat (size m) = zlen t.
Proof.
  intros [Hn _ Hm]. unfold zlen. f_equal.
  assert (m = list_to_map (entry_pair <$> t)) as ->.
  { apply map_eq. intros p. apply option_eq. intros v. rewrite Hm.
    rewrite <- elem_of_list_to_map.
    - rewrite list_elem_of_fmap. split; [intros H; by exists (mkEntry p v)|].
      intros ([q w] & [= -> ->] & H). done.
    - rewrite <- list_fmap_compose. exact Hn. }
  rewrite map_size_list_to_map.
  - by rewrite length_fmap.
  - rewrite <- list_fmap_compose. exact Hn.
Qed.

(** The order of the slots does not matter. *)
#[export] Instance table_rep_proper : Proper ((≡ₚ) ==> eq ==> iff) table_rep.
Proof.
  assert (H : ∀ t t' m, t ≡ₚ t' → table_rep t m → table_rep t' m).
  { intros t t' m Hp [Hn Hs Hm]. constructor.
    - unfold table_paths in *. by rewrite <- Hp.
    - unfold zlen in *. by rewrite <- Hp.
    - intros p v. by rewrite Hm, Hp. }
  intros t t' Hp m ? <-. split; apply H; [done|by symmetry].
Qed.

Lemma rep_cons_inv e t m :
  table_rep (e :: t) m → m !! st_path e = Some (st_ttl e) ∧ table_rep t (delete (st_path e) m).
Proof.
  intros [Hn Hs Hm]. cbn in Hn. apply list.NoDup_cons in Hn as [He Hn]. split.
  - apply Hm. destruct e. by constructor.
  - constructor; [done|unfold zlen in *; simpl length in Hs; lia|]. intros p v.
    rewrite lookup_delete_Some, Hm, elem_of_cons. split.
    + intros [Hne [<-|H]]; done.
    + intros H. split; [|by right]. intros <-. by apply He, (elem_of_path t _ v).
Qed.

Lemma rep_cons p v t m :
  table_rep t m → p ∉ dom m → zlen t < SUBTOPIC_TABLE_MAX_SUBS → table_rep (mkEntry p v :: t) (<[p := v]> m).
Proof.
  intros Hr Hp Hl. pose proof Hr as [Hn Hs Hm]. rewrite (rep_dom t m p Hr) in Hp. constructor.
  - cbn. by apply list.NoDup_cons.
  - unfold zlen in *. simpl length. lia.
  - intros q w. rewrite lookup_insert_Some, Hm, elem_of_cons. split.
    + intros [[-> ->]|[_ H]]; [by left|by right].
    + intros [[= -> ->]|H]; [by left|]. right. split; [|done]. intros <-. by apply Hp, (elem_of_path t p w).
Qed.

(** The found slot, brought to the front. *)
Lemma find_path_Some t p i :
  find_index (path_is p) t = Some i →
  ∃ v r, t ≡ₚ mkEntry p v :: r ∧ swap_remove i t ≡ₚ r ∧
    ∀ ttl, alter (fun e => {| st_path := st_path e; st_ttl := ttl |}) i t ≡ₚ mkEntry p ttl :: r.
Proof.
  intros H. apply find_index_Some in H as ([q v] & Hi & Hp & _). apply path_is_spec in Hp as <-.
  exists v, (delete i t). pose proof (lookup_lt_Some _ _ _ Hi). split_and!.
  - by apply delete_Permutation.
  - by apply swap_remove_perm.
  - intros ttl. rewrite (alter_as_insert _ _ _ _ Hi). cbn [st_path].
    rewrite insert_take_drop, delete_take_drop by done. by rewrite Permutation_middle.
Qed.

Lemma subscribe_refines t m p ttl :
  table_rep t m → (length p <= SUBTOPIC_PATH_MAX)%nat →
  (p ∈ dom m ∨ Z.of_nat (size m) < SUBTOPIC_TABLE_MAX_SUBS →
     ∃ t', subtopic_table_subscribe (Some t) (Some p) ttl = (0, Some t') ∧ table_rep t' (<[p := ttl]> m)) ∧
  (p ∉ dom m → Z.of_nat (size m) = SUBTOPIC_TABLE_MAX_SUBS →
     subtopic_table_subscribe (Some t) (Some p) ttl = (-1, Some t)).
Proof.
  intros Hr Hp. pose proof (rep_size t m Hr) as Hsz. unfold subtopic_table_subscribe.
  destruct (find_index (path_is p) t) as [i|] eqn:Ei.
  - destruct (find_path_Some t p i Ei) as (v & r & Ht & _ & Ha). split.
    + intros _. eexists. split; [reflexivity|]. rewrite Ha. pose proof Hr as Hr'. rewrite Ht in Hr'.
      destruct (rep_cons_inv _ _ _ Hr') as [_ Hd]. cbn [st_path] in Hd.
      rewrite <- insert_delete_eq. apply rep_cons; [done|set_solver|].
      pose proof (tr_size _ _ Hr') as Hs. unfold zlen in *. simpl length in Hs. lia.
    + intros Hnd. exfalso. apply Hnd, (rep_dom t m p Hr). unfold table_paths. rewrite Ht. by constructor.
  - apply find_path_None in Ei. rewrite <- (rep_dom t m p Hr) in Ei. rewrite take_ge by done. split.
    + intros [?|Hlt]; [done|]. rewrite (proj2 (Z.leb_gt _ _)) by lia. eexists. split; [reflexivity|].
      rewrite <- (Permutation_cons_append t). apply rep_cons; [done|done|lia].
    + intros _ E. by rewrite (proj2 (Z.leb_le _ _)) by lia.
Qed.

Lemma unsubscribe_refines t m p :
  table_rep t m →
  (p ∈ dom m → ∃ t', subtopic_table_unsubscribe (Some t) (Some p) = (0, Some t') ∧ table_rep t' (delete p m)) ∧
  (p ∉ dom m → subtopic_table_unsubscribe (Some t) (Some p) = (-1, Some t)).
Proof.
  intros Hr. unfold subtopic_table_unsubscribe. destruct (find_index (path_is p) t) as [i|] eqn:Ei.
  - destruct (find_path_Some t p i Ei) as (v & r & Ht & Hs & _). split.
    + intros _. eexists. split; [reflexivity|]. rewrite Hs. rewrite Ht in Hr. by apply rep_cons_inv in Hr as [_ ?].
    + intros Hnd. exfalso. apply Hnd, (rep_dom t m p Hr). unfold table_paths. rewrite Ht. by constructor.
  - apply find_path_None in Ei. rewrite <- (rep_dom t m p Hr) in Ei. by split.
Qed.

Lemma tick_entry_spec e e' : tick_entry e = Some e' ↔ st_path e' = st_path e ∧ tick_ttl (st_ttl e) = Some (st_ttl e').
Proof.
  destruct e as [p v], e' as [p' v']. unfold tick_entry, tick_ttl. cbn [st_path st_ttl].
  destruct (Z.ltb_spec 0 v), (Z.ltb_spec 0 (v - 1)), (Z.ltb_spec 1 v); try lia;
    split; try (intros [= <- <-]; done); try (intros [-> [= <-]]; done); try done; by intros [_ ?].
Qed.

Lemma tick_refines t m :
  table_rep t m → ∃ t', subtopic_table_tick (Some t) = Some t' ∧ table_rep t' (omap tick_ttl m).
Proof.
  intros [Hn Hs Hm]. eexists. split; [reflexivity|]. constructor.
  - unfold table_paths in *. clear Hs Hm. induction t as [|e t IH]; [constructor|]. cbn in Hn.
    apply list.NoDup_cons in Hn as [He Hn]. cbn. destruct (tick_entry e) as [e'|] eqn:E; [|by apply IH].
    cbn. apply list.NoDup_cons. split; [|by apply IH]. apply tick_entry_spec in E as [-> _]. intros Hin. apply He.
    apply list_elem_of_fmap in Hin as (x & Ex & Hx). apply list_elem_of_omap in Hx as (y & Hy & Ey).
    apply tick_entry_spec in Ey as [Ey _]. apply list_elem_of_fmap. exists y. split; [congruence|done].
  - pose proof (omap_length tick_entry t). unfold zlen in *. lia.
  - intros p v. rewrite lookup_omap_Some, list_elem_of_omap. split.
    + intros (w & Hw & H). exists (mkEntry p w). split; [by apply Hm|]. by apply tick_entry_spec.
    + intros ([q w] & Hin & E). apply tick_entry_spec in E as [E1 E2]. cbn in E1, E2. subst q.
      exists w. split; [done|by apply Hm].
Qed.

(** The subscription table implements a finite map from paths to times to
    live with room for 64 entries: subscribing inserts or refreshes (and fails
    exactly when a new path does not fit), unsubscribing deletes, a tick ages
    every entry and drops those that expire, and a message is delivered when
    some subscribed path matches it. *)
Theorem subtopic_table_refines t m p ttl msg :
  table_rep t m → (length p <= SUBTOPIC_PATH_MAX)%nat →
  ((p ∈ dom m ∨ Z.of_nat (size m) < SUBTOPIC_TABLE_MAX_SUBS →
      ∃ t', subtopic_table_subscribe (Some t) (Some p) ttl = (0, Some t') ∧ table_rep t' (<[p := ttl]> m)) ∧
   (p ∉ dom m → Z.of_nat (size m) = SUBTOPIC_TABLE_MAX_SUBS →
      subtopic_table_subscribe (Some t) (Some p) ttl = (-1, Some t))) ∧
  ((p ∈ dom m → ∃ t', subtopic_table_unsubscribe (Some t) (Some p) = (0, Some t') ∧ table_rep t' (delete p m)) ∧
   (p ∉ dom m → subtopic_table_unsubscribe (Some t) (Some p) = (-1, Some t))) ∧
  (∃ t', subtopic_table_tick (Some t) = Some t' ∧ table_rep t' (omap tick_ttl m)) ∧
  (subtopic_table_is_subscribed (Some t) (Some p) = true ↔ p ∈ dom m) ∧
  (subtopic_table_should_deliver (Some t) (Some msg) = true ↔
     ∃ q, q ∈ dom m ∧ subtopic_matches (Some msg) (Some q) = true).
Proof.
  intros Hr Hp. split_and!.
  - by apply subscribe_refines.
  - by apply subscribe_refines.
  - by apply unsubscribe_refines.
  - by apply unsubscribe_refines.
  - by apply tick_refines.
  - rewrite (rep_dom t m p Hr). unfold subtopic_table_is_subscribed. rewrite existsb_exists. split.
    + intros (e & He & Hpe). apply path_is_spec in Hpe as <-. apply list_elem_of_In in He.
      apply list_elem_of_fmap. by exists e.
    + intros H. apply list_elem_of_fmap in H as (e & -> & He). exists e.
      split; [by apply list_elem_of_In|by apply path_is_spec].
  - unfold subtopic_table_should_deliver. rewrite existsb_exists. split.
    + intros (e & He & Hm). exists (st_path e). split; [|done]. apply (rep_dom t m _ Hr).
      apply list_elem_of_fmap. exists e. split; [done|by apply list_elem_of_In].
    + intros (q & Hq & Hm). apply (rep_dom t m _ Hr), list_elem_of_fmap in Hq as (e & -> & He).
      exists e. split; [by apply list_elem_of_In|done].
Qed.

Lemma empty_table_rep : table_rep subtopic_table_create ∅.
Proof.
  constructor; [constructor|by vm_compute|]. intros p v. rewrite lookup_empty.
  split; [done|]. intros H. by apply not_elem_of_nil in H.
Qed.

Lemma subtopic_table_refines_witness :
  ∃ t', subtopic_table_subscribe (Some subtopic_table_create) (Some (lit "Feeds")) 30 = (0, Some t') ∧
    table_rep t' (<[lit "Feeds" := 30]> ∅).
Proof.
  apply (subtopic_table_refines subtopic_table_create ∅ (lit "Feeds") 30 []);
    [exact empty_table_rep|vm_compute; lia|right; by vm_compute].
Defined.
