(* ===== verification/TopicAlias.v ===== *)
(** * TopicAlias: topic identifiers, aliases and path resolution

    [src/Channel/topic_alias.c] and [src/Channel/topic_id.c].  Aliases are
    kept in registration order and a name may be registered several times; a
    stored name or topic is cut at 63 bytes.  Locks are not modelled. *)

From S2P Require Import Prelude CString Base58 Node.

Definition TOPIC_ALIAS_MAX_NAME : nat := 64.
Definition TOPIC_ALIAS_MAX_TOPIC : nat := 64.
Definition TOPIC_ALIAS_MAX_CANDIDATES : nat := 8.

Record topic_alias_entry_t := mkAlias { al_name : list Z; al_topic : list Z }.

Record topic_alias_registry_t := mkRegistry {
  reg_entries : list topic_alias_entry_t;
  reg_capacity : Z
}.

Inductive topic_alias_resolve_result_t :=
| TOPIC_ALIAS_RESOLVE_OK
| TOPIC_ALIAS_RESOLVE_AMBIGUOUS
| TOPIC_ALIAS_RESOLVE_NOT_FOUND.

#[export] Instance resolve_result_eq_dec : EqDecision topic_alias_resolve_result_t.
Proof. solve_decision. Defined.

Record topic_alias_resolve_out_t := mkResolveOut {
  ro_status : topic_alias_resolve_result_t;
  ro_topic : list Z;
  ro_candidates : list (list Z);
  ro_num_candidates : Z
}.

Definition topic_alias_registry_create (capacity : Z) : topic_alias_registry_t :=
  {| reg_entries := []; reg_capacity := if capacity =? 0 then 16 else capacity |}.

Definition topic_alias_register (reg : option topic_alias_registry_t) (name topic : option (list Z))
  : Z * option topic_alias_registry_t :=
  match reg, name, topic with
  | Some r, Some n, Some t =>
      if reg_capacity r <=? zlen (reg_entries r) then (-1, reg)
      else
        (0, Some {| reg_entries := reg_entries r ++
                      [{| al_name := take (TOPIC_ALIAS_MAX_NAME - 1) n;
                          al_topic := take (TOPIC_ALIAS_MAX_TOPIC - 1) t |}];
                    reg_capacity := reg_capacity r |})
  | _, _, _ => (-1, reg)
  end.

Definition name_is (name : list Z) (e : topic_alias_entry_t) : bool := str_eq (al_name e) name.

Definition topic_alias_unregister (reg : option topic_alias_registry_t) (name : option (list Z))
  : Z * option topic_alias_registry_t :=
  match reg, name with
  | Some r, Some n =>
      match find_index (name_is n) (reg_entries r) with
      | Some i => (0, Some {| reg_entries := swap_remove i (reg_entries r); reg_capacity := reg_capacity r |})
      | None => (-1, reg)
      end
  | _, _ => (-1, reg)
  end.

Definition topic_alias_resolve (reg : option topic_alias_registry_t) (name : option (list Z))
  : option (list Z) :=
  match reg, name with
  | Some r, Some n => al_topic <$> List.find (name_is n) (reg_entries r)
  | _, _ => None
  end.

(** The scan that counts the matches, remembers the first topic and collects
    candidates while they fit. *)
Fixpoint resolve_loop (entries : list topic_alias_entry_t) (name : list Z) (match_count : Z)
    (topic : list Z) (candidates : list (list Z)) : Z * list Z * list (list Z) :=
  match entries with
  | [] => (match_count, topic, candidates)
  | e :: entries' =>
      if name_is name e then
        resolve_loop entries' name (match_count + 1)
          (if match_count =? 0 then take (TOPIC_ALIAS_MAX_TOPIC - 1) (al_topic e) else topic)
          (if match_count <? Z.of_nat TOPIC_ALIAS_MAX_CANDIDATES then candidates ++ [al_topic e] else candidates)
      else resolve_loop entries' name match_count topic candidates
  end.

Definition topic_alias_resolve_ex (reg : option topic_alias_registry_t) (name : option (list Z))
  : option topic_alias_resolve_out_t :=
  match reg, name with
  | Some r, Some n =>
      let '(match_count, topic, candidates) := resolve_loop (reg_entries r) n 0 [] [] in
      Some {| ro_status := if match_count =? 0 then TOPIC_ALIAS_RESOLVE_NOT_FOUND
                           else if match_count =? 1 then TOPIC_ALIAS_RESOLVE_OK
                           else TOPIC_ALIAS_RESOLVE_AMBIGUOUS;
              ro_topic := topic; ro_candidates := candidates; ro_num_candidates := match_count |}
  | _, _ => None
  end.

(** ** Topic identifiers *)

Definition POSEIDON_TOPIC_ID_STR_MAX : nat := 48.

Record poseidon_topic_id_t := mkTopicId {
  ti_bytes : list Z;
  ti_bit_depth : Z;
  ti_str : list Z
}.

Definition topic_id_zero : poseidon_topic_id_t :=
  {| ti_bytes := zeros 32; ti_bit_depth := 0; ti_str := zeros POSEIDON_TOPIC_ID_STR_MAX |}.

(** The last byte of a zeroed array stays NUL, so the explicit terminator of
    the sources changes nothing. *)
Definition copy_topic_str (s : list Z) : list Z :=
  strncpy (zeros POSEIDON_TOPIC_ID_STR_MAX) s (POSEIDON_TOPIC_ID_STR_MAX - 1).

Definition poseidon_topic_id_from_node_id (node_id : option poseidon_node_id_t) : option poseidon_topic_id_t :=
  match node_id with
  | None => None
  | Some i => Some {| ti_bytes := zeros 32; ti_bit_depth := 256; ti_str := copy_topic_str (c_str (nid_str i)) |}
  end.

(** The return code and the output structure, which is cleared first. *)
Definition poseidon_topic_id_from_string (str : list Z) : Z * poseidon_topic_id_t :=
  if (zlen str =? 0) || (Z.of_nat POSEIDON_TOPIC_ID_STR_MAX <=? zlen str) then (-1, topic_id_zero)
  else (0, {| ti_bytes := zeros 32; ti_bit_depth := if 32 <=? zlen str then 256 else 128;
              ti_str := copy_topic_str str |}).

(** [rands] are the sixteen results of [rand()]. *)
Definition poseidon_topic_id_generate (rands : list Z) : poseidon_topic_id_t :=
  let b := map (fun r => u8 (Z.land r 0xFF)) rands in
  let b := <[6%nat := Z.lor (Z.land (byte_at b 6) 0x0F) 0x40]> b in
  let b := <[8%nat := Z.lor (Z.land (byte_at b 8) 0x3F) 0x80]> b in
  {| ti_bytes := b ++ zeros 16; ti_bit_depth := 128;
     ti_str := str_buf POSEIDON_TOPIC_ID_STR_MAX (map (fun x => byte_at BASE58_ALPHABET (x mod 58)) b) |}.

(** ** Path resolution *)

Record poseidon_path_resolve_result_t := mkResolved {
  rs_topic_id : poseidon_topic_id_t;
  rs_subtopic : list Z;
  rs_found : bool;
  rs_ambiguous : bool
}.

(** The text before the first '/', and the text after it if there is one. *)
Fixpoint split_first (l : list Z) : list Z * option (list Z) :=
  match l with
  | [] => ([], None)
  | c :: l' => if c =? 47 then ([], Some l') else let '(a, b) := split_first l' in (c :: a, b)
  end.

(** The return code of [poseidon_topic_id_from_string] is ignored. *)
Definition poseidon_resolve_path (aliases : option topic_alias_registry_t) (path : list Z)
  : Z * poseidon_path_resolve_result_t :=
  let path_copy := take 511 path in
  let '(first_component, rest) := split_first path_copy in
  let subtopic := match rest with Some s => strncpy (zeros 256) s 255 | None => zeros 256 end in
  let result topic ambiguous :=
    (0, {| rs_topic_id := (poseidon_topic_id_from_string topic).2; rs_subtopic := subtopic;
           rs_found := true; rs_ambiguous := ambiguous |}) in
  match topic_alias_resolve_ex aliases (Some first_component) with
  | Some r =>
      match ro_status r with
      | TOPIC_ALIAS_RESOLVE_OK => result (ro_topic r) false
      | TOPIC_ALIAS_RESOLVE_AMBIGUOUS => result (default [] (head (ro_candidates r))) true
      | TOPIC_ALIAS_RESOLVE_NOT_FOUND => result first_component false
      end
  | None => result first_component false
  end.

(** ** Lemmas *)

(** The topics registered under a name, in order. *)
Definition topics_of (entries : list topic_alias_entry_t) (name : list Z) : list (list Z) :=
  al_topic <$> List.filter (name_is name) entries.

Definition registry_wf (r : topic_alias_registry_t) : Prop :=
  zlen (reg_entries r) <= reg_capacity r ∧
  Forall (fun e => (length (al_name e) < TOPIC_ALIAS_MAX_NAME)%nat ∧
                   (length (al_topic e) < TOPIC_ALIAS_MAX_TOPIC)%nat) (reg_entries r).

Lemma resolve_loop_spec entries name k topic cands :
  Forall (fun e => (length (al_topic e) < TOPIC_ALIAS_MAX_TOPIC)%nat) entries →
  0 <= k → zlen cands = Z.min k (Z.of_nat TOPIC_ALIAS_MAX_CANDIDATES) →
  let ts := topics_of entries name in
  resolve_loop entries name k topic cands =
    (k + zlen ts,
     if k =? 0 then default topic (head ts) else topic,
     take TOPIC_ALIAS_MAX_CANDIDATES (cands ++ ts)).
Proof.
  revert k topic cands. induction entries as [|e entries IH]; intros k topic cands Hw Hk Hc;
    cbn [resolve_loop].
  - change (topics_of [] name) with (@nil (list Z)). change (zlen (@nil (list Z))) with 0.
    rewrite app_nil_r, take_ge by (unfold zlen in Hc; lia). rewrite Z.add_0_r. by destruct (k =? 0).
  - apply Forall_cons_1 in Hw as [He Hw]. unfold topics_of. cbn [List.filter]. destruct (name_is name e) eqn:En.
    + rewrite IH; [|done|lia|].
      * cbn [fmap list_fmap]. fold (topics_of entries name). rewrite (proj2 (Z.eqb_neq (k + 1) 0)) by lia.
        f_equal; [f_equal|].
        -- unfold zlen. simpl length. lia.
        -- destruct (k =? 0); [|done]. cbn. apply take_ge. unfold TOPIC_ALIAS_MAX_TOPIC in He. lia.
        -- destruct (Z.ltb_spec k (Z.of_nat TOPIC_ALIAS_MAX_CANDIDATES)).
           ++ by rewrite <- (assoc_L (++)).
           ++ assert (length cands = TOPIC_ALIAS_MAX_CANDIDATES) as E by (unfold zlen in Hc; lia).
              by rewrite !take_app_length'.
      * destruct (Z.ltb_spec k (Z.of_nat TOPIC_ALIAS_MAX_CANDIDATES)); [rewrite zlen_app; change (zlen [_]) with 1|]; lia.
    + by rewrite IH.
Qed.

Lemma topics_of_perm l k name : l ≡ₚ k → topics_of l name ≡ₚ topics_of k name.
Proof. intros H. unfold topics_of. by rewrite (filter_perm _ _ _ H). Qed.

Lemma find_head entries name : al_topic <$> List.find (name_is name) entries = head (topics_of entries name).
Proof.
  unfold topics_of. induction entries as [|e entries IH]; [done|]. cbn [List.find List.filter].
  destruct (name_is name e); [done|apply IH].
Qed.

Lemma topics_of_app l k name : topics_of (l ++ k) name = topics_of l name ++ topics_of k name.
Proof. unfold topics_of. rewrite List.filter_app. apply fmap_app. Qed.

Lemma split_first_app comp sub : 47 ∉ comp → split_first (comp ++ 47 :: sub) = (comp, Some sub).
Proof.
  induction comp as [|c comp IH]; intros H; [done|]. apply not_elem_of_cons in H as [Hc H].
  cbn [app split_first]. rewrite (proj2 (Z.eqb_neq c 47)) by congruence. by rewrite IH.
Qed.

Lemma split_first_none comp : 47 ∉ comp → split_first comp = (comp, None).
Proof.
  induction comp as [|c comp IH]; intros H; [done|]. apply not_elem_of_cons in H as [Hc H].
  cbn [split_first]. rewrite (proj2 (Z.eqb_neq c 47)) by congruence. by rewrite IH.
Qed.

Lemma topic_from_string_ok s :
  cstr_ok s → 0 < zlen s < 48 →
  ∃ t, poseidon_topic_id_from_string s = (0, t) ∧ c_str (ti_str t) = s.
Proof.
  intros Hs Hl. unfold poseidon_topic_id_from_string.
  rewrite (proj2 (Z.eqb_neq _ _)) by lia. rewrite (proj2 (Z.leb_gt _ _)) by (unfold POSEIDON_TOPIC_ID_STR_MAX; lia).
  eexists. split; [reflexivity|]. cbn [ti_str]. unfold copy_topic_str.
  rewrite strncpy_zeros by (unfold zlen, POSEIDON_TOPIC_ID_STR_MAX in *; lia). by apply c_str_buf.
Qed.

Lemma topics_of_nil l name : Forall (fun e => name_is name e = false) l → topics_of l name = [].
Proof.
  induction 1 as [|e l He _ IH]; [done|]. unfold topics_of in *. cbn [List.filter]. by rewrite He.
Qed.

Lemma alias_resolve_ex_spec r n :
  registry_wf r → let ts := topics_of (reg_entries r) n in
  ∃ o, topic_alias_resolve_ex (Some r) (Some n) = Some o ∧
    ro_num_candidates o = zlen ts ∧ ro_candidates o = take TOPIC_ALIAS_MAX_CANDIDATES ts ∧
    ro_topic o = default [] (head ts) ∧
    (ro_status o = TOPIC_ALIAS_RESOLVE_NOT_FOUND ↔ ts = []) ∧
    (ro_status o = TOPIC_ALIAS_RESOLVE_OK ↔ zlen ts = 1).
Proof.
  intros [_ Hw] ts. unfold topic_alias_resolve_ex. rewrite resolve_loop_spec; [| |done|done].
  - fold ts. rewrite Z.add_0_l, app_nil_l. eexists. split; [reflexivity|].
    cbn [ro_num_candidates ro_candidates ro_topic ro_status]. split_and!; [done|done|done| |].
    + destruct ts as [|x ts']; [done|]. pose proof (zlen_nonneg ts'). rewrite zlen_cons.
      rewrite (proj2 (Z.eqb_neq _ 0)) by lia. by destruct (_ =? 1).
    + destruct (Z.eqb_spec (zlen ts) 0), (Z.eqb_spec (zlen ts) 1); split; intros Hx; solve [done|discriminate Hx|exfalso; lia].
  - eapply Forall_impl; [|exact Hw]. cbn. by intros ? [].
Qed.

Lemma alias_register_spec r n t :
  registry_wf r → (length n < TOPIC_ALIAS_MAX_NAME)%nat → (length t < TOPIC_ALIAS_MAX_TOPIC)%nat →
  zlen (reg_entries r) < reg_capacity r →
  ∃ r', topic_alias_register (Some r) (Some n) (Some t) = (0, Some r') ∧ registry_wf r' ∧
    topics_of (reg_entries r') n = topics_of (reg_entries r) n ++ [t] ∧
    ∀ m, m ≠ n → topics_of (reg_entries r') m = topics_of (reg_entries r) m.
Proof.
  intros [Hcap Hw] Hn Ht Hlt. unfold topic_alias_register. rewrite (proj2 (Z.leb_gt _ _)) by done.
  eexists. split; [reflexivity|]. rewrite !take_ge by lia. split_and!; cbn [reg_entries].
  - split; cbn [reg_entries reg_capacity]; [rewrite zlen_snoc; lia|].
    apply Forall_app_2; [done|]. constructor; [by split|constructor].
  - rewrite topics_of_app. f_equal. unfold topics_of, name_is. cbn. by rewrite str_eq_refl.
  - intros m Hm. rewrite topics_of_app. unfold topics_of at 2, name_is. cbn.
    rewrite (proj2 (str_eq_false n m)) by congruence. apply app_nil_r.
Qed.

Lemma alias_unregister_spec r n :
  topics_of (reg_entries r) n ≠ [] →
  ∃ r' t', topic_alias_unregister (Some r) (Some n) = (0, Some r') ∧
    t' :: topics_of (reg_entries r') n ≡ₚ topics_of (reg_entries r) n ∧
    ∀ m, m ≠ n → topics_of (reg_entries r') m ≡ₚ topics_of (reg_entries r) m.
Proof.
  intros Hne. unfold topic_alias_unregister. destruct (find_index _ _) as [i|] eqn:Ei.
  - apply find_index_Some in Ei as (e & Hi & He & _). apply swap_remove_elem in Hi.
    exists {| reg_entries := swap_remove i (reg_entries r); reg_capacity := reg_capacity r |}, (al_topic e).
    split; [done|]. cbn [reg_entries].
    split; [|intros m Hm]; rewrite (topics_of_perm _ _ _ Hi); unfold topics_of; cbn [List.filter].
    + by rewrite He.
    + apply str_eq_true in He. unfold name_is at 2. by rewrite (proj2 (str_eq_false _ m)) by congruence.
  - exfalso. by apply Hne, topics_of_nil, find_index_None.
Qed.

(** ** Properties *)

(** The registry is a bounded multimap from names to topics.  Looking a
    name up reports how many topics it has (none, one, or an ambiguity with
    the first eight as candidates) and the plain lookup returns the first;
    registering appends a topic to its name and to no other; unregistering
    removes the first topic of the name and leaves every other name its
    topics. *)
Theorem alias_registry_multimap r n t :
  registry_wf r → (length n < TOPIC_ALIAS_MAX_NAME)%nat → (length t < TOPIC_ALIAS_MAX_TOPIC)%nat →
  let ts := topics_of (reg_entries r) n in
  topic_alias_resolve (Some r) (Some n) = head ts ∧
  (∃ o, topic_alias_resolve_ex (Some r) (Some n) = Some o ∧
     ro_num_candidates o = zlen ts ∧ ro_candidates o = take TOPIC_ALIAS_MAX_CANDIDATES ts ∧
     ro_topic o = default [] (head ts) ∧
     (ro_status o = TOPIC_ALIAS_RESOLVE_NOT_FOUND ↔ ts = []) ∧
     (ro_status o = TOPIC_ALIAS_RESOLVE_OK ↔ zlen ts = 1)) ∧
  (zlen (reg_entries r) < reg_capacity r →
     ∃ r', topic_alias_register (Some r) (Some n) (Some t) = (0, Some r') ∧ registry_wf r' ∧
       topics_of (reg_entries r') n = ts ++ [t] ∧
       ∀ m, m ≠ n → topics_of (reg_entries r') m = topics_of (reg_entries r) m) ∧
  (ts ≠ [] →
     ∃ r' t', topic_alias_unregister (Some r) (Some n) = (0, Some r') ∧
       t' :: topics_of (reg_entries r') n ≡ₚ ts ∧
       ∀ m, m ≠ n → topics_of (reg_entries r') m ≡ₚ topics_of (reg_entries r) m).
Proof.
  intros Hw Hn Ht ts. split_and!.
  - apply find_head.
  - by apply alias_resolve_ex_spec.
  - by apply alias_register_spec.
  - by apply alias_unregister_spec.
Qed.

Definition demo_registry : topic_alias_registry_t :=
  {| reg_entries := [mkAlias (lit "news") (lit "T1"); mkAlias (lit "chat") (lit "T2"); mkAlias (lit "news") (lit "T3")];
     reg_capacity := 32 |}.

Lemma demo_registry_wf : registry_wf demo_registry.
Proof. split; [by vm_compute|]. repeat (constructor; [split; vm_compute; lia|]). constructor. Qed.

Lemma alias_registry_multimap_witness :
  ∃ o, topic_alias_resolve_ex (Some demo_registry) (Some (lit "news")) = Some o ∧ ro_num_candidates o = 2.
Proof.
  destruct (alias_registry_multimap demo_registry (lit "news") (lit "T4") demo_registry_wf)
    as (_ & (o & E & Hc & _) & _); [vm_compute; lia|vm_compute; lia|].
  exists o. split; [exact E|]. rewrite Hc. vm_compute. reflexivity.
Defined.

(** A path [component/subtopic] resolves to the topic the component stands
    for: the alias target when there is exactly one, the first candidate
    (flagged ambiguous) when there are several, the component itself when it
    is no alias; the subtopic is what follows the first separator. *)
Theorem resolve_path_spec r comp sub :
  registry_wf r → 47 ∉ comp → cstr_ok sub → zlen comp + zlen sub < 511 → zlen sub <= 255 →
  let ts := topics_of (reg_entries r) comp in
  let topic := default comp (head ts) in
  cstr_ok topic → 0 < zlen topic < 48 →
  ∃ o, poseidon_resolve_path (Some r) (comp ++ 47 :: sub) = (0, o) ∧
    c_str (ti_str (rs_topic_id o)) = topic ∧ c_str (rs_subtopic o) = sub ∧
    rs_found o = true ∧ (rs_ambiguous o = true ↔ 1 < zlen ts).
Proof.
  intros Hw Hc Hs Hlen Hsub ts topic Ht Htl. unfold poseidon_resolve_path.
  rewrite take_ge by (rewrite length_app; cbn [length]; unfold zlen in *; lia).
  rewrite split_first_app by done.
  destruct (alias_resolve_ex_spec r comp Hw) as (o & E & Hn & Hca & Hto & Hnf & Hok). fold ts in Hn, Hca, Hto, Hnf, Hok.
  destruct (topic_from_string_ok topic Ht Htl) as (ti & Eti & Hti).
  assert (Hss : c_str (strncpy (zeros 256) sub 255) = sub).
  { change 256%nat with (S 255). rewrite c_str_strncpy_zeros by done. apply take_ge. unfold zlen in Hsub. lia. }
  rewrite E. destruct (ro_status o) eqn:Est.
  - destruct Hok as [Hok _]. specialize (Hok eq_refl). eexists. split; [reflexivity|].
    cbn [rs_topic_id rs_subtopic rs_found rs_ambiguous]. assert (ro_topic o = topic) as ->.
    { rewrite Hto. unfold topic. destruct ts; [by vm_compute in Hok|done]. }
    rewrite Eti. split_and!; [done|done|done|]. split; [done|lia].
  - eexists. split; [reflexivity|]. cbn [rs_topic_id rs_subtopic rs_found rs_ambiguous].
    assert (Hne : ts ≠ []) by (intros H; by apply Hnf in H).
    assert (default [] (head (ro_candidates o)) = topic) as ->.
    { rewrite Hca. unfold topic. destruct ts; done. }
    rewrite Eti. split_and!; [done|done|done|]. split; [intros _|done].
    assert (zlen ts ≠ 1) by (intros H; by apply Hok in H). pose proof (zlen_nonneg ts).
    destruct ts; [done|]. rewrite zlen_cons in *. pose proof (zlen_nonneg ts). lia.
  - assert (ts = []) as Ets by by apply Hnf. eexists. split; [reflexivity|].
    cbn [rs_topic_id rs_subtopic rs_found rs_ambiguous]. unfold topic in *. rewrite Ets in *. cbn [head default] in *.
    cbn in Hti, Eti. rewrite Eti. split_and!; [done|done|done|]. split; [done|]. change (zlen (@nil (list Z))) with 0. lia.
Qed.

Lemma resolve_path_spec_witness :
  ∃ o, poseidon_resolve_path (Some demo_registry) (lit "chat" ++ 47 :: lit "room/1") = (0, o) ∧
    c_str (ti_str (rs_topic_id o)) = lit "T2" ∧ c_str (rs_subtopic o) = lit "room/1".
Proof.
  destruct (resolve_path_spec demo_registry (lit "chat") (lit "room/1") demo_registry_wf) as (o & E & H1 & H2 & _).
  - apply (bool_decide_eq_true_1 _). vm_compute. reflexivity.
  - repeat (constructor; [cbn; lia|]). constructor.
  - vm_compute. reflexivity.
  - vm_compute. discriminate.
  - repeat (constructor; [cbn; lia|]). constructor.
  - split; vm_compute; reflexivity.
  - exists o. split; [exact E|]. split; [rewrite H1; vm_compute; reflexivity|exact H2].
Defined.

(** A component that is neither an alias nor a possible topic identifier (empty,
    or 48 bytes and more) is still reported as found, with an empty topic. *)
Lemma resolve_path_reports_nothing_found :
  ∃ o, poseidon_resolve_path (Some demo_registry) (lit "/sub") = (0, o) ∧
    rs_found o = true ∧ c_str (ti_str (rs_topic_id o)) = [].
Proof. eexists. split; [vm_compute; reflexivity|]. split; vm_compute; reflexivity. Qed.
