(* ===== verification/Notice.v ===== *)
(** * Notice: signed delete and modify notices

    [src/Channel/channel_notice.c].  The signature scheme (OpenSSL, behind
    [poseidon_key_pair_sign] and [poseidon_verify_signature_with_key]), BLAKE3
    and the CBOR writer are arguments.  What the channel layer needs of the
    signature scheme is the interface [SignatureScheme]. *)

From S2P Require Import Prelude CString Cbor Endian Base58 Node NodeId Packet ChannelPacket.

(** A key pair has an algorithm name and a DER public key; it signs byte
    strings (or fails), and signatures are checked against algorithm and key. *)
Class SignatureScheme (K : Type) := {
  key_type : K → list Z;
  public_key : K → list Z;
  sign : K → list Z → option (list Z);
  verify : list Z → list Z → list Z → list Z → bool
}.

(** A signature verifies under the key that made it. *)
Class SignatureLaws (K : Type) `{!SignatureScheme K} : Prop := {
  sign_verifies : ∀ k m s, sign k m = Some s → verify (key_type k) (public_key k) m s = true
}.

(** ** The signed payload *)

Definition build_delete_signable (topic_id node_id key_type public_key : list Z) (timestamp_us : Z)
  : exec (option cbor_item) :=
  push_all (cbor_new_definite_array 6)
    [cbor_build_uint8 MERIDIAN_PACKET_TYPE_CHANNEL_DELETE_NOTICE; cbor_build_string topic_id;
     cbor_build_string node_id; cbor_build_string key_type; cbor_build_bytestring public_key;
     cbor_build_uint64 timestamp_us].

Definition build_modify_signable (topic_id node_id key_type public_key : list Z) (timestamp_us : Z)
    (config : poseidon_channel_config_t) : exec (option cbor_item) :=
  array <-? push_all (cbor_new_definite_array 7)
    [cbor_build_uint8 MERIDIAN_PACKET_TYPE_CHANNEL_MODIFY_NOTICE; cbor_build_string topic_id;
     cbor_build_string node_id; cbor_build_string key_type; cbor_build_bytestring public_key;
     cbor_build_uint64 timestamp_us] ;;
  cfg <-? config_map config ;;
  cbor_array_push array cfg.

Section notice.
Context `{SignatureScheme K} (blake3 : list Z → list Z) (cbor_serialize_alloc : cbor_item → list Z).

(** The bytes that are signed; [None] when there is no payload or nothing was
    written. *)
Definition signable_bytes (m : exec (option cbor_item)) : exec (option (list Z)) :=
  signable <-? m ;;
  let buf := cbor_serialize_alloc signable in
  Ret (if zlen buf =? 0 then None else Some buf).

(** The structure before it is signed: [calloc], then copies cut to the
    arrays; [None] when the key is too long. *)
Definition unsigned_notice (type : Z) (topic node kt key : list Z) (timestamp_us : Z)
  : option meridian_channel_delete_notice_t :=
  if POSEIDON_CHANNEL_NOTICE_MAX_PUBLIC_KEY <? zlen key then None
  else Some
    {| dn_type := type; dn_topic_id := strncpy (zeros 64) topic 63;
       dn_node_id := strncpy (zeros 64) node 63; dn_key_type := strncpy (zeros 16) kt 15;
       dn_public_key := memcpy (zeros 64) key; dn_public_key_len := zlen key;
       dn_timestamp_us := timestamp_us; dn_signature := zeros 64; dn_signature_len := 0 |}.

(** The signature is written into the 64-byte field before its length is
    looked at. *)
Definition with_signature (n : meridian_channel_delete_notice_t) (s : list Z)
  : exec meridian_channel_delete_notice_t :=
  if POSEIDON_CHANNEL_NOTICE_MAX_SIGNATURE <? zlen s then Trap
  else Ret {| dn_type := dn_type n; dn_topic_id := dn_topic_id n; dn_node_id := dn_node_id n;
              dn_key_type := dn_key_type n; dn_public_key := dn_public_key n;
              dn_public_key_len := dn_public_key_len n; dn_timestamp_us := dn_timestamp_us n;
              dn_signature := memcpy (dn_signature n) s; dn_signature_len := zlen s |}.

(** [topic] and [node] are the channel's identity string, [now] the time of
    day in microseconds. *)
Definition poseidon_channel_create_delete_notice (topic : list Z) (key_pair : option K) (now : Z)
  : exec (option meridian_channel_delete_notice_t) :=
  match key_pair with
  | None => Ret None
  | Some k =>
      match unsigned_notice MERIDIAN_PACKET_TYPE_CHANNEL_DELETE_NOTICE topic topic (key_type k) (public_key k) now with
      | None => Ret None
      | Some n =>
          buf <-? signable_bytes (build_delete_signable topic topic (key_type k) (public_key k) now) ;;
          match sign k buf with
          | None => Ret None
          | Some s => n' <- with_signature n s ;; Ret (Some n')
          end
      end
  end.

Definition poseidon_channel_create_modify_notice (topic : list Z) (key_pair : option K)
    (new_config : option poseidon_channel_config_t) (now : Z) : exec (option meridian_channel_modify_notice_t) :=
  match key_pair, new_config with
  | Some k, Some c =>
      match unsigned_notice MERIDIAN_PACKET_TYPE_CHANNEL_MODIFY_NOTICE topic topic (key_type k) (public_key k) now with
      | None => Ret None
      | Some n =>
          buf <-? signable_bytes (build_modify_signable topic topic (key_type k) (public_key k) now c) ;;
          match sign k buf with
          | None => Ret None
          | Some s => n' <- with_signature n s ;; Ret (Some (mkModify n' c))
          end
      end
  | _, _ => Ret None
  end.

(** The checks both verifications share: the key hashes to the node id, and
    the signature over the rebuilt payload verifies. *)
Definition verify_notice (n : meridian_channel_delete_notice_t)
    (payload : list Z → list Z → list Z → list Z → Z → exec (option cbor_item)) : exec Z :=
  node <- str_of (dn_node_id n) ;;
  r <- poseidon_node_id_from_string node poseidon_node_id_clear ;;
  match r with
  | None => Ret (-1)
  | Some expected_id =>
      key <- bytes_of (dn_public_key n) (dn_public_key_len n) ;;
      if negb (poseidon_node_id_verify_public_key blake3 expected_id key =? 0) then Ret (-1)
      else
        topic <- str_of (dn_topic_id n) ;;
        kt <- str_of (dn_key_type n) ;;
        b <- signable_bytes (payload topic node kt key (dn_timestamp_us n)) ;;
        match b with
        | None => Ret (-1)
        | Some buf =>
            signature <- bytes_of (dn_signature n) (dn_signature_len n) ;;
            Ret (if verify kt key buf signature then 0 else -1)
        end
  end.

Definition poseidon_channel_verify_delete_notice (notice : option meridian_channel_delete_notice_t) : exec Z :=
  match notice with
  | None => Ret (-1)
  | Some n => verify_notice n build_delete_signable
  end.

Definition poseidon_channel_verify_modify_notice (notice : option meridian_channel_modify_notice_t) : exec Z :=
  match notice with
  | None => Ret (-1)
  | Some m => verify_notice (mn_notice m)
      (fun topic node kt key ts => build_modify_signable topic node kt key ts (mn_config m))
  end.
End notice.

(** ** Lemmas *)

Lemma build_delete_ret topic node kt key ts :
  ∃ i, build_delete_signable topic node kt key ts = Ret (Some i).
Proof. eexists. unfold build_delete_signable, cbor_new_definite_array. by rewrite push_all_definite by by vm_compute. Qed.

Lemma build_modify_ret topic node kt key ts c :
  ∃ i, build_modify_signable topic node kt key ts c = Ret (Some i).
Proof.
  eexists. unfold build_modify_signable, cbor_new_definite_array. rewrite push_all_definite by by vm_compute.
  rewrite bind_Ret_l. unfold config_map, cbor_new_definite_map. rewrite map_add_all_ret by by vm_compute.
  rewrite bind_Ret_l. reflexivity.
Qed.

Section notice_lemmas.
Context `{SignatureScheme K, !SignatureLaws K} (blake3 : list Z → list Z) (cbor_serialize_alloc : cbor_item → list Z).
Context (blake3_length : ∀ k, length (blake3 k) = POSEIDON_NODE_ID_HASH_SIZE) (blake3_bytes : ∀ k, bytes_ok (blake3 k)).
Context (writes : ∀ i, cbor_serialize_alloc i ≠ []).

(** The keys the daemon generates: a printable algorithm name, a public key
    that fits the notice, and a signature for every message. *)
Record key_ok (k : K) : Prop := {
  ko_type : cstr_ok (key_type k) ∧ (length (key_type k) < 16)%nat;
  ko_public : 0 < zlen (public_key k) <= 64;
  ko_sign : ∀ m, ∃ s, sign k m = Some s ∧ zlen s <= 64
}.

(** The identity string of a key. *)
Definition identity (k : K) (s : list Z) : Prop :=
  ∃ id0 id, length (nid_str id0) = POSEIDON_NODE_ID_STRING_SIZE ∧
    poseidon_node_id_from_public_key blake3 (public_key k) id0 = Ret (Some id) ∧ c_str (nid_str id) = s.

Lemma identity_spec k s :
  identity k s → cstr_ok s ∧ zlen s <= 44 ∧ base58_decode s HASH_SIZE = Ret (Some (blake3 (public_key k))).
Proof.
  intros (id0 & id & Hl & E & Hs).
  destruct (from_public_key_ret blake3 blake3_length blake3_bytes (public_key k) id0 Hl)
    as (s' & id' & E' & _ & Hs' & Hok & Hlen & _ & Hd).
  rewrite E in E'. injection E' as <-. rewrite Hs in Hs'. by subst s'.
Qed.

Lemma signable_ret m i : m = Ret (Some i) → signable_bytes cbor_serialize_alloc m = Ret (Some (cbor_serialize_alloc i)).
Proof.
  intros ->. unfold signable_bytes. cbn [xbind]. rewrite (proj2 (Z.eqb_neq _ 0)); [done|].
  intros E. apply (writes i). apply nil_length_inv. unfold zlen in E. lia.
Qed.

(** The signed structure is the one made of its parts. *)
Lemma signed_make type topic node kt key ts sig :
  notice_parts topic node kt key ts sig →
  ∃ n, unsigned_notice type topic node kt key ts = Some n ∧
    with_signature n sig = Ret (make_notice type topic node kt key ts sig).
Proof.
  intros [[_ Ht] [_ Hn] [_ Hk] Hkey _ Hs]. unfold unsigned_notice.
  rewrite (proj2 (Z.ltb_ge _ _)) by (unfold zlen, POSEIDON_CHANNEL_NOTICE_MAX_PUBLIC_KEY; lia).
  eexists. split; [reflexivity|]. unfold with_signature.
  rewrite (proj2 (Z.ltb_ge _ _)) by (unfold zlen, POSEIDON_CHANNEL_NOTICE_MAX_SIGNATURE; lia).
  cbn [dn_type dn_topic_id dn_node_id dn_key_type dn_public_key dn_public_key_len dn_timestamp_us dn_signature].
  unfold make_notice. rewrite !memcpy_zeros.
  change 63%nat with (64 - 1)%nat. change 15%nat with (16 - 1)%nat. by rewrite !strncpy_zeros by done.
Qed.

(** A notice whose node id is the identity of the key, and whose signature
    verifies for the rebuilt payload, is accepted: the topic is part of the
    payload and of nothing else. *)
Lemma verify_make type topic node kt key ts sig payload i :
  notice_parts topic node kt key ts sig → 0 < zlen key → zlen node <= 44 →
  base58_decode node HASH_SIZE = Ret (Some (blake3 key)) →
  payload topic node kt key ts = Ret (Some i) → verify kt key (cbor_serialize_alloc i) sig = true →
  verify_notice blake3 cbor_serialize_alloc (make_notice type topic node kt key ts sig) payload = Ret 0.
Proof.
  intros [[Ht Htl] [Hn Hnl] [Hk Hkl] Hkey Hts Hs] Hne Hlen Hd Hp Hv. unfold verify_notice, make_notice.
  cbn [dn_topic_id dn_node_id dn_key_type dn_public_key dn_public_key_len dn_timestamp_us dn_signature dn_signature_len].
  rewrite (str_of_buf 64 node) by done. rewrite bind_Ret_l.
  destruct (from_string_ret node poseidon_node_id_clear (blake3 key) Hlen Hd (blake3_length key)) as (id & -> & Hh & _).
  rewrite bind_Ret_l, bytes_of_buf, bind_Ret_l. unfold poseidon_node_id_verify_public_key.
  rewrite (proj2 (Z.eqb_neq (zlen key) 0)) by lia. rewrite bool_decide_true by by rewrite Hh. cbn [Z.eqb negb].
  rewrite (str_of_buf 64 topic), bind_Ret_l by done. rewrite (str_of_buf 16 kt), bind_Ret_l by done.
  rewrite (signable_ret _ _ Hp), bind_Ret_l, bytes_of_buf, bind_Ret_l. by rewrite Hv.
Qed.

Lemma parts_of k s ts sig topic :
  key_ok k → identity k s → is_u64 ts → zlen sig <= 64 → cstr_ok topic → (length topic < 64)%nat →
  notice_parts topic s (key_type k) (public_key k) ts sig.
Proof.
  intros [Hkt Hp _] Hid Hts Hsig Ht Htl. destruct (identity_spec k s Hid) as (Hs & Hl & _).
  constructor; [done|split; [done|unfold zlen in Hl; lia]|done|unfold zlen in Hp; lia|done|unfold zlen in Hsig; lia].
Qed.
End notice_lemmas.

(** ** Properties *)

(** The owner's notices are accepted everywhere: a delete or modify notice
    made by a channel for its own identity is well formed, survives the wire
    unchanged and passes verification. *)
Theorem owner_notices_verify `{SignatureScheme K, !SignatureLaws K} blake3 ser (k : K) s now c :
  (∀ x, length (blake3 x) = POSEIDON_NODE_ID_HASH_SIZE) → (∀ x, bytes_ok (blake3 x)) → (∀ i, ser i ≠ []) →
  key_ok k → identity blake3 k s → is_u64 now → config_wf c →
  (∃ n, poseidon_channel_create_delete_notice ser s (Some k) now = Ret (Some n) ∧
     (i <- meridian_channel_delete_notice_encode (Some n) ;; meridian_channel_delete_notice_decode i) = Ret (Some n) ∧
     poseidon_channel_verify_delete_notice blake3 ser (Some n) = Ret 0) ∧
  (∃ m, poseidon_channel_create_modify_notice ser s (Some k) (Some c) now = Ret (Some m) ∧ mn_config m = c ∧
     (i <- meridian_channel_modify_notice_encode (Some m) ;; meridian_channel_modify_notice_decode i) = Ret (Some m) ∧
     poseidon_channel_verify_modify_notice blake3 ser (Some m) = Ret 0).
Proof.
  intros Hbl Hbb Hser Hk Hid Hnow Hc. destruct (identity_spec blake3 Hbl Hbb k s Hid) as (Hs & Hsl & Hd).
  pose proof (ko_public k Hk) as Hpk. assert (Hsl' : (length s < 64)%nat) by (unfold zlen in Hsl; lia). split.
  - destruct (build_delete_ret s s (key_type k) (public_key k) now) as [i Ei].
    destruct (ko_sign k Hk (ser i)) as (sig & Esig & Hsig).
    pose proof (parts_of blake3 Hbl Hbb k s now sig s Hk Hid Hnow Hsig Hs Hsl') as Hp.
    destruct (signed_make MERIDIAN_PACKET_TYPE_CHANNEL_DELETE_NOTICE _ _ _ _ _ _ Hp) as (n & En & Ew).
    eexists. split_and!.
    + unfold poseidon_channel_create_delete_notice. rewrite En.
      rewrite (signable_ret ser Hser _ _ Ei), bind_Ret_l, Esig, Ew. reflexivity.
    + by apply (notice_roundtrip_aux _ _ _ _ _ _ c).
    + eapply verify_make; [done|done|exact Hp|lia|done|exact Hd|exact Ei|by apply sign_verifies].
  - destruct (build_modify_ret s s (key_type k) (public_key k) now c) as [i Ei].
    destruct (ko_sign k Hk (ser i)) as (sig & Esig & Hsig).
    pose proof (parts_of blake3 Hbl Hbb k s now sig s Hk Hid Hnow Hsig Hs Hsl') as Hp.
    destruct (signed_make MERIDIAN_PACKET_TYPE_CHANNEL_MODIFY_NOTICE _ _ _ _ _ _ Hp) as (n & En & Ew).
    eexists. split_and!.
    + unfold poseidon_channel_create_modify_notice. rewrite En.
      rewrite (signable_ret ser Hser _ _ Ei), bind_Ret_l, Esig, Ew. reflexivity.
    + done.
    + by apply (notice_roundtrip_aux _ _ _ _ _ _ c).
    + eapply verify_make; [done|done|exact Hp|lia|done|exact Hd|exact Ei|by apply sign_verifies].
Qed.

(** C19. Verification ties the notice to its signer, not to the channel: the
    holder of any key can make a delete notice for any channel's topic that
    passes verification, because the topic is never compared with the signer's
    node id. *)
Theorem foreign_notices_verify `{SignatureScheme K, !SignatureLaws K} blake3 ser (k : K) s now victim :
  (∀ x, length (blake3 x) = POSEIDON_NODE_ID_HASH_SIZE) → (∀ x, bytes_ok (blake3 x)) → (∀ i, ser i ≠ []) →
  key_ok k → identity blake3 k s → is_u64 now → cstr_ok victim → (length victim < 64)%nat →
  ∃ n, c_str (dn_topic_id n) = victim ∧ c_str (dn_node_id n) = s ∧
    poseidon_channel_verify_delete_notice blake3 ser (Some n) = Ret 0.
Proof.
  intros Hbl Hbb Hser Hk Hid Hnow Hv Hvl. destruct (identity_spec blake3 Hbl Hbb k s Hid) as (Hs & Hsl & Hd).
  pose proof (ko_public k Hk) as Hpk.
  destruct (build_delete_ret victim s (key_type k) (public_key k) now) as [i Ei].
  destruct (ko_sign k Hk (ser i)) as (sig & Esig & Hsig).
  pose proof (parts_of blake3 Hbl Hbb k s now sig victim Hk Hid Hnow Hsig Hv Hvl) as Hp.
  exists (make_notice MERIDIAN_PACKET_TYPE_CHANNEL_DELETE_NOTICE victim s (key_type k) (public_key k) now sig).
  split_and!; [by apply c_str_buf|by apply c_str_buf|].
  eapply verify_make; [done|done|exact Hp|lia|done|exact Hd|exact Ei|by apply sign_verifies].
Qed.

(** ** A concrete scheme, for the examples *)

(** A key is its public key; the signature is a checksum of key and message. *)
Definition toy_signature (key m : list Z) : list Z := [u8 (foldr Z.add 0 key + foldr Z.add 0 m)].

#[export] Instance toy_scheme : SignatureScheme (list Z) := {
  key_type := fun _ => lit "ED25519";
  public_key := fun k => k;
  sign := fun k m => Some (toy_signature k m);
  verify := fun _ key m s => bool_decide (s = toy_signature key m)
}.

#[export] Instance toy_laws : SignatureLaws (list Z).
Proof. constructor. intros k m s [= <-]. by apply bool_decide_eq_true. Qed.

Definition toy_writer (i : cbor_item) : list Z := match i with CArray _ n _ => [u8 n] | _ => [0] end.

Lemma toy_writes i : toy_writer i ≠ [].
Proof. by destruct i. Qed.

Lemma toy_key_ok : key_ok [7; 8; 9].
Proof.
  constructor; [split; [repeat (constructor; [cbn; lia|]); constructor|vm_compute; lia]|by vm_compute|].
  intros m. eexists. split; [reflexivity|]. by vm_compute.
Qed.

Lemma toy_identity : ∃ s, identity (K := list Z) toy_blake3 [7; 8; 9] s.
Proof.
  destruct (from_public_key_ret toy_blake3 (fun k => proj1 (toy_blake3_ok k)) (fun k => proj2 (toy_blake3_ok k))
    [7; 8; 9] poseidon_node_id_clear eq_refl) as (s & id & E & _ & Hs & _).
  exists s, poseidon_node_id_clear, id. split_and!; [done|exact E|done].
Qed.

Lemma owner_notices_verify_witness :
  ∃ s n, poseidon_channel_create_delete_notice toy_writer s (Some [7; 8; 9]) 42 = Ret (Some n) ∧
    poseidon_channel_verify_delete_notice toy_blake3 toy_writer (Some n) = Ret 0.
Proof.
  destruct toy_identity as [s Hid].
  destruct (owner_notices_verify toy_blake3 toy_writer [7; 8; 9] s 42 poseidon_channel_config_defaults)
    as [(n & E & _ & V) _];
    [apply toy_blake3_ok|apply toy_blake3_ok|apply toy_writes|exact toy_key_ok|exact Hid|by vm_compute|exact demo_config_wf|].
  exists s, n. split; [exact E|exact V].
Defined.

Lemma foreign_notices_verify_witness :
  ∃ n, c_str (dn_topic_id n) = lit "victim" ∧
    poseidon_channel_verify_delete_notice toy_blake3 toy_writer (Some n) = Ret 0.
Proof.
  destruct toy_identity as [s Hid].
  destruct (foreign_notices_verify toy_blake3 toy_writer [7; 8; 9] s 42 (lit "victim")) as (n & T & _ & V);
    [apply toy_blake3_ok|apply toy_blake3_ok|apply toy_writes|exact toy_key_ok|exact Hid|by vm_compute
    |repeat (constructor; [cbn; lia|]); constructor|vm_compute; lia|].
  exists n. split; [exact T|exact V].
Defined.
