(* ===== verification/Ring.v ===== *)
(** * Ring: the latency rings of [src/Network/Meridian/meridian_ring.c]

    Ten rings, each with a bounded primary and secondary list.  The latency
    class [(int) floor(log(latency) / log(base))] is computed by libm: it is the
    argument [floor_log] (latency, base), of which only what a theorem names is
    assumed. *)

From stdpp Require Import relations.
From S2P Require Import Prelude Bitset Node.

Definition MERIDIAN_MAX_RINGS : Z := 10.

Record meridian_ring_t := mkRing {
  ring_primary : list meridian_node_t;
  ring_secondary : list meridian_node_t;
  ring_frozen : bool;
  ring_latency_min_us : Z;
  ring_latency_max_us : Z
}.

Record meridian_ring_set_t := mkRingSet {
  rs_primary_ring_size : Z;
  rs_secondary_ring_size : Z;
  rs_exponent_base : Z;
  rs_rings : list meridian_ring_t
}.

Definition empty_ring : meridian_ring_t := mkRing [] [] false 0 0.

Definition meridian_ring_set_create (primary_size secondary_size exponent_base : Z) : meridian_ring_set_t :=
  {| rs_primary_ring_size := primary_size;
     rs_secondary_ring_size := secondary_size;
     rs_exponent_base := exponent_base;
     rs_rings := replicate 10 empty_ring |}.

Definition ring_at (set : meridian_ring_set_t) (i : Z) : meridian_ring_t :=
  default empty_ring (rs_rings set !! Z.to_nat i).

Definition ring_put (set : meridian_ring_set_t) (i : Z) (r : meridian_ring_t) : meridian_ring_set_t :=
  {| rs_primary_ring_size := rs_primary_ring_size set;
     rs_secondary_ring_size := rs_secondary_ring_size set;
     rs_exponent_base := rs_exponent_base set;
     rs_rings := <[Z.to_nat i := r]> (rs_rings set) |}.

Definition ring_with_primary (r : meridian_ring_t) (l : list meridian_node_t) : meridian_ring_t :=
  mkRing l (ring_secondary r) (ring_frozen r) (ring_latency_min_us r) (ring_latency_max_us r).
Definition ring_with_secondary (r : meridian_ring_t) (l : list meridian_node_t) : meridian_ring_t :=
  mkRing (ring_primary r) l (ring_frozen r) (ring_latency_min_us r) (ring_latency_max_us r).
Definition ring_with_frozen (r : meridian_ring_t) (b : bool) : meridian_ring_t :=
  mkRing (ring_primary r) (ring_secondary r) b (ring_latency_min_us r) (ring_latency_max_us r).

(** Identity when both nodes have one, address and port otherwise. *)
Definition node_identity_match (a b : meridian_node_t) : bool :=
  if negb (poseidon_node_id_is_null (Some (node_id a))) &&
     negb (poseidon_node_id_is_null (Some (node_id b)))
  then meridian_node_equals_by_id (Some a) (Some b)
  else meridian_node_equals_by_addr (Some a) (Some b).

Definition ring_num_valid (ring_num : Z) : bool := (0 <=? ring_num) && (ring_num <? MERIDIAN_MAX_RINGS).

Section bucketing.
Context (floor_log : Z → Z → Z).

Definition meridian_ring_set_get_ring (set : option meridian_ring_set_t) (latency_us : Z) : Z :=
  match set with
  | None => 0
  | Some s =>
      if rs_exponent_base s <=? 0 then 0
      else
        let ring := floor_log latency_us (rs_exponent_base s) in
        let ring := if ring <? 0 then 0 else ring in
        if MERIDIAN_MAX_RINGS <=? ring then MERIDIAN_MAX_RINGS - 1 else ring
  end.

Definition meridian_ring_set_insert_nn (s : meridian_ring_set_t) (node : meridian_node_t)
    (latency_us : Z) : Z * meridian_ring_set_t :=
  let ring_num := meridian_ring_set_get_ring (Some s) latency_us in
  if negb (ring_num_valid ring_num) then (-1, s)
  else
    let ring := ring_at s ring_num in
    if ring_frozen ring then (-1, s)
    else if zlen (ring_primary ring) <? s32 (rs_primary_ring_size s)
    then (0, ring_put s ring_num (ring_with_primary ring (ring_primary ring ++ [node])))
    else if zlen (ring_secondary ring) <? s32 (rs_secondary_ring_size s)
    then (0, ring_put s ring_num (ring_with_secondary ring (ring_secondary ring ++ [node])))
    else (-1, s).
End bucketing.

(** The index of the first match, the scan of [erase]. *)
Fixpoint find_match (l : list meridian_node_t) (node : meridian_node_t) (j : nat) : option nat :=
  match l with
  | [] => None
  | n :: l' => if node_identity_match n node then Some j else find_match l' node (S j)
  end.

(** Removal from one ring, primary first; [None] when the ring has no match. *)
Definition erase_in_ring (r : meridian_ring_t) (node : meridian_node_t) : option meridian_ring_t :=
  match find_match (ring_primary r) node 0 with
  | Some idx => Some (ring_with_primary r (delete idx (ring_primary r)))
  | None =>
      match find_match (ring_secondary r) node 0 with
      | Some idx => Some (ring_with_secondary r (delete idx (ring_secondary r)))
      | None => None
      end
  end.

(** [for (i = 0; i < MERIDIAN_MAX_RINGS; i++)]. *)
Fixpoint erase_loop (n : nat) (i : Z) (s : meridian_ring_set_t) (node : meridian_node_t)
    : Z * meridian_ring_set_t :=
  match n with
  | O => (-1, s)
  | S n' =>
      match erase_in_ring (ring_at s i) node with
      | Some r => (0, ring_put s i r)
      | None => erase_loop n' (i + 1) s node
      end
  end.

Definition meridian_ring_set_erase_nn (s : meridian_ring_set_t) (node : meridian_node_t)
    : Z * meridian_ring_set_t :=
  erase_loop (Z.to_nat MERIDIAN_MAX_RINGS) 0 s node.

Definition meridian_ring_set_erase_ring_nn (s : meridian_ring_set_t) (node : meridian_node_t)
    (ring_num : Z) : Z * meridian_ring_set_t :=
  if negb (ring_num_valid ring_num) then (-1, s)
  else
    match erase_in_ring (ring_at s ring_num) node with
    | Some r => (0, ring_put s ring_num r)
    | None => (-1, s)
    end.

Fixpoint find_closest_loop (rings : list meridian_ring_t) : option meridian_node_t :=
  match rings with
  | [] => None
  | r :: rest => match ring_primary r with n :: _ => Some n | [] => find_closest_loop rest end
  end.

Definition meridian_ring_set_find_closest (set : option meridian_ring_set_t) : option meridian_node_t :=
  match set with None => None | Some s => find_closest_loop (rs_rings s) end.

Definition meridian_ring_set_freeze_nn (s : meridian_ring_set_t) (ring_num : Z) : meridian_ring_set_t :=
  if negb (ring_num_valid ring_num) then s
  else ring_put s ring_num (ring_with_frozen (ring_at s ring_num) true).

Definition meridian_ring_set_unfreeze_nn (s : meridian_ring_set_t) (ring_num : Z) : meridian_ring_set_t :=
  if negb (ring_num_valid ring_num) then s
  else ring_put s ring_num (ring_with_frozen (ring_at s ring_num) false).

(** The number of nodes without the rendezvous flag. *)
Definition non_rendv_count (l : list meridian_node_t) : Z :=
  zlen (filter (fun n => Z.land (node_flags n) MERIDIAN_NODE_FLAG_RENDEZVOUS = 0) l).

Definition meridian_ring_set_eligible_for_replacement_nn (s : meridian_ring_set_t) (ring_num : Z) : bool :=
  if negb (ring_num_valid ring_num) then false
  else
    let ring := ring_at s ring_num in
    if ring_frozen ring then false
    else if negb (zlen (ring_primary ring) =? s32 (rs_primary_ring_size s)) then false
    else if zlen (ring_secondary ring) =? 0 then false
    else s32 (rs_primary_ring_size s) <?
         non_rendv_count (ring_primary ring) + non_rendv_count (ring_secondary ring).

Definition meridian_ring_set_promote_secondary_nn (s : meridian_ring_set_t) (ring_num : Z)
    : Z * meridian_ring_set_t :=
  if negb (ring_num_valid ring_num) then (-1, s)
  else
    let ring := ring_at s ring_num in
    match ring_secondary ring with
    | [] => (-1, s)
    | to_promote :: rest =>
        (* an [int] length against a [uint32_t] size: compared unsigned *)
        if rs_primary_ring_size s <=? u32 (zlen (ring_primary ring)) then (-1, s)
        else (0, ring_put s ring_num
                   (ring_with_primary (ring_with_secondary ring rest) (ring_primary ring ++ [to_promote])))
    end.

(** The maintenance loop of [meridian_protocol_ring_management]. *)
Fixpoint ring_management_loop (n : nat) (ring : Z) (s : meridian_ring_set_t) : meridian_ring_set_t :=
  match n with
  | O => s
  | S n' =>
      let s' := if meridian_ring_set_eligible_for_replacement_nn s ring
                then (meridian_ring_set_promote_secondary_nn s ring).2 else s in
      ring_management_loop n' (ring + 1) s'
  end.

Definition meridian_protocol_ring_management (s : meridian_ring_set_t) : meridian_ring_set_t :=
  ring_management_loop (Z.to_nat MERIDIAN_MAX_RINGS) 0 s.

(** ** Invariant *)

Definition ring_wf (s : meridian_ring_set_t) (r : meridian_ring_t) : Prop :=
  zlen (ring_primary r) <= rs_primary_ring_size s ∧
  zlen (ring_secondary r) <= rs_secondary_ring_size s.

Record ring_set_wf (s : meridian_ring_set_t) : Prop := {
  rs_wf_primary : 0 <= rs_primary_ring_size s < 2 ^ 31;
  rs_wf_secondary : 0 <= rs_secondary_ring_size s < 2 ^ 31;
  rs_wf_count : length (rs_rings s) = 10%nat;
  rs_wf_rings : Forall (ring_wf s) (rs_rings s)
}.

Lemma ring_at_wf s i : ring_set_wf s → ring_wf s (ring_at s i).
Proof.
  intros H. unfold ring_at. destruct (rs_rings s !! Z.to_nat i) eqn:E; simpl.
  - exact (Forall_lookup_1 _ _ _ _ (rs_wf_rings s H) E).
  - destruct H. unfold ring_wf, zlen. simpl. lia.
Qed.

Lemma ring_put_wf s i r : ring_set_wf s → ring_wf s r → ring_set_wf (ring_put s i r).
Proof.
  intros [] Hr. split; simpl; [done|done|by rewrite length_insert|]. by apply Forall_insert.
Qed.

Lemma zlen_delete {A} (l : list A) i : zlen (delete i l) <= zlen l.
Proof.
  unfold zlen. revert i. induction l as [|x l IH]; intros [|i]; simpl; try lia. specialize (IH i). lia.
Qed.

Lemma erase_in_ring_wf s r node r' : ring_wf s r → erase_in_ring r node = Some r' → ring_wf s r'.
Proof.
  intros [H1 H2]. unfold erase_in_ring.
  pose proof (zlen_delete (ring_primary r)) as D1. pose proof (zlen_delete (ring_secondary r)) as D2.
  destruct (find_match (ring_primary r) node 0) as [i|].
  - intros [= <-]. specialize (D1 i). split; simpl; lia.
  - destruct (find_match (ring_secondary r) node 0) as [i|]; [|done].
    intros [= <-]. specialize (D2 i). split; simpl; lia.
Qed.

Section steps.
Context (floor_log : Z → Z → Z).

(** One operation on a ring set. *)
Inductive ring_step (s : meridian_ring_set_t) : meridian_ring_set_t → Prop :=
| ring_step_insert node lat : ring_step s (meridian_ring_set_insert_nn floor_log s node lat).2
| ring_step_erase node : ring_step s (meridian_ring_set_erase_nn s node).2
| ring_step_erase_ring node i : ring_step s (meridian_ring_set_erase_ring_nn s node i).2
| ring_step_freeze i : ring_step s (meridian_ring_set_freeze_nn s i)
| ring_step_unfreeze i : ring_step s (meridian_ring_set_unfreeze_nn s i)
| ring_step_promote i : ring_step s (meridian_ring_set_promote_secondary_nn s i).2
| ring_step_manage : ring_step s (meridian_protocol_ring_management s).

Lemma get_ring_valid s lat : ring_num_valid (meridian_ring_set_get_ring floor_log (Some s) lat) = true.
Proof.
  unfold ring_num_valid, meridian_ring_set_get_ring, MERIDIAN_MAX_RINGS. zcases; simpl; done || lia.
Qed.

Lemma insert_wf s node lat : ring_set_wf s → ring_set_wf (meridian_ring_set_insert_nn floor_log s node lat).2.
Proof.
  intros H. unfold meridian_ring_set_insert_nn. rewrite get_ring_valid. cbn [negb].
  set (i := meridian_ring_set_get_ring floor_log (Some s) lat). pose proof (ring_at_wf s i H) as [H1 H2].
  rewrite !s32_id by apply H. destruct (ring_frozen _); [done|]. zcases; simpl; [| |done].
  - apply ring_put_wf; [done|]. split; simpl; rewrite ?zlen_app; unfold zlen in *; simpl; lia.
  - apply ring_put_wf; [done|]. split; simpl; rewrite ?zlen_app; unfold zlen in *; simpl; lia.
Qed.

Lemma erase_loop_wf n i s node : ring_set_wf s → ring_set_wf (erase_loop n i s node).2.
Proof.
  revert i. induction n as [|n IH]; intros i H; simpl; [done|].
  destruct (erase_in_ring (ring_at s i) node) eqn:E; simpl; [|by apply IH].
  apply ring_put_wf; [done|]. eapply erase_in_ring_wf; [by apply ring_at_wf|done].
Qed.

Lemma promote_wf s i : ring_set_wf s → ring_set_wf (meridian_ring_set_promote_secondary_nn s i).2.
Proof.
  intros H. unfold meridian_ring_set_promote_secondary_nn. destruct (ring_num_valid i); simpl; [|done].
  pose proof (ring_at_wf s i H) as [H1 H2]. destruct (ring_secondary (ring_at s i)) eqn:E; [done|].
  pose proof (rs_wf_primary s H). pose proof (zlen_nonneg (ring_primary (ring_at s i))).
  rewrite u32_id by (unfold is_u32; lia). destruct (Z.leb_spec (rs_primary_ring_size s) (zlen (ring_primary (ring_at s i)))); [done|].
  simpl. apply ring_put_wf; [done|]. split; simpl; rewrite ?zlen_app; unfold zlen in *; simpl in *; lia.
Qed.

(** A ring that is eligible for replacement is full, and a full ring is not
    promoted into. *)
Lemma eligible_not_promoted s i :
  ring_set_wf s → meridian_ring_set_eligible_for_replacement_nn s i = true →
  meridian_ring_set_promote_secondary_nn s i = (-1, s).
Proof.
  intros H. unfold meridian_ring_set_eligible_for_replacement_nn, meridian_ring_set_promote_secondary_nn.
  destruct (ring_num_valid i); simpl; [|done]. destruct (ring_frozen _); [done|].
  pose proof (rs_wf_primary s H). rewrite s32_id by done.
  destruct (Z.eqb_spec (zlen (ring_primary (ring_at s i))) (rs_primary_ring_size s)) as [E|]; [|done].
  simpl. intros _. destruct (ring_secondary _); [done|]. rewrite E, u32_id by (unfold is_u32; lia).
  by rewrite Z.leb_refl.
Qed.

Lemma ring_management_loop_id n i s : ring_set_wf s → ring_management_loop n i s = s.
Proof.
  revert i. induction n as [|n IH]; intros i H; simpl; [done|].
  destruct (meridian_ring_set_eligible_for_replacement_nn s i) eqn:E; [|by apply IH].
  rewrite eligible_not_promoted by done. by apply IH.
Qed.

Lemma ring_step_wf s s' : ring_step s s' → ring_set_wf s → ring_set_wf s'.
Proof.
  intros [node lat|node|node i|i|i|i|] H.
  - by apply insert_wf.
  - by apply erase_loop_wf.
  - unfold meridian_ring_set_erase_ring_nn. destruct (ring_num_valid i); simpl; [|done].
    destruct (erase_in_ring (ring_at s i) node) eqn:E; simpl; [|done].
    apply ring_put_wf; [done|]. eapply erase_in_ring_wf; [by apply ring_at_wf|done].
  - unfold meridian_ring_set_freeze_nn. destruct (ring_num_valid i); simpl; [|done].
    apply ring_put_wf; [done|]. apply (ring_at_wf s i H).
  - unfold meridian_ring_set_unfreeze_nn. destruct (ring_num_valid i); simpl; [|done].
    apply ring_put_wf; [done|]. apply (ring_at_wf s i H).
  - by apply promote_wf.
  - unfold meridian_protocol_ring_management. by rewrite ring_management_loop_id.
Qed.
End steps.

(** ** Insertion and removal *)

Lemma node_identity_match_refl n : node_identity_match n n = true.
Proof.
  unfold node_identity_match, meridian_node_equals_by_id, meridian_node_equals_by_addr.
  destruct (poseidon_node_id_is_null (Some (node_id n))); simpl; [by rewrite !Z.eqb_refl|].
  assert (E : lex_compare (nid_hash (node_id n)) (nid_hash (node_id n)) = Eq) by by apply lex_compare_eq.
  by rewrite E.
Qed.

Lemma find_match_none l node j :
  find_match l node j = None ↔ Forall (fun n => node_identity_match n node = false) l.
Proof.
  revert j. induction l as [|n l IH]; intros j; simpl; [done|].
  destruct (node_identity_match n node) eqn:E.
  - split; [done|]. intros [H _]%Forall_cons_1. congruence.
  - rewrite IH. split; [by constructor|by intros [_ H]%Forall_cons_1].
Qed.

Lemma find_match_app l node j :
  Forall (fun n => node_identity_match n node = false) l →
  find_match (l ++ [node]) node j = Some (j + length l)%nat.
Proof.
  revert j. induction l as [|n l IH]; intros j H; simpl.
  - rewrite node_identity_match_refl, Nat.add_0_r. done.
  - apply Forall_cons_1 in H as [-> H]. rewrite IH by done. f_equal. lia.
Qed.

Lemma delete_last {A} (l : list A) x : delete (length l) (l ++ [x]) = l.
Proof. induction l as [|y l IH]; simpl; [done|]. by rewrite IH. Qed.

(** No node of the ring set is taken for [node]. *)
Definition ring_absent (node : meridian_node_t) (r : meridian_ring_t) : Prop :=
  Forall (fun n => node_identity_match n node = false) (ring_primary r) ∧
  Forall (fun n => node_identity_match n node = false) (ring_secondary r).

Lemma erase_in_ring_absent r node : ring_absent node r → erase_in_ring r node = None.
Proof.
  intros [H1 H2]. unfold erase_in_ring.
  rewrite (proj2 (find_match_none _ _ _) H1), (proj2 (find_match_none _ _ _) H2). done.
Qed.

Lemma ring_at_absent s i node : Forall (ring_absent node) (rs_rings s) → ring_absent node (ring_at s i).
Proof.
  intros H. unfold ring_at. destruct (rs_rings s !! Z.to_nat i) eqn:E; simpl.
  - exact (Forall_lookup_1 _ _ _ _ H E).
  - split; constructor.
Qed.

Lemma erase_loop_absent n i s node :
  Forall (ring_absent node) (rs_rings s) → erase_loop n i s node = (-1, s).
Proof.
  intros H. revert i. induction n as [|n IH]; intros i; simpl; [done|].
  rewrite erase_in_ring_absent by by apply ring_at_absent. apply IH.
Qed.

Lemma ring_at_put s i j r :
  0 <= i → 0 <= j → (Z.to_nat i < length (rs_rings s))%nat →
  ring_at (ring_put s i r) j = if decide (i = j) then r else ring_at s j.
Proof.
  intros Hi Hj Hl. unfold ring_at. simpl. case_decide; subst.
  - by rewrite list_lookup_insert_eq.
  - rewrite list_lookup_insert_ne by lia. done.
Qed.

Lemma ring_put_put s i r r' : ring_put (ring_put s i r) i r' = ring_put s i r'.
Proof. unfold ring_put. simpl. by rewrite list_insert_insert_eq. Qed.

Lemma ring_put_id s i :
  (Z.to_nat i < length (rs_rings s))%nat → ring_put s i (ring_at s i) = s.
Proof.
  intros H. destruct s as [p q b rs]. unfold ring_put, ring_at. simpl in *. f_equal.
  apply list_insert_id. destruct (lookup_lt_is_Some_2 rs (Z.to_nat i) H) as [r ->]. done.
Qed.

(** The scan finds the one ring that has the node. *)
Lemma erase_loop_hit n lo i s node r r' :
  Forall (ring_absent node) (rs_rings s) → 0 <= lo <= i → i < lo + Z.of_nat n →
  (Z.to_nat i < length (rs_rings s))%nat → erase_in_ring r node = Some r' →
  erase_loop n lo (ring_put s i r) node = (0, ring_put s i r').
Proof.
  intros Habs. revert lo. induction n as [|n IH]; intros lo Hlo Hi Hl Er; [lia|]. simpl.
  rewrite ring_at_put by lia. case_decide; subst.
  - rewrite Er. by rewrite ring_put_put.
  - rewrite erase_in_ring_absent by by apply ring_at_absent. apply IH; [lia|lia|done|done].
Qed.

(** ** Properties *)

(** Ring bounds: any sequence of insertions, removals, freezes,
    promotions and maintenance rounds on a fresh ring set keeps ten rings whose
    primary and secondary lists never exceed their configured sizes. *)
Theorem ring_set_invariant floor_log p q b s :
  0 <= p < 2 ^ 31 → 0 <= q < 2 ^ 31 →
  rtc (ring_step floor_log) (meridian_ring_set_create p q b) s → ring_set_wf s.
Proof.
  intros Hp Hq Hrun.
  assert (H0 : ring_set_wf (meridian_ring_set_create p q b)).
  { split; simpl; [done|done|done|]. repeat constructor; unfold ring_wf, zlen; simpl; lia. }
  revert H0. induction Hrun as [|s1 s2 s3 Hstep _ IH]; [done|]. intros H. apply IH.
  by eapply ring_step_wf.
Qed.

(** Insertion and removal: a node that matches none present is inserted
    exactly when its ring is not frozen and has room (primary first, then
    secondary), a rejected insertion changes nothing, removing it afterwards
    restores the set, and removing an absent node fails without effect. *)
Theorem ring_insert_erase floor_log s node lat :
  ring_set_wf s → Forall (ring_absent node) (rs_rings s) →
  let i := meridian_ring_set_get_ring floor_log (Some s) lat in
  let r := ring_at s i in
  let '(rc, s') := meridian_ring_set_insert_nn floor_log s node lat in
  meridian_ring_set_erase_nn s node = (-1, s) ∧
  (rc = 0 ∧ ring_frozen r = false ∧
     ((zlen (ring_primary r) < rs_primary_ring_size s ∧
       s' = ring_put s i (ring_with_primary r (ring_primary r ++ [node]))) ∨
      (zlen (ring_primary r) = rs_primary_ring_size s ∧ zlen (ring_secondary r) < rs_secondary_ring_size s ∧
       s' = ring_put s i (ring_with_secondary r (ring_secondary r ++ [node])))) ∧
     meridian_ring_set_erase_nn s' node = (0, s)
   ∨ rc = -1 ∧ s' = s ∧
     (ring_frozen r = true ∨
      zlen (ring_primary r) = rs_primary_ring_size s ∧ zlen (ring_secondary r) = rs_secondary_ring_size s)).
Proof.
  intros Hwf Habs i r. pose proof (get_ring_valid floor_log s lat) as Hv. fold i in Hv. pose proof Hv as Hv0.
  unfold ring_num_valid, MERIDIAN_MAX_RINGS in Hv.
  pose proof (rs_wf_count s Hwf) as Hc.
  assert (Hi : 0 <= i < 10) by (zcases; done || lia).
  pose proof (ring_at_wf s i Hwf) as [H1 H2]. fold r in H1, H2.
  pose proof (ring_at_absent s i node Habs) as Hr. fold r in Hr. destruct Hr as [Hr1 Hr2].
  unfold meridian_ring_set_insert_nn. fold i. fold r. rewrite Hv0. cbn [negb].
  rewrite !s32_id by apply Hwf.
  assert (Hhit : ∀ r1 r2, erase_in_ring r1 node = Some r2 → ring_put s i r2 = s →
            meridian_ring_set_erase_nn (ring_put s i r1) node = (0, s)).
  { intros r1 r2 E Eid. unfold meridian_ring_set_erase_nn, MERIDIAN_MAX_RINGS.
    rewrite (erase_loop_hit _ 0 i s node r1 r2); [by rewrite Eid|done|lia|lia|lia|done]. }
  assert (Hid : ring_put s i r = s) by (apply ring_put_id; lia).
  clear Hv. clearbody r i. destruct (ring_frozen r) eqn:Ef; [|zcases]; (split; [by apply erase_loop_absent|]).
  - right. auto.
  - left. split_and!; [done|done|by left|]. eapply Hhit; [|exact Hid].
    unfold erase_in_ring. simpl. rewrite find_match_app by done. simpl. by rewrite delete_last; destruct r.
  - left. split_and!; [done|done|right; split_and!; [lia|done|done]|]. eapply Hhit; [|exact Hid].
    unfold erase_in_ring. simpl. rewrite (proj2 (find_match_none _ _ _) Hr1), find_match_app by done.
    simpl. by rewrite delete_last; destruct r.
  - right. split_and!; [done|done|]. right. lia.
Qed.

(** The maintenance round never changes anything: a ring is eligible for
    replacement only when its primary list is full, and promotion refuses full
    primary lists, so secondary candidates are never promoted by it. *)
Theorem ring_management_noop s :
  ring_set_wf s → meridian_protocol_ring_management s = s.
Proof. apply ring_management_loop_id. Qed.

(** The closest node is the oldest primary node of the lowest-latency
    ring that has one, and there is none exactly when all primary lists are
    empty. *)
Theorem ring_find_closest_spec s :
  match meridian_ring_set_find_closest (Some s) with
  | Some n => ∃ i r rest, rs_rings s !! i = Some r ∧ ring_primary r = n :: rest ∧
                ∀ j r', (j < i)%nat → rs_rings s !! j = Some r' → ring_primary r' = []
  | None => Forall (fun r => ring_primary r = []) (rs_rings s)
  end.
Proof.
  simpl. induction (rs_rings s) as [|r rs IH]; simpl; [constructor|].
  destruct (ring_primary r) as [|n rest] eqn:E.
  - destruct (find_closest_loop rs) as [n|]; [|by constructor].
    destruct IH as (i & r' & rest & Hi & Hp & Hj). exists (S i), r', rest. split_and!; [done|done|].
    intros [|j] r0 Hlt H0; [by injection H0 as <-|]. eapply Hj; [|exact H0]. lia.
  - exists 0%nat, r, rest. split_and!; [done|done|]. lia.
Qed.

(** ** Concrete instances *)

Definition demo_node : meridian_node_t := meridian_node_create_unidentified 16777343 4433.
Definition demo_rings : meridian_ring_set_t := meridian_ring_set_create 2 2 2.

Lemma ring_set_invariant_witness :
  ring_set_wf (meridian_ring_set_insert_nn (fun l _ => Z.log2 l) demo_rings demo_node 100).2.
Proof.
  apply (ring_set_invariant (fun l _ => Z.log2 l) 2 2 2); [lia|lia|]. apply rtc_once, ring_step_insert.
Defined.

Lemma demo_rings_wf : ring_set_wf demo_rings.
Proof. split; [by vm_compute|by vm_compute|done|]. repeat constructor; by vm_compute. Qed.

Lemma ring_insert_erase_witness : meridian_ring_set_erase_nn demo_rings demo_node = (-1, demo_rings).
Proof.
  apply (ring_insert_erase (fun l _ => Z.log2 l) demo_rings demo_node 100);
    [apply demo_rings_wf|repeat constructor].
Defined.

Lemma ring_management_noop_witness : meridian_protocol_ring_management demo_rings = demo_rings.
Proof. apply (ring_management_noop demo_rings), demo_rings_wf. Defined.
