(* ===== verification/Route.v ===== *)
(** * Route: route messages and their wire format

    The message life cycle of [src/Network/Quasar/quasar.c] (create, visited
    set, publisher list) and the codec of
    [src/Network/Quasar/quasar_route.c].  [topic], [data] and [visited] are set
    at creation and never NULL.  The publisher arrays are their used prefix of
    [pub_count] entries; writing past [pub_capacity] is undefined.  All reads of
    the parser are bounds-checked ([Trap] outside the packet). *)

From S2P Require Import Prelude Bitset Bloom Endian MessageId Node.

Definition QUASAR_ROUTE_MAGIC : Z := 0x51524F54.
Definition QUASAR_ROUTE_VERSION : Z := 1.
Definition MERIDIAN_MAX_PAYLOAD_SIZE : Z := 1400.
Definition MERIDIAN_MAX_NODES : Z := 256.

Record quasar_route_message_t := mkRouteMsg {
  rm_id : quasar_message_id_t;
  rm_topic : list Z;
  rm_data : list Z;
  rm_visited : bloom_filter_t;
  rm_hops_remaining : Z;
  rm_pub_addrs : list Z;
  rm_pub_ports : list Z;
  rm_pub_count : Z;
  rm_pub_capacity : Z
}.

(** ** Life cycle *)

(** Takes the next identifier from the generator [g]; NULL topic or data
    gives NULL and leaves the generator alone. *)
Definition quasar_route_message_create (clock : Z → Z * Z) (g : Z) (topic data : option (list Z))
    (max_hops neg_size neg_hashes : Z) : option quasar_route_message_t * Z :=
  match topic, data with
  | Some t, Some d =>
      let '(id, g') := quasar_message_id_get_next clock g in
      (Some {| rm_id := id;
               rm_topic := t;
               rm_data := d;
               rm_visited := bloom_filter_create neg_size neg_hashes;
               rm_hops_remaining := max_hops;
               rm_pub_addrs := [];
               rm_pub_ports := [];
               rm_pub_count := 0;
               rm_pub_capacity := 0 |}, g')
  | _, _ => (None, g)
  end.

Definition rm_with_visited (m : quasar_route_message_t) (v : bloom_filter_t) : quasar_route_message_t :=
  {| rm_id := rm_id m; rm_topic := rm_topic m; rm_data := rm_data m; rm_visited := v;
     rm_hops_remaining := rm_hops_remaining m; rm_pub_addrs := rm_pub_addrs m;
     rm_pub_ports := rm_pub_ports m; rm_pub_count := rm_pub_count m;
     rm_pub_capacity := rm_pub_capacity m |}.

Definition rm_with_hops (m : quasar_route_message_t) (h : Z) : quasar_route_message_t :=
  {| rm_id := rm_id m; rm_topic := rm_topic m; rm_data := rm_data m; rm_visited := rm_visited m;
     rm_hops_remaining := h; rm_pub_addrs := rm_pub_addrs m;
     rm_pub_ports := rm_pub_ports m; rm_pub_count := rm_pub_count m;
     rm_pub_capacity := rm_pub_capacity m |}.

Section visited.
Context (XXH3 : list Z → Z → Z).

Definition quasar_route_message_add_visited (m : quasar_route_message_t)
    (node : option meridian_node_t) : exec (Z * quasar_route_message_t) :=
  match node with
  | None => Ret (-1, m)
  | Some n =>
      v <- bloom_filter_add_nn XXH3 (rm_visited m) (node_key (node_addr n) (node_port n)) ;;
      Ret (0, rm_with_visited m v)
  end.

Definition quasar_route_message_has_visited (m : quasar_route_message_t)
    (node : option meridian_node_t) : exec bool :=
  match node with
  | None => Ret false
  | Some n => bloom_filter_contains_nn XXH3 (rm_visited m) (node_key (node_addr n) (node_port n))
  end.
End visited.

Definition quasar_route_message_add_publisher (m : quasar_route_message_t)
    (node : option meridian_node_t) : exec (Z * quasar_route_message_t) :=
  match node with
  | None => Ret (-1, m)
  | Some n =>
      let cap :=
        if rm_pub_capacity m <=? rm_pub_count m
        then (if rm_pub_capacity m =? 0 then 4 else u32 (rm_pub_capacity m * 2))
        else rm_pub_capacity m in
      if cap <=? rm_pub_count m then Trap
      else Ret (0, {| rm_id := rm_id m; rm_topic := rm_topic m; rm_data := rm_data m;
                      rm_visited := rm_visited m; rm_hops_remaining := rm_hops_remaining m;
                      rm_pub_addrs := rm_pub_addrs m ++ [node_addr n];
                      rm_pub_ports := rm_pub_ports m ++ [node_port n];
                      rm_pub_count := u32 (rm_pub_count m + 1);
                      rm_pub_capacity := cap |})
  end.

Definition quasar_route_message_has_publisher (m : quasar_route_message_t)
    (node : option meridian_node_t) : bool :=
  match node with
  | None => false
  | Some n =>
      existsb (fun p => (p.1 =? node_addr n) && (p.2 =? node_port n))
        (zip (rm_pub_addrs m) (rm_pub_ports m))
  end.

(** ** Serialization *)

(** [header[i] = htonl(x)]. *)
Definition header_word (x : Z) : list Z := le_bytes 4 (htonl (u32 x)).

(** [None] is the result -1 of the overflow checks on [size_t]. *)
Definition quasar_route_message_serialize (m : quasar_route_message_t) : exec (option (list Z)) :=
  let topic_len := zlen (rm_topic m) in
  let data_len := zlen (rm_data m) in
  let visited_bit_bytes := byte_size_of (bf_size (rm_visited m)) in
  if SIZE_MAX - data_len <? topic_len then Ret None else
  let body_len := topic_len + data_len in
  if SIZE_MAX - 4 * rm_pub_count m <? body_len then Ret None else
  let body_len := body_len + 4 * rm_pub_count m in
  if SIZE_MAX - 2 * rm_pub_count m <? body_len then Ret None else
  let body_len := body_len + 2 * rm_pub_count m in
  if SIZE_MAX - visited_bit_bytes <? body_len then Ret None else
  let body_len := body_len + visited_bit_bytes in
  if SIZE_MAX - QUASAR_MESSAGE_ID_SIZE <? body_len then Ret None else
  let body_len := body_len + QUASAR_MESSAGE_ID_SIZE in
  let total_size := u64 (8 * 4 + body_len) in
  if total_size <? body_len then Ret None else
  bits <- read_bytes (bits_data (bf_bits (rm_visited m))) 0 visited_bit_bytes ;;
  Ret (Some (
    header_word QUASAR_ROUTE_MAGIC ++
    header_word QUASAR_ROUTE_VERSION ++
    header_word topic_len ++
    header_word data_len ++
    header_word (rm_hops_remaining m) ++
    header_word (rm_pub_count m) ++
    header_word (bf_size (rm_visited m)) ++
    header_word (bf_hash_count (rm_visited m)) ++
    quasar_message_id_serialize (rm_id m) ++
    rm_topic m ++
    rm_data m ++
    concat (map (le_bytes 4) (rm_pub_addrs m)) ++
    concat (map (le_bytes 2) (rm_pub_ports m)) ++
    bits)).

(** ** Deserialization *)

Definition read_header (data : list Z) (i : Z) : exec Z :=
  w <- read_u32_at data (4 * i) ;; Ret (ntohl w).

(** [memcpy] of [n] integers of [w] bytes into an array. *)
Fixpoint split_words (w n : nat) (l : list Z) : list Z :=
  match n with
  | O => []
  | S n' => le_decode (take w l) :: split_words w n' (drop w l)
  end.

(** Returns the message (or NULL) and the identifier generator. *)
Definition quasar_route_message_deserialize (clock : Z → Z * Z) (g : Z) (data : option (list Z))
    : exec (option quasar_route_message_t * Z) :=
  match data with
  | None => Ret (None, g)
  | Some data =>
    let len := zlen data in
    if len <? 8 * 4 then Ret (None, g) else
    magic <- read_header data 0 ;;
    version <- read_header data 1 ;;
    if negb (magic =? QUASAR_ROUTE_MAGIC) || negb (version =? QUASAR_ROUTE_VERSION) then Ret (None, g) else
    topic_len <- read_header data 2 ;;
    data_len <- read_header data 3 ;;
    hops_remaining <- read_header data 4 ;;
    pub_count <- read_header data 5 ;;
    visited_size <- read_header data 6 ;;
    visited_hashes <- read_header data 7 ;;
    if (MERIDIAN_MAX_PAYLOAD_SIZE <? topic_len) || (MERIDIAN_MAX_PAYLOAD_SIZE <? data_len)
    then Ret (None, g) else
    if MERIDIAN_MAX_NODES <? pub_count then Ret (None, g) else
    let visited_bit_bytes := if 0 <? visited_size then byte_size_of visited_size else 0 in
    let expected := 8 * 4 + QUASAR_MESSAGE_ID_SIZE + topic_len + data_len in
    let pub_addrs_size := u64 (pub_count * 4) in
    let pub_ports_size := u64 (pub_count * 2) in
    if negb (pub_addrs_size / 4 =? pub_count) then Ret (None, g) else
    if negb (pub_ports_size / 2 =? pub_count) then Ret (None, g) else
    let expected := u64 (expected + pub_addrs_size) in
    if expected <? pub_addrs_size then Ret (None, g) else
    let expected := u64 (expected + pub_ports_size) in
    if expected <? pub_ports_size then Ret (None, g) else
    let expected := u64 (expected + visited_bit_bytes) in
    if expected <? visited_bit_bytes then Ret (None, g) else
    if len <? expected then Ret (None, g) else
    let offset := 8 * 4 in
    id <- quasar_message_id_deserialize data offset ;;
    let offset := offset + QUASAR_MESSAGE_ID_SIZE in
    topic <- read_bytes data offset topic_len ;;
    let offset := offset + topic_len in
    payload <- read_bytes data offset data_len ;;
    let offset := offset + data_len in
    let '(created, g') := quasar_route_message_create clock g (Some topic) (Some payload)
                            hops_remaining visited_size visited_hashes in
    match created with
    | None => Ret (None, g')
    | Some msg =>
      addrs <- read_bytes data offset pub_addrs_size ;;
      ports <- read_bytes data (offset + pub_addrs_size) pub_ports_size ;;
      let offset := offset + pub_addrs_size + pub_ports_size in
      bits <- read_bytes data offset visited_bit_bytes ;;
      if negb (offset + visited_bit_bytes =? expected) then Trap else
      Ret (Some {| rm_id := id;
                   rm_topic := rm_topic msg;
                   rm_data := rm_data msg;
                   rm_visited :=
                     {| bf_bits := if 0 <? visited_bit_bytes then mkBitset bits else bf_bits (rm_visited msg);
                        bf_size := bf_size (rm_visited msg);
                        bf_hash_count := bf_hash_count (rm_visited msg);
                        bf_seed_a := bf_seed_a (rm_visited msg);
                        bf_seed_b := bf_seed_b (rm_visited msg);
                        bf_count := bf_count (rm_visited msg) |};
                   rm_hops_remaining := rm_hops_remaining msg;
                   rm_pub_addrs := split_words 4 (Z.to_nat pub_count) addrs;
                   rm_pub_ports := split_words 2 (Z.to_nat pub_count) ports;
                   rm_pub_count := pub_count;
                   rm_pub_capacity := pub_count |}, g')
    end
  end.

(** ** Invariant *)

Record route_wf (m : quasar_route_message_t) : Prop := {
  route_wf_id : id_wf (rm_id m);
  route_wf_topic : bytes_ok (rm_topic m);
  route_wf_data : bytes_ok (rm_data m);
  route_wf_hops : is_u32 (rm_hops_remaining m);
  route_wf_addrs_len : zlen (rm_pub_addrs m) = rm_pub_count m;
  route_wf_ports_len : zlen (rm_pub_ports m) = rm_pub_count m;
  route_wf_addrs : Forall is_u32 (rm_pub_addrs m);
  route_wf_ports : Forall is_u16 (rm_pub_ports m);
  route_wf_cap : rm_pub_count m <= rm_pub_capacity m < 2 ^ 31;
  route_wf_visited : bloom_wf (rm_visited m);
  route_wf_visited_u32 : is_u32 (bf_size (rm_visited m));
  route_wf_seeds : bf_seed_a (rm_visited m) = 1 ∧ bf_seed_b (rm_visited m) = 2
}.

(** The limits a receiver enforces. *)
Definition route_fits (m : quasar_route_message_t) : Prop :=
  zlen (rm_topic m) <= MERIDIAN_MAX_PAYLOAD_SIZE ∧ zlen (rm_data m) <= MERIDIAN_MAX_PAYLOAD_SIZE ∧
  rm_pub_count m <= MERIDIAN_MAX_NODES.

(** The message as the receiver rebuilds it: the insertion counter of the
    visited filter is not transmitted, the arrays are exactly full. *)
Definition route_received (m : quasar_route_message_t) : quasar_route_message_t :=
  {| rm_id := rm_id m; rm_topic := rm_topic m; rm_data := rm_data m;
     rm_visited :=
       {| bf_bits := bf_bits (rm_visited m); bf_size := bf_size (rm_visited m);
          bf_hash_count := bf_hash_count (rm_visited m); bf_seed_a := 1; bf_seed_b := 2; bf_count := 0 |};
     rm_hops_remaining := rm_hops_remaining m; rm_pub_addrs := rm_pub_addrs m;
     rm_pub_ports := rm_pub_ports m; rm_pub_count := rm_pub_count m; rm_pub_capacity := rm_pub_count m |}.

(** ** Lemmas *)

Lemma header_word_length x : zlen (header_word x) = 4.
Proof. unfold header_word, zlen. by rewrite le_bytes_length. Qed.

Lemma read_header_word pre x suf i :
  zlen pre = 4 * i → is_u32 x → read_header (pre ++ header_word x ++ suf) i = Ret x.
Proof.
  intros Hp Hx. unfold read_header, header_word.
  rewrite read_u32_at_app by (done || apply le_bytes_length). rewrite bind_Ret_l.
  rewrite u32_id, memcpy_htonl, be32_roundtrip by done. done.
Qed.

Lemma concat_le_length w xs : zlen (concat (map (le_bytes w) xs)) = Z.of_nat w * zlen xs.
Proof.
  unfold zlen. induction xs as [|x xs IH]; simpl; [lia|]. rewrite length_app, le_bytes_length. lia.
Qed.

Lemma split_words_concat w xs :
  Forall (fun x => 0 <= x < 256 ^ Z.of_nat w) xs →
  split_words w (length xs) (concat (map (le_bytes w) xs)) = xs.
Proof.
  induction xs as [|x xs IH]; intros H; simpl; [done|]. apply Forall_cons_1 in H as [Hx H].
  rewrite take_app_length', drop_app_length' by by rewrite le_bytes_length.
  rewrite IH by done. rewrite le_decode_bytes, Z.mod_small by done. done.
Qed.

Lemma split_words_length w n l : length (split_words w n l) = n.
Proof. revert l. induction n as [|n IH]; intros l; simpl; [done|]. by rewrite IH. Qed.

Lemma split_words_range w n l :
  bytes_ok l → Forall (fun x => 0 <= x < 256 ^ Z.of_nat w) (split_words w n l).
Proof.
  revert l. induction n as [|n IH]; intros l H; simpl; [constructor|]. constructor.
  - pose proof (le_decode_range (take w l) ltac:(by apply Forall_take)) as Hr.
    assert (256 ^ zlen (take w l) <= 256 ^ Z.of_nat w); [|lia].
    apply Z.pow_le_mono_r; [lia|]. unfold zlen. rewrite length_take. lia.
  - apply IH. by apply Forall_drop.
Qed.

Lemma byte_size_of_bound n : 0 <= n → 0 <= byte_size_of n <= n / 8 + 1.
Proof.
  intros Hn. unfold byte_size_of. pose proof (Z.div_pos n 8). destruct (Z.ltb_spec 0 (n mod 8)); lia.
Qed.

(** ** Fields of a packet *)

Section fields.
Context (ps : list (list Z)).

Lemma concat_field k p :
  ps !! k = Some p → concat ps = concat (take k ps) ++ p ++ concat (drop (S k) ps).
Proof.
  intros H. rewrite <- (take_drop_middle ps k p H) at 1. by rewrite concat_app.
Qed.

Lemma field_bytes k p off len suf :
  ps !! k = Some p → zlen (concat (take k ps)) = off → zlen p = len →
  read_bytes (concat ps ++ suf) off len = Ret p.
Proof.
  intros H Ho Hl. rewrite (concat_field k p H), <- !(assoc_L (++)). by apply read_bytes_at.
Qed.

Lemma field_header k x i suf :
  ps !! k = Some (header_word x) → zlen (concat (take k ps)) = 4 * i → is_u32 x →
  read_header (concat ps ++ suf) i = Ret x.
Proof.
  intros H Ho Hx. rewrite (concat_field k _ H), <- !(assoc_L (++)). by apply read_header_word.
Qed.

Lemma field_id k id off suf :
  ps !! k = Some (quasar_message_id_serialize id) → zlen (concat (take k ps)) = off → id_wf id →
  quasar_message_id_deserialize (concat ps ++ suf) off = Ret id.
Proof.
  intros H Ho Hx. rewrite (concat_field k _ H), <- !(assoc_L (++)). by apply id_roundtrip.
Qed.
End fields.

(** The fourteen fields of a packet. *)
Definition route_fields (m : quasar_route_message_t) : list (list Z) :=
  [header_word QUASAR_ROUTE_MAGIC; header_word QUASAR_ROUTE_VERSION;
   header_word (zlen (rm_topic m)); header_word (zlen (rm_data m));
   header_word (rm_hops_remaining m); header_word (rm_pub_count m);
   header_word (bf_size (rm_visited m)); header_word (bf_hash_count (rm_visited m));
   quasar_message_id_serialize (rm_id m); rm_topic m; rm_data m;
   concat (map (le_bytes 4) (rm_pub_addrs m)); concat (map (le_bytes 2) (rm_pub_ports m));
   bits_data (bf_bits (rm_visited m))].

(** Far below the overflow checks of the serializer. *)
Definition route_small (m : quasar_route_message_t) : Prop :=
  zlen (rm_topic m) <= 2 ^ 40 ∧ zlen (rm_data m) <= 2 ^ 40.

Lemma route_fits_small m : route_fits m → route_small m.
Proof. unfold route_fits, route_small, MERIDIAN_MAX_PAYLOAD_SIZE. lia. Qed.

Lemma route_serialize_ok m :
  route_wf m → route_small m →
  quasar_route_message_serialize m = Ret (Some (concat (route_fields m))).
Proof.
  intros Hwf (Ht & Hd). pose proof (route_wf_cap m Hwf) as Hc.
  pose proof (zlen_nonneg (rm_topic m)). pose proof (zlen_nonneg (rm_data m)).
  pose proof (zlen_nonneg (rm_pub_addrs m)) as Hn. rewrite (route_wf_addrs_len m Hwf) in Hn.
  pose proof (route_wf_visited m Hwf) as Hv. pose proof (bloom_bits_size _ Hv) as Hb.
  destruct (route_wf_visited_u32 m Hwf) as [Hv0 Hv1].
  pose proof (byte_size_of_bound (bf_size (rm_visited m)) ltac:(lia)) as Hbb.
  assert (bf_size (rm_visited m) / 8 <= 2 ^ 32) by (apply Z.div_le_upper_bound; lia).
  unfold quasar_route_message_serialize, SIZE_MAX, QUASAR_MESSAGE_ID_SIZE.
  rewrite !(proj2 (Z.ltb_ge _ _)) by (rewrite ?u64_id; unfold is_u64; lia).
  unfold bitset_size in Hb. rewrite read_bytes_ret by lia. rewrite bind_Ret_l.
  rewrite drop_0, firstn_all2 by (unfold zlen in Hb; lia).
  unfold route_fields. cbn [concat]. by rewrite app_nil_r.
Qed.

(** Evaluates the length of a prefix of the packet. *)
Ltac field_len :=
  unfold route_fields; cbn [take concat];
  rewrite ?zlen_app, ?header_word_length, ?id_serialize_length, ?concat_le_length;
  unfold QUASAR_MESSAGE_ID_SIZE; change (zlen (@nil Z)) with 0; try lia.

Lemma route_deserialize_ok clock g m suf :
  route_wf m → route_fits m →
  quasar_route_message_deserialize clock g (Some (concat (route_fields m) ++ suf)) =
  Ret (Some (route_received m), u64 (g + 1)).
Proof.
  intros Hwf Hfits. pose proof Hfits as (Ht & Hd & Hc). unfold MERIDIAN_MAX_PAYLOAD_SIZE, MERIDIAN_MAX_NODES in Ht, Hd, Hc.
  pose proof (zlen_nonneg (rm_topic m)). pose proof (zlen_nonneg (rm_data m)). pose proof (zlen_nonneg suf).
  pose proof (route_wf_addrs_len m Hwf) as Ha. pose proof (route_wf_ports_len m Hwf) as Hp.
  pose proof (zlen_nonneg (rm_pub_addrs m)) as Hn. rewrite Ha in Hn.
  pose proof (route_wf_visited m Hwf) as Hv. pose proof (bloom_bits_size _ Hv) as Hb.
  pose proof (bloom_size_pos _ Hv) as Hvp. pose proof (bloom_hash_count_u32 _ Hv) as Hvh.
  pose proof (route_wf_visited_u32 m Hwf) as Hvu.
  pose proof (byte_size_of_bound (bf_size (rm_visited m)) ltac:(lia)) as Hbb.
  assert (bf_size (rm_visited m) / 8 <= 2 ^ 32) by (unfold is_u32 in Hvu; apply Z.div_le_upper_bound; lia).
  assert (Hbp : 0 < byte_size_of (bf_size (rm_visited m))).
  { destruct (byte_size_of_pos (bf_size (rm_visited m))); lia. }
  unfold bitset_size in Hb. unfold quasar_route_message_deserialize.
  set (buf := concat (route_fields m) ++ suf).
  assert (Hlen : zlen buf = 56 + zlen (rm_topic m) + zlen (rm_data m) + 4 * rm_pub_count m
                   + 2 * rm_pub_count m + byte_size_of (bf_size (rm_visited m)) + zlen suf).
  { unfold buf. rewrite zlen_app. field_len. }
  rewrite (proj2 (Z.ltb_ge _ _)) by lia. unfold buf.
  rewrite (field_header _ 0 QUASAR_ROUTE_MAGIC 0), (field_header _ 1 QUASAR_ROUTE_VERSION 1),
    (field_header _ 2 (zlen (rm_topic m)) 2), (field_header _ 3 (zlen (rm_data m)) 3),
    (field_header _ 4 (rm_hops_remaining m) 4), (field_header _ 5 (rm_pub_count m) 5),
    (field_header _ 6 (bf_size (rm_visited m)) 6), (field_header _ 7 (bf_hash_count (rm_visited m)) 7)
    by (reflexivity || field_len || apply Hwf || done || (unfold is_u32; lia)).
  rewrite !bind_Ret_l. cbn [Z.eqb negb orb]. rewrite !Z.eqb_refl. cbn [negb orb].
  unfold MERIDIAN_MAX_PAYLOAD_SIZE, MERIDIAN_MAX_NODES, QUASAR_MESSAGE_ID_SIZE.
  rewrite !(u64_id (rm_pub_count m * _)) by (unfold is_u64; lia).
  rewrite !Z.div_mul by lia. rewrite !Z.eqb_refl. cbn [negb].
  rewrite (proj2 (Z.ltb_lt 0 (bf_size (rm_visited m)))) by lia.
  rewrite !(u64_id (_ + _)) by (unfold is_u64; lia).
  fold buf. rewrite !(proj2 (Z.ltb_ge _ _)) by lia. cbn [orb]. unfold buf.
  rewrite (field_id _ 8 (rm_id m)) by (reflexivity || field_len || apply Hwf). rewrite bind_Ret_l.
  rewrite (field_bytes _ 9 (rm_topic m)) by (reflexivity || field_len || done). rewrite bind_Ret_l.
  rewrite (field_bytes _ 10 (rm_data m)) by (reflexivity || field_len || done). rewrite bind_Ret_l.
  cbn [quasar_route_message_create quasar_message_id_get_next]. cbv beta iota.
  rewrite (field_bytes _ 11 (concat (map (le_bytes 4) (rm_pub_addrs m)))) by (reflexivity || field_len).
  rewrite bind_Ret_l.
  rewrite (field_bytes _ 12 (concat (map (le_bytes 2) (rm_pub_ports m)))) by (reflexivity || field_len).
  rewrite bind_Ret_l.
  rewrite (field_bytes _ 13 (bits_data (bf_bits (rm_visited m)))) by (reflexivity || field_len).
  rewrite bind_Ret_l. rewrite (proj2 (Z.eqb_eq _ _)) by lia. cbn [negb].
  rewrite (proj2 (Z.ltb_lt _ _) Hbp). unfold route_received. do 4 f_equal.
  - simpl. f_equal. by destruct (bf_bits (rm_visited m)).
  - rewrite <- Ha. unfold zlen. rewrite Nat2Z.id. apply split_words_concat, Hwf.
  - rewrite <- Hp. unfold zlen. rewrite Nat2Z.id. apply split_words_concat, Hwf.
Qed.

(** ** Parsing arbitrary input *)

Section parsing.
Context (data : list Z) (Hok : bytes_ok data).

Lemma read_u32_at_total off :
  0 <= off → off + 4 <= zlen data → ∃ w, read_u32_at data off = Ret w ∧ is_u32 w.
Proof.
  intros H1 H2. unfold read_u32_at. rewrite read_bytes_ret by lia. eexists. split; [reflexivity|].
  pose proof (le_decode_range (take (Z.to_nat 4) (drop (Z.to_nat off) data))
    ltac:(by apply Forall_take, Forall_drop)) as Hr.
  unfold zlen in *. rewrite length_take, length_drop in Hr.
  replace (Z.of_nat (Z.to_nat 4 `min` (length data - Z.to_nat off))) with 4 in Hr by lia. exact Hr.
Qed.

Lemma read_header_total i :
  0 <= i < 8 → 32 <= zlen data → ∃ w, read_header data i = Ret w ∧ is_u32 w.
Proof.
  intros Hi Hl. destruct (read_u32_at_total (4 * i)) as (w & E & _); [lia|lia|].
  unfold read_header. rewrite E. eexists. split; [reflexivity|]. apply htonl_range.
Qed.

Lemma read_uint64_total off :
  0 <= off → off + 8 <= zlen data → ∃ x, read_uint64 data off = Ret x ∧ is_u64 x.
Proof.
  intros H1 H2. destruct (read_u32_at_total off) as (h & Eh & Hh); [lia|lia|].
  destruct (read_u32_at_total (off + 4)) as (l & El & Hl); [lia|lia|].
  unfold read_uint64. rewrite Eh, bind_Ret_l, El, bind_Ret_l. eexists. split; [reflexivity|].
  pose proof (htonl_range h) as Hh'. pose proof (htonl_range l) as Hl'. unfold ntohl.
  rewrite lor_shiftl_add by done. unfold is_u64, is_u32 in *. lia.
Qed.

Lemma id_deserialize_total off :
  0 <= off → off + 24 <= zlen data → ∃ id, quasar_message_id_deserialize data off = Ret id ∧ id_wf id.
Proof.
  intros H1 H2. destruct (read_uint64_total off) as (a & Ea & Ha); [lia|lia|].
  destruct (read_uint64_total (off + 8)) as (b & Eb & Hb); [lia|lia|].
  destruct (read_uint64_total (off + 16)) as (c & Ec & Hc); [lia|lia|].
  unfold quasar_message_id_deserialize. rewrite Ea, bind_Ret_l, Eb, bind_Ret_l, Ec, bind_Ret_l.
  eexists. split; [reflexivity|]. done.
Qed.
End parsing.

(** What the parser guarantees of an accepted message: everything but a
    non-empty visited filter. *)
Definition route_accepted (m : quasar_route_message_t) : Prop :=
  route_fits m ∧ (0 < bf_size (rm_visited m) → route_wf m).

Lemma route_deserialize_total clock g data :
  bytes_ok data →
  ∃ r g', quasar_route_message_deserialize clock g (Some data) = Ret (r, g') ∧
    match r with None => True | Some m => route_accepted m end.
Proof.
  intros Hok. unfold quasar_route_message_deserialize.
  destruct (Z.ltb_spec (zlen data) (8 * 4)) as [|Hlen]; [by eexists _, _|].
  destruct (read_header_total data Hok 0) as (magic & E0 & _); [lia|lia|].
  destruct (read_header_total data Hok 1) as (version & E1 & _); [lia|lia|].
  destruct (read_header_total data Hok 2) as (tl & E2 & H2); [lia|lia|].
  destruct (read_header_total data Hok 3) as (dl & E3 & H3); [lia|lia|].
  destruct (read_header_total data Hok 4) as (hops & E4 & H4); [lia|lia|].
  destruct (read_header_total data Hok 5) as (pc & E5 & H5); [lia|lia|].
  destruct (read_header_total data Hok 6) as (vs & E6 & H6); [lia|lia|].
  destruct (read_header_total data Hok 7) as (vh & E7 & H7); [lia|lia|].
  rewrite E0, E1, !bind_Ret_l. destruct (_ || _); [by eexists _, _|].
  rewrite E2, E3, E4, E5, E6, E7, !bind_Ret_l. clear E0 E1 E2 E3 E4 E5 E6 E7.
  destruct (_ || _) eqn:Emax; [by eexists _, _|]. apply orb_false_iff in Emax as [Et Ed].
  apply Z.ltb_ge in Et, Ed. destruct (Z.ltb_spec MERIDIAN_MAX_NODES pc) as [|Hpc]; [by eexists _, _|].
  unfold is_u32, MERIDIAN_MAX_PAYLOAD_SIZE, MERIDIAN_MAX_NODES, QUASAR_MESSAGE_ID_SIZE in *.
  rewrite !(u64_id (pc * _)) by (unfold is_u64; lia). rewrite !Z.div_mul by lia.
  rewrite !Z.eqb_refl. cbn [negb].
  pose proof (byte_size_of_bound vs ltac:(lia)) as Hbb.
  assert (vs / 8 <= 2 ^ 32) by (apply Z.div_le_upper_bound; lia).
  set (vb := if 0 <? vs then byte_size_of vs else 0).
  assert (Hvb : 0 <= vb <= 2 ^ 32 + 1) by (unfold vb; destruct (0 <? vs); lia).
  rewrite !(u64_id (_ + _)) by (unfold is_u64; lia).
  do 3 (rewrite (proj2 (Z.ltb_ge _ _)) by lia).
  destruct (Z.ltb_spec (zlen data) (8 * 4 + 24 + tl + dl + pc * 4 + pc * 2 + vb)) as [|Hexp];
    [by eexists _, _|].
  destruct (id_deserialize_total data Hok (8 * 4)) as (id & Eid & Hid); [lia|lia|].
  rewrite Eid, bind_Ret_l. rewrite (read_bytes_ret _ _ tl) by lia. rewrite bind_Ret_l.
  rewrite (read_bytes_ret _ _ dl) by lia. rewrite bind_Ret_l.
  cbn [quasar_route_message_create quasar_message_id_get_next]. cbv beta iota.
  rewrite (read_bytes_ret _ _ (pc * 4)) by lia. rewrite bind_Ret_l.
  rewrite (read_bytes_ret _ _ (pc * 2)) by lia. rewrite bind_Ret_l.
  rewrite (read_bytes_ret _ _ vb) by lia. rewrite bind_Ret_l.
  rewrite (proj2 (Z.eqb_eq _ _)) by lia. cbn [negb].
  assert (Hsub : ∀ o n, bytes_ok (take n (drop o data))) by (intros; by apply Forall_take, Forall_drop).
  eexists _, _. split; [reflexivity|]. split.
  - unfold route_fits, zlen, MERIDIAN_MAX_PAYLOAD_SIZE, MERIDIAN_MAX_NODES in *.
    cbn. rewrite !length_take, !length_drop. lia.
  - cbn [rm_visited bf_size bloom_filter_create]. intros Hvs.
    assert (Evb : vb = byte_size_of vs) by (unfold vb; by rewrite (proj2 (Z.ltb_lt _ _) Hvs)).
    destruct (byte_size_of_pos vs) as [Hb1 Hb2]; [lia|]. clearbody vb. subst vb.
    rewrite (proj2 (Z.ltb_lt 0 (byte_size_of vs))) by lia.
    split; cbn; [done|apply Hsub|apply Hsub|done| | | | |lia| |done|done].
    + unfold zlen. rewrite split_words_length. lia.
    + unfold zlen. rewrite split_words_length. lia.
    + exact (split_words_range 4 _ _ (Hsub _ _)).
    + exact (split_words_range 2 _ _ (Hsub _ _)).
    + split; cbn; [apply Hsub| |done|done|done].
      unfold bitset_size, zlen in *. cbn. rewrite length_take, length_drop. lia.
Qed.

(** ** Properties *)

(** C9. The route message codec: a message within the receiver's limits is
    serialized, and the receiver, whatever follows in the buffer, rebuilds the
    same identifier, topic, payload, hop budget, publishers and visited set (the
    filter's insertion counter is not transmitted); the visited set answers
    every query as before. *)
Theorem route_codec_roundtrip XXH3 clock g m suf :
  route_wf m → route_fits m →
  ∃ buf, quasar_route_message_serialize m = Ret (Some buf) ∧
    quasar_route_message_deserialize clock g (Some (buf ++ suf)) = Ret (Some (route_received m), u64 (g + 1)) ∧
    ∀ n, quasar_route_message_has_visited XXH3 (route_received m) n = quasar_route_message_has_visited XXH3 m n.
Proof.
  intros Hwf Hf. exists (concat (route_fields m)).
  split_and!; [by apply route_serialize_ok, route_fits_small|by apply route_deserialize_ok|].
  intros [n|]; [|done]. simpl. unfold bloom_filter_contains_nn. simpl.
  destruct (route_wf_seeds m Hwf) as [-> ->]. done.
Qed.

(** C8. The parser is safe on arbitrary bytes: it never reads outside the
    packet and always consumes exactly the announced length; it returns NULL or
    a message whose fields are in range, within the limits, and whose invariant
    holds whenever the announced visited filter is not empty. *)
Theorem route_parser_safe clock g data :
  bytes_ok data →
  ∃ r g', quasar_route_message_deserialize clock g (Some data) = Ret (r, g') ∧
    match r with None => True | Some m => route_accepted m end.
Proof. apply route_deserialize_total. Qed.

(** A packet that announces an empty visited filter with one hash function. *)
Definition zero_filter_packet : list Z :=
  concat (map header_word [QUASAR_ROUTE_MAGIC; QUASAR_ROUTE_VERSION; 0; 0; 5; 0; 0; 1]) ++
  replicate 24 0.

(** The exception is reachable: a packet of 56 bytes is accepted with a
    visited filter of zero bits, and recording the first hop in it divides by
    zero. *)
Theorem route_zero_filter_crash XXH3 clock g node :
  ∃ m, quasar_route_message_deserialize clock g (Some zero_filter_packet) = Ret (Some m, u64 (g + 1)) ∧
    quasar_route_message_add_visited XXH3 m (Some node) = Trap.
Proof.
  eexists. split.
  { unfold quasar_route_message_deserialize, quasar_route_message_create, quasar_message_id_get_next.
    generalize (u64 (g + 1)). intros g'. generalize (u64 (clock g).1) (u64 (clock g).2). intros t n.
    vm_compute. reflexivity. }
  cbn [quasar_route_message_add_visited rm_visited].
  rewrite bloom_add_zero_size; [done|done|by vm_compute].
Qed.

(** ** Visited and publisher sets *)

Lemma route_create_wf clock g t d hops size k :
  is_u64 g → bytes_ok t → bytes_ok d → is_u32 hops → 0 < size → is_u32 size → is_u32 k →
  ∃ m, quasar_route_message_create clock g (Some t) (Some d) hops size k = (Some m, u64 (g + 1)) ∧
    route_wf m ∧ rm_topic m = t ∧ rm_data m = d ∧ rm_hops_remaining m = hops ∧ rm_pub_count m = 0.
Proof.
  intros Hg Ht Hd Hh Hs Hsu Hk. eexists. split; [reflexivity|]. split_and!; try done.
  split; cbn; try done.
  - apply get_next_wf. done.
  - by apply bloom_create_wf.
Qed.

Section visited_lemmas.
Context (XXH3 : list Z → Z → Z).

(** Recording a node keeps the message well formed, makes the node visited
    and no node unvisited. *)
Lemma route_add_visited_spec m n :
  route_wf m →
  ∃ m', quasar_route_message_add_visited XXH3 m (Some n) = Ret (0, m') ∧ route_wf m' ∧
    m' = rm_with_visited m (rm_visited m') ∧
    quasar_route_message_has_visited XXH3 m' (Some n) = Ret true ∧
    ∀ n', quasar_route_message_has_visited XXH3 m n' = Ret true →
          quasar_route_message_has_visited XXH3 m' n' = Ret true.
Proof.
  intros Hwf. destruct (bloom_add_spec XXH3 (rm_visited m) (node_key (node_addr n) (node_port n)))
    as (v & E & Hv & (Hs1 & Hs2 & Hs3 & Hs4) & _); [apply Hwf|].
  destruct (mf_add_spec (MembershipFilter := bloom_membership XXH3) (rm_visited m)
    (node_key (node_addr n) (node_port n))) as (v' & E' & _ & Hhas & Hmono); [apply Hwf|].
  simpl in E'. rewrite E in E'. injection E' as <-.
  exists (rm_with_visited m v). cbn [quasar_route_message_add_visited]. rewrite E.
  split_and!; [done| |done|exact Hhas|].
  - destruct Hwf. split; cbn; try done; rewrite ?Hs1, ?Hs3, ?Hs4; done.
  - intros [n'|]; [|done]. apply Hmono.
Qed.

Lemma route_has_visited_total m n :
  route_wf m → ∃ b, quasar_route_message_has_visited XXH3 m n = Ret b.
Proof.
  intros Hwf. destruct n as [n|]; [|by eexists]. apply bloom_contains_total, Hwf.
Qed.
End visited_lemmas.

Definition node_wf (n : meridian_node_t) : Prop := is_u32 (node_addr n) ∧ is_u16 (node_port n).

Lemma route_add_publisher_spec m n :
  route_wf m → node_wf n → rm_pub_count m < 2 ^ 30 → rm_pub_capacity m < 2 ^ 30 →
  ∃ m', quasar_route_message_add_publisher m (Some n) = Ret (0, m') ∧ route_wf m' ∧
    rm_pub_count m' = rm_pub_count m + 1 ∧ rm_visited m' = rm_visited m ∧ rm_id m' = rm_id m ∧
    rm_topic m' = rm_topic m ∧ rm_data m' = rm_data m ∧ rm_hops_remaining m' = rm_hops_remaining m ∧
    rm_pub_addrs m' = rm_pub_addrs m ++ [node_addr n] ∧ rm_pub_ports m' = rm_pub_ports m ++ [node_port n] ∧
    quasar_route_message_has_publisher m' (Some n) = true.
Proof.
  intros Hwf [Hna Hnp] Hc Hcap. pose proof (route_wf_addrs_len m Hwf) as Ha. pose proof (route_wf_ports_len m Hwf) as Hp.
  pose proof (route_wf_cap m Hwf). pose proof (zlen_nonneg (rm_pub_addrs m)).
  cbn [quasar_route_message_add_publisher].
  set (cap := if rm_pub_capacity m <=? rm_pub_count m then _ else _).
  assert (Hcap' : rm_pub_count m < cap < 2 ^ 31).
  { unfold cap. zcases; try lia. rewrite u32_id by (unfold is_u32; lia). lia. }
  clearbody cap. rewrite (proj2 (Z.leb_gt _ _)) by lia.
  rewrite (u32_id (rm_pub_count m + 1)) by (unfold is_u32; lia).
  eexists. split; [reflexivity|]. split_and!; try done.
  - destruct Hwf. split; cbn; try done; rewrite ?zlen_app; try (unfold zlen in *; simpl; lia).
    + apply Forall_app. split; [done|]. by constructor.
    + apply Forall_app. split; [done|]. by constructor.
  - cbn. rewrite zip_with_app by (unfold zlen in *; lia). rewrite existsb_app. simpl.
    rewrite !Z.eqb_refl. by rewrite orb_true_r.
Qed.

(** ** Concrete instances *)

Definition demo_route : quasar_route_message_t :=
  mkRouteMsg (mkId 1 2 3) [116] [104; 105] (bloom_filter_create 2048 3) 5 [16777343] [4433] 1 4.

Lemma demo_route_wf : route_wf demo_route.
Proof.
  split; cbn -[bloom_filter_create].
  - repeat split; unfold is_u64; simpl; lia.
  - repeat constructor; unfold is_u8; lia.
  - repeat constructor; unfold is_u8; lia.
  - unfold is_u32; lia.
  - done.
  - done.
  - repeat constructor; unfold is_u32; lia.
  - repeat constructor; unfold is_u16; lia.
  - lia.
  - apply bloom_create_wf; [lia|unfold is_u32; lia].
  - unfold is_u32; simpl; lia.
  - done.
Qed.

Lemma route_codec_roundtrip_witness :
  ∃ buf, quasar_route_message_serialize demo_route = Ret (Some buf) ∧
    quasar_route_message_deserialize (fun n => (0, n)) 7 (Some (buf ++ [1; 2])) =
    Ret (Some (route_received demo_route), 8).
Proof.
  destruct (route_codec_roundtrip (fun _ s => s) (fun n => (0, n)) 7 demo_route [1; 2] demo_route_wf)
    as (buf & E1 & E2 & _); [by vm_compute|]. by exists buf.
Defined.

Lemma route_parser_safe_witness :
  ∃ r g', quasar_route_message_deserialize (fun n => (0, n)) 7 (Some [1; 2; 3]) = Ret (r, g').
Proof.
  destruct (route_parser_safe (fun n => (0, n)) 7 [1; 2; 3]) as (r & g' & E & _).
  - repeat constructor; vm_compute; congruence.
  - by exists r, g'.
Defined.
