(* ===== verification/Protocol.v ===== *)
(** * Protocol: the peer table of [src/Network/Meridian/meridian_protocol.c]

    Seed nodes, connected peers, packet transmission and local address.  The
    table has 64 slots; a slot holds a connection handle and the node it leads
    to, which is NULL for inbound connections.  msquic is not part of the
    sources: the outcomes of opening and starting a connection are arguments of
    [meridian_protocol_connect], and [DatagramSend] tells for each handle and
    buffer whether the datagram was accepted. *)

From stdpp Require Import relations.
From S2P Require Import Prelude Bitset Endian Node Ring.

Definition MAX_CONNECTED_PEERS : Z := 64.
Definition MAX_SEED_NODES : Z := 16.

(** A slot: [connected_peers[i]] and [peer_nodes[i]]. *)
Record peer_slot := mkPeer {
  peer_conn : option Z;
  peer_node : option meridian_node_t
}.

Record meridian_protocol_t := mkProtocol {
  mp_running : bool;
  mp_local_s_addr : Z;
  mp_local_sin_port : Z;
  mp_seed_nodes : list meridian_node_t;
  mp_peers : list peer_slot;
  mp_ring_set : meridian_ring_set_t
}.

Definition ntohs (x : Z) : Z := le_decode (be_bytes 2 x).

Definition mp_with_peers (p : meridian_protocol_t) (l : list peer_slot) : meridian_protocol_t :=
  mkProtocol (mp_running p) (mp_local_s_addr p) (mp_local_sin_port p) (mp_seed_nodes p) l (mp_ring_set p).

Definition meridian_protocol_add_seed_node (p : meridian_protocol_t) (addr port : Z)
    : Z * meridian_protocol_t :=
  if MAX_SEED_NODES <=? zlen (mp_seed_nodes p) then (-1, p)
  else (0, mkProtocol (mp_running p) (mp_local_s_addr p) (mp_local_sin_port p)
             (mp_seed_nodes p ++ [meridian_node_create addr port None]) (mp_peers p) (mp_ring_set p)).

(** [peer_nodes[i] && peer_nodes[i]->addr == addr && peer_nodes[i]->port == port]. *)
Definition slot_matches (addr port : Z) (s : peer_slot) : bool :=
  match peer_node s with
  | Some n => (node_addr n =? addr) && (node_port n =? port)
  | None => false
  end.

(** [opened]: the handle from [ConnectionOpen], if it succeeded; [started]:
    whether [ConnectionStart] did. *)
Definition meridian_protocol_connect (p : meridian_protocol_t) (addr port : Z)
    (opened : option Z) (started : bool) : Z * meridian_protocol_t :=
  if negb (mp_running p) then (-1, p)
  else if MAX_CONNECTED_PEERS <=? zlen (mp_peers p) then (-1, p)
  else if existsb (slot_matches addr port) (mp_peers p) then (0, p)
  else
    match opened with
    | None => (-1, p)
    | Some conn =>
        if negb started then (-1, p)
        else (0, mp_with_peers p (mp_peers p ++ [mkPeer (Some conn) (Some (meridian_node_create addr port None))]))
    end.

(** An inbound connection accepted by [ListenerCallback]. *)
Definition listener_new_connection (p : meridian_protocol_t) (conn : Z) : meridian_protocol_t :=
  if zlen (mp_peers p) <? MAX_CONNECTED_PEERS
  then mp_with_peers p (mp_peers p ++ [mkPeer (Some conn) None]) else p.

(** Removes the first match by shifting the rest down. *)
Fixpoint remove_peer (addr port : Z) (l : list peer_slot) : option (list peer_slot) :=
  match l with
  | [] => None
  | s :: l' => if slot_matches addr port s then Some l' else (cons s) <$> remove_peer addr port l'
  end.

Definition meridian_protocol_disconnect (p : meridian_protocol_t) (addr port : Z)
    : Z * meridian_protocol_t :=
  if negb (mp_running p) then (-1, p)
  else match remove_peer addr port (mp_peers p) with
       | Some l => (0, mp_with_peers p l)
       | None => (-1, p)
       end.

(** [*addr], [*port] keep the caller's initial zeroes on failure. *)
Definition meridian_protocol_get_local_node (protocol : option meridian_protocol_t) : Z * (Z * Z) :=
  match protocol with
  | None => (-1, (0, 0))
  | Some p => if negb (mp_running p) then (-1, (0, 0))
              else (0, (mp_local_s_addr p, ntohs (mp_local_sin_port p)))
  end.

Definition meridian_protocol_get_connected_peers (p : meridian_protocol_t) : list (option meridian_node_t) :=
  map peer_node (mp_peers p).

(** Stopping closes every connection and empties the table. *)
Definition meridian_protocol_stop (p : meridian_protocol_t) : Z * meridian_protocol_t :=
  if negb (mp_running p) then (0, p)
  else (0, mkProtocol false (mp_local_s_addr p) (mp_local_sin_port p) (mp_seed_nodes p) [] (mp_ring_set p)).

Section sending.
Context (DatagramSend : Z → list Z → bool).

(** The connection of the first slot that matches, NULL if there is none. *)
Fixpoint find_connection (addr port : Z) (l : list peer_slot) : option Z :=
  match l with
  | [] => None
  | s :: l' => if slot_matches addr port s then peer_conn s else find_connection addr port l'
  end.

(** The result code and the datagrams handed to msquic. *)
Definition meridian_protocol_send_packet (protocol : option meridian_protocol_t) (data : list Z)
    (target : option meridian_node_t) : Z * list (Z * list Z) :=
  match protocol, target with
  | Some p, Some t =>
      if negb (mp_running p) then (-1, [])
      else match find_connection (node_addr t) (node_port t) (mp_peers p) with
           | None => (-1, [])
           | Some conn => (if DatagramSend conn data then 0 else -1, [(conn, data)])
           end
  | _, _ => (-1, [])
  end.

Fixpoint broadcast_loop (p : meridian_protocol_t) (data : list Z) (l : list peer_slot)
    (result : Z) (sent : list (Z * list Z)) : Z * list (Z * list Z) :=
  match l with
  | [] => (result, sent)
  | s :: l' =>
      match peer_node s with
      | None => broadcast_loop p data l' result sent
      | Some n =>
          let '(rc, d) := meridian_protocol_send_packet (Some p) data (Some n) in
          broadcast_loop p data l' (if negb (rc =? 0) then -1 else result) (sent ++ d)
      end
  end.

Definition meridian_protocol_broadcast (protocol : option meridian_protocol_t) (data : list Z)
    : Z * list (Z * list Z) :=
  match protocol with
  | None => (-1, [])
  | Some p => broadcast_loop p data (mp_peers p) 0 []
  end.
End sending.

(** ** Invariant *)

Definition slot_key (s : peer_slot) : option (Z * Z) :=
  (fun n => (node_addr n, node_port n)) <$> peer_node s.

(** At most 64 peers, 16 seeds, no two slots for the same address, every slot
    connected. *)
Record protocol_wf (p : meridian_protocol_t) : Prop := {
  mp_wf_peers : zlen (mp_peers p) <= MAX_CONNECTED_PEERS;
  mp_wf_seeds : zlen (mp_seed_nodes p) <= MAX_SEED_NODES;
  mp_wf_nodup : base.NoDup (omap slot_key (mp_peers p));
  mp_wf_conn : Forall (fun s => is_Some (peer_conn s)) (mp_peers p)
}.

Inductive protocol_step (p : meridian_protocol_t) : meridian_protocol_t → Prop :=
| pstep_seed a q : protocol_step p (meridian_protocol_add_seed_node p a q).2
| pstep_connect a q o b : protocol_step p (meridian_protocol_connect p a q o b).2
| pstep_inbound c : protocol_step p (listener_new_connection p c)
| pstep_disconnect a q : protocol_step p (meridian_protocol_disconnect p a q).2
| pstep_stop : protocol_step p (meridian_protocol_stop p).2.

Lemma slot_matches_key a q s : slot_matches a q s = true ↔ slot_key s = Some (a, q).
Proof.
  unfold slot_matches, slot_key. destruct (peer_node s) as [n|]; simpl; [|done].
  rewrite andb_true_iff, !Z.eqb_eq. split; [by intros [-> ->]|by intros [= -> ->]].
Qed.

Lemma slot_not_present a q l :
  existsb (slot_matches a q) l = false → (a, q) ∉ omap slot_key l.
Proof.
  intros H Hin. apply list_elem_of_omap in Hin as (s & Hs & Hk). apply slot_matches_key in Hk.
  assert (existsb (slot_matches a q) l = true); [|congruence].
  apply existsb_exists. exists s. split; [|done]. by apply list_elem_of_In.
Qed.

Lemma remove_peer_spec a q l l' :
  remove_peer a q l = Some l' →
  ∃ l1 s l2, l = l1 ++ s :: l2 ∧ l' = l1 ++ l2 ∧ slot_key s = Some (a, q) ∧
    Forall (fun t => slot_key t ≠ Some (a, q)) l1.
Proof.
  revert l'. induction l as [|s l IH]; intros l'; simpl; [done|].
  destruct (slot_matches a q s) eqn:E.
  - intros [= <-]. exists [], s, l. split_and!; [done|done|by apply slot_matches_key|constructor].
  - intros H. apply fmap_Some in H as (l0 & H0 & ->). destruct (IH l0 H0) as (l1 & t & l2 & -> & -> & Hk & Hf).
    exists (s :: l1), t, l2. split_and!; [done|done|done|]. constructor; [|done].
    intros Hs. apply slot_matches_key in Hs. congruence.
Qed.

Lemma protocol_step_wf p p' : protocol_step p p' → protocol_wf p → protocol_wf p'.
Proof.
  intros [a q|a q o b|c|a q|] Hwf; pose proof Hwf as [H1 H2 H3 H4].
  - unfold meridian_protocol_add_seed_node. destruct (Z.leb_spec MAX_SEED_NODES (zlen (mp_seed_nodes p))); [done|].
    split; simpl; try done. rewrite zlen_app. unfold zlen in *. simpl. lia.
  - unfold meridian_protocol_connect. destruct (mp_running p); simpl; [|done].
    destruct (Z.leb_spec MAX_CONNECTED_PEERS (zlen (mp_peers p))); [done|].
    destruct (existsb _ _) eqn:Ex; [done|]. destruct o as [c|]; [|done]. destruct b; [|done].
    split; simpl; try done.
    + rewrite zlen_app. unfold zlen in *. simpl. lia.
    + rewrite omap_app. apply list.NoDup_app. split_and!; [done| |].
      * intros x Hx Hin. apply list_elem_of_singleton in Hin as ->. by apply (slot_not_present _ _ _ Ex).
      * apply list.NoDup_singleton.
    + apply Forall_app. split; [done|]. by repeat constructor.
  - unfold listener_new_connection. destruct (Z.ltb_spec (zlen (mp_peers p)) MAX_CONNECTED_PEERS); [|done].
    split; simpl; try done.
    + rewrite zlen_app. unfold zlen in *. simpl. lia.
    + rewrite omap_app. simpl. by rewrite app_nil_r.
    + apply Forall_app. split; [done|]. by repeat constructor.
  - unfold meridian_protocol_disconnect. destruct (mp_running p); simpl; [|done].
    destruct (remove_peer a q (mp_peers p)) eqn:E; [|done].
    apply remove_peer_spec in E as (l1 & s & l2 & E & -> & Hk & _). rewrite E in *.
    split; simpl; try done.
    + rewrite !zlen_app in *. unfold zlen in *. simpl in *. lia.
    + rewrite !omap_app in *. simpl in H3. rewrite Hk in H3.
      apply list.NoDup_app in H3 as (N1 & N2 & N3). apply list.NoDup_cons in N3 as [N3 N4].
      apply list.NoDup_app. split_and!; [done| |done]. intros x Hx Hin. apply (N2 x Hx). by right.
    + apply Forall_app in H4 as [F1 F2]. apply Forall_cons_1 in F2 as [_ F2]. by apply Forall_app.
  - unfold meridian_protocol_stop. destruct (mp_running p); simpl; [|done].
    split; simpl; try done. constructor.
Qed.

Lemma find_connection_in l n c :
  base.NoDup (omap slot_key l) → mkPeer c (Some n) ∈ l → find_connection (node_addr n) (node_port n) l = c.
Proof.
  induction l as [|s l IH]; intros Hnd Hin; [by apply elem_of_nil in Hin|]. simpl.
  apply elem_of_cons in Hin as [<-|Hin].
  - unfold slot_matches. simpl. by rewrite !Z.eqb_refl.
  - destruct (slot_matches _ _ s) eqn:E.
    + apply slot_matches_key in E. simpl in Hnd. rewrite E in Hnd.
      apply list.NoDup_cons in Hnd as [Hn _]. destruct Hn. apply list_elem_of_omap.
      eexists. split; [exact Hin|]. done.
    + apply IH; [|done]. simpl in Hnd. destruct (slot_key s); [|done]. by apply list.NoDup_cons in Hnd as [_ ?].
Qed.

(** The handles of the peers whose address is known, in table order. *)
Definition known_connections (l : list peer_slot) : list Z :=
  omap (fun s => match peer_node s with Some _ => peer_conn s | None => None end) l.

Lemma broadcast_loop_spec DatagramSend p data l r sent :
  mp_running p = true → protocol_wf p → (∀ s, s ∈ l → s ∈ mp_peers p) →
  broadcast_loop DatagramSend p data l r sent =
  (if forallb (fun c => DatagramSend c data) (known_connections l) then r else -1,
   sent ++ map (fun c => (c, data)) (known_connections l)).
Proof.
  intros Hrun Hwf. revert r sent. induction l as [|s l IH]; intros r sent Hin; simpl.
  - by rewrite app_nil_r.
  - assert (Hs : s ∈ mp_peers p) by (apply Hin; by left).
    assert (Hl : ∀ t, t ∈ l → t ∈ mp_peers p) by (intros t Ht; apply Hin; by right).
    destruct s as [conn [n|]]; simpl; [|by apply IH].
    rewrite Hrun. simpl.
    pose proof (mp_wf_conn p Hwf) as Hc. rewrite list.Forall_forall in Hc.
    destruct (Hc _ Hs) as [c Ec]. simpl in Ec. subst conn.
    rewrite (find_connection_in _ n (Some c) (mp_wf_nodup p Hwf) Hs). rewrite IH by done.
    unfold known_connections. simpl. rewrite <- (assoc_L (++)). f_equal.
    destruct (DatagramSend c data); simpl; [done|]. by destruct (forallb _ _).
Qed.

(** ** Properties *)

(** The peer table stays consistent over any sequence of operations: at
    most 64 peers and 16 seeds, no two slots for one address, and a connection
    in every slot. *)
Theorem protocol_peer_table_invariant p p' :
  protocol_wf p → rtc protocol_step p p' → protocol_wf p'.
Proof.
  intros Hwf Hrun. induction Hrun as [|p1 p2 p3 Hstep _ IH]; [done|]. by eapply IH, protocol_step_wf.
Qed.

(** Broadcast on a running node hands exactly one datagram to each peer
    whose address is known, in table order, and reports success exactly when
    all were accepted; connecting to a new address makes it one of them, and
    packets for it go to its connection. *)
Theorem protocol_broadcast_spec DatagramSend p data addr port conn :
  mp_running p = true → protocol_wf p →
  meridian_protocol_broadcast DatagramSend (Some p) data =
    (if forallb (fun c => DatagramSend c data) (known_connections (mp_peers p)) then 0 else -1,
     map (fun c => (c, data)) (known_connections (mp_peers p))) ∧
  (zlen (mp_peers p) < MAX_CONNECTED_PEERS → existsb (slot_matches addr port) (mp_peers p) = false →
   let '(rc, p') := meridian_protocol_connect p addr port (Some conn) true in
   rc = 0 ∧ known_connections (mp_peers p') = known_connections (mp_peers p) ++ [conn] ∧
   meridian_protocol_send_packet DatagramSend (Some p') data
     (Some (meridian_node_create_unidentified addr port)) =
     (if DatagramSend conn data then 0 else -1, [(conn, data)])).
Proof.
  intros Hrun Hwf. split.
  - unfold meridian_protocol_broadcast. rewrite broadcast_loop_spec by done. done.
  - intros Hlen Hnew.
    destruct (meridian_protocol_connect p addr port (Some conn) true) as [rc p'] eqn:E.
    assert (Hwf' : protocol_wf p').
    { pose proof (protocol_step_wf p p') as H. apply H; [|done].
      pose proof (pstep_connect p addr port (Some conn) true) as Hs. by rewrite E in Hs. }
    unfold meridian_protocol_connect in E. rewrite Hrun, Hnew in E. simpl in E.
    rewrite (proj2 (Z.leb_gt _ _)) in E by done. injection E as <- <-. split_and!; [done| |].
    + unfold known_connections. simpl. by rewrite omap_app.
    + unfold meridian_protocol_send_packet. cbn [mp_running mp_with_peers]. rewrite Hrun. cbn [negb].
      rewrite (find_connection_in _ (meridian_node_create_unidentified addr port) (Some conn));
        [done|apply Hwf'|]. apply elem_of_app. right. by left.
Qed.

Definition demo_protocol : meridian_protocol_t :=
  mkProtocol true 16777343 20753 [] [mkPeer (Some 1) None; mkPeer (Some 2) (Some demo_node)] demo_rings.

Lemma demo_protocol_wf : protocol_wf demo_protocol.
Proof.
  split; [by vm_compute|by vm_compute| |repeat constructor; by eexists].
  simpl. apply list.NoDup_singleton.
Qed.

Lemma protocol_peer_table_invariant_witness :
  protocol_wf (meridian_protocol_disconnect demo_protocol 16777343 4433).2.
Proof.
  apply (protocol_peer_table_invariant demo_protocol); [apply demo_protocol_wf|].
  apply rtc_once, pstep_disconnect.
Defined.

Lemma protocol_broadcast_spec_witness :
  meridian_protocol_broadcast (fun _ _ => true) (Some demo_protocol) [1] = (0, [(2, [1])]).
Proof. apply (protocol_broadcast_spec (fun _ _ => true) demo_protocol [1] 0 0 0); [done|apply demo_protocol_wf]. Defined.
