(* ===== verification/Quasar.v ===== *)
(** * Quasar: the publish/subscribe overlay of [src/Network/Quasar/quasar.c]

    One node's state ([quasar_t]) and its handlers.  What a handler does to
    the outside is a log: [QDeliver] is the invocation of the message callback,
    [QSend] a call of [meridian_protocol_send_packet] with its result code,
    [QBroadcast] one of [meridian_protocol_broadcast].  The identifier
    generator is global to the process and part of [world].  Locks make each
    handler atomic; the callback does not call back into the node.  Neighbour
    filters and subscription topics are never NULL, since the places that store
    them allocate them. *)

From S2P Require Import Prelude Bitset Bloom ElasticBloom ElasticBloomSpec AttenuatedBloom Cbor BloomCodec Endian.
From S2P Require Import MessageId Node Route Ring Protocol.

Definition QUASAR_DEFAULT_SIZE : Z := 1024.
Definition QUASAR_DEFAULT_HASH_COUNT : Z := 3.
Definition QUASAR_DEFAULT_OMEGA : float32 := f32_three_quarters.
Definition QUASAR_DEFAULT_FP_BITS : Z := 8.
Definition QUASAR_DEFAULT_NEGATIVE_SIZE : Z := 2048.
Definition QUASAR_DEFAULT_NEGATIVE_HASHES : Z := 3.
Definition MERIDIAN_PACKET_TYPE_QUASAR_GOSSIP : Z := 50.

Record quasar_subscription_t := mkSub {
  sub_topic : list Z;
  sub_ttl : Z
}.

Record quasar_neighbor_filter_t := mkNf {
  nf_addr : Z;
  nf_port : Z;
  nf_filter : attenuated_bloom_filter_t
}.

Record quasar_t := mkQuasar {
  q_protocol : option meridian_protocol_t;
  q_routing : attenuated_bloom_filter_t;
  q_neighbor_filters : list quasar_neighbor_filter_t;
  q_local_subs : list quasar_subscription_t;
  q_max_hops : Z;
  q_alpha : Z;
  q_seen : bloom_filter_t;
  q_seen_size : Z;
  q_seen_hashes : Z;
  q_on_message : bool
}.

Inductive qevent : Type :=
| QDeliver (topic : list Z) (data : option (list Z))
| QSend (target : option meridian_node_t) (buf : list Z) (rc : Z)
| QBroadcast (buf : list Z) (rc : Z).

Record world := mkWorld {
  w_ids : Z;
  w_log : list qevent
}.

Definition w_emit (w : world) (e : qevent) : world := mkWorld (w_ids w) (w_log w ++ [e]).

Definition q_with (q : quasar_t) (routing : attenuated_bloom_filter_t)
    (nfs : list quasar_neighbor_filter_t) (subs : list quasar_subscription_t) (seen : bloom_filter_t)
    : quasar_t :=
  mkQuasar (q_protocol q) routing nfs subs (q_max_hops q) (q_alpha q) seen (q_seen_size q)
    (q_seen_hashes q) (q_on_message q).

Definition q_with_routing (q : quasar_t) (r : attenuated_bloom_filter_t) : quasar_t :=
  q_with q r (q_neighbor_filters q) (q_local_subs q) (q_seen q).
Definition q_with_neighbors (q : quasar_t) (l : list quasar_neighbor_filter_t) : quasar_t :=
  q_with q (q_routing q) l (q_local_subs q) (q_seen q).
Definition q_with_subs (q : quasar_t) (l : list quasar_subscription_t) : quasar_t :=
  q_with q (q_routing q) (q_neighbor_filters q) l (q_seen q).
Definition q_with_seen (q : quasar_t) (s : bloom_filter_t) : quasar_t :=
  q_with q (q_routing q) (q_neighbor_filters q) (q_local_subs q) s.

(** ** Life cycle *)

Definition quasar_create (protocol : option meridian_protocol_t)
    (max_hops alpha seen_size seen_hashes : Z) : quasar_t :=
  {| q_protocol := protocol;
     q_routing := attenuated_bloom_filter_create max_hops QUASAR_DEFAULT_SIZE
                    QUASAR_DEFAULT_HASH_COUNT QUASAR_DEFAULT_OMEGA QUASAR_DEFAULT_FP_BITS;
     q_neighbor_filters := [];
     q_local_subs := [];
     q_max_hops := max_hops;
     q_alpha := alpha;
     q_seen := bloom_filter_create seen_size seen_hashes;
     q_seen_size := seen_size;
     q_seen_hashes := seen_hashes;
     q_on_message := false |}.

Definition quasar_set_message_callback (q : quasar_t) (cb : bool) : quasar_t :=
  mkQuasar (q_protocol q) (q_routing q) (q_neighbor_filters q) (q_local_subs q) (q_max_hops q)
    (q_alpha q) (q_seen q) (q_seen_size q) (q_seen_hashes q) cb.

(** ** Neighbour filters *)

Definition nf_matches (addr port : Z) (nf : quasar_neighbor_filter_t) : bool :=
  (nf_addr nf =? addr) && (nf_port nf =? port).

Fixpoint find_neighbor (l : list quasar_neighbor_filter_t) (addr port : Z)
    : option attenuated_bloom_filter_t :=
  match l with
  | [] => None
  | nf :: l' => if nf_matches addr port nf then Some (nf_filter nf) else find_neighbor l' addr port
  end.

Definition quasar_get_neighbor_filter (q : quasar_t) (node : option meridian_node_t)
    : option attenuated_bloom_filter_t :=
  match node with
  | None => None
  | Some n => find_neighbor (q_neighbor_filters q) (node_addr n) (node_port n)
  end.

Definition quasar_get_or_create_neighbor_filter (q : quasar_t) (node : option meridian_node_t)
    : option attenuated_bloom_filter_t * quasar_t :=
  match node with
  | None => (None, q)
  | Some n =>
      match quasar_get_neighbor_filter q node with
      | Some f => (Some f, q)
      | None =>
          let f := attenuated_bloom_filter_create (q_max_hops q) QUASAR_DEFAULT_SIZE
                     QUASAR_DEFAULT_HASH_COUNT QUASAR_DEFAULT_OMEGA QUASAR_DEFAULT_FP_BITS in
          (Some f, q_with_neighbors q (q_neighbor_filters q ++ [mkNf (node_addr n) (node_port n) f]))
      end
  end.

(** Splices out the first match. *)
Fixpoint remove_neighbor (l : list quasar_neighbor_filter_t) (addr port : Z)
    : option (list quasar_neighbor_filter_t) :=
  match l with
  | [] => None
  | nf :: l' => if nf_matches addr port nf then Some l' else (cons nf) <$> remove_neighbor l' addr port
  end.

Definition quasar_remove_neighbor_filter (q : quasar_t) (node : option meridian_node_t) : Z * quasar_t :=
  match node with
  | None => (-1, q)
  | Some n =>
      match remove_neighbor (q_neighbor_filters q) (node_addr n) (node_port n) with
      | Some l => (0, q_with_neighbors q l)
      | None => (-1, q)
      end
  end.

(** ** Subscriptions *)

(** The scan of [local_subs] by length and [memcmp]. *)
Definition locally_subscribed (q : quasar_t) (topic : list Z) : bool :=
  existsb (fun s => bool_decide (sub_topic s = topic)) (q_local_subs q).

(** Splices out the first subscription to [topic]. *)
Fixpoint remove_sub (l : list quasar_subscription_t) (topic : list Z) : list quasar_subscription_t :=
  match l with
  | [] => []
  | s :: l' => if bool_decide (sub_topic s = topic) then l' else s :: remove_sub l' topic
  end.

Section handlers.
Context (XXH3 : list Z → Z → Z).

Definition quasar_subscribe (q : quasar_t) (topic : option (list Z)) (ttl : Z) : exec (Z * quasar_t) :=
  match topic with
  | None => Ret (-1, q)
  | Some t =>
      r <- attenuated_bloom_filter_subscribe_nn XXH3 (q_routing q) t ;;
      let subs := q_local_subs q ++ [mkSub t ttl] in
      match q_protocol q with
      | None => Ret (0, q_with q r (q_neighbor_filters q) subs (q_seen q))
      | Some p =>
          let '(_, (addr, port)) := meridian_protocol_get_local_node (Some p) in
          if negb (addr =? 0) || negb (port =? 0) then
            match attenuated_bloom_filter_get_level (Some r) 0 with
            | None => Ret (0, q_with q r (q_neighbor_filters q) subs (q_seen q))
            | Some level0 =>
                level0' <- elastic_bloom_filter_add_nn XXH3 level0 (node_key addr port) ;;
                Ret (0, q_with q (abf_with_levels r (<[0%nat := level0']> (abf_levels r)))
                          (q_neighbor_filters q) subs (q_seen q))
            end
          else Ret (0, q_with q r (q_neighbor_filters q) subs (q_seen q))
      end
  end.

Definition quasar_unsubscribe (q : quasar_t) (topic : option (list Z)) : exec (Z * quasar_t) :=
  match topic with
  | None => Ret (-1, q)
  | Some t =>
      r <- attenuated_bloom_filter_unsubscribe_nn XXH3 (q_routing q) t ;;
      Ret (0, q_with q r (q_neighbor_filters q) (remove_sub (q_local_subs q) t) (q_seen q))
  end.

(** The expiry scan: entries with a running TTL are decremented, and those
    that reach zero are removed from the list and from level 0. *)
Fixpoint tick_subs (routing : attenuated_bloom_filter_t) (l : list quasar_subscription_t)
    : exec (attenuated_bloom_filter_t * list quasar_subscription_t) :=
  match l with
  | [] => Ret (routing, [])
  | s :: l' =>
      if 0 <? sub_ttl s then
        if sub_ttl s - 1 =? 0 then
          r <- attenuated_bloom_filter_unsubscribe_nn XXH3 routing (sub_topic s) ;;
          tick_subs r l'
        else
          '(r, rest) <- tick_subs routing l' ;;
          Ret (r, mkSub (sub_topic s) (sub_ttl s - 1) :: rest)
      else
        '(r, rest) <- tick_subs routing l' ;;
        Ret (r, s :: rest)
  end.

Definition quasar_tick (q : quasar_t) : exec (Z * quasar_t) :=
  '(r, subs) <- tick_subs (q_routing q) (q_local_subs q) ;;
  Ret (0, q_with q r (q_neighbor_filters q) subs (q_seen q)).

(** ** Directed walk *)

(** Whether the level recognises one of the publishers' keys (the loop
    stops at the first). *)
Fixpoint any_contains (ebf : elastic_bloom_filter_t) (keys : list (list Z)) : exec bool :=
  match keys with
  | [] => Ret false
  | k :: keys' =>
      b <- elastic_bloom_filter_contains_nn XXH3 ebf k ;;
      if (b : bool) then Ret true else any_contains ebf keys'
  end.

(** The inner loop: the first neighbour whose filter has the topic at
    [level] and none of the publishers at that level. *)
Fixpoint directed_neighbor (level : Z) (nfs : list quasar_neighbor_filter_t) (topic : list Z)
    (keys : list (list Z)) : exec (option quasar_neighbor_filter_t) :=
  match nfs with
  | [] => Ret None
  | nf :: nfs' =>
      match attenuated_bloom_filter_get_level (Some (nf_filter nf)) level with
      | None => directed_neighbor level nfs' topic keys
      | Some ebf =>
          has <- elastic_bloom_filter_contains_nn XXH3 ebf topic ;;
          if negb has then directed_neighbor level nfs' topic keys
          else
            negated <- any_contains ebf keys ;;
            if (negated : bool) then directed_neighbor level nfs' topic keys else Ret (Some nf)
      end
  end.

(** The outer loop, over [n] levels from [level] on. *)
Fixpoint directed_level (n : nat) (level : Z) (nfs : list quasar_neighbor_filter_t) (topic : list Z)
    (keys : list (list Z)) : exec (option quasar_neighbor_filter_t) :=
  match n with
  | O => Ret None
  | S n' =>
      r <- directed_neighbor level nfs topic keys ;;
      match r with
      | Some nf => Ret (Some nf)
      | None => directed_level n' (level + 1) nfs topic keys
      end
  end.

Definition directed_walk (q : quasar_t) (topic : list Z) (keys : list (list Z))
    : exec (option quasar_neighbor_filter_t) :=
  directed_level (Z.to_nat (abf_level_count (q_routing q))) 0 (q_neighbor_filters q) topic keys.

Context (clock : Z → Z * Z) (DatagramSend : Z → list Z → bool).

(** [if (serialize(msg, &buf, &len) == 0) send_packet(protocol, buf, len, target)]. *)
Definition send_route (protocol : option meridian_protocol_t) (m : quasar_route_message_t)
    (target : option meridian_node_t) (w : world) : exec world :=
  r <- quasar_route_message_serialize m ;;
  match r with
  | None => Ret w
  | Some buf => Ret (w_emit w (QSend target buf
                       (meridian_protocol_send_packet DatagramSend protocol buf target).1))
  end.

(** ** Random walk *)

(** [for (i = 0; i < num_peers && sent < alpha; i++)]. *)
Fixpoint random_walk (protocol : option meridian_protocol_t) (alpha : Z)
    (peers : list (option meridian_node_t)) (sent : Z) (m : quasar_route_message_t) (w : world)
    : exec (quasar_route_message_t * world) :=
  match peers with
  | [] => Ret (m, w)
  | peer :: peers' =>
      if alpha <=? sent then Ret (m, w)
      else
        visited <- quasar_route_message_has_visited XXH3 m peer ;;
        if (visited : bool) then random_walk protocol alpha peers' sent m w
        else
          w' <- send_route protocol m peer w ;;
          '(_, m') <- quasar_route_message_add_visited XXH3 m peer ;;
          random_walk protocol alpha peers' (u32 (sent + 1)) m' w'
  end.

(** ** Publishing *)

Definition seen_add (q : quasar_t) (id : quasar_message_id_t) : exec quasar_t :=
  s <- bloom_filter_add_nn XXH3 (q_seen q) (id_memory id) ;; Ret (q_with_seen q s).

(** A fresh message for one target: recorded as seen, carrying the local
    node as publisher and as visited, serialized and sent. *)
Definition publish_to (q : quasar_t) (topic : list Z) (data : option (list Z))
    (local : meridian_node_t) (target : option meridian_node_t) (w : world) : exec (quasar_t * world) :=
  let '(created, g) := quasar_route_message_create clock (w_ids w) (Some topic) data (q_max_hops q)
                         QUASAR_DEFAULT_NEGATIVE_SIZE QUASAR_DEFAULT_NEGATIVE_HASHES in
  let w := mkWorld g (w_log w) in
  match created with
  | None => Ret (q, w)
  | Some m =>
      q' <- seen_add q (rm_id m) ;;
      '(_, m1) <- quasar_route_message_add_publisher m (Some local) ;;
      '(_, m2) <- quasar_route_message_add_visited XXH3 m1 (Some local) ;;
      w' <- send_route (q_protocol q) m2 target w ;;
      Ret (q', w')
  end.

Fixpoint republish (q : quasar_t) (topic : list Z) (data : option (list Z)) (local : meridian_node_t)
    (peers : list (option meridian_node_t)) (w : world) : exec (quasar_t * world) :=
  match peers with
  | [] => Ret (q, w)
  | peer :: peers' =>
      '(q', w') <- publish_to q topic data local peer w ;;
      republish q' topic data local peers' w'
  end.

(** The last part of [quasar_publish]: one message walks to [alpha] peers. *)
Definition publish_random (q : quasar_t) (topic : list Z) (data : option (list Z)) (w : world)
    : exec (Z * quasar_t * world) :=
  let '(created, g) := quasar_route_message_create clock (w_ids w) (Some topic) data (q_max_hops q)
                         QUASAR_DEFAULT_NEGATIVE_SIZE QUASAR_DEFAULT_NEGATIVE_HASHES in
  let w := mkWorld g (w_log w) in
  match created with
  | None => Ret (-1, q, w)
  | Some m =>
      q' <- seen_add q (rm_id m) ;;
      match q_protocol q with
      | None => Ret (0, q', w)
      | Some p =>
          let '(_, (addr, port)) := meridian_protocol_get_local_node (Some p) in
          let local := meridian_node_create_unidentified addr port in
          '(_, m1) <- quasar_route_message_add_visited XXH3 m (Some local) ;;
          '(_, m2) <- quasar_route_message_add_publisher m1 (Some local) ;;
          '(_, w') <- random_walk (q_protocol q) (q_alpha q)
                        (meridian_protocol_get_connected_peers p) 0 m2 w ;;
          Ret (0, q', w')
      end
  end.

Definition quasar_publish (q : quasar_t) (topic data : option (list Z)) (w : world)
    : exec (Z * quasar_t * world) :=
  match topic with
  | None => Ret (-1, q, w)
  | Some t =>
      let '(_, (addr, port)) := meridian_protocol_get_local_node (q_protocol q) in
      let local := meridian_node_create_unidentified addr port in
      if locally_subscribed q t then
        let w1 := if q_on_message q then w_emit w (QDeliver t data) else w in
        match q_protocol q with
        | None => Ret (0, q, w1)
        | Some p =>
            '(q', w') <- republish q t data local (meridian_protocol_get_connected_peers p) w1 ;;
            Ret (0, q', w')
        end
      else
        match q_protocol q with
        | None => publish_random q t data w
        | Some p =>
            let keys := if negb (addr =? 0) || negb (port =? 0) then [node_key addr port] else [] in
            r <- directed_walk q t keys ;;
            match r with
            | Some nf =>
                '(q', w') <- publish_to q t data local
                               (Some (meridian_node_create_unidentified (nf_addr nf) (nf_port nf))) w ;;
                Ret (0, q', w')
            | None => publish_random q t data w
            end
        end
  end.

(** ** Receiving *)

(** Sends the same message to every peer. *)
Fixpoint send_all (protocol : option meridian_protocol_t) (m : quasar_route_message_t)
    (peers : list (option meridian_node_t)) (w : world) : exec world :=
  match peers with
  | [] => Ret w
  | peer :: peers' => w' <- send_route protocol m peer w ;; send_all protocol m peers' w'
  end.

Definition pub_keys (m : quasar_route_message_t) : list (list Z) :=
  zip_with node_key (rm_pub_addrs m) (rm_pub_ports m).

(** Returns the node, the message as mutated, and the world. *)
Definition quasar_on_route_message (q : quasar_t) (msg : option quasar_route_message_t) (w : world)
    : exec (Z * quasar_t * option quasar_route_message_t * world) :=
  match msg with
  | None => Ret (-1, q, msg, w)
  | Some m =>
      dup <- bloom_filter_contains_nn XXH3 (q_seen q) (id_memory (rm_id m)) ;;
      if (dup : bool) then Ret (0, q, Some m, w)
      else
        q1 <- seen_add q (rm_id m) ;;
        let '(_, (addr, port)) := meridian_protocol_get_local_node (q_protocol q) in
        let local := meridian_node_create_unidentified addr port in
        '(_, m1) <- quasar_route_message_add_visited XXH3 m (Some local) ;;
        if locally_subscribed q (rm_topic m) then
          '(_, m2) <- quasar_route_message_add_publisher m1 (Some local) ;;
          let w1 := if q_on_message q then w_emit w (QDeliver (rm_topic m) (Some (rm_data m))) else w in
          match q_protocol q with
          | None => Ret (0, q1, Some m2, w1)
          | Some p =>
              w2 <- send_all (q_protocol q) m2 (meridian_protocol_get_connected_peers p) w1 ;;
              Ret (0, q1, Some m2, w2)
          end
        else if rm_hops_remaining m1 =? 0 then Ret (0, q1, Some m1, w)
        else
          let m2 := rm_with_hops m1 (rm_hops_remaining m1 - 1) in
          r <- directed_walk q1 (rm_topic m2) (pub_keys m2) ;;
          match r with
          | Some nf =>
              w1 <- send_route (q_protocol q) m2
                      (Some (meridian_node_create_unidentified (nf_addr nf) (nf_port nf))) w ;;
              Ret (0, q1, Some m2, w1)
          | None =>
              match q_protocol q with
              | None => Ret (0, q1, Some m2, w)
              | Some p =>
                  '(m3, w1) <- random_walk (q_protocol q) (q_alpha q)
                                 (meridian_protocol_get_connected_peers p) 0 m2 w ;;
                  Ret (0, q1, Some m3, w1)
              end
          end
  end.

(** ** Gossip *)

Context (cbor_load : list Z → option cbor_item) (cbor_serialize_alloc : cbor_item → list Z).

Definition quasar_on_gossip (q : quasar_t) (data : option (list Z)) (from : option meridian_node_t)
    : exec (Z * quasar_t) :=
  match data with
  | None => Ret (-1, q)
  | Some d =>
      if zlen d <? 7 * 4 then Ret (-1, q) else
      match cbor_load d with
      | None => Ret (-1, q)
      | Some root =>
          if negb (is_definite_array root) then Ret (-1, q) else
          items <- cbor_array_handle root ;;
          if zlen items <? 3 then Ret (-1, q) else
          i0 <- elem_at items 0 ;;
          if negb (cbor_isa_uint i0) then Ret (-1, q) else
          type <- cbor_get_uint8 i0 ;;
          if negb (type =? MERIDIAN_PACKET_TYPE_QUASAR_GOSSIP) then Ret (-1, q) else
          i1 <- elem_at items 1 ;;
          if negb (cbor_isa_uint i1) then Ret (-1, q) else
          level_count <- cbor_get_uint32 i1 ;;
          i2 <- elem_at items 2 ;;
          decoded <- attenuated_bloom_filter_decode_nn i2 ;;
          match decoded with
          | None => Ret (-1, q)
          | Some f =>
              if negb (abf_level_count f =? level_count) then Ret (-1, q) else
              match from with
              | Some n =>
                  let kept := default (q_neighbor_filters q)
                                (remove_neighbor (q_neighbor_filters q) (node_addr n) (node_port n)) in
                  r <- attenuated_bloom_filter_merge_nn (q_routing q) f ;;
                  Ret (0, q_with q r (kept ++ [mkNf (node_addr n) (node_port n) f])
                            (q_local_subs q) (q_seen q))
              | None =>
                  r <- attenuated_bloom_filter_merge_nn (q_routing q) f ;;
                  Ret (0, q_with_routing q r)
              end
          end
      end
  end.

(** The packet [[type, level_count, encoded_filter]]. *)
Definition gossip_packet (q : quasar_t) : exec (option cbor_item) :=
  encoded <- attenuated_bloom_filter_encode_nn (q_routing q) ;;
  match encoded with
  | None => Ret None
  | Some encoded_filter =>
      push_all (cbor_new_definite_array 3)
        [cbor_build_uint8 MERIDIAN_PACKET_TYPE_QUASAR_GOSSIP;
         cbor_build_uint32 (abf_level_count (q_routing q)); encoded_filter]
  end.

Definition quasar_propagate (q : quasar_t) (w : world) : exec (Z * world) :=
  match q_protocol q with
  | None => Ret (-1, w)
  | Some p =>
      packet <- gossip_packet q ;;
      match packet with
      | None => Ret (-1, w)
      | Some item =>
          let buf := cbor_serialize_alloc item in
          if zlen buf =? 0 then Ret (-1, w)
          else
            let rc := (meridian_protocol_broadcast DatagramSend (Some p) buf).1 in
            Ret (if rc =? 0 then 0 else -1, w_emit w (QBroadcast buf rc))
      end
  end.
End handlers.
