(* ===== verification/Channel.v ===== *)
(** * Channel: a topic channel

    [src/Channel/channel.c] and [src/Channel/channel_message.c].  A channel
    joins a Quasar node (whose protocol is the channel's protocol: the two
    pointers alias, and the model keeps the one copy inside the Quasar node), a
    subtopic table, an alias registry and an identity.  Key pairs are values
    of a type [K] with a signature scheme; the pointer comparison of
    [poseidon_channel_update_config] is equality on [K].  TLS files and the
    creation of the protocol are outcomes given as arguments. *)

From S2P Require Import Prelude CString Bitset Bloom ElasticBloom AttenuatedBloom Cbor CborWire Endian Base58.
From S2P Require Import MessageId Node NodeId Packet ChannelPacket Subtopic TopicAlias Notice Ring Route Protocol.
From S2P Require Import Quasar.

(** ** The message envelope *)

Definition channel_message_encode (subtopic data : option (list Z)) : exec (option cbor_item) :=
  match subtopic, data with
  | Some s, Some d =>
      push_all (cbor_new_definite_array 2) [cbor_build_stringn s; cbor_build_bytestring d]
  | _, _ => Ret None
  end.

(** The subtopic and the payload, [None] for -1; the buffers have the given
    sizes. *)
Definition channel_message_decode (item : option cbor_item) (subtopic_buf_size data_buf_size : Z)
  : exec (option (list Z * list Z)) :=
  match item with
  | None => Ret None
  | Some i =>
      if negb (cbor_isa_array i) then Ret None
      else
        items <- cbor_array_handle i ;;
        match items with
        | [i0; i1] =>
            if negb (cbor_isa_string i0) then Ret None
            else
              st_len <- cbor_string_length i0 ;;
              if subtopic_buf_size <=? st_len then Ret None
              else
                st <- cbor_string_handle i0 ;;
                if negb (cbor_isa_bytestring i1) then Ret None
                else
                  d_len <- cbor_bytestring_length i1 ;;
                  if data_buf_size <? d_len then Ret None
                  else (d <- cbor_bytestring_handle i1 ;; Ret (Some (st, d)))
        | _ => Ret None
        end
  end.

(** ** State *)

Inductive poseidon_channel_state_t :=
| POSEIDON_CHANNEL_STATE_INIT
| POSEIDON_CHANNEL_STATE_BOOTSTRAPPING
| POSEIDON_CHANNEL_STATE_RUNNING
| POSEIDON_CHANNEL_STATE_SHUTTING_DOWN
| POSEIDON_CHANNEL_STATE_DELETED.

#[export] Instance channel_state_eq_dec : EqDecision poseidon_channel_state_t.
Proof. solve_decision. Defined.

Definition POSEIDON_CHANNEL_MAX_NAME : nat := 64.

Section channel.
Context {K : Type} `{!SignatureScheme K} `{!EqDecision K}.

Record poseidon_channel_t := mkChannel {
  ch_state : poseidon_channel_state_t;
  ch_key_pair : K;
  ch_node_id : poseidon_node_id_t;
  ch_name : list Z;
  ch_config : poseidon_channel_config_t;
  ch_quasar : quasar_t;
  ch_listen_port : Z;
  ch_is_dial : bool;
  ch_subtopic_subs : subtopic_table_t;
  ch_aliases : topic_alias_registry_t;
  ch_message_cb : bool;
  ch_intercept_cb : bool
}.

Definition ch_with_state (c : poseidon_channel_t) (s : poseidon_channel_state_t) : poseidon_channel_t :=
  mkChannel s (ch_key_pair c) (ch_node_id c) (ch_name c) (ch_config c) (ch_quasar c) (ch_listen_port c)
    (ch_is_dial c) (ch_subtopic_subs c) (ch_aliases c) (ch_message_cb c) (ch_intercept_cb c).
Definition ch_with_quasar (c : poseidon_channel_t) (q : quasar_t) : poseidon_channel_t :=
  mkChannel (ch_state c) (ch_key_pair c) (ch_node_id c) (ch_name c) (ch_config c) q (ch_listen_port c)
    (ch_is_dial c) (ch_subtopic_subs c) (ch_aliases c) (ch_message_cb c) (ch_intercept_cb c).
Definition ch_with_config (c : poseidon_channel_t) (g : poseidon_channel_config_t) : poseidon_channel_t :=
  mkChannel (ch_state c) (ch_key_pair c) (ch_node_id c) (ch_name c) g (ch_quasar c) (ch_listen_port c)
    (ch_is_dial c) (ch_subtopic_subs c) (ch_aliases c) (ch_message_cb c) (ch_intercept_cb c).
Definition ch_with_subs (c : poseidon_channel_t) (t : subtopic_table_t) : poseidon_channel_t :=
  mkChannel (ch_state c) (ch_key_pair c) (ch_node_id c) (ch_name c) (ch_config c) (ch_quasar c)
    (ch_listen_port c) (ch_is_dial c) t (ch_aliases c) (ch_message_cb c) (ch_intercept_cb c).
Definition ch_with_aliases (c : poseidon_channel_t) (r : topic_alias_registry_t) : poseidon_channel_t :=
  mkChannel (ch_state c) (ch_key_pair c) (ch_node_id c) (ch_name c) (ch_config c) (ch_quasar c)
    (ch_listen_port c) (ch_is_dial c) (ch_subtopic_subs c) r (ch_message_cb c) (ch_intercept_cb c).
Definition ch_with_cbs (c : poseidon_channel_t) (message intercept dial : bool) : poseidon_channel_t :=
  mkChannel (ch_state c) (ch_key_pair c) (ch_node_id c) (ch_name c) (ch_config c) (ch_quasar c)
    (ch_listen_port c) dial (ch_subtopic_subs c) (ch_aliases c) message intercept.

(** Replaces the protocol both the channel and its Quasar node point to. *)
Definition q_with_protocol (q : quasar_t) (p : option meridian_protocol_t) : quasar_t :=
  mkQuasar p (q_routing q) (q_neighbor_filters q) (q_local_subs q) (q_max_hops q) (q_alpha q)
    (q_seen q) (q_seen_size q) (q_seen_hashes q) (q_on_message q).

(** ** Life cycle *)

Section create.
Context (blake3 : list Z → list Z).

(** [key_pair] is the given or the generated key ([None] when generating it
    failed); [tls] tells whether the TLS files were written; [protocol] is
    the outcome of [meridian_protocol_create].  The seen filter of the first
    Quasar node has 4096 bits and 3 hashes whatever the configuration. *)
Definition poseidon_channel_create (key_pair : option K) (name : option (list Z)) (listen_port : Z)
    (config : poseidon_channel_config_t) (tls : bool) (protocol : option meridian_protocol_t)
  : exec (option poseidon_channel_t) :=
  match key_pair with
  | None => Ret None
  | Some k =>
      id <-? poseidon_node_id_from_public_key blake3 (public_key k)
               (mkNodeId (zeros 32) (zeros POSEIDON_NODE_ID_STRING_SIZE)) ;;
      if negb tls then Ret None
      else match protocol with
      | None => Ret None
      | Some p =>
          Ret (Some
            {| ch_state := POSEIDON_CHANNEL_STATE_INIT; ch_key_pair := k; ch_node_id := id;
               ch_name := match name with Some n => take (POSEIDON_CHANNEL_MAX_NAME - 1) n | None => [] end;
               ch_config := config;
               ch_quasar := quasar_create (Some p) (quasar_max_hops config) (quasar_alpha config) 4096 3;
               ch_listen_port := listen_port; ch_is_dial := false;
               ch_subtopic_subs := subtopic_table_create;
               ch_aliases := topic_alias_registry_create 32;
               ch_message_cb := false; ch_intercept_cb := false |})
      end
  end.
End create.

Definition poseidon_channel_get_topic (c : poseidon_channel_t) : list Z := c_str (nid_str (ch_node_id c)).

(** [started] is the protocol after [meridian_protocol_start], if it
    succeeded; the results of adding seeds are ignored. *)
Definition poseidon_channel_start (c : poseidon_channel_t) (started : option meridian_protocol_t)
    (seed_nodes : list (Z * Z)) : Z * poseidon_channel_t :=
  match started with
  | None => (-1, ch_with_state c POSEIDON_CHANNEL_STATE_BOOTSTRAPPING)
  | Some p =>
      let p' := foldl (fun p s => (meridian_protocol_add_seed_node p s.1 s.2).2) p seed_nodes in
      (0, ch_with_state (ch_with_quasar c (q_with_protocol (ch_quasar c) (Some p')))
            POSEIDON_CHANNEL_STATE_RUNNING)
  end.

(** Shuts the protocol down and returns to the initial state. *)
Definition poseidon_channel_stop (c : poseidon_channel_t) : Z * poseidon_channel_t :=
  match q_protocol (ch_quasar c) with
  | None => (-1, ch_with_state c POSEIDON_CHANNEL_STATE_INIT)
  | Some p =>
      let '(rc, p') := meridian_protocol_stop p in
      (rc, ch_with_state (ch_with_quasar c (q_with_protocol (ch_quasar c) (Some p'))) POSEIDON_CHANNEL_STATE_INIT)
  end.

Definition poseidon_channel_set_message_callback (c : poseidon_channel_t) (cb : bool) : Z * poseidon_channel_t :=
  (0, ch_with_quasar (ch_with_cbs c cb (ch_intercept_cb c) (ch_is_dial c))
        (quasar_set_message_callback (ch_quasar c) true)).

Definition poseidon_channel_enable_quasar_message (c : poseidon_channel_t) : Z * poseidon_channel_t :=
  (0, ch_with_quasar c (quasar_set_message_callback (ch_quasar c) true)).

(** Only the very key pair of the channel may change its configuration. *)
Definition poseidon_channel_update_config (c : poseidon_channel_t)
    (new_config : option poseidon_channel_config_t) (key_pair : option K) : Z * poseidon_channel_t :=
  match new_config, key_pair with
  | Some g, Some k => if bool_decide (k = ch_key_pair c) then (0, ch_with_config c g) else (-1, c)
  | _, _ => (-1, c)
  end.

(** ** Subtopics and aliases *)

Definition poseidon_channel_subscribe_subtopic (c : poseidon_channel_t) (subtopic : option (list Z)) (ttl : Z)
  : Z * poseidon_channel_t :=
  let '(rc, t) := subtopic_table_subscribe (Some (ch_subtopic_subs c)) subtopic ttl in
  (rc, ch_with_subs c (default (ch_subtopic_subs c) t)).

Definition poseidon_channel_unsubscribe_subtopic (c : poseidon_channel_t) (subtopic : option (list Z))
  : Z * poseidon_channel_t :=
  let '(rc, t) := subtopic_table_unsubscribe (Some (ch_subtopic_subs c)) subtopic in
  (rc, ch_with_subs c (default (ch_subtopic_subs c) t)).

Definition poseidon_channel_register_alias (c : poseidon_channel_t) (name topic : option (list Z))
  : Z * poseidon_channel_t :=
  let '(rc, r) := topic_alias_register (Some (ch_aliases c)) name topic in
  (rc, ch_with_aliases c (default (ch_aliases c) r)).

Definition poseidon_channel_unregister_alias (c : poseidon_channel_t) (name : option (list Z))
  : Z * poseidon_channel_t :=
  let '(rc, r) := topic_alias_unregister (Some (ch_aliases c)) name in
  (rc, ch_with_aliases c (default (ch_aliases c) r)).

Definition poseidon_channel_resolve_alias (c : poseidon_channel_t) (name : option (list Z)) : option (list Z) :=
  topic_alias_resolve (Some (ch_aliases c)) name.

Definition poseidon_channel_resolve_path (c : poseidon_channel_t) (path : option (list Z))
  : Z * option poseidon_path_resolve_result_t :=
  match path with
  | None => (-1, None)
  | Some p => let '(rc, o) := poseidon_resolve_path (Some (ch_aliases c)) p in (rc, Some o)
  end.

(** ** Messages *)

Section messages.
Context (XXH3 : list Z → Z → Z) (clock : Z → Z * Z) (DatagramSend : Z → list Z → bool).
Context (cbor_load : list Z → option cbor_item) (cbor_serialize_alloc : cbor_item → list Z).

(** What [channel_quasar_message_handler] passes to the application once
    the intercept callback has declined the packet: subtopic and payload,
    or nothing.  Anything that is not an envelope is delivered raw. *)
Definition channel_app_delivery (c : poseidon_channel_t) (data : list Z) : exec (option (list Z * list Z)) :=
  if negb (ch_message_cb c) then Ret None
  else match cbor_load data with
  | None => Ret (Some ([], data))
  | Some item =>
      r <- channel_message_decode (Some item) 256 4096 ;;
      match r with
      | Some (st, payload) =>
          Ret (if subtopic_table_should_deliver (Some (ch_subtopic_subs c)) (Some (c_str st))
               then Some (c_str st, payload) else None)
      | None => Ret (Some ([], data))
      end
  end.

Definition poseidon_channel_subscribe (c : poseidon_channel_t) (topic : option (list Z)) (ttl : Z)
  : exec (Z * poseidon_channel_t) :=
  '(rc, q) <- quasar_subscribe XXH3 (ch_quasar c) topic ttl ;; Ret (rc, ch_with_quasar c q).

Definition poseidon_channel_unsubscribe (c : poseidon_channel_t) (topic : option (list Z))
  : exec (Z * poseidon_channel_t) :=
  '(rc, q) <- quasar_unsubscribe XXH3 (ch_quasar c) topic ;; Ret (rc, ch_with_quasar c q).

Definition poseidon_channel_publish (c : poseidon_channel_t) (topic data : option (list Z)) (w : world)
  : exec (Z * poseidon_channel_t * world) :=
  '(rc, q, w') <- quasar_publish XXH3 clock DatagramSend (ch_quasar c) topic data w ;;
  Ret (rc, ch_with_quasar c q, w').

(** The bytes published for a payload under a subtopic. *)
Definition subtopic_envelope (subtopic data : option (list Z)) : exec (option (list Z)) :=
  msg <-? channel_message_encode subtopic data ;;
  let buf := cbor_serialize_alloc msg in
  Ret (if zlen buf =? 0 then None else Some buf).

Definition poseidon_channel_publish_subtopic (c : poseidon_channel_t) (topic subtopic data : option (list Z))
    (w : world) : exec (Z * poseidon_channel_t * world) :=
  match subtopic with
  | None => Ret (-1, c, w)
  | Some _ =>
      r <- subtopic_envelope subtopic data ;;
      match r with
      | None => Ret (-1, c, w)
      | Some buf => poseidon_channel_publish c topic (Some buf) w
      end
  end.

Definition poseidon_channel_tick (c : poseidon_channel_t) : exec (Z * poseidon_channel_t) :=
  '(rc, q) <- quasar_tick XXH3 (ch_quasar c) ;;
  Ret (rc, ch_with_subs (ch_with_quasar c q)
             (default (ch_subtopic_subs c) (subtopic_table_tick (Some (ch_subtopic_subs c))))).

(** The result is that of [meridian_protocol_gossip], which fails only
    without a protocol; the ring gossip it may send is not part of this state. *)
Definition poseidon_channel_gossip (c : poseidon_channel_t) (w : world) : exec (Z * world) :=
  let rc := match q_protocol (ch_quasar c) with None => -1 | Some _ => 0 end in
  '(_, w') <- quasar_propagate DatagramSend cbor_serialize_alloc (ch_quasar c) w ;; Ret (rc, w').

(** A deleted channel leaves its topic and closes its connections. *)
Definition poseidon_channel_delete_signed (c : poseidon_channel_t) : exec (Z * poseidon_channel_t) :=
  if decide (ch_state c = POSEIDON_CHANNEL_STATE_DELETED) then Ret (0, c)
  else
    '(_, q) <- quasar_unsubscribe XXH3 (ch_quasar c) (Some (poseidon_channel_get_topic c)) ;;
    let q' := q_with_protocol q (option_map (fun p => (meridian_protocol_stop p).2) (q_protocol q)) in
    Ret (0, ch_with_quasar (ch_with_state c POSEIDON_CHANNEL_STATE_DELETED) q').
End messages.
End channel.
Arguments poseidon_channel_t K : clear implicits.

(** ** Properties *)

Lemma channel_message_roundtrip st d sb db :
  zlen st < sb → zlen d <= db →
  ∃ i, channel_message_encode (Some st) (Some d) = Ret (Some i) ∧
    i = CArray true 2 [CString st; CBytes d] ∧
    channel_message_decode (Some i) sb db = Ret (Some (st, d)).
Proof.
  intros Hs Hd. eexists. split_and!; [reflexivity|reflexivity|]. cbn.
  rewrite (proj2 (Z.leb_gt _ _)) by done. cbn. by rewrite (proj2 (Z.ltb_ge _ _)) by done.
Qed.

(** Subtopic filtering end to end: a payload published under a subtopic
    reaches the application of a receiving channel, with exactly that subtopic
    and payload, if and only if one of the channel's subtopic subscriptions
    matches; nothing is delivered raw.  (The CBOR reader is assumed to read
    back the envelope the writer produced.) *)
Theorem channel_subtopic_delivery {K} (c : poseidon_channel_t K) load ser st d :
  ch_message_cb c = true → cstr_ok st → zlen st < 256 → zlen d <= 4096 →
  (let i := CArray true 2 [CString st; CBytes d] in load (ser i) = Some i ∧ ser i ≠ []) →
  ∃ buf, subtopic_envelope ser (Some st) (Some d) = Ret (Some buf) ∧
    channel_app_delivery load c buf =
      Ret (if subtopic_table_should_deliver (Some (ch_subtopic_subs c)) (Some st) then Some (st, d) else None).
Proof.
  intros Hcb Hst Hl Hd [Hload Hser]. destruct (channel_message_roundtrip st d 256 4096 Hl Hd) as (i & E & -> & D).
  eexists. split.
  - unfold subtopic_envelope. rewrite E, bind_Ret_l. rewrite (proj2 (Z.eqb_neq _ 0)); [reflexivity|].
    intros H0. apply Hser, nil_length_inv. unfold zlen in H0. lia.
  - unfold channel_app_delivery. rewrite Hcb. cbn [negb]. rewrite Hload, D, bind_Ret_l, c_str_id by done. done.
Qed.

Definition demo_channel (subs : subtopic_table_t) : poseidon_channel_t (list Z) :=
  {| ch_state := POSEIDON_CHANNEL_STATE_RUNNING; ch_key_pair := [7; 8; 9]; ch_node_id := poseidon_node_id_clear;
     ch_name := lit "demo"; ch_config := poseidon_channel_config_defaults;
     ch_quasar := quasar_create None 5 3 4096 3; ch_listen_port := 9000; ch_is_dial := false;
     ch_subtopic_subs := subs; ch_aliases := topic_alias_registry_create 32;
     ch_message_cb := true; ch_intercept_cb := false |}.

Lemma channel_subtopic_delivery_witness :
  ∃ buf, subtopic_envelope cbor_serialize_alloc (Some (lit "Feeds/friends")) (Some [1; 2; 3]) = Ret (Some buf) ∧
    channel_app_delivery cbor_load (demo_channel [mkEntry (lit "Feeds") 30]) buf =
      Ret (Some (lit "Feeds/friends", [1; 2; 3])).
Proof.
  destruct (channel_subtopic_delivery (demo_channel [mkEntry (lit "Feeds") 30]) cbor_load cbor_serialize_alloc
    (lit "Feeds/friends") [1; 2; 3]) as (buf & E & D).
  - reflexivity.
  - repeat (constructor; [cbn; lia|]). constructor.
  - vm_compute. reflexivity.
  - vm_compute. discriminate.
  - split; [vm_compute; reflexivity|vm_compute; discriminate].
  - exists buf. split; [exact E|]. rewrite D. vm_compute. reflexivity.
Defined.
