(* ===== verification/ChannelManager.v ===== *)
(** * ChannelManager: the channels of a daemon

    [src/Channel/channel_manager.c] and [poseidon_channel_rejoin_with_config].
    Channels are heap objects: the manager's array holds pairs of an address (a
    number that is never reused) and the channel behind it, and a pending
    bootstrap holds an address, which dangles once its channel is destroyed.

    A message delivered on the dial channel is intercepted by the manager,
    whose handlers publish on the dial channel again; publishing on a topic the
    dial channel subscribes to calls the intercept synchronously.  The model
    keeps this recursion: [dial_publish] takes the depth it may reach, and
    [None] means that the calls nest deeper. *)

From S2P Require Import Prelude CString Bitset Bloom ElasticBloom AttenuatedBloom Cbor CborWire Endian Base58.
From S2P Require Import MessageId Node NodeId Packet ChannelPacket Subtopic TopicAlias Notice Ring Route Protocol.
From S2P Require Import Quasar Channel.

Definition POSEIDON_CHANNEL_MANAGER_MAX_CHANNELS : Z := 32.
Definition POSEIDON_SESSION_REGISTRY_MAX : Z := 256.
Definition POSEIDON_MAX_PENDING_BOOTSTRAPS : Z := 16.
Definition POSEIDON_BOOTSTRAP_REPLY_ADDRS_MAX : Z := 16.
Definition POSEIDON_TOMBSTONE_MAX : Z := 64.
Definition POSEIDON_TOMBSTONE_DEFAULT_TTL_SECONDS : Z := 90 * 24 * 3600.

(** ** Tombstones *)

Inductive poseidon_tombstone_type_t := POSEIDON_TOMBSTONE_DELETE | POSEIDON_TOMBSTONE_MODIFY.

Record poseidon_tombstone_t := mkTombstone {
  tb_type : poseidon_tombstone_type_t;
  tb_topic_id : list Z;
  tb_node_id : list Z;
  tb_key_type : list Z;
  tb_public_key : list Z;
  tb_public_key_len : Z;
  tb_timestamp_us : Z;
  tb_expires_at_us : Z;
  tb_signature : list Z;
  tb_signature_len : Z;
  tb_config : option poseidon_channel_config_t
}.

(** A key or signature that does not fit is left out (length zero). *)
Definition copy_if_fits (src : list Z) (len : Z) : list Z * Z :=
  if len <=? 64 then (memcpy (zeros 64) (take (Z.to_nat len) src), len) else (zeros 64, 0).

Definition tombstone_from (type : poseidon_tombstone_type_t) (n : meridian_channel_delete_notice_t)
    (config : option poseidon_channel_config_t) (now_us : Z) : poseidon_tombstone_t :=
  let '(key, key_len) := copy_if_fits (dn_public_key n) (dn_public_key_len n) in
  let '(signature, signature_len) := copy_if_fits (dn_signature n) (dn_signature_len n) in
  {| tb_type := type; tb_topic_id := strncpy (zeros 64) (c_str (dn_topic_id n)) 63;
     tb_node_id := strncpy (zeros 64) (c_str (dn_node_id n)) 63;
     tb_key_type := strncpy (zeros 16) (c_str (dn_key_type n)) 15;
     tb_public_key := key; tb_public_key_len := key_len; tb_timestamp_us := dn_timestamp_us n;
     tb_expires_at_us := u64 (now_us + POSEIDON_TOMBSTONE_DEFAULT_TTL_SECONDS * 1000000);
     tb_signature := signature; tb_signature_len := signature_len; tb_config := config |}.

Definition poseidon_tombstone_from_delete_notice (n : meridian_channel_delete_notice_t) (now_us : Z)
  : poseidon_tombstone_t := tombstone_from POSEIDON_TOMBSTONE_DELETE n None now_us.

Definition poseidon_tombstone_from_modify_notice (m : meridian_channel_modify_notice_t) (now_us : Z)
  : poseidon_tombstone_t := tombstone_from POSEIDON_TOMBSTONE_MODIFY (mn_notice m) (Some (mn_config m)) now_us.

(** The notice a tombstone was made of, rebuilt to answer a bootstrap request. *)
Definition tombstone_notice (t : poseidon_tombstone_t) (type : Z) : meridian_channel_delete_notice_t :=
  {| dn_type := type; dn_topic_id := strncpy (zeros 64) (c_str (tb_topic_id t)) 63;
     dn_node_id := strncpy (zeros 64) (c_str (tb_node_id t)) 63;
     dn_key_type := strncpy (zeros 16) (c_str (tb_key_type t)) 15;
     dn_public_key := memcpy (zeros 64) (take (Z.to_nat (tb_public_key_len t)) (tb_public_key t));
     dn_public_key_len := tb_public_key_len t; dn_timestamp_us := tb_timestamp_us t;
     dn_signature := memcpy (zeros 64) (take (Z.to_nat (tb_signature_len t)) (tb_signature t));
     dn_signature_len := tb_signature_len t |}.

Definition tombstone_encode (t : poseidon_tombstone_t) : exec (option cbor_item) :=
  match tb_type t with
  | POSEIDON_TOMBSTONE_DELETE =>
      meridian_channel_delete_notice_encode
        (Some (tombstone_notice t MERIDIAN_PACKET_TYPE_CHANNEL_DELETE_NOTICE))
  | POSEIDON_TOMBSTONE_MODIFY =>
      meridian_channel_modify_notice_encode
        (Some (mkModify (tombstone_notice t MERIDIAN_PACKET_TYPE_CHANNEL_MODIFY_NOTICE)
                 (default (mkConfig (zeros 10) 0 0 0 0 0 0 0) (tb_config t))))
  end.

Definition topic_is (topic : list Z) (t : poseidon_tombstone_t) : bool := str_eq (c_str (tb_topic_id t)) topic.

(** One tombstone per topic, replaced only by a newer one. *)
Definition add_tombstone (l : list poseidon_tombstone_t) (t : poseidon_tombstone_t)
  : Z * list poseidon_tombstone_t :=
  match find_index (topic_is (c_str (tb_topic_id t))) l with
  | Some i =>
      match l !! i with
      | Some old => (0, if tb_timestamp_us old <? tb_timestamp_us t then <[i := t]> l else l)
      | None => (0, l)
      end
  | None => if POSEIDON_TOMBSTONE_MAX <=? zlen l then (-1, l) else (0, l ++ [t])
  end.

Definition find_tombstone (l : list poseidon_tombstone_t) (topic : list Z) : option poseidon_tombstone_t :=
  List.find (topic_is topic) l.

Definition expire_tombstones (l : list poseidon_tombstone_t) (now_us : Z) : list poseidon_tombstone_t :=
  List.filter (fun t => now_us <? tb_expires_at_us t) l.

(** ** State *)

Record pending_bootstrap_t := mkPending {
  pb_topic_id : list Z;
  pb_timestamp_us : Z;
  pb_channel : Z;
  pb_replies : list (Z * Z)
}.

(** Runs that may nest deeper than allowed ([None]). *)
Definition run (A : Type) : Type := option (exec A).
Definition lift {A} (m : exec A) : run A := Some m.
Definition rbind {A B} (m : run A) (f : A → run B) : run B :=
  match m with
  | None => None
  | Some Trap => Some Trap
  | Some (Ret a) => f a
  end.
Notation "x <~ m ;; k" := (rbind m (fun x => k)) (at level 100, m at next level, right associativity) : poseidon_scope.
Notation "' pat <~ m ;; k" := (rbind m (fun x => match x with pat => k end))
  (at level 20, pat pattern, m at level 99, k at level 200) : poseidon_scope.

Section manager.
Context {K : Type} `{!SignatureScheme K} `{!EqDecision K}.

Record poseidon_channel_manager_t := mkManager {
  m_dial : poseidon_channel_t K;
  m_channels : list (Z * poseidon_channel_t K);
  m_next_addr : Z;
  m_next_port : Z;
  m_port_range_start : Z;
  m_port_range_end : Z;
  m_pending : list pending_bootstrap_t;
  m_tombstones : list poseidon_tombstone_t;
  m_sessions : list Z
}.

Definition m_with_dial (m : poseidon_channel_manager_t) (d : poseidon_channel_t K) : poseidon_channel_manager_t :=
  mkManager d (m_channels m) (m_next_addr m) (m_next_port m) (m_port_range_start m) (m_port_range_end m)
    (m_pending m) (m_tombstones m) (m_sessions m).
Definition m_with_channels (m : poseidon_channel_manager_t) (l : list (Z * poseidon_channel_t K))
  : poseidon_channel_manager_t :=
  mkManager (m_dial m) l (m_next_addr m) (m_next_port m) (m_port_range_start m) (m_port_range_end m)
    (m_pending m) (m_tombstones m) (m_sessions m).
Definition m_with_port (m : poseidon_channel_manager_t) (p : Z) : poseidon_channel_manager_t :=
  mkManager (m_dial m) (m_channels m) (m_next_addr m) p (m_port_range_start m) (m_port_range_end m)
    (m_pending m) (m_tombstones m) (m_sessions m).
Definition m_with_pending (m : poseidon_channel_manager_t) (l : list pending_bootstrap_t)
  : poseidon_channel_manager_t :=
  mkManager (m_dial m) (m_channels m) (m_next_addr m) (m_next_port m) (m_port_range_start m) (m_port_range_end m)
    l (m_tombstones m) (m_sessions m).
Definition m_with_tombstones (m : poseidon_channel_manager_t) (l : list poseidon_tombstone_t)
  : poseidon_channel_manager_t :=
  mkManager (m_dial m) (m_channels m) (m_next_addr m) (m_next_port m) (m_port_range_start m) (m_port_range_end m)
    (m_pending m) l (m_sessions m).
Definition m_with_sessions (m : poseidon_channel_manager_t) (l : list Z) : poseidon_channel_manager_t :=
  mkManager (m_dial m) (m_channels m) (m_next_addr m) (m_next_port m) (m_port_range_start m) (m_port_range_end m)
    (m_pending m) (m_tombstones m) l.
(** A new channel at a fresh address, in the next slot. *)
Definition m_add_channel (m : poseidon_channel_manager_t) (c : poseidon_channel_t K)
  : Z * poseidon_channel_manager_t :=
  (m_next_addr m,
   mkManager (m_dial m) (m_channels m ++ [(m_next_addr m, c)]) (m_next_addr m + 1) (m_next_port m)
     (m_port_range_start m) (m_port_range_end m) (m_pending m) (m_tombstones m) (m_sessions m)).

(** [dial] is the outcome of creating the dial channel. *)
Definition poseidon_channel_manager_create (dial : option (poseidon_channel_t K))
    (port_range_start port_range_end : Z) : option poseidon_channel_manager_t :=
  if port_range_end <=? port_range_start then None
  else match dial with
  | None => None
  | Some d =>
      let d := ch_with_cbs d (ch_message_cb d) true true in
      Some (mkManager (poseidon_channel_enable_quasar_message d).2 [] 1 port_range_start
              port_range_start port_range_end [] [] [])
  end.

(** ** Channels *)

(** The next port is a [uint16_t]: it wraps after 65535. *)
Definition allocate_port (m : poseidon_channel_manager_t) : Z * poseidon_channel_manager_t :=
  if m_port_range_end m <? m_next_port m then (0, m)
  else (m_next_port m, m_with_port m (u16 (m_next_port m + 1))).

(** [create] is [poseidon_channel_create] with its outcomes, given the port. *)
Definition poseidon_channel_manager_create_channel (m : poseidon_channel_manager_t)
    (key_pair : option K) (create : K → Z → exec (option (poseidon_channel_t K)))
  : exec (option Z * poseidon_channel_manager_t) :=
  if POSEIDON_CHANNEL_MANAGER_MAX_CHANNELS <=? zlen (m_channels m) then Ret (None, m)
  else
    let '(port, m1) := allocate_port m in
    if port =? 0 then Ret (None, m1)
    else match key_pair with
    | None => Ret (None, m1)
    | Some k =>
        r <- create k port ;;
        match r with
        | None => Ret (None, m1)
        | Some c => let '(addr, m2) := m_add_channel m1 c in Ret (Some addr, m2)
        end
    end.

Definition node_id_is (node_id : poseidon_node_id_t) (e : Z * poseidon_channel_t K) : bool :=
  poseidon_node_id_compare (Some (ch_node_id e.2)) (Some node_id) =? 0.

Definition poseidon_channel_manager_destroy_channel (m : poseidon_channel_manager_t)
    (node_id : option poseidon_node_id_t) : Z * poseidon_channel_manager_t :=
  match node_id with
  | None => (-1, m)
  | Some n =>
      match find_index (node_id_is n) (m_channels m) with
      | Some i => (0, m_with_channels m (swap_remove i (m_channels m)))
      | None => (-1, m)
      end
  end.

Definition poseidon_channel_manager_find_channel (m : poseidon_channel_manager_t)
    (node_id : option poseidon_node_id_t) : option (Z * poseidon_channel_t K) :=
  match node_id with None => None | Some n => List.find (node_id_is n) (m_channels m) end.

Definition channel_topic_is (topic : list Z) (e : Z * poseidon_channel_t K) : bool :=
  str_eq (poseidon_channel_get_topic e.2) topic.

(** The channel at an address; a dangling address is an access to freed
    memory. *)
Definition channel_at (m : poseidon_channel_manager_t) (addr : Z) : exec (nat * poseidon_channel_t K) :=
  match find_index (fun e => e.1 =? addr) (m_channels m) with
  | Some i => match m_channels m !! i with Some e => Ret (i, e.2) | None => Trap end
  | None => Trap
  end.

Definition put_channel (m : poseidon_channel_manager_t) (i : nat) (c : poseidon_channel_t K)
  : poseidon_channel_manager_t :=
  m_with_channels m (alter (fun e => (e.1, c)) i (m_channels m)).

(** ** Sessions *)

Definition poseidon_channel_manager_register_session (m : poseidon_channel_manager_t) (session : Z)
  : Z * poseidon_channel_manager_t :=
  if session =? 0 then (-1, m)
  else if POSEIDON_SESSION_REGISTRY_MAX <=? zlen (m_sessions m) then (-1, m)
  else (0, m_with_sessions m (m_sessions m ++ [session])).

Definition poseidon_channel_manager_unregister_session (m : poseidon_channel_manager_t) (session : Z)
  : Z * poseidon_channel_manager_t :=
  if session =? 0 then (-1, m)
  else match find_index (fun s => s =? session) (m_sessions m) with
  | Some i => (0, m_with_sessions m (swap_remove i (m_sessions m)))
  | None => (-1, m)
  end.

(** ** Tombstones of the manager *)

Definition poseidon_channel_manager_add_tombstone (m : poseidon_channel_manager_t) (t : poseidon_tombstone_t)
  : Z * poseidon_channel_manager_t :=
  let '(rc, l) := add_tombstone (m_tombstones m) t in (rc, m_with_tombstones m l).

Definition poseidon_channel_manager_find_tombstone (m : poseidon_channel_manager_t) (topic : list Z)
  : option poseidon_tombstone_t := find_tombstone (m_tombstones m) topic.

Definition poseidon_channel_manager_expire_tombstones (m : poseidon_channel_manager_t) (now_us : Z)
  : poseidon_channel_manager_t := m_with_tombstones m (expire_tombstones (m_tombstones m) now_us).

(** ** Handlers

    [time_us] and [mono_us] are the readings of the realtime and the monotonic
    clock, [connect] the outcomes of opening and starting a connection. *)

Section handlers.
Context (blake3 : list Z → list Z) (XXH3 : list Z → Z → Z) (clock : Z → Z * Z).
Context (DatagramSend : Z → list Z → bool) (time_us mono_us : world → Z).
Context (connect : Z → Z → option Z * bool).
Context (cbor_load : list Z → option cbor_item) (cbor_serialize_alloc : cbor_item → list Z).

Abbreviation manager := poseidon_channel_manager_t.

(** First reply wins: the channel runs, the entry is gone, and the protocol
    connects to the responder and learns its seeds. *)
Definition pending_is (topic : list Z) (timestamp_us : Z) (p : pending_bootstrap_t) : bool :=
  str_eq (c_str (pb_topic_id p)) topic && (pb_timestamp_us p =? timestamp_us).

Definition store_reply (p : pending_bootstrap_t) (addr port : Z) : pending_bootstrap_t :=
  if zlen (pb_replies p) <? POSEIDON_BOOTSTRAP_REPLY_ADDRS_MAX
  then mkPending (pb_topic_id p) (pb_timestamp_us p) (pb_channel p) (pb_replies p ++ [(addr, port)]) else p.

Definition bootstrap_protocol (p : meridian_protocol_t) (addr port : Z) (seeds : list (Z * Z))
  : meridian_protocol_t :=
  let '(opened, started) := connect addr port in
  foldl (fun p s => (meridian_protocol_add_seed_node p s.1 s.2).2)
    (meridian_protocol_connect p addr port opened started).2 (take 16 seeds).

Definition poseidon_channel_manager_handle_bootstrap_reply (m : manager) (topic : list Z)
    (addr port timestamp_us : Z) (seeds : list (Z * Z)) : exec (Z * manager) :=
  match find_index (pending_is topic timestamp_us) (m_pending m) with
  | None => Ret (-1, m)
  | Some i =>
      match m_pending m !! i with
      | None => Ret (-1, m)
      | Some p =>
          let p' := store_reply p addr port in
          if zlen (pb_replies p') =? 1 then
            '(j, c) <- channel_at m (pb_channel p) ;;
            let c1 := ch_with_state c POSEIDON_CHANNEL_STATE_RUNNING in
            let c2 := ch_with_quasar c1 (q_with_protocol (ch_quasar c1)
                        (option_map (fun p => bootstrap_protocol p addr port seeds) (q_protocol (ch_quasar c1)))) in
            Ret (0, put_channel (m_with_pending m (delete i (m_pending m))) j c2)
          else Ret (0, m_with_pending m (<[i := p']> (m_pending m)))
      end
  end.

Section publishing.
(** Publishing on the dial channel. *)
Context (pub : manager → list Z → list Z → world → run (Z * manager * world)).

(** Serialize an item and publish it; [other] is the result when there is
    nothing to publish. *)
Definition publish_item (m : manager) (topic : list Z) (item : option cbor_item) (other : Z) (w : world)
  : run (Z * manager * world) :=
  match item with
  | None => Some (Ret (other, m, w))
  | Some i =>
      let buf := cbor_serialize_alloc i in
      if zlen buf =? 0 then Some (Ret (other, m, w)) else pub m topic buf w
  end.

Definition poseidon_channel_manager_handle_bootstrap_request (m : manager) (topic : list Z) (w : world)
  : run (Z * manager * world) :=
  match poseidon_channel_manager_find_tombstone m topic with
  | Some t =>
      encoded <~ lift (tombstone_encode t) ;;
      '(_, m', w') <~ publish_item m topic encoded 0 w ;;
      Some (Ret (0, m', w'))
  | None =>
      if negb (existsb (channel_topic_is topic) (m_channels m)) then Some (Ret (-1, m, w))
      else
        let '(_, (addr, port)) := meridian_protocol_get_local_node (q_protocol (ch_quasar (m_dial m))) in
        reply <~ lift (meridian_channel_bootstrap_reply_encode (Some topic)
                         (Some (poseidon_channel_get_topic (m_dial m))) addr port (time_us w) []) ;;
        publish_item m topic reply (-1) w
  end.

(** Both notice handlers end by publishing the notice again. *)
Definition redistribute (m : manager) (topic : list Z) (encoded : exec (option cbor_item)) (w : world)
  : run (manager * world) :=
  item <~ lift encoded ;;
  '(_, m', w') <~ publish_item m topic item 0 w ;;
  Some (Ret (m', w')).

Definition poseidon_channel_manager_handle_delete_notice (m : manager)
    (notice : meridian_channel_delete_notice_t) (w : world) : run (manager * world) :=
  let m1 := (poseidon_channel_manager_add_tombstone m
               (poseidon_tombstone_from_delete_notice notice (mono_us w))).2 in
  topic <~ lift (str_of (dn_topic_id notice)) ;;
  m2 <~ lift match find_index (channel_topic_is topic) (m_channels m1) with
             | None => Ret m1
             | Some i =>
                 match m_channels m1 !! i with
                 | None => Ret m1
                 | Some e =>
                     '(_, c) <- poseidon_channel_delete_signed XXH3 e.2 ;;
                     Ret (poseidon_channel_manager_destroy_channel (put_channel m1 i c)
                            (Some (ch_node_id e.2))).2
                 end
             end ;;
  redistribute m2 topic (meridian_channel_delete_notice_encode (Some notice)) w.

(** [poseidon_channel_rejoin_with_config] of the channel in slot [i]: leave
    the topic, stop, build a fresh Quasar node, subscribe, ask for a bootstrap. *)
Definition rejoin_channel (c : poseidon_channel_t K) (new_config : poseidon_channel_config_t)
  : exec (poseidon_channel_t K) :=
  let topic := poseidon_channel_get_topic c in
  '(_, q) <- quasar_unsubscribe XXH3 (ch_quasar c) (Some topic) ;;
  let protocol := option_map (fun p => (meridian_protocol_stop p).2) (q_protocol q) in
  let q1 := quasar_create protocol (quasar_max_hops new_config) (quasar_alpha new_config)
              (quasar_seen_size new_config) (quasar_seen_hashes new_config) in
  '(_, q2) <- quasar_subscribe XXH3 q1 (Some topic) 300 ;;
  let q3 := if ch_message_cb c then quasar_set_message_callback q2 true else q2 in
  Ret (ch_with_state (ch_with_quasar (ch_with_config c new_config) q3) POSEIDON_CHANNEL_STATE_BOOTSTRAPPING).

Definition poseidon_channel_rejoin_with_config (m : manager) (i : nat) (c : poseidon_channel_t K)
    (new_config : poseidon_channel_config_t) (w : world) : run (Z * manager * world) :=
  c' <~ lift (rejoin_channel c new_config) ;;
  let m1 := put_channel m i c' in
  let topic := poseidon_channel_get_topic c in
  encoded <~ lift (meridian_channel_bootstrap_encode (Some topic) (Some (take 63 topic)) (time_us w)) ;;
  '(_, m2, w2) <~ publish_item m1 topic encoded 0 w ;;
  Some (Ret (0, m2, w2)).

Definition poseidon_channel_manager_handle_modify_notice (m : manager)
    (notice : meridian_channel_modify_notice_t) (w : world) : run (manager * world) :=
  let m1 := (poseidon_channel_manager_add_tombstone m
               (poseidon_tombstone_from_modify_notice notice (mono_us w))).2 in
  topic <~ lift (str_of (dn_topic_id (mn_notice notice))) ;;
  '(m2, w2) <~ match find_index (channel_topic_is topic) (m_channels m1) with
               | None => Some (Ret (m1, w))
               | Some i =>
                   match m_channels m1 !! i with
                   | None => Some (Ret (m1, w))
                   | Some e =>
                       '(_, m2, w2) <~ poseidon_channel_rejoin_with_config m1 i e.2 (mn_config notice) w ;;
                       Some (Ret (m2, w2))
                   end
               end ;;
  redistribute m2 topic (meridian_channel_modify_notice_encode (Some notice)) w2.

(** *** The intercept *)

(** [true] when the packet was one of the manager's.  [cbor_array_is_definite]
    is called on whatever item was read. *)
Definition channel_manager_bootstrap_intercept (m : manager) (data : list Z) (w : world)
  : run (bool * manager * world) :=
  let declined := Some (Ret (false, m, w)) in
  match cbor_load data with
  | None => declined
  | Some item =>
      definite <~ lift (cbor_array_is_definite item) ;;
      if negb definite then declined else
      size <~ lift (cbor_array_size item) ;;
      if size <? 1 then declined else
      items <~ lift (cbor_array_handle item) ;;
      i0 <~ lift (elem_at items 0) ;;
      if negb (cbor_isa_uint i0) then declined else
      pkt_type <~ lift (cbor_get_uint8 i0) ;;
      if pkt_type =? MERIDIAN_PACKET_TYPE_CHANNEL_BOOTSTRAP then
        r <~ lift (meridian_channel_bootstrap_decode (Some item) 64 64) ;;
        match r with
        | None => declined
        | Some (topic, _, _) =>
            '(_, m', w') <~ poseidon_channel_manager_handle_bootstrap_request m (c_str topic) w ;;
            Some (Ret (true, m', w'))
        end
      else if pkt_type =? MERIDIAN_PACKET_TYPE_CHANNEL_BOOTSTRAP_REPLY then
        r <~ lift (meridian_channel_bootstrap_reply_decode (Some item) 64 64 16) ;;
        match r with
        | None => declined
        | Some r =>
            '(_, m') <~ lift (poseidon_channel_manager_handle_bootstrap_reply m (c_str (br_topic r)) (br_addr r)
                                (br_port r) (br_timestamp_us r) (br_seeds r)) ;;
            Some (Ret (true, m', w))
        end
      else if pkt_type =? MERIDIAN_PACKET_TYPE_CHANNEL_DELETE_NOTICE then
        r <~ lift (meridian_channel_delete_notice_decode (Some item)) ;;
        match r with
        | None => declined
        | Some notice =>
            rc <~ lift (poseidon_channel_verify_delete_notice blake3 cbor_serialize_alloc (Some notice)) ;;
            if negb (rc =? 0) then declined
            else '(m', w') <~ poseidon_channel_manager_handle_delete_notice m notice w ;; Some (Ret (true, m', w'))
        end
      else if pkt_type =? MERIDIAN_PACKET_TYPE_CHANNEL_MODIFY_NOTICE then
        r <~ lift (meridian_channel_modify_notice_decode (Some item)) ;;
        match r with
        | None => declined
        | Some notice =>
            rc <~ lift (poseidon_channel_verify_modify_notice blake3 cbor_serialize_alloc (Some notice)) ;;
            if negb (rc =? 0) then declined
            else '(m', w') <~ poseidon_channel_manager_handle_modify_notice m notice w ;; Some (Ret (true, m', w'))
        end
      else declined
  end.

(** The message callback of the dial channel. *)
Definition dial_message_handler (m : manager) (data : list Z) (w : world) : run (manager * world) :=
  '(handled, m', w') <~ (if ch_intercept_cb (m_dial m) then channel_manager_bootstrap_intercept m data w
                         else Some (Ret (false, m, w))) ;;
  if (handled : bool) then Some (Ret (m', w'))
  else (_ <~ lift (channel_app_delivery cbor_load (m_dial m') data) ;; Some (Ret (m', w'))).
End publishing.

(** [poseidon_channel_publish] on the dial channel, the callback of a local
    subscription included; afterwards the message goes to every peer of the
    dial channel as the callback left it. *)
Fixpoint dial_publish (fuel : nat) (m : manager) (topic data : list Z) (w : world)
  : run (Z * manager * world) :=
  match fuel with
  | O => None
  | S fuel' =>
      let q := ch_quasar (m_dial m) in
      if locally_subscribed q topic && q_on_message q then
        '(m1, w1) <~ dial_message_handler (dial_publish fuel') m data (w_emit w (QDeliver topic (Some data))) ;;
        let q1 := ch_quasar (m_dial m1) in
        match q_protocol q1 with
        | None => Some (Ret (0, m1, w1))
        | Some p =>
            let '(_, (addr, port)) := meridian_protocol_get_local_node (Some p) in
            '(q2, w2) <~ lift (republish XXH3 clock DatagramSend q1 topic (Some data)
                                 (meridian_node_create_unidentified addr port)
                                 (meridian_protocol_get_connected_peers p) w1) ;;
            Some (Ret (0, m_with_dial m1 (ch_with_quasar (m_dial m1) q2), w2))
        end
      else
        '(rc, d, w1) <~ lift (poseidon_channel_publish XXH3 clock DatagramSend (m_dial m) (Some topic) (Some data) w) ;;
        Some (Ret (rc, m_with_dial m d, w1))
  end.

(** ** Joining *)

(** [create] is [poseidon_channel_create] with a generated key and the default
    configuration, given the name and the port. *)
Definition poseidon_channel_manager_join_channel (fuel : nat) (m : manager) (topic : list Z)
    (create : list Z → Z → exec (option (poseidon_channel_t K))) (w : world)
  : run (option Z * manager * world) :=
  if POSEIDON_CHANNEL_MANAGER_MAX_CHANNELS <=? zlen (m_channels m) then Some (Ret (None, m, w))
  else if POSEIDON_MAX_PENDING_BOOTSTRAPS <=? zlen (m_pending m) then Some (Ret (None, m, w))
  else
    let '(port, m1) := allocate_port m in
    if port =? 0 then Some (Ret (None, m1, w))
    else
      r <~ lift (create topic port) ;;
      match r with
      | None => Some (Ret (None, m1, w))
      | Some c =>
          let timestamp_us := time_us w in
          let '(addr, m2) := m_add_channel m1 (ch_with_state c POSEIDON_CHANNEL_STATE_BOOTSTRAPPING) in
          let m3 := m_with_pending m2
                      (m_pending m2 ++ [mkPending (str_buf 64 (take 63 topic)) timestamp_us addr []]) in
          '(_, d) <~ lift (poseidon_channel_subscribe XXH3 (m_dial m3) (Some topic) 300) ;;
          let m4 := m_with_dial m3 d in
          item <~ lift (meridian_channel_bootstrap_encode (Some topic)
                          (Some (poseidon_channel_get_topic (m_dial m4))) timestamp_us) ;;
          '(_, m5, w5) <~ publish_item (dial_publish fuel) m4 topic item 0 w ;;
          Some (Ret (Some addr, m5, w5))
      end.

(** ** Periodic work *)

Fixpoint tick_channels (l : list (Z * poseidon_channel_t K)) (rc : Z)
  : exec (Z * list (Z * poseidon_channel_t K)) :=
  match l with
  | [] => Ret (rc, [])
  | e :: l' =>
      '(r, c) <- poseidon_channel_tick XXH3 e.2 ;;
      '(rc', rest) <- tick_channels l' (Z.lor rc r) ;;
      Ret (rc', (e.1, c) :: rest)
  end.

Definition poseidon_channel_manager_tick_all (m : manager) (w : world) : exec (Z * manager) :=
  '(r, d) <- poseidon_channel_tick XXH3 (m_dial m) ;;
  '(rc, l) <- tick_channels (m_channels m) r ;;
  Ret (rc, poseidon_channel_manager_expire_tombstones (m_with_channels (m_with_dial m d) l) (mono_us w)).

Fixpoint gossip_channels (l : list (poseidon_channel_t K)) (rc : Z) (w : world) : exec (Z * world) :=
  match l with
  | [] => Ret (rc, w)
  | c :: l' =>
      '(r, w') <- poseidon_channel_gossip DatagramSend cbor_serialize_alloc c w ;;
      gossip_channels l' (Z.lor rc r) w'
  end.

Definition poseidon_channel_manager_gossip_all (m : manager) (w : world) : exec (Z * world) :=
  gossip_channels (m_dial m :: map snd (m_channels m)) 0 w.
End handlers.
End manager.
Arguments poseidon_channel_manager_t K : clear implicits.
