(* ===== verification/ManagerTheorems.v ===== *)
(** * ManagerTheorems: what the channel manager guarantees

    The capacity invariant of [poseidon_channel_manager_t] over every operation
    and every message the dial channel can deliver, the tombstone table as a
    newest-wins map, port allocation, the bootstrap handshake, and the
    redistribution of notices. *)

From stdpp Require Import relations.
From S2P Require Import Prelude CString Bitset Bloom ElasticBloom AttenuatedBloom Cbor CborWire Endian Base58.
From S2P Require Import MessageId Node NodeId Packet ChannelPacket Subtopic TopicAlias Notice Ring Route Protocol.
From S2P Require Import Quasar Channel ChannelManager.

(** ** Outcomes of runs *)

(** [P] holds of the result whenever there is one. *)
Definition run_all {A} (P : A → Prop) (r : run A) : Prop :=
  match r with Some (Ret a) => P a | _ => True end.

Lemma run_all_bind {A B} (P : A → Prop) (Q : B → Prop) (r : run A) (f : A → run B) :
  run_all P r → (∀ a, P a → run_all Q (f a)) → run_all Q (rbind r f).
Proof. intros Hr Hf. destruct r as [[a|]|]; cbn; [by apply Hf|done|done]. Qed.

Lemma run_all_lift {A B} (Q : B → Prop) (m : exec A) (f : A → run B) :
  (∀ a, run_all Q (f a)) → run_all Q (rbind (lift m) f).
Proof. intros Hf. apply (run_all_bind (fun _ => True)); [by destruct m|]. intros. apply Hf. Qed.

Lemma run_all_lift_eq {A B} (Q : B → Prop) (m : exec A) (f : A → run B) :
  (∀ a, m = Ret a → run_all Q (f a)) → run_all Q (rbind (lift m) f).
Proof. intros Hf. destruct m as [a|]; cbn; [by apply Hf|done]. Qed.

(** ** Tombstones *)

Definition tomb_topics (l : list poseidon_tombstone_t) : list (list Z) := map (fun t => c_str (tb_topic_id t)) l.

Definition tombstones_wf (l : list poseidon_tombstone_t) : Prop :=
  zlen l <= POSEIDON_TOMBSTONE_MAX ∧ base.NoDup (tomb_topics l).

Lemma topic_is_true topic t : topic_is topic t = true ↔ c_str (tb_topic_id t) = topic.
Proof. apply str_eq_true. Qed.

Lemma topic_is_false topic t : topic_is topic t = false ↔ c_str (tb_topic_id t) ≠ topic.
Proof. apply str_eq_false. Qed.

Lemma find_tombstone_Some l topic t :
  find_tombstone l topic = Some t → t ∈ l ∧ c_str (tb_topic_id t) = topic.
Proof. intros H. apply List.find_some in H as [H1 H2]. split; [by apply list_elem_of_In|by apply topic_is_true]. Qed.

Lemma find_tombstone_elem l t :
  base.NoDup (tomb_topics l) → t ∈ l → find_tombstone l (c_str (tb_topic_id t)) = Some t.
Proof.
  induction l as [|x l IH]; intros Hnd Hin; [by apply elem_of_nil in Hin|].
  apply list.NoDup_cons in Hnd as [Hx Hnd]. unfold find_tombstone. cbn [List.find].
  apply elem_of_cons in Hin as [->|Hin]; [by rewrite (proj2 (topic_is_true _ _) eq_refl)|].
  rewrite (proj2 (topic_is_false _ _)); [by apply IH|]. intros E. apply Hx. rewrite E.
  apply list_elem_of_fmap. eauto.
Qed.

Lemma find_tombstone_None l topic : find_tombstone l topic = None ↔ topic ∉ tomb_topics l.
Proof.
  unfold find_tombstone, tomb_topics. induction l as [|x l IH]; cbn [List.find map].
  - split; [intros _ H; by apply elem_of_nil in H|done].
  - rewrite elem_of_cons. destruct (topic_is topic x) eqn:E.
    + apply topic_is_true in E. split; [done|]. intros H. destruct H. by left.
    + apply topic_is_false in E. rewrite IH. split; [intros H [->|H']; done|tauto].
Qed.

Lemma tomb_topics_insert l i old t :
  l !! i = Some old → c_str (tb_topic_id old) = c_str (tb_topic_id t) →
  tomb_topics (<[i := t]> l) = tomb_topics l.
Proof.
  intros Hl E. unfold tomb_topics. change (map ?f ?l) with (f <$> l). rewrite list_fmap_insert.
  apply list_insert_id. by rewrite list_lookup_fmap, Hl, <- E.
Qed.

Lemma add_tombstone_wf l t : tombstones_wf l → tombstones_wf (add_tombstone l t).2.
Proof.
  intros [Hlen Hnd]. unfold add_tombstone.
  destruct (find_index _ l) as [i|] eqn:E.
  - apply find_index_Some in E as (old & Hl & Ht & _). rewrite Hl. cbn [snd]. apply topic_is_true in Ht.
    destruct (_ <? _); [|done]. split; [unfold zlen in *; by rewrite length_insert|].
    by rewrite (tomb_topics_insert _ _ old).
  - destruct (Z.leb_spec POSEIDON_TOMBSTONE_MAX (zlen l)); [done|]. cbn [snd].
    split; [rewrite zlen_snoc; lia|]. unfold tomb_topics. rewrite map_app.
    apply list.NoDup_app. split_and!; [done| |apply NoDup_singleton].
    intros x Hx Hx'. apply list_elem_of_singleton in Hx' as ->.
    apply list_elem_of_fmap in Hx as (y & Hy & Hin). apply find_index_None in E.
    rewrite list.Forall_forall in E. specialize (E y Hin). apply topic_is_false in E. done.
Qed.

Lemma expire_tombstones_wf l now : tombstones_wf l → tombstones_wf (expire_tombstones l now).
Proof.
  intros [Hlen Hnd]. unfold expire_tombstones. split.
  - unfold zlen in *. pose proof (List.filter_length_le (fun t => now <? tb_expires_at_us t) l). lia.
  - clear Hlen. induction l as [|x l IH]; cbn; [done|]. apply list.NoDup_cons in Hnd as [Hx Hnd].
    destruct (_ <? _); [|by apply IH]. cbn. apply list.NoDup_cons. split; [|by apply IH].
    intros Hin. apply Hx. apply list_elem_of_fmap in Hin as (y & -> & Hy). apply list_elem_of_fmap. exists y.
    split; [done|]. apply list_elem_of_In in Hy. apply List.filter_In in Hy as [Hy _]. by apply list_elem_of_In.
Qed.

Lemma find_tombstone_snoc l t topic :
  c_str (tb_topic_id t) ≠ topic → find_tombstone (l ++ [t]) topic = find_tombstone l topic.
Proof.
  intros Hne. unfold find_tombstone. induction l as [|x l IH]; cbn.
  - by rewrite (proj2 (topic_is_false topic t)).
  - destruct (topic_is topic x); [done|apply IH].
Qed.

(** The tombstone table remembers the newest notice of a channel: adding a
    tombstone keeps one entry per channel and at most 64; afterwards the entry
    of its channel is the newer of the two (the old one when the time stamps are
    equal), every other channel keeps its entry, and the call fails exactly when
    a new channel finds the table full; expiry keeps exactly the entries whose
    time has not come. *)
Theorem tombstone_newest_wins l t now :
  tombstones_wf l →
  let topic := c_str (tb_topic_id t) in
  let '(rc, l') := add_tombstone l t in
  tombstones_wf l' ∧ tombstones_wf (expire_tombstones l now) ∧
  (rc = -1 ↔ find_tombstone l topic = None ∧ zlen l = POSEIDON_TOMBSTONE_MAX) ∧
  (rc = 0 → find_tombstone l' topic =
     Some match find_tombstone l topic with
          | Some old => if tb_timestamp_us old <? tb_timestamp_us t then t else old
          | None => t
          end) ∧
  (rc ≠ 0 → l' = l) ∧
  (∀ other, other ≠ topic → find_tombstone l' other = find_tombstone l other) ∧
  (∀ x, x ∈ expire_tombstones l now ↔ x ∈ l ∧ now < tb_expires_at_us x).
Proof.
  intros Hwf topic. pose proof (add_tombstone_wf l t Hwf) as Hwf'. destruct Hwf as [Hlen Hnd].
  assert (Hexp : ∀ x, x ∈ expire_tombstones l now ↔ x ∈ l ∧ now < tb_expires_at_us x).
  { intros x. unfold expire_tombstones. rewrite !list_elem_of_In, List.filter_In, Z.ltb_lt. done. }
  pose proof (expire_tombstones_wf l now (conj Hlen Hnd)) as Hew.
  unfold add_tombstone in *. fold topic in Hwf' |- *.
  destruct (find_index (topic_is topic) l) as [i|] eqn:E.
  - apply find_index_Some in E as (old & Hl & Ht & Hpre). rewrite Hl in *. apply topic_is_true in Ht.
    assert (Hf : find_tombstone l topic = Some old)
      by (rewrite <- Ht; apply find_tombstone_elem; [done|by eapply list_elem_of_lookup_2]).
    rewrite Hf. split_and!; [done|done|split; [done|by intros [? _]]| |done| |done].
    + intros _. destruct (_ <? _); [|done]. destruct Hwf' as [_ Hnd'].
      apply find_tombstone_elem; [done|]. apply list_elem_of_lookup_2 with i.
      rewrite list_lookup_insert_eq; [done|]. by eapply lookup_lt_Some.
    + intros other Hne. destruct (_ <? _); [|done]. destruct Hwf' as [_ Hnd'].
      destruct (find_tombstone l other) as [o|] eqn:Ho.
      * apply find_tombstone_Some in Ho as [Hin <-]. apply find_tombstone_elem; [done|].
        apply list_elem_of_lookup_1 in Hin as [j Hj]. apply list_elem_of_lookup_2 with j.
        rewrite list_lookup_insert_ne; [done|]. intros <-. congruence.
      * apply find_tombstone_None. rewrite (tomb_topics_insert _ _ old) by done. by apply find_tombstone_None.
  - assert (Hf : find_tombstone l topic = None).
    { apply find_tombstone_None. intros Hin. apply list_elem_of_fmap in Hin as (y & Hy & Hin).
      apply find_index_None in E. rewrite list.Forall_forall in E. specialize (E y Hin).
      apply topic_is_false in E. done. }
    rewrite Hf. destruct (Z.leb_spec POSEIDON_TOMBSTONE_MAX (zlen l)).
    + split_and!; [done|done|split; [intros _; split; [done|lia]|done]|done|done|done|done].
    + cbn [snd] in Hwf'. split_and!; [done|done|split; [done|intros [_ ?]; lia]| |done| |done].
      * intros _. destruct Hwf' as [_ Hnd']. apply find_tombstone_elem; [done|]. apply elem_of_app. right.
        by apply list_elem_of_singleton.
      * intros other Hne. by apply find_tombstone_snoc.
Qed.

(** A notice of the channel [topic] at time [ts]. *)
Definition demo_tombstone (topic : list Z) (ts expires : Z) : poseidon_tombstone_t :=
  {| tb_type := POSEIDON_TOMBSTONE_DELETE; tb_topic_id := str_buf 64 topic; tb_node_id := zeros 64;
     tb_key_type := zeros 16; tb_public_key := zeros 64; tb_public_key_len := 0; tb_timestamp_us := ts;
     tb_expires_at_us := expires; tb_signature := zeros 64; tb_signature_len := 0; tb_config := None |}.

Lemma tombstone_newest_wins_witness :
  let l := [demo_tombstone (lit "a") 5 100; demo_tombstone (lit "b") 5 10] in
  let l' := (add_tombstone l (demo_tombstone (lit "a") 6 200)).2 in
  find_tombstone l' (lit "a") = Some (demo_tombstone (lit "a") 6 200) ∧
  find_tombstone l' (lit "b") = find_tombstone l (lit "b").
Proof.
  destruct (tombstone_newest_wins [demo_tombstone (lit "a") 5 100; demo_tombstone (lit "b") 5 10]
    (demo_tombstone (lit "a") 6 200) 50) as (_ & _ & _ & H1 & _ & H2 & _).
  - split; [vm_compute; discriminate|]. apply list.NoDup_cons. split; [|apply NoDup_singleton].
    intros H. by apply list_elem_of_singleton in H.
  - split; [exact (H1 eq_refl)|apply H2; vm_compute; discriminate].
Defined.

(** ** Ports *)

Section invariants.
Context {K : Type} `{!SignatureScheme K} `{!EqDecision K}.

Abbreviation manager := (poseidon_channel_manager_t K).

(** [n] calls in a row: the ports handed out. *)
Fixpoint allocate_n (n : nat) (m : manager) : list Z :=
  match n with
  | O => []
  | S n' => let '(p, m') := allocate_port m in p :: allocate_n n' m'
  end.

Lemma allocate_n_spec n m :
  0 < m_next_port m → m_port_range_end m < 65535 →
  allocate_n n m =
    map (fun i => let p := m_next_port m + Z.of_nat i in if p <=? m_port_range_end m then p else 0) (seq 0 n).
Proof.
  revert m. induction n as [|n IH]; intros m Hp He; [done|]. cbn [allocate_n seq map].
  unfold allocate_port. destruct (Z.ltb_spec (m_port_range_end m) (m_next_port m)).
  - rewrite (proj2 (Z.leb_gt _ _)) by lia. f_equal. rewrite IH by done. rewrite <- seq_shift, map_map.
    apply map_ext. intros i. cbn. rewrite !(proj2 (Z.leb_gt _ _)) by lia. done.
  - rewrite (proj2 (Z.leb_le _ _)) by lia. f_equal; [lia|]. rewrite u16_id by (unfold is_u16; lia).
    rewrite IH; [|cbn; lia|done]. rewrite <- seq_shift, map_map. apply map_ext. intros i. cbn.
    by replace (m_next_port m + 1 + Z.of_nat i) with (m_next_port m + Z.pos (Pos.of_succ_nat i)) by lia.
Qed.

(** ** The capacity invariant *)

Record manager_wf (m : manager) : Prop := {
  mw_channels : zlen (m_channels m) <= POSEIDON_CHANNEL_MANAGER_MAX_CHANNELS;
  mw_addrs : base.NoDup (map fst (m_channels m));
  mw_fresh : Forall (fun a => a < m_next_addr m) (map fst (m_channels m));
  mw_pending : zlen (m_pending m) <= POSEIDON_MAX_PENDING_BOOTSTRAPS;
  mw_pending_fresh : Forall (fun p => pb_channel p < m_next_addr m) (m_pending m);
  mw_tombstones : tombstones_wf (m_tombstones m);
  mw_sessions : zlen (m_sessions m) <= POSEIDON_SESSION_REGISTRY_MAX
}.

Lemma wf_with_dial (m : manager) d : manager_wf m → manager_wf (m_with_dial m d).
Proof. by intros []. Qed.

Lemma wf_with_tombstones (m : manager) l : manager_wf m → tombstones_wf l → manager_wf (m_with_tombstones m l).
Proof. by intros []. Qed.

Lemma wf_add_tombstone (m : manager) t : manager_wf m → manager_wf (poseidon_channel_manager_add_tombstone m t).2.
Proof.
  intros H. unfold poseidon_channel_manager_add_tombstone. pose proof (add_tombstone_wf _ t (mw_tombstones _ H)).
  destruct (add_tombstone _ _). by apply wf_with_tombstones.
Qed.

Lemma wf_with_channels (m : manager) l :
  manager_wf m → zlen l <= zlen (m_channels m) → base.NoDup (map fst l) →
  (∀ a, a ∈ map fst l → a ∈ map fst (m_channels m)) → manager_wf (m_with_channels m l).
Proof.
  intros [] Hl Hnd Hin. constructor; cbn; try done; [lia|].
  rewrite list.Forall_forall in mw_fresh0 |- *. intros a Ha. by apply mw_fresh0, Hin.
Qed.

Lemma put_channel_fst (m : manager) i c : map fst (m_channels (put_channel m i c)) = map fst (m_channels m).
Proof.
  cbn. change (map ?f ?l) with (f <$> l). apply list_eq. intros j. rewrite !list_lookup_fmap.
  destruct (decide (i = j)) as [<-|Hne].
  - rewrite list_lookup_alter. rewrite decide_True by done. by destruct (m_channels m !! i).
  - by rewrite list_lookup_alter_ne.
Qed.

Lemma wf_put_channel (m : manager) i c : manager_wf m → manager_wf (put_channel m i c).
Proof.
  intros H. pose proof (put_channel_fst m i c) as E. unfold put_channel in E |- *. cbn in E. apply wf_with_channels.
  - done.
  - unfold zlen. by rewrite length_alter.
  - rewrite E. apply H.
  - intros a. by rewrite E.
Qed.

Lemma wf_destroy (m : manager) n : manager_wf m → manager_wf (poseidon_channel_manager_destroy_channel m n).2.
Proof.
  intros H. unfold poseidon_channel_manager_destroy_channel. destruct n as [n|]; [|done].
  destruct (find_index _ _) as [i|] eqn:E; [|done]. apply find_index_Some in E as (e & He & _).
  pose proof (swap_remove_elem _ _ _ He) as P. cbn [snd].
  assert (Pf : map fst (m_channels m) ≡ₚ e.1 :: map fst (swap_remove i (m_channels m)))
    by (change (map ?f ?l) with (f <$> l); by rewrite P at 1).
  apply wf_with_channels; [done| | |].
  - unfold zlen. rewrite swap_remove_length by (by eapply lookup_lt_Some). lia.
  - pose proof (mw_addrs _ H) as Hnd. rewrite Pf in Hnd. by apply list.NoDup_cons in Hnd as [_ Hnd].
  - intros a Ha. rewrite Pf. by apply elem_of_cons; right.
Qed.

Lemma wf_add_channel (m : manager) c :
  manager_wf m → zlen (m_channels m) < POSEIDON_CHANNEL_MANAGER_MAX_CHANNELS →
  manager_wf (m_add_channel m c).2.
Proof.
  intros [] Hl. constructor; cbn; try done.
  - rewrite zlen_snoc. lia.
  - rewrite map_app. apply list.NoDup_app. split_and!; [done| |apply NoDup_singleton].
    intros a Ha Ha'. apply list_elem_of_singleton in Ha' as ->. rewrite list.Forall_forall in mw_fresh0.
    specialize (mw_fresh0 _ Ha). cbn in mw_fresh0. lia.
  - rewrite map_app. apply Forall_app_2; [|constructor; [cbn; lia|constructor]].
    eapply Forall_impl; [|exact mw_fresh0]. cbn. intros. lia.
  - eapply Forall_impl; [|exact mw_pending_fresh0]. cbn. intros. lia.
Qed.

Lemma wf_with_pending (m : manager) l :
  manager_wf m → zlen l <= POSEIDON_MAX_PENDING_BOOTSTRAPS → Forall (fun p => pb_channel p < m_next_addr m) l →
  manager_wf (m_with_pending m l).
Proof. by intros []. Qed.

Lemma wf_allocate (m : manager) : manager_wf m → manager_wf (allocate_port m).2.
Proof. intros H. unfold allocate_port. destruct (_ <? _); [done|]. by destruct H. Qed.

Lemma wf_register (m : manager) s :
  manager_wf m → manager_wf (poseidon_channel_manager_register_session m s).2 ∧
    manager_wf (poseidon_channel_manager_unregister_session m s).2.
Proof.
  intros []. unfold poseidon_channel_manager_register_session, poseidon_channel_manager_unregister_session.
  destruct (s =? 0); [done|]. split.
  - destruct (Z.leb_spec POSEIDON_SESSION_REGISTRY_MAX (zlen (m_sessions m))); [done|].
    constructor; cbn; try done. rewrite zlen_snoc. lia.
  - destruct (find_index _ _) as [i|] eqn:E; [|done]. apply find_index_Some in E as (e & He & _).
    constructor; cbn; try done. unfold zlen in *. rewrite swap_remove_length by (by eapply lookup_lt_Some). lia.
Qed.

Section handlers.
Context (blake3 : list Z → list Z) (XXH3 : list Z → Z → Z) (clock : Z → Z * Z).
Context (DatagramSend : Z → list Z → bool) (time_us mono_us : world → Z).
Context (connect : Z → Z → option Z * bool).
Context (cbor_load : list Z → option cbor_item) (cbor_serialize_alloc : cbor_item → list Z).

Lemma wf_bootstrap_reply (m : manager) topic addr port ts seeds :
  manager_wf m →
  run_all (fun r => manager_wf r.2)
    (lift (poseidon_channel_manager_handle_bootstrap_reply connect m topic addr port ts seeds)).
Proof.
  intros H. unfold poseidon_channel_manager_handle_bootstrap_reply.
  destruct (find_index _ _) as [i|] eqn:E; [|done]. apply find_index_Some in E as (p & Hp & _). rewrite Hp.
  assert (Hf : pb_channel p < m_next_addr m)
    by (pose proof (mw_pending_fresh _ H) as F; rewrite list.Forall_forall in F; apply F; by eapply list_elem_of_lookup_2).
  destruct (_ =? 1).
  - destruct (channel_at m (pb_channel p)) as [[j c]|]; cbn; [|done]. apply wf_put_channel, wf_with_pending; [done| |].
    + pose proof (mw_pending _ H). unfold zlen in *. rewrite length_delete by eauto. lia.
    + apply Forall_delete, H.
  - cbn. apply wf_with_pending; [done| |].
    + pose proof (mw_pending _ H). unfold zlen in *. by rewrite length_insert.
    + apply Forall_insert; [apply H|]. unfold store_reply. by destruct (_ <? _).
Qed.

Section publishing.
Context (pub : manager → list Z → list Z → world → run (Z * manager * world)).
Context (pub_wf : ∀ m t d w, manager_wf m → run_all (fun r => manager_wf r.1.2) (pub m t d w)).

Lemma wf_publish_item (m : manager) topic item other w :
  manager_wf m → run_all (fun r => manager_wf r.1.2) (publish_item cbor_serialize_alloc pub m topic item other w).
Proof. intros H. unfold publish_item. destruct item; [|done]. destruct (_ =? _); [done|by apply pub_wf]. Qed.

Lemma wf_bootstrap_request (m : manager) topic w :
  manager_wf m →
  run_all (fun r => manager_wf r.1.2)
    (poseidon_channel_manager_handle_bootstrap_request time_us cbor_serialize_alloc pub m topic w).
Proof.
  intros H. unfold poseidon_channel_manager_handle_bootstrap_request.
  destruct (poseidon_channel_manager_find_tombstone m topic).
  - apply run_all_lift. intros item. eapply run_all_bind; [by apply wf_publish_item|]. by intros [[? ?] ?] ?.
  - destruct (negb _); [done|]. destruct (meridian_protocol_get_local_node _) as [? [addr port]].
    apply run_all_lift. intros item. by apply wf_publish_item.
Qed.

Lemma wf_redistribute (m : manager) topic e w :
  manager_wf m → run_all (fun r => manager_wf r.1) (redistribute cbor_serialize_alloc pub m topic e w).
Proof.
  intros H. apply run_all_lift. intros item. eapply run_all_bind; [by apply wf_publish_item|]. by intros [[? ?] ?] ?.
Qed.

Lemma wf_delete_notice (m : manager) n w :
  manager_wf m →
  run_all (fun r => manager_wf r.1)
    (poseidon_channel_manager_handle_delete_notice XXH3 mono_us cbor_serialize_alloc pub m n w).
Proof.
  intros H. unfold poseidon_channel_manager_handle_delete_notice. apply run_all_lift. intros topic.
  assert (H1 := wf_add_tombstone m (poseidon_tombstone_from_delete_notice n (mono_us w)) H).
  apply (run_all_bind manager_wf); [|intros m2 H2; by apply wf_redistribute].
  destruct (find_index _ _) as [i|]; [|done]. destruct (_ !! i) as [e|]; [|done].
  destruct (poseidon_channel_delete_signed XXH3 e.2) as [[? c]|]; [|done].
  cbn [xbind lift run_all]. by apply wf_destroy, wf_put_channel.
Qed.

Lemma wf_modify_notice (m : manager) n w :
  manager_wf m →
  run_all (fun r => manager_wf r.1)
    (poseidon_channel_manager_handle_modify_notice XXH3 time_us mono_us cbor_serialize_alloc pub m n w).
Proof.
  intros H. unfold poseidon_channel_manager_handle_modify_notice. apply run_all_lift. intros topic.
  assert (H1 := wf_add_tombstone m (poseidon_tombstone_from_modify_notice n (mono_us w)) H).
  apply (run_all_bind (fun r => manager_wf r.1)); [|intros [m2 w2] H2; by apply wf_redistribute].
  destruct (find_index _ _) as [i|]; [|done]. destruct (_ !! i) as [e|]; [|done].
  apply (run_all_bind (fun r => manager_wf r.1.2)); [|by intros [[? ?] ?] ?].
  unfold poseidon_channel_rejoin_with_config. apply run_all_lift. intros c'. apply run_all_lift. intros item.
  eapply run_all_bind; [apply wf_publish_item; by apply wf_put_channel|]. by intros [[? ?] ?] ?.
Qed.

Lemma wf_intercept (m : manager) data w :
  manager_wf m →
  run_all (fun r => manager_wf r.1.2)
    (channel_manager_bootstrap_intercept blake3 XXH3 time_us mono_us connect cbor_load cbor_serialize_alloc pub m data w).
Proof.
  intros H. unfold channel_manager_bootstrap_intercept. destruct (cbor_load data) as [item|]; [|done].
  apply run_all_lift. intros definite. destruct (negb definite); [done|].
  apply run_all_lift. intros size. destruct (_ <? _); [done|].
  apply run_all_lift. intros items. apply run_all_lift. intros i0. destruct (negb _); [done|].
  apply run_all_lift. intros ty. destruct (_ =? _).
  { apply run_all_lift. intros [[[topic ?] ?]|]; [|done].
    eapply run_all_bind; [by apply wf_bootstrap_request|]. by intros [[? ?] ?] ?. }
  destruct (_ =? _).
  { apply run_all_lift. intros [r|]; [|done]. eapply run_all_bind; [by apply wf_bootstrap_reply|]. by intros [? ?] ?. }
  destruct (_ =? _).
  { apply run_all_lift. intros [n|]; [|done]. apply run_all_lift. intros rc. destruct (negb _); [done|].
    eapply run_all_bind; [by apply wf_delete_notice|]. by intros [? ?] ?. }
  destruct (_ =? _); [|done].
  apply run_all_lift. intros [n|]; [|done]. apply run_all_lift. intros rc. destruct (negb _); [done|].
  eapply run_all_bind; [by apply wf_modify_notice|]. by intros [? ?] ?.
Qed.

Lemma wf_message_handler (m : manager) data w :
  manager_wf m →
  run_all (fun r => manager_wf r.1)
    (dial_message_handler blake3 XXH3 time_us mono_us connect cbor_load cbor_serialize_alloc pub m data w).
Proof.
  intros H. unfold dial_message_handler. apply (run_all_bind (fun r => manager_wf r.1.2)).
  - destruct (ch_intercept_cb _); [by apply wf_intercept|done].
  - intros [[handled m'] w'] H'. destruct handled; [done|]. by apply run_all_lift.
Qed.
End publishing.

Lemma wf_dial_publish fuel (m : manager) topic data w :
  manager_wf m →
  run_all (fun r => manager_wf r.1.2)
    (dial_publish blake3 XXH3 clock DatagramSend time_us mono_us connect cbor_load cbor_serialize_alloc
       fuel m topic data w).
Proof.
  revert m topic data w. induction fuel as [|fuel IH]; intros m topic data w H; [done|]. cbn [dial_publish].
  destruct (_ && _).
  - eapply run_all_bind; [by apply wf_message_handler|]. intros [m1 w1] H1. cbn [fst] in H1.
    destruct (q_protocol _) as [p|]; [|done]. destruct (meridian_protocol_get_local_node _) as [? [addr port]].
    apply run_all_lift. intros [q2 w2]. by apply wf_with_dial.
  - apply run_all_lift. intros [[rc d] w1]. by apply wf_with_dial.
Qed.

Lemma wf_create_channel (m : manager) kp create r :
  manager_wf m → poseidon_channel_manager_create_channel m kp create = Ret r → manager_wf r.2.
Proof.
  intros H. unfold poseidon_channel_manager_create_channel.
  destruct (Z.leb_spec POSEIDON_CHANNEL_MANAGER_MAX_CHANNELS (zlen (m_channels m))) as [|Hl]; [by intros [= <-]|].
  assert (Hc : m_channels (allocate_port m).2 = m_channels m) by (unfold allocate_port; by destruct (_ <? _)).
  pose proof (wf_allocate m H) as H1. destruct (allocate_port m) as [port m1]. cbn [snd] in *.
  destruct (port =? 0); [by intros [= <-]|]. destruct kp as [k|]; [|by intros [= <-]].
  destruct (create k port) as [[c|]|]; cbn; [|by intros [= <-]|done]. intros [= <-].
  apply (wf_add_channel m1 c H1). by rewrite Hc.
Qed.

Lemma wf_join (m : manager) fuel topic create w :
  manager_wf m →
  run_all (fun r => manager_wf r.1.2)
    (poseidon_channel_manager_join_channel blake3 XXH3 clock DatagramSend time_us mono_us connect cbor_load
       cbor_serialize_alloc fuel m topic create w).
Proof.
  intros H. unfold poseidon_channel_manager_join_channel.
  destruct (Z.leb_spec POSEIDON_CHANNEL_MANAGER_MAX_CHANNELS (zlen (m_channels m))) as [|Hl]; [done|].
  destruct (Z.leb_spec POSEIDON_MAX_PENDING_BOOTSTRAPS (zlen (m_pending m))) as [|Hp]; [done|].
  assert (Hc : m_channels (allocate_port m).2 = m_channels m ∧ m_pending (allocate_port m).2 = m_pending m)
    by (unfold allocate_port; by destruct (_ <? _)).
  pose proof (wf_allocate m H) as H1. destruct (allocate_port m) as [port m1]. cbn [snd] in *.
  destruct Hc as [Hc Hq]. destruct (port =? 0); [done|].
  apply run_all_lift. intros [c|]; [|done].
  pose proof (wf_add_channel m1 (ch_with_state c POSEIDON_CHANNEL_STATE_BOOTSTRAPPING) H1) as H2.
  rewrite Hc in H2. specialize (H2 Hl). unfold m_add_channel in H2 |- *. cbn [snd] in H2.
  apply run_all_lift. intros [? d]. apply run_all_lift. intros item.
  eapply run_all_bind; [apply wf_publish_item; [intros; by apply wf_dial_publish|]|by intros [[? ?] ?] ?].
  apply wf_with_dial, wf_with_pending; [done| |].
  - cbn. rewrite zlen_snoc, Hq. lia.
  - cbn. apply Forall_app_2; [|constructor; [cbn; lia|constructor]]. apply (mw_pending_fresh _ H2).
Qed.

Lemma tick_channels_fst l rc rc' l' :
  tick_channels (K := K) XXH3 l rc = Ret (rc', l') → map fst l' = map fst l.
Proof.
  revert rc l'. induction l as [|e l IH]; intros rc l'; cbn [tick_channels]; [by intros [= _ <-]|].
  destruct (poseidon_channel_tick XXH3 e.2) as [[r c]|]; cbn [xbind]; [|done].
  destruct (tick_channels XXH3 l _) as [[r' rest]|] eqn:E; cbn [xbind]; [|done].
  intros [= <- <-]. cbn. f_equal. by eapply IH.
Qed.

Lemma wf_tick_all (m : manager) w r :
  manager_wf m → poseidon_channel_manager_tick_all XXH3 mono_us m w = Ret r → manager_wf r.2.
Proof.
  intros H. unfold poseidon_channel_manager_tick_all.
  destruct (poseidon_channel_tick XXH3 (m_dial m)) as [[rd d]|]; cbn [xbind]; [|done].
  destruct (tick_channels XXH3 (m_channels m) rd) as [[rc l]|] eqn:E; cbn [xbind]; [|done]. intros [= <-].
  apply tick_channels_fst in E. apply wf_with_tombstones; [|apply expire_tombstones_wf, H].
  apply (wf_with_channels (m_with_dial m d)).
  - by apply wf_with_dial.
  - cbn. assert (length (map fst l) = length (map fst (m_channels m))) as L by by rewrite E.
    rewrite !length_map in L. unfold zlen. lia.
  - rewrite E. apply H.
  - intros a. by rewrite E.
Qed.

(** What can happen to a manager: the calls of the daemon and of its clients,
    and messages arriving on the dial channel. *)
Inductive manager_step (m : manager) : manager → Prop :=
| mstep_create kp create r :
    poseidon_channel_manager_create_channel m kp create = Ret r → manager_step m r.2
| mstep_join fuel topic create w r :
    poseidon_channel_manager_join_channel blake3 XXH3 clock DatagramSend time_us mono_us connect cbor_load
      cbor_serialize_alloc fuel m topic create w = Some (Ret r) → manager_step m r.1.2
| mstep_destroy n : manager_step m (poseidon_channel_manager_destroy_channel m n).2
| mstep_publish fuel topic data w r :
    dial_publish blake3 XXH3 clock DatagramSend time_us mono_us connect cbor_load cbor_serialize_alloc
      fuel m topic data w = Some (Ret r) → manager_step m r.1.2
| mstep_message fuel data w r :
    dial_message_handler blake3 XXH3 time_us mono_us connect cbor_load cbor_serialize_alloc
      (dial_publish blake3 XXH3 clock DatagramSend time_us mono_us connect cbor_load cbor_serialize_alloc fuel)
      m data w = Some (Ret r) → manager_step m r.1
| mstep_tombstone t : manager_step m (poseidon_channel_manager_add_tombstone m t).2
| mstep_register s : manager_step m (poseidon_channel_manager_register_session m s).2
| mstep_unregister s : manager_step m (poseidon_channel_manager_unregister_session m s).2
| mstep_tick w r : poseidon_channel_manager_tick_all XXH3 mono_us m w = Ret r → manager_step m r.2.

Lemma manager_step_wf m m' : manager_step m m' → manager_wf m → manager_wf m'.
Proof.
  intros Hs H. destruct Hs as [kp create r E|fuel topic create w r E|n|fuel topic data w r E|fuel data w r E|t|s|s|w r E].
  - by eapply wf_create_channel.
  - pose proof (wf_join m fuel topic create w H) as P. by rewrite E in P.
  - by apply wf_destroy.
  - pose proof (wf_dial_publish fuel m topic data w H) as P. by rewrite E in P.
  - pose proof (wf_message_handler _ (wf_dial_publish fuel) m data w H) as P. by rewrite E in P.
  - by apply wf_add_tombstone.
  - by apply wf_register.
  - by apply wf_register.
  - by eapply wf_tick_all.
Qed.

Lemma wf_create d a b (m : manager) : poseidon_channel_manager_create d a b = Some m → manager_wf m.
Proof.
  unfold poseidon_channel_manager_create. destruct (_ <=? _); [done|]. destruct d as [d|]; [|done]. intros [= <-].
  constructor; cbn; [by vm_compute|constructor|constructor|by vm_compute|constructor| |by vm_compute].
  split; [by vm_compute|constructor].
Qed.
End handlers.
End invariants.

(** C16. The manager stays within its tables: after any sequence of calls and
    of messages arriving on the dial channel (with every notice and bootstrap
    packet they carry), there are at most 32 channels, 16 pending bootstraps, 64
    tombstones with one per channel, and 256 sessions, and no channel occurs
    twice. *)
Theorem manager_capacity {K} `{!SignatureScheme K} `{!EqDecision K} blake3 XXH3 clock send time mono conn load ser
    d a b (m0 m : poseidon_channel_manager_t K) :
  poseidon_channel_manager_create d a b = Some m0 →
  rtc (manager_step blake3 XXH3 clock send time mono conn load ser) m0 m → manager_wf m.
Proof.
  intros Hc Hr. apply wf_create in Hc. induction Hr as [|x y z Hs _ IH]; [done|].
  apply IH. by eapply manager_step_wf.
Qed.

(** C40. Port allocation: with a range that ends below 65535 the manager hands
    out each port of the range once, in order, and then none; with a range that
    ends at 65535 the 16-bit counter wraps, the following call fails and the one
    after that hands out port 1. *)
Theorem port_allocation {K} n (m : poseidon_channel_manager_t K) :
  0 < m_next_port m →
  (m_port_range_end m < 65535 →
     allocate_n n m =
       map (fun i => let p := m_next_port m + Z.of_nat i in if p <=? m_port_range_end m then p else 0) (seq 0 n)) ∧
  (m_next_port m = 65535 → m_port_range_end m = 65535 → allocate_n 3 m = [65535; 0; 1]).
Proof.
  intros Hp. split; [by apply allocate_n_spec|]. intros E1 E2. destruct m; cbn in *. subst. reflexivity.
Qed.

(** ** The bootstrap handshake *)

Section handshake.
Context {K : Type} `{!SignatureScheme K} `{!EqDecision K}.
Context (blake3 : list Z → list Z) (XXH3 : list Z → Z → Z) (time_us mono_us : world → Z).
Context (connect : Z → Z → option Z * bool).
Context (cbor_load : list Z → option cbor_item) (cbor_serialize_alloc : cbor_item → list Z).

Abbreviation manager := (poseidon_channel_manager_t K).

(** What a member of the channel publishes: a reply stamped with its own
    clock. *)
Lemma member_replies (m : manager) topic w :
  let '(_, (addr, port)) := meridian_protocol_get_local_node (q_protocol (ch_quasar (m_dial m))) in
  let node := poseidon_channel_get_topic (m_dial m) in
  zlen topic < 64 → zlen node < 64 → is_u32 addr → is_u16 port → is_u64 (time_us w) →
  poseidon_channel_manager_find_tombstone m topic = None →
  existsb (channel_topic_is topic) (m_channels m) = true →
  ∃ es, let i := CArray true 7 (cbor_build_uint8 MERIDIAN_PACKET_TYPE_CHANNEL_BOOTSTRAP_REPLY :: es) in
    meridian_channel_bootstrap_reply_encode (Some topic) (Some node) addr port (time_us w) [] = Ret (Some i) ∧
    meridian_channel_bootstrap_reply_decode (Some i) 64 64 16 =
      Ret (Some (mkReply topic node addr port (time_us w) [])) ∧
    (cbor_serialize_alloc i ≠ [] →
     ∀ pub, poseidon_channel_manager_handle_bootstrap_request time_us cbor_serialize_alloc pub m topic w =
       pub m topic (cbor_serialize_alloc i) w).
Proof.
  destruct (meridian_protocol_get_local_node _) as [rc [addr port]] eqn:El. intros node Ht Hn Ha Hp Hts Hf Hm.
  destruct (bootstrap_reply_wire topic node addr port (time_us w) [] 64 64 16) as (es & E & D);
    [done..|constructor|done|].
  exists es. split; [exact E|]. split; [exact D|]. intros Hw pub. unfold poseidon_channel_manager_handle_bootstrap_request.
  rewrite Hf, Hm. cbn [negb]. rewrite El. fold node. rewrite E. cbn [lift rbind publish_item].
  rewrite (proj2 (Z.eqb_neq _ 0)); [done|].
  intros Hz. apply Hw, nil_length_inv. unfold zlen in Hz. apply Nat2Z.inj. exact Hz.
Qed.

(** How the intercept treats a reply. *)
Lemma intercept_reply pub (m : manager) data es r w :
  cbor_load data = Some (CArray true 7 (cbor_build_uint8 MERIDIAN_PACKET_TYPE_CHANNEL_BOOTSTRAP_REPLY :: es)) →
  meridian_channel_bootstrap_reply_decode
    (Some (CArray true 7 (cbor_build_uint8 MERIDIAN_PACKET_TYPE_CHANNEL_BOOTSTRAP_REPLY :: es))) 64 64 16 = Ret (Some r) →
  channel_manager_bootstrap_intercept blake3 XXH3 time_us mono_us connect cbor_load cbor_serialize_alloc pub m data w =
    ('(_, m') <~ lift (poseidon_channel_manager_handle_bootstrap_reply connect m (c_str (br_topic r)) (br_addr r)
                         (br_port r) (br_timestamp_us r) (br_seeds r)) ;; Some (Ret (true, m', w))).
Proof.
  intros Hl Hd. unfold channel_manager_bootstrap_intercept. rewrite Hl.
  cbn [cbor_array_is_definite cbor_array_size cbor_array_handle lift rbind negb].
  rewrite (proj2 (Z.ltb_ge _ _)) by (unfold zlen; simpl length; lia).
  change (elem_at _ 0) with (Ret (cbor_build_uint8 MERIDIAN_PACKET_TYPE_CHANNEL_BOOTSTRAP_REPLY)).
  cbn [rbind]. change (cbor_isa_uint _) with true. cbn [negb].
  change (cbor_get_uint8 _) with (Ret MERIDIAN_PACKET_TYPE_CHANNEL_BOOTSTRAP_REPLY). cbn [rbind].
  change (MERIDIAN_PACKET_TYPE_CHANNEL_BOOTSTRAP_REPLY =? MERIDIAN_PACKET_TYPE_CHANNEL_BOOTSTRAP) with false.
  rewrite Z.eqb_refl, Hd. done.
Qed.

Lemma pending_none (l : list pending_bootstrap_t) topic ts :
  (∀ p, p ∈ l → c_str (pb_topic_id p) = topic → pb_timestamp_us p ≠ ts) →
  find_index (pending_is topic ts) l = None.
Proof.
  intros H. apply find_index_None, list.Forall_forall. intros p Hp. unfold pending_is.
  destruct (str_eq _ _) eqn:E; [|done]. apply str_eq_true in E. by apply Z.eqb_neq, H.
Qed.

(** The first reply to a pending request: the channel runs and the request is
    gone. *)
Lemma reply_completes (m : manager) topic addr port ts seeds i p j c :
  find_index (pending_is topic ts) (m_pending m) = Some i → m_pending m !! i = Some p → pb_replies p = [] →
  channel_at m (pb_channel p) = Ret (j, c) →
  ∃ c', poseidon_channel_manager_handle_bootstrap_reply connect m topic addr port ts seeds =
      Ret (0, put_channel (m_with_pending m (delete i (m_pending m))) j c') ∧
    ch_state c' = POSEIDON_CHANNEL_STATE_RUNNING ∧ ch_node_id c' = ch_node_id c ∧
    q_protocol (ch_quasar c') =
      option_map (fun p => bootstrap_protocol connect p addr port seeds) (q_protocol (ch_quasar c)).
Proof.
  intros Hf Hp Hr Hc. unfold poseidon_channel_manager_handle_bootstrap_reply. rewrite Hf, Hp.
  unfold store_reply. rewrite Hr. change (zlen [] <? POSEIDON_BOOTSTRAP_REPLY_ADDRS_MAX) with true. cbn [pb_replies app].
  change (zlen [(addr, port)] =? 1) with true. rewrite Hc, bind_Ret_l. eexists. split; [reflexivity|]. done.
Qed.
End handshake.

(** C17. The bootstrap handshake depends on the clocks.  A member answers a
    request with a reply stamped by its own clock.  The joiner that receives the
    reply completes (its channel runs, the request is no longer pending, the
    protocol connects to the responder) when it has a pending request for the
    topic with that very time stamp; when every pending request for the topic
    was stamped at another microsecond, the reply is consumed without any
    effect. *)
Theorem bootstrap_needs_equal_clocks {K} `{!SignatureScheme K} `{!EqDecision K} blake3 XXH3
    time_r time_j mono conn load ser (mr mj : poseidon_channel_manager_t K) topic wr wj :
  let '(_, (addr, port)) := meridian_protocol_get_local_node (q_protocol (ch_quasar (m_dial mr))) in
  let node := poseidon_channel_get_topic (m_dial mr) in
  cstr_ok topic → zlen topic < 64 → zlen node < 64 → is_u32 addr → is_u16 port → is_u64 (time_r wr) →
  poseidon_channel_manager_find_tombstone mr topic = None →
  existsb (channel_topic_is topic) (m_channels mr) = true →
  ∃ item, let buf := ser item in
    meridian_channel_bootstrap_reply_encode (Some topic) (Some node) addr port (time_r wr) [] = Ret (Some item) ∧
    (buf ≠ [] →
     ∀ pub, poseidon_channel_manager_handle_bootstrap_request time_r ser pub mr topic wr = pub mr topic buf wr) ∧
    (load buf = Some item →
    ((∀ p, p ∈ m_pending mj → c_str (pb_topic_id p) = topic → pb_timestamp_us p ≠ time_r wr) →
     ∀ pub, channel_manager_bootstrap_intercept blake3 XXH3 time_j mono conn load ser pub mj buf wj =
       Some (Ret (true, mj, wj))) ∧
    (∀ i p j c, find_index (pending_is topic (time_r wr)) (m_pending mj) = Some i → m_pending mj !! i = Some p →
     pb_replies p = [] → channel_at mj (pb_channel p) = Ret (j, c) →
     ∃ c', ch_state c' = POSEIDON_CHANNEL_STATE_RUNNING ∧ ch_node_id c' = ch_node_id c ∧
       q_protocol (ch_quasar c') =
         option_map (fun p => bootstrap_protocol conn p addr port []) (q_protocol (ch_quasar c)) ∧
       ∀ pub, channel_manager_bootstrap_intercept blake3 XXH3 time_j mono conn load ser pub mj buf wj =
         Some (Ret (true, put_channel (m_with_pending mj (delete i (m_pending mj))) j c', wj)))).
Proof.
  pose proof (member_replies time_r ser mr topic wr) as Hm. cbv zeta in Hm.
  destruct (meridian_protocol_get_local_node _) as [rc [addr port]] eqn:El.
  intros node Hok Ht Hn Ha Hp Hts Hf Hex. destruct Hm as (es & E & D & P); try done.
  exists (CArray true 7 (cbor_build_uint8 MERIDIAN_PACKET_TYPE_CHANNEL_BOOTSTRAP_REPLY :: es)).
  split; [exact E|]. split; [exact P|]. intros Hl. split.
  - intros Hno pub. rewrite (intercept_reply blake3 XXH3 time_j mono conn load ser pub mj _ es _ wj Hl D).
    cbn [br_topic br_timestamp_us br_addr br_port br_seeds]. rewrite c_str_id by done.
    unfold poseidon_channel_manager_handle_bootstrap_reply. by rewrite pending_none.
  - intros i p j c Hi Hpi Hr Hc. destruct (reply_completes conn mj topic addr port (time_r wr) [] i p j c)
      as (c' & E' & Hs & Hid & Hq); try done.
    exists c'. split_and!; [done|done|done|]. intros pub.
    rewrite (intercept_reply blake3 XXH3 time_j mono conn load ser pub mj _ es _ wj Hl D).
    cbn [br_topic br_timestamp_us br_addr br_port br_seeds]. rewrite c_str_id by done. by rewrite E'.
Qed.

(** ** Redistribution of notices *)

Lemma rbind_Ret_inv {A B} (r : run A) (f : A → run B) b :
  rbind r f = Some (Ret b) → ∃ a, r = Some (Ret a) ∧ f a = Some (Ret b).
Proof. destruct r as [[a|]|]; cbn; intros H; [by exists a|done|done]. Qed.

Lemma rbind_lift {A B} (a : A) (f : A → run B) : rbind (lift (Ret a)) f = f a.
Proof. done. Qed.

Section redistribution.
Context {K : Type} `{!SignatureScheme K} `{!EqDecision K}.
Context (blake3 : list Z → list Z) (XXH3 : list Z → Z → Z) (clock : Z → Z * Z).
Context (DatagramSend : Z → list Z → bool) (time_us mono_us : world → Z).
Context (connect : Z → Z → option Z * bool).
Context (cbor_load : list Z → option cbor_item) (cbor_serialize_alloc : cbor_item → list Z).

Abbreviation manager := (poseidon_channel_manager_t K).

Lemma destroy_keeps_dial (m : manager) n : m_dial (poseidon_channel_manager_destroy_channel m n).2 = m_dial m.
Proof. unfold poseidon_channel_manager_destroy_channel. destruct n; [|done]. by destruct (find_index _ _). Qed.

Lemma add_tombstone_keeps_dial (m : manager) t : m_dial (poseidon_channel_manager_add_tombstone m t).2 = m_dial m.
Proof. unfold poseidon_channel_manager_add_tombstone. by destruct (add_tombstone _ _). Qed.

(** A returning delete handler has published the notice on the same dial
    channel. *)
Lemma delete_notice_publishes pub (m : manager) n i topic w r :
  str_of (dn_topic_id n) = Ret topic →
  meridian_channel_delete_notice_encode (Some n) = Ret (Some i) → cbor_serialize_alloc i ≠ [] →
  poseidon_channel_manager_handle_delete_notice XXH3 mono_us cbor_serialize_alloc pub m n w = Some (Ret r) →
  ∃ m' r', m_dial m' = m_dial m ∧ pub m' topic (cbor_serialize_alloc i) w = Some (Ret r').
Proof.
  intros Ht He Hs. unfold poseidon_channel_manager_handle_delete_notice. rewrite Ht, rbind_lift.
  intros H. apply rbind_Ret_inv in H as (m2 & E2 & H). unfold redistribute in H. rewrite He, rbind_lift in H.
  cbn [publish_item] in H. rewrite (proj2 (Z.eqb_neq _ 0)) in H.
  2:{ intros Hz. apply Hs, nil_length_inv. unfold zlen in Hz. lia. }
  apply rbind_Ret_inv in H as (r' & E & _). exists m2, r'. split; [|done]. clear E.
  destruct (find_index _ _) as [k|]; [|by injection E2 as <-; apply add_tombstone_keeps_dial].
  destruct (_ !! k) as [e|]; [|by injection E2 as <-; apply add_tombstone_keeps_dial].
  destruct (poseidon_channel_delete_signed XXH3 e.2) as [[? c]|]; [|done]. cbn [xbind] in E2.
  assert (∀ a b : manager, lift (Ret a) = Some (Ret b) → b = a) as Hi by (intros ? ? H; by injection H).
  apply Hi in E2 as ->. rewrite destroy_keeps_dial. apply add_tombstone_keeps_dial.
Qed.

(** How the intercept treats a valid delete notice. *)
Lemma intercept_delete pub (m : manager) data es n w :
  let i := CArray true 7 (cbor_build_uint8 MERIDIAN_PACKET_TYPE_CHANNEL_DELETE_NOTICE :: es) in
  cbor_load data = Some i → meridian_channel_delete_notice_decode (Some i) = Ret (Some n) →
  poseidon_channel_verify_delete_notice blake3 cbor_serialize_alloc (Some n) = Ret 0 →
  channel_manager_bootstrap_intercept blake3 XXH3 time_us mono_us connect cbor_load cbor_serialize_alloc pub m data w =
    ('(m', w') <~ poseidon_channel_manager_handle_delete_notice XXH3 mono_us cbor_serialize_alloc pub m n w ;;
     Some (Ret (true, m', w'))).
Proof.
  intros i Hl Hd Hv. subst i. unfold channel_manager_bootstrap_intercept. rewrite Hl.
  cbn [cbor_array_is_definite cbor_array_size cbor_array_handle lift rbind negb].
  rewrite (proj2 (Z.ltb_ge _ _)) by (unfold zlen; simpl length; lia).
  change (elem_at _ 0) with (Ret (cbor_build_uint8 MERIDIAN_PACKET_TYPE_CHANNEL_DELETE_NOTICE)).
  cbn [rbind]. change (cbor_isa_uint _) with true. cbn [negb].
  change (cbor_get_uint8 _) with (Ret MERIDIAN_PACKET_TYPE_CHANNEL_DELETE_NOTICE). cbn [rbind].
  change (MERIDIAN_PACKET_TYPE_CHANNEL_DELETE_NOTICE =? MERIDIAN_PACKET_TYPE_CHANNEL_BOOTSTRAP) with false.
  change (MERIDIAN_PACKET_TYPE_CHANNEL_DELETE_NOTICE =? MERIDIAN_PACKET_TYPE_CHANNEL_BOOTSTRAP_REPLY) with false.
  rewrite Z.eqb_refl, Hd. cbn [rbind]. rewrite Hv. done.
Qed.

Lemma delete_redistribution fuel (m : manager) n es topic w r :
  let i := CArray true 7 (cbor_build_uint8 MERIDIAN_PACKET_TYPE_CHANNEL_DELETE_NOTICE :: es) in
  str_of (dn_topic_id n) = Ret topic →
  meridian_channel_delete_notice_encode (Some n) = Ret (Some i) →
  meridian_channel_delete_notice_decode (Some i) = Ret (Some n) →
  poseidon_channel_verify_delete_notice blake3 cbor_serialize_alloc (Some n) = Ret 0 →
  cbor_serialize_alloc i ≠ [] → cbor_load (cbor_serialize_alloc i) = Some i →
  locally_subscribed (ch_quasar (m_dial m)) topic = true → q_on_message (ch_quasar (m_dial m)) = true →
  ch_intercept_cb (m_dial m) = true →
  dial_publish blake3 XXH3 clock DatagramSend time_us mono_us connect cbor_load cbor_serialize_alloc
    fuel m topic (cbor_serialize_alloc i) w ≠ Some (Ret r).
Proof.
  intros i Ht He Hd Hv Hs Hl. revert m w r. induction fuel as [|fuel IH]; intros m w r Hsub Hon Hic; [done|].
  cbn [dial_publish]. rewrite Hsub, Hon. cbn [andb]. intros H. apply rbind_Ret_inv in H as (r1 & H & _).
  unfold dial_message_handler in H. rewrite Hic in H. apply rbind_Ret_inv in H as (r2 & H & _).
  rewrite (intercept_delete _ m _ es n _ Hl Hd Hv) in H. apply rbind_Ret_inv in H as (r3 & H & _).
  apply (delete_notice_publishes _ _ _ i topic) in H as (m' & r' & Hdial & H); try done.
  apply (IH m' _ r') in H; [done|by rewrite Hdial..].
Qed.
End redistribution.

(** C18. Redistribution of a delete notice does not terminate: on a node whose
    dial channel is subscribed to the channel's topic (as joining it makes it),
    publishing a valid delete notice there calls the handler of the notice,
    which publishes the same bytes on the same topic again; whatever depth of
    nested calls is allowed, no call returns. *)
Theorem notice_redistribution_diverges {K} `{!SignatureScheme K} `{!EqDecision K} blake3 XXH3 clock send time mono
    conn load ser topic node kt key ts sig (m : poseidon_channel_manager_t K) w :
  notice_parts topic node kt key ts sig →
  let n := make_notice MERIDIAN_PACKET_TYPE_CHANNEL_DELETE_NOTICE topic node kt key ts sig in
  poseidon_channel_verify_delete_notice blake3 ser (Some n) = Ret 0 →
  locally_subscribed (ch_quasar (m_dial m)) topic = true → q_on_message (ch_quasar (m_dial m)) = true →
  ch_intercept_cb (m_dial m) = true →
  ∃ i, meridian_channel_delete_notice_encode (Some n) = Ret (Some i) ∧
    (ser i ≠ [] → load (ser i) = Some i → ∀ fuel r,
     dial_publish blake3 XXH3 clock send time mono conn load ser fuel m topic (ser i) w ≠ Some (Ret r)).
Proof.
  intros Hp n Hv Hsub Hon Hic. destruct (delete_notice_head _ _ _ _ _ _ Hp) as [es E]. fold n in E.
  destruct (notice_roundtrip_aux _ _ _ _ _ _ _ Hp demo_config_wf) as [D _]. cbv zeta in D. fold n in D.
  rewrite E, bind_Ret_l in D. eexists. split; [exact E|]. intros Hs Hl fuel r.
  apply (delete_redistribution blake3 XXH3 clock send time mono conn load ser fuel m n es topic w r); try done.
  unfold n, make_notice. cbn [dn_topic_id]. destruct Hp as [[? ?] _ _ _ _ _]. by rewrite str_of_buf.
Qed.

(** ** Witnesses *)

(** A channel whose identity string is [topic]. *)
Definition demo_named (topic : list Z) : poseidon_channel_t (list Z) :=
  {| ch_state := POSEIDON_CHANNEL_STATE_BOOTSTRAPPING; ch_key_pair := [7; 8; 9];
     ch_node_id := mkNodeId (zeros 32) (str_buf POSEIDON_NODE_ID_STRING_SIZE topic);
     ch_name := lit "demo"; ch_config := poseidon_channel_config_defaults;
     ch_quasar := quasar_create None 5 3 4096 3; ch_listen_port := 9000; ch_is_dial := false;
     ch_subtopic_subs := []; ch_aliases := topic_alias_registry_create 32;
     ch_message_cb := false; ch_intercept_cb := false |}.

(** A manager whose dial channel is subscribed to [subs], with the channels
    [topics] and pending requests for the channel at address 1. *)
Definition demo_manager (subs topics : list (list Z)) (pending : list (list Z * Z))
  : poseidon_channel_manager_t (list Z) :=
  let d := demo_named (lit "dial") in
  let q := q_with_subs (quasar_set_message_callback (ch_quasar d) true) (map (fun t => mkSub t 300) subs) in
  {| m_dial := ch_with_cbs (ch_with_quasar d q) false true true;
     m_channels := imap (fun i t => (Z.of_nat i + 1, demo_named t)) topics; m_next_addr := 10; m_next_port := 9001;
     m_port_range_start := 9001; m_port_range_end := 9010;
     m_pending := map (fun p => mkPending (str_buf 64 p.1) p.2 1 []) pending; m_tombstones := []; m_sessions := [] |}.

Lemma manager_capacity_witness :
  ∃ m0 m : poseidon_channel_manager_t (list Z),
    poseidon_channel_manager_create (Some (demo_named (lit "dial"))) 9001 9010 = Some m0 ∧
    length (m_channels m) = 1%nat ∧ m_sessions m = [7] ∧ manager_wf m.
Proof.
  destruct (poseidon_channel_manager_create (Some (demo_named (lit "dial"))) 9001 9010) as [m0|] eqn:E; [|discriminate].
  set (m1 := (m_add_channel (allocate_port m0).2 (demo_named (lit "chan"))).2).
  exists m0, (poseidon_channel_manager_register_session m1 7).2. split; [done|].
  split; [injection E as <-; reflexivity|]. split; [injection E as <-; reflexivity|].
  apply (manager_capacity toy_blake3 (fun _ _ => 0) (fun g => (0, g)) (fun _ _ => true) (fun _ => 0) (fun _ => 0)
    (fun _ _ => (None, false)) cbor_load cbor_serialize_alloc _ _ _ _ _ E).
  eapply rtc_l; [|apply rtc_once, mstep_register].
  pose proof (mstep_create toy_blake3 (fun _ _ => 0) (fun g => (0, g)) (fun _ _ => true) (fun _ => 0) (fun _ => 0)
    (fun _ _ => (None, false)) cbor_load cbor_serialize_alloc m0 (Some [7; 8; 9])
    (fun _ _ => Ret (Some (demo_named (lit "chan")))) (Some 1, m1)) as S. apply S.
  injection E as <-. reflexivity.
Defined.

Lemma port_allocation_witness :
  allocate_n 3 (m_with_port (demo_manager [] [] []) 9009) = [9009; 9010; 0].
Proof.
  destruct (port_allocation 3 (m_with_port (demo_manager [] [] []) 9009)) as [H _]; [by vm_compute|].
  rewrite H by by vm_compute. reflexivity.
Defined.

Lemma bootstrap_needs_equal_clocks_witness :
  let mr := demo_manager [] [lit "chan"] [] in
  let mj := demo_manager [] [lit "other"] [(lit "chan", 5)] in
  let w := mkWorld 0 [] in
  ∃ buf,
    poseidon_channel_manager_handle_bootstrap_request (fun _ => 7) cbor_serialize_alloc
      (fun m _ d w => Some (Ret (zlen d, m, w))) mr (lit "chan") w = Some (Ret (zlen buf, mr, w)) ∧
    channel_manager_bootstrap_intercept toy_blake3 (fun _ _ => 0) (fun _ => 0) (fun _ => 0) (fun _ _ => (None, false))
      cbor_load cbor_serialize_alloc (fun m _ _ w => Some (Ret (0, m, w))) mj buf w = Some (Ret (true, mj, w)).
Proof.
  destruct (bootstrap_needs_equal_clocks toy_blake3 (fun _ _ => 0) (fun _ => 7) (fun _ => 0) (fun _ => 0)
    (fun _ _ => (None, false)) cbor_load cbor_serialize_alloc (demo_manager [] [lit "chan"] [])
    (demo_manager [] [lit "other"] [(lit "chan", 5)]) (lit "chan") (mkWorld 0 []) (mkWorld 0 [])) as (i & E & P & Q).
  - repeat (constructor; [cbn; lia|]). constructor.
  - by vm_compute.
  - by vm_compute.
  - unfold is_u32. lia.
  - unfold is_u16. lia.
  - unfold is_u64. lia.
  - reflexivity.
  - reflexivity.
  - vm_compute in E. injection E as <-. eexists. split; [rewrite P by (vm_compute; discriminate); reflexivity|].
    apply Q; [vm_compute; reflexivity|].
    intros p Hp. apply list_elem_of_singleton in Hp as ->. discriminate.
Defined.

(** [cstr_ok] by evaluation. *)
Lemma cstr_check s : forallb (fun b => (0 <? b) && (b <? 256)) s = true → cstr_ok s.
Proof.
  intros H. apply list.Forall_forall. intros b Hb. rewrite forallb_forall in H.
  apply list_elem_of_In, H, andb_true_iff in Hb as [?%Z.ltb_lt ?%Z.ltb_lt]. lia.
Qed.

(** A delete notice for "chan", signed by the key [7; 8; 9]. *)
Definition demo_signer : list Z :=
  Eval vm_compute in
    match poseidon_node_id_from_public_key toy_blake3 [7; 8; 9] poseidon_node_id_clear with
    | Ret (Some id) => c_str (nid_str id)
    | _ => []
    end.

Definition demo_signature : list Z :=
  Eval vm_compute in
    match build_delete_signable (lit "chan") demo_signer (lit "ED25519") [7; 8; 9] 42 with
    | Ret (Some i) => toy_signature [7; 8; 9] (cbor_serialize_alloc i)
    | _ => []
    end.

Lemma notice_redistribution_diverges_witness :
  ∃ i, meridian_channel_delete_notice_encode (Some (make_notice MERIDIAN_PACKET_TYPE_CHANNEL_DELETE_NOTICE
         (lit "chan") demo_signer (lit "ED25519") [7; 8; 9] 42 demo_signature)) = Ret (Some i) ∧
    ∀ fuel r, dial_publish toy_blake3 (fun _ _ => 0) (fun g => (0, g)) (fun _ _ => true) (fun _ => 0) (fun _ => 0)
      (fun _ _ => (None, false)) cbor_load cbor_serialize_alloc fuel (demo_manager [lit "chan"] [] [])
      (lit "chan") (cbor_serialize_alloc i) (mkWorld 0 []) ≠ Some (Ret r).
Proof.
  destruct (notice_redistribution_diverges toy_blake3 (fun _ _ => 0) (fun g => (0, g)) (fun _ _ => true)
    (fun _ => 0) (fun _ => 0) (fun _ _ => (None, false)) cbor_load cbor_serialize_alloc
    (lit "chan") demo_signer (lit "ED25519") [7; 8; 9] 42 demo_signature (demo_manager [lit "chan"] [] []) (mkWorld 0 []))
    as (i & E & D).
  - constructor; [split; [apply cstr_check|]..| | |]; vm_compute; try reflexivity; try lia; split; congruence.
  - vm_compute. reflexivity.
  - reflexivity.
  - reflexivity.
  - reflexivity.
  - exists i. split; [exact E|]. vm_compute in E. injection E as <-.
    apply D; [vm_compute; discriminate|vm_compute; reflexivity].
Defined.
