(* ===== verification/ClientProtocol.v ===== *)
(** * ClientProtocol: the frames between clients and the daemon

    [src/ClientAPIs/client_protocol.c].  The arrays of [client_frame_t] are
    cleared before they are written, so each is represented by the bytes copied
    into it; read as a C string it ends at the first NUL ([c_str]).  The decoder
    reads integers without looking at the type of the items, which libcbor leaves
    undefined: [Trap]. *)

From S2P Require Import Prelude CString Cbor CborWire Packet ChannelPacket.

Definition CLIENT_FRAME_REQUEST : Z := 1.
Definition CLIENT_FRAME_RESPONSE : Z := 2.
Definition CLIENT_FRAME_EVENT : Z := 3.

Definition CLIENT_METHOD_CHANNEL_CREATE : Z := 1.
Definition CLIENT_METHOD_CHANNEL_JOIN : Z := 2.
Definition CLIENT_METHOD_CHANNEL_LEAVE : Z := 3.
Definition CLIENT_METHOD_CHANNEL_DESTROY : Z := 4.
Definition CLIENT_METHOD_CHANNEL_MODIFY : Z := 5.
Definition CLIENT_METHOD_SUBSCRIBE : Z := 6.
Definition CLIENT_METHOD_UNSUBSCRIBE : Z := 7.
Definition CLIENT_METHOD_PUBLISH : Z := 8.
Definition CLIENT_METHOD_ALIAS_REGISTER : Z := 9.
Definition CLIENT_METHOD_ALIAS_UNREGISTER : Z := 10.
Definition CLIENT_METHOD_ALIAS_RESOLVE : Z := 11.

Definition CLIENT_ERROR_OK : Z := 0.
Definition CLIENT_ERROR_UNKNOWN_METHOD : Z := 1.
Definition CLIENT_ERROR_INVALID_PARAMS : Z := 2.
Definition CLIENT_ERROR_CHANNEL_NOT_FOUND : Z := 3.
Definition CLIENT_ERROR_ALIAS_AMBIGUOUS : Z := 4.
Definition CLIENT_ERROR_NOT_AUTHORIZED : Z := 5.
Definition CLIENT_ERROR_TOO_MANY_CHANNELS : Z := 7.
Definition CLIENT_ERROR_TRANSPORT : Z := 8.

Definition CLIENT_EVENT_MESSAGE : Z := 1.

Definition CLIENT_MAX_TOPIC_PATH : Z := 256.
Definition CLIENT_MAX_RESULT_DATA : Z := 1024.
Definition CLIENT_MAX_SUBTOPIC : Z := 256.
Definition CLIENT_MAX_PAYLOAD : Z := 65536.
Definition CLIENT_MAX_SIGNATURE : Z := 64.

Record client_frame_t := mkFrame {
  cf_frame_type : Z;
  cf_request_id : Z;
  cf_method : Z;
  cf_error_code : Z;
  cf_event_type : Z;
  cf_topic_path : list Z;
  cf_subtopic : list Z;
  cf_result_data : list Z;
  cf_payload : list Z;
  cf_signature : list Z
}.

(** ** Encoding *)

Definition client_protocol_encode_request (request_id method : Z) (topic_path : option (list Z))
    (payload : list Z) : exec (option cbor_item) :=
  match topic_path with
  | None => Ret None
  | Some t =>
      push_all (cbor_new_definite_array 5)
        [cbor_build_uint8 CLIENT_FRAME_REQUEST; cbor_build_uint32 request_id; cbor_build_uint8 method;
         cbor_build_string t; cbor_build_bytestring payload]
  end.

Definition client_protocol_encode_admin_request (request_id method : Z) (topic_path : option (list Z))
    (signature config_data : list Z) : exec (option cbor_item) :=
  match topic_path with
  | None => Ret None
  | Some t =>
      push_all (cbor_new_definite_array 6)
        [cbor_build_uint8 CLIENT_FRAME_REQUEST; cbor_build_uint32 request_id; cbor_build_uint8 method;
         cbor_build_string t; cbor_build_bytestring signature; cbor_build_bytestring config_data]
  end.

Definition client_protocol_encode_response (request_id error_code : Z) (result_data : option (list Z))
  : exec (option cbor_item) :=
  push_all (cbor_new_definite_array 4)
    [cbor_build_uint8 CLIENT_FRAME_RESPONSE; cbor_build_uint32 request_id; cbor_build_uint8 error_code;
     cbor_build_string (default [] result_data)].

Definition client_protocol_encode_event (event_type : Z) (topic_id subtopic : option (list Z)) (data : list Z)
  : exec (option cbor_item) :=
  match topic_id, subtopic with
  | Some t, Some s =>
      push_all (cbor_new_definite_array 5)
        [cbor_build_uint8 CLIENT_FRAME_EVENT; cbor_build_uint8 event_type; cbor_build_string t;
         cbor_build_string s; cbor_build_bytestring data]
  | _, _ => Ret None
  end.

(** ** Decoding *)

(** A byte string item of at most [max] bytes. *)
Definition bytes_field (items : list cbor_item) (k max : Z) : exec (option (list Z)) :=
  i <- elem_at items k ;;
  if negb (cbor_isa_bytestring i) then Ret None
  else
    len <- cbor_bytestring_length i ;;
    if max <? len then Ret None else (d <- cbor_bytestring_handle i ;; Ret (Some d)).

(** [cbor_get_uintN(items[k])], whatever the item is. *)
Definition get_at (get : cbor_item → exec Z) (items : list cbor_item) (k : Z) : exec Z :=
  i <- elem_at items k ;; get i.

Definition decode_request (items : list cbor_item) (arr_size : Z) : exec (option client_frame_t) :=
  if (arr_size =? 5) || (arr_size =? 6) then
    request_id <- get_at cbor_get_uint32 items 1 ;;
    method <- get_at cbor_get_uint8 items 2 ;;
    topic <-? string_field items 3 CLIENT_MAX_TOPIC_PATH ;;
    if arr_size =? 5 then
      payload <-? bytes_field items 4 CLIENT_MAX_PAYLOAD ;;
      Ret (Some (mkFrame CLIENT_FRAME_REQUEST request_id method 0 0 topic [] [] payload []))
    else
      signature <-? bytes_field items 4 CLIENT_MAX_SIGNATURE ;;
      payload <-? bytes_field items 5 CLIENT_MAX_PAYLOAD ;;
      Ret (Some (mkFrame CLIENT_FRAME_REQUEST request_id method 0 0 topic [] [] payload signature))
  else Ret None.

Definition decode_response (items : list cbor_item) (arr_size : Z) : exec (option client_frame_t) :=
  if arr_size <? 4 then Ret None
  else
    request_id <- get_at cbor_get_uint32 items 1 ;;
    error_code <- get_at cbor_get_uint8 items 2 ;;
    result_data <-? string_field items 3 CLIENT_MAX_RESULT_DATA ;;
    Ret (Some (mkFrame CLIENT_FRAME_RESPONSE request_id 0 error_code 0 [] [] result_data [] [])).

Definition decode_event (items : list cbor_item) (arr_size : Z) : exec (option client_frame_t) :=
  if arr_size <? 5 then Ret None
  else
    event_type <- get_at cbor_get_uint8 items 1 ;;
    topic <-? string_field items 2 CLIENT_MAX_TOPIC_PATH ;;
    subtopic <-? string_field items 3 CLIENT_MAX_SUBTOPIC ;;
    payload <-? bytes_field items 4 CLIENT_MAX_PAYLOAD ;;
    Ret (Some (mkFrame CLIENT_FRAME_EVENT 0 0 0 event_type topic subtopic [] payload [])).

Definition client_protocol_decode (item : option cbor_item) : exec (option client_frame_t) :=
  match item with
  | None => Ret None
  | Some i =>
      definite <- cbor_array_is_definite i ;;
      if negb definite then Ret None
      else
        arr_size <- cbor_array_size i ;;
        if arr_size <? 1 then Ret None
        else
          items <- cbor_array_handle i ;;
          i0 <- elem_at items 0 ;;
          if negb (cbor_isa_uint i0) then Ret None
          else
            frame_type <- cbor_get_uint8 i0 ;;
            if frame_type =? CLIENT_FRAME_REQUEST then decode_request items arr_size
            else if frame_type =? CLIENT_FRAME_RESPONSE then decode_response items arr_size
            else if frame_type =? CLIENT_FRAME_EVENT then decode_event items arr_size
            else Ret None
  end.

(** [None] is -1. *)
Definition client_protocol_serialize (cbor_serialize_alloc : cbor_item → list Z) (frame : option cbor_item)
  : option (list Z) :=
  match frame with
  | None => None
  | Some f => let buf := cbor_serialize_alloc f in if zlen buf =? 0 then None else Some buf
  end.

(** ** Lemmas *)

Lemma bytes_field_build items k max d :
  items !! Z.to_nat k = Some (cbor_build_bytestring d) → zlen d <= max → bytes_field items k max = Ret (Some d).
Proof.
  intros E H. unfold bytes_field, elem_at. rewrite E. cbn [xbind].
  cbn [cbor_build_bytestring cbor_isa_bytestring negb cbor_bytestring_length cbor_bytestring_handle xbind].
  by rewrite (proj2 (Z.ltb_ge _ _)) by lia.
Qed.

Lemma get_at_build items k v :
  (items !! Z.to_nat k = Some (cbor_build_uint8 v) → get_at cbor_get_uint8 items k = Ret (u8 v)) ∧
  (items !! Z.to_nat k = Some (cbor_build_uint32 v) → get_at cbor_get_uint32 items k = Ret (u32 v)).
Proof. unfold get_at, elem_at. split; intros ->; reflexivity. Qed.

(** The dispatch on the frame type of an encoded frame. *)
Lemma decode_dispatch n t es :
  n = zlen (cbor_build_uint8 t :: es) → is_u8 t →
  client_protocol_decode (Some (CArray true n (cbor_build_uint8 t :: es))) =
    (if t =? CLIENT_FRAME_REQUEST then decode_request (cbor_build_uint8 t :: es) n
     else if t =? CLIENT_FRAME_RESPONSE then decode_response (cbor_build_uint8 t :: es) n
     else if t =? CLIENT_FRAME_EVENT then decode_event (cbor_build_uint8 t :: es) n
     else Ret None).
Proof.
  intros -> Ht. unfold client_protocol_decode. cbn [cbor_array_is_definite cbor_array_size cbor_array_handle xbind negb].
  rewrite (proj2 (Z.ltb_ge _ _)) by (unfold zlen; simpl length; lia).
  change (elem_at _ 0) with (Ret (cbor_build_uint8 t)). rewrite bind_Ret_l.
  change (cbor_isa_uint _) with true. cbn [negb]. change (cbor_get_uint8 _) with (Ret (u8 t)).
  rewrite bind_Ret_l. by rewrite u8_id.
Qed.

Lemma event_decodes event topic subtopic payload :
  is_u8 event → zlen topic < 256 → zlen subtopic < 256 → zlen payload <= 65536 →
  decode_event [cbor_build_uint8 CLIENT_FRAME_EVENT; cbor_build_uint8 event; cbor_build_string topic;
                cbor_build_string subtopic; cbor_build_bytestring payload] 5 =
    Ret (Some (mkFrame CLIENT_FRAME_EVENT 0 0 0 event topic subtopic [] payload [])).
Proof.
  intros Hev Ht Hs Hp. unfold decode_event. change (5 <? 5) with false. cbv iota.
  rewrite (proj1 (get_at_build _ 1 event)), bind_Ret_l by done. rewrite (string_field_build _ 2 _ topic), bind_Ret_l by done.
  rewrite (string_field_build _ 3 _ subtopic), bind_Ret_l by done. rewrite (bytes_field_build _ 4 _ payload), bind_Ret_l by done.
  by rewrite u8_id by done.
Qed.

(** *** Encoded frames *)

Definition request_item (id method : Z) (topic payload : list Z) : cbor_item :=
  CArray true 5 [cbor_build_uint8 CLIENT_FRAME_REQUEST; cbor_build_uint32 id; cbor_build_uint8 method;
                 cbor_build_string topic; cbor_build_bytestring payload].
Definition admin_item (id method : Z) (topic signature config : list Z) : cbor_item :=
  CArray true 6 [cbor_build_uint8 CLIENT_FRAME_REQUEST; cbor_build_uint32 id; cbor_build_uint8 method;
                 cbor_build_string topic; cbor_build_bytestring signature; cbor_build_bytestring config].
Definition response_item (id code : Z) (text : list Z) : cbor_item :=
  CArray true 4 [cbor_build_uint8 CLIENT_FRAME_RESPONSE; cbor_build_uint32 id; cbor_build_uint8 code;
                 cbor_build_string text].
Definition event_item (event : Z) (topic subtopic data : list Z) : cbor_item :=
  CArray true 5 [cbor_build_uint8 CLIENT_FRAME_EVENT; cbor_build_uint8 event; cbor_build_string topic;
                 cbor_build_string subtopic; cbor_build_bytestring data].

Lemma encode_items id method code event topic subtopic data text :
  client_protocol_encode_request id method (Some topic) data = Ret (Some (request_item id method topic data)) ∧
  client_protocol_encode_admin_request id method (Some topic) text data =
    Ret (Some (admin_item id method topic text data)) ∧
  client_protocol_encode_response id code (Some text) = Ret (Some (response_item id code text)) ∧
  client_protocol_encode_event event (Some topic) (Some subtopic) data = Ret (Some (event_item event topic subtopic data)).
Proof.
  unfold client_protocol_encode_request, client_protocol_encode_admin_request, client_protocol_encode_response,
    client_protocol_encode_event, cbor_new_definite_array, default.
  rewrite !push_all_definite by by vm_compute. done.
Qed.

Lemma request_decodes id method topic payload :
  is_u32 id → is_u8 method → zlen topic < 256 → zlen payload <= 65536 →
  client_protocol_decode (Some (request_item id method topic payload)) =
    Ret (Some (mkFrame CLIENT_FRAME_REQUEST id method 0 0 topic [] [] payload [])).
Proof.
  intros Hid Hm Ht Hp. unfold request_item. rewrite decode_dispatch by by vm_compute.
  change (CLIENT_FRAME_REQUEST =? CLIENT_FRAME_REQUEST) with true. unfold decode_request.
  change ((5 =? 5) || (5 =? 6)) with true. change (5 =? 5) with true. cbv iota.
  rewrite (proj2 (get_at_build _ 1 id)), bind_Ret_l by done. rewrite (proj1 (get_at_build _ 2 method)), bind_Ret_l by done.
  rewrite (string_field_build _ 3 _ topic), bind_Ret_l by done. rewrite (bytes_field_build _ 4 _ payload), bind_Ret_l by done.
  by rewrite u32_id, u8_id by done.
Qed.

Lemma admin_decodes id method topic signature config :
  is_u32 id → is_u8 method → zlen topic < 256 → zlen signature <= 64 → zlen config <= 65536 →
  client_protocol_decode (Some (admin_item id method topic signature config)) =
    Ret (Some (mkFrame CLIENT_FRAME_REQUEST id method 0 0 topic [] [] config signature)).
Proof.
  intros Hid Hm Ht Hs Hp. unfold admin_item. rewrite decode_dispatch by by vm_compute.
  change (CLIENT_FRAME_REQUEST =? CLIENT_FRAME_REQUEST) with true. unfold decode_request.
  change ((6 =? 5) || (6 =? 6)) with true. change (6 =? 5) with false. cbv iota.
  rewrite (proj2 (get_at_build _ 1 id)), bind_Ret_l by done. rewrite (proj1 (get_at_build _ 2 method)), bind_Ret_l by done.
  rewrite (string_field_build _ 3 _ topic), bind_Ret_l by done. rewrite (bytes_field_build _ 4 _ signature), bind_Ret_l by done.
  rewrite (bytes_field_build _ 5 _ config), bind_Ret_l by done. by rewrite u32_id, u8_id by done.
Qed.

Lemma response_decodes id code text :
  is_u32 id → is_u8 code → zlen text < 1024 →
  client_protocol_decode (Some (response_item id code text)) =
    Ret (Some (mkFrame CLIENT_FRAME_RESPONSE id 0 code 0 [] [] text [] [])).
Proof.
  intros Hid He Hr. unfold response_item. rewrite decode_dispatch by by vm_compute.
  change (CLIENT_FRAME_RESPONSE =? CLIENT_FRAME_REQUEST) with false.
  change (CLIENT_FRAME_RESPONSE =? CLIENT_FRAME_RESPONSE) with true. unfold decode_response. change (4 <? 4) with false. cbv iota.
  rewrite (proj2 (get_at_build _ 1 id)), bind_Ret_l by done. rewrite (proj1 (get_at_build _ 2 code)), bind_Ret_l by done.
  rewrite (string_field_build _ 3 _ text), bind_Ret_l by done. by rewrite u32_id, u8_id by done.
Qed.

Lemma event_item_decodes event topic subtopic payload :
  is_u8 event → zlen topic < 256 → zlen subtopic < 256 → zlen payload <= 65536 →
  client_protocol_decode (Some (event_item event topic subtopic payload)) =
    Ret (Some (mkFrame CLIENT_FRAME_EVENT 0 0 0 event topic subtopic [] payload [])).
Proof.
  intros. unfold event_item. rewrite decode_dispatch by by vm_compute.
  change (CLIENT_FRAME_EVENT =? CLIENT_FRAME_REQUEST) with false. change (CLIENT_FRAME_EVENT =? CLIENT_FRAME_RESPONSE) with false.
  change (CLIENT_FRAME_EVENT =? CLIENT_FRAME_EVENT) with true. by apply event_decodes.
Qed.

(** ** Properties *)

(** Frames survive the wire: a request, an administrative request, a
    response and an event within the limits are encoded, and the decoder gives
    back every field, the fields the frame kind does not use empty. *)
Theorem client_frames_roundtrip id method err event topic subtopic result payload signature :
  is_u32 id → is_u8 method → is_u8 err → is_u8 event → zlen topic < 256 → zlen subtopic < 256 →
  zlen result < 1024 → zlen payload <= 65536 → zlen signature <= 64 →
  (i <- client_protocol_encode_request id method (Some topic) payload ;; client_protocol_decode i) =
    Ret (Some (mkFrame CLIENT_FRAME_REQUEST id method 0 0 topic [] [] payload [])) ∧
  (i <- client_protocol_encode_admin_request id method (Some topic) signature payload ;; client_protocol_decode i) =
    Ret (Some (mkFrame CLIENT_FRAME_REQUEST id method 0 0 topic [] [] payload signature)) ∧
  (i <- client_protocol_encode_response id err (Some result) ;; client_protocol_decode i) =
    Ret (Some (mkFrame CLIENT_FRAME_RESPONSE id 0 err 0 [] [] result [] [])) ∧
  (i <- client_protocol_encode_event event (Some topic) (Some subtopic) payload ;; client_protocol_decode i) =
    Ret (Some (mkFrame CLIENT_FRAME_EVENT 0 0 0 event topic subtopic [] payload [])).
Proof.
  intros Hid Hm He Hev Ht Hs Hr Hp Hsig. destruct (encode_items id method err event topic subtopic payload result) as (-> & _ & -> & ->).
  destruct (encode_items id method err event topic subtopic payload signature) as (_ & -> & _). rewrite !bind_Ret_l.
  split_and!; [by apply request_decodes|by apply admin_decodes|by apply response_decodes|by apply event_item_decodes].
Qed.

Lemma client_frames_roundtrip_witness :
  (i <- client_protocol_encode_request 7 8 (Some (lit "chan")) [1; 2] ;; client_protocol_decode i) =
    Ret (Some (mkFrame CLIENT_FRAME_REQUEST 7 8 0 0 (lit "chan") [] [] [1; 2] [])).
Proof.
  refine (proj1 (client_frames_roundtrip 7 8 0 1 (lit "chan") [] [] [1; 2] [] _ _ _ _ _ _ _ _ _)); by vm_compute.
Defined.

(** A frame whose request id is a text string makes the decoder read an integer
    from it. *)
Lemma client_decode_unchecked :
  cbor_ok (CArray true 5 [CUint CBOR_INT_8 1; CString []; CUint CBOR_INT_8 8; CString []; CBytes []]) ∧
  client_protocol_decode
    (Some (CArray true 5 [CUint CBOR_INT_8 1; CString []; CUint CBOR_INT_8 8; CString []; CBytes []])) = Trap ∧
  client_protocol_decode (Some (CString [])) = Trap.
Proof.
  split; [|split; reflexivity]. apply cbor_ok_array. split; [done|]. repeat constructor; vm_compute; congruence.
Qed.
