(* ===== verification/ClientStream.v ===== *)
(** * ClientStream: frames over a byte stream

    The receive path of the stream transports ([process_client_data] and the
    read callbacks of [src/ClientAPIs/transport_unix.c] and [transport_tcp.c]):
    a frame is a four-byte length in network order followed by its body; the
    read buffer holds 65536 bytes, header included.  What a body means is an
    argument ([on_frame]); the kernel decides how many bytes each [recv] returns,
    up to the room left in the buffer. *)

From S2P Require Import Prelude Endian.

Definition UNIX_READ_BUF_SIZE : Z := 65536.
Definition UNIX_FRAME_HEADER_SIZE : nat := 4.

(** The length, and whether it is acceptable. *)
Definition read_frame_header (buf : list Z) : exec (bool * Z) :=
  match buf with
  | b0 :: b1 :: b2 :: b3 :: _ =>
      let len := Z.lor (Z.lor (Z.lor (u32 (Z.shiftl b0 24)) (Z.shiftl b1 16)) (Z.shiftl b2 8)) b3 in
      Ret ((0 <? len) && (len <=? UNIX_READ_BUF_SIZE), len)
  | _ => Trap
  end.

Definition write_frame_header (len : Z) : list Z :=
  [u8 (Z.shiftr len 24); u8 (Z.shiftr len 16); u8 (Z.shiftr len 8); u8 len].

Definition frame_bytes (body : list Z) : list Z := write_frame_header (zlen body) ++ body.

Lemma join_bytes b0 b1 b2 b3 :
  is_u8 b0 → is_u8 b1 → is_u8 b2 → is_u8 b3 →
  Z.lor (Z.lor (Z.lor (u32 (Z.shiftl b0 24)) (Z.shiftl b1 16)) (Z.shiftl b2 8)) b3 =
    b0 * 2 ^ 24 + (b1 * 2 ^ 16 + (b2 * 2 ^ 8 + b3)).
Proof.
  unfold is_u8. intros H0 H1 H2 H3. rewrite u32_id by (unfold is_u32; rewrite Z.shiftl_mul_pow2; lia).
  rewrite <- !Z.lor_assoc. rewrite (lor_shiftl_add 8) by lia. rewrite (lor_shiftl_add 16) by lia.
  by rewrite (lor_shiftl_add 24) by lia.
Qed.

Lemma header_roundtrip len rest :
  is_u32 len →
  read_frame_header (write_frame_header len ++ rest) = Ret ((0 <? len) && (len <=? UNIX_READ_BUF_SIZE), len).
Proof.
  intros H. unfold read_frame_header, write_frame_header. cbn [app]. cbv zeta.
  rewrite join_bytes by apply u8_range. unfold is_u32 in H. unfold u8. rewrite !Z.shiftr_div_pow2 by lia.
  replace (_ + (_ + (_ + _))) with len; [done|]. Z.div_mod_to_equations. lia.
Qed.

Section stream.
Context {St : Type} (on_frame : St → list Z → exec St).

(** The loop over the complete frames of the buffer; every iteration consumes
    at least the header, so the length of the buffer bounds their number. *)
Fixpoint process_frames (fuel : nat) (buf : list Z) (s : St) : exec (list Z * St) :=
  match fuel with
  | O => Ret (buf, s)
  | S fuel' =>
      if zlen buf <? Z.of_nat UNIX_FRAME_HEADER_SIZE then Ret (buf, s)
      else
        '(ok, len) <- read_frame_header buf ;;
        if negb ok then Ret (buf, s)
        else
          let total_len := (UNIX_FRAME_HEADER_SIZE + Z.to_nat len)%nat in
          if (length buf <? total_len)%nat then Ret (buf, s)
          else
            s' <- on_frame s (take (Z.to_nat len) (drop UNIX_FRAME_HEADER_SIZE buf)) ;;
            process_frames fuel' (drop total_len buf) s'
  end.

Definition process_client_data (buf : list Z) (s : St) : exec (list Z * St) :=
  process_frames (length buf) buf s.

Record stream_client := mkClient {
  sc_read_buf : list Z;
  sc_pending : list Z;      (** bytes the peer has sent and nobody has read *)
  sc_open : bool;
  sc_state : St
}.

(** One readiness event: [recv] returns between one byte and the room left, at
    most what has arrived; the return value 0 (no room asked for) is taken for
    the end of the stream. *)
Definition read_callback (n : nat) (c : stream_client) : exec stream_client :=
  if negb (sc_open c) then Ret c
  else match sc_pending c with
  | [] => Ret c
  | _ :: _ =>
      let room := (Z.to_nat UNIX_READ_BUF_SIZE - length (sc_read_buf c))%nat in
      let bytes := Nat.min n room in
      if (bytes =? 0)%nat then Ret (mkClient (sc_read_buf c) (sc_pending c) false (sc_state c))
      else
        '(buf, s) <- process_client_data (sc_read_buf c ++ take bytes (sc_pending c)) (sc_state c) ;;
        Ret (mkClient buf (drop bytes (sc_pending c)) true s)
  end.

Fixpoint read_events (ns : list nat) (c : stream_client) : exec stream_client :=
  match ns with
  | [] => Ret c
  | n :: ns' => c' <- read_callback n c ;; read_events ns' c'
  end.

Fixpoint run_frames (bodies : list (list Z)) (s : St) : exec St :=
  match bodies with
  | [] => Ret s
  | b :: bodies' => s' <- on_frame s b ;; run_frames bodies' s'
  end.

(** ** Lemmas *)

(** Bodies the transport accepts: not empty, and small enough for the buffer to
    hold them with their header. *)
Definition body_ok (b : list Z) : Prop := 0 < zlen b <= UNIX_READ_BUF_SIZE - 4.

Definition stream_of (bodies : list (list Z)) : list Z := concat (map frame_bytes bodies).

Lemma frame_bytes_length b : length (frame_bytes b) = (4 + length b)%nat.
Proof. done. Qed.

(** Bodies whose header is acceptable. *)
Definition body_wide (b : list Z) : Prop := 0 < zlen b <= UNIX_READ_BUF_SIZE.

Lemma body_ok_wide bodies : Forall body_ok bodies → Forall body_wide bodies.
Proof. apply List.Forall_impl. unfold body_ok, body_wide. intros b. lia. Qed.

Lemma body_wide_u32 b : body_wide b → is_u32 (zlen b).
Proof. unfold body_wide, is_u32, UNIX_READ_BUF_SIZE. lia. Qed.

Lemma body_u32 b : body_ok b → is_u32 (zlen b).
Proof. unfold body_ok, is_u32, UNIX_READ_BUF_SIZE. lia. Qed.

(** A complete frame at the head of the buffer is handled and dropped. *)
Lemma process_complete fuel b rest s :
  body_wide b →
  process_frames (S fuel) (frame_bytes b ++ rest) s = (s' <- on_frame s b ;; process_frames fuel rest s').
Proof.
  intros H. cbn [process_frames].
  assert (L : length (frame_bytes b ++ rest) = (4 + length b + length rest)%nat) by by rewrite length_app.
  rewrite (proj2 (Z.ltb_ge _ _)) by (unfold zlen, UNIX_FRAME_HEADER_SIZE; lia).
  unfold frame_bytes at 1. rewrite <- (assoc_L (++)), header_roundtrip, bind_Ret_l by by apply body_wide_u32.
  destruct H as [H1 H2]. rewrite (proj2 (Z.ltb_lt _ _)), (proj2 (Z.leb_le _ _)) by (unfold UNIX_READ_BUF_SIZE in *; lia).
  cbn [andb negb]. replace (Z.to_nat (zlen b)) with (length b) by (unfold zlen; lia).
  rewrite (proj2 (Nat.ltb_ge _ _)) by (unfold UNIX_FRAME_HEADER_SIZE; lia).
  change (drop UNIX_FRAME_HEADER_SIZE (frame_bytes b ++ rest)) with (b ++ rest). rewrite take_app_length.
  change (drop (UNIX_FRAME_HEADER_SIZE + length b) (frame_bytes b ++ rest)) with (drop (length b) (b ++ rest)).
  by rewrite drop_app_length.
Qed.

(** An incomplete frame stays in the buffer. *)
Lemma process_incomplete fuel b buf rest s :
  is_u32 (zlen b) → frame_bytes b = buf ++ rest → rest ≠ [] → process_frames fuel buf s = Ret (buf, s).
Proof.
  intros H E Hr. destruct fuel as [|fuel]; [done|]. cbn [process_frames].
  destruct (Z.ltb_spec (zlen buf) (Z.of_nat UNIX_FRAME_HEADER_SIZE)) as [|Hl]; [done|].
  assert (Hh : read_frame_header buf = read_frame_header (frame_bytes b ++ [])).
  { rewrite app_nil_r, E. unfold zlen, UNIX_FRAME_HEADER_SIZE in Hl. do 4 (destruct buf as [|? buf]; [simpl in Hl; lia|]). done. }
  rewrite Hh. unfold frame_bytes at 1. rewrite <- (assoc_L (++)), header_roundtrip, bind_Ret_l by done.
  destruct (negb _); [done|].
  assert (length buf < 4 + length b)%nat.
  { apply (f_equal length) in E. rewrite frame_bytes_length, length_app in E. destruct rest; [done|]. simpl in E. lia. }
  replace (Z.to_nat (zlen b)) with (length b) by (unfold zlen; lia).
  by rewrite (proj2 (Nat.ltb_lt _ _)) by (unfold UNIX_FRAME_HEADER_SIZE; lia).
Qed.

(** [buf] can be what is left in the buffer while the rest of the stream is
    [todo]: a proper prefix of the next frame. *)
Definition partial (buf : list Z) (bodies : list (list Z)) : Prop :=
  buf = [] ∨ ∃ b bodies' rest, bodies = b :: bodies' ∧ frame_bytes b = buf ++ rest ∧ rest ≠ [].

(** What any prefix of a stream of frames is processed to. *)
Lemma process_prefix bodies fuel buf pending s :
  Forall body_wide bodies → buf ++ pending = stream_of bodies → (length buf <= fuel)%nat →
  ∃ done todo buf', bodies = done ++ todo ∧ buf' ++ pending = stream_of todo ∧ partial buf' todo ∧
    process_frames fuel buf s = (s' <- run_frames done s ;; Ret (buf', s')).
Proof.
  revert fuel buf s. induction bodies as [|b bodies IH]; intros fuel buf s Hok E Hf.
  - apply app_eq_nil in E as [-> ->]. exists [], [], []. split_and!; [done|done|by left|]. by destruct fuel.
  - apply Forall_cons_1 in Hok as [Hb Hok]. cbn [stream_of map concat] in E.
    destruct (decide (length (frame_bytes b) <= length buf)%nat) as [Hle|Hgt].
    + assert (buf = frame_bytes b ++ drop (length (frame_bytes b)) buf) as Eb.
      { rewrite <- (take_drop (length (frame_bytes b)) buf) at 1. f_equal.
        apply (f_equal (take (length (frame_bytes b)))) in E. rewrite take_app_le, take_app_length in E by done. done. }
      set (rest := drop (length (frame_bytes b)) buf) in *. rewrite Eb in E, Hf |- *.
      rewrite <- (assoc_L (++)) in E. apply app_inv_head in E. rewrite length_app, frame_bytes_length in Hf.
      destruct fuel as [|fuel]; [lia|]. rewrite process_complete by done.
      destruct (on_frame s b) as [s1|] eqn:Es.
      * destruct (IH fuel rest s1 Hok E) as (dn & todo & buf' & -> & E' & Hp & Hr); [lia|].
        exists (b :: dn), todo, buf'. split_and!; [done|done|done|]. cbn [run_frames]. rewrite Es. cbn [xbind]. exact Hr.
      * destruct (IH fuel rest s Hok E) as (dn & todo & buf' & -> & E' & Hp & _); [lia|].
        exists (b :: dn), todo, buf'. split_and!; [done|done|done|]. cbn [run_frames]. by rewrite Es.
    + assert (∃ rest, frame_bytes b = buf ++ rest ∧ rest ≠ []) as (rest & Eb & Hr).
      { exists (drop (length buf) (frame_bytes b)). split.
        - rewrite <- (take_drop (length buf) (frame_bytes b)) at 1. f_equal.
          apply (f_equal (take (length buf))) in E. rewrite take_app_length, take_app_le in E by lia. done.
        - intros H0. apply (f_equal length) in H0. rewrite length_drop in H0. cbn [length] in H0. lia. }
      exists [], (b :: bodies), buf. split_and!; [done|done| |].
      * right. by exists b, bodies, rest.
      * cbn [run_frames xbind]. eapply process_incomplete; [by apply body_wide_u32|done..].
Qed.

Lemma partial_room buf bodies : Forall body_ok bodies → partial buf bodies → zlen buf < UNIX_READ_BUF_SIZE.
Proof.
  intros Hok [->|(b & bodies' & rest & -> & E & Hr)]; [by vm_compute|].
  apply Forall_cons_1 in Hok as [[_ Hb] _]. apply (f_equal length) in E. rewrite frame_bytes_length, length_app in E.
  unfold zlen in *. destruct rest; [done|]. cbn [length] in E. lia.
Qed.

Lemma partial_end buf bodies : partial buf bodies → buf = stream_of bodies → buf = [] ∧ bodies = [].
Proof.
  intros [->|(b & bodies' & rest & -> & E & Hr)] Hs.
  - by destruct bodies as [|b bodies].
  - exfalso. cbn [stream_of map concat] in Hs. apply (f_equal length) in Hs, E.
    rewrite length_app in Hs, E. destruct rest; [done|]. cbn [length] in E. lia.
Qed.

Lemma run_frames_app l1 l2 s : run_frames (l1 ++ l2) s = (s' <- run_frames l1 s ;; run_frames l2 s').
Proof.
  revert s. induction l1 as [|b l1 IH]; intros s; [done|]. cbn [app run_frames].
  destruct (on_frame s b); cbn [xbind]; [apply IH|done].
Qed.

Lemma read_events_done ns s : read_events ns (mkClient [] [] true s) = Ret (mkClient [] [] true s).
Proof. induction ns as [|n ns IH]; [done|]. exact IH. Qed.

Lemma read_events_spec ns todo buf pending s :
  Forall body_ok todo → buf ++ pending = stream_of todo → partial buf todo →
  Forall (fun n => 1 <= n)%nat ns → (length pending <= length ns)%nat →
  read_events ns (mkClient buf pending true s) =
    (s' <- run_frames todo s ;; Ret (mkClient [] [] true s')).
Proof.
  revert todo buf pending s. induction ns as [|n ns IH]; intros todo buf pending s Hok E Hp Hns Hl.
  - destruct pending; [|cbn in Hl; lia]. rewrite app_nil_r in E. by apply partial_end in E as [-> ->].
  - destruct pending as [|x pending].
    { rewrite app_nil_r in E. apply partial_end in E as [-> ->]; [|done]. apply (read_events_done (n :: ns)). }
    apply Forall_cons_1 in Hns as [Hn Hns]. cbn [read_events]. unfold read_callback. cbn [sc_open sc_pending negb].
    cbn [sc_read_buf sc_state]. pose proof (partial_room _ _ Hok Hp) as Hroom. unfold zlen in Hroom.
    set (bytes := Nat.min n (Z.to_nat UNIX_READ_BUF_SIZE - length buf)). assert (1 <= bytes)%nat by (unfold bytes; lia).
    rewrite (proj2 (Nat.eqb_neq bytes 0)) by lia.
    destruct (process_prefix todo (length (buf ++ take bytes (x :: pending))) (buf ++ take bytes (x :: pending))
      (drop bytes (x :: pending)) s (body_ok_wide _ Hok)) as (dn & todo' & buf' & -> & E' & Hp' & Hr); [|done|].
    { by rewrite <- (assoc_L (++)), take_drop. }
    apply Forall_app in Hok as [_ Hok]. unfold process_client_data. rewrite Hr, run_frames_app.
    destruct (run_frames dn s) as [s1|]; cbn [xbind]; [|done].
    apply IH; try done. rewrite length_drop. cbn [length] in Hl |- *. lia.
Qed.

(** A frame of the largest lengths the header check lets through cannot be
    received: header and body exceed the buffer, [recv] is asked for zero bytes,
    and its answer is taken for the end of the stream. *)
Lemma oversized_frame_disconnects ns b buf pending s :
  UNIX_READ_BUF_SIZE - 4 < zlen b <= UNIX_READ_BUF_SIZE → buf ++ pending = frame_bytes b →
  zlen buf <= UNIX_READ_BUF_SIZE → Forall (fun n => 1 <= n)%nat ns → (length pending < length ns)%nat →
  ∃ buf' pending', read_events ns (mkClient buf pending true s) = Ret (mkClient buf' pending' false s).
Proof.
  intros Hb. revert buf pending. induction ns as [|n ns IH]; intros buf pending E Hl Hns Hlen; [cbn in Hlen; lia|].
  apply Forall_cons_1 in Hns as [Hn Hns]. pose proof (f_equal length E) as EL.
  rewrite length_app, frame_bytes_length in EL. unfold zlen in *.
  destruct pending as [|x pending]; [cbn [length] in EL; lia|]. cbn [read_events]. unfold read_callback.
  cbn [sc_open sc_pending sc_read_buf sc_state negb].
  set (bytes := Nat.min n (Z.to_nat UNIX_READ_BUF_SIZE - length buf)). destruct (Nat.eqb_spec bytes 0) as [_|Hz].
  - rewrite bind_Ret_l. exists buf, (x :: pending). clear. induction ns as [|m ns IH]; [done|exact IH].
  - unfold process_client_data. rewrite (process_incomplete _ b _ (drop bytes (x :: pending))).
    + rewrite bind_Ret_l. apply IH; [by rewrite <- (assoc_L (++)), take_drop| |done|].
      * rewrite length_app, length_take. lia.
      * rewrite length_drop. cbn [length] in Hlen |- *. lia.
    + unfold is_u32, zlen. unfold UNIX_READ_BUF_SIZE in Hb. lia.
    + by rewrite <- (assoc_L (++)), take_drop.
    + intros H0. apply (f_equal length) in H0. rewrite length_drop in H0. cbn [length] in *. lia.
Qed.
End stream.

(** The transport reassembles frames: whatever the sizes of the pieces in
    which the kernel delivers a stream of frames that fit the buffer, the bodies
    are handled one by one, in order and unmodified, nothing is left over and the
    connection stays open. *)
Theorem stream_reassembly {St} (on_frame : St → list Z → exec St) bodies ns s :
  Forall body_ok bodies → Forall (fun n => 1 <= n)%nat ns → (length (stream_of bodies) <= length ns)%nat →
  read_events on_frame ns (mkClient [] (stream_of bodies) true s) =
    (s' <- run_frames on_frame bodies s ;; Ret (mkClient [] [] true s')).
Proof. intros Hb Hn Hl. apply read_events_spec; try done. by left. Qed.

Lemma stream_reassembly_witness :
  read_events (fun s b => Ret (s ++ [b])) (repeat 3%nat 20) (mkClient [] (stream_of [[1; 2; 3]; [4]]) true []) =
    Ret (mkClient [] [] true [[1; 2; 3]; [4]]).
Proof.
  rewrite (stream_reassembly (fun s b => Ret (s ++ [b])) [[1; 2; 3]; [4]] (repeat 3%nat 20) []).
  - reflexivity.
  - repeat (constructor; [split; vm_compute; [reflexivity|discriminate]|]). constructor.
  - vm_compute. repeat (constructor; [lia|]). constructor.
  - vm_compute. lia.
Defined.
