(* ===== verification/ClientSession.v ===== *)
(** * ClientSession: the daemon's side of a client connection

    [src/ClientAPIs/client_session.c].  Sessions are heap objects shared by the
    transport and the manager's registry: [dm_heap] maps addresses to sessions,
    and the registry ([m_sessions]) holds addresses; following an address that is
    not in the heap is an access to freed memory.  The message callback of a
    channel writes to client connections and changes no state, so the model runs
    it after the publication that triggers it; what is written is a list of
    descriptors and buffers.  [publisher] is the channel's [publisher_session]
    field, which is set only for the duration of a client's publication. *)

From stdpp Require Import gmap.
From S2P Require Import Prelude CString Bitset Bloom ElasticBloom AttenuatedBloom Cbor CborWire Endian Base58.
From S2P Require Import MessageId Node NodeId Packet ChannelPacket Subtopic TopicAlias Notice Ring Route Protocol.
From S2P Require Import Quasar Channel ChannelManager ClientProtocol.

Definition CLIENT_SESSION_MAX_SUBSCRIPTIONS : Z := 256.

Record client_subscription_t := mkSubscription {
  cs_topic_path : list Z;
  cs_active : bool;
  cs_loopback : bool
}.

(** [se_transport] tells whether the session has one. *)
Record client_session_t := mkSession {
  se_session_id : Z;
  se_client_fd : Z;
  se_transport : bool;
  se_subscriptions : list client_subscription_t
}.

Definition client_session_create (session_id : Z) : client_session_t := mkSession session_id (-1) false [].

Definition se_with_subs (s : client_session_t) (l : list client_subscription_t) : client_session_t :=
  mkSession (se_session_id s) (se_client_fd s) (se_transport s) l.

(** ** The subscription list of a session *)

Definition subscription_is (topic : list Z) (e : client_subscription_t) : bool :=
  cs_active e && str_eq (cs_topic_path e) topic.

Definition client_session_is_subscribed (s : client_session_t) (topic : list Z) : bool :=
  existsb (subscription_is topic) (se_subscriptions s).

Definition client_session_has_loopback (s : client_session_t) (topic : list Z) : bool :=
  match List.find (subscription_is topic) (se_subscriptions s) with
  | Some e => cs_loopback e
  | None => false
  end.

(** The part of [client_session_subscribe] under the session's lock: the
    result, whether the entry is new, and the session. *)
Definition session_add (s : client_session_t) (topic : list Z) (loopback : bool) : Z * bool * client_session_t :=
  match find_index (subscription_is topic) (se_subscriptions s) with
  | Some i =>
      (0, false, se_with_subs s (alter (fun e => mkSubscription (cs_topic_path e) (cs_active e) loopback) i
                                   (se_subscriptions s)))
  | None =>
      if CLIENT_SESSION_MAX_SUBSCRIPTIONS <=? zlen (se_subscriptions s) then (-1, false, s)
      else (0, true, se_with_subs s (se_subscriptions s ++ [mkSubscription (take 255 topic) true loopback]))
  end.

(** Removal by shifting the rest down. *)
Definition session_remove (s : client_session_t) (topic : list Z) : option client_session_t :=
  match find_index (subscription_is topic) (se_subscriptions s) with
  | Some i => Some (se_with_subs s (delete i (se_subscriptions s)))
  | None => None
  end.

(** The 68 bytes of a configuration in memory. *)
Definition config_of_bytes (b : list Z) : poseidon_channel_config_t :=
  let word i := le_decode (take 4 (drop (4 * i) b)) in
  {| ring_sizes := map word (seq 0 10); gossip_init_interval_s := word 10%nat; gossip_steady_interval_s := word 11%nat;
     gossip_num_init_intervals := word 12%nat; quasar_max_hops := word 13%nat; quasar_alpha := word 14%nat;
     quasar_seen_size := word 15%nat; quasar_seen_hashes := word 16%nat |}.

Section sessions.
Context {K : Type} `{!SignatureScheme K} `{!EqDecision K}.

Record daemon_t := mkDaemon {
  dm_mgr : poseidon_channel_manager_t K;
  dm_heap : gmap Z client_session_t
}.

Definition dm_with_mgr (d : daemon_t) (m : poseidon_channel_manager_t K) : daemon_t := mkDaemon m (dm_heap d).

(** The session at an address. *)
Definition session_at (d : daemon_t) (a : Z) : exec client_session_t :=
  match dm_heap d !! a with Some s => Ret s | None => Trap end.

Definition put_session (d : daemon_t) (a : Z) (s : client_session_t) : daemon_t :=
  mkDaemon (dm_mgr d) (<[a := s]> (dm_heap d)).

Definition find_channel_by_topic (m : poseidon_channel_manager_t K) (topic : list Z)
  : option (nat * poseidon_channel_t K) :=
  match find_index (channel_topic_is topic) (m_channels m) with
  | Some i => match m_channels m !! i with Some e => Some (i, e.2) | None => None end
  | None => None
  end.

(** The scan over the registered sessions other than [exclude]. *)
Fixpoint other_subscriber (d : daemon_t) (l : list Z) (topic : list Z) (exclude : Z) : exec bool :=
  match l with
  | [] => Ret false
  | a :: l' =>
      if a =? exclude then other_subscriber d l' topic exclude
      else
        s <- session_at d a ;;
        if client_session_is_subscribed s topic then Ret true else other_subscriber d l' topic exclude
  end.

Definition manager_has_other_subscriber (d : daemon_t) (topic : list Z) (exclude : Z) : exec bool :=
  other_subscriber d (m_sessions (dm_mgr d)) topic exclude.

Section overlay.
Context (XXH3 : list Z → Z → Z).

Definition client_session_subscribe (d : daemon_t) (a : Z) (topic : list Z) (loopback : bool)
  : exec (Z * daemon_t) :=
  s <- session_at d a ;;
  let '(rc, fresh, s') := session_add s topic loopback in
  let d1 := put_session d a s' in
  if negb fresh then Ret (rc, d1)
  else match find_channel_by_topic (dm_mgr d1) topic with
  | None => Ret (0, d1)
  | Some (i, c) =>
      '(_, c1) <- poseidon_channel_subscribe XXH3 c (Some topic) 0 ;;
      let c2 := if ch_message_cb c1 then c1 else (poseidon_channel_set_message_callback c1 true).2 in
      Ret (0, dm_with_mgr d1 (put_channel (dm_mgr d1) i c2))
  end.

(** Leaving the overlay when no other session is subscribed. *)
Definition leave_overlay (d : daemon_t) (a : Z) (topic : list Z) : exec daemon_t :=
  other <- manager_has_other_subscriber d topic a ;;
  if (other : bool) then Ret d
  else match find_channel_by_topic (dm_mgr d) topic with
  | None => Ret d
  | Some (i, c) =>
      '(_, c1) <- poseidon_channel_unsubscribe XXH3 c (Some topic) ;;
      Ret (dm_with_mgr d (put_channel (dm_mgr d) i c1))
  end.

Definition client_session_unsubscribe (d : daemon_t) (a : Z) (topic : list Z) : exec (Z * daemon_t) :=
  s <- session_at d a ;;
  match session_remove s topic with
  | None => Ret (-1, d)
  | Some s' => d' <- leave_overlay (put_session d a s') a topic ;; Ret (0, d')
  end.

Fixpoint leave_all (d : daemon_t) (a : Z) (topics : list (list Z)) : exec daemon_t :=
  match topics with
  | [] => Ret d
  | t :: topics' => d' <- leave_overlay d a t ;; leave_all d' a topics'
  end.

Definition client_session_cleanup_subscriptions (d : daemon_t) (a : Z) : exec daemon_t :=
  s <- session_at d a ;;
  leave_all d a (map cs_topic_path (List.filter cs_active (se_subscriptions s))).
End overlay.

(** ** Events *)

Section dispatch.
Context (cbor_serialize_alloc : cbor_item → list Z).

Fixpoint dispatch_loop (d : daemon_t) (l : list Z) (topic : list Z) (publisher : option Z) (buf : list Z)
  : exec (list (Z * list Z)) :=
  match l with
  | [] => Ret []
  | a :: l' =>
      s <- session_at d a ;;
      rest <- dispatch_loop d l' topic publisher buf ;;
      if negb (client_session_is_subscribed s topic) then Ret rest
      else if bool_decide (publisher = Some a) && negb (client_session_has_loopback s topic) then Ret rest
      else if se_transport s && (0 <=? se_client_fd s) then Ret ((se_client_fd s, buf) :: rest)
      else Ret rest
  end.

(** [publisher] is the field of the channel that has the topic, if any. *)
Definition session_dispatch_message (d : daemon_t) (topic subtopic data : list Z) (publisher : option Z)
  : exec (list (Z * list Z)) :=
  let topic_str := c_str (take 255 topic) in
  let from := match find_channel_by_topic (dm_mgr d) topic_str with Some _ => publisher | None => None end in
  event <- client_protocol_encode_event CLIENT_EVENT_MESSAGE (Some topic_str) (Some subtopic) data ;;
  match client_protocol_serialize cbor_serialize_alloc event with
  | None => Ret []
  | Some buf => dispatch_loop d (m_sessions (dm_mgr d)) topic_str from buf
  end.

Definition client_session_dispatch_event (s : client_session_t) (event_type : Z) (topic_id subtopic : option (list Z))
    (data : list Z) : exec (list (Z * list Z)) :=
  if negb (se_transport s) || (se_client_fd s <? 0) then Ret []
  else
    event <- client_protocol_encode_event event_type topic_id (Some (default [] subtopic)) data ;;
    match client_protocol_serialize cbor_serialize_alloc event with
    | None => Ret []
    | Some buf => Ret [(se_client_fd s, buf)]
    end.
End dispatch.

(** ** Requests *)

Section requests.
Context (blake3 : list Z → list Z) (XXH3 : list Z → Z → Z) (clock : Z → Z * Z).
Context (DatagramSend : Z → list Z → bool) (time_us mono_us : world → Z).
Context (connect : Z → Z → option Z * bool).
Context (cbor_load : list Z → option cbor_item) (cbor_serialize_alloc : cbor_item → list Z).
(** The outcomes of generating a key and of creating a channel for the given
    name and port. *)
Context (new_key : option K) (create : list Z → Z → exec (option (poseidon_channel_t K))).

(** What a request returns: the result code, the response, the daemon, and
    what was written to client connections. *)
Record outcome := mkOutcome {
  o_rc : Z;
  o_response : option cbor_item;
  o_daemon : daemon_t;
  o_sent : list (Z * list Z);
  o_world : world
}.

Definition reply (rc request_id code : Z) (text : list Z) (d : daemon_t) (sent : list (Z * list Z)) (w : world)
  : run outcome :=
  r <~ lift (client_protocol_encode_response request_id code (Some text)) ;;
  Some (Ret (mkOutcome rc r d sent w)).

Definition refuse (request_id code : Z) (d : daemon_t) (w : world) : run outcome :=
  reply (-1) request_id code [] d [] w.

(** [poseidon_channel_publish] on a data channel, whose callback writes to the
    subscribed clients. *)
Definition publish_on_channel (d : daemon_t) (i : nat) (c : poseidon_channel_t K) (topic data : list Z)
    (publisher : option Z) (w : world) : exec (Z * daemon_t * list (Z * list Z) * world) :=
  sent <- (if locally_subscribed (ch_quasar c) topic && q_on_message (ch_quasar c)
           then
             r <- channel_app_delivery cbor_load c data ;;
             match r with
             | Some (subtopic, payload) =>
                 session_dispatch_message cbor_serialize_alloc d topic subtopic payload publisher
             | None => Ret []
             end
           else Ret []) ;;
  '(rc, c', w') <- poseidon_channel_publish XXH3 clock DatagramSend c (Some topic) (Some data) w ;;
  Ret (rc, dm_with_mgr d (put_channel (dm_mgr d) i c'), sent, w').

(** The client must sign the method and the topic with the channel's key. *)
Definition verify_channel_owner_signature (c : poseidon_channel_t K) (frame : client_frame_t) : Z :=
  if zlen (cf_signature frame) =? 0 then -1
  else if verify (key_type (ch_key_pair c)) (public_key (ch_key_pair c))
            (cf_method frame :: c_str (cf_topic_path frame)) (cf_signature frame)
       then 0 else -1.

(** The notice goes out on the channel and on the dial channel. *)
Definition announce (fuel : nat) (d : daemon_t) (i : nat) (c : poseidon_channel_t K)
    (notice_topic : list Z) (encoded : option cbor_item) (w : world)
  : run (daemon_t * list (Z * list Z) * world) :=
  match encoded with
  | None => Some (Ret (d, [], w))
  | Some item =>
      let buf := cbor_serialize_alloc item in
      if zlen buf =? 0 then Some (Ret (d, [], w))
      else
        '(_, d1, sent, w1) <~ lift (publish_on_channel d i c (poseidon_channel_get_topic c) buf None w) ;;
        '(_, m2, w2) <~ dial_publish blake3 XXH3 clock DatagramSend time_us mono_us connect cbor_load
                          cbor_serialize_alloc fuel (dm_mgr d1) notice_topic buf w1 ;;
        Some (Ret (dm_with_mgr d1 m2, sent, w2))
  end.

Definition handle_destroy (fuel : nat) (d : daemon_t) (i : nat) (addr : Z) (c : poseidon_channel_t K)
    (frame : client_frame_t) (w : world) : run outcome :=
  let id := cf_request_id frame in
  if negb (verify_channel_owner_signature c frame =? 0) then refuse id CLIENT_ERROR_NOT_AUTHORIZED d w
  else
    n <~ lift (poseidon_channel_create_delete_notice cbor_serialize_alloc (poseidon_channel_get_topic c)
                 (Some (ch_key_pair c)) (time_us w)) ;;
    match n with
    | None => refuse id CLIENT_ERROR_TRANSPORT d w
    | Some notice =>
        v <~ lift (poseidon_channel_verify_delete_notice blake3 cbor_serialize_alloc (Some notice)) ;;
        if negb (v =? 0) then refuse id CLIENT_ERROR_NOT_AUTHORIZED d w
        else
          encoded <~ lift (meridian_channel_delete_notice_encode (Some notice)) ;;
          topic <~ lift (str_of (dn_topic_id notice)) ;;
          '(d1, sent, w1) <~ announce fuel d i c topic encoded w ;;
          let m2 := (poseidon_channel_manager_add_tombstone (dm_mgr d1)
                       (poseidon_tombstone_from_delete_notice notice (mono_us w1))).2 in
          '(j, c1) <~ lift (channel_at m2 addr) ;;
          '(_, c2) <~ lift (poseidon_channel_delete_signed XXH3 c1) ;;
          let m3 := (poseidon_channel_manager_destroy_channel (put_channel m2 j c2) (Some (ch_node_id c2))).2 in
          reply 0 id CLIENT_ERROR_OK (lit "deleted") (dm_with_mgr d1 m3) sent w1
    end.

Definition handle_modify (fuel : nat) (d : daemon_t) (i : nat) (addr : Z) (c : poseidon_channel_t K)
    (frame : client_frame_t) (w : world) : run outcome :=
  let id := cf_request_id frame in
  if negb (verify_channel_owner_signature c frame =? 0) then refuse id CLIENT_ERROR_NOT_AUTHORIZED d w
  else
    let new_config := if zlen (cf_payload frame) =? 68 then config_of_bytes (cf_payload frame) else ch_config c in
    n <~ lift (poseidon_channel_create_modify_notice cbor_serialize_alloc (poseidon_channel_get_topic c)
                 (Some (ch_key_pair c)) (Some new_config) (time_us w)) ;;
    match n with
    | None => refuse id CLIENT_ERROR_TRANSPORT d w
    | Some notice =>
        v <~ lift (poseidon_channel_verify_modify_notice blake3 cbor_serialize_alloc (Some notice)) ;;
        if negb (v =? 0) then refuse id CLIENT_ERROR_NOT_AUTHORIZED d w
        else
          encoded <~ lift (meridian_channel_modify_notice_encode (Some notice)) ;;
          topic <~ lift (str_of (dn_topic_id (mn_notice notice))) ;;
          '(d1, sent, w1) <~ announce fuel d i c topic encoded w ;;
          let m2 := (poseidon_channel_manager_add_tombstone (dm_mgr d1)
                       (poseidon_tombstone_from_modify_notice notice (mono_us w1))).2 in
          '(j, c1) <~ lift (channel_at m2 addr) ;;
          '(_, m3, w2) <~ poseidon_channel_rejoin_with_config XXH3 time_us cbor_serialize_alloc
                            (dial_publish blake3 XXH3 clock DatagramSend time_us mono_us connect cbor_load
                               cbor_serialize_alloc fuel) m2 j c1 new_config w1 ;;
          reply 0 id CLIENT_ERROR_OK (lit "modified") (dm_with_mgr d1 m3) sent w2
    end.

Definition handle_publish (d : daemon_t) (a : Z) (i : nat) (c : poseidon_channel_t K) (topic : list Z)
    (frame : client_frame_t) (w : world) : run outcome :=
  let id := cf_request_id frame in
  '(rc, d1, sent, w1) <~ lift (publish_on_channel d i c topic (cf_payload frame) (Some a) w) ;;
  if negb (rc =? 0) then reply (-1) id CLIENT_ERROR_TRANSPORT [] d1 sent w1
  else reply 0 id CLIENT_ERROR_OK (lit "published") d1 sent w1.

(** The alias is registered under the topic path of the frame; a target that
    does not fit is taken to be empty. *)
Definition alias_target (payload : list Z) : list Z :=
  if (0 <? zlen payload) && (zlen payload <? CLIENT_MAX_TOPIC_PATH) then c_str payload else [].

(** The methods that work on the channel named by the frame. *)
Definition handle_channel_method (fuel : nat) (d : daemon_t) (a : Z) (frame : client_frame_t) (w : world)
  : run outcome :=
  let id := cf_request_id frame in
  let topic := c_str (cf_topic_path frame) in
  match find_index (channel_topic_is topic) (m_channels (dm_mgr d)) with
  | None => refuse id CLIENT_ERROR_CHANNEL_NOT_FOUND d w
  | Some i =>
      match m_channels (dm_mgr d) !! i with
      | None => refuse id CLIENT_ERROR_CHANNEL_NOT_FOUND d w
      | Some (addr, c) =>
          if cf_method frame =? CLIENT_METHOD_PUBLISH then handle_publish d a i c topic frame w
          else if cf_method frame =? CLIENT_METHOD_ALIAS_REGISTER then
            let '(rc, c') := poseidon_channel_register_alias c (Some topic) (Some (alias_target (cf_payload frame))) in
            let d' := dm_with_mgr d (put_channel (dm_mgr d) i c') in
            if negb (rc =? 0) then refuse id CLIENT_ERROR_ALIAS_AMBIGUOUS d' w
            else reply 0 id CLIENT_ERROR_OK (lit "registered") d' [] w
          else if cf_method frame =? CLIENT_METHOD_ALIAS_UNREGISTER then
            let '(rc, c') := poseidon_channel_unregister_alias c (Some topic) in
            let d' := dm_with_mgr d (put_channel (dm_mgr d) i c') in
            if negb (rc =? 0) then refuse id CLIENT_ERROR_ALIAS_AMBIGUOUS d' w
            else reply 0 id CLIENT_ERROR_OK (lit "unregistered") d' [] w
          else if cf_method frame =? CLIENT_METHOD_ALIAS_RESOLVE then
            match poseidon_channel_resolve_alias c (Some topic) with
            | None => refuse id CLIENT_ERROR_ALIAS_AMBIGUOUS d w
            | Some resolved => reply 0 id CLIENT_ERROR_OK resolved d [] w
            end
          else if cf_method frame =? CLIENT_METHOD_CHANNEL_DESTROY then handle_destroy fuel d i addr c frame w
          else handle_modify fuel d i addr c frame w
      end
  end.

Definition client_session_handle_request (fuel : nat) (d : daemon_t) (a : Z) (frame : client_frame_t) (w : world)
  : run outcome :=
  let id := cf_request_id frame in
  let topic := c_str (cf_topic_path frame) in
  let method := cf_method frame in
  if method =? CLIENT_METHOD_CHANNEL_CREATE then
    '(r, m) <~ lift (poseidon_channel_manager_create_channel (dm_mgr d) new_key (fun _ => create topic)) ;;
    match r with
    | None => refuse id CLIENT_ERROR_TOO_MANY_CHANNELS (dm_with_mgr d m) w
    | Some _ => reply 0 id CLIENT_ERROR_OK (lit "created") (dm_with_mgr d m) [] w
    end
  else if method =? CLIENT_METHOD_CHANNEL_JOIN then
    '(r, m, w') <~ poseidon_channel_manager_join_channel blake3 XXH3 clock DatagramSend time_us mono_us connect
                     cbor_load cbor_serialize_alloc fuel (dm_mgr d) topic create w ;;
    match r with
    | None => refuse id CLIENT_ERROR_CHANNEL_NOT_FOUND (dm_with_mgr d m) w'
    | Some _ => reply 0 id CLIENT_ERROR_OK (lit "joined") (dm_with_mgr d m) [] w'
    end
  else if method =? CLIENT_METHOD_SUBSCRIBE then
    let loopback := match cf_payload frame with b :: _ => negb (b =? 0) | [] => false end in
    '(rc, d') <~ lift (client_session_subscribe XXH3 d a topic loopback) ;;
    if negb (rc =? 0) then refuse id CLIENT_ERROR_INVALID_PARAMS d' w
    else reply 0 id CLIENT_ERROR_OK (lit "subscribed") d' [] w
  else if method =? CLIENT_METHOD_UNSUBSCRIBE then
    '(rc, d') <~ lift (client_session_unsubscribe XXH3 d a topic) ;;
    if negb (rc =? 0) then refuse id CLIENT_ERROR_INVALID_PARAMS d' w
    else reply 0 id CLIENT_ERROR_OK (lit "unsubscribed") d' [] w
  else if (method =? CLIENT_METHOD_PUBLISH) || (method =? CLIENT_METHOD_ALIAS_REGISTER) ||
          (method =? CLIENT_METHOD_ALIAS_UNREGISTER) || (method =? CLIENT_METHOD_ALIAS_RESOLVE) ||
          (method =? CLIENT_METHOD_CHANNEL_DESTROY) || (method =? CLIENT_METHOD_CHANNEL_MODIFY)
  then handle_channel_method fuel d a frame w
  else refuse id CLIENT_ERROR_UNKNOWN_METHOD d w.
End requests.
End sessions.
Arguments daemon_t K : clear implicits.
Arguments outcome K : clear implicits.
