(* ===== verification/SessionTheorems.v ===== *)
(** * SessionTheorems: what a client can rely on

    The subscription list of a session is a bounded map, every request is
    answered, messages reach exactly the subscribed clients, and administrative
    requests need the owner's signature. *)

From stdpp Require Import gmap.
From S2P Require Import Prelude CString Bitset Bloom ElasticBloom AttenuatedBloom Cbor CborWire Endian Base58.
From S2P Require Import MessageId Node NodeId Packet ChannelPacket Subtopic TopicAlias Notice Ring Route Protocol.
From S2P Require Import ElasticBloomSpec Quasar Channel ChannelManager ManagerTheorems ClientProtocol ClientSession.

(** ** The subscription list as a map *)

Definition subs_map (l : list client_subscription_t) : gmap (list Z) bool :=
  list_to_map (map (fun e => (cs_topic_path e, cs_loopback e)) l).

Record subs_wf (l : list client_subscription_t) : Prop := {
  sw_active : Forall (fun e => cs_active e = true) l;
  sw_nodup : base.NoDup (map cs_topic_path l);
  sw_length : zlen l <= CLIENT_SESSION_MAX_SUBSCRIPTIONS
}.

Lemma subs_map_cons e l : subs_map (e :: l) = <[cs_topic_path e := cs_loopback e]> (subs_map l).
Proof. done. Qed.

Lemma subs_map_None l t : t ∉ map cs_topic_path l → subs_map l !! t = None.
Proof.
  induction l as [|e l IH]; intros H; [done|]. cbn [map] in H. apply not_elem_of_cons in H as [H1 H2].
  rewrite subs_map_cons, lookup_insert_ne by done. by apply IH.
Qed.

Lemma subs_find l t :
  Forall (fun e => cs_active e = true) l →
  subs_map l !! t = cs_loopback <$> List.find (subscription_is t) l.
Proof.
  induction l as [|e l IH]; intros H; [done|]. apply Forall_cons_1 in H as [He H].
  rewrite subs_map_cons. cbn [List.find]. unfold subscription_is at 1. rewrite He. cbn [andb].
  destruct (str_eq (cs_topic_path e) t) eqn:E.
  - apply str_eq_true in E as <-. by rewrite lookup_insert_eq.
  - apply str_eq_false in E. rewrite lookup_insert_ne by done. by apply IH.
Qed.

Lemma find_index_find {A} (p : A → bool) l :
  List.find p l = match find_index p l with Some i => l !! i | None => None end.
Proof.
  induction l as [|x l IH]; [done|]. cbn [List.find find_index]. destruct (p x); [done|]. rewrite IH.
  by destruct (find_index p l).
Qed.

Lemma find_index_subs l t :
  Forall (fun e => cs_active e = true) l →
  match find_index (subscription_is t) l with
  | Some i => ∃ e, l !! i = Some e ∧ cs_topic_path e = t ∧ subs_map l !! t = Some (cs_loopback e)
  | None => subs_map l !! t = None ∧ t ∉ map cs_topic_path l
  end.
Proof.
  intros H. rewrite subs_find, find_index_find by done. destruct (find_index _ l) as [i|] eqn:E.
  - apply find_index_Some in E as (e & He & Hp & _). exists e. rewrite He. unfold subscription_is in Hp.
    apply andb_true_iff in Hp as [_ Hp]. apply str_eq_true in Hp. done.
  - split; [done|]. intros Hin. apply list_elem_of_fmap in Hin as (e & -> & He). apply find_index_None in E.
    rewrite list.Forall_forall in E, H. specialize (E e He). unfold subscription_is in E.
    rewrite (H e He), str_eq_refl in E. done.
Qed.

Lemma subs_map_alter l i e lb :
  base.NoDup (map cs_topic_path l) → l !! i = Some e →
  subs_map (alter (fun e => mkSubscription (cs_topic_path e) (cs_active e) lb) i l) =
    <[cs_topic_path e := lb]> (subs_map l).
Proof.
  revert i. induction l as [|x l IH]; intros i Hnd Hi; [done|]. apply list.NoDup_cons in Hnd as [Hx Hnd].
  destruct i as [|i]; cbn in Hi.
  - injection Hi as ->. cbn [alter list_alter]. rewrite !subs_map_cons. cbn. by rewrite insert_insert_eq.
  - cbn [alter list_alter]. rewrite !subs_map_cons. rewrite (IH i) by done. apply insert_insert_ne.
    intros E. apply Hx. rewrite E. apply list_elem_of_fmap. exists e. split; [done|]. by eapply list_elem_of_lookup_2.
Qed.

Lemma subs_map_snoc l e :
  cs_topic_path e ∉ map cs_topic_path l → subs_map (l ++ [e]) = <[cs_topic_path e := cs_loopback e]> (subs_map l).
Proof.
  induction l as [|x l IH]; intros H; [done|]. cbn [map] in H. apply not_elem_of_cons in H as [H1 H2].
  cbn [app]. rewrite !subs_map_cons, IH by done. by apply insert_insert_ne.
Qed.

Lemma subs_map_delete l i e :
  base.NoDup (map cs_topic_path l) → l !! i = Some e →
  subs_map (delete i l) = delete (cs_topic_path e) (subs_map l).
Proof.
  revert i. induction l as [|x l IH]; intros i Hnd Hi; [done|]. apply list.NoDup_cons in Hnd as [Hx Hnd].
  destruct i as [|i]; cbn in Hi.
  - injection Hi as ->. cbn [delete list_delete]. rewrite subs_map_cons, delete_insert_eq.
    rewrite delete_id; [done|]. by apply subs_map_None.
  - change (delete (S i) (x :: l)) with (x :: delete i l). rewrite !subs_map_cons, (IH i) by done. rewrite delete_insert_ne; [done|].
    intros E. apply Hx. rewrite <- E. apply list_elem_of_fmap. exists e. split; [done|]. by eapply list_elem_of_lookup_2.
Qed.

Lemma alter_paths l i lb :
  map cs_topic_path (alter (fun e => mkSubscription (cs_topic_path e) (cs_active e) lb) i l) = map cs_topic_path l.
Proof.
  revert i. induction l as [|x l IH]; intros i; [done|]. destruct i as [|i]; [done|].
  cbn [alter list_alter map]. f_equal. apply IH.
Qed.

Lemma alter_active l i lb :
  Forall (fun e => cs_active e = true) l →
  Forall (fun e => cs_active e = true) (alter (fun e => mkSubscription (cs_topic_path e) (cs_active e) lb) i l).
Proof.
  revert i. induction l as [|x l IH]; intros i H; [done|]. apply Forall_cons_1 in H as [Hx H].
  destruct i as [|i]; cbn [alter list_alter]; constructor; [done|done|done|by apply IH].
Qed.

Lemma paths_delete l i : map cs_topic_path (delete i l) = delete i (map cs_topic_path l).
Proof. revert i. induction l as [|x l IH]; intros [|i]; [done..|].
  change (delete (S i) (x :: l)) with (x :: delete i l). cbn [map]. rewrite IH. done.
Qed.

Lemma subs_map_size l : base.NoDup (map cs_topic_path l) → Z.of_nat (size (subs_map l)) = zlen l.
Proof.
  induction l as [|e l IH]; intros H; [done|]. apply list.NoDup_cons in H as [He H].
  rewrite subs_map_cons, map_size_insert_None by by apply subs_map_None. rewrite zlen_cons, <- IH by done. lia.
Qed.

Lemma session_add_spec s topic lb :
  subs_wf (se_subscriptions s) → (length topic <= 255)%nat →
  let m := subs_map (se_subscriptions s) in
  let '(rc, fresh, s') := session_add s topic lb in
  subs_wf (se_subscriptions s') ∧ fresh = bool_decide (rc = 0 ∧ m !! topic = None) ∧
  ((rc = 0 ∧ subs_map (se_subscriptions s') = <[topic := lb]> m) ∨
   (rc = -1 ∧ s' = s ∧ m !! topic = None ∧ Z.of_nat (size m) = CLIENT_SESSION_MAX_SUBSCRIPTIONS)).
Proof.
  intros [Ha Hn Hl] Ht m. unfold session_add. pose proof (find_index_subs _ topic Ha) as F.
  destruct (find_index _ _) as [i|].
  - destruct F as (e & He & Hp & Hm). fold m in Hm. split_and!.
    + constructor; cbn; [by apply alter_active|by rewrite alter_paths|]. unfold zlen in *. by rewrite length_alter.
    + rewrite Hm. symmetry. apply bool_decide_eq_false. by intros [_ ?].
    + left. split; [done|]. cbn. rewrite <- Hp. by apply subs_map_alter.
  - destruct F as [Hm Hnp]. fold m in Hm.
    destruct (Z.leb_spec CLIENT_SESSION_MAX_SUBSCRIPTIONS (zlen (se_subscriptions s))) as [Hf|Hf].
    + split_and!; [done|symmetry; apply bool_decide_eq_false; by intros [? _]|]. right. split_and!; [done|done|done|].
      unfold m. rewrite subs_map_size by done. lia.
    + rewrite take_ge by done. split_and!.
      * constructor; cbn; [apply Forall_app_2; [done|by repeat constructor]| |rewrite zlen_snoc; lia].
        rewrite map_app. apply list.NoDup_app. split_and!; [done| |apply NoDup_singleton].
        intros x Hx Hx'. apply list_elem_of_singleton in Hx' as ->. done.
      * symmetry. by apply bool_decide_eq_true.
      * left. split; [done|]. by apply (subs_map_snoc _ (mkSubscription topic true lb)).
Qed.

Lemma session_remove_spec s topic :
  subs_wf (se_subscriptions s) →
  let m := subs_map (se_subscriptions s) in
  match session_remove s topic with
  | None => m !! topic = None
  | Some s' => is_Some (m !! topic) ∧ subs_wf (se_subscriptions s') ∧ subs_map (se_subscriptions s') = delete topic m
  end.
Proof.
  intros [Ha Hn Hl] m. unfold session_remove. pose proof (find_index_subs _ topic Ha) as F.
  destruct (find_index _ _) as [i|]; [|by destruct F].
  destruct F as (e & He & Hp & Hm). fold m in Hm. split_and!; [by rewrite Hm| |].
  - constructor; cbn; [by apply Forall_delete| |].
    + rewrite paths_delete. eapply sublist_NoDup; [exact Hn|apply sublist_delete].
    + unfold zlen in *. rewrite length_delete by eauto. lia.
  - rewrite <- Hp. by apply subs_map_delete.
Qed.

(** The subscriptions of a session are a map from topics to the loopback
    flag with room for 256: subscribing inserts or updates and fails exactly
    when a new topic does not fit, unsubscribing deletes and fails exactly when
    there is nothing to delete, and the queries look the topic up. *)
Theorem session_table_refines s topic lb :
  subs_wf (se_subscriptions s) → (length topic <= 255)%nat →
  let m := subs_map (se_subscriptions s) in
  (let '(rc, fresh, s') := session_add s topic lb in
   subs_wf (se_subscriptions s') ∧ fresh = bool_decide (rc = 0 ∧ m !! topic = None) ∧
   ((rc = 0 ∧ subs_map (se_subscriptions s') = <[topic := lb]> m) ∨
    (rc = -1 ∧ s' = s ∧ m !! topic = None ∧ Z.of_nat (size m) = CLIENT_SESSION_MAX_SUBSCRIPTIONS))) ∧
  match session_remove s topic with
  | None => m !! topic = None
  | Some s' => is_Some (m !! topic) ∧ subs_wf (se_subscriptions s') ∧ subs_map (se_subscriptions s') = delete topic m
  end ∧
  client_session_is_subscribed s topic = bool_decide (is_Some (m !! topic)) ∧
  client_session_has_loopback s topic = default false (m !! topic).
Proof.
  intros Hw Ht m. split; [by apply session_add_spec|]. split; [by apply session_remove_spec|].
  unfold m. rewrite subs_find by apply Hw. unfold client_session_is_subscribed, client_session_has_loopback.
  split; [|by destruct (List.find _ _)].
  destruct (List.find (subscription_is topic) (se_subscriptions s)) as [e|] eqn:E.
  - apply List.find_some in E. rewrite bool_decide_eq_true_2 by done. apply existsb_exists. by exists e.
  - rewrite bool_decide_eq_false_2 by (by intros []). apply not_true_iff_false. intros H.
    apply existsb_exists in H as (e & He & Hp). by rewrite (List.find_none _ _ E e He) in Hp.
Qed.

Lemma session_table_refines_witness :
  let s := mkSession 1 5 true [mkSubscription (lit "a") true false] in
  subs_map (se_subscriptions (session_add s (lit "b") true).2) =
    <[lit "b" := true]> (subs_map (se_subscriptions s)) ∧ client_session_is_subscribed s (lit "a") = true.
Proof.
  destruct (session_table_refines (mkSession 1 5 true [mkSubscription (lit "a") true false]) (lit "b") true)
    as ((_ & _ & [[_ H]|[H _]]) & _).
  - constructor; [by repeat constructor|apply NoDup_singleton|vm_compute; discriminate].
  - vm_compute. lia.
  - split; [exact H|reflexivity].
  - discriminate H.
Defined.

(** ** Requests are answered *)

Section answers.
Context {K : Type} `{!SignatureScheme K} `{!EqDecision K}.

(** The response of an outcome: the request's identifier, and an error code
    that agrees with the result; the text is [short] except where it is the
    target of an alias. *)
Definition answered (short : Prop) (id : Z) (o : outcome K) : Prop :=
  ∃ code text, o_response o =
      Some (CArray true 4 [cbor_build_uint8 CLIENT_FRAME_RESPONSE; cbor_build_uint32 id; cbor_build_uint8 code;
                           cbor_build_string text]) ∧
    (o_rc o = 0 ↔ code = CLIENT_ERROR_OK) ∧ (o_rc o = 0 ∨ o_rc o = -1) ∧ is_u8 code ∧ (short → zlen text < 64).

Lemma reply_answered short rc id code text (d : daemon_t K) sent w :
  (rc = 0 ∧ code = CLIENT_ERROR_OK) ∨ (rc = -1 ∧ code ≠ CLIENT_ERROR_OK) → is_u8 code → (short → zlen text < 64) →
  run_all (answered short id) (reply rc id code text d sent w).
Proof.
  intros H Hc Ht. unfold reply, client_protocol_encode_response, cbor_new_definite_array.
  rewrite push_all_definite by by vm_compute. cbn [lift rbind run_all default app]. exists code, text. cbn.
  split; [done|]. destruct H as [[-> ->]|[-> H]]; (split; [split|]); auto; done.
Qed.

Lemma refuse_answered short id code (d : daemon_t K) w :
  code ≠ CLIENT_ERROR_OK → is_u8 code → run_all (answered short id) (refuse id code d w).
Proof. intros H Hc. apply reply_answered; [by right|done|done]. Qed.

Context (blake3 : list Z → list Z) (XXH3 : list Z → Z → Z) (clock : Z → Z * Z).
Context (DatagramSend : Z → list Z → bool) (time_us mono_us : world → Z).
Context (connect : Z → Z → option Z * bool).
Context (cbor_load : list Z → option cbor_item) (cbor_serialize_alloc : cbor_item → list Z).
Context (new_key : option K) (create : list Z → Z → exec (option (poseidon_channel_t K))).

Ltac answer :=
  match goal with
  | |- run_all _ (refuse _ _ _ _) => apply refuse_answered; [discriminate|by vm_compute]
  | |- run_all _ (reply 0 _ _ _ _ _ _) => apply reply_answered; [left; split; reflexivity|by vm_compute|try (by vm_compute)]
  | |- run_all _ (reply (-1) _ _ _ _ _ _) =>
      apply reply_answered; [right; split; [reflexivity|discriminate]|by vm_compute|by vm_compute]
  end.

Lemma run_all_any {A B} (Q : B → Prop) (r : run A) (f : A → run B) :
  (∀ a, run_all Q (f a)) → run_all Q (rbind r f).
Proof. intros H. apply (run_all_bind (fun _ => True)); [by destruct r as [[]|]|auto]. Qed.

Lemma destroy_answered short fuel d i addr c frame w :
  run_all (answered short (cf_request_id frame))
    (handle_destroy blake3 XXH3 clock DatagramSend time_us mono_us connect cbor_load cbor_serialize_alloc
       fuel d i addr c frame w).
Proof.
  unfold handle_destroy. destruct (negb _); [answer|]. apply run_all_any. intros [n|]; [|answer].
  apply run_all_any. intros v. destruct (negb _); [answer|]. apply run_all_any. intros item.
  apply run_all_any. intros topic. apply run_all_any. intros [[d1 sent] w1].
  apply run_all_any. intros [j c1]. apply run_all_any. intros [? c2]. answer.
Qed.

Lemma modify_answered short fuel d i addr c frame w :
  run_all (answered short (cf_request_id frame))
    (handle_modify blake3 XXH3 clock DatagramSend time_us mono_us connect cbor_load cbor_serialize_alloc
       fuel d i addr c frame w).
Proof.
  unfold handle_modify. destruct (negb _); [answer|]. apply run_all_any. intros [n|]; [|answer].
  apply run_all_any. intros v. destruct (negb _); [answer|]. apply run_all_any. intros item.
  apply run_all_any. intros topic. apply run_all_any. intros [[d1 sent] w1].
  apply run_all_any. intros [j c1]. apply run_all_any. intros [[? m3] w2]. answer.
Qed.

Lemma channel_method_answered fuel d a frame w :
  run_all (answered (cf_method frame ≠ CLIENT_METHOD_ALIAS_RESOLVE) (cf_request_id frame))
    (handle_channel_method blake3 XXH3 clock DatagramSend time_us mono_us connect cbor_load cbor_serialize_alloc
       fuel d a frame w).
Proof.
  unfold handle_channel_method. destruct (find_index _ _) as [i|]; [|answer].
  destruct (_ !! i) as [[addr c]|]; [|answer]. destruct (_ =? _).
  { unfold handle_publish. apply run_all_any. intros [[[rc d1] sent] w1]. destruct (negb _); answer. }
  destruct (_ =? _).
  { destruct (poseidon_channel_register_alias _ _ _) as [rc c']. destruct (negb _); answer. }
  destruct (_ =? _).
  { destruct (poseidon_channel_unregister_alias _ _) as [rc c']. destruct (negb _); answer. }
  destruct (Z.eqb_spec (cf_method frame) CLIENT_METHOD_ALIAS_RESOLVE) as [Hm|_].
  { destruct (poseidon_channel_resolve_alias _ _); answer. }
  destruct (_ =? _); [apply destroy_answered|apply modify_answered].
Qed.

Lemma request_answered_aux fuel d a frame w :
  run_all (answered (cf_method frame ≠ CLIENT_METHOD_ALIAS_RESOLVE) (cf_request_id frame))
    (client_session_handle_request blake3 XXH3 clock DatagramSend time_us mono_us connect cbor_load
       cbor_serialize_alloc new_key create fuel d a frame w).
Proof.
  unfold client_session_handle_request.
  destruct (_ =? _); [apply run_all_any; intros [[?|] ?]; answer|].
  destruct (_ =? _); [apply run_all_any; intros [[[?|] ?] ?]; answer|].
  destruct (_ =? _); [apply run_all_any; intros [rc d']; destruct (negb _); answer|].
  destruct (_ =? _); [apply run_all_any; intros [rc d']; destruct (negb _); answer|].
  destruct (_ || _); [apply channel_method_answered|answer].
Qed.
End answers.

(** C25. Every request is answered: whatever the method, a call that returns
    has produced exactly one response frame, it carries the identifier of the
    request, and its error code is 0 exactly when the call reports success. *)
Theorem request_answered {K} `{!SignatureScheme K} `{!EqDecision K} blake3 XXH3 clock send time mono conn load ser
    new_key create fuel (d : daemon_t K) a frame w o :
  client_session_handle_request blake3 XXH3 clock send time mono conn load ser new_key create fuel d a frame w =
    Some (Ret o) →
  ∃ code text, o_response o =
      Some (CArray true 4 [cbor_build_uint8 CLIENT_FRAME_RESPONSE; cbor_build_uint32 (cf_request_id frame);
                           cbor_build_uint8 code; cbor_build_string text]) ∧
    (o_rc o = 0 ↔ code = CLIENT_ERROR_OK) ∧ (o_rc o = 0 ∨ o_rc o = -1).
Proof.
  intros E. pose proof (request_answered_aux blake3 XXH3 clock send time mono conn load ser new_key create
    fuel d a frame w) as H. rewrite E in H. destruct H as (code & text & Hr & Hc & Ho & _). by exists code, text.
Qed.

(** ** Delivery *)

Section delivery.
Context {K : Type}.

(** Whether the session behind [a] is written to. *)
Definition receives (d : daemon_t K) (topic : list Z) (publisher : option Z) (a : Z) : option Z :=
  match dm_heap d !! a with
  | None => None
  | Some s =>
      if client_session_is_subscribed s topic &&
         (negb (bool_decide (publisher = Some a)) || client_session_has_loopback s topic) &&
         se_transport s && (0 <=? se_client_fd s)
      then Some (se_client_fd s) else None
  end.

Lemma dispatch_loop_spec (d : daemon_t K) l topic publisher buf :
  Forall (fun a => is_Some (dm_heap d !! a)) l →
  dispatch_loop d l topic publisher buf =
    Ret (map (fun fd => (fd, buf)) (omap (receives d topic publisher) l)).
Proof.
  induction l as [|a l IH]; intros H; [done|]. apply Forall_cons_1 in H as [[s Hs] H]. cbn [dispatch_loop].
  unfold session_at. rewrite Hs. cbn [xbind]. rewrite IH by done. cbn [xbind].
  assert (omap (receives d topic publisher) (a :: l) =
    match receives d topic publisher a with Some fd => fd :: omap (receives d topic publisher) l
    | None => omap (receives d topic publisher) l end) as -> by done.
  assert (Hr : receives d topic publisher a =
    if client_session_is_subscribed s topic &&
       (negb (bool_decide (publisher = Some a)) || client_session_has_loopback s topic) &&
       se_transport s && (0 <=? se_client_fd s) then Some (se_client_fd s) else None)
    by (unfold receives; by rewrite Hs).
  rewrite Hr.
  destruct (client_session_is_subscribed s topic); cbn [negb andb]; [|done].
  destruct (bool_decide _); destruct (client_session_has_loopback s topic); cbn [negb orb andb]; try done;
    by destruct (se_transport s), (0 <=? se_client_fd s).
Qed.
End delivery.

(** C26. Messages reach exactly the clients that asked for them: when a client
    publishes on a channel whose overlay delivers locally, every registered
    session that is connected and subscribed to the topic is sent one event, in
    the order of registration, except the publisher itself unless it asked for
    loopback; the event decodes to the topic, the subtopic and the payload of the
    envelope, and other sessions are sent nothing. *)
Theorem publish_reaches_subscribers {K} `{!SignatureScheme K} `{!EqDecision K} XXH3 clock send load ser
    (d : daemon_t K) i c topic data publisher w rc c' w' subtopic payload :
  Forall (fun a => is_Some (dm_heap d !! a)) (m_sessions (dm_mgr d)) →
  find_channel_by_topic (dm_mgr d) topic = Some (i, c) → cstr_ok topic → zlen topic < 256 →
  zlen subtopic < 256 → zlen payload <= 65536 →
  locally_subscribed (ch_quasar c) topic = true → q_on_message (ch_quasar c) = true →
  channel_app_delivery load c data = Ret (Some (subtopic, payload)) →
  poseidon_channel_publish XXH3 clock send c (Some topic) (Some data) w = Ret (rc, c', w') →
  ∃ event,
    client_protocol_encode_event CLIENT_EVENT_MESSAGE (Some topic) (Some subtopic) payload = Ret (Some event) ∧
    client_protocol_decode (Some event) =
      Ret (Some (mkFrame CLIENT_FRAME_EVENT 0 0 0 CLIENT_EVENT_MESSAGE topic subtopic [] payload [])) ∧
    (ser event ≠ [] →
     publish_on_channel XXH3 clock send load ser d i c topic data publisher w =
       Ret (rc, dm_with_mgr d (put_channel (dm_mgr d) i c'),
            map (fun fd => (fd, ser event)) (omap (receives d topic publisher) (m_sessions (dm_mgr d))), w')).
Proof.
  intros Hheap Hfind Hok Hlen Hst Hpl Hsub Hon Happ Hpub.
  exists (CArray true 5 [cbor_build_uint8 CLIENT_FRAME_EVENT; cbor_build_uint8 CLIENT_EVENT_MESSAGE;
                         cbor_build_string topic; cbor_build_string subtopic; cbor_build_bytestring payload]).
  assert (E : client_protocol_encode_event CLIENT_EVENT_MESSAGE (Some topic) (Some subtopic) payload =
    Ret (Some (CArray true 5 [cbor_build_uint8 CLIENT_FRAME_EVENT; cbor_build_uint8 CLIENT_EVENT_MESSAGE;
                              cbor_build_string topic; cbor_build_string subtopic; cbor_build_bytestring payload]))).
  { unfold client_protocol_encode_event, cbor_new_definite_array. by rewrite push_all_definite by by vm_compute. }
  split; [exact E|]. split.
  - rewrite decode_dispatch by by vm_compute. change (decode_event ?l 5) with (decode_event l 5).
    apply event_decodes; done.
  - intros Hser. unfold publish_on_channel. rewrite Hsub, Hon. cbn [andb]. rewrite Happ, bind_Ret_l.
    unfold session_dispatch_message. rewrite take_ge by (unfold zlen in Hlen; lia). rewrite c_str_id by done.
    rewrite Hfind, E, bind_Ret_l. cbn [client_protocol_serialize].
    rewrite (proj2 (Z.eqb_neq _ 0)).
    2:{ intros H0. apply Hser, nil_length_inv. unfold zlen in H0. apply Nat2Z.inj. exact H0. }
    rewrite dispatch_loop_spec by done. rewrite bind_Ret_l, Hpub. done.
Qed.

(** ** Authorization *)

(** C27. Administrative requests need the owner's signature: a request to
    destroy or modify a channel whose signature over method and topic does not
    verify under the channel's own key is refused, and nothing happens: the
    daemon's state, the network and the other clients see nothing of it. *)
Theorem admin_requires_owner {K} `{!SignatureScheme K} `{!EqDecision K} blake3 XXH3 clock send time mono conn load
    ser new_key create fuel (d : daemon_t K) a frame i c w :
  cf_method frame = CLIENT_METHOD_CHANNEL_DESTROY ∨ cf_method frame = CLIENT_METHOD_CHANNEL_MODIFY →
  find_channel_by_topic (dm_mgr d) (c_str (cf_topic_path frame)) = Some (i, c) →
  cf_signature frame = [] ∨
  verify (key_type (ch_key_pair c)) (public_key (ch_key_pair c))
    (cf_method frame :: c_str (cf_topic_path frame)) (cf_signature frame) = false →
  ∃ response, client_session_handle_request blake3 XXH3 clock send time mono conn load ser new_key create fuel d a
      frame w = Some (Ret (mkOutcome (-1) (Some response) d [] w)) ∧
    client_protocol_encode_response (cf_request_id frame) CLIENT_ERROR_NOT_AUTHORIZED (Some []) = Ret (Some response).
Proof.
  intros Hm Hf Hs. assert (Hv : verify_channel_owner_signature c frame = -1).
  { unfold verify_channel_owner_signature. destruct Hs as [->| ->]; [done|]. by destruct (_ =? 0). }
  assert (Hr : ∃ r, client_protocol_encode_response (cf_request_id frame) CLIENT_ERROR_NOT_AUTHORIZED (Some []) =
    Ret (Some r)).
  { unfold client_protocol_encode_response, cbor_new_definite_array. rewrite push_all_definite by by vm_compute. eauto. }
  destruct Hr as [r Hr]. exists r. split; [|done]. unfold client_session_handle_request, handle_channel_method.
  unfold find_channel_by_topic in Hf. destruct (find_index _ _) as [j|]; [|done].
  destruct (m_channels (dm_mgr d) !! j) as [[addr c0]|]; [|done]. cbn in Hf. injection Hf as -> ->.
  unfold handle_destroy, handle_modify. rewrite Hv. change (negb (-1 =? 0)) with true. cbv iota.
  unfold refuse, reply. rewrite Hr. by destruct Hm as [->| ->].
Qed.

(** ** Witnesses *)

(** Two connected sessions, at addresses 1 and 2, both subscribed to "chan",
    and a channel of that name that delivers to them. *)
Definition demo_chan : poseidon_channel_t (list Z) :=
  let c := demo_named (lit "chan") in
  ch_with_cbs (ch_with_quasar c (q_with_subs (quasar_set_message_callback (ch_quasar c) true) [mkSub (lit "chan") 0]))
    true false false.

Definition demo_daemon : daemon_t (list Z) :=
  let m := demo_manager [] [] [] in
  mkDaemon (m_with_sessions (m_with_channels m [(1, demo_chan)]) [1; 2])
    (<[1 := mkSession 1 5 true [mkSubscription (lit "chan") true false]]>
       (<[2 := mkSession 2 6 true [mkSubscription (lit "chan") true false]]> ∅)).

Definition demo_request (method : Z) (payload signature : list Z) : client_frame_t :=
  mkFrame CLIENT_FRAME_REQUEST 77 method 0 0 (lit "chan") [] [] payload signature.

Definition demo_handle (fuel : nat) (d : daemon_t (list Z)) (a : Z) (frame : client_frame_t)
  : run (outcome (list Z)) :=
  client_session_handle_request toy_blake3 (fun _ s => s) (fun g => (0, g)) (fun _ _ => true) (fun _ => 0) (fun _ => 0)
    (fun _ _ => (None, false)) cbor_load cbor_serialize_alloc None (fun _ _ => Ret None) fuel d a frame (mkWorld 0 []).

Lemma request_answered_witness :
  ∃ o code text, demo_handle 3 demo_daemon 1 (demo_request 99 [] []) = Some (Ret o) ∧
    o_response o = Some (CArray true 4 [cbor_build_uint8 CLIENT_FRAME_RESPONSE; cbor_build_uint32 77;
                                        cbor_build_uint8 code; cbor_build_string text]) ∧ code ≠ CLIENT_ERROR_OK.
Proof.
  destruct (demo_handle 3 demo_daemon 1 (demo_request 99 [] [])) as [[o|]|] eqn:E; [|discriminate E|discriminate E].
  destruct (request_answered _ _ _ _ _ _ _ _ _ _ _ _ _ _ _ _ _ E) as (code & text & Hr & Hc & _).
  exists o, code, text. split; [reflexivity|]. split; [exact Hr|].
  intros H. apply Hc in H. injection E as <-. discriminate H.
Defined.

Lemma publish_reaches_subscribers_witness :
  ∃ event, publish_on_channel (fun _ s => s) (fun g => (0, g)) (fun _ _ => true) cbor_load cbor_serialize_alloc
      demo_daemon 0 demo_chan (lit "chan") [1; 2] (Some 1) (mkWorld 0 []) =
    Ret (0, dm_with_mgr demo_daemon (put_channel (dm_mgr demo_daemon) 0 demo_chan),
         [(6, cbor_serialize_alloc event)], mkWorld 0 [QDeliver (lit "chan") (Some [1; 2])]).
Proof.
  destruct (publish_reaches_subscribers (fun _ s => s) (fun g => (0, g)) (fun _ _ => true) cbor_load
    cbor_serialize_alloc demo_daemon 0 demo_chan (lit "chan") [1; 2] (Some 1) (mkWorld 0 []) 0 demo_chan
    (mkWorld 0 [QDeliver (lit "chan") (Some [1; 2])]) [] [1; 2]) as (event & E & D & P).
  - constructor; [by eexists|constructor; [by eexists|constructor]].
  - reflexivity.
  - apply cstr_check. reflexivity.
  - by vm_compute.
  - by vm_compute.
  - by vm_compute.
  - reflexivity.
  - reflexivity.
  - reflexivity.
  - reflexivity.
  - vm_compute in E. injection E as <-. eexists. rewrite P by (vm_compute; discriminate). reflexivity.
Defined.

Lemma admin_requires_owner_witness :
  ∃ response, demo_handle 3 demo_daemon 1 (demo_request CLIENT_METHOD_CHANNEL_DESTROY [] [1; 2; 3]) =
    Some (Ret (mkOutcome (-1) (Some response) demo_daemon [] (mkWorld 0 []))).
Proof.
  destruct (admin_requires_owner toy_blake3 (fun _ s => s) (fun g => (0, g)) (fun _ _ => true) (fun _ => 0)
    (fun _ => 0) (fun _ _ => (None, false)) cbor_load cbor_serialize_alloc None (fun _ _ => Ret None) 3 demo_daemon 1
    (demo_request CLIENT_METHOD_CHANNEL_DESTROY [] [1; 2; 3]) 0 demo_chan (mkWorld 0 [])) as (r & E & _).
  - left. reflexivity.
  - reflexivity.
  - right. vm_compute. reflexivity.
  - exists r. exact E.
Defined.

(** The overlay keeps one subscription too many: two sessions subscribe (two
    entries in the overlay), both unsubscribe, and only the last one to leave
    removes an entry; the channel goes on receiving the topic for nobody. *)
Lemma overlay_subscription_leaks :
  let d0 := mkDaemon (m_with_sessions (demo_manager [] [lit "chan"] []) [1; 2])
              (<[1 := mkSession 1 5 true []]> (<[2 := mkSession 2 6 true []]> ∅)) in
  let T := lit "chan" in
  ∃ d4, ('(_, d1) <- client_session_subscribe sum_hash d0 1 T false ;;
         '(_, d2) <- client_session_subscribe sum_hash d1 2 T false ;;
         '(_, d3) <- client_session_unsubscribe sum_hash d2 1 T ;;
         '(_, d4) <- client_session_unsubscribe sum_hash d3 2 T ;; Ret d4) = Ret d4 ∧
    Forall (fun a => ∃ s, dm_heap d4 !! a = Some s ∧ se_subscriptions s = []) [1; 2] ∧
    ∃ c, find_channel_by_topic (dm_mgr d4) T = Some (0%nat, c) ∧ locally_subscribed (ch_quasar c) T = true.
Proof.
  eexists. split; [vm_compute; reflexivity|]. split.
  - repeat (constructor; [eexists; split; [vm_compute; reflexivity|reflexivity]|]). constructor.
  - eexists. split; vm_compute; reflexivity.
Qed.
