(* ===== verification/Transport.v ===== *)
(** * Transport: the socket transports of the daemon

    [src/ClientAPIs/transport_unix.c] and [transport_tcp.c]: the table of
    connected clients, accepting, reading, answering and disconnecting, and the
    stop of a transport.  The two differ in their limits and in that a TCP client
    may speak TLS.  The event loop runs one callback at a time; what the system
    calls return ([accept], [recv], the TLS handshake, the creation of a watcher)
    is an argument.  Writes go to blocking sockets and are logged whole; a client
    is known by the address of its session, which is its own. *)

From stdpp Require Import gmap.
From S2P Require Import Prelude CString Bitset Bloom ElasticBloom AttenuatedBloom Cbor CborWire Endian Base58.
From S2P Require Import MessageId Node NodeId Packet ChannelPacket Subtopic TopicAlias Notice Ring Route Protocol.
From S2P Require Import Quasar Channel ChannelManager ClientProtocol ClientStream ClientSession.

Definition UNIX_MAX_CLIENTS : Z := 128.
Definition TCP_MAX_CLIENTS : Z := 256.

(** What is written to a connection, as it leaves the process. *)
Inductive write :=
| Plain (fd : Z) (bytes : list Z)
| Tls (fd : Z) (bytes : list Z).

(** [sk_tls] is [ssl != NULL && ssl_connected]; it is false for Unix sockets. *)
Record sock_client_t := mkSock {
  sk_fd : Z;
  sk_session : Z;
  sk_tls : bool;
  sk_read_buf : list Z
}.

Record transport_data_t := mkTransport {
  td_clients : list sock_client_t;
  td_max_clients : Z;
  td_next_session_id : Z;
  td_running : bool
}.

Definition td_with_clients (t : transport_data_t) (l : list sock_client_t) : transport_data_t :=
  mkTransport l (td_max_clients t) (td_next_session_id t) (td_running t).

Definition sk_with_buf (c : sock_client_t) (b : list Z) : sock_client_t :=
  mkSock (sk_fd c) (sk_session c) (sk_tls c) b.

(** [transport->send]: header and body on the bare descriptor. *)
Definition transport_send (fd : Z) (data : list Z) : write := Plain fd (frame_bytes data).

(** The response goes through TLS when the connection has it. *)
Definition send_response (c : sock_client_t) (data : list Z) : write :=
  if sk_tls c then Tls (sk_fd c) (frame_bytes data) else Plain (sk_fd c) (frame_bytes data).

(** What one readiness event brings: [recv]'s result when the descriptor is
    readable (nothing, or the bytes read), hang-up, error. *)
Record sock_event := mkSockEvent {
  ev_read : option (option (list Z));
  ev_hangup : bool;
  ev_error : bool
}.

Section transport.
Context {K : Type} `{!SignatureScheme K} `{!EqDecision K}.
Context (blake3 : list Z → list Z) (XXH3 : list Z → Z → Z) (clock : Z → Z * Z).
Context (DatagramSend : Z → list Z → bool) (time_us mono_us : world → Z).
Context (connect : Z → Z → option Z * bool).
Context (cbor_load : list Z → option cbor_item) (cbor_serialize_alloc : cbor_item → list Z).
Context (new_key : option K) (create : list Z → Z → exec (option (poseidon_channel_t K))).

(** The daemon as a frame handler sees it. *)
Record served := mkServed {
  sd_daemon : daemon_t K;
  sd_out : list write;
  sd_world : world
}.

Record server := mkServer {
  srv_transport : transport_data_t;
  srv_next_addr : Z;
  srv_served : served
}.

(** A decoded frame: handle, send the events and the answer.  [None] is a
    nesting of dial-channel calls deeper than [fuel]. *)
Definition serve_request (fuel : nat) (c : sock_client_t) (s : served) (frame : client_frame_t) : exec (option served) :=
  match client_session_handle_request blake3 XXH3 clock DatagramSend time_us mono_us connect cbor_load
          cbor_serialize_alloc new_key create fuel (sd_daemon s) (sk_session c) frame (sd_world s) with
  | None => Ret None
  | Some Trap => Trap
  | Some (Ret o) =>
      let events := map (fun e => transport_send e.1 e.2) (o_sent o) in
      let answer := match client_protocol_serialize cbor_serialize_alloc (o_response o) with
                    | Some buf => [send_response c buf]
                    | None => []
                    end in
      Ret (Some (mkServed (o_daemon o) (sd_out s ++ events ++ answer) (o_world o)))
  end.

(** One frame of [process_client_data]: parse, decode, handle, answer. *)
Definition serve_frame (fuel : nat) (c : sock_client_t) (st : option served) (body : list Z) : exec (option served) :=
  match st with
  | None => Ret None
  | Some s =>
      match cbor_load body with
      | None => Ret (Some s)
      | Some item =>
          f <- client_protocol_decode (Some item) ;;
          match f with
          | None => Ret (Some s)
          | Some frame => serve_request fuel c s frame
          end
      end
  end.

(** ** Clients *)

Definition srv_daemon (s : server) : daemon_t K := sd_daemon (srv_served s).

Definition srv_with_daemon (s : server) (d : daemon_t K) : server :=
  mkServer (srv_transport s) (srv_next_addr s) (mkServed d (sd_out (srv_served s)) (sd_world (srv_served s))).

Definition srv_with_clients (s : server) (l : list sock_client_t) : server :=
  mkServer (td_with_clients (srv_transport s) l) (srv_next_addr s) (srv_served s).

(** [client_session_destroy] drops the only reference. *)
Definition client_session_destroy (d : daemon_t K) (a : Z) : daemon_t K := mkDaemon (dm_mgr d) (delete a (dm_heap d)).

(** The allocation of client and session; the session identifier is a static
    counter. *)
Definition client_create (s : server) (fd : Z) (tls : bool) : sock_client_t * server :=
  let t := srv_transport s in
  let a := srv_next_addr s in
  let session := mkSession (td_next_session_id t) fd true (se_subscriptions (client_session_create (td_next_session_id t))) in
  (mkSock fd a tls [],
   mkServer (mkTransport (td_clients t) (td_max_clients t) (u32 (td_next_session_id t + 1)) (td_running t)) (a + 1)
     (mkServed (put_session (srv_daemon s) a session) (sd_out (srv_served s)) (sd_world (srv_served s)))).

(** [accepted] is the descriptor [accept] returned, [tls] the outcome of the
    handshake ([None]: it failed), [watcher] whether the watcher was created. *)
Definition accept_callback (s : server) (accepted : option Z) (tls : option bool) (watcher : bool) : server :=
  match accepted with
  | None => s
  | Some fd =>
      if td_max_clients (srv_transport s) <=? zlen (td_clients (srv_transport s)) then s
      else
        match tls with
        | None =>
            let '(c, s1) := client_create s fd false in
            srv_with_daemon s1 (client_session_destroy (srv_daemon s1) (sk_session c))
        | Some b =>
            let '(c, s1) := client_create s fd b in
            if negb watcher then srv_with_daemon s1 (client_session_destroy (srv_daemon s1) (sk_session c))
            else
              let s2 := srv_with_clients s1 (td_clients (srv_transport s1) ++ [c]) in
              srv_with_daemon s2
                (dm_with_mgr (srv_daemon s2)
                   (poseidon_channel_manager_register_session (dm_mgr (srv_daemon s2)) (sk_session c)).2)
        end
  end.

Definition client_is (a : Z) (c : sock_client_t) : bool := sk_session c =? a.

Definition client_disconnect (s : server) (c : sock_client_t) : exec server :=
  let a := sk_session c in
  d1 <- client_session_cleanup_subscriptions XXH3 (srv_daemon s) a ;;
  let d2 := dm_with_mgr d1 (poseidon_channel_manager_unregister_session (dm_mgr d1) a).2 in
  let l := td_clients (srv_transport s) in
  let l' := match find_index (client_is a) l with Some i => swap_remove i l | None => l end in
  Ret (srv_with_daemon (srv_with_clients s l') (client_session_destroy d2 a)).

(** The read callback of the [i]-th client. *)
Definition client_read (fuel : nat) (s : server) (i : nat) (c : sock_client_t) (bytes : list Z) : run server :=
  match process_client_data (serve_frame fuel c) (sk_read_buf c ++ bytes) (Some (srv_served s)) with
  | Trap => Some Trap
  | Ret (_, None) => None
  | Ret (buf, Some sd) =>
      Some (Ret (mkServer (td_with_clients (srv_transport s) (<[i := sk_with_buf c buf]> (td_clients (srv_transport s))))
                   (srv_next_addr s) sd))
  end.

Definition read_callback_at (fuel : nat) (s : server) (i : nat) (e : sock_event) : run server :=
  match td_clients (srv_transport s) !! i with
  | None => Some (Ret s)
  | Some c =>
      match ev_read e with
      | Some None => lift (client_disconnect s c)
      | _ =>
          s1 <~ (match ev_read e with
                 | Some (Some bytes) => client_read fuel s i c bytes
                 | _ => Some (Ret s)
                 end) ;;
          if ev_hangup e || ev_error e then lift (client_disconnect s1 c) else Some (Ret s1)
      end
  end.

(** The stop destroys the clients and leaves the registry as it is. *)
Definition transport_stop (s : server) : server :=
  let t := srv_transport s in
  if negb (td_running t) then s
  else
    let d := fold_left (fun d c => client_session_destroy d (sk_session c)) (td_clients t) (srv_daemon s) in
    srv_with_daemon (mkServer (mkTransport [] (td_max_clients t) (td_next_session_id t) false) (srv_next_addr s)
                       (srv_served s)) d.
End transport.
Arguments served K : clear implicits.
Arguments server K : clear implicits.
