(* ===== verification/WebSocket.v ===== *)
(** * WebSocket: the WebSocket transport

    [src/ClientAPIs/transport_ws.c]: the HTTP upgrade, the frame parser, the
    answers and the table of clients.  The read buffer is the array of the source
    with the number of valid bytes beside it, because the parser trusts lengths
    from the wire: an access outside the array is [Trap].  Handling one CBOR
    message ([on_request]) and logging one write ([emit]) are arguments of the
    parser; the daemon's are at the end of the file. *)

From stdpp Require Import gmap.
From S2P Require Import Prelude CString Bitset Bloom ElasticBloom AttenuatedBloom Cbor CborWire Endian Base58.
From S2P Require Import MessageId Node NodeId Packet ChannelPacket Subtopic TopicAlias Notice Ring Route Protocol.
From S2P Require Import Quasar Channel ChannelManager ClientProtocol ClientStream ClientSession Transport.

Definition WS_MAX_CLIENTS : Z := 256.
Definition WS_READ_BUF_SIZE : Z := 65536.
Definition WS_FRAME_HEADER_SIZE : Z := 4.

Definition WS_OPCODE_TEXT : Z := 1.
Definition WS_OPCODE_BINARY : Z := 2.
Definition WS_OPCODE_CLOSE : Z := 8.
Definition WS_OPCODE_PING : Z := 9.
Definition WS_OPCODE_PONG : Z := 10.

(** [wc_tls] is [ssl != NULL && ssl_connected]. *)
Record ws_client_t := mkWs {
  wc_fd : Z;
  wc_tls : bool;
  wc_session : Z;
  wc_read_buf : list Z;
  wc_read_len : Z;
  wc_ws_upgraded : bool;
  wc_ws_mask_key : list Z
}.

Definition wc_with_buf (c : ws_client_t) (buf : list Z) (len : Z) : ws_client_t :=
  mkWs (wc_fd c) (wc_tls c) (wc_session c) buf len (wc_ws_upgraded c) (wc_ws_mask_key c).
Definition wc_with_key (c : ws_client_t) (key : list Z) : ws_client_t :=
  mkWs (wc_fd c) (wc_tls c) (wc_session c) (wc_read_buf c) (wc_read_len c) (wc_ws_upgraded c) key.
Definition wc_with_upgraded (c : ws_client_t) : ws_client_t :=
  mkWs (wc_fd c) (wc_tls c) (wc_session c) (wc_read_buf c) (wc_read_len c) true (wc_ws_mask_key c).

(** [SSL_write] or [send]. *)
Definition ws_write (c : ws_client_t) (bytes : list Z) : write :=
  if wc_tls c then Tls (wc_fd c) bytes else Plain (wc_fd c) bytes.

(** [n] bytes of an array from [off]. *)
Definition slice (buf : list Z) (off n : Z) : exec (list Z) :=
  if zlen buf <? off + n then Trap else Ret (take (Z.to_nat n) (drop (Z.to_nat off) buf)).

(** ** Encoding *)

Definition ws_length (len : Z) : list Z :=
  if len <=? 125 then [u8 len]
  else if len <=? 65535 then [126; u8 (Z.shiftr len 8); u8 (Z.land len 255)]
  else 127 :: map (fun i => u8 (Z.land (Z.shiftr len (i * 8)) 255)) [7; 6; 5; 4; 3; 2; 1; 0].

(** Into an array of [capacity] bytes. *)
Definition ws_encode_frame (capacity : Z) (data : list Z) : exec (list Z) :=
  let out := 130 :: ws_length (zlen data) ++ data in
  if capacity <? zlen out then Trap else Ret out.

Definition ws_send_close (c : ws_client_t) : write := ws_write c [136; 2; 3; 232].

(** The answer to a request: the encoding of the bare body is overwritten by
    that of the length-prefixed one, in the same array. *)
Definition ws_answer (resp_buf : list Z) : exec (list Z) :=
  let capacity := zlen resp_buf + 10 in
  _ <- ws_encode_frame capacity resp_buf ;;
  ws_encode_frame capacity (write_frame_header (u32 (zlen resp_buf)) ++ resp_buf).

(** ** Decoding *)

Record ws_header := mkWsHeader {
  wh_opcode : Z;
  wh_masked : bool;
  wh_payload_len : Z;
  wh_size : Z;               (** [header_size] *)
  wh_key : list Z
}.

(** The payload length and the size of the header before the mask; [None] when
    more bytes are needed. *)
Definition ws_payload_len (buf : list Z) (read_len : Z) : option (Z * Z) :=
  let short := Z.land (byte_at buf 1) 127 in
  if short =? 126 then
    if read_len <? 4 then None else Some (Z.lor (Z.shiftl (byte_at buf 2) 8) (byte_at buf 3), 4)
  else if short =? 127 then
    if read_len <? 10 then None
    else Some (fold_left (fun acc i => Z.lor (u64 (Z.shiftl acc 8)) (byte_at buf (2 + i))) [0; 1; 2; 3; 4; 5; 6; 7] 0, 10)
  else Some (short, 2).

Definition ws_parse_header (buf : list Z) (read_len : Z) : option ws_header :=
  if read_len <? 2 then None
  else
    let opcode := Z.land (byte_at buf 0) 15 in
    let masked := negb (Z.land (byte_at buf 1) 128 =? 0) in
    match ws_payload_len buf read_len with
    | None => None
    | Some (payload_len, header_size) =>
        if masked then
          if read_len <? header_size + 4 then None
          else Some (mkWsHeader opcode true payload_len (header_size + 4) (take 4 (drop (Z.to_nat header_size) buf)))
        else Some (mkWsHeader opcode false payload_len header_size [])
    end.

Fixpoint xor_mask (key : list Z) (i : nat) (payload : list Z) : list Z :=
  match payload with
  | [] => []
  | b :: rest => Z.lxor b (nth (i mod 4) key 0) :: xor_mask key (S i) rest
  end.

(** The payload is unmasked in place. *)
Definition ws_unmask (buf : list Z) (h : ws_header) : exec (list Z) :=
  if wh_masked h then
    payload <- slice buf (wh_size h) (wh_payload_len h) ;;
    Ret (take (Z.to_nat (wh_size h)) buf ++ xor_mask (wh_key h) 0 payload
         ++ drop (Z.to_nat (wh_size h + wh_payload_len h)) buf)
  else Ret buf.

(** [memmove] of the bytes behind the frame to the front. *)
Definition ws_consume (c : ws_client_t) (total : Z) : ws_client_t :=
  let len := wc_read_len c - total in
  wc_with_buf c (take (Z.to_nat len) (drop (Z.to_nat total) (wc_read_buf c)) ++ drop (Z.to_nat len) (wc_read_buf c)) len.

Section parser.
Context {St : Type} (emit : St → write → St) (on_request : St → list Z → exec (St * option (list Z))).

(** What an iteration leaves: wait for more bytes, go on, or the client is
    freed. *)
Inductive ws_flow :=
| Wait (c : ws_client_t) (s : St)
| More (c : ws_client_t) (s : St)
| Freed (s : St).

(** [SSL_write] takes the length as an [int] and refuses a negative one. *)
Definition ws_pong (c : ws_client_t) (h : ws_header) (s : St) : exec St :=
  let s1 := emit s (ws_write c [138; u8 (wh_payload_len h)]) in
  let n := if wc_tls c then s32 (wh_payload_len h) else wh_payload_len h in
  if n <=? 0 then Ret s1
  else
    payload <- slice (wc_read_buf c) (wh_size h) n ;;
    Ret (emit s1 (ws_write c payload)).

Definition ws_binary (c : ws_client_t) (h : ws_header) (s : St) : exec St :=
  if wh_payload_len h <? WS_FRAME_HEADER_SIZE then Ret s
  else
    '(ok, inner_len) <- read_frame_header (drop (Z.to_nat (wh_size h)) (wc_read_buf c)) ;;
    if negb (ok && (inner_len <=? wh_payload_len h - WS_FRAME_HEADER_SIZE)) then Ret s
    else
      body <- slice (wc_read_buf c) (wh_size h + WS_FRAME_HEADER_SIZE) inner_len ;;
      '(s1, response) <- on_request s body ;;
      match response with
      | None => Ret s1
      | Some resp_buf => frame <- ws_answer resp_buf ;; Ret (emit s1 (ws_write c frame))
      end.

(** One iteration of [process_ws_frames]; [header_size + payload_len] is a sum
    of 64-bit integers. *)
Definition ws_frame_step (c : ws_client_t) (s : St) : exec ws_flow :=
  if wc_read_len c <=? 0 then Ret (Wait c s)
  else
    match ws_parse_header (wc_read_buf c) (wc_read_len c) with
    | None => Ret (Wait c s)
    | Some h =>
        let c1 := if wh_masked h then wc_with_key c (wh_key h) else c in
        let total_frame := u64 (wh_size h + wh_payload_len h) in
        if wc_read_len c <? total_frame then Ret (Wait c1 s)
        else
          buf <- ws_unmask (wc_read_buf c1) h ;;
          let c2 := wc_with_buf c1 buf (wc_read_len c) in
          if wh_opcode h =? WS_OPCODE_CLOSE then Ret (Freed (emit s (ws_send_close c2)))
          else if wh_opcode h =? WS_OPCODE_PING then
            s1 <- ws_pong c2 h s ;; Ret (More (ws_consume c2 total_frame) s1)
          else if wh_opcode h =? WS_OPCODE_BINARY then
            s1 <- ws_binary c2 h s ;; Ret (More (ws_consume c2 total_frame) s1)
          else Ret (More (ws_consume c2 total_frame) s)
    end.

(** [inl]: the client waits for more; [inr]: it was disconnected.  [None] when
    [fuel] iterations were not enough. *)
Fixpoint process_ws_frames (fuel : nat) (c : ws_client_t) (s : St) : run (ws_client_t * St + St) :=
  match fuel with
  | O => None
  | S fuel' =>
      match ws_frame_step c s with
      | Trap => Some Trap
      | Ret (Wait c' s') => Some (Ret (inl (c', s')))
      | Ret (Freed s') => Some (Ret (inr s'))
      | Ret (More c' s') => process_ws_frames fuel' c' s'
      end
  end.

(** ** The upgrade *)

Definition CRLF : list Z := [13; 10].

(** The first occurrence of [needle]. *)
Fixpoint memmem (hay needle : list Z) : option nat :=
  if bool_decide (take (length needle) hay = needle) then Some O
  else match hay with
       | [] => None
       | _ :: rest => S <$> memmem rest needle
       end.

Fixpoint skip_spaces (buf : list Z) : exec (list Z) :=
  match buf with
  | [] => Trap
  | b :: rest => if b =? 32 then skip_spaces rest else Ret buf
  end.

(** Whether [strstr (p, "\r\n")] finds something; the scan ends at a zero
    byte, and runs off the array when there is none. *)
Fixpoint strstr_crlf (buf : list Z) : exec bool :=
  match buf with
  | [] => Trap
  | b :: rest =>
      if b =? 0 then Ret false
      else if b =? 13 then
        match rest with
        | [] => Trap
        | b' :: _ => if b' =? 10 then Ret true else strstr_crlf rest
        end
      else strstr_crlf rest
  end.

Definition WS_UPGRADE_RESPONSE : list Z :=
  lit "HTTP/1.1 101 Switching Protocols" ++ CRLF ++ lit "Upgrade: websocket" ++ CRLF ++ lit "Connection: Upgrade" ++ CRLF
  ++ lit "Sec-WebSocket-Accept: " ++ lit "dGhlIHNhbXBsZSBub25jZQ==" ++ CRLF ++ CRLF.

(** [None]: not yet, or not an upgrade request. *)
Definition handle_ws_upgrade (c : ws_client_t) (s : St) : exec (option (ws_client_t * St)) :=
  let valid := take (Z.to_nat (wc_read_len c)) (wc_read_buf c) in
  match memmem valid (CRLF ++ CRLF) with
  | None => Ret None
  | Some header_end =>
      match memmem valid (lit "Upgrade: websocket"), memmem valid (lit "Upgrade: WebSocket") with
      | None, None => Ret None
      | _, _ =>
          match memmem valid (lit "Sec-WebSocket-Key:") with
          | None => Ret None
          | Some key_header =>
              key_start <- skip_spaces (drop (key_header + 18) (wc_read_buf c)) ;;
              found <- strstr_crlf key_start ;;
              if negb found then Ret None
              else
                Ret (Some (wc_with_upgraded (ws_consume c (Z.of_nat header_end + 4)), emit s (ws_write c WS_UPGRADE_RESPONSE)))
          end
      end
  end.

(** What [recv] or [SSL_read] left behind the valid bytes. *)
Definition ws_receive (c : ws_client_t) (bytes : list Z) : ws_client_t :=
  wc_with_buf c (take (Z.to_nat (wc_read_len c)) (wc_read_buf c) ++ bytes
                 ++ drop (Z.to_nat (wc_read_len c) + length bytes) (wc_read_buf c)) (wc_read_len c + zlen bytes).

(** The readable part of [ws_read_callback], for the bytes received; the loop
    takes at most one iteration per byte and one more. *)
Definition ws_client_read (c : ws_client_t) (bytes : list Z) (s : St) : run (ws_client_t * St + St) :=
  let c1 := ws_receive c bytes in
  let frames c s := process_ws_frames (S (Z.to_nat (wc_read_len c))) c s in
  if wc_ws_upgraded c1 then frames c1 s
  else
    match handle_ws_upgrade c1 s with
    | Trap => Some Trap
    | Ret None => Some (Ret (inl (c1, s)))
    | Ret (Some (c2, s2)) => frames c2 s2
    end.
End parser.
Arguments ws_flow St : clear implicits.

(** ** The daemon behind the parser, and the table of clients *)

Record ws_server (K : Type) := mkWsServer {
  ws_clients : list ws_client_t;
  ws_next_session_id : Z;
  ws_running : bool;
  ws_next_addr : Z;
  ws_served : served K
}.
Arguments mkWsServer {K} _ _ _ _ _.
Arguments ws_clients {K} _.
Arguments ws_next_session_id {K} _.
Arguments ws_running {K} _.
Arguments ws_next_addr {K} _.
Arguments ws_served {K} _.

(** [transport->send] of a WebSocket transport refuses everything. *)
Definition ws_transport_send (client_id : Z) (data : list Z) : Z := -1.

Section server.
Context {K : Type} `{!SignatureScheme K} `{!EqDecision K}.
Context (blake3 : list Z → list Z) (XXH3 : list Z → Z → Z) (clock : Z → Z * Z).
Context (DatagramSend : Z → list Z → bool) (time_us mono_us : world → Z).
Context (connect : Z → Z → option Z * bool).
Context (cbor_load : list Z → option cbor_item) (cbor_serialize_alloc : cbor_item → list Z).
Context (new_key : option K) (create : list Z → Z → exec (option (poseidon_channel_t K))).

Definition ws_emit (st : option (served K)) (w : write) : option (served K) :=
  (fun s => mkServed (sd_daemon s) (sd_out s ++ [w]) (sd_world s)) <$> st.

(** Parse, decode, handle; the events of the request go out on the transports
    of their sessions. *)
Definition ws_on_request (fuel : nat) (session : Z) (st : option (served K)) (body : list Z)
    : exec (option (served K) * option (list Z)) :=
  match st with
  | None => Ret (None, None)
  | Some s =>
      match cbor_load body with
      | None => Ret (Some s, None)
      | Some item =>
          f <- client_protocol_decode (Some item) ;;
          match f with
          | None => Ret (Some s, None)
          | Some frame =>
              match client_session_handle_request blake3 XXH3 clock DatagramSend time_us mono_us connect cbor_load
                      cbor_serialize_alloc new_key create fuel (sd_daemon s) session frame (sd_world s) with
              | None => Ret (None, None)
              | Some Trap => Trap
              | Some (Ret o) =>
                  let events := map (fun e => transport_send e.1 e.2) (o_sent o) in
                  Ret (Some (mkServed (o_daemon o) (sd_out s ++ events) (o_world o)),
                       client_protocol_serialize cbor_serialize_alloc (o_response o))
              end
          end
      end
  end.

Definition ws_with (s : ws_server K) (l : list ws_client_t) (sd : served K) : ws_server K :=
  mkWsServer l (ws_next_session_id s) (ws_running s) (ws_next_addr s) sd.

Definition sd_with_daemon (sd : served K) (d : daemon_t K) : served K := mkServed d (sd_out sd) (sd_world sd).

Definition sd_drop_session (sd : served K) (a : Z) : served K :=
  sd_with_daemon sd (client_session_destroy (sd_daemon sd) a).

(** The session has no descriptor and no transport, and is not registered. *)
Definition ws_client_create (s : ws_server K) (fd : Z) (tls : bool) : ws_client_t * ws_server K :=
  let a := ws_next_addr s in
  (mkWs fd tls a (zeros (Z.to_nat WS_READ_BUF_SIZE)) 0 false (zeros 4),
   mkWsServer (ws_clients s) (u32 (ws_next_session_id s + 1)) (ws_running s) (a + 1)
     (sd_with_daemon (ws_served s)
        (put_session (sd_daemon (ws_served s)) a (client_session_create (ws_next_session_id s))))).

(** [tls]: [None] when the handshake failed. *)
Definition ws_accept_callback (s : ws_server K) (accepted : option Z) (tls : option bool) (watcher : bool) : ws_server K :=
  match accepted with
  | None => s
  | Some fd =>
      if WS_MAX_CLIENTS <=? zlen (ws_clients s) then s
      else
        let '(c, s1) := ws_client_create s fd (default false tls) in
        match tls with
        | None => ws_with s1 (ws_clients s1) (sd_drop_session (ws_served s1) (wc_session c))
        | Some _ =>
            if negb watcher then ws_with s1 (ws_clients s1) (sd_drop_session (ws_served s1) (wc_session c))
            else ws_with s1 (ws_clients s1 ++ [c]) (ws_served s1)
        end
  end.

Definition ws_client_is (a : Z) (c : ws_client_t) : bool := wc_session c =? a.

(** The client leaves the table and is freed with its session. *)
Definition ws_client_disconnect (s : ws_server K) (sd : served K) (c : ws_client_t) : ws_server K :=
  let l := ws_clients s in
  let l' := match find_index (ws_client_is (wc_session c)) l with Some i => swap_remove i l | None => l end in
  ws_with s l' (sd_drop_session sd (wc_session c)).

(** The read callback of the [i]-th client.  As long as the upgrade is not done it
    returns without looking at a hang-up or an error; a client the parser has freed
    is disconnected once more when the event also carries one of them. *)
Definition ws_read_callback_at (fuel : nat) (s : ws_server K) (i : nat) (e : sock_event) : run (ws_server K) :=
  match ws_clients s !! i with
  | None => Some (Ret s)
  | Some c =>
      let gone := ev_hangup e || ev_error e in
      match ev_read e with
      | Some None => Some (Ret (ws_client_disconnect s (ws_served s) c))
      | None => Some (Ret (if gone then ws_client_disconnect s (ws_served s) c else s))
      | Some (Some bytes) =>
          r <~ ws_client_read ws_emit (ws_on_request fuel (wc_session c)) c bytes (Some (ws_served s)) ;;
          match r with
          | inl (c', Some sd) =>
              let s1 := ws_with s (<[i := c']> (ws_clients s)) sd in
              Some (Ret (if wc_ws_upgraded c' && gone then ws_client_disconnect s1 sd c else s1))
          | inr (Some sd) => if gone then Some Trap else Some (Ret (ws_client_disconnect s sd c))
          | inl (_, None) | inr None => None
          end
      end
  end.

Definition ws_transport_stop (s : ws_server K) : ws_server K :=
  if negb (ws_running s) then s
  else
    mkWsServer [] (ws_next_session_id s) false (ws_next_addr s)
      (fold_left (fun sd c => sd_drop_session sd (wc_session c)) (ws_clients s) (ws_served s)).
End server.
