(* ===== verification/TransportTheorems.v ===== *)
(** * TransportTheorems: connected clients and live sessions

    The registry of the channel manager and the client table of a transport
    agree under every sequence of connections, reads and disconnections, so no
    event is dispatched to a freed session; the conversation between a transport
    and its clients; what the stop of a transport leaves behind. *)

From stdpp Require Import gmap.
From S2P Require Import Prelude CString Bitset Bloom ElasticBloom AttenuatedBloom Cbor CborWire Endian Base58.
From S2P Require Import MessageId Node NodeId Packet ChannelPacket Subtopic TopicAlias Notice Ring Route Protocol.
From S2P Require Import Quasar Channel ChannelManager ManagerTheorems ClientProtocol ClientStream ClientSession.
From S2P Require Import SessionTheorems Transport.

(** ** The registry is changed by registration only *)

Section registry.
Context {K : Type} `{!SignatureScheme K} `{!EqDecision K}.
Context (blake3 : list Z → list Z) (XXH3 : list Z → Z → Z) (clock : Z → Z * Z).
Context (DatagramSend : Z → list Z → bool) (time_us mono_us : world → Z).
Context (connect : Z → Z → option Z * bool).
Context (cbor_load : list Z → option cbor_item) (cbor_serialize_alloc : cbor_item → list Z).
Context (L : list Z).
Local Abbreviation manager := (poseidon_channel_manager_t K).

(** The managers with the registry [L]. *)
Definition registry (m : manager) : Prop := m_sessions m = L.

Lemma registry_tombstone m t : registry m → registry (poseidon_channel_manager_add_tombstone m t).2.
Proof. intros H. unfold poseidon_channel_manager_add_tombstone. by destruct (add_tombstone _ _). Qed.

Lemma registry_destroy m n : registry m → registry (poseidon_channel_manager_destroy_channel m n).2.
Proof.
  intros H. unfold poseidon_channel_manager_destroy_channel. destruct n; [|done]. by destruct (find_index _ _).
Qed.

Lemma registry_port m : registry m → registry (allocate_port m).2.
Proof. intros H. unfold allocate_port. by destruct (_ <? _). Qed.

Section publishing.
Context (pub : manager → list Z → list Z → world → run (Z * manager * world)).
Context (pub_registry : ∀ m t d w, registry m → run_all (fun r => registry r.1.2) (pub m t d w)).

Lemma registry_publish_item m topic item other w :
  registry m → run_all (fun r => registry r.1.2) (publish_item cbor_serialize_alloc pub m topic item other w).
Proof. intros H. unfold publish_item. destruct item; [|done]. destruct (_ =? _); [done|by apply pub_registry]. Qed.

(** A handler that ends by publishing. *)
Lemma registry_then_publish {A} (Q : A → Prop) m topic item other w (f : Z * manager * world → run A) :
  registry m → (∀ r, registry r.1.2 → run_all Q (f r)) →
  run_all Q (rbind (publish_item cbor_serialize_alloc pub m topic item other w) f).
Proof. intros H Hf. eapply run_all_bind; [by apply registry_publish_item|exact Hf]. Qed.

Lemma registry_rejoin m i c cfg w :
  registry m →
  run_all (fun r => registry r.1.2)
    (poseidon_channel_rejoin_with_config XXH3 time_us cbor_serialize_alloc pub m i c cfg w).
Proof.
  intros H. unfold poseidon_channel_rejoin_with_config. apply run_all_lift. intros c'. apply run_all_lift. intros item.
  by apply registry_then_publish; [|intros [[? ?] ?] ?].
Qed.

Lemma registry_redistribute m topic e w :
  registry m → run_all (fun r => registry r.1) (redistribute cbor_serialize_alloc pub m topic e w).
Proof. intros H. apply run_all_lift. intros item. by apply registry_then_publish; [|intros [[? ?] ?] ?]. Qed.

Lemma registry_delete_notice m n w :
  registry m →
  run_all (fun r => registry r.1)
    (poseidon_channel_manager_handle_delete_notice XXH3 mono_us cbor_serialize_alloc pub m n w).
Proof.
  intros H. unfold poseidon_channel_manager_handle_delete_notice. apply run_all_lift. intros topic.
  pose proof (registry_tombstone m (poseidon_tombstone_from_delete_notice n (mono_us w)) H) as H1.
  apply (run_all_bind registry); [|intros m2 H2; by apply registry_redistribute].
  destruct (find_index _ _) as [i|]; [|done]. destruct (_ !! i) as [e|]; [|done].
  destruct (poseidon_channel_delete_signed XXH3 e.2) as [[? c]|]; [|done].
  cbn [xbind lift run_all]. by apply registry_destroy.
Qed.

Lemma registry_modify_notice m n w :
  registry m →
  run_all (fun r => registry r.1)
    (poseidon_channel_manager_handle_modify_notice XXH3 time_us mono_us cbor_serialize_alloc pub m n w).
Proof.
  intros H. unfold poseidon_channel_manager_handle_modify_notice. apply run_all_lift. intros topic.
  pose proof (registry_tombstone m (poseidon_tombstone_from_modify_notice n (mono_us w)) H) as H1.
  apply (run_all_bind (fun r => registry r.1)); [|intros [m2 w2] H2; by apply registry_redistribute].
  destruct (find_index _ _) as [i|]; [|done]. destruct (_ !! i) as [e|]; [|done].
  eapply run_all_bind; [by apply registry_rejoin|]. by intros [[? ?] ?] ?.
Qed.

Lemma registry_bootstrap m topic w :
  registry m →
  run_all (fun r => registry r.1.2)
    (poseidon_channel_manager_handle_bootstrap_request time_us cbor_serialize_alloc pub m topic w).
Proof.
  intros H. unfold poseidon_channel_manager_handle_bootstrap_request.
  destruct (poseidon_channel_manager_find_tombstone m topic).
  - apply run_all_lift. intros item. by apply registry_then_publish; [|intros [[? ?] ?] ?].
  - destruct (negb _); [done|]. destruct (meridian_protocol_get_local_node _) as [? [addr port]].
    apply run_all_lift. intros item. by apply registry_publish_item.
Qed.

Lemma registry_bootstrap_reply m topic addr port ts seeds :
  registry m →
  run_all (fun r => registry r.2)
    (lift (poseidon_channel_manager_handle_bootstrap_reply connect m topic addr port ts seeds)).
Proof.
  intros H. unfold poseidon_channel_manager_handle_bootstrap_reply.
  destruct (find_index _ _) as [i|]; [|done]. destruct (_ !! i) as [p|]; [|done].
  destruct (_ =? 1); [|done]. by destruct (channel_at m (pb_channel p)) as [[j c]|].
Qed.

Lemma registry_intercept m data w :
  registry m →
  run_all (fun r => registry r.1.2)
    (channel_manager_bootstrap_intercept blake3 XXH3 time_us mono_us connect cbor_load cbor_serialize_alloc pub m data w).
Proof.
  intros H. unfold channel_manager_bootstrap_intercept. destruct (cbor_load data) as [item|]; [|done].
  apply run_all_lift. intros definite. destruct (negb definite); [done|].
  apply run_all_lift. intros size. destruct (_ <? _); [done|].
  apply run_all_lift. intros items. apply run_all_lift. intros i0. destruct (negb _); [done|].
  apply run_all_lift. intros ty. repeat (destruct (_ =? _));
    [..|done]; apply run_all_lift; intros [r|]; try done.
  - destruct r as [[topic ?] ?]. eapply run_all_bind; [by apply registry_bootstrap|]. by intros [[? ?] ?] ?.
  - eapply run_all_bind; [by apply registry_bootstrap_reply|]. by intros [? ?] ?.
  - apply run_all_lift. intros rc. destruct (negb _); [done|].
    eapply run_all_bind; [by apply registry_delete_notice|]. by intros [? ?] ?.
  - apply run_all_lift. intros rc. destruct (negb _); [done|].
    eapply run_all_bind; [by apply registry_modify_notice|]. by intros [? ?] ?.
Qed.

Lemma registry_message m data w :
  registry m →
  run_all (fun r => registry r.1)
    (dial_message_handler blake3 XXH3 time_us mono_us connect cbor_load cbor_serialize_alloc pub m data w).
Proof.
  intros H. unfold dial_message_handler. apply (run_all_bind (fun r => registry r.1.2)).
  - destruct (ch_intercept_cb _); [by apply registry_intercept|done].
  - intros [[handled m'] w'] H'. destruct handled; [done|]. by apply run_all_lift.
Qed.
End publishing.

Lemma registry_dial_publish fuel m topic data w :
  registry m →
  run_all (fun r => registry r.1.2)
    (dial_publish blake3 XXH3 clock DatagramSend time_us mono_us connect cbor_load cbor_serialize_alloc
       fuel m topic data w).
Proof.
  revert m topic data w. induction fuel as [|fuel IH]; intros m topic data w H; [done|]. cbn [dial_publish].
  destruct (_ && _).
  - eapply run_all_bind; [by apply registry_message|].
    intros [m1 w1] H1. cbn [fst] in H1. destruct (q_protocol _) as [p|]; [|done].
    destruct (meridian_protocol_get_local_node _) as [? [addr port]]. apply run_all_lift. by intros [q2 w2].
  - apply run_all_lift. by intros [[rc d] w1].
Qed.

Lemma registry_create_channel m kp create :
  registry m → run_all (fun r => registry r.2) (lift (poseidon_channel_manager_create_channel m kp create)).
Proof.
  intros H. unfold poseidon_channel_manager_create_channel. destruct (_ <=? _); [done|].
  pose proof (registry_port m H) as H1. destruct (allocate_port m) as [port m1]. destruct (port =? 0); [done|].
  destruct kp as [k|]; [|done]. by destruct (create k port) as [[c|]|].
Qed.

Lemma registry_join m fuel topic create w :
  registry m →
  run_all (fun r => registry r.1.2)
    (poseidon_channel_manager_join_channel blake3 XXH3 clock DatagramSend time_us mono_us connect cbor_load
       cbor_serialize_alloc fuel m topic create w).
Proof.
  intros H. unfold poseidon_channel_manager_join_channel. destruct (_ <=? _); [done|]. destruct (_ <=? _); [done|].
  pose proof (registry_port m H) as H1. destruct (allocate_port m) as [port m1]. destruct (port =? 0); [done|].
  apply run_all_lift. intros [c|]; [|done]. apply run_all_lift. intros [? d]. apply run_all_lift. intros item.
  apply registry_then_publish; [intros; by apply registry_dial_publish|done|by intros [[? ?] ?] ?].
Qed.
End registry.

(** ** Requests keep connections *)

Section connections.
Context {K : Type} `{!SignatureScheme K} `{!EqDecision K}.

(** What a transport put into a session. *)
Definition conn_of (s : client_session_t) : Z * Z * bool := (se_session_id s, se_client_fd s, se_transport s).

(** The same registry, and the same sessions up to their subscriptions. *)
Definition same_conns (d d' : daemon_t K) : Prop :=
  m_sessions (dm_mgr d') = m_sessions (dm_mgr d) ∧ ∀ a, conn_of <$> dm_heap d' !! a = conn_of <$> dm_heap d !! a.

#[export] Instance same_conns_preorder : PreOrder same_conns.
Proof. split; [by split|]. intros d1 d2 d3 [H1 H2] [H3 H4]. split; [congruence|]. intros a. by rewrite H4, H2. Qed.

Lemma conns_with_mgr (d : daemon_t K) m : m_sessions m = m_sessions (dm_mgr d) → same_conns d (dm_with_mgr d m).
Proof. by split. Qed.

Lemma conns_put_session (d : daemon_t K) a s s' :
  dm_heap d !! a = Some s → conn_of s' = conn_of s → same_conns d (put_session d a s').
Proof.
  intros Hs Hc. split; [done|]. intros b. cbn. destruct (decide (b = a)) as [->|Hne].
  - rewrite lookup_insert_eq, Hs. cbn. by rewrite Hc.
  - by rewrite lookup_insert_ne.
Qed.

Lemma session_add_conn s topic lb : conn_of (session_add s topic lb).2 = conn_of s.
Proof. unfold session_add. destruct (find_index _ _); [done|]. by destruct (_ <=? _). Qed.

Lemma session_remove_conn s topic s' : session_remove s topic = Some s' → conn_of s' = conn_of s.
Proof. unfold session_remove. destruct (find_index _ _); [|done]. by intros [= <-]. Qed.

Context (blake3 : list Z → list Z) (XXH3 : list Z → Z → Z) (clock : Z → Z * Z).
Context (DatagramSend : Z → list Z → bool) (time_us mono_us : world → Z).
Context (connect : Z → Z → option Z * bool).
Context (cbor_load : list Z → option cbor_item) (cbor_serialize_alloc : cbor_item → list Z).
Context (new_key : option K) (create : list Z → Z → exec (option (poseidon_channel_t K))).

Lemma conns_subscribe (d : daemon_t K) a topic lb r :
  client_session_subscribe XXH3 d a topic lb = Ret r → same_conns d r.2.
Proof.
  unfold client_session_subscribe, session_at. destruct (dm_heap d !! a) as [s|] eqn:Hs; [|done]. rewrite bind_Ret_l.
  pose proof (session_add_conn s topic lb) as Hc. destruct (session_add s topic lb) as [[rc fresh] s'].
  pose proof (conns_put_session d a s s' Hs Hc) as H1. destruct (negb fresh); [by intros [= <-]|].
  destruct (find_channel_by_topic _ topic) as [[i c]|]; [|by intros [= <-]].
  destruct (poseidon_channel_subscribe XXH3 c _ _) as [[? c1]|]; [|done]. cbn [xbind].
  intros [= <-]. by etrans; [|by apply conns_with_mgr].
Qed.

Lemma conns_leave (d : daemon_t K) a topic d' : leave_overlay XXH3 d a topic = Ret d' → same_conns d d'.
Proof.
  unfold leave_overlay. destruct (manager_has_other_subscriber d topic a) as [[]|]; cbn [xbind]; [by intros [= <-]| |done].
  destruct (find_channel_by_topic _ topic) as [[i c]|]; [|by intros [= <-]].
  destruct (poseidon_channel_unsubscribe XXH3 c _) as [[? c1]|]; [|done]. intros [= <-]. by apply conns_with_mgr.
Qed.

Lemma conns_unsubscribe (d : daemon_t K) a topic r :
  client_session_unsubscribe XXH3 d a topic = Ret r → same_conns d r.2.
Proof.
  unfold client_session_unsubscribe, session_at. destruct (dm_heap d !! a) as [s|] eqn:Hs; [|done]. rewrite bind_Ret_l.
  destruct (session_remove s topic) as [s'|] eqn:Hr; [|by intros [= <-]].
  destruct (leave_overlay XXH3 _ a topic) as [d'|] eqn:Hl; [|done]. intros [= <-]. cbn.
  etrans; [eapply conns_put_session; [done|by eapply session_remove_conn]|by eapply conns_leave].
Qed.

Lemma conns_cleanup (d : daemon_t K) a d' :
  client_session_cleanup_subscriptions XXH3 d a = Ret d' → same_conns d d'.
Proof.
  unfold client_session_cleanup_subscriptions, session_at. destruct (dm_heap d !! a) as [s|]; [|done].
  rewrite bind_Ret_l. generalize (map cs_topic_path (List.filter cs_active (se_subscriptions s))) as l. intros l.
  revert d. induction l as [|t l IH]; intros d; cbn [leave_all]; [by intros [= <-]|].
  destruct (leave_overlay XXH3 d a t) as [d1|] eqn:E; [|done]. cbn [xbind]. intros H.
  etrans; [by eapply conns_leave|by apply IH].
Qed.

Lemma conns_publish (d : daemon_t K) i c topic data publisher w r :
  publish_on_channel XXH3 clock DatagramSend cbor_load cbor_serialize_alloc d i c topic data publisher w = Ret r →
  same_conns d r.1.1.2.
Proof.
  unfold publish_on_channel. intros (sent & _ & H)%bind_ret. apply bind_ret in H as ([[rc c'] w'] & _ & H).
  injection H as <-. by apply conns_with_mgr.
Qed.

Lemma conns_reply (d0 d : daemon_t K) rc id code text sent w :
  same_conns d0 d → run_all (fun o => same_conns d0 (o_daemon o)) (reply rc id code text d sent w).
Proof. intros H. unfold reply. by apply run_all_lift. Qed.

Lemma conns_refuse (d0 d : daemon_t K) id code w :
  same_conns d0 d → run_all (fun o => same_conns d0 (o_daemon o)) (refuse id code d w).
Proof. apply conns_reply. Qed.

Lemma conns_announce fuel (d : daemon_t K) i c topic item w :
  run_all (fun r => same_conns d r.1.1)
    (announce blake3 XXH3 clock DatagramSend time_us mono_us connect cbor_load cbor_serialize_alloc
       fuel d i c topic item w).
Proof.
  unfold announce. destruct item as [item|]; [|done]. destruct (_ =? _); [done|].
  apply run_all_lift_eq. intros [[[rc d1] sent] w1] E. apply conns_publish in E. cbn [fst snd] in E.
  eapply run_all_bind; [by apply (registry_dial_publish _ _ _ _ _ _ _ _ _ (m_sessions (dm_mgr d1)))|].
  intros [[? m2] w2] H. cbn in H |- *. by etrans; [|by apply conns_with_mgr].
Qed.

Lemma conns_destroy fuel (d : daemon_t K) i addr c frame w :
  run_all (fun o => same_conns d (o_daemon o))
    (handle_destroy blake3 XXH3 clock DatagramSend time_us mono_us connect cbor_load cbor_serialize_alloc
       fuel d i addr c frame w).
Proof.
  unfold handle_destroy. destruct (negb _); [by apply conns_refuse|].
  apply run_all_lift. intros [n|]; [|by apply conns_refuse].
  apply run_all_lift. intros v. destruct (negb _); [by apply conns_refuse|].
  apply run_all_lift. intros item. apply run_all_lift. intros topic.
  eapply run_all_bind; [apply conns_announce|]. intros [[d1 sent] w1] H1. cbn [fst] in H1.
  apply run_all_lift. intros [j c1]. apply run_all_lift. intros [? c2]. apply conns_reply.
  etrans; [exact H1|]. apply conns_with_mgr. apply registry_destroy. by apply registry_tombstone.
Qed.

Lemma conns_modify fuel (d : daemon_t K) i addr c frame w :
  run_all (fun o => same_conns d (o_daemon o))
    (handle_modify blake3 XXH3 clock DatagramSend time_us mono_us connect cbor_load cbor_serialize_alloc
       fuel d i addr c frame w).
Proof.
  unfold handle_modify. destruct (negb _); [by apply conns_refuse|].
  apply run_all_lift. intros [n|]; [|by apply conns_refuse].
  apply run_all_lift. intros v. destruct (negb _); [by apply conns_refuse|].
  apply run_all_lift. intros item. apply run_all_lift. intros topic.
  eapply run_all_bind; [apply conns_announce|]. intros [[d1 sent] w1] H1. cbn [fst] in H1.
  apply run_all_lift. intros [j c1]. eapply run_all_bind.
  { apply (registry_rejoin _ _ _ (m_sessions (dm_mgr d1))); [intros; by apply registry_dial_publish|].
    by apply registry_tombstone. }
  intros [[? m3] w2] H3. apply conns_reply. etrans; [exact H1|]. by apply conns_with_mgr.
Qed.

Lemma conns_channel_method fuel (d : daemon_t K) a frame w :
  run_all (fun o => same_conns d (o_daemon o))
    (handle_channel_method blake3 XXH3 clock DatagramSend time_us mono_us connect cbor_load cbor_serialize_alloc
       fuel d a frame w).
Proof.
  unfold handle_channel_method. destruct (find_index _ _) as [i|]; [|by apply conns_refuse].
  destruct (_ !! i) as [[addr c]|]; [|by apply conns_refuse]. destruct (_ =? _).
  { unfold handle_publish. apply run_all_lift_eq. intros [[[rc d1] sent] w1] E. apply conns_publish in E.
    destruct (negb _); by apply conns_reply. }
  destruct (_ =? _).
  { destruct (poseidon_channel_register_alias _ _ _) as [rc c'].
    destruct (negb _); apply conns_reply; by apply conns_with_mgr. }
  destruct (_ =? _).
  { destruct (poseidon_channel_unregister_alias _ _) as [rc c'].
    destruct (negb _); apply conns_reply; by apply conns_with_mgr. }
  destruct (_ =? _); [destruct (poseidon_channel_resolve_alias _ _); by apply conns_reply|].
  destruct (_ =? _); [apply conns_destroy|apply conns_modify].
Qed.

Lemma conns_request fuel (d : daemon_t K) a frame w :
  run_all (fun o => same_conns d (o_daemon o))
    (client_session_handle_request blake3 XXH3 clock DatagramSend time_us mono_us connect cbor_load
       cbor_serialize_alloc new_key create fuel d a frame w).
Proof.
  unfold client_session_handle_request. destruct (_ =? _).
  { eapply run_all_bind; [by apply (registry_create_channel (m_sessions (dm_mgr d)))|].
    intros [[?|] m] H; apply conns_reply; by apply conns_with_mgr. }
  destruct (_ =? _).
  { eapply run_all_bind; [by apply (registry_join _ _ _ _ _ _ _ _ _ (m_sessions (dm_mgr d)))|].
    intros [[[?|] m] w'] H; apply conns_reply; by apply conns_with_mgr. }
  destruct (_ =? _).
  { apply run_all_lift_eq. intros [rc d'] E. apply conns_subscribe in E. destruct (negb _); by apply conns_reply. }
  destruct (_ =? _).
  { apply run_all_lift_eq. intros [rc d'] E. apply conns_unsubscribe in E. destruct (negb _); by apply conns_reply. }
  destruct (_ || _); [apply conns_channel_method|by apply conns_refuse].
Qed.
End connections.

(** ** The client table *)

Lemma find_index_map {A B} (f : A → B) (p : B → bool) l : find_index p (map f l) = find_index (fun x => p (f x)) l.
Proof. induction l as [|x l IH]; [done|]. cbn. destruct (p (f x)); [done|]. by rewrite IH. Qed.

Lemma map_swap_remove {A B} (f : A → B) i l : map f (swap_remove i l) = swap_remove i (map f l).
Proof.
  unfold swap_remove. change (map f) with (fmap (M := list) f). rewrite fmap_last. destruct (list.last l); [|done]. cbn.
  rewrite length_fmap. change (map f) with (fmap (M := list) f). rewrite fmap_take, list_fmap_insert. done.
Qed.

Section frames.
Context {St : Type} (on_frame : St → list Z → exec St) (P : St → Prop).
Context (step : ∀ s b s', P s → on_frame s b = Ret s' → P s').

Lemma process_frames_inv fuel buf s buf' s' :
  P s → process_frames on_frame fuel buf s = Ret (buf', s') → P s' ∧ (length buf' <= length buf)%nat.
Proof.
  revert buf s. induction fuel as [|fuel IH]; intros buf s Hs; cbn [process_frames]; [by intros [= <- <-]|].
  destruct (_ <? _); [by intros [= <- <-]|]. destruct (read_frame_header buf) as [[ok len]|]; [|done]. cbn [xbind].
  destruct (negb ok); [by intros [= <- <-]|]. destruct (_ <? _)%nat; [by intros [= <- <-]|].
  destruct (on_frame s _) as [s1|] eqn:E; [|done]. cbn [xbind]. intros H. apply IH in H as [H1 H2]; [|by eapply step].
  split; [done|]. rewrite length_drop in H2. lia.
Qed.
End frames.

Section table.
Context {K : Type} `{!SignatureScheme K} `{!EqDecision K}.

(** Registry, client table and sessions agree. *)
Record server_wf (s : server K) : Prop := {
  sv_registry : m_sessions (dm_mgr (srv_daemon s)) = map sk_session (td_clients (srv_transport s));
  sv_distinct : base.NoDup (map sk_session (td_clients (srv_transport s)));
  sv_live : ∀ a, is_Some (dm_heap (srv_daemon s) !! a) ↔ a ∈ map sk_session (td_clients (srv_transport s));
  sv_conn : Forall (fun c => ∃ e, dm_heap (srv_daemon s) !! sk_session c = Some e ∧
      se_client_fd e = sk_fd c ∧ se_transport e = true) (td_clients (srv_transport s));
  sv_addrs : Forall (fun a => 0 < a < srv_next_addr s) (map sk_session (td_clients (srv_transport s)));
  sv_next : 0 < srv_next_addr s;
  sv_room : zlen (td_clients (srv_transport s)) <= td_max_clients (srv_transport s);
  sv_max : td_max_clients (srv_transport s) <= POSEIDON_SESSION_REGISTRY_MAX;
  sv_bufs : Forall (fun c => zlen (sk_read_buf c) <= UNIX_READ_BUF_SIZE) (td_clients (srv_transport s))
}.

Lemma server_wf_no_session (s : server K) a :
  server_wf s → srv_next_addr s <= a → dm_heap (srv_daemon s) !! a = None.
Proof.
  intros H Ha. apply eq_None_not_Some. rewrite (sv_live s H). intros Hin.
  pose proof (sv_addrs s H) as F. rewrite list.Forall_forall in F. specialize (F a Hin). cbn in F. lia.
Qed.

(** Only subscriptions and buffers change when frames are handled. *)
Lemma server_wf_frames (s s' : server K) :
  server_wf s → same_conns (srv_daemon s) (srv_daemon s') →
  map (fun c => (sk_fd c, sk_session c)) (td_clients (srv_transport s')) =
    map (fun c => (sk_fd c, sk_session c)) (td_clients (srv_transport s)) →
  srv_next_addr s' = srv_next_addr s → td_max_clients (srv_transport s') = td_max_clients (srv_transport s) →
  Forall (fun c => zlen (sk_read_buf c) <= UNIX_READ_BUF_SIZE) (td_clients (srv_transport s')) →
  server_wf s'.
Proof.
  intros H [Hr Hh] Ec En Em Hb.
  assert (Es : map sk_session (td_clients (srv_transport s')) = map sk_session (td_clients (srv_transport s))).
  { apply (f_equal (map snd)) in Ec. by rewrite !map_map in Ec. }
  assert (El : zlen (td_clients (srv_transport s')) = zlen (td_clients (srv_transport s))).
  { apply (f_equal length) in Ec. rewrite !length_map in Ec. unfold zlen. by rewrite Ec. }
  destruct H. constructor; rewrite ?Es, ?En, ?Em, ?El, ?Hr; try done.
  - intros a. rewrite <- sv_live0. specialize (Hh a).
    destruct (dm_heap (srv_daemon s') !! a), (dm_heap (srv_daemon s) !! a); done.
  - clear Hb. revert sv_conn0 Ec. generalize (td_clients (srv_transport s)), (td_clients (srv_transport s')).
    intros l l'. revert l. induction l' as [|c l' IH]; intros [|c0 l] F E; try done.
    injection E as E1 E2 E. apply Forall_cons_1 in F as [(e & He & Hf & Ht) F]. constructor; [|by eapply IH].
    rewrite E1, E2. specialize (Hh (sk_session c0)). rewrite He in Hh.
    destruct (dm_heap (srv_daemon s') !! sk_session c0) as [e'|]; [|done]. injection Hh as Hid Hfd Htr.
    exists e'. split_and!; congruence.
Qed.

Lemma create_destroy (d : daemon_t K) a e :
  dm_heap d !! a = None → client_session_destroy (put_session d a e) a = d.
Proof. intros H. destruct d as [m h]. unfold client_session_destroy, put_session. cbn in *. by rewrite delete_insert_id. Qed.

(** Growing the address counter. *)
Lemma server_wf_next (s s' : server K) :
  server_wf s → srv_daemon s' = srv_daemon s → td_clients (srv_transport s') = td_clients (srv_transport s) →
  td_max_clients (srv_transport s') = td_max_clients (srv_transport s) → srv_next_addr s <= srv_next_addr s' →
  server_wf s'.
Proof.
  intros [] Ed Ec Em Hn. constructor; rewrite ?Ed, ?Ec, ?Em; try done; [|lia].
  eapply List.Forall_impl; [|exact sv_addrs0]. cbn. lia.
Qed.

Lemma server_wf_add (s s' : server K) c e :
  server_wf s → zlen (td_clients (srv_transport s)) < td_max_clients (srv_transport s) →
  sk_session c = srv_next_addr s → sk_read_buf c = [] → se_client_fd e = sk_fd c → se_transport e = true →
  td_clients (srv_transport s') = td_clients (srv_transport s) ++ [c] →
  td_max_clients (srv_transport s') = td_max_clients (srv_transport s) → srv_next_addr s' = srv_next_addr s + 1 →
  dm_heap (srv_daemon s') = <[srv_next_addr s := e]> (dm_heap (srv_daemon s)) →
  m_sessions (dm_mgr (srv_daemon s')) = m_sessions (dm_mgr (srv_daemon s)) ++ [srv_next_addr s] →
  server_wf s'.
Proof.
  intros H Hroom Ea Eb Ef Et Ec Em En Eh Er.
  pose proof (server_wf_no_session s (srv_next_addr s) H ltac:(lia)) as Hnone.
  assert (Hnew : srv_next_addr s ∉ map sk_session (td_clients (srv_transport s))).
  { rewrite <- (sv_live s H). rewrite Hnone. by intros [? ?]. }
  destruct H. constructor; rewrite ?Ec, ?Em, ?En, ?Eh, ?Er, ?map_app; cbn [map]; rewrite ?Ea.
  - by rewrite sv_registry0.
  - apply list.NoDup_app. split_and!; [done| |apply list.NoDup_singleton].
    intros x Hx ->%list_elem_of_singleton. done.
  - intros a. rewrite elem_of_app, list_elem_of_singleton, <- sv_live0. destruct (decide (a = srv_next_addr s)) as [->|Hne].
    + rewrite lookup_insert_eq. split; [by right|by eexists].
    + rewrite lookup_insert_ne by done. split; [by left|]. by intros [?|?].
  - apply Forall_app_2.
    + rewrite list.Forall_forall in sv_conn0 |- *. intros x Hx. destruct (sv_conn0 x Hx) as (e' & He' & H1).
      exists e'. split; [|done]. rewrite lookup_insert_ne; [done|]. congruence.
    + constructor; [|constructor]. exists e. rewrite Ea, lookup_insert_eq. done.
  - apply Forall_app_2; [eapply List.Forall_impl; [|exact sv_addrs0]; cbn; lia|]. constructor; [lia|constructor].
  - lia.
  - rewrite zlen_snoc. lia.
  - done.
  - apply Forall_app_2; [done|]. constructor; [|constructor]. by rewrite Eb.
Qed.

Lemma server_wf_accept (s : server K) accepted tls watcher :
  server_wf s → server_wf (accept_callback s accepted tls watcher).
Proof.
  intros H. unfold accept_callback. destruct accepted as [fd|]; [|done].
  destruct (Z.leb_spec (td_max_clients (srv_transport s)) (zlen (td_clients (srv_transport s)))) as [|Hroom]; [done|].
  pose proof (server_wf_no_session s (srv_next_addr s) H ltac:(lia)) as Hnone.
  destruct tls as [tls|].
  2:{ cbn [client_create]. eapply server_wf_next; [exact H|by apply create_destroy|done|done|cbn; lia]. }
  cbn [client_create]. destruct watcher; cbn [negb].
  2:{ eapply server_wf_next; [exact H|by apply create_destroy|done|done|cbn; lia]. }
  eapply (server_wf_add s _ (mkSock fd (srv_next_addr s) tls [])); try done.
  3:{ cbn. unfold poseidon_channel_manager_register_session. cbn.
      pose proof (sv_next s H). rewrite (proj2 (Z.eqb_neq _ _)) by lia. rewrite (proj2 (Z.leb_gt _ _)); [done|].
      rewrite (sv_registry s H). unfold zlen in *. rewrite length_map. pose proof (sv_max s H). lia. }
  1: cbn; reflexivity. done.
Qed.

Lemma server_wf_remove (s s' : server K) i c :
  server_wf s → td_clients (srv_transport s) !! i = Some c →
  td_clients (srv_transport s') = swap_remove i (td_clients (srv_transport s)) →
  td_max_clients (srv_transport s') = td_max_clients (srv_transport s) → srv_next_addr s' = srv_next_addr s →
  dm_heap (srv_daemon s') = delete (sk_session c) (dm_heap (srv_daemon s)) →
  m_sessions (dm_mgr (srv_daemon s')) = swap_remove i (m_sessions (dm_mgr (srv_daemon s))) →
  server_wf s'.
Proof.
  intros H Hi Ec Em En Eh Er. pose proof (swap_remove_elem i _ c Hi) as P.
  pose proof (Permutation_map sk_session P) as Ps. cbn [map] in Ps.
  destruct H. rewrite Ps in sv_distinct0, sv_addrs0. apply list.NoDup_cons in sv_distinct0 as [Hout Hnd].
  apply Forall_cons_1 in sv_addrs0 as [_ Haddr]. rewrite P in sv_conn0, sv_bufs0.
  apply Forall_cons_1 in sv_conn0 as [_ Hconn]. apply Forall_cons_1 in sv_bufs0 as [_ Hbufs].
  constructor; rewrite ?Ec, ?Em, ?En, ?Eh, ?Er; try done.
  - by rewrite map_swap_remove, sv_registry0.
  - intros a. destruct (decide (a = sk_session c)) as [->|Hne].
    + rewrite lookup_delete_eq. split; [by intros [? ?]|done].
    + rewrite lookup_delete_ne by done. rewrite sv_live0, Ps, elem_of_cons. split; [by intros [?|?]|by right].
  - rewrite list.Forall_forall in Hconn |- *. intros x Hx. destruct (Hconn x Hx) as (e & He & Hr). exists e.
    split; [|done]. rewrite lookup_delete_ne; [done|]. intros E. apply Hout. rewrite E. by apply list_elem_of_fmap_2.
  - unfold zlen in *. rewrite swap_remove_length by by eapply lookup_lt_Some. lia.
Qed.

Lemma server_wf_disconnect XXH3 (s s' : server K) i c c0 :
  server_wf s → td_clients (srv_transport s) !! i = Some c → sk_session c0 = sk_session c →
  client_disconnect XXH3 s c0 = Ret s' → server_wf s'.
Proof.
  intros H Hi E0 E. unfold client_disconnect in E. rewrite E0 in E. apply bind_ret in E as (d1 & Hd & E).
  apply conns_cleanup in Hd as Hc. injection E as <-.
  assert (Hf : ∃ j c', find_index (client_is (sk_session c)) (td_clients (srv_transport s)) = Some j ∧
    td_clients (srv_transport s) !! j = Some c' ∧ sk_session c' = sk_session c).
  { destruct (find_index _ _) as [j|] eqn:Ej.
    - apply find_index_Some in Ej as (c' & Hj & Hc' & _). exists j, c'. split_and!; [done|done|].
      by apply Z.eqb_eq in Hc'.
    - exfalso. apply find_index_None in Ej. rewrite list.Forall_forall in Ej.
      specialize (Ej c (list_elem_of_lookup_2 _ _ _ Hi)). unfold client_is in Ej. by rewrite Z.eqb_refl in Ej. }
  destruct Hf as (j & c' & Ej & Hj & Es). rewrite Ej.
  assert (H1 : server_wf (srv_with_daemon s d1)) by (by eapply server_wf_frames; [exact H|..|apply H]).
  eapply (server_wf_remove (srv_with_daemon s d1) _ j c' H1 Hj); try done; cbn.
  - by rewrite Es.
  - pose proof (sv_registry _ H1) as Hr. cbn in Hr. unfold poseidon_channel_manager_unregister_session.
    pose proof (sv_addrs s H) as Ha. rewrite list.Forall_forall in Ha.
    assert (0 < sk_session c) by (apply Ha; apply list_elem_of_fmap_2; by eapply list_elem_of_lookup_2).
    rewrite (proj2 (Z.eqb_neq _ _)) by lia. rewrite Hr, find_index_map. unfold client_is in Ej. rewrite Ej. cbn. done.
Qed.

Lemma server_wf_empty (d : daemon_t K) maximum out w :
  m_sessions (dm_mgr d) = [] → dm_heap d = ∅ → 0 <= maximum <= POSEIDON_SESSION_REGISTRY_MAX →
  server_wf (mkServer (mkTransport [] maximum 1 true) 1 (mkServed d out w)).
Proof.
  intros Hr Hh Hm. constructor; cbn; try done; try (by constructor); try (unfold zlen; cbn; lia).
  intros a. rewrite Hh, lookup_empty, elem_of_nil. split; [by intros [? ?]|done].
Qed.

(** Dispatching an event touches live sessions only. *)
Lemma server_wf_dispatch (s : server K) topic publisher buf :
  server_wf s →
  dispatch_loop (srv_daemon s) (m_sessions (dm_mgr (srv_daemon s))) topic publisher buf =
    Ret (map (fun fd => (fd, buf)) (omap (receives (srv_daemon s) topic publisher) (m_sessions (dm_mgr (srv_daemon s))))).
Proof.
  intros H. apply dispatch_loop_spec. apply list.Forall_forall. intros a Ha. apply (sv_live s H).
  by rewrite <- (sv_registry s H).
Qed.

(** Who is written to. *)
Lemma dispatch_targets (s : server K) topic publisher (buf : list Z) fd b :
  server_wf s →
  (fd, b) ∈ map (fun fd => (fd, buf))
              (omap (receives (srv_daemon s) topic publisher) (m_sessions (dm_mgr (srv_daemon s)))) →
  b = buf ∧ fd ∈ map sk_fd (td_clients (srv_transport s)).
Proof.
  intros H. rewrite (sv_registry s H). intros (fd' & [= <- <-] & Hin)%list_elem_of_fmap. split; [done|].
  apply list_elem_of_omap in Hin as (a & Ha & Hrec). apply list_elem_of_fmap in Ha as (c & -> & Hc).
  pose proof (sv_conn s H) as F. rewrite list.Forall_forall in F. destruct (F c Hc) as (e & He & Hfd & _).
  unfold receives in Hrec. rewrite He in Hrec. destruct (_ && _); [|done]. injection Hrec as <-. rewrite Hfd.
  by apply list_elem_of_fmap_2.
Qed.
End table.

(** ** Events of the loop *)

Section loop.
Context {K : Type} `{!SignatureScheme K} `{!EqDecision K}.
Context (blake3 : list Z → list Z) (XXH3 : list Z → Z → Z) (clock : Z → Z * Z).
Context (DatagramSend : Z → list Z → bool) (time_us mono_us : world → Z).
Context (connect : Z → Z → option Z * bool).
Context (cbor_load : list Z → option cbor_item) (cbor_serialize_alloc : cbor_item → list Z).
Context (new_key : option K) (create : list Z → Z → exec (option (poseidon_channel_t K))).
Local Abbreviation serve := (serve_frame blake3 XXH3 clock DatagramSend time_us mono_us connect cbor_load
  cbor_serialize_alloc new_key create).
Local Abbreviation read_at := (read_callback_at blake3 XXH3 clock DatagramSend time_us mono_us connect cbor_load
  cbor_serialize_alloc new_key create).

Lemma serve_frame_conns fuel c (d0 : daemon_t K) st body st' :
  from_option (fun sd => same_conns d0 (sd_daemon sd)) True st → serve fuel c st body = Ret st' →
  from_option (fun sd => same_conns d0 (sd_daemon sd)) True st'.
Proof.
  intros H. unfold serve_frame. destruct st as [sd|]; [|by intros [= <-]]. cbn in H.
  destruct (cbor_load body) as [item|]; [|by intros [= <-]].
  intros ([frame|] & _ & E)%bind_ret; [|by injection E as <-]. unfold serve_request in E.
  pose proof (conns_request blake3 XXH3 clock DatagramSend time_us mono_us connect cbor_load cbor_serialize_alloc
    new_key create fuel (sd_daemon sd) (sk_session c) frame (sd_world sd)) as R.
  destruct (client_session_handle_request _ _ _ _ _ _ _ _ _ _ _ _ _ _ _ _) as [[o|]|]; [|done|by injection E as <-].
  injection E as <-. cbn in R |- *. by etrans.
Qed.

(** [recv] returns at most what it was asked for. *)
Definition recv_fits (s : server K) (i : nat) (e : sock_event) : Prop :=
  ∀ c bytes, td_clients (srv_transport s) !! i = Some c → ev_read e = Some (Some bytes) →
    zlen (sk_read_buf c) + zlen bytes <= UNIX_READ_BUF_SIZE.

Lemma server_wf_client_read fuel (s : server K) i c bytes s' :
  server_wf s → td_clients (srv_transport s) !! i = Some c → zlen (sk_read_buf c) + zlen bytes <= UNIX_READ_BUF_SIZE →
  client_read blake3 XXH3 clock DatagramSend time_us mono_us connect cbor_load cbor_serialize_alloc new_key create
    fuel s i c bytes = Some (Ret s') →
  server_wf s' ∧ ∃ buf, td_clients (srv_transport s') !! i = Some (sk_with_buf c buf).
Proof.
  intros H Hi Hroom E. unfold client_read in E.
  destruct (process_client_data _ _ _) as [[buf [sd|]]|] eqn:Ep; [|done|done]. injection E as <-.
  apply (process_frames_inv _ (from_option (fun sd => same_conns (srv_daemon s) (sd_daemon sd)) True)) in Ep as [Hc Hl];
    [|intros st b st'; apply serve_frame_conns|done].
  pose proof (lookup_lt_Some _ _ _ Hi). split.
  - eapply (server_wf_frames s _ H); try done; cbn.
    + change (map ?f) with (fmap (M := list) f). rewrite list_fmap_insert, list_insert_id; [done|].
      by rewrite list_lookup_fmap, Hi.
    + apply Forall_insert; [apply H|]. cbn. rewrite length_app in Hl. unfold zlen in *. lia.
  - exists buf. cbn. by rewrite list_lookup_insert_eq.
Qed.

Lemma server_wf_read fuel (s s' : server K) i e :
  server_wf s → recv_fits s i e → read_at fuel s i e = Some (Ret s') → server_wf s'.
Proof.
  intros H Hfit E. unfold read_callback_at in E.
  destruct (td_clients (srv_transport s) !! i) as [c|] eqn:Hi; [|by injection E as <-].
  assert (Hd : ∀ s1 c1, server_wf s1 → td_clients (srv_transport s1) !! i = Some c1 → sk_session c = sk_session c1 →
     (if ev_hangup e || ev_error e then lift (client_disconnect XXH3 s1 c) else Some (Ret s1)) = Some (Ret s') →
     server_wf s').
  { intros s1 c1 H1 Hi1 Es E1. destruct (_ || _); [|by injection E1 as <-].
    destruct (client_disconnect XXH3 s1 c) eqn:Ed; [|done]. injection E1 as <-.
    by eapply (server_wf_disconnect XXH3 s1). }
  destruct (ev_read e) as [[bytes|]|] eqn:Er.
  - specialize (Hfit c bytes Hi Er). destruct (client_read _ _ _ _ _ _ _ _ _ _ _ _ _ _ _ _) as [[s1|]|] eqn:Ec;
      [|done|done]. apply server_wf_client_read in Ec as [H1 [buf Hb]]; [|done..].
    by eapply (Hd s1 _ H1 Hb).
  - destruct (client_disconnect XXH3 s c) eqn:Ed; [|done]. injection E as <-. by eapply (server_wf_disconnect XXH3 s).
  - by eapply (Hd s c H Hi).
Qed.

(** What happens to a daemon with one transport: connections, reads, and the
    work of the other threads (periodic ticks, messages on the dial channel). *)
Inductive server_step (s : server K) : server K → Prop :=
| sstep_accept accepted tls watcher : server_step s (accept_callback s accepted tls watcher)
| sstep_read fuel i e s' : recv_fits s i e → read_at fuel s i e = Some (Ret s') → server_step s s'
| sstep_tick w r :
    poseidon_channel_manager_tick_all XXH3 mono_us (dm_mgr (srv_daemon s)) w = Ret r →
    server_step s (srv_with_daemon s (dm_with_mgr (srv_daemon s) r.2))
| sstep_message fuel data w r :
    dial_message_handler blake3 XXH3 time_us mono_us connect cbor_load cbor_serialize_alloc
      (dial_publish blake3 XXH3 clock DatagramSend time_us mono_us connect cbor_load cbor_serialize_alloc fuel)
      (dm_mgr (srv_daemon s)) data w = Some (Ret r) →
    server_step s (srv_with_daemon s (dm_with_mgr (srv_daemon s) r.1)).

Lemma server_wf_manager (s : server K) m :
  server_wf s → m_sessions m = m_sessions (dm_mgr (srv_daemon s)) →
  server_wf (srv_with_daemon s (dm_with_mgr (srv_daemon s) m)).
Proof. intros H Hm. eapply (server_wf_frames s _ H); [by apply conns_with_mgr|done..|apply H]. Qed.

Lemma server_step_wf (s s' : server K) : server_step s s' → server_wf s → server_wf s'.
Proof.
  intros Hs H. destruct Hs as [accepted tls watcher|fuel i e s' Hf E|w r E|fuel data w r E].
  - by apply server_wf_accept.
  - by eapply server_wf_read.
  - apply server_wf_manager; [done|]. unfold poseidon_channel_manager_tick_all in E.
    apply bind_ret in E as ([? d] & _ & E). apply bind_ret in E as ([? l] & _ & E). injection E as <-. done.
  - apply server_wf_manager; [done|].
    pose proof (registry_message blake3 XXH3 time_us mono_us connect cbor_load cbor_serialize_alloc
      (m_sessions (dm_mgr (srv_daemon s))) _ (registry_dial_publish blake3 XXH3 clock DatagramSend time_us mono_us
      connect cbor_load cbor_serialize_alloc _ fuel) (dm_mgr (srv_daemon s)) data w eq_refl) as R. by rewrite E in R.
Qed.

(** The limit of the table is fixed. *)
Lemma server_step_max (s s' : server K) :
  server_step s s' → td_max_clients (srv_transport s') = td_max_clients (srv_transport s).
Proof.
  intros Hs. destruct Hs as [accepted tls watcher|fuel i e s' Hf E|w r E|fuel data w r E]; try done.
  - unfold accept_callback. destruct accepted; [|done]. destruct (_ <=? _); [done|].
    destruct tls; [|done]. by destruct watcher.
  - assert (Hd : ∀ (s1 : server K) c1 (s2 : server K), client_disconnect XXH3 s1 c1 = Ret s2 →
      td_max_clients (srv_transport s2) = td_max_clients (srv_transport s1)).
    { intros s1 c1 s2. unfold client_disconnect. intros (d1 & _ & [= <-])%bind_ret. done. }
    assert (Hc : ∀ c bytes (s1 : server K), client_read blake3 XXH3 clock DatagramSend time_us mono_us connect cbor_load
        cbor_serialize_alloc new_key create fuel s i c bytes = Some (Ret s1) →
        td_max_clients (srv_transport s1) = td_max_clients (srv_transport s)).
    { intros c bytes s1. unfold client_read. destruct (process_client_data _ _ _) as [[? [?|]]|]; [|done|done].
      by intros [= <-]. }
    unfold read_callback_at in E. destruct (_ !! i) as [c|]; [|by injection E as <-].
    destruct (ev_read e) as [[bytes|]|].
    + destruct (client_read _ _ _ _ _ _ _ _ _ _ _ _ _ _ _ _) as [[s1|]|] eqn:Ec; [|done|done]. cbn [rbind] in E.
      rewrite <- (Hc _ _ _ Ec). destruct (_ || _); [|by injection E as <-].
      destruct (client_disconnect XXH3 s1 c) eqn:Ed; [|done]. injection E as <-. by eapply Hd.
    + destruct (client_disconnect XXH3 s c) eqn:Ed; [|done]. injection E as <-. by eapply Hd.
    + cbn [rbind] in E. destruct (_ || _); [|by injection E as <-].
      destruct (client_disconnect XXH3 s c) eqn:Ed; [|done]. injection E as <-. by eapply Hd.
Qed.
End loop.

(** C21. Registry, client table and sessions agree in a daemon with one socket
    transport that is not stopped: from a daemon without clients, after any
    sequence of connections, failed handshakes, reads (with every request they
    carry), hang-ups, errors, ticks and messages on the dial channel, the registered
    sessions are exactly those of the connected clients and exactly those in
    memory, no client exceeds its read buffer, the table stays within its limit,
    and dispatching an event reads no freed session and writes only to descriptors
    of connected clients. *)
Theorem transport_sessions_live {K} `{!SignatureScheme K} `{!EqDecision K} blake3 XXH3 clock send time mono conn load
    ser new_key create (d : daemon_t K) maximum out w s :
  m_sessions (dm_mgr d) = [] → dm_heap d = ∅ → 0 <= maximum <= POSEIDON_SESSION_REGISTRY_MAX →
  rtc (server_step blake3 XXH3 clock send time mono conn load ser new_key create)
    (mkServer (mkTransport [] maximum 1 true) 1 (mkServed d out w)) s →
  m_sessions (dm_mgr (srv_daemon s)) = map sk_session (td_clients (srv_transport s)) ∧
  base.NoDup (map sk_session (td_clients (srv_transport s))) ∧
  (∀ a, is_Some (dm_heap (srv_daemon s) !! a) ↔ a ∈ map sk_session (td_clients (srv_transport s))) ∧
  zlen (td_clients (srv_transport s)) <= maximum ∧
  Forall (fun c => zlen (sk_read_buf c) <= UNIX_READ_BUF_SIZE) (td_clients (srv_transport s)) ∧
  ∀ topic publisher buf, ∃ writes,
    dispatch_loop (srv_daemon s) (m_sessions (dm_mgr (srv_daemon s))) topic publisher buf = Ret writes ∧
    ∀ fd b, (fd, b) ∈ writes → b = buf ∧ fd ∈ map sk_fd (td_clients (srv_transport s)).
Proof.
  intros Hr Hh Hm Hs. pose proof (server_wf_empty d maximum out w Hr Hh Hm) as H.
  assert (Hw : server_wf s ∧ td_max_clients (srv_transport s) = maximum).
  { apply (rtc_ind_r (fun x => server_wf x ∧ td_max_clients (srv_transport x) = maximum) _ (conj H eq_refl)) in Hs;
      [done|]. intros x y _ Hxy [Hx Hmax]. split; [by eapply server_step_wf|]. rewrite <- Hmax. by eapply server_step_max. }
  destruct Hw as [Hw Hmax]. pose proof (sv_room s Hw). split_and!; try apply Hw; [lia|].
  intros topic publisher buf. eexists. split; [by apply server_wf_dispatch|].
  intros fd b Hin. by apply (dispatch_targets s topic publisher buf fd b Hw).
Qed.

(** ** Witness and limits *)

(** A daemon with the channel "chan" and no clients. *)
Definition demo_idle : daemon_t (list Z) := mkDaemon (m_with_channels (demo_manager [] [] []) [(1, demo_chan)]) ∅.

Definition demo_server : server (list Z) :=
  mkServer (mkTransport [] UNIX_MAX_CLIENTS 1 true) 1 (mkServed demo_idle [] (mkWorld 0 [])).

(** Two clients connect, on descriptors 7 and 8. *)
Definition demo_connected : server (list Z) :=
  accept_callback (accept_callback demo_server (Some 7) (Some false) true) (Some 8) (Some true) true.

Lemma transport_sessions_live_witness :
  m_sessions (dm_mgr (srv_daemon demo_connected)) = [1; 2] ∧
  ∀ topic publisher buf, ∃ writes,
    dispatch_loop (srv_daemon demo_connected) (m_sessions (dm_mgr (srv_daemon demo_connected))) topic publisher buf =
      Ret writes.
Proof.
  destruct (transport_sessions_live toy_blake3 (fun _ s => s) (fun g => (0, g)) (fun _ _ => true) (fun _ => 0)
    (fun _ => 0) (fun _ _ => (None, false)) cbor_load cbor_serialize_alloc None (fun _ _ => Ret None)
    demo_idle UNIX_MAX_CLIENTS [] (mkWorld 0 []) demo_connected) as (Hr & _ & _ & _ & _ & Hd).
  - reflexivity.
  - reflexivity.
  - vm_compute. split; discriminate.
  - eapply rtc_l; [apply (sstep_accept _ _ _ _ _ _ _ _ _ _ _ demo_server (Some 7) (Some false) true)|].
    eapply rtc_l; [apply (sstep_accept _ _ _ _ _ _ _ _ _ _ _ _ (Some 8) (Some true) true)|]. apply rtc_refl.
  - split; [exact Hr|]. intros topic publisher buf. destruct (Hd topic publisher buf) as (writes & E & _).
    exists writes. exact E.
Defined.

(** Stopping a transport frees the sessions and leaves them registered: the
    next event dispatched by the daemon reads freed memory. *)
Lemma transport_stop_dangles :
  let s := transport_stop demo_connected in
  m_sessions (dm_mgr (srv_daemon s)) = [1; 2] ∧ dm_heap (srv_daemon s) = ∅ ∧
  ∀ topic publisher buf, dispatch_loop (srv_daemon s) (m_sessions (dm_mgr (srv_daemon s))) topic publisher buf = Trap.
Proof. split; [reflexivity|]. split; [by vm_compute|]. intros. by vm_compute. Qed.

(** A client that speaks TLS gets its answers through TLS and its events in
    the clear, on the same descriptor. *)
Lemma tls_events_in_clear c data :
  sk_tls c = true →
  send_response c data = Tls (sk_fd c) (frame_bytes data) ∧ transport_send (sk_fd c) data = Plain (sk_fd c) (frame_bytes data).
Proof. intros H. unfold send_response. by rewrite H. Qed.
