(* ===== verification/WebSocketTheorems.v ===== *)
(** * WebSocketTheorems: frames over a WebSocket

    The frame format of RFC 6455 as the peer writes it, that the parser of the
    transport reads it whatever the pieces in which it arrives, when the parser is
    safe and when it is not, and the table of clients. *)

From stdpp Require Import gmap.
From S2P Require Import Prelude CString Bitset Bloom ElasticBloom AttenuatedBloom Cbor CborWire Endian Base58.
From S2P Require Import MessageId Node NodeId Packet ChannelPacket Subtopic TopicAlias Notice Ring Route Protocol.
From S2P Require Import Quasar Channel ChannelManager ManagerTheorems ClientProtocol ClientStream ClientSession.
From S2P Require Import SessionTheorems Transport WebSocket TransportTheorems.

(** ** The frame format *)

Definition rfc_mask_bit (key : option (list Z)) : Z := match key with Some _ => 128 | None => 0 end.

(** The second byte, the extended length. *)
Definition rfc_length (key : option (list Z)) (len : Z) : list Z :=
  if len <=? 125 then [rfc_mask_bit key + len]
  else if len <=? 65535 then [rfc_mask_bit key + 126; len / 256; len mod 256]
  else (rfc_mask_bit key + 127) :: map (fun i => len / 2 ^ (8 * i) mod 256) [7; 6; 5; 4; 3; 2; 1; 0].

(** A frame: flags and opcode, the masking key if any, the payload. *)
Record ws_msg := mkMsg {
  wm_flags : Z;
  wm_opcode : Z;
  wm_key : option (list Z);
  wm_payload : list Z
}.

Definition rfc_header (m : ws_msg) : list Z :=
  (wm_flags m * 16 + wm_opcode m) :: rfc_length (wm_key m) (zlen (wm_payload m)) ++ default [] (wm_key m).

Definition rfc_payload (m : ws_msg) : list Z :=
  match wm_key m with Some key => xor_mask key 0 (wm_payload m) | None => wm_payload m end.

Definition rfc_frame (m : ws_msg) : list Z := rfc_header m ++ rfc_payload m.

(** Frames the read buffer has room for. *)
Record msg_ok (m : ws_msg) : Prop := {
  mo_flags : 0 <= wm_flags m < 16;
  mo_opcode : 0 <= wm_opcode m < 16;
  mo_key : from_option (fun k => length k = 4%nat) True (wm_key m);
  mo_payload : bytes_ok (wm_payload m);
  mo_fits : zlen (rfc_frame m) <= WS_READ_BUF_SIZE
}.

Lemma xor_mask_length key i p : length (xor_mask key i p) = length p.
Proof. revert i. induction p as [|b p IH]; intros i; [done|]. cbn. by rewrite IH. Qed.

Lemma xor_mask_involutive key i p : xor_mask key i (xor_mask key i p) = p.
Proof.
  revert i. induction p as [|b p IH]; intros i; [done|]. cbn [xor_mask]. rewrite IH. f_equal.
  by rewrite Z.lxor_assoc, Z.lxor_nilpotent, Z.lxor_0_r.
Qed.

Lemma rfc_payload_length m : length (rfc_payload m) = length (wm_payload m).
Proof. unfold rfc_payload. destruct (wm_key m); [apply xor_mask_length|done]. Qed.

(** *** The length *)

Lemma land_127 x : Z.land x 127 = x mod 128.
Proof. change 127 with (Z.ones 7). by rewrite Z.land_ones. Qed.

Lemma land_255 x : Z.land x 255 = x mod 256.
Proof. change 255 with (Z.ones 8). by rewrite Z.land_ones. Qed.

Lemma land_15 x : Z.land x 15 = x mod 16.
Proof. change 15 with (Z.ones 4). by rewrite Z.land_ones. Qed.

Lemma shift_in len j k :
  is_u64 len → 0 <= j < 8 → k = j + 1 →
  Z.lor (u64 (Z.shiftl (len / 2 ^ (8 * k)) 8)) (len / 2 ^ (8 * j) mod 256) = len / 2 ^ (8 * j).
Proof.
  intros [H0 H] Hj ->. assert (Hp : 0 < 2 ^ (8 * j)) by (apply Z.pow_pos_nonneg; lia).
  assert (E : 2 ^ (8 * (j + 1)) = 2 ^ (8 * j) * 256) by (replace (8 * (j + 1)) with (8 * j + 8) by lia; rewrite Z.pow_add_r; lia).
  rewrite E, <- Z.div_div by lia. set (q := len / 2 ^ (8 * j)).
  assert (Hq : 0 <= q <= len) by (split; [apply Z.div_pos; lia|apply Z.div_le_upper_bound; nia]).
  rewrite u64_id by (unfold is_u64; rewrite Z.shiftl_mul_pow2 by lia; Z.div_mod_to_equations; lia).
  rewrite lor_shiftl_add by (try apply Z.mod_pos_bound; lia). Z.div_mod_to_equations. lia.
Qed.

Lemma read_length64 len b0 b1 rest :
  is_u64 len →
  fold_left (fun acc i => Z.lor (u64 (Z.shiftl acc 8))
    (byte_at (b0 :: b1 :: map (fun i => len / 2 ^ (8 * i) mod 256) [7; 6; 5; 4; 3; 2; 1; 0] ++ rest) (2 + i)))
    [0; 1; 2; 3; 4; 5; 6; 7] 0 = len.
Proof.
  intros H. cbn [fold_left map app]. unfold byte_at.
  repeat match goal with |- context [Z.to_nat (2 + ?i)] =>
    let n := eval vm_compute in (Z.to_nat (2 + i)) in change (Z.to_nat (2 + i)) with n end.
  cbn [lookup list_lookup default from_option id].
  assert (E : 0 = len / 2 ^ (8 * 8)) by (symmetry; apply Z.div_small; unfold is_u64 in H; lia).
  rewrite E at 1.
  rewrite (shift_in len 7 8), (shift_in len 6 7), (shift_in len 5 6), (shift_in len 4 5), (shift_in len 3 4), (shift_in len 2 3),
    (shift_in len 1 2), (shift_in len 0 1) by (done || lia).
  apply Z.div_1_r.
Qed.

(** The server writes the same format, without a mask. *)
Lemma ws_length_rfc len : is_u64 len → ws_length len = rfc_length None len.
Proof.
  intros H. unfold ws_length, rfc_length. cbn [rfc_mask_bit].
  destruct (Z.leb_spec len 125).
  { rewrite u8_id; [done|]. unfold is_u8, is_u64 in *. lia. }
  assert (E : ∀ k, 0 <= k → u8 (Z.land (Z.shiftr len k) 255) = len / 2 ^ k mod 256).
  { intros k Hk. unfold u8. rewrite land_255, Z.shiftr_div_pow2 by lia. apply Z.mod_mod. lia. }
  destruct (Z.leb_spec len 65535).
  - f_equal. f_equal; [|f_equal].
    + rewrite Z.shiftr_div_pow2 by lia. apply u8_id. unfold is_u8. Z.div_mod_to_equations. lia.
    + specialize (E 0). rewrite Z.shiftr_0_r, Z.div_1_r in E. apply E. lia.
  - cbn [map]. rewrite !E by lia. done.
Qed.

(** *** The header *)

Definition is_masked (m : ws_msg) : bool := match wm_key m with Some _ => true | None => false end.

Definition header_of (m : ws_msg) : ws_header :=
  mkWsHeader (wm_opcode m) (is_masked m) (zlen (wm_payload m)) (zlen (rfc_header m)) (default [] (wm_key m)).

(** The bytes between the length and the payload start at [length_end]. *)
Definition length_end (len : Z) : Z := if len <=? 125 then 2 else if len <=? 65535 then 4 else 10.

Lemma rfc_length_length key len : zlen (rfc_length key len) = length_end len - 1.
Proof. unfold rfc_length, length_end. by repeat destruct (_ <=? _). Qed.

Lemma length_end_range len : 2 <= length_end len <= 10.
Proof. unfold length_end. repeat destruct (_ <=? _); lia. Qed.

Lemma mask_bit_mod key x : 0 <= x < 128 → (rfc_mask_bit key + x) mod 128 = x.
Proof. unfold rfc_mask_bit. intros H. destruct key; Z.div_mod_to_equations; lia. Qed.

Lemma mask_bit_test key x :
  0 <= x < 128 → negb (Z.land (rfc_mask_bit key + x) 128 =? 0) = match key with Some _ => true | None => false end.
Proof.
  intros H. change 128 with (Z.shiftl 1 7). rewrite land_bit_test by lia.
  destruct key; cbn [rfc_mask_bit].
  - rewrite Z.testbit_true by lia. change (2 ^ 7) with 128. Z.div_mod_to_equations. lia.
  - rewrite Z.testbit_false by lia. change (2 ^ 7) with 128. Z.div_mod_to_equations. lia.
Qed.

(** The second byte of a header and what it says. *)
Lemma second_byte b0 key len rest :
  0 <= len →
  ∃ x, byte_at (b0 :: rfc_length key len ++ rest) 1 = rfc_mask_bit key + x ∧ 0 <= x < 128 ∧
    x = (if len <=? 125 then len else if len <=? 65535 then 126 else 127).
Proof.
  intros H. unfold rfc_length. destruct (Z.leb_spec len 125); [by exists len; split_and!; try lia|].
  destruct (_ <=? _); [by exists 126|by exists 127].
Qed.

Lemma payload_len_full b0 key len rest n :
  is_u64 len → length_end len <= n →
  ws_payload_len (b0 :: rfc_length key len ++ rest) n = Some (len, length_end len).
Proof.
  intros H Hn. unfold ws_payload_len. destruct (second_byte b0 key len rest) as (x & Eb & Hx & Ex); [apply H|].
  rewrite Eb, land_127, mask_bit_mod by done. unfold length_end in *. subst x. unfold rfc_length.
  destruct (Z.leb_spec len 125).
  { rewrite (proj2 (Z.eqb_neq _ _)), (proj2 (Z.eqb_neq _ _)) by lia. done. }
  destruct (Z.leb_spec len 65535); cbn [Z.eqb Pos.eqb].
  - rewrite (proj2 (Z.ltb_ge n 4)) by lia. change (byte_at _ 2) with (len / 256). change (byte_at _ 3) with (len mod 256).
    rewrite lor_shiftl_add by (try apply Z.mod_pos_bound; lia). repeat f_equal. Z.div_mod_to_equations. lia.
  - rewrite (proj2 (Z.ltb_ge n 10)) by lia. repeat f_equal. cbn [app]. by apply read_length64.
Qed.

Lemma rfc_header_app m rest :
  rfc_header m ++ rest =
    (wm_flags m * 16 + wm_opcode m) :: rfc_length (wm_key m) (zlen (wm_payload m)) ++ default [] (wm_key m) ++ rest.
Proof. unfold rfc_header. cbn [app]. by rewrite <- (assoc_L (++)). Qed.

Lemma rfc_header_length m : zlen (rfc_header m) = length_end (zlen (wm_payload m)) + zlen (default [] (wm_key m)).
Proof. unfold rfc_header. rewrite zlen_cons, zlen_app, rfc_length_length. lia. Qed.

Lemma rfc_frame_length m : zlen (rfc_frame m) = zlen (rfc_header m) + zlen (wm_payload m).
Proof. unfold rfc_frame. rewrite zlen_app. unfold zlen at 2. by rewrite rfc_payload_length. Qed.

Lemma key_length m : msg_ok m → zlen (default [] (wm_key m)) = if is_masked m then 4 else 0.
Proof. intros H. pose proof (mo_key m H) as Hk. unfold is_masked. destruct (wm_key m); [|done]. cbn in *. unfold zlen. by rewrite Hk. Qed.

Lemma payload_u64 m : msg_ok m → is_u64 (zlen (wm_payload m)).
Proof.
  intros H. pose proof (mo_fits m H) as Hf. rewrite rfc_frame_length in Hf. pose proof (zlen_nonneg (rfc_header m)).
  pose proof (zlen_nonneg (wm_payload m)). unfold is_u64, WS_READ_BUF_SIZE in *. lia.
Qed.

Lemma header_drop m rest k :
  k = length_end (zlen (wm_payload m)) → drop (Z.to_nat k) (rfc_header m ++ rest) = default [] (wm_key m) ++ rest.
Proof.
  intros ->. rewrite rfc_header_app.
  change (?b :: ?l ++ ?r) with ((b :: l) ++ r). apply drop_app_length'.
  pose proof (rfc_length_length (wm_key m) (zlen (wm_payload m))) as E. unfold zlen at 1 in E. cbn [length]. lia.
Qed.

Lemma header_opcode m : msg_ok m → Z.land (wm_flags m * 16 + wm_opcode m) 15 = wm_opcode m.
Proof. intros H. destruct H. rewrite land_15. Z.div_mod_to_equations. lia. Qed.

Lemma header_masked m rest :
  negb (Z.land (byte_at (rfc_header m ++ rest) 1) 128 =? 0) = is_masked m.
Proof.
  rewrite rfc_header_app. destruct (second_byte (wm_flags m * 16 + wm_opcode m) (wm_key m) (zlen (wm_payload m))
    (default [] (wm_key m) ++ rest) (zlen_nonneg _)) as (x & -> & Hx & _). by apply mask_bit_test.
Qed.

Lemma parse_full m rest n :
  msg_ok m → zlen (rfc_header m) <= n → ws_parse_header (rfc_header m ++ rest) n = Some (header_of m).
Proof.
  intros H Hn. pose proof (rfc_header_length m) as El. pose proof (length_end_range (zlen (wm_payload m))).
  pose proof (key_length m H) as Ek. pose proof (zlen_nonneg (default [] (wm_key m))).
  unfold ws_parse_header. rewrite (proj2 (Z.ltb_ge n 2)) by lia. rewrite header_masked.
  rewrite rfc_header_app. rewrite payload_len_full by (try apply payload_u64; done || lia).
  rewrite <- rfc_header_app. change (byte_at (rfc_header m ++ rest) 0) with (wm_flags m * 16 + wm_opcode m).
  rewrite header_opcode by done. unfold header_of. destruct (is_masked m) eqn:Em.
  - rewrite (proj2 (Z.ltb_ge _ _)) by lia. rewrite header_drop by done. do 2 f_equal; [lia|].
    apply take_app_length'. unfold zlen in Ek. lia.
  - do 2 f_equal; [lia|]. unfold is_masked in Em. by destruct (wm_key m).
Qed.

Lemma app_split {A} (l k v w : list A) :
  l ++ k = v ++ w → zlen l <= zlen v → ∃ v', v = l ++ v' ∧ k = v' ++ w.
Proof.
  unfold zlen. intros E H. apply app_eq_inv in E as [(x & -> & ->)|(x & -> & ->)]; [|by exists x].
  rewrite length_app in H. destruct x; [|cbn in H; lia]. exists []. by rewrite !app_nil_r.
Qed.

(** A header that is not complete is not acted upon, whatever the rest of the
    array holds. *)
Lemma parse_short m v w stale :
  msg_ok m → rfc_header m = v ++ w → w ≠ [] → ws_parse_header (v ++ stale) (zlen v) = None.
Proof.
  intros H E Hw. unfold ws_parse_header. destruct (Z.ltb_spec (zlen v) 2) as [|H2]; [done|].
  destruct v as [|b0 [|b1 v]]; [by (unfold zlen in H2; cbn in H2; lia)..|].
  pose proof (header_masked m []) as Em. rewrite app_nil_r, E in Em. change (byte_at ((b0 :: b1 :: v) ++ w) 1) with b1 in Em.
  change (byte_at ((b0 :: b1 :: v) ++ stale) 1) with b1. rewrite Em.
  set (len := zlen (wm_payload m)) in *. pose proof (rfc_length_length (wm_key m) len) as Er.
  destruct (Z.leb_spec (length_end len) (zlen (b0 :: b1 :: v))) as [Hle|Hgt].
  - destruct (app_split (wm_flags m * 16 + wm_opcode m :: rfc_length (wm_key m) len) (default [] (wm_key m)) (b0 :: b1 :: v) w)
      as (v' & Ev & Ek); [by rewrite <- E|rewrite zlen_cons; lia|].
    rewrite Ev. cbn [app]. rewrite <- (assoc_L (++)), payload_len_full.
    + pose proof (key_length m H) as Hk. rewrite Ek, zlen_app in Hk. pose proof (zlen_nonneg v').
      assert (0 < zlen w) by (destruct w; [done|]; rewrite zlen_cons; pose proof (zlen_nonneg w); lia).
      destruct (is_masked m); [|lia]. change (?b :: ?l ++ ?r) with ((b :: l) ++ r).
      by rewrite (proj2 (Z.ltb_lt _ _)) by (rewrite zlen_app, zlen_cons; lia).
    + by apply payload_u64.
    + change (?b :: ?l ++ ?r) with ((b :: l) ++ r). rewrite <- Ev. done.
  - unfold ws_payload_len. change (byte_at ((b0 :: b1 :: v) ++ stale) 1) with b1.
    destruct (second_byte (wm_flags m * 16 + wm_opcode m) (wm_key m) len (default [] (wm_key m))) as (x & Eb & Hx & Ex);
      [apply zlen_nonneg|]. change (_ :: ?l ++ ?r) with (rfc_header m) in Eb. rewrite E in Eb.
    change (byte_at ((b0 :: b1 :: v) ++ w) 1) with b1 in Eb. rewrite Eb, land_127, mask_bit_mod by done.
    unfold length_end in Hgt. subst x. destruct (len <=? 125); [lia|].
    destruct (len <=? 65535); cbn [Z.eqb Pos.eqb]; by rewrite (proj2 (Z.ltb_lt _ _)) by done.
Qed.

(** ** The parser *)

(** The valid bytes of the read buffer. *)
Definition ws_holds (c : ws_client_t) (v : list Z) : Prop :=
  zlen (wc_read_buf c) = WS_READ_BUF_SIZE ∧ wc_read_len c = zlen v ∧ ∃ stale, wc_read_buf c = v ++ stale.

Definition ws_conn (c : ws_client_t) : Z * bool * Z * bool := (wc_fd c, wc_tls c, wc_session c, wc_ws_upgraded c).

Lemma ws_write_conn c c' bytes : ws_conn c = ws_conn c' → ws_write c bytes = ws_write c' bytes.
Proof. intros [= Ef Et _ _]. unfold ws_write. by rewrite Ef, Et. Qed.

Lemma slice_mid (a b r : list Z) : slice (a ++ b ++ r) (zlen a) (zlen b) = Ret b.
Proof.
  unfold slice. rewrite (proj2 (Z.ltb_ge _ _)) by (rewrite !zlen_app; pose proof (zlen_nonneg r); lia).
  unfold zlen. rewrite !Nat2Z.id, drop_app_length. by rewrite take_app_length.
Qed.

Lemma ws_consume_holds c v rest :
  ws_holds c (v ++ rest) → ws_holds (ws_consume c (zlen v)) rest.
Proof.
  intros (Hl & Hr & stale & Eb). rewrite zlen_app in Hr. unfold ws_holds, ws_consume. cbn [wc_read_buf wc_read_len wc_with_buf].
  rewrite Hr, Eb. replace (zlen v + zlen rest - zlen v) with (zlen rest) by lia.
  replace (Z.to_nat (zlen rest)) with (length rest) by (unfold zlen; lia).
  replace (Z.to_nat (zlen v)) with (length v) by (unfold zlen; lia).
  rewrite <- (assoc_L (++)), drop_app_length, take_app_length. split_and!; [|done|by eexists].
  rewrite <- Hl, Eb. unfold zlen. rewrite !length_app, length_drop, !length_app. lia.
Qed.

(** The message in a binary frame: a length prefix and that many bytes. *)
Definition ws_body (payload : list Z) : option (list Z) :=
  if zlen payload <? WS_FRAME_HEADER_SIZE then None
  else match read_frame_header payload with
       | Ret (true, len) => if len <=? zlen payload - WS_FRAME_HEADER_SIZE then Some (take (Z.to_nat len) (drop 4 payload)) else None
       | _ => None
       end.

Lemma read_frame_header_app payload rest :
  WS_FRAME_HEADER_SIZE <= zlen payload →
  read_frame_header (payload ++ rest) = read_frame_header payload ∧
  ∃ ok len, read_frame_header payload = Ret (ok, len) ∧ (ok = true → 0 <= len).
Proof.
  unfold WS_FRAME_HEADER_SIZE, zlen. intros H. do 4 (destruct payload as [|? payload]; [cbn in H; lia|]).
  split; [done|]. cbn [read_frame_header]. eexists _, _. split; [done|]. intros [Ho _]%andb_true_iff. lia.
Qed.

(** ** The upgrade request *)

Lemma memmem_bound h n i : memmem h n = Some i → (i + length n <= length h)%nat.
Proof.
  revert i. induction h as [|x h IH]; intros i; cbn [memmem]; case_bool_decide as E.
  - intros [= <-]. rewrite take_nil in E. rewrite <- E. done.
  - done.
  - intros [= <-]. apply (f_equal length) in E. rewrite length_take in E. cbn in E |- *. lia.
  - intros (j & Hj & ->)%fmap_Some. apply IH in Hj. cbn. lia.
Qed.

(** Bytes behind the haystack do not change the first occurrence. *)
Lemma memmem_app h r n i : memmem h n = Some i → memmem (h ++ r) n = Some i.
Proof.
  revert i. induction h as [|x h IH]; intros i H; pose proof (memmem_bound _ _ _ H) as Hb; cbn [memmem] in H.
  - case_bool_decide as E; [|done]. injection H as <-. cbn in Hb. destruct n; [|cbn in Hb; lia]. by destruct r.
  - cbn [app memmem]. rewrite <- (take_app_le (x :: h) r (length n)) in H by (cbn in *; lia). cbn [app] in H.
    case_bool_decide; [done|]. apply fmap_Some in H as (j & Hj & ->). by rewrite (IH j Hj).
Qed.

(** What the server takes for an upgrade: the blank line at the end, the two
    header fields, no zero byte. *)
Definition upgrade_request (req : list Z) : bool :=
  bool_decide (memmem req (CRLF ++ CRLF) = Some (length req - 4)%nat) &&
  (bool_decide (is_Some (memmem req (lit "Upgrade: websocket"))) || bool_decide (is_Some (memmem req (lit "Upgrade: WebSocket")))) &&
  match memmem req (lit "Sec-WebSocket-Key:") with Some k => (k + 18 <=? length req - 4)%nat | None => false end &&
  forallb (fun b => (0 <? b) && (b <? 256)) req.

Lemma memmem_at h n i : memmem h n = Some i → take (length n) (drop i h) = n.
Proof.
  revert i. induction h as [|x h IH]; intros i; cbn [memmem]; case_bool_decide as E; try done.
  - by intros [= <-].
  - by intros [= <-].
  - intros (j & Hj & ->)%fmap_Some. cbn [drop]. by apply IH.
Qed.

Lemma skip_spaces_suffix x y : ∃ x', x' `suffix_of` x ∧ skip_spaces (x ++ 13 :: y) = Ret (x' ++ 13 :: y).
Proof.
  induction x as [|b x (x' & Hs & E)]; [by exists []|]. cbn [app skip_spaces]. destruct (b =? 32).
  - exists x'. split; [by apply suffix_cons_r|done].
  - by exists (b :: x).
Qed.

Lemma strstr_crlf_found x y : Forall (fun b => 0 < b) x → strstr_crlf (x ++ 13 :: 10 :: y) = Ret true.
Proof.
  induction x as [|b x IH]; intros H; [done|]. apply Forall_cons_1 in H as [Hb H]. cbn [app strstr_crlf].
  rewrite (proj2 (Z.eqb_neq _ _)) by lia. rewrite (IH H). destruct (b =? 13); [|done].
  destruct x as [|b' x]; cbn [app]; [done|]. destruct (b' =? 10); done.
Qed.

Lemma lit_length_key : length (lit "Sec-WebSocket-Key:") = 18%nat.
Proof. done. Qed.

(** A complete request is accepted, whatever follows it. *)
Lemma upgrade_accepts {St} (emit : St → write → St) c req rest s :
  upgrade_request req = true → ws_holds c (req ++ rest) →
  ∃ c', ws_holds c' rest ∧ ws_conn c' = ws_conn (wc_with_upgraded c) ∧
    handle_ws_upgrade emit c s = Ret (Some (c', emit s (ws_write c WS_UPGRADE_RESPONSE))).
Proof.
  unfold upgrade_request. rewrite !andb_true_iff, orb_true_iff, !bool_decide_eq_true.
  intros [[[Hend Hup] Hkey] Hbytes] Hc. pose proof Hc as (Hl & Hr & stale & Eb).
  destruct (memmem req (lit "Sec-WebSocket-Key:")) as [k|] eqn:Ek; [|done]. apply Nat.leb_le in Hkey.
  pose proof (memmem_bound _ _ _ Hend) as Hlen. cbn [length app CRLF] in Hlen.
  assert (Hreq : req = take (length req - 4) req ++ CRLF ++ CRLF).
  { pose proof (memmem_at _ _ _ Hend) as Hat. rewrite take_ge in Hat by (rewrite length_drop; cbn; lia).
    rewrite <- Hat. by rewrite take_drop. }
  assert (Ev : take (Z.to_nat (wc_read_len c)) (wc_read_buf c) = req ++ rest).
  { rewrite Eb, Hr. apply take_app_length'. unfold zlen. lia. }
  set (x := drop (k + 18) (take (length req - 4) req)).
  assert (Ek' : drop (k + 18) (wc_read_buf c) = x ++ 13 :: 10 :: CRLF ++ rest ++ stale).
  { rewrite Eb, Hreq, <- !(assoc_L (++)). rewrite drop_app_le by (rewrite length_take; lia). done. }
  destruct (skip_spaces_suffix x (10 :: CRLF ++ rest ++ stale)) as (x' & Hx' & Esk).
  assert (Hpos : Forall (fun b => 0 < b) x').
  { assert (Hx : Forall (fun b => 0 < b) x).
    { apply Forall_drop, Forall_take, list.Forall_forall. intros b Hb%list_elem_of_In. rewrite forallb_forall in Hbytes.
      apply Hbytes, andb_true_iff in Hb. lia. }
    destruct Hx' as [z Ez]. rewrite Ez in Hx. by apply Forall_app in Hx as [_ Hx]. }
  unfold handle_ws_upgrade. rewrite Ev, (memmem_app _ _ _ _ Hend), (memmem_app _ _ _ _ Ek), Ek', Esk.
  rewrite bind_Ret_l, strstr_crlf_found, bind_Ret_l by done. cbn [negb].
  exists (wc_with_upgraded (ws_consume c (Z.of_nat (length req - 4) + 4))). split_and!; [|done|].
  - replace (Z.of_nat (length req - 4) + 4) with (zlen req) by (unfold zlen; lia).
    exact (ws_consume_holds c req rest Hc).
  - destruct Hup as [[j Hj]|[j Hj]]; rewrite (memmem_app _ _ _ _ Hj); [done|].
    by destruct (memmem (req ++ rest) (lit "Upgrade: websocket")).
Qed.

(** An incomplete one is waited for. *)
Lemma upgrade_waits {St} (emit : St → write → St) c req v w s :
  upgrade_request req = true → req = v ++ w → w ≠ [] → ws_holds c v → handle_ws_upgrade emit c s = Ret None.
Proof.
  unfold upgrade_request. rewrite !andb_true_iff, !bool_decide_eq_true. intros [[[Hend _] _] _] E Hw (Hl & Hr & stale & Eb).
  unfold handle_ws_upgrade. replace (take _ _) with v by (rewrite Eb, Hr; symmetry; apply take_app_length'; unfold zlen; lia).
  destruct (memmem v (CRLF ++ CRLF)) as [i|] eqn:Ei; [|done]. exfalso.
  pose proof (memmem_bound _ _ _ Ei) as Hb. apply (memmem_app _ w) in Ei. rewrite <- E, Hend in Ei. injection Ei as <-.
  apply (f_equal length) in E. rewrite length_app in E. destruct w; [done|]. cbn in E, Hb. lia.
Qed.

Section parser.
Context {St : Type} (emit : St → write → St) (on_request : St → list Z → exec (St * option (list Z))).

(** What a complete frame does; the flag is false when the client is freed. *)
Definition msg_effect (c : ws_client_t) (m : ws_msg) (s : St) : exec (St * bool) :=
  let p := wm_payload m in
  if wm_opcode m =? WS_OPCODE_CLOSE then Ret (emit s (ws_send_close c), false)
  else if wm_opcode m =? WS_OPCODE_PING then
    let s1 := emit s (ws_write c [138; u8 (zlen p)]) in
    Ret (match p with [] => s1 | _ => emit s1 (ws_write c p) end, true)
  else if wm_opcode m =? WS_OPCODE_BINARY then
    match ws_body p with
    | None => Ret (s, true)
    | Some body =>
        '(s1, response) <- on_request s body ;;
        match response with
        | None => Ret (s1, true)
        | Some resp => frame <- ws_answer resp ;; Ret (emit s1 (ws_write c frame), true)
        end
    end
  else Ret (s, true).

Lemma pong_spec c m rest s :
  msg_ok m → wc_read_buf c = rfc_header m ++ wm_payload m ++ rest →
  ws_pong emit c (header_of m) s =
    Ret (let s1 := emit s (ws_write c [138; u8 (zlen (wm_payload m))]) in
         match wm_payload m with [] => s1 | p => emit s1 (ws_write c p) end).
Proof.
  intros H Eb. unfold ws_pong. cbn [header_of wh_payload_len wh_size].
  pose proof (mo_fits m H) as Hf. rewrite rfc_frame_length in Hf. pose proof (zlen_nonneg (rfc_header m)).
  pose proof (zlen_nonneg (wm_payload m)).
  replace (if wc_tls c then s32 (zlen (wm_payload m)) else zlen (wm_payload m)) with (zlen (wm_payload m))
    by (unfold WS_READ_BUF_SIZE in *; rewrite s32_id by lia; by destruct (wc_tls c)).
  destruct (wm_payload m) as [|b p] eqn:Ep; [done|].
  rewrite (proj2 (Z.leb_gt _ _)) by (rewrite zlen_cons; pose proof (zlen_nonneg p); lia).
  by rewrite Eb, slice_mid, bind_Ret_l.
Qed.

Lemma binary_spec c m rest s :
  msg_ok m → wc_read_buf c = rfc_header m ++ wm_payload m ++ rest →
  ws_binary emit on_request c (header_of m) s =
    match ws_body (wm_payload m) with
    | None => Ret s
    | Some body =>
        '(s1, response) <- on_request s body ;;
        match response with None => Ret s1 | Some resp => frame <- ws_answer resp ;; Ret (emit s1 (ws_write c frame)) end
    end.
Proof.
  intros H Eb. unfold ws_binary, ws_body. cbn [header_of wh_payload_len wh_size].
  destruct (Z.ltb_spec (zlen (wm_payload m)) WS_FRAME_HEADER_SIZE) as [|Hlen]; [done|].
  rewrite Eb. replace (Z.to_nat (zlen (rfc_header m))) with (length (rfc_header m)) by (unfold zlen; lia).
  rewrite drop_app_length. destruct (read_frame_header_app (wm_payload m) rest Hlen) as (-> & ok & len & -> & Hpos).
  rewrite bind_Ret_l. destruct ok; [|done]. cbn [andb]. specialize (Hpos eq_refl).
  destruct (Z.leb_spec len (zlen (wm_payload m) - WS_FRAME_HEADER_SIZE)) as [Hle|]; [|done]. cbn [negb].
  unfold slice. rewrite (proj2 (Z.ltb_ge _ _)) by (rewrite !zlen_app; pose proof (zlen_nonneg rest); lia).
  rewrite bind_Ret_l. unfold WS_FRAME_HEADER_SIZE in *.
  replace (Z.to_nat (zlen (rfc_header m) + 4)) with (length (rfc_header m) + 4)%nat by (unfold zlen; lia).
  rewrite <- drop_drop, drop_app_length, drop_app_le, take_app_le; [done| |]; unfold zlen in *.
  - rewrite length_drop. lia.
  - lia.
Qed.

Lemma unmask_spec m stale :
  msg_ok m → ws_unmask (rfc_frame m ++ stale) (header_of m) = Ret (rfc_header m ++ wm_payload m ++ stale).
Proof.
  intros H. unfold ws_unmask, rfc_frame, rfc_payload. cbn [header_of wh_masked wh_size wh_payload_len wh_key].
  unfold is_masked. destruct (wm_key m) as [key|]; [|by rewrite <- (assoc_L (++))]. cbn [default from_option id].
  rewrite <- (assoc_L (++)).
  replace (zlen (wm_payload m)) with (zlen (xor_mask key 0 (wm_payload m))) by (unfold zlen; by rewrite xor_mask_length).
  rewrite slice_mid, bind_Ret_l, xor_mask_involutive. do 2 f_equal; [|f_equal].
  - replace (Z.to_nat (zlen (rfc_header m))) with (length (rfc_header m)) by (unfold zlen; lia). apply take_app_length.
  - rewrite (assoc_L (++)). apply drop_app_length'. rewrite length_app. unfold zlen. lia.
Qed.

Lemma step_complete c m rest s :
  msg_ok m → ws_holds c (rfc_frame m ++ rest) →
  ∃ c', ws_holds c' rest ∧ ws_conn c' = ws_conn c ∧
    ws_frame_step emit on_request c s =
      ('(s1, alive) <- msg_effect c m s ;; Ret (if alive : bool then More c' s1 else Freed s1)).
Proof.
  intros H (Hl & Hr & stale & Eb). pose proof (mo_fits m H) as Hf. pose proof (rfc_frame_length m) as EL.
  pose proof (rfc_header_length m). pose proof (length_end_range (zlen (wm_payload m))).
  pose proof (zlen_nonneg (default [] (wm_key m))). pose proof (zlen_nonneg (wm_payload m)). pose proof (zlen_nonneg rest).
  rewrite zlen_app in Hr. unfold ws_frame_step. rewrite (proj2 (Z.leb_gt _ _)) by lia.
  assert (Ep : ws_parse_header (wc_read_buf c) (wc_read_len c) = Some (header_of m)).
  { rewrite Eb. unfold rfc_frame. rewrite <- !(assoc_L (++)). by apply parse_full; [|lia]. }
  rewrite Ep.
  cbn [header_of wh_masked wh_size wh_payload_len wh_key wh_opcode].
  rewrite u64_id, <- EL by (unfold is_u64, WS_READ_BUF_SIZE in *; lia). rewrite (proj2 (Z.ltb_ge _ _)) by lia.
  set (c1 := if is_masked m then _ else c). assert (Eb1 : wc_read_buf c1 = wc_read_buf c) by (by unfold c1; destruct (is_masked m)).
  assert (Ec1 : ws_conn c1 = ws_conn c) by (by unfold c1; destruct (is_masked m)).
  rewrite Eb1, Eb, <- (assoc_L (++)). fold (header_of m). rewrite unmask_spec, bind_Ret_l by done.
  set (c2 := wc_with_buf c1 _ _). assert (Ec2 : ws_conn c2 = ws_conn c) by done.
  exists (ws_consume c2 (zlen (rfc_frame m))). split_and!; [|done|].
  - rewrite EL, <- zlen_app. apply ws_consume_holds. split_and!; [|cbn [c2 wc_read_len wc_with_buf]; rewrite !zlen_app; lia|exists stale; cbn; by rewrite <- !(assoc_L (++))].
    cbn [c2 wc_read_buf wc_with_buf]. rewrite Eb, zlen_app in Hl. rewrite !zlen_app in *. lia.
  - unfold msg_effect. rewrite (pong_spec c2 m (rest ++ stale)), (binary_spec c2 m (rest ++ stale)) by done.
    destruct (_ =? WS_OPCODE_CLOSE). { unfold ws_send_close. by rewrite (ws_write_conn c2 c). }
    destruct (_ =? WS_OPCODE_PING). { rewrite !bind_Ret_l. destruct (wm_payload m); by rewrite !(ws_write_conn c2 c). }
    destruct (_ =? WS_OPCODE_BINARY); [|done]. destruct (ws_body _) as [body|]; [|done].
    destruct (on_request s body) as [[s1 [resp|]]|]; cbn [xbind]; [|done|done].
    destruct (ws_answer resp); cbn [xbind]; [|done]. by rewrite (ws_write_conn c2 c).
Qed.
(** An incomplete frame stays in the buffer. *)
Lemma step_incomplete c m v w s :
  msg_ok m → rfc_frame m = v ++ w → w ≠ [] → ws_holds c v →
  ∃ c', ws_holds c' v ∧ ws_conn c' = ws_conn c ∧ ws_frame_step emit on_request c s = Ret (Wait c' s).
Proof.
  intros H E Hw Hc. pose proof Hc as (Hl & Hr & stale & Eb). unfold ws_frame_step.
  destruct (Z.leb_spec (wc_read_len c) 0); [by exists c|].
  assert (0 < zlen w) by (destruct w; [done|]; rewrite zlen_cons; pose proof (zlen_nonneg w); lia).
  pose proof (mo_fits m H) as Hf. pose proof (rfc_frame_length m) as EL. pose proof (f_equal zlen E) as El. rewrite zlen_app in El.
  destruct (Z.leb_spec (zlen (rfc_header m)) (zlen v)) as [Hle|Hgt].
  - destruct (app_split (rfc_header m) (rfc_payload m) v w E Hle) as (v' & -> & _).
    rewrite Eb, Hr, <- assoc_L by apply _. rewrite parse_full by done.
    cbn [header_of wh_masked wh_size wh_payload_len wh_key].
    rewrite u64_id, <- EL by (pose proof (zlen_nonneg (rfc_frame m)); unfold is_u64, WS_READ_BUF_SIZE in *; lia).
    rewrite (proj2 (Z.ltb_lt _ _)) by lia. eexists. split_and!; [| |done].
    + by destruct (is_masked m).
    + by destruct (is_masked m).
  - symmetry in E. destruct (app_split v w (rfc_header m) (rfc_payload m)) as (v' & Eh & Ew); [done|lia|].
    rewrite Eb, Hr. rewrite (parse_short m v v' stale H Eh).
    + by exists c.
    + intros ->. rewrite app_nil_r in Eh. rewrite Eh in Hgt. lia.
Qed.

(** The frames one after the other, until one frees the client. *)
Fixpoint run_msgs (c : ws_client_t) (msgs : list ws_msg) (s : St) : exec (St * bool) :=
  match msgs with
  | [] => Ret (s, true)
  | m :: rest => '(s1, alive) <- msg_effect c m s ;; if alive : bool then run_msgs c rest s1 else Ret (s1, false)
  end.

(** Only the descriptor and the encryption matter to what is written. *)
Lemma run_msgs_fd c c' msgs s :
  wc_fd c = wc_fd c' → wc_tls c = wc_tls c' → run_msgs c msgs s = run_msgs c' msgs s.
Proof.
  intros Ef Et. transitivity (run_msgs (mkWs (wc_fd c) (wc_tls c) 0 [] 0 true []) msgs s).
  - revert s. induction msgs as [|m msgs IH]; intros s; [done|]. cbn [run_msgs].
    change (msg_effect (mkWs _ _ _ _ _ _ _) m s) with (msg_effect c m s).
    destruct (msg_effect c m s) as [[s1 []]|]; cbn [xbind]; [apply IH|done|done].
  - rewrite Ef, Et. revert s. induction msgs as [|m msgs IH]; intros s; [done|]. cbn [run_msgs].
    change (msg_effect (mkWs _ _ _ _ _ _ _) m s) with (msg_effect c' m s).
    destruct (msg_effect c' m s) as [[s1 []]|]; cbn [xbind]; [apply IH|done|done].
Qed.

Lemma run_msgs_conn c c' msgs s : ws_conn c = ws_conn c' → run_msgs c msgs s = run_msgs c' msgs s.
Proof. intros [= Ef Et _ _]. by apply run_msgs_fd. Qed.

Lemma run_msgs_app c l1 l2 s :
  run_msgs c (l1 ++ l2) s = ('(s1, alive) <- run_msgs c l1 s ;; if alive : bool then run_msgs c l2 s1 else Ret (s1, false)).
Proof.
  revert s. induction l1 as [|m l1 IH]; intros s; [done|]. cbn [app run_msgs].
  destruct (msg_effect c m s) as [[s1 []]|]; cbn [xbind]; [apply IH|done|done].
Qed.

Definition ws_stream (msgs : list ws_msg) : list Z := concat (map rfc_frame msgs).

(** [v] is a proper prefix of the next frame. *)
Definition ws_partial (v : list Z) (msgs : list ws_msg) : Prop :=
  v = [] ∨ ∃ m msgs' w, msgs = m :: msgs' ∧ rfc_frame m = v ++ w ∧ w ≠ [].

Lemma rfc_frame_long m : 2 <= zlen (rfc_frame m).
Proof.
  rewrite rfc_frame_length, rfc_header_length. pose proof (length_end_range (zlen (wm_payload m))).
  pose proof (zlen_nonneg (default [] (wm_key m))). pose proof (zlen_nonneg (wm_payload m)). lia.
Qed.

Lemma process_ws_prefix msgs fuel c v pending s :
  Forall msg_ok msgs → ws_holds c v → v ++ pending = ws_stream msgs → zlen v < Z.of_nat fuel →
  ∃ dn todo v' c', msgs = dn ++ todo ∧ v' ++ pending = ws_stream todo ∧ ws_partial v' todo ∧
    ws_holds c' v' ∧ ws_conn c' = ws_conn c ∧
    process_ws_frames emit on_request fuel c s =
      Some ('(s1, alive) <- run_msgs c dn s ;; Ret (if alive : bool then inl (c', s1) else inr s1)).
Proof.
  revert fuel c v s. induction msgs as [|m msgs IH]; intros fuel c v s Hok Hc E Hf.
  - apply app_eq_nil in E as [-> ->]. exists [], [], [], c. split_and!; try done; [by left|].
    destruct fuel as [|fuel]; [unfold zlen in Hf; cbn in Hf; lia|]. cbn [process_ws_frames]. unfold ws_frame_step.
    destruct Hc as (_ & -> & _). done.
  - apply Forall_cons_1 in Hok as [Hm Hok]. change (ws_stream (m :: msgs)) with (rfc_frame m ++ ws_stream msgs) in E.
    pose proof (rfc_frame_long m). pose proof (zlen_nonneg v). destruct fuel as [|fuel]; [lia|]. cbn [process_ws_frames].
    destruct (Z.leb_spec (zlen (rfc_frame m)) (zlen v)) as [Hle|Hgt].
    + symmetry in E. destruct (app_split _ _ _ _ E Hle) as (v1 & -> & E1). rewrite zlen_app in Hf.
      destruct (step_complete c m v1 s Hm Hc) as (c1 & Hc1 & Econn & ->).
      assert (Hd : ∃ s1 alive, (msg_effect c m s = Ret (s1, alive)) ∨ s1 = s ∧ alive = false ∧ msg_effect c m s = Trap).
      { destruct (msg_effect c m s) as [[s1 alive]|]; [exists s1, alive; by left|exists s, false; by right]. }
      destruct Hd as (s1 & alive & Hd).
      destruct (IH fuel c1 v1 s1 Hok Hc1 (eq_sym E1)) as (dn & todo & v' & c' & -> & E' & Hp & Hc' & Econn' & Hr); [unfold zlen in *; lia|].
      exists (m :: dn), todo, v', c'. split_and!; try done; [by rewrite Econn'|]. cbn [run_msgs].
      destruct Hd as [->|(-> & -> & ->)]; [|done]. cbn [xbind]. destruct alive; [|done].
      rewrite Hr. by rewrite (run_msgs_conn c1 c).
    + destruct (app_split v pending (rfc_frame m) (ws_stream msgs)) as (w & Em & Ew); [done|lia|].
      destruct (step_incomplete c m v w s Hm Em) as (c' & Hc' & Econn & ->); [|done|].
      { intros ->. rewrite app_nil_r in Em. rewrite Em in Hgt. lia. }
      exists [], (m :: msgs), v, c'. split_and!; try done. right. exists m, msgs, w. split_and!; try done.
      intros ->. rewrite app_nil_r in Em. rewrite Em in Hgt. lia.
Qed.
(** ** Any sequence of reads *)

Lemma ws_receive_holds c v bytes :
  ws_holds c v → zlen v + zlen bytes <= WS_READ_BUF_SIZE → ws_holds (ws_receive c bytes) (v ++ bytes).
Proof.
  intros (Hl & Hr & stale & Eb) Hroom. unfold ws_holds, ws_receive. cbn [wc_read_buf wc_read_len wc_with_buf].
  rewrite Hr, Eb. replace (Z.to_nat (zlen v)) with (length v) by (unfold zlen; lia).
  rewrite take_app_length, <- drop_drop, drop_app_length.
  split_and!; [|by rewrite zlen_app|by eexists; rewrite <- (assoc_L (++))].
  rewrite Eb in Hl. rewrite <- Hl in *. unfold zlen in *. rewrite !length_app, length_drop in *. lia.
Qed.

(** The kernel hands over at most [n] bytes, what there is room for and what
    has arrived; a read of no bytes is taken for the end of the stream. *)
Fixpoint ws_read_events (ns : list nat) (c : ws_client_t) (pending : list Z) (s : St) : run (ws_client_t * list Z * St + St) :=
  match ns with
  | [] => Some (Ret (inl (c, pending, s)))
  | n :: ns' =>
      match pending with
      | [] => Some (Ret (inl (c, pending, s)))
      | _ :: _ =>
          let bytes := Nat.min n (Z.to_nat (WS_READ_BUF_SIZE - wc_read_len c)) in
          if (bytes =? 0)%nat then Some (Ret (inr s))
          else
            match ws_client_read emit on_request c (take bytes pending) s with
            | Some (Ret (inl (c', s'))) => ws_read_events ns' c' (drop bytes pending) s'
            | Some (Ret (inr s')) => Some (Ret (inr s'))
            | Some Trap => Some Trap
            | None => None
            end
      end
  end.

Lemma ws_partial_room v msgs : Forall msg_ok msgs → ws_partial v msgs → zlen v < WS_READ_BUF_SIZE.
Proof.
  intros Hok [->|(m & msgs' & w & -> & E & Hw)]; [by vm_compute|].
  apply Forall_cons_1 in Hok as [Hm _]. pose proof (mo_fits m Hm) as Hf. rewrite E, zlen_app in Hf.
  destruct w; [done|]. rewrite zlen_cons in Hf. pose proof (zlen_nonneg w). lia.
Qed.

Lemma ws_partial_end v msgs : ws_partial v msgs → v = ws_stream msgs → v = [] ∧ msgs = [].
Proof.
  intros Hp E. destruct msgs as [|m msgs]; [done|]. exfalso. change (ws_stream (m :: msgs)) with (rfc_frame m ++ ws_stream msgs) in E.
  pose proof (rfc_frame_long m) as Hm. apply (f_equal zlen) in E. rewrite zlen_app in E. pose proof (zlen_nonneg (ws_stream msgs)).
  destruct Hp as [->|(m' & msgs' & w & [= -> ->] & Ef & Hw)]; [change (zlen (@nil Z)) with 0 in E; lia|].
  apply (f_equal zlen) in Ef. rewrite zlen_app in Ef. destruct w; [done|]. rewrite zlen_cons in Ef. pose proof (zlen_nonneg w). lia.
Qed.

(** The reads [ns] deliver a stream of frames, of which [v] has arrived. *)
Definition frames_served (ns : list nat) : Prop :=
  ∀ todo c v pending s,
    Forall msg_ok todo → wc_ws_upgraded c = true → ws_holds c v → v ++ pending = ws_stream todo → ws_partial v todo →
    (length pending <= length ns)%nat →
    ∃ c', ws_holds c' [] ∧ ws_conn c' = ws_conn c ∧
      ws_read_events ns c pending s =
        Some ('(s1, alive) <- run_msgs c todo s ;; Ret (if alive : bool then inl (c', [], s1) else inr s1)).

(** The parser runs on what has arrived, the reads [ns] bring the rest. *)
Lemma frames_served_next ns todo c v pending s :
  frames_served ns → Forall msg_ok todo → wc_ws_upgraded c = true → ws_holds c v → v ++ pending = ws_stream todo →
  (length pending <= length ns)%nat →
  ∃ c', ws_holds c' [] ∧ ws_conn c' = ws_conn c ∧
    match process_ws_frames emit on_request (S (Z.to_nat (wc_read_len c))) c s with
    | Some (Ret (inl (c', s'))) => ws_read_events ns c' pending s'
    | Some (Ret (inr s')) => Some (Ret (inr s'))
    | Some Trap => Some Trap
    | None => None
    end = Some ('(s1, alive) <- run_msgs c todo s ;; Ret (if alive : bool then inl (c', [], s1) else inr s1)).
Proof.
  intros IH Hok Hup Hc E Hl.
  destruct (process_ws_prefix todo (S (Z.to_nat (wc_read_len c))) c v pending s Hok Hc E)
    as (dn & todo' & v' & c' & -> & E' & Hp' & Hc' & Econn & ->).
  { destruct Hc as (_ & -> & _). pose proof (zlen_nonneg v). lia. }
  apply Forall_app in Hok as [_ Hok]. rewrite run_msgs_app.
  assert (Hup' : wc_ws_upgraded c' = true) by (injection Econn; congruence).
  specialize (IH todo' c' v' pending). destruct (run_msgs c dn s) as [[s1 []]|]; cbn [xbind].
  - destruct (IH s1 Hok Hup' Hc' E' Hp' Hl) as (c2 & Hc2 & Ec2 & ->).
    exists c2. split_and!; [done|congruence|]. by rewrite (run_msgs_conn c' c).
  - destruct (IH s1 Hok Hup' Hc' E' Hp' Hl) as (c2 & Hc2 & Ec2 & _). exists c2. by split_and!; [|congruence|].
  - destruct (IH s Hok Hup' Hc' E' Hp' Hl) as (c2 & Hc2 & Ec2 & _). exists c2. by split_and!; [|congruence|].
Qed.

(** One read with room for a byte, as the parser sees it. *)
Lemma read_step n c v x pending :
  (1 <= n)%nat → ws_holds c v → zlen v < WS_READ_BUF_SIZE →
  let bytes := Nat.min n (Z.to_nat (WS_READ_BUF_SIZE - wc_read_len c)) in
  (bytes =? 0)%nat = false ∧ (length (drop bytes (x :: pending)) <= length pending)%nat ∧
  ws_holds (ws_receive c (take bytes (x :: pending))) (v ++ take bytes (x :: pending)).
Proof.
  intros Hn Hc Hroom. pose proof Hc as (_ & Hr & _). rewrite Hr. set (bytes := Nat.min n _). cbv zeta.
  assert (Hb : (1 <= bytes)%nat) by (unfold bytes; lia). split_and!.
  - apply Nat.eqb_neq. lia.
  - rewrite length_drop. cbn. lia.
  - apply ws_receive_holds; [done|]. unfold zlen in *. rewrite length_take. lia.
Qed.

Lemma frames_served_all ns : Forall (fun n => 1 <= n)%nat ns → frames_served ns.
Proof.
  induction 1 as [|n ns Hn _ IH]; intros todo c v pending s Hok Hup Hc E Hp Hlen.
  - destruct pending; [|cbn in Hlen; lia]. rewrite app_nil_r in E. destruct (ws_partial_end _ _ Hp E) as [-> ->].
    by exists c.
  - destruct pending as [|x pending].
    { rewrite app_nil_r in E. destruct (ws_partial_end _ _ Hp E) as [-> ->]. by exists c. }
    destruct (read_step n c v x pending Hn Hc (ws_partial_room _ _ Hok Hp)) as (Hz & Hl & Hc1).
    cbn [ws_read_events]. rewrite Hz. unfold ws_client_read.
    change (wc_ws_upgraded (ws_receive c _)) with (wc_ws_upgraded c). rewrite Hup.
    destruct (frames_served_next ns todo (ws_receive c _) _ (drop (Nat.min n (Z.to_nat (WS_READ_BUF_SIZE - wc_read_len c))) (x :: pending)) s
      IH Hok Hup Hc1) as (c' & Hc' & Econn & Er).
    { by rewrite <- (assoc_L (++)), take_drop. }
    { cbn in Hlen. lia. }
    exists c'. split_and!; [done|done|]. rewrite Er. by rewrite (run_msgs_conn _ c).
Qed.

Lemma upgrade_served ns req msgs c v w pending s :
  Forall (fun n => 1 <= n)%nat ns → upgrade_request req = true → zlen req <= WS_READ_BUF_SIZE → Forall msg_ok msgs →
  wc_ws_upgraded c = false → ws_holds c v → req = v ++ w → w ≠ [] → pending = w ++ ws_stream msgs →
  (length pending <= length ns)%nat →
  ∃ c', ws_holds c' [] ∧ ws_conn c' = ws_conn (wc_with_upgraded c) ∧
    ws_read_events ns c pending s =
      Some ('(s1, alive) <- run_msgs c msgs (emit s (ws_write c WS_UPGRADE_RESPONSE)) ;;
            Ret (if alive : bool then inl (c', [], s1) else inr s1)).
Proof.
  intros Hns Hreq Hsize Hok. revert c v w pending s.
  induction Hns as [|n ns Hn Hns IH]; intros c v w pending s Hup Hc Ev Hw Ep Hlen.
  { destruct pending; [|cbn in Hlen; lia]. by destruct w. }
  assert (0 < zlen w) by (destruct w; [done|]; rewrite zlen_cons; pose proof (zlen_nonneg w); lia).
  destruct pending as [|x pending]; [by destruct w|]. assert (Hroom : zlen v < WS_READ_BUF_SIZE) by (rewrite Ev, zlen_app in Hsize; lia).
  destruct (read_step n c v x pending Hn Hc Hroom) as (Hz & Hl & Hc1).
  cbn [ws_read_events]. rewrite Hz. unfold ws_client_read. set (bytes := Nat.min n _) in *. set (c1 := ws_receive c _) in *.
  change (wc_ws_upgraded c1) with (wc_ws_upgraded c). rewrite Hup. cbn in Hlen.
  assert (Es : take bytes (x :: pending) ++ drop bytes (x :: pending) = w ++ ws_stream msgs) by (by rewrite take_drop).
  destruct (Z.leb_spec (zlen w) (zlen (take bytes (x :: pending)))) as [Hle|Hgt].
  - symmetry in Es. destruct (app_split _ _ _ _ Es Hle) as (v2 & E2 & Em). rewrite E2 in Hc1.
    rewrite (assoc_L (++)), <- Ev in Hc1. destruct (upgrade_accepts emit c1 req v2 s Hreq Hc1) as (c2 & Hc2 & Econn & ->).
    assert (Hup2 : wc_ws_upgraded c2 = true) by (injection Econn; congruence).
    destruct (frames_served_next ns msgs c2 v2 (drop bytes (x :: pending)) (emit s (ws_write c1 WS_UPGRADE_RESPONSE))
      (frames_served_all ns Hns) Hok Hup2 Hc2 (eq_sym Em)) as (c' & Hc' & Econn' & ->); [lia|].
    exists c'. split_and!; [done|by rewrite Econn', Econn|].
    rewrite (ws_write_conn c1 c) by done. by rewrite (run_msgs_fd c2 c) by (injection Econn; congruence).
  - destruct (app_split (take bytes (x :: pending)) (drop bytes (x :: pending)) w (ws_stream msgs)) as (w' & -> & Ed); [done|lia|].
    assert (Hw' : w' ≠ []) by (intros ->; rewrite app_nil_r in Hgt; lia). rewrite (assoc_L (++)) in Ev.
    rewrite (upgrade_waits emit c1 req _ w' s Hreq Ev Hw' Hc1).
    destruct (IH c1 _ w' (drop bytes (x :: pending)) s Hup Hc1 Ev Hw' Ed) as (c' & Hc' & Econn & ->); [lia|].
    exists c'. split_and!; [done|done|]. rewrite (ws_write_conn c1 c) by done. by rewrite (run_msgs_fd c1 c).
Qed.
End parser.

(** C22. A WebSocket conversation: from a fresh connection, whatever the sizes of
    the pieces in which the kernel delivers an upgrade request and any sequence of
    frames in the format of RFC 6455 (masked or not, with any flags, control
    frames between data frames) that fit the read buffer, the upgrade is answered
    once, every binary frame's message is handed over unmasked and in order and
    its answer written, every ping is answered, other frames are skipped, nothing
    is left in the buffer, and the connection stays open until a close frame. *)
Theorem ws_conversation {St} (emit : St → write → St) on_request ns req msgs c s :
  Forall (fun n => 1 <= n)%nat ns → upgrade_request req = true → zlen req <= WS_READ_BUF_SIZE → Forall msg_ok msgs →
  wc_ws_upgraded c = false → wc_read_len c = 0 → zlen (wc_read_buf c) = WS_READ_BUF_SIZE →
  (length (req ++ ws_stream msgs) <= length ns)%nat →
  ∃ c', ws_holds c' [] ∧ ws_conn c' = ws_conn (wc_with_upgraded c) ∧
    ws_read_events emit on_request ns c (req ++ ws_stream msgs) s =
      Some ('(s1, alive) <- run_msgs emit on_request c msgs (emit s (ws_write c WS_UPGRADE_RESPONSE)) ;;
            Ret (if alive : bool then inl (c', [], s1) else inr s1)).
Proof.
  intros Hns Hreq Hsize Hok Hup Hlen Hbuf Hl.
  eapply (upgrade_served emit on_request ns req msgs c [] req); try done.
  - split_and!; [done|done|by exists (wc_read_buf c)].
  - intros ->. done.
Qed.

Definition demo_upgrade : list Z :=
  lit "GET / HTTP/1.1" ++ CRLF ++ lit "Upgrade: websocket" ++ CRLF ++ lit "Sec-WebSocket-Key: x3JJHMbDL1EzLkh9GBhXDw==" ++ CRLF ++ CRLF.

Definition demo_ws : ws_client_t := mkWs 7 false 1 (zeros (Z.to_nat WS_READ_BUF_SIZE)) 0 false (zeros 4).

(** A ping, a message, a close; the first two masked. *)
Definition demo_msgs : list ws_msg :=
  [mkMsg 8 WS_OPCODE_PING (Some [1; 2; 3; 4]) [104; 105];
   mkMsg 8 WS_OPCODE_BINARY (Some [9; 8; 7; 6]) (frame_bytes [1; 2; 3]);
   mkMsg 8 WS_OPCODE_CLOSE None []].

(** A server that records what it is given and answers with it. *)
Definition echo_emit (s : list write) (w : write) : list write := s ++ [w].
Definition echo_request (s : list write) (body : list Z) : exec (list write * option (list Z)) := Ret (s, Some body).

Lemma demo_msgs_ok : Forall msg_ok demo_msgs.
Proof.
  repeat (apply List.Forall_cons;
    [split; [by vm_compute|by vm_compute|by vm_compute|repeat (apply List.Forall_cons; [by vm_compute|]); apply List.Forall_nil|by vm_compute]|]).
  apply List.Forall_nil.
Qed.

Lemma ws_conversation_witness :
  ws_read_events echo_emit echo_request (repeat 11%nat 300) demo_ws (demo_upgrade ++ ws_stream demo_msgs) [] =
    Some (Ret (inr [Plain 7 WS_UPGRADE_RESPONSE; Plain 7 [138; 2]; Plain 7 [104; 105];
                    Plain 7 (130 :: 7 :: frame_bytes [1; 2; 3]); Plain 7 [136; 2; 3; 232]])).
Proof.
  destruct (ws_conversation echo_emit echo_request (repeat 11%nat 300) demo_upgrade demo_msgs demo_ws []) as (c' & _ & _ & E).
  - apply List.Forall_forall. intros n Hn. apply List.repeat_spec in Hn. rewrite Hn. lia.
  - vm_compute. reflexivity.
  - vm_compute. discriminate.
  - exact demo_msgs_ok.
  - reflexivity.
  - reflexivity.
  - vm_compute. reflexivity.
  - vm_compute. lia.
  - rewrite E. vm_compute. reflexivity.
Defined.

(** ** The server's own frames *)

Lemma ws_encode_rfc capacity data :
  is_u64 (zlen data) →
  ws_encode_frame capacity data =
    (if capacity <? zlen data + length_end (zlen data) then Trap else Ret (rfc_frame (mkMsg 8 WS_OPCODE_BINARY None data))).
Proof.
  intros H. unfold ws_encode_frame. rewrite ws_length_rfc, zlen_cons, zlen_app, rfc_length_length by done.
  replace (length_end (zlen data) - 1 + zlen data + 1) with (zlen data + length_end (zlen data)) by lia.
  unfold rfc_frame, rfc_header, rfc_payload. cbn. by rewrite app_nil_r.
Qed.

Lemma ws_body_frame data : 0 < zlen data <= WS_READ_BUF_SIZE → ws_body (frame_bytes data) = Some data.
Proof.
  intros H. unfold ws_body, frame_bytes. rewrite zlen_app. change (zlen (write_frame_header _)) with 4.
  rewrite (proj2 (Z.ltb_ge _ _)) by (unfold WS_FRAME_HEADER_SIZE; lia).
  rewrite header_roundtrip by (unfold is_u32, WS_READ_BUF_SIZE in *; lia).
  unfold WS_READ_BUF_SIZE, UNIX_READ_BUF_SIZE, WS_FRAME_HEADER_SIZE in *.
  rewrite (proj2 (Z.ltb_lt _ _)), !(proj2 (Z.leb_le _ _)) by lia. cbn [andb].
  change (drop 4 (write_frame_header (zlen data) ++ data)) with data. f_equal. apply take_ge. unfold zlen. lia.
Qed.

(** Answers over a WebSocket: an answer of up to 65531 bytes leaves as one
    unmasked binary frame in the format of RFC 6455 whose payload is the
    length-prefixed answer, so that a peer that unwraps the frame finds the answer;
    a longer one is written past the end of the stack array it is built in. *)
Theorem ws_answer_roundtrip resp :
  0 < zlen resp < 2 ^ 32 →
  (zlen resp <= 65531 →
     ∃ m, ws_answer resp = Ret (rfc_frame m) ∧ wm_flags m = 8 ∧ wm_opcode m = WS_OPCODE_BINARY ∧ wm_key m = None ∧
       ws_body (wm_payload m) = Some resp) ∧
  (65531 < zlen resp → ws_answer resp = Trap).
Proof.
  intros H. unfold ws_answer. rewrite !ws_encode_rfc.
  2,3: unfold is_u64; rewrite ?zlen_app; change (zlen (write_frame_header _)) with 4; lia.
  rewrite (u32_id (zlen resp)) by (unfold is_u32; lia). fold (frame_bytes resp).
  assert (El : zlen (frame_bytes resp) = zlen resp + 4) by (unfold frame_bytes; rewrite zlen_app; change (zlen (write_frame_header _)) with 4; lia).
  pose proof (length_end_range (zlen resp)). rewrite (proj2 (Z.ltb_ge _ (zlen resp + _))), bind_Ret_l by lia. rewrite El.
  unfold length_end. split; intros Hr.
  - rewrite (proj2 (Z.ltb_ge _ _)).
    + eexists. split; [done|]. split_and!; try done. apply ws_body_frame. unfold WS_READ_BUF_SIZE. lia.
    + destruct (Z.leb_spec (zlen resp + 4) 125); [lia|]. destruct (Z.leb_spec (zlen resp + 4) 65535); lia.
  - rewrite !(proj2 (Z.leb_gt _ _)) by lia. by rewrite (proj2 (Z.ltb_lt _ _)) by lia.
Qed.

Lemma ws_answer_roundtrip_witness :
  (∃ m, ws_answer [1; 2; 3] = Ret (rfc_frame m) ∧ ws_body (wm_payload m) = Some [1; 2; 3]) ∧
  ws_answer (zeros (Z.to_nat 65532)) = Trap.
Proof.
  split.
  - destruct (ws_answer_roundtrip [1; 2; 3]) as [H _]; [vm_compute; split; reflexivity|].
    destruct H as (m & E & _ & _ & _ & Eb); [vm_compute; discriminate|]. exists m. split; [exact E|exact Eb].
  - destruct (ws_answer_roundtrip (zeros (Z.to_nat 65532))) as [_ H]; [vm_compute; split; reflexivity|]. apply H. vm_compute. reflexivity.
Defined.

(** ** Safety of the parser *)

Record ws_wf (c : ws_client_t) : Prop := {
  ww_size : zlen (wc_read_buf c) = WS_READ_BUF_SIZE;
  ww_len : 0 <= wc_read_len c <= WS_READ_BUF_SIZE;
  ww_bytes : Forall (fun b => 0 <= b) (wc_read_buf c)
}.

(** The frame at the head of the buffer announces a length that does not fit 64
    bits together with its header. *)
Definition ws_overflows (c : ws_client_t) : Prop :=
  match ws_parse_header (wc_read_buf c) (wc_read_len c) with
  | Some h => 2 ^ 64 <= wh_size h + wh_payload_len h
  | None => False
  end.

#[export] Instance ws_overflows_dec c : Decision (ws_overflows c).
Proof. unfold ws_overflows. destruct (ws_parse_header _ _); apply _. Defined.

Lemma byte_at_nonneg l i : Forall (fun b => 0 <= b) l → 0 <= byte_at l i.
Proof.
  intros H. unfold byte_at. destruct (l !! Z.to_nat i) as [b|] eqn:E; [|done]. cbn.
  by apply (Forall_lookup_1 _ _ _ _ H E).
Qed.

Lemma parse_bounds buf n h :
  Forall (fun b => 0 <= b) buf → ws_parse_header buf n = Some h →
  2 <= wh_size h <= 14 ∧ wh_size h <= n ∧ 0 <= wh_payload_len h ∧
  Forall (fun b => 0 <= b) (wh_key h).
Proof.
  intros Hb. unfold ws_parse_header, ws_payload_len. destruct (Z.ltb_spec n 2); [done|]. intros E.
  assert (Hl : ∀ l acc, 0 <= acc → 0 <= fold_left (fun acc i => Z.lor (u64 (Z.shiftl acc 8)) (byte_at buf (2 + i))) l acc).
  { induction l as [|i l IH]; intros acc Ha; [done|]. cbn [fold_left]. apply IH. apply Z.lor_nonneg. split; [apply u64_range|].
    by apply byte_at_nonneg. }
  assert (Hs : 0 <= Z.land (byte_at buf 1) 127) by (apply Z.land_nonneg; lia).
  assert (Hm : 0 <= Z.lor (Z.shiftl (byte_at buf 2) 8) (byte_at buf 3))
    by (apply Z.lor_nonneg; split; [apply Z.shiftl_nonneg|]; by apply byte_at_nonneg).
  specialize (Hl [0; 1; 2; 3; 4; 5; 6; 7] 0 ltac:(lia)).
  assert (Hk : ∀ k, Forall (fun b => 0 <= b) (take 4 (drop k buf))) by (intros k; by apply Forall_take, Forall_drop).
  set (p64 := fold_left _ _ _) in *. clearbody p64. set (p16 := Z.lor _ _) in *. clearbody p16.
  set (p7 := Z.land _ 127) in *. clearbody p7.
  destruct (p7 =? 126); [|destruct (p7 =? 127)].
  1: destruct (Z.ltb_spec n 4); [done|]. 2: destruct (Z.ltb_spec n 10); [done|].
  all: destruct (negb _); [match type of E with context [?a <? ?k] => destruct (Z.ltb_spec a k) end; [done|]|]; injection E as <-; cbn [wh_size wh_payload_len wh_key];
    split_and!; try lia; first [apply Hk|apply List.Forall_nil].
Qed.

Lemma xor_mask_nonneg key i p :
  Forall (fun b => 0 <= b) key → Forall (fun b => 0 <= b) p → Forall (fun b => 0 <= b) (xor_mask key i p).
Proof.
  intros Hk. revert i. induction p as [|b p IH]; intros i H; [done|]. apply Forall_cons_1 in H as [Hb H].
  cbn [xor_mask]. apply List.Forall_cons; [|by apply IH]. apply Z.lxor_nonneg. split; [|done]. intros _.
  rewrite list.Forall_forall in Hk. destruct (nth_in_or_default (i mod 4) key 0) as [Hin|E]; [|by rewrite E].
  apply Hk. by apply list_elem_of_In.
Qed.

Lemma slice_ok buf off n : off + n <= zlen buf → slice buf off n = Ret (take (Z.to_nat n) (drop (Z.to_nat off) buf)).
Proof. intros H. unfold slice. by rewrite (proj2 (Z.ltb_ge _ _)) by lia. Qed.

(** Unmasking a frame that is in the buffer. *)
Lemma unmask_ok buf h :
  Forall (fun b => 0 <= b) buf → Forall (fun b => 0 <= b) (wh_key h) → 0 <= wh_size h → 0 <= wh_payload_len h →
  wh_size h + wh_payload_len h <= zlen buf →
  ∃ buf', ws_unmask buf h = Ret buf' ∧ zlen buf' = zlen buf ∧ Forall (fun b => 0 <= b) buf'.
Proof.
  intros Hb Hk H1 H2 H3. unfold ws_unmask. destruct (wh_masked h); [|by exists buf].
  rewrite slice_ok, bind_Ret_l by done. eexists. split; [done|]. split.
  - unfold zlen in *. rewrite !length_app, xor_mask_length, !length_take, !length_drop. lia.
  - apply Forall_app_2; [by apply Forall_take|]. apply Forall_app_2; [|by apply Forall_drop].
    apply xor_mask_nonneg; [done|]. by apply Forall_take, Forall_drop.
Qed.

Lemma ws_consume_wf c n :
  ws_wf c → 0 <= n <= wc_read_len c → ws_wf (ws_consume c n) ∧ wc_read_len (ws_consume c n) = wc_read_len c - n.
Proof.
  intros [Hs Hl Hb] Hn. unfold ws_consume. split; [|done]. split; cbn [wc_read_buf wc_read_len wc_with_buf].
  - unfold zlen in *. rewrite length_app, length_take, !length_drop. lia.
  - lia.
  - apply Forall_app_2; [by apply Forall_take, Forall_drop|by apply Forall_drop].
Qed.

Section safety.
Context {St : Type} (emit : St → write → St) (on_request : St → list Z → exec (St * option (list Z))).
Context (answers : ∀ s body, ∃ s' r, on_request s body = Ret (s', r) ∧ from_option (fun b => zlen b <= 65531) True r).

Lemma ws_answer_ok resp : zlen resp <= 65531 → ∃ frame, ws_answer resp = Ret frame.
Proof.
  intros H. pose proof (zlen_nonneg resp). unfold ws_answer. rewrite !ws_encode_rfc.
  2,3: unfold is_u64; rewrite ?zlen_app; change (zlen (write_frame_header _)) with 4; lia.
  pose proof (length_end_range (zlen resp)). rewrite (proj2 (Z.ltb_ge _ (zlen resp + _))), bind_Ret_l by lia.
  rewrite (proj2 (Z.ltb_ge _ _)); [by eexists|]. rewrite zlen_app. change (zlen (write_frame_header _)) with 4.
  unfold length_end. destruct (Z.leb_spec (4 + zlen resp) 125); [lia|]. destruct (Z.leb_spec (4 + zlen resp) 65535); lia.
Qed.

Lemma ws_binary_ok c h s :
  0 <= wh_size h → wh_size h + wh_payload_len h <= zlen (wc_read_buf c) → ∃ s', ws_binary emit on_request c h s = Ret s'.
Proof.
  intros H1 H2. unfold ws_binary. destruct (Z.ltb_spec (wh_payload_len h) WS_FRAME_HEADER_SIZE) as [|H4]; [by eexists|].
  destruct (read_frame_header_app (drop (Z.to_nat (wh_size h)) (wc_read_buf c)) []) as (_ & ok & len & -> & Hok).
  { unfold zlen in *. rewrite length_drop. lia. }
  rewrite bind_Ret_l. destruct ok; [|by eexists]. cbn [andb].
  destruct (Z.leb_spec len (wh_payload_len h - WS_FRAME_HEADER_SIZE)); [|by eexists]. cbn [negb].
  rewrite slice_ok, bind_Ret_l by lia. destruct (answers s (take (Z.to_nat len) (drop (Z.to_nat (wh_size h + WS_FRAME_HEADER_SIZE)) (wc_read_buf c)))) as (s' & r & -> & Hr).
  rewrite bind_Ret_l. destruct r as [resp|]; [|by eexists]. destruct (ws_answer_ok resp Hr) as [frame ->]. by eexists.
Qed.

Lemma ws_pong_ok c h s :
  0 <= wh_size h → 0 <= wh_payload_len h <= WS_READ_BUF_SIZE → wh_size h + wh_payload_len h <= zlen (wc_read_buf c) →
  ∃ s', ws_pong emit c h s = Ret s'.
Proof.
  intros H1 H2 H3. unfold ws_pong.
  replace (if wc_tls c then s32 (wh_payload_len h) else wh_payload_len h) with (wh_payload_len h)
    by (unfold WS_READ_BUF_SIZE in *; rewrite s32_id by lia; by destruct (wc_tls c)).
  destruct (_ <=? 0); [by eexists|]. rewrite slice_ok by done. by eexists.
Qed.

(** An iteration on a frame whose length does not overflow. *)
Lemma step_safe c s :
  ws_wf c → ~ ws_overflows c →
  ∃ f, ws_frame_step emit on_request c s = Ret f ∧
    match f with
    | Wait c' _ => ws_wf c'
    | More c' _ => ws_wf c' ∧ wc_read_len c' < wc_read_len c
    | Freed _ => True
    end.
Proof.
  intros Hc Ho. unfold ws_frame_step. destruct (Z.leb_spec (wc_read_len c) 0); [by eexists|].
  unfold ws_overflows in Ho. destruct (ws_parse_header _ _) as [h|] eqn:Eh; [|by eexists].
  destruct (parse_bounds _ _ _ (ww_bytes c Hc) Eh) as (Hs & Hn & Hp & Hk). pose proof (ww_size c Hc) as Hsz. pose proof (ww_len c Hc).
  rewrite u64_id by (unfold is_u64; lia). set (c1 := if wh_masked h then _ else c).
  assert (Eb1 : wc_read_buf c1 = wc_read_buf c) by (by unfold c1; destruct (wh_masked h)).
  assert (Hw1 : ws_wf c1) by (unfold c1; destruct (wh_masked h); destruct Hc; by split).
  destruct (Z.ltb_spec (wc_read_len c) (wh_size h + wh_payload_len h)); [by eexists|].
  destruct (unmask_ok (wc_read_buf c) h (ww_bytes c Hc) Hk) as (buf & Eu & Hlb & Hb); [lia..|].
  rewrite Eb1, Eu, bind_Ret_l. set (c2 := wc_with_buf c1 _ _). assert (Hw2 : ws_wf c2) by (split; cbn; [congruence|lia|done]).
  destruct (ws_consume_wf c2 (wh_size h + wh_payload_len h) Hw2) as [Hw3 Hl3]; [cbn; lia|]. cbn [wc_read_len c2 wc_with_buf] in Hl3.
  destruct (_ =? WS_OPCODE_CLOSE); [by eexists|].
  destruct (_ =? WS_OPCODE_PING).
  { destruct (ws_pong_ok c2 h s) as [s1 ->]; [lia|lia|cbn; lia|]. eexists. split; [done|]. split; [done|]. lia. }
  destruct (_ =? WS_OPCODE_BINARY).
  { destruct (ws_binary_ok c2 h s) as [s1 ->]; [lia|cbn; lia|]. eexists. split; [done|]. split; [done|]. lia. }
  eexists. split; [done|]. split; [done|]. lia.
Qed.

(** The iterations that go on. *)
Definition ws_moves (x y : ws_client_t * St) : Prop := ws_frame_step emit on_request x.1 x.2 = Ret (More y.1 y.2).

Lemma parser_safe fuel c s :
  ws_wf c → wc_read_len c < Z.of_nat fuel →
  (∃ r, process_ws_frames emit on_request fuel c s = Some (Ret r) ∧ match r with inl (c', _) => ws_wf c' | inr _ => True end)
  ∨ ∃ c' s', rtc ws_moves (c, s) (c', s') ∧ ws_overflows c'.
Proof.
  revert c s. induction fuel as [|fuel IH]; intros c s Hc Hf; [pose proof (ww_len c Hc); lia|].
  destruct (decide (ws_overflows c)) as [Ho|Ho].
  { right. exists c, s. split; [apply rtc_refl|done]. }
  destruct (step_safe c s Hc Ho) as (f & Ef & Hfl). cbn [process_ws_frames]. rewrite Ef. destruct f as [c1 s1|c1 s1|s1].
  - left. by eexists.
  - destruct Hfl as [Hc1 Hl]. destruct (IH c1 s1 Hc1) as [?|(c' & s' & Hr & Ho')]; [lia|by left|].
    right. exists c', s'. split; [|done]. eapply rtc_l; [|exact Hr]. exact Ef.
  - left. by eexists.
Qed.
End safety.

(** C23. The WebSocket parser is safe on every input whose announced lengths do
    not overflow: on any contents of the read buffer, with a daemon that answers
    requests with at most 65531 bytes, the loop stays inside its arrays and
    returns within one iteration per byte, unless it reaches a frame whose header
    size and 64-bit payload length exceed 2^64 when added. *)
Theorem ws_parser_safe {St} (emit : St → write → St) on_request c s :
  (∀ s body, ∃ s' r, on_request s body = Ret (s', r) ∧ from_option (fun b => zlen b <= 65531) True r) →
  zlen (wc_read_buf c) = WS_READ_BUF_SIZE → 0 <= wc_read_len c <= WS_READ_BUF_SIZE → Forall (fun b => 0 <= b) (wc_read_buf c) →
  (∃ r, process_ws_frames emit on_request (S (Z.to_nat (wc_read_len c))) c s = Some (Ret r))
  ∨ ∃ c' s', rtc (ws_moves emit on_request) (c, s) (c', s') ∧ ws_overflows c'.
Proof.
  intros Ha Hs Hl Hb. destruct (parser_safe emit on_request Ha (S (Z.to_nat (wc_read_len c))) c s) as [(r & E & _)|?];
    [by split|lia|left; by exists r|by right].
Qed.

(** A server that acknowledges every message with one byte. *)
Definition ack_request (s : list write) (body : list Z) : exec (list write * option (list Z)) := Ret (s, Some [1]).

Definition demo_waiting : ws_client_t := ws_receive demo_ws [130; 1; 7; 137].

Lemma ws_parser_safe_witness :
  (∃ r, process_ws_frames echo_emit ack_request (S (Z.to_nat (wc_read_len demo_waiting))) demo_waiting [] = Some (Ret r))
  ∨ ∃ c' s', rtc (ws_moves echo_emit ack_request) (demo_waiting, []) (c', s') ∧ ws_overflows c'.
Proof.
  apply (ws_parser_safe echo_emit ack_request demo_waiting []).
  - intros s body. exists s, (Some [1]). split; [reflexivity|]. vm_compute. discriminate.
  - vm_compute. reflexivity.
  - vm_compute. split; discriminate.
  - assert (E : forallb (fun b => 0 <=? b) (wc_read_buf demo_waiting) = true) by (vm_compute; reflexivity).
    apply List.Forall_forall. intros b Hb. rewrite List.forallb_forall in E. apply E in Hb. lia.
Defined.

(** *** When a length overflows *)

(** An unmasked text frame that announces 2^64 - 10 bytes, and a masked binary
    one that announces 2^64 - 14. *)
Definition ws_spin : list Z := [129; 127; 255; 255; 255; 255; 255; 255; 255; 246].
Definition ws_smash : list Z := [130; 255; 255; 255; 255; 255; 255; 255; 255; 242; 0; 0; 0; 0].

Lemma parse_spin r n : 10 <= n → ws_parse_header (ws_spin ++ r) n = Some (mkWsHeader WS_OPCODE_TEXT false (2 ^ 64 - 10) 10 []).
Proof.
  intros H. unfold ws_parse_header, ws_payload_len.
  change (byte_at (ws_spin ++ r) 0) with 129. change (byte_at (ws_spin ++ r) 1) with 127.
  rewrite (proj2 (Z.ltb_ge _ 2)), (proj2 (Z.ltb_ge _ 10)) by lia. done.
Qed.

Lemma parse_smash r n :
  14 <= n → ws_parse_header (ws_smash ++ r) n = Some (mkWsHeader WS_OPCODE_BINARY true (2 ^ 64 - 14) 14 [0; 0; 0; 0]).
Proof.
  intros H. unfold ws_parse_header, ws_payload_len.
  change (byte_at (ws_smash ++ r) 0) with 130. change (byte_at (ws_smash ++ r) 1) with 255.
  rewrite (proj2 (Z.ltb_ge _ 2)), (proj2 (Z.ltb_ge _ 10)) by lia.
  change (Z.land 255 127 =? 126) with false. change (Z.land 255 127 =? 127) with true.
  change (negb (Z.land 255 128 =? 0)) with true. cbn iota. by rewrite (proj2 (Z.ltb_ge _ _)) by lia.
Qed.

Section overflow.
Context {St : Type} (emit : St → write → St) (on_request : St → list Z → exec (St * option (list Z))).

(** The frame counts as zero bytes: the parser looks at it again, for ever. *)
Lemma spin_step c rest s :
  ws_holds c (ws_spin ++ rest) →
  ws_frame_step emit on_request c s = Ret (More (ws_consume c 0) s) ∧ ws_holds (ws_consume c 0) (ws_spin ++ rest).
Proof.
  intros Hc. split.
  - destruct Hc as (_ & Hr & stale & Eb). unfold ws_frame_step. rewrite Hr, Eb. rewrite zlen_app.
    change (zlen ws_spin) with 10. pose proof (zlen_nonneg rest).
    rewrite (proj2 (Z.leb_gt _ _)) by lia. rewrite <- (assoc_L (++)), parse_spin by lia.
    cbn [wh_masked wh_size wh_payload_len wh_opcode]. change (u64 (10 + (2 ^ 64 - 10))) with 0.
    rewrite (proj2 (Z.ltb_ge _ 0)) by lia. cbn [ws_unmask wh_masked xbind].
    replace (wc_with_buf c _ _) with c; [done|]. destruct c as [fd tls se buf len up key]. cbn [wc_read_buf wc_read_len] in *.
    unfold wc_with_buf. cbn [wc_fd wc_tls wc_session wc_ws_upgraded wc_ws_mask_key]. rewrite zlen_app in Hr.
    change (zlen ws_spin) with 10 in Hr. by rewrite Hr, Eb, <- (assoc_L (++)).
  - apply (ws_consume_holds c [] (ws_spin ++ rest)) in Hc. exact Hc.
Qed.

Lemma ws_length_overflow_spins c rest s fuel :
  ws_holds c (ws_spin ++ rest) → process_ws_frames emit on_request fuel c s = None.
Proof.
  revert c. induction fuel as [|fuel IH]; intros c Hc; [done|]. cbn [process_ws_frames].
  destruct (spin_step c rest s Hc) as [-> Hc']. by apply IH.
Qed.

(** Unmasking runs over the end of the read buffer. *)
Lemma ws_length_overflow_smashes c rest s fuel :
  ws_holds c (ws_smash ++ rest) → process_ws_frames emit on_request (S fuel) c s = Some Trap.
Proof.
  intros (Hl & Hr & stale & Eb). cbn [process_ws_frames]. unfold ws_frame_step. rewrite Hr, zlen_app.
  change (zlen ws_smash) with 14. pose proof (zlen_nonneg rest). rewrite (proj2 (Z.leb_gt _ _)) by lia.
  rewrite Eb, <- (assoc_L (++)), parse_smash by lia.
  cbn [wh_masked wh_size wh_payload_len wh_opcode wh_key]. change (u64 (14 + (2 ^ 64 - 14))) with 0.
  rewrite (proj2 (Z.ltb_ge _ 0)) by lia. unfold ws_unmask. cbn [wh_masked wh_size wh_payload_len wc_read_buf wc_with_key].
  unfold slice. rewrite Hl. by vm_compute.
Qed.
End overflow.
