(* ===== verification/WebSocketTable.v ===== *)
(** * WebSocketTable: the clients of the WebSocket transport

    The table of clients and the sessions in memory agree through every sequence
    of connections, reads and hang-ups; no WebSocket client is ever registered for
    events; and what a close frame that arrives with a hang-up does. *)

From stdpp Require Import gmap.
From S2P Require Import Prelude CString Bitset Bloom ElasticBloom AttenuatedBloom Cbor CborWire Endian Base58.
From S2P Require Import MessageId Node NodeId Packet ChannelPacket Subtopic TopicAlias Notice Ring Route Protocol.
From S2P Require Import Quasar Channel ChannelManager ManagerTheorems ClientProtocol ClientStream ClientSession.
From S2P Require Import SessionTheorems Transport WebSocket TransportTheorems WebSocketTheorems.

(** ** The parser keeps its client *)

Definition nonneg (l : list Z) : Prop := Forall (fun b => 0 <= b) l.

Lemma unmask_keeps buf h buf' :
  nonneg buf → nonneg (wh_key h) → 0 <= wh_size h → 0 <= wh_payload_len h →
  ws_unmask buf h = Ret buf' → zlen buf' = zlen buf ∧ nonneg buf'.
Proof.
  intros Hb Hk H1 H2 E. destruct (decide (wh_size h + wh_payload_len h <= zlen buf)) as [Hle|Hgt].
  - destruct (unmask_ok buf h Hb Hk H1 H2 Hle) as (b & Eb & Hl & Hn). rewrite Eb in E. by injection E as <-.
  - unfold ws_unmask in E. destruct (wh_masked h); [|by injection E as <-].
    unfold slice in E. by rewrite (proj2 (Z.ltb_lt _ _)) in E by lia.
Qed.

Section keep.
Context {St : Type} (emit : St → write → St) (on_request : St → list Z → exec (St * option (list Z))).
Context (P : St → Prop) (emit_keeps : ∀ s w, P s → P (emit s w)).
Context (request_keeps : ∀ s b s' r, P s → on_request s b = Ret (s', r) → P s').

Lemma pong_keeps c h s s' : P s → ws_pong emit c h s = Ret s' → P s'.
Proof.
  intros H. unfold ws_pong. destruct (_ <=? 0); [intros [= <-]; by apply emit_keeps|].
  intros (p & _ & [= <-])%bind_ret. by apply emit_keeps, emit_keeps.
Qed.

Lemma binary_keeps c h s s' : P s → ws_binary emit on_request c h s = Ret s' → P s'.
Proof.
  intros H. unfold ws_binary. destruct (_ <? _); [by intros [= <-]|].
  intros ([ok len] & _ & E)%bind_ret. destruct (negb _); [by injection E as <-|].
  apply bind_ret in E as (body & _ & E). apply bind_ret in E as ([s1 r] & Er & E). apply request_keeps in Er; [|done].
  destruct r; [|by injection E as <-]. apply bind_ret in E as (f & _ & E). injection E as <-. by apply emit_keeps.
Qed.

Definition flow_ok (c : ws_client_t) (f : ws_flow St) : Prop :=
  match f with
  | Wait c' s | More c' s => ws_wf c' ∧ ws_conn c' = ws_conn c ∧ P s
  | Freed s => P s
  end.

Lemma step_keeps c s f : ws_wf c → P s → ws_frame_step emit on_request c s = Ret f → flow_ok c f.
Proof.
  intros Hc Hs. unfold ws_frame_step. destruct (_ <=? 0); [by intros [= <-]|].
  destruct (ws_parse_header _ _) as [h|] eqn:Eh; [|by intros [= <-]].
  destruct (parse_bounds _ _ _ (ww_bytes c Hc) Eh) as (Hsz & Hn & Hp & Hk). set (c1 := if wh_masked h then _ else c).
  assert (H1 : ws_wf c1 ∧ ws_conn c1 = ws_conn c ∧ wc_read_buf c1 = wc_read_buf c ∧ wc_read_len c1 = wc_read_len c)
    by (unfold c1; destruct (wh_masked h); destruct Hc; by split_and!).
  destruct H1 as (Hw1 & Ec1 & Eb1 & El1). set (total := u64 _).
  destruct (Z.ltb_spec (wc_read_len c) total); [by intros [= <-]|].
  intros (buf & Eu & E)%bind_ret. rewrite Eb1 in Eu. apply unmask_keeps in Eu as [Hl Hb]; [|apply Hc|done|lia|done].
  assert (Hw2 : ws_wf (wc_with_buf c1 buf (wc_read_len c))) by (destruct Hc; split; cbn; [congruence|done|done]).
  assert (0 <= total) by apply u64_range.
  destruct (ws_consume_wf _ total Hw2) as [Hw3 _]; [cbn; lia|].
  destruct (_ =? WS_OPCODE_CLOSE); [injection E as <-; by apply emit_keeps|].
  destruct (_ =? WS_OPCODE_PING); [apply bind_ret in E as (s1 & E1 & E); injection E as <-; apply pong_keeps in E1; done|].
  destruct (_ =? WS_OPCODE_BINARY); [apply bind_ret in E as (s1 & E1 & E); injection E as <-; apply binary_keeps in E1; done|].
  by injection E as <-.
Qed.

Definition read_ok (conn : Z * bool * Z) (r : ws_client_t * St + St) : Prop :=
  match r with
  | inl (c', s) => ws_wf c' ∧ (wc_fd c', wc_tls c', wc_session c') = conn ∧ P s
  | inr s => P s
  end.

Lemma process_keeps fuel c s r :
  ws_wf c → P s → process_ws_frames emit on_request fuel c s = Some (Ret r) →
  read_ok (wc_fd c, wc_tls c, wc_session c) r.
Proof.
  revert c s. induction fuel as [|fuel IH]; intros c s Hc Hs; [done|]. cbn [process_ws_frames].
  destruct (ws_frame_step _ _ c s) as [f|] eqn:Ef; [|done]. apply step_keeps in Ef; [|done..].
  destruct f as [c' s'|c' s'|s']; cbn in Ef.
  - intros [= <-]. destruct Ef as (Hw & [= E1 E2 E3 _] & Hp). cbn. by rewrite E1, E2, E3.
  - destruct Ef as (Hw & [= E1 E2 E3 _] & Hp). intros E. apply IH in E; [|done..]. by rewrite E1, E2, E3 in E.
  - by intros [= <-].
Qed.

Lemma ws_receive_wf c bytes :
  ws_wf c → nonneg bytes → wc_read_len c + zlen bytes <= WS_READ_BUF_SIZE → ws_wf (ws_receive c bytes).
Proof.
  intros [Hs Hl Hb] Hn Hroom. pose proof (zlen_nonneg bytes). split; cbn [ws_receive wc_read_buf wc_read_len wc_with_buf].
  - unfold zlen in *. rewrite !length_app, length_take, length_drop. lia.
  - lia.
  - apply Forall_app_2; [by apply Forall_take|]. apply Forall_app_2; [done|by apply Forall_drop].
Qed.

Lemma upgrade_keeps c s c' s' :
  ws_wf c → P s → handle_ws_upgrade emit c s = Ret (Some (c', s')) →
  ws_wf c' ∧ (wc_fd c', wc_tls c', wc_session c') = (wc_fd c, wc_tls c, wc_session c) ∧ P s'.
Proof.
  intros Hc Hs. unfold handle_ws_upgrade. destruct (memmem _ (CRLF ++ CRLF)) as [e|] eqn:Ee; [|done].
  assert (Hgo : (match memmem (take (Z.to_nat (wc_read_len c)) (wc_read_buf c)) (lit "Sec-WebSocket-Key:") with
     | None => Ret None
     | Some k =>
         key_start <- skip_spaces (drop (k + 18) (wc_read_buf c)) ;;
         found <- strstr_crlf key_start ;;
         if negb found then Ret None
         else Ret (Some (wc_with_upgraded (ws_consume c (Z.of_nat e + 4)), emit s (ws_write c WS_UPGRADE_RESPONSE)))
     end) = Ret (Some (c', s')) →
     ws_wf c' ∧ (wc_fd c', wc_tls c', wc_session c') = (wc_fd c, wc_tls c, wc_session c) ∧ P s').
  { destruct (memmem _ (lit "Sec-WebSocket-Key:")) as [k|]; [|done].
    intros (x & _ & E)%bind_ret. apply bind_ret in E as (found & _ & E). destruct found; [|done]. injection E as <- <-.
    apply memmem_bound in Ee. cbn [length CRLF app] in Ee. pose proof (ww_len c Hc). rewrite length_take in Ee.
    destruct (ws_consume_wf c (Z.of_nat e + 4) Hc) as [[Hs1 Hl1 Hb1] _]; [lia|].
    split_and!; [by split|done|by apply emit_keeps]. }
  destruct (memmem _ (lit "Upgrade: websocket")); [exact Hgo|].
  destruct (memmem _ (lit "Upgrade: WebSocket")); [exact Hgo|done].
Qed.

Lemma client_read_keeps c bytes s r :
  ws_wf c → nonneg bytes → wc_read_len c + zlen bytes <= WS_READ_BUF_SIZE → P s →
  ws_client_read emit on_request c bytes s = Some (Ret r) → read_ok (wc_fd c, wc_tls c, wc_session c) r.
Proof.
  intros Hc Hn Hroom Hs. unfold ws_client_read. pose proof (ws_receive_wf c bytes Hc Hn Hroom) as Hc1.
  destruct (wc_ws_upgraded (ws_receive c bytes)); [by apply (process_keeps _ (ws_receive c bytes))|].
  destruct (handle_ws_upgrade emit _ s) as [[[c2 s2]|]|] eqn:Eu; [| |done].
  - apply upgrade_keeps in Eu as (Hw & [= E1 E2 E3] & Hp); [|done..]. intros E. apply process_keeps in E; [|done..].
    by rewrite E1, E2, E3 in E.
  - by intros [= <-].
Qed.
End keep.

(** ** The table *)

Section table.
Context {K : Type} `{!SignatureScheme K} `{!EqDecision K}.

Record ws_server_wf (L : list Z) (s : ws_server K) : Prop := {
  wv_distinct : base.NoDup (map wc_session (ws_clients s));
  wv_live : ∀ a, is_Some (dm_heap (sd_daemon (ws_served s)) !! a) ↔ a ∈ map wc_session (ws_clients s);
  wv_addrs : Forall (fun a => a < ws_next_addr s) (map wc_session (ws_clients s));
  wv_room : zlen (ws_clients s) <= WS_MAX_CLIENTS;
  wv_clients : Forall ws_wf (ws_clients s);
  wv_registry : m_sessions (dm_mgr (sd_daemon (ws_served s))) = L
}.

Lemma ws_no_session L s a : ws_server_wf L s → ws_next_addr s <= a → dm_heap (sd_daemon (ws_served s)) !! a = None.
Proof.
  intros H Ha. apply eq_None_not_Some. rewrite (wv_live L s H). intros Hin.
  pose proof (wv_addrs L s H) as F. rewrite list.Forall_forall in F. specialize (F a Hin). cbn in F. lia.
Qed.

Lemma ws_accept_wf L s accepted tls watcher : ws_server_wf L s → ws_server_wf L (ws_accept_callback s accepted tls watcher).
Proof.
  intros H. unfold ws_accept_callback. destruct accepted as [fd|]; [|done].
  destruct (Z.leb_spec WS_MAX_CLIENTS (zlen (ws_clients s))) as [|Hroom]; [done|].
  pose proof (ws_no_session L s (ws_next_addr s) H ltac:(lia)) as Hnone.
  assert (Haddr : Forall (fun a => a < ws_next_addr s + 1) (map wc_session (ws_clients s)))
    by (eapply List.Forall_impl; [|apply (wv_addrs L s H)]; cbn; lia).
  assert (Hdrop : ∀ b, ws_server_wf L (ws_with (ws_client_create s fd b).2 (ws_clients s)
    (sd_drop_session (ws_served (ws_client_create s fd b).2) (ws_next_addr s)))).
  { intros b. destruct H. constructor; cbn; try done. intros a. by rewrite delete_insert_id. }
  unfold ws_client_create in *. destruct tls as [b|]; cbn [default from_option id]; [|apply (Hdrop false)].
  destruct watcher; [|apply (Hdrop b)]. cbn [negb].
  assert (Hnew : ws_next_addr s ∉ map wc_session (ws_clients s)).
  { rewrite <- (wv_live L s H), Hnone. by intros [? ?]. }
  destruct H. constructor; cbn [ws_with ws_clients ws_served ws_next_addr sd_with_daemon sd_daemon put_session dm_heap dm_mgr];
    rewrite ?map_app; cbn [map wc_session].
  - apply list.NoDup_app. split_and!; [done| |apply list.NoDup_singleton]. intros x Hx ->%list_elem_of_singleton. done.
  - intros a. rewrite elem_of_app, list_elem_of_singleton, <- wv_live0. destruct (decide (a = ws_next_addr s)) as [->|Hne].
    + rewrite lookup_insert_eq. split; [by right|by eexists].
    + rewrite lookup_insert_ne by done. split; [by left|]. by intros [?|?].
  - apply Forall_app_2; [done|]. constructor; [lia|constructor].
  - rewrite zlen_snoc. lia.
  - apply Forall_app_2; [done|]. constructor; [|constructor]. split; cbn [wc_read_buf wc_read_len].
    + unfold zlen, zeros. by rewrite length_replicate.
    + unfold WS_READ_BUF_SIZE. lia.
    + apply Forall_replicate. lia.
  - done.
Qed.

(** Handling requests moves no session. *)
Lemma ws_frames_wf L s s' :
  ws_server_wf L s → same_conns (sd_daemon (ws_served s)) (sd_daemon (ws_served s')) →
  map wc_session (ws_clients s') = map wc_session (ws_clients s) → ws_next_addr s' = ws_next_addr s →
  Forall ws_wf (ws_clients s') → ws_server_wf L s'.
Proof.
  intros [] [Hr Hh] Es En Hc. constructor; rewrite ?Es, ?En, ?Hr; try done.
  - intros a. rewrite <- wv_live0. specialize (Hh a).
    destruct (dm_heap (sd_daemon (ws_served s')) !! a), (dm_heap (sd_daemon (ws_served s)) !! a); done.
  - apply (f_equal length) in Es. rewrite !length_map in Es. unfold zlen in *. by rewrite Es.
Qed.

Lemma ws_disconnect_wf L s c i :
  ws_server_wf L s → map wc_session (ws_clients s) !! i = Some (wc_session c) →
  ws_server_wf L (ws_client_disconnect s (ws_served s) c).
Proof.
  intros H Hi. unfold ws_client_disconnect. rewrite <- (find_index_map wc_session (fun a => a =? wc_session c)).
  destruct (find_index _ _) as [j|] eqn:Ej.
  2:{ exfalso. apply find_index_None in Ej. rewrite list.Forall_forall in Ej.
      specialize (Ej _ (list_elem_of_lookup_2 _ _ _ Hi)). cbn in Ej. lia. }
  apply find_index_Some in Ej as (a & Hj & Ha & _). apply Z.eqb_eq in Ha as ->.
  change (map ?f) with (fmap (M := list) f) in Hj.
  rewrite list_lookup_fmap in Hj. apply fmap_Some in Hj as (c' & Hj & Es). pose proof (swap_remove_elem j _ c' Hj) as P.
  pose proof (Permutation_map wc_session P) as Ps. cbn [map] in Ps. rewrite <- Es in Ps.
  destruct H. rewrite Ps in wv_distinct0, wv_addrs0. apply list.NoDup_cons in wv_distinct0 as [Hout Hnd].
  apply Forall_cons_1 in wv_addrs0 as [_ Haddr]. rewrite P in wv_clients0. apply Forall_cons_1 in wv_clients0 as [_ Hcl].
  constructor; cbn [ws_with ws_clients ws_served ws_next_addr sd_drop_session sd_with_daemon sd_daemon client_session_destroy dm_heap dm_mgr]; try done.
  - intros a. destruct (decide (a = wc_session c)) as [->|Hne].
    + rewrite lookup_delete_eq. split; [by intros [? ?]|done].
    + rewrite lookup_delete_ne by done. rewrite wv_live0, Ps, elem_of_cons. split; [by intros [?|?]|by right].
  - unfold zlen in *. rewrite swap_remove_length by by eapply lookup_lt_Some. lia.
Qed.

Lemma ws_stop_wf L s : ws_server_wf L s → ws_server_wf L (ws_transport_stop s).
Proof.
  intros H. unfold ws_transport_stop. destruct (ws_running s); [|done]. cbn [negb].
  assert (G : ∀ l (sd : served K), (∀ a, is_Some (dm_heap (sd_daemon sd) !! a) → a ∈ map wc_session l) →
    m_sessions (dm_mgr (sd_daemon sd)) = L →
    let sd' := fold_left (fun sd c => sd_drop_session sd (wc_session c)) l sd in
    dm_heap (sd_daemon sd') = ∅ ∧ m_sessions (dm_mgr (sd_daemon sd')) = L).
  { induction l as [|c l IH]; intros sd Hd Hm; cbn [fold_left].
    - split; [|done]. apply map_eq. intros a. rewrite lookup_empty. apply eq_None_not_Some. intros Ha%Hd. by apply elem_of_nil in Ha.
    - apply IH; [|done]. cbn. intros a. destruct (decide (a = wc_session c)) as [->|Hne]; [rewrite lookup_delete_eq; by intros [? ?]|].
      rewrite lookup_delete_ne by done. intros Ha%Hd. cbn in Ha. apply elem_of_cons in Ha as [?|?]; done. }
  destruct (G (ws_clients s) (ws_served s)) as [Gh Gm]; [intros a; by apply (wv_live L s H)|apply (wv_registry L s H)|].
  constructor; cbn; try done; try constructor.
  - rewrite Gh, lookup_empty. by intros [? ?].
  - by intros ?%elem_of_nil.
Qed.

Context (blake3 : list Z → list Z) (XXH3 : list Z → Z → Z) (clock : Z → Z * Z).
Context (DatagramSend : Z → list Z → bool) (time_us mono_us : world → Z).
Context (connect : Z → Z → option Z * bool).
Context (cbor_load : list Z → option cbor_item) (cbor_serialize_alloc : cbor_item → list Z).
Context (new_key : option K) (create : list Z → Z → exec (option (poseidon_channel_t K))).
Local Abbreviation read_at := (ws_read_callback_at blake3 XXH3 clock DatagramSend time_us mono_us connect cbor_load
  cbor_serialize_alloc new_key create).

Definition conns_kept (d : daemon_t K) (st : option (served K)) : Prop :=
  from_option (fun sd => same_conns d (sd_daemon sd)) True st.

Lemma ws_request_conns fuel session (d : daemon_t K) st body st' r :
  conns_kept d st →
  ws_on_request blake3 XXH3 clock DatagramSend time_us mono_us connect cbor_load cbor_serialize_alloc new_key create
    fuel session st body = Ret (st', r) → conns_kept d st'.
Proof.
  intros H. unfold ws_on_request. destruct st as [sd|]; [|by intros [= <- <-]]. cbn in H.
  destruct (cbor_load body) as [item|]; [|by intros [= <- <-]].
  intros ([frame|] & _ & E)%bind_ret; [|by injection E as <- <-].
  pose proof (conns_request blake3 XXH3 clock DatagramSend time_us mono_us connect cbor_load cbor_serialize_alloc
    new_key create fuel (sd_daemon sd) session frame (sd_world sd)) as R.
  destruct (client_session_handle_request _ _ _ _ _ _ _ _ _ _ _ _ _ _ _ _) as [[o|]|]; [|done|by injection E as <- <-].
  injection E as <- <-. cbn in R |- *. by etrans.
Qed.

Lemma ws_emit_conns (d : daemon_t K) st w : conns_kept d st → conns_kept d (ws_emit st w).
Proof. by destruct st. Qed.

(** [recv] returns octets, at most as many as it was asked for. *)
Definition ws_recv_fits (s : ws_server K) (i : nat) (e : sock_event) : Prop :=
  ∀ c bytes, ws_clients s !! i = Some c → ev_read e = Some (Some bytes) →
    nonneg bytes ∧ wc_read_len c + zlen bytes <= WS_READ_BUF_SIZE.

Lemma ws_read_wf L fuel s s' i e :
  ws_server_wf L s → ws_recv_fits s i e → read_at fuel s i e = Some (Ret s') → ws_server_wf L s'.
Proof.
  intros H Hfit. unfold ws_read_callback_at. destruct (ws_clients s !! i) as [c|] eqn:Hi; [|by intros [= <-]].
  assert (His : map wc_session (ws_clients s) !! i = Some (wc_session c)).
  { change (map ?f) with (fmap (M := list) f). by rewrite list_lookup_fmap, Hi. }
  pose proof (ws_disconnect_wf L s c i H His) as Hd.
  destruct (ev_read e) as [[bytes|]|] eqn:Er; [|by intros [= <-]|intros [= <-]; by destruct (_ || _)].
  destruct (Hfit c bytes Hi Er) as [Hn Hroom]. pose proof (wv_clients L s H) as Hcl.
  pose proof (Forall_lookup_1 _ _ _ _ Hcl Hi) as Hc.
  destruct (ws_client_read _ _ c bytes _) as [[r|]|] eqn:Ec; [|done|done]. cbn [rbind].
  apply (client_read_keeps _ _ (conns_kept (sd_daemon (ws_served s)))) in Ec;
    [|intros; by apply ws_emit_conns|intros; by eapply ws_request_conns|done|done|done|done].
  destruct r as [[c' [sd|]]|[sd|]]; [|done| |done].
  - destruct Ec as (Hw & [= E1 E2 E3] & Hk). cbn in Hk.
    assert (Em : map wc_session (<[i:=c']> (ws_clients s)) = map wc_session (ws_clients s)).
    { change (map ?f) with (fmap (M := list) f). rewrite list_fmap_insert, list_insert_id; [done|].
      by rewrite list_lookup_fmap, Hi, E3. }
    assert (H1 : ws_server_wf L (ws_with s (<[i:=c']> (ws_clients s)) sd)).
    { apply (ws_frames_wf L s); try done. by apply Forall_insert. }
    intros [= <-]. destruct (_ && _); [|done]. apply (ws_disconnect_wf L (ws_with s (<[i:=c']> (ws_clients s)) sd) c i H1).
    cbn. by rewrite Em.
  - destruct (_ || _); [done|]. intros [= <-].
    assert (H1 : ws_server_wf L (ws_with s (ws_clients s) sd)) by (by apply (ws_frames_wf L s)).
    by apply (ws_disconnect_wf L (ws_with s (ws_clients s) sd) c i H1).
Qed.

(** What happens to a WebSocket transport. *)
Inductive ws_step (s : ws_server K) : ws_server K → Prop :=
| wstep_accept accepted tls watcher : ws_step s (ws_accept_callback s accepted tls watcher)
| wstep_read fuel i e s' : ws_recv_fits s i e → read_at fuel s i e = Some (Ret s') → ws_step s s'
| wstep_stop : ws_step s (ws_transport_stop s).

Lemma ws_step_wf L s s' : ws_step s s' → ws_server_wf L s → ws_server_wf L s'.
Proof.
  intros [accepted tls watcher|fuel i e s1 Hf E|] H; [by apply ws_accept_wf|by eapply ws_read_wf|by apply ws_stop_wf].
Qed.
End table.

(** The WebSocket table: from a transport without clients, through any
    sequence of connections, failed handshakes, reads with the requests they
    carry, hang-ups, errors and the stop of the transport, the sessions in memory
    are exactly those of the connected clients, there are at most 256, every read
    buffer keeps its size, and the registry of the manager never changes: no
    WebSocket client is ever sent an event it subscribed to. *)
Theorem ws_table_invariant {K} `{!SignatureScheme K} `{!EqDecision K} blake3 XXH3 clock send time mono conn load
    ser new_key create (d : daemon_t K) out w s :
  dm_heap d = ∅ →
  rtc (ws_step blake3 XXH3 clock send time mono conn load ser new_key create)
    (mkWsServer [] 1 true 1 (mkServed d out w)) s →
  base.NoDup (map wc_session (ws_clients s)) ∧
  (∀ a, is_Some (dm_heap (sd_daemon (ws_served s)) !! a) ↔ a ∈ map wc_session (ws_clients s)) ∧
  zlen (ws_clients s) <= WS_MAX_CLIENTS ∧
  Forall (fun c => zlen (wc_read_buf c) = WS_READ_BUF_SIZE ∧ 0 <= wc_read_len c <= WS_READ_BUF_SIZE) (ws_clients s) ∧
  m_sessions (dm_mgr (sd_daemon (ws_served s))) = m_sessions (dm_mgr d).
Proof.
  intros Hh Hs.
  assert (H : ws_server_wf (m_sessions (dm_mgr d)) (mkWsServer [] 1 true 1 (mkServed d out w))).
  { constructor; cbn; try done; try constructor.
    - rewrite Hh, lookup_empty. by intros [? ?].
    - by intros ?%elem_of_nil. }
  apply (rtc_ind_r (ws_server_wf (m_sessions (dm_mgr d))) _ H) in Hs as [];
    [|intros x y _ Hxy Hx; by eapply ws_step_wf].
  split_and!; try done. eapply List.Forall_impl; [|exact wv_clients0]. by intros c [].
Qed.

Definition demo_ws_server : ws_server (list Z) := mkWsServer [] 1 true 1 (mkServed demo_idle [] (mkWorld 0 [])).

Lemma ws_table_invariant_witness :
  let s := ws_accept_callback (ws_accept_callback demo_ws_server (Some 7) (Some false) true) (Some 8) None true in
  map wc_session (ws_clients s) = [1] ∧ (is_Some (dm_heap (sd_daemon (ws_served s)) !! 2) → False).
Proof.
  intros s. destruct (ws_table_invariant toy_blake3 (fun _ s => s) (fun g => (0, g)) (fun _ _ => true) (fun _ => 0)
    (fun _ => 0) (fun _ _ => (None, false)) cbor_load cbor_serialize_alloc None (fun _ _ => Ret None)
    demo_idle [] (mkWorld 0 []) s) as (_ & Hl & _).
  - reflexivity.
  - eapply rtc_l; [apply (wstep_accept _ _ _ _ _ _ _ _ _ _ _ demo_ws_server (Some 7) (Some false) true)|].
    eapply rtc_l; [apply (wstep_accept _ _ _ _ _ _ _ _ _ _ _ _ (Some 8) None true)|]. apply rtc_refl.
  - split; [vm_compute; reflexivity|]. rewrite Hl. intros H.
    assert (E : map wc_session (ws_clients s) = [1]) by (vm_compute; reflexivity). rewrite E in H.
    apply list_elem_of_singleton in H. discriminate H.
Defined.

(** A close frame that arrives together with the hang-up of the peer frees the
    client in the parser and disconnects it again in the callback. *)
Lemma ws_close_hangup_double_free (s : ws_server (list Z)) send bytes fuel :
  let c := mkWs 7 false 1 (zeros (Z.to_nat WS_READ_BUF_SIZE)) 0 true (zeros 4) in
  ws_clients s = [c] → bytes = rfc_frame (mkMsg 8 WS_OPCODE_CLOSE None []) →
  ws_read_callback_at toy_blake3 (fun _ s => s) (fun g => (0, g)) send (fun _ => 0) (fun _ => 0)
    (fun _ _ => (None, false)) cbor_load cbor_serialize_alloc None (fun _ _ => Ret None) fuel s 0
    (mkSockEvent (Some (Some bytes)) true false) = Some Trap.
Proof.
  intros c Hc ->. unfold ws_read_callback_at. rewrite Hc. change ([c] !! 0%nat) with (Some c). cbn [ev_read ev_hangup ev_error].
  by vm_compute.
Qed.
