(* ===== verification/StreamTransport.v ===== *)
(** * StreamTransport: what the QUIC and WebTransport servers share

    [src/ClientAPIs/transport_quic.c] and [transport_webtransport.c] frame the
    client protocol over the byte stream of one bidirectional stream per client.
    They receive lists of buffers from callbacks instead of reading a socket, so
    their read buffer grows, and an unacceptable frame header empties it.  This
    file holds the text the two sources have in common, and the reference count of
    msquic ([src/Network/Meridian/msquic_singleton.c]).

    Callbacks and calls of the transport run one at a time.  What msquic and
    libwtf return ([StreamSend], [wtf_stream_send], the opening of handles) and
    whether [realloc] serves a size are arguments; the calls made to them are
    logged. *)

From stdpp Require Import gmap.
From S2P Require Import Prelude CString Bitset Bloom ElasticBloom AttenuatedBloom Cbor CborWire Endian Base58.
From S2P Require Import MessageId Node NodeId Packet ChannelPacket Subtopic TopicAlias Notice Ring Route Protocol.
From S2P Require Import Quasar Channel ChannelManager ClientProtocol ClientStream ClientSession Transport.

(** ** msquic, opened once *)

Record msquic_singleton := mkMsquic {
  g_msquic : option Z;
  g_msquic_refcount : Z
}.

(** [opened] is the table [MsQuicOpen2] yields, if it succeeds. *)
Definition poseidon_msquic_open (g : msquic_singleton) (opened : option Z) : option Z * msquic_singleton :=
  match g_msquic g with
  | None =>
      match opened with
      | None => (None, g)
      | Some table => (Some table, mkMsquic (Some table) 1)
      end
  | Some table => (Some table, mkMsquic (Some table) (u32 (g_msquic_refcount g + 1)))
  end.

(** The flag says whether [MsQuicClose] was called. *)
Definition poseidon_msquic_close (g : msquic_singleton) : bool * msquic_singleton :=
  match g_msquic g with
  | None => (false, g)
  | Some table =>
      if g_msquic_refcount g =? 0 then (false, g)
      else
        let n := u32 (g_msquic_refcount g - 1) in
        if n =? 0 then (true, mkMsquic None 0) else (false, mkMsquic (Some table) n)
  end.

(** ** Calls *)

(** Handles a transport opens once. *)
Inductive net_handle := Registration | Configuration | Listener | WtfContext | WtfServer.

(** What a transport asks of msquic or libwtf: bytes on a stream, the number of
    received bytes it is done with, the end of a stream or connection, the release
    of a handle. *)
Inductive net_call :=
| StreamSend (stream : Z) (bytes : list Z)
| StreamReceiveComplete (stream n : Z)
| StreamShutdown (stream : Z)
| ConnectionShutdown (connection : Z)
| ConnectionClose (connection : Z)
| HandleClose (h : net_handle).

Definition is_send (c : net_call) : bool := match c with StreamSend _ _ => true | _ => false end.

(** [QUIC_BUFFER] and [wtf_buffer_t] have 32-bit lengths. *)
Definition net_buffer (bytes : list Z) : list Z := take (Z.to_nat (u32 (zlen bytes))) bytes.

(** A frame on a stream; [sends] is whether the library takes it. *)
Definition send_frame_on (sends : Z → list Z → bool) (stream : option Z) (data : list Z) : Z * list net_call :=
  match stream with
  | None => (-1, [])
  | Some st =>
      let buf := net_buffer (frame_bytes data) in
      if sends st buf then (0, [StreamSend st buf]) else (-1, [])
  end.

(** ** The read buffer *)

(** The capacity for [need] bytes: doubled until it suffices.  [None]: the loop
    has not ended after [fuel] rounds. *)
Fixpoint grow_cap (fuel : nat) (new_cap need : Z) : option Z :=
  if new_cap <? need then
    match fuel with
    | O => None
    | S fuel' => grow_cap fuel' (u64 (new_cap * 2)) need
    end
  else Some new_cap.

Definition received_total (buffers : list (list Z)) : Z := fold_left (fun n b => n + zlen b) buffers 0.

(** One [memcpy] per buffer; writing past the capacity is [Trap]. *)
Fixpoint append_buffers (cap : Z) (buf : list Z) (buffers : list (list Z)) : exec (list Z) :=
  match buffers with
  | [] => Ret buf
  | b :: buffers' => if cap <? zlen buf + zlen b then Trap else append_buffers cap (buf ++ b) buffers'
  end.

(** Room for the buffers and their bytes in it: [Some (Ret None)] when [realloc]
    fails, [None] when the doubling does not end. *)
Definition receive_buffers (realloc : Z → bool) (buf : list Z) (cap : Z) (buffers : list (list Z))
  : run (option (list Z * Z)) :=
  let need := zlen buf + received_total buffers in
  if cap <? need then
    match grow_cap 64 cap need with
    | None => None
    | Some new_cap =>
        if realloc new_cap then lift (buf' <- append_buffers new_cap buf buffers ;; Ret (Some (buf', new_cap)))
        else Some (Ret None)
    end
  else lift (buf' <- append_buffers cap buf buffers ;; Ret (Some (buf', cap))).

Section frames.
Context {St : Type} (on_frame : St → list Z → exec St).

(** The loop of [process_stream_data]: as the socket transports, except that an
    unacceptable header empties the buffer. *)
Fixpoint stream_frames (fuel : nat) (buf : list Z) (s : St) : exec (list Z * St) :=
  match fuel with
  | O => Ret (buf, s)
  | S fuel' =>
      if zlen buf <? Z.of_nat UNIX_FRAME_HEADER_SIZE then Ret (buf, s)
      else
        '(ok, len) <- read_frame_header buf ;;
        if negb ok then Ret ([], s)
        else
          let total_len := (UNIX_FRAME_HEADER_SIZE + Z.to_nat len)%nat in
          if (length buf <? total_len)%nat then Ret (buf, s)
          else
            s' <- on_frame s (take (Z.to_nat len) (drop UNIX_FRAME_HEADER_SIZE buf)) ;;
            stream_frames fuel' (drop total_len buf) s'
  end.
End frames.

(** ** Requests *)

Section requests.
Context {K : Type} `{!SignatureScheme K} `{!EqDecision K}.
Context (blake3 : list Z → list Z) (XXH3 : list Z → Z → Z) (clock : Z → Z * Z).
Context (DatagramSend : Z → list Z → bool) (time_us mono_us : world → Z).
Context (connect : Z → Z → option Z * bool).
Context (cbor_load : list Z → option cbor_item) (cbor_serialize_alloc : cbor_item → list Z).
Context (new_key : option K) (create : list Z → Z → exec (option (poseidon_channel_t K))).

(** The daemon and the calls made so far. *)
Record net_served := mkNet {
  ns_daemon : daemon_t K;
  ns_calls : list net_call;
  ns_world : world
}.

Definition ns_with_daemon (s : net_served) (d : daemon_t K) : net_served := mkNet d (ns_calls s) (ns_world s).

Definition ns_call (s : net_served) (c : net_call) : net_served := mkNet (ns_daemon s) (ns_calls s ++ [c]) (ns_world s).

Section one_client.
Context (session : Z) (send : daemon_t K → Z → list Z → exec (Z * list net_call))
  (answer : list Z → list net_call).

(** The events of a request, each through the transport's [send]. *)
Fixpoint send_events (d : daemon_t K) (events : list (Z * list Z)) : exec (list net_call) :=
  match events with
  | [] => Ret []
  | (client_fd, data) :: events' =>
      '(_, calls) <- send d client_fd data ;;
      rest <- send_events d events' ;;
      Ret (calls ++ rest)
  end.

(** A decoded frame: handle it, send the events, answer. *)
Definition net_request (fuel : nat) (s : net_served) (frame : client_frame_t) : exec (option net_served) :=
  match client_session_handle_request blake3 XXH3 clock DatagramSend time_us mono_us connect cbor_load
          cbor_serialize_alloc new_key create fuel (ns_daemon s) session frame (ns_world s) with
  | None => Ret None
  | Some Trap => Trap
  | Some (Ret o) =>
      events <- send_events (o_daemon o) (o_sent o) ;;
      let response := from_option answer [] (client_protocol_serialize cbor_serialize_alloc (o_response o)) in
      Ret (Some (mkNet (o_daemon o) (ns_calls s ++ events ++ response) (o_world o)))
  end.

(** One frame: parse, decode, handle. *)
Definition net_frame (fuel : nat) (st : option net_served) (body : list Z) : exec (option net_served) :=
  match st with
  | None => Ret None
  | Some s =>
      match cbor_load body with
      | None => Ret (Some s)
      | Some item =>
          f <- client_protocol_decode (Some item) ;;
          match f with
          | None => Ret (Some s)
          | Some frame => net_request fuel s frame
          end
      end
  end.
End one_client.

(** Unsubscribe, unregister, free: the session part of [quic_client_destroy] and
    [wt_client_destroy]. *)
Definition net_session_destroy (s : net_served) (a : Z) : exec net_served :=
  d1 <- client_session_cleanup_subscriptions XXH3 (ns_daemon s) a ;;
  let d2 := dm_with_mgr d1 (poseidon_channel_manager_unregister_session (dm_mgr d1) a).2 in
  Ret (ns_with_daemon s (client_session_destroy d2 a)).
End requests.
Arguments net_served K : clear implicits.
