(* ===== verification/QuicTransport.v ===== *)
(** * QuicTransport: the QUIC transport of the daemon

    [src/ClientAPIs/transport_quic.c]: the clients of the transport, the callbacks
    of msquic for streams, connections and the listener, sending, starting and
    stopping.  A client is known by the address of its session; a callback whose
    context is a client that has been freed is [Trap]. *)

From stdpp Require Import gmap.
From S2P Require Import Prelude CString Bitset Bloom ElasticBloom AttenuatedBloom Cbor CborWire Endian Base58.
From S2P Require Import MessageId Node NodeId Packet ChannelPacket Subtopic TopicAlias Notice Ring Route Protocol.
From S2P Require Import Quasar Channel ChannelManager ClientProtocol ClientStream ClientSession Transport.
From S2P Require Import StreamTransport.

Definition QUIC_MAX_CLIENTS : Z := 256.
Definition QUIC_READ_BUF_SIZE : Z := 65536.
Definition QUIC_ALPN : list Z := lit "poseidon_client".

Inductive quic_status := QUIC_STATUS_SUCCESS | QUIC_STATUS_CONNECTION_REFUSED | QUIC_STATUS_OTHER.

(** [qc_read_buf] holds the valid bytes, [qc_read_cap] the size of the
    allocation. *)
Record quic_client_t := mkQuic {
  qc_connection : Z;
  qc_stream : option Z;
  qc_session : Z;
  qc_read_buf : list Z;
  qc_read_cap : Z;
  qc_stream_ready : bool;
  qc_shutting_down : bool
}.

Record quic_transport_data_t := mkQuicData {
  qd_registration : bool;
  qd_configuration : bool;
  qd_listener : bool;
  qd_clients : list quic_client_t;
  qd_stopping : bool
}.

Definition qc_with_buf (c : quic_client_t) (buf : list Z) (cap : Z) : quic_client_t :=
  mkQuic (qc_connection c) (qc_stream c) (qc_session c) buf cap (qc_stream_ready c) (qc_shutting_down c).

Definition qc_set_ready (c : quic_client_t) : quic_client_t :=
  mkQuic (qc_connection c) (qc_stream c) (qc_session c) (qc_read_buf c) (qc_read_cap c) true (qc_shutting_down c).

Definition qc_shut (c : quic_client_t) : quic_client_t :=
  mkQuic (qc_connection c) (qc_stream c) (qc_session c) (qc_read_buf c) (qc_read_cap c) (qc_stream_ready c) true.

Definition qd_with_clients (d : quic_transport_data_t) (l : list quic_client_t) : quic_transport_data_t :=
  mkQuicData (qd_registration d) (qd_configuration d) (qd_listener d) l (qd_stopping d).

Inductive quic_stream_event :=
| STREAM_START_COMPLETE
| STREAM_RECEIVE (buffers : list (list Z))
| STREAM_SEND_COMPLETE
| STREAM_PEER_SEND_SHUTDOWN
| STREAM_SHUTDOWN_COMPLETE.

Inductive quic_connection_event :=
| CONNECTION_CONNECTED
| CONNECTION_PEER_STREAM_STARTED (stream : Z)
| CONNECTION_SHUTDOWN_COMPLETE.

Inductive quic_listener_event :=
| LISTENER_NEW_CONNECTION (alpn : list Z)
| LISTENER_STOP_COMPLETE.

(** The listener looks at the protocol name; [configured] is the result of
    [ConnectionSetConfiguration]. *)
Definition quic_listener_callback (event : quic_listener_event) (configured : bool) : quic_status :=
  match event with
  | LISTENER_NEW_CONNECTION alpn =>
      if negb (zlen alpn =? zlen QUIC_ALPN) || negb (bool_decide (alpn = QUIC_ALPN)) then QUIC_STATUS_CONNECTION_REFUSED
      else if negb configured then QUIC_STATUS_OTHER else QUIC_STATUS_SUCCESS
  | LISTENER_STOP_COMPLETE => QUIC_STATUS_SUCCESS
  end.

(** The steps of the start that can fail. *)
Inductive quic_open := RegistrationOpen | ConfigurationOpen | ConfigurationLoadCredential | ListenerOpen | ListenerStart.

Section quic.
Context {K : Type} `{!SignatureScheme K} `{!EqDecision K}.
Context (blake3 : list Z → list Z) (XXH3 : list Z → Z → Z) (clock : Z → Z * Z).
Context (DatagramSend : Z → list Z → bool) (time_us mono_us : world → Z).
Context (connect : Z → Z → option Z * bool).
Context (cbor_load : list Z → option cbor_item) (cbor_serialize_alloc : cbor_item → list Z).
Context (new_key : option K) (create : list Z → Z → exec (option (poseidon_channel_t K))).
Context (sends : Z → list Z → bool) (realloc : Z → bool).

Record quic_server := mkQuicServer {
  qs_data : quic_transport_data_t;
  qs_running : bool;
  qs_next_session_id : Z;
  qs_next_addr : Z;
  qs_served : net_served K
}.

Definition qs_daemon (s : quic_server) : daemon_t K := ns_daemon (qs_served s).

Definition qs_clients (s : quic_server) : list quic_client_t := qd_clients (qs_data s).

Definition qs_with_clients (s : quic_server) (l : list quic_client_t) : quic_server :=
  mkQuicServer (qd_with_clients (qs_data s) l) (qs_running s) (qs_next_session_id s) (qs_next_addr s) (qs_served s).

Definition qs_with_served (s : quic_server) (sd : net_served K) : quic_server :=
  mkQuicServer (qs_data s) (qs_running s) (qs_next_session_id s) (qs_next_addr s) sd.

Definition qs_call (s : quic_server) (c : net_call) : quic_server := qs_with_served s (ns_call (qs_served s) c).

(** ** Clients *)

(** The scan reads the session of every client before the one it finds. *)
Fixpoint quic_find_client_by_id (d : daemon_t K) (clients : list quic_client_t) (session_id : Z)
  : exec (option quic_client_t) :=
  match clients with
  | [] => Ret None
  | c :: clients' =>
      s <- session_at d (qc_session c) ;;
      if se_session_id s =? session_id then Ret (Some c) else quic_find_client_by_id d clients' session_id
  end.

(** The session identifier is a static counter. *)
Definition quic_client_create (s : quic_server) (connection : Z) : quic_client_t * quic_server :=
  let a := qs_next_addr s in
  let d := put_session (qs_daemon s) a (client_session_create (qs_next_session_id s)) in
  (mkQuic connection None a [] QUIC_READ_BUF_SIZE false false,
   mkQuicServer (qs_data s) (qs_running s) (u32 (qs_next_session_id s + 1)) (a + 1) (ns_with_daemon (qs_served s) d)).

Definition quic_client_destroy (s : quic_server) (c : quic_client_t) : exec quic_server :=
  sd <- net_session_destroy XXH3 (qs_served s) (qc_session c) ;;
  Ret (qs_with_served s sd).

Definition quic_client_is (a : Z) (c : quic_client_t) : bool := qc_session c =? a.

Definition quic_remove_client (s : quic_server) (c : quic_client_t) : quic_server :=
  match find_index (quic_client_is (qc_session c)) (qs_clients s) with
  | Some i => qs_with_clients s (swap_remove i (qs_clients s))
  | None => s
  end.

(** ** Sending *)

Definition quic_transport_send (clients : list quic_client_t) (d : daemon_t K) (client_id : Z) (data : list Z)
  : exec (Z * list net_call) :=
  target <- quic_find_client_by_id d clients (u32 client_id) ;;
  match target with
  | None => Ret (-1, [])
  | Some c =>
      if negb (qc_stream_ready c) || qc_shutting_down c then Ret (-1, [])
      else Ret (send_frame_on sends (qc_stream c) data)
  end.

(** The answer to a request. *)
Definition quic_answer (c : quic_client_t) (data : list Z) : list net_call :=
  if qc_stream_ready c && negb (qc_shutting_down c) then (send_frame_on sends (qc_stream c) data).2 else [].

Definition quic_process_stream_data (fuel : nat) (clients : list quic_client_t) (c : quic_client_t) (buf : list Z)
    (sd : net_served K) : exec (list Z * option (net_served K)) :=
  stream_frames
    (net_frame blake3 XXH3 clock DatagramSend time_us mono_us connect cbor_load cbor_serialize_alloc new_key create
       (qc_session c) (quic_transport_send clients) (quic_answer c) fuel)
    (length buf) buf (Some sd).

(** ** Callbacks *)

(** The receive event of the [i]-th client. *)
Definition quic_receive (fuel : nat) (s : quic_server) (i : nat) (c : quic_client_t) (stream : Z)
    (buffers : list (list Z)) : run quic_server :=
  if qc_shutting_down c then Some (Ret (qs_call s (StreamReceiveComplete stream 0)))
  else
    let done := StreamReceiveComplete stream (received_total buffers) in
    r <~ receive_buffers realloc (qc_read_buf c) (qc_read_cap c) buffers ;;
    match r with
    | None => Some (Ret (qs_call s done))
    | Some (buf, cap) =>
        '(buf', st) <~ lift (quic_process_stream_data fuel (qs_clients s) c buf (qs_served s)) ;;
        match st with
        | None => None
        | Some sd =>
            Some (Ret (qs_call (qs_with_served (qs_with_clients s (<[i := qc_with_buf c buf' cap]> (qs_clients s))) sd) done))
        end
    end.

(** [a] is the context: the client the stream was given to. *)
Definition quic_stream_callback (fuel : nat) (s : quic_server) (stream a : Z) (event : quic_stream_event)
  : run quic_server :=
  match find_index (quic_client_is a) (qs_clients s) with
  | None => Some Trap
  | Some i =>
      match qs_clients s !! i with
      | None => Some Trap
      | Some c =>
          match event with
          | STREAM_START_COMPLETE => Some (Ret (qs_with_clients s (<[i := qc_set_ready c]> (qs_clients s))))
          | STREAM_RECEIVE buffers => quic_receive fuel s i c stream buffers
          | STREAM_SEND_COMPLETE => Some (Ret s)
          | STREAM_PEER_SEND_SHUTDOWN =>
              Some (Ret (if negb (qc_shutting_down c) then qs_call s (StreamShutdown stream) else s))
          | STREAM_SHUTDOWN_COMPLETE => Some (Ret s)
          end
      end
  end.

(** Under the lock: the table has room for 256 pointers. *)
Definition quic_enlist (s : quic_server) (c : quic_client_t) : exec quic_server :=
  if QUIC_MAX_CLIENTS <=? zlen (qs_clients s) then Trap
  else
    let s1 := qs_with_clients s (qs_clients s ++ [c]) in
    let m := (poseidon_channel_manager_register_session (dm_mgr (qs_daemon s1)) (qc_session c)).2 in
    Ret (qs_with_served s1 (ns_with_daemon (qs_served s1) (dm_with_mgr (qs_daemon s1) m))).

(** Before the lock: the client with its stream, its session knowing how to be
    reached. *)
Definition quic_admit (s : quic_server) (connection stream : Z) : quic_client_t * quic_server :=
  let '(c, s1) := quic_client_create s connection in
  let id := qs_next_session_id s in
  let session := mkSession id (s32 id) true (se_subscriptions (client_session_create id)) in
  (mkQuic (qc_connection c) (Some stream) (qc_session c) (qc_read_buf c) (qc_read_cap c) (qc_stream_ready c)
     (qc_shutting_down c),
   qs_with_served s1 (ns_with_daemon (qs_served s1) (put_session (qs_daemon s1) (qc_session c) session))).

Definition quic_peer_stream_started (s : quic_server) (connection stream : Z) : exec (quic_status * quic_server) :=
  if qd_stopping (qs_data s) then Ret (QUIC_STATUS_CONNECTION_REFUSED, s)
  else if QUIC_MAX_CLIENTS <=? zlen (qs_clients s) then
    Ret (QUIC_STATUS_SUCCESS, qs_call s (ConnectionShutdown connection))
  else
    let '(c, s1) := quic_admit s connection stream in
    s2 <- quic_enlist s1 c ;;
    Ret (QUIC_STATUS_SUCCESS, s2).

(** Remove and destroy, one client after the other. *)
Fixpoint quic_drop_clients (s : quic_server) (l : list quic_client_t) : exec quic_server :=
  match l with
  | [] => Ret s
  | c :: l' => s1 <- quic_client_destroy (quic_remove_client s c) c ;; quic_drop_clients s1 l'
  end.

Definition quic_shutdown_complete (s : quic_server) (connection : Z) : exec quic_server :=
  let of_connection c := qc_connection c =? connection in
  let l := map (fun c => if of_connection c then qc_shut c else c) (qs_clients s) in
  s1 <- quic_drop_clients (qs_with_clients s l) (List.filter of_connection l) ;;
  Ret (qs_call s1 (ConnectionClose connection)).

Definition quic_connection_callback (s : quic_server) (connection : Z) (event : quic_connection_event)
  : exec (quic_status * quic_server) :=
  match event with
  | CONNECTION_CONNECTED => Ret (QUIC_STATUS_SUCCESS, s)
  | CONNECTION_PEER_STREAM_STARTED stream => quic_peer_stream_started s connection stream
  | CONNECTION_SHUTDOWN_COMPLETE => s1 <- quic_shutdown_complete s connection ;; Ret (QUIC_STATUS_SUCCESS, s1)
  end.

(** ** Starting and stopping *)

Definition qs_with_handles (s : quic_server) (registration configuration listener : bool) : quic_server :=
  mkQuicServer (mkQuicData registration configuration listener (qs_clients s) (qd_stopping (qs_data s)))
    (qs_running s) (qs_next_session_id s) (qs_next_addr s) (qs_served s).

Definition quic_transport_start (s : quic_server) (opens : quic_open → bool) : Z * quic_server :=
  let '(mkQuicData _ configuration listener _ _) := qs_data s in
  if negb (opens RegistrationOpen) then (-1, s)
  else if negb (opens ConfigurationOpen) then
    (-1, qs_with_handles (qs_call s (HandleClose Registration)) false configuration listener)
  else if negb (opens ConfigurationLoadCredential) then
    (-1, qs_with_handles (qs_call (qs_call s (HandleClose Configuration)) (HandleClose Registration)) false false listener)
  else if negb (opens ListenerOpen) then
    (-1, qs_with_handles (qs_call (qs_call s (HandleClose Configuration)) (HandleClose Registration)) false false listener)
  else if negb (opens ListenerStart) then
    (-1, qs_with_handles
           (qs_call (qs_call (qs_call s (HandleClose Listener)) (HandleClose Configuration)) (HandleClose Registration))
           false false false)
  else
    let s1 := qs_with_handles s true true true in
    (0, mkQuicServer (qs_data s1) true (qs_next_session_id s1) (qs_next_addr s1) (qs_served s1)).

(** The first half of the stop: no new connections, no more data, every
    connection told to shut down. *)
Definition quic_stop_signal (s : quic_server) : quic_server :=
  let d := qs_data s in
  let s1 := if qd_listener d then qs_call s (HandleClose Listener) else s in
  let l := map qc_shut (qs_clients s) in
  let s2 := mkQuicServer (mkQuicData (qd_registration d) (qd_configuration d) false l true) false
              (qs_next_session_id s1) (qs_next_addr s1) (qs_served s1) in
  fold_left (fun s c => qs_call s (ConnectionShutdown (qc_connection c))) l s2.

Fixpoint quic_destroy_all (s : quic_server) (l : list quic_client_t) : exec quic_server :=
  match l with
  | [] => Ret s
  | c :: l' => s1 <- quic_client_destroy s c ;; quic_destroy_all s1 l'
  end.

(** The second half, after the wait: what the callbacks have left. *)
Definition quic_stop_finish (s : quic_server) : exec quic_server :=
  s1 <- quic_destroy_all s (qs_clients s) ;;
  let d := qs_data s1 in
  let s2 := if qd_configuration d then qs_call s1 (HandleClose Configuration) else s1 in
  let s3 := if qd_registration d then qs_call s2 (HandleClose Registration) else s2 in
  Ret (qs_with_handles (qs_with_clients s3 []) false false (qd_listener d)).

(** [waiting] is what the callbacks do during the 100 ms between. *)
Definition quic_transport_stop (waiting : quic_server → exec quic_server) (s : quic_server) : exec quic_server :=
  if negb (qs_running s) then Ret s
  else
    s1 <- waiting (quic_stop_signal s) ;;
    quic_stop_finish s1.

(** [quic_transport_destroy] releases the transport and its reference to msquic. *)
Definition quic_transport_destroy (waiting : quic_server → exec quic_server) (g : msquic_singleton) (s : quic_server)
  : exec (quic_server * (bool * msquic_singleton)) :=
  s1 <- (if qs_running s then quic_transport_stop waiting s else Ret s) ;;
  Ret (s1, poseidon_msquic_close g).

(** [next_id] and [next_addr] are the static counter and the allocator's state. *)
Definition poseidon_transport_quic_create (g : msquic_singleton) (opened : option Z) (cert key : option (list Z))
    (next_id next_addr : Z) (sd : net_served K) : option quic_server * msquic_singleton :=
  match cert, key with
  | Some _, Some _ =>
      let '(api, g1) := poseidon_msquic_open g opened in
      match api with
      | None => (None, g1)
      | Some _ => (Some (mkQuicServer (mkQuicData false false false [] false) false next_id next_addr sd), g1)
      end
  | _, _ => (None, g)
  end.
End quic.
Arguments quic_server K : clear implicits.
