(* ===== verification/WebTransport.v ===== *)
(** * WebTransport: the WebTransport server of the daemon

    [src/ClientAPIs/transport_webtransport.c]: one client per session of libwtf,
    with at most one bidirectional stream at a time; the callbacks of sessions and
    streams, sending, starting and stopping.

    libwtf hands every callback a context: a session's is the one the server was
    created with (the transport) until [wtf_session_set_context] replaces it by
    the client, a stream's is the client it was given.  [wt_contexts] maps the
    sessions with a client to it.  Reading the transport as a client, or a client
    that has been freed, is [Trap]. *)

From stdpp Require Import gmap.
From S2P Require Import Prelude CString Bitset Bloom ElasticBloom AttenuatedBloom Cbor CborWire Endian Base58.
From S2P Require Import MessageId Node NodeId Packet ChannelPacket Subtopic TopicAlias Notice Ring Route Protocol.
From S2P Require Import Quasar Channel ChannelManager ClientProtocol ClientStream ClientSession Transport.
From S2P Require Import StreamTransport.

Definition WT_MAX_CLIENTS : Z := 256.
Definition WT_READ_BUF_SIZE : Z := 65536.

Record wt_client_t := mkWt {
  wt_session : Z;
  wt_stream : option Z;
  wt_client_session : Z;
  wt_read_buf : list Z;
  wt_read_cap : Z;
  wt_shutting_down : bool
}.

Definition wt_with_buf (c : wt_client_t) (buf : list Z) (cap : Z) : wt_client_t :=
  mkWt (wt_session c) (wt_stream c) (wt_client_session c) buf cap (wt_shutting_down c).

Definition wt_with_stream (c : wt_client_t) (stream : option Z) : wt_client_t :=
  mkWt (wt_session c) stream (wt_client_session c) (wt_read_buf c) (wt_read_cap c) (wt_shutting_down c).

Definition wt_shut (c : wt_client_t) : wt_client_t :=
  mkWt (wt_session c) (wt_stream c) (wt_client_session c) (wt_read_buf c) (wt_read_cap c) true.

Inductive wt_stream_event :=
| WTF_STREAM_EVENT_DATA_RECEIVED (buffers : list (list Z))
| WTF_STREAM_EVENT_SEND_COMPLETE
| WTF_STREAM_EVENT_PEER_CLOSED
| WTF_STREAM_EVENT_CLOSED
| WTF_STREAM_EVENT_ABORTED (error_code : Z).

Inductive wt_session_event :=
| WTF_SESSION_EVENT_CONNECTED
| WTF_SESSION_EVENT_DISCONNECTED
| WTF_SESSION_EVENT_DRAINING
| WTF_SESSION_EVENT_STREAM_OPENED (stream : Z) (unidirectional : bool)
| WTF_SESSION_EVENT_DATAGRAM.

Inductive wt_open := ContextCreate | ServerCreate | ServerStart.

Section webtransport.
Context {K : Type} `{!SignatureScheme K} `{!EqDecision K}.
Context (blake3 : list Z → list Z) (XXH3 : list Z → Z → Z) (clock : Z → Z * Z).
Context (DatagramSend : Z → list Z → bool) (time_us mono_us : world → Z).
Context (connect : Z → Z → option Z * bool).
Context (cbor_load : list Z → option cbor_item) (cbor_serialize_alloc : cbor_item → list Z).
Context (new_key : option K) (create : list Z → Z → exec (option (poseidon_channel_t K))).
Context (sends : Z → list Z → bool) (realloc : Z → bool).

Record wt_server := mkWtServer {
  wv_context : bool;
  wv_server : bool;
  wv_clients : list wt_client_t;
  wv_stopping : bool;
  wv_running : bool;
  wv_contexts : gmap Z Z;
  wv_next_session_id : Z;
  wv_next_addr : Z;
  wv_served : net_served K
}.

Definition wv_daemon (s : wt_server) : daemon_t K := ns_daemon (wv_served s).

Definition wv_with_clients (s : wt_server) (l : list wt_client_t) : wt_server :=
  mkWtServer (wv_context s) (wv_server s) l (wv_stopping s) (wv_running s) (wv_contexts s) (wv_next_session_id s)
    (wv_next_addr s) (wv_served s).

Definition wv_with_served (s : wt_server) (sd : net_served K) : wt_server :=
  mkWtServer (wv_context s) (wv_server s) (wv_clients s) (wv_stopping s) (wv_running s) (wv_contexts s)
    (wv_next_session_id s) (wv_next_addr s) sd.

Definition wv_call (s : wt_server) (c : net_call) : wt_server := wv_with_served s (ns_call (wv_served s) c).

(** ** Clients *)

Fixpoint wt_find_client_by_id (d : daemon_t K) (clients : list wt_client_t) (session_id : Z)
  : exec (option wt_client_t) :=
  match clients with
  | [] => Ret None
  | c :: clients' =>
      s <- session_at d (wt_client_session c) ;;
      if se_session_id s =? session_id then Ret (Some c) else wt_find_client_by_id d clients' session_id
  end.

(** Refused when the table is full; otherwise the client is the session's
    context, in the table and registered. *)
Definition wt_client_create (s : wt_server) (session : Z) : option wt_server :=
  if WT_MAX_CLIENTS <=? zlen (wv_clients s) then None
  else
    let a := wv_next_addr s in
    let id := wv_next_session_id s in
    let d := put_session (wv_daemon s) a (mkSession id (s32 id) true (se_subscriptions (client_session_create id))) in
    let m := (poseidon_channel_manager_register_session (dm_mgr d) a).2 in
    Some (mkWtServer (wv_context s) (wv_server s) (wv_clients s ++ [mkWt session None a [] WT_READ_BUF_SIZE false])
            (wv_stopping s) (wv_running s) (<[session := a]> (wv_contexts s)) (u32 (id + 1)) (a + 1)
            (ns_with_daemon (wv_served s) (dm_with_mgr d m))).

Definition wt_client_destroy (s : wt_server) (c : wt_client_t) : exec wt_server :=
  sd <- net_session_destroy XXH3 (wv_served s) (wt_client_session c) ;;
  Ret (wv_with_served s sd).

Definition wt_client_is (a : Z) (c : wt_client_t) : bool := wt_client_session c =? a.

Definition wt_remove_client (s : wt_server) (c : wt_client_t) : wt_server :=
  match find_index (wt_client_is (wt_client_session c)) (wv_clients s) with
  | Some i => wv_with_clients s (swap_remove i (wv_clients s))
  | None => s
  end.

(** ** Sending *)

Definition webtransport_send (clients : list wt_client_t) (d : daemon_t K) (client_id : Z) (data : list Z)
  : exec (Z * list net_call) :=
  target <- wt_find_client_by_id d clients (u32 client_id) ;;
  match target with
  | None => Ret (-1, [])
  | Some c => if wt_shutting_down c then Ret (-1, []) else Ret (send_frame_on sends (wt_stream c) data)
  end.

Definition wt_answer (c : wt_client_t) (data : list Z) : list net_call :=
  if negb (wt_shutting_down c) then (send_frame_on sends (wt_stream c) data).2 else [].

Definition wt_process_stream_data (fuel : nat) (clients : list wt_client_t) (c : wt_client_t) (buf : list Z)
    (sd : net_served K) : exec (list Z * option (net_served K)) :=
  stream_frames
    (net_frame blake3 XXH3 clock DatagramSend time_us mono_us connect cbor_load cbor_serialize_alloc new_key create
       (wt_client_session c) (webtransport_send clients) (wt_answer c) fuel)
    (length buf) buf (Some sd).

(** ** Callbacks *)

Definition wt_data_received (fuel : nat) (s : wt_server) (i : nat) (c : wt_client_t) (buffers : list (list Z))
  : run wt_server :=
  if wt_shutting_down c then Some (Ret s)
  else
    r <~ receive_buffers realloc (wt_read_buf c) (wt_read_cap c) buffers ;;
    match r with
    | None => Some (Ret s)
    | Some (buf, cap) =>
        '(buf', st) <~ lift (wt_process_stream_data fuel (wv_clients s) c buf (wv_served s)) ;;
        match st with
        | None => None
        | Some sd => Some (Ret (wv_with_served (wv_with_clients s (<[i := wt_with_buf c buf' cap]> (wv_clients s))) sd))
        end
    end.

Definition wt_stream_callback (fuel : nat) (s : wt_server) (a : Z) (event : wt_stream_event) : run wt_server :=
  match find_index (wt_client_is a) (wv_clients s) with
  | None => Some Trap
  | Some i =>
      match wv_clients s !! i with
      | None => Some Trap
      | Some c =>
          match event with
          | WTF_STREAM_EVENT_DATA_RECEIVED buffers => wt_data_received fuel s i c buffers
          | WTF_STREAM_EVENT_SEND_COMPLETE => Some (Ret s)
          | WTF_STREAM_EVENT_PEER_CLOSED =>
              Some (Ret (if negb (wt_shutting_down c) then
                           match wt_stream c with Some st => wv_call s (StreamShutdown st) | None => s end
                         else s))
          | WTF_STREAM_EVENT_CLOSED | WTF_STREAM_EVENT_ABORTED _ =>
              Some (Ret (wv_with_clients s (<[i := wt_with_stream c None]> (wv_clients s))))
          end
      end
  end.

(** The client a session's context points to. *)
Definition wt_context_client (s : wt_server) (session : Z) : exec (nat * wt_client_t) :=
  match wv_contexts s !! session with
  | None => Trap
  | Some a =>
      match find_index (wt_client_is a) (wv_clients s) with
      | None => Trap
      | Some i => match wv_clients s !! i with Some c => Ret (i, c) | None => Trap end
      end
  end.

Definition wt_session_connected (s : wt_server) (session : Z) : wt_server :=
  if wv_stopping s then wv_call s (ConnectionShutdown session)
  else match wt_client_create s session with
  | None => wv_call s (ConnectionShutdown session)
  | Some s1 => s1
  end.

Definition wt_session_disconnected (s : wt_server) (session : Z) : exec wt_server :=
  '(i, c) <- wt_context_client s session ;;
  let s1 := wv_with_clients s (<[i := wt_shut c]> (wv_clients s)) in
  if wv_stopping s then Ret s1 else wt_client_destroy (wt_remove_client s1 c) c.

Definition wt_stream_opened (s : wt_server) (session stream : Z) (unidirectional : bool) : exec wt_server :=
  '(i, c) <- wt_context_client s session ;;
  if unidirectional then Ret (wv_call s (StreamShutdown stream))
  else match wt_stream c with
  | Some _ => Ret (wv_call s (StreamShutdown stream))
  | None => Ret (wv_with_clients s (<[i := wt_with_stream c (Some stream)]> (wv_clients s)))
  end.

Definition wt_session_callback (s : wt_server) (session : Z) (event : wt_session_event) : exec wt_server :=
  match event with
  | WTF_SESSION_EVENT_CONNECTED => Ret (wt_session_connected s session)
  | WTF_SESSION_EVENT_DISCONNECTED => wt_session_disconnected s session
  | WTF_SESSION_EVENT_DRAINING => '(_, _) <- wt_context_client s session ;; Ret s
  | WTF_SESSION_EVENT_STREAM_OPENED stream unidirectional => wt_stream_opened s session stream unidirectional
  | WTF_SESSION_EVENT_DATAGRAM => Ret s
  end.

(** ** Starting and stopping *)

Definition wv_with_handles (s : wt_server) (context server running : bool) : wt_server :=
  mkWtServer context server (wv_clients s) (wv_stopping s) running (wv_contexts s) (wv_next_session_id s)
    (wv_next_addr s) (wv_served s).

Definition webtransport_start (s : wt_server) (opens : wt_open → bool) : Z * wt_server :=
  if negb (opens ContextCreate) then (-1, s)
  else if negb (opens ServerCreate) then
    (-1, wv_with_handles (wv_call s (HandleClose WtfContext)) false (wv_server s) (wv_running s))
  else if negb (opens ServerStart) then
    (-1, wv_with_handles (wv_call (wv_call s (HandleClose WtfServer)) (HandleClose WtfContext)) false false (wv_running s))
  else (0, wv_with_handles s true true true).

(** Before [wtf_server_stop]. *)
Definition wt_stop_signal (s : wt_server) : wt_server :=
  mkWtServer (wv_context s) (wv_server s) (map wt_shut (wv_clients s)) true false (wv_contexts s)
    (wv_next_session_id s) (wv_next_addr s) (wv_served s).

Fixpoint wt_destroy_all (s : wt_server) (l : list wt_client_t) : exec wt_server :=
  match l with
  | [] => Ret s
  | c :: l' => s1 <- wt_client_destroy s c ;; wt_destroy_all s1 l'
  end.

(** After it. *)
Definition wt_stop_finish (s : wt_server) : exec wt_server :=
  s1 <- wt_destroy_all s (wv_clients s) ;;
  let s2 := if wv_server s1 then wv_call s1 (HandleClose WtfServer) else s1 in
  let s3 := if wv_context s1 then wv_call s2 (HandleClose WtfContext) else s2 in
  Ret (wv_with_handles (wv_with_clients s3 []) false false (wv_running s3)).

(** [stopping] is what the callbacks do while [wtf_server_stop] closes the
    sessions. *)
Definition webtransport_stop (stopping : wt_server → exec wt_server) (s : wt_server) : exec wt_server :=
  if negb (wv_running s) then Ret s
  else
    s1 <- (if wv_server s then stopping (wt_stop_signal s) else Ret (wt_stop_signal s)) ;;
    wt_stop_finish s1.

Definition webtransport_transport_destroy (stopping : wt_server → exec wt_server) (s : wt_server) : exec wt_server :=
  if wv_running s then webtransport_stop stopping s else Ret s.

Definition poseidon_transport_webtransport_create (cert key : option (list Z)) (next_id next_addr : Z)
    (sd : net_served K) : option wt_server :=
  match cert, key with
  | Some _, Some _ => Some (mkWtServer false false [] false false ∅ next_id next_addr sd)
  | _, _ => None
  end.
End webtransport.
Arguments wt_server K : clear implicits.
