(* ===== verification/StreamTransportTheorems.v ===== *)
(** * StreamTransportTheorems: buffers, frames and sessions of stream transports

    What the QUIC and WebTransport servers need of the code they share: the read
    buffer grows enough and never overflows, a stream of frames is handled frame
    by frame however it is cut, and the sessions in memory, the registry of the
    manager and a table of clients stay in agreement. *)

From stdpp Require Import gmap.
From S2P Require Import Prelude CString Bitset Bloom ElasticBloom AttenuatedBloom Cbor CborWire Endian Base58.
From S2P Require Import MessageId Node NodeId Packet ChannelPacket Subtopic TopicAlias Notice Ring Route Protocol.
From S2P Require Import Quasar Channel ChannelManager ManagerTheorems ClientProtocol ClientStream ClientSession.
From S2P Require Import SessionTheorems Transport TransportTheorems StreamTransport.

(** ** Lists *)

Lemma map_insert_same {A B} (f : A → B) (l : list A) i x y :
  l !! i = Some x → f y = f x → map f (<[i := y]> l) = map f l.
Proof.
  intros Hi E. change (map f) with (fmap (M := list) f). rewrite list_fmap_insert, list_insert_id; [done|].
  by rewrite list_lookup_fmap, Hi, E.
Qed.

Lemma find_member (a : Z) (l : list Z) : a ∈ l → ∃ i, find_index (fun b => b =? a) l = Some i.
Proof.
  intros Ha. destruct (find_index _ l) as [i|] eqn:E; [by exists i|]. apply find_index_None in E.
  rewrite list.Forall_forall in E. specialize (E a Ha). cbn in E. lia.
Qed.

Lemma filter_submap {A B} (f : A → B) (p : A → bool) l :
  base.NoDup (map f l) → base.NoDup (map f (List.filter p l)) ∧ ∀ b, b ∈ map f (List.filter p l) → b ∈ map f l.
Proof.
  induction l as [|x l IH]; cbn; [done|]. intros [Hx Hn]%list.NoDup_cons. destruct (IH Hn) as [H1 H2].
  destruct (p x); cbn [map]; [|by split; [|intros b Hb; apply list_elem_of_further, H2]]. split.
  - apply list.NoDup_cons. split; [|done]. intros Hb. by apply Hx, H2.
  - intros b. rewrite !elem_of_cons. intros [->|Hb]; [by left|]. right. by apply H2.
Qed.

(** In a table of distinct keys an entry is found at its own index. *)
Lemma find_own {A} (f : A → Z) (l : list A) i x :
  base.NoDup (map f l) → l !! i = Some x → find_index (fun y => f y =? f x) l = Some i.
Proof.
  intros Hnd Hi. assert (Hm : map f l !! i = Some (f x)).
  { change (map f) with (fmap (M := list) f). by rewrite list_lookup_fmap, Hi. }
  destruct (find_member _ _ (list_elem_of_lookup_2 _ _ _ Hm)) as [j Hj]. pose proof Hj as Hj'.
  apply find_index_Some in Hj as (a & Hj & Ha & _). apply Z.eqb_eq in Ha as ->.
  rewrite (find_index_map f) in Hj'. rewrite Hj'. f_equal. by eapply NoDup_lookup.
Qed.

(** ** The reference count of msquic *)

(** Opening and closing in any order keeps the count positive exactly while the
    table is open. *)
Definition msquic_wf (g : msquic_singleton) : Prop :=
  match g_msquic g with None => g_msquic_refcount g = 0 | Some _ => 0 < g_msquic_refcount g < 2 ^ 32 end.

Lemma msquic_open_wf g opened :
  msquic_wf g → g_msquic_refcount g + 1 < 2 ^ 32 →
  let r := poseidon_msquic_open g opened in
  msquic_wf r.2 ∧ r.1 = g_msquic r.2 ∧
  g_msquic_refcount r.2 = g_msquic_refcount g + (match r.1 with Some _ => 1 | None => 0 end).
Proof.
  unfold msquic_wf, poseidon_msquic_open. destruct g as [[table|] n]; cbn; intros H Hn.
  - rewrite u32_id by (unfold is_u32; lia). split_and!; try done; lia.
  - destruct opened; cbn; split_and!; try done; lia.
Qed.

(** A close undoes an open, and only the last one closes msquic. *)
Lemma msquic_close_open g opened :
  msquic_wf g → g_msquic_refcount g + 1 < 2 ^ 32 → (poseidon_msquic_open g opened).1 ≠ None →
  poseidon_msquic_close (poseidon_msquic_open g opened).2 = (bool_decide (g_msquic g = None), g).
Proof.
  unfold msquic_wf, poseidon_msquic_open, poseidon_msquic_close. destruct g as [[table|] n]; cbn; intros H Hn Ho.
  - rewrite (u32_id (n + 1)) by (unfold is_u32; lia). rewrite (proj2 (Z.eqb_neq _ 0)) by lia.
    replace (n + 1 - 1) with n by lia. rewrite u32_id by (unfold is_u32; lia). by rewrite (proj2 (Z.eqb_neq n 0)) by lia.
  - destruct opened as [table|]; [|done]. cbn. by subst n.
Qed.

(** ** The read buffer *)

Lemma grow_cap_spec fuel cap need :
  0 < cap → need <= 2 ^ 63 → need <= cap * 2 ^ Z.of_nat fuel →
  ∃ cap', grow_cap fuel cap need = Some cap' ∧ need <= cap' ∧ cap <= cap' ∧ cap' <= Z.max cap (2 * need).
Proof.
  revert cap. induction fuel as [|fuel IH]; intros cap Hc Hn Hf; cbn [grow_cap].
  - rewrite (proj2 (Z.ltb_ge _ _)) by lia. exists cap. split_and!; [done|lia..].
  - destruct (Z.ltb_spec cap need); [|exists cap; split_and!; [done|lia..]].
    rewrite u64_id by (unfold is_u64; lia).
    destruct (IH (cap * 2)) as (cap' & E & H1 & H2 & H3); [lia|done| |].
    { rewrite Nat2Z.inj_succ, Z.pow_succ_r in Hf by lia. lia. }
    exists cap'. split_and!; [done|lia..].
Qed.

Lemma received_total_concat buffers : received_total buffers = zlen (concat buffers).
Proof.
  unfold received_total.
  assert (G : ∀ n, fold_left (fun n b => n + zlen b) buffers n = n + zlen (concat buffers)); [|by rewrite G].
  induction buffers as [|b buffers IH]; intros n; cbn [fold_left concat]; [unfold zlen; cbn; lia|].
  rewrite IH, zlen_app. lia.
Qed.

Lemma append_buffers_ok cap buf buffers :
  zlen buf + zlen (concat buffers) <= cap → append_buffers cap buf buffers = Ret (buf ++ concat buffers).
Proof.
  revert buf. induction buffers as [|b buffers IH]; intros buf H; cbn [append_buffers concat].
  - by rewrite app_nil_r.
  - cbn [concat] in H. rewrite zlen_app in H. pose proof (zlen_nonneg (concat buffers)).
    rewrite (proj2 (Z.ltb_ge _ _)) by lia. rewrite IH by (rewrite zlen_app; lia). by rewrite (assoc_L (++)).
Qed.

(** Receiving never writes outside the buffer: it appends the bytes, or leaves
    everything as it was when [realloc] fails. *)
Lemma receive_buffers_ok realloc buf cap buffers :
  0 < cap → zlen buf <= cap → zlen buf + zlen (concat buffers) <= 2 ^ 63 →
  receive_buffers realloc buf cap buffers = Some (Ret None) ∧ (∃ n, realloc n = false) ∨
  ∃ cap', receive_buffers realloc buf cap buffers = Some (Ret (Some (buf ++ concat buffers, cap'))) ∧
    zlen (buf ++ concat buffers) <= cap' ∧ cap <= cap' <= Z.max cap (2 * zlen (buf ++ concat buffers)).
Proof.
  intros Hc Hb Hn. unfold receive_buffers. rewrite received_total_concat, zlen_app.
  destruct (Z.ltb_spec cap (zlen buf + zlen (concat buffers))) as [Hlt|Hge].
  - destruct (grow_cap_spec 64 cap (zlen buf + zlen (concat buffers))) as (cap' & -> & H1 & H2 & H3); [done|done|lia|].
    destruct (realloc cap') eqn:Er; [|left; eauto]. right. exists cap'. rewrite append_buffers_ok by lia. done.
  - right. exists cap. rewrite append_buffers_ok by lia. split_and!; [done|lia..].
Qed.

(** ** Frames *)

Section frames.
Context {St : Type} (on_frame : St → list Z → exec St).

(** What stays in the buffer is less than one frame. *)
Lemma stream_frames_rest fuel buf s buf' s' :
  (length buf <= fuel)%nat → stream_frames on_frame fuel buf s = Ret (buf', s') → zlen buf' < 4 + UNIX_READ_BUF_SIZE.
Proof.
  revert buf s. induction fuel as [|fuel IH]; intros buf s Hf; cbn [stream_frames].
  - intros [= <- <-]. unfold zlen, UNIX_READ_BUF_SIZE. lia.
  - destruct (Z.ltb_spec (zlen buf) (Z.of_nat UNIX_FRAME_HEADER_SIZE)) as [Hs|Hs].
    { intros [= <- <-]. unfold UNIX_FRAME_HEADER_SIZE in Hs. unfold UNIX_READ_BUF_SIZE. lia. }
    intros ([ok len] & Eh & E)%bind_ret. destruct ok; [|injection E as <- <-; by vm_compute]. cbn [negb] in E.
    assert (Hlen : len <= UNIX_READ_BUF_SIZE).
    { unfold read_frame_header in Eh. destruct buf as [|? [|? [|? [|? ?]]]]; try done. injection Eh as Eh <-.
      apply andb_prop in Eh as [_ Eh]. by apply Z.leb_le in Eh. }
    destruct (Nat.ltb_spec (length buf) (UNIX_FRAME_HEADER_SIZE + Z.to_nat len)) as [Hl|Hl].
    + injection E as <- <-. unfold zlen, UNIX_FRAME_HEADER_SIZE in *. unfold UNIX_READ_BUF_SIZE in *. lia.
    + apply bind_ret in E as (s1 & _ & E). apply IH in E; [done|]. rewrite length_drop.
      unfold UNIX_FRAME_HEADER_SIZE in *. lia.
Qed.

Lemma stream_frames_shrinks fuel buf s buf' s' :
  stream_frames on_frame fuel buf s = Ret (buf', s') → zlen buf' <= zlen buf.
Proof.
  revert buf s. induction fuel as [|fuel IH]; intros buf s; cbn [stream_frames]; [by intros [= <- <-]|].
  destruct (_ <? _); [by intros [= <- <-]|]. destruct (read_frame_header buf) as [[ok len]|]; [|done]. cbn [xbind].
  destruct (negb ok); [intros [= <- <-]; apply zlen_nonneg|]. destruct (_ <? _)%nat; [by intros [= <- <-]|].
  intros (s1 & _ & H)%bind_ret. apply IH in H. unfold zlen in *. rewrite length_drop in H. lia.
Qed.

Lemma stream_frames_inv (P : St → Prop) fuel buf s buf' s' :
  (∀ s b s', P s → on_frame s b = Ret s' → P s') → P s → stream_frames on_frame fuel buf s = Ret (buf', s') → P s'.
Proof.
  intros step. revert buf s. induction fuel as [|fuel IH]; intros buf s Hs; cbn [stream_frames]; [by intros [= <- <-]|].
  destruct (_ <? _); [by intros [= <- <-]|]. destruct (read_frame_header buf) as [[ok len]|]; [|done]. cbn [xbind].
  destruct (negb ok); [by intros [= <- <-]|]. destruct (_ <? _)%nat; [by intros [= <- <-]|].
  intros (s1 & E & H)%bind_ret. apply IH in H; [done|]. by eapply step.
Qed.

(** On a stream of frames with acceptable headers the loop is that of the socket
    transports. *)
Lemma stream_frames_agree bodies fuel buf pending s :
  Forall body_wide bodies → buf ++ pending = stream_of bodies →
  stream_frames on_frame fuel buf s = process_frames on_frame fuel buf s.
Proof.
  revert bodies buf s. induction fuel as [|fuel IH]; intros bodies buf s Hok E; [done|]. cbn [stream_frames process_frames].
  destruct (Z.ltb_spec (zlen buf) (Z.of_nat UNIX_FRAME_HEADER_SIZE)) as [|Hl]; [done|].
  destruct bodies as [|b bodies].
  { apply app_eq_nil in E as [-> ->]. by unfold zlen, UNIX_FRAME_HEADER_SIZE in Hl. }
  apply Forall_cons_1 in Hok as [Hb Hok]. cbn [stream_of map concat] in E. fold (stream_of bodies) in E.
  assert (Hh : read_frame_header buf = Ret (true, zlen b)).
  { assert (Eh : read_frame_header buf = read_frame_header (buf ++ pending)).
    { unfold zlen, UNIX_FRAME_HEADER_SIZE in Hl. do 4 (destruct buf as [|? buf]; [simpl in Hl; lia|]). done. }
    rewrite Eh, E. unfold frame_bytes. rewrite <- (assoc_L (++)), header_roundtrip by by apply body_wide_u32.
    destruct Hb as [H1 H2]. by rewrite (proj2 (Z.ltb_lt _ _)), (proj2 (Z.leb_le _ _)) by lia. }
  rewrite Hh. cbn [xbind negb]. destruct (Nat.ltb_spec (length buf) (UNIX_FRAME_HEADER_SIZE + Z.to_nat (zlen b))) as [|Hc]; [done|].
  destruct (on_frame s _) as [s1|]; cbn [xbind]; [|done]. apply (IH bodies); [done|].
  replace (UNIX_FRAME_HEADER_SIZE + Z.to_nat (zlen b))%nat with (length (frame_bytes b)) in *
    by (rewrite frame_bytes_length; unfold zlen, UNIX_FRAME_HEADER_SIZE; lia).
  rewrite <- (drop_app_le buf pending) by done. by rewrite E, drop_app_length.
Qed.
End frames.

(** ** Sessions, registry and table *)

Section coherence.
Context {K : Type} `{!SignatureScheme K} `{!EqDecision K}.

(** [addrs] are the sessions of the clients in table order, [next] the next
    address; identifier and return address of a session derive from its own. *)
Record net_coherent (addrs : list Z) (next : Z) (d : daemon_t K) : Prop := {
  nc_registry : m_sessions (dm_mgr d) = addrs;
  nc_distinct : base.NoDup addrs;
  nc_live : ∀ a, is_Some (dm_heap d !! a) ↔ a ∈ addrs;
  nc_addrs : Forall (fun a => 0 < a < next) addrs;
  nc_conns : ∀ a e, dm_heap d !! a = Some e → conn_of e = (u32 a, s32 (u32 a), true);
  nc_next : 0 < next
}.

Lemma u32_s32 x : u32 (s32 x) = u32 x.
Proof.
  unfold s32. destruct (_ <? _); [by rewrite u32_id by apply u32_range|]. unfold u32. rewrite <- (Z_mod_plus_full x (-1)) at 2.
  rewrite Zminus_mod_idemp_l. f_equal; lia.
Qed.

Lemma coherent_empty next (d : daemon_t K) :
  m_sessions (dm_mgr d) = [] → dm_heap d = ∅ → 0 < next → net_coherent [] next d.
Proof.
  intros Hr Hh Hn. split; try done; try (by constructor); intros a; rewrite Hh, lookup_empty; [|done].
  rewrite elem_of_nil. split; [by intros [? ?]|done].
Qed.

Lemma coherent_same addrs next (d d' : daemon_t K) :
  net_coherent addrs next d → same_conns d d' → net_coherent addrs next d'.
Proof.
  intros [] [Hr Hh]. constructor; try done; [by rewrite Hr| |].
  - intros a. rewrite <- nc_live0. specialize (Hh a). destruct (dm_heap d' !! a), (dm_heap d !! a); done.
  - intros a e He. specialize (Hh a). rewrite He in Hh. destruct (dm_heap d !! a) as [e0|] eqn:E0; [|done].
    injection Hh as H1 H2 H3. rewrite <- (nc_conns0 a e0 E0). unfold conn_of. by rewrite H1, H2, H3.
Qed.

Lemma coherent_fresh addrs next (d : daemon_t K) a : net_coherent addrs next d → next <= a → dm_heap d !! a = None.
Proof.
  intros H Ha. apply eq_None_not_Some. rewrite (nc_live _ _ _ H). intros Hin.
  pose proof (nc_addrs _ _ _ H) as F. rewrite list.Forall_forall in F. specialize (F a Hin). cbn in F. lia.
Qed.

(** A new session, registered. *)
Lemma coherent_add addrs next (d : daemon_t K) subs :
  net_coherent addrs next d → zlen addrs < POSEIDON_SESSION_REGISTRY_MAX →
  let d1 := put_session d next (mkSession (u32 next) (s32 (u32 next)) true subs) in
  net_coherent (addrs ++ [next]) (next + 1)
    (dm_with_mgr d1 (poseidon_channel_manager_register_session (dm_mgr d1) next).2).
Proof.
  intros H Hroom d1. pose proof (coherent_fresh _ _ _ next H ltac:(lia)) as Hnone.
  assert (Hnew : next ∉ addrs) by (rewrite <- (nc_live _ _ _ H), Hnone; by intros [? ?]).
  destruct H. unfold poseidon_channel_manager_register_session. cbn [dm_mgr d1 put_session].
  rewrite nc_registry0, (proj2 (Z.eqb_neq next 0)), (proj2 (Z.leb_gt _ _)) by lia. constructor; cbn.
  - done.
  - apply list.NoDup_app. split_and!; [done| |apply list.NoDup_singleton]. by intros x Hx ->%list_elem_of_singleton.
  - intros a. rewrite elem_of_app, list_elem_of_singleton, <- nc_live0. destruct (decide (a = next)) as [->|Hne].
    + rewrite lookup_insert_eq. split; [by right|by eexists].
    + rewrite lookup_insert_ne by done. split; [by left|]. by intros [?|?].
  - apply Forall_app_2; [eapply List.Forall_impl; [|exact nc_addrs0]; cbn; lia|]. constructor; [lia|constructor].
  - intros a e. destruct (decide (a = next)) as [->|Hne]; [rewrite lookup_insert_eq; by intros [= <-]|].
    rewrite lookup_insert_ne by done. apply nc_conns0.
  - lia.
Qed.

(** A destroyed session leaves memory and registry. *)
Lemma coherent_destroy XXH3 addrs next (sd sd' : net_served K) i a :
  net_coherent addrs next (ns_daemon sd) → find_index (fun b => b =? a) addrs = Some i →
  net_session_destroy XXH3 sd a = Ret sd' →
  net_coherent (swap_remove i addrs) next (ns_daemon sd') ∧ ns_calls sd' = ns_calls sd ∧ addrs ≡ₚ a :: swap_remove i addrs.
Proof.
  intros H Hi. unfold net_session_destroy. intros (d1 & Hd & [= <-])%bind_ret. apply conns_cleanup in Hd as Hs.
  pose proof (coherent_same _ _ _ _ H Hs) as H1. pose proof Hi as Hf. apply find_index_Some in Hi as (b & Hi & Hb & _).
  apply Z.eqb_eq in Hb as ->. pose proof (swap_remove_elem i addrs a Hi) as P. split_and!; [|done|done]. destruct H1.
  assert (Ha : a ≠ 0).
  { rewrite list.Forall_forall in nc_addrs0. specialize (nc_addrs0 a (list_elem_of_lookup_2 _ _ _ Hi)). cbn in nc_addrs0. lia. }
  pose proof nc_distinct0 as Hnd. pose proof nc_addrs0 as Had. rewrite P in Hnd, Had.
  apply list.NoDup_cons in Hnd as [Hout Hnd]. apply Forall_cons_1 in Had as [_ Had].
  constructor; cbn; try done.
  - unfold poseidon_channel_manager_unregister_session. rewrite (proj2 (Z.eqb_neq a 0)) by done.
    by rewrite nc_registry0, Hf.
  - intros b. destruct (decide (b = a)) as [->|Hne].
    + rewrite lookup_delete_eq. split; [by intros [? ?]|done].
    + rewrite lookup_delete_ne by done. rewrite nc_live0.
      pose proof (list.elem_of_Permutation_proper b _ _ P) as Eb. rewrite elem_of_cons in Eb. rewrite Eb.
      split; [by intros [?|?]|by right].
  - intros b e. destruct (decide (b = a)) as [->|Hne]; [by rewrite lookup_delete_eq|]. rewrite lookup_delete_ne by done.
    apply nc_conns0.
Qed.

Lemma coherent_member addrs next (d : daemon_t K) a :
  net_coherent addrs next d → a ∈ addrs → ∃ e, dm_heap d !! a = Some e ∧ conn_of e = (u32 a, s32 (u32 a), true).
Proof. intros H Ha. apply (nc_live _ _ _ H) in Ha as [e He]. exists e. split; [done|]. by apply (nc_conns _ _ _ H). Qed.

(** Dispatching an event reads live sessions and names registered clients. *)
Lemma coherent_dispatch addrs next (d : daemon_t K) topic publisher buf :
  net_coherent addrs next d →
  ∃ sent, dispatch_loop d (m_sessions (dm_mgr d)) topic publisher buf = Ret sent ∧
    ∀ fd b, (fd, b) ∈ sent → b = buf ∧ ∃ a, a ∈ addrs ∧ fd = s32 (u32 a).
Proof.
  intros H. eexists. split.
  - apply dispatch_loop_spec. rewrite (nc_registry _ _ _ H). apply list.Forall_forall. intros a. by rewrite (nc_live _ _ _ H).
  - intros fd b (fd' & [= <- <-] & Hin)%list_elem_of_fmap. split; [done|].
    apply list_elem_of_omap in Hin as (a & Ha & Hrec). rewrite (nc_registry _ _ _ H) in Ha. exists a. split; [done|].
    destruct (coherent_member _ _ _ a H Ha) as (e & He & [= Hid Hfd Ht]). unfold receives in Hrec. rewrite He in Hrec.
    destruct (_ && _); [|done]. injection Hrec as <-. done.
Qed.
End coherence.

(** ** Serving frames *)

Section serving.
Context {K : Type} `{!SignatureScheme K} `{!EqDecision K}.
Context (blake3 : list Z → list Z) (XXH3 : list Z → Z → Z) (clock : Z → Z * Z).
Context (DatagramSend : Z → list Z → bool) (time_us mono_us : world → Z).
Context (connect : Z → Z → option Z * bool).
Context (cbor_load : list Z → option cbor_item) (cbor_serialize_alloc : cbor_item → list Z).
Context (new_key : option K) (create : list Z → Z → exec (option (poseidon_channel_t K))).
Local Abbreviation net_frame := (net_frame blake3 XXH3 clock DatagramSend time_us mono_us connect cbor_load
  cbor_serialize_alloc new_key create).

Definition calls_of (st : option (net_served K)) : list net_call := from_option ns_calls [] st.

(** The bytes sent, as the peers see them. *)
Definition sent_of (st : net_served K) : list net_call := List.filter is_send (ns_calls st).

Section one_client.
Context (session : Z) (send : daemon_t K → Z → list Z → exec (Z * list net_call)) (answer : list Z → list net_call).
Local Abbreviation serve := (net_frame session send answer).

(** Requests keep every connection as it is. *)
Lemma net_frame_conns fuel (d : daemon_t K) st body st' :
  from_option (fun sd => same_conns d (ns_daemon sd)) True st → serve fuel st body = Ret st' →
  from_option (fun sd => same_conns d (ns_daemon sd)) True st'.
Proof.
  intros H. unfold StreamTransport.net_frame. destruct st as [sd|]; [|by intros [= <-]]. cbn in H.
  destruct (cbor_load body) as [item|]; [|by intros [= <-]].
  intros ([frame|] & _ & E)%bind_ret; [|by injection E as <-]. unfold net_request in E.
  pose proof (conns_request blake3 XXH3 clock DatagramSend time_us mono_us connect cbor_load cbor_serialize_alloc
    new_key create fuel (ns_daemon sd) session frame (ns_world sd)) as R.
  destruct (client_session_handle_request _ _ _ _ _ _ _ _ _ _ _ _ _ _ _ _) as [[o|]|]; [|done|by injection E as <-].
  apply bind_ret in E as (events & _ & [= <-]). cbn in R |- *. by etrans.
Qed.

Definition silent (calls : list net_call) : Prop := Forall (fun c => is_send c = false) calls.

Lemma silent_sent calls : silent calls → List.filter is_send calls = [].
Proof. induction 1 as [|c l Hc _ IH]; [done|]. cbn. by rewrite Hc. Qed.

Lemma silent_iff calls : silent calls ↔ List.filter is_send calls = [].
Proof.
  split; [apply silent_sent|]. induction calls as [|c l IH]; intros E; [constructor|]. cbn in E.
  destruct (is_send c) eqn:Ec; [done|]. constructor; [done|by apply IH].
Qed.

Lemma net_session_destroy_calls (sd sd' : net_served K) a : net_session_destroy XXH3 sd a = Ret sd' → ns_calls sd' = ns_calls sd.
Proof. unfold net_session_destroy. by intros (d1 & _ & [= <-])%bind_ret. Qed.

(** A transport that cannot send serves in silence. *)
Lemma net_frame_silent fuel st body st' :
  (∀ d id data r, send d id data = Ret r → silent r.2) → (∀ data, silent (answer data)) →
  silent (calls_of st) → serve fuel st body = Ret st' → silent (calls_of st').
Proof.
  intros Hsend Hans H. unfold StreamTransport.net_frame. destruct st as [sd|]; [|by intros [= <-]]. cbn in H.
  destruct (cbor_load body) as [item|]; [|by intros [= <-]].
  intros ([frame|] & _ & E)%bind_ret; [|by injection E as <-]. unfold net_request in E.
  destruct (client_session_handle_request _ _ _ _ _ _ _ _ _ _ _ _ _ _ _ _) as [[o|]|]; [|done|injection E as <-; constructor].
  apply bind_ret in E as (events & Ee & [= <-]). cbn. apply Forall_app_2; [done|]. apply Forall_app_2.
  - revert events Ee. induction (o_sent o) as [|[fd data] l IH]; intros events; cbn [send_events]; [intros [= <-]; constructor|].
    intros ([rc calls] & E1 & E)%bind_ret. apply bind_ret in E as (rest & E2 & [= <-]). apply Hsend in E1.
    apply Forall_app_2; [done|]. by apply IH.
  - destruct (client_protocol_serialize _ _); [apply Hans|constructor].
Qed.

(** The calls of the past have no influence. *)
Definition after_calls (past : list net_call) (sd : net_served K) : net_served K :=
  mkNet (ns_daemon sd) (past ++ ns_calls sd) (ns_world sd).

Lemma net_frame_after fuel past sd body :
  serve fuel (Some (after_calls past sd)) body = (r <- serve fuel (Some sd) body ;; Ret (after_calls past <$> r)).
Proof.
  unfold StreamTransport.net_frame. destruct (cbor_load body) as [item|]; [|done].
  destruct (client_protocol_decode (Some item)) as [[frame|]|]; cbn [xbind]; [|done|done].
  unfold net_request. cbn [after_calls ns_daemon ns_world ns_calls].
  destruct (client_session_handle_request _ _ _ _ _ _ _ _ _ _ _ _ _ _ _ _) as [[o|]|]; [|done|done].
  destruct (send_events send (o_daemon o) (o_sent o)); cbn [xbind]; [|done].
  unfold after_calls. cbn. by rewrite (assoc_L (++) past).
Qed.

Lemma run_frames_none fuel bodies : run_frames (serve fuel) bodies None = Ret None.
Proof. induction bodies as [|b bodies IH]; [done|exact IH]. Qed.

Lemma run_frames_after fuel bodies past sd :
  run_frames (serve fuel) bodies (Some (after_calls past sd)) =
    (r <- run_frames (serve fuel) bodies (Some sd) ;; Ret (after_calls past <$> r)).
Proof.
  revert sd. induction bodies as [|b bodies IH]; intros sd; cbn [run_frames]; [done|]. rewrite net_frame_after.
  destruct (serve fuel (Some sd) b) as [[sd1|]|]; cbn [xbind fmap option_fmap option_map]; [apply IH| |done].
  by rewrite run_frames_none.
Qed.
End one_client.

(** Transports that route alike serve alike. *)
Lemma net_frame_ext session send send' answer answer' fuel st body :
  (∀ d id data, send d id data = send' d id data) → (∀ data, answer data = answer' data) →
  net_frame session send answer fuel st body = net_frame session send' answer' fuel st body.
Proof.
  intros Hs Ha. unfold StreamTransport.net_frame. destruct st as [sd|]; [|done]. destruct (cbor_load body) as [item|]; [|done].
  destruct (client_protocol_decode (Some item)) as [[frame|]|]; cbn [xbind]; [|done|done]. unfold net_request.
  destruct (client_session_handle_request _ _ _ _ _ _ _ _ _ _ _ _ _ _ _ _) as [[o|]|]; [|done|done].
  assert (E : send_events send (o_daemon o) (o_sent o) = send_events send' (o_daemon o) (o_sent o)).
  { induction (o_sent o) as [|[fd data] l IH]; [done|]. cbn [send_events]. rewrite Hs. by destruct (send' _ _ _) as [[? ?]|];
      cbn [xbind]; [rewrite IH|]. }
  rewrite E. by destruct (client_protocol_serialize _ _); cbn; rewrite ?Ha.
Qed.
End serving.

Lemma stream_frames_ext {St} (f g : St → list Z → exec St) fuel buf s :
  (∀ s b, f s b = g s b) → stream_frames f fuel buf s = stream_frames g fuel buf s.
Proof.
  intros E. revert buf s. induction fuel as [|fuel IH]; intros buf s; [done|]. cbn [stream_frames].
  destruct (_ <? _); [done|]. destruct (read_frame_header buf) as [[[] len]|]; cbn [xbind negb]; [|done|done].
  destruct (_ <? _)%nat; [done|]. rewrite E. destruct (g s _); cbn [xbind]; [apply IH|done].
Qed.

(** ** The interface of a stream transport

    A transport of type [S] receives lists of buffers for one of its clients.
    [view s buf cap sd]: the client's buffer holds [buf] in an allocation of [cap]
    bytes and the daemon is [sd].  Receiving appends, handles the complete frames
    with [serve], and then makes the calls [ack], none of which sends. *)

Class StreamReceiver {K : Type} (S : Type) (serve : option (net_served K) → list Z → exec (option (net_served K)))
    (realloc : Z → bool) (view : S → list Z → Z → net_served K → Prop) (recv : S → list (list Z) → run S)
    (ack : list (list Z) → list net_call) := {
  ack_silent : ∀ buffers, silent (ack buffers);
  recv_law : ∀ s buf cap sd buffers buf1 cap1 buf2 sd2,
    view s buf cap sd → receive_buffers realloc buf cap buffers = Some (Ret (Some (buf1, cap1))) →
    stream_frames serve (length buf1) buf1 (Some sd) = Ret (buf2, Some sd2) →
    ∃ s', recv s buffers = Some (Ret s') ∧
      view s' buf2 cap1 (mkNet (ns_daemon sd2) (ns_calls sd2 ++ ack buffers) (ns_world sd2))
}.

Fixpoint recv_all {S : Type} (recv : S → list (list Z) → run S) (s : S) (events : list (list (list Z))) : run S :=
  match events with
  | [] => Some (Ret s)
  | ev :: events' => s' <~ recv s ev ;; recv_all recv s' events'
  end.

Section reassembly.
Context {K : Type} `{!SignatureScheme K} `{!EqDecision K}.
Context (blake3 : list Z → list Z) (XXH3 : list Z → Z → Z) (clock : Z → Z * Z).
Context (DatagramSend : Z → list Z → bool) (time_us mono_us : world → Z).
Context (connect : Z → Z → option Z * bool).
Context (cbor_load : list Z → option cbor_item) (cbor_serialize_alloc : cbor_item → list Z).
Context (new_key : option K) (create : list Z → Z → exec (option (poseidon_channel_t K))).
Context (session : Z) (send : daemon_t K → Z → list Z → exec (Z * list net_call)) (answer : list Z → list net_call).
Context (fuel : nat).
Local Abbreviation serve := (net_frame blake3 XXH3 clock DatagramSend time_us mono_us connect cbor_load
  cbor_serialize_alloc new_key create session send answer fuel).
Context {S : Type} (realloc : Z → bool) (view : S → list Z → Z → net_served K → Prop)
  (recv : S → list (list Z) → run S) (ack : list (list Z) → list net_call)
  `{!StreamReceiver S serve realloc view recv ack}.
Context (realloc_ok : ∀ n, realloc n = true).

(** The same daemon, up to calls that send nothing. *)
Definition served_alike (sd sd' : net_served K) : Prop :=
  ns_daemon sd' = ns_daemon sd ∧ ns_world sd' = ns_world sd ∧ sent_of sd' = sent_of sd.

Lemma served_alike_after past past' (sd : net_served K) :
  List.filter is_send past' = List.filter is_send past →
  served_alike (after_calls past sd) (after_calls past' sd).
Proof.
  intros E. split_and!; [done|done|]. unfold sent_of. cbn. by rewrite !List.filter_app, E.
Qed.

(** Serving from alike daemons. *)
Lemma run_frames_alike bodies sd sd' r :
  served_alike sd sd' → run_frames serve bodies (Some sd) = Ret (Some r) →
  ∃ r', run_frames serve bodies (Some sd') = Ret (Some r') ∧ served_alike r r'.
Proof.
  intros (E1 & E2 & E3) H. destruct sd as [d calls w], sd' as [d' calls' w']. cbn in E1, E2. subst d' w'.
  assert (Ed : ∀ l, mkNet d l w = after_calls l (mkNet d [] w)) by (intros l; unfold after_calls; cbn; by rewrite app_nil_r).
  rewrite Ed, run_frames_after in H. rewrite Ed, run_frames_after.
  destruct (run_frames serve bodies (Some (mkNet d [] w))) as [[r0|]|]; [|done|done].
  cbn [xbind fmap option_fmap option_map] in *. injection H as <-. eexists. split; [done|]. by apply served_alike_after.
Qed.

Lemma recv_all_spec events s todo buf cap sd sd1 :
  view s buf cap sd → 0 < cap → zlen buf <= cap → Forall body_wide todo →
  buf ++ concat (map (@concat Z) events) = stream_of todo → partial buf todo →
  zlen (stream_of todo) <= 2 ^ 63 → run_frames serve todo (Some sd) = Ret (Some sd1) →
  ∃ s' cap' sd', recv_all recv s events = Some (Ret s') ∧ view s' [] cap' sd' ∧ served_alike sd1 sd'.
Proof.
  revert s todo buf cap sd sd1. induction events as [|ev events IH]; intros s todo buf cap sd sd1 Hv Hc Hb Hok E Hp Hsz Hr.
  - cbn in E. rewrite app_nil_r in E. apply partial_end in E as [-> ->]; [|done]. injection Hr as <-.
    exists s, cap, sd. by split_and!.
  - cbn [map concat] in E. rewrite (assoc_L (++)) in E.
    assert (Hle : zlen (buf ++ concat ev) <= 2 ^ 63).
    { rewrite <- E, zlen_app in Hsz. pose proof (zlen_nonneg (concat (map (@concat Z) events))). lia. }
    destruct (receive_buffers_ok realloc buf cap ev Hc Hb) as [[_ [n Hn]]|(cap1 & Er & H1 & H2)].
    { by rewrite <- zlen_app. }
    { by rewrite realloc_ok in Hn. }
    destruct (process_prefix serve todo (length (buf ++ concat ev)) (buf ++ concat ev) _ (Some sd) Hok E)
      as (dn & todo' & buf' & -> & E' & Hp' & Hf); [done|].
    rewrite <- (stream_frames_agree _ (dn ++ todo') _ _ _ _ Hok E) in Hf.
    rewrite run_frames_app in Hr. apply bind_ret in Hr as ([sd2|] & Hd & Hr); [|by rewrite run_frames_none in Hr].
    rewrite Hd, bind_Ret_l in Hf. destruct (recv_law _ _ _ _ _ _ _ _ _ Hv Er Hf) as (s1 & Es & Hv1).
    apply Forall_app in Hok as [_ Hok]. pose proof (stream_frames_rest _ _ _ _ _ _ (le_n _) Hf) as Hrest.
    set (sd3 := mkNet _ _ _) in Hv1.
    assert (Ha : served_alike sd2 sd3).
    { split_and!; [done|done|]. unfold sent_of. cbn. by rewrite List.filter_app, (silent_sent (ack ev)), app_nil_r by apply ack_silent. }
    destruct (run_frames_alike _ _ _ _ Ha Hr) as (r' & Hr' & Hra).
    destruct (IH s1 todo' buf' cap1 sd3 r' Hv1) as (s' & cap' & sd' & Ee & Hv' & Ha'); try done; [lia| | |].
    + assert (zlen buf' <= zlen (buf ++ concat ev)); [|lia]. 
      assert (length (stream_of todo') <= length (stream_of (dn ++ todo')))%nat.
      { unfold stream_of. rewrite map_app, concat_app, length_app. lia. }
      apply (f_equal length) in E, E'. rewrite length_app in E, E'. unfold zlen. lia.
    + unfold stream_of in *. rewrite map_app, concat_app, zlen_app in Hsz.
      pose proof (zlen_nonneg (concat (map frame_bytes dn))). lia.
    + exists s', cap', sd'. cbn [recv_all]. rewrite Es. cbn [rbind]. split_and!; [done|done|].
      destruct Hra as (A1 & A2 & A3), Ha' as (B1 & B2 & B3). split_and!; congruence.
Qed.
End reassembly.
