(* ===== verification/QuicTransportTheorems.v ===== *)
(** * QuicTransportTheorems: the QUIC transport keeps its clients

    The table of clients, the registry and the sessions agree through every
    sequence of callbacks, starts and stops, and an event for a session reaches
    the stream of its client; a conversation over a stream is the direct one; and
    without the event that marks a stream as started nothing is ever sent. *)

From stdpp Require Import gmap.
From S2P Require Import Prelude CString Bitset Bloom ElasticBloom AttenuatedBloom Cbor CborWire Endian Base58.
From S2P Require Import MessageId Node NodeId Packet ChannelPacket Subtopic TopicAlias Notice Ring Route Protocol.
From S2P Require Import Quasar Channel ChannelManager ManagerTheorems ClientProtocol ClientStream ClientSession.
From S2P Require Import SessionTheorems Transport TransportTheorems StreamTransport QuicTransport.
From S2P Require Import StreamTransportTheorems.

(** ** The table *)

Section table.
Context {K : Type} `{!SignatureScheme K} `{!EqDecision K}.

(** A read buffer as the code leaves it between callbacks. *)
Definition quic_buf_ok (c : quic_client_t) : Prop :=
  zlen (qc_read_buf c) < 4 + QUIC_READ_BUF_SIZE ∧ zlen (qc_read_buf c) <= qc_read_cap c ∧
  QUIC_READ_BUF_SIZE <= qc_read_cap c.

Record quic_wf (s : quic_server K) : Prop := {
  qw_coherent : net_coherent (map qc_session (qs_clients s)) (qs_next_addr s) (qs_daemon s);
  qw_id : qs_next_session_id s = u32 (qs_next_addr s);
  qw_room : zlen (qs_clients s) <= QUIC_MAX_CLIENTS;
  qw_bufs : Forall quic_buf_ok (qs_clients s)
}.

(** Nothing the invariant speaks about has changed. *)
Lemma quic_wf_same (s s' : quic_server K) :
  quic_wf s → same_conns (qs_daemon s) (qs_daemon s') →
  map qc_session (qs_clients s') = map qc_session (qs_clients s) →
  qs_next_addr s' = qs_next_addr s → qs_next_session_id s' = qs_next_session_id s →
  Forall quic_buf_ok (qs_clients s') → quic_wf s'.
Proof.
  intros [] Hd Ec Ea Ei Hb. constructor; rewrite ?Ec, ?Ea, ?Ei; try done; [by eapply coherent_same|].
  apply (f_equal length) in Ec. rewrite !length_map in Ec. unfold zlen in *. by rewrite Ec.
Qed.

Lemma quic_wf_clients (s : quic_server K) l :
  quic_wf s → map qc_session l = map qc_session (qs_clients s) → Forall quic_buf_ok l → quic_wf (qs_with_clients s l).
Proof. intros H Hl Hb. by apply (quic_wf_same s). Qed.

Lemma quic_wf_call (s : quic_server K) c : quic_wf s → quic_wf (qs_call s c).
Proof. intros H. apply (quic_wf_same s); try done. apply H. Qed.

Lemma quic_wf_update (s : quic_server K) i c c' :
  quic_wf s → qs_clients s !! i = Some c → qc_session c' = qc_session c → quic_buf_ok c' →
  quic_wf (qs_with_clients s (<[i := c']> (qs_clients s))).
Proof.
  intros H Hi E Hb. apply quic_wf_clients; [done|by eapply map_insert_same|].
  apply Forall_insert; [apply H|done].
Qed.

Lemma quic_wf_started (s s' : quic_server K) connection stream st :
  quic_wf s → quic_peer_stream_started s connection stream = Ret (st, s') → quic_wf s'.
Proof.
  intros H. unfold quic_peer_stream_started. destruct (qd_stopping _); [by intros [= <- <-]|].
  destruct (Z.leb_spec QUIC_MAX_CLIENTS (zlen (qs_clients s))) as [|Hroom]; [intros [= <- <-]; by apply quic_wf_call|].
  cbn [quic_admit quic_client_create]. unfold quic_enlist. cbn [qs_clients qs_with_served qs_data].
  rewrite (proj2 (Z.leb_gt _ _)) by exact Hroom. cbn [xbind]. intros [= <- <-]. destruct H.
  assert (Hreg : zlen (map qc_session (qs_clients s)) < POSEIDON_SESSION_REGISTRY_MAX).
  { unfold zlen in *. rewrite length_map. unfold QUIC_MAX_CLIENTS in Hroom. unfold POSEIDON_SESSION_REGISTRY_MAX. lia. }
  pose proof (coherent_add _ _ _ [] qw_coherent0 Hreg) as Hadd. rewrite <- qw_id0 in Hadd.
  constructor; unfold qs_clients, qs_daemon; cbn.
  - rewrite map_app. cbn. unfold put_session in *. cbn in *. by rewrite insert_insert_eq.
  - rewrite qw_id0. unfold u32. by rewrite Zplus_mod_idemp_l.
  - fold (qs_clients s). rewrite zlen_snoc. lia.
  - fold (qs_clients s). apply Forall_app_2; [done|]. constructor; [|constructor]. split_and!; by vm_compute.
Qed.

(** ** Leaving *)

Lemma quic_drop_one XXH3 (s s' : quic_server K) c :
  quic_wf s → qc_session c ∈ map qc_session (qs_clients s) →
  quic_client_destroy XXH3 (quic_remove_client s c) c = Ret s' →
  quic_wf s' ∧ map qc_session (qs_clients s) ≡ₚ qc_session c :: map qc_session (qs_clients s').
Proof.
  intros H Hin. destruct (find_member _ _ Hin) as [i Hi]. unfold quic_client_destroy, quic_remove_client.
  pose proof Hi as Hf. rewrite (find_index_map qc_session) in Hf. unfold quic_client_is. rewrite Hf.
  intros (sd & Hd & [= <-])%bind_ret. cbn [qs_with_clients qs_served] in Hd.
  destruct (coherent_destroy _ _ _ _ _ _ _ (qw_coherent _ H) Hi Hd) as (Hc & _ & P).
  apply find_index_Some in Hf as (c' & Hc' & _). pose proof (swap_remove_elem i _ c' Hc') as Pc.
  unfold qs_clients, qs_daemon. cbn. fold (qs_clients s). rewrite map_swap_remove. split; [|done]. destruct H.
  constructor; unfold qs_clients, qs_daemon; cbn; fold (qs_clients s).
  - by rewrite map_swap_remove.
  - done.
  - unfold zlen in *. rewrite swap_remove_length by by eapply lookup_lt_Some. lia.
  - rewrite Pc in qw_bufs0. by apply Forall_cons_1 in qw_bufs0 as [_ ?].
Qed.

Lemma quic_drop_wf XXH3 l (s s' : quic_server K) :
  quic_wf s → base.NoDup (map qc_session l) → (∀ a, a ∈ map qc_session l → a ∈ map qc_session (qs_clients s)) →
  quic_drop_clients XXH3 s l = Ret s' → quic_wf s'.
Proof.
  revert s. induction l as [|c l IH]; intros s H Hnd Hin; cbn [quic_drop_clients]; [by intros [= <-]|].
  intros (s1 & E & E')%bind_ret. cbn [map] in Hnd, Hin. apply list.NoDup_cons in Hnd as [Hout Hnd].
  destruct (quic_drop_one _ _ _ _ H (Hin _ (list_elem_of_here _ _)) E) as [H1 P].
  apply (IH s1); [done|done| |done]. intros a Ha.
  pose proof (Hin a (list_elem_of_further _ _ _ Ha)) as Hs. rewrite P in Hs. apply elem_of_cons in Hs as [->|?]; done.
Qed.

Lemma quic_shutdown_wf XXH3 (s s' : quic_server K) connection :
  quic_wf s → quic_shutdown_complete XXH3 s connection = Ret s' → quic_wf s'.
Proof.
  intros H. unfold quic_shutdown_complete. set (l := map _ (qs_clients s)).
  intros (s1 & E & [= <-])%bind_ret. apply quic_wf_call.
  assert (Hl : map qc_session l = map qc_session (qs_clients s)).
  { unfold l. rewrite map_map. apply map_ext. intros c. by destruct (_ =? _). }
  assert (Hb : Forall quic_buf_ok l).
  { unfold l. apply list.Forall_forall. intros c (c0 & -> & Hc)%list_elem_of_fmap.
    pose proof (qw_bufs s H) as F. rewrite list.Forall_forall in F. specialize (F c0 Hc). by destruct (_ =? _). }
  pose proof (quic_wf_clients s l H Hl Hb) as H1.
  destruct (filter_submap qc_session (fun c => qc_connection c =? connection) l) as [Hn Hi].
  { rewrite Hl. apply (nc_distinct _ _ _ (qw_coherent s H)). }
  by apply (quic_drop_wf XXH3 _ _ _ H1 Hn Hi E).
Qed.

Lemma quic_destroy_all_spec XXH3 l (s s' : quic_server K) addrs :
  net_coherent addrs (qs_next_addr s) (qs_daemon s) → map qc_session l ≡ₚ addrs →
  quic_destroy_all XXH3 s l = Ret s' →
  ∃ sd, s' = qs_with_served s sd ∧ net_coherent [] (qs_next_addr s) (ns_daemon sd) ∧ ns_calls sd = ns_calls (qs_served s).
Proof.
  revert s addrs. induction l as [|c l IH]; intros s addrs H P; cbn [quic_destroy_all].
  - intros [= <-]. apply Permutation_nil in P as ->. exists (qs_served s). by destruct s.
  - intros (s1 & E & E')%bind_ret. unfold quic_client_destroy in E. apply bind_ret in E as (sd & Hd & [= <-]).
    cbn [map] in P. destruct (find_member (qc_session c) addrs) as [i Hi]; [rewrite <- P; apply list_elem_of_here|].
    destruct (coherent_destroy _ _ _ _ _ _ _ H Hi Hd) as (Hc & Ecalls & Pa).
    destruct (IH (qs_with_served s sd) (swap_remove i addrs) Hc) as (sd' & -> & Hc' & Ecalls'); [|done|].
    { rewrite Pa in P. by apply Permutation_cons_inv in P. }
    exists sd'. cbn in Ecalls'. split_and!; [done|done|congruence].
Qed.

Lemma quic_stop_finish_wf XXH3 (s s' : quic_server K) :
  quic_wf s → quic_stop_finish XXH3 s = Ret s' →
  quic_wf s' ∧ qs_clients s' = [] ∧ List.filter is_send (ns_calls (qs_served s')) = List.filter is_send (ns_calls (qs_served s)).
Proof.
  intros H. unfold quic_stop_finish. intros (s1 & E & [= <-])%bind_ret.
  destruct (quic_destroy_all_spec _ _ _ _ _ (qw_coherent s H) (Permutation_refl _) E) as (sd & -> & Hc & Ecalls).
  assert (Hw : ∀ t : quic_server K, qs_served t = sd ∨ (∃ l, qs_served t = mkNet (ns_daemon sd) (ns_calls sd ++ l) (ns_world sd) ∧ silent l) →
    qs_next_addr t = qs_next_addr s → qs_next_session_id t = qs_next_session_id s → qs_clients t = [] →
    quic_wf t ∧ qs_clients t = [] ∧ List.filter is_send (ns_calls (qs_served t)) = List.filter is_send (ns_calls (qs_served s))).
  { intros t Ht Ea Ei El. split_and!; [|done|].
    - constructor; rewrite ?El, ?Ea, ?Ei; [|apply H|by vm_compute|constructor]. unfold qs_daemon.
      destruct Ht as [->|(l & -> & _)]; done.
    - destruct Ht as [->|(l & -> & Hl)]; cbn; [by rewrite Ecalls|].
      by rewrite List.filter_app, (silent_sent l Hl), app_nil_r, Ecalls. }
  apply Hw; [|by repeat (destruct (qd_configuration _) || destruct (qd_registration _))..].
  cbn. destruct (qd_configuration _), (qd_registration _); cbn; [..|by left]; right;
    (eexists; split; [unfold ns_call; cbn; rewrite <- ?(assoc_L (++)); reflexivity|by repeat constructor]).
Qed.
End table.

(** ** Routing *)

Section routing.
Context {K : Type} `{!SignatureScheme K} `{!EqDecision K}.
Context (sends : Z → list Z → bool).

(** What sending looks at. *)
Definition quic_route (c : quic_client_t) : Z * option Z * bool * bool :=
  (qc_session c, qc_stream c, qc_stream_ready c, qc_shutting_down c).

Lemma quic_find_route (d : daemon_t K) l l' id :
  map quic_route l = map quic_route l' →
  (c <- quic_find_client_by_id d l id ;; Ret (quic_route <$> c)) =
  (c <- quic_find_client_by_id d l' id ;; Ret (quic_route <$> c)).
Proof.
  revert l'. induction l as [|c l IH]; intros [|c' l'] E; try done. cbn [map] in E. injection E as E1 E2 E3 E4 E.
  cbn [quic_find_client_by_id]. rewrite <- E1. destruct (session_at d (qc_session c)) as [s|]; cbn [xbind]; [|done].
  destruct (_ =? _); [|by apply IH]. cbn. unfold quic_route. by rewrite E1, E2, E3, E4.
Qed.

Lemma quic_send_route (d : daemon_t K) l l' id data :
  map quic_route l = map quic_route l' → quic_transport_send sends l d id data = quic_transport_send sends l' d id data.
Proof.
  intros E. unfold quic_transport_send. pose proof (quic_find_route d l l' (u32 id) E) as R.
  destruct (quic_find_client_by_id d l _) as [[c|]|], (quic_find_client_by_id d l' _) as [[c'|]|]; cbn in R |- *; try done.
  injection R as R1 R2 R3 R4. by rewrite R2, R3, R4.
Qed.

(** While fewer than [2 ^ 32] clients have ever connected, the return address of
    a session leads to the stream of its client. *)
Lemma quic_find_client (s : quic_server K) c :
  quic_wf s → qs_next_addr s <= 2 ^ 32 → c ∈ qs_clients s →
  ∃ c', quic_find_client_by_id (qs_daemon s) (qs_clients s) (u32 (qc_session c)) = Ret (Some c') ∧
    c' ∈ qs_clients s ∧ qc_session c' = qc_session c.
Proof.
  intros H Hn Hc. pose proof (qw_coherent s H) as Hco. pose proof (nc_addrs _ _ _ Hco) as Had.
  assert (G : ∀ l, (∀ x, x ∈ l → x ∈ qs_clients s) → c ∈ l →
    ∃ c', quic_find_client_by_id (qs_daemon s) l (u32 (qc_session c)) = Ret (Some c') ∧
      c' ∈ qs_clients s ∧ qc_session c' = qc_session c); [|by apply G].
  rewrite list.Forall_forall in Had.
  assert (Hid : ∀ x, x ∈ qs_clients s → u32 (qc_session x) = qc_session x).
  { intros x Hx. specialize (Had _ (list_elem_of_fmap_2 qc_session _ _ Hx)). cbn in Had. apply u32_id. unfold is_u32. lia. }
  induction l as [|x l IH]; intros Hl Hcl; [by apply elem_of_nil in Hcl|]. cbn [quic_find_client_by_id].
  assert (Hx : x ∈ qs_clients s) by apply Hl, list_elem_of_here.
  destruct (coherent_member _ _ _ (qc_session x) Hco) as (e & He & [= Hi _ _]); [by apply list_elem_of_fmap_2|].
  unfold session_at. rewrite He. cbn [xbind]. rewrite Hi, (Hid x Hx). rewrite (Hid c Hc) in IH |- *.
  destruct (Z.eqb_spec (qc_session x) (qc_session c)) as [E|Hne]; [by exists x|].
  apply elem_of_cons in Hcl as [->|Hcl]; [done|]. apply IH; [|done]. intros y Hy. apply Hl. by apply list_elem_of_further.
Qed.

Lemma quic_send_reaches (s : quic_server K) c e data :
  quic_wf s → qs_next_addr s <= 2 ^ 32 → c ∈ qs_clients s → dm_heap (qs_daemon s) !! qc_session c = Some e →
  quic_transport_send sends (qs_clients s) (qs_daemon s) (se_client_fd e) data =
    Ret (if qc_stream_ready c && negb (qc_shutting_down c) then send_frame_on sends (qc_stream c) data else (-1, [])).
Proof.
  intros H Hn Hc He. pose proof (qw_coherent s H) as Hco. pose proof (nc_conns _ _ _ Hco _ _ He) as [= Hi Hf _].
  unfold quic_transport_send. rewrite Hf, u32_s32. rewrite (u32_id (u32 _)) by apply u32_range.
  destruct (quic_find_client s c H Hn Hc) as (c' & -> & Hc' & Es). cbn [xbind].
  assert (c' = c) as ->.
  { pose proof (nc_distinct _ _ _ Hco) as Hnd. apply list_elem_of_lookup in Hc as [i Hi'], Hc' as [j Hj].
    assert (i = j) as ->; [|congruence]. eapply (NoDup_lookup _ i j (qc_session c) Hnd);
      change (map ?f) with (fmap (M := list) f); rewrite list_lookup_fmap; [by rewrite Hi'|by rewrite Hj, <- Es]. }
  by destruct (qc_stream_ready c), (qc_shutting_down c).
Qed.
End routing.

(** ** Callbacks *)

Section callbacks.
Context {K : Type} `{!SignatureScheme K} `{!EqDecision K}.
Context (blake3 : list Z → list Z) (XXH3 : list Z → Z → Z) (clock : Z → Z * Z).
Context (DatagramSend : Z → list Z → bool) (time_us mono_us : world → Z).
Context (connect : Z → Z → option Z * bool).
Context (cbor_load : list Z → option cbor_item) (cbor_serialize_alloc : cbor_item → list Z).
Context (new_key : option K) (create : list Z → Z → exec (option (poseidon_channel_t K))).
Context (sends : Z → list Z → bool) (realloc : Z → bool).
Local Abbreviation stream_callback := (quic_stream_callback blake3 XXH3 clock DatagramSend time_us mono_us connect
  cbor_load cbor_serialize_alloc new_key create sends realloc).
Local Abbreviation process_stream_data := (quic_process_stream_data blake3 XXH3 clock DatagramSend time_us mono_us
  connect cbor_load cbor_serialize_alloc new_key create sends).
Local Abbreviation receive := (quic_receive blake3 XXH3 clock DatagramSend time_us mono_us connect cbor_load
  cbor_serialize_alloc new_key create sends realloc).

(** The bytes of an event are in memory. *)
Definition quic_event_fits (e : quic_stream_event) : Prop :=
  match e with STREAM_RECEIVE buffers => zlen (concat buffers) <= 2 ^ 62 | _ => True end.

Lemma quic_process_spec fuel clients c buf (sd : net_served K) buf' st :
  process_stream_data fuel clients c buf sd = Ret (buf', st) →
  zlen buf' < 4 + UNIX_READ_BUF_SIZE ∧ zlen buf' <= zlen buf ∧
  from_option (fun sd' => same_conns (ns_daemon sd) (ns_daemon sd')) True st.
Proof.
  unfold quic_process_stream_data. intros E. split_and!.
  - by eapply stream_frames_rest.
  - by eapply stream_frames_shrinks.
  - eapply stream_frames_inv; [|  |exact E]; [|cbn; reflexivity]. intros s b s'. cbv beta. apply net_frame_conns.
Qed.

Lemma quic_receive_wf fuel (s s' : quic_server K) i c stream buffers :
  quic_wf s → qs_clients s !! i = Some c → zlen (concat buffers) <= 2 ^ 62 →
  receive fuel s i c stream buffers = Some (Ret s') → quic_wf s'.
Proof.
  intros H Hi Hn. unfold quic_receive. destruct (qc_shutting_down c); [intros [= <-]; by apply quic_wf_call|].
  pose proof (Forall_lookup_1 _ _ _ _ (qw_bufs s H) Hi) as (Hb1 & Hb2 & Hb3). unfold QUIC_READ_BUF_SIZE in *.
  destruct (receive_buffers_ok realloc (qc_read_buf c) (qc_read_cap c) buffers) as [[-> _]|(cap & -> & Hc1 & Hc2)];
    [lia|done|lia|..]; cbn [rbind]; [intros [= <-]; by apply quic_wf_call|].
  destruct (process_stream_data _ _ _ _ _) as [[buf' [sd|]]|] eqn:E; cbn [lift rbind]; [|done|done].
  apply quic_process_spec in E as (H1 & H2 & H3). unfold UNIX_READ_BUF_SIZE in H1. intros [= <-]. apply quic_wf_call.
  assert (Hq : quic_buf_ok (qc_with_buf c buf' cap)) by (unfold quic_buf_ok, QUIC_READ_BUF_SIZE; cbn; lia).
  pose proof (quic_wf_update s i c (qc_with_buf c buf' cap) H Hi eq_refl Hq) as Hw.
  apply (quic_wf_same _ _ Hw); try done. apply Hw.
Qed.

Lemma quic_callback_client fuel (s s' : quic_server K) stream a e :
  stream_callback fuel s stream a e = Some (Ret s') → ∃ i c, qs_clients s !! i = Some c ∧ qc_session c = a.
Proof.
  unfold quic_stream_callback. destruct (find_index _ _) as [i|] eqn:Ei; [|done].
  apply find_index_Some in Ei as (c & Hi & Ha & _). apply Z.eqb_eq in Ha. by exists i, c.
Qed.

Lemma quic_stream_wf fuel (s s' : quic_server K) stream a e :
  quic_wf s → quic_event_fits e → stream_callback fuel s stream a e = Some (Ret s') → quic_wf s'.
Proof.
  intros H Hf. unfold quic_stream_callback. destruct (find_index _ _) as [i|]; [|done].
  destruct (qs_clients s !! i) as [c|] eqn:Hi; [|done]. pose proof (Forall_lookup_1 _ _ _ _ (qw_bufs s H) Hi) as Hb.
  destruct e; [intros [= <-]; by eapply quic_wf_update| |by intros [= <-]| |by intros [= <-]].
  - by apply quic_receive_wf.
  - intros [= <-]. destruct (negb _); [by apply quic_wf_call|done].
Qed.

Lemma quic_stop_signal_wf (s : quic_server K) : quic_wf s → quic_wf (quic_stop_signal s).
Proof.
  intros H. unfold quic_stop_signal. set (s2 := mkQuicServer _ _ _ _ _).
  assert (H2 : quic_wf s2).
  { apply (quic_wf_same s _ H); unfold s2; try by destruct (qd_listener _).
    - unfold qs_clients at 1. cbn. by rewrite map_map.
    - unfold qs_clients at 1. cbn. apply list.Forall_forall. intros c (c0 & -> & Hc)%list_elem_of_fmap.
      pose proof (qw_bufs s H) as F. rewrite list.Forall_forall in F. exact (F c0 Hc). }
  revert H2. generalize s2. induction (map qc_shut (qs_clients s)) as [|c l IH]; intros t Ht; [done|]. cbn [fold_left].
  apply IH. by apply quic_wf_call.
Qed.

(** What happens to a QUIC transport: callbacks of msquic with stream events in
    [allowed], starts, the two halves of a stop with whatever comes between them,
    and the work of the daemon's other threads. *)
Inductive quic_step (allowed : quic_stream_event → Prop) (s : quic_server K) : quic_server K → Prop :=
| qstep_stream fuel stream a e s' :
    allowed e → quic_event_fits e → stream_callback fuel s stream a e = Some (Ret s') → quic_step allowed s s'
| qstep_connection connection e st s' :
    quic_connection_callback XXH3 s connection e = Ret (st, s') → quic_step allowed s s'
| qstep_start opens : quic_step allowed s (quic_transport_start s opens).2
| qstep_stop_signal : quic_step allowed s (quic_stop_signal s)
| qstep_stop_finish s' : quic_stop_finish XXH3 s = Ret s' → quic_step allowed s s'
| qstep_manager m : m_sessions m = m_sessions (dm_mgr (qs_daemon s)) →
    quic_step allowed s (qs_with_served s (ns_with_daemon (qs_served s) (dm_with_mgr (qs_daemon s) m))).

Lemma quic_start_same (s : quic_server K) opens :
  let s' := (quic_transport_start s opens).2 in
  qs_clients s' = qs_clients s ∧ qs_daemon s' = qs_daemon s ∧ qs_next_addr s' = qs_next_addr s ∧
  qs_next_session_id s' = qs_next_session_id s ∧ sent_of (qs_served s') = sent_of (qs_served s).
Proof.
  cbv zeta. unfold quic_transport_start. destruct (qs_data s) as [r cf ls cl st] eqn:Ed.
  assert (G : ∀ l, silent l → List.filter is_send (ns_calls (qs_served s) ++ l) = sent_of (qs_served s)).
  { intros l Hl. by rewrite List.filter_app, (silent_sent l Hl), app_nil_r. }
  repeat (destruct (negb _); [cbn; split_and!; try done; unfold sent_of; cbn; rewrite <- ?(assoc_L (++)); apply G; by repeat constructor|]).
  cbn. by split_and!.
Qed.

Lemma quic_step_wf allowed (s s' : quic_server K) : quic_step allowed s s' → quic_wf s → quic_wf s'.
Proof.
  intros [fuel stream a e s1 _ Hf E|connection e st s1 E|opens| |s1 E|m Hm] H.
  - by eapply quic_stream_wf.
  - destruct e; cbn in E; [by injection E as _ <-|by eapply quic_wf_started|].
    apply bind_ret in E as (s2 & E & [= _ <-]). by eapply quic_shutdown_wf.
  - destruct (quic_start_same s opens) as (E1 & E2 & E3 & E4 & _).
    apply (quic_wf_same s _ H); rewrite ?E1, ?E2; try done. apply H.
  - by apply quic_stop_signal_wf.
  - by apply (quic_stop_finish_wf XXH3 s).
  - apply (quic_wf_same s _ H); try done. apply H.
Qed.
End callbacks.

(** ** Silence *)

Section silence.
Context {K : Type} `{!SignatureScheme K} `{!EqDecision K}.
Context (blake3 : list Z → list Z) (XXH3 : list Z → Z → Z) (clock : Z → Z * Z).
Context (DatagramSend : Z → list Z → bool) (time_us mono_us : world → Z).
Context (connect : Z → Z → option Z * bool).
Context (cbor_load : list Z → option cbor_item) (cbor_serialize_alloc : cbor_item → list Z).
Context (new_key : option K) (create : list Z → Z → exec (option (poseidon_channel_t K))).
Context (sends : Z → list Z → bool) (realloc : Z → bool).

(** No stream has been marked as started and nothing has been sent. *)
Definition quic_quiet (s : quic_server K) : Prop :=
  Forall (fun c => qc_stream_ready c = false) (qs_clients s) ∧ silent (ns_calls (qs_served s)).

Lemma quic_quiet_call (s : quic_server K) c : is_send c = false → quic_quiet s → quic_quiet (qs_call s c).
Proof. intros Hc [H1 H2]. split; [done|]. cbn. apply Forall_app_2; [done|]. by repeat constructor. Qed.

Lemma quic_find_in (d : daemon_t K) l id c : quic_find_client_by_id d l id = Ret (Some c) → c ∈ l.
Proof.
  induction l as [|x l IH]; cbn [quic_find_client_by_id]; [done|]. intros (s & _ & E)%bind_ret.
  destruct (_ =? _); [injection E as ->; apply list_elem_of_here|]. apply list_elem_of_further. by apply IH.
Qed.

Lemma quic_quiet_send (s : quic_server K) (d : daemon_t K) id data r :
  quic_quiet s → quic_transport_send sends (qs_clients s) d id data = Ret r → silent r.2.
Proof.
  intros [H _]. unfold quic_transport_send. intros ([c|] & E & Er)%bind_ret; [|injection Er as <-; constructor].
  apply quic_find_in in E. rewrite list.Forall_forall in H. rewrite (H c E) in Er. injection Er as <-. constructor.
Qed.

Lemma quic_quiet_stream fuel (s s' : quic_server K) stream a e :
  quic_quiet s → e ≠ STREAM_START_COMPLETE →
  quic_stream_callback blake3 XXH3 clock DatagramSend time_us mono_us connect cbor_load cbor_serialize_alloc new_key
    create sends realloc fuel s stream a e = Some (Ret s') → quic_quiet s'.
Proof.
  intros H He. unfold quic_stream_callback. destruct (find_index _ _) as [i|]; [|done].
  destruct (qs_clients s !! i) as [c|] eqn:Hi; [|done]. destruct e; [done| |by intros [= <-]| |by intros [= <-]].
  - unfold quic_receive. destruct (qc_shutting_down c); [intros [= <-]; by apply quic_quiet_call|].
    destruct (receive_buffers _ _ _ _) as [[[[buf cap]|]|]|]; cbn [rbind]; [|intros [= <-]; by apply quic_quiet_call|done|done].
    destruct (quic_process_stream_data _ _ _ _ _ _ _ _ _ _ _ _ _ _ _ _ _) as [[buf' [sd|]]|] eqn:E; cbn [lift rbind]; [|done|done].
    intros [= <-]. apply quic_quiet_call; [done|]. pose proof H as [H1 H2].
    pose proof (Forall_lookup_1 _ _ _ _ H1 Hi) as Hc. cbv beta in Hc. split.
    + cbn. apply Forall_insert; [done|]. exact Hc.
    + unfold quic_process_stream_data in E.
      apply (stream_frames_inv _ (fun st => silent (calls_of st))) in E; [done| |done].
      intros st b st'. apply net_frame_silent; [intros; by eapply quic_quiet_send|].
      intros data. unfold quic_answer. rewrite Hc. constructor.
  - intros [= <-]. destruct (negb _); [by apply quic_quiet_call|done].
Qed.

Lemma quic_quiet_drop l (s s' : quic_server K) : quic_quiet s → quic_drop_clients XXH3 s l = Ret s' → quic_quiet s'.
Proof.
  revert s. induction l as [|c l IH]; intros s H; cbn [quic_drop_clients]; [by intros [= <-]|].
  intros (s1 & E & E')%bind_ret. apply (IH s1); [|done]. unfold quic_client_destroy in E.
  apply bind_ret in E as (sd & Hd & [= <-]). apply net_session_destroy_calls in Hd. unfold quic_remove_client in *.
  destruct H as [H1 H2]. destruct (find_index _ _) as [i|] eqn:Ei; cbn in Hd.
  - apply find_index_Some in Ei as (c' & Hc' & _). pose proof (swap_remove_elem i _ c' Hc') as P. split; cbn; [|by rewrite Hd].
    rewrite P in H1. by apply Forall_cons_1 in H1 as [_ ?].
  - split; cbn; [done|by rewrite Hd].
Qed.

Lemma quic_quiet_step (s s' : quic_server K) :
  quic_wf s → quic_quiet s →
  quic_step blake3 XXH3 clock DatagramSend time_us mono_us connect cbor_load cbor_serialize_alloc new_key create sends
    realloc (fun e => e ≠ STREAM_START_COMPLETE) s s' → quic_quiet s'.
Proof.
  intros Hw H [fuel stream a e s1 He _ E|connection e st s1 E|opens| |s1 E|m Hm].
  - by eapply quic_quiet_stream.
  - destruct e; cbn in E; [by injection E as _ <-| |].
    + unfold quic_peer_stream_started in E. destruct (qd_stopping _); [by injection E as _ <-|].
      destruct (Z.leb_spec QUIC_MAX_CLIENTS (zlen (qs_clients s))) as [|Hroom]; [injection E as _ <-; by apply quic_quiet_call|].
      cbn [quic_admit quic_client_create] in E. unfold quic_enlist in E. cbn [qs_clients qs_with_served qs_data] in E.
      rewrite (proj2 (Z.leb_gt _ _)) in E by exact Hroom. injection E as _ <-. destruct H as [H1 H2]. split; [|done].
      apply Forall_app_2; [done|]. by repeat constructor.
    + apply bind_ret in E as (s2 & E & [= _ <-]). unfold quic_shutdown_complete in E.
      apply bind_ret in E as (s3 & E & [= <-]). apply quic_quiet_call; [done|]. eapply quic_quiet_drop; [|exact E].
      destruct H as [H1 H2]. split; [|done]. cbn. apply list.Forall_forall. intros c (c0 & -> & Hc)%list_elem_of_fmap.
      rewrite list.Forall_forall in H1. specialize (H1 c0 Hc). by destruct (_ =? _).
  - destruct (quic_start_same s opens) as (E1 & _ & _ & _ & E2). destruct H as [H1 H2]. split; [by rewrite E1|].
    apply silent_iff. by apply silent_iff in H2; rewrite <- H2.
  - unfold quic_stop_signal. set (s2 := mkQuicServer _ _ _ _ _).
    assert (Hs2 : quic_quiet s2).
    { destruct H as [H1 H2]. split.
      - unfold s2, qs_clients at 1. cbn. apply list.Forall_forall. intros c (c0 & -> & Hc)%list_elem_of_fmap.
        rewrite list.Forall_forall in H1. exact (H1 c0 Hc).
      - unfold s2. cbn. destruct (qd_listener _); [|done]. cbn. apply Forall_app_2; [done|]. by repeat constructor. }
    revert Hs2. generalize s2. induction (map qc_shut (qs_clients s)) as [|c l IH]; intros t Ht; [done|]. cbn [fold_left].
    apply IH. by apply quic_quiet_call.
  - destruct (quic_stop_finish_wf XXH3 s s1 Hw E) as (_ & El & Ec). destruct H as [H1 H2]. split; [rewrite El; constructor|].
    apply silent_iff. rewrite Ec. by apply silent_iff.
  - done.
Qed.
End silence.

(** ** The QUIC transport is a stream receiver *)

Section receiver.
Context {K : Type} `{!SignatureScheme K} `{!EqDecision K}.
Context (blake3 : list Z → list Z) (XXH3 : list Z → Z → Z) (clock : Z → Z * Z).
Context (DatagramSend : Z → list Z → bool) (time_us mono_us : world → Z).
Context (connect : Z → Z → option Z * bool).
Context (cbor_load : list Z → option cbor_item) (cbor_serialize_alloc : cbor_item → list Z).
Context (new_key : option K) (create : list Z → Z → exec (option (poseidon_channel_t K))).
Context (sends : Z → list Z → bool) (realloc : Z → bool) (fuel : nat).

(** How the client [c] of the table [l] is served. *)
Definition quic_serve (l : list quic_client_t) (c : quic_client_t) : option (net_served K) → list Z → exec (option (net_served K)) :=
  net_frame blake3 XXH3 clock DatagramSend time_us mono_us connect cbor_load cbor_serialize_alloc new_key create
    (qc_session c) (quic_transport_send sends l) (quic_answer sends c) fuel.

Definition quic_recv (stream a : Z) (s : quic_server K) (buffers : list (list Z)) : run (quic_server K) :=
  quic_stream_callback blake3 XXH3 clock DatagramSend time_us mono_us connect cbor_load cbor_serialize_alloc new_key
    create sends realloc fuel s stream a (STREAM_RECEIVE buffers).

(** The [i]-th client, in a table that routes as [l] does. *)
Definition quic_view (l : list quic_client_t) (i : nat) (s : quic_server K) (buf : list Z) (cap : Z) (sd : net_served K) : Prop :=
  map quic_route (qs_clients s) = map quic_route l ∧ qs_served s = sd ∧
  ∃ c, qs_clients s !! i = Some c ∧ qc_read_buf c = buf ∧ qc_read_cap c = cap.

Definition quic_ack (stream : Z) (buffers : list (list Z)) : list net_call :=
  [StreamReceiveComplete stream (received_total buffers)].

Lemma quic_receiver l i c stream :
  l !! i = Some c → find_index (quic_client_is (qc_session c)) l = Some i → qc_shutting_down c = false →
  StreamReceiver (quic_server K) (quic_serve l c) realloc (quic_view l i) (quic_recv stream (qc_session c))
    (quic_ack stream).
Proof.
  intros Hl Hf Hs. split; [intros buffers; by repeat constructor|].
  intros s buf cap sd buffers buf1 cap1 buf2 sd2 (Hr & <- & c' & Hc' & <- & <-) Erb Efr.
  assert (Ei : find_index (quic_client_is (qc_session c)) (qs_clients s) = Some i).
  { rewrite <- Hf. set (p := fun r : Z * option Z * bool * bool => r.1.1.1 =? qc_session c).
    transitivity (find_index p (map quic_route (qs_clients s))); [by rewrite (find_index_map quic_route)|].
    by rewrite Hr, (find_index_map quic_route). }
  assert (Erc : quic_route c' = quic_route c).
  { apply (f_equal (fun x => x !! i)) in Hr. change (map quic_route) with (fmap (M := list) quic_route) in Hr.
    rewrite !list_lookup_fmap, Hc', Hl in Hr. by apply (inj Some) in Hr. }
  pose proof Erc as [= E1 E2 E3 E4]. unfold quic_recv, quic_stream_callback. rewrite Ei, Hc'. unfold quic_receive.
  rewrite E4, Hs, Erb. cbn [rbind]. unfold quic_process_stream_data.
  rewrite (stream_frames_ext _ (quic_serve l c)).
  2:{ intros st b. unfold quic_serve. rewrite E1. apply net_frame_ext; [intros; by apply quic_send_route|].
      intros data. unfold quic_answer. by rewrite E2, E3, E4. }
  rewrite Efr. cbn [lift rbind]. eexists. split; [done|]. split_and!; cbn; [|done|].
  - rewrite <- Hr. by eapply map_insert_same.
  - exists (qc_with_buf c' buf2 cap1). split_and!; [|done|done]. apply list_lookup_insert_eq. by eapply lookup_lt_Some.
Qed.
End receiver.

(** The QUIC table: from a transport as created, through any sequence of
    streams started, data with the requests it carries, streams and connections
    closed, starts, stops and the callbacks between the two halves of a stop, the
    registered sessions are exactly those of the clients in the table and exactly
    those in memory, at most 256, every read buffer holds less than one frame and
    no more than its allocation, an event of the daemon is dispatched without
    reading freed memory, and sending to the return address of a session (while
    fewer than [2 ^ 32] clients have connected) reaches the stream of its own
    client. *)
Theorem quic_table_invariant {K} `{!SignatureScheme K} `{!EqDecision K} blake3 XXH3 clock send time mono conn load ser
    new_key create sends realloc allowed g g' opened cert key (d : daemon_t K) w s0 s :
  poseidon_transport_quic_create g opened cert key 1 1 (mkNet d [] w) = (Some s0, g') →
  m_sessions (dm_mgr d) = [] → dm_heap d = ∅ →
  rtc (quic_step blake3 XXH3 clock send time mono conn load ser new_key create sends realloc allowed) s0 s →
  m_sessions (dm_mgr (qs_daemon s)) = map qc_session (qs_clients s) ∧
  base.NoDup (map qc_session (qs_clients s)) ∧
  (∀ a, is_Some (dm_heap (qs_daemon s) !! a) ↔ a ∈ map qc_session (qs_clients s)) ∧
  zlen (qs_clients s) <= QUIC_MAX_CLIENTS ∧
  Forall (fun c => zlen (qc_read_buf c) < 4 + QUIC_READ_BUF_SIZE ∧ zlen (qc_read_buf c) <= qc_read_cap c) (qs_clients s) ∧
  (∀ topic publisher buf, ∃ sent, dispatch_loop (qs_daemon s) (m_sessions (dm_mgr (qs_daemon s))) topic publisher buf = Ret sent) ∧
  (qs_next_addr s <= 2 ^ 32 → ∀ c e data, c ∈ qs_clients s → dm_heap (qs_daemon s) !! qc_session c = Some e →
     quic_transport_send sends (qs_clients s) (qs_daemon s) (se_client_fd e) data =
       Ret (if qc_stream_ready c && negb (qc_shutting_down c) then send_frame_on sends (qc_stream c) data else (-1, []))).
Proof.
  intros Hc Hr Hh Hs.
  assert (H0 : quic_wf s0).
  { unfold poseidon_transport_quic_create in Hc. destruct cert, key; try done.
    destruct (poseidon_msquic_open g opened) as [[t|] g1]; [|done]. injection Hc as <- <-.
    constructor; cbn; [|done|by vm_compute|constructor]. by apply coherent_empty. }
  assert (H : quic_wf s).
  { apply (rtc_ind_r quic_wf _ H0) in Hs; [done|]. intros x y _ Hxy Hx. by eapply quic_step_wf. }
  pose proof (qw_coherent s H) as Hco. split_and!; try apply Hco; [apply H| | |].
  - eapply List.Forall_impl; [|apply (qw_bufs s H)]. intros c (H1 & H2 & _). done.
  - intros topic publisher buf. destruct (coherent_dispatch _ _ _ topic publisher buf Hco) as (sent & E & _). by exists sent.
  - intros Hn c e data Hin He. by apply quic_send_reaches.
Qed.

(** A stream that msquic never reports as started is never answered: as long
    as no [START_COMPLETE] event arrives (msquic raises it for streams the
    application itself has started, and every stream of this transport was started
    by the peer), whatever the clients send and whatever they subscribed to, the
    transport does not send a single byte. *)
Theorem quic_silent_without_start {K} `{!SignatureScheme K} `{!EqDecision K} blake3 XXH3 clock send time mono conn load
    ser new_key create sends realloc g g' opened cert key (d : daemon_t K) w s0 s :
  poseidon_transport_quic_create g opened cert key 1 1 (mkNet d [] w) = (Some s0, g') →
  m_sessions (dm_mgr d) = [] → dm_heap d = ∅ →
  rtc (quic_step blake3 XXH3 clock send time mono conn load ser new_key create sends realloc
         (fun e => e ≠ STREAM_START_COMPLETE)) s0 s →
  Forall (fun c => is_send c = false) (ns_calls (qs_served s)).
Proof.
  intros Hc Hr Hh Hs.
  assert (H0 : quic_wf s0 ∧ quic_quiet s0).
  { unfold poseidon_transport_quic_create in Hc. destruct cert, key; try done.
    destruct (poseidon_msquic_open g opened) as [[t|] g1]; [|done]. injection Hc as <- <-.
    split; [constructor; cbn; [by apply coherent_empty|done|by vm_compute|constructor]|by repeat constructor]. }
  apply (rtc_ind_r (fun x => quic_wf x ∧ quic_quiet x) _ H0) in Hs as [_ [_ H]]; [exact H|].
  intros x y _ Hxy [Hx1 Hx2]. split; [by eapply quic_step_wf|by eapply quic_quiet_step].
Qed.

(** C24. A conversation over QUIC: while [realloc] serves the growing read buffer,
    however msquic cuts the bytes of a sequence of frames into events and buffers,
    the bodies are handled one by one, in order and unmodified, with the outcome of
    handling them directly: the daemon, and the bytes sent as answers and events,
    are the same, and nothing is left in the buffer.  Bodies may have any length
    the frame header admits. *)
Theorem quic_conversation {K} `{!SignatureScheme K} `{!EqDecision K} blake3 XXH3 clock send time mono conn load ser
    new_key create sends realloc fuel (s : quic_server K) i c stream bodies events sd :
  quic_wf s → qs_clients s !! i = Some c → qc_read_buf c = [] → qc_shutting_down c = false →
  (∀ n, realloc n = true) → Forall body_wide bodies → concat (map (@concat Z) events) = stream_of bodies →
  zlen (stream_of bodies) <= 2 ^ 63 →
  run_frames (quic_serve blake3 XXH3 clock send time mono conn load ser new_key create sends fuel (qs_clients s) c)
    bodies (Some (qs_served s)) = Ret (Some sd) →
  ∃ s' c', recv_all (quic_recv blake3 XXH3 clock send time mono conn load ser new_key create sends realloc fuel
                       stream (qc_session c)) s events = Some (Ret s') ∧
    qs_clients s' !! i = Some c' ∧ qc_read_buf c' = [] ∧ ns_daemon (qs_served s') = ns_daemon sd ∧
    ns_world (qs_served s') = ns_world sd ∧ sent_of (qs_served s') = sent_of sd.
Proof.
  intros H Hi Hb Hs Hre Hok E Hsz Hrun.
  pose proof (find_own qc_session _ i c (nc_distinct _ _ _ (qw_coherent s H)) Hi) as Hf.
  pose proof (quic_receiver blake3 XXH3 clock send time mono conn load ser new_key create sends realloc fuel
    (qs_clients s) i c stream Hi Hf Hs) as Hrec.
  pose proof (Forall_lookup_1 _ _ _ _ (qw_bufs s H) Hi) as (Hb1 & Hb2 & Hb3). unfold QUIC_READ_BUF_SIZE in Hb3.
  destruct (recv_all_spec _ _ _ _ _ _ _ _ _ _ _ _ _ _ _ realloc (quic_view (qs_clients s) i) _ _ Hre
    events s bodies [] (qc_read_cap c) (qs_served s) sd) as (s' & cap' & sd' & Ee & (_ & Esd & c' & Hc' & Hbuf & _) & Ha);
    try done; [split_and!; [done|done|by exists c]|lia|rewrite Hb in Hb2; done|by left|].
  exists s', c'. rewrite Esd. destruct Ha as (A1 & A2 & A3). by split_and!.
Qed.

(** ** Witnesses *)

Definition demo_quic0 : quic_server (list Z) :=
  mkQuicServer (mkQuicData false false false [] false) false 1 1 (mkNet demo_idle [] (mkWorld 0 [])).

(** Stream 60 of connection 50. *)
Definition demo_quic1 : quic_server (list Z) :=
  match quic_peer_stream_started demo_quic0 50 60 with Ret (_, s) => s | Trap => demo_quic0 end.

(** The same, reported as started. *)
Definition demo_quic2 : quic_server (list Z) := qs_with_clients demo_quic1 (map qc_set_ready (qs_clients demo_quic1)).

Lemma demo_quic1_started : quic_peer_stream_started demo_quic0 50 60 = Ret (QUIC_STATUS_SUCCESS, demo_quic1).
Proof. by vm_compute. Qed.

Lemma demo_quic2_wf : quic_wf demo_quic2.
Proof.
  apply quic_wf_clients; [|done|].
  - eapply quic_wf_started; [|exact demo_quic1_started]. constructor; [by apply coherent_empty|done|done|constructor].
  - repeat constructor; by vm_compute.
Qed.

Lemma quic_table_invariant_witness :
  m_sessions (dm_mgr (qs_daemon demo_quic1)) = [1] ∧ (is_Some (dm_heap (qs_daemon demo_quic1) !! 2) → False).
Proof.
  destruct (quic_table_invariant toy_blake3 (fun _ s => s) (fun g => (0, g)) (fun _ _ => true) (fun _ => 0)
    (fun _ => 0) (fun _ _ => (None, false)) cbor_load cbor_serialize_alloc None (fun _ _ => Ret None)
    (fun _ _ => true) (fun _ => true) (fun _ => True) (mkMsquic None 0) (mkMsquic (Some 9) 1) (Some 9) (Some []) (Some [])
    demo_idle (mkWorld 0 []) demo_quic0 demo_quic1) as (Hr & _ & Hl & _).
  - reflexivity.
  - reflexivity.
  - reflexivity.
  - eapply rtc_l; [|apply rtc_refl].
    apply (qstep_connection _ _ _ _ _ _ _ _ _ _ _ _ _ _ demo_quic0 50 (CONNECTION_PEER_STREAM_STARTED 60) QUIC_STATUS_SUCCESS).
    exact demo_quic1_started.
  - split; [rewrite Hr; vm_compute; reflexivity|]. rewrite Hl. intros H.
    assert (E : map qc_session (qs_clients demo_quic1) = [1]) by (vm_compute; reflexivity). rewrite E in H.
    apply list_elem_of_singleton in H. discriminate H.
Defined.

(** A subscription to "chan". *)
Definition demo_subscribe : list Z := cbor_serialize_alloc (request_item 1 CLIENT_METHOD_SUBSCRIBE (lit "chan") []).

Definition demo_quic_recv : quic_server (list Z) → list (list Z) → run (quic_server (list Z)) :=
  quic_recv toy_blake3 (fun _ s => s) (fun g => (0, g)) (fun _ _ => true) (fun _ => 0) (fun _ => 0)
    (fun _ _ => (None, false)) cbor_load cbor_serialize_alloc None (fun _ _ => Ret None) (fun _ _ => true)
    (fun _ => true) 3 60 1.

(** The request is handled and its answer lost. *)
Definition demo_quic3 : quic_server (list Z) :=
  match demo_quic_recv demo_quic1 [frame_bytes demo_subscribe] with Some (Ret s) => s | _ => demo_quic1 end.

Lemma quic_silent_without_start_witness :
  (∃ e, dm_heap (qs_daemon demo_quic3) !! 1 = Some e ∧ length (se_subscriptions e) = 1%nat) ∧
  Forall (fun c => is_send c = false) (ns_calls (qs_served demo_quic3)).
Proof.
  split; [eexists; split; vm_compute; reflexivity|].
  apply (quic_silent_without_start toy_blake3 (fun _ s => s) (fun g => (0, g)) (fun _ _ => true) (fun _ => 0)
    (fun _ => 0) (fun _ _ => (None, false)) cbor_load cbor_serialize_alloc None (fun _ _ => Ret None)
    (fun _ _ => true) (fun _ => true) (mkMsquic None 0) (mkMsquic (Some 9) 1) (Some 9) (Some []) (Some [])
    demo_idle (mkWorld 0 []) demo_quic0 demo_quic3).
  - reflexivity.
  - reflexivity.
  - reflexivity.
  - eapply rtc_l; [|eapply rtc_l; [|apply rtc_refl]].
    + apply (qstep_connection _ _ _ _ _ _ _ _ _ _ _ _ _ _ demo_quic0 50 (CONNECTION_PEER_STREAM_STARTED 60) QUIC_STATUS_SUCCESS).
      exact demo_quic1_started.
    + apply (qstep_stream _ _ _ _ _ _ _ _ _ _ _ _ _ _ demo_quic1 3 60 1 (STREAM_RECEIVE [frame_bytes demo_subscribe])).
      * discriminate.
      * vm_compute. discriminate.
      * vm_compute. reflexivity.
Defined.

(** The frame of the request in three pieces. *)
Definition demo_events : list (list (list Z)) :=
  let b := frame_bytes demo_subscribe in [[take 2 b; take 3 (drop 2 b)]; [drop 5 b]].

Lemma quic_conversation_witness :
  ∃ s', recv_all demo_quic_recv demo_quic2 demo_events = Some (Ret s') ∧ length (sent_of (qs_served s')) = 1%nat.
Proof.
  destruct (run_frames (quic_serve toy_blake3 (fun _ s => s) (fun g => (0, g)) (fun _ _ => true) (fun _ => 0)
    (fun _ => 0) (fun _ _ => (None, false)) cbor_load cbor_serialize_alloc None (fun _ _ => Ret None) (fun _ _ => true) 3
    (qs_clients demo_quic2) (mkQuic 50 (Some 60) 1 [] QUIC_READ_BUF_SIZE true false)) [demo_subscribe]
    (Some (qs_served demo_quic2))) as [[sd|]|] eqn:Er; [|vm_compute in Er; discriminate Er..].
  destruct (quic_conversation toy_blake3 (fun _ s => s) (fun g => (0, g)) (fun _ _ => true) (fun _ => 0)
    (fun _ => 0) (fun _ _ => (None, false)) cbor_load cbor_serialize_alloc None (fun _ _ => Ret None)
    (fun _ _ => true) (fun _ => true) 3 demo_quic2 0 (mkQuic 50 (Some 60) 1 [] QUIC_READ_BUF_SIZE true false) 60
    [demo_subscribe] demo_events sd) as (s' & c' & E & _ & _ & _ & _ & Es).
  - exact demo_quic2_wf.
  - reflexivity.
  - reflexivity.
  - reflexivity.
  - reflexivity.
  - repeat (constructor; [split; vm_compute; [reflexivity|discriminate]|]). constructor.
  - vm_compute. reflexivity.
  - vm_compute. discriminate.
  - exact Er.
  - exists s'. split; [exact E|]. rewrite Es. clear - Er. vm_compute in Er. injection Er as <-. vm_compute. reflexivity.
Defined.

(** ** Limits *)

(** [start] does not reset the flag [stop] sets: a restarted transport refuses
    every stream. *)
Lemma quic_restart_refuses {K} `{!SignatureScheme K} `{!EqDecision K} XXH3 (s s1 : quic_server K) connection stream :
  quic_stop_finish XXH3 (quic_stop_signal s) = Ret s1 →
  let s2 := (quic_transport_start s1 (fun _ => true)).2 in
  qs_running s2 = true ∧ quic_peer_stream_started s2 connection stream = Ret (QUIC_STATUS_CONNECTION_REFUSED, s2).
Proof.
  intros E. assert (Hst : qd_stopping (qs_data s1) = true).
  { unfold quic_stop_finish in E. apply bind_ret in E as (t & E & [= <-]).
    assert (Ht : qd_stopping (qs_data t) = true).
    { assert (G : ∀ l (x y : quic_server K), quic_destroy_all XXH3 x l = Ret y → qs_data y = qs_data x).
      { induction l as [|c l IH]; intros x y; cbn [quic_destroy_all]; [by intros [= <-]|].
        intros (z & Ez & Ey)%bind_ret. apply IH in Ey. rewrite Ey. unfold quic_client_destroy in Ez.
        by apply bind_ret in Ez as (sd & _ & [= <-]). }
      rewrite (G _ _ _ E). unfold quic_stop_signal. set (s2 := mkQuicServer _ _ _ _ _).
      assert (Hs : qd_stopping (qs_data s2) = true) by done. revert Hs. generalize s2.
      induction (map qc_shut (qs_clients s)) as [|c l IH]; intros x Hx; [done|]. cbn [fold_left]. by apply IH. }
    cbn. by destruct (qd_configuration _), (qd_registration _). }
  destruct s1 as [[r cf ls cl st] run id ad sd]. cbn in Hst. subst st. done.
Qed.

(** The limit is tested before the lock is taken: two callbacks that pass the
    test together write past the table. *)
Lemma quic_admission_race {K} `{!SignatureScheme K} `{!EqDecision K} (s : quic_server K) conn1 stream1 conn2 stream2 :
  zlen (qs_clients s) = QUIC_MAX_CLIENTS - 1 →
  let '(c1, s1) := quic_admit s conn1 stream1 in
  let '(c2, s2) := quic_admit s1 conn2 stream2 in
  ∃ s3, quic_enlist s2 c1 = Ret s3 ∧ quic_enlist s3 c2 = Trap.
Proof.
  intros H. cbn [quic_admit quic_client_create]. unfold quic_enlist at 1. unfold qs_clients in *. cbn [qs_data qs_with_served].
  rewrite H. rewrite (proj2 (Z.leb_gt _ _)) by lia. eexists. split; [reflexivity|]. unfold quic_enlist, qs_clients. cbn.
  by rewrite zlen_snoc, H.
Qed.

(** When [realloc] fails the received bytes are reported as consumed and lost:
    the rest of the stream is read from the middle of a frame. *)
Lemma quic_realloc_failure_drops {K} `{!SignatureScheme K} `{!EqDecision K} blake3 XXH3 clock send time mono conn load ser
    new_key create sends fuel (s : quic_server K) i c stream buffers :
  qs_clients s !! i = Some c → qc_shutting_down c = false → 0 < qc_read_cap c → zlen (qc_read_buf c) <= qc_read_cap c →
  qc_read_cap c < zlen (qc_read_buf c) + zlen (concat buffers) <= 2 ^ 63 →
  quic_receive blake3 XXH3 clock send time mono conn load ser new_key create sends (fun _ => false) fuel s i c stream
    buffers = Some (Ret (qs_call s (StreamReceiveComplete stream (zlen (concat buffers))))).
Proof.
  intros Hi Hs Hc Hb [Hlt Hle]. unfold quic_receive. rewrite Hs.
  destruct (receive_buffers_ok (fun _ => false) (qc_read_buf c) (qc_read_cap c) buffers Hc Hb Hle) as [[-> _]|(cap & E & _)].
  - cbn. by rewrite received_total_concat.
  - exfalso. unfold receive_buffers in E. rewrite received_total_concat, (proj2 (Z.ltb_lt _ _)) in E by lia.
    by destruct (grow_cap _ _ _).
Qed.
