(* ===== verification/WebTransportTheorems.v ===== *)
(** * WebTransportTheorems: the WebTransport server keeps its clients

    As for QUIC: the table of clients, the registry and the sessions agree through
    every sequence of callbacks, starts and stops, an event for a session reaches
    the stream its client has, and a conversation over a stream is the direct one.
    Then what the server does to a session it has refused, and to the bytes a
    closed stream has left behind. *)

From stdpp Require Import gmap.
From S2P Require Import Prelude CString Bitset Bloom ElasticBloom AttenuatedBloom Cbor CborWire Endian Base58.
From S2P Require Import MessageId Node NodeId Packet ChannelPacket Subtopic TopicAlias Notice Ring Route Protocol.
From S2P Require Import Quasar Channel ChannelManager ManagerTheorems ClientProtocol ClientStream ClientSession.
From S2P Require Import SessionTheorems Transport TransportTheorems StreamTransport WebTransport.
From S2P Require Import StreamTransportTheorems.

(** ** The table *)

Section table.
Context {K : Type} `{!SignatureScheme K} `{!EqDecision K}.

Definition wt_buf_ok (c : wt_client_t) : Prop :=
  zlen (wt_read_buf c) < 4 + WT_READ_BUF_SIZE ∧ zlen (wt_read_buf c) <= wt_read_cap c ∧ WT_READ_BUF_SIZE <= wt_read_cap c.

Record wt_wf (s : wt_server K) : Prop := {
  ww_coherent : net_coherent (map wt_client_session (wv_clients s)) (wv_next_addr s) (wv_daemon s);
  ww_id : wv_next_session_id s = u32 (wv_next_addr s);
  ww_room : zlen (wv_clients s) <= WT_MAX_CLIENTS;
  ww_bufs : Forall wt_buf_ok (wv_clients s)
}.

Lemma wt_wf_same (s s' : wt_server K) :
  wt_wf s → same_conns (wv_daemon s) (wv_daemon s') →
  map wt_client_session (wv_clients s') = map wt_client_session (wv_clients s) →
  wv_next_addr s' = wv_next_addr s → wv_next_session_id s' = wv_next_session_id s →
  Forall wt_buf_ok (wv_clients s') → wt_wf s'.
Proof.
  intros [] Hd Ec Ea Ei Hb. constructor; rewrite ?Ec, ?Ea, ?Ei; try done; [by eapply coherent_same|].
  apply (f_equal length) in Ec. rewrite !length_map in Ec. unfold zlen in *. by rewrite Ec.
Qed.

Lemma wt_wf_call (s : wt_server K) c : wt_wf s → wt_wf (wv_call s c).
Proof. intros H. apply (wt_wf_same s); try done. apply H. Qed.

Lemma wt_wf_update (s : wt_server K) i c c' :
  wt_wf s → wv_clients s !! i = Some c → wt_client_session c' = wt_client_session c → wt_buf_ok c' →
  wt_wf (wv_with_clients s (<[i := c']> (wv_clients s))).
Proof.
  intros H Hi E Hb. apply (wt_wf_same s); try done; [by eapply map_insert_same|].
  apply Forall_insert; [apply H|done].
Qed.

Lemma wt_connected_wf (s : wt_server K) session : wt_wf s → wt_wf (wt_session_connected s session).
Proof.
  intros H. unfold wt_session_connected. destruct (wv_stopping s); [by apply wt_wf_call|]. unfold wt_client_create.
  destruct (Z.leb_spec WT_MAX_CLIENTS (zlen (wv_clients s))) as [|Hroom]; [by apply wt_wf_call|]. destruct H.
  assert (Hreg : zlen (map wt_client_session (wv_clients s)) < POSEIDON_SESSION_REGISTRY_MAX).
  { unfold zlen in *. rewrite length_map. unfold WT_MAX_CLIENTS in Hroom. unfold POSEIDON_SESSION_REGISTRY_MAX. lia. }
  pose proof (coherent_add _ _ _ [] ww_coherent0 Hreg) as Hadd. rewrite <- ww_id0 in Hadd. constructor; cbn.
  - rewrite map_app. exact Hadd.
  - rewrite ww_id0. unfold u32. by rewrite Zplus_mod_idemp_l.
  - rewrite zlen_snoc. lia.
  - apply Forall_app_2; [done|]. constructor; [|constructor]. split_and!; by vm_compute.
Qed.

Lemma wt_context_lookup (s : wt_server K) session i c :
  wt_context_client s session = Ret (i, c) → wv_clients s !! i = Some c.
Proof.
  unfold wt_context_client. destruct (wv_contexts s !! session) as [a|]; [|done].
  destruct (find_index _ _) as [j|]; [|done]. destruct (wv_clients s !! j) as [x|] eqn:Ej; [|done]. by intros [= <- <-].
Qed.

Lemma wt_drop_wf XXH3 (s s' : wt_server K) c :
  wt_wf s → wt_client_session c ∈ map wt_client_session (wv_clients s) →
  wt_client_destroy XXH3 (wt_remove_client s c) c = Ret s' → wt_wf s'.
Proof.
  intros H Hin. destruct (find_member _ _ Hin) as [i Hi]. unfold wt_client_destroy, wt_remove_client.
  pose proof Hi as Hf. rewrite (find_index_map wt_client_session) in Hf. unfold wt_client_is. rewrite Hf.
  intros (sd & Hd & [= <-])%bind_ret. cbn [wv_with_clients wv_served] in Hd.
  destruct (coherent_destroy _ _ _ _ _ _ _ (ww_coherent _ H) Hi Hd) as (Hc & _ & P).
  apply find_index_Some in Hf as (c' & Hc' & _). pose proof (swap_remove_elem i _ c' Hc') as Pc. destruct H.
  constructor; cbn; [|done| |].
  - by rewrite map_swap_remove.
  - unfold zlen in *. rewrite swap_remove_length by by eapply lookup_lt_Some. lia.
  - rewrite Pc in ww_bufs0. by apply Forall_cons_1 in ww_bufs0 as [_ ?].
Qed.

Lemma wt_session_wf XXH3 (s s' : wt_server K) session e :
  wt_wf s → wt_session_callback XXH3 s session e = Ret s' → wt_wf s'.
Proof.
  intros H. destruct e; cbn [wt_session_callback].
  - intros [= <-]. by apply wt_connected_wf.
  - unfold wt_session_disconnected. intros ([i c] & Hc & E)%bind_ret. apply wt_context_lookup in Hc.
    pose proof (Forall_lookup_1 _ _ _ _ (ww_bufs s H) Hc) as Hb.
    pose proof (wt_wf_update s i c (wt_shut c) H Hc eq_refl Hb) as H1. destruct (wv_stopping s); [by injection E as <-|].
    apply (wt_drop_wf XXH3 _ _ c H1) in E; [done|]. cbn. rewrite (map_insert_same wt_client_session _ i c) by done.
    apply list_elem_of_fmap_2. by eapply list_elem_of_lookup_2.
  - by intros ([i c] & _ & [= <-])%bind_ret.
  - unfold wt_stream_opened. intros ([i c] & Hc & E)%bind_ret. apply wt_context_lookup in Hc.
    destruct unidirectional; [injection E as <-; by apply wt_wf_call|].
    destruct (wt_stream c); injection E as <-; [by apply wt_wf_call|].
    eapply wt_wf_update; [done|done|done|]. exact (Forall_lookup_1 _ _ _ _ (ww_bufs s H) Hc).
  - by intros [= <-].
Qed.

Lemma wt_destroy_all_spec XXH3 l (s s' : wt_server K) addrs :
  net_coherent addrs (wv_next_addr s) (wv_daemon s) → map wt_client_session l ≡ₚ addrs →
  wt_destroy_all XXH3 s l = Ret s' →
  ∃ sd, s' = wv_with_served s sd ∧ net_coherent [] (wv_next_addr s) (ns_daemon sd).
Proof.
  revert s addrs. induction l as [|c l IH]; intros s addrs H P; cbn [wt_destroy_all].
  - intros [= <-]. apply Permutation_nil in P as ->. exists (wv_served s). by destruct s.
  - intros (s1 & E & E')%bind_ret. unfold wt_client_destroy in E. apply bind_ret in E as (sd & Hd & [= <-]).
    cbn [map] in P. destruct (find_member (wt_client_session c) addrs) as [i Hi]; [rewrite <- P; apply list_elem_of_here|].
    destruct (coherent_destroy _ _ _ _ _ _ _ H Hi Hd) as (Hc & _ & Pa).
    destruct (IH (wv_with_served s sd) (swap_remove i addrs) Hc) as (sd' & -> & Hc'); [|done|].
    { rewrite Pa in P. by apply Permutation_cons_inv in P. }
    exists sd'. by split.
Qed.

Lemma wt_stop_finish_wf XXH3 (s s' : wt_server K) : wt_wf s → wt_stop_finish XXH3 s = Ret s' → wt_wf s'.
Proof.
  intros H. unfold wt_stop_finish. intros (s1 & E & [= <-])%bind_ret.
  destruct (wt_destroy_all_spec _ _ _ _ _ (ww_coherent s H) (Permutation_refl _) E) as (sd & -> & Hc). destruct H.
  cbn. destruct (wv_server s), (wv_context s); (constructor; cbn; [done|done|by vm_compute|constructor]).
Qed.
End table.

(** ** Routing *)

Section routing.
Context {K : Type} `{!SignatureScheme K} `{!EqDecision K}.
Context (sends : Z → list Z → bool).

Definition wt_route (c : wt_client_t) : Z * option Z * bool := (wt_client_session c, wt_stream c, wt_shutting_down c).

Lemma wt_find_route (d : daemon_t K) l l' id :
  map wt_route l = map wt_route l' →
  (c <- wt_find_client_by_id d l id ;; Ret (wt_route <$> c)) =
  (c <- wt_find_client_by_id d l' id ;; Ret (wt_route <$> c)).
Proof.
  revert l'. induction l as [|c l IH]; intros [|c' l'] E; try done. cbn [map] in E. injection E as E1 E2 E3 E.
  cbn [wt_find_client_by_id]. rewrite <- E1. destruct (session_at d (wt_client_session c)) as [s|]; cbn [xbind]; [|done].
  destruct (_ =? _); [|by apply IH]. cbn. unfold wt_route. by rewrite E1, E2, E3.
Qed.

Lemma wt_send_route (d : daemon_t K) l l' id data :
  map wt_route l = map wt_route l' → webtransport_send sends l d id data = webtransport_send sends l' d id data.
Proof.
  intros E. unfold webtransport_send. pose proof (wt_find_route d l l' (u32 id) E) as R.
  destruct (wt_find_client_by_id d l _) as [[c|]|], (wt_find_client_by_id d l' _) as [[c'|]|]; cbn in R |- *; try done.
  injection R as R1 R2 R3. by rewrite R2, R3.
Qed.

Lemma wt_send_reaches (s : wt_server K) c e data :
  wt_wf s → wv_next_addr s <= 2 ^ 32 → c ∈ wv_clients s → dm_heap (wv_daemon s) !! wt_client_session c = Some e →
  webtransport_send sends (wv_clients s) (wv_daemon s) (se_client_fd e) data =
    Ret (if wt_shutting_down c then (-1, []) else send_frame_on sends (wt_stream c) data).
Proof.
  intros H Hn Hc He. pose proof (ww_coherent s H) as Hco. pose proof (nc_conns _ _ _ Hco _ _ He) as [= Hi Hf _].
  unfold webtransport_send. rewrite Hf, u32_s32. rewrite (u32_id (u32 _)) by apply u32_range.
  pose proof (nc_addrs _ _ _ Hco) as Had. rewrite list.Forall_forall in Had.
  assert (Hid : ∀ x, x ∈ wv_clients s → u32 (wt_client_session x) = wt_client_session x).
  { intros x Hx. specialize (Had _ (list_elem_of_fmap_2 wt_client_session _ _ Hx)). cbn in Had. apply u32_id. unfold is_u32. lia. }
  rewrite (Hid c Hc). pose proof (nc_distinct _ _ _ Hco) as Hnd.
  assert (G : ∀ l, (∀ x, x ∈ l → x ∈ wv_clients s) → c ∈ l → base.NoDup (map wt_client_session l) →
    wt_find_client_by_id (wv_daemon s) l (wt_client_session c) = Ret (Some c)).
  { induction l as [|x l IH]; intros Hl Hcl Hnl; [by apply elem_of_nil in Hcl|]. cbn [wt_find_client_by_id].
    assert (Hx : x ∈ wv_clients s) by apply Hl, list_elem_of_here.
    destruct (coherent_member _ _ _ (wt_client_session x) Hco) as (e' & He' & [= Hi' _ _]); [by apply list_elem_of_fmap_2|].
    unfold session_at. rewrite He'. cbn [xbind]. rewrite Hi', (Hid x Hx). cbn [map] in Hnl.
    apply list.NoDup_cons in Hnl as [Hout Hnl]. apply elem_of_cons in Hcl as [->|Hcl]; [by rewrite Z.eqb_refl|].
    rewrite (proj2 (Z.eqb_neq _ _)).
    - apply IH; [|done|done]. intros y Hy. apply Hl. by apply list_elem_of_further.
    - intros Ex. apply Hout. rewrite Ex. by apply list_elem_of_fmap_2. }
  rewrite G by done. cbn [xbind]. by destruct (wt_shutting_down c).
Qed.
End routing.

(** ** Callbacks *)

Section callbacks.
Context {K : Type} `{!SignatureScheme K} `{!EqDecision K}.
Context (blake3 : list Z → list Z) (XXH3 : list Z → Z → Z) (clock : Z → Z * Z).
Context (DatagramSend : Z → list Z → bool) (time_us mono_us : world → Z).
Context (connect : Z → Z → option Z * bool).
Context (cbor_load : list Z → option cbor_item) (cbor_serialize_alloc : cbor_item → list Z).
Context (new_key : option K) (create : list Z → Z → exec (option (poseidon_channel_t K))).
Context (sends : Z → list Z → bool) (realloc : Z → bool).
Local Abbreviation stream_callback := (wt_stream_callback blake3 XXH3 clock DatagramSend time_us mono_us connect
  cbor_load cbor_serialize_alloc new_key create sends realloc).

Definition wt_event_fits (e : wt_stream_event) : Prop :=
  match e with WTF_STREAM_EVENT_DATA_RECEIVED buffers => zlen (concat buffers) <= 2 ^ 62 | _ => True end.

Lemma wt_received_wf fuel (s s' : wt_server K) i c buffers :
  wt_wf s → wv_clients s !! i = Some c → zlen (concat buffers) <= 2 ^ 62 →
  wt_data_received blake3 XXH3 clock DatagramSend time_us mono_us connect cbor_load cbor_serialize_alloc new_key create
    sends realloc fuel s i c buffers = Some (Ret s') → wt_wf s'.
Proof.
  intros H Hi Hn. unfold wt_data_received. destruct (wt_shutting_down c); [by intros [= <-]|].
  pose proof (Forall_lookup_1 _ _ _ _ (ww_bufs s H) Hi) as (Hb1 & Hb2 & Hb3). unfold WT_READ_BUF_SIZE in *.
  destruct (receive_buffers_ok realloc (wt_read_buf c) (wt_read_cap c) buffers) as [[-> _]|(cap & -> & Hc1 & Hc2)];
    [lia|done|lia|..]; cbn [rbind]; [by intros [= <-]|].
  destruct (wt_process_stream_data _ _ _ _ _ _ _ _ _ _ _ _ _ _ _ _ _) as [[buf' [sd|]]|] eqn:E; cbn [lift rbind]; [|done|done].
  unfold wt_process_stream_data in E. pose proof (stream_frames_rest _ _ _ _ _ _ (le_n _) E) as H1.
  pose proof (stream_frames_shrinks _ _ _ _ _ _ E) as H2.
  apply (stream_frames_inv _ (from_option (fun sd => same_conns (wv_daemon s) (ns_daemon sd)) True)) in E;
    [|intros st b st'; apply net_frame_conns|cbn; reflexivity].
  unfold UNIX_READ_BUF_SIZE in H1. intros [= <-].
  assert (Hq : wt_buf_ok (wt_with_buf c buf' cap)) by (unfold wt_buf_ok, WT_READ_BUF_SIZE; cbn; lia).
  pose proof (wt_wf_update s i c (wt_with_buf c buf' cap) H Hi eq_refl Hq) as Hw.
  apply (wt_wf_same _ _ Hw); try done. apply Hw.
Qed.

Lemma wt_stream_wf fuel (s s' : wt_server K) a e :
  wt_wf s → wt_event_fits e → stream_callback fuel s a e = Some (Ret s') → wt_wf s'.
Proof.
  intros H Hf. unfold wt_stream_callback. destruct (find_index _ _) as [i|]; [|done].
  destruct (wv_clients s !! i) as [c|] eqn:Hi; [|done]. pose proof (Forall_lookup_1 _ _ _ _ (ww_bufs s H) Hi) as Hb.
  destruct e; [by apply wt_received_wf|by intros [= <-]| |intros [= <-]; by eapply wt_wf_update..].
  intros [= <-]. destruct (negb _); [|done]. destruct (wt_stream c); [by apply wt_wf_call|done].
Qed.

(** What happens to a WebTransport server. *)
Inductive wt_step (s : wt_server K) : wt_server K → Prop :=
| wtstep_stream fuel a e s' : wt_event_fits e → stream_callback fuel s a e = Some (Ret s') → wt_step s s'
| wtstep_session session e s' : wt_session_callback XXH3 s session e = Ret s' → wt_step s s'
| wtstep_start opens : wt_step s (webtransport_start s opens).2
| wtstep_stop_signal : wt_step s (wt_stop_signal s)
| wtstep_stop_finish s' : wt_stop_finish XXH3 s = Ret s' → wt_step s s'
| wtstep_manager m : m_sessions m = m_sessions (dm_mgr (wv_daemon s)) →
    wt_step s (wv_with_served s (ns_with_daemon (wv_served s) (dm_with_mgr (wv_daemon s) m))).

Lemma wt_step_wf (s s' : wt_server K) : wt_step s s' → wt_wf s → wt_wf s'.
Proof.
  intros [fuel a e s1 Hf E|session e s1 E|opens| |s1 E|m Hm] H.
  - by eapply wt_stream_wf.
  - by eapply wt_session_wf.
  - apply (wt_wf_same s _ H); unfold webtransport_start;
      repeat (destruct (negb _); [try done; apply H|]); try done; apply H.
  - apply (wt_wf_same s _ H); try done; cbn; [by rewrite map_map|].
    apply list.Forall_forall. intros c (c0 & -> & Hc)%list_elem_of_fmap.
    pose proof (ww_bufs s H) as F. rewrite list.Forall_forall in F. exact (F c0 Hc).
  - by apply (wt_stop_finish_wf XXH3 s).
  - apply (wt_wf_same s _ H); try done. apply H.
Qed.

Context (fuel : nat).

Definition wt_serve (l : list wt_client_t) (c : wt_client_t) : option (net_served K) → list Z → exec (option (net_served K)) :=
  net_frame blake3 XXH3 clock DatagramSend time_us mono_us connect cbor_load cbor_serialize_alloc new_key create
    (wt_client_session c) (webtransport_send sends l) (wt_answer sends c) fuel.

Definition wt_recv (a : Z) (s : wt_server K) (buffers : list (list Z)) : run (wt_server K) :=
  stream_callback fuel s a (WTF_STREAM_EVENT_DATA_RECEIVED buffers).

Definition wt_view (l : list wt_client_t) (i : nat) (s : wt_server K) (buf : list Z) (cap : Z) (sd : net_served K) : Prop :=
  map wt_route (wv_clients s) = map wt_route l ∧ wv_served s = sd ∧
  ∃ c, wv_clients s !! i = Some c ∧ wt_read_buf c = buf ∧ wt_read_cap c = cap.

Lemma wt_receiver l i c :
  l !! i = Some c → find_index (wt_client_is (wt_client_session c)) l = Some i → wt_shutting_down c = false →
  StreamReceiver (wt_server K) (wt_serve l c) realloc (wt_view l i) (wt_recv (wt_client_session c)) (fun _ => []).
Proof.
  intros Hl Hf Hs. split; [intros buffers; constructor|].
  intros s buf cap sd buffers buf1 cap1 buf2 sd2 (Hr & <- & c' & Hc' & <- & <-) Erb Efr.
  assert (Ei : find_index (wt_client_is (wt_client_session c)) (wv_clients s) = Some i).
  { rewrite <- Hf. set (p := fun r : Z * option Z * bool => r.1.1 =? wt_client_session c).
    transitivity (find_index p (map wt_route (wv_clients s))); [by rewrite (find_index_map wt_route)|].
    by rewrite Hr, (find_index_map wt_route). }
  assert (Erc : wt_route c' = wt_route c).
  { apply (f_equal (fun x => x !! i)) in Hr. change (map wt_route) with (fmap (M := list) wt_route) in Hr.
    rewrite !list_lookup_fmap, Hc', Hl in Hr. by apply (inj Some) in Hr. }
  pose proof Erc as [= E1 E2 E3]. unfold wt_recv, wt_stream_callback. rewrite Ei, Hc'. unfold wt_data_received.
  rewrite E3, Hs, Erb. cbn [rbind]. unfold wt_process_stream_data.
  rewrite (stream_frames_ext _ (wt_serve l c)).
  2:{ intros st b. unfold wt_serve. rewrite E1. apply net_frame_ext; [intros; by apply wt_send_route|].
      intros data. unfold wt_answer. by rewrite E2, E3. }
  rewrite Efr. cbn [lift rbind]. eexists. split; [done|]. split_and!; cbn; [| |].
  - rewrite <- Hr. by eapply map_insert_same.
  - rewrite app_nil_r. by destruct sd2.
  - exists (wt_with_buf c' buf2 cap1). split_and!; [|done|done]. apply list_lookup_insert_eq. by eapply lookup_lt_Some.
Qed.
End callbacks.

(** The WebTransport table: from a transport as created, through any sequence of
    sessions connected and disconnected, streams opened, closed and aborted, data
    with the requests it carries, starts and stops, the registered sessions are
    exactly those of the clients in the table and exactly those in memory, at most
    256, every read buffer holds less than one frame and no more than its
    allocation, an event of the daemon is dispatched without reading freed memory,
    and sending to the return address of a session (while fewer than [2 ^ 32]
    clients have connected) reaches the stream its own client has, if any. *)
Theorem wt_table_invariant {K} `{!SignatureScheme K} `{!EqDecision K} blake3 XXH3 clock send time mono conn load ser
    new_key create sends realloc cert key (d : daemon_t K) w s0 s :
  poseidon_transport_webtransport_create cert key 1 1 (mkNet d [] w) = Some s0 →
  m_sessions (dm_mgr d) = [] → dm_heap d = ∅ →
  rtc (wt_step blake3 XXH3 clock send time mono conn load ser new_key create sends realloc) s0 s →
  m_sessions (dm_mgr (wv_daemon s)) = map wt_client_session (wv_clients s) ∧
  base.NoDup (map wt_client_session (wv_clients s)) ∧
  (∀ a, is_Some (dm_heap (wv_daemon s) !! a) ↔ a ∈ map wt_client_session (wv_clients s)) ∧
  zlen (wv_clients s) <= WT_MAX_CLIENTS ∧
  Forall (fun c => zlen (wt_read_buf c) < 4 + WT_READ_BUF_SIZE ∧ zlen (wt_read_buf c) <= wt_read_cap c) (wv_clients s) ∧
  (∀ topic publisher buf, ∃ sent, dispatch_loop (wv_daemon s) (m_sessions (dm_mgr (wv_daemon s))) topic publisher buf = Ret sent) ∧
  (wv_next_addr s <= 2 ^ 32 → ∀ c e data, c ∈ wv_clients s → dm_heap (wv_daemon s) !! wt_client_session c = Some e →
     webtransport_send sends (wv_clients s) (wv_daemon s) (se_client_fd e) data =
       Ret (if wt_shutting_down c then (-1, []) else send_frame_on sends (wt_stream c) data)).
Proof.
  intros Hc Hr Hh Hs.
  assert (H0 : wt_wf s0).
  { unfold poseidon_transport_webtransport_create in Hc. destruct cert, key; try done. injection Hc as <-.
    constructor; cbn; [|done|by vm_compute|constructor]. by apply coherent_empty. }
  assert (H : wt_wf s).
  { apply (rtc_ind_r wt_wf _ H0) in Hs; [done|]. intros x y _ Hxy Hx. by eapply wt_step_wf. }
  pose proof (ww_coherent s H) as Hco. split_and!; try apply Hco; [apply H| | |].
  - eapply List.Forall_impl; [|apply (ww_bufs s H)]. intros c (H1 & H2 & _). done.
  - intros topic publisher buf. destruct (coherent_dispatch _ _ _ topic publisher buf Hco) as (sent & E & _). by exists sent.
  - intros Hn c e data Hin He. by apply wt_send_reaches.
Qed.

(** A conversation over WebTransport: however libwtf cuts the bytes of a
    sequence of frames into events and buffers, the bodies are handled one by one,
    with the outcome of handling them directly. *)
Theorem wt_conversation {K} `{!SignatureScheme K} `{!EqDecision K} blake3 XXH3 clock send time mono conn load ser
    new_key create sends realloc fuel (s : wt_server K) i c bodies events sd :
  wt_wf s → wv_clients s !! i = Some c → wt_read_buf c = [] → wt_shutting_down c = false →
  (∀ n, realloc n = true) → Forall body_wide bodies → concat (map (@concat Z) events) = stream_of bodies →
  zlen (stream_of bodies) <= 2 ^ 63 →
  run_frames (wt_serve blake3 XXH3 clock send time mono conn load ser new_key create sends fuel (wv_clients s) c)
    bodies (Some (wv_served s)) = Ret (Some sd) →
  ∃ s' c', recv_all (wt_recv blake3 XXH3 clock send time mono conn load ser new_key create sends realloc fuel
                       (wt_client_session c)) s events = Some (Ret s') ∧
    wv_clients s' !! i = Some c' ∧ wt_read_buf c' = [] ∧ ns_daemon (wv_served s') = ns_daemon sd ∧
    ns_world (wv_served s') = ns_world sd ∧ sent_of (wv_served s') = sent_of sd.
Proof.
  intros H Hi Hb Hs Hre Hok E Hsz Hrun.
  pose proof (find_own wt_client_session _ i c (nc_distinct _ _ _ (ww_coherent s H)) Hi) as Hf.
  pose proof (wt_receiver blake3 XXH3 clock send time mono conn load ser new_key create sends realloc fuel
    (wv_clients s) i c Hi Hf Hs) as Hrec.
  pose proof (Forall_lookup_1 _ _ _ _ (ww_bufs s H) Hi) as (Hb1 & Hb2 & Hb3). unfold WT_READ_BUF_SIZE in Hb3.
  destruct (recv_all_spec _ _ _ _ _ _ _ _ _ _ _ _ _ _ _ realloc (wt_view (wv_clients s) i) _ _ Hre
    events s bodies [] (wt_read_cap c) (wv_served s) sd) as (s' & cap' & sd' & Ee & (_ & Esd & c' & Hc' & Hbuf & _) & Ha);
    try done; [split_and!; [done|done|by exists c]|lia|rewrite Hb in Hb2; done|by left|].
  exists s', c'. rewrite Esd. destruct Ha as (A1 & A2 & A3). by split_and!.
Qed.

(** ** Limits *)

(** A session the server refuses keeps the transport as its context; whatever
    libwtf reports of it afterwards is read from the transport as if it were a
    client. *)
Lemma wt_refused_session_confused {K} `{!SignatureScheme K} `{!EqDecision K} XXH3 (s : wt_server K) session :
  wv_contexts s !! session = None → wv_stopping s = true ∨ WT_MAX_CLIENTS <= zlen (wv_clients s) →
  let s1 := wt_session_connected s session in
  wt_session_callback XXH3 s1 session WTF_SESSION_EVENT_DISCONNECTED = Trap ∧
  ∀ stream u, wt_session_callback XXH3 s1 session (WTF_SESSION_EVENT_STREAM_OPENED stream u) = Trap.
Proof.
  intros Hc Hr s1. assert (E : s1 = wv_call s (ConnectionShutdown session)).
  { unfold s1, wt_session_connected. destruct (wv_stopping s); [done|]. destruct Hr as [Hr|Hr]; [done|].
    unfold wt_client_create. by rewrite (proj2 (Z.leb_le _ _)) by done. }
  assert (Ht : wt_context_client s1 session = Trap) by (unfold wt_context_client; rewrite E; cbn; by rewrite Hc).
  split; [|intros stream u]; cbn [wt_session_callback]; [unfold wt_session_disconnected|unfold wt_stream_opened]; by rewrite Ht.
Qed.

(** The bytes of a frame cut off by the end of a stream stay in the buffer: the
    next stream of the session is read as their continuation. *)
Lemma wt_reopen_keeps_partial {K} `{!SignatureScheme K} `{!EqDecision K} blake3 XXH3 clock send time mono conn load ser
    new_key create sends realloc fuel (s : wt_server K) i a c stream code :
  wv_contexts s !! wt_session c = Some a → find_index (wt_client_is a) (wv_clients s) = Some i →
  wv_clients s !! i = Some c →
  ∃ s1, wt_stream_callback blake3 XXH3 clock send time mono conn load ser new_key create sends realloc fuel s a
          (WTF_STREAM_EVENT_ABORTED code) = Some (Ret s1) ∧
    ∃ s2 c2, wt_session_callback XXH3 s1 (wt_session c) (WTF_SESSION_EVENT_STREAM_OPENED stream false) = Ret s2 ∧
      wv_clients s2 !! i = Some c2 ∧ wt_stream c2 = Some stream ∧ wt_read_buf c2 = wt_read_buf c.
Proof.
  intros Hx Hf Hi. pose proof (lookup_lt_Some _ _ _ Hi) as Hlt. unfold wt_stream_callback. rewrite Hf, Hi. eexists. split; [done|].
  set (l1 := <[i:=_]> (wv_clients s)).
  assert (Hf1 : find_index (wt_client_is a) l1 = Some i).
  { assert (Hm : map wt_client_session l1 = map wt_client_session (wv_clients s)) by (by eapply map_insert_same).
    rewrite <- Hf. transitivity (find_index (fun b => b =? a) (map wt_client_session l1)); [by rewrite find_index_map|].
    by rewrite Hm, find_index_map. }
  assert (Hi1 : l1 !! i = Some (wt_with_stream c None)) by (by apply list_lookup_insert_eq).
  cbn [wt_session_callback]. unfold wt_stream_opened, wt_context_client. cbn [wv_contexts wv_clients wv_with_clients].
  rewrite Hx, Hf1, Hi1. cbn [xbind wt_stream wt_with_stream]. eexists _, (wt_with_stream (wt_with_stream c None) (Some stream)). split; [reflexivity|]. cbn. split_and!; [|done|done].
  apply list_lookup_insert_eq. by eapply lookup_lt_Some.
Qed.
