(* ===== verification/Client.v ===== *)
(** * Client: the C client library

    [src/ClientLibs/c/poseidon_client.c].  A client writes requests to a socket
    or a QUIC stream and reads responses and events, on a receive thread or from
    msquic's callbacks.  What the kernel and msquic return is an argument
    ([send], [StreamSend], the chunks of [recv], the events of the connection);
    the application's callbacks are the list of their invocations. *)

From S2P Require Import Prelude CString Cbor CborWire Endian Base58 MessageId Node NodeId Packet ChannelPacket.
From S2P Require Import Notice ClientProtocol ClientStream.

Definition CLIENT_READ_BUF_SIZE : Z := 65536.

(** A callback is represented by whether it is set. *)
Record poseidon_client_t := mkPClient {
  pc_connected : bool;
  pc_is_quic : bool;
  pc_next_request_id : Z;
  pc_message_cb : bool;
  pc_event_cb : bool;
  pc_response_cb : bool;
  pc_running : bool;
  pc_read_buf : list Z;
  pc_quic_stream : option Z;
  pc_quic_stream_ready : bool
}.

Definition pc_with_connected (c : poseidon_client_t) (b : bool) : poseidon_client_t :=
  mkPClient b (pc_is_quic c) (pc_next_request_id c) (pc_message_cb c) (pc_event_cb c) (pc_response_cb c) (pc_running c)
    (pc_read_buf c) (pc_quic_stream c) (pc_quic_stream_ready c).
Definition pc_with_id (c : poseidon_client_t) (id : Z) : poseidon_client_t :=
  mkPClient (pc_connected c) (pc_is_quic c) id (pc_message_cb c) (pc_event_cb c) (pc_response_cb c) (pc_running c)
    (pc_read_buf c) (pc_quic_stream c) (pc_quic_stream_ready c).
Definition pc_with_buf (c : poseidon_client_t) (b : list Z) : poseidon_client_t :=
  mkPClient (pc_connected c) (pc_is_quic c) (pc_next_request_id c) (pc_message_cb c) (pc_event_cb c) (pc_response_cb c)
    (pc_running c) b (pc_quic_stream c) (pc_quic_stream_ready c).
Definition pc_with_stream (c : poseidon_client_t) (stream : option Z) (ready : bool) : poseidon_client_t :=
  mkPClient (pc_connected c) (pc_is_quic c) (pc_next_request_id c) (pc_message_cb c) (pc_event_cb c) (pc_response_cb c)
    (pc_running c) (pc_read_buf c) stream ready.

Definition poseidon_client_on_message (c : poseidon_client_t) (cb : bool) : poseidon_client_t :=
  mkPClient (pc_connected c) (pc_is_quic c) (pc_next_request_id c) cb (pc_event_cb c) (pc_response_cb c)
    (pc_running c) (pc_read_buf c) (pc_quic_stream c) (pc_quic_stream_ready c).
Definition poseidon_client_on_event (c : poseidon_client_t) (cb : bool) : poseidon_client_t :=
  mkPClient (pc_connected c) (pc_is_quic c) (pc_next_request_id c) (pc_message_cb c) cb (pc_response_cb c)
    (pc_running c) (pc_read_buf c) (pc_quic_stream c) (pc_quic_stream_ready c).
Definition poseidon_client_on_response (c : poseidon_client_t) (cb : bool) : poseidon_client_t :=
  mkPClient (pc_connected c) (pc_is_quic c) (pc_next_request_id c) (pc_message_cb c) (pc_event_cb c) cb
    (pc_running c) (pc_read_buf c) (pc_quic_stream c) (pc_quic_stream_ready c).

(** ** Sending *)

Section sending.
(** The result of [send] and whether [StreamSend] accepts the buffer. *)
Context (send : list Z → Z) (StreamSend : list Z → bool) (cbor_serialize_alloc : cbor_item → list Z).

(** The result code and the bytes that reached the stream. *)
Definition send_frame (c : poseidon_client_t) (data : list Z) : Z * list Z :=
  if pc_is_quic c then
    if negb (pc_quic_stream_ready c) || negb (bool_decide (is_Some (pc_quic_stream c))) then (-1, [])
    else if StreamSend (frame_bytes data) then (0, frame_bytes data) else (-1, [])
  else
    let header := write_frame_header (zlen data) in
    let h := send header in
    let d := send data in
    (if (h =? Z.of_nat UNIX_FRAME_HEADER_SIZE) && (d =? zlen data) then 0 else -1,
     take (Z.to_nat h) header ++ take (Z.to_nat d) data).

Definition next_id (c : poseidon_client_t) : Z * poseidon_client_t :=
  (pc_next_request_id c, pc_with_id c (u32 (pc_next_request_id c + 1))).

(** Serializing and sending a frame; the identifier is used up either way. *)
Definition serialize_and_send (c : poseidon_client_t) (frame : option cbor_item) : Z * poseidon_client_t * list Z :=
  match client_protocol_serialize cbor_serialize_alloc frame with
  | None => (-1, c, [])
  | Some buf => let '(rc, out) := send_frame c buf in (rc, c, out)
  end.

Definition send_request (c : poseidon_client_t) (method : Z) (topic_path : list Z) (payload : list Z)
  : exec (Z * poseidon_client_t * list Z) :=
  let '(id, c1) := next_id c in
  frame <- client_protocol_encode_request id method (Some topic_path) payload ;;
  Ret (serialize_and_send c1 frame).

Definition send_admin_request (c : poseidon_client_t) (method : Z) (topic_path signature config_data : list Z)
  : exec (Z * poseidon_client_t * list Z) :=
  let '(id, c1) := next_id c in
  frame <- client_protocol_encode_admin_request id method (Some topic_path) signature config_data ;;
  Ret (serialize_and_send c1 frame).

(** *** The interface; a [None] string is NULL *)

Definition call (c : poseidon_client_t) (method : Z) (topic : option (list Z)) (payload : list Z)
  : exec (Z * poseidon_client_t * list Z) :=
  match topic with None => Ret (-1, c, []) | Some t => send_request c method t payload end.

Definition poseidon_client_channel_create (c : poseidon_client_t) (name : option (list Z)) :=
  call c CLIENT_METHOD_CHANNEL_CREATE name [].
Definition poseidon_client_channel_join (c : poseidon_client_t) (topic_or_alias : option (list Z)) :=
  call c CLIENT_METHOD_CHANNEL_JOIN topic_or_alias [].
Definition poseidon_client_channel_leave (c : poseidon_client_t) (topic_id : option (list Z)) :=
  call c CLIENT_METHOD_CHANNEL_LEAVE topic_id [].
Definition poseidon_client_subscribe (c : poseidon_client_t) (topic_path : option (list Z)) :=
  call c CLIENT_METHOD_SUBSCRIBE topic_path [].
Definition poseidon_client_unsubscribe (c : poseidon_client_t) (topic_path : option (list Z)) :=
  call c CLIENT_METHOD_UNSUBSCRIBE topic_path [].
Definition poseidon_client_publish (c : poseidon_client_t) (topic_path : option (list Z)) (data : list Z) :=
  call c CLIENT_METHOD_PUBLISH topic_path data.
Definition poseidon_client_alias_register (c : poseidon_client_t) (name topic_id : option (list Z)) :=
  match topic_id with None => Ret (-1, c, []) | Some t => call c CLIENT_METHOD_ALIAS_REGISTER name t end.
Definition poseidon_client_alias_unregister (c : poseidon_client_t) (name : option (list Z)) :=
  call c CLIENT_METHOD_ALIAS_UNREGISTER name [].

Section admin.
Context `{SignatureScheme K}.

(** Method, topic and the wall-clock time in microseconds, in network order. *)
Definition data_to_sign (method : Z) (topic_id : list Z) (timestamp_us : Z) : list Z :=
  method :: topic_id ++ be_bytes 8 timestamp_us.

Definition signed_call (c : poseidon_client_t) (method : Z) (topic_id : option (list Z)) (owner_key : option K)
    (timestamp_us : Z) (config_data : list Z) : exec (Z * poseidon_client_t * list Z) :=
  match topic_id, owner_key with
  | Some t, Some k =>
      if CLIENT_MAX_TOPIC_PATH <? zlen t then Ret (-1, c, [])
      else match sign k (data_to_sign method t timestamp_us) with
           | None => Ret (-1, c, [])
           | Some signature => send_admin_request c method t signature config_data
           end
  | _, _ => Ret (-1, c, [])
  end.

Definition poseidon_client_channel_destroy (c : poseidon_client_t) (topic_id : option (list Z)) (owner_key : option K)
    (timestamp_us : Z) :=
  signed_call c CLIENT_METHOD_CHANNEL_DESTROY topic_id owner_key timestamp_us [].

(** The configuration as it lies in memory: seventeen 32-bit words. *)
Definition config_bytes (cfg : poseidon_channel_config_t) : list Z :=
  concat (map (le_bytes 4)
    (ring_sizes cfg ++ [gossip_init_interval_s cfg; gossip_steady_interval_s cfg; gossip_num_init_intervals cfg;
                        quasar_max_hops cfg; quasar_alpha cfg; quasar_seen_size cfg; quasar_seen_hashes cfg])).

Definition poseidon_client_channel_modify (c : poseidon_client_t) (topic_id : option (list Z))
    (config : option poseidon_channel_config_t) (owner_key : option K) (timestamp_us : Z) :=
  match config with
  | None => Ret (-1, c, [])
  | Some cfg => signed_call c CLIENT_METHOD_CHANNEL_MODIFY topic_id owner_key timestamp_us (config_bytes cfg)
  end.
End admin.
End sending.

(** ** Receiving *)

Inductive callback :=
| OnResponse (request_id error_code : Z) (result_data : list Z)
| OnMessage (topic subtopic data : list Z)
| OnEvent (event_type : Z) (data : list Z).

Definition process_received_frame (c : poseidon_client_t) (f : client_frame_t) : list callback :=
  if cf_frame_type f =? CLIENT_FRAME_RESPONSE then
    if pc_response_cb c then [OnResponse (cf_request_id f) (cf_error_code f) (c_str (cf_result_data f))] else []
  else if cf_frame_type f =? CLIENT_FRAME_EVENT then
    if (cf_event_type f =? CLIENT_EVENT_MESSAGE) && pc_message_cb c
    then [OnMessage (c_str (cf_topic_path f)) (c_str (cf_subtopic f)) (cf_payload f)]
    else if pc_event_cb c then [OnEvent (cf_event_type f) (cf_payload f)] else []
  else [].

Section receiving.
Context (cbor_load : list Z → option cbor_item).

(** One complete frame. *)
Definition receive_body (c : poseidon_client_t) (log : list callback) (body : list Z) : exec (list callback) :=
  match cbor_load body with
  | None => Ret log
  | Some item =>
      f <- client_protocol_decode (Some item) ;;
      Ret match f with None => log | Some frame => log ++ process_received_frame c frame end
  end.

(** The loop over the buffer: what is left of it, whether the headers were
    acceptable, the callbacks. *)
Fixpoint recv_frames (c : poseidon_client_t) (fuel : nat) (buf : list Z) (log : list callback)
  : exec (list Z * bool * list callback) :=
  match fuel with
  | O => Ret (buf, true, log)
  | S fuel' =>
      if zlen buf <? Z.of_nat UNIX_FRAME_HEADER_SIZE then Ret (buf, true, log)
      else
        '(ok, len) <- read_frame_header buf ;;
        if negb ok then Ret (buf, false, log)
        else
          let total := (UNIX_FRAME_HEADER_SIZE + Z.to_nat len)%nat in
          if (length buf <? total)%nat then Ret (buf, true, log)
          else
            log' <- receive_body c log (take (Z.to_nat len) (drop UNIX_FRAME_HEADER_SIZE buf)) ;;
            recv_frames c fuel' (drop total buf) log'
  end.

(** One turn of the receive thread on the bytes [recv] returned; the flag
    tells whether the thread goes on. *)
Definition recv_turn (c : poseidon_client_t) (bytes : list Z) (log : list callback)
  : exec (poseidon_client_t * bool * list callback) :=
  let buf := pc_read_buf c ++ bytes in
  '(rest, ok, log') <- recv_frames c (length buf) buf log ;;
  let c' := pc_with_buf c rest in
  Ret (if (ok : bool) then c' else pc_with_connected c' false, ok, log').

(** The receive thread against a stream of which [pending] has not been read;
    the chunk sizes are the kernel's.  [recv] into a full buffer returns 0, which
    ends the thread. *)
Fixpoint recv_thread_func (ns : list nat) (c : poseidon_client_t) (pending : list Z) (log : list callback)
  : exec (poseidon_client_t * list Z * list callback) :=
  match ns with
  | [] => Ret (c, pending, log)
  | n :: ns' =>
      if negb (pc_running c) then Ret (c, pending, log)
      else match pending with
      | [] => recv_thread_func ns' c pending log
      | _ :: _ =>
          let bytes := Nat.min n (Z.to_nat CLIENT_READ_BUF_SIZE - length (pc_read_buf c)) in
          if (bytes =? 0)%nat then Ret (pc_with_connected c false, pending, log)
          else
            '(c', ok, log') <- recv_turn c (take bytes pending) log ;;
            if (ok : bool) then recv_thread_func ns' c' (drop bytes pending) log'
            else Ret (c', drop bytes pending, log')
      end
  end.

(** ** QUIC *)

Inductive quic_event :=
| EvConnected (opened : option Z) (started : bool)
| EvStreamStarted
| EvReceive (buffers : list (list Z))
| EvPeerSendShutdown
| EvStreamShutdown
| EvConnectionShutdown.

(** The stream and connection callbacks. *)
Definition quic_callback (c : poseidon_client_t) (e : quic_event) (log : list callback)
  : exec (poseidon_client_t * list callback) :=
  match e with
  | EvConnected opened started =>
      match opened with
      | None => Ret (pc_with_connected c false, log)
      | Some stream =>
          if negb started then Ret (pc_with_connected c false, log)
          else Ret (pc_with_stream (pc_with_connected c true) (Some stream) (pc_quic_stream_ready c), log)
      end
  | EvStreamStarted => Ret (pc_with_stream c (pc_quic_stream c) true, log)
  | EvReceive buffers =>
      let bytes := concat buffers in
      if CLIENT_READ_BUF_SIZE <? zlen (pc_read_buf c) + zlen bytes then Ret (c, log)
      else '(c', _, log') <- recv_turn c bytes log ;; Ret (c', log')
  | EvPeerSendShutdown | EvStreamShutdown | EvConnectionShutdown => Ret (pc_with_connected c false, log)
  end.

Fixpoint quic_events (c : poseidon_client_t) (es : list quic_event) (log : list callback)
  : exec (poseidon_client_t * list callback) :=
  match es with
  | [] => Ret (c, log)
  | e :: es' => '(c', log') <- quic_callback c e log ;; quic_events c' es' log'
  end.

(** [while (!quic_stream_ready && connected) wait], against the events that
    arrive; [None] is waiting for ever. *)
Fixpoint quic_wait (c : poseidon_client_t) (es : list quic_event) : exec (option poseidon_client_t) :=
  if negb (pc_quic_stream_ready c) && pc_connected c then
    match es with
    | [] => Ret None
    | e :: es' => '(c', _) <- quic_callback c e [] ;; quic_wait c' es'
    end
  else Ret (Some c).

Definition quic_client : poseidon_client_t := mkPClient false true 1 false false false true [] None false.

(** [poseidon_client_connect] for a QUIC URL whose set-up calls succeed:
    [before] are the events delivered between [ConnectionStart] and the test of
    the loop, [during] those delivered while it waits.  The inner [None] is
    NULL. *)
Definition quic_connect (before during : list quic_event) : exec (option (option poseidon_client_t)) :=
  '(c, _) <- quic_events quic_client before [] ;;
  r <- quic_wait c during ;;
  match r with
  | None => Ret None
  | Some c' => Ret (Some (if pc_quic_stream_ready c' then Some (pc_with_connected c' true) else None))
  end.
End receiving.

(** ** Connecting *)

(** The position of the last [ch]. *)
Fixpoint strrchr (l : list Z) (ch : Z) : option nat :=
  match l with
  | [] => None
  | b :: l' =>
      match strrchr l' ch with
      | Some i => Some (S i)
      | None => if b =? ch then Some O else None
      end
  end.

Definition isspace (b : Z) : bool := (b =? 32) || ((9 <=? b) && (b <=? 13)).
Definition isdigit (b : Z) : bool := (48 <=? b) && (b <=? 57).

(** The value of the leading digits. *)
Fixpoint digits (l : list Z) (acc : Z) : Z :=
  match l with
  | b :: l' => if isdigit b then digits l' (10 * acc + (b - 48)) else acc
  | [] => acc
  end.

(** White space, a sign, digits; a value outside [int] is undefined. *)
Fixpoint atoi (l : list Z) : exec Z :=
  let value v := if (- 2 ^ 31 <=? v) && (v <? 2 ^ 31) then Ret v else Trap in
  match l with
  | [] => Ret 0
  | b :: l' =>
      if isspace b then atoi l'
      else if b =? 45 then value (- digits l' 0)
      else if b =? 43 then value (digits l' 0)
      else value (digits l 0)
  end.

Inductive transport_endpoint :=
| QuicEndpoint (host : list Z) (port : Z)
| UnixEndpoint (path : list Z)
| TcpEndpoint (host : list Z) (port : Z).

(** [host:port], split at the last colon. *)
Definition host_port (l : list Z) : exec (option (list Z * Z)) :=
  match strrchr l 58 with
  | None => Ret None
  | Some i =>
      if (256 <=? i)%nat then Ret None
      else p <- atoi (drop (S i) l) ;; Ret (Some (take i l, u16 p))
  end.

Definition strncmp_eq (s prefix : list Z) : bool := bool_decide (take (length prefix) s = prefix).

Definition parse_transport_url (url : option (list Z)) : exec (option transport_endpoint) :=
  match url with
  | None => Ret None
  | Some u =>
      if strncmp_eq u (lit "quic://") then
        r <- host_port (drop 7 u) ;; Ret (option_map (fun hp => QuicEndpoint hp.1 hp.2) r)
      else if strncmp_eq u (lit "unix://") then Ret (Some (UnixEndpoint (take 107 (drop 7 u))))
      else if strncmp_eq u (lit "tcp://") then
        r <- host_port (drop 6 u) ;; Ret (option_map (fun hp => TcpEndpoint hp.1 hp.2) r)
      else Ret None
  end.

Definition socket_client : poseidon_client_t := mkPClient true false 1 false false false true [] None false.

(** [opened] is the outcome of [socket] and [connect] on an transport_endpoint, [thread]
    that of [pthread_create], [setup] that of msquic's set-up calls. *)
Definition poseidon_client_connect (cbor_load : list Z → option cbor_item) (url : option (list Z))
    (opened : transport_endpoint → bool) (thread setup : bool) (before during : list quic_event)
  : exec (option (option poseidon_client_t)) :=
  e <- parse_transport_url url ;;
  match e with
  | None => Ret (Some None)
  | Some (QuicEndpoint _ _) =>
      if negb setup then Ret (Some None) else quic_connect cbor_load before during
  | Some e => Ret (Some (if opened e && thread then Some socket_client else None))
  end.

(** ** Lemmas: addresses *)

Lemma strrchr_none l ch : Forall (fun b => b ≠ ch) l → strrchr l ch = None.
Proof. induction 1 as [|b l Hb _ IH]; [done|]. cbn. rewrite IH. by rewrite (proj2 (Z.eqb_neq _ _)). Qed.

Lemma strrchr_app l1 l2 ch : Forall (fun b => b ≠ ch) l2 → strrchr (l1 ++ ch :: l2) ch = Some (length l1).
Proof.
  intros H. induction l1 as [|b l1 IH]; cbn [app strrchr length]; [|by rewrite IH].
  by rewrite strrchr_none, Z.eqb_refl.
Qed.

(** Host and port are split at the last colon, so that the host may contain
    colons itself; the port is reduced to 16 bits. *)
Lemma host_port_spec host ds :
  (length host < 256)%nat → ds ≠ [] → Forall (fun b => isdigit b = true) ds → 0 <= digits ds 0 < 2 ^ 31 →
  host_port (host ++ 58 :: ds) = Ret (Some (host, u16 (digits ds 0))).
Proof.
  intros Hh Hne Hd Hv. unfold host_port. rewrite strrchr_app.
  2:{ eapply List.Forall_impl; [|exact Hd]. intros b Hb ->. done. }
  rewrite (proj2 (Nat.leb_gt _ _)) by lia. replace (drop (S (length host)) (host ++ 58 :: ds)) with ds.
  2:{ change (host ++ 58 :: ds) with (host ++ [58] ++ ds). rewrite (assoc_L (++)).
      rewrite drop_app_length'; [done|]. rewrite length_app. cbn. lia. }
  rewrite take_app_length. destruct ds as [|b ds]; [done|]. apply Forall_cons_1 in Hd as [Hb Hd].
  cbn [atoi]. unfold isdigit in Hb. apply andb_true_iff in Hb as [H1%Z.leb_le H2%Z.leb_le].
  assert (isspace b = false) as ->.
  { unfold isspace. rewrite (proj2 (Z.eqb_neq b 32)), (proj2 (Z.leb_gt b 13)) by lia. by rewrite andb_false_r. }
  rewrite (proj2 (Z.eqb_neq b 45)), (proj2 (Z.eqb_neq b 43)) by lia.
  rewrite (proj2 (Z.leb_le _ _)), (proj2 (Z.ltb_lt _ _)) by lia. done.
Qed.

(** ** Lemmas: configurations *)

Lemma concat_le_bytes_length l : length (concat (map (le_bytes 4) l)) = (4 * length l)%nat.
Proof. induction l as [|x l IH]; [done|]. cbn [map concat]. rewrite length_app, IH, le_bytes_length. cbn [length]. lia. Qed.

Lemma config_bytes_length cfg : length (ring_sizes cfg) = 10%nat → zlen (config_bytes cfg) = 68.
Proof. intros H. unfold config_bytes, zlen. rewrite concat_le_bytes_length, length_app, H. done. Qed.

(** ** Lemmas: the receive loop *)

Section receive_lemmas.
Context (cbor_load : list Z → option cbor_item) (c : poseidon_client_t).

(** A buffer that starts with an unacceptable header. *)
Definition bad_header (buf : list Z) : bool :=
  match read_frame_header buf with Ret (ok, _) => negb ok | Trap => false end.

Lemma bad_header_short buf : (length buf < 4)%nat → bad_header buf = false.
Proof. intros H. unfold bad_header. do 4 (destruct buf as [|? buf]; [done|]). cbn in H. lia. Qed.

Lemma recv_frames_process fuel buf log :
  (length buf <= fuel)%nat →
  recv_frames cbor_load c fuel buf log =
    ('(b, l) <- process_frames (receive_body cbor_load c) fuel buf log ;; Ret (b, negb (bad_header b), l)).
Proof.
  revert buf log. induction fuel as [|fuel IH]; intros buf log Hf.
  { destruct buf; [done|cbn in Hf; lia]. }
  cbn [recv_frames process_frames].
  destruct (Z.ltb_spec (zlen buf) (Z.of_nat UNIX_FRAME_HEADER_SIZE)) as [Hs|Hs].
  { rewrite bind_Ret_l, bad_header_short; [done|]. unfold zlen, UNIX_FRAME_HEADER_SIZE in Hs. lia. }
  unfold zlen, UNIX_FRAME_HEADER_SIZE in Hs. destruct (read_frame_header buf) as [[ok len]|] eqn:E; [|done].
  assert (Hb : bad_header buf = negb ok) by (unfold bad_header; by rewrite E).
  cbn [xbind]. destruct ok; cbn [negb]; [|by rewrite bind_Ret_l, Hb].
  destruct (_ <? _)%nat; [by rewrite bind_Ret_l, Hb|].
  destruct (receive_body _ _ _ _) as [log'|]; [|done]. cbn [xbind]. apply IH. rewrite length_drop.
  unfold UNIX_FRAME_HEADER_SIZE. lia.
Qed.

(** What is left of a stream of well-formed frames starts with a good header. *)
Lemma partial_header buf bodies : Forall body_ok bodies → partial buf bodies → bad_header buf = false.
Proof.
  intros Hok [->|(b & bodies' & rest & -> & E & Hr)]; [done|].
  apply Forall_cons_1 in Hok as [Hb _]. destruct (decide (length buf < 4)%nat) as [Hs|Hs]; [by apply bad_header_short|].
  unfold bad_header. assert (Hh : read_frame_header buf = read_frame_header (frame_bytes b ++ [])).
  { rewrite app_nil_r, E. do 4 (destruct buf as [|? buf]; [cbn in Hs; lia|]). done. }
  rewrite Hh. unfold frame_bytes. rewrite <- (assoc_L (++)), header_roundtrip by exact (body_u32 b Hb).
  destruct Hb as [H1 H2]. rewrite (proj2 (Z.ltb_lt _ _)), (proj2 (Z.leb_le _ _)) by (unfold UNIX_READ_BUF_SIZE in *; lia).
  done.
Qed.
End receive_lemmas.

Lemma receive_body_buf load c b log body : receive_body load (pc_with_buf c b) log body = receive_body load c log body.
Proof. done. Qed.

Lemma run_frames_buf load c b bodies log :
  run_frames (receive_body load (pc_with_buf c b)) bodies log = run_frames (receive_body load c) bodies log.
Proof. done. Qed.

Lemma pc_with_buf_twice c b1 b2 : pc_with_buf (pc_with_buf c b1) b2 = pc_with_buf c b2.
Proof. done. Qed.

(** The receive thread handles a stream of frames one by one, however it is
    cut. *)
Lemma recv_thread_spec load ns todo c buf pending log :
  pc_running c = true → Forall body_ok todo → buf ++ pending = stream_of todo → partial buf todo →
  Forall (fun n => 1 <= n)%nat ns → (length pending <= length ns)%nat →
  recv_thread_func load ns (pc_with_buf c buf) pending log =
    (log' <- run_frames (receive_body load c) todo log ;; Ret (pc_with_buf c [], [], log')).
Proof.
  intros Hrun. revert todo buf pending log. induction ns as [|n ns IH]; intros todo buf pending log Hok E Hp Hns Hl.
  - destruct pending; [|cbn in Hl; lia]. rewrite app_nil_r in E. by apply partial_end in E as [-> ->].
  - cbn [recv_thread_func]. change (pc_running (pc_with_buf c buf)) with (pc_running c). rewrite Hrun. cbn [negb].
    apply Forall_cons_1 in Hns as [Hn Hns]. destruct pending as [|x pending].
    { rewrite app_nil_r in E. apply partial_end in E as [-> ->]; [|done]. apply IH; [done|done|by left|done|cbn; lia]. }
    pose proof (partial_room _ _ Hok Hp) as Hroom. unfold zlen, UNIX_READ_BUF_SIZE in Hroom.
    change (pc_read_buf (pc_with_buf c buf)) with buf.
    set (bytes := Nat.min n (Z.to_nat CLIENT_READ_BUF_SIZE - length buf)).
    assert (1 <= bytes)%nat by (unfold bytes, CLIENT_READ_BUF_SIZE; lia).
    rewrite (proj2 (Nat.eqb_neq bytes 0)) by lia. unfold recv_turn. change (pc_read_buf (pc_with_buf c buf)) with buf.
    rewrite recv_frames_process by done.
    destruct (process_prefix (receive_body load (pc_with_buf c buf)) todo (length (buf ++ take bytes (x :: pending)))
      (buf ++ take bytes (x :: pending)) (drop bytes (x :: pending)) log (body_ok_wide _ Hok))
      as (dn & todo' & buf' & -> & E' & Hp' & Hr); [by rewrite <- (assoc_L (++)), take_drop|done|].
    apply Forall_app in Hok as [_ Hok]. rewrite Hr, run_frames_app, run_frames_buf.
    destruct (run_frames (receive_body load c) dn log) as [log1|]; cbn [xbind]; [|done].
    rewrite (partial_header _ _ Hok Hp'). cbn [negb]. rewrite pc_with_buf_twice.
    apply IH; try done. rewrite length_drop. cbn [length] in Hl |- *. lia.
Qed.
