(* ===== verification/ClientTheorems.v ===== *)
(** * ClientTheorems: the client library against the daemon

    The whole path of a request: the client library encodes and frames it, the
    transport reassembles and decodes it, the session handles it, the answer
    travels back the same way and reaches the application's callback.  The writer
    of CBOR is libcbor's ([CborWire]); of its reader it is assumed that it reads
    back what the writer wrote. *)

From stdpp Require Import gmap.
From S2P Require Import Prelude CString Bitset Bloom ElasticBloom AttenuatedBloom Cbor CborWire Endian Base58.
From S2P Require Import MessageId Node NodeId Packet ChannelPacket Subtopic TopicAlias Notice Ring Route Protocol.
From S2P Require Import Quasar Channel ChannelManager ManagerTheorems ClientProtocol ClientStream ClientSession.
From S2P Require Import SessionTheorems Transport TransportTheorems Client.

(** ** Sizes of frames *)

Lemma encode_uint_small v off : 0 <= v <= 255 → 1 <= zlen (encode_uint v off) <= 2.
Proof.
  intros H. unfold encode_uint, encode_uint8. rewrite (proj2 (Z.leb_le v 0xFFFF)), (proj2 (Z.leb_le v 0xFF)) by lia.
  destruct (v <=? 23); vm_compute; split; discriminate.
Qed.

Lemma encode_uint_medium v off : 0 <= v < 2 ^ 32 → 1 <= zlen (encode_uint v off) <= 5.
Proof.
  intros H. unfold encode_uint, encode_uint8, encode_uint16, encode_uint32. unfold zlen.
  destruct (v <=? 0xFFFF).
  - destruct (v <=? 0xFF); [destruct (v <=? 23); vm_compute; split; discriminate|]. cbn [length].
    rewrite be_bytes_length. lia.
  - rewrite (proj2 (Z.leb_le v 0xFFFFFFFF)) by lia. cbn [length]. rewrite be_bytes_length. lia.
Qed.

Local Abbreviation ser := cbor_serialize_alloc.

(** The serialization of an array of serializable items. *)
Lemma ser_array n es body :
  serialize_all es = Some body → ser (CArray true n es) = encode_uint (zlen es) 0x80 ++ body.
Proof. intros H. unfold cbor_serialize_alloc. cbn [cbor_serialize]. fold serialize_all. by rewrite H. Qed.

Lemma zlen_encode_uint8 v o : 1 <= zlen (encode_uint8 v o) <= 2.
Proof. unfold encode_uint8. destruct (v <=? 23); vm_compute; split; discriminate. Qed.

Lemma zlen_encode_uint32 v o : zlen (encode_uint32 v o) = 5.
Proof. unfold encode_uint32, zlen. cbn [length]. by rewrite be_bytes_length. Qed.

(** The facts about the parts of a frame that bound its length. *)
Ltac frame_size :=
  erewrite ser_array by reflexivity; unfold body_ok, UNIX_READ_BUF_SIZE; rewrite !zlen_app; cbn [encode_int];
  repeat match goal with
  | |- context [zlen (encode_uint8 ?v ?o)] => 
      pose proof (zlen_encode_uint8 v o); generalize dependent (zlen (encode_uint8 v o)); intros
  | |- context [zlen (encode_uint32 ?v ?o)] => rewrite (zlen_encode_uint32 v o)
  end.

Lemma request_fits id m t p : zlen t < 256 → zlen p <= 65000 → body_ok (ser (request_item id m t p)).
Proof.
  intros Ht Hp. unfold request_item. frame_size. pose proof (zlen_nonneg t). pose proof (zlen_nonneg p).
  pose proof (encode_uint_small (zlen t) 96 ltac:(lia)). pose proof (encode_uint_medium (zlen p) 64 ltac:(lia)).
  change (zlen (encode_uint (zlen (_ :: _)) 128)) with 1. change (zlen []) with 0. lia.
Qed.

Lemma admin_fits id m t sg p :
  zlen t < 256 → zlen sg < 256 → zlen p <= 64000 → body_ok (ser (admin_item id m t sg p)).
Proof.
  intros Ht Hs Hp. unfold admin_item. frame_size. pose proof (zlen_nonneg t). pose proof (zlen_nonneg p).
  pose proof (zlen_nonneg sg). pose proof (encode_uint_small (zlen t) 96 ltac:(lia)).
  pose proof (encode_uint_small (zlen sg) 64 ltac:(lia)). pose proof (encode_uint_medium (zlen p) 64 ltac:(lia)).
  change (zlen (encode_uint (zlen (_ :: _)) 128)) with 1. change (zlen []) with 0. lia.
Qed.

Lemma response_fits id code text : zlen text < 256 → body_ok (ser (response_item id code text)).
Proof.
  intros Ht. unfold response_item. frame_size. pose proof (zlen_nonneg text).
  pose proof (encode_uint_small (zlen text) 96 ltac:(lia)).
  change (zlen (encode_uint (zlen (_ :: _)) 128)) with 1. change (zlen []) with 0. lia.
Qed.

Lemma event_fits ev t st d : zlen t < 256 → zlen st < 256 → zlen d <= 65000 → body_ok (ser (event_item ev t st d)).
Proof.
  intros Ht Hs Hd. unfold event_item. frame_size. pose proof (zlen_nonneg t). pose proof (zlen_nonneg st).
  pose proof (zlen_nonneg d). pose proof (encode_uint_small (zlen t) 96 ltac:(lia)).
  pose proof (encode_uint_small (zlen st) 96 ltac:(lia)). pose proof (encode_uint_medium (zlen d) 64 ltac:(lia)).
  change (zlen (encode_uint (zlen (_ :: _)) 128)) with 1. change (zlen []) with 0. lia.
Qed.

Lemma frame_items_fit id m code ev t st d :
  cbor_fits (request_item id m t d) ∧ cbor_fits (admin_item id m t st d) ∧ cbor_fits (response_item id code t) ∧
  cbor_fits (event_item ev t st d).
Proof.
  pose proof (u8_range CLIENT_FRAME_REQUEST). split_and!; apply cbor_fits_array; (split; [done|]);
    repeat (constructor; [cbn; try done; first [apply u8_range|apply u32_range]|]); constructor.
Qed.

(** ** Events a request causes *)

Section events.
Context {K : Type} `{!SignatureScheme K} `{!EqDecision K}.
Context (blake3 : list Z → list Z) (XXH3 : list Z → Z → Z) (clock : Z → Z * Z).
Context (DatagramSend : Z → list Z → bool) (time_us mono_us : world → Z).
Context (connect : Z → Z → option Z * bool).
Context (load : list Z → option cbor_item).
Context (new_key : option K) (create : list Z → Z → exec (option (poseidon_channel_t K))).

(** A message event of a size every client can take. *)
Definition event_body (b : list Z) : Prop :=
  ∃ t st d, zlen t < 256 ∧ zlen st < 256 ∧ zlen d <= 65000 ∧ b = ser (event_item CLIENT_EVENT_MESSAGE t st d).

Lemma app_delivery_sizes c data st payload :
  zlen data <= 65000 → channel_app_delivery (K := K) load c data = Ret (Some (st, payload)) →
  zlen st < 256 ∧ zlen payload <= 65000.
Proof.
  intros Hd. unfold channel_app_delivery. destruct (negb _); [done|].
  assert (Hno : Ret (Some ([], data)) = Ret (Some (st, payload)) → zlen st < 256 ∧ zlen payload <= 65000)
    by (intros [= <- <-]; split; [by vm_compute|done]).
  destruct (load data) as [item|]; [|exact Hno]. unfold channel_message_decode.
  destruct (negb _); [exact Hno|].
  destruct (cbor_array_handle item) as [[|i0 [|i1 [|? ?]]]|]; try exact Hno; [|done]. rewrite bind_Ret_l.
  destruct (negb (cbor_isa_string i0)); [exact Hno|].
  assert (Hst : cbor_string_length i0 = (x <- cbor_string_handle i0 ;; Ret (zlen x))) by by destruct i0.
  assert (Hby : cbor_bytestring_length i1 = (x <- cbor_bytestring_handle i1 ;; Ret (zlen x))) by by destruct i1.
  rewrite Hst, Hby. clear Hst Hby. destruct (cbor_string_handle i0) as [st0|]; [|done]. rewrite !bind_Ret_l.
  destruct (Z.leb_spec 256 (zlen st0)) as [|Hs]; [exact Hno|]. destruct (negb (cbor_isa_bytestring i1)); [exact Hno|].
  destruct (cbor_bytestring_handle i1) as [d0|]; [|done]. rewrite !bind_Ret_l.
  destruct (Z.ltb_spec 4096 (zlen d0)) as [|Hb]; [exact Hno|]. rewrite !bind_Ret_l.
  destruct (subtopic_table_should_deliver _ _); [|done]. intros [= <- <-].
  pose proof (c_str_length st0). unfold zlen in *. lia.
Qed.

Lemma dispatch_loop_bodies (d : daemon_t K) l topic publisher buf writes :
  dispatch_loop d l topic publisher buf = Ret writes → Forall (fun e => e.2 = buf) writes.
Proof.
  revert writes. induction l as [|a l IH]; intros writes; cbn [dispatch_loop]; [by intros [= <-]; constructor|].
  intros (s & _ & E)%bind_ret. apply bind_ret in E as (rest & Er & E). specialize (IH rest Er).
  destruct (negb _); [by injection E as <-|]. destruct (_ && _); [by injection E as <-|].
  destruct (_ && _); injection E as <-; [by constructor|done].
Qed.

Lemma publish_events (d : daemon_t K) i c topic data publisher w r :
  zlen data <= 65000 →
  publish_on_channel XXH3 clock DatagramSend load ser d i c topic data publisher w = Ret r →
  Forall (fun e => event_body e.2) r.1.2.
Proof.
  intros Hd. unfold publish_on_channel. intros (sent & Es & E)%bind_ret. apply bind_ret in E as ([[rc c'] w'] & _ & E).
  injection E as <-. cbn. destruct (_ && _); [|by injection Es as <-; constructor].
  apply bind_ret in Es as ([[st payload]|] & Ea & Es); [|by injection Es as <-; constructor].
  apply app_delivery_sizes in Ea as [Hs Hp]; [|done]. unfold session_dispatch_message in Es.
  set (t := c_str (take 255 topic)) in *.
  assert (Ht : zlen t < 256).
  { pose proof (c_str_length (take 255 topic)) as H. rewrite length_take in H. unfold zlen, t. lia. }
  destruct (encode_items 0 0 0 CLIENT_EVENT_MESSAGE t st payload []) as (_ & _ & _ & Ee). rewrite Ee, bind_Ret_l in Es.
  cbn [client_protocol_serialize] in Es. destruct (_ =? 0); [by injection Es as <-; constructor|].
  apply dispatch_loop_bodies in Es. eapply List.Forall_impl; [|exact Es]. cbn. intros e He. by exists t, st, payload.
Qed.

(** The methods the library calls without a signature. *)
Definition plain_method (m : Z) : Prop :=
  is_u8 m ∧ m ≠ CLIENT_METHOD_CHANNEL_DESTROY ∧ m ≠ CLIENT_METHOD_CHANNEL_MODIFY ∧ m ≠ CLIENT_METHOD_ALIAS_RESOLVE.

Lemma request_events fuel (d : daemon_t K) a frame w :
  plain_method (cf_method frame) → zlen (cf_payload frame) <= 65000 →
  run_all (fun o => Forall (fun e => event_body e.2) (o_sent o))
    (client_session_handle_request blake3 XXH3 clock DatagramSend time_us mono_us connect load ser
       new_key create fuel d a frame w).
Proof.
  intros (_ & Hd & Hm & Ha) Hp.
  assert (Hr : ∀ rc id code text (d' : daemon_t K) sent w', Forall (fun e => event_body e.2) sent →
    run_all (fun o => Forall (fun e => event_body e.2) (o_sent o)) (reply rc id code text d' sent w'))
    by (intros; unfold reply; by apply run_all_lift).
  assert (H0 : Forall (fun e : Z * list Z => event_body e.2) []) by constructor.
  unfold client_session_handle_request. destruct (_ =? _); [apply run_all_lift; intros [[?|] ?]; by apply Hr|].
  destruct (_ =? _); [apply run_all_any; intros [[[?|] ?] ?]; by apply Hr|].
  destruct (_ =? _); [apply run_all_lift; intros [rc d']; destruct (negb _); by apply Hr|].
  destruct (_ =? _); [apply run_all_lift; intros [rc d']; destruct (negb _); by apply Hr|].
  destruct (_ || _) eqn:Em; [|by apply Hr].
  rewrite (proj2 (Z.eqb_neq _ CLIENT_METHOD_CHANNEL_DESTROY) Hd), (proj2 (Z.eqb_neq _ CLIENT_METHOD_CHANNEL_MODIFY) Hm) in Em.
  rewrite !orb_false_r in Em. unfold handle_channel_method.
  destruct (find_index _ _) as [i|]; [|by apply Hr]. destruct (_ !! i) as [[addr c]|]; [|by apply Hr].
  destruct (_ =? CLIENT_METHOD_PUBLISH).
  { unfold handle_publish. apply run_all_lift_eq. intros [[[rc d1] sent] w1] Ep. apply publish_events in Ep; [|done].
    destruct (negb _); by apply Hr. }
  destruct (_ =? CLIENT_METHOD_ALIAS_REGISTER).
  { destruct (poseidon_channel_register_alias _ _ _). destruct (negb _); by apply Hr. }
  destruct (_ =? CLIENT_METHOD_ALIAS_UNREGISTER).
  { destruct (poseidon_channel_unregister_alias _ _). destruct (negb _); by apply Hr. }
  destruct (_ =? CLIENT_METHOD_ALIAS_RESOLVE); [destruct (poseidon_channel_resolve_alias _ _); by apply Hr|].
  done.
Qed.
End events.

(** ** The direct call, without transport *)

Section conversation.
Context {K : Type} `{!SignatureScheme K} `{!EqDecision K}.
Context (blake3 : list Z → list Z) (XXH3 : list Z → Z → Z) (clock : Z → Z * Z).
Context (DatagramSend : Z → list Z → bool) (time_us mono_us : world → Z).
Context (connect : Z → Z → option Z * bool).
Context (load : list Z → option cbor_item).
Context (new_key : option K) (create : list Z → Z → exec (option (poseidon_channel_t K))).
Local Abbreviation handle := (client_session_handle_request blake3 XXH3 clock DatagramSend time_us mono_us connect load
  cbor_serialize_alloc new_key create).
Local Abbreviation serve := (serve_frame blake3 XXH3 clock DatagramSend time_us mono_us connect load
  cbor_serialize_alloc new_key create).

(** The session [a] handles the frames one after the other. *)
Fixpoint handle_all (fuel : nat) (d : daemon_t K) (a : Z) (frames : list client_frame_t) (w : world)
  : run (list (outcome K)) :=
  match frames with
  | [] => Some (Ret [])
  | f :: frames' =>
      o <~ handle fuel d a f w ;;
      os <~ handle_all fuel (o_daemon o) a frames' (o_world o) ;;
      Some (Ret (o :: os))
  end.

(** What one outcome writes to the connections. *)
Definition writes_of (sock : sock_client_t) (o : outcome K) : list write :=
  map (fun e => transport_send e.1 e.2) (o_sent o) ++
  match client_protocol_serialize ser (o_response o) with Some buf => [send_response sock buf] | None => [] end.

Definition serve_outcome (sock : sock_client_t) (sd : served K) (o : outcome K) : served K :=
  mkServed (o_daemon o) (sd_out sd ++ writes_of sock o) (o_world o).

Definition collapse {A} (r : run A) : exec (option A) :=
  match r with None => Ret None | Some Trap => Trap | Some (Ret a) => Ret (Some a) end.

(** The frames of a sequence of calls, numbered from [n]. *)
Fixpoint numbered (n : Z) (calls : list (Z * list Z * list Z)) : list client_frame_t :=
  match calls with
  | [] => []
  | (m, t, p) :: calls' => mkFrame CLIENT_FRAME_REQUEST n m 0 0 t [] [] p [] :: numbered (u32 (n + 1)) calls'
  end.

Definition frame_body (f : client_frame_t) : list Z :=
  ser (request_item (cf_request_id f) (cf_method f) (cf_topic_path f) (cf_payload f)).

(** The calls of a client on a socket that takes everything. *)
Fixpoint client_calls (c : poseidon_client_t) (calls : list (Z * list Z * list Z))
  : exec (list Z * poseidon_client_t * list Z) :=
  match calls with
  | [] => Ret ([], c, [])
  | (m, t, p) :: calls' =>
      '(rc, c1, out) <- call zlen (fun _ => true) ser c m (Some t) p ;;
      '(rcs, c2, out') <- client_calls c1 calls' ;;
      Ret (rc :: rcs, c2, out ++ out')
  end.

Definition call_ok (e : Z * list Z * list Z) : Prop :=
  let '(m, t, p) := e in plain_method m ∧ zlen t < 256 ∧ zlen p <= 65000.

(** A request frame as the library makes it. *)
Definition request_ok (f : client_frame_t) : Prop :=
  ∃ id m t p, f = mkFrame CLIENT_FRAME_REQUEST id m 0 0 t [] [] p [] ∧ is_u32 id ∧ call_ok (m, t, p).

Lemma numbered_ok n calls : is_u32 n → Forall call_ok calls → Forall request_ok (numbered n calls).
Proof.
  intros Hn H. revert n Hn. induction H as [|[[m t] p] calls Hc _ IH]; intros n Hn; [constructor|].
  constructor; [by exists n, m, t, p|]. apply IH. apply u32_range.
Qed.

Lemma take_zlen {A} (l : list A) : take (Z.to_nat (zlen l)) l = l.
Proof. unfold zlen. by rewrite Nat2Z.id, firstn_all. Qed.

Lemma client_calls_spec c calls :
  pc_is_quic c = false → Forall call_ok calls →
  ∃ c', client_calls c calls =
      Ret (map (fun _ => 0) calls, c', stream_of (map frame_body (numbered (pc_next_request_id c) calls))) ∧
    c' = pc_with_id c (pc_next_request_id c').
Proof.
  intros Hq H. revert c Hq. induction H as [|[[m t] p] calls (Hm & Ht & Hp) _ IH]; intros c Hq; [exists c; by destruct c|].
  destruct (IH (pc_with_id c (u32 (pc_next_request_id c + 1))) Hq) as (c' & E & Ec). exists c'. split; [|exact Ec].
  cbn [client_calls call]. unfold send_request. cbn [next_id].
  destruct (encode_items (pc_next_request_id c) m 0 0 t [] p []) as (-> & _). rewrite bind_Ret_l. unfold serialize_and_send.
  cbn [client_protocol_serialize].
  pose proof (request_fits (pc_next_request_id c) m t p Ht Hp) as [Hb _].
  rewrite (proj2 (Z.eqb_neq _ 0)) by lia. unfold send_frame. cbn [pc_is_quic pc_with_id]. rewrite Hq.
  change (zlen (write_frame_header _) =? Z.of_nat UNIX_FRAME_HEADER_SIZE) with true. rewrite Z.eqb_refl. cbn [andb].
  rewrite bind_Ret_l, E, bind_Ret_l, !take_zlen. reflexivity.
Qed.

Hypothesis load_ser : ∀ i, cbor_fits i → (cbor_depth i <= 2)%nat → 0 < zlen (ser i) < 2 ^ 32 → load (ser i) = Some i.

Lemma load_body i : cbor_fits i → (cbor_depth i <= 2)%nat → body_ok (ser i) → load (ser i) = Some i.
Proof. intros H Hd [H1 H2]. apply load_ser; [done|done|]. unfold UNIX_READ_BUF_SIZE in H2. lia. Qed.

(** The transport serves the frames as the session handles them. *)
Lemma serve_frames_spec fuel sock frames sd :
  Forall request_ok frames →
  run_frames (serve fuel sock) (map frame_body frames) (Some sd) =
    (os <- collapse (handle_all fuel (sd_daemon sd) (sk_session sock) frames (sd_world sd)) ;;
     Ret (foldl (serve_outcome sock) sd <$> os)).
Proof.
  intros H. revert sd. induction H as [|f frames (id & m & t & p & -> & Hid & (Hu & Hm) & Ht & Hp) _ IH]; intros sd; [done|].
  cbn [map run_frames handle_all]. unfold frame_body at 1. cbn [cf_request_id cf_method cf_topic_path cf_payload].
  unfold serve_frame at 1.
  rewrite load_body; [|apply (frame_items_fit id m 0 0 t [] p)|cbn; lia|by apply request_fits].
  rewrite request_decodes by (done || lia). rewrite bind_Ret_l. unfold serve_request.
  destruct (handle fuel (sd_daemon sd) (sk_session sock) _ (sd_world sd)) as [[o|]|] eqn:Eo; cbn [rbind]; [|done|].
  - rewrite bind_Ret_l. change (mkServed (o_daemon o) _ (o_world o)) with (serve_outcome sock sd o). rewrite IH.
    cbn [serve_outcome sd_daemon sd_world].
    by destruct (handle_all fuel (o_daemon o) (sk_session sock) frames (o_world o)) as [[os|]|].
  - cbn [xbind]. clear. induction frames as [|f frames IH]; [done|]. exact IH.
Qed.
(** *** The way back *)

(** The bytes that reach the peer of a plain connection. *)
Fixpoint bytes_to (fd : Z) (ws : list write) : list Z :=
  match ws with
  | [] => []
  | Plain f b :: ws' => (if f =? fd then b else []) ++ bytes_to fd ws'
  | Tls _ _ :: ws' => bytes_to fd ws'
  end.

Lemma bytes_to_app fd l1 l2 : bytes_to fd (l1 ++ l2) = bytes_to fd l1 ++ bytes_to fd l2.
Proof. induction l1 as [|[f b|f b] l1 IH]; cbn; [done| |done]. by rewrite IH, (assoc_L (++)). Qed.

(** The frames of an outcome for the descriptor [fd]. *)
Definition reply_bodies (fd : Z) (o : outcome K) : list (list Z) :=
  map snd (List.filter (fun e => e.1 =? fd) (o_sent o)) ++
  match client_protocol_serialize ser (o_response o) with Some buf => [buf] | None => [] end.

Lemma stream_of_app l1 l2 : stream_of (l1 ++ l2) = stream_of l1 ++ stream_of l2.
Proof. unfold stream_of. by rewrite map_app, concat_app. Qed.

Lemma bytes_to_writes sock o :
  sk_tls sock = false → bytes_to (sk_fd sock) (writes_of sock o) = stream_of (reply_bodies (sk_fd sock) o).
Proof.
  intros Ht. unfold writes_of, reply_bodies. rewrite bytes_to_app, stream_of_app. f_equal.
  - induction (o_sent o) as [|[fd b] l IH]; [done|]. cbn. rewrite IH. by destruct (fd =? sk_fd sock).
  - destruct (client_protocol_serialize _ _) as [b|]; [|done]. cbn. unfold send_response. rewrite Ht. cbn.
    by rewrite Z.eqb_refl.
Qed.

Lemma served_out sock sd os :
  sk_tls sock = false →
  bytes_to (sk_fd sock) (sd_out (foldl (serve_outcome sock) sd os)) =
    bytes_to (sk_fd sock) (sd_out sd) ++ stream_of (concat (map (reply_bodies (sk_fd sock)) os)).
Proof.
  intros Ht. revert sd. induction os as [|o os IH]; intros sd; cbn [foldl map concat]; [by rewrite app_nil_r|].
  rewrite IH. cbn [serve_outcome sd_out]. by rewrite bytes_to_app, bytes_to_writes, stream_of_app, (assoc_L (++)).
Qed.

(** What the transport can say about an outcome. *)
Definition good_outcome (f : client_frame_t) (o : outcome K) : Prop :=
  Forall (fun e => event_body e.2) (o_sent o) ∧ answered True (cf_request_id f) o.

Lemma handle_all_good fuel d a frames w os :
  Forall request_ok frames → handle_all fuel d a frames w = Some (Ret os) → Forall2 good_outcome frames os.
Proof.
  intros H. revert d w os. induction H as [|f frames Hf _ IH]; intros d w os; cbn [handle_all].
  { intros [= <-]. constructor. }
  pose proof Hf as (id & m & t & p & -> & Hid & (Hm & Ht & Hp)).
  pose proof (request_events blake3 XXH3 clock DatagramSend time_us mono_us connect load new_key create fuel d a
    (mkFrame CLIENT_FRAME_REQUEST id m 0 0 t [] [] p []) w Hm Hp) as He.
  pose proof (request_answered_aux blake3 XXH3 clock DatagramSend time_us mono_us connect load ser new_key create fuel d a
    (mkFrame CLIENT_FRAME_REQUEST id m 0 0 t [] [] p []) w) as Ha.
  destruct (handle fuel d a _ w) as [[o|]|]; [|done|done]. cbn [rbind run_all] in *.
  destruct (handle_all fuel (o_daemon o) a frames (o_world o)) as [[os'|]|] eqn:E; [|done|done]. intros [= <-].
  constructor; [|by eapply IH]. split; [done|]. destruct Ha as (code & text & H1 & H2 & H3 & H4 & H5).
  exists code, text. split_and!; try done. intros _. apply H5. apply Hm.
Qed.

(** The answers among the callbacks. *)
Definition responses (log : list callback) : list (Z * Z) :=
  omap (fun e => match e with OnResponse id code _ => Some (id, code) | _ => None end) log.

Lemma responses_app l1 l2 : responses (l1 ++ l2) = responses l1 ++ responses l2.
Proof. apply omap_app. Qed.

Lemma receive_events c l log :
  Forall event_body l →
  ∃ evs, run_frames (receive_body load c) l log = Ret (log ++ evs) ∧ responses evs = [].
Proof.
  intros H. revert log. induction H as [|b l (t & st & d & Ht & Hs & Hd & ->) _ IH]; intros log.
  { exists []. by rewrite app_nil_r. }
  cbn [run_frames]. unfold receive_body at 1.
  rewrite load_body; [|apply (frame_items_fit 0 0 0 CLIENT_EVENT_MESSAGE t st d)|cbn; lia|by apply event_fits].
  rewrite event_item_decodes by (done || lia || (by vm_compute)). rewrite !bind_Ret_l.
  destruct (IH (log ++ process_received_frame c (mkFrame CLIENT_FRAME_EVENT 0 0 0 CLIENT_EVENT_MESSAGE t st [] d [])))
    as (evs & -> & Hr). rewrite <- (assoc_L (++)). eexists. split; [reflexivity|]. rewrite responses_app, Hr, app_nil_r.
  unfold process_received_frame. cbn. by destruct (pc_message_cb c), (pc_event_cb c).
Qed.

Lemma receive_outcome c fd f o log :
  pc_response_cb c = true → is_u32 (cf_request_id f) → good_outcome f o →
  ∃ code more, run_frames (receive_body load c) (reply_bodies fd o) log = Ret (log ++ more) ∧
    responses more = [(cf_request_id f, code)] ∧ (o_rc o = 0 ↔ code = CLIENT_ERROR_OK) ∧
    Forall body_ok (reply_bodies fd o).
Proof.
  intros Hcb Hid [He (code & text & Hr & Hrc & _ & Hcode & Htext)]. specialize (Htext I).
  change (o_response o = Some (response_item (cf_request_id f) code text)) in Hr.
  unfold reply_bodies. rewrite Hr. cbn [client_protocol_serialize].
  pose proof (response_fits (cf_request_id f) code text ltac:(lia)) as Hfit.
  rewrite (proj2 (Z.eqb_neq _ 0)) by (destruct Hfit; lia).
  set (l := map snd (List.filter (fun e => e.1 =? fd) (o_sent o))).
  assert (Hl : Forall event_body l).
  { apply list.Forall_forall. intros b (e & -> & Hin)%list_elem_of_fmap. rewrite list.Forall_forall in He. apply He.
    apply list_elem_of_In in Hin. apply List.filter_In in Hin as [Hin _]. by apply list_elem_of_In. }
  destruct (receive_events c l log Hl) as (evs & Ev & Hn). exists code, (evs ++ [OnResponse (cf_request_id f) code (c_str text)]).
  split_and!.
  - rewrite run_frames_app, Ev, bind_Ret_l. cbn [run_frames]. unfold receive_body.
    rewrite load_body; [|apply (frame_items_fit (cf_request_id f) 0 code 0 text [] [])|cbn; lia|done].
    rewrite response_decodes by (done || lia). rewrite !bind_Ret_l. unfold process_received_frame. cbn. rewrite Hcb.
    by rewrite (assoc_L (++)).
  - by rewrite responses_app, Hn.
  - exact Hrc.
  - apply Forall_app_2; [|by constructor]. eapply List.Forall_impl; [|exact Hl].
    intros b (t & st & d & Ht & Hs & Hd & ->). by apply event_fits.
Qed.

Lemma receive_outcomes c fd frames os log :
  pc_response_cb c = true → Forall request_ok frames → Forall2 good_outcome frames os →
  ∃ more, run_frames (receive_body load c) (concat (map (reply_bodies fd) os)) log = Ret (log ++ more) ∧
    map fst (responses more) = map cf_request_id frames ∧
    Forall2 (fun o r => o_rc o = 0 ↔ r.2 = CLIENT_ERROR_OK) os (responses more) ∧
    Forall body_ok (concat (map (reply_bodies fd) os)).
Proof.
  intros Hcb Hf H. revert log. induction H as [|f o frames os Ho _ IH]; intros log.
  { exists []. rewrite app_nil_r. by repeat constructor. }
  apply Forall_cons_1 in Hf as [Hf Hfs].
  assert (Hid : is_u32 (cf_request_id f)) by (by destruct Hf as (id & m & t & p & -> & Hid & _)).
  destruct (receive_outcome c fd f o log Hcb Hid Ho) as (code & m1 & E1 & R1 & C1 & B1).
  destruct (IH Hfs (log ++ m1)) as (m2 & E2 & R2 & C2 & B2). exists (m1 ++ m2). cbn [map concat].
  rewrite run_frames_app, E1, bind_Ret_l, E2, responses_app, R1. split_and!; [by rewrite (assoc_L (++))| | |].
  - cbn. by rewrite R2.
  - by constructor.
  - by apply Forall_app_2.
Qed.
End conversation.


Definition demo_sock : sock_client_t := mkSock 7 1 false [].

Definition demo_client : poseidon_client_t := poseidon_client_on_response socket_client true.

(** Subscribe, leave (which no session implements), publish. *)
Definition demo_calls : list (Z * list Z * list Z) :=
  [(CLIENT_METHOD_SUBSCRIBE, lit "chan", []); (CLIENT_METHOD_CHANNEL_LEAVE, lit "chan", []); (CLIENT_METHOD_PUBLISH, lit "chan", [1; 2])].


(** ** Administration *)

(** The request of an administrative call as the daemon decodes it. *)
Definition admin_frame (id m : Z) (topic signature config : list Z) : client_frame_t :=
  mkFrame CLIENT_FRAME_REQUEST id m 0 0 topic [] [] config signature.

Lemma signed_call_spec `{SignatureScheme K} c m topic (k : K) ts config signature :
  pc_is_quic c = false → zlen topic < 256 → zlen signature <= 64 → zlen config <= 64000 →
  sign k (data_to_sign m topic ts) = Some signature →
  signed_call zlen (fun _ => true) ser c m (Some topic) (Some k) ts config =
    Ret (0, (next_id c).2, frame_bytes (ser (admin_item (pc_next_request_id c) m topic signature config))).
Proof.
  intros Hq Ht Hs Hc Hk. unfold signed_call, CLIENT_MAX_TOPIC_PATH. rewrite (proj2 (Z.ltb_ge _ _)) by lia. rewrite Hk.
  unfold send_admin_request. cbn [next_id].
  destruct (encode_items (pc_next_request_id c) m 0 0 topic [] config signature) as (_ & -> & _). rewrite bind_Ret_l.
  unfold serialize_and_send. cbn [client_protocol_serialize].
  pose proof (admin_fits (pc_next_request_id c) m topic signature config Ht ltac:(lia) Hc) as [Hb _].
  rewrite (proj2 (Z.eqb_neq _ 0)) by lia. unfold send_frame. cbn [pc_is_quic pc_with_id]. rewrite Hq.
  change (zlen (write_frame_header _) =? Z.of_nat UNIX_FRAME_HEADER_SIZE) with true. rewrite Z.eqb_refl. cbn [andb].
  by rewrite !take_zlen.
Qed.

(** What the library signs is never what the daemon verifies. *)
Lemma data_to_sign_differs m topic ts : m :: topic ≠ data_to_sign m topic ts.
Proof.
  intros E. apply (f_equal length) in E. unfold data_to_sign in E. cbn [length] in E. rewrite length_app, be_bytes_length in E.
  lia.
Qed.

Section admin.
Context {K : Type} `{!SignatureScheme K} `{!EqDecision K}.
Context (blake3 : list Z → list Z) (XXH3 : list Z → Z → Z) (clock : Z → Z * Z).
Context (DatagramSend : Z → list Z → bool) (time_us mono_us : world → Z).
Context (connect : Z → Z → option Z * bool).
Context (load : list Z → option cbor_item).
Context (new_key : option K) (create : list Z → Z → exec (option (poseidon_channel_t K))).

Lemma admin_refused fuel (d : daemon_t K) a id m topic signature config i ch w :
  m = CLIENT_METHOD_CHANNEL_DESTROY ∨ m = CLIENT_METHOD_CHANNEL_MODIFY → cstr_ok topic →
  find_channel_by_topic (dm_mgr d) topic = Some (i, ch) →
  verify (key_type (ch_key_pair ch)) (public_key (ch_key_pair ch)) (m :: topic) signature = false →
  client_session_handle_request blake3 XXH3 clock DatagramSend time_us mono_us connect load ser new_key create fuel d a
    (admin_frame id m topic signature config) w =
  Some (Ret (mkOutcome (-1) (Some (response_item id CLIENT_ERROR_NOT_AUTHORIZED [])) d [] w)).
Proof.
  intros Hm Hok Hf Hv. assert (Hs : verify_channel_owner_signature ch (admin_frame id m topic signature config) = -1).
  { unfold verify_channel_owner_signature. cbn [admin_frame cf_signature cf_method cf_topic_path].
    rewrite c_str_id by done. rewrite Hv. by destruct (_ =? 0). }
  unfold client_session_handle_request, handle_channel_method. cbn [admin_frame cf_method cf_topic_path cf_request_id].
  rewrite c_str_id by done. unfold find_channel_by_topic in Hf.
  destruct (find_index _ _) as [j|]; [|done]. destruct (m_channels (dm_mgr d) !! j) as [[addr c0]|]; [|done].
  cbn in Hf. injection Hf as -> ->. unfold handle_destroy, handle_modify. rewrite Hs. change (negb (-1 =? 0)) with true.
  cbv iota. unfold refuse, reply. cbn [admin_frame cf_request_id].
  destruct (encode_items id 0 CLIENT_ERROR_NOT_AUTHORIZED 0 [] [] [] []) as (_ & _ & -> & _).
  by destruct Hm as [-> | ->].
Qed.

Hypothesis load_ser : ∀ i, cbor_fits i → (cbor_depth i <= 2)%nat → 0 < zlen (ser i) < 2 ^ 32 → load (ser i) = Some i.

Lemma admin_served fuel sock (sd : served K) id m topic signature config i ch ns :
  is_u32 id → m = CLIENT_METHOD_CHANNEL_DESTROY ∨ m = CLIENT_METHOD_CHANNEL_MODIFY → cstr_ok topic → zlen topic < 256 →
  zlen signature <= 64 → zlen config <= 64000 →
  find_channel_by_topic (dm_mgr (sd_daemon sd)) topic = Some (i, ch) →
  verify (key_type (ch_key_pair ch)) (public_key (ch_key_pair ch)) (m :: topic) signature = false →
  let bytes := frame_bytes (ser (admin_item id m topic signature config)) in
  Forall (fun n => 1 <= n)%nat ns → (length bytes <= length ns)%nat →
  read_events (serve_frame blake3 XXH3 clock DatagramSend time_us mono_us connect load ser new_key create fuel sock)
    ns (mkClient [] bytes true (Some sd)) =
  Ret (mkClient [] [] true (Some (mkServed (sd_daemon sd)
         (sd_out sd ++ [send_response sock (ser (response_item id CLIENT_ERROR_NOT_AUTHORIZED []))]) (sd_world sd)))).
Proof.
  intros Hid Hm Hok Ht Hs Hc Hf Hv bytes Hns Hl.
  pose proof (admin_fits id m topic signature config Ht ltac:(lia) Hc) as Hfit.
  pose proof (response_fits id CLIENT_ERROR_NOT_AUTHORIZED [] ltac:(by vm_compute)) as [Hrf _].
  assert (Hs1 : bytes = stream_of [ser (admin_item id m topic signature config)])
    by (unfold bytes, stream_of; cbn [map concat]; by rewrite app_nil_r).
  rewrite (read_events_spec _ ns [ser (admin_item id m topic signature config)]);
    [|constructor; [exact Hfit|constructor]|exact Hs1|by left|done|done].
  cbn [run_frames]. unfold serve_frame.
  rewrite (load_body _ load_ser); [|apply (frame_items_fit id m 0 0 topic signature config)|cbn; lia|done].
  rewrite admin_decodes; [|done|by destruct Hm as [-> | ->]|done|done|lia]. rewrite bind_Ret_l. unfold serve_request.
  change (mkFrame CLIENT_FRAME_REQUEST id m 0 0 topic [] [] config signature) with (admin_frame id m topic signature config).
  rewrite (admin_refused fuel _ _ _ _ _ _ _ i ch) by done. cbn [o_sent o_response o_daemon o_world map app].
  cbn [client_protocol_serialize]. rewrite (proj2 (Z.eqb_neq _ 0)) by lia. done.
Qed.
End admin.

(** The client library cannot administer channels: it signs the method,
    the topic and the time, while the daemon verifies the signature over method
    and topic only.  With a signature that is valid for no other message than the
    one signed, a call to destroy or to modify a channel, even with the channel's
    own key, is sent without error, refused as not authorized, and has no effect
    on the daemon, the network or other clients. *)
Theorem client_admin_refused {K} `{!SignatureScheme K} `{!EqDecision K} blake3 XXH3 clock send time mono conn load
    new_key create fuel sock (sd : served K) c (k : K) m topic cfg ts signature i ch :
  (∀ i, cbor_fits i → (cbor_depth i <= 2)%nat → 0 < zlen (cbor_serialize_alloc i) < 2 ^ 32 → load (cbor_serialize_alloc i) = Some i) →
  pc_is_quic c = false → is_u32 (pc_next_request_id c) → cstr_ok topic → zlen topic < 256 →
  length (ring_sizes cfg) = 10%nat → find_channel_by_topic (dm_mgr (sd_daemon sd)) topic = Some (i, ch) →
  m = CLIENT_METHOD_CHANNEL_DESTROY ∨ m = CLIENT_METHOD_CHANNEL_MODIFY →
  sign k (data_to_sign m topic ts) = Some signature → zlen signature <= 64 →
  (∀ msg, msg ≠ data_to_sign m topic ts →
     verify (key_type (ch_key_pair ch)) (public_key (ch_key_pair ch)) msg signature = false) →
  ∃ c' bytes,
    (if m =? CLIENT_METHOD_CHANNEL_DESTROY
     then poseidon_client_channel_destroy zlen (fun _ => true) cbor_serialize_alloc c (Some topic) (Some k) ts
     else poseidon_client_channel_modify zlen (fun _ => true) cbor_serialize_alloc c (Some topic) (Some cfg) (Some k) ts) =
      Ret (0, c', bytes) ∧
    ∀ ns, Forall (fun n => 1 <= n)%nat ns → (length bytes <= length ns)%nat →
      read_events (serve_frame blake3 XXH3 clock send time mono conn load cbor_serialize_alloc new_key create fuel sock)
        ns (mkClient [] bytes true (Some sd)) =
      Ret (mkClient [] [] true (Some (mkServed (sd_daemon sd)
             (sd_out sd ++ [send_response sock (cbor_serialize_alloc
                (response_item (pc_next_request_id c) CLIENT_ERROR_NOT_AUTHORIZED []))]) (sd_world sd)))).
Proof.
  intros Hload Hq Hid Hok Ht Hcfg Hf Hm Hk Hs Hforge.
  pose proof (Hforge _ (data_to_sign_differs m topic ts)) as Hv.
  assert (Hlen : zlen (config_bytes cfg) = 68) by by apply config_bytes_length.
  assert (Hcall : ∃ config, zlen config <= 64000 ∧
    (if m =? CLIENT_METHOD_CHANNEL_DESTROY
     then poseidon_client_channel_destroy zlen (fun _ => true) ser c (Some topic) (Some k) ts
     else poseidon_client_channel_modify zlen (fun _ => true) ser c (Some topic) (Some cfg) (Some k) ts) =
    signed_call zlen (fun _ => true) ser c m (Some topic) (Some k) ts config).
  { destruct Hm as [-> | ->]; [exists []|exists (config_bytes cfg)]; (split; [by rewrite ?Hlen|done]). }
  destruct Hcall as (config & Hc & ->). eexists _, _.
  split; [by apply (signed_call_spec c m topic k ts config signature)|].
  intros ns Hns Hl. by apply (admin_served _ _ _ _ _ _ _ load _ _ Hload fuel sock sd _ m topic signature config i ch).
Qed.

(** A scheme in which a signature is valid for one message only. *)
Definition echo_scheme : SignatureScheme (list Z) :=
  {| key_type := fun _ => lit "ED25519"; public_key := fun k => k; sign := fun _ m => Some m;
     verify := fun _ _ m s => bool_decide (s = m) |}.

Definition demo_connected_daemon : daemon_t (list Z) := srv_daemon demo_connected.

Lemma client_admin_refused_witness :
  ∃ c' bytes, poseidon_client_channel_destroy (H := echo_scheme) zlen (fun _ => true) cbor_serialize_alloc demo_client
      (Some (lit "chan")) (Some [7; 8; 9]) 1000 = Ret (0, c', bytes) ∧
    read_events (serve_frame (SignatureScheme0 := echo_scheme) toy_blake3 (fun _ s => s) (fun g => (0, g))
        (fun _ _ => true) (fun _ => 0) (fun _ => 0) (fun _ _ => (None, false)) cbor_load cbor_serialize_alloc None
        (fun _ _ => Ret None) 3 demo_sock) (repeat 9%nat 100) (mkClient [] bytes true (Some (srv_served demo_connected))) =
      Ret (mkClient [] [] true (Some (mkServed demo_connected_daemon
        [Plain 7 (frame_bytes (cbor_serialize_alloc (response_item 1 CLIENT_ERROR_NOT_AUTHORIZED [])))] (mkWorld 0 [])))).
Proof.
  destruct (client_admin_refused (SignatureScheme0 := echo_scheme) toy_blake3 (fun _ s => s) (fun g => (0, g))
    (fun _ _ => true) (fun _ => 0) (fun _ => 0) (fun _ _ => (None, false)) cbor_load None (fun _ _ => Ret None) 3 demo_sock
    (srv_served demo_connected) demo_client [7; 8; 9] CLIENT_METHOD_CHANNEL_DESTROY (lit "chan")
    poseidon_channel_config_defaults 1000 (data_to_sign CLIENT_METHOD_CHANNEL_DESTROY (lit "chan") 1000) 0 demo_chan)
    as (c' & bytes & E & Hr).
  - intros i Hf _; by apply cbor_load_alloc.
  - reflexivity.
  - vm_compute. split; [discriminate|reflexivity].
  - apply cstr_check. reflexivity.
  - vm_compute. reflexivity.
  - reflexivity.
  - reflexivity.
  - left. reflexivity.
  - reflexivity.
  - vm_compute. discriminate.
  - intros msg Hne. apply bool_decide_eq_false. intros E. apply Hne. symmetry. exact E.
  - exists c', bytes. split; [exact E|]. apply Hr.
    + apply List.Forall_forall. intros n Hn. apply List.repeat_spec in Hn. rewrite Hn. lia.
    + clear - E. vm_compute in E. injection E as _ <-. vm_compute. lia.
Defined.

(** ** Limits of the library *)

(** Leaving a channel is a call of the library that no session implements. *)
Lemma leave_unknown_method {K} `{!SignatureScheme K} `{!EqDecision K} blake3 XXH3 clock send time mono conn load
    new_key create fuel (d : daemon_t K) a id topic w :
  client_session_handle_request blake3 XXH3 clock send time mono conn load cbor_serialize_alloc new_key create fuel d a
    (mkFrame CLIENT_FRAME_REQUEST id CLIENT_METHOD_CHANNEL_LEAVE 0 0 topic [] [] [] []) w =
  Some (Ret (mkOutcome (-1) (Some (response_item id CLIENT_ERROR_UNKNOWN_METHOD [])) d [] w)).
Proof.
  cbn -[refuse]. unfold refuse, reply.
  by destruct (encode_items id 0 CLIENT_ERROR_UNKNOWN_METHOD 0 [] [] [] []) as (_ & _ & -> & _).
Qed.

(** A QUIC connection is reported as failed unless msquic has delivered the
    connected event before the client gets to wait for it: the loop waits only
    while the client is already connected. *)
Lemma quic_connect_race load during : quic_connect load [] during = Ret (Some None).
Proof. by destruct during. Qed.

(** With the event delivered first the same exchange succeeds. *)
Lemma quic_connect_in_time load :
  quic_connect load [EvConnected (Some 5) true] [EvStreamStarted] =
    Ret (Some (Some (mkPClient true true 1 false false false true [] (Some 5) true))).
Proof. done. Qed.

(** Data that does not fit the buffer is dropped, in the middle of a frame if
    it comes to that, and the connection goes on. *)
Lemma quic_overflow_drops load c buffers log :
  CLIENT_READ_BUF_SIZE < zlen (pc_read_buf c) + zlen (concat buffers) →
  quic_callback load c (EvReceive buffers) log = Ret (c, log).
Proof. intros H. unfold quic_callback. by rewrite (proj2 (Z.ltb_lt _ _)). Qed.
