(* ===== verification/Refcount.v ===== *)
(** * Refcount: the reference counts of [src/RefCounter/refcounter.c]

    A counter of references and a counter of references given up in advance
    ("yields"), which the next [refcounter_reference] takes over instead of
    counting up.  The fields have the widths of [uint_fast16_t] (64 bits on the
    target) and [uint_fast8_t] (8 bits); [refcounter_count] returns the low 16
    bits.  The compare-and-swap loops are atomic here: a counter is changed by
    one operation at a time. *)

From S2P Require Import Prelude.

Record refcounter_t := mkRefc {
  rc_count : Z;
  rc_yield : Z
}.

#[export] Instance refcounter_eq_dec : EqDecision refcounter_t.
Proof. solve_decision. Defined.

Definition refcounter_init : refcounter_t := mkRefc 1 0.

Definition refcounter_yield (r : refcounter_t) : refcounter_t := mkRefc (rc_count r) (u8 (rc_yield r + 1)).

Definition refcounter_reference (r : refcounter_t) : refcounter_t :=
  if 0 <? rc_yield r then mkRefc (rc_count r) (rc_yield r - 1) else mkRefc (u64 (rc_count r + 1)) (rc_yield r).

Definition refcounter_dereference (r : refcounter_t) : refcounter_t :=
  if 0 <? rc_yield r then mkRefc (rc_count r) (rc_yield r - 1)
  else if 0 <? u16 (rc_count r) then mkRefc (u64 (rc_count r - 1)) (rc_yield r) else r.

Definition refcounter_count (r : refcounter_t) : Z := u16 (rc_count r).

(** The pointer is moved out of the variable that held it. *)
Definition refcounter_consume (r : refcounter_t) : refcounter_t := refcounter_yield r.

(** What every [*_destroy] function does with the counter: give up a reference
    and free the object when none is counted. *)
Definition released (r : refcounter_t) : refcounter_t * bool :=
  let r' := refcounter_dereference r in (r', refcounter_count r' =? 0).

(** ** Ownership *)

(** The owners of an object, and the references handed over but not yet taken. *)
Record ownership := mkOwners {
  owners : Z;
  in_flight : Z
}.

Inductive transfer :=
| Acquire   (** a new owner, through [refcounter_reference] *)
| HandOver  (** an owner gives its reference away, through [refcounter_consume] *)
| TakeOver  (** the receiver's [refcounter_reference] *)
| Release.  (** an owner destroys its reference *)

Definition ownership_step (o : ownership) (t : transfer) : option ownership :=
  match t with
  | Acquire => if in_flight o =? 0 then Some (mkOwners (owners o + 1) 0) else None
  | HandOver => if (0 <? owners o) && (in_flight o <? 255)
                then Some (mkOwners (owners o - 1) (in_flight o + 1)) else None
  | TakeOver => if 0 <? in_flight o then Some (mkOwners (owners o + 1) (in_flight o - 1)) else None
  | Release => if (0 <? owners o) && (in_flight o =? 0) then Some (mkOwners (owners o - 1) 0) else None
  end.

Definition counter_step (r : refcounter_t) (t : transfer) : refcounter_t :=
  match t with
  | Acquire | TakeOver => refcounter_reference r
  | HandOver => refcounter_consume r
  | Release => refcounter_dereference r
  end.

Fixpoint ownership_run (o : ownership) (l : list transfer) : option ownership :=
  match l with
  | [] => Some o
  | t :: l' => match ownership_step o t with Some o' => ownership_run o' l' | None => None end
  end.

Definition counts (r : refcounter_t) (o : ownership) : Prop :=
  rc_count r = owners o + in_flight o ∧ rc_yield r = in_flight o
  ∧ 0 <= owners o ∧ 0 <= in_flight o <= 255.

Lemma counts_step r o t o' :
  counts r o → owners o + in_flight o < 65535 → ownership_step o t = Some o' →
  counts (counter_step r t) o' ∧ owners o' + in_flight o' <= owners o + in_flight o + 1.
Proof.
  intros (Hc & Hy & Ho & Hf) Hb Hs. unfold counts. destruct r as [c y], o as [ow fl]. simpl in *. subst.
  destruct t; simpl in Hs; unfold counter_step, refcounter_reference, refcounter_consume, refcounter_yield, refcounter_dereference; simpl.
  - destruct (Z.eqb_spec fl 0) as [->|]; simplify_eq. simpl. rewrite u64_id by (unfold is_u64; lia). lia.
  - destruct (Z.ltb_spec 0 ow), (Z.ltb_spec fl 255); simplify_eq/=. rewrite u8_id by (unfold is_u8; lia). lia.
  - destruct (Z.ltb_spec 0 fl); simplify_eq/=. lia.
  - destruct (Z.ltb_spec 0 ow), (Z.eqb_spec fl 0) as [->|]; simplify_eq/=.
    rewrite Z.add_0_r, u16_id by (unfold is_u16; lia). destruct (Z.ltb_spec 0 ow); [|lia].
    rewrite u64_id by (unfold is_u64; lia). simpl. lia.
Qed.

Lemma counts_run l r o o' :
  counts r o → owners o + in_flight o + zlen l <= 65535 → ownership_run o l = Some o' →
  counts (fold_left counter_step l r) o' ∧ owners o' + in_flight o' <= owners o + in_flight o + zlen l.
Proof.
  revert r o. induction l as [|t l IH]; intros r o Hc Hb Hr; simpl in *.
  { simplify_eq. split; [done|]. unfold zlen. simpl. lia. }
  unfold zlen in *. simpl in *. destruct (ownership_step o t) as [o1|] eqn:E; [|done].
  destruct (counts_step r o t o1 Hc) as [Hc1 Hle]; [lia|done|].
  destruct (IH _ o1 Hc1) as [H1 H2]; [lia|done|]. split; [done|lia].
Qed.

(** Reference counting refines ownership: along any sequence of acquisitions,
    releases and hand-overs in which a handed-over reference is taken before
    references are acquired or released otherwise, starting from a fresh object
    with one owner (and at most 65534 operations), the counter reads the owners
    plus the references under way, so the object is seen unreferenced exactly when
    it has no owner and none is under way. *)
Theorem refcount_refines_ownership l o :
  ownership_run (mkOwners 1 0) l = Some o → zlen l <= 65534 →
  let r := fold_left counter_step l refcounter_init in
  refcounter_count r = owners o + in_flight o
  ∧ (refcounter_count r = 0 ↔ owners o = 0 ∧ in_flight o = 0).
Proof.
  intros Hr Hl r. destruct (counts_run l refcounter_init (mkOwners 1 0) o) as [(Hc & Hy & Ho & Hf) Hb].
  - unfold counts. simpl. lia.
  - simpl. lia.
  - done.
  - fold r in Hc. simpl in Hb. unfold refcounter_count. rewrite u16_id by (unfold is_u16; lia). lia.
Qed.

(** An object handed over, taken, shared and released by both owners. *)
Lemma refcount_refines_ownership_witness :
  let r := fold_left counter_step [HandOver; TakeOver; Acquire; Release; Release] refcounter_init in
  refcounter_count r = 0.
Proof.
  destruct (refcount_refines_ownership [HandOver; TakeOver; Acquire; Release; Release] (mkOwners 0 0)) as [H _].
  - reflexivity.
  - vm_compute. discriminate.
  - exact H.
Defined.

(** A reference handed over and then destroyed by the receiver without being
    taken first is not given up: the destruction consumes the yield, and the object
    keeps a count of one. *)
Lemma consumed_then_destroyed_leaks :
  released (refcounter_consume refcounter_init) = (refcounter_init, false).
Proof. reflexivity. Qed.

(** The count is read through 16 bits: at 65536 references the object is taken for
    unreferenced. *)
Lemma refcount_wraps_at_65536 r : rc_count r = 65536 → refcounter_count r = 0.
Proof. intros H. unfold refcounter_count. by rewrite H. Qed.
