(* ===== verification/Buffers.v ===== *)
(** * Buffers: counted byte buffers

    [src/Buffer/buffer.c].  A buffer is a reference count, a size and the bytes of
    its allocation; reading or writing outside the allocation is [Trap].  The
    structure itself comes from the memory pool or, when the pool has none, from
    [calloc], zeroed in both cases. *)

From S2P Require Import Prelude Refcount.

Record buffer_t := mkBuffer {
  bf_refcounter : refcounter_t;
  bf_data : list Z;
  bf_size : Z
}.

Definition buffer_create (size : Z) : buffer_t := mkBuffer refcounter_init (replicate (Z.to_nat size) 0) size.

Definition buffer_create_from_existing_memory (data : list Z) (size : Z) : buffer_t :=
  mkBuffer refcounter_init data size.

(** [memcpy(dst + offset, src, n)]. *)
Definition memcpy_at (dst : list Z) (offset : Z) (src : list Z) (n : Z) : exec (list Z) :=
  if (zlen src <? n) || (zlen dst <? offset + n) then Trap
  else Ret (take (Z.to_nat offset) dst ++ take (Z.to_nat n) src ++ drop (Z.to_nat (offset + n)) dst).

Definition buffer_copy_from_pointer (buf : buffer_t) (data : list Z) (size : Z) : exec buffer_t :=
  d <- memcpy_at (bf_data buf) 0 data (if size <? bf_size buf then size else bf_size buf) ;;
  Ret (mkBuffer (bf_refcounter buf) d (bf_size buf)).

(** [junk] is what [malloc] returns. *)
Definition buffer_create_from_pointer_copy (junk : list Z) (data : list Z) (size : Z) : exec buffer_t :=
  b <- buffer_copy_from_pointer (mkBuffer refcounter_init junk size) data size ;;
  Ret (mkBuffer refcounter_init (bf_data b) size).

Definition buffer_copy (junk : list Z) (buf : buffer_t) : exec buffer_t :=
  buffer_create_from_pointer_copy junk (bf_data buf) (bf_size buf).

Definition buffer_concat (buf1 buf2 : buffer_t) : exec buffer_t :=
  let buf := buffer_create (u64 (bf_size buf1 + bf_size buf2)) in
  d1 <- memcpy_at (bf_data buf) 0 (bf_data buf1) (bf_size buf1) ;;
  d2 <- memcpy_at d1 (bf_size buf1) (bf_data buf2) (bf_size buf2) ;;
  Ret (mkBuffer (bf_refcounter buf) d2 (bf_size buf)).

(** [None]: freed. *)
Definition buffer_destroy (buf : buffer_t) : option buffer_t :=
  let '(r, free) := released (bf_refcounter buf) in
  if free then None else Some (mkBuffer r (bf_data buf) (bf_size buf)).

Definition buffer_get_index (buf : buffer_t) (index : Z) : exec Z :=
  match bf_data buf !! Z.to_nat index with Some b => if index <? 0 then Trap else Ret b | None => Trap end.

Definition buffer_set_index (buf : buffer_t) (index value : Z) : exec (Z * buffer_t) :=
  if (index <? 0) || (zlen (bf_data buf) <=? index) then Trap
  else Ret (value, mkBuffer (bf_refcounter buf) (<[Z.to_nat index := value]> (bf_data buf)) (bf_size buf)).

(** [Ret None] is NULL. *)
Definition buffer_slice (junk : list Z) (buf : buffer_t) (start finish : Z) : exec (option buffer_t) :=
  if finish <? start then Ret None
  else if bf_size buf <? finish then Ret None
  else if bf_size buf <? start then Ret None
  else b <- buffer_create_from_pointer_copy junk (drop (Z.to_nat start) (bf_data buf)) (finish - start) ;; Ret (Some b).

(** ** Bitwise operations *)

(** [for (i = from; i < from + n; i++) result->data[i] = f(i)], appended. *)
Fixpoint fill (f : Z → exec Z) (from : Z) (n : nat) : exec (list Z) :=
  match n with
  | O => Ret []
  | S n' => x <- f from ;; rest <- fill f (from + 1) n' ;; Ret (x :: rest)
  end.

Section bitwise.
Context (op : Z → Z → Z).

(** The text [buffer_xor], [buffer_or] and [buffer_and] have in common. *)
Definition buffer_bitwise (buf1 buf2 : buffer_t) : exec buffer_t :=
  let size := if bf_size buf1 <? bf_size buf2 then bf_size buf2 else bf_size buf1 in
  let '(min, largest) := if bf_size buf2 <? bf_size buf1 then (bf_size buf2, buf1) else (bf_size buf1, buf2) in
  front <- fill (fun i => x <- buffer_get_index buf1 i ;; y <- buffer_get_index buf2 i ;; Ret (u8 (op x y))) 0 (Z.to_nat min) ;;
  back <- fill (fun i => x <- buffer_get_index largest i ;; Ret (u8 (op x 0))) min (Z.to_nat (bf_size largest - min)) ;;
  Ret (mkBuffer refcounter_init (front ++ back) size).
End bitwise.

Definition buffer_xor (buf1 buf2 : buffer_t) : exec buffer_t := buffer_bitwise Z.lxor buf1 buf2.
Definition buffer_or (buf1 buf2 : buffer_t) : exec buffer_t := buffer_bitwise Z.lor buf1 buf2.
Definition buffer_and (buf1 buf2 : buffer_t) : exec buffer_t := buffer_bitwise Z.land buf1 buf2.

Definition buffer_not (buf : buffer_t) : exec buffer_t :=
  d <- fill (fun i => x <- buffer_get_index buf i ;; Ret (u8 (Z.lnot x))) 0 (Z.to_nat (bf_size buf)) ;;
  Ret (mkBuffer refcounter_init d (bf_size buf)).

(** ** Comparison *)

(** The loop has no break: [a] and [b] are those of the last difference. *)
Fixpoint compare_loop (buf1 buf2 : buffer_t) (i : Z) (n : nat) (a b : Z) : exec (Z * Z) :=
  match n with
  | O => Ret (a, b)
  | S n' =>
      val1 <- buffer_get_index buf1 i ;;
      val2 <- buffer_get_index buf2 i ;;
      if val1 =? val2 then compare_loop buf1 buf2 (i + 1) n' a b else compare_loop buf1 buf2 (i + 1) n' val1 val2
  end.

Definition buffer_compare (buf1 buf2 : buffer_t) : exec Z :=
  let length := if bf_size buf1 <? bf_size buf2 then bf_size buf1 else bf_size buf2 in
  '(a, b) <- compare_loop buf1 buf2 0 (Z.to_nat length) (bf_size buf1) (bf_size buf2) ;;
  Ret (if b <? a then 1 else if a <? b then -1 else 0).

(** ** Well-formed buffers *)

Record buffer_wf (b : buffer_t) : Prop := {
  bw_size : zlen (bf_data b) = bf_size b;
  bw_bytes : Forall is_u8 (bf_data b);
  bw_bound : bf_size b < 2 ^ 63
}.

Lemma buffer_size_nonneg b : buffer_wf b → 0 <= bf_size b.
Proof. intros H. rewrite <- (bw_size b H). apply zlen_nonneg. Qed.

Lemma buffer_get_ok b i :
  buffer_wf b → 0 <= i < bf_size b →
  ∃ x, buffer_get_index b i = Ret x ∧ bf_data b !! Z.to_nat i = Some x ∧ is_u8 x.
Proof.
  intros H Hi. unfold buffer_get_index. pose proof (bw_size b H) as Hs. unfold zlen in Hs.
  destruct (lookup_lt_is_Some_2 (bf_data b) (Z.to_nat i)) as [x Hx]; [lia|]. rewrite Hx. exists x.
  rewrite (proj2 (Z.ltb_ge _ _)) by lia. split_and!; [done|done|]. exact (Forall_lookup_1 _ _ _ _ (bw_bytes b H) Hx).
Qed.

Lemma fill_spec f g from n :
  (∀ i, from <= i < from + Z.of_nat n → f i = Ret (g i)) →
  fill f from n = Ret (map (fun k => g (from + Z.of_nat k)) (seq 0 n)).
Proof.
  revert from. induction n as [|n IH]; intros from H; [done|]. cbn [fill seq map]. rewrite H by lia. cbn [xbind].
  rewrite IH by (intros i Hi; apply H; lia). cbn [xbind]. rewrite Z.add_0_r. do 2 f_equal.
  rewrite <- seq_shift, map_map. apply map_ext. intros k. f_equal. lia.
Qed.

Lemma get_byte b i : buffer_wf b → 0 <= i < bf_size b → buffer_get_index b i = Ret (byte_at (bf_data b) i).
Proof. intros H Hi. destruct (buffer_get_ok b i H Hi) as (x & -> & Hx & _). unfold byte_at. by rewrite Hx. Qed.

Lemma byte_beyond b i : buffer_wf b → bf_size b <= i → byte_at (bf_data b) i = 0.
Proof.
  intros H Hi. unfold byte_at. rewrite lookup_ge_None_2; [done|]. pose proof (bw_size b H) as Hs. unfold zlen in Hs. lia.
Qed.

Lemma byte_range b i : buffer_wf b → is_u8 (byte_at (bf_data b) i).
Proof. intros H. apply byte_at_ok, bw_bytes, H. Qed.

(** A buffer is its size and its bytes. *)
Lemma bytes_ext (l l' : list Z) :
  zlen l = zlen l' → (∀ i, 0 <= i < zlen l → byte_at l i = byte_at l' i) → l = l'.
Proof.
  intros El Hb. unfold zlen in *. apply list_eq. intros k. destruct (decide (k < length l)%nat) as [Hk|Hk].
  - specialize (Hb (Z.of_nat k) ltac:(lia)). unfold byte_at in Hb. rewrite Nat2Z.id in Hb.
    destruct (lookup_lt_is_Some_2 l k Hk) as [x Hx], (lookup_lt_is_Some_2 l' k) as [y Hy]; [lia|].
    rewrite Hx, Hy in *. cbn in Hb. by rewrite Hb.
  - rewrite !lookup_ge_None_2; [done|lia|lia].
Qed.

Lemma byte_at_map_seq (g : Z → Z) n i : 0 <= i < Z.of_nat n → byte_at (map (fun k => g (Z.of_nat k)) (seq 0 n)) i = g i.
Proof.
  intros Hi. unfold byte_at. change (map ?f) with (fmap (M := list) f). rewrite list_lookup_fmap, lookup_seq_lt by lia.
  cbn. f_equal. lia.
Qed.

Lemma seq_from j n : seq j n = map (fun k => (j + k)%nat) (seq 0 n).
Proof. change (map ?f) with (fmap (M := list) f). by rewrite fmap_add_seq, Nat.add_0_r. Qed.

(** *** Bitwise operations act on zero-extended buffers *)

Section bitwise_spec.
Context (op : Z → Z → Z) (op_comm : ∀ x y, op x y = op y x) (op_zero : op 0 0 = 0).
Context (op_u8 : ∀ x y, is_u8 x → is_u8 y → is_u8 (op x y)).

Lemma buffer_bitwise_spec b1 b2 :
  buffer_wf b1 → buffer_wf b2 →
  ∃ r, buffer_bitwise op b1 b2 = Ret r ∧ buffer_wf r ∧ bf_size r = Z.max (bf_size b1) (bf_size b2) ∧
    ∀ i, 0 <= i → byte_at (bf_data r) i = op (byte_at (bf_data b1) i) (byte_at (bf_data b2) i).
Proof.
  intros H1 H2. pose proof (buffer_size_nonneg b1 H1) as P1. pose proof (buffer_size_nonneg b2 H2) as P2.
  set (g := fun i => op (byte_at (bf_data b1) i) (byte_at (bf_data b2) i)).
  set (m := Z.min (bf_size b1) (bf_size b2)). set (M := Z.max (bf_size b1) (bf_size b2)).
  assert (Eg : ∀ i, u8 (g i) = g i) by (intros i; apply u8_id, op_u8; by apply byte_range).
  assert (Efront : fill (fun i => x <- buffer_get_index b1 i ;; y <- buffer_get_index b2 i ;; Ret (u8 (op x y))) 0 (Z.to_nat m)
    = Ret (map (fun k => g (0 + Z.of_nat k)) (seq 0 (Z.to_nat m)))).
  { apply fill_spec. intros i Hi. rewrite !get_byte by (done || lia). cbn [xbind]. exact (f_equal Ret (Eg i)). }
  assert (Eback : ∀ large, (large = b1 ∧ bf_size b2 <= bf_size b1) ∨ (large = b2 ∧ bf_size b1 <= bf_size b2) →
    fill (fun i => x <- buffer_get_index large i ;; Ret (u8 (op x 0))) m (Z.to_nat (bf_size large - m))
    = Ret (map (fun k => g (m + Z.of_nat k)) (seq 0 (Z.to_nat (M - m))))).
  { intros large Hl. assert (bf_size large = M) as -> by (destruct Hl as [[-> ?]|[-> ?]]; lia).
    apply fill_spec. intros i Hi. destruct Hl as [[-> Hle]|[-> Hle]]; rewrite get_byte by (done || lia); cbn [xbind];
      rewrite <- (Eg i); unfold g.
    - by rewrite (byte_beyond b2 i) by (done || lia).
    - rewrite (byte_beyond b1 i) by (done || lia). by rewrite op_comm. }
  set (d := map (fun k => g (Z.of_nat k)) (seq 0 (Z.to_nat M))).
  assert (Ed : map (fun k => g (0 + Z.of_nat k)) (seq 0 (Z.to_nat m)) ++ map (fun k => g (m + Z.of_nat k)) (seq 0 (Z.to_nat (M - m))) = d).
  { unfold d. replace (Z.to_nat M) with (Z.to_nat m + Z.to_nat (M - m))%nat by lia. rewrite seq_app, map_app. f_equal.
    rewrite Nat.add_0_l, (seq_from (Z.to_nat m)), map_map. apply map_ext. intros k. f_equal. lia. }
  exists (mkBuffer refcounter_init d M).
  assert (Ez : zlen d = M) by (unfold d, zlen; rewrite length_map, length_seq; lia).
  assert (Eb : ∀ i, 0 <= i → byte_at d i = g i).
  { intros i Hi. destruct (decide (i < M)) as [Hlt|Hge]; [apply byte_at_map_seq; lia|].
    unfold byte_at at 1. rewrite lookup_ge_None_2 by (unfold zlen in Ez; lia). cbn. unfold g.
    by rewrite (byte_beyond b1 i), (byte_beyond b2 i), op_zero by (done || lia). }
  split_and!; [|split; cbn; [done| |pose proof (bw_bound _ H1); pose proof (bw_bound _ H2); lia]|done|done].
  - unfold buffer_bitwise. replace (if bf_size b1 <? bf_size b2 then bf_size b2 else bf_size b1) with M
      by (destruct (Z.ltb_spec (bf_size b1) (bf_size b2)); lia).
    destruct (Z.ltb_spec (bf_size b2) (bf_size b1)) as [Hlt|Hge];
      [assert (bf_size b2 = m) as -> by lia|assert (bf_size b1 = m) as -> by lia];
      rewrite Efront; cbn [xbind]; rewrite Eback by (left + right; split; [done|lia]); cbn [xbind]; by rewrite Ed.
  - apply List.Forall_forall. intros x Hx. apply in_map_iff in Hx as (k & <- & _). apply op_u8; by apply byte_range.
Qed.
End bitwise_spec.

Lemma lxor_is_u8 x y : is_u8 x → is_u8 y → is_u8 (Z.lxor x y).
Proof.
  rewrite !is_u8_testbit. intros [? Hx] [? Hy]. split; [by apply Z.lxor_nonneg|].
  intros i Hi. by rewrite Z.lxor_spec, Hx, Hy.
Qed.

Lemma lor_is_u8 x y : is_u8 x → is_u8 y → is_u8 (Z.lor x y).
Proof.
  rewrite !is_u8_testbit. intros [? Hx] [? Hy]. split; [by apply Z.lor_nonneg|].
  intros i Hi. by rewrite Z.lor_spec, Hx, Hy.
Qed.

Lemma land_is_u8 x y : is_u8 x → is_u8 y → is_u8 (Z.land x y).
Proof.
  rewrite !is_u8_testbit. intros [? Hx] [? Hy]. split; [apply Z.land_nonneg; by left|].
  intros i Hi. by rewrite Z.land_spec, Hx, Hy.
Qed.

(** The bytes and the size of the result of a bitwise operation: the shorter
    operand is extended with zeros. *)
Definition bitwise_result (op : Z → Z → Z) (b1 b2 r : buffer_t) : Prop :=
  buffer_wf r ∧ bf_size r = Z.max (bf_size b1) (bf_size b2) ∧
  ∀ i, 0 <= i → byte_at (bf_data r) i = op (byte_at (bf_data b1) i) (byte_at (bf_data b2) i).

Lemma buffer_xor_spec b1 b2 : buffer_wf b1 → buffer_wf b2 → ∃ r, buffer_xor b1 b2 = Ret r ∧ bitwise_result Z.lxor b1 b2 r.
Proof. exact (buffer_bitwise_spec Z.lxor Z.lxor_comm eq_refl lxor_is_u8 b1 b2). Qed.

Lemma buffer_or_spec b1 b2 : buffer_wf b1 → buffer_wf b2 → ∃ r, buffer_or b1 b2 = Ret r ∧ bitwise_result Z.lor b1 b2 r.
Proof. exact (buffer_bitwise_spec Z.lor Z.lor_comm eq_refl lor_is_u8 b1 b2). Qed.

Lemma buffer_and_spec b1 b2 : buffer_wf b1 → buffer_wf b2 → ∃ r, buffer_and b1 b2 = Ret r ∧ bitwise_result Z.land b1 b2 r.
Proof. exact (buffer_bitwise_spec Z.land Z.land_comm eq_refl land_is_u8 b1 b2). Qed.

Lemma u8_lnot x : is_u8 x → u8 (Z.lnot x) = 255 - x.
Proof.
  intros Hx. unfold is_u8 in Hx. unfold u8, Z.lnot. rewrite <- (Z.mod_add _ 1) by done. rewrite Z.mod_small; lia.
Qed.

Lemma buffer_not_spec b :
  buffer_wf b → ∃ r, buffer_not b = Ret r ∧ buffer_wf r ∧ bf_size r = bf_size b ∧
    ∀ i, 0 <= i < bf_size b → byte_at (bf_data r) i = 255 - byte_at (bf_data b) i.
Proof.
  intros H. pose proof (buffer_size_nonneg b H) as P. set (g := fun i => 255 - byte_at (bf_data b) i).
  assert (E : fill (fun i => x <- buffer_get_index b i ;; Ret (u8 (Z.lnot x))) 0 (Z.to_nat (bf_size b))
    = Ret (map (fun k => g (0 + Z.of_nat k)) (seq 0 (Z.to_nat (bf_size b))))).
  { apply fill_spec. intros i Hi. rewrite get_byte by (done || lia). cbn [xbind]. by rewrite u8_lnot by (by apply byte_range). }
  unfold buffer_not. rewrite E. cbn [xbind]. eexists. split; [done|]. cbn [bf_data bf_size]. split_and!; [split|done|].
  - unfold zlen. cbn [bf_data bf_size]. rewrite length_map, length_seq. lia.
  - apply List.Forall_forall. intros x Hx. apply in_map_iff in Hx as (k & <- & _). unfold g, is_u8.
    pose proof (byte_range b (0 + Z.of_nat k) H) as R. unfold is_u8 in R. lia.
  - apply (bw_bound b H).
  - intros i Hi. apply (byte_at_map_seq g). lia.
Qed.

(** Combining with a mask no longer than the buffer twice gives the buffer
    back: [buffer_xor] of [b] and [k] succeeds, and [buffer_xor] of the result and
    [k] succeeds with the bytes of [b]. *)
Theorem xor_twice b k :
  buffer_wf b → buffer_wf k → bf_size k <= bf_size b →
  ∃ c d, buffer_xor b k = Ret c ∧ buffer_xor c k = Ret d ∧ bf_data d = bf_data b ∧ bf_size d = bf_size b.
Proof.
  intros Hb Hk Hle. destruct (buffer_xor_spec b k Hb Hk) as (c & Ec & Hc & Sc & Bc).
  destruct (buffer_xor_spec c k Hc Hk) as (d & Ed & Hd & Sd & Bd). exists c, d.
  assert (Es : bf_size d = bf_size b) by lia. split_and!; [done|done| |done].
  apply bytes_ext; [by rewrite (bw_size d Hd), (bw_size b Hb)|]. intros i [Hi _].
  by rewrite Bd, Bc, Z.lxor_assoc, Z.lxor_nilpotent, Z.lxor_0_r by done.
Qed.

Lemma xor_twice_witness :
  ∃ c d, buffer_xor (mkBuffer refcounter_init [1; 2; 3] 3) (mkBuffer refcounter_init [7; 200] 2) = Ret c ∧
    buffer_xor c (mkBuffer refcounter_init [7; 200] 2) = Ret d ∧ bf_data d = [1; 2; 3] ∧ bf_size d = 3.
Proof.
  apply (xor_twice (mkBuffer refcounter_init [1; 2; 3] 3) (mkBuffer refcounter_init [7; 200] 2));
    [split; [reflexivity|repeat constructor|]|split; [reflexivity|repeat constructor|]|]; cbn; lia.
Defined.

(** De Morgan, on buffers of one size. *)
Lemma de_morgan a b :
  buffer_wf a → buffer_wf b → bf_size a = bf_size b →
  ∃ na nb l r, buffer_not a = Ret na ∧ buffer_not b = Ret nb ∧ buffer_and na nb = Ret l ∧
    (o <- buffer_or a b ;; buffer_not o) = Ret r ∧ bf_data l = bf_data r.
Proof.
  intros Ha Hb Es. destruct (buffer_not_spec a Ha) as (na & Ena & Hna & Sna & Bna).
  destruct (buffer_not_spec b Hb) as (nb & Enb & Hnb & Snb & Bnb).
  destruct (buffer_and_spec na nb Hna Hnb) as (l & El & Hl & Sl & Bl).
  destruct (buffer_or_spec a b Ha Hb) as (o & Eo & Ho & So & Bo).
  destruct (buffer_not_spec o Ho) as (r & Er & Hr & Sr & Br).
  exists na, nb, l, r. split_and!; [done|done|done|by rewrite Eo|].
  assert (Esz : bf_size l = bf_size r) by lia.
  apply bytes_ext; [by rewrite (bw_size l Hl), (bw_size r Hr)|]. rewrite (bw_size l Hl). intros i Hi.
  rewrite Bl, Br, Bna, Bnb, Bo by lia.
  pose proof (byte_range a i Ha) as Ra. pose proof (byte_range b i Hb) as Rb.
  rewrite <- !u8_lnot by (done || by apply lor_is_u8). unfold u8. rewrite <- !(Z.land_ones _ 8) by lia.
  rewrite Z.lnot_lor. apply Z.bits_inj'. intros k _. rewrite !Z.land_spec. by repeat destruct (Z.testbit _ k).
Qed.

(** *** Copies, slices and concatenations *)

Lemma memcpy_whole dst src :
  zlen dst = zlen src → memcpy_at dst 0 src (zlen src) = Ret src.
Proof.
  intros E. unfold memcpy_at. rewrite !(proj2 (Z.ltb_ge _ _)) by lia. cbn [orb]. f_equal. unfold zlen in *.
  rewrite Z.add_0_l, Nat2Z.id, firstn_all, (drop_ge dst) by lia. cbn [Z.to_nat take]. by rewrite app_nil_r.
Qed.

Lemma copy_of_pointer junk data size :
  0 <= size → zlen junk = size → size <= zlen data →
  buffer_create_from_pointer_copy junk data size
    = Ret (mkBuffer refcounter_init (take (Z.to_nat size) data) size).
Proof.
  intros P Hj Hd. unfold buffer_create_from_pointer_copy, buffer_copy_from_pointer, memcpy_at. cbn [bf_data bf_size bf_refcounter].
  rewrite Z.ltb_irrefl, !(proj2 (Z.ltb_ge _ _)) by lia. cbn [orb xbind bf_data]. do 2 f_equal. unfold zlen in *.
  rewrite (drop_ge junk) by lia. cbn [Z.to_nat take]. by rewrite app_nil_r.
Qed.

Lemma buffer_copy_data junk b :
  buffer_wf b → zlen junk = bf_size b →
  buffer_copy junk b = Ret (mkBuffer refcounter_init (bf_data b) (bf_size b)).
Proof.
  intros H Hj. unfold buffer_copy. pose proof (bw_size b H) as Hs. pose proof (buffer_size_nonneg b H) as P.
  rewrite copy_of_pointer by lia. do 2 f_equal. unfold zlen in Hs. apply take_ge. lia.
Qed.

Lemma buffer_concat_data b1 b2 :
  buffer_wf b1 → buffer_wf b2 →
  buffer_concat b1 b2 = Ret (mkBuffer refcounter_init (bf_data b1 ++ bf_data b2) (bf_size b1 + bf_size b2)).
Proof.
  intros H1 H2. pose proof (bw_size b1 H1) as S1. pose proof (bw_size b2 H2) as S2.
  pose proof (bw_bound b1 H1). pose proof (bw_bound b2 H2).
  pose proof (buffer_size_nonneg b1 H1). pose proof (buffer_size_nonneg b2 H2).
  unfold buffer_concat, buffer_create. cbn [bf_data bf_size bf_refcounter]. rewrite u64_id by (unfold is_u64; lia).
  unfold zlen in *. unfold memcpy_at, zlen. rewrite length_replicate, !(proj2 (Z.ltb_ge _ _)) by lia. cbn [orb xbind Z.to_nat take].
  rewrite !app_nil_l, drop_replicate, (take_ge (bf_data b1)) by lia.
  rewrite length_app, length_replicate, !(proj2 (Z.ltb_ge _ _)) by lia. cbn [orb xbind]. do 2 f_equal.
  rewrite take_app_length' by lia. rewrite (take_ge (bf_data b2)) by lia.
  rewrite (drop_ge (bf_data b1 ++ _)) by (rewrite length_app, length_replicate; lia). by rewrite app_nil_r.
Qed.

Lemma buffer_slice_data junk b start finish :
  buffer_wf b → 0 <= start <= finish → finish <= bf_size b → zlen junk = finish - start →
  buffer_slice junk b start finish
    = Ret (Some (mkBuffer refcounter_init (take (Z.to_nat (finish - start)) (drop (Z.to_nat start) (bf_data b))) (finish - start))).
Proof.
  intros H Hs Hf Hj. pose proof (bw_size b H) as Sb. unfold buffer_slice. rewrite !(proj2 (Z.ltb_ge _ _)) by lia.
  rewrite copy_of_pointer; [done|lia|lia|]. unfold zlen in *. rewrite length_drop. lia.
Qed.

(** The error branches: a range that is backwards or ends past the buffer, and
    no other, is refused; nothing is allocated. *)
Lemma buffer_slice_refuses junk b start finish :
  buffer_wf b → 0 <= start → 0 <= finish → zlen junk = Z.max 0 (finish - start) →
  buffer_slice junk b start finish = Ret None ↔ finish < start ∨ bf_size b < finish.
Proof.
  intros H P Q Hj. split.
  - intros E. destruct (decide (finish < start)); [by left|]. destruct (decide (bf_size b < finish)); [by right|].
    by rewrite buffer_slice_data in E by (done || lia).
  - unfold buffer_slice. intros [?|?]; [by rewrite (proj2 (Z.ltb_lt _ _)) by lia|].
    destruct (finish <? start); [done|]. by rewrite (proj2 (Z.ltb_lt _ _)) by lia.
Qed.

Lemma buffer_concat_wf b1 b2 :
  buffer_wf b1 → buffer_wf b2 → bf_size b1 + bf_size b2 < 2 ^ 63 →
  buffer_wf (mkBuffer refcounter_init (bf_data b1 ++ bf_data b2) (bf_size b1 + bf_size b2)).
Proof.
  intros H1 H2 Hb. split; cbn [bf_data bf_size]; [|apply Forall_app; split; [apply (bw_bytes b1 H1)|apply (bw_bytes b2 H2)]|done].
  rewrite <- (bw_size b1 H1), <- (bw_size b2 H2). unfold zlen. rewrite length_app. lia.
Qed.

(** Cutting a concatenation where the two buffers meet gives them back:
    both slices succeed, whatever the fresh memory holds. *)
Theorem concat_slice_roundtrip junk1 junk2 b1 b2 :
  buffer_wf b1 → buffer_wf b2 → bf_size b1 + bf_size b2 < 2 ^ 63 → zlen junk1 = bf_size b1 → zlen junk2 = bf_size b2 →
  ∃ c, buffer_concat b1 b2 = Ret c ∧
    buffer_slice junk1 c 0 (bf_size b1) = Ret (Some (mkBuffer refcounter_init (bf_data b1) (bf_size b1))) ∧
    buffer_slice junk2 c (bf_size b1) (bf_size c) = Ret (Some (mkBuffer refcounter_init (bf_data b2) (bf_size b2))).
Proof.
  intros H1 H2 Hb J1 J2. rewrite buffer_concat_data by done. eexists. split; [done|].
  pose proof (buffer_concat_wf b1 b2 H1 H2 Hb) as Hw. pose proof (buffer_size_nonneg b1 H1). pose proof (buffer_size_nonneg b2 H2).
  pose proof (bw_size b1 H1) as S1. pose proof (bw_size b2 H2) as S2. unfold zlen in S1, S2.
  rewrite !buffer_slice_data by (done || cbn [bf_size]; lia). cbn [bf_data bf_size]. split; do 3 f_equal.
  - rewrite Z.sub_0_r. cbn [Z.to_nat drop]. apply take_app_length'. lia.
  - lia.
  - rewrite drop_app_length' by lia. apply take_ge. lia.
  - lia.
Qed.

Lemma concat_slice_roundtrip_witness :
  ∃ c, buffer_concat (mkBuffer refcounter_init [1; 2] 2) (mkBuffer refcounter_init [3] 1) = Ret c ∧
    buffer_slice [9; 9] c 0 2 = Ret (Some (mkBuffer refcounter_init [1; 2] 2)) ∧
    buffer_slice [9] c 2 (bf_size c) = Ret (Some (mkBuffer refcounter_init [3] 1)).
Proof.
  apply (concat_slice_roundtrip [9; 9] [9] (mkBuffer refcounter_init [1; 2] 2) (mkBuffer refcounter_init [3] 1));
    [split; [reflexivity|repeat constructor|]|split; [reflexivity|repeat constructor|]| |reflexivity|reflexivity]; cbn; lia.
Defined.

(** *** The order of [buffer_compare] *)

(** The reference: the sign of the first difference. *)
Fixpoint lex_sign (l l' : list Z) : Z :=
  match l, l' with
  | x :: l1, y :: l2 => if x =? y then lex_sign l1 l2 else Z.sgn (x - y)
  | _, _ => 0
  end.

(** What the loop leaves in [a] and [b]. *)
Fixpoint last_diff (l l' : list Z) (a b : Z) : Z * Z :=
  match l, l' with
  | x :: l1, y :: l2 => if x =? y then last_diff l1 l2 a b else last_diff l1 l2 x y
  | _, _ => (a, b)
  end.

Lemma compare_loop_spec b1 b2 i n a b :
  buffer_wf b1 → buffer_wf b2 → 0 <= i → i + Z.of_nat n <= bf_size b1 → i + Z.of_nat n <= bf_size b2 →
  compare_loop b1 b2 i n a b
    = Ret (last_diff (take n (drop (Z.to_nat i) (bf_data b1))) (take n (drop (Z.to_nat i) (bf_data b2))) a b).
Proof.
  intros H1 H2. revert i a b. induction n as [|n IH]; intros i a b P L1 L2; [by rewrite !take_0|]. cbn [compare_loop].
  destruct (buffer_get_ok b1 i H1 ltac:(lia)) as (x & -> & Hx & _).
  destruct (buffer_get_ok b2 i H2 ltac:(lia)) as (y & -> & Hy & _). cbn [xbind].
  rewrite (drop_S _ _ _ Hx), (drop_S _ _ _ Hy). cbn [take last_diff]. rewrite !IH by lia.
  replace (Z.to_nat (i + 1)) with (S (Z.to_nat i)) by lia. by destruct (x =? y).
Qed.

Lemma last_diff_snoc l l' x y a b :
  length l = length l' → last_diff (l ++ [x]) (l' ++ [y]) a b = if x =? y then last_diff l l' a b else (x, y).
Proof.
  revert l' a b. induction l as [|u l IH]; intros [|v l'] a b E; try done; cbn [app last_diff].
  rewrite !IH by (cbn in E; lia). by destruct (u =? v), (x =? y).
Qed.

Lemma last_diff_sign l l' a b :
  length l = length l' →
  (let '(u, v) := last_diff l l' a b in Z.sgn (u - v))
    = if lex_sign (rev l) (rev l') =? 0 then Z.sgn (a - b) else lex_sign (rev l) (rev l').
Proof.
  revert l'. induction l as [|x l IH] using rev_ind; intros l' E; [by destruct l'|].
  destruct l' as [|y l'] using rev_ind; [rewrite length_app in E; cbn in E; lia|].
  rewrite !length_app in E. cbn in E. rewrite last_diff_snoc by lia. rewrite !rev_app_distr. cbn [rev app lex_sign].
  destruct (Z.eqb_spec x y); [apply IH; lia|]. destruct (Z.eqb_spec (Z.sgn (x - y)) 0); [lia|done].
Qed.

Lemma sgn_branches a b : (if b <? a then 1 else if a <? b then -1 else 0) = Z.sgn (a - b).
Proof. destruct (Z.ltb_spec b a), (Z.ltb_spec a b); lia. Qed.

(** The bytes are compared from the last common position down, and only then the
    sizes. *)
Lemma buffer_compare_spec b1 b2 :
  buffer_wf b1 → buffer_wf b2 →
  let n := Z.to_nat (Z.min (bf_size b1) (bf_size b2)) in
  let s := lex_sign (rev (take n (bf_data b1))) (rev (take n (bf_data b2))) in
  buffer_compare b1 b2 = Ret (if s =? 0 then Z.sgn (bf_size b1 - bf_size b2) else s).
Proof.
  intros H1 H2 n s. unfold buffer_compare. pose proof (buffer_size_nonneg b1 H1). pose proof (buffer_size_nonneg b2 H2).
  pose proof (bw_size b1 H1) as S1. pose proof (bw_size b2 H2) as S2. unfold zlen in S1, S2.
  replace (if bf_size b1 <? bf_size b2 then bf_size b1 else bf_size b2) with (Z.min (bf_size b1) (bf_size b2))
    by (destruct (Z.ltb_spec (bf_size b1) (bf_size b2)); lia).
  rewrite compare_loop_spec by (done || lia). cbn [xbind Z.to_nat drop]. fold n.
  pose proof (last_diff_sign (take n (bf_data b1)) (take n (bf_data b2)) (bf_size b1) (bf_size b2)) as E.
  destruct (last_diff _ _ _ _) as [u v]. rewrite sgn_branches. f_equal. apply E. rewrite !length_take. lia.
Qed.

Lemma lex_sign_eq l l' : length l = length l' → lex_sign l l' = 0 ↔ l = l'.
Proof.
  revert l'. induction l as [|x l IH]; intros [|y l'] E; try done. cbn [lex_sign]. destruct (Z.eqb_spec x y) as [->|Hn].
  - rewrite IH by (cbn in E; lia). split; [by intros ->|by intros [=]].
  - split; [lia|intros [=]; lia].
Qed.

Lemma lex_sign_opp l l' : lex_sign l' l = - lex_sign l l'.
Proof.
  revert l'. induction l as [|x l IH]; intros [|y l']; try done. cbn [lex_sign]. rewrite (Z.eqb_sym y x), IH.
  destruct (Z.eqb_spec x y); [done|lia].
Qed.

Lemma lex_sign_trans l1 l2 l3 :
  length l1 = length l2 → length l2 = length l3 → 0 < lex_sign l1 l2 → 0 < lex_sign l2 l3 → 0 < lex_sign l1 l3.
Proof.
  revert l2 l3. induction l1 as [|x l1 IH]; intros [|y l2] [|z l3] E1 E2 P Q; try (cbn in *; lia). cbn [lex_sign] in *.
  cbn in E1, E2. destruct (Z.eqb_spec x y), (Z.eqb_spec y z), (Z.eqb_spec x z); subst; try lia; try done; eauto with lia.
Qed.

(** [buffer_compare] decides equality and is antisymmetric on all
    buffers: it returns 0 on buffers with the same bytes and on no others, and
    swapping the arguments negates the result.  On buffers of one size it is a
    strict total order, the bytes being compared from the last to the first. *)
Theorem buffer_compare_order b1 b2 :
  buffer_wf b1 → buffer_wf b2 →
  ∃ s, buffer_compare b1 b2 = Ret s ∧ buffer_compare b2 b1 = Ret (- s) ∧ (s = 0 ↔ bf_data b1 = bf_data b2) ∧
    (bf_size b1 = bf_size b2 → s = lex_sign (rev (bf_data b1)) (rev (bf_data b2))).
Proof.
  intros H1 H2. pose proof (bw_size b1 H1) as S1. pose proof (bw_size b2 H2) as S2. unfold zlen in S1, S2.
  rewrite (buffer_compare_spec b1 b2), (buffer_compare_spec b2 b1) by done. cbn zeta.
  rewrite (Z.min_comm (bf_size b2)). set (n := Z.to_nat _). set (t := lex_sign _ (rev (take n (bf_data b2)))).
  eexists. split; [done|]. rewrite lex_sign_opp. fold t. split_and!.
  - f_equal. destruct (Z.eqb_spec t 0), (Z.eqb_spec (- t) 0); lia.
  - assert (Ht : t = 0 ↔ take n (bf_data b1) = take n (bf_data b2)).
    { unfold t. rewrite lex_sign_eq by (rewrite !length_rev, !length_take; lia). split; [|by intros ->].
      intros E. apply (f_equal (@rev Z)) in E. by rewrite !rev_involutive in E. }
    split.
    + destruct (Z.eqb_spec t 0) as [E|]; [|lia]. intros Es. apply Ht in E. rewrite !take_ge in E by lia. done.
    + intros E. assert (bf_size b1 = bf_size b2) by (rewrite <- S1, E; lia).
      rewrite (proj2 (Z.eqb_eq t 0)) by (apply Ht; by rewrite E). lia.
  - intros E. unfold t. rewrite !take_ge by lia. destruct (Z.eqb_spec (lex_sign (rev (bf_data b1)) (rev (bf_data b2))) 0); lia.
Qed.

Lemma buffer_compare_order_witness :
  ∃ s, buffer_compare (mkBuffer refcounter_init [9; 1] 2) (mkBuffer refcounter_init [3; 2] 2) = Ret s ∧
    buffer_compare (mkBuffer refcounter_init [3; 2] 2) (mkBuffer refcounter_init [9; 1] 2) = Ret (- s) ∧
    (s = 0 ↔ [9; 1] = [3; 2]) ∧ (2 = 2 → s = lex_sign (rev [9; 1]) (rev [3; 2])).
Proof.
  apply (buffer_compare_order (mkBuffer refcounter_init [9; 1] 2) (mkBuffer refcounter_init [3; 2] 2));
    (split; [reflexivity|repeat constructor|]); cbn; lia.
Defined.

Lemma buffer_compare_trans b1 b2 b3 :
  buffer_wf b1 → buffer_wf b2 → buffer_wf b3 → bf_size b1 = bf_size b2 → bf_size b2 = bf_size b3 →
  buffer_compare b1 b2 = Ret 1 → buffer_compare b2 b3 = Ret 1 → ∃ s, buffer_compare b1 b3 = Ret s ∧ 0 < s.
Proof.
  intros H1 H2 H3 E12 E23. pose proof (bw_size b1 H1) as S1. pose proof (bw_size b2 H2) as S2. pose proof (bw_size b3 H3) as S3.
  unfold zlen in *. rewrite !buffer_compare_spec by done. cbn zeta. rewrite !take_ge by lia.
  set (s12 := lex_sign _ (rev (bf_data b2))). set (s23 := lex_sign _ (rev (bf_data b3))).
  set (s13 := lex_sign _ (rev (bf_data b3))). intros [= A] [= B]. eexists. split; [done|].
  assert (0 < s12) by (destruct (Z.eqb_spec s12 0); lia). assert (0 < s23) by (destruct (Z.eqb_spec s23 0); lia).
  assert (0 < s13) by (apply (lex_sign_trans _ (rev (bf_data b2))); rewrite ?length_rev; lia).
  destruct (Z.eqb_spec s13 0); lia.
Qed.

(** Between sizes it is not transitive: the size only counts when the common
    bytes agree, and they are read from the end. *)
Example buffer_compare_cycle :
  let x := mkBuffer refcounter_init [1] 1 in
  let y := mkBuffer refcounter_init [0; 9] 2 in
  let z := mkBuffer refcounter_init [2; 8] 2 in
  buffer_compare x y = Ret 1 ∧ buffer_compare y z = Ret 1 ∧ buffer_compare z x = Ret 1.
Proof. split_and!; reflexivity. Qed.

(** *** References *)

(** A buffer held by [k + 1] references stays until the last one is destroyed. *)
Lemma buffer_destroy_counts b k :
  0 <= k < 2 ^ 16 - 1 → bf_refcounter b = mkRefc (k + 1) 0 →
  buffer_destroy b = if k =? 0 then None else Some (mkBuffer (mkRefc k 0) (bf_data b) (bf_size b)).
Proof.
  intros Hk E. unfold buffer_destroy, released. rewrite E. unfold refcounter_dereference, refcounter_count. cbn [rc_yield rc_count].
  rewrite Z.ltb_irrefl, (u16_id (k + 1)) by (unfold is_u16; lia). rewrite (proj2 (Z.ltb_lt 0 (k + 1))) by lia. cbn [rc_count].
  rewrite Z.add_simpl_r, (u64_id k) by (unfold is_u64; lia). by rewrite (u16_id k) by (unfold is_u16; lia).
Qed.
