(* ===== verification/Vec.v ===== *)
(** * Vec: growable arrays

    [src/Util/vec.c] and the macros of [src/Util/vec.h], which the rings, packets,
    gossip, rendezvous, sessions and the overlay keep their lists in.  A vector is
    an allocation, a length and a capacity; the macros are generic in the element,
    so the model is too, and moves whole elements where the code moves their
    bytes.  Sizes are [int]s: a size that does not fit, an index outside the
    allocation or a negative byte count is [Trap].  Whether [realloc] serves a size is
    the argument [realloc], and what it leaves in new memory is [junk].

    The refinement: on a vector whose contents are a list, every operation does
    what its list operation does. *)

From S2P Require Import Prelude.

Definition INT_MAX : Z := 2 ^ 31 - 1.

Record vec_t (A : Type) := mkVec {
  v_data : list A;
  v_length : Z;
  v_capacity : Z
}.
Arguments mkVec {A} _ _ _.
Arguments v_data {A} _.
Arguments v_length {A} _.
Arguments v_capacity {A} _.

Section vec.
Context {A : Type} (memsz : Z) (realloc : Z → bool) (junk : A).

Definition vec_init : vec_t A := mkVec [] 0 0.

(** [realloc(data, n * memsz)]: [None] when the memory is refused. *)
Definition realloc_data (v : vec_t A) (n : Z) : exec (option (list A)) :=
  if (n <? 0) || (INT_MAX <? n * memsz) then Trap
  else if realloc (n * memsz) then Ret (Some (take (Z.to_nat n) (v_data v ++ replicate (Z.to_nat n - length (v_data v)) junk)))
  else Ret None.

Definition with_memory (v : vec_t A) (n : Z) : exec (Z * vec_t A) :=
  d <- realloc_data v n ;;
  match d with
  | None => Ret (-1, v)
  | Some d => Ret (0, mkVec d (v_length v) n)
  end.

Definition vec_expand_ (v : vec_t A) : exec (Z * vec_t A) :=
  if INT_MAX <? v_length v + 1 then Trap
  else if v_capacity v <? v_length v + 1 then
    let n := if v_capacity v =? 0 then 1 else v_capacity v * 2 in
    if INT_MAX <? n then Trap else with_memory v n
  else Ret (0, v).

Definition vec_reserve_ (v : vec_t A) (n : Z) : exec (Z * vec_t A) :=
  if v_capacity v <? n then with_memory v n else Ret (0, v).

(** [while (n2 < n) n2 <<= 1]; a shift past the sign bit is [Trap]. *)
Fixpoint po2_loop (fuel : nat) (n2 n : Z) : exec Z :=
  if n2 <? n then
    match fuel with
    | O => Trap
    | S f => if INT_MAX <? n2 * 2 then Trap else po2_loop f (n2 * 2) n
    end
  else Ret n2.

Definition vec_reserve_po2_ (v : vec_t A) (n : Z) : exec (Z * vec_t A) :=
  if n =? 0 then Ret (0, v) else n2 <- po2_loop 31 1 n ;; vec_reserve_ v n2.

Definition vec_compact_ (v : vec_t A) : exec (Z * vec_t A) :=
  if v_length v =? 0 then Ret (0, mkVec [] (v_length v) 0)
  else with_memory v (v_length v).

(** [memmove(data + dst, data + src, count)], in elements. *)
Definition memmove (d : list A) (dst src count : Z) : exec (list A) :=
  if (count <? 0) || (dst <? 0) || (src <? 0) || (zlen d <? dst + count) || (zlen d <? src + count) then Trap
  else Ret (take (Z.to_nat dst) d ++ take (Z.to_nat count) (drop (Z.to_nat src) d) ++ drop (Z.to_nat (dst + count)) d).

Definition vec_insert_ (v : vec_t A) (idx : Z) : exec (Z * vec_t A) :=
  '(err, v1) <- vec_expand_ v ;;
  if negb (err =? 0) then Ret (err, v1)
  else d <- memmove (v_data v1) (idx + 1) idx (v_length v1 - idx) ;; Ret (0, mkVec d (v_length v1) (v_capacity v1)).

Definition vec_splice_ (v : vec_t A) (start count : Z) : exec (vec_t A) :=
  d <- memmove (v_data v) start (start + count) (v_length v - start - count) ;; Ret (mkVec d (v_length v) (v_capacity v)).

Definition vec_swapsplice_ (v : vec_t A) (start count : Z) : exec (vec_t A) :=
  d <- memmove (v_data v) start (v_length v - count) count ;; Ret (mkVec d (v_length v) (v_capacity v)).

Definition at_index (v : vec_t A) (i : Z) : exec A :=
  match v_data v !! Z.to_nat i with Some x => if i <? 0 then Trap else Ret x | None => Trap end.

Definition put_index (v : vec_t A) (i : Z) (x : A) : exec (vec_t A) :=
  if (i <? 0) || (zlen (v_data v) <=? i) then Trap
  else Ret (mkVec (<[Z.to_nat i := x]> (v_data v)) (v_length v) (v_capacity v)).

(** The bytes of the two elements are exchanged one by one. *)
Definition vec_swap_ (v : vec_t A) (idx1 idx2 : Z) : exec (vec_t A) :=
  if idx1 =? idx2 then Ret v
  else
    x <- at_index v idx1 ;; y <- at_index v idx2 ;;
    v1 <- put_index v idx1 y ;; put_index v1 idx2 x.

Definition v_with_length (v : vec_t A) (n : Z) : vec_t A := mkVec (v_data v) n (v_capacity v).

(** ** The macros *)

(** [(vec_expand_(v) ? -1 : (v->data[v->length++] = val, 0), 0)]: the value is that
    of the last operand. *)
Definition vec_push (v : vec_t A) (x : A) : exec (Z * vec_t A) :=
  '(err, v1) <- vec_expand_ v ;;
  if negb (err =? 0) then Ret (0, v1)
  else v2 <- put_index v1 (v_length v1) x ;; Ret (0, v_with_length v2 (v_length v2 + 1)).

Definition vec_pop (v : vec_t A) : exec (A * vec_t A) :=
  let v1 := v_with_length v (v_length v - 1) in x <- at_index v1 (v_length v1) ;; Ret (x, v1).

Definition vec_splice (v : vec_t A) (start count : Z) : exec (vec_t A) :=
  v1 <- vec_splice_ v start count ;; Ret (v_with_length v1 (v_length v1 - count)).

Definition vec_swapsplice (v : vec_t A) (start count : Z) : exec (vec_t A) :=
  v1 <- vec_swapsplice_ v start count ;; Ret (v_with_length v1 (v_length v1 - count)).

(** The length grows whether or not the memory was served. *)
Definition vec_insert (v : vec_t A) (idx : Z) (x : A) : exec (Z * vec_t A) :=
  '(err, v1) <- vec_insert_ v idx ;;
  v2 <- (if negb (err =? 0) then Ret v1 else put_index v1 idx x) ;;
  Ret (0, v_with_length v2 (v_length v2 + 1)).

Definition vec_truncate (v : vec_t A) (len : Z) : vec_t A := v_with_length v (if len <? v_length v then len else v_length v).

Definition vec_clear (v : vec_t A) : vec_t A := v_with_length v 0.

Definition vec_first (v : vec_t A) : exec A := at_index v 0.

Definition vec_last (v : vec_t A) : exec A := at_index v (v_length v - 1).

Fixpoint push_loop (v : vec_t A) (arr : list A) : exec (vec_t A) :=
  match arr with
  | [] => Ret v
  | x :: arr' => v1 <- put_index v (v_length v) x ;; push_loop (v_with_length v1 (v_length v1 + 1)) arr'
  end.

(** [count] elements of [arr]. *)
Definition vec_pusharr (v : vec_t A) (arr : list A) (count : Z) : exec (vec_t A) :=
  '(err, v1) <- vec_reserve_po2_ v (v_length v + count) ;;
  if negb (err =? 0) then Ret v1
  else if zlen arr <? count then Trap else push_loop v1 (take (Z.to_nat count) arr).

Definition vec_extend (v v2 : vec_t A) : exec (vec_t A) := vec_pusharr v (v_data v2) (v_length v2).

(** [while (i--) vec_swap(v, i, v->length - (i + 1))]. *)
Fixpoint reverse_loop (v : vec_t A) (i : nat) : exec (vec_t A) :=
  match i with
  | O => Ret v
  | S i' => v1 <- vec_swap_ v (Z.of_nat i') (v_length v - (Z.of_nat i' + 1)) ;; reverse_loop v1 i'
  end.

Definition vec_reverse (v : vec_t A) : exec (vec_t A) := reverse_loop v (Z.to_nat (v_length v / 2)).

Section find.
Context `{!EqDecision A}.

Fixpoint find_loop (v : vec_t A) (x : A) (idx : Z) (n : nat) : exec Z :=
  match n with
  | O => Ret (-1)
  | S n' => y <- at_index v idx ;; if bool_decide (y = x) then Ret idx else find_loop v x (idx + 1) n'
  end.

Definition vec_find (v : vec_t A) (x : A) : exec Z := find_loop v x 0 (Z.to_nat (v_length v)).

Definition vec_remove (v : vec_t A) (x : A) : exec (vec_t A) :=
  idx <- vec_find v x ;; if negb (idx =? -1) then vec_splice v idx 1 else Ret v.
End find.

(** ** Contents *)

(** The vector holds [l]: its allocation has room for [v_capacity] elements, of
    which the first [v_length] are [l]. *)
Record holds (v : vec_t A) (l : list A) : Prop := {
  vh_capacity : zlen (v_data v) = v_capacity v;
  vh_length : v_length v = zlen l;
  vh_room : zlen l <= v_capacity v <= INT_MAX;
  vh_contents : take (length l) (v_data v) = l
}.

(** Every request is served and no size overflows. *)
Context (Hmem : 0 < memsz).

Lemma with_memory_spec v l n :
  holds v l → zlen l <= n → n * memsz <= INT_MAX → n <= INT_MAX →
  ∃ v', with_memory v n = Ret (if realloc (n * memsz) then 0 else -1, v') ∧
    (if realloc (n * memsz) then holds v' l ∧ v_capacity v' = n else v' = v).
Proof.
  intros [H1 H2 H3 H4] Hn Hs Hi. pose proof (zlen_nonneg l). unfold with_memory, realloc_data.
  rewrite !(proj2 (Z.ltb_ge _ _)) by lia. cbn [orb]. destruct (realloc (n * memsz)); cbn [xbind]; [|by exists v].
  eexists. split; [done|]. split; [|done]. unfold zlen in *. split; cbn; [| |unfold zlen; lia|].
  - unfold zlen. rewrite length_take, length_app, length_replicate. lia.
  - done.
  - rewrite take_take, Nat.min_l by lia. rewrite take_app_le by lia. done.
Qed.

(** The vector after a request for room: it holds the same list, with the room
    if the request was served. *)
Lemma vec_expand_spec v l :
  holds v l → Z.max 1 (2 * zlen l) * memsz <= INT_MAX → Z.max 1 (2 * zlen l) <= INT_MAX →
  ∃ err v', vec_expand_ v = Ret (err, v') ∧ holds v' l ∧ (err = 0 → zlen l < v_capacity v') ∧
    ((∀ n, realloc n = true) → err = 0).
Proof.
  intros H Hs Hi. pose proof (zlen_nonneg l). destruct H as [H1 H2 H3 H4] eqn:EH. unfold vec_expand_. rewrite H2.
  destruct (Z.ltb_spec INT_MAX (zlen l + 1)); [lia|]. destruct (Z.ltb_spec (v_capacity v) (zlen l + 1)) as [Hlt|Hge].
  - assert (Ec : v_capacity v = zlen l) by lia. rewrite Ec.
    set (n := if zlen l =? 0 then 1 else zlen l * 2). assert (En : n = Z.max 1 (2 * zlen l)) by (unfold n; destruct (Z.eqb_spec (zlen l) 0); lia).
    destruct (Z.ltb_spec INT_MAX n); [lia|]. destruct (with_memory_spec v l n) as (v' & E & Hv); [by split|lia|lia|lia|].
    exists (if realloc (n * memsz) then 0 else -1), v'. split; [done|].
    destruct (realloc (n * memsz)) eqn:Er.
    + destruct Hv as [Hv Hc]. split_and!; [done|lia|done].
    + subst v'. split_and!; [done|lia|]. intros Hall. by rewrite Hall in Er.
  - exists 0, v. split_and!; [done|done|lia|done].
Qed.

(** *** The allocation is the list and the rest *)

Lemma holds_split v l : holds v l → ∃ r, v = mkVec (l ++ r) (zlen l) (zlen l + zlen r) ∧ zlen l + zlen r <= INT_MAX.
Proof.
  intros [H1 H2 H3 H4]. exists (drop (length l) (v_data v)). destruct v as [d n c]. cbn in *. subst n. unfold zlen in *.
  assert (E : l ++ drop (length l) d = d) by (rewrite <- H4 at 1; apply take_drop). rewrite E.
  rewrite length_drop. split; [f_equal; lia|lia].
Qed.

Lemma holds_intro l r n c : n = zlen l → c = zlen l + zlen r → c <= INT_MAX → holds (mkVec (l ++ r) n c) l.
Proof.
  intros -> -> H. pose proof (zlen_nonneg r). split; cbn; [apply zlen_app|done|lia|]. by rewrite take_app_length.
Qed.

Lemma at_index_spec v l i x : holds v l → 0 <= i → l !! Z.to_nat i = Some x → at_index v i = Ret x.
Proof.
  intros (r & -> & _)%holds_split Hi Hx. unfold at_index. cbn. rewrite lookup_app_l by (by eapply lookup_lt_Some).
  by rewrite Hx, (proj2 (Z.ltb_ge _ _)) by lia.
Qed.

Lemma put_index_spec v l i x :
  holds v l → 0 <= i < zlen l → ∃ v', put_index v i x = Ret v' ∧ holds v' (<[Z.to_nat i := x]> l).
Proof.
  intros (r & -> & Hb)%holds_split Hi. unfold put_index. cbn. rewrite zlen_app. pose proof (zlen_nonneg r).
  rewrite (proj2 (Z.ltb_ge _ _)), (proj2 (Z.leb_gt _ _)) by lia. cbn. eexists. split; [done|].
  rewrite insert_app_l by (unfold zlen in Hi; lia). apply holds_intro; rewrite ?zlen_insert; lia.
Qed.

(** Writing behind the last element and counting it. *)
Lemma put_next_spec v l x :
  holds v l → zlen l < v_capacity v →
  ∃ v', put_index v (v_length v) x = Ret v' ∧ holds (v_with_length v' (v_length v' + 1)) (l ++ [x]) ∧ v_capacity v' = v_capacity v.
Proof.
  intros (r & -> & Hb)%holds_split Hc. cbn in *. destruct r as [|y r]; [unfold zlen in Hc; cbn in Hc; lia|].
  unfold put_index. cbn. rewrite zlen_app, zlen_cons in *. pose proof (zlen_nonneg l). pose proof (zlen_nonneg r).
  rewrite (proj2 (Z.ltb_ge _ _)), (proj2 (Z.leb_gt _ _)) by lia. cbn. eexists. split; [done|]. split; [|done].
  unfold v_with_length. cbn. replace (Z.to_nat (zlen l)) with (length l + 0)%nat by (unfold zlen; lia). rewrite insert_app_r. cbn.
  change (l ++ x :: r) with (l ++ [x] ++ r). rewrite (assoc_L (++)). apply holds_intro; rewrite ?zlen_snoc; lia.
Qed.

(** [fits n]: twice [n] elements can be asked for. *)
Definition fits (n : Z) : Prop := 2 * Z.max 1 n * memsz <= INT_MAX ∧ 2 * Z.max 1 n <= INT_MAX.

#[local] Instance fits_dec n : Decision (fits n).
Proof. unfold fits. apply _. Defined.

Lemma expand_served v l :
  (∀ n, realloc n = true) → holds v l → fits (zlen l) → ∃ v', vec_expand_ v = Ret (0, v') ∧ holds v' l ∧ zlen l < v_capacity v'.
Proof.
  intros Hall H [F1 F2]. destruct (vec_expand_spec v l H) as (err & v' & E & H' & Hc & He); [nia|lia|].
  rewrite (He Hall) in *. exists v'. by split_and!; [|done|apply Hc].
Qed.

Lemma vec_push_spec v l x :
  (∀ n, realloc n = true) → holds v l → fits (zlen l) → ∃ v', vec_push v x = Ret (0, v') ∧ holds v' (l ++ [x]).
Proof.
  intros Hall H F. destruct (expand_served v l Hall H F) as (v1 & E & H1 & Hc). unfold vec_push. rewrite E. cbn [xbind].
  destruct (put_next_spec v1 l x H1 Hc) as (v2 & E2 & H2 & _). rewrite Z.eqb_refl. cbn [negb]. rewrite E2. cbn [xbind]. by eexists.
Qed.

Lemma vec_pop_spec v l x : holds v (l ++ [x]) → ∃ v', vec_pop v = Ret (x, v') ∧ holds v' l.
Proof.
  intros H. pose proof H as (r & -> & Hb)%holds_split. unfold vec_pop, v_with_length. cbn. rewrite zlen_snoc in *. pose proof (zlen_nonneg l).
  unfold at_index. cbn. replace (Z.to_nat (zlen l + 1 - 1)) with (length l) by (unfold zlen; lia).
  rewrite lookup_app_l by (rewrite length_app; cbn; lia). rewrite list_lookup_middle by done. rewrite (proj2 (Z.ltb_ge _ _)) by lia.
  cbn. eexists. split; [done|]. rewrite <- (assoc_L (++)). apply holds_intro; rewrite ?zlen_app; unfold zlen in *; cbn; lia.
Qed.

(** A block moved inside the list part. *)
Lemma memmove_list l r dst src count :
  0 <= dst → 0 <= src → 0 <= count → dst + count <= zlen l → src + count <= zlen l →
  memmove (l ++ r) dst src count
    = Ret ((take (Z.to_nat dst) l ++ take (Z.to_nat count) (drop (Z.to_nat src) l) ++ drop (Z.to_nat (dst + count)) l) ++ r).
Proof.
  intros P1 P2 P3 H1 H2. unfold memmove. rewrite zlen_app. pose proof (zlen_nonneg r). rewrite !(proj2 (Z.ltb_ge _ _)) by lia.
  cbn [orb]. unfold zlen in *. rewrite !(drop_app_le l) by lia. rewrite !take_app_le by (rewrite ?length_drop; lia). by rewrite <- !(assoc_L (++)).
Qed.

Lemma vec_splice_spec v l start count :
  holds v l → 0 <= start → 0 <= count → start + count <= zlen l →
  ∃ v', vec_splice v start count = Ret v' ∧ holds v' (take (Z.to_nat start) l ++ drop (Z.to_nat (start + count)) l).
Proof.
  intros (r & -> & Hb)%holds_split P1 P2 P3. unfold vec_splice, vec_splice_. cbn. rewrite memmove_list by lia. cbn. eexists. split; [done|].
  rewrite <- !(assoc_L (++)). rewrite (take_ge (drop _ l)) by (rewrite length_drop; unfold zlen in *; lia).
  set (rest := drop (Z.to_nat (start + (zlen l - start - count))) l). rewrite (assoc_L (++) (take _ _)).
  assert (Er : zlen rest = count) by (unfold rest, zlen in *; rewrite length_drop; lia).
  assert (El : zlen (take (Z.to_nat start) l ++ drop (Z.to_nat (start + count)) l) = zlen l - count).
  { rewrite zlen_app. unfold zlen in *. rewrite length_take, length_drop. lia. }
  apply holds_intro; cbn [v_length v_capacity]; rewrite ?El, ?zlen_app, ?Er; lia.
Qed.

Lemma vec_insert_spec v l idx x :
  (∀ n, realloc n = true) → holds v l → fits (zlen l) → 0 <= idx <= zlen l →
  ∃ v', vec_insert v idx x = Ret (0, v') ∧ holds v' (take (Z.to_nat idx) l ++ x :: drop (Z.to_nat idx) l).
Proof.
  intros Hall H F Hi. destruct (expand_served v l Hall H F) as (v1 & E & H1 & Hc). unfold vec_insert, vec_insert_. rewrite E. cbn [xbind].
  rewrite Z.eqb_refl. cbn [negb]. apply holds_split in H1 as (r & -> & Hb). cbn in Hc |- *. destruct r as [|y r]; [unfold zlen in Hc; cbn in Hc; lia|].
  change (l ++ y :: r) with (l ++ [y] ++ r). rewrite (assoc_L (++)). pose proof (zlen_nonneg r). rewrite zlen_cons in *.
  rewrite memmove_list by (rewrite ?zlen_snoc; lia). cbn [xbind]. rewrite Z.eqb_refl. cbn [negb].
  rewrite (drop_ge (l ++ [y]) (Z.to_nat (idx + 1 + _))) by (rewrite length_app; unfold zlen in *; cbn; lia). rewrite app_nil_r.
  rewrite drop_app_le by (unfold zlen in *; lia). rewrite (take_app_le (drop (Z.to_nat idx) l)) by (rewrite length_drop; unfold zlen in *; lia).
  rewrite (take_ge (drop _ l)) by (rewrite length_drop; unfold zlen in *; lia).
  set (a := take (Z.to_nat (idx + 1)) (l ++ [y])). assert (Ea : length a = Z.to_nat (idx + 1)).
  { unfold a. rewrite length_take, length_app. unfold zlen in *. cbn. lia. }
  unfold put_index. cbn. rewrite zlen_app. pose proof (zlen_nonneg (a ++ drop (Z.to_nat idx) l)).
  rewrite (proj2 (Z.ltb_ge _ _)), (proj2 (Z.leb_gt _ _)) by (rewrite ?zlen_app; unfold zlen in *; lia). cbn. eexists. split; [done|].
  rewrite insert_app_l by (rewrite length_app; lia). rewrite insert_app_l by lia.
  assert (Eb : <[Z.to_nat idx := x]> a = take (Z.to_nat idx) l ++ [x]).
  { rewrite insert_take_drop by lia. unfold a at 2. rewrite drop_ge by (fold a; lia). f_equal. unfold a. rewrite take_take, Nat.min_l by lia.
    apply take_app_le. unfold zlen in *. lia. }
  rewrite Eb, <- (assoc_L (++) (take (Z.to_nat idx) l)). unfold v_with_length. cbn.
  assert (El : zlen (take (Z.to_nat idx) l ++ x :: drop (Z.to_nat idx) l) = zlen l + 1).
  { unfold zlen in *. rewrite length_app, length_take. cbn. rewrite length_drop. lia. }
  apply holds_intro; cbn [v_length v_capacity]; rewrite ?El; lia.
Qed.

(** The last [count] elements take the place of those removed. *)
Definition swap_removed (l : list A) (start count : Z) : list A :=
  take (Z.to_nat (zlen l - count))
    (take (Z.to_nat start) l ++ take (Z.to_nat count) (drop (Z.to_nat (zlen l - count)) l) ++ drop (Z.to_nat (start + count)) l).

Lemma vec_swapsplice_spec v l start count :
  holds v l → 0 <= start → 0 <= count → start + count <= zlen l →
  ∃ v', vec_swapsplice v start count = Ret v' ∧ holds v' (swap_removed l start count).
Proof.
  intros (r & -> & Hb)%holds_split P1 P2 P3. unfold vec_swapsplice, vec_swapsplice_. cbn. rewrite memmove_list by lia. cbn. eexists. split; [done|].
  unfold v_with_length, swap_removed. cbn. set (m := _ ++ _ ++ _).
  assert (Em : zlen m = zlen l). { unfold m. rewrite !zlen_app. unfold zlen in *. rewrite !length_take, !length_drop. lia. }
  rewrite <- (take_drop (Z.to_nat (zlen l - count)) m) at 1. rewrite <- (assoc_L (++)).
  assert (El : zlen (take (Z.to_nat (zlen l - count)) m) = zlen l - count) by (unfold zlen in *; rewrite length_take; lia).
  assert (Er : zlen (drop (Z.to_nat (zlen l - count)) m) = count) by (unfold zlen in *; rewrite length_drop; lia).
  apply holds_intro; cbn [v_length v_capacity]; rewrite ?El, ?zlen_app, ?Er; lia.
Qed.

Lemma shorten_spec v l n : holds v l → 0 <= n <= zlen l → holds (v_with_length v n) (take (Z.to_nat n) l).
Proof.
  intros (r & -> & Hb)%holds_split Hn. unfold v_with_length. cbn. rewrite <- (take_drop (Z.to_nat n) l) at 1. rewrite <- (assoc_L (++)).
  assert (E1 : zlen (take (Z.to_nat n) l) = n) by (unfold zlen in *; rewrite length_take; lia).
  assert (E2 : zlen (drop (Z.to_nat n) l) = zlen l - n) by (unfold zlen in *; rewrite length_drop; lia).
  apply holds_intro; rewrite ?zlen_app, ?E1, ?E2; lia.
Qed.

Lemma vec_truncate_spec v l n : holds v l → 0 <= n → holds (vec_truncate v n) (take (Z.to_nat n) l).
Proof.
  intros H Hn. unfold vec_truncate. rewrite (vh_length v l H). pose proof (zlen_nonneg l).
  destruct (Z.ltb_spec n (zlen l)); [apply shorten_spec; [done|lia]|].
  rewrite take_ge by (unfold zlen in *; lia). pose proof (shorten_spec v l (zlen l) H) as Hs.
  rewrite take_ge in Hs by (unfold zlen in *; lia). apply Hs. lia.
Qed.

Definition swapped (l : list A) (i j : nat) : list A :=
  match l !! i, l !! j with Some x, Some y => <[j := x]> (<[i := y]> l) | _, _ => l end.

Lemma vec_swap_spec v l i j :
  holds v l → (i < length l)%nat → (j < length l)%nat →
  ∃ v', vec_swap_ v (Z.of_nat i) (Z.of_nat j) = Ret v' ∧ holds v' (swapped l i j) ∧ v_length v' = v_length v.
Proof.
  intros H Hi Hj. destruct (lookup_lt_is_Some_2 l i Hi) as [x Hx], (lookup_lt_is_Some_2 l j Hj) as [y Hy].
  unfold vec_swap_, swapped. rewrite Hx, Hy. destruct (Z.eqb_spec (Z.of_nat i) (Z.of_nat j)) as [E|Hne].
  - apply Nat2Z.inj in E as <-. exists v. split; [done|]. split; [|done]. rewrite Hx in Hy. injection Hy as <-.
    rewrite list_insert_insert_eq. by rewrite list_insert_id.
  - rewrite (at_index_spec v l _ x), (at_index_spec v l _ y) by (done || lia || by rewrite Nat2Z.id). cbn [xbind].
    destruct (put_index_spec v l (Z.of_nat i) y H) as (v1 & E1 & H1); [unfold zlen; lia|]. rewrite E1. cbn [xbind].
    destruct (put_index_spec v1 _ (Z.of_nat j) x H1) as (v2 & E2 & H2); [rewrite zlen_insert; unfold zlen; lia|].
    rewrite !Nat2Z.id in H2. exists v2. split_and!; [done|done|].
    rewrite (vh_length v2 _ H2), (vh_length v l H). by rewrite !zlen_insert.
Qed.

Lemma swapped_length l i j : length (swapped l i j) = length l.
Proof. unfold swapped. destruct (l !! i), (l !! j); [|done..]. by rewrite !length_insert. Qed.

Lemma swapped_lookup l i j k :
  (i < length l)%nat → (j < length l)%nat →
  swapped l i j !! k = if decide (k = j) then l !! i else if decide (k = i) then l !! j else l !! k.
Proof.
  intros Hi Hj. destruct (lookup_lt_is_Some_2 l i Hi) as [x Hx], (lookup_lt_is_Some_2 l j Hj) as [y Hy].
  unfold swapped. rewrite Hx, Hy. destruct (decide (k = j)) as [->|Hkj]; [by rewrite list_lookup_insert_eq by (by rewrite length_insert)|].
  rewrite list_lookup_insert_ne by done. destruct (decide (k = i)) as [->|Hki]; [by rewrite list_lookup_insert_eq|].
  by rewrite list_lookup_insert_ne.
Qed.

Lemma reverse_loop_spec v l i :
  holds v l → (2 * i <= length l)%nat →
  ∃ v' l', reverse_loop v i = Ret v' ∧ holds v' l' ∧ length l' = length l ∧
    ∀ k, (k < length l)%nat → l' !! k = if decide (k < i ∨ length l - S k < i)%nat then l !! (length l - S k)%nat else l !! k.
Proof.
  revert v l. induction i as [|i IH]; intros v l H Hi; cbn [reverse_loop].
  - exists v, l. split_and!; [done|done|done|]. intros k Hk. by rewrite decide_False by lia.
  - rewrite (vh_length v l H).
    replace (zlen l - (Z.of_nat i + 1)) with (Z.of_nat (length l - S i)) by (unfold zlen; lia).
    destruct (vec_swap_spec v l i (length l - S i) H) as (v1 & E1 & H1 & _); [lia|lia|]. rewrite E1. cbn [xbind].
    destruct (IH v1 (swapped l i (length l - S i)) H1) as (v2 & l2 & E2 & H2 & L2 & S2); [rewrite swapped_length; lia|].
    rewrite swapped_length in L2, S2. exists v2, l2. split_and!; [done|done|done|]. intros k Hk. rewrite S2 by done.
    rewrite !swapped_lookup by lia. repeat case_decide; try lia; try (f_equal; lia); done.
Qed.

Lemma vec_reverse_spec v l : holds v l → ∃ v', vec_reverse v = Ret v' ∧ holds v' (reverse l).
Proof.
  intros H. unfold vec_reverse. rewrite (vh_length v l H). pose proof (zlen_nonneg l).
  set (h := Z.to_nat (zlen l / 2)). assert (Hh : (2 * h <= length l < 2 * h + 2)%nat).
  { unfold h, zlen in *. pose proof (Z.div_mod (Z.of_nat (length l)) 2). pose proof (Z.mod_pos_bound (Z.of_nat (length l)) 2). lia. }
  destruct (reverse_loop_spec v l h H) as (v' & l' & E & H' & L & S); [lia|]. exists v'. split; [done|].
  replace (reverse l) with l'; [done|]. apply list_eq. intros k. destruct (decide (k < length l)%nat) as [Hk|Hk].
  - rewrite S, reverse_lookup by done. case_decide; [done|]. f_equal. lia.
  - rewrite !lookup_ge_None_2; [done|rewrite length_reverse; lia|lia].
Qed.

Lemma po2_loop_spec fuel n2 n :
  0 < n2 → n <= n2 * 2 ^ Z.of_nat fuel → 2 * n <= INT_MAX → n2 < 2 * Z.max 1 n →
  ∃ m, po2_loop fuel n2 n = Ret m ∧ n <= m < 2 * Z.max 1 n.
Proof.
  revert n2. induction fuel as [|f IH]; intros n2 P H Hi Hu; cbn [po2_loop]; destruct (Z.ltb_spec n2 n) as [Hlt|Hge];
    try (exists n2; split; [done|lia]).
  - cbn in H. lia.
  - destruct (Z.ltb_spec INT_MAX (n2 * 2)); [lia|]. apply IH; [lia| |done|lia]. rewrite Nat2Z.inj_succ, Z.pow_succ_r in H by lia. lia.
Qed.

Lemma reserve_spec v l n :
  (∀ n, realloc n = true) → holds v l → n * memsz <= INT_MAX → n <= INT_MAX →
  ∃ v', vec_reserve_ v n = Ret (0, v') ∧ holds v' l ∧ n <= v_capacity v'.
Proof.
  intros Hall H Hs Hi. unfold vec_reserve_. destruct (Z.ltb_spec (v_capacity v) n) as [Hlt|Hge]; [|by exists v].
  destruct (with_memory_spec v l n H) as (v' & E & Hv); [pose proof (vh_room v l H); lia|done|done|].
  rewrite Hall in E, Hv. destruct Hv as [Hv Hc]. exists v'. split_and!; [done|done|lia].
Qed.

Lemma push_loop_spec v l arr :
  holds v l → zlen l + zlen arr <= v_capacity v → ∃ v', push_loop v arr = Ret v' ∧ holds v' (l ++ arr).
Proof.
  revert v l. induction arr as [|x arr IH]; intros v l H Hc; cbn [push_loop]; [exists v; by rewrite app_nil_r|].
  rewrite zlen_cons in Hc. pose proof (zlen_nonneg arr).
  destruct (put_next_spec v l x H) as (v1 & E1 & H1 & C1); [lia|]. rewrite E1. cbn [xbind].
  destruct (IH _ _ H1) as (v2 & E2 & H2); [rewrite zlen_snoc; cbn; lia|]. exists v2. split; [done|]. by rewrite <- (assoc_L (++)) in H2.
Qed.

Lemma vec_pusharr_spec v l arr :
  (∀ n, realloc n = true) → holds v l → fits (zlen l + zlen arr) →
  ∃ v', vec_pusharr v arr (zlen arr) = Ret v' ∧ holds v' (l ++ arr).
Proof.
  intros Hall H [F1 F2]. pose proof (zlen_nonneg l). pose proof (zlen_nonneg arr). unfold vec_pusharr, vec_reserve_po2_.
  rewrite (vh_length v l H), Z.ltb_irrefl, (take_ge arr) by (unfold zlen in *; lia).
  destruct (Z.eqb_spec (zlen l + zlen arr) 0) as [E|E].
  - cbn. apply (push_loop_spec v l arr H). pose proof (vh_room v l H). lia.
  - destruct (po2_loop_spec 31 1 (zlen l + zlen arr)) as (m & Em & Hm); [lia|unfold INT_MAX in *; lia|lia|lia|]. rewrite Em. cbn [xbind].
    destruct (reserve_spec v l m Hall H) as (v1 & E1 & Hv1 & C1); [nia|lia|]. rewrite E1. cbn [xbind]. rewrite Z.eqb_refl. cbn [negb].
    apply push_loop_spec; [done|lia].
Qed.

Lemma vec_compact_spec v l :
  (∀ n, realloc n = true) → holds v l → fits (zlen l) → ∃ v', vec_compact_ v = Ret (0, v') ∧ holds v' l.
Proof.
  intros Hall H [F1 F2]. unfold vec_compact_. rewrite (vh_length v l H). pose proof (zlen_nonneg l).
  destruct (Z.eqb_spec (zlen l) 0) as [E|E].
  - eexists. split; [done|]. destruct l; [|rewrite zlen_cons in E; pose proof (zlen_nonneg l); lia].
    apply (holds_intro [] []); unfold zlen, INT_MAX; cbn; lia.
  - destruct (with_memory_spec v l (zlen l) H) as (v' & E' & Hv); [lia|nia|lia|]. rewrite Hall in E', Hv. exists v'. by destruct Hv.
Qed.

Section search.
Context `{!EqDecision A}.

Fixpoint first_index (l : list A) (x : A) : option nat :=
  match l with
  | [] => None
  | y :: l' => if bool_decide (y = x) then Some O else S <$> first_index l' x
  end.

Lemma find_loop_spec v l x i :
  holds v l → (i <= length l)%nat →
  find_loop v x (Z.of_nat i) (length l - i) = Ret (match first_index (drop i l) x with Some k => Z.of_nat (i + k) | None => -1 end).
Proof.
  intros H. remember (length l - i)%nat as n eqn:En. revert i En. induction n as [|n IH]; intros i En Hi; cbn [find_loop].
  - by rewrite drop_ge by lia.
  - destruct (lookup_lt_is_Some_2 l i) as [y Hy]; [lia|]. rewrite (at_index_spec v l _ y) by (done || lia || by rewrite Nat2Z.id).
    cbn [xbind]. rewrite (drop_S _ _ _ Hy). cbn [first_index]. destruct (bool_decide (y = x)); [do 2 f_equal; lia|].
    replace (Z.of_nat i + 1) with (Z.of_nat (S i)) by lia. rewrite IH by lia. destruct (first_index (drop (S i) l) x); cbn; [|done].
    do 2 f_equal. lia.
Qed.

Lemma vec_find_spec v l x :
  holds v l → vec_find v x = Ret (match first_index l x with Some k => Z.of_nat k | None => -1 end).
Proof.
  intros H. unfold vec_find. rewrite (vh_length v l H). unfold zlen. rewrite Nat2Z.id.
  pose proof (find_loop_spec v l x 0 H) as E. rewrite Nat.sub_0_r in E. cbn [Z.of_nat drop Nat.add] in E. apply E. lia.
Qed.

Lemma first_index_lt l x k : first_index l x = Some k → (k < length l)%nat.
Proof.
  revert k. induction l as [|y l IH]; intros k; cbn; [done|]. case_bool_decide; [intros [= <-]; lia|].
  intros (j & Hj & ->)%fmap_Some. apply IH in Hj. lia.
Qed.

Definition removed_first (l : list A) (x : A) : list A :=
  match first_index l x with Some k => take k l ++ drop (S k) l | None => l end.

Lemma vec_remove_spec v l x : holds v l → ∃ v', vec_remove v x = Ret v' ∧ holds v' (removed_first l x).
Proof.
  intros H. unfold vec_remove, removed_first. rewrite (vec_find_spec v l x H). cbn [xbind]. destruct (first_index l x) as [k|] eqn:E.
  - apply first_index_lt in E. rewrite (proj2 (Z.eqb_neq _ _)) by lia. cbn [negb].
    destruct (vec_splice_spec v l (Z.of_nat k) 1 H) as (v' & E' & H'); [lia|lia|unfold zlen; lia|]. exists v'. split; [done|].
    by replace (Z.to_nat (Z.of_nat k)) with k in H' by lia; replace (Z.to_nat (Z.of_nat k + 1)) with (S k) in H' by lia.
  - rewrite Z.eqb_refl. cbn [negb]. by exists v.
Qed.

(** ** Refinement *)

Inductive vec_op :=
| Push (x : A) | Pop | Insert (i : Z) (x : A) | Splice (i n : Z) | SwapSplice (i n : Z) | Swap (i j : nat) | Truncate (n : Z)
| Clear | Reverse | Remove (x : A) | PushArr (arr : list A) | Reserve (n : Z) | Compact.

Definition vec_run (v : vec_t A) (op : vec_op) : exec (vec_t A) :=
  match op with
  | Push x => '(_, v') <- vec_push v x ;; Ret v'
  | Pop => '(_, v') <- vec_pop v ;; Ret v'
  | Insert i x => '(_, v') <- vec_insert v i x ;; Ret v'
  | Splice i n => vec_splice v i n
  | SwapSplice i n => vec_swapsplice v i n
  | Swap i j => vec_swap_ v (Z.of_nat i) (Z.of_nat j)
  | Truncate n => Ret (vec_truncate v n)
  | Clear => Ret (vec_clear v)
  | Reverse => vec_reverse v
  | Remove x => vec_remove v x
  | PushArr arr => vec_pusharr v arr (zlen arr)
  | Reserve n => '(_, v') <- vec_reserve_ v n ;; Ret v'
  | Compact => '(_, v') <- vec_compact_ v ;; Ret v'
  end.

Definition ensure (P : Prop) `{!Decision P} (l : list A) : option (list A) := if decide P then Some l else None.

(** The list operation, where the arguments allow it. *)
Definition list_run (l : list A) (op : vec_op) : option (list A) :=
  match op with
  | Push x => ensure (fits (zlen l)) (l ++ [x])
  | Pop => ensure (l ≠ []) (take (length l - 1) l)
  | Insert i x => ensure (fits (zlen l) ∧ 0 <= i <= zlen l) (take (Z.to_nat i) l ++ x :: drop (Z.to_nat i) l)
  | Splice i n => ensure (0 <= i ∧ 0 <= n ∧ i + n <= zlen l) (take (Z.to_nat i) l ++ drop (Z.to_nat (i + n)) l)
  | SwapSplice i n => ensure (0 <= i ∧ 0 <= n ∧ i + n <= zlen l) (swap_removed l i n)
  | Swap i j => ensure (i < length l ∧ j < length l)%nat (swapped l i j)
  | Truncate n => ensure (0 <= n) (take (Z.to_nat n) l)
  | Clear => Some []
  | Reverse => Some (reverse l)
  | Remove x => Some (removed_first l x)
  | PushArr arr => ensure (fits (zlen l + zlen arr)) (l ++ arr)
  | Reserve n => ensure (n * memsz <= INT_MAX ∧ n <= INT_MAX) l
  | Compact => ensure (fits (zlen l)) l
  end.

Fixpoint vec_runs (v : vec_t A) (ops : list vec_op) : exec (vec_t A) :=
  match ops with [] => Ret v | op :: ops' => v' <- vec_run v op ;; vec_runs v' ops' end.

Fixpoint list_runs (l : list A) (ops : list vec_op) : option (list A) :=
  match ops with [] => Some l | op :: ops' => match list_run l op with Some l' => list_runs l' ops' | None => None end end.

Lemma ensure_Some (P : Prop) `{!Decision P} l l' : ensure P l = Some l' → P ∧ l' = l.
Proof. unfold ensure. case_decide; [by intros [= <-]|done]. Qed.

Lemma vec_run_spec v l op l' :
  (∀ n, realloc n = true) → holds v l → list_run l op = Some l' → ∃ v', vec_run v op = Ret v' ∧ holds v' l'.
Proof.
  intros Hall H. destruct op as [x| |i x|i n|i n|i j|n| | |x|arr|n|]; cbn [list_run vec_run].
  - intros [F ->]%ensure_Some. destruct (vec_push_spec v l x Hall H F) as (v' & E & H'). rewrite E. by exists v'.
  - intros [Hl ->]%ensure_Some. destruct (exists_last Hl) as (l0 & x & ->). destruct (vec_pop_spec v l0 x H) as (v' & E & H').
    rewrite E. exists v'. split; [done|]. rewrite length_app, Nat.add_sub, take_app_length. done.
  - intros [[F Hi] ->]%ensure_Some. destruct (vec_insert_spec v l i x Hall H F Hi) as (v' & E & H'). rewrite E. by exists v'.
  - intros [(P1 & P2 & P3) ->]%ensure_Some. by apply vec_splice_spec.
  - intros [(P1 & P2 & P3) ->]%ensure_Some. by apply vec_swapsplice_spec.
  - intros [[P1 P2] ->]%ensure_Some. destruct (vec_swap_spec v l i j H P1 P2) as (v' & E & H' & _). by exists v'.
  - intros [Hn ->]%ensure_Some. eexists. split; [done|]. by apply vec_truncate_spec.
  - intros [= <-]. eexists. split; [done|]. exact (shorten_spec v l 0 H (conj (Z.le_refl 0) (zlen_nonneg l))).
  - intros [= <-]. by apply vec_reverse_spec.
  - intros [= <-]. by apply vec_remove_spec.
  - intros [F ->]%ensure_Some. by apply vec_pusharr_spec.
  - intros [[F1 F2] ->]%ensure_Some. destruct (reserve_spec v l n Hall H F1 F2) as (v' & E & H' & _). rewrite E. by exists v'.
  - intros [F ->]%ensure_Some. destruct (vec_compact_spec v l Hall H F) as (v' & E & H'). rewrite E. by exists v'.
Qed.
End search.
End vec.

(** ** Properties *)

(** Vectors are lists: any sequence of operations on an empty vector whose
    arguments are in range, with memory served and sizes that fit an [int], runs
    without undefined behaviour and ends with a vector that holds exactly the
    list the corresponding list operations yield. *)
Theorem vec_refines_list {A} `{!EqDecision A} (memsz : Z) (realloc : Z → bool) (junk : A) ops l :
  0 < memsz → (∀ n, realloc n = true) → list_runs memsz [] ops = Some l →
  ∃ v, vec_runs memsz realloc junk vec_init ops = Ret v ∧ holds v l.
Proof.
  intros Hm Hall. assert (H : holds (A := A) vec_init []) by (apply (holds_intro [] []); unfold zlen, INT_MAX; cbn; lia).
  revert H. generalize (@vec_init A) as v. generalize (@nil A) as l0. induction ops as [|op ops IH]; intros l0 v H; cbn [list_runs vec_runs].
  - intros [= <-]. by exists v.
  - destruct (list_run memsz l0 op) as [l1|] eqn:E; [|done]. destruct (vec_run_spec memsz realloc junk Hm v l0 op l1 Hall H E) as (v1 & E1 & H1).
    rewrite E1. cbn [xbind]. by apply IH.
Qed.

Lemma vec_refines_list_witness :
  ∃ v, vec_runs 8 (fun _ => true) 0 vec_init [Push 1; Push 2; Insert 0 3; PushArr [4; 5]; Splice 1 1; Reverse; Remove 4] = Ret v ∧ holds v [5; 2; 3].
Proof. apply (vec_refines_list 8 (fun _ => true) 0); [lia|reflexivity|vm_compute; reflexivity]. Defined.

(** ** When memory runs out *)

Section refused.
Context {A : Type} (memsz : Z) (junk : A).

(** [vec_push] drops the element and still yields 0: the callers' checks for a
    failure cannot see it. *)
Lemma push_refused v l x :
  0 < memsz → holds v l → v_capacity v = zlen l → fits memsz (zlen l) → vec_push memsz (fun _ => false) junk v x = Ret (0, v).
Proof.
  intros Hm H Hc F. unfold vec_push. pose proof (zlen_nonneg l) as Hz. unfold vec_expand_. rewrite (vh_length v l H), Hc. destruct F as [F1 F2].
  destruct (Z.ltb_spec INT_MAX (zlen l + 1)); [lia|]. rewrite (proj2 (Z.ltb_lt (zlen l) (zlen l + 1))) by lia.
  set (n := if zlen l =? 0 then 1 else zlen l * 2). assert (En : n = Z.max 1 (2 * zlen l)) by (unfold n; destruct (Z.eqb_spec (zlen l) 0); lia).
  destruct (Z.ltb_spec INT_MAX n); [lia|].
  destruct (with_memory_spec memsz (fun _ => false) junk Hm v l n) as (v' & E & ->); [done|lia|nia|lia|]. rewrite E. reflexivity.
Qed.
End refused.

(** [vec_insert] counts an element that is not there: the length exceeds the
    capacity, and reading the last element is out of bounds. *)
Example insert_refused :
  let v := mkVec [7] 1 1 in
  ∃ v', vec_insert 8 (fun _ => false) 0 v 0 9 = Ret (0, v') ∧ v_length v' = 2 ∧ v_capacity v' = 1 ∧ vec_last v' = Trap.
Proof. eexists. split; [reflexivity|]. by vm_compute. Qed.
