(* ===== verification/HashMap.v ===== *)
(** * HashMap: the open-addressing map below the timers

    [src/deps/hashmap/src/hashmap.c], the map the timing wheel keeps its timers in,
    with the hash and comparison functions of [src/Util/hash.c].  A table of a power
    of two of slots, linear probing, removal that shifts the following entries back
    so that no probe sequence is interrupted.

    Keys are values with decidable equality ([compare] answers 0 on equal keys);
    an empty slot, whose key pointer is NULL, is [None].  Whether [calloc],
    [realloc] and the copying of a key succeed are arguments.  A failed assertion
    is [Trap], and so is reading or writing a slot outside the table.  A slot without a
    key has no data: the code clears both together. *)

From stdpp Require Import gmap.
From S2P Require Import Prelude Bitset Endian Buffers Refcount.

Definition HASHMAP_SIZE_MIN : Z := 32.
Definition HASHMAP_SIZE_DEFAULT : Z := 128.
Definition EINVAL : Z := 22.
Definition ENOMEM : Z := 12.
Definition EEXIST : Z := 17.
Definition EFAULT : Z := 14.
Definition EADDRNOTAVAIL : Z := 99.

(** ** Hash functions *)

Definition mix_byte (h b : Z) : Z :=
  let h1 := u64 (h + b) in
  let h2 := u64 (h1 + Z.shiftl h1 10) in
  Z.lxor h2 (Z.shiftr h2 6).

Definition mix_end (h : Z) : Z :=
  let h1 := u64 (h + Z.shiftl h 3) in
  let h2 := Z.lxor h1 (Z.shiftr h1 11) in
  u64 (h2 + Z.shiftl h2 15).

Definition hashmap_hash_default (data : list Z) : Z := mix_end (fold_left mix_byte data 0).

(** A [char] is signed. *)
Definition schar (b : Z) : Z := if b <? 128 then b else b - 256.

Definition tolower (b : Z) : Z := if (65 <=? b) && (b <=? 90) then b + 32 else b.

Definition hashmap_hash_string (key : list Z) : Z := mix_end (fold_left (fun h b => mix_byte h (schar b)) key 0).

Definition hashmap_hash_string_i (key : list Z) : Z := mix_end (fold_left (fun h b => mix_byte h (tolower (schar b))) key 0).

(** *** The functions of [Util/hash.c], for 64-bit sizes *)

Section hashes.
Context (XXH3_64bits : list Z → Z).

Definition hash_pointer (ptr : Z) : Z := XXH3_64bits (le_bytes 8 ptr).

Definition hash_uint32 (x : Z) : Z := XXH3_64bits (le_bytes 4 x).

(** Four of the eight bytes are read. *)
Definition hash_size_t (x : Z) : Z := XXH3_64bits (take 4 (le_bytes 8 x)).

Definition hash_uint64 (x : Z) : Z := XXH3_64bits (le_bytes 8 x).

Definition hash_buffer (data : list Z) : Z := XXH3_64bits data.

Definition hash_poseidon_node_id (hash : list Z) : Z := XXH3_64bits (take 8 hash).
End hashes.

Definition three_way (a b : Z) : Z := if a =? b then 0 else if b <? a then 1 else -1.

Definition compare_uint32 : Z → Z → Z := three_way.
Definition compare_uint64 : Z → Z → Z := three_way.
Definition compare_size_t : Z → Z → Z := three_way.

Definition duplicate_uint32 (key : Z) : Z := le_decode (le_bytes 4 key).
Definition duplicate_uint64 (key : Z) : Z := le_decode (le_bytes 8 key).
Definition duplicate_size_t (key : Z) : Z := le_decode (le_bytes 8 key).

Section hashmap.
Context {K V : Type} `{!EqDecision K} `{!EqDecision V} (hash : K → Z).

Abbreviation table := (list (option (K * V))).

Record hashmap_base := mkHashmap {
  hm_table_size_init : Z;
  hm_table : table;
  hm_size : Z
}.

Definition table_size (t : table) : Z := zlen t.

Definition HASHMAP_SIZE_MOD (T val : Z) : Z := Z.land (u64 val) (u64 (T - 1)).

Definition HASHMAP_PROBE_NEXT (T index : Z) : Z := HASHMAP_SIZE_MOD T (index + 1).

Definition in_table (t : table) (i : Z) : bool := (0 <=? i) && (i <? table_size t).

(** Reading and writing [hb->table[i]]. *)
Definition slot (t : table) (i : Z) : exec (option (K * V)) :=
  if in_table t i then Ret (mjoin (t !! Z.to_nat i)) else Trap.

Definition put_slot (t : table) (i : Z) (e : option (K * V)) : exec table :=
  if in_table t i then Ret (<[Z.to_nat i := e]> t) else Trap.

(** The shift is one of the type [int]; counting the leading zeros of 0 is
    undefined. *)
Definition hashmap_calc_table_size (init size : Z) : exec Z :=
  let ts := u64 (size + size / 3) in
  if ts <? init then Ret init
  else
    let x := u64 (ts - 1) in
    if x =? 0 then Trap
    else
      let bits := Z.log2 x + 1 in
      if 31 <=? bits then Trap else Ret (Z.shiftl 1 bits).

Definition hashmap_calc_index (T : Z) (key : K) : Z :=
  HASHMAP_SIZE_MOD T (hashmap_hash_default (le_bytes 8 (hash key))).

Fixpoint probe_loop (t : table) (key : K) (find_empty : bool) (n : nat) (index : Z) : exec (option Z) :=
  match n with
  | O => Ret None
  | S n' =>
      e <- slot t index ;;
      match e with
      | None => Ret (if find_empty then Some index else None)
      | Some (k, _) =>
          if bool_decide (key = k) then Ret (Some index)
          else probe_loop t key find_empty n' (HASHMAP_PROBE_NEXT (table_size t) index)
      end
  end.

Definition hashmap_entry_find (t : table) (key : K) (find_empty : bool) : exec (option Z) :=
  probe_loop t key find_empty (length t) (hashmap_calc_index (table_size t) key).

(** [removed] is the slot to fill; the entries that were moved stay in their old
    slot until it is filled or cleared. *)
Fixpoint remove_loop (t : table) (removed : Z) (n : nat) (index : Z) : exec (table * Z) :=
  match n with
  | O => Ret (t, removed)
  | S n' =>
      let T := table_size t in
      e <- slot t index ;;
      match e with
      | None => Ret (t, removed)
      | Some (k, v) =>
          let entry_index := hashmap_calc_index T k in
          if HASHMAP_SIZE_MOD T (removed - entry_index) <? HASHMAP_SIZE_MOD T (index - entry_index)
          then t' <- put_slot t removed (Some (k, v)) ;; remove_loop t' index n' (HASHMAP_PROBE_NEXT T index)
          else remove_loop t removed n' (HASHMAP_PROBE_NEXT T index)
      end
  end.

Definition hashmap_entry_remove (h : hashmap_base) (removed : Z) : exec hashmap_base :=
  let size := u64 (hm_size h - 1) in
  let t := hm_table h in
  '(t1, last) <- remove_loop t removed (Z.to_nat size) (HASHMAP_PROBE_NEXT (table_size t) removed) ;;
  t2 <- put_slot t1 last None ;;
  Ret (mkHashmap (hm_table_size_init h) t2 size).

(** The entries of the old table, in its order. *)
Fixpoint rehash_loop (old : table) (t : table) : exec table :=
  match old with
  | [] => Ret t
  | None :: old' => rehash_loop old' t
  | Some (k, v) :: old' =>
      found <- hashmap_entry_find t k true ;;
      match found with
      | None => Trap
      | Some i => t' <- put_slot t i (Some (k, v)) ;; rehash_loop old' t'
      end
  end.

Definition hashmap_rehash (h : hashmap_base) (T : Z) (calloc : bool) : exec (Z * hashmap_base) :=
  if negb (Z.land T (u64 (T - 1)) =? 0) || (T <? hm_size h) then Trap
  else if negb calloc then Ret (- ENOMEM, h)
  else t <- rehash_loop (hm_table h) (replicate (Z.to_nat T) None) ;; Ret (0, mkHashmap (hm_table_size_init h) t (hm_size h)).

(** ** The interface *)

Definition hashmap_base_init : hashmap_base := mkHashmap HASHMAP_SIZE_DEFAULT [] 0.

Definition hashmap_base_cleanup (h : hashmap_base) : hashmap_base := mkHashmap 0 [] 0.

Definition hashmap_base_reserve (h : hashmap_base) (capacity : Z) (calloc : bool) : exec (Z * hashmap_base) :=
  init <- hashmap_calc_table_size HASHMAP_SIZE_MIN capacity ;;
  let h1 := mkHashmap init (hm_table h) (hm_size h) in
  if table_size (hm_table h) <? init then
    '(r, h2) <- hashmap_rehash h1 init calloc ;;
    Ret (r, if r <? 0 then mkHashmap (hm_table_size_init h) (hm_table h2) (hm_size h2) else h2)
  else Ret (0, h1).

(** The table grows before an entry is added; the growth that failed is reported
    only when no slot is found. *)
Definition grow (h : hashmap_base) (calloc : bool) : exec (Z * hashmap_base) :=
  T <- hashmap_calc_table_size (hm_table_size_init h) (hm_size h) ;;
  if table_size (hm_table h) <? T then hashmap_rehash h T calloc else Ret (0, h).

Definition no_slot (r : Z) : Z := if r <? 0 then r else - EADDRNOTAVAIL.

(** [dup]: whether the copy of the key is served (always, without [key_dup]). *)
Definition hashmap_base_put (h : hashmap_base) (key : option K) (data : option V) (calloc dup : bool)
  : exec (Z * hashmap_base) :=
  match key, data with
  | Some k, Some d =>
      '(r, h1) <- grow h calloc ;;
      found <- hashmap_entry_find (hm_table h1) k true ;;
      match found with
      | None => Ret (no_slot r, h1)
      | Some i =>
          e <- slot (hm_table h1) i ;;
          match e with
          | Some _ => Ret (- EEXIST, h1)
          | None =>
              if negb dup then Ret (- ENOMEM, h1)
              else
                t' <- put_slot (hm_table h1) i (Some (k, d)) ;;
                Ret (0, mkHashmap (hm_table_size_init h1) t' (u64 (hm_size h1 + 1)))
          end
      end
  | _, _ => Ret (- EINVAL, h)
  end.

(** The third component is [*old_data], [None] for NULL. *)
Definition hashmap_base_insert (h : hashmap_base) (key : option K) (data : option V) (calloc dup : bool)
  : exec (Z * hashmap_base * option V) :=
  match key, data with
  | Some k, Some d =>
      '(r, h1) <- grow h calloc ;;
      found <- hashmap_entry_find (hm_table h1) k true ;;
      match found with
      | None => Ret (no_slot r, h1, None)
      | Some i =>
          e <- slot (hm_table h1) i ;;
          match e with
          | Some (k', old) =>
              t' <- put_slot (hm_table h1) i (Some (k', d)) ;;
              Ret (r, mkHashmap (hm_table_size_init h1) t' (hm_size h1),
                   if bool_decide (d = old) then None else Some old)
          | None =>
              if negb dup then Ret (- ENOMEM, h1, None)
              else
                t' <- put_slot (hm_table h1) i (Some (k, d)) ;;
                Ret (1, mkHashmap (hm_table_size_init h1) t' (u64 (hm_size h1 + 1)), None)
          end
      end
  | _, _ => Ret (- EINVAL, h, None)
  end.

Definition hashmap_base_get (h : hashmap_base) (key : option K) : exec (option V) :=
  match key with
  | None => Ret None
  | Some k =>
      found <- hashmap_entry_find (hm_table h) k false ;;
      match found with
      | None => Ret None
      | Some i => e <- slot (hm_table h) i ;; Ret (snd <$> e)
      end
  end.

Definition hashmap_base_remove (h : hashmap_base) (key : option K) : exec (option V * hashmap_base) :=
  match key with
  | None => Ret (None, h)
  | Some k =>
      found <- hashmap_entry_find (hm_table h) k false ;;
      match found with
      | None => Ret (None, h)
      | Some i => e <- slot (hm_table h) i ;; h' <- hashmap_entry_remove h i ;; Ret (snd <$> e, h')
      end
  end.

Definition cleared (t : table) : table := replicate (length t) None.

Definition hashmap_base_clear (h : hashmap_base) : hashmap_base :=
  mkHashmap (hm_table_size_init h) (cleared (hm_table h)) 0.

Definition hashmap_base_reset (h : hashmap_base) (realloc : bool) : hashmap_base :=
  let t := if negb (table_size (hm_table h) =? hm_table_size_init h) && realloc
           then replicate (Z.to_nat (hm_table_size_init h)) None else cleared (hm_table h) in
  mkHashmap (hm_table_size_init h) t 0.

(** ** Iterators *)

(** The first populated slot among [n] slots from [i] on. *)
Fixpoint populated_from (t : table) (n : nat) (i : Z) : exec (option Z) :=
  match n with
  | O => Ret None
  | S n' => e <- slot t i ;; match e with Some _ => Ret (Some i) | None => populated_from t n' (i + 1) end
  end.

Definition hashmap_entry_get_populated (h : hashmap_base) (i : Z) : exec (option Z) :=
  if (0 <? hm_size h) && (0 <=? i) then populated_from (hm_table h) (length (hm_table h) - Z.to_nat i) i else Ret None.

Definition hashmap_base_iter (h : hashmap_base) (pos : option Z) : exec (option Z) := hashmap_entry_get_populated h (default 0 pos).

Definition hashmap_base_iter_valid (h : hashmap_base) (iter : option Z) : exec bool :=
  match iter with
  | None => Ret false
  | Some i => e <- slot (hm_table h) i ;; Ret (bool_decide (is_Some e) && (0 <=? i) && (i <? table_size (hm_table h)))
  end.

Definition hashmap_base_iter_next (h : hashmap_base) (iter : option Z) : exec (option Z) :=
  match iter with None => Ret None | Some i => hashmap_entry_get_populated h (i + 1) end.

Definition hashmap_base_iter_find (h : hashmap_base) (key : option K) : exec (option Z) :=
  match key with None => Ret None | Some k => hashmap_entry_find (hm_table h) k false end.

Definition hashmap_base_iter_remove (h : hashmap_base) (iter : option Z) : exec (option Z * hashmap_base) :=
  match iter with
  | None => Ret (None, h)
  | Some i =>
      e <- slot (hm_table h) i ;;
      h1 <- match e with Some _ => hashmap_entry_remove h i | None => Ret h end ;;
      next <- hashmap_entry_get_populated h1 i ;;
      Ret (next, h1)
  end.

Definition hashmap_base_iter_get_key (h : hashmap_base) (iter : option Z) : exec (option K) :=
  match iter with None => Ret None | Some i => e <- slot (hm_table h) i ;; Ret (fst <$> e) end.

Definition hashmap_base_iter_get_data (h : hashmap_base) (iter : option Z) : exec (option V) :=
  match iter with None => Ret None | Some i => e <- slot (hm_table h) i ;; Ret (snd <$> e) end.

Definition hashmap_base_iter_set_data (h : hashmap_base) (iter : option Z) (data : option V) : exec (Z * hashmap_base) :=
  match iter with
  | None => Ret (- EFAULT, h)
  | Some i =>
      match data with
      | None => Ret (- EINVAL, h)
      | Some d =>
          e <- slot (hm_table h) i ;;
          match e with
          | Some (k, _) =>
              t' <- put_slot (hm_table h) i (Some (k, d)) ;;
              Ret (0, mkHashmap (hm_table_size_init h) t' (hm_size h))
          | None => Ret (0, h)
          end
      end
  end.

(** The entries [hashmap_foreach] visits, with [n] steps at most. *)
Fixpoint foreach_loop (h : hashmap_base) (n : nat) (iter : option Z) : exec (list (K * V)) :=
  match n, iter with
  | S n', Some i =>
      e <- slot (hm_table h) i ;;
      match e with
      | Some e => iter' <- hashmap_base_iter_next h iter ;; l <- foreach_loop h n' iter' ;; Ret (e :: l)
      | None => Ret []
      end
  | _, _ => Ret []
  end.

Definition hashmap_foreach (h : hashmap_base) : exec (list (K * V)) :=
  iter <- hashmap_base_iter h None ;; foreach_loop h (length (hm_table h)) iter.

(** ** Statistics *)

Fixpoint collisions_loop (t : table) (key : K) (n : nat) (i index : Z) : exec Z :=
  match n with
  | O => Ret i
  | S n' =>
      e <- slot t index ;;
      match e with
      | None => Ret 0
      | Some (k, _) =>
          if bool_decide (key = k) then Ret i
          else collisions_loop t key n' (i + 1) (HASHMAP_PROBE_NEXT (table_size t) index)
      end
  end.

Definition hashmap_base_collisions (h : hashmap_base) (key : option K) : exec Z :=
  match key with
  | None => Ret 0
  | Some k => collisions_loop (hm_table h) k (length (hm_table h)) 0 (hashmap_calc_index (table_size (hm_table h)) k)
  end.
End hashmap.

Arguments hashmap_base K V : clear implicits.
Arguments mkHashmap {K V} _ _ _.
Arguments hashmap_base_init {K V}.
