(* ===== verification/HashMapTheorems.v ===== *)
(** * HashMapTheorems: the open-addressing map is a finite map

    Positions of a table are on a circle; [cyc] is the way from one to another.
    An entry is found because every slot on the way from its home position is
    occupied ([probed]); adding keeps that, and so does removal with its backward
    shift as long as the table has a free slot. *)

From stdpp Require Import gmap relations.
From S2P Require Import Prelude Bitset Endian Buffers Refcount HashMap.

(** ** Positions on a circle *)

(** A table size: a power of two that fits. *)
Definition pow2_size (T : Z) : Prop := ∃ n, 0 <= n <= 30 ∧ T = 2 ^ n.

Lemma pow2_size_pos T : pow2_size T → 0 < T <= 2 ^ 30.
Proof.
  intros (n & Hn & ->). split; [by apply Z.pow_pos_nonneg; lia|]. apply Z.pow_le_mono_r; lia.
Qed.

Lemma size_mod T x : pow2_size T → HASHMAP_SIZE_MOD T x = x mod T.
Proof.
  intros HT. pose proof (pow2_size_pos T HT) as Hp. destruct HT as (n & Hn & ->). unfold HASHMAP_SIZE_MOD.
  rewrite (u64_id (2 ^ n - 1)) by (unfold is_u64; lia).
  replace (2 ^ n - 1) with (Z.ones n) by (rewrite Z.ones_equiv; lia). rewrite Z.land_ones by lia.
  unfold u64. apply Z.mod_mod_divide. exists (2 ^ (64 - n)). rewrite <- Z.pow_add_r by lia. f_equal. lia.
Qed.

Definition cyc (T a b : Z) : Z := if a <=? b then b - a else b - a + T.

Lemma size_mod_cyc T a b : pow2_size T → 0 <= a < T → 0 <= b < T → HASHMAP_SIZE_MOD T (b - a) = cyc T a b.
Proof.
  intros HT Ha Hb. rewrite size_mod by done. unfold cyc. destruct (Z.leb_spec a b); [apply Z.mod_small; lia|].
  rewrite <- (Z.mod_add _ 1) by lia. rewrite Z.mod_small; lia.
Qed.

Definition next (T i : Z) : Z := if i + 1 =? T then 0 else i + 1.

Lemma probe_next T i : pow2_size T → 0 <= i < T → HASHMAP_PROBE_NEXT T i = next T i.
Proof.
  intros HT Hi. unfold HASHMAP_PROBE_NEXT, next. rewrite size_mod by done. destruct (Z.eqb_spec (i + 1) T) as [E|].
  - rewrite E. apply Z.mod_same. lia.
  - apply Z.mod_small. lia.
Qed.

Lemma probe_range T i : pow2_size T → 0 <= HASHMAP_PROBE_NEXT T i < T.
Proof. intros HT. unfold HASHMAP_PROBE_NEXT. rewrite size_mod by done. apply Z.mod_pos_bound. apply (pow2_size_pos T HT). Qed.

Ltac circle :=
  unfold cyc, next in *;
  repeat match goal with
  | |- context [if ?c then _ else _] => destruct c eqn:?
  | H : context [if ?c then _ else _] |- _ => destruct c eqn:?
  end; try lia.

Lemma cyc_self T a : cyc T a a = 0.
Proof. unfold cyc. rewrite Z.leb_refl. lia. Qed.

Lemma cyc_range T a b : 0 <= a < T → 0 <= b < T → 0 <= cyc T a b < T.
Proof. intros. circle. Qed.

Lemma cyc_inj T a b c : 0 <= a < T → 0 <= b < T → 0 <= c < T → cyc T a b = cyc T a c → b = c.
Proof. intros. circle. Qed.

Lemma next_range T i : 0 <= i < T → 0 <= next T i < T.
Proof. intros. circle. Qed.

Lemma cyc_next T h i : 0 <= h < T → 0 <= i < T → cyc T h i + 1 <> T → cyc T h (next T i) = cyc T h i + 1.
Proof. intros. circle. Qed.

(** A slot between the hole and an entry whose way passes the hole. *)
Lemma cyc_between T h r i j :
  0 <= h < T → 0 <= r < T → 0 <= i < T → 0 <= j < T → i ≠ j → cyc T r i <= cyc T r j → cyc T h r < cyc T h j →
  cyc T h i < cyc T h j.
Proof. intros. circle. Qed.

Lemma cyc_advance T r i j :
  0 <= r < T → 0 <= i < T → 0 <= j < T → j ≠ i → cyc T r i <= cyc T r j → cyc T r (next T i) <= cyc T r j.
Proof. intros. circle. Qed.

(** ** Tables *)

Section tables.
Context {K V : Type} `{!EqDecision K} `{!EqDecision V} (hash : K → Z).
Abbreviation table := (list (option (K * V))).
Implicit Types (t : table) (k : K) (v : V) (i j p : Z).

Lemma calc_index_range T k : pow2_size T → 0 <= hashmap_calc_index hash T k < T.
Proof. intros HT. unfold hashmap_calc_index. rewrite size_mod by done. apply Z.mod_pos_bound. apply (pow2_size_pos T HT). Qed.

(** What a slot of the table holds, and the table with the slot changed. *)
Definition cell t i : option (K * V) := mjoin (t !! Z.to_nat i).

Definition put_cell t i (e : option (K * V)) : table := <[Z.to_nat i := e]> t.

Lemma slot_in t i : 0 <= i < zlen t → slot t i = Ret (cell t i).
Proof. intros Hi. unfold slot, in_table, table_size. destruct (Z.leb_spec 0 i), (Z.ltb_spec i (zlen t)); [done|lia..]. Qed.

Lemma put_slot_in t i e : 0 <= i < zlen t → put_slot t i e = Ret (put_cell t i e).
Proof. intros Hi. unfold put_slot, in_table, table_size. destruct (Z.leb_spec 0 i), (Z.ltb_spec i (zlen t)); [done|lia..]. Qed.

Lemma slot_put t i j e : 0 <= i < zlen t → 0 <= j → cell (put_cell t i e) j = if decide (i = j) then e else cell t j.
Proof.
  intros Hi Hj. unfold cell, put_cell, zlen in *. case_decide as H.
  - subst. rewrite list_lookup_insert_eq by lia. by destruct e.
  - rewrite list_lookup_insert_ne by lia. done.
Qed.

Lemma put_length t i e : zlen (put_cell t i e) = zlen t.
Proof. unfold zlen, put_cell. by rewrite length_insert. Qed.

Lemma slot_Some_range t i e : 0 <= i → cell t i = Some e → i < zlen t.
Proof.
  unfold cell. intros Hi H. destruct (t !! Z.to_nat i) eqn:E; [|done]. apply lookup_lt_Some in E. unfold zlen. lia.
Qed.

Lemma slot_empty n i : cell (replicate n (@None (K * V))) i = None.
Proof.
  unfold cell. destruct (replicate n None !! Z.to_nat i) eqn:E; [|done]. apply lookup_replicate in E as [-> _]. done.
Qed.

(** The occupied slots. *)
Definition occ t : Z := Z.of_nat (length (omap id t)).

Definition full (e : option (K * V)) : Z := match e with Some _ => 1 | None => 0 end.

Lemma occ_cons e t : occ (e :: t) = full e + occ t.
Proof. unfold occ. destruct e; cbn; lia. Qed.

Lemma occ_app t1 t2 : occ (t1 ++ t2) = occ t1 + occ t2.
Proof. induction t1 as [|e t1 IH]; [done|]. rewrite <- app_comm_cons, !occ_cons, IH. lia. Qed.

Lemma occ_nonneg t : 0 <= occ t.
Proof. unfold occ. lia. Qed.

Lemma occ_insert t n e : (n < length t)%nat → occ (<[n := e]> t) + full (mjoin (t !! n)) = occ t + full e.
Proof.
  revert n. induction t as [|x t IH]; intros n Hl; [cbn in Hl; lia|]. destruct n as [|n].
  - change (<[0%nat := e]> (x :: t)) with (e :: t). change ((x :: t) !! 0%nat) with (Some x). rewrite !occ_cons. cbn. destruct x; cbn; lia.
  - change (<[S n := e]> (x :: t)) with (x :: <[n := e]> t). change ((x :: t) !! S n) with (t !! n). rewrite !occ_cons.
    cbn in Hl. specialize (IH n ltac:(lia)). lia.
Qed.

Lemma occ_put t i e : 0 <= i < zlen t → occ (put_cell t i e) + full (cell t i) = occ t + full e.
Proof. intros Hi. apply occ_insert. unfold zlen in Hi. lia. Qed.

Lemma occ_full t : (∀ x, x ∈ t → x ≠ None) → occ t = zlen t.
Proof.
  induction t as [|[e|] t IH]; intros H; [done| |exfalso; apply (H None); [by left|done]].
  rewrite occ_cons, IH by (intros x Hx; apply H; by right). unfold zlen. cbn. lia.
Qed.

Lemma occ_zero t : occ t = 0 → ∀ x, x ∈ t → x = None.
Proof.
  induction t as [|[e|] t IH]; intros H x Hx; [by apply elem_of_nil in Hx| |].
  - rewrite occ_cons in H. pose proof (occ_nonneg t). cbn in H. lia.
  - rewrite occ_cons in H. apply elem_of_cons in Hx as [->|Hx]; [done|]. apply IH; [cbn in H; lia|done].
Qed.

Lemma occ_replicate n : occ (replicate n None) = 0.
Proof. induction n as [|n IH]; [done|]. cbn [replicate]. by rewrite occ_cons, IH. Qed.

Lemma occ_le t : occ t <= zlen t.
Proof. induction t as [|e t IH]; [done|]. rewrite occ_cons. unfold zlen in *. cbn [length]. destruct e; cbn [full]; lia. Qed.

(** A table that is not full has a free slot. *)
Lemma free_slot t : occ t < zlen t → ∃ i, 0 <= i < zlen t ∧ cell t i = None.
Proof.
  induction t as [|[e|] t IH]; intros H; [done| |by exists 0; split; [unfold zlen in *; cbn in *; lia|]].
  rewrite occ_cons in H. unfold zlen in H. cbn [full length] in H. destruct IH as (i & Hi & E); [unfold zlen; lia|].
  exists (i + 1). unfold zlen in *. cbn [length]. split; [lia|]. unfold cell in *. by replace (Z.to_nat (i + 1)) with (S (Z.to_nat i)) by lia.
Qed.

(** The table read from [a] on. *)
Definition rotated t a : table := drop (Z.to_nat a) t ++ take (Z.to_nat a) t.

Lemma occ_rotated t a : occ (rotated t a) = occ t.
Proof. unfold rotated. rewrite occ_app. rewrite <- (take_drop (Z.to_nat a) t) at 3. rewrite occ_app. lia. Qed.

Lemma slot_rotated t a p : 0 <= a < zlen t → 0 <= p < zlen t → rotated t a !! Z.to_nat (cyc (zlen t) a p) = t !! Z.to_nat p.
Proof.
  intros Ha Hp. unfold rotated, zlen in *. rewrite lookup_app.
  destruct (Z.leb_spec a p).
  - rewrite lookup_drop. replace (Z.to_nat a + Z.to_nat (cyc (Z.of_nat (length t)) a p))%nat with (Z.to_nat p) by circle.
    destruct (t !! Z.to_nat p) eqn:E; [done|]. apply lookup_ge_None in E. lia.
  - rewrite (proj2 (lookup_ge_None (drop _ _) _)) by (rewrite length_drop; circle). rewrite length_drop, lookup_take_lt by circle.
    f_equal. circle.
Qed.

(** When as many slots as are occupied are occupied one after the other, the next
    is free. *)
Lemma run_full t a p :
  0 <= a < zlen t → 0 <= p < zlen t → cyc (zlen t) a p = occ t →
  (∀ q, 0 <= q < zlen t → cyc (zlen t) a q < occ t → cell t q ≠ None) → cell t p = None.
Proof.
  intros Ha Hp Hc Hq. set (c := Z.to_nat (occ t)). pose proof (occ_rotated t a) as Hr. pose proof (occ_nonneg t) as Hn.
  rewrite <- (take_drop c (rotated t a)), occ_app in Hr.
  assert (Hlen : length (rotated t a) = length t) by (unfold rotated; rewrite length_app, length_drop, length_take; unfold zlen in *; lia).
  pose proof (occ_le t) as Hle.
  assert (Hpos : ∀ x, 0 <= x < zlen t → ∃ q, 0 <= q < zlen t ∧ cyc (zlen t) a q = x).
  { intros x Hx. exists (if a + x <? zlen t then a + x else a + x - zlen t). destruct (Z.ltb_spec (a + x) (zlen t)); circle. }
  rewrite (occ_full (take c (rotated t a))) in Hr.
  - assert (Hz : occ (drop c (rotated t a)) = 0) by (unfold zlen in Hr; rewrite length_take in Hr; unfold zlen in *; lia).
    pose proof (slot_rotated t a p Ha Hp) as Es. rewrite Hc in Es.
    destruct (t !! Z.to_nat p) as [e|] eqn:E; [|unfold cell; by rewrite E].
    assert (e = None) as ->.
    { apply (occ_zero _ Hz). apply list_elem_of_lookup. exists 0%nat. rewrite lookup_drop. fold c in Es. by rewrite Nat.add_0_r. }
    unfold cell. by rewrite E.
  - intros x Hx ->. apply list_elem_of_lookup in Hx as (n & Hx). pose proof (lookup_lt_Some _ _ _ Hx) as Hlt. rewrite length_take in Hlt.
    rewrite lookup_take_lt in Hx by lia. destruct (Hpos (Z.of_nat n)) as (q & Hqr & Eq); [unfold zlen in *; lia|].
    apply (Hq q Hqr); [lia|]. pose proof (slot_rotated t a q Ha Hqr) as Es. rewrite Eq, Nat2Z.id, Hx in Es.
    unfold cell. by rewrite <- Es.
Qed.
End tables.

(** ** The table invariant *)

Section maps.
Context {K V : Type} `{!EqDecision K, !Countable K} `{!EqDecision V} (hash : K → Z).
Abbreviation table := (list (option (K * V))).
Implicit Types (t : table) (m : gmap K V) (k : K) (v : V) (i j p : Z).

#[local] Opaque hashmap_calc_index.

Definition home t k : Z := hashmap_calc_index hash (zlen t) k.

Definition on_table t i : Prop := 0 <= i < zlen t.

(** The slot [p] is on the way of [k] to [j]. *)
Definition before t k p j : Prop := cyc (zlen t) (home t k) p < cyc (zlen t) (home t k) j.

Definition probed t : Prop :=
  ∀ j k v p, on_table t j → cell t j = Some (k, v) → on_table t p → before t k p j → cell t p ≠ None.

Definition distinct t : Prop :=
  ∀ i j k v v', on_table t i → on_table t j → cell t i = Some (k, v) → cell t j = Some (k, v') → i = j.

Definition has_entries t m : Prop := ∀ k v, m !! k = Some v ↔ ∃ i, on_table t i ∧ cell t i = Some (k, v).

Record table_ok t m : Prop := {
  to_size : pow2_size (zlen t);
  to_probed : probed t;
  to_distinct : distinct t;
  to_entries : has_entries t m;
  to_count : occ t = Z.of_nat (size m)
}.

Lemma home_range t k : pow2_size (zlen t) → on_table t (home t k).
Proof. intros HT. exact (calc_index_range hash (zlen t) k HT). Qed.

(** Occupied by another key. *)
Definition other t k p : Prop := ∃ k' v', cell t p = Some (k', v') ∧ k' ≠ k.

Definition passed t k j : Prop := ∀ p, on_table t p → before t k p j → other t k p.

Lemma probe_loop_spec t k fe n i :
  pow2_size (zlen t) → on_table t i → Z.of_nat n = zlen t - cyc (zlen t) (home t k) i → passed t k i →
  ∃ o, probe_loop t k fe n i = Ret o ∧
  match o with
  | Some j => on_table t j ∧ passed t k j ∧ ((∃ v, cell t j = Some (k, v)) ∨ (fe = true ∧ cell t j = None))
  | None => (fe = false ∧ ∃ j, on_table t j ∧ passed t k j ∧ cell t j = None) ∨ (∀ p, on_table t p → other t k p)
  end.
Proof.
  intros HT. pose proof (home_range t k HT) as Hh. revert i. induction n as [|n IH]; intros i Hi Hn Hp; cbn [probe_loop].
  - exfalso. pose proof (cyc_range _ _ _ Hh Hi). lia.
  - rewrite slot_in by done. cbn [xbind]. destruct (cell t i) as [[k' v']|] eqn:E.
    + case_bool_decide as Hk; [subst; eexists; split; [done|]; split_and!; [done|done|left; by exists v']|].
      change (table_size t) with (zlen t). rewrite probe_next by done.
      destruct (decide (cyc (zlen t) (home t k) i + 1 = zlen t)) as [Hlast|Hlast].
      * replace n with O by lia. cbn [probe_loop]. eexists. split; [done|]. right. intros p Hpr.
        destruct (decide (p = i)) as [->|Hne]; [by exists k', v'|]. apply Hp; [done|]. unfold before.
        pose proof (cyc_range _ _ _ Hh Hpr). pose proof (cyc_inj _ _ _ _ Hh Hpr Hi). lia.
      * apply IH; [by apply next_range|rewrite cyc_next by done; lia|].
        intros p Hpr Hb. destruct (decide (p = i)) as [->|Hne]; [by exists k', v'|]. apply Hp; [done|].
        unfold before in *. rewrite cyc_next in Hb by done. pose proof (cyc_inj _ _ _ _ Hh Hpr Hi). lia.
    + eexists. split; [done|]. destruct fe; [split_and!; [done|done|by right]|]. left. split; [done|]. by exists i.
Qed.

Lemma find_spec t k fe :
  pow2_size (zlen t) →
  ∃ o, hashmap_entry_find hash t k fe = Ret o ∧
  match o with
  | Some j => on_table t j ∧ passed t k j ∧ ((∃ v, cell t j = Some (k, v)) ∨ (fe = true ∧ cell t j = None))
  | None => (fe = false ∧ ∃ j, on_table t j ∧ passed t k j ∧ cell t j = None) ∨ (∀ p, on_table t p → other t k p)
  end.
Proof.
  intros HT. pose proof (home_range t k HT) as Hh. unfold hashmap_entry_find. change (table_size t) with (zlen t).
  fold (home t k). apply probe_loop_spec; [done|done| |].
  - rewrite cyc_self. unfold zlen. lia.
  - intros p Hp Hb. exfalso. pose proof (cyc_range _ _ _ Hh Hp). unfold before in Hb. rewrite cyc_self in Hb. lia.
Qed.

(** A key of the table is where the probing stops. *)
Lemma passed_key t m k v i j :
  table_ok t m → on_table t i → cell t i = Some (k, v) → on_table t j → passed t k j → cell t j = None → False.
Proof.
  intros Hok Hi Ei Hj Hpas Ej. pose proof (home_range t k (to_size _ _ Hok)) as Hh.
  destruct (Z.lt_trichotomy (cyc (zlen t) (home t k) i) (cyc (zlen t) (home t k) j)) as [H|[H|H]].
  - destruct (Hpas i Hi H) as (k' & v' & E & Hne). congruence.
  - assert (i = j) as -> by exact (cyc_inj _ _ _ _ Hh Hi Hj H). congruence.
  - by apply (to_probed _ _ Hok i k v j).
Qed.

Lemma find_present t m k v fe :
  table_ok t m → m !! k = Some v → ∃ i, on_table t i ∧ cell t i = Some (k, v) ∧ hashmap_entry_find hash t k fe = Ret (Some i).
Proof.
  intros Hok Hm. apply (to_entries _ _ Hok) in Hm as (i & Hi & Ei). exists i. split_and!; [done|done|].
  pose proof (find_spec t k fe (to_size _ _ Hok)) as (o & -> & Hf). destruct o as [j|].
  - destruct Hf as (Hj & Hp & [[v' Ej]|[_ Ej]]); [do 2 f_equal; by apply (to_distinct _ _ Hok j i k v' v)|].
    exfalso. exact (passed_key t m k v i j Hok Hi Ei Hj Hp Ej).
  - exfalso. destruct Hf as [(_ & j & Hj & Hp & Ej)|Hall]; [exact (passed_key t m k v i j Hok Hi Ei Hj Hp Ej)|].
    destruct (Hall i Hi) as (k' & v' & E & Hne). congruence.
Qed.

Lemma find_absent t m k :
  table_ok t m → m !! k = None → hashmap_entry_find hash t k false = Ret None.
Proof.
  intros Hok Hm. pose proof (find_spec t k false (to_size _ _ Hok)) as (o & -> & Hf).
  destruct o as [j|]; [|done].
  destruct Hf as (Hj & _ & [[v Ej]|[? _]]); [|done]. exfalso.
  assert (m !! k = Some v) by (apply (to_entries _ _ Hok); by exists j). congruence.
Qed.

Lemma find_room t m k :
  table_ok t m → m !! k = None → occ t < zlen t →
  ∃ i, on_table t i ∧ cell t i = None ∧ passed t k i ∧ hashmap_entry_find hash t k true = Ret (Some i).
Proof.
  intros Hok Hm Hroom. pose proof (find_spec t k true (to_size _ _ Hok)) as (o & -> & Hf).
  destruct o as [j|].
  - destruct Hf as (Hj & Hp & [[v Ej]|[_ Ej]]); [|by exists j]. exfalso.
    assert (m !! k = Some v) by (apply (to_entries _ _ Hok); by exists j). congruence.
  - exfalso. destruct Hf as [[? _]|Hall]; [done|]. destruct (free_slot t Hroom) as (i & Hi & Ei).
    destruct (Hall i Hi) as (k' & v' & E & _). congruence.
Qed.

(** ** Adding and changing *)

Lemma home_put t i e k : home (put_cell t i e) k = home t k.
Proof. unfold home. by rewrite put_length. Qed.

Lemma add_ok t m k v i :
  table_ok t m → m !! k = None → on_table t i → cell t i = None → passed t k i →
  table_ok (put_cell t i (Some (k, v))) (<[k := v]> m).
Proof.
  intros Hok Hm Hi Ei Hp. destruct Hok as [HT Hpr Hd He Hc]. unfold on_table in *.
  assert (Hs : ∀ j, 0 <= j → cell (put_cell t i (Some (k, v))) j = if decide (i = j) then Some (k, v) else cell t j)
    by (intros j Hj; by apply slot_put).
  assert (Hno : ∀ j v', 0 <= j < zlen t → cell t j ≠ Some (k, v')).
  { intros j v' Hj E. assert (m !! k = Some v') by (apply He; by exists j). congruence. }
  constructor; unfold probed, distinct, has_entries, before, on_table; rewrite ?put_length; try setoid_rewrite home_put.
  - done.
  - intros j k' v' p Hj Ej Hpr' Hb. rewrite (Hs p) by lia. destruct (decide (i = p)); [done|].
    rewrite (Hs j) in Ej by lia. destruct (decide (i = j)) as [<-|].
    + injection Ej as <- <-. destruct (Hp p Hpr' Hb) as (? & ? & E & _). congruence.
    + by apply (Hpr j k' v' p).
  - intros a b k' v1 v2 Ha Hb E1 E2. rewrite (Hs a) in E1 by lia. rewrite (Hs b) in E2 by lia.
    destruct (decide (i = a)) as [<-|], (decide (i = b)) as [<-|]; [done| | |by apply (Hd a b k' v1 v2)].
    + injection E1 as <- <-. by destruct (Hno b v2 Hb).
    + injection E2 as <- <-. by destruct (Hno a v1 Ha).
  - intros k' v'. destruct (decide (k' = k)) as [->|Hne].
    + rewrite lookup_insert_eq. split.
      * intros [= <-]. exists i. split; [done|]. rewrite Hs by lia. by rewrite decide_True.
      * intros (j & Hj & Ej). rewrite (Hs j) in Ej by lia. destruct (decide (i = j)); [by injection Ej as <-|].
        by destruct (Hno j v' Hj).
    + rewrite lookup_insert_ne by done. split.
      * intros H. apply He in H as (j & Hj & Ej). exists j. split; [done|]. rewrite (Hs j) by apply Hj.
        destruct (decide (i = j)); [subst; congruence|done].
      * intros (j & Hj & Ej). rewrite (Hs j) in Ej by lia. destruct (decide (i = j)); [congruence|]. apply He. by exists j.
  - rewrite map_size_insert_None by done. pose proof (occ_put t i (Some (k, v)) Hi) as Ho. rewrite Ei in Ho. cbn in Ho. lia.
Qed.

Lemma change_ok t m k v0 v i :
  table_ok t m → on_table t i → cell t i = Some (k, v0) → table_ok (put_cell t i (Some (k, v))) (<[k := v]> m).
Proof.
  intros Hok Hi Ei. destruct Hok as [HT Hpr Hd He Hc]. unfold on_table in *.
  assert (Hs : ∀ j, 0 <= j → cell (put_cell t i (Some (k, v))) j = if decide (i = j) then Some (k, v) else cell t j)
    by (intros j Hj; by apply slot_put).
  assert (Hm : m !! k = Some v0) by (apply He; by exists i).
  assert (Hk : ∀ j k' v', 0 <= j → cell (put_cell t i (Some (k, v))) j = Some (k', v') → ∃ w, cell t j = Some (k', w)).
  { intros j k' v' Hj. rewrite Hs by done. destruct (decide (i = j)) as [<-|]; [|by eauto]. intros [= <- <-]. by exists v0. }
  constructor; unfold probed, distinct, has_entries, before, on_table; rewrite ?put_length; try setoid_rewrite home_put.
  - done.
  - intros j k' v' p Hj Ej Hp Hb. destruct (Hk j k' v' ltac:(lia) Ej) as [w Ew]. rewrite (Hs p) by lia.
    destruct (decide (i = p)); [done|]. by apply (Hpr j k' w p).
  - intros a b k' v1 v2 Ha Hb E1 E2. destruct (Hk a k' v1 ltac:(lia) E1) as [w1 W1].
    destruct (Hk b k' v2 ltac:(lia) E2) as [w2 W2]. by apply (Hd a b k' w1 w2).
  - intros k' v'. destruct (decide (k' = k)) as [->|Hne].
    + rewrite lookup_insert_eq. split.
      * intros [= <-]. exists i. split; [done|]. rewrite Hs by lia. by rewrite decide_True.
      * intros (j & Hj & Ej). destruct (Hk j k v' ltac:(lia) Ej) as [w Ew].
        assert (j = i) as -> by by apply (Hd j i k w v0). rewrite Hs in Ej by lia. rewrite decide_True in Ej by done.
        by injection Ej as ->.
    + rewrite lookup_insert_ne by done. split.
      * intros H. apply He in H as (j & Hj & Ej). exists j. split; [done|]. rewrite (Hs j) by apply Hj.
        destruct (decide (i = j)); [subst; congruence|done].
      * intros (j & Hj & Ej). rewrite (Hs j) in Ej by lia. destruct (decide (i = j)); [congruence|]. apply He. by exists j.
  - rewrite map_size_insert_Some by eauto. pose proof (occ_put t i (Some (k, v)) Hi) as Ho. rewrite Ei in Ho. cbn in Ho. lia.
Qed.

Lemma empty_ok n : pow2_size (Z.of_nat n) → table_ok (replicate n None) ∅.
Proof.
  intros HT. assert (Hz : zlen (replicate n (@None (K * V))) = Z.of_nat n) by (unfold zlen; by rewrite length_replicate).
  constructor.
  - by rewrite Hz.
  - intros j k v p _ E. by rewrite slot_empty in E.
  - intros i j k v v' _ _ E. by rewrite slot_empty in E.
  - intros k v. rewrite lookup_empty. split; [done|]. intros (i & _ & E). by rewrite slot_empty in E.
  - by rewrite occ_replicate, map_size_empty.
Qed.

(** ** Rehashing *)

(** The entries of the first [n] slots are in the map. *)
Definition holds_prefix t (n : nat) m : Prop := ∀ k v, m !! k = Some v ↔ ∃ i, 0 <= i < Z.of_nat n ∧ cell t i = Some (k, v).

Lemma rehash_loop_ok old m0 suffix n t m :
  suffix = drop n old → (n <= length old)%nat → distinct old → has_entries old m0 → holds_prefix old n m →
  table_ok t m → Z.of_nat (size m0) <= zlen t →
  ∃ t', rehash_loop hash suffix t = Ret t' ∧ zlen t' = zlen t ∧ table_ok t' m0.
Proof.
  intros Es Hn Hd He. revert n t m Es Hn. induction suffix as [|e suffix IH]; intros n t m Es Hn Hp Hok Hsz; cbn [rehash_loop].
  - exists t. split_and!; [done|done|]. assert (n = length old) as ->.
    { apply (f_equal length) in Es. rewrite length_drop in Es. cbn in Es. lia. }
    assert (m = m0) as <-; [|done]. apply map_eq. intros k. apply option_eq. intros v. rewrite (Hp k v), (He k v). done.
  - assert (Hlt : (n < length old)%nat) by (apply (f_equal length) in Es; rewrite length_drop in Es; cbn in Es; lia).
    assert (En : old !! n = Some e) by (rewrite <- (Nat.add_0_r n), <- lookup_drop, <- Es; done).
    assert (Es' : suffix = drop (S n) old) by (rewrite <- Nat.add_1_r, <- drop_drop, <- Es; done).
    assert (Esl : cell old (Z.of_nat n) = e) by (unfold cell; rewrite Nat2Z.id, En; by destruct e).
    assert (Hr : on_table old (Z.of_nat n)) by (unfold on_table, zlen; lia).
    destruct e as [[k v]|].
    + assert (Hnone : m !! k = None).
      { destruct (m !! k) as [v'|] eqn:Em; [|done]. apply Hp in Em as (i & Hi & Ei).
        assert (i = Z.of_nat n); [|lia]. apply (Hd i (Z.of_nat n) k v' v); [unfold on_table, zlen; lia|done|done|done]. }
      assert (Hp' : holds_prefix old (S n) (<[k := v]> m)).
      { intros k' v'. destruct (decide (k' = k)) as [->|Hne].
        - rewrite lookup_insert_eq. split; [intros [= <-]; exists (Z.of_nat n); split; [lia|done]|].
          intros (i & Hi & Ei). f_equal. assert (i = Z.of_nat n) as ->; [|congruence].
          apply (Hd i (Z.of_nat n) k v' v); [unfold on_table, zlen; lia|done|done|done].
        - rewrite lookup_insert_ne by done. rewrite (Hp k' v'). split; intros (i & Hi & Ei); exists i; (split; [|done]); [lia|].
          assert (i ≠ Z.of_nat n) by (intros ->; congruence). lia. }
      assert (Hle : (size (<[k := v]> m) <= size m0)%nat).
      { apply map_subseteq_size, map_subseteq_spec. intros k' v' E. apply Hp' in E as (i & Hi & Ei). apply He. exists i.
        split; [unfold on_table, zlen; lia|done]. }
      rewrite map_size_insert_None in Hle by done.
      destruct (find_room t m k Hok Hnone) as (i & Hi & Ei & Hpas & ->); [rewrite (to_count _ _ Hok); lia|].
      cbn [xbind]. rewrite put_slot_in by done. cbn [xbind].
      destruct (IH (S n) (put_cell t i (Some (k, v))) (<[k := v]> m) Es' ltac:(lia) Hp') as (t' & E' & El & Ht').
      { by apply add_ok. }
      { by rewrite put_length. }
      exists t'. split_and!; [done|by rewrite El, put_length|done].
    + apply (IH (S n) t m Es'); [lia| |done|done]. intros k v. rewrite (Hp k v).
      split; intros (i & Hi & Ei); exists i; (split; [|done]); [lia|]. assert (i ≠ Z.of_nat n) by (intros ->; congruence). lia.
Qed.

Lemma rehash_ok old m0 (T : Z) :
  pow2_size T → distinct old → has_entries old m0 → Z.of_nat (size m0) <= T →
  ∃ t', rehash_loop hash old (replicate (Z.to_nat T) None) = Ret t' ∧ zlen t' = T ∧ table_ok t' m0.
Proof.
  intros HT Hd He Hs. pose proof (pow2_size_pos T HT).
  assert (Hz : zlen (replicate (Z.to_nat T) (@None (K * V))) = T) by (unfold zlen; rewrite length_replicate; lia).
  destruct (rehash_loop_ok old m0 old 0 (replicate (Z.to_nat T) None) ∅) as (t' & E & El & Hok); [done|lia|done|done| | |lia|].
  - intros k v. rewrite lookup_empty. split; [done|]. intros (i & Hi & _). lia.
  - apply empty_ok. by replace (Z.of_nat (Z.to_nat T)) with T by lia.
  - exists t'. split_and!; [done|lia|done].
Qed.

(** ** Removal *)

(** While the entries after the hole [r] are looked at, up to [i]: an entry whose
    way passes the hole is still to come. *)
Record shifting t0 t m (r0 r i : Z) : Prop := {
  sh_length : zlen t = zlen t0;
  sh_same : ∀ p, on_table t p → cell t p = None ↔ cell t0 p = None;
  sh_hole : on_table t r;
  sh_index : on_table t i;
  sh_order : cyc (zlen t) r0 r < cyc (zlen t) r0 i;
  sh_probed : ∀ j k v p, on_table t j → j ≠ r → cell t j = Some (k, v) → on_table t p → before t k p j →
    cell t p ≠ None ∧ (p = r → cyc (zlen t) r i <= cyc (zlen t) r j);
  sh_distinct : ∀ a b k v v', on_table t a → on_table t b → a ≠ r → b ≠ r → cell t a = Some (k, v) → cell t b = Some (k, v') → a = b;
  sh_entries : ∀ k v, m !! k = Some v ↔ ∃ j, on_table t j ∧ j ≠ r ∧ cell t j = Some (k, v);
  sh_count : occ t = Z.of_nat (size m) + 1
}.

(** At a free cell nothing is left to do. *)
Lemma shifting_done t0 t m r0 r i :
  pow2_size (zlen t) → shifting t0 t m r0 r i → cell t r ≠ None → cell t i = None → table_ok (put_cell t r None) m.
Proof.
  intros HT [Hl Hsame Hr Hi Ho Hp Hd He Hc] Hfull Ei.
  assert (Hs : ∀ j, on_table t j → cell (put_cell t r None) j = if decide (r = j) then None else cell t j)
    by (intros j Hj; apply slot_put; [exact Hr|apply Hj]).
  constructor; unfold probed, distinct, has_entries, before, on_table; rewrite ?put_length; try setoid_rewrite home_put.
  - done.
  - intros j k v p Hj Ej Hpr Hb. rewrite (Hs j Hj) in Ej. destruct (decide (r = j)) as [|Hne]; [done|].
    destruct (Hp j k v p Hj ltac:(congruence) Ej Hpr Hb) as [Hocc Hhole]. rewrite (Hs p Hpr).
    destruct (decide (r = p)) as [<-|]; [|done]. exfalso.
    assert (Hij : i ≠ j) by (intros ->; congruence).
    pose proof (cyc_between _ _ _ _ _ (home_range t k HT) Hr Hi Hj Hij (Hhole eq_refl) Hb) as Hbi.
    by destruct (Hp j k v i Hj ltac:(congruence) Ej Hi Hbi).
  - intros a b k v1 v2 Ha Hb E1 E2. rewrite (Hs a Ha) in E1. rewrite (Hs b Hb) in E2.
    destruct (decide (r = a)); [done|]. destruct (decide (r = b)); [done|]. apply (Hd a b k v1 v2); congruence || done.
  - intros k v. rewrite (He k v). split; intros (j & Hj & Ej).
    + destruct Ej as [Hne Ej]. exists j. split; [done|]. rewrite (Hs j Hj). by rewrite decide_False.
    + exists j. rewrite (Hs j Hj) in Ej. destruct (decide (r = j)); [done|]. split_and!; [done|congruence|done].
  - pose proof (occ_put t r None Hr) as H. destruct (cell t r) as [e|] eqn:E; [|done]. cbn in H. lia.
Qed.

(** An entry whose way does not pass the hole stays. *)
Lemma shifting_stay t0 t m r0 r i k v :
  pow2_size (zlen t) → on_table t r0 → cyc (zlen t) r0 i + 1 <> zlen t → shifting t0 t m r0 r i → cell t i = Some (k, v) →
  ¬ before t k r i → shifting t0 t m r0 r (next (zlen t) i).
Proof.
  intros HT Hr0 Hlast [Hl Hsame Hr Hi Ho Hp Hd He Hc] Ei Hb. constructor; try done.
  - by apply next_range.
  - rewrite cyc_next by done. lia.
  - intros j k' v' p Hj Hne Ej Hpr Hb'. destruct (Hp j k' v' p Hj Hne Ej Hpr Hb') as [H1 H2]. split; [done|]. intros ->.
    apply cyc_advance; [done|done|done| |by apply H2]. intros ->. rewrite Ei in Ej. injection Ej as <- <-. done.
Qed.

(** An entry whose way passes the hole fills it, and leaves the hole where it
    was. *)
Lemma shifting_move t0 t m r0 r i k v :
  pow2_size (zlen t) → on_table t r0 → cyc (zlen t) r0 i + 1 <> zlen t → shifting t0 t m r0 r i → cell t r ≠ None →
  cell t i = Some (k, v) → before t k r i →
  shifting t0 (put_cell t r (Some (k, v))) m r0 i (next (zlen t) i).
Proof.
  intros HT Hr0 Hlast [Hl Hsame Hr Hi Ho Hp Hd He Hc] Hfull Ei Hb.
  assert (Hri : r ≠ i) by (intros ->; lia).
  assert (Hs : ∀ j, on_table t j → cell (put_cell t r (Some (k, v))) j = if decide (r = j) then Some (k, v) else cell t j)
    by (intros j Hj; apply slot_put; [exact Hr|apply Hj]).
  constructor; unfold before, on_table; rewrite ?put_length; try setoid_rewrite home_put.
  - done.
  - intros p Hpr. rewrite (Hs p Hpr). destruct (decide (r = p)) as [<-|]; [|by apply Hsame].
    split; [done|]. intros E0. exfalso. by apply Hfull, (Hsame r Hr).
  - done.
  - by apply next_range.
  - rewrite cyc_next by done. lia.
  - intros j k' v' p Hj Hne Ej Hpr Hb'. rewrite (Hs j Hj) in Ej. rewrite (Hs p Hpr).
    assert (Hhole : p = i → cyc (zlen t) i (next (zlen t) i) <= cyc (zlen t) i j).
    { intros _. apply cyc_advance; [done|done|done|done|]. rewrite cyc_self. by apply (cyc_range _ _ _ Hi Hj). }
    destruct (decide (r = j)) as [<-|Hrj].
    + injection Ej as <- <-. unfold before in Hb.
      destruct (Hp i k v p Hi ltac:(congruence) Ei Hpr ltac:(unfold before; lia)) as [H1 _].
      split; [destruct (decide (r = p)); done|done].
    + destruct (Hp j k' v' p Hj ltac:(congruence) Ej Hpr Hb') as [H1 _]. split; [destruct (decide (r = p)); done|done].
  - intros a b k' v1 v2 Ha Hb' Hai Hbi E1 E2. rewrite (Hs a Ha) in E1. rewrite (Hs b Hb') in E2.
    destruct (decide (r = a)) as [<-|], (decide (r = b)) as [<-|]; [done| | |apply (Hd a b k' v1 v2); congruence || done].
    + injection E1 as <- <-. exfalso. apply Hbi. symmetry. apply (Hd i b k v v2); congruence || done.
    + injection E2 as <- <-. exfalso. apply Hai. apply (Hd a i k v1 v); congruence || done.
  - intros k' v'. rewrite (He k' v'). split.
    + intros (j & Hj & Hjr & Ej). destruct (decide (j = i)) as [->|Hji].
      * exists r. split; [exact Hr|split; [done|]]. rewrite (Hs r Hr), decide_True by done. congruence.
      * exists j. split; [exact Hj|split; [done|]]. rewrite (Hs j Hj). by rewrite decide_False.
    + intros (j & Hj & Hji & Ej). rewrite (Hs j Hj) in Ej. destruct (decide (r = j)) as [<-|].
      * exists i. split; [exact Hi|split; congruence].
      * exists j. split; [exact Hj|split; [congruence|done]].
  - pose proof (occ_put t r (Some (k, v)) Hr) as H. destruct (cell t r); [|done]. cbn in H. lia.
Qed.

Lemma remove_loop_ok t0 m r0 n t r i :
  pow2_size (zlen t0) → on_table t0 r0 → occ t0 < zlen t0 → shifting t0 t m r0 r i →
  (∀ q, on_table t0 q → cyc (zlen t0) r0 q < cyc (zlen t0) r0 i → cell t0 q ≠ None) →
  Z.of_nat n + cyc (zlen t0) r0 i = occ t0 →
  ∃ t' r', remove_loop hash t r n i = Ret (t', r') ∧ zlen t' = zlen t0 ∧ on_table t' r' ∧ table_ok (put_cell t' r' None) m.
Proof.
  intros HT Hr0 Hroom. revert t r i. induction n as [|n IH]; intros t r i Hsh Hrun Hn.
  - cbn [remove_loop]. pose proof (sh_length _ _ _ _ _ _ Hsh) as Hl. exists t, r. split; [done|]. split; [done|]. split; [apply Hsh|].
    assert (Ei : cell t i = None).
    { apply (sh_same _ _ _ _ _ _ Hsh); [apply Hsh|]. pose proof (sh_index _ _ _ _ _ _ Hsh) as Hi. unfold on_table in *. rewrite Hl in Hi.
      apply (run_full t0 r0 i Hr0 Hi); [lia|]. intros q Hq Hc. apply Hrun; [done|lia]. }
    assert (Hfull : cell t r ≠ None).
    { intros E. apply (sh_same _ _ _ _ _ _ Hsh) in E; [|apply Hsh]. revert E. apply Hrun.
      - unfold on_table. rewrite <- Hl. apply Hsh.
      - pose proof (sh_order _ _ _ _ _ _ Hsh). by rewrite Hl in *. }
    apply (shifting_done t0 t m r0 r i); [by rewrite Hl|done|done|done].
  - pose proof (sh_length _ _ _ _ _ _ Hsh) as Hl. pose proof (sh_index _ _ _ _ _ _ Hsh) as Hi.
    assert (HT' : pow2_size (zlen t)) by by rewrite Hl. assert (Hr0' : on_table t r0) by (unfold on_table in *; by rewrite Hl).
    assert (Hfull : cell t r ≠ None).
    { intros E. apply (sh_same _ _ _ _ _ _ Hsh) in E; [|apply Hsh]. revert E. apply Hrun.
      - unfold on_table. rewrite <- Hl. apply Hsh.
      - pose proof (sh_order _ _ _ _ _ _ Hsh). by rewrite Hl in *. }
    cbn [remove_loop]. change (table_size t) with (zlen t). rewrite slot_in by done. cbn [xbind]. destruct (cell t i) as [[k v]|] eqn:Ei.
    + assert (Hlast : cyc (zlen t) r0 i + 1 <> zlen t) by (rewrite Hl; lia).
      assert (Hrun' : ∀ q, on_table t0 q → cyc (zlen t0) r0 q < cyc (zlen t0) r0 (next (zlen t) i) → cell t0 q ≠ None).
      { intros q Hq Hc. rewrite Hl in Hc, Hlast. unfold on_table in Hi. rewrite Hl in Hi. rewrite cyc_next in Hc by done.
        destruct (decide (q = i)) as [->|Hne].
        - intros E. assert (cell t i = None); [|congruence]. apply (sh_same _ _ _ _ _ _ Hsh); [apply Hsh|done].
        - apply Hrun; [done|]. pose proof (cyc_inj _ _ _ _ Hr0 Hq Hi). lia. }
      assert (Hn' : Z.of_nat n + cyc (zlen t0) r0 (next (zlen t) i) = occ t0).
      { rewrite Hl in *. rewrite cyc_next by (done || (unfold on_table in Hi; rewrite Hl in Hi; done)). lia. }
      fold (home t k). pose proof (home_range t k HT') as Hh.
      rewrite !size_mod_cyc by (done || apply Hsh). rewrite probe_next by done.
      destruct (Z.ltb_spec (cyc (zlen t) (home t k) r) (cyc (zlen t) (home t k) i)) as [Hb|Hb].
      * rewrite put_slot_in by apply Hsh. cbn [xbind]. apply IH; [by apply (shifting_move t0 t m r0 r i k v)|done|done].
      * apply IH; [apply (shifting_stay t0 t m r0 r i k v); try done; unfold before; lia|done|done].
    + exists t, r. split; [done|]. split; [done|]. split; [apply Hsh|]. by apply (shifting_done t0 t m r0 r i).
Qed.

(** Removing the entry at [r] from a table with a free slot. *)
Lemma remove_ok t m k v r :
  table_ok t m → on_table t r → cell t r = Some (k, v) → occ t < zlen t →
  ∃ t' r', remove_loop hash t r (Z.to_nat (occ t - 1)) (HASHMAP_PROBE_NEXT (zlen t) r) = Ret (t', r') ∧
    zlen t' = zlen t ∧ on_table t' r' ∧ table_ok (put_cell t' r' None) (delete k m).
Proof.
  intros Hok Hr Er Hroom. destruct Hok as [HT Hp Hd He Hc]. rewrite probe_next by done.
  assert (Hm : m !! k = Some v) by (apply He; by exists r).
  assert (Hpos : 0 < occ t) by (pose proof (occ_put t r None Hr) as H; rewrite Er in H; cbn in H; pose proof (occ_nonneg (put_cell t r None)); lia).
  assert (Hcr : cyc (zlen t) r (next (zlen t) r) = 1).
  { rewrite cyc_next, cyc_self; [done|done|done|]. rewrite cyc_self. lia. }
  apply (remove_loop_ok t (delete k m) r); [done|done|done| | |rewrite Hcr; lia].
  - constructor; try done.
    + by apply next_range.
    + rewrite cyc_self, Hcr. lia.
    + intros j k' v' p Hj Hne Ej Hpr Hb. split; [by apply (Hp j k' v' p)|]. intros _. rewrite Hcr.
      pose proof (cyc_range _ _ _ Hr Hj). assert (cyc (zlen t) r j ≠ 0); [|lia]. intros E0. apply Hne.
      apply (cyc_inj (zlen t) r); [done|done|done|]. by rewrite cyc_self.
    + intros a b k' v1 v2 Ha Hb _ _ E1 E2. by apply (Hd a b k' v1 v2).
    + intros k' v'. rewrite lookup_delete_Some, (He k' v'). split.
      * intros (Hne & j & Hj & Ej). exists j. split_and!; [done|intros ->; congruence|done].
      * intros (j & Hj & Hjr & Ej). split; [|by exists j]. intros ->. apply Hjr. by apply (Hd j r k' v' v).
    + rewrite map_size_delete_Some by eauto. pose proof (map_size_non_empty_iff m) as [_ Hs].
      assert (size m ≠ 0%nat) by (intros E; apply map_size_empty_inv in E; subst; by rewrite lookup_empty in Hm). lia.
  - intros q Hq Hcq. rewrite Hcr in Hcq. pose proof (cyc_range _ _ _ Hr Hq).
    assert (q = r) as -> by (apply (cyc_inj (zlen t) r); [done|done|done|rewrite cyc_self; lia]). by rewrite Er.
Qed.

(** ** The interface *)

Definition allocated (T : Z) : Prop := ∃ n, 5 <= n <= 30 ∧ T = 2 ^ n.

Lemma allocated_pow2 T : allocated T → pow2_size T ∧ 32 <= T.
Proof.
  intros (n & Hn & ->). split; [exists n; split; [lia|done]|]. change 32 with (2 ^ 5). apply Z.pow_le_mono_r; lia.
Qed.

(** Sizes the code can compute without shifting an [int] past its width. *)
Definition SIZE_LIMIT : Z := 2 ^ 29.

(** The size computed is a power of two that holds one more entry and a free
    slot. *)
Lemma calc_table_size_ok init size :
  allocated init → 0 <= size <= SIZE_LIMIT →
  ∃ T, hashmap_calc_table_size init size = Ret T ∧ allocated T ∧ size + 1 < T.
Proof.
  intros Hi Hs. unfold SIZE_LIMIT in Hs. change (2 ^ 29) with 536870912 in Hs. pose proof (proj2 (allocated_pow2 init Hi)) as H32.
  pose proof (Z.div_mod size 3 ltac:(lia)) as Hdm. pose proof (Z.mod_pos_bound size 3 ltac:(lia)).
  unfold hashmap_calc_table_size. rewrite (u64_id (size + size / 3)) by (unfold is_u64; lia).
  destruct (Z.ltb_spec (size + size / 3) init) as [Hlt|Hge].
  - exists init. split_and!; [done|done|lia].
  - rewrite u64_id by (unfold is_u64; lia). destruct (Z.eqb_spec (size + size / 3 - 1) 0) as [|Hne]; [lia|].
    set (x := size + size / 3 - 1) in *. assert (Hlog : 4 <= Z.log2 x <= 29).
    { split; [change 4 with (Z.log2 31); apply Z.log2_le_mono; lia|].
      assert (Z.log2 x < 30); [|lia]. apply Z.log2_lt_pow2; lia. }
    pose proof (Z.log2_spec x ltac:(lia)) as [_ Hpow]. rewrite <- Z.add_1_r in Hpow.
    destruct (Z.leb_spec 31 (Z.log2 x + 1)); [lia|]. exists (2 ^ (Z.log2 x + 1)). rewrite Z.shiftl_1_l.
    split_and!; [done|exists (Z.log2 x + 1); split; [lia|done]|lia].
Qed.

(** A map [h] holds [m]: before the first entry without a table, then with a
    table that has a free slot. *)
Record holds (h : hashmap_base K V) m : Prop := {
  ho_init : allocated (hm_table_size_init h);
  ho_size : hm_size h = Z.of_nat (size m);
  ho_table : (hm_table h = [] ∧ m = ∅) ∨ (table_ok (hm_table h) m ∧ Z.of_nat (size m) < zlen (hm_table h))
}.

Lemma init_holds : holds hashmap_base_init ∅.
Proof. constructor; [exists 7; split; [lia|done]|done|by left]. Qed.

Lemma holds_entries h m : holds h m → distinct (hm_table h) ∧ has_entries (hm_table h) m.
Proof.
  intros [_ _ [[E ->]|[Hok _]]]; [|by destruct Hok]. rewrite E. unfold distinct, has_entries, on_table, zlen. cbn [length]. split.
  - intros; lia.
  - intros k v. rewrite lookup_empty. split; [done|]. intros (i & Hi & _). lia.
Qed.

Lemma hashmap_rehash_ok h m T :
  holds h m → allocated T → Z.of_nat (size m) < T →
  ∃ h', hashmap_rehash hash h T true = Ret (0, h') ∧ hm_table_size_init h' = hm_table_size_init h ∧ hm_size h' = hm_size h ∧
    zlen (hm_table h') = T ∧ table_ok (hm_table h') m.
Proof.
  intros Hh HT Hs. destruct (allocated_pow2 T HT) as [Hp H32]. pose proof (pow2_size_pos T Hp). destruct (holds_entries h m Hh) as [Hd He].
  unfold hashmap_rehash. rewrite (ho_size _ _ Hh). destruct (rehash_ok (hm_table h) m T Hp Hd He ltac:(lia)) as (t' & Et & El & Hok).
  assert (Hand : Z.land T (u64 (T - 1)) = 0).
  { replace T with (u64 T) at 1 by (apply u64_id; unfold is_u64; lia). change (HASHMAP_SIZE_MOD T T = 0).
    rewrite size_mod by done. apply Z.mod_same. lia. }
  rewrite Hand. destruct (Z.ltb_spec T (Z.of_nat (size m))); [lia|]. cbn [Z.eqb negb orb]. rewrite Et.
  eexists. split; [reflexivity|]. done.
Qed.

Lemma grow_ok h m :
  holds h m → Z.of_nat (size m) <= SIZE_LIMIT →
  ∃ h', grow hash h true = Ret (0, h') ∧ hm_table_size_init h' = hm_table_size_init h ∧ hm_size h' = hm_size h ∧
    table_ok (hm_table h') m ∧ Z.of_nat (size m) + 1 < zlen (hm_table h').
Proof.
  intros Hh Hs. destruct (calc_table_size_ok (hm_table_size_init h) (Z.of_nat (size m)) (ho_init _ _ Hh) (conj (Nat2Z.is_nonneg _) Hs)) as (T & ET & HT & Hroom).
  unfold grow. rewrite (ho_size _ _ Hh), ET. cbn [xbind]. change (table_size (hm_table h)) with (zlen (hm_table h)).
  destruct (Z.ltb_spec (zlen (hm_table h)) T) as [Hlt|Hge].
  - destruct (hashmap_rehash_ok h m T Hh HT ltac:(lia)) as (h' & Er & E1 & E2 & E3 & Hok).
    exists h'. split_and!; [done|done|by rewrite E2, (ho_size _ _ Hh)|done|lia].
  - exists h. destruct (ho_table _ _ Hh) as [[E ->]|[Hok _]].
    + rewrite E in Hge. unfold zlen in Hge. cbn [length] in Hge. destruct (allocated_pow2 T HT). lia.
    + split_and!; [done|done|by rewrite (ho_size _ _ Hh)|done|lia].
Qed.

Lemma put_ok h m k d :
  holds h m → Z.of_nat (size m) <= SIZE_LIMIT →
  ∃ h', hashmap_base_put hash h (Some k) (Some d) true true = Ret (if m !! k is Some _ then - EEXIST else 0, h') ∧
    holds h' (if m !! k is Some _ then m else <[k := d]> m).
Proof.
  intros Hh Hs. destruct (grow_ok h m Hh Hs) as (h1 & Eg & E1 & E2 & Hok & Hroom). unfold hashmap_base_put. rewrite Eg. cbn [xbind].
  assert (Hi : allocated (hm_table_size_init h1)) by (rewrite E1; apply Hh). rewrite (ho_size _ _ Hh) in E2.
  destruct (m !! k) as [v|] eqn:Em.
  - destruct (find_present _ _ k v true Hok Em) as (i & Hir & Ei & ->). cbn [xbind]. rewrite slot_in by done. rewrite Ei. eexists. split; [done|].
    constructor; [done|done|]. right. split; [done|lia].
  - destruct (find_room _ _ k Hok Em ltac:(rewrite (to_count _ _ Hok); lia)) as (i & Hir & Ei & Hp & ->). cbn [xbind]. rewrite slot_in by done. rewrite Ei. cbn [xbind negb].
    rewrite put_slot_in by done. cbn [xbind].
    eexists. split; [done|]. constructor; cbn [hm_table_size_init hm_size hm_table]; [done| |right; split].
    + rewrite map_size_insert_None by done. rewrite E2, u64_id; [lia|]. unfold is_u64, SIZE_LIMIT in *. lia.
    + by apply add_ok.
    + rewrite put_length, map_size_insert_None by done. lia.
Qed.

Lemma insert_ok h m k d :
  holds h m → Z.of_nat (size m) <= SIZE_LIMIT →
  ∃ h', hashmap_base_insert hash h (Some k) (Some d) true true =
      Ret (if m !! k is Some _ then 0 else 1, h', old ← m !! k; if bool_decide (d = old) then None else Some old) ∧ holds h' (<[k := d]> m).
Proof.
  intros Hh Hs. destruct (grow_ok h m Hh Hs) as (h1 & Eg & E1 & E2 & Hok & Hroom). unfold hashmap_base_insert. rewrite Eg. cbn [xbind].
  assert (Hi : allocated (hm_table_size_init h1)) by (rewrite E1; apply Hh). rewrite (ho_size _ _ Hh) in E2.
  destruct (m !! k) as [v|] eqn:Em.
  - destruct (find_present _ _ k v true Hok Em) as (i & Hir & Ei & ->). cbn [xbind]. rewrite slot_in by done. rewrite Ei. cbn [xbind].
    rewrite put_slot_in by done. cbn [xbind]. eexists. split; [done|].
    assert (Hsz : size (<[k := d]> m) = size m) by (apply map_size_insert_Some; eauto).
    constructor; cbn [hm_table_size_init hm_size hm_table]; [done|lia|right; split].
    + by apply (change_ok _ _ k v).
    + rewrite put_length. lia.
  - destruct (find_room _ _ k Hok Em ltac:(rewrite (to_count _ _ Hok); lia)) as (i & Hir & Ei & Hp & ->). cbn [xbind]. rewrite slot_in by done. rewrite Ei. cbn [xbind negb].
    rewrite put_slot_in by done. cbn [xbind].
    eexists. split; [done|]. constructor; cbn [hm_table_size_init hm_size hm_table]; [done| |right; split].
    + rewrite map_size_insert_None by done. rewrite E2, u64_id; [lia|]. unfold is_u64, SIZE_LIMIT in *. lia.
    + by apply add_ok.
    + rewrite put_length, map_size_insert_None by done. lia.
Qed.

Lemma find_holds h m k :
  holds h m →
  match m !! k with
  | Some v => table_ok (hm_table h) m ∧ Z.of_nat (size m) < zlen (hm_table h) ∧
      ∃ i, on_table (hm_table h) i ∧ cell (hm_table h) i = Some (k, v) ∧ hashmap_entry_find hash (hm_table h) k false = Ret (Some i)
  | None => hashmap_entry_find hash (hm_table h) k false = Ret None
  end.
Proof.
  intros Hh. destruct (ho_table _ _ Hh) as [[E ->]|[Hok Hroom]]; [by rewrite lookup_empty, E|]. destruct (m !! k) as [v|] eqn:Em.
  - split_and!; [done|done|by apply (find_present _ m)].
  - by apply (find_absent _ m).
Qed.

Lemma get_ok h m k : holds h m → hashmap_base_get hash h (Some k) = Ret (m !! k).
Proof.
  intros Hh. pose proof (find_holds h m k Hh) as Hf. unfold hashmap_base_get. destruct (m !! k) as [v|]; [|by rewrite Hf].
  destruct Hf as (_ & _ & i & Hi & Ei & ->). cbn [xbind]. rewrite slot_in by done. by rewrite Ei.
Qed.

Lemma hm_remove_ok h m k :
  holds h m → Z.of_nat (size m) < 2 ^ 64 →
  ∃ h', hashmap_base_remove hash h (Some k) = Ret (m !! k, h') ∧ holds h' (delete k m).
Proof.
  intros Hh Hb. pose proof (find_holds h m k Hh) as Hf. unfold hashmap_base_remove. destruct (m !! k) as [v|] eqn:Em.
  - destruct Hf as (Hok & Hroom & i & Hi & Ei & ->). cbn [xbind]. rewrite slot_in by done. rewrite Ei. cbn [xbind]. pose proof (to_count _ _ Hok) as Hc.
    assert (Hpos : (0 < size m)%nat) by (destruct (decide (size m = 0%nat)) as [E|]; [apply map_size_empty_inv in E; subst; by rewrite lookup_empty in Em|lia]).
    assert (Hd : size (delete k m) = Nat.pred (size m)) by (apply map_size_delete_Some; eauto).
    unfold hashmap_entry_remove. rewrite (ho_size _ _ Hh), u64_id by (unfold is_u64; lia). rewrite <- Hc.
    destruct (remove_ok _ m k v i Hok Hi Ei ltac:(lia)) as (t' & last & Er & Hl & Hlast & Hok').
    change (table_size (hm_table h)) with (zlen (hm_table h)). rewrite Er. cbn [xbind]. rewrite put_slot_in by done. cbn [xbind].
    eexists. split; [done|].
    constructor; cbn [hm_table_size_init hm_size hm_table]; [apply Hh|lia|right; split; [done|]]. rewrite put_length. lia.
  - rewrite Hf. exists h. split; [done|]. by rewrite delete_id.
Qed.

Lemma clear_ok h m : holds h m → holds (hashmap_base_clear h) ∅.
Proof.
  intros Hh. constructor; [apply Hh|done|]. cbn [hashmap_base_clear hm_table]. destruct (ho_table _ _ Hh) as [[-> _]|[Hok Hroom]]; [by left|].
  right. unfold cleared. split; [apply empty_ok, (to_size _ _ Hok)|]. unfold zlen in *. rewrite length_replicate. rewrite map_size_empty. lia.
Qed.

Lemma reset_ok h m realloc : holds h m → holds (hashmap_base_reset h realloc) ∅.
Proof.
  intros Hh. unfold hashmap_base_reset. destruct (negb _ && realloc); [|exact (clear_ok h m Hh)].
  pose proof (allocated_pow2 _ (ho_init _ _ Hh)) as [Hp H32].
  constructor; cbn [hm_table_size_init hm_size hm_table]; [apply Hh|done|]. right. unfold zlen. rewrite length_replicate, map_size_empty.
  split; [|lia]. apply empty_ok. by rewrite Z2Nat.id by lia.
Qed.

Lemma reserve_ok h m n :
  holds h m → 0 <= n <= SIZE_LIMIT → ∃ h', hashmap_base_reserve hash h n true = Ret (0, h') ∧ holds h' m.
Proof.
  intros Hh Hn. unfold hashmap_base_reserve.
  destruct (calc_table_size_ok HASHMAP_SIZE_MIN n ltac:(by exists 5) Hn) as (T & -> & HT & _). cbn [xbind].
  assert (H1 : holds (mkHashmap T (hm_table h) (hm_size h)) m) by (constructor; [done|apply Hh|apply Hh]).
  change (table_size (hm_table h)) with (zlen (hm_table h)). destruct (Z.ltb_spec (zlen (hm_table h)) T) as [Hlt|]; [|by eexists].
  assert (Hs : Z.of_nat (size m) < T).
  { destruct (ho_table _ _ Hh) as [[_ ->]|[_ ?]]; [|lia]. destruct (allocated_pow2 T HT). rewrite map_size_empty. lia. }
  destruct (hashmap_rehash_ok _ m T H1 HT Hs) as (h' & -> & E1 & E2 & E3 & Hok). cbn [xbind]. eexists. split; [done|].
  change (0 <? 0) with false. cbv iota. constructor; [by rewrite E1|rewrite E2; apply H1|right; split; [done|lia]].
Qed.

(** ** Iteration *)

Lemma foreach_from (h : hashmap_base K V) n d i :
  0 < hm_size h → 0 <= i → Z.of_nat d = zlen (hm_table h) - i → (d <= n)%nat →
  (iter <- hashmap_entry_get_populated h i ;; foreach_loop h n iter) = Ret (omap id (drop (Z.to_nat i) (hm_table h))).
Proof.
  intros Hs. revert n i. induction d as [|d IH]; intros n i Hi Hd Hn; unfold hashmap_entry_get_populated;
    (destruct (Z.ltb_spec 0 (hm_size h)); [|lia]); (destruct (Z.leb_spec 0 i); [|lia]); cbn [andb].
  - unfold zlen in Hd. rewrite drop_ge by lia. replace (length (hm_table h) - Z.to_nat i)%nat with O by lia. by destruct n.
  - assert (Hin : 0 <= i < zlen (hm_table h)) by lia. unfold zlen in Hd.
    replace (length (hm_table h) - Z.to_nat i)%nat with (S d) by lia. cbn [populated_from]. rewrite slot_in by done. cbn [xbind].
    destruct (lookup_lt_is_Some_2 (hm_table h) (Z.to_nat i) ltac:(lia)) as [x Ex]. rewrite (drop_S _ x) by done.
    assert (Eslot : cell (hm_table h) i = x) by (unfold cell; rewrite Ex; by destruct x). rewrite Eslot.
    replace (S (Z.to_nat i)) with (Z.to_nat (i + 1)) by lia. destruct x as [e|].
    + destruct n as [|n]; [lia|]. cbn [xbind foreach_loop]. rewrite slot_in by done. rewrite Eslot. cbn [xbind hashmap_base_iter_next].
      change (omap id (Some e :: ?l)) with (e :: omap id l). specialize (IH n (i + 1) ltac:(lia) ltac:(unfold zlen; lia) ltac:(lia)).
      destruct (hashmap_entry_get_populated h (i + 1)) as [iter|]; [|done]. cbn [xbind] in *. by rewrite IH.
    + change (omap id (@None (K * V) :: ?l)) with (omap id l). rewrite <- (IH n (i + 1)) by (unfold zlen; lia). unfold hashmap_entry_get_populated.
      destruct (Z.ltb_spec 0 (hm_size h)); [|lia]. destruct (Z.leb_spec 0 (i + 1)); [|lia]. cbn [andb].
      by replace (length (hm_table h) - Z.to_nat (i + 1))%nat with d by lia.
Qed.

(** Iterating visits every entry once. *)
Lemma foreach_ok h m : holds h m → ∃ l, hashmap_foreach h = Ret l ∧ l ≡ₚ map_to_list m.
Proof.
  intros Hh. unfold hashmap_foreach, hashmap_base_iter. cbn [default]. destruct (decide (m = ∅)) as [->|Hne].
  - exists []. rewrite map_to_list_empty. split; [|done].
    unfold hashmap_entry_get_populated. rewrite (ho_size _ _ Hh), map_size_empty. cbn [Z.of_nat Z.ltb Z.compare andb xbind].
    by destruct (length (hm_table h)).
  - destruct (ho_table _ _ Hh) as [[_ ->]|[Hok Hroom]]; [done|].
    assert (size m ≠ 0%nat) by (intros E; by apply map_size_empty_inv in E).
    rewrite (foreach_from h _ (length (hm_table h))); [|rewrite (ho_size _ _ Hh); lia|lia|unfold zlen; lia|done].
    eexists. split; [done|].
    change (drop (Z.to_nat 0) (hm_table h)) with (hm_table h). symmetry. apply submseteq_length_Permutation.
    + apply NoDup_submseteq; [apply NoDup_map_to_list|]. intros [k v] Hkv. apply elem_of_map_to_list in Hkv.
      apply (to_entries _ _ Hok) in Hkv as (i & _ & Ei). apply list_elem_of_omap. exists (Some (k, v)). split; [|done].
      unfold cell in Ei. destruct (hm_table h !! Z.to_nat i) as [e|] eqn:El; [|done]. cbn in Ei. subst. by apply list_elem_of_lookup_2 in El.
    + rewrite length_map_to_list. pose proof (to_count _ _ Hok) as Hc. unfold occ in Hc. lia.
Qed.

(** ** A map and its specification *)

Inductive map_op := OpPut (k : K) (d : V) | OpInsert (k : K) (d : V) | OpGet (k : K) | OpRemove (k : K) | OpClear | OpReset | OpReserve (n : Z).

Inductive map_out := OutCode (r : Z) | OutInsert (r : Z) (old : option V) | OutData (o : option V) | OutNone.

(** One call, with the memory it asks for. *)
Definition map_call (h : hashmap_base K V) (op : map_op) : exec (map_out * hashmap_base K V) :=
  match op with
  | OpPut k d => '(r, h') <- hashmap_base_put hash h (Some k) (Some d) true true ;; Ret (OutCode r, h')
  | OpInsert k d => '(r, h', old) <- hashmap_base_insert hash h (Some k) (Some d) true true ;; Ret (OutInsert r old, h')
  | OpGet k => o <- hashmap_base_get hash h (Some k) ;; Ret (OutData o, h)
  | OpRemove k => '(o, h') <- hashmap_base_remove hash h (Some k) ;; Ret (OutData o, h')
  | OpClear => Ret (OutNone, hashmap_base_clear h)
  | OpReset => Ret (OutNone, hashmap_base_reset h true)
  | OpReserve n => '(r, h') <- hashmap_base_reserve hash h n true ;; Ret (OutCode r, h')
  end.

Fixpoint map_calls (h : hashmap_base K V) (ops : list map_op) : exec (list map_out * hashmap_base K V) :=
  match ops with
  | [] => Ret ([], h)
  | op :: ops' => '(o, h1) <- map_call h op ;; '(os, h2) <- map_calls h1 ops' ;; Ret (o :: os, h2)
  end.

(** The same on a finite map. *)
Definition spec_call (m : gmap K V) (op : map_op) : map_out * gmap K V :=
  match op with
  | OpPut k d => if m !! k is Some _ then (OutCode (- EEXIST), m) else (OutCode 0, <[k := d]> m)
  | OpInsert k d =>
      (if m !! k is Some old then OutInsert 0 (if bool_decide (d = old) then None else Some old) else OutInsert 1 None, <[k := d]> m)
  | OpGet k => (OutData (m !! k), m)
  | OpRemove k => (OutData (m !! k), delete k m)
  | OpClear | OpReset => (OutNone, ∅)
  | OpReserve _ => (OutCode 0, m)
  end.

Fixpoint spec_calls (m : gmap K V) (ops : list map_op) : list map_out * gmap K V :=
  match ops with
  | [] => ([], m)
  | op :: ops' => let '(o, m1) := spec_call m op in let '(os, m2) := spec_calls m1 ops' in (o :: os, m2)
  end.

(** A capacity the size computation can serve. *)
Definition served (op : map_op) : bool := match op with OpReserve n => (0 <=? n) && (n <=? SIZE_LIMIT) | _ => true end.

Lemma map_call_ok h m op :
  holds h m → Z.of_nat (size m) <= SIZE_LIMIT → served op →
  ∃ h', map_call h op = Ret ((spec_call m op).1, h') ∧ holds h' (spec_call m op).2.
Proof.
  intros Hh Hs Hop. destruct op as [k d|k d|k|k| | |n]; cbn [map_call spec_call].
  - destruct (put_ok h m k d Hh Hs) as (h' & -> & Hh'). cbn [xbind]. exists h'. by destruct (m !! k).
  - destruct (insert_ok h m k d Hh Hs) as (h' & -> & Hh'). cbn [xbind]. exists h'. by destruct (m !! k).
  - exists h. by rewrite (get_ok h m k Hh).
  - destruct (hm_remove_ok h m k Hh) as (h' & -> & Hh'); [unfold SIZE_LIMIT in Hs; lia|]. by exists h'.
  - eexists. split; [done|]. exact (clear_ok h m Hh).
  - eexists. split; [done|]. exact (reset_ok h m true Hh).
  - cbn [served] in Hop. destruct (reserve_ok h m n Hh) as (h' & -> & Hh'); [|by exists h'].
    apply Is_true_true, andb_true_iff in Hop as [H1%Z.leb_le H2%Z.leb_le]. done.
Qed.

Lemma spec_call_size m op : (size (spec_call m op).2 <= S (size m))%nat.
Proof.
  destruct op as [k d|k d|k|k| | |n]; cbn [spec_call snd]; rewrite ?map_size_empty; try lia.
  - destruct (m !! k) eqn:E; cbn [snd]; [lia|]. by rewrite map_size_insert_None.
  - rewrite map_size_insert. case_match; cbn; lia.
  - rewrite map_size_delete. case_match; cbn; lia.
Qed.

Lemma map_calls_ok ops h m :
  holds h m → Z.of_nat (size m) + zlen ops <= SIZE_LIMIT → forallb served ops →
  ∃ h', map_calls h ops = Ret ((spec_calls m ops).1, h') ∧ holds h' (spec_calls m ops).2.
Proof.
  unfold zlen. revert h m. induction ops as [|op ops IH]; intros h m Hh Hs Hops; [by exists h|].
  cbn [forallb length] in Hops, Hs. apply andb_True in Hops as [H1 H2].
  assert (Hs1 : Z.of_nat (size m) <= SIZE_LIMIT) by lia.
  destruct (map_call_ok h m op Hh Hs1 H1) as (h1 & E1 & Hh1). pose proof (spec_call_size m op) as Hgrow.
  cbn [map_calls spec_calls]. rewrite E1. cbn [xbind]. destruct (spec_call m op) as [o m1]. cbn [fst snd] in *.
  assert (Hs2 : Z.of_nat (size m1) + Z.of_nat (length ops) <= SIZE_LIMIT) by lia.
  destruct (IH h1 m1 Hh1 Hs2 H2) as (h2 & -> & Hh2). cbn [xbind]. exists h2. by destruct (spec_calls m1 ops).
Qed.
End maps.

Arguments map_op K V : clear implicits.
Arguments OpPut {K V} _ _.
Arguments OpInsert {K V} _ _.
Arguments OpGet {K V} _.
Arguments OpRemove {K V} _.
Arguments OpClear {K V}.
Arguments OpReset {K V}.
Arguments OpReserve {K V} _.

(** C37. The open-addressing map refines a finite map, as long as memory is served:
    whatever the hash function, a sequence of at most 2^29 calls (put, insert, get,
    remove, clear, reset, and reserve with a capacity of at most 2^29) on a new map, in
    which every allocation and every copy of a key succeeds, answers what a finite
    map answers; no assertion fails and no slot outside the table is read or
    written; and iterating over the map they leave visits the entries of the finite
    map once each. *)
Theorem hashmap_refines_map {K V : Type} `{!EqDecision K, !Countable K, !EqDecision V} (hash : K → Z) (ops : list (map_op K V)) :
  zlen ops <= SIZE_LIMIT → forallb served ops = true →
  ∃ h' l, map_calls hash hashmap_base_init ops = Ret ((spec_calls ∅ ops).1, h') ∧
    hashmap_foreach h' = Ret l ∧ l ≡ₚ map_to_list (spec_calls ∅ ops).2.
Proof.
  intros Hl Hs. destruct (map_calls_ok hash ops hashmap_base_init ∅ (init_holds hash)) as (h' & E & Hh).
  - rewrite map_size_empty. lia.
  - by rewrite Hs.
  - destruct (foreach_ok hash h' _ Hh) as (l & El & Hperm). exists h', l. split_and!; done.
Qed.

(** Keys that all hash alike, removal in the middle of their run. *)
Definition colliding_calls : list (map_op Z Z) :=
  [OpPut 1 10; OpPut 2 20; OpInsert 3 30; OpReserve 10; OpRemove 1; OpPut 2 21; OpInsert 3 31; OpGet 2; OpReset; OpGet 3].

Lemma hashmap_refines_map_witness :
  ∃ h' l, map_calls (fun _ => 5) hashmap_base_init colliding_calls = Ret ((spec_calls ∅ colliding_calls).1, h') ∧
    hashmap_foreach h' = Ret l ∧ l ≡ₚ map_to_list (spec_calls ∅ colliding_calls).2.
Proof. apply (hashmap_refines_map (fun _ => 5) colliding_calls); vm_compute; [discriminate|reflexivity]. Defined.

(** An update while the table cannot grow is done, and reported as -ENOMEM. *)
Definition crowded : exec (hashmap_base Z Z) :=
  '(_, h) <- hashmap_base_reserve id hashmap_base_init 0 true ;;
  '(_, h1) <- map_calls id h (map (fun k => OpPut k k) (seqZ 1 25)) ;; Ret h1.

Example update_reported_failed :
  (h <- crowded ;; '(r, h', old) <- hashmap_base_insert id h (Some 7) (Some 70) false true ;;
   o <- hashmap_base_get id h' (Some 7) ;; Ret (r, old, o)) = Ret (- ENOMEM, Some 7, Some 70).
Proof. vm_compute. reflexivity. Qed.

(** The comparison the timers' map is made with answers 0 on equal keys only, and
    a copied key is the key. *)
Lemma compare_uint64_zero a b : compare_uint64 a b = 0 ↔ a = b.
Proof. unfold compare_uint64, three_way. destruct (Z.eqb_spec a b), (Z.ltb_spec b a); lia. Qed.

Lemma duplicate_uint64_id k : is_u64 k → duplicate_uint64 k = k.
Proof. intros H. unfold duplicate_uint64. rewrite le_decode_bytes. apply Z.mod_small. exact H. Qed.

(** [hash_size_t] does not see the upper half of its argument. *)
Lemma hash_size_t_low (XXH3_64bits : list Z → Z) x y : x mod 2 ^ 32 = y mod 2 ^ 32 → hash_size_t XXH3_64bits x = hash_size_t XXH3_64bits y.
Proof.
  intros E. unfold hash_size_t. f_equal. change (le_bytes 4 x = le_bytes 4 y).
  rewrite <- (le_bytes_decode (le_bytes 4 x)), <- (le_bytes_decode (le_bytes 4 y)) by apply le_bytes_ok.
  rewrite !le_bytes_length, !le_decode_bytes. change (256 ^ Z.of_nat 4) with (2 ^ 32). by rewrite E.
Qed.
