(* ===== verification/MemoryPool.v ===== *)
(** * MemoryPool: fixed-size blocks with per-thread caches

    [src/Util/memory_pool.c]: three static arrays cut into blocks, a free list
    threaded through the blocks of each, and a cache of up to 32 blocks per class
    in every thread.  The three caches of the source ([tls_small], [tls_medium],
    [tls_large]) and the three branches on them are one list indexed by the class
    here.  Memory is the first word of every block; addresses of the arrays and
    what [malloc] returns are arguments. *)

From stdpp Require Import gmap.
From S2P Require Import Prelude.

Definition MEMORY_POOL_SMALL_SIZE : Z := 64.
Definition MEMORY_POOL_MEDIUM_SIZE : Z := 256.
Definition MEMORY_POOL_LARGE_SIZE : Z := 1024.
Definition MEMORY_POOL_SMALL_COUNT : Z := 10000.
Definition MEMORY_POOL_MEDIUM_COUNT : Z := 5000.
Definition MEMORY_POOL_LARGE_COUNT : Z := 2000.
Definition TLS_CACHE_SIZE : Z := 32.

(** The first words of blocks: [block->next]. *)
Abbreviation words := (gmap Z Z).

Record memory_pool_class_t := mkClass {
  mc_free_list : Z;
  mc_pool_start : Z;
  mc_block_size : Z;
  mc_total_blocks : Z;
  mc_free_blocks : Z
}.

(** Counters per class, and those of the fallback. *)
Record memory_pool_stats_t := mkStats {
  ms_allocs : list Z;
  ms_pool_hits : list Z;
  ms_frees : list Z;
  ms_fallback_allocs : Z;
  ms_fallback_frees : Z
}.

Record memory_pool_t := mkMemPool {
  mp_classes : list memory_pool_class_t;
  mp_stats : memory_pool_stats_t;
  mp_initialized : bool;
  mp_words : words
}.

Definition mp_with_stats (p : memory_pool_t) (s : memory_pool_stats_t) : memory_pool_t :=
  mkMemPool (mp_classes p) s (mp_initialized p) (mp_words p).

Definition bump (k : nat) (l : list Z) : list Z := alter (fun n => u64 (n + 1)) k l.

Definition count_alloc (k : nat) (p : memory_pool_t) : memory_pool_t :=
  let s := mp_stats p in
  mp_with_stats p (mkStats (bump k (ms_allocs s)) (bump k (ms_pool_hits s)) (ms_frees s) (ms_fallback_allocs s) (ms_fallback_frees s)).
Definition count_free (k : nat) (p : memory_pool_t) : memory_pool_t :=
  let s := mp_stats p in
  mp_with_stats p (mkStats (ms_allocs s) (ms_pool_hits s) (bump k (ms_frees s)) (ms_fallback_allocs s) (ms_fallback_frees s)).
Definition count_fallback_alloc (p : memory_pool_t) : memory_pool_t :=
  let s := mp_stats p in
  mp_with_stats p (mkStats (ms_allocs s) (ms_pool_hits s) (ms_frees s) (u64 (ms_fallback_allocs s + 1)) (ms_fallback_frees s)).
Definition count_fallback_free (p : memory_pool_t) : memory_pool_t :=
  let s := mp_stats p in
  mp_with_stats p (mkStats (ms_allocs s) (ms_pool_hits s) (ms_frees s) (ms_fallback_allocs s) (u64 (ms_fallback_frees s + 1))).

(** ** One class *)

(** The loop that links block [i] to block [i + 1]. *)
Fixpoint link_blocks (n : nat) (pool block_size current : Z) (i : Z) (w : words) : words * Z :=
  match n with
  | O => (w, current)
  | S n' => let next := pool + (i + 1) * block_size in link_blocks n' pool block_size next (i + 1) (<[current := next]> w)
  end.

Definition memory_pool_class_init (pool block_size total_blocks : Z) (w : words) : memory_pool_class_t * words :=
  let '(w1, current) := link_blocks (Z.to_nat (total_blocks - 1)) pool block_size pool 0 w in
  (mkClass pool pool block_size total_blocks total_blocks, <[current := 0]> w1).

(** [None]: the pool is exhausted. *)
Definition memory_pool_class_alloc (cls : memory_pool_class_t) (w : words) : exec (option (Z * memory_pool_class_t)) :=
  if mc_free_list cls =? 0 then Ret None
  else
    match w !! mc_free_list cls with
    | None => Trap
    | Some next =>
        Ret (Some (mc_free_list cls, mkClass next (mc_pool_start cls) (mc_block_size cls) (mc_total_blocks cls) (mc_free_blocks cls - 1)))
    end.

Definition memory_pool_ptr_in_class (cls : memory_pool_class_t) (ptr : Z) : bool :=
  (mc_pool_start cls <=? ptr) && (ptr <? mc_pool_start cls + mc_block_size cls * mc_total_blocks cls).

(** [None]: the pointer is not in this pool. *)
Definition memory_pool_class_free (cls : memory_pool_class_t) (ptr : Z) (w : words) : option (memory_pool_class_t * words) :=
  if negb (memory_pool_ptr_in_class cls ptr) then None
  else
    Some (mkClass ptr (mc_pool_start cls) (mc_block_size cls) (mc_total_blocks cls) (mc_free_blocks cls + 1),
          <[ptr := mc_free_list cls]> w).

Definition memory_pool_ptr_in_any_pool (p : memory_pool_t) (ptr : Z) : bool :=
  existsb (fun cls => memory_pool_ptr_in_class cls ptr) (mp_classes p).

(** [3] stands for [MEMORY_POOL_FALLBACK]. *)
Definition memory_pool_get_class (size : Z) : nat :=
  if size <=? MEMORY_POOL_SMALL_SIZE then 0%nat
  else if size <=? MEMORY_POOL_MEDIUM_SIZE then 1%nat
  else if size <=? MEMORY_POOL_LARGE_SIZE then 2%nat
  else 3%nat.

(** ** The pool *)

Definition mp_with_class (p : memory_pool_t) (k : nat) (cls : memory_pool_class_t) (w : words) : memory_pool_t :=
  mkMemPool (<[k := cls]> (mp_classes p)) (mp_stats p) (mp_initialized p) w.

Definition memory_pool_init (p : memory_pool_t) (small medium large : Z) : memory_pool_t :=
  if mp_initialized p then p
  else
    let '(c0, w0) := memory_pool_class_init small MEMORY_POOL_SMALL_SIZE MEMORY_POOL_SMALL_COUNT (mp_words p) in
    let '(c1, w1) := memory_pool_class_init medium MEMORY_POOL_MEDIUM_SIZE MEMORY_POOL_MEDIUM_COUNT w0 in
    let '(c2, w2) := memory_pool_class_init large MEMORY_POOL_LARGE_SIZE MEMORY_POOL_LARGE_COUNT w1 in
    mkMemPool [c0; c1; c2] (mkStats [0; 0; 0] [0; 0; 0] [0; 0; 0] 0 0) true w2.

(** The caches of a thread, last freed first. *)
Abbreviation tls_caches := (list (list Z)).
Definition tls_cache_init : tls_caches := [[]; []; []].

(** [malloced] is what [malloc] returns if it is called. *)
Definition memory_pool_alloc (p : memory_pool_t) (tls : tls_caches) (size malloced : Z) : exec (Z * memory_pool_t * tls_caches) :=
  if negb (mp_initialized p) then Ret (malloced, p, tls)
  else
    let k := memory_pool_get_class size in
    match tls !! k with
    | Some (ptr :: rest) => Ret (ptr, count_alloc k p, <[k := rest]> tls)
    | _ =>
        match mp_classes p !! k with
        | None => Ret (malloced, count_fallback_alloc p, tls)
        | Some cls =>
            r <- memory_pool_class_alloc cls (mp_words p) ;;
            match r with
            | Some (ptr, cls') => Ret (ptr, count_alloc k (mp_with_class p k cls' (mp_words p)), tls)
            | None => Ret (malloced, count_fallback_alloc p, tls)
            end
        end
    end.

(** The loop over the classes. *)
Fixpoint free_to_classes (n : nat) (k : nat) (p : memory_pool_t) (ptr : Z) : option memory_pool_t :=
  match n with
  | O => None
  | S n' =>
      match mp_classes p !! k with
      | None => None
      | Some cls =>
          match memory_pool_class_free cls ptr (mp_words p) with
          | Some (cls', w) => Some (count_free k (mp_with_class p k cls' w))
          | None => free_to_classes n' (S k) p ptr
          end
      end
  end.

(** The last component is the pointer given to [free], if any. *)
Definition memory_pool_free (p : memory_pool_t) (tls : tls_caches) (ptr size : Z) : memory_pool_t * tls_caches * option Z :=
  if ptr =? 0 then (p, tls, None)
  else if negb (mp_initialized p) then (p, tls, Some ptr)
  else
    let k := memory_pool_get_class size in
    let fallback := (count_fallback_free p, tls, Some ptr) in
    let to_class := match free_to_classes 3 0 p ptr with Some p' => (p', tls, None) | None => fallback end in
    if memory_pool_ptr_in_any_pool p ptr then
      match tls !! k with
      | Some cache => if zlen cache <? TLS_CACHE_SIZE then (count_free k p, <[k := ptr :: cache]> tls, None) else to_class
      | None => to_class
      end
    else fallback.

(** Draining one cache into its class; a pointer the class does not own is
    dropped. *)
Fixpoint drain_cache (k : nat) (p : memory_pool_t) (cache : list Z) : memory_pool_t :=
  match cache with
  | [] => p
  | ptr :: rest =>
      let p1 := match mp_classes p !! k with
                | Some cls => match memory_pool_class_free cls ptr (mp_words p) with
                              | Some (cls', w) => mp_with_class p k cls' w
                              | None => p
                              end
                | None => p
                end in
      drain_cache k p1 rest
  end.

Definition memory_pool_tls_drain (p : memory_pool_t) (tls : tls_caches) : memory_pool_t * tls_caches :=
  if negb (mp_initialized p) then (p, tls)
  else
    let p0 := drain_cache 0 p (default [] (tls !! 0%nat)) in
    let p1 := drain_cache 1 p0 (default [] (tls !! 1%nat)) in
    (drain_cache 2 p1 (default [] (tls !! 2%nat)), tls_cache_init).

Definition memory_pool_destroy (p : memory_pool_t) (tls : tls_caches) : memory_pool_t * tls_caches :=
  if negb (mp_initialized p) then (p, tls)
  else
    let '(p1, tls1) := memory_pool_tls_drain p tls in
    (mkMemPool (mp_classes p1) (mp_stats p1) false (mp_words p1), tls1).

Definition memory_pool_get_stats (p : memory_pool_t) : memory_pool_stats_t := mp_stats p.

Definition memory_pool_reset_stats (p : memory_pool_t) : memory_pool_t :=
  mp_with_stats p (mkStats [0; 0; 0] [0; 0; 0] [0; 0; 0] 0 0).
