(* ===== verification/MemoryPoolTheorems.v ===== *)
(** * MemoryPoolTheorems: no block is handed out twice

    The blocks of every class are at any time divided between the free list, the
    threads' caches and the callers; allocation returns a block that is large
    enough and that nobody holds. *)

From stdpp Require Import gmap.
From S2P Require Import Prelude MemoryPool.

(** ** The free list *)

Fixpoint chain (w : words) (head : Z) (l : list Z) : Prop :=
  match l with
  | [] => head = 0
  | a :: l' => head = a ∧ a ≠ 0 ∧ ∃ next, w !! a = Some next ∧ chain w next l'
  end.

Lemma chain_frame w w' head l : (∀ a, a ∈ l → w' !! a = w !! a) → chain w head l → chain w' head l.
Proof.
  revert head. induction l as [|a l IH]; intros head Hw; [done|]. cbn. intros (-> & Ha & next & Hn & Hc).
  split_and!; [done|done|]. exists next. split; [by rewrite Hw by apply list_elem_of_here|].
  apply IH; [|done]. intros b Hb. apply Hw. by apply list_elem_of_further.
Qed.

Definition blocks (cls : memory_pool_class_t) : list Z :=
  map (fun i => mc_pool_start cls + Z.of_nat i * mc_block_size cls) (seq 0 (Z.to_nat (mc_total_blocks cls))).

Definition same_array (cls cls' : memory_pool_class_t) : Prop :=
  mc_pool_start cls' = mc_pool_start cls ∧ mc_block_size cls' = mc_block_size cls ∧ mc_total_blocks cls' = mc_total_blocks cls.

Lemma same_array_facts cls cls' :
  same_array cls cls' → blocks cls' = blocks cls ∧ ∀ p, memory_pool_ptr_in_class cls' p = memory_pool_ptr_in_class cls p.
Proof. intros (E1 & E2 & E3). unfold blocks, memory_pool_ptr_in_class. by rewrite E1, E2, E3. Qed.

Lemma blocks_nodup cls : 0 < mc_block_size cls → base.NoDup (blocks cls).
Proof.
  intros H. unfold blocks. change (map ?f) with (fmap (M := list) f). apply NoDup_fmap_2_strong; [|apply NoDup_seq].
  intros i j _ _ E. nia.
Qed.

Lemma blocks_in_class cls a : 0 < mc_block_size cls → a ∈ blocks cls → memory_pool_ptr_in_class cls a = true.
Proof.
  intros H (i & -> & Hi%elem_of_seq)%list_elem_of_fmap. unfold memory_pool_ptr_in_class.
  apply andb_true_iff. rewrite Z.leb_le, Z.ltb_lt. nia.
Qed.

(** The blocks of a class: free, or with [rest]. *)
Definition class_ok (w : words) (cls : memory_pool_class_t) (rest : list Z) : Prop :=
  ∃ free, chain w (mc_free_list cls) free ∧ mc_free_blocks cls = zlen free ∧ blocks cls ≡ₚ free ++ rest.

Lemma class_ok_frame w w' cls rest :
  0 < mc_block_size cls → (∀ a, memory_pool_ptr_in_class cls a = true → a ∉ rest → w' !! a = w !! a) →
  class_ok w cls rest → class_ok w' cls rest.
Proof.
  intros Hs Hw (free & Hc & Hf & Hb). exists free. split_and!; [|done|done]. eapply chain_frame; [|done]. intros a Ha. apply Hw.
  - apply blocks_in_class; [done|]. rewrite Hb. apply elem_of_app. by left.
  - pose proof (blocks_nodup cls Hs) as Hn. rewrite Hb in Hn. apply list.NoDup_app in Hn as (_ & Hn & _). by apply Hn.
Qed.

Lemma class_ok_perm w cls rest rest' : rest ≡ₚ rest' → class_ok w cls rest → class_ok w cls rest'.
Proof. intros E (free & Hc & Hf & Hb). exists free. by rewrite <- E. Qed.

Lemma class_alloc_ok w cls rest :
  class_ok w cls rest →
  (memory_pool_class_alloc cls w = Ret None ∧ mc_free_blocks cls = 0) ∨
  ∃ ptr cls', memory_pool_class_alloc cls w = Ret (Some (ptr, cls')) ∧ same_array cls cls' ∧ class_ok w cls' (ptr :: rest) ∧ ptr ≠ 0.
Proof.
  intros (free & Hc & Hf & Hb). unfold memory_pool_class_alloc. destruct free as [|a free]; cbn in Hc.
  - left. rewrite Hc. split; [done|]. by rewrite Hf.
  - right. destruct Hc as (-> & Ha & next & Hn & Hc). rewrite (proj2 (Z.eqb_neq _ _)) by done. rewrite Hn.
    eexists _, _. split; [done|]. split_and!; [done| |done]. exists free. split_and!; [done| |].
    + cbn. rewrite Hf, zlen_cons. lia.
    + change (blocks _) with (blocks cls). rewrite Hb. cbn. apply Permutation_middle.
Qed.

Lemma class_free_ok w cls ptr rest :
  0 < mc_block_size cls → class_ok w cls (ptr :: rest) → ptr ≠ 0 →
  ∃ cls', memory_pool_class_free cls ptr w = Some (cls', <[ptr := mc_free_list cls]> w) ∧ same_array cls cls' ∧
    class_ok (<[ptr := mc_free_list cls]> w) cls' rest.
Proof.
  intros Hs (free & Hc & Hf & Hb) Hz. unfold memory_pool_class_free.
  assert (Hin : ptr ∈ blocks cls) by (rewrite Hb; apply elem_of_app; right; apply list_elem_of_here).
  rewrite (blocks_in_class cls ptr Hs Hin). cbn [negb]. eexists. split; [done|]. split; [done|].
  pose proof (blocks_nodup cls Hs) as Hn. rewrite Hb in Hn. apply list.NoDup_app in Hn as (_ & Hn & _).
  exists (ptr :: free). split_and!.
  - cbn [chain mc_free_list]. split_and!; [done|done|]. exists (mc_free_list cls). split; [by rewrite lookup_insert_eq|].
    eapply chain_frame; [|done]. intros a Ha. rewrite lookup_insert_ne; [done|]. intros ->. apply (Hn a Ha). apply list_elem_of_here.
  - cbn [mc_free_blocks]. rewrite Hf, zlen_cons. done.
  - change (blocks _) with (blocks cls). rewrite Hb. cbn. symmetry. apply Permutation_middle.
Qed.

(** ** Initialisation *)

Lemma link_blocks_spec n pool size i w :
  0 < pool → 0 < size → 0 <= i →
  let '(w', last) := link_blocks n pool size (pool + i * size) i w in
  last = pool + (i + Z.of_nat n) * size ∧
  (∀ j, i <= j < i + Z.of_nat n → w' !! (pool + j * size) = Some (pool + (j + 1) * size)) ∧
  (∀ a, (∀ j, i <= j < i + Z.of_nat n → a ≠ pool + j * size) → w' !! a = w !! a).
Proof.
  intros Hp Hs. revert i w. induction n as [|n IH]; intros i w Hi; cbn [link_blocks].
  - split_and!; [f_equal; lia|lia|done].
  - specialize (IH (i + 1) (<[pool + i * size := pool + (i + 1) * size]> w) ltac:(lia)).
    destruct (link_blocks n pool size (pool + (i + 1) * size) (i + 1) _) as [w' last]. destruct IH as (El & Hin & Hout). split_and!.
    + rewrite El. lia.
    + intros j Hj. destruct (decide (j = i)) as [->|Hne]; [|apply Hin; lia].
      rewrite Hout by (intros j' Hj' E; nia). by rewrite lookup_insert_eq.
    + intros a Ha. rewrite Hout by (intros j Hj; apply Ha; lia). rewrite lookup_insert_ne; [done|].
      intros E. apply (Ha i); [lia|done].
Qed.

Lemma chain_linked (w : words) pool size n i :
  0 < pool → 0 < size → 0 <= i →
  (∀ j, i <= j < i + Z.of_nat n → w !! (pool + j * size) = Some (pool + (j + 1) * size)) →
  w !! (pool + (i + Z.of_nat n) * size) = Some 0 →
  chain w (pool + i * size) (map (fun k => pool + Z.of_nat k * size) (seq (Z.to_nat i) (S n))).
Proof.
  intros Hp Hs. revert i. induction n as [|n IH]; intros i Hi Hin Hl.
  - cbn. rewrite Z2Nat.id by lia. split_and!; [done|nia|]. exists 0. split; [|done]. by rewrite Z.add_0_r in Hl.
  - change (seq (Z.to_nat i) (S (S n))) with (Z.to_nat i :: seq (S (Z.to_nat i)) (S n)). cbn [map chain]. rewrite Z2Nat.id by lia.
    split_and!; [done|nia|]. exists (pool + (i + 1) * size). split; [apply Hin; lia|].
    replace (S (Z.to_nat i)) with (Z.to_nat (i + 1)) by lia. apply IH; [lia|intros j Hj; apply Hin; lia|].
    by replace (i + 1 + Z.of_nat n) with (i + Z.of_nat (S n)) by lia.
Qed.

Lemma class_init_ok pool size total w :
  0 < pool → 0 < size → 0 < total →
  let '(cls, w') := memory_pool_class_init pool size total w in
  cls = mkClass pool pool size total total ∧ class_ok w' cls [] ∧
  ∀ a, memory_pool_ptr_in_class cls a = false → w' !! a = w !! a.
Proof.
  intros Hp Hs Ht. unfold memory_pool_class_init.
  pose proof (link_blocks_spec (Z.to_nat (total - 1)) pool size 0 w Hp Hs ltac:(lia)) as H.
  rewrite Z.mul_0_l, Z.add_0_r in H. destruct (link_blocks _ _ _ _ _ _) as [w1 last]. destruct H as (El & Hin & Hout).
  rewrite Z2Nat.id, Z.add_0_l in * by lia. subst last. split_and!; [done| |].
  - exists (blocks (mkClass pool pool size total total)). split_and!; [|unfold zlen, blocks; cbn; rewrite length_map, length_seq; lia|by rewrite app_nil_r].
    cbn [mc_free_list]. unfold blocks. cbn [mc_pool_start mc_block_size mc_total_blocks].
    pose proof (chain_linked (<[pool + (total - 1) * size := 0]> w1) pool size (Z.to_nat (total - 1)) 0 Hp Hs ltac:(lia)) as Hc.
    rewrite Z.mul_0_l, Z.add_0_r in Hc. replace (Z.to_nat total) with (S (Z.to_nat (total - 1))) by lia. apply Hc.
    + intros j Hj. rewrite lookup_insert_ne by nia. apply Hin. lia.
    + rewrite Z2Nat.id, Z.add_0_l by lia. by rewrite lookup_insert_eq.
  - intros a Ha. assert (Hr : ∀ j, 0 <= j < total → a ≠ pool + j * size).
    { intros j Hj ->. unfold memory_pool_ptr_in_class in Ha. cbn in Ha.
      rewrite (proj2 (Z.leb_le _ _)), (proj2 (Z.ltb_lt _ _)) in Ha by nia. done. }
    rewrite lookup_insert_ne by (intros E; apply (Hr (total - 1)); [lia|done]). apply Hout. intros j Hj. apply Hr. lia.
Qed.

(** ** Threads and callers *)

(** The pool, the caches of the threads, and the pointers callers hold with the
    sizes they asked for. *)
Record pool_system := mkSystem {
  sy_pool : memory_pool_t;
  sy_threads : list tls_caches;
  sy_out : list (Z * Z)
}.

Definition cache (k : nat) (t : tls_caches) : list Z := default [] (t !! k).

(** What threads and callers hold of one class. *)
Definition in_use (k : nat) (cls : memory_pool_class_t) (s : pool_system) : list Z :=
  flat_map (cache k) (sy_threads s) ++ List.filter (memory_pool_ptr_in_class cls) (map fst (sy_out s)).

Definition class_size (k : nat) : Z := nth k [MEMORY_POOL_SMALL_SIZE; MEMORY_POOL_MEDIUM_SIZE; MEMORY_POOL_LARGE_SIZE] 0.

Definition disjoint_arrays (l : list memory_pool_class_t) : Prop :=
  ∀ j k cj ck a, l !! j = Some cj → l !! k = Some ck →
    memory_pool_ptr_in_class cj a = true → memory_pool_ptr_in_class ck a = true → j = k.

Record system_ok (s : pool_system) : Prop := {
  so_init : mp_initialized (sy_pool s) = true;
  so_three : length (mp_classes (sy_pool s)) = 3%nat;
  so_sizes : ∀ k cls, mp_classes (sy_pool s) !! k = Some cls → mc_block_size cls = class_size k;
  so_disjoint : disjoint_arrays (mp_classes (sy_pool s));
  so_blocks : ∀ k cls, mp_classes (sy_pool s) !! k = Some cls → class_ok (mp_words (sy_pool s)) cls (in_use k cls s);
  so_caches : Forall (fun t => length t = 3%nat ∧ Forall (fun c => zlen c <= TLS_CACHE_SIZE) t) (sy_threads s);
  so_out : Forall (fun e => e.1 ≠ 0 ∧ ∀ k cls, mp_classes (sy_pool s) !! k = Some cls →
              memory_pool_ptr_in_class cls e.1 = true → memory_pool_get_class e.2 = k) (sy_out s);
  so_distinct : base.NoDup (map fst (sy_out s));
  so_nonzero : ∀ k cls, mp_classes (sy_pool s) !! k = Some cls → 0 < mc_pool_start cls
}.

Lemma class_size_pos k : (k < 3)%nat → 0 < class_size k.
Proof. intros H. unfold class_size. destruct k as [|[|[|k]]]; [by vm_compute..|lia]. Qed.

Lemma so_pos s k cls : system_ok s → mp_classes (sy_pool s) !! k = Some cls → 0 < mc_block_size cls.
Proof.
  intros H Hk. rewrite (so_sizes s H k cls Hk). apply class_size_pos. rewrite <- (so_three s H). by eapply lookup_lt_Some.
Qed.

(** What is in use of a class is a block of it, once. *)
Lemma in_use_facts s k cls a :
  system_ok s → mp_classes (sy_pool s) !! k = Some cls → a ∈ in_use k cls s →
  a ∈ blocks cls ∧ memory_pool_ptr_in_class cls a = true ∧ a ≠ 0.
Proof.
  intros H Hk Ha. destruct (so_blocks s H k cls Hk) as (free & _ & _ & Hb). pose proof (so_pos s k cls H Hk) as Hs.
  assert (Hin : a ∈ blocks cls) by (rewrite Hb; apply elem_of_app; by right). pose proof (blocks_in_class cls a Hs Hin) as Hc.
  split_and!; [done|done|]. unfold memory_pool_ptr_in_class in Hc. apply andb_true_iff in Hc as [Hc _].
  pose proof (so_nonzero s H k cls Hk). lia.
Qed.

Lemma in_use_nodup s k cls : system_ok s → mp_classes (sy_pool s) !! k = Some cls → base.NoDup (in_use k cls s).
Proof.
  intros H Hk. destruct (so_blocks s H k cls Hk) as (free & _ & _ & Hb). pose proof (blocks_nodup cls (so_pos s k cls H Hk)) as Hn.
  rewrite Hb in Hn. by apply list.NoDup_app in Hn as (_ & _ & ?).
Qed.

(** A pointer of class [k] that a cache or the free list gives away is held by
    no caller. *)
Lemma cached_not_out s k cls t c :
  system_ok s → mp_classes (sy_pool s) !! k = Some cls → sy_threads s !! t = Some c → ∀ a, a ∈ cache k c → a ∉ map fst (sy_out s).
Proof.
  intros H Hk Ht a Ha Hout. pose proof (in_use_nodup s k cls H Hk) as Hn. unfold in_use in Hn.
  apply list.NoDup_app in Hn as (_ & Hn & _). assert (Hc : a ∈ flat_map (cache k) (sy_threads s)).
  { apply list_elem_of_In, in_flat_map. exists c. split; apply list_elem_of_In; [by eapply list_elem_of_lookup_2|done]. }
  apply (Hn a Hc). apply list_elem_of_In, filter_In. split; [by apply list_elem_of_In|].
  apply (in_use_facts s k cls a H Hk). unfold in_use. apply elem_of_app. by left.
Qed.

(** *** Replacing the pool under the same arrays *)

Definition same_arrays (p p' : memory_pool_t) : Prop :=
  Forall2 same_array (mp_classes p) (mp_classes p') ∧ mp_initialized p' = mp_initialized p.

Lemma same_arrays_refl_stats p st : same_arrays p (mp_with_stats p st).
Proof. split; [|done]. apply Forall_Forall2_diag, list.Forall_forall. by intros. Qed.

Lemma same_arrays_insert p k cls cls' w :
  mp_classes p !! k = Some cls → same_array cls cls' → same_arrays p (mp_with_class p k cls' w).
Proof.
  intros Hk Hc. split; [|done]. cbn [mp_with_class mp_classes]. apply Forall2_same_length_lookup_2; [by rewrite length_insert|].
  intros j x y Hx Hy. destruct (decide (j = k)) as [->|Hne].
  - rewrite list_lookup_insert_eq in Hy by (by eapply lookup_lt_Some). congruence.
  - rewrite list_lookup_insert_ne in Hy by done. assert (x = y) as -> by congruence. done.
Qed.

(** The parts of the invariant that do not depend on who holds what. *)
Lemma system_ok_static s p' threads' out' :
  system_ok s → same_arrays (sy_pool s) p' →
  (∀ k cls, mp_classes p' !! k = Some cls → class_ok (mp_words p') cls (in_use k cls (mkSystem p' threads' out'))) →
  Forall (fun t => length t = 3%nat ∧ Forall (fun c => zlen c <= TLS_CACHE_SIZE) t) threads' →
  Forall (fun e => e.1 ≠ 0 ∧ ∀ k cls, mp_classes (sy_pool s) !! k = Some cls →
            memory_pool_ptr_in_class cls e.1 = true → memory_pool_get_class e.2 = k) out' →
  base.NoDup (map fst out') → system_ok (mkSystem p' threads' out').
Proof.
  intros H [Ha Ei] Hb Hc Ho Hd.
  assert (Hl : ∀ k cls', mp_classes p' !! k = Some cls' → ∃ cls, mp_classes (sy_pool s) !! k = Some cls ∧ same_array cls cls').
  { intros k cls' Hk. destruct (Forall2_lookup_r _ _ _ _ _ Ha Hk) as (cls & ? & ?). by exists cls. }
  constructor; cbn [sy_pool sy_threads sy_out]; try done.
  - rewrite Ei. apply (so_init s H).
  - rewrite <- (list.Forall2_length _ _ _ Ha). apply (so_three s H).
  - intros k cls' (cls & Hk & _ & -> & _)%Hl. by apply (so_sizes s H).
  - intros j k cj ck a Hj Hk. apply Hl in Hj as (cj0 & Hj & Ej), Hk as (ck0 & Hk & Ek).
    destruct (same_array_facts _ _ Ej) as [_ ->], (same_array_facts _ _ Ek) as [_ ->]. by apply (so_disjoint s H j k cj0 ck0 a).
  - eapply List.Forall_impl; [|exact Ho]. intros e [He1 He2]. split; [done|]. intros k cls' (cls & Hk & Ek)%Hl.
    destruct (same_array_facts _ _ Ek) as [_ ->]. by apply He2.
  - intros k cls' (cls & Hk & -> & _)%Hl. by apply (so_nonzero s H k).
Qed.

(** ** Allocation *)

Lemma filter_cons_in (f : Z → bool) a l : f a = true → List.filter f (a :: l) = a :: List.filter f l.
Proof. intros H. cbn. by rewrite H. Qed.

Lemma filter_cons_out (f : Z → bool) a l : f a = false → List.filter f (a :: l) = List.filter f l.
Proof. intros H. cbn. by rewrite H. Qed.

Lemma class_of_other s j k cj ck a :
  system_ok s → mp_classes (sy_pool s) !! j = Some cj → mp_classes (sy_pool s) !! k = Some ck → j ≠ k →
  memory_pool_ptr_in_class ck a = true → memory_pool_ptr_in_class cj a = false.
Proof.
  intros H Hj Hk Hne Ha. destruct (memory_pool_ptr_in_class cj a) eqn:E; [|done]. exfalso. apply Hne.
  by apply (so_disjoint s H j k cj ck a).
Qed.

(** A fresh [malloc] result. *)
Definition fresh_malloc (s : pool_system) (m : Z) : Prop :=
  m ≠ 0 ∧ memory_pool_ptr_in_any_pool (sy_pool s) m = false ∧ m ∉ map fst (sy_out s).

Lemma not_in_any p m k cls : memory_pool_ptr_in_any_pool p m = false → mp_classes p !! k = Some cls → memory_pool_ptr_in_class cls m = false.
Proof.
  unfold memory_pool_ptr_in_any_pool. intros H Hk. apply not_true_iff_false. intros E. apply not_true_iff_false in H. apply H.
  apply existsb_exists. exists cls. split; [apply list_elem_of_In; by eapply list_elem_of_lookup_2|done].
Qed.

Lemma alloc_malloc_ok s m size st :
  system_ok s → fresh_malloc s m →
  system_ok (mkSystem (mp_with_stats (sy_pool s) st) (sy_threads s) ((m, size) :: sy_out s)).
Proof.
  intros H (Hz & Hm & Ho). apply (system_ok_static s); [done|apply same_arrays_refl_stats| |apply H| |].
  - intros k cls Hk. cbn [mp_with_stats mp_classes mp_words] in *. unfold in_use. cbn [sy_threads sy_out map fst].
    rewrite filter_cons_out by (by eapply not_in_any). by apply (so_blocks s H).
  - apply List.Forall_cons; [|apply H]. split; [done|]. intros k cls Hk. cbn [fst]. by rewrite (not_in_any _ m k cls Hm Hk).
  - cbn [map fst]. apply list.NoDup_cons. split; [done|apply H].
Qed.

(** A block of class [k] goes to a caller. *)
Lemma alloc_block_ok s p' threads' k cls a size :
  system_ok s → same_arrays (sy_pool s) p' → mp_classes (sy_pool s) !! k = Some cls →
  memory_pool_ptr_in_class cls a = true → memory_pool_get_class size = k → a ∉ map fst (sy_out s) → a ≠ 0 →
  (∀ cls', mp_classes p' !! k = Some cls' →
     class_ok (mp_words p') cls' (flat_map (cache k) threads' ++ a :: List.filter (memory_pool_ptr_in_class cls) (map fst (sy_out s)))) →
  (∀ j, j ≠ k → flat_map (cache j) threads' = flat_map (cache j) (sy_threads s) ∧ mp_classes p' !! j = mp_classes (sy_pool s) !! j) →
  mp_words p' = mp_words (sy_pool s) →
  Forall (fun t => length t = 3%nat ∧ Forall (fun c => zlen c <= TLS_CACHE_SIZE) t) threads' →
  system_ok (mkSystem p' threads' ((a, size) :: sy_out s)).
Proof.
  intros H Ha Hk Hc Hsz Hout Hz Hb Hj Ew Ht. apply (system_ok_static s); [done|done| |done| |].
  - intros j cj Hcj. unfold in_use. cbn [sy_threads sy_out map fst]. destruct (decide (j = k)) as [->|Hne].
    + pose proof (Forall2_lookup_lr _ _ _ _ _ _ (proj1 Ha) Hk Hcj) as Hs. apply same_array_facts in Hs as [_ Hs].
      rewrite filter_cons_in by (by rewrite Hs). rewrite (filter_ext _ _ Hs). by apply Hb.
    + destruct (Hj j Hne) as [-> Ej]. rewrite Ej in Hcj. rewrite filter_cons_out by (by eapply (class_of_other s j k)).
      rewrite Ew. by apply (so_blocks s H).
  - apply List.Forall_cons; [|apply H]. split; [done|]. intros j cj Hcj. cbn [fst snd]. intros E.
    rewrite Hsz. by apply (so_disjoint s H k j cls cj a).
  - cbn [map fst]. apply list.NoDup_cons. split; [done|apply H].
Qed.

Lemma flat_map_insert_same {A B} (f : A → list B) l t x y :
  l !! t = Some x → f y = f x → flat_map f (<[t := y]> l) = flat_map f l.
Proof.
  intros H E. rewrite !flat_map_concat_map. f_equal. change (map ?f) with (fmap (M := list) f).
  rewrite list_fmap_insert, list_insert_id; [done|]. by rewrite list_lookup_fmap, H, E.
Qed.

Lemma cache_insert_ne j k c (t : tls_caches) : j ≠ k → cache j (<[k := c]> t) = cache j t.
Proof. intros H. unfold cache. by rewrite list_lookup_insert_ne. Qed.

Lemma cache_insert_eq k c (t : tls_caches) : (k < length t)%nat → cache k (<[k := c]> t) = c.
Proof. intros H. unfold cache. by rewrite list_lookup_insert_eq. Qed.

Lemma caches_update s t tls k c :
  system_ok s → sy_threads s !! t = Some tls → zlen c <= TLS_CACHE_SIZE →
  Forall (fun t => length t = 3%nat ∧ Forall (fun c => zlen c <= TLS_CACHE_SIZE) t) (<[t := <[k := c]> tls]> (sy_threads s)).
Proof.
  intros H Ht Hc. destruct (Forall_lookup_1 _ _ _ _ (so_caches s H) Ht) as [Hl Hf].
  apply Forall_insert; [apply H|]. rewrite length_insert. split; [done|by apply Forall_insert].
Qed.

Lemma memory_pool_alloc_ok s t tls size m :
  system_ok s → sy_threads s !! t = Some tls → fresh_malloc s m →
  ∃ ptr p' tls', memory_pool_alloc (sy_pool s) tls size m = Ret (ptr, p', tls') ∧
    system_ok (mkSystem p' (<[t := tls']> (sy_threads s)) ((ptr, size) :: sy_out s)).
Proof.
  intros H Ht Hm. destruct (Forall_lookup_1 _ _ _ _ (so_caches s H) Ht) as [Hl Hf].
  unfold memory_pool_alloc. rewrite (so_init s H). cbn [negb]. set (k := memory_pool_get_class size).
  assert (Hmalloc : ∃ ptr p' tls', Ret (m, count_fallback_alloc (sy_pool s), tls) = Ret (ptr, p', tls') ∧
    system_ok (mkSystem p' (<[t := tls']> (sy_threads s)) ((ptr, size) :: sy_out s))).
  { eexists _, _, _. split; [done|]. rewrite (list_insert_id _ _ _ Ht). by apply alloc_malloc_ok. }
  assert (Hglobal : ∀ cls, mp_classes (sy_pool s) !! k = Some cls → ∃ ptr p' tls',
    (r <- memory_pool_class_alloc cls (mp_words (sy_pool s)) ;;
     match r with
     | Some (ptr, cls') => Ret (ptr, count_alloc k (mp_with_class (sy_pool s) k cls' (mp_words (sy_pool s))), tls)
     | None => Ret (m, count_fallback_alloc (sy_pool s), tls)
     end) = Ret (ptr, p', tls') ∧ system_ok (mkSystem p' (<[t := tls']> (sy_threads s)) ((ptr, size) :: sy_out s))).
  { intros cls Hk. destruct (class_alloc_ok _ _ _ (so_blocks s H k cls Hk)) as [[-> _]|(ptr & cls' & -> & Hs & Hb & Hz)]; [done|].
    eexists _, _, _. split; [done|]. rewrite (list_insert_id _ _ _ Ht).
    assert (Hin : ptr ∈ blocks cls ∧ ptr ∉ in_use k cls s).
    { destruct Hb as (free & _ & _ & Hb). destruct (same_array_facts _ _ Hs) as [Eb _]. pose proof (blocks_nodup cls (so_pos s k cls H Hk)) as Hn.
      rewrite Eb in Hb. rewrite Hb in Hn. apply list.NoDup_app in Hn as (_ & _ & Hn). apply list.NoDup_cons in Hn as [Hn _].
      split; [|done]. rewrite Hb. apply elem_of_app. right. apply list_elem_of_here. }
    destruct Hin as [Hin Hnot]. pose proof (blocks_in_class cls ptr (so_pos s k cls H Hk) Hin) as Hc.
    assert (Hout : ptr ∉ map fst (sy_out s)).
    { intros Ho. apply Hnot. unfold in_use. apply elem_of_app. right. apply list_elem_of_In, filter_In. split; [by apply list_elem_of_In|done]. }
    eapply (alloc_block_ok s _ _ k cls); try done; [|intros cls2 Hc2| |apply H].
    - exact (same_arrays_insert (sy_pool s) k cls cls' (mp_words (sy_pool s)) Hk Hs).
    - cbn in Hc2. rewrite list_lookup_insert_eq in Hc2 by (by eapply lookup_lt_Some). injection Hc2 as <-. cbn.
      eapply class_ok_perm; [|exact Hb]. unfold in_use. apply Permutation_middle.
    - intros j Hj. split; [done|]. cbn. by rewrite list_lookup_insert_ne. }
  destruct (tls !! k) as [[|ptr rest]|] eqn:Ek.
  - destruct (mp_classes (sy_pool s) !! k) as [cls|] eqn:Hk; [by apply Hglobal|done].
  - assert (Hk3 : (k < 3)%nat) by (rewrite <- Hl; by eapply lookup_lt_Some).
    destruct (lookup_lt_is_Some_2 (mp_classes (sy_pool s)) k) as [cls Hk]; [by rewrite (so_three s H)|].
    eexists _, _, _. split; [done|]. assert (Ec : cache k tls = ptr :: rest) by (unfold cache; by rewrite Ek).
    destruct (flat_map_insert (cache k) _ _ _ Ht) as (R & E1 & E2).
    destruct (in_use_facts s k cls ptr H Hk) as (Hin & Hc & Hz).
    { unfold in_use. apply elem_of_app. left. rewrite E1, Ec. apply list_elem_of_here. }
    eapply (alloc_block_ok s _ _ k cls); try done.
    + apply same_arrays_refl_stats.
    + eapply (cached_not_out s k cls t tls H Hk Ht). rewrite Ec. apply list_elem_of_here.
    + intros cls2 Hc2. cbn in Hc2. rewrite Hk in Hc2. injection Hc2 as <-.
      eapply class_ok_perm; [|apply (so_blocks s H k cls Hk)]. unfold in_use. rewrite E1, E2, Ec, cache_insert_eq by lia. solve_Permutation.
    + intros j Hj. split; [|done]. eapply flat_map_insert_same; [done|]. by apply cache_insert_ne.
    + apply caches_update; [done|done|]. apply (Forall_lookup_1 _ _ _ _ Hf) in Ek. rewrite zlen_cons in Ek. lia.
  - destruct (mp_classes (sy_pool s) !! k) as [cls|] eqn:Hk; [by apply Hglobal|done].
Qed.

(** ** Freeing *)

(** A block of class [k] changes hands, nobody else is concerned. *)
Lemma move_ok s p' threads' out' k cls :
  system_ok s → same_arrays (sy_pool s) p' → mp_classes (sy_pool s) !! k = Some cls →
  (∀ cls', mp_classes p' !! k = Some cls' →
     class_ok (mp_words p') cls' (flat_map (cache k) threads' ++ List.filter (memory_pool_ptr_in_class cls) (map fst out'))) →
  (∀ j cj, j ≠ k → mp_classes (sy_pool s) !! j = Some cj →
     flat_map (cache j) threads' = flat_map (cache j) (sy_threads s) ∧ mp_classes p' !! j = Some cj ∧
     List.filter (memory_pool_ptr_in_class cj) (map fst out') ≡ₚ List.filter (memory_pool_ptr_in_class cj) (map fst (sy_out s)) ∧
     ∀ a, memory_pool_ptr_in_class cj a = true → mp_words p' !! a = mp_words (sy_pool s) !! a) →
  Forall (fun t => length t = 3%nat ∧ Forall (fun c => zlen c <= TLS_CACHE_SIZE) t) threads' →
  (∀ e, e ∈ out' → e ∈ sy_out s) → base.NoDup (map fst out') →
  system_ok (mkSystem p' threads' out').
Proof.
  intros H Ha Hk Hb Hj Ht Ho Hd. apply (system_ok_static s); [done|done| |done| |done].
  - intros j cj Hcj. destruct (decide (j = k)) as [->|Hne].
    + unfold in_use. cbn [sy_threads sy_out].
      pose proof (Forall2_lookup_lr _ _ _ _ _ _ (proj1 Ha) Hk Hcj) as Hs. apply same_array_facts in Hs as [_ Hs].
      rewrite (filter_ext _ _ Hs). by apply Hb.
    + destruct (Forall2_lookup_r _ _ _ _ _ (proj1 Ha) Hcj) as (cj0 & Hj0 & _). destruct (Hj j cj0 Hne Hj0) as (E1 & E2 & E3 & E4).
      assert (cj = cj0) as -> by congruence. unfold in_use. cbn [sy_threads sy_out]. rewrite E1.
      eapply class_ok_perm; [symmetry; apply Permutation_app_head, E3|].
      eapply class_ok_frame; [by eapply so_pos| |by apply (so_blocks s H)]. intros a Hin _. by apply E4.
  - apply list.Forall_forall. intros e He%Ho. pose proof (so_out s H) as Hf. rewrite list.Forall_forall in Hf. by apply Hf.
Qed.

Lemma delete_out s i a size :
  system_ok s → sy_out s !! i = Some (a, size) →
  map fst (sy_out s) ≡ₚ a :: map fst (delete i (sy_out s)) ∧ base.NoDup (map fst (delete i (sy_out s))) ∧
  (∀ e, e ∈ delete i (sy_out s) → e ∈ sy_out s) ∧ a ≠ 0.
Proof.
  intros H Hi. pose proof (delete_Permutation _ _ _ Hi) as E. pose proof (Permutation_map fst E) as Em. cbn [map fst] in Em.
  split_and!; [done| | |].
  - pose proof (so_distinct s H) as Hd. rewrite Em in Hd. by apply list.NoDup_cons in Hd as [_ ?].
  - intros e He. rewrite E. by apply list_elem_of_further.
  - by apply (Forall_lookup_1 _ _ _ _ (so_out s H) Hi).
Qed.

Lemma filter_perm_in (f : Z → bool) a l l' : l ≡ₚ a :: l' → f a = true → List.filter f l ≡ₚ a :: List.filter f l'.
Proof. intros E Ha. rewrite <- (filter_cons_in f a l' Ha). by apply filter_perm. Qed.

Lemma filter_perm_out (f : Z → bool) a l l' : l ≡ₚ a :: l' → f a = false → List.filter f l' ≡ₚ List.filter f l.
Proof. intros E Ha. rewrite <- (filter_cons_out f a l' Ha). symmetry. by apply filter_perm. Qed.

Lemma free_to_classes_finds n j k p a cls :
  (j <= k < j + n)%nat → mp_classes p !! k = Some cls → memory_pool_ptr_in_class cls a = true →
  (∀ i ci, i ≠ k → mp_classes p !! i = Some ci → memory_pool_ptr_in_class ci a = false) →
  free_to_classes n j p a = Some (count_free k (mp_with_class p k
    (mkClass a (mc_pool_start cls) (mc_block_size cls) (mc_total_blocks cls) (mc_free_blocks cls + 1)) (<[a := mc_free_list cls]> (mp_words p)))).
Proof.
  intros Hr Hk Ha Ho. revert j Hr. induction n as [|n IH]; intros j Hr; [lia|]. cbn [free_to_classes].
  destruct (decide (j = k)) as [->|Hne].
  - rewrite Hk. unfold memory_pool_class_free. by rewrite Ha.
  - destruct (lookup_lt_is_Some_2 (mp_classes p) j) as [cj Hj].
    { apply lookup_lt_Some in Hk. lia. }
    rewrite Hj. unfold memory_pool_class_free. rewrite (Ho j cj Hne Hj). cbn [negb]. apply IH. lia.
Qed.

Lemma memory_pool_free_ok s t tls i a size size' :
  system_ok s → sy_threads s !! t = Some tls → sy_out s !! i = Some (a, size) →
  memory_pool_get_class size' = memory_pool_get_class size →
  let '(p', tls', freed) := memory_pool_free (sy_pool s) tls a size' in
  system_ok (mkSystem p' (<[t := tls']> (sy_threads s)) (delete i (sy_out s))) ∧
  (freed = if memory_pool_ptr_in_any_pool (sy_pool s) a then None else Some a).
Proof.
  intros H Ht Hi Hsz. destruct (delete_out s i a size H Hi) as (Em & Hd & Hsub & Hz).
  destruct (Forall_lookup_1 _ _ _ _ (so_caches s H) Ht) as [Hl Hf].
  destruct (Forall_lookup_1 _ _ _ _ (so_out s H) Hi) as [_ Hcl]. cbn [fst snd] in Hcl.
  unfold memory_pool_free. rewrite (proj2 (Z.eqb_neq a 0)) by done. rewrite (so_init s H). cbn [negb]. rewrite Hsz.
  destruct (memory_pool_ptr_in_any_pool (sy_pool s) a) eqn:Ein.
  2:{ split; [|done]. rewrite (list_insert_id _ _ _ Ht).
      apply (system_ok_static s); [done|apply same_arrays_refl_stats| |apply H| |done].
      - intros k cls Hk. cbn [count_fallback_free mp_with_stats mp_classes mp_words] in *. eapply class_ok_perm; [|by apply (so_blocks s H)].
        unfold in_use. cbn [sy_threads sy_out]. apply Permutation_app_head. symmetry.
        apply (filter_perm_out _ a); [done|]. by eapply not_in_any.
      - apply list.Forall_forall. intros e He%Hsub. pose proof (so_out s H) as Hf'. rewrite list.Forall_forall in Hf'. by apply Hf'. }
  unfold memory_pool_ptr_in_any_pool in Ein. apply existsb_exists in Ein as (cls & Hin & Ha).
  apply list_elem_of_In, list_elem_of_lookup_1 in Hin as [k Hk]. rewrite (Hcl k cls Hk Ha).
  assert (Hk3 : (k < 3)%nat) by (rewrite <- (so_three s H); by eapply lookup_lt_Some).
  destruct (lookup_lt_is_Some_2 tls k) as [c Hc]; [lia|]. rewrite Hc.
  destruct (flat_map_insert (cache k) _ _ _ Ht) as (R & E1 & E2).
  assert (Ec : cache k tls = c) by (unfold cache; by rewrite Hc). rewrite Ec in E1.
  destruct (Z.ltb_spec (zlen c) TLS_CACHE_SIZE) as [Hroom|_].
  - split; [|done]. apply (move_ok s _ _ _ k cls); try done.
    + apply same_arrays_refl_stats.
    + intros cls2 Hc2. cbn in Hc2. rewrite Hk in Hc2. injection Hc2 as <-.
      eapply class_ok_perm; [|apply (so_blocks s H k cls Hk)]. unfold in_use.
      rewrite (filter_perm_in _ a _ _ Em Ha), E1, E2, cache_insert_eq by lia. solve_Permutation.
    + intros j cj Hj Hcj. split_and!; try done.
      * eapply flat_map_insert_same; [done|]. by apply cache_insert_ne.
      * apply (filter_perm_out _ a); [done|]. by eapply (class_of_other s j k).
    + apply caches_update; [done|done|]. rewrite zlen_cons. lia.
  - assert (Hother : ∀ j cj, j ≠ k → mp_classes (sy_pool s) !! j = Some cj → memory_pool_ptr_in_class cj a = false)
      by (intros j cj Hj Hcj; by eapply (class_of_other s j k)).
    rewrite (free_to_classes_finds 3 0 k (sy_pool s) a cls ltac:(lia) Hk Ha Hother). rewrite (list_insert_id _ _ _ Ht). split; [|done].
    destruct (class_free_ok (mp_words (sy_pool s)) cls a (flat_map (cache k) (sy_threads s) ++
      List.filter (memory_pool_ptr_in_class cls) (map fst (delete i (sy_out s))))) as (cls' & Ef & Hs & Hb); [by eapply so_pos| |done|].
    { eapply class_ok_perm; [|apply (so_blocks s H k cls Hk)]. unfold in_use. rewrite (filter_perm_in _ a _ _ Em Ha). symmetry. apply Permutation_middle. }
    unfold memory_pool_class_free in Ef. rewrite Ha in Ef. cbn [negb] in Ef. injection Ef as Ef. rewrite Ef.
    apply (move_ok s _ _ _ k cls); try done.
    + exact (same_arrays_insert (sy_pool s) k cls cls' (<[a := mc_free_list cls]> (mp_words (sy_pool s))) Hk Hs).
    + intros cls2 Hc2. cbn in Hc2. rewrite list_lookup_insert_eq in Hc2 by (by eapply lookup_lt_Some). by injection Hc2 as <-.
    + intros j cj Hj Hcj. split_and!; [done| | |].
      * cbn [count_free mp_with_stats mp_with_class mp_classes]. by rewrite list_lookup_insert_ne.
      * apply (filter_perm_out _ a); [done|]. by eapply Hother.
      * intros b Hb'. cbn [count_free mp_with_stats mp_with_class mp_words]. apply lookup_insert_ne. intros ->. by rewrite (Hother j cj Hj Hcj) in Hb'.
    + apply H.
Qed.

(** ** Draining *)

Lemma drain_one_ok s t tls k a c :
  system_ok s → sy_threads s !! t = Some tls → tls !! k = Some (a :: c) →
  ∃ cls cls' w, mp_classes (sy_pool s) !! k = Some cls ∧ memory_pool_class_free cls a (mp_words (sy_pool s)) = Some (cls', w) ∧
    system_ok (mkSystem (mp_with_class (sy_pool s) k cls' w) (<[t := <[k := c]> tls]> (sy_threads s)) (sy_out s)).
Proof.
  intros H Ht Hc. destruct (Forall_lookup_1 _ _ _ _ (so_caches s H) Ht) as [Hl Hf].
  assert (Hk3 : (k < 3)%nat) by (rewrite <- Hl; by eapply lookup_lt_Some).
  destruct (lookup_lt_is_Some_2 (mp_classes (sy_pool s)) k) as [cls Hk]; [by rewrite (so_three s H)|].
  destruct (flat_map_insert (cache k) _ _ _ Ht) as (R & E1 & E2).
  assert (Ec : cache k tls = a :: c) by (unfold cache; by rewrite Hc). rewrite Ec in E1.
  destruct (in_use_facts s k cls a H Hk) as (_ & Ha & Hz); [unfold in_use; rewrite E1; apply list_elem_of_here|].
  destruct (class_free_ok (mp_words (sy_pool s)) cls a ((c ++ R) ++ List.filter (memory_pool_ptr_in_class cls) (map fst (sy_out s))))
    as (cls' & Ef & Hs & Hb); [by eapply so_pos| |done|].
  { eapply class_ok_perm; [|apply (so_blocks s H k cls Hk)]. unfold in_use. by rewrite E1. }
  exists cls, cls', (<[a := mc_free_list cls]> (mp_words (sy_pool s))). split_and!; [done|done|].
  apply (move_ok s _ _ _ k cls); try done; try apply H.
  - by eapply same_arrays_insert.
  - intros cls2 Hc2. cbn in Hc2. rewrite list_lookup_insert_eq in Hc2 by (by eapply lookup_lt_Some). injection Hc2 as <-.
    cbn [mp_with_class mp_words]. eapply class_ok_perm; [|exact Hb]. by rewrite E2, cache_insert_eq by lia.
  - intros j cj Hj Hcj. split_and!; [|by cbn; rewrite list_lookup_insert_ne|done|].
    + eapply flat_map_insert_same; [done|]. by apply cache_insert_ne.
    + intros b Hb'. cbn [mp_with_class mp_words]. apply lookup_insert_ne. intros ->. by rewrite (class_of_other s j k cj cls b H Hcj Hk Hj Ha) in Hb'.
  - apply caches_update; [done|done|]. apply (Forall_lookup_1 _ _ _ _ Hf) in Hc. rewrite zlen_cons in Hc. lia.
Qed.

Lemma drain_cache_ok k c s t tls :
  system_ok s → sy_threads s !! t = Some tls → tls !! k = Some c →
  system_ok (mkSystem (drain_cache k (sy_pool s) c) (<[t := <[k := []]> tls]> (sy_threads s)) (sy_out s)).
Proof.
  revert s tls. induction c as [|a c IH]; intros s tls H Ht Hc; cbn [drain_cache].
  - rewrite (list_insert_id tls k []), list_insert_id by done. by destruct s.
  - destruct (drain_one_ok s t tls k a c H Ht Hc) as (cls & cls' & w & Hk & Ef & H1). rewrite Hk, Ef.
    pose proof (lookup_lt_Some _ _ _ Ht). pose proof (lookup_lt_Some _ _ _ Hc).
    specialize (IH _ (<[k := c]> tls) H1). cbn [sy_pool sy_threads sy_out] in IH.
    rewrite !list_insert_insert_eq in IH. apply IH; by rewrite list_lookup_insert_eq.
Qed.

Lemma memory_pool_tls_drain_ok s t tls :
  system_ok s → sy_threads s !! t = Some tls →
  let '(p', tls') := memory_pool_tls_drain (sy_pool s) tls in
  system_ok (mkSystem p' (<[t := tls']> (sy_threads s)) (sy_out s)) ∧ tls' = [[]; []; []].
Proof.
  intros H Ht. unfold memory_pool_tls_drain. rewrite (so_init s H). cbn [negb]. split; [|done].
  destruct (Forall_lookup_1 _ _ _ _ (so_caches s H) Ht) as [Hl _]. destruct tls as [|c0 [|c1 [|c2 [|]]]]; try done.
  pose proof (lookup_lt_Some _ _ _ Ht).
  pose proof (drain_cache_ok 0 c0 s t _ H Ht eq_refl) as G0.
  pose proof (drain_cache_ok 1 c1 _ t [[]; c1; c2] G0) as G1. cbn [sy_pool sy_threads sy_out] in G1. rewrite list_insert_insert_eq in G1.
  specialize (G1 ltac:(by rewrite list_lookup_insert_eq) eq_refl).
  pose proof (drain_cache_ok 2 c2 _ t [[]; []; c2] G1) as G2. cbn [sy_pool sy_threads sy_out] in G2. rewrite list_insert_insert_eq in G2.
  exact (G2 ltac:(by rewrite list_lookup_insert_eq) eq_refl).
Qed.

(** ** Every sequence of operations *)

(** A caller may write into the blocks it holds. *)
Lemma client_write_ok s a size v :
  system_ok s → (a, size) ∈ sy_out s →
  system_ok (mkSystem (mkMemPool (mp_classes (sy_pool s)) (mp_stats (sy_pool s)) (mp_initialized (sy_pool s))
                         (<[a := v]> (mp_words (sy_pool s)))) (sy_threads s) (sy_out s)).
Proof.
  intros H Ha. apply (system_ok_static s); [done|by apply (same_arrays_refl_stats (sy_pool s) (mp_stats (sy_pool s)))| |apply H|apply H|apply H].
  intros k cls Hk. cbn [mp_classes] in Hk. eapply class_ok_frame; [by eapply so_pos| |by apply (so_blocks s H)].
  intros b Hb Hout. cbn [mp_words]. apply lookup_insert_ne. intros ->. apply Hout. unfold in_use. apply elem_of_app. right.
  apply list_elem_of_In, filter_In. split; [|done]. apply list_elem_of_In. by apply (list_elem_of_fmap_2 fst) in Ha.
Qed.

Inductive system_step (s : pool_system) : pool_system → Prop :=
| mstep_thread : system_step s (mkSystem (sy_pool s) (sy_threads s ++ [tls_cache_init]) (sy_out s))
| mstep_alloc t tls size m ptr p' tls' :
    sy_threads s !! t = Some tls → fresh_malloc s m → memory_pool_alloc (sy_pool s) tls size m = Ret (ptr, p', tls') →
    system_step s (mkSystem p' (<[t := tls']> (sy_threads s)) ((ptr, size) :: sy_out s))
| mstep_free t tls i ptr size size' p' tls' freed :
    sy_threads s !! t = Some tls → sy_out s !! i = Some (ptr, size) →
    memory_pool_get_class size' = memory_pool_get_class size →
    memory_pool_free (sy_pool s) tls ptr size' = (p', tls', freed) →
    system_step s (mkSystem p' (<[t := tls']> (sy_threads s)) (delete i (sy_out s)))
| mstep_write ptr size v :
    (ptr, size) ∈ sy_out s →
    system_step s (mkSystem (mkMemPool (mp_classes (sy_pool s)) (mp_stats (sy_pool s)) (mp_initialized (sy_pool s))
                              (<[ptr := v]> (mp_words (sy_pool s)))) (sy_threads s) (sy_out s))
| mstep_drain t tls p' tls' :
    sy_threads s !! t = Some tls → memory_pool_tls_drain (sy_pool s) tls = (p', tls') →
    system_step s (mkSystem p' (<[t := tls']> (sy_threads s)) (sy_out s)).

Lemma system_step_ok s s' : system_step s s' → system_ok s → system_ok s'.
Proof.
  intros Hs H. destruct Hs as [|t tls size m ptr p' tls' Ht Hm E|t tls i ptr size size' p' tls' freed Ht Hi Hz E|ptr size v Ha|t tls p' tls' Ht E].
  - apply (system_ok_static s); [done| | | |apply H|apply H].
    + by apply (same_arrays_refl_stats (sy_pool s) (mp_stats (sy_pool s))).
    + intros k cls Hk. eapply class_ok_perm; [|by apply (so_blocks s H)]. unfold in_use. cbn [sy_threads sy_out].
      rewrite flat_map_app. cbn. assert (cache k tls_cache_init = []) as -> by (by destruct k as [|[|[|k]]]). by rewrite !app_nil_r.
    + apply Forall_app_2; [apply H|]. apply List.Forall_cons; [|apply List.Forall_nil]. split; [done|]. repeat (apply List.Forall_cons; [by vm_compute|]). apply List.Forall_nil.
  - destruct (memory_pool_alloc_ok s t tls size m H Ht Hm) as (ptr0 & p0 & tls0 & E0 & H0). rewrite E0 in E. by injection E as <- <- <-.
  - pose proof (memory_pool_free_ok s t tls i ptr size size' H Ht Hi Hz) as Hf. rewrite E in Hf. apply Hf.
  - by eapply client_write_ok.
  - pose proof (memory_pool_tls_drain_ok s t tls H Ht) as Hd. rewrite E in Hd. apply Hd.
Qed.

(** Three arrays that do not overlap. *)
Definition arrays_apart (small medium large : Z) : Prop :=
  0 < small ∧ 0 < medium ∧ 0 < large ∧
  (small + 640000 <= medium ∨ medium + 1280000 <= small) ∧ (small + 640000 <= large ∨ large + 2048000 <= small) ∧
  (medium + 1280000 <= large ∨ large + 2048000 <= medium).

Definition unused_pool : memory_pool_t := mkMemPool [] (mkStats [0; 0; 0] [0; 0; 0] [0; 0; 0] 0 0) false ∅.

Lemma init_ok small medium large :
  arrays_apart small medium large → system_ok (mkSystem (memory_pool_init unused_pool small medium large) [] []).
Proof.
  intros (P0 & P1 & P2 & D1 & D2 & D3). unfold memory_pool_init. cbn [mp_initialized unused_pool mp_words].
  pose proof (class_init_ok small MEMORY_POOL_SMALL_SIZE MEMORY_POOL_SMALL_COUNT ∅ P0 ltac:(done) ltac:(done)) as H0.
  destruct (memory_pool_class_init small _ _ _) as [c0 w0]. destruct H0 as (E0 & K0 & F0).
  pose proof (class_init_ok medium MEMORY_POOL_MEDIUM_SIZE MEMORY_POOL_MEDIUM_COUNT w0 P1 ltac:(done) ltac:(done)) as H1.
  destruct (memory_pool_class_init medium _ _ _) as [c1 w1]. destruct H1 as (E1 & K1 & F1).
  pose proof (class_init_ok large MEMORY_POOL_LARGE_SIZE MEMORY_POOL_LARGE_COUNT w1 P2 ltac:(done) ltac:(done)) as H2.
  destruct (memory_pool_class_init large _ _ _) as [c2 w2]. destruct H2 as (E2 & K2 & F2).
  assert (R0 : ∀ a, memory_pool_ptr_in_class c0 a = true ↔ small <= a < small + 640000).
  { intros a. subst c0. unfold memory_pool_ptr_in_class. rewrite andb_true_iff, Z.leb_le, Z.ltb_lt.
    cbn [mc_pool_start mc_block_size mc_total_blocks]. unfold MEMORY_POOL_SMALL_SIZE, MEMORY_POOL_SMALL_COUNT. lia. }
  assert (R1 : ∀ a, memory_pool_ptr_in_class c1 a = true ↔ medium <= a < medium + 1280000).
  { intros a. subst c1. unfold memory_pool_ptr_in_class. rewrite andb_true_iff, Z.leb_le, Z.ltb_lt.
    cbn [mc_pool_start mc_block_size mc_total_blocks]. unfold MEMORY_POOL_MEDIUM_SIZE, MEMORY_POOL_MEDIUM_COUNT. lia. }
  assert (R2 : ∀ a, memory_pool_ptr_in_class c2 a = true ↔ large <= a < large + 2048000).
  { intros a. subst c2. unfold memory_pool_ptr_in_class. rewrite andb_true_iff, Z.leb_le, Z.ltb_lt.
    cbn [mc_pool_start mc_block_size mc_total_blocks]. unfold MEMORY_POOL_LARGE_SIZE, MEMORY_POOL_LARGE_COUNT. lia. }
  constructor; cbn [sy_pool mp_initialized mp_classes mp_words sy_threads sy_out map]; try done; try constructor.
  - intros [|[|[|k]]] cls; cbn; [intros [= <-]; by subst..|done].
  - intros [|[|[|j]]] [|[|[|k]]] cj ck a; cbn; intros [= <-] [= <-]; rewrite ?R0, ?R1, ?R2; intros; try done; lia.
  - intros [|[|[|k]]] cls; cbn; [intros [= <-]..|done]; unfold in_use; cbn.
    + eapply class_ok_frame; [by subst c0| |exact K0]. intros a Ha _. apply R0 in Ha.
      rewrite F2 by (apply not_true_iff_false; rewrite R2; lia). apply F1, not_true_iff_false. rewrite R1. lia.
    + eapply class_ok_frame; [by subst c1| |exact K1]. intros a Ha _. apply R1 in Ha. apply F2, not_true_iff_false. rewrite R2. lia.
    + done.
  - intros [|[|[|k]]] cls; cbn; [intros [= <-]; by subst..|done].
Qed.

(** C34. The memory pool: from its initialisation, through any interleaving of
    threads that allocate, free what they were given with a size of the class it
    was asked for, write into the blocks they hold and drain their caches, no
    operation reads a block that is not linked, pointers in use are distinct, a
    pointer from the pools is the start of a block of the class of the size asked
    for and as large, the blocks of every class are exactly the free list, the
    caches and what callers hold, the counter of free blocks is exact and no cache
    exceeds 32 blocks. *)
Theorem memory_pool_partition small medium large s :
  arrays_apart small medium large →
  rtc system_step (mkSystem (memory_pool_init unused_pool small medium large) [] []) s →
  (∀ t tls size m, sy_threads s !! t = Some tls → fresh_malloc s m →
     ∃ r, memory_pool_alloc (sy_pool s) tls size m = Ret r) ∧
  base.NoDup (map fst (sy_out s)) ∧
  (∀ ptr size k cls, (ptr, size) ∈ sy_out s → mp_classes (sy_pool s) !! k = Some cls →
     memory_pool_ptr_in_class cls ptr = true → ptr ∈ blocks cls ∧ size <= mc_block_size cls) ∧
  (∀ k cls, mp_classes (sy_pool s) !! k = Some cls →
     ∃ free, chain (mp_words (sy_pool s)) (mc_free_list cls) free ∧ mc_free_blocks cls = zlen free ∧
       blocks cls ≡ₚ free ++ in_use k cls s) ∧
  Forall (Forall (fun c => zlen c <= TLS_CACHE_SIZE)) (sy_threads s).
Proof.
  intros Ha Hs. assert (H : system_ok s).
  { apply (rtc_ind_r system_ok _ (init_ok _ _ _ Ha)) in Hs; [done|]. intros x y _ Hxy Hx. by eapply system_step_ok. }
  split_and!.
  - intros t tls size m Ht Hm. destruct (memory_pool_alloc_ok s t tls size m H Ht Hm) as (ptr & p' & tls' & E & _). by eexists.
  - apply H.
  - intros ptr size k cls Hin Hk Hc. split.
    + apply (in_use_facts s k cls ptr H Hk). unfold in_use. apply elem_of_app. right. apply list_elem_of_In, filter_In.
      split; [|done]. apply list_elem_of_In. by apply (list_elem_of_fmap_2 fst) in Hin.
    + pose proof (so_out s H) as Ho. rewrite list.Forall_forall in Ho. destruct (Ho _ Hin) as [_ Hcl].
      specialize (Hcl k cls Hk Hc). cbn in Hcl. rewrite (so_sizes s H k cls Hk). unfold memory_pool_get_class in Hcl.
      destruct (Z.leb_spec size MEMORY_POOL_SMALL_SIZE); [by subst k|]. destruct (Z.leb_spec size MEMORY_POOL_MEDIUM_SIZE); [by subst k|].
      destruct (Z.leb_spec size MEMORY_POOL_LARGE_SIZE); [by subst k|]. subst k. apply lookup_lt_Some in Hk. rewrite (so_three s H) in Hk. lia.
  - apply H.
  - eapply List.Forall_impl; [|apply (so_caches s H)]. by intros t [_ ?].
Qed.

(** The first allocation of a thread. *)
Definition demo_pool : memory_pool_t := memory_pool_init unused_pool 1000000 2000000 4000000.

Lemma demo_arrays : arrays_apart 1000000 2000000 4000000.
Proof. unfold arrays_apart. lia. Qed.

Lemma demo_apart : memory_pool_ptr_in_any_pool demo_pool 7 = false.
Proof. by vm_compute. Qed.

#[local] Opaque memory_pool_init.

Lemma memory_pool_partition_witness :
  ∃ r, memory_pool_alloc demo_pool tls_cache_init 100 7 = Ret r.
Proof.
  pose proof (mstep_thread (mkSystem demo_pool [] [])) as Hstep. cbn [sy_pool sy_threads sy_out app] in Hstep.
  destruct (memory_pool_partition 1000000 2000000 4000000 (mkSystem demo_pool [tls_cache_init] [])) as (Ha & _).
  - exact demo_arrays.
  - exact (rtc_l _ _ _ _ Hstep (rtc_refl _ _)).
  - cbn [sy_pool sy_threads] in Ha. apply (Ha 0%nat tls_cache_init 100 7); [reflexivity|].
    split; [discriminate|]. split; [exact demo_apart|]. intros Hin. apply elem_of_nil in Hin. exact Hin.
Defined.

#[local] Transparent memory_pool_init.

(** *** Where the caller's size matters *)

(** A small block freed with a size of the next class is handed out as a larger
    block than it is: sixty-four bytes for two hundred. *)
Lemma wrong_size_free_overlaps p cls ptr m c0 c1 c2 :
  mp_initialized p = true → mp_classes p !! 0%nat = Some cls → memory_pool_ptr_in_class cls ptr = true → ptr ≠ 0 →
  zlen c1 < TLS_CACHE_SIZE →
  ∃ p1 p2, memory_pool_free p [c0; c1; c2] ptr 100 = (p1, [c0; ptr :: c1; c2], None) ∧
    memory_pool_alloc p1 [c0; ptr :: c1; c2] 200 m = Ret (ptr, p2, [c0; c1; c2]).
Proof.
  intros Hi Hk Hc Hz Hroom. unfold memory_pool_free. rewrite (proj2 (Z.eqb_neq ptr 0)) by done. rewrite Hi. cbn [negb].
  assert (memory_pool_ptr_in_any_pool p ptr = true) as ->.
  { apply existsb_exists. exists cls. split; [|done]. apply list_elem_of_In. by eapply list_elem_of_lookup_2. }
  change (memory_pool_get_class 100) with 1%nat. change ([c0; c1; c2] !! 1%nat) with (Some c1). cbv iota beta.
  rewrite (proj2 (Z.ltb_lt _ _)) by done. eexists _, _. split; [done|]. unfold memory_pool_alloc.
  cbn [count_free mp_with_stats mp_initialized]. rewrite Hi. done.
Qed.

(** A pool pointer freed after the pool was destroyed goes to [free]. *)
Lemma free_after_destroy p tls ptr size :
  ptr ≠ 0 → (memory_pool_free (memory_pool_destroy p tls).1 (memory_pool_destroy p tls).2 ptr size).2 = Some ptr.
Proof.
  intros H. unfold memory_pool_free. rewrite (proj2 (Z.eqb_neq ptr 0)) by done.
  assert (mp_initialized (memory_pool_destroy p tls).1 = false) as ->; [|done].
  unfold memory_pool_destroy. destruct (mp_initialized p) eqn:E; [|done]. cbn [negb].
  by destruct (memory_pool_tls_drain p tls).
Qed.
