(* ===== verification/Async.v ===== *)
(** * Async: transaction identifiers, promises, joins

    [src/Workers/transaction_id.c], [promise.c], [join.c]: identifiers of three
    64-bit numbers with their order and network encoding, callbacks that fire once,
    and a counter of outstanding operations.  [abort()] is [Trap]. *)

From stdpp Require Import gmap.
From S2P Require Import Prelude Bitset Endian MessageId.

(** ** Transaction identifiers *)

Record transaction_id_t := mkTxn {
  tx_time : Z;
  tx_nanos : Z;
  tx_count : Z
}.

Definition TXN_ID_BATCH_SIZE : Z := 1000.

Definition txn_ok (id : transaction_id_t) : Prop := is_u64 (tx_time id) ∧ is_u64 (tx_nanos id) ∧ is_u64 (tx_count id).

(** [counter] is [g_global_count]; the clock's reading is an argument. *)
Definition transaction_id_get_next (sec nsec counter : Z) : transaction_id_t * Z :=
  (mkTxn (u64 sec) (u64 nsec) counter, u64 (counter + 1)).

Definition transaction_id_compare (id1 id2 : transaction_id_t) : Z :=
  if tx_time id2 <? tx_time id1 then 1
  else if tx_time id1 <? tx_time id2 then -1
  else if tx_nanos id2 <? tx_nanos id1 then 1
  else if tx_nanos id1 <? tx_nanos id2 then -1
  else if tx_count id2 <? tx_count id1 then 1
  else if tx_count id1 <? tx_count id2 then -1
  else 0.

(** The helpers [write_uint64] and [read_uint64] are those of [MessageId]; the
    source has a copy in each file. *)
Definition transaction_id_serialize (id : transaction_id_t) : list Z :=
  write_uint64 (tx_time id) ++ write_uint64 (tx_nanos id) ++ write_uint64 (tx_count id).

Definition transaction_id_deserialize (buf : list Z) : exec transaction_id_t :=
  time <- read_uint64 buf 0 ;;
  nanos <- read_uint64 buf 8 ;;
  count <- read_uint64 buf 16 ;;
  Ret (mkTxn time nanos count).

(** One round of the compare-and-swap loop: [seen] is what the thread last read,
    [counter] the shared value, [weak] whether the weak exchange fails without
    reason.  [inl]: done, with the new shared value; [inr]: go on. *)
Definition advance_round (new_count seen counter : Z) (weak : bool) : Z + Z :=
  if new_count <=? seen then inl counter
  else if (counter =? seen) && negb weak then inl new_count
  else inr counter.

(** The loop, against the values other threads leave in the counter between
    rounds. *)
Fixpoint advance_loop (new_count seen : Z) (rounds : list (Z * bool)) : option Z :=
  match rounds with
  | [] => None
  | (counter, weak) :: rest =>
      match advance_round new_count seen counter weak with
      | inl c => Some c
      | inr c => advance_loop new_count c rest
      end
  end.

Definition transaction_id_advance_to (target : transaction_id_t) (counter : Z) (rounds : list (Z * bool)) : option Z :=
  advance_loop (u64 (tx_count target + TXN_ID_BATCH_SIZE)) counter rounds.

(** ** Promises *)

Record promise_t := mkPromise {
  pr_resolve : bool;       (** [resolve != NULL] *)
  pr_reject : bool;
  pr_hasFired : bool
}.

Inductive settlement :=
| Resolved (payload : Z)
| Rejected (error : Z).

Definition promise_create (resolve reject : bool) : promise_t := mkPromise resolve reject false.

(** The callback that runs, if any. *)
Definition promise_resolve (p : promise_t) (payload : Z) : exec (promise_t * list settlement) :=
  if negb (pr_resolve p) then Trap
  else if pr_hasFired p then Ret (p, [])
  else Ret (mkPromise (pr_resolve p) (pr_reject p) true, [Resolved payload]).

Definition promise_reject (p : promise_t) (error : Z) : exec (promise_t * list settlement) :=
  if negb (pr_reject p) then Trap
  else if pr_hasFired p then Ret (p, [])
  else Ret (mkPromise (pr_resolve p) (pr_reject p) true, [Rejected error]).

Definition settle_once (p : promise_t) (s : settlement) : exec (promise_t * list settlement) :=
  match s with Resolved v => promise_resolve p v | Rejected e => promise_reject p e end.

Fixpoint settle_all (p : promise_t) (l : list settlement) : exec (promise_t * list settlement) :=
  match l with
  | [] => Ret (p, [])
  | s :: l' => '(p1, f1) <- settle_once p s ;; '(p2, f2) <- settle_all p1 l' ;; Ret (p2, f1 ++ f2)
  end.

(** ** Joins *)

Record async_join_t := mkJoin {
  jn_pending : Z;
  jn_results : list Z;
  jn_count : Z
}.

Definition async_join_create (count : Z) : option async_join_t :=
  if count <=? 0 then None else Some (mkJoin count (replicate (Z.to_nat count) 0) count).

Definition async_join_complete (j : async_join_t) (index result : Z) : async_join_t :=
  if (index <? 0) || (jn_count j <=? index) then j
  else mkJoin (s32 (jn_pending j - 1)) (<[Z.to_nat index := result]> (jn_results j)) (jn_count j).

(** Whether [async_join_wait] returns without waiting. *)
Definition async_join_ready (j : async_join_t) : bool := jn_pending j <=? 0.

(** ** Theorems *)

(** Transaction identifiers and message identifiers have the same fields. *)
Definition as_message_id (id : transaction_id_t) : quasar_message_id_t :=
  {| id_time := tx_time id; id_nanos := tx_nanos id; id_count := tx_count id |}.

Lemma deserialize_message_id buf :
  transaction_id_deserialize buf =
    (id <- quasar_message_id_deserialize buf 0 ;; Ret (mkTxn (id_time id) (id_nanos id) (id_count id))).
Proof.
  unfold transaction_id_deserialize, quasar_message_id_deserialize. change (0 + 8) with 8. change (0 + 16) with 16.
  destruct (read_uint64 buf 0); [|done]. destruct (read_uint64 buf 8); [|done]. by destruct (read_uint64 buf 16).
Qed.

(** Transaction identifiers: the comparison is the lexicographic order of the
    serialized octets, so that it is a total order in which only equal identifiers
    compare equal, and what is serialized is deserialized unchanged. *)
Theorem transaction_order_is_lexicographic id1 id2 :
  txn_ok id1 → txn_ok id2 →
  transaction_id_compare id1 id2 =
    sign_of (lex_compare (transaction_id_serialize id1) (transaction_id_serialize id2)) ∧
  (transaction_id_compare id1 id2 = 0 ↔ id1 = id2) ∧
  transaction_id_compare id2 id1 = - transaction_id_compare id1 id2 ∧
  transaction_id_deserialize (transaction_id_serialize id1) = Ret id1.
Proof.
  intros H1 H2. split_and!.
  - exact (id_compare_serialize (as_message_id id1) (as_message_id id2) H1 H2).
  - destruct id1 as [t1 n1 c1], id2 as [t2 n2 c2]. unfold transaction_id_compare. cbn [tx_time tx_nanos tx_count].
    zcases; split; intros E; try done; try (injection E as -> -> ->; lia); try (f_equal; lia).
  - unfold transaction_id_compare. zcases; try done; lia.
  - rewrite deserialize_message_id. change (transaction_id_serialize id1) with (quasar_message_id_serialize (as_message_id id1)).
    pose proof (id_roundtrip [] (as_message_id id1) [] 0 eq_refl H1) as E. rewrite app_nil_r in E. cbn [app] in E.
    rewrite E. by destruct id1.
Qed.

Lemma transaction_order_is_lexicographic_witness :
  transaction_id_compare (mkTxn 5 7 255) (mkTxn 5 7 256) =
    sign_of (lex_compare (transaction_id_serialize (mkTxn 5 7 255)) (transaction_id_serialize (mkTxn 5 7 256))).
Proof.
  apply (transaction_order_is_lexicographic (mkTxn 5 7 255) (mkTxn 5 7 256)); vm_compute; repeat split; discriminate.
Defined.

(** The loop ends with a counter that is at least the target, or leaves the
    shared value, and never lowers it. *)
Lemma advance_loop_forward new_count rounds seen c :
  advance_loop new_count seen rounds = Some c →
  ∃ counter weak, (counter, weak) ∈ rounds ∧ (c = counter ∨ c = new_count ∧ counter < new_count).
Proof.
  revert seen. induction rounds as [|[counter weak] rest IH]; intros seen; cbn [advance_loop]; [done|].
  unfold advance_round. destruct (Z.leb_spec new_count seen).
  - intros [= <-]. exists counter, weak. split; [apply list_elem_of_here|by left].
  - destruct (Z.eqb_spec counter seen) as [->|]; cbn [andb].
    + destruct weak; cbn [negb].
      * intros E. apply IH in E as (c' & w' & Hin & H'). exists c', w'. split; [by apply list_elem_of_further|done].
      * intros [= <-]. exists seen, false. split; [apply list_elem_of_here|by right].
    + intros E. apply IH in E as (c' & w' & Hin & H'). exists c', w'. split; [by apply list_elem_of_further|done].
Qed.

(** After a recovery, identifiers made at an earlier reading of the monotonic
    clock still sort before the identifier advanced to. *)
Lemma advance_does_not_order target sec nsec counter :
  0 <= sec < tx_time target → tx_time target < 2 ^ 64 →
  transaction_id_compare (transaction_id_get_next sec nsec counter).1 target = -1.
Proof.
  intros H Ht. unfold transaction_id_get_next, transaction_id_compare. cbn [fst tx_time]. rewrite u64_id by (unfold is_u64; lia).
  rewrite (proj2 (Z.ltb_ge _ _)) by lia. by rewrite (proj2 (Z.ltb_lt _ _)) by lia.
Qed.

(** A promise fires at most once, with the first settlement. *)
Lemma promise_fires_once resolve reject l p fired :
  settle_all (promise_create resolve reject) l = Ret (p, fired) → fired = take 1 l.
Proof.
  assert (G : ∀ l p p' f, pr_hasFired p = true → settle_all p l = Ret (p', f) → f = []).
  { induction l0 as [|s l0 IH]; intros q q' f Hq; cbn [settle_all]; [by intros [= <- <-]|].
    intros ([q1 f1] & E1 & E)%bind_ret. apply bind_ret in E as ([q2 f2] & E2 & E). injection E as <- <-.
    assert (f1 = [] ∧ q1 = q) as [-> ->].
    { destruct s; cbn in E1; unfold promise_resolve, promise_reject in E1; destruct (negb _); try done; rewrite Hq in E1; by injection E1. }
    cbn. by eapply IH. }
  destruct l as [|s l]; cbn [settle_all]; [by intros [= <- <-]|].
  intros ([q1 f1] & E1 & E)%bind_ret. apply bind_ret in E as ([q2 f2] & E2 & E). injection E as <- <-.
  assert (f1 = [s] ∧ pr_hasFired q1 = true) as [-> Hq].
  { destruct s; cbn in E1; [destruct resolve|destruct reject]; try done; cbn in E1; by injection E1 as <- <-. }
  by rewrite (G l q1 q2 f2 Hq E2).
Qed.

(** The join counts calls, not operations: completing one of two operations
    twice makes it ready. *)
Lemma join_counts_calls :
  ∃ j, async_join_create 2 = Some j ∧
    async_join_ready (async_join_complete (async_join_complete j 0 7) 0 7) = true ∧
    jn_results (async_join_complete (async_join_complete j 0 7) 0 7) = [7; 0].
Proof. eexists. split; [reflexivity|]. split; reflexivity. Qed.
