(* ===== verification/WorkQueue.v ===== *)
(** * WorkQueue: the queues behind the worker pool

    [src/Workers/queue.c] and [work.c]: a doubly linked list of allocated items,
    sixteen of them filled in turn, and the reference counts of the work they
    carry.  Items live in a heap shared by the sixteen lists; the addresses the
    allocator returns are arguments, [0] is the null pointer, and an access to an
    address that is not allocated is [Trap]. *)

From stdpp Require Import gmap.
From S2P Require Import Prelude Refcount.

(** ** One list *)

Record work_queue_item_t := mkItem {
  wi_work : Z;
  wi_next : Z;
  wi_previous : Z
}.

Abbreviation item_heap := (gmap Z work_queue_item_t).

Record work_queue_t := mkQueue {
  wq_first : Z;
  wq_last : Z
}.

Definition work_queue_init : work_queue_t := mkQueue 0 0.

(** [p->next = x] and [p->previous = x]. *)
Definition set_next (h : item_heap) (p x : Z) : exec item_heap :=
  match h !! p with
  | Some it => Ret (<[p := mkItem (wi_work it) x (wi_previous it)]> h)
  | None => Trap
  end.

Definition set_previous (h : item_heap) (p x : Z) : exec item_heap :=
  match h !! p with
  | Some it => Ret (<[p := mkItem (wi_work it) (wi_next it) x]> h)
  | None => Trap
  end.

(** [item] is the address of the new item. *)
Definition work_enqueue (h : item_heap) (q : work_queue_t) (item work : Z) : exec (item_heap * work_queue_t) :=
  let h1 := <[item := mkItem work 0 (wq_last q)]> h in
  if negb (wq_last q =? 0) then
    h2 <- set_next h1 (wq_last q) item ;;
    Ret (h2, mkQueue (wq_first q) item)
  else Ret (h1, mkQueue item item).

(** [None]: the queue is empty. *)
Definition work_dequeue (h : item_heap) (q : work_queue_t) : exec (option Z * item_heap * work_queue_t) :=
  if wq_first q =? 0 then Ret (None, h, q)
  else
    let temp := wq_first q in
    match h !! temp with
    | None => Trap
    | Some it =>
        let first := wi_next it in
        h1 <- (if negb (first =? 0) then set_previous h first 0 else Ret h) ;;
        let last := if wq_last q =? temp then 0 else wq_last q in
        Ret (Some (wi_work it), delete temp h1, mkQueue first last)
    end.

(** ** Sixteen lists *)

Definition QUEUE_SHARDS : nat := 16.

Record sharded_work_queue_t := mkSharded {
  sq_queues : list work_queue_t;
  sq_next_shard : Z
}.

Definition sharded_work_queue_init : sharded_work_queue_t := mkSharded (replicate QUEUE_SHARDS work_queue_init) 0.

Definition shard_of (counter : Z) : nat := Z.to_nat (counter mod Z.of_nat QUEUE_SHARDS).

Definition sharded_work_enqueue (h : item_heap) (sq : sharded_work_queue_t) (item work : Z)
    : exec (item_heap * sharded_work_queue_t) :=
  let shard := shard_of (sq_next_shard sq) in
  match sq_queues sq !! shard with
  | None => Trap
  | Some q =>
      '(h1, q1) <- work_enqueue h q item work ;;
      Ret (h1, mkSharded (<[shard := q1]> (sq_queues sq)) (u64 (sq_next_shard sq + 1)))
  end.

(** The scan from shard [shard + i]; [n] shards are left to visit. *)
Fixpoint dequeue_scan (n : nat) (i : nat) (shard : Z) (h : item_heap) (qs : list work_queue_t)
    : exec (option Z * item_heap * list work_queue_t) :=
  match n with
  | O => Ret (None, h, qs)
  | S n' =>
      let idx := shard_of (shard + Z.of_nat i) in
      match qs !! idx with
      | None => Trap
      | Some q =>
          '(work, h1, q1) <- work_dequeue h q ;;
          let qs1 := <[idx := q1]> qs in
          match work with
          | Some _ => Ret (work, h1, qs1)
          | None => dequeue_scan n' (S i) shard h1 qs1
          end
      end
  end.

(** [start_shard] is the calling thread's; the next call starts one further. *)
Definition sharded_work_dequeue (h : item_heap) (sq : sharded_work_queue_t) (start_shard : Z)
    : exec (option Z * Z * item_heap * sharded_work_queue_t) :=
  '(work, h1, qs) <- dequeue_scan QUEUE_SHARDS 0 start_shard h (sq_queues sq) ;;
  Ret (work, (start_shard + 1) mod Z.of_nat QUEUE_SHARDS, h1, mkSharded qs (sq_next_shard sq)).

(** ** Work *)

(** What happens to a piece of work: executed or aborted, and then freed or
    not. *)
Inductive work_event :=
| Executed (work : Z)
| Aborted (work : Z)
| WorkFreed (work : Z).

Abbreviation work_heap := (gmap Z refcounter_t).

Definition work_create (ws : work_heap) (work : Z) : work_heap := <[work := refcounter_init]> ws.

Definition work_destroy (ws : work_heap) (work : Z) : exec (work_heap * list work_event) :=
  match ws !! work with
  | None => Trap
  | Some r =>
      let r1 := refcounter_dereference r in
      if refcounter_count r1 =? 0 then Ret (delete work ws, [WorkFreed work])
      else Ret (<[work := r1]> ws, [])
  end.

(** A worker runs what it dequeued: reference, execute or abort, destroy. *)
Definition work_run (ws : work_heap) (stop : bool) (work : Z) : exec (work_heap * list work_event) :=
  match ws !! work with
  | None => Trap
  | Some r =>
      '(ws1, freed) <- work_destroy (<[work := refcounter_reference r]> ws) work ;;
      Ret (ws1, (if stop then Aborted work else Executed work) :: freed)
  end.

(** Draining one shard; at most [fuel] items. *)
Fixpoint drain_shard (fuel : nat) (h : item_heap) (ws : work_heap) (q : work_queue_t)
    : exec (item_heap * work_heap * list work_event) :=
  '(work, h1, q1) <- work_dequeue h q ;;
  match work with
  | None => Ret (h1, ws, [])
  | Some w =>
      match fuel with
      | O => Trap
      | S fuel' =>
          '(ws1, ev) <- work_run ws true w ;;
          '(h2, ws2, ev') <- drain_shard fuel' h1 ws1 q1 ;;
          Ret (h2, ws2, ev ++ ev')
      end
  end.

Fixpoint drain_shards (h : item_heap) (ws : work_heap) (qs : list work_queue_t) : exec (item_heap * work_heap * list work_event) :=
  match qs with
  | [] => Ret (h, ws, [])
  | q :: qs' =>
      '(h1, ws1, ev) <- drain_shard (size h) h ws q ;;
      '(h2, ws2, ev') <- drain_shards h1 ws1 qs' ;;
      Ret (h2, ws2, ev ++ ev')
  end.

Definition sharded_work_queue_destroy (h : item_heap) (ws : work_heap) (sq : sharded_work_queue_t)
    : exec (item_heap * work_heap * list work_event) :=
  drain_shards h ws (sq_queues sq).
