(* ===== verification/WorkQueueTheorems.v ===== *)
(** * WorkQueueTheorems: the linked lists implement queues

    The doubly linked lists of [WorkQueue] represent lists of work: enqueuing
    appends, dequeuing takes the head, no item is lost, leaked or freed twice, and
    the sixteen lists do not disturb each other in the heap they share. *)

From stdpp Require Import gmap.
From S2P Require Import Prelude Refcount WorkQueue.

(** ** One list *)

(** From [first] the items [nodes] (address, work) are linked up to [last]; [prev]
    precedes them. *)
Fixpoint dll (h : item_heap) (prev first : Z) (nodes : list (Z * Z)) (last : Z) : Prop :=
  match nodes with
  | [] => first = 0 ∧ last = prev
  | (a, w) :: rest => first = a ∧ a ≠ 0 ∧ ∃ next, h !! a = Some (mkItem w next prev) ∧ dll h a next rest last
  end.

Definition queue_is (h : item_heap) (q : work_queue_t) (nodes : list (Z * Z)) : Prop :=
  dll h 0 (wq_first q) nodes (wq_last q) ∧ base.NoDup (map fst nodes).

Lemma dll_frame h h' prev first nodes last :
  (∀ a, a ∈ map fst nodes → h' !! a = h !! a) → dll h prev first nodes last → dll h' prev first nodes last.
Proof.
  revert prev first. induction nodes as [|[a w] nodes IH]; intros prev first Hh; [done|]. cbn.
  intros (-> & Ha & next & Hn & Hd). split_and!; [done|done|]. exists next. split; [rewrite Hh by (cbn; set_solver); done|].
  apply IH; [|done]. intros b Hb. apply Hh. cbn. by apply list_elem_of_further.
Qed.

Lemma queue_frame h h' q nodes :
  (∀ a, a ∈ map fst nodes → h' !! a = h !! a) → queue_is h q nodes → queue_is h' q nodes.
Proof. intros Hh [Hd Hn]. split; [by eapply dll_frame|done]. Qed.

Lemma dll_nonzero h prev first nodes last a : dll h prev first nodes last → a ∈ map fst nodes → a ≠ 0 ∧ is_Some (h !! a).
Proof.
  revert prev first. induction nodes as [|[b w] nodes IH]; intros prev first; cbn; [by intros _ ?%elem_of_nil|].
  intros (-> & Hb & next & Hn & Hd) [->|Hin]%elem_of_cons; [by split; [|eexists]|by eapply IH].
Qed.

(** The end of a list. *)
Lemma dll_last h prev first nodes last :
  dll h prev first nodes last → nodes ≠ [] → last ∈ map fst nodes ∧ first ≠ 0.
Proof.
  revert prev first. induction nodes as [|[a w] nodes IH]; intros prev first; [done|]. cbn.
  intros (-> & Ha & next & Hn & Hd) _. split; [|done]. destruct nodes as [|n nodes].
  - destruct Hd as [_ ->]. apply list_elem_of_here.
  - apply list_elem_of_further. by apply (IH a next Hd).
Qed.

Lemma dll_append h prev first nodes last item work :
  dll h prev first nodes last → base.NoDup (map fst nodes) → nodes ≠ [] → item ∉ map fst nodes → item ≠ 0 →
  h !! item = Some (mkItem work 0 last) →
  ∃ h', set_next h last item = Ret h' ∧ dll h' prev first (nodes ++ [(item, work)]) item ∧
    (∀ a, a ≠ last → h' !! a = h !! a) ∧ (∀ a, is_Some (h' !! a) ↔ is_Some (h !! a)).
Proof.
  revert prev first. induction nodes as [|[a w] nodes IH]; intros prev first; [done|]. cbn [dll map fst].
  intros (-> & Ha & next & Hn & Hd) [Hout Hnd]%list.NoDup_cons _ Hit Hz Hi. apply not_elem_of_cons in Hit as [Hia Hit].
  destruct nodes as [|n nodes].
  - destruct Hd as [-> ->]. unfold set_next. rewrite Hn. cbn [app dll wi_work wi_previous]. eexists. split; [done|]. split_and!.
    + done.
    + done.
    + exists item. split; [by rewrite lookup_insert_eq|]. split_and!; [done|done|]. exists 0.
      split; [by rewrite lookup_insert_ne by done|done].
    + intros b Hb. by rewrite lookup_insert_ne.
    + intros b. destruct (decide (b = a)) as [->|Hne]; [|by rewrite lookup_insert_ne].
      rewrite lookup_insert_eq, Hn. split; by eexists.
  - destruct (dll_last _ _ _ _ _ Hd) as [Hl _]; [done|].
    destruct (IH a next Hd Hnd) as (h' & E & Hd' & Hf & Hdom); [done|done|done|done|].
    exists h'. split_and!; try done. cbn [app dll]. split_and!; [done|done|]. exists next. split; [|done].
    rewrite Hf; [done|]. intros ->. done.
Qed.

Lemma work_enqueue_spec h q nodes item work :
  queue_is h q nodes → h !! item = None → item ≠ 0 →
  ∃ h' q', work_enqueue h q item work = Ret (h', q') ∧ queue_is h' q' (nodes ++ [(item, work)]) ∧
    (∀ a, a ∉ map fst nodes → a ≠ item → h' !! a = h !! a) ∧
    (∀ a, is_Some (h' !! a) ↔ a = item ∨ is_Some (h !! a)).
Proof.
  intros [Hd Hnd] Hf Hz. unfold work_enqueue.
  assert (Hit : item ∉ map fst nodes).
  { intros Hin. destruct (dll_nonzero _ _ _ _ _ _ Hd Hin) as [_ [? ?]]. congruence. }
  assert (Hnd' : base.NoDup (map fst (nodes ++ [(item, work)]))).
  { rewrite map_app. apply list.NoDup_app. split_and!; [done| |apply list.NoDup_singleton].
    intros a Ha ->%list_elem_of_singleton. done. }
  assert (Hdom1 : ∀ x a, is_Some (<[item := x]> h !! a) ↔ a = item ∨ is_Some (h !! a)).
  { intros x a. destruct (decide (a = item)) as [->|Hne].
    - rewrite lookup_insert_eq. split; [by left|by eexists].
    - rewrite lookup_insert_ne by done. split; [by right|by intros [?|?]]. }
  destruct nodes as [|n nodes].
  - destruct Hd as [Ef ->]. cbn [Z.eqb negb]. eexists _, _. split; [done|]. split_and!; [split; [|done]| |apply Hdom1].
    + cbn [app dll wq_first wq_last]. split_and!; [done|done|]. exists 0. by rewrite lookup_insert_eq.
    + intros a _ Ha. by rewrite lookup_insert_ne.
  - destruct (dll_last _ _ _ _ _ Hd) as [Hl _]; [done|]. pose proof (dll_nonzero _ _ _ _ _ _ Hd Hl) as [Hlz _].
    rewrite (proj2 (Z.eqb_neq _ 0)) by done. cbn [negb].
    destruct (dll_append (<[item := mkItem work 0 (wq_last q)]> h) 0 (wq_first q) (n :: nodes) (wq_last q) item work)
      as (h' & -> & Hd' & Hf' & Hdom); try done.
    + eapply dll_frame; [|exact Hd]. intros a Ha. apply lookup_insert_ne. intros ->. done.
    + by rewrite lookup_insert_eq.
    + rewrite bind_Ret_l. eexists _, _. split; [done|]. split_and!; [by split| |].
      * intros a Ha Hne. rewrite Hf' by (intros ->; done). by rewrite lookup_insert_ne.
      * intros a. by rewrite Hdom.
Qed.

Lemma work_dequeue_nil h q : queue_is h q [] → work_dequeue h q = Ret (None, h, q).
Proof. intros [[Hf _] _]. unfold work_dequeue. by rewrite Hf. Qed.

Lemma work_dequeue_cons h q a w nodes :
  queue_is h q ((a, w) :: nodes) →
  ∃ h' q', work_dequeue h q = Ret (Some w, h', q') ∧ queue_is h' q' nodes ∧
    (∀ b, b ∉ map fst nodes → b ≠ a → h' !! b = h !! b) ∧ (∀ b, is_Some (h' !! b) ↔ b ≠ a ∧ is_Some (h !! b)).
Proof.
  intros [(Hf & Ha & next & Hn & Hd) [Hout Hnd]%list.NoDup_cons]. unfold work_dequeue. rewrite Hf.
  rewrite (proj2 (Z.eqb_neq a 0)) by done. rewrite Hn. cbn [wi_next wi_work].
  destruct nodes as [|[b wb] nodes].
  - destruct Hd as [-> El]. cbn [Z.eqb negb]. rewrite bind_Ret_l, El, Z.eqb_refl. eexists _, _. split; [done|].
    split_and!; [by split; [|constructor]| |].
    + intros b _ Hb. by rewrite lookup_delete_ne.
    + intros b. destruct (decide (b = a)) as [->|Hne]; [rewrite lookup_delete_eq; by split; [intros [? ?]|intros [? ?]]|].
      rewrite lookup_delete_ne by done. by split; [|intros [_ ?]].
  - destruct Hd as (-> & Hb & next' & Hn' & Hd). rewrite (proj2 (Z.eqb_neq b 0)) by done. cbn [negb].
    unfold set_previous. rewrite Hn'. rewrite bind_Ret_l. cbn [wi_work wi_next].
    assert (Hba : b ≠ a) by (intros ->; apply Hout; cbn; apply list_elem_of_here).
    assert (Hl : wq_last q ≠ a).
    { intros El. apply Hout. rewrite <- El. destruct nodes as [|x nodes].
      - destruct Hd as [_ ->]. cbn. apply list_elem_of_here.
      - cbn [map fst]. apply list_elem_of_further. by apply (dll_last _ _ _ _ _ Hd). }
    rewrite (proj2 (Z.eqb_neq _ a)) by done. eexists _, _. split; [done|]. cbn [map fst] in Hnd.
    apply list.NoDup_cons in Hnd as [Hbout Hnd]. split_and!.
    + split; [|by apply list.NoDup_cons]. cbn [dll wq_first wq_last]. split_and!; [done|done|]. exists next'. split.
      * rewrite lookup_delete_ne, lookup_insert_eq; done.
      * eapply dll_frame; [|exact Hd]. intros c Hc. rewrite lookup_delete_ne, lookup_insert_ne; [done| |].
        -- intros ->. done.
        -- intros ->. apply Hout. cbn. by apply list_elem_of_further.
    + intros c Hc Hne. rewrite lookup_delete_ne, lookup_insert_ne; [done| |done]. intros ->. apply Hc. cbn. apply list_elem_of_here.
    + intros c. destruct (decide (c = a)) as [->|Hne]; [rewrite lookup_delete_eq; by split; [intros [? ?]|intros [? ?]]|].
      rewrite lookup_delete_ne by done. destruct (decide (c = b)) as [->|Hne'].
      * rewrite lookup_insert_eq, Hn'. split; [intros _; split; [done|by eexists]|intros _; by eexists].
      * rewrite lookup_insert_ne by done. by split; [|intros [_ ?]].
Qed.

(** ** Sixteen lists in one heap *)

Record shards_are (h : item_heap) (qs : list work_queue_t) (ls : list (list (Z * Z))) : Prop := {
  sa_queues : Forall2 (queue_is h) qs ls;
  sa_distinct : base.NoDup (map fst (concat ls));
  sa_items : ∀ a, is_Some (h !! a) ↔ a ∈ map fst (concat ls)
}.

(** Replacing one list. *)
Lemma shards_update h h' qs ls i l q' l' :
  shards_are h qs ls → ls !! i = Some l → queue_is h' q' l' →
  (∀ a, a ∈ map fst l' → (a ∈ map fst l ∨ (h !! a = None))) →
  (∀ a, a ∉ map fst l → a ∉ map fst l' → h' !! a = h !! a) →
  (∀ a, is_Some (h' !! a) ↔ (a ∈ map fst l' ∨ (is_Some (h !! a) ∧ a ∉ map fst l))) →
  shards_are h' (<[i := q']> qs) (<[i := l']> ls).
Proof.
  intros [Hq Hd Hi] Hl Hq' Hnew Hframe Hdom. destruct (concat_insert ls i l Hl) as (rest & E & Ei & Hr).
  rewrite E, map_app in Hd. apply list.NoDup_app in Hd as (Hd1 & Hd2 & Hd3).
  assert (Hrest : ∀ a, a ∈ map fst rest → (a ∉ map fst l) ∧ (a ∉ map fst l')).
  { intros a Ha. assert (Hal : a ∉ map fst l) by (intros Hal; by apply (Hd2 a)). split; [done|].
    intros Hal'. destruct (Hnew a Hal') as [?|Hnone]; [done|]. assert (is_Some (h !! a)) as [? ?]; [|congruence].
    apply Hi. rewrite E, map_app. apply elem_of_app. by right. }
  constructor.
  - apply Forall2_same_length_lookup_2.
    + rewrite !length_insert. by eapply list.Forall2_length.
    + intros j q k Hj Hk. destruct (decide (j = i)) as [->|Hne].
      * rewrite list_lookup_insert_eq in Hk by (by eapply lookup_lt_Some). injection Hk as <-.
        rewrite list_lookup_insert_eq in Hj; [by injection Hj as <-|].
        rewrite (list.Forall2_length _ _ _ Hq). by eapply lookup_lt_Some.
      * rewrite list_lookup_insert_ne in Hj by done. rewrite list_lookup_insert_ne in Hk by done. eapply queue_frame; [|by eapply (Forall2_lookup_lr _ _ _ _ _ _ Hq)].
        intros a Ha. apply list_elem_of_fmap in Ha as (x & -> & Hx). apply (Hr j k Hne Hk) in Hx.
        apply (list_elem_of_fmap_2 fst), Hrest in Hx as [Hx1 Hx2]. by apply Hframe.
  - rewrite Ei, map_app. apply list.NoDup_app. split_and!; [apply Hq'| |done].
    intros a Ha Ha'. by destruct (Hrest a Ha').
  - intros a. rewrite Hdom, Ei, map_app, elem_of_app. rewrite Hi, E, map_app, elem_of_app. split.
    + intros [?|[[?|?] ?]]; [by left|done|by right].
    + intros [?|Ha]; [by left|]. right. split; [by right|]. by apply Hrest.
Qed.

Lemma shard_range n : (shard_of n < QUEUE_SHARDS)%nat.
Proof. unfold shard_of, QUEUE_SHARDS. pose proof (Z.mod_pos_bound n 16). lia. Qed.

Lemma shards_lookup h qs ls i :
  shards_are h qs ls → length ls = QUEUE_SHARDS → (i < QUEUE_SHARDS)%nat →
  ∃ q l, qs !! i = Some q ∧ ls !! i = Some l ∧ queue_is h q l.
Proof.
  intros H Hl Hi. destruct (lookup_lt_is_Some_2 ls i) as [l El]; [lia|].
  destruct (Forall2_lookup_r _ _ _ _ _ (sa_queues _ _ _ H) El) as (q & Eq & Hq). by exists q, l.
Qed.

(** Taking the head of one list. *)
Lemma shards_dequeue h qs ls i q a w l :
  shards_are h qs ls → qs !! i = Some q → ls !! i = Some ((a, w) :: l) →
  ∃ h' q', work_dequeue h q = Ret (Some w, h', q') ∧ shards_are h' (<[i := q']> qs) (<[i := l]> ls).
Proof.
  intros H Eq El. pose proof (Forall2_lookup_lr _ _ _ _ _ _ (sa_queues _ _ _ H) Eq El) as Hq.
  destruct (work_dequeue_cons h q a w l Hq) as (h' & q' & -> & Hq' & Hframe & Hdom).
  eexists _, _. split; [done|]. pose proof (proj2 Hq) as Hnd. cbn [map fst] in Hnd. apply list.NoDup_cons in Hnd as [Hout _].
  eapply (shards_update h h' qs ls i ((a, w) :: l)); try done.
  - intros b Hb. left. cbn [map fst]. by apply list_elem_of_further.
  - intros b Hb Hb'. apply Hframe; [done|]. intros ->. apply Hb. cbn. apply list_elem_of_here.
  - intros b. rewrite Hdom. cbn [map fst]. split.
    + intros [Hne Hs]. destruct (decide (b ∈ map fst l)); [by left|right]. split; [done|]. by apply not_elem_of_cons.
    + intros [Hb|[Hs Hb]]; [|apply not_elem_of_cons in Hb; tauto]. split; [intros ->; done|].
      apply (dll_nonzero _ _ _ _ _ b (proj1 Hq)). cbn. by apply list_elem_of_further.
Qed.

(** What the scan finds: the head of the first list that is not empty. *)
Fixpoint scan_lists (n i : nat) (shard : Z) (ls : list (list (Z * Z))) : option (nat * Z * Z * list (Z * Z)) :=
  match n with
  | O => None
  | S n' =>
      let idx := shard_of (shard + Z.of_nat i) in
      match ls !! idx with
      | Some ((a, w) :: l) => Some (idx, a, w, l)
      | _ => scan_lists n' (S i) shard ls
      end
  end.

Lemma dequeue_scan_spec n i shard h qs ls :
  shards_are h qs ls → length ls = QUEUE_SHARDS →
  match scan_lists n i shard ls with
  | None => dequeue_scan n i shard h qs = Ret (None, h, qs)
  | Some (idx, a, w, l) =>
      ls !! idx = Some ((a, w) :: l) ∧
      ∃ h' qs', dequeue_scan n i shard h qs = Ret (Some w, h', qs') ∧ shards_are h' qs' (<[idx := l]> ls)
  end.
Proof.
  intros H Hl. revert i. induction n as [|n IH]; intros i; [done|]. cbn [scan_lists dequeue_scan].
  set (idx := shard_of _). destruct (shards_lookup h qs ls idx H Hl (shard_range _)) as (q & l & Eq & El & Hq).
  rewrite Eq, El. destruct l as [|[a w] l].
  - rewrite (work_dequeue_nil h q Hq), bind_Ret_l. cbn. rewrite (list_insert_id qs idx q Eq). apply IH.
  - split; [done|]. destruct (shards_dequeue h qs ls idx q a w l H Eq El) as (h' & q' & -> & H'). rewrite bind_Ret_l.
    by eexists _, _.
Qed.

Lemma sharded_enqueue_spec h sq ls item work :
  shards_are h (sq_queues sq) ls → length ls = QUEUE_SHARDS → h !! item = None → item ≠ 0 →
  ∃ h' qs', sharded_work_enqueue h sq item work = Ret (h', mkSharded qs' (u64 (sq_next_shard sq + 1))) ∧
    shards_are h' qs' (alter (fun l => l ++ [(item, work)]) (shard_of (sq_next_shard sq)) ls).
Proof.
  intros H Hl Hf Hz. unfold sharded_work_enqueue. set (idx := shard_of _).
  destruct (shards_lookup h _ ls idx H Hl (shard_range _)) as (q & l & -> & El & Hq).
  destruct (work_enqueue_spec h q l item work Hq Hf Hz) as (h' & q' & -> & Hq' & Hframe & Hdom). rewrite bind_Ret_l.
  eexists _, _. split; [done|]. rewrite (alter_as_insert _ _ _ _ El).
  eapply (shards_update h h' _ ls idx l); try done.
  - intros a. rewrite map_app, elem_of_app. intros [Ha|Ha]; [by left|]. right. cbn in Ha. by apply list_elem_of_singleton in Ha as ->.
  - intros a Ha Ha'. apply Hframe; [done|]. intros ->. apply Ha'. rewrite map_app. apply elem_of_app. right. cbn. apply list_elem_of_here.
  - intros a. rewrite Hdom, map_app, elem_of_app. cbn. rewrite list_elem_of_singleton. split.
    + intros [->|Hs]; [by left; right|]. destruct (decide (a ∈ map fst l)); [by left; left|by right].
    + intros [[Ha|Ha]|[Hs _]]; [|by left|by right]. right. by apply (dll_nonzero _ _ _ _ _ a (proj1 Hq)).
Qed.

(** The scan visits every list, and passes over empty ones only. *)
Lemma scan_lists_None n shard ls i :
  scan_lists n i shard ls = None ↔ ∀ k, (i <= k < i + n)%nat → default [] (ls !! shard_of (shard + Z.of_nat k)) = [].
Proof.
  revert i. induction n as [|n IH]; intros i; cbn [scan_lists]; [split; [intros _ k; lia|done]|].
  destruct (ls !! shard_of (shard + Z.of_nat i)) as [[|[a w] l]|] eqn:E.
  - rewrite IH. split; intros H k Hk; [|apply H; lia]. destruct (decide (k = i)) as [->|]; [by rewrite E|]. apply H. lia.
  - split; [done|]. intros H. specialize (H i ltac:(lia)). by rewrite E in H.
  - rewrite IH. split; intros H k Hk; [|apply H; lia]. destruct (decide (k = i)) as [->|]; [by rewrite E|]. apply H. lia.
Qed.

Lemma shards_covered shard j : (j < QUEUE_SHARDS)%nat → ∃ k, (k < QUEUE_SHARDS)%nat ∧ shard_of (shard + Z.of_nat k) = j.
Proof.
  unfold shard_of, QUEUE_SHARDS. intros Hj. exists (Z.to_nat ((Z.of_nat j - shard) mod 16)).
  pose proof (Z.mod_pos_bound (Z.of_nat j - shard) 16). split; [lia|].
  rewrite Z2Nat.id, Zplus_mod_idemp_r by lia. replace (shard + (Z.of_nat j - shard)) with (Z.of_nat j) by lia.
  rewrite Z.mod_small by lia. lia.
Qed.

Lemma scan_all_empty shard ls :
  length ls = QUEUE_SHARDS → (scan_lists QUEUE_SHARDS 0 shard ls = None ↔ concat ls = []).
Proof.
  intros Hl. rewrite scan_lists_None. split.
  - intros H. apply concat_nil_Forall. apply list.Forall_forall. intros l Hin. apply list_elem_of_lookup_1 in Hin as [j Hj].
    destruct (shards_covered shard j) as (k & Hk & Ek); [rewrite <- Hl; by eapply lookup_lt_Some|].
    specialize (H k ltac:(lia)). by rewrite Ek, Hj in H.
  - intros H k _. apply concat_nil_Forall in H. destruct (ls !! _) as [l|] eqn:El; [|done]. cbn.
    by apply (Forall_lookup_1 _ _ _ _ H El).
Qed.

(** ** Draining *)

(** Work as the timers enqueue it: created, and its reference given up. *)
Definition enqueued_work : refcounter_t := refcounter_yield refcounter_init.

Lemma run_enqueued ws stop w :
  ws !! w = Some enqueued_work →
  work_run ws stop w = Ret (delete w ws, [if stop then Aborted w else Executed w; WorkFreed w]).
Proof.
  intros H. unfold work_run, work_destroy. rewrite H, lookup_insert_eq. cbn [xbind].
  change (refcounter_count (refcounter_dereference (refcounter_reference enqueued_work)) =? 0) with true.
  cbn. by rewrite delete_insert_eq.
Qed.

Lemma shards_tail h q qs ls : shards_are h (q :: qs) ([] :: ls) → shards_are h qs ls.
Proof. intros [Hq Hd Hi]. constructor; [by apply list.Forall2_cons in Hq as [_ Hq]|done|done]. Qed.

Lemma shards_size h qs ls : shards_are h qs ls → size h = length (concat ls).
Proof.
  intros H. rewrite <- (length_map fst), <- size_dom. rewrite <- (size_list_to_set (C := gset Z)) by apply H.
  f_equal. apply set_eq. intros a. rewrite elem_of_dom, elem_of_list_to_set. apply H.
Qed.

Definition aborted (w : Z) : list work_event := [Aborted w; WorkFreed w].

Definition enqueued (ws : work_heap) (works : list Z) : Prop :=
  base.NoDup works ∧ Forall (fun w => ws !! w = Some enqueued_work) works.

Lemma enqueued_delete ws w works : enqueued ws (w :: works) → ws !! w = Some enqueued_work ∧ enqueued (delete w ws) works.
Proof.
  intros [[Hout Hn]%list.NoDup_cons [Hw H]%Forall_cons_1]. split_and!; [done|]. split; [done|].
  rewrite list.Forall_forall in H |- *. intros x Hx. rewrite lookup_delete_ne; [by apply H|]. intros ->. done.
Qed.

Lemma drain_shard_spec nodes fuel h ws q qs ls :
  shards_are h (q :: qs) (nodes :: ls) → (length nodes <= fuel)%nat → enqueued ws (map snd (nodes ++ concat ls)) →
  ∃ h' ws', drain_shard fuel h ws q = Ret (h', ws', flat_map aborted (map snd nodes)) ∧
    shards_are h' qs ls ∧ enqueued ws' (map snd (concat ls)) ∧
    (∀ w, w ∉ map snd nodes → ws' !! w = ws !! w) ∧ (∀ w, w ∈ map snd nodes → ws' !! w = None).
Proof.
  revert fuel h ws q. induction nodes as [|[a w] nodes IH]; intros fuel h ws q H Hf Hw; pose proof (sa_queues _ _ _ H) as Hq;
    apply list.Forall2_cons in Hq as [Hq _].
  - apply shards_tail in H. destruct fuel; cbn [drain_shard]; rewrite (work_dequeue_nil h q Hq), bind_Ret_l;
      eexists _, _; split_and!; try done; by intros w ?%elem_of_nil.
  - destruct fuel as [|fuel]; [cbn in Hf; lia|]. cbn [drain_shard].
    destruct (shards_dequeue h (q :: qs) (((a, w) :: nodes) :: ls) 0 q a w nodes H) as (h1 & q1 & -> & H1); [done|done|].
    rewrite bind_Ret_l. cbn in H1.
    cbn [app map snd] in Hw. apply enqueued_delete in Hw as [Hw0 Hw]. rewrite (run_enqueued ws true w Hw0), bind_Ret_l.
    destruct (IH fuel h1 (delete w ws) q1 H1) as (h2 & ws2 & -> & H2 & Hw2 & Hout & Hin); [cbn in Hf; lia|done|].
    eexists _, _. split; [done|]. split_and!; [done|done| |].
    + intros x [Hne Hx]%not_elem_of_cons. rewrite Hout by done. by rewrite lookup_delete_ne.
    + intros x [->|Hx]%elem_of_cons; [|by apply Hin]. destruct (decide (w ∈ map snd nodes)); [by apply Hin|].
      rewrite Hout by done. apply lookup_delete_eq.
Qed.

Lemma drain_shards_spec h ws qs ls :
  shards_are h qs ls → enqueued ws (map snd (concat ls)) →
  ∃ ws', drain_shards h ws qs = Ret (∅, ws', flat_map aborted (map snd (concat ls))) ∧
    (∀ w, w ∉ map snd (concat ls) → ws' !! w = ws !! w) ∧ (∀ w, w ∈ map snd (concat ls) → ws' !! w = None).
Proof.
  revert h ws ls. induction qs as [|q qs IH]; intros h ws ls H Hw; pose proof (sa_queues _ _ _ H) as Hq.
  - apply Forall2_nil_inv_l in Hq as ->. exists ws. cbn [drain_shards concat map flat_map]. split_and!; [|done|by intros w ?%elem_of_nil].
    assert (h = ∅) as ->; [|done]. apply map_eq. intros a. rewrite lookup_empty. apply eq_None_not_Some.
    rewrite (sa_items _ _ _ H). apply not_elem_of_nil.
  - apply Forall2_cons_inv_l in Hq as (l & ls' & _ & _ & ->). cbn [concat] in Hw |- *. cbn [drain_shards].
    assert (Hf : (length l <= size h)%nat) by (rewrite (shards_size _ _ _ H); cbn [concat]; rewrite length_app; lia).
    destruct (drain_shard_spec l (size h) h ws q qs ls' H Hf Hw) as (h1 & ws1 & -> & H1 & Hw1 & Hout & Hin). rewrite bind_Ret_l.
    destruct (IH h1 ws1 ls' H1 Hw1) as (ws2 & -> & Hout2 & Hin2). rewrite bind_Ret_l. exists ws2.
    split_and!; [by rewrite map_app, flat_map_app| |]; intros w; rewrite map_app, elem_of_app.
    + intros Hn. rewrite Hout2 by (intros ?; apply Hn; by right). apply Hout. intros ?. apply Hn. by left.
    + intros Hx. destruct (decide (w ∈ map snd (concat ls'))); [by apply Hin2|].
      rewrite Hout2 by done. destruct Hx; [by apply Hin|done].
Qed.

(** C33. The sharded work queue implements sixteen first-in-first-out lists in one
    heap: enqueuing links a fresh item at the end of the list the counter selects
    and of no other; dequeuing takes the head of the first list that is not empty,
    scanning all sixteen from the thread's start, and reports an empty queue
    exactly when all are; pointers stay consistent in both directions, exactly the
    linked items are allocated, and every freed item was linked. *)
Theorem sharded_queue_refines h sq ls :
  shards_are h (sq_queues sq) ls → length ls = QUEUE_SHARDS →
  (∀ item work, h !! item = None → item ≠ 0 →
     ∃ h' qs', sharded_work_enqueue h sq item work = Ret (h', mkSharded qs' (u64 (sq_next_shard sq + 1))) ∧
       shards_are h' qs' (alter (fun l => l ++ [(item, work)]) (shard_of (sq_next_shard sq)) ls)) ∧
  (∀ start,
     let next := (start + 1) mod Z.of_nat QUEUE_SHARDS in
     (concat ls = [] → sharded_work_dequeue h sq start = Ret (None, next, h, sq)) ∧
     (concat ls ≠ [] →
        ∃ i a w l h' qs', ls !! i = Some ((a, w) :: l) ∧ scan_lists QUEUE_SHARDS 0 start ls = Some (i, a, w, l) ∧
          sharded_work_dequeue h sq start = Ret (Some w, next, h', mkSharded qs' (sq_next_shard sq)) ∧
          shards_are h' qs' (<[i := l]> ls))).
Proof.
  intros H Hl. split; [intros item work; by apply sharded_enqueue_spec|]. intros start next.
  pose proof (dequeue_scan_spec QUEUE_SHARDS 0 start h (sq_queues sq) ls H Hl) as Hs. unfold sharded_work_dequeue.
  pose proof (scan_all_empty start ls Hl) as He. split.
  - intros Hc. apply He in Hc. rewrite Hc in Hs. rewrite Hs, bind_Ret_l. by destruct sq.
  - intros Hc. destruct (scan_lists _ _ _ _) as [[[[i a] w] l]|] eqn:Es; [|exfalso; by apply Hc, He].
    destruct Hs as (Hi & h' & qs' & -> & H'). exists i, a, w, l, h', qs'. by rewrite bind_Ret_l.
Qed.

(** Two pieces of work, then one taken out. *)
Definition demo_queue : exec (item_heap * sharded_work_queue_t) :=
  '(h1, sq1) <- sharded_work_enqueue ∅ sharded_work_queue_init 100 7 ;;
  sharded_work_enqueue h1 sq1 200 8.

Lemma shards_init : shards_are ∅ (sq_queues sharded_work_queue_init) (replicate QUEUE_SHARDS []).
Proof.
  constructor; cbn [sharded_work_queue_init sq_queues].
  - apply Forall2_replicate. split; [done|constructor].
  - constructor.
  - intros a. rewrite lookup_empty. split; [by intros [? ?]|by intros ?%elem_of_nil].
Qed.

Lemma sharded_queue_refines_witness :
  ∃ h sq, sharded_work_enqueue ∅ sharded_work_queue_init 100 7 = Ret (h, sq) ∧
    shards_are h (sq_queues sq) ([(100, 7)] :: replicate 15 []).
Proof.
  destruct (sharded_queue_refines ∅ sharded_work_queue_init (replicate QUEUE_SHARDS []) shards_init) as [He _]; [reflexivity|].
  destruct (He 100 7) as (h & qs & E & H); [reflexivity|discriminate|]. exists h, (mkSharded qs 1).
  split; [exact E|exact H].
Defined.

(** Destroying the queue: work that no worker took is aborted once and freed,
    shard by shard in the order it was enqueued, all items are freed, and other
    work is not touched. *)
Theorem queue_destroy_aborts h ws sq ls :
  shards_are h (sq_queues sq) ls → base.NoDup (map snd (concat ls)) →
  Forall (fun w => ws !! w = Some (refcounter_yield refcounter_init)) (map snd (concat ls)) →
  ∃ ws', sharded_work_queue_destroy h ws sq = Ret (∅, ws', flat_map aborted (map snd (concat ls))) ∧
    (∀ w, w ∉ map snd (concat ls) → ws' !! w = ws !! w) ∧ (∀ w, w ∈ map snd (concat ls) → ws' !! w = None).
Proof. intros H Hn Hw. by apply (drain_shards_spec h ws (sq_queues sq) ls H). Qed.

Lemma queue_destroy_aborts_witness :
  ∃ h sq, demo_queue = Ret (h, sq) ∧
    ∃ ws', sharded_work_queue_destroy h {[7 := refcounter_yield refcounter_init; 8 := refcounter_yield refcounter_init]} sq =
      Ret (∅, ws', [Aborted 7; WorkFreed 7; Aborted 8; WorkFreed 8]).
Proof.
  destruct (sharded_enqueue_spec ∅ sharded_work_queue_init _ 100 7 shards_init) as (h1 & qs1 & E1 & H1); [reflexivity|reflexivity|discriminate|].
  destruct (sharded_enqueue_spec h1 (mkSharded qs1 1) _ 200 8 H1) as (h2 & qs2 & E2 & H2);
    [reflexivity|vm_compute in E1; injection E1 as <- _; reflexivity|discriminate|].
  exists h2, (mkSharded qs2 2). split.
  - unfold demo_queue. rewrite E1. exact E2.
  - destruct (queue_destroy_aborts h2 {[7 := refcounter_yield refcounter_init; 8 := refcounter_yield refcounter_init]}
      (mkSharded qs2 2) _ H2) as (ws' & E & _).
    + apply (bool_decide_unpack _). vm_compute. exact I.
    + repeat (apply List.Forall_cons; [reflexivity|]). apply List.Forall_nil.
    + exists ws'. exact E.
Defined.

(** Work refused by a pool that stopped, whose reference the caller gave up
    before as the timers do: not even a destroy frees it. *)
Lemma refused_work_leaks (ws : work_heap) w :
  ws !! w = Some (refcounter_yield refcounter_init) →
  ∃ ws', work_destroy ws w = Ret (ws', []) ∧ ws' !! w = Some refcounter_init.
Proof. intros H. unfold work_destroy. rewrite H. eexists. split; [done|]. by rewrite lookup_insert_eq. Qed.
