(* ===== verification/WorkPool.v ===== *)
(** * WorkPool: the worker threads

    [src/Workers/pool.c]: workers that take work from the sharded queue, sleep on
    a condition variable when it is empty, and drain it at shutdown; producers
    that enqueue.  Threads interleave at the accesses to shared state: a shard
    under its lock, the pool lock, the condition variable, the flag [stop].  The
    lists of [WorkQueue] appear as the lists they represent.  A thread that cannot
    move (the pool lock is taken) has no step. *)

From stdpp Require Import gmap.
From S2P Require Import Prelude Refcount WorkQueue.

(** Where a worker is.  A scan has a first shard and the number of shards it has
    passed. *)
Inductive worker_pc :=
| Fast (shard : Z) (i : nat)      (** the scan without the pool lock *)
| Locking                         (** [platform_lock] *)
| Recheck (shard : Z) (i : nat)   (** the scan under the lock *)
| Resting                         (** found nothing, about to wait, under the lock *)
| Sleeping                        (** in [platform_condition_wait] *)
| Waking                          (** signalled, about to take the lock back *)
| Again (shard : Z) (i : nat)     (** the scan after the wake-up, under the lock *)
| Decide (work : option Z)        (** reads [stop] and unlocks *)
| Running (work : Z)              (** reads [stop], executes or aborts *)
| Exited.

(** [wk_start] is the thread's [start_shard]. *)
Record worker := mkWorker {
  wk_pc : worker_pc;
  wk_start : Z
}.

Inductive producer_pc :=
| Checking (work : Z)             (** reads [stop] under the lock *)
| Counting (work : Z)             (** [atomic_fetch_add] on the shard counter *)
| Pushing (shard : nat) (work : Z)
| Signalling
| Returned (rc : Z).

Record work_pool_t := mkPool {
  wp_shards : list (list Z);
  wp_next_shard : Z;
  wp_locked : bool;
  wp_stop : bool;
  wp_idleCount : Z;
  wp_workers : list worker;
  wp_producers : list producer_pc;
  wp_idle_signals : Z;             (** signals of [idle] so far *)
  wp_done : list work_event;       (** what was executed or aborted so far *)
  wp_accepted : list Z             (** the work that passed the check of [stop] *)
}.

Definition wp_with_shards (p : work_pool_t) (l : list (list Z)) : work_pool_t :=
  mkPool l (wp_next_shard p) (wp_locked p) (wp_stop p) (wp_idleCount p) (wp_workers p) (wp_producers p)
    (wp_idle_signals p) (wp_done p) (wp_accepted p).
Definition wp_with_locked (p : work_pool_t) (b : bool) : work_pool_t :=
  mkPool (wp_shards p) (wp_next_shard p) b (wp_stop p) (wp_idleCount p) (wp_workers p) (wp_producers p)
    (wp_idle_signals p) (wp_done p) (wp_accepted p).
Definition wp_with_workers (p : work_pool_t) (l : list worker) : work_pool_t :=
  mkPool (wp_shards p) (wp_next_shard p) (wp_locked p) (wp_stop p) (wp_idleCount p) l (wp_producers p)
    (wp_idle_signals p) (wp_done p) (wp_accepted p).
Definition wp_with_producers (p : work_pool_t) (l : list producer_pc) : work_pool_t :=
  mkPool (wp_shards p) (wp_next_shard p) (wp_locked p) (wp_stop p) (wp_idleCount p) (wp_workers p) l
    (wp_idle_signals p) (wp_done p) (wp_accepted p).
Definition wp_with_idle (p : work_pool_t) (n signals : Z) : work_pool_t :=
  mkPool (wp_shards p) (wp_next_shard p) (wp_locked p) (wp_stop p) n (wp_workers p) (wp_producers p)
    signals (wp_done p) (wp_accepted p).
Definition wp_with_done (p : work_pool_t) (l : list work_event) : work_pool_t :=
  mkPool (wp_shards p) (wp_next_shard p) (wp_locked p) (wp_stop p) (wp_idleCount p) (wp_workers p) (wp_producers p)
    (wp_idle_signals p) l (wp_accepted p).
Definition wp_with_accepted (p : work_pool_t) (l : list Z) : work_pool_t :=
  mkPool (wp_shards p) (wp_next_shard p) (wp_locked p) (wp_stop p) (wp_idleCount p) (wp_workers p) (wp_producers p)
    (wp_idle_signals p) (wp_done p) l.
Definition wp_with_next (p : work_pool_t) (n : Z) : work_pool_t :=
  mkPool (wp_shards p) n (wp_locked p) (wp_stop p) (wp_idleCount p) (wp_workers p) (wp_producers p)
    (wp_idle_signals p) (wp_done p) (wp_accepted p).

(** After [work_pool_launch]: the workers have passed the barrier. *)
Definition work_pool_launch (size : nat) : work_pool_t :=
  mkPool (replicate QUEUE_SHARDS []) 0 false false 0 (replicate size (mkWorker (Fast 0 0) 1)) [] 0 [] [].

(** A call of [sharded_work_dequeue]: the first shard is the thread's, the next
    call starts one further. *)
Definition scan (at_shard : Z → nat → worker_pc) (w : worker) : worker :=
  mkWorker (at_shard (wk_start w) 0%nat) ((wk_start w + 1) mod Z.of_nat QUEUE_SHARDS).

(** One shard of a scan: the head of its list if there is one. *)
Definition visit (p : work_pool_t) (shard : Z) (i : nat) : option (Z * work_pool_t) :=
  let idx := shard_of (shard + Z.of_nat i) in
  match wp_shards p !! idx with
  | Some (work :: l) => Some (work, wp_with_shards p (<[idx := l]> (wp_shards p)))
  | _ => None
  end.

Definition last_shard (i : nat) : bool := (QUEUE_SHARDS <=? S i)%nat.

(** The waiting branch: count, signal [idle], release the lock and sleep. *)
Definition go_to_sleep (p : work_pool_t) : work_pool_t :=
  let n := wp_idleCount p + 1 in
  wp_with_locked (wp_with_idle p n (if n =? zlen (wp_workers p) then wp_idle_signals p + 1 else wp_idle_signals p)) false.

(** One step of [workerFunction]; [None] when the thread is blocked or done. *)
Definition worker_step (p : work_pool_t) (w : worker) : option (work_pool_t * worker) :=
  let at_pc pc := mkWorker pc (wk_start w) in
  match wk_pc w with
  | Fast shard i =>
      match visit p shard i with
      | Some (work, p1) => Some (p1, at_pc (Running work))
      | None => Some (p, at_pc (if last_shard i then Locking else Fast shard (S i)))
      end
  | Locking => if wp_locked p then None else Some (wp_with_locked p true, scan Recheck w)
  | Recheck shard i =>
      match visit p shard i with
      | Some (work, p1) => Some (p1, at_pc (Decide (Some work)))
      | None => Some (p, at_pc (if last_shard i then Resting else Recheck shard (S i)))
      end
  | Resting => if wp_stop p then Some (p, at_pc (Decide None)) else Some (go_to_sleep p, at_pc Sleeping)
  | Sleeping => None
  | Waking =>
      if wp_locked p then None
      else Some (wp_with_locked (wp_with_idle p (wp_idleCount p - 1) (wp_idle_signals p)) true, scan Again w)
  | Again shard i =>
      match visit p shard i with
      | Some (work, p1) => Some (p1, at_pc (Decide (Some work)))
      | None => Some (p, at_pc (if last_shard i then Decide None else Again shard (S i)))
      end
  | Decide (Some work) => Some (wp_with_locked p false, at_pc (Running work))
  | Decide None => Some (wp_with_locked p false, if wp_stop p then at_pc Exited else scan Fast w)
  | Running work =>
      Some (wp_with_done p (wp_done p ++ [if wp_stop p then Aborted work else Executed work]), scan Fast w)
  | Exited => None
  end.

Definition is_sleeping (w : worker) : bool := match wk_pc w with Sleeping => true | _ => false end.

Definition wake (w : worker) : worker := if is_sleeping w then mkWorker Waking (wk_start w) else w.

(** [platform_signal_condition]: one sleeper wakes up, [target] if it sleeps; no
    effect when nobody does. *)
Definition signal (p : work_pool_t) (target : nat) : option work_pool_t :=
  if negb (existsb is_sleeping (wp_workers p)) then Some p
  else
    match wp_workers p !! target with
    | Some w => if is_sleeping w then Some (wp_with_workers p (<[target := wake w]> (wp_workers p))) else None
    | None => None
    end.

(** One step of [work_pool_enqueue]. *)
Definition producer_step (p : work_pool_t) (pc : producer_pc) (target : nat) : option (work_pool_t * producer_pc) :=
  match pc with
  | Checking work =>
      if wp_locked p then None
      else if wp_stop p then Some (p, Returned 1)
      else Some (wp_with_accepted p (wp_accepted p ++ [work]), Counting work)
  | Counting work => Some (wp_with_next p (u64 (wp_next_shard p + 1)), Pushing (shard_of (wp_next_shard p)) work)
  | Pushing shard work => Some (wp_with_shards p (alter (fun l => l ++ [work]) shard (wp_shards p)), Signalling)
  | Signalling => (fun p1 => (p1, Returned 0)) <$> signal p target
  | Returned _ => None
  end.

Definition work_pool_shutdown (p : work_pool_t) : option work_pool_t :=
  if wp_locked p then None
  else
    Some (mkPool (wp_shards p) (wp_next_shard p) false true (wp_idleCount p) (map wake (wp_workers p)) (wp_producers p)
            (wp_idle_signals p) (wp_done p) (wp_accepted p)).

(** Who moves: a worker, a producer (with the sleeper its signal picks), a new
    call of [work_pool_enqueue], the shutdown, a spurious wake-up. *)
Inductive actor :=
| Worker (k : nat)
| Producer (k target : nat)
| Enqueue (work : Z)
| Shutdown
| Spurious (k : nat).

Definition pool_step (p : work_pool_t) (a : actor) : option work_pool_t :=
  match a with
  | Worker k =>
      match wp_workers p !! k with
      | Some w => (fun r => wp_with_workers r.1 (<[k := r.2]> (wp_workers r.1))) <$> worker_step p w
      | None => None
      end
  | Producer k target =>
      match wp_producers p !! k with
      | Some pc => (fun r => wp_with_producers r.1 (<[k := r.2]> (wp_producers r.1))) <$> producer_step p pc target
      | None => None
      end
  | Enqueue work => Some (wp_with_producers p (wp_producers p ++ [Checking work]))
  | Shutdown => work_pool_shutdown p
  | Spurious k =>
      match wp_workers p !! k with
      | Some w => if is_sleeping w then Some (wp_with_workers p (<[k := wake w]> (wp_workers p))) else None
      | None => None
      end
  end.

Fixpoint pool_run (p : work_pool_t) (l : list actor) : option work_pool_t :=
  match l with
  | [] => Some p
  | a :: l' => match pool_step p a with Some p1 => pool_run p1 l' | None => None end
  end.

(** [work_pool_wait_for_idle_signal] would return at once. *)
Definition idle_now (p : work_pool_t) : bool := wp_idleCount p =? zlen (wp_workers p).
