(* ===== verification/WorkPoolTheorems.v ===== *)
(** * WorkPoolTheorems: every piece of work is run once

    Invariants of the worker pool under every interleaving, what a shutdown
    guarantees, and a schedule in which a signal is lost. *)

From stdpp Require Import gmap.
From S2P Require Import Prelude Refcount WorkQueue WorkQueueTheorems WorkPool.

#[export] Instance worker_pc_eq_dec : EqDecision worker_pc.
Proof. solve_decision. Defined.

(** ** Sums and collections over threads *)

Fixpoint total {A} (f : A → Z) (l : list A) : Z := match l with [] => 0 | x :: l' => f x + total f l' end.

Lemma total_insert {A} (f : A → Z) l k x y : l !! k = Some x → total f (<[k := y]> l) = total f l - f x + f y.
Proof.
  revert k. induction l as [|z l IH]; intros [|k] H; try done.
  - injection H as ->. cbn. lia.
  - change (<[S k := y]> (z :: l)) with (z :: <[k := y]> l). cbn [total]. rewrite (IH k H). lia.
Qed.

Lemma total_app {A} (f : A → Z) l1 l2 : total f (l1 ++ l2) = total f l1 + total f l2.
Proof. induction l1 as [|x l1 IH]; cbn; lia. Qed.

Lemma total_nonneg {A} (f : A → Z) l : (∀ x, 0 <= f x) → 0 <= total f l.
Proof. intros H. induction l as [|x l IH]; cbn; [lia|]. specialize (H x). lia. Qed.

Lemma total_member {A} (f : A → Z) l k x : (∀ x, 0 <= f x) → l !! k = Some x → f x <= total f l.
Proof.
  intros H. revert k. induction l as [|z l IH]; intros [|k] Hk; try done; cbn in Hk |- *.
  - injection Hk as ->. pose proof (total_nonneg f l H). lia.
  - specialize (IH k Hk). specialize (H z). lia.
Qed.

Lemma total_map {A B} (f : B → Z) (g : A → B) l : total f (map g l) = total (fun x => f (g x)) l.
Proof. induction l as [|x l IH]; cbn; lia. Qed.

Lemma total_ext {A} (f g : A → Z) l : (∀ x, f x = g x) → total f l = total g l.
Proof. intros H. induction l as [|x l IH]; cbn; [done|]. rewrite H. lia. Qed.

(** ** The invariant *)

Definition in_hand (w : worker) : list Z := match wk_pc w with Decide (Some x) | Running x => [x] | _ => [] end.
Definition pending (pc : producer_pc) : list Z := match pc with Counting x | Pushing _ x => [x] | _ => [] end.
Definition event_work (e : work_event) : Z := match e with Executed x | Aborted x | WorkFreed x => x end.

Definition holding (w : worker) : Z := match wk_pc w with Recheck _ _ | Resting | Again _ _ | Decide _ => 1 | _ => 0 end.
Definition idling (w : worker) : Z := match wk_pc w with Sleeping | Waking => 1 | _ => 0 end.

Definition stopped_only (e : work_event) : Prop := match e with Aborted _ => True | _ => False end.

Record pool_ok (p : work_pool_t) : Prop := {
  po_shards : length (wp_shards p) = QUEUE_SHARDS;
  po_work : wp_accepted p ≡ₚ flat_map pending (wp_producers p) ++ concat (wp_shards p) ++
              flat_map in_hand (wp_workers p) ++ map event_work (wp_done p);
  po_lock : total holding (wp_workers p) = Z.b2z (wp_locked p);
  po_idle : wp_idleCount p = total idling (wp_workers p);
  po_awake : wp_stop p = true → Forall (fun w => is_sleeping w = false) (wp_workers p);
  po_exit : Exists (fun w => wk_pc w = Exited) (wp_workers p) → wp_stop p = true;
  po_abort : Exists stopped_only (wp_done p) → wp_stop p = true;
  po_shard : Forall (fun pc => match pc with Pushing i _ => (i < QUEUE_SHARDS)%nat | _ => True end) (wp_producers p)
}.

Lemma holding_nonneg w : 0 <= holding w.
Proof. unfold holding. destruct (wk_pc w); lia. Qed.

Lemma holding_locked p k w : pool_ok p → wp_workers p !! k = Some w → holding w = 1 → wp_locked p = true.
Proof.
  intros H Hk Hw. pose proof (total_member holding _ k w holding_nonneg Hk) as Hm. rewrite (po_lock p H) in Hm.
  destruct (wp_locked p); [done|]. cbn in Hm. lia.
Qed.

(** *** A visit moves the head of a list into the worker's hand *)

Lemma visit_Some p shard i x p1 :
  visit p shard i = Some (x, p1) →
  ∃ k l, wp_shards p !! k = Some (x :: l) ∧ p1 = wp_with_shards p (<[k := l]> (wp_shards p)).
Proof.
  unfold visit. destruct (wp_shards p !! _) as [[|y l]|] eqn:E; [done| |done]. intros [= -> <-]. by eexists _, _.
Qed.

Lemma visit_work p shard i x p1 :
  visit p shard i = Some (x, p1) → concat (wp_shards p) ≡ₚ x :: concat (wp_shards p1) ∧ length (wp_shards p1) = length (wp_shards p).
Proof.
  intros (k & l & Hk & ->)%visit_Some. destruct (concat_insert _ _ _ Hk) as (rest & E & Ei & _). cbn [wp_shards wp_with_shards].
  split; [by rewrite E, Ei|apply length_insert].
Qed.

(** What a step of a worker leaves alone and what it moves. *)
Record worker_effect (p : work_pool_t) (w : worker) (p1 : work_pool_t) (w1 : worker) : Prop := {
  we_same : (wp_workers p1, wp_producers p1, wp_accepted p1, wp_stop p1, wp_next_shard p1) =
            (wp_workers p, wp_producers p, wp_accepted p, wp_stop p, wp_next_shard p);
  we_shards : length (wp_shards p1) = length (wp_shards p);
  we_work : concat (wp_shards p) ++ in_hand w ++ map event_work (wp_done p) ≡ₚ
            concat (wp_shards p1) ++ in_hand w1 ++ map event_work (wp_done p1);
  we_lock : Z.b2z (wp_locked p1) = Z.b2z (wp_locked p) - holding w + holding w1;
  we_idle : wp_idleCount p1 = wp_idleCount p - idling w + idling w1;
  we_awake : wp_stop p = true → is_sleeping w1 = false;
  we_exit : wk_pc w1 = Exited → wp_stop p = true;
  we_abort : Exists stopped_only (wp_done p1) → Exists stopped_only (wp_done p) ∨ wp_stop p = true
}.

Lemma visit_effect p w shard i x p1 pc :
  visit p shard i = Some (x, p1) → in_hand w = [] → in_hand (mkWorker pc (wk_start w)) = [x] →
  holding (mkWorker pc (wk_start w)) = holding w → idling (mkWorker pc (wk_start w)) = idling w →
  worker_effect p w p1 (mkWorker pc (wk_start w)).
Proof.
  intros Hv E0 E1 Eh Ei. destruct (visit_work _ _ _ _ _ Hv) as [Ew El]. apply visit_Some in Hv as (k & l & Hk & ->).
  constructor; cbn [wp_with_shards wp_workers wp_producers wp_accepted wp_stop wp_next_shard wp_done wp_locked wp_idleCount] in *; try done.
  - rewrite E0, E1, Ew. cbn. apply Permutation_middle.
  - lia.
  - lia.
  - intros _. unfold is_sleeping, in_hand in *. by destruct pc.
  - intros Ep. unfold in_hand in E1. cbn in E1, Ep. by rewrite Ep in E1.
  - by left.
Qed.

(** The parts of an effect that evaluation settles. *)
Ltac settle := try done; try lia; try (by left).

(** A move that only changes the place in the program. *)
Lemma move_effect p w w1 :
  in_hand w1 = in_hand w → holding w1 = holding w → idling w1 = idling w → is_sleeping w1 = false → wk_pc w1 ≠ Exited →
  worker_effect p w p w1.
Proof. intros E1 E2 E3 E4 E5. constructor; try done; [by rewrite E1|lia|lia|by left]. Qed.

Lemma worker_step_effect p k w p1 w1 :
  pool_ok p → wp_workers p !! k = Some w → worker_step p w = Some (p1, w1) → worker_effect p w p1 w1.
Proof.
  intros H Hk E. unfold worker_step in E. destruct w as [pc start]. cbn [wk_pc wk_start] in E.
  destruct pc as [shard i| |shard i| | | |shard i|[x|]|x|]; try done.
  - destruct (visit p shard i) as [[x p']|] eqn:Ev; injection E as <- <-; [by eapply (visit_effect p (mkWorker (Fast shard i) start))|].
    apply move_effect; destruct (last_shard i); done.
  - destruct (wp_locked p) eqn:El; [done|]. injection E as <- <-. constructor; cbn; rewrite ?El; settle.
  - destruct (visit p shard i) as [[x p']|] eqn:Ev; injection E as <- <-; [by eapply (visit_effect p (mkWorker (Recheck shard i) start))|].
    apply move_effect; destruct (last_shard i); done.
  - destruct (wp_stop p) eqn:Es; injection E as <- <-.
    + by apply move_effect.
    + pose proof (holding_locked p k _ H Hk eq_refl) as Hl. constructor; cbn; rewrite ?Hl, ?Es; settle.
  - destruct (wp_locked p) eqn:El; [done|]. injection E as <- <-. constructor; cbn; rewrite ?El; settle.
  - destruct (visit p shard i) as [[x p']|] eqn:Ev; injection E as <- <-; [by eapply (visit_effect p (mkWorker (Again shard i) start))|].
    apply move_effect; destruct (last_shard i); done.
  - pose proof (holding_locked p k _ H Hk eq_refl) as Hl. injection E as <- <-. constructor; cbn; rewrite ?Hl; settle.
  - pose proof (holding_locked p k _ H Hk eq_refl) as Hl. injection E as <- <-.
    destruct (wp_stop p) eqn:Es; constructor; cbn; rewrite ?Hl, ?Es; settle.
  - injection E as <- <-. constructor; cbn; settle.
    + rewrite map_app. cbn. 
      destruct (wp_stop p); cbn; by rewrite Permutation_app_comm with (l := map event_work (wp_done p)).
    + rewrite Exists_app. intros [?|Hx]; [by left|right]. destruct (wp_stop p); [done|]. by apply Exists_cons in Hx as [[]|?%Exists_nil].
Qed.

(** *** Every step preserves the invariant *)

Lemma Exists_insert_inv {A} (P : A → Prop) l k x : Exists P (<[k := x]> l) → Exists P l ∨ P x.
Proof.
  rewrite !list.Exists_exists. intros (y & Hy & HP). apply list_elem_of_lookup_1 in Hy as [j Hj].
  destruct (decide (j = k)) as [->|Hne].
  - apply list_lookup_insert_Some in Hj as [(_ & -> & _)|[? _]]; [by right|done].
  - rewrite list_lookup_insert_ne in Hj by done. left. exists y. split; [by eapply list_elem_of_lookup_2|done].
Qed.

Lemma worker_ok p k w p1 w1 :
  pool_ok p → wp_workers p !! k = Some w → worker_step p w = Some (p1, w1) →
  pool_ok (wp_with_workers p1 (<[k := w1]> (wp_workers p1))).
Proof.
  intros H Hk E. pose proof (worker_step_effect p k w p1 w1 H Hk E) as [Es El Ew Elk Ei Eaw Eex Eab].
  injection Es as Ewk Epr Eac Est Enx.
  destruct (flat_map_insert in_hand (wp_workers p) k w Hk) as (rest & Er & Eri). destruct H.
  constructor; cbn [wp_with_workers wp_shards wp_workers wp_producers wp_accepted wp_stop wp_done wp_locked wp_idleCount];
    rewrite ?Ewk, ?Epr, ?Eac, ?Est.
  - congruence.
  - rewrite po_work0, Er, Eri. rewrite <- !(assoc_L (++)). f_equiv.
    transitivity (rest ++ (concat (wp_shards p) ++ in_hand w ++ map event_work (wp_done p))); [solve_Permutation|].
    rewrite Ew. solve_Permutation.
  - rewrite (total_insert _ _ _ _ _ Hk). lia.
  - rewrite (total_insert _ _ _ _ _ Hk). lia.
  - intros Hs. apply Forall_insert; [by apply po_awake0|by apply Eaw].
  - intros [?|?]%Exists_insert_inv; [by apply po_exit0|by apply Eex].
  - intros [?|?]%Eab; [by apply po_abort0|done].
  - done.
Qed.

Lemma wake_facts w :
  in_hand (wake w) = in_hand w ∧ holding (wake w) = holding w ∧ idling (wake w) = idling w ∧ is_sleeping (wake w) = false ∧
  (wk_pc (wake w) = Exited → wk_pc w = Exited).
Proof. destruct w as [pc start]. by destruct pc. Qed.

(** Waking one sleeper. *)
Lemma wake_one_ok p k w :
  pool_ok p → wp_workers p !! k = Some w → pool_ok (wp_with_workers p (<[k := wake w]> (wp_workers p))).
Proof.
  intros H Hk. destruct (wake_facts w) as (E1 & E2 & E3 & E4 & E5).
  destruct (flat_map_insert in_hand (wp_workers p) k w Hk) as (rest & Er & Eri). destruct H.
  constructor; cbn [wp_with_workers wp_shards wp_workers wp_producers wp_accepted wp_stop wp_done wp_locked wp_idleCount]; try done.
  - rewrite po_work0, Er, Eri. by rewrite E1.
  - rewrite (total_insert _ _ _ _ _ Hk). lia.
  - rewrite (total_insert _ _ _ _ _ Hk). lia.
  - intros Hs. by apply Forall_insert; [apply po_awake0|].
  - intros [?|?]%Exists_insert_inv; [by apply po_exit0|]. apply po_exit0, list.Exists_exists. exists w.
    split; [by eapply list_elem_of_lookup_2|by apply E5].
Qed.

Lemma signal_ok p target p1 : pool_ok p → signal p target = Some p1 → pool_ok p1 ∧ wp_producers p1 = wp_producers p.
Proof.
  intros H. unfold signal. destruct (negb _); [by intros [= <-]|]. destruct (wp_workers p !! target) as [w|] eqn:Hk; [|done].
  destruct (is_sleeping w); [|done]. intros [= <-]. split; [by apply wake_one_ok|done].
Qed.

(** Replacing a producer by one that holds the same work. *)
Lemma producer_move_ok p k pc pc1 :
  pool_ok p → wp_producers p !! k = Some pc → pending pc1 = pending pc →
  match pc1 with Pushing i _ => (i < QUEUE_SHARDS)%nat | _ => True end →
  pool_ok (wp_with_producers p (<[k := pc1]> (wp_producers p))).
Proof.
  intros H Hk E Hi. destruct (flat_map_insert pending (wp_producers p) k pc Hk) as (rest & Er & Eri). destruct H.
  constructor; cbn [wp_with_producers wp_shards wp_workers wp_producers wp_accepted wp_stop wp_done wp_locked wp_idleCount]; try done.
  - rewrite po_work0, Er, Eri. by rewrite E.
  - by apply Forall_insert.
Qed.

Lemma producer_ok p k pc target p1 pc1 :
  pool_ok p → wp_producers p !! k = Some pc → producer_step p pc target = Some (p1, pc1) →
  pool_ok (wp_with_producers p1 (<[k := pc1]> (wp_producers p1))).
Proof.
  intros H Hk E. destruct (flat_map_insert pending (wp_producers p) k pc Hk) as (rest & Er & Eri).
  destruct pc as [x|x|i x| |rc]; cbn [producer_step] in E; [| | | |done].
  - destruct (wp_locked p) eqn:El; [done|]. destruct (wp_stop p) eqn:Es; injection E as <- <-; [by eapply producer_move_ok|].
    destruct H. constructor; cbn [wp_with_producers wp_with_accepted wp_shards wp_workers wp_producers wp_accepted wp_stop wp_done wp_locked wp_idleCount];
      try done; [|by apply Forall_insert].
    rewrite Eri, po_work0, Er. cbn. solve_Permutation.
  - injection E as <- <-. pose proof (producer_move_ok p k _ (Pushing (shard_of (wp_next_shard p)) x) H Hk eq_refl (shard_range _)) as [].
    by constructor.
  - injection E as <- <-. destruct H. pose proof (Forall_lookup_1 _ _ _ _ po_shard0 Hk) as Hi. cbn in Hi.
    destruct (lookup_lt_is_Some_2 (wp_shards p) i) as [l Hl]; [lia|]. destruct (concat_insert _ _ _ Hl) as (rs & E1 & E2 & _).
    constructor; cbn [wp_with_producers wp_with_shards wp_shards wp_workers wp_producers wp_accepted wp_stop wp_done wp_locked wp_idleCount]; try done.
    + by rewrite length_alter.
    + rewrite (alter_as_insert _ _ _ _ Hl), Eri, E2, po_work0, Er, E1. cbn [pending]. solve_Permutation.
    + by apply Forall_insert.
  - destruct (signal p target) as [p2|] eqn:Es; [|done]. injection E as <- <-. apply signal_ok in Es as [H2 Ep]; [|done].
    rewrite Ep, <- Ep in *. by eapply producer_move_ok.
Qed.

Lemma shutdown_ok p p1 : pool_ok p → work_pool_shutdown p = Some p1 → pool_ok p1.
Proof.
  intros H. unfold work_pool_shutdown. destruct (wp_locked p) eqn:El; [done|]. intros [= <-]. destruct H.
  assert (Eh : flat_map in_hand (map wake (wp_workers p)) = flat_map in_hand (wp_workers p)).
  { rewrite !flat_map_concat_map, map_map. f_equal. apply map_ext. intros w. apply (wake_facts w). }
  constructor; cbn; try done.
  - by rewrite Eh.
  - rewrite total_map, (total_ext _ holding) by (intros w; apply (wake_facts w)).
    by rewrite po_lock0, El.
  - rewrite total_map, (total_ext _ idling) by (intros w; apply (wake_facts w)). done.
  - intros _. apply list.Forall_forall. intros w (w0 & -> & _)%list_elem_of_fmap. apply (wake_facts w0).
Qed.

Lemma pool_step_ok p a p1 : pool_ok p → pool_step p a = Some p1 → pool_ok p1.
Proof.
  intros H. destruct a as [k|k target|x| |k]; cbn [pool_step].
  - destruct (wp_workers p !! k) as [w|] eqn:Hk; [|done]. destruct (worker_step p w) as [[p2 w2]|] eqn:E; [|done].
    intros [= <-]. by eapply worker_ok.
  - destruct (wp_producers p !! k) as [pc|] eqn:Hk; [|done]. destruct (producer_step p pc target) as [[p2 pc2]|] eqn:E; [|done].
    intros [= <-]. by eapply producer_ok.
  - intros [= <-]. destruct H. constructor; cbn; try done.
    + rewrite flat_map_app. cbn. by rewrite app_nil_r.
    + apply Forall_app_2; [done|]. by repeat constructor.
  - by apply shutdown_ok.
  - destruct (wp_workers p !! k) as [w|] eqn:Hk; [|done]. destruct (is_sleeping w); [|done]. intros [= <-].
    by apply wake_one_ok.
Qed.

Lemma launch_ok size : pool_ok (work_pool_launch size).
Proof.
  assert (Hr : ∀ f : worker → Z, f (mkWorker (Fast 0 0) 1) = 0 → total f (replicate size (mkWorker (Fast 0 0) 1)) = 0).
  { intros f Hf. induction size as [|n IH]; cbn; lia. }
  constructor; cbn [work_pool_launch wp_shards wp_workers wp_producers wp_accepted wp_stop wp_done wp_locked wp_idleCount]; try done.
  - assert (flat_map in_hand (replicate size (mkWorker (Fast 0 0) 1)) = []) as ->; [|done]. clear. induction size as [|n IH]; [done|exact IH].
  - by rewrite Hr.
  - by rewrite Hr.
  - intros (w & Hw & E)%list.Exists_exists. apply elem_of_replicate in Hw as [-> _]. done.
  - by intros ?%Exists_nil.
Qed.

Lemma pool_run_ok l p p1 : pool_ok p → pool_run p l = Some p1 → pool_ok p1.
Proof.
  revert p. induction l as [|a l IH]; intros p H; cbn [pool_run]; [by intros [= <-]|].
  destruct (pool_step p a) as [p2|] eqn:E; [|done]. intros Hr. eapply IH; [|done]. by eapply pool_step_ok.
Qed.

(** ** Every piece of work is run once *)

Definition pool_finished (p : work_pool_t) : Prop :=
  Forall (fun w => wk_pc w = Exited) (wp_workers p) ∧ Forall (fun pc => ∃ rc, pc = Returned rc) (wp_producers p).

#[export] Instance returned_dec pc : Decision (∃ rc, pc = Returned rc).
Proof. destruct pc; [right; by intros [? ?]..|left; by eexists]. Defined.

#[export] Instance finished_dec p : Decision (pool_finished p).
Proof. unfold pool_finished. apply _. Defined.

Lemma finished_idle p :
  pool_finished p → flat_map pending (wp_producers p) = [] ∧ flat_map in_hand (wp_workers p) = [].
Proof.
  intros [Hw Hp]. split.
  - induction Hp as [|pc l [rc ->] _ IH]; [done|exact IH].
  - induction Hw as [|[pc start] l E _ IH]; [done|]. cbn in E. subst pc. exact IH.
Qed.

Lemma last_shard_spec i : last_shard i = true ↔ (15 <= i)%nat.
Proof. unfold last_shard, QUEUE_SHARDS. rewrite Nat.leb_le. lia. Qed.

(** ** What a shutdown drains *)

(** The queue of a stopped pool: [o], what was queued at the shutdown and still is,
    in front of [n], what was pushed since. *)
Record queued_as (ss o n : list (list Z)) : Prop := {
  qa_len : length ss = QUEUE_SHARDS;
  qa_new : length n = QUEUE_SHARDS;
  qa_shard : ∀ i, (i < QUEUE_SHARDS)%nat → ∃ x y, o !! i = Some x ∧ n !! i = Some y ∧ ss !! i = Some (x ++ y)
}.

Definition drained (o : list (list Z)) (i : nat) : Prop := o !! i = Some [].

(** What a worker has seen of the old work on its scan under the lock. *)
Definition passed (o : list (list Z)) (w : worker) : Prop :=
  match wk_pc w with
  | Recheck shard i | Again shard i => ∀ j, (j < i)%nat → drained o (shard_of (shard + Z.of_nat j))
  | Resting | Decide None | Exited => ∀ j, (j < QUEUE_SHARDS)%nat → drained o j
  | _ => True
  end.

(** [P0] is the work accepted and not yet pushed at the shutdown. *)
Record draining (P0 : list Z) (o n : list (list Z)) (p : work_pool_t) : Prop := {
  dr_stop : wp_stop p = true;
  dr_queue : queued_as (wp_shards p) o n;
  dr_new : flat_map pending (wp_producers p) ++ concat n ⊆+ P0;
  dr_workers : Forall (passed o) (wp_workers p)
}.

Lemma passed_mono o o' w : (∀ j, drained o j → drained o' j) → passed o w → passed o' w.
Proof. intros H. unfold passed. destruct (wk_pc w) as [| | | | | | |[]| |]; auto. Qed.

Lemma scan_complete o shard i :
  last_shard i = true → (∀ j, (j < S i)%nat → drained o (shard_of (shard + Z.of_nat j))) → ∀ k, (k < QUEUE_SHARDS)%nat → drained o k.
Proof.
  rewrite last_shard_spec. intros Hi H k Hk. pose proof (Z.mod_pos_bound (Z.of_nat k - shard) 16 ltac:(lia)) as Hm.
  specialize (H (Z.to_nat ((Z.of_nat k - shard) mod 16)) ltac:(lia)). rewrite Z2Nat.id in H by lia.
  unfold shard_of, QUEUE_SHARDS in H. change (Z.of_nat 16) with 16 in H. rewrite Zplus_mod_idemp_r in H.
  replace (shard + (Z.of_nat k - shard)) with (Z.of_nat k) in H by lia. unfold QUEUE_SHARDS in Hk. rewrite Z.mod_small, Nat2Z.id in H by lia. exact H.
Qed.

(** An empty shard has no old work. *)
Lemma visit_none p o n shard i :
  queued_as (wp_shards p) o n → visit p shard i = None → drained o (shard_of (shard + Z.of_nat i)).
Proof.
  intros [_ _ Hq] Hv. destruct (Hq (shard_of (shard + Z.of_nat i)) (shard_range _)) as (x & y & Ex & Ey & E).
  unfold visit in Hv. rewrite E in Hv. unfold drained. rewrite Ex. by destruct x.
Qed.

Lemma queued_insert ss o n k o' n' l x y :
  queued_as ss o n → (k < QUEUE_SHARDS)%nat → l = x ++ y → o' !! k = Some x → n' !! k = Some y →
  (∀ j, j ≠ k → o' !! j = o !! j) → (∀ j, j ≠ k → n' !! j = n !! j) → length n' = length n → queued_as (<[k := l]> ss) o' n'.
Proof.
  intros [Hl Hln Hq] Hk -> Ex Ey Ho Hn En. split; [by rewrite length_insert|by rewrite En|]. intros j Hj. destruct (decide (j = k)) as [->|Hne].
  - exists x, y. rewrite list_lookup_insert_eq by lia. done.
  - rewrite list_lookup_insert_ne, Ho, Hn by done. by apply Hq.
Qed.

(** Taking the head of a shard: old work if there is any. *)
Lemma visit_drains p o n shard i x p1 :
  queued_as (wp_shards p) o n → visit p shard i = Some (x, p1) →
  ∃ o' n', queued_as (wp_shards p1) o' n' ∧ (∀ j, drained o j → drained o' j) ∧ concat n' ⊆+ concat n.
Proof.
  intros Hqa (k & l & Hk & ->)%visit_Some. pose proof Hqa as [Hl _ Hq]. cbn [wp_shards wp_with_shards].
  assert (Hkl : (k < QUEUE_SHARDS)%nat) by (apply lookup_lt_Some in Hk; lia).
  destruct (Hq k Hkl) as (a & b & Ea & Eb & E). rewrite Hk in E. injection E as E. destruct a as [|z a].
  - exists o, (<[k := l]> n). split; [|split; [done|]].
    + eapply (queued_insert _ o n k _ _ l [] l); [done|done|done|done| |done| |apply length_insert].
      * apply list_lookup_insert_eq. by apply lookup_lt_Some in Eb.
      * intros j Hne. by apply list_lookup_insert_ne.
    + destruct (concat_insert n k b Eb) as (rest & E1 & E2 & _). rewrite E1, E2. cbn in E. subst b. cbn. by apply submseteq_cons.
  - cbn in E. injection E as -> ->. exists (<[k := a]> o), n. split; [|split; [|done]].
    + eapply (queued_insert _ o n k _ _ _ a b); [done|done|done| |done| |done|done].
      * apply list_lookup_insert_eq. by apply lookup_lt_Some in Ea.
      * intros j Hne. by apply list_lookup_insert_ne.
    + intros j Hj. unfold drained in *. rewrite list_lookup_insert_ne; [done|]. intros <-. congruence.
Qed.

Lemma worker_drains P0 o n p k w p1 w1 :
  pool_ok p → draining P0 o n p → wp_workers p !! k = Some w → worker_step p w = Some (p1, w1) →
  ∃ o' n', draining P0 o' n' (wp_with_workers p1 (<[k := w1]> (wp_workers p1))).
Proof.
  intros Hok [Hs Hq Hn Hw] Hk E. pose proof (worker_step_effect p k w p1 w1 Hok Hk E) as [Es _ _ _ _ _ _ _].
  injection Es as Ewk Epr _ Est _. pose proof (Forall_lookup_1 _ _ _ _ Hw Hk) as Hp.
  assert (Hput : ∀ o' n', queued_as (wp_shards p1) o' n' → (∀ j, drained o j → drained o' j) → concat n' ⊆+ concat n → passed o' w1 →
    ∃ o' n', draining P0 o' n' (wp_with_workers p1 (<[k := w1]> (wp_workers p1)))).
  { intros o' n' Hq' Hmono Hsub Hp'. exists o', n'. split; cbn [wp_with_workers wp_stop wp_shards wp_producers wp_workers]; rewrite ?Est, ?Epr, ?Ewk; [done|done| |].
    - etrans; [|exact Hn]. by apply submseteq_app.
    - apply Forall_insert; [|done]. eapply list.Forall_impl; [exact Hw|]. intros w' Hw'. by eapply passed_mono. }
  assert (Hsame : wp_shards p1 = wp_shards p → passed o w1 → ∃ o' n', draining P0 o' n' (wp_with_workers p1 (<[k := w1]> (wp_workers p1)))).
  { intros Esh. apply (Hput o n); [by rewrite Esh|done|done]. }
  assert (Htake : ∀ shard i x, visit p shard i = Some (x, p1) → (∀ o', passed o' w1) →
    ∃ o' n', draining P0 o' n' (wp_with_workers p1 (<[k := w1]> (wp_workers p1)))).
  { intros shard i x Hv Hp'. destruct (visit_drains p o n shard i x p1 Hq Hv) as (o' & n' & Hq' & Hm & Hsub). by apply (Hput o' n'). }
  unfold worker_step in E. destruct w as [pc start]. cbn [wk_pc wk_start] in E.
  destruct pc as [shard i| |shard i| | | |shard i|[x|]|x|]; try done.
  - destruct (visit p shard i) as [[x p']|] eqn:Ev; injection E as <- <-; [by eapply Htake|].
    apply Hsame; [done|]. by destruct (last_shard i).
  - destruct (wp_locked p); [done|]. injection E as <- <-. apply Hsame; [done|]. intros j Hj. lia.
  - destruct (visit p shard i) as [[x p']|] eqn:Ev; injection E as <- <-; [by eapply Htake|]. apply Hsame; [done|].
    assert (Hscan : ∀ j, (j < S i)%nat → drained o (shard_of (shard + Z.of_nat j))).
    { intros j Hj. destruct (decide (j = i)) as [->|]; [by eapply visit_none|]. apply Hp. lia. }
    destruct (last_shard i) eqn:El; [|exact Hscan]. exact (scan_complete o shard i El Hscan).
  - rewrite Hs in E. injection E as <- <-. by apply Hsame.
  - destruct (wp_locked p); [done|]. injection E as <- <-. apply Hsame; [done|]. intros j Hj. lia.
  - destruct (visit p shard i) as [[x p']|] eqn:Ev; injection E as <- <-; [by eapply Htake|]. apply Hsame; [done|].
    assert (Hscan : ∀ j, (j < S i)%nat → drained o (shard_of (shard + Z.of_nat j))).
    { intros j Hj. destruct (decide (j = i)) as [->|]; [by eapply visit_none|]. apply Hp. lia. }
    destruct (last_shard i) eqn:El; [|exact Hscan]. exact (scan_complete o shard i El Hscan).
  - injection E as <- <-. by apply Hsame.
  - rewrite Hs in E. injection E as <- <-. by apply Hsame.
  - injection E as <- <-. by apply Hsame.
Qed.

Lemma passed_wake o w : passed o w → passed o (wake w).
Proof. destruct w as [pc start]. by destruct pc. Qed.

Lemma wake_drains P0 o n p k w :
  draining P0 o n p → wp_workers p !! k = Some w → draining P0 o n (wp_with_workers p (<[k := wake w]> (wp_workers p))).
Proof.
  intros [Hs Hq Hn Hw] Hk. split; [done|done|done|]. cbn. apply Forall_insert; [done|]. apply passed_wake.
  exact (Forall_lookup_1 _ _ _ _ Hw Hk).
Qed.

Lemma push_drains ss o n i x :
  queued_as ss o n → (i < QUEUE_SHARDS)%nat →
  ∃ n', queued_as (alter (fun l => l ++ [x]) i ss) o n' ∧ concat n' ≡ₚ x :: concat n.
Proof.
  intros Hqa Hi. pose proof Hqa as [Hl _ Hq]. destruct (Hq i Hi) as (a & b & Ea & Eb & E). exists (<[i := b ++ [x]]> n).
  rewrite (alter_as_insert _ _ _ _ E). split.
  - eapply (queued_insert ss o n i _ _ _ a (b ++ [x])); [done|done|by rewrite (assoc_L (++))|done| |done| |apply length_insert].
    + apply list_lookup_insert_eq. by apply lookup_lt_Some in Eb.
    + intros j Hne. by apply list_lookup_insert_ne.
  - destruct (concat_insert n i b Eb) as (rest & E1 & E2 & _). rewrite E2, E1. solve_Permutation.
Qed.

Lemma producer_drains P0 o n p k pc target p1 pc1 :
  pool_ok p → draining P0 o n p → wp_producers p !! k = Some pc → producer_step p pc target = Some (p1, pc1) →
  ∃ n', draining P0 o n' (wp_with_producers p1 (<[k := pc1]> (wp_producers p1))).
Proof.
  intros Hok Hd Hk E. pose proof Hd as [Hs Hq Hn Hw]. destruct (flat_map_insert pending (wp_producers p) k pc Hk) as (rest & Er & Eri).
  destruct pc as [x|x|i x| |rc]; cbn [producer_step] in E; [| | | |done].
  - destruct (wp_locked p); [done|]. rewrite Hs in E. injection E as <- <-. exists n. split; [done|done| |done].
    cbn. by rewrite Eri, <- Er.
  - injection E as <- <-. exists n. split; [done|done| |done]. cbn. by rewrite Eri, <- Er.
  - injection E as <- <-. pose proof (Forall_lookup_1 _ _ _ _ (po_shard p Hok) Hk) as Hi. cbn in Hi.
    destruct (push_drains _ o n i x Hq Hi) as (n' & Hq' & En). exists n'. split; [done|exact Hq'| |done].
    cbn [wp_producers wp_with_producers wp_with_shards]. rewrite Eri, En. rewrite Er in Hn. cbn [pending app] in *.
    by rewrite <- Permutation_middle.
  - destruct (signal p target) as [p2|] eqn:Esig; [|done]. injection E as <- <-. exists n.
    assert (Hd2 : draining P0 o n p2 ∧ wp_producers p2 = wp_producers p).
    { unfold signal in Esig. destruct (negb _); [by injection Esig as <-|]. destruct (wp_workers p !! target) as [w|] eqn:Ht; [|done].
      destruct (is_sleeping w); [|done]. injection Esig as <-. split; [by apply wake_drains|done]. }
    destruct Hd2 as [[Hs2 Hq2 Hn2 Hw2] Ep]. split; [done|done| |done]. cbn. rewrite Ep, Eri. rewrite Ep, Er in Hn2. done.
Qed.

Lemma step_drains P0 o n p a p1 :
  pool_ok p → draining P0 o n p → pool_step p a = Some p1 → ∃ o' n', draining P0 o' n' p1.
Proof.
  intros Hok Hd. destruct a as [k|k target|x| |k]; cbn [pool_step].
  - destruct (wp_workers p !! k) as [w|] eqn:Hk; [|done]. destruct (worker_step p w) as [[p2 w2]|] eqn:E; [|done].
    intros [= <-]. by eapply worker_drains.
  - destruct (wp_producers p !! k) as [pc|] eqn:Hk; [|done]. destruct (producer_step p pc target) as [[p2 pc2]|] eqn:E; [|done].
    intros [= <-]. exists o. by eapply producer_drains.
  - intros [= <-]. exists o, n. destruct Hd as [Hs Hq Hn Hw]. split; [done|done| |done]. cbn. rewrite flat_map_app. cbn. by rewrite app_nil_r.
  - unfold work_pool_shutdown. destruct (wp_locked p); [done|]. intros [= <-]. exists o, n. destruct Hd as [Hs Hq Hn Hw]. split; [done|done|done|].
    cbn. apply Forall_fmap. eapply list.Forall_impl; [exact Hw|]. intros w. apply passed_wake.
  - destruct (wp_workers p !! k) as [w|] eqn:Hk; [|done]. destruct (is_sleeping w); [|done]. intros [= <-]. exists o, n. by apply wake_drains.
Qed.

(** At the shutdown no worker is inside a scan under the lock, and none has left. *)
Lemma shutdown_drains p p1 :
  pool_ok p → wp_stop p = false → work_pool_shutdown p = Some p1 →
  draining (flat_map pending (wp_producers p)) (wp_shards p) (replicate QUEUE_SHARDS []) p1.
Proof.
  intros Hok Hs. unfold work_pool_shutdown. destruct (wp_locked p) eqn:El; [done|]. intros [= <-]. split; [done| | |]; cbn [wp_shards wp_producers wp_workers].
  - split; [apply Hok|apply length_replicate|]. intros i Hi. destruct (lookup_lt_is_Some_2 (wp_shards p) i) as [l Hl]; [rewrite (po_shards p Hok); done|].
    exists l, []. rewrite app_nil_r. split; [done|]. split; [by apply lookup_replicate_2|done].
  - assert (Hc : ∀ m, concat (replicate m (@nil Z)) = []) by (induction m; done). by rewrite Hc, app_nil_r.
  - apply Forall_fmap, list.Forall_lookup. intros k w Hk. apply passed_wake. unfold passed.
    pose proof (total_member holding _ k w holding_nonneg Hk) as Hh. rewrite (po_lock p Hok), El in Hh. cbn in Hh.
    unfold holding in Hh. destruct (wk_pc w) as [| | | | | | |[]| |] eqn:Epc; try done; try lia.
    exfalso. assert (wp_stop p = true); [|congruence]. apply (po_exit p Hok). apply list.Exists_exists. exists w.
    split; [by eapply list_elem_of_lookup_2|done].
Qed.

Lemma run_drains P0 l o n p p1 :
  pool_ok p → draining P0 o n p → pool_run p l = Some p1 → pool_ok p1 ∧ ∃ o' n', draining P0 o' n' p1.
Proof.
  revert o n p. induction l as [|a l IH]; intros o n p Hok Hd; cbn [pool_run]; [intros [= <-]; split; [done|by exists o, n]|].
  destruct (pool_step p a) as [p2|] eqn:E; [|done]. intros Hr. destruct (step_drains P0 o n p a p2 Hok Hd E) as (o' & n' & Hd').
  eapply IH; [by eapply pool_step_ok|exact Hd'|exact Hr].
Qed.

(** Once a worker has left, nothing that was queued at the shutdown is. *)
Lemma exited_drained P0 o n p :
  draining P0 o n p → Exists (fun w => wk_pc w = Exited) (wp_workers p) → concat (wp_shards p) = concat n.
Proof.
  intros [_ [Hl Hn Hq] _ Hw] (w & Hin & Ew)%list.Exists_exists. pose proof (proj1 (list.Forall_forall _ _) Hw w Hin) as Hp. unfold passed in Hp.
  rewrite Ew in Hp. f_equal. apply list_eq. intros i. destruct (decide (i < QUEUE_SHARDS)%nat) as [Hi|Hi].
  - destruct (Hq i Hi) as (x & y & Ex & Ey & E). specialize (Hp i Hi). unfold drained in Hp. rewrite Hp in Ex. injection Ex as <-. by rewrite E, Ey.
  - rewrite !lookup_ge_None_2; [done|lia|lia].
Qed.

(** After the shutdown nothing is accepted. *)
Lemma stopped_accepts p a p1 :
  pool_ok p → wp_stop p = true → pool_step p a = Some p1 → wp_accepted p1 = wp_accepted p ∧ wp_stop p1 = true ∧ length (wp_workers p1) = length (wp_workers p).
Proof.
  intros Hok Hs. destruct a as [k|k target|x| |k]; cbn [pool_step].
  - destruct (wp_workers p !! k) as [w|] eqn:Hk; [|done]. destruct (worker_step p w) as [[p2 w2]|] eqn:E; [|done].
    destruct (worker_step_effect p k w p2 w2 Hok Hk E) as [Es _ _ _ _ _ _ _]. injection Es as Ew _ Ea Est _.
    intros [= <-]. cbn. by rewrite Ea, Est, length_insert, Ew.
  - destruct (wp_producers p !! k) as [pc|]; [|done]. destruct (producer_step p pc target) as [[p2 pc2]|] eqn:E; [|done].
    intros [= <-]. cbn. destruct pc as [x|x|i x| |rc]; cbn [producer_step] in E; [| | | |done].
    + destruct (wp_locked p); [done|]. rewrite Hs in E. by injection E as <- <-.
    + by injection E as <- <-.
    + by injection E as <- <-.
    + unfold signal in E. destruct (negb _); [by injection E as <- <-|]. destruct (wp_workers p !! target); [|done].
      destruct (is_sleeping _); [|done]. injection E as <- <-. cbn. by rewrite length_insert.
  - by intros [= <-].
  - unfold work_pool_shutdown. destruct (wp_locked p); [done|]. intros [= <-]. cbn. by rewrite length_map.
  - destruct (wp_workers p !! k); [|done]. destruct (is_sleeping _); [|done]. intros [= <-]. cbn. by rewrite length_insert.
Qed.

Lemma stopped_run_accepts l p p1 :
  pool_ok p → wp_stop p = true → pool_run p l = Some p1 → wp_accepted p1 = wp_accepted p ∧ length (wp_workers p1) = length (wp_workers p).
Proof.
  revert p. induction l as [|a l IH]; intros p H Hs; cbn [pool_run]; [by intros [= <-]|].
  destruct (pool_step p a) as [p2|] eqn:E; [|done]. intros Hr. destruct (stopped_accepts p a p2 H Hs E) as (E1 & E2 & E3).
  destruct (IH p2 (pool_step_ok p a p2 H E) E2 Hr) as [E4 E5]. split; congruence.
Qed.

(** C31. The worker pool neither loses nor repeats accepted work, under every
    interleaving of workers, producers, spurious wake-ups and a shutdown: what was
    accepted is, with multiplicity, what producers are about to push, what is queued,
    what workers hold and what has been executed or aborted, so a piece of work is run
    at most once; work is aborted only after a shutdown; the pool lock has one holder;
    and the idle count is the number of waiting workers.  The workers drain the queue
    before they leave: when a pool of at least one worker is shut down for the first
    time in [p] and all threads have finished in [p'], everything that was queued, in a
    worker's hands or done in [p] has been executed or aborted in [p'], and what is
    left in the queue was accepted before the shutdown and pushed after it.  Before a
    shutdown queued work need not be run: a signal can be lost. *)
Theorem pool_exactly_once size l p :
  pool_run (work_pool_launch size) l = Some p →
  wp_accepted p ≡ₚ flat_map pending (wp_producers p) ++ concat (wp_shards p) ++
    flat_map in_hand (wp_workers p) ++ map event_work (wp_done p) ∧
  (base.NoDup (wp_accepted p) → base.NoDup (map event_work (wp_done p))) ∧
  (Exists stopped_only (wp_done p) → wp_stop p = true) ∧
  total holding (wp_workers p) = Z.b2z (wp_locked p) ∧ wp_idleCount p = total idling (wp_workers p) ∧
  ∀ p1 l' p', wp_stop p = false → work_pool_shutdown p = Some p1 → pool_run p1 l' = Some p' → pool_finished p' → (0 < length (wp_workers p))%nat →
    wp_accepted p ≡ₚ concat (wp_shards p') ++ map event_work (wp_done p') ∧
    concat (wp_shards p') ⊆+ flat_map pending (wp_producers p) ∧
    concat (wp_shards p) ++ flat_map in_hand (wp_workers p) ++ map event_work (wp_done p) ⊆+ map event_work (wp_done p').
Proof.
  intros E. apply pool_run_ok in E as Hok; [|apply launch_ok]. pose proof Hok as []. split_and!; try done.
  - intros Hn. rewrite po_work0 in Hn. rewrite !(assoc_L (++)) in Hn. by apply list.NoDup_app in Hn as (_ & _ & ?).
  - intros p1 l' p' Hs Esd Er Hf Hpos. pose proof (shutdown_ok p p1 Hok Esd) as Hok1.
    pose proof (shutdown_drains p p1 Hok Hs Esd) as Hd. destruct (run_drains _ l' _ _ p1 p' Hok1 Hd Er) as (Hok' & o' & n' & Hd').
    destruct (stopped_run_accepts l' p1 p' Hok1 (dr_stop _ _ _ _ Hd) Er) as [Ea El].
    assert (Hsd : wp_accepted p1 = wp_accepted p ∧ length (wp_workers p1) = length (wp_workers p)).
    { unfold work_pool_shutdown in Esd. destruct (wp_locked p); [done|]. injection Esd as <-. cbn. by rewrite length_map. }
    destruct Hsd as [Ea1 El1]. destruct (finished_idle p' Hf) as [E1 E2]. pose proof (po_work p' Hok') as Hw'. rewrite E1, E2, Ea, Ea1 in Hw'.
    cbn [app] in Hw'. assert (Hx : Exists (fun w => wk_pc w = Exited) (wp_workers p')).
    { destruct Hf as [Hf _]. destruct (wp_workers p') as [|w ws]; [cbn in *; lia|]. apply list.Forall_cons in Hf as [Hf _]. by left. }
    pose proof (exited_drained _ _ _ _ Hd' Hx) as Ec. pose proof (dr_new _ _ _ _ Hd') as Hn. rewrite E1 in Hn. cbn [app] in Hn. rewrite <- Ec in Hn.
    split; [exact Hw'|]. split; [exact Hn|]. rewrite po_work0 in Hw'. apply submseteq_Permutation in Hn as [k Hk]. rewrite Hk in Hw'.
    rewrite <- (assoc_L (++)) in Hw'. apply Permutation_app_inv_l in Hw'. rewrite <- Hw'. by apply submseteq_inserts_l.
Qed.

(** One worker, two producers: the first piece of work is queued at the shutdown,
    the second has been accepted and is pushed behind the worker. *)
Definition demo_schedule : list actor :=
  Enqueue 7 :: repeat (Producer 0 0) 4 ++ [Enqueue 8; Producer 1 0].

Definition demo_rest : list actor := repeat (Worker 0) 37 ++ repeat (Producer 1 0) 3.

Definition demo_before : work_pool_t := Eval vm_compute in default (work_pool_launch 1) (pool_run (work_pool_launch 1) demo_schedule).
Definition demo_stopped : work_pool_t := Eval vm_compute in default demo_before (work_pool_shutdown demo_before).
Definition demo_after : work_pool_t := Eval vm_compute in default demo_stopped (pool_run demo_stopped demo_rest).

Lemma pool_exactly_once_witness :
  pool_finished demo_after ∧ concat (wp_shards demo_before) = [7] ∧ wp_done demo_after = [Aborted 7] ∧ concat (wp_shards demo_after) = [8] ∧
  concat (wp_shards demo_after) ⊆+ flat_map pending (wp_producers demo_before).
Proof.
  assert (Hf : pool_finished demo_after) by (apply (bool_decide_unpack _); vm_compute; exact I).
  assert (E : pool_run (work_pool_launch 1) demo_schedule = Some demo_before) by (vm_compute; reflexivity).
  destruct (pool_exactly_once 1 demo_schedule demo_before E) as (_ & _ & _ & _ & _ & H).
  split; [exact Hf|]. split; [reflexivity|]. split; [reflexivity|]. split; [reflexivity|].
  apply (H demo_stopped demo_rest demo_after); [reflexivity|vm_compute; reflexivity|vm_compute; reflexivity|exact Hf|vm_compute; lia].
Defined.

(** ** Shutdown *)

(** A bound on the steps left to a thread when the pool has stopped, and on those
    a queued piece of work can still cause. *)
Definition worker_steps (w : worker) : Z :=
  match wk_pc w with
  | Fast _ i => 19 + Z.of_nat (S (15 - i))
  | Locking => 19
  | Recheck _ i | Again _ i => 2 + Z.of_nat (S (15 - i))
  | Resting => 2
  | Sleeping => 20
  | Waking => 19
  | Decide (Some _) => 37
  | Decide None => 1
  | Running _ => 36
  | Exited => 0
  end.

Definition producer_steps (pc : producer_pc) : Z :=
  match pc with
  | Checking _ => 44
  | Counting _ => 43
  | Pushing _ _ => 42
  | Signalling => 1
  | Returned _ => 0
  end.

Definition steps_left (p : work_pool_t) : Z :=
  total worker_steps (wp_workers p) + 40 * zlen (concat (wp_shards p)) + total producer_steps (wp_producers p).

Lemma visit_steps p shard i x p1 :
  visit p shard i = Some (x, p1) → zlen (concat (wp_shards p)) = zlen (concat (wp_shards p1)) + 1.
Proof. intros Hv. apply visit_work in Hv as [E _]. apply Permutation_length in E. unfold zlen. rewrite E. cbn [length]. lia. Qed.

Lemma worker_steps_decrease p w p1 w1 :
  wp_stop p = true → worker_step p w = Some (p1, w1) →
  worker_steps w1 + 40 * zlen (concat (wp_shards p1)) < worker_steps w + 40 * zlen (concat (wp_shards p)) ∧
  wp_workers p1 = wp_workers p ∧ wp_producers p1 = wp_producers p ∧ wp_stop p1 = true.
Proof.
  intros Hs E. unfold worker_step in E. destruct w as [pc start]. cbn [wk_pc wk_start] in E.
  assert (Hv : ∀ shard i x p', visit p shard i = Some (x, p') →
    wp_workers p' = wp_workers p ∧ wp_producers p' = wp_producers p ∧ wp_stop p' = true).
  { intros shard i x p' (k & l & _ & ->)%visit_Some. done. }
  destruct pc as [shard i| |shard i| | | |shard i|[x|]|x|]; try done; rewrite ?Hs in E.
  - destruct (visit p shard i) as [[x p']|] eqn:Ev; injection E as <- <-.
    + pose proof (visit_steps _ _ _ _ _ Ev). destruct (Hv _ _ _ _ Ev) as (? & ? & ?). split_and!; try done. cbn. lia.
    + split_and!; try done. destruct (last_shard i) eqn:El; cbn [worker_steps wk_pc]; [lia|].
      apply not_true_iff_false in El. rewrite last_shard_spec in El. lia.
  - destruct (wp_locked p); [done|]. injection E as <- <-. split_and!; try done. cbn. lia.
  - destruct (visit p shard i) as [[x p']|] eqn:Ev; injection E as <- <-.
    + pose proof (visit_steps _ _ _ _ _ Ev). destruct (Hv _ _ _ _ Ev) as (? & ? & ?). split_and!; try done. cbn. lia.
    + split_and!; try done. destruct (last_shard i) eqn:El; cbn [worker_steps wk_pc]; [lia|].
      apply not_true_iff_false in El. rewrite last_shard_spec in El. lia.
  - injection E as <- <-. split_and!; try done. cbn. lia.
  - destruct (wp_locked p); [done|]. injection E as <- <-. split_and!; try done. cbn. lia.
  - destruct (visit p shard i) as [[x p']|] eqn:Ev; injection E as <- <-.
    + pose proof (visit_steps _ _ _ _ _ Ev). destruct (Hv _ _ _ _ Ev) as (? & ? & ?). split_and!; try done. cbn. lia.
    + split_and!; try done. destruct (last_shard i) eqn:El; cbn [worker_steps wk_pc]; [lia|].
      apply not_true_iff_false in El. rewrite last_shard_spec in El. lia.
  - injection E as <- <-. split_and!; try done. cbn. lia.
  - injection E as <- <-. split_and!; try done. cbn. lia.
  - injection E as <- <-. split_and!; try done. cbn. lia.
Qed.

(** The moves of the threads themselves. *)
Definition own_move (a : actor) : bool := match a with Worker _ | Producer _ _ => true | _ => false end.

Lemma concat_alter_length p k (x : Z) :
  zlen (concat (alter (fun l => l ++ [x]) k (wp_shards p))) <= zlen (concat (wp_shards p)) + 1.
Proof.
  destruct (wp_shards p !! k) as [l|] eqn:Hl.
  - destruct (concat_insert _ _ _ Hl) as (rest & E1 & E2 & _). rewrite (alter_as_insert _ _ _ _ Hl).
    unfold zlen. rewrite (Permutation_length E1), (Permutation_length (E2 _)), !length_app. cbn [length]. lia.
  - assert (alter (fun l => l ++ [x]) k (wp_shards p) = wp_shards p) as ->; [|lia].
    apply list_eq. intros j. destruct (decide (j = k)) as [->|Hne]; [by rewrite list_lookup_alter_eq, Hl|by rewrite list_lookup_alter_ne].
Qed.

Lemma producer_steps_decrease p pc target p1 pc1 :
  pool_ok p → wp_stop p = true → producer_step p pc target = Some (p1, pc1) →
  producer_steps pc1 + 40 * zlen (concat (wp_shards p1)) < producer_steps pc + 40 * zlen (concat (wp_shards p)) ∧
  wp_workers p1 = wp_workers p ∧ wp_producers p1 = wp_producers p ∧ wp_stop p1 = true.
Proof.
  intros H Hs. destruct pc as [x|x|i x| |rc]; cbn [producer_step]; rewrite ?Hs; [| | | |done].
  - destruct (wp_locked p); [done|]. intros [= <- <-]. split_and!; try done. cbn. lia.
  - intros [= <- <-]. split_and!; try done. cbn. lia.
  - intros [= <- <-]. split_and!; try done. cbn [producer_steps wp_with_shards wp_shards]. pose proof (concat_alter_length p i x). lia.
  - unfold signal. assert (existsb is_sleeping (wp_workers p) = false) as ->.
    { apply not_true_iff_false. intros (w & Hin & Hw)%existsb_exists. apply list_elem_of_In in Hin.
      pose proof (po_awake p H Hs) as F. rewrite list.Forall_forall in F. rewrite (F w Hin) in Hw. done. }
    intros [= <- <-]. split_and!; try done. cbn. lia.
Qed.

Lemma steps_left_decrease p a p1 :
  pool_ok p → wp_stop p = true → own_move a = true → pool_step p a = Some p1 → steps_left p1 < steps_left p ∧ wp_stop p1 = true.
Proof.
  intros H Hs Ha. destruct a as [k|k target|x| |k]; try done; cbn [pool_step].
  - destruct (wp_workers p !! k) as [w|] eqn:Hk; [|done]. destruct (worker_step p w) as [[p2 w2]|] eqn:E; [|done].
    intros [= <-]. apply worker_steps_decrease in E as (Hd & E1 & E2 & E3); [|done]. unfold steps_left.
    cbn [wp_with_workers wp_workers wp_shards wp_producers wp_stop]. rewrite E1, E2, (total_insert _ _ _ _ _ Hk). cbn [fst snd]. split; [lia|done].
  - destruct (wp_producers p !! k) as [pc|] eqn:Hk; [|done]. destruct (producer_step p pc target) as [[p2 pc2]|] eqn:E; [|done].
    intros [= <-]. apply producer_steps_decrease in E as (Hd & E1 & E2 & E3); [|done|done]. unfold steps_left.
    cbn [wp_with_producers wp_workers wp_shards wp_producers wp_stop]. rewrite E1, E2, (total_insert _ _ _ _ _ Hk). cbn [fst snd]. split; [lia|done].
Qed.

Lemma steps_left_nonneg p : 0 <= steps_left p.
Proof.
  unfold steps_left. pose proof (zlen_nonneg (concat (wp_shards p))).
  assert (0 <= total worker_steps (wp_workers p)) by (apply total_nonneg; intros [[]]; cbn; try lia; by destruct work).
  assert (0 <= total producer_steps (wp_producers p)) by (apply total_nonneg; intros []; cbn; lia). lia.
Qed.

Lemma stopped_run_bounded l p p1 :
  pool_ok p → wp_stop p = true → forallb own_move l = true → pool_run p l = Some p1 → zlen l <= steps_left p.
Proof.
  revert p. induction l as [|a l IH]; intros p H Hs Hl; cbn [pool_run]; [intros _; apply steps_left_nonneg|].
  cbn in Hl. apply andb_true_iff in Hl as [Ha Hl]. destruct (pool_step p a) as [p2|] eqn:E; [|done]. intros Hr.
  destruct (steps_left_decrease p a p2 H Hs Ha E) as [Hd Hs2]. rewrite zlen_cons.
  specialize (IH p2 (pool_step_ok p a p2 H E) Hs2 Hl Hr). lia.
Qed.

(** A worker of a stopped pool moves unless it waits for the lock. *)
Lemma worker_moves p w :
  is_sleeping w = false → wk_pc w ≠ Exited → (wp_locked p = false ∨ holding w = 1) → ∃ r, worker_step p w = Some r.
Proof.
  intros Hs Hx Hl. destruct w as [pc start]. unfold worker_step. cbn [wk_pc wk_start] in *.
  destruct pc as [shard i| |shard i| | | |shard i|[x|]|x|]; try done.
  - destruct (visit p shard i) as [[]|]; by eexists.
  - destruct Hl as [->|?]; [by eexists|done].
  - destruct (visit p shard i) as [[]|]; by eexists.
  - destruct (wp_stop p); by eexists.
  - destruct Hl as [->|?]; [by eexists|done].
  - destruct (visit p shard i) as [[]|]; by eexists.
  - by eexists.
  - by eexists.
  - by eexists.
Qed.

Lemma total_pos_member {A} (f : A → Z) l : 0 < total f l → ∃ k x, l !! k = Some x ∧ 0 < f x.
Proof.
  induction l as [|x l IH]; cbn; [lia|]. intros H. destruct (decide (0 < f x)); [by exists 0%nat, x|].
  destruct IH as (k & y & Hk & Hy); [lia|]. by exists (S k), y.
Qed.

Lemma stopped_progress p :
  pool_ok p → wp_stop p = true → ~ pool_finished p → ∃ a p1, own_move a = true ∧ pool_step p a = Some p1.
Proof.
  intros H Hs Hn. assert (Hawake : ∀ k w, wp_workers p !! k = Some w → is_sleeping w = false).
  { intros k w Hk. by apply (Forall_lookup_1 _ _ _ _ (po_awake p H Hs) Hk). }
  assert (Hmove : ∀ k w, wp_workers p !! k = Some w → wk_pc w ≠ Exited → (wp_locked p = false ∨ holding w = 1) →
    ∃ a p1, own_move a = true ∧ pool_step p a = Some p1).
  { intros k w Hk Hx Hl. destruct (worker_moves p w (Hawake k w Hk) Hx Hl) as [r E]. exists (Worker k). cbn [pool_step].
    rewrite Hk, E. by eexists. }
  destruct (wp_locked p) eqn:El.
  - destruct (total_pos_member holding (wp_workers p)) as (k & w & Hk & Hw); [rewrite (po_lock p H), El; done|].
    apply (Hmove k w Hk); [|right; revert Hw; unfold holding; by destruct (wk_pc w)].
    intros E. revert Hw. unfold holding. by rewrite E.
  - destruct (decide (Forall (fun w => wk_pc w = Exited) (wp_workers p))) as [Hw|Hw].
    + assert (Hp : ~ Forall (fun pc => ∃ rc, pc = Returned rc) (wp_producers p)) by (intros Hp; by apply Hn).
      apply not_Forall_Exists in Hp; [|apply _]. apply list.Exists_exists in Hp as (pc & Hin & Hpc).
      apply list_elem_of_lookup_1 in Hin as [k Hk].
      assert (Hsig : signal p 0 = Some p).
      { unfold signal. assert (existsb is_sleeping (wp_workers p) = false) as ->; [|done].
        apply not_true_iff_false. intros (w & Hin & Hsl)%existsb_exists. apply list_elem_of_In, list_elem_of_lookup_1 in Hin as [j Hj].
        by rewrite (Hawake j w Hj) in Hsl. }
      exists (Producer k 0). cbn [pool_step]. rewrite Hk. destruct pc as [x|x|i x| |rc]; cbn [producer_step].
      * rewrite El, Hs. by eexists.
      * by eexists.
      * by eexists.
      * rewrite Hsig. by eexists.
      * exfalso. apply Hpc. by eexists.
    + apply not_Forall_Exists in Hw; [|apply _]. apply list.Exists_exists in Hw as (w & Hin & Hx).
      apply list_elem_of_lookup_1 in Hin as [k Hk]. apply (Hmove k w Hk Hx). by left.
Qed.

(** C32. A shutdown comes to an end: in a pool that has been told to stop, however
    the threads are scheduled they take a bounded number of steps, the bound being
    computed from where they are and what is queued, and as long as a worker has
    not exited or a producer not returned some thread can move; so the workers
    all exit, and joining them returns. *)
Theorem pool_shutdown_terminates size l p :
  pool_run (work_pool_launch size) l = Some p → wp_stop p = true →
  (∀ l' p', forallb own_move l' = true → pool_run p l' = Some p' → zlen l' <= steps_left p) ∧
  (∀ l' p', forallb own_move l' = true → pool_run p l' = Some p' →
     pool_finished p' ∨ ∃ a p'', own_move a = true ∧ pool_step p' a = Some p'').
Proof.
  intros E Hs. pose proof (pool_run_ok _ _ _ (launch_ok size) E) as H. split; intros l' p' Hl Hr.
  - by eapply stopped_run_bounded.
  - assert (H' : pool_ok p' ∧ wp_stop p' = true).
    { clear E. revert p H Hs Hl Hr. induction l' as [|a l' IH]; intros p H Hs Hl; cbn [pool_run]; [by intros [= <-]|].
      cbn in Hl. apply andb_true_iff in Hl as [Ha Hl]. destruct (pool_step p a) as [p2|] eqn:E; [|done].
      destruct (steps_left_decrease p a p2 H Hs Ha E) as [_ Hs2]. apply IH; [by eapply pool_step_ok|done|done]. }
    destruct H' as [H' Hs']. destruct (decide (pool_finished p')); [by left|right]. by apply stopped_progress.
Qed.

(** Two workers asleep, a shutdown, and both wake up and exit. *)
Definition demo_shutdown : list actor := repeat (Worker 0) 34 ++ repeat (Worker 1) 34 ++ [Shutdown].

Lemma pool_shutdown_terminates_witness :
  ∃ p, pool_run (work_pool_launch 2) demo_shutdown = Some p ∧
    (∀ l' p', forallb own_move l' = true → pool_run p l' = Some p' → zlen l' <= 38).
Proof.
  destruct (pool_run (work_pool_launch 2) demo_shutdown) as [p|] eqn:E; [|vm_compute in E; discriminate E].
  exists p. split; [reflexivity|]. destruct (pool_shutdown_terminates 2 demo_shutdown p E) as [H _].
  - vm_compute in E. injection E as <-. reflexivity.
  - intros l' p' Hl Hr. specialize (H l' p' Hl Hr). vm_compute in E. injection E as <-. vm_compute in H. exact H.
Defined.

(** ** A lost wake-up *)

(** The worker has found every shard empty and holds the lock; the producer
    passed its check of [stop] before, and pushes and signals now, when nobody
    waits; then the worker goes to sleep. *)
Definition lost_wakeup_schedule : list actor :=
  Enqueue 7 :: Producer 0 0 :: repeat (Worker 0) 33 ++ repeat (Producer 0 0) 3 ++ [Worker 0].

(** The pool sleeps on queued work: no thread can move until another piece of
    work arrives, and a caller waiting for idleness is told that all is done. *)
Lemma pool_lost_wakeup :
  ∃ p, pool_run (work_pool_launch 1) lost_wakeup_schedule = Some p ∧
    concat (wp_shards p) = [7] ∧ wp_stop p = false ∧ Forall (fun w => wk_pc w = Sleeping) (wp_workers p) ∧
    wp_producers p = [Returned 0] ∧ idle_now p = true ∧
    ∀ a, own_move a = true → pool_step p a = None.
Proof.
  eexists. split; [vm_compute; reflexivity|]. split_and!; try reflexivity; [by repeat constructor|].
  intros [k|k t|x| |k] Ha; try done; cbn [pool_step wp_workers wp_producers]; destruct k as [|k]; done.
Qed.
