(* ===== verification/Query.v ===== *)
(** * Query: in-flight queries, [src/Network/Meridian/meridian_query.c]

    Queries are heap objects with a reference count; the table holds their
    addresses.  A call that reads the clock takes the reading as an argument, and
    [meridian_query_table_tick], which reads it for every query of both its
    passes, takes the sequence of readings.  The reference counts of the nodes a
    query names are not modelled. *)

From stdpp Require Import gmap.
From S2P Require Import Prelude.
From S2P Require Import Bitset.
From S2P Require Import Node.
From S2P Require Import Refcount.

Definition MERIDIAN_QUERY_MAX_TARGETS : nat := 256.

Inductive meridian_query_type_t :=
| MERIDIAN_QUERY_TYPE_GOSSIP
| MERIDIAN_QUERY_TYPE_MEASURE
| MERIDIAN_QUERY_TYPE_CLOSEST
| MERIDIAN_QUERY_TYPE_CONSTRAINT
| MERIDIAN_QUERY_TYPE_INFO.

Inductive meridian_query_status_t :=
| MERIDIAN_QUERY_STATUS_INIT
| MERIDIAN_QUERY_STATUS_WAITING
| MERIDIAN_QUERY_STATUS_FINISHED
| MERIDIAN_QUERY_STATUS_FAILED.

#[export] Instance query_status_eq_dec : EqDecision meridian_query_status_t.
Proof. solve_decision. Defined.

(** [num_targets] is the length of [qy_targets]; [qy_latencies] has
    [MERIDIAN_QUERY_MAX_TARGETS] entries. *)
Record meridian_query_t := mkQuery {
  qy_refcounter : refcounter_t;
  qy_query_id : Z;
  qy_type : meridian_query_type_t;
  qy_status : meridian_query_status_t;
  qy_start_time : timeval;
  qy_timeout : timeval;
  qy_source : option meridian_node_t;
  qy_targets : list meridian_node_t;
  qy_latencies : list Z;
  qy_num_measured : Z
}.

Definition meridian_query_create (query_id : Z) (type : meridian_query_type_t) (timeout_ms : Z) (now : timeval)
  : meridian_query_t :=
  mkQuery refcounter_init query_id type MERIDIAN_QUERY_STATUS_INIT now (timeval_of_ms timeout_ms) None []
    (replicate MERIDIAN_QUERY_MAX_TARGETS 0) 0.

Definition qy_with_refs (q : meridian_query_t) (r : refcounter_t) : meridian_query_t :=
  mkQuery r (qy_query_id q) (qy_type q) (qy_status q) (qy_start_time q) (qy_timeout q) (qy_source q) (qy_targets q)
    (qy_latencies q) (qy_num_measured q).

Definition qy_with_source (q : meridian_query_t) (source : option meridian_node_t) : meridian_query_t :=
  mkQuery (qy_refcounter q) (qy_query_id q) (qy_type q) (qy_status q) (qy_start_time q) (qy_timeout q) source
    (qy_targets q) (qy_latencies q) (qy_num_measured q).

Definition meridian_query_add_target (q : meridian_query_t) (node : option meridian_node_t) : Z * meridian_query_t :=
  match node with
  | None => (-1, q)
  | Some n =>
      if (MERIDIAN_QUERY_MAX_TARGETS <=? length (qy_targets q))%nat then (-1, q)
      else (0, mkQuery (qy_refcounter q) (qy_query_id q) (qy_type q) (qy_status q) (qy_start_time q) (qy_timeout q)
                 (qy_source q) (qy_targets q ++ [n]) (qy_latencies q) (qy_num_measured q))
  end.

Definition meridian_query_set_latency (q : meridian_query_t) (target_idx latency : Z) : Z * meridian_query_t :=
  if zlen (qy_targets q) <=? target_idx then (-1, q)
  else (0, mkQuery (qy_refcounter q) (qy_query_id q) (qy_type q) (qy_status q) (qy_start_time q) (qy_timeout q)
             (qy_source q) (qy_targets q) (<[Z.to_nat target_idx := latency]> (qy_latencies q))
             (u64 (qy_num_measured q + 1))).

(** [for (i = 1; i < num_targets; i++) if (latencies[i] < closest_latency) ...]. *)
Fixpoint closest_loop (latencies : list Z) (i : nat) (closest : nat) (best : Z) : nat :=
  match latencies with
  | [] => closest
  | l :: rest => if l <? best then closest_loop rest (S i) i l else closest_loop rest (S i) closest best
  end.

Definition meridian_query_get_closest (q : meridian_query_t) : option meridian_node_t :=
  match take (length (qy_targets q)) (qy_latencies q) with
  | [] => None
  | l :: rest => qy_targets q !! closest_loop rest 1 0 l
  end.

Definition meridian_query_is_expired (q : meridian_query_t) (now : timeval) : bool :=
  timercmp Z.gtb now (timeradd (qy_start_time q) (qy_timeout q)).

Definition meridian_query_is_finished (q : meridian_query_t) : bool :=
  bool_decide (qy_status q = MERIDIAN_QUERY_STATUS_FINISHED) || bool_decide (qy_status q = MERIDIAN_QUERY_STATUS_FAILED).

Definition meridian_query_finish (q : meridian_query_t) : meridian_query_t :=
  mkQuery (qy_refcounter q) (qy_query_id q) (qy_type q) MERIDIAN_QUERY_STATUS_FINISHED (qy_start_time q) (qy_timeout q)
    (qy_source q) (qy_targets q) (qy_latencies q) (qy_num_measured q).

(** ** Queries with targets *)

Fixpoint add_targets (q : meridian_query_t) (targets : list (option meridian_node_t)) : meridian_query_t :=
  match targets with
  | [] => q
  | n :: targets' => add_targets (snd (meridian_query_add_target q n)) targets'
  end.

Definition query_with_targets (query_id : Z) (type : meridian_query_type_t) (source : option meridian_node_t)
    (targets : list (option meridian_node_t)) (timeout_ms : Z) (now : timeval) : meridian_query_t :=
  add_targets (qy_with_source (meridian_query_create query_id type timeout_ms now) source)
    (take MERIDIAN_QUERY_MAX_TARGETS targets).

Definition meridian_gossip_query_create (query_id : Z) := query_with_targets query_id MERIDIAN_QUERY_TYPE_GOSSIP.
Definition meridian_closest_query_create (query_id : Z) := query_with_targets query_id MERIDIAN_QUERY_TYPE_CLOSEST.
Definition meridian_measure_query_create (query_id : Z) (source target : option meridian_node_t) (timeout_ms : Z)
    (now : timeval) : meridian_query_t :=
  let q := qy_with_source (meridian_query_create query_id MERIDIAN_QUERY_TYPE_MEASURE timeout_ms now) source in
  match target with None => q | Some _ => snd (meridian_query_add_target q target) end.

(** ** The table *)

Definition query_heap := gmap Z meridian_query_t.

Record meridian_query_table_t := mkQueryTable {
  qt_queries : list Z;
  qt_capacity : Z
}.

Definition meridian_query_table_create (capacity : Z) : meridian_query_table_t :=
  mkQueryTable [] (if capacity =? 0 then 64 else capacity).

Definition query_at (h : query_heap) (a : Z) : exec meridian_query_t :=
  match h !! a with Some q => Ret q | None => Trap end.

Definition query_ref (h : query_heap) (a : Z) : exec query_heap :=
  q <- query_at h a ;; Ret (<[a := qy_with_refs q (refcounter_reference (qy_refcounter q))]> h).

Definition meridian_query_destroy (h : query_heap) (a : Z) : exec query_heap :=
  q <- query_at h a ;;
  let '(r, free) := released (qy_refcounter q) in
  Ret (if free then delete a h else <[a := qy_with_refs q r]> h).

Definition meridian_query_table_insert (h : query_heap) (t : meridian_query_table_t) (a : Z)
  : exec (query_heap * meridian_query_table_t) :=
  let capacity := if qt_capacity t <=? zlen (qt_queries t) then u64 (qt_capacity t * 2) else qt_capacity t in
  h' <- query_ref h a ;;
  if zlen (qt_queries t) <? capacity then Ret (h', mkQueryTable (qt_queries t ++ [a]) capacity) else Trap.

(** The scan for an id: the index of the first query that carries it. *)
Fixpoint query_scan (h : query_heap) (l : list Z) (query_id : Z) : exec (option nat) :=
  match l with
  | [] => Ret None
  | a :: l' =>
      q <- query_at h a ;;
      if qy_query_id q =? query_id then Ret (Some O)
      else r <- query_scan h l' query_id ;; Ret (S <$> r)
  end.

Definition meridian_query_table_remove (h : query_heap) (t : meridian_query_table_t) (query_id : Z)
  : exec (Z * query_heap * meridian_query_table_t) :=
  r <- query_scan h (qt_queries t) query_id ;;
  match r with
  | None => Ret (-1, h, t)
  | Some i =>
      match qt_queries t !! i with
      | None => Trap
      | Some a =>
          h' <- meridian_query_destroy h a ;;
          Ret (0, h', mkQueryTable (delete i (qt_queries t)) (qt_capacity t))
      end
  end.

Definition meridian_query_table_lookup (h : query_heap) (t : meridian_query_table_t) (query_id : Z)
  : exec (query_heap * option Z) :=
  r <- query_scan h (qt_queries t) query_id ;;
  match r with
  | None => Ret (h, None)
  | Some i => match qt_queries t !! i with
              | None => Trap
              | Some a => h' <- query_ref h a ;; Ret (h', Some a)
              end
  end.

(** The first pass of a tick counts the expired queries, the [k]-th reading of
    the clock for the [k]-th query. *)
Fixpoint tick_count (h : query_heap) (clock : nat → timeval) (k : nat) (l : list Z) : exec nat :=
  match l with
  | [] => Ret O
  | a :: l' =>
      q <- query_at h a ;;
      n <- tick_count h clock (S k) l' ;;
      Ret (if meridian_query_is_expired q (clock k) then S n else n)
  end.

(** The second pass asks again, with [room] entries left in the array sized by
    the first: an entry more is written past its end. *)
Fixpoint tick_partition (h : query_heap) (clock : nat → timeval) (k : nat) (room : nat) (l : list Z)
  : exec (query_heap * list Z * list Z) :=
  match l with
  | [] => Ret (h, [], [])
  | a :: l' =>
      q <- query_at h a ;;
      if meridian_query_is_expired q (clock k) then
        match room with
        | O => Trap
        | S room' =>
            let h' := <[a := qy_with_refs q (refcounter_consume (qy_refcounter q))]> h in
            '(h'', kept, expired) <- tick_partition h' clock (S k) room' l' ;;
            Ret (h'', kept, a :: expired)
        end
      else
        '(h'', kept, expired) <- tick_partition h clock (S k) room l' ;;
        Ret (h'', a :: kept, expired)
  end.

Definition meridian_query_table_tick (h : query_heap) (t : meridian_query_table_t) (clock : nat → timeval)
  : exec (query_heap * meridian_query_table_t * list Z) :=
  count <- tick_count h clock 0 (qt_queries t) ;;
  match count with
  | O => Ret (h, t, [])
  | _ =>
      '(h', kept, expired) <- tick_partition h clock (length (qt_queries t)) count (qt_queries t) ;;
      Ret (h', mkQueryTable kept (qt_capacity t), expired)
  end.

(** ** The closest target *)

Lemma closest_loop_spec l i best c :
  (c < i)%nat →
  ∃ m, (closest_loop l i c best = c ∧ m = best ∨ ∃ j, closest_loop l i c best = (i + j)%nat ∧ l !! j = Some m)
    ∧ m <= best ∧ (∀ x, x ∈ l → m <= x).
Proof.
  revert i best c. induction l as [|x l IH]; intros i best c Hc; simpl.
  { exists best. split; [by left|]. split; [lia|set_solver]. }
  destruct (Z.ltb_spec x best).
  - destruct (IH (S i) x i) as (m & [[-> ->]|(j & -> & Hj)] & Hm & Hall); [lia| |].
    + exists x. split; [right; exists O; simpl; split; [lia|done]|]. split; [lia|].
      intros y [->|Hy]%elem_of_cons; [lia|by apply Hall].
    + exists m. split; [right; exists (S j); simpl; split; [lia|done]|]. split; [lia|].
      intros y [->|Hy]%elem_of_cons; [lia|by apply Hall].
  - destruct (IH (S i) best c) as (m & [[-> ->]|(j & -> & Hj)] & Hm & Hall); [lia| |].
    + exists best. split; [by left|]. split; [lia|]. intros y [->|Hy]%elem_of_cons; [lia|by apply Hall].
    + exists m. split; [right; exists (S j); simpl; split; [lia|done]|]. split; [lia|].
      intros y [->|Hy]%elem_of_cons; [lia|by apply Hall].
Qed.

Definition query_wf (q : meridian_query_t) : Prop :=
  length (qy_latencies q) = MERIDIAN_QUERY_MAX_TARGETS ∧ (length (qy_targets q) <= MERIDIAN_QUERY_MAX_TARGETS)%nat.

(** The closest target of a query with targets exists and has the least latency
    entry of all its targets.  (An entry is 0 until it is measured, so a target
    that never answered counts as the closest.) *)
Theorem query_closest_minimal q :
  query_wf q → qy_targets q ≠ [] →
  ∃ i n l, meridian_query_get_closest q = Some n ∧ qy_targets q !! i = Some n ∧ qy_latencies q !! i = Some l
    ∧ ∀ j l', (j < length (qy_targets q))%nat → qy_latencies q !! j = Some l' → l <= l'.
Proof.
  intros [Hl Ht] Hne. unfold meridian_query_get_closest.
  assert (Hlen : length (take (length (qy_targets q)) (qy_latencies q)) = length (qy_targets q))
    by (rewrite length_take; lia).
  assert (Hget : ∀ j, (j < length (qy_targets q))%nat →
            take (length (qy_targets q)) (qy_latencies q) !! j = qy_latencies q !! j)
    by (intros j Hj; by apply lookup_take_lt).
  destruct (take (length (qy_targets q)) (qy_latencies q)) as [|l rest] eqn:E.
  { destruct (qy_targets q); [done|simpl in *; lia]. }
  destruct (closest_loop_spec rest 1 l 0) as (m & Hm & Hle & Hall); [lia|].
  assert (Hidx : ∃ i, closest_loop rest 1 0 l = i ∧ (i < length (qy_targets q))%nat ∧ (l :: rest) !! i = Some m).
  { destruct Hm as [[-> ->]|(j & -> & Hj)].
    - exists O. split; [done|]. split; [simpl in Hlen; lia|done].
    - exists (1 + j)%nat. split; [done|]. split; [|done]. apply lookup_lt_Some in Hj. simpl in Hlen. lia. }
  destruct Hidx as (i & -> & Hi & Em). destruct (lookup_lt_is_Some_2 _ _ Hi) as [n En].
  exists i, n, m. split; [done|]. split; [done|]. rewrite <- Hget by done. split; [done|].
  intros j l' Hj Ej. rewrite <- Hget in Ej by done.
  assert (Hin : l' ∈ l :: rest) by (by eapply list_elem_of_lookup_2).
  apply elem_of_cons in Hin as [->|Hin]; [done|by apply Hall].
Qed.

Definition demo_query_node (a : Z) : meridian_node_t := meridian_node_create_unidentified a 80.

(** Three targets, two of them measured. *)
Definition demo_query : meridian_query_t :=
  let q := meridian_closest_query_create 7 None
             [Some (demo_query_node 1); Some (demo_query_node 2); Some (demo_query_node 3)] 500 (mkTimeval 10 0) in
  snd (meridian_query_set_latency (snd (meridian_query_set_latency q 0 50)) 2 20).

Lemma query_closest_minimal_witness :
  ∃ i n l, meridian_query_get_closest demo_query = Some n ∧ qy_targets demo_query !! i = Some n
    ∧ qy_latencies demo_query !! i = Some l
    ∧ ∀ j l', (j < length (qy_targets demo_query))%nat → qy_latencies demo_query !! j = Some l' → l <= l'.
Proof.
  apply (query_closest_minimal demo_query).
  - split; [reflexivity|]. apply Nat.leb_le. reflexivity.
  - discriminate.
Defined.

(** The target without a measurement wins. *)
Lemma unmeasured_target_is_closest : meridian_query_get_closest demo_query = Some (demo_query_node 2).
Proof. vm_compute. reflexivity. Qed.

(** ** The table as a map *)

Definition table_live (h : query_heap) (t : meridian_query_table_t) : Prop :=
  ∀ a, a ∈ qt_queries t → is_Some (h !! a).

Definition query_ids (h : query_heap) (l : list Z) : list Z := omap (fun a => qy_query_id <$> h !! a) l.

(** The table represents the map of ids to queries: every id once. *)
Definition table_rep (h : query_heap) (t : meridian_query_table_t) (m : gmap Z Z) : Prop :=
  table_live h t ∧ NoDup (query_ids h (qt_queries t))
  ∧ zlen (qt_queries t) <= qt_capacity t ∧ 0 < qt_capacity t
  ∧ ∀ id a, m !! id = Some a ↔ ∃ q, a ∈ qt_queries t ∧ h !! a = Some q ∧ qy_query_id q = id.

(** The heaps agree on the ids of the queries of [l]. *)
Definition same_ids (h h' : query_heap) (l : list Z) : Prop :=
  ∀ a, a ∈ l → qy_query_id <$> h' !! a = qy_query_id <$> h !! a.

Lemma query_ids_cons h a l :
  query_ids h (a :: l) = match h !! a with Some q => qy_query_id q :: query_ids h l | None => query_ids h l end.
Proof. unfold query_ids. simpl. by destruct (h !! a). Qed.

Lemma query_ids_app h l1 l2 : query_ids h (l1 ++ l2) = query_ids h l1 ++ query_ids h l2.
Proof. apply omap_app. Qed.

Lemma query_ids_same h h' l : same_ids h h' l → query_ids h' l = query_ids h l.
Proof.
  induction l as [|a l IH]; intros Hs; [done|]. rewrite !query_ids_cons, IH by (intros b Hb; apply Hs; set_solver).
  pose proof (Hs a ltac:(set_solver)) as Ha. destruct (h' !! a), (h !! a); simpl in Ha; congruence.
Qed.

Lemma query_ids_elem h l id : id ∈ query_ids h l ↔ ∃ a q, a ∈ l ∧ h !! a = Some q ∧ qy_query_id q = id.
Proof.
  unfold query_ids. rewrite list_elem_of_omap. split.
  - intros (a & Ha & E). destruct (h !! a) as [q|] eqn:Eq; [|done]. simpl in E. simplify_eq. by exists a, q.
  - intros (a & q & Ha & Eq & <-). exists a. by rewrite Eq.
Qed.

Lemma query_scan_spec h l id :
  (∀ a, a ∈ l → is_Some (h !! a)) →
  match query_scan h l id with
  | Ret None => ∀ a q, a ∈ l → h !! a = Some q → qy_query_id q ≠ id
  | Ret (Some i) => ∃ a q, l !! i = Some a ∧ h !! a = Some q ∧ qy_query_id q = id
  | Trap => False
  end.
Proof.
  induction l as [|a l IH]; intros Hl; simpl; [set_solver|].
  destruct (Hl a) as [q Eq]; [set_solver|]. unfold query_at. rewrite Eq. simpl.
  destruct (Z.eqb_spec (qy_query_id q) id) as [Hid|Hid]; [by exists a, q|].
  assert (Hl' : ∀ b, b ∈ l → is_Some (h !! b)) by (intros; apply Hl; set_solver).
  specialize (IH Hl'). destruct (query_scan h l id) as [[i|]|]; simpl; [| |done].
  - destruct IH as (b & qb & E1 & E2 & E3). by exists b, qb.
  - intros b qb [->|Hb]%elem_of_cons Eb; [by simplify_eq|by eapply IH].
Qed.

(** A live query that is referenced or released keeps its id while it lives. *)
Lemma query_ref_spec h a q :
  h !! a = Some q →
  query_ref h a = Ret (<[a := qy_with_refs q (refcounter_reference (qy_refcounter q))]> h).
Proof. intros E. unfold query_ref, query_at. by rewrite E. Qed.

Lemma same_ids_insert h a q r l : h !! a = Some q → same_ids h (<[a := qy_with_refs q r]> h) l.
Proof.
  intros E b Hb. destruct (decide (b = a)) as [->|Hne].
  - rewrite (lookup_insert_eq h a), E. done.
  - by rewrite (lookup_insert_ne h a b).
Qed.

Lemma table_rep_same h h' t m : same_ids h h' (qt_queries t) → table_rep h t m → table_rep h' t m.
Proof.
  intros Hs (Hl & Hn & Hc & H0 & Hm). split; [|split; [by rewrite (query_ids_same h)|split; [done|split; [done|]]]].
  - intros a Ha. specialize (Hs a Ha). destruct (Hl a Ha) as [q Eq]. rewrite Eq in Hs.
    destruct (h' !! a); [by eexists|done].
  - intros id a. rewrite Hm. split; intros (q & Ha & Eq & Hid); specialize (Hs a Ha); rewrite Eq in Hs; simpl in Hs.
    + destruct (h' !! a) as [q'|] eqn:E'; [|done]. simpl in Hs. exists q'. simplify_eq. by rewrite Hs.
    + destruct (h !! a) as [q'|] eqn:E'; [|done]. simpl in Hs. exists q'. simplify_eq. by rewrite <- Hs.
Qed.

(** An id names one position of the table. *)
Lemma query_ids_inj h l i j a b q q' :
  NoDup (query_ids h l) → (∀ a, a ∈ l → is_Some (h !! a)) → l !! i = Some a → l !! j = Some b →
  h !! a = Some q → h !! b = Some q' → qy_query_id q = qy_query_id q' → i = j.
Proof.
  revert i j. induction l as [|x l IH]; intros i j Hnd Hl Hi Hj Ha Hb Hid; [done|].
  destruct (Hl x) as [qx Ex]; [set_solver|]. rewrite query_ids_cons, Ex in Hnd.
  apply list.NoDup_cons in Hnd as [Hx Hnd].
  assert (Hno : ∀ k c qc, l !! k = Some c → h !! c = Some qc → qy_query_id qc ≠ qy_query_id qx).
  { intros k c qc Hk Hc E. apply Hx, query_ids_elem. exists c, qc. split; [by eapply list_elem_of_lookup_2|]. done. }
  destruct i as [|i], j as [|j]; simpl in *; simplify_eq; [done| | |].
  - exfalso. eapply Hno; [exact Hj|exact Hb|done].
  - exfalso. eapply Hno; [exact Hi|exact Ha|done].
  - f_equal. eapply IH; eauto. intros c Hc. apply Hl. set_solver.
Qed.

(** Taking one query out of the table. *)
Lemma remove_rep h t m i a q (free : bool) r :
  table_rep h t m → qt_queries t !! i = Some a → h !! a = Some q →
  table_rep (if free then delete a h else <[a := qy_with_refs q r]> h)
    (mkQueryTable (delete i (qt_queries t)) (qt_capacity t)) (delete (qy_query_id q) m).
Proof.
  intros (Hl & Hn & Hc & H0 & Hm) Ei Ea.
  assert (Hother : ∀ j b qb, j ≠ i → qt_queries t !! j = Some b → h !! b = Some qb → qy_query_id qb ≠ qy_query_id q).
  { intros j b qb Hj Eb Ehb E. apply Hj. by eapply (query_ids_inj h (qt_queries t)). }
  assert (Hin : ∀ b, b ∈ delete i (qt_queries t) ↔ b ∈ qt_queries t ∧ b ≠ a).
  { intros b. rewrite !list_elem_of_lookup. split.
    - intros [j Ej]. rewrite list_lookup_delete in Ej.
      assert (∃ k, k ≠ i ∧ qt_queries t !! k = Some b) as (k & Hk & Ek).
      { case_decide; [exists j|exists (S j)]; (split; [lia|done]). }
      split; [by exists k|]. intros ->. by eapply (Hother k a q).
    - intros [[j Ej] Hne]. assert (j ≠ i) by (intros ->; simplify_eq).
      destruct (decide (j < i)%nat).
      + exists j. rewrite list_lookup_delete, decide_True; done.
      + exists (pred j). rewrite list_lookup_delete, decide_False by lia. by replace (S (pred j)) with j by lia. }
  apply (table_rep_same h).
  { intros b Hb%Hin. destruct Hb as [_ Hne]. destruct free.
    - by rewrite (lookup_delete_ne h a b).
    - by rewrite (lookup_insert_ne h a b). }
  split; [intros b [Hb _]%Hin; by apply Hl|]. split; [|split; [|split; [done|]]]; simpl.
  - assert (Hsub : sublist (query_ids h (delete i (qt_queries t))) (query_ids h (qt_queries t))).
    { rewrite <- (take_drop_middle _ _ _ Ei) at 2. rewrite delete_take_drop.
      rewrite !query_ids_app, query_ids_cons, Ea. apply sublist_app; [done|]. by apply sublist_cons. }
    by eapply sublist_NoDup.
  - unfold zlen in *. rewrite length_delete by done. lia.
  - intros id b. destruct (decide (id = qy_query_id q)) as [->|Hne].
    + rewrite lookup_delete_eq. split; [done|]. intros (qb & [Hb Hne]%Hin & Eb & Eid).
      apply list_elem_of_lookup in Hb as [j Ej]. exfalso. eapply (Hother j b qb); [|done|done|done].
      intros ->. simplify_eq.
    + rewrite lookup_delete_ne, Hm by done. split; intros (qb & Hb & Eb & Eid); exists qb.
      * split; [|done]. apply Hin. split; [done|]. intros ->. simplify_eq.
      * apply Hin in Hb as [Hb _]. done.
Qed.

Lemma table_insert_rep h t m a q :
  table_rep h t m → zlen (qt_queries t) < 2 ^ 62 → qt_capacity t < 2 ^ 63 →
  h !! a = Some q → m !! qy_query_id q = None →
  ∃ h' t', meridian_query_table_insert h t a = Ret (h', t') ∧ table_rep h' t' (<[qy_query_id q := a]> m).
Proof.
  intros (Hl & Hn & Hc & H0 & Hm) Hlen Hcap Ea Hnew.
  unfold meridian_query_table_insert. rewrite (query_ref_spec _ _ _ Ea), bind_Ret_l.
  set (cap := if qt_capacity t <=? zlen (qt_queries t) then u64 (qt_capacity t * 2) else qt_capacity t).
  assert (Hlt : zlen (qt_queries t) < cap).
  { unfold cap. destruct (Z.leb_spec (qt_capacity t) (zlen (qt_queries t))); [|lia].
    rewrite u64_id by (unfold is_u64; lia). lia. }
  rewrite (proj2 (Z.ltb_lt _ _) Hlt). eexists _, _. split; [done|].
  set (h' := <[a := _]> h).
  apply (table_rep_same h h'); [by apply same_ids_insert|].
  split; [|split; [|split; [|split]]]; simpl.
  + intros b [Hb| ->%list_elem_of_singleton]%elem_of_app; [by apply Hl|by rewrite Ea].
  + rewrite query_ids_app, query_ids_cons, Ea. apply list.NoDup_app. split; [done|].
    split; [|apply list.NoDup_singleton]. intros id Hid ->%list_elem_of_singleton.
    apply query_ids_elem in Hid as (b & qb & Hb & Eb & Eid).
    assert (m !! qy_query_id q = Some b) by (apply Hm; by exists qb). congruence.
  + unfold zlen in *. rewrite length_app. simpl. lia.
  + unfold zlen in *. lia.
  + intros id b. destruct (decide (id = qy_query_id q)) as [->|Hne].
    * rewrite lookup_insert_eq. split.
      -- intros. simplify_eq. exists q. split; [set_solver|done].
      -- intros (qb & [Hb| ->%list_elem_of_singleton]%elem_of_app & Eb & Eid); [|done].
         assert (m !! qy_query_id q = Some b) by (apply Hm; by exists qb). congruence.
    * rewrite lookup_insert_ne, Hm by done. split; intros (qb & Hb & Eb & Eid); exists qb.
      -- split; [set_solver|done].
      -- apply elem_of_app in Hb as [Hb| ->%list_elem_of_singleton]; [done|]. simplify_eq.
Qed.

Lemma table_lookup_rep h t m id :
  table_rep h t m → ∃ h', meridian_query_table_lookup h t id = Ret (h', m !! id) ∧ table_rep h' t m.
Proof.
  intros Hrep. pose proof Hrep as (Hl & Hn & Hc & H0 & Hm).
  unfold meridian_query_table_lookup. pose proof (query_scan_spec h (qt_queries t) id Hl) as Hs.
  destruct (query_scan h (qt_queries t) id) as [[i|]|]; [| |done]; rewrite bind_Ret_l.
  + destruct Hs as (a & q & Ei & Ea & Hid). rewrite Ei, (query_ref_spec _ _ _ Ea), bind_Ret_l.
    eexists. split.
    * assert (m !! id = Some a) as -> by (apply Hm; exists q; split; [by eapply list_elem_of_lookup_2|done]). done.
    * eapply table_rep_same; [by apply same_ids_insert|done].
  + exists h. split; [|done]. destruct (m !! id) as [b|] eqn:E; [|done].
    apply Hm in E as (qb & Hb & Eb & Eid). by eapply Hs in Eb.
Qed.

Lemma table_remove_rep h t m id :
  table_rep h t m →
  ∃ rc h' t', meridian_query_table_remove h t id = Ret (rc, h', t')
    ∧ (rc = -1 ↔ m !! id = None) ∧ (rc = -1 ∨ rc = 0) ∧ table_rep h' t' (delete id m).
Proof.
  intros Hrep. pose proof Hrep as (Hl & Hn & Hc & H0 & Hm).
  unfold meridian_query_table_remove. pose proof (query_scan_spec h (qt_queries t) id Hl) as Hs.
  destruct (query_scan h (qt_queries t) id) as [[i|]|]; [| |done]; rewrite bind_Ret_l.
  2: { assert (Hnone : m !! id = None).
       { destruct (m !! id) as [b|] eqn:E; [|done]. apply Hm in E as (qb & Hb & Eb & Eid). by eapply Hs in Eb. }
       exists (-1), h, t. split; [done|]. split; [done|]. split; [by left|]. by rewrite delete_id. }
  destruct Hs as (a & q & Ei & Ea & Hid). rewrite Ei. unfold meridian_query_destroy, query_at. rewrite Ea, bind_Ret_l.
  destruct (released (qy_refcounter q)) as [r free]. rewrite bind_Ret_l.
  eexists 0, _, _. split; [done|].
  assert (Hma : m !! id = Some a) by (apply Hm; exists q; split; [by eapply list_elem_of_lookup_2|done]).
  split; [rewrite Hma; split; discriminate|]. split; [by right|].
  subst id. by apply (remove_rep h t m i a q).
Qed.

(** The query table refines a map from query ids to queries: on a table that
    represents [m], inserting a query with a new id returns and represents the
    extended map; looking an id up returns the query of the map, with one more
    reference; removing an id fails exactly when the map lacks it, and otherwise
    represents the map without it. *)
Theorem query_table_refines h t m :
  table_rep h t m → zlen (qt_queries t) < 2 ^ 62 → qt_capacity t < 2 ^ 63 →
  (∀ a q, h !! a = Some q → m !! qy_query_id q = None →
     ∃ h' t', meridian_query_table_insert h t a = Ret (h', t') ∧ table_rep h' t' (<[qy_query_id q := a]> m))
  ∧ (∀ id, ∃ h', meridian_query_table_lookup h t id = Ret (h', m !! id) ∧ table_rep h' t m)
  ∧ (∀ id, ∃ rc h' t', meridian_query_table_remove h t id = Ret (rc, h', t')
       ∧ (rc = -1 ↔ m !! id = None) ∧ (rc = -1 ∨ rc = 0) ∧ table_rep h' t' (delete id m)).
Proof.
  intros Hrep Hlen Hcap. split; [|split].
  - intros a q. by apply table_insert_rep.
  - intros id. by apply table_lookup_rep.
  - intros id. by apply table_remove_rep.
Qed.

Definition demo_heap : query_heap :=
  <[1 := meridian_query_create 10 MERIDIAN_QUERY_TYPE_CLOSEST 500 (mkTimeval 1 0)]>
    (<[2 := meridian_query_create 20 MERIDIAN_QUERY_TYPE_CLOSEST 900 (mkTimeval 1 200000)]> ∅).

Lemma table_rep_empty h c : 0 <= c → table_rep h (meridian_query_table_create c) ∅.
Proof.
  intros Hc. unfold meridian_query_table_create. split; [intros a Ha; simpl in Ha; set_solver|].
  split; [apply base.NoDup_nil_2|].
  split; [unfold zlen; simpl; destruct (Z.eqb_spec c 0); lia|]. split; [simpl; destruct (Z.eqb_spec c 0); lia|].
  intros id a. rewrite lookup_empty. split; [done|]. intros (q & Ha & _). simpl in Ha. set_solver.
Qed.

(** Inserting the first query of the demonstration into a fresh table. *)
Lemma query_table_refines_witness :
  ∃ h' t', meridian_query_table_insert demo_heap (meridian_query_table_create 0) 1 = Ret (h', t')
    ∧ table_rep h' t' (<[10 := 1]> ∅).
Proof.
  destruct (query_table_refines demo_heap (meridian_query_table_create 0) ∅) as [H _].
  - apply table_rep_empty. lia.
  - reflexivity.
  - reflexivity.
  - exact (H 1 (meridian_query_create 10 MERIDIAN_QUERY_TYPE_CLOSEST 500 (mkTimeval 1 0)) eq_refl eq_refl).
Defined.

(** ** Expiry *)

Definition expired_at (h : query_heap) (t : timeval) (a : Z) : bool :=
  match h !! a with Some q => meridian_query_is_expired q t | None => false end.

(** Every reading of the clock gives the same answer as one at time [now]. *)
Definition steady (h : query_heap) (l : list Z) (clock : nat → timeval) (now : timeval) : Prop :=
  ∀ a i, a ∈ l → expired_at h (clock i) a = expired_at h now a.

Lemma tick_count_spec h clock now k l :
  (∀ a, a ∈ l → is_Some (h !! a)) → steady h l clock now →
  tick_count h clock k l = Ret (length (List.filter (expired_at h now) l)).
Proof.
  revert k. induction l as [|a l IH]; intros k Hl Hs; [done|]. simpl.
  destruct (Hl a) as [q Eq]; [set_solver|]. unfold query_at. rewrite Eq, bind_Ret_l.
  rewrite IH; [|intros b Hb; apply Hl; set_solver|intros b i Hb; apply Hs; set_solver].
  rewrite bind_Ret_l. pose proof (Hs a k ltac:(set_solver)) as Ha. unfold expired_at at 1 in Ha. rewrite Eq in Ha.
  rewrite Ha. by destruct (expired_at h now a).
Qed.

(** The queries handed over carry a yield. *)
Definition consumed (h h' : query_heap) (l : list Z) : Prop :=
  (∀ a q, a ∈ l → h !! a = Some q → h' !! a = Some (qy_with_refs q (refcounter_consume (qy_refcounter q))))
  ∧ ∀ a, a ∉ l → h' !! a = h !! a.

Lemma tick_partition_spec h clock now k room l :
  NoDup l → (∀ a, a ∈ l → is_Some (h !! a)) → steady h l clock now →
  (length (List.filter (expired_at h now) l) <= room)%nat →
  ∃ h', tick_partition h clock k room l
        = Ret (h', List.filter (fun a => negb (expired_at h now a)) l, List.filter (expired_at h now) l)
    ∧ consumed h h' (List.filter (expired_at h now) l).
Proof.
  revert h k room. induction l as [|a l IH]; intros h k room Hnd Hl Hs Hroom; simpl in *.
  { exists h. split; [done|]. split; set_solver. }
  apply list.NoDup_cons in Hnd as [Ha Hnd]. destruct (Hl a) as [q Eq]; [set_solver|].
  pose proof (Hs a k ltac:(set_solver)) as Hk. unfold query_at. rewrite Eq, bind_Ret_l.
  unfold expired_at at 1 in Hk. rewrite Eq in Hk. rewrite Hk.
  destruct (expired_at h now a) eqn:Ex; simpl in *.
  - destruct room as [|room]; [lia|]. set (h1 := <[a := _]> h).
    assert (Hother : ∀ b t, b ∈ l → expired_at h1 t b = expired_at h t b).
    { intros b t Hb. unfold expired_at, h1. rewrite (lookup_insert_ne h a b); [done|]. intros ->. done. }
    assert (Ef : List.filter (expired_at h1 now) l = List.filter (expired_at h now) l).
    { apply List.filter_ext_in. intros b Hb%list_elem_of_In. by apply Hother. }
    assert (Ek : List.filter (fun a => negb (expired_at h1 now a)) l = List.filter (fun a => negb (expired_at h now a)) l).
    { apply List.filter_ext_in. intros b Hb%list_elem_of_In. by rewrite Hother. }
    destruct (IH h1 (S k) room) as (h' & E & Hc1 & Hc2).
    + done.
    + intros b Hb. unfold h1. rewrite (lookup_insert_ne h a b) by set_solver. apply Hl. set_solver.
    + intros b i Hb. rewrite !Hother by done. apply Hs. set_solver.
    + rewrite Ef. lia.
    + rewrite E, bind_Ret_l, Ef, Ek. exists h'. split; [done|]. rewrite Ef in Hc1, Hc2.
      assert (Hnf : a ∉ List.filter (expired_at h now) l).
      { intros Hin. apply list_elem_of_In, List.filter_In in Hin as [Hin _]. by apply list_elem_of_In in Hin. }
      split.
      * intros b qb [->|Hb]%elem_of_cons Eb.
        -- rewrite Hc2 by done. unfold h1. rewrite (lookup_insert_eq h a). simplify_eq. done.
        -- apply Hc1; [done|]. unfold h1. rewrite (lookup_insert_ne h a b); [done|]. intros ->. done.
      * intros b Hb. rewrite Hc2 by set_solver. unfold h1. apply (lookup_insert_ne h a b). set_solver.
  - destruct (IH h (S k) room) as (h' & E & Hc); [done|intros b Hb; apply Hl; set_solver| |lia|].
    + intros b i Hb. apply Hs. set_solver.
    + rewrite E, bind_Ret_l. by exists h'.
Qed.

(** A tick splits the table: when no deadline passes between the readings of the
    clock, exactly the queries whose deadline has passed are handed to the caller,
    each with its reference, in the order of insertion, and exactly the others stay,
    in order; the reference counts of those that stay are untouched. *)
Theorem query_tick_partitions h t clock now :
  NoDup (qt_queries t) → table_live h t → steady h (qt_queries t) clock now →
  let expired := List.filter (expired_at h now) (qt_queries t) in
  ∃ h', meridian_query_table_tick h t clock
        = Ret (h', mkQueryTable (List.filter (fun a => negb (expired_at h now a)) (qt_queries t)) (qt_capacity t), expired)
    ∧ consumed h h' expired.
Proof.
  intros Hnd Hl Hs expired. unfold meridian_query_table_tick. rewrite (tick_count_spec h clock now) by done.
  rewrite bind_Ret_l. fold expired. destruct (length expired) as [|n] eqn:El.
  - apply nil_length_inv in El. rewrite El. exists h. split; [|split; set_solver].
    destruct t as [qs cap]. simpl in *. do 3 f_equal.
    assert (Hall : ∀ a, a ∈ qs → expired_at h now a = false).
    { intros a Ha. apply not_true_iff_false. intros Ex.
      assert (Hin : a ∈ expired) by (apply list_elem_of_In, List.filter_In; split; [by apply list_elem_of_In|done]).
      rewrite El in Hin. set_solver. }
    f_equal. clear -Hall. induction qs as [|a qs IH]; [done|]. simpl. rewrite Hall by set_solver. simpl. f_equal.
    apply IH. intros b Hb. apply Hall. set_solver.
  - destruct (tick_partition_spec h clock now (length (qt_queries t)) (S n) (qt_queries t)) as (h' & E & Hc);
      [done|done|done|fold expired; lia|]. rewrite E, bind_Ret_l. by exists h'.
Qed.

(** At 1.6 s the first query (1 s + 500 ms) has expired, the second has not. *)
Lemma query_tick_partitions_witness :
  ∃ h', meridian_query_table_tick demo_heap (mkQueryTable [1; 2] 64) (fun _ => mkTimeval 1 600000)
        = Ret (h', mkQueryTable [2] 64, [1]) ∧ consumed demo_heap h' [1].
Proof.
  apply (query_tick_partitions demo_heap (mkQueryTable [1; 2] 64) (fun _ => mkTimeval 1 600000) (mkTimeval 1 600000)).
  - apply (bool_decide_eq_true_1 _). reflexivity.
  - intros a [->|[->|[]%not_elem_of_nil]%elem_of_cons]%elem_of_cons; by eexists.
  - intros a i _. reflexivity.
Defined.

(** When a deadline passes between the two passes, the second finds more expired
    queries than the array sized by the first can hold. *)
Lemma query_tick_overflow :
  meridian_query_table_tick demo_heap (mkQueryTable [1; 2] 64)
    (fun i => if (i <? 2)%nat then mkTimeval 1 600000 else mkTimeval 3 0) = Trap.
Proof. vm_compute. reflexivity. Qed.

(** An expired query that its new owner destroys is not freed. *)
Lemma expired_query_leaks :
  match meridian_query_table_tick demo_heap (mkQueryTable [1; 2] 64) (fun _ => mkTimeval 1 600000) with
  | Ret (h, _, [a]) => match meridian_query_destroy h a with Ret h' => bool_decide (is_Some (h' !! a)) | Trap => false end
  | _ => false
  end = true.
Proof. vm_compute. reflexivity. Qed.
