(* ===== verification/Measure.v ===== *)
(** * Measure: the latency cache, [src/Network/Meridian/meridian_measure.c]

    A bounded array of measurements keyed by address and port.  Functions that
    read the clock take the reading (or the sequence of readings) as an argument.
    Sending the probe is [meridian_protocol_send_measure], on a QUIC connection,
    and is not modelled. *)

From stdpp Require Import sets.
From S2P Require Import Prelude.
From S2P Require Import Bitset.
From S2P Require Import Node.

Definition MERIDIAN_PROBE_CACHE_SIZE : Z := 1024.
Definition MERIDIAN_PROBE_CACHE_TIMEOUT_US : Z := 5 * 1000 * 1000.

Record meridian_measure_entry_t := mkMeasure {
  me_addr : Z;
  me_port : Z;
  me_latency_us : Z;
  me_timestamp : timeval
}.

Record meridian_latency_cache_t := mkCache {
  lc_entries : list meridian_measure_entry_t;
  lc_capacity : Z
}.

Definition meridian_latency_cache_create (capacity : Z) : meridian_latency_cache_t :=
  mkCache [] (if capacity =? 0 then MERIDIAN_PROBE_CACHE_SIZE else capacity).

Definition entry_of (node : meridian_node_t) (latency_us : Z) (now : timeval) : meridian_measure_entry_t :=
  mkMeasure (node_addr node) (node_port node) latency_us now.

Definition entry_is (addr port : Z) (e : meridian_measure_entry_t) : bool :=
  (me_addr e =? addr) && (me_port e =? port).

(** The scan for the oldest entry, starting from the time of the scan. *)
Fixpoint oldest_loop (l : list meridian_measure_entry_t) (i oldest_idx : nat) (oldest : timeval) : nat :=
  match l with
  | [] => oldest_idx
  | e :: l' => if timercmp Z.ltb (me_timestamp e) oldest then oldest_loop l' (S i) i (me_timestamp e)
               else oldest_loop l' (S i) oldest_idx oldest
  end.

(** [clock] gives the successive readings: one when an entry is updated or
    appended, two when one is evicted. *)
Definition meridian_latency_cache_insert (c : meridian_latency_cache_t) (node : meridian_node_t) (latency_us : Z)
    (clock : nat → timeval) : meridian_latency_cache_t :=
  let l := lc_entries c in
  match find_index (entry_is (node_addr node) (node_port node)) l with
  | Some i => mkCache (<[i := entry_of node latency_us (clock O)]> l) (lc_capacity c)
  | None =>
      if zlen l <? lc_capacity c then mkCache (l ++ [entry_of node latency_us (clock O)]) (lc_capacity c)
      else mkCache (<[oldest_loop l 0 0 (clock O) := entry_of node latency_us (clock 1%nat)]> l) (lc_capacity c)
  end.

Definition meridian_latency_cache_get (c : meridian_latency_cache_t) (node : meridian_node_t) : option Z :=
  match find_index (entry_is (node_addr node) (node_port node)) (lc_entries c) with
  | Some i => me_latency_us <$> lc_entries c !! i
  | None => None
  end.

(** The age of an entry in microseconds, as the code adds it up. *)
Definition entry_fresh (now : timeval) (e : meridian_measure_entry_t) : bool :=
  let age := timersub now (me_timestamp e) in
  tv_sec age * 1000000 + tv_usec age <? MERIDIAN_PROBE_CACHE_TIMEOUT_US.

(** The in-place compaction: [n] entries left to read. *)
Fixpoint evict_loop (n : nat) (now : timeval) (read_idx write_idx : nat) (entries : list meridian_measure_entry_t)
  : list meridian_measure_entry_t * nat :=
  match n with
  | O => (entries, write_idx)
  | S n' =>
      match entries !! read_idx with
      | None => (entries, write_idx)
      | Some e =>
          if entry_fresh now e
          then evict_loop n' now (S read_idx) (S write_idx)
                 (if (write_idx =? read_idx)%nat then entries else <[write_idx := e]> entries)
          else evict_loop n' now (S read_idx) write_idx entries
      end
  end.

Definition meridian_latency_cache_evict_expired (c : meridian_latency_cache_t) (now : timeval)
  : meridian_latency_cache_t :=
  let '(entries, count) := evict_loop (length (lc_entries c)) now 0 0 (lc_entries c) in
  mkCache (take count entries) (lc_capacity c).

(** ** Requests *)

Inductive meridian_measure_type_t := MERIDIAN_MEASURE_TCP | MERIDIAN_MEASURE_PING | MERIDIAN_MEASURE_DNS.

Record meridian_measure_request_t := mkMeasureRequest {
  mq_query_id : Z;
  mq_target : meridian_node_t;
  mq_type : meridian_measure_type_t;
  mq_start_time : timeval;
  mq_timeout : timeval;
  mq_completed : bool
}.

Definition meridian_measure_request_create (query_id : Z) (target : option meridian_node_t)
    (type : meridian_measure_type_t) (timeout_ms : Z) (now : timeval) : option meridian_measure_request_t :=
  match target with
  | None => None
  | Some t => Some (mkMeasureRequest query_id t type now (timeval_of_ms timeout_ms) false)
  end.

Definition meridian_measure_request_set_timeout (r : meridian_measure_request_t) (timeout_ms : Z)
  : meridian_measure_request_t :=
  mkMeasureRequest (mq_query_id r) (mq_target r) (mq_type r) (mq_start_time r) (timeval_of_ms timeout_ms)
    (mq_completed r).

Definition meridian_measure_request_is_expired (r : option meridian_measure_request_t) (now : timeval) : bool :=
  match r with
  | None => true
  | Some r => timercmp Z.gtb now (timeradd (mq_start_time r) (mq_timeout r))
  end.

(** ** Invariant and behaviour *)

Definition entry_key (e : meridian_measure_entry_t) : Z * Z := (me_addr e, me_port e).

Record cache_wf (c : meridian_latency_cache_t) : Prop := {
  cache_keys : NoDup (entry_key <$> lc_entries c);
  cache_bound : zlen (lc_entries c) <= lc_capacity c;
  cache_pos : 0 < lc_capacity c;
  cache_times : Forall (fun e => tv_ok (me_timestamp e)) (lc_entries c)
}.

Definition measure_key (n : meridian_node_t) : Z * Z := (node_addr n, node_port n).

Lemma entry_is_key addr port e : entry_is addr port e = true ↔ entry_key e = (addr, port).
Proof. unfold entry_is, entry_key. rewrite andb_true_iff, !Z.eqb_eq. split; [by intros [-> ->]|by intros [= -> ->]]. Qed.

Lemma cache_get_spec c n v :
  NoDup (entry_key <$> lc_entries c) →
  meridian_latency_cache_get c n = Some v
  ↔ ∃ e, e ∈ lc_entries c ∧ entry_key e = measure_key n ∧ me_latency_us e = v.
Proof.
  intros Hnd. unfold meridian_latency_cache_get.
  destruct (find_index (entry_is (node_addr n) (node_port n)) (lc_entries c)) as [i|] eqn:Ei.
  - apply find_index_Some in Ei as (e & Ee & Hk & _). apply entry_is_key in Hk. rewrite Ee. simpl. split.
    + intros [= <-]. exists e. split; [by eapply list_elem_of_lookup_2|done].
    + intros (e' & Hin & Hk' & <-). apply list_elem_of_lookup in Hin as [j Ej].
      assert (i = j) as ->; [|by simplify_eq].
      eapply (NoDup_lookup (entry_key <$> lc_entries c)); [done| |].
      * rewrite list_lookup_fmap, Ee. simpl. done.
      * rewrite list_lookup_fmap, Ej. simpl. unfold measure_key in Hk'. congruence.
  - split; [done|]. intros (e & Hin & Hk & _). apply find_index_None in Ei.
    rewrite list.Forall_forall in Ei. specialize (Ei e Hin). apply entry_is_key in Hk. unfold measure_key in Hk. congruence.
Qed.

(** Overwriting one entry. *)
Lemma insert_elem {A} (l : list A) i x y : (i < length l)%nat →
  y ∈ <[i := x]> l ↔ y = x ∨ ∃ j, j ≠ i ∧ l !! j = Some y.
Proof.
  intros Hi. rewrite list_elem_of_lookup. split.
  - intros [j Ej]. destruct (decide (j = i)) as [->|Hj].
    + rewrite list_lookup_insert_eq in Ej by done. simplify_eq. by left.
    + rewrite list_lookup_insert_ne in Ej by done. right. by exists j.
  - intros [->|(j & Hj & Ej)]; [exists i; by apply list_lookup_insert_eq|].
    exists j. by rewrite list_lookup_insert_ne.
Qed.

Lemma insert_keys_nodup l i e :
  NoDup (entry_key <$> l) → (i < length l)%nat → (∀ j x, j ≠ i → l !! j = Some x → entry_key x ≠ entry_key e) →
  NoDup (entry_key <$> <[i := e]> l).
Proof.
  intros Hnd Hi Hne. apply list.NoDup_alt. intros j k x. rewrite !list_lookup_fmap.
  destruct (decide (j = i)) as [->|Hj], (decide (k = i)) as [->|Hk].
  - done.
  - rewrite list_lookup_insert_eq, list_lookup_insert_ne by done. simpl. intros [= <-] E.
    destruct (l !! k) as [y|] eqn:Ey; [|done]. simpl in E. specialize (Hne k y Hk Ey). congruence.
  - rewrite list_lookup_insert_eq, list_lookup_insert_ne by done. simpl. intros E [= <-].
    destruct (l !! j) as [y|] eqn:Ey; [|done]. simpl in E. specialize (Hne j y Hj Ey). congruence.
  - rewrite !list_lookup_insert_ne by done. intros E1 E2.
    eapply (NoDup_lookup (entry_key <$> l)); [done| |]; by rewrite list_lookup_fmap.
Qed.

Lemma oldest_loop_spec l i c best :
  tv_ok best → Forall (fun e => tv_ok (me_timestamp e)) l →
  ∃ m, (oldest_loop l i c best = c ∧ m = tv_us best
        ∨ ∃ j e, oldest_loop l i c best = (i + j)%nat ∧ l !! j = Some e ∧ m = tv_us (me_timestamp e))
    ∧ m <= tv_us best ∧ ∀ e, e ∈ l → m <= tv_us (me_timestamp e).
Proof.
  revert i c best. induction l as [|x l IH]; intros i c best Hb Hok; simpl.
  { exists (tv_us best). split; [by left|]. split; [lia|set_solver]. }
  apply Forall_cons_1 in Hok as [Hx Hok]. rewrite timercmp_lt by done.
  destruct (Z.ltb_spec (tv_us (me_timestamp x)) (tv_us best)).
  - destruct (IH (S i) i (me_timestamp x) Hx Hok) as (m & Hm & Hle & Hall). exists m. split; [|split; [lia|]].
    + right. destruct Hm as [[-> ->]|(j & e & -> & Ej & ->)]; [exists O, x|exists (S j), e]; (split; [lia|done]).
    + intros e [->|He]%elem_of_cons; [done|by apply Hall].
  - destruct (IH (S i) c best Hb Hok) as (m & Hm & Hle & Hall). exists m. split; [|split; [lia|]].
    + destruct Hm as [[-> ->]|(j & e & -> & Ej & ->)]; [by left|]. right. exists (S j), e. split; [lia|done].
    + intros e [->|He]%elem_of_cons; [lia|by apply Hall].
Qed.

(** The index the eviction overwrites is in range. *)
Lemma oldest_index_lt l now :
  tv_ok now → Forall (fun e => tv_ok (me_timestamp e)) l → l ≠ [] → (oldest_loop l 0 0 now < length l)%nat.
Proof.
  intros Hn Hok Hne. destruct (oldest_loop_spec l 0 0 now Hn Hok) as (m & Hm & _ & _).
  destruct Hm as [[-> _]|(j & e & -> & Ej & _)]; [destruct l; simpl; [done|lia]|]. by eapply lookup_lt_Some.
Qed.

(** No entry carries the key of a node the scan does not find. *)
Lemma find_none_key c node j x :
  find_index (entry_is (node_addr node) (node_port node)) (lc_entries c) = None →
  lc_entries c !! j = Some x → entry_key x ≠ measure_key node.
Proof.
  intros Ei Ex E. apply find_index_None in Ei. rewrite list.Forall_forall in Ei.
  apply entry_is_key in E. rewrite Ei in E; [done|]. by eapply list_elem_of_lookup_2.
Qed.

Lemma cache_insert_wf c node latency clock :
  cache_wf c → tv_ok (clock O) → tv_ok (clock 1%nat) →
  let c' := meridian_latency_cache_insert c node latency clock in
  cache_wf c' ∧ ∃ t, entry_of node latency t ∈ lc_entries c'.
Proof.
  intros [Hnd Hb Hpos Hok] T0 T1. unfold meridian_latency_cache_insert.
  destruct (find_index (entry_is (node_addr node) (node_port node)) (lc_entries c)) as [i|] eqn:Ei; simpl.
  - apply find_index_Some in Ei as (e & Ee & Hk & _). apply entry_is_key in Hk.
    pose proof (lookup_lt_Some _ _ _ Ee) as Hi. split; [|exists (clock O); apply insert_elem; [done|by left]].
    split; simpl; [|by unfold zlen in *; rewrite length_insert|done|by apply Forall_insert].
    apply insert_keys_nodup; [done|done|]. intros j x Hj Ex E. apply Hj.
    eapply (NoDup_lookup (entry_key <$> lc_entries c)); [done| |].
    + rewrite list_lookup_fmap, Ex. simpl. by rewrite E.
    + rewrite list_lookup_fmap, Ee. simpl. by rewrite Hk.
  - pose proof (λ j x, find_none_key c node j x Ei) as Hno.
    destruct (Z.ltb_spec (zlen (lc_entries c)) (lc_capacity c)); simpl.
    + split; [|exists (clock O); set_solver]. split; simpl; [| |done|].
      * rewrite fmap_app. apply list.NoDup_app. split; [done|]. split; [|apply list.NoDup_singleton].
        intros k Hk ->%list_elem_of_singleton. apply list_elem_of_fmap in Hk as (x & Ex & Hx).
        apply list_elem_of_lookup in Hx as [j Hj]. by apply (Hno j x).
      * unfold zlen in *. rewrite length_app. simpl. lia.
      * apply Forall_app_2; [done|]. by apply Forall_singleton.
    + assert (Hi := oldest_index_lt (lc_entries c) (clock O) T0 Hok
                      ltac:(intros E; rewrite E in *; unfold zlen in *; simpl in *; lia)).
      split; [|exists (clock 1%nat); apply insert_elem; [done|by left]].
      split; simpl; [|by unfold zlen in *; rewrite length_insert|done|by apply Forall_insert].
      apply insert_keys_nodup; [done|done|]. intros j x _ Ex. by apply (Hno j).
Qed.

(** Caches with the same entries for a node answer alike. *)
Lemma cache_get_ext c c' n :
  NoDup (entry_key <$> lc_entries c) → NoDup (entry_key <$> lc_entries c') →
  (∀ e, entry_key e = measure_key n → e ∈ lc_entries c' ↔ e ∈ lc_entries c) →
  meridian_latency_cache_get c' n = meridian_latency_cache_get c n.
Proof.
  intros Hnd Hnd' Hiff. destruct (meridian_latency_cache_get c n) as [v|] eqn:E.
  - apply cache_get_spec in E as (e & He & Hk & Hv); [|done]. apply cache_get_spec; [done|].
    exists e. split; [by apply Hiff|done].
  - apply eq_None_not_Some. intros [v (e & He & Hk & Hv)%cache_get_spec]; [|done].
    assert (Ev : meridian_latency_cache_get c n = Some v).
    { apply cache_get_spec; [done|]. exists e. split; [by apply Hiff|done]. }
    congruence.
Qed.

Lemma cache_insert_found c node latency clock :
  cache_wf c → tv_ok (clock O) → tv_ok (clock 1%nat) →
  let c' := meridian_latency_cache_insert c node latency clock in
  cache_wf c' ∧ meridian_latency_cache_get c' node = Some latency.
Proof.
  intros Hwf T0 T1 c'. destruct (cache_insert_wf c node latency clock Hwf T0 T1) as [W (t & Hin)].
  split; [done|]. apply cache_get_spec; [apply W|by eexists].
Qed.

(** Inserting a measurement keeps the cache's invariant (no node twice, never
    over capacity); afterwards the node's latency is found, and every other node
    is found with the latency it had, except, in a full cache without an entry for
    the node, the one with the oldest measurement, which is evicted. *)
Theorem latency_cache_insert c node latency clock :
  cache_wf c → tv_ok (clock O) → tv_ok (clock 1%nat) →
  (∀ e, e ∈ lc_entries c → tv_us (me_timestamp e) < tv_us (clock O)) →
  let c' := meridian_latency_cache_insert c node latency clock in
  cache_wf c' ∧ meridian_latency_cache_get c' node = Some latency
  ∧ ∀ n, measure_key n ≠ measure_key node →
      meridian_latency_cache_get c' n = meridian_latency_cache_get c n
      ∨ (meridian_latency_cache_get c node = None ∧ zlen (lc_entries c) = lc_capacity c
         ∧ ∃ e, e ∈ lc_entries c ∧ entry_key e = measure_key n
                ∧ ∀ e', e' ∈ lc_entries c → tv_us (me_timestamp e) <= tv_us (me_timestamp e')).
Proof.
  intros [Hnd Hb Hpos Hok] T0 T1 Hpast c'.
  destruct (cache_insert_found c node latency clock) as [W G]; [done|done|done|]. fold c' in W, G.
  split; [done|]. split; [done|].
  intros n Hn. pose proof (cache_get_ext c c' n Hnd (cache_keys _ W)) as Hkeep.
  subst c'. unfold meridian_latency_cache_insert in *.
  destruct (find_index (entry_is (node_addr node) (node_port node)) (lc_entries c)) as [i|] eqn:Ei.
  - left. apply Hkeep. intros e Hk. simpl. apply find_index_Some in Ei as (e0 & Ee & Hk0 & _). apply entry_is_key in Hk0.
    rewrite insert_elem by (by eapply lookup_lt_Some). split.
    + intros [->|(j & _ & Ej)]; [|by eapply list_elem_of_lookup_2]. by destruct Hn.
    + intros He. apply list_elem_of_lookup in He as [j Ej]. right. exists j. split; [|done]. intros ->.
      simplify_eq. unfold measure_key in *. congruence.
  - destruct (Z.ltb_spec (zlen (lc_entries c)) (lc_capacity c)).
    + left. apply Hkeep. intros e Hk. simpl. rewrite elem_of_app, list_elem_of_singleton. split; [|by left].
      intros [He| ->]; [done|]. by destruct Hn.
    + destruct (oldest_loop_spec (lc_entries c) 0 0 (clock O) T0 Hok) as (m & Hm & _ & Hall).
      destruct Hm as [[_ ->]|(j & e0 & Eo & Ej & ->)].
      { exfalso. destruct (lc_entries c) as [|x l]; [unfold zlen in *; simpl in *; lia|].
        specialize (Hall x ltac:(set_solver)). specialize (Hpast x ltac:(set_solver)). lia. }
      simpl in Eo. destruct (decide (entry_key e0 = measure_key n)) as [Hk0|Hk0].
      * right. split; [unfold meridian_latency_cache_get; by rewrite Ei|]. split; [lia|]. exists e0.
        split; [by eapply list_elem_of_lookup_2|]. split; [done|]. done.
      * left. apply Hkeep. intros e Hk. simpl. rewrite Eo, insert_elem by (by eapply lookup_lt_Some). split.
        -- intros [->|(k & _ & Ek)]; [|by eapply list_elem_of_lookup_2]. by destruct Hn.
        -- intros He. apply list_elem_of_lookup in He as [k Ek]. right. exists k. split; [|done]. intros ->.
           simplify_eq.
Qed.

Definition demo_cache : meridian_latency_cache_t :=
  mkCache [mkMeasure 1 80 500 (mkTimeval 9 0); mkMeasure 2 80 700 (mkTimeval 8 999999)] 2.

(** A third node in a cache of two: the entry of node 2, measured first, goes. *)
Lemma latency_cache_insert_witness :
  meridian_latency_cache_get
    (meridian_latency_cache_insert demo_cache (meridian_node_create_unidentified 3 80) 42 (fun _ => mkTimeval 10 0))
    (meridian_node_create_unidentified 3 80) = Some 42.
Proof.
  destruct (latency_cache_insert demo_cache (meridian_node_create_unidentified 3 80) 42 (fun _ => mkTimeval 10 0))
    as (_ & H & _).
  - split; [apply (bool_decide_eq_true_1 _); reflexivity|unfold zlen; simpl; lia|simpl; lia|].
    repeat constructor; vm_compute; congruence.
  - split; [discriminate|reflexivity].
  - split; [discriminate|reflexivity].
  - intros e [->|[->|[]%not_elem_of_nil]%elem_of_cons]%elem_of_cons; reflexivity.
  - exact H.
Defined.

(** ** Expiry of measurements *)

(** The compaction leaves, at the front, the kept entries among those read. *)
Lemma evict_loop_spec n now read write entries orig :
  (write <= read)%nat → length entries = length orig → (read + n)%nat = length orig →
  take write entries = List.filter (entry_fresh now) (take read orig) → drop read entries = drop read orig →
  let '(entries', count) := evict_loop n now read write entries in
  take count entries' = List.filter (entry_fresh now) orig.
Proof.
  revert read write entries. induction n as [|n IH]; intros read write entries Hle Hlen Hn Ht Hd; simpl.
  { rewrite Ht, take_ge by lia. done. }
  destruct (lookup_lt_is_Some_2 orig read) as [e Ee]; [lia|].
  assert (Ee' : entries !! read = Some e).
  { rewrite <- (Nat.add_0_r read) at 1. rewrite <- lookup_drop, Hd, lookup_drop, Nat.add_0_r. done. }
  rewrite Ee'. assert (Hts : take (S read) orig = take read orig ++ [e]) by by apply take_S_r.
  assert (Hds : drop (S read) entries = drop (S read) orig).
  { replace (S read) with (read + 1)%nat by lia. by rewrite <- !drop_drop, Hd. }
  destruct (entry_fresh now e) eqn:Ef.
  - assert (Hw : ∀ es, es = (if (write =? read)%nat then entries else <[write := e]> entries) →
              length es = length orig ∧ take (S write) es = take write entries ++ [e] ∧ drop (S read) es = drop (S read) entries).
    { intros es ->. destruct (Nat.eqb_spec write read) as [->|Hne].
      - split; [done|]. split; [by apply take_S_r|done].
      - split; [by rewrite length_insert|]. split; [|by rewrite drop_insert_lt by lia].
        rewrite (take_S_r _ write e) by (apply list_lookup_insert_eq; lia). by rewrite take_insert_ge. }
    destruct (Hw _ eq_refl) as (H1 & H2 & H3). apply IH; [lia|done|lia| |by rewrite H3].
    rewrite H2, Ht, Hts, List.filter_app. simpl. by rewrite Ef.
  - apply IH; [lia|done|lia| |done]. rewrite Ht, Hts, List.filter_app. simpl. by rewrite Ef, app_nil_r.
Qed.

(** Eviction compacts the array in place and leaves exactly the measurements less
    than five seconds old, in their order; the invariant is kept. *)
Theorem latency_cache_evict c now :
  cache_wf c → tv_ok now →
  let c' := meridian_latency_cache_evict_expired c now in
  lc_entries c'
  = List.filter (fun e => tv_us now - tv_us (me_timestamp e) <? MERIDIAN_PROBE_CACHE_TIMEOUT_US) (lc_entries c)
  ∧ cache_wf c'.
Proof.
  intros [Hnd Hb Hpos Hok] Hnow c'.
  assert (E : lc_entries c' = List.filter (entry_fresh now) (lc_entries c)).
  { subst c'. unfold meridian_latency_cache_evict_expired.
    pose proof (evict_loop_spec (length (lc_entries c)) now 0 0 (lc_entries c) (lc_entries c)) as H.
    destruct (evict_loop _ _ _ _ _) as [es n]. apply H; done. }
  assert (Hin : ∀ e, e ∈ List.filter (entry_fresh now) (lc_entries c) → e ∈ lc_entries c).
  { intros e He. apply list_elem_of_In, List.filter_In in He as [He _]. by apply list_elem_of_In. }
  split.
  - rewrite E. apply List.filter_ext_in. intros e He%list_elem_of_In. unfold entry_fresh.
    rewrite list.Forall_forall in Hok. destruct (timersub_us now (me_timestamp e)) as [_ Eu]; [done|by apply Hok|].
    fold (tv_us (timersub now (me_timestamp e))). by rewrite Eu.
  - assert (Hc : lc_capacity c' = lc_capacity c) by (subst c'; unfold meridian_latency_cache_evict_expired; by destruct (evict_loop _ _ _ _ _)).
    split; rewrite ?E, ?Hc; [| |done|].
    + clear -Hnd. induction (lc_entries c) as [|e l IH]; [done|]. simpl in *. apply list.NoDup_cons in Hnd as [Hx Hnd].
      destruct (entry_fresh now e); [|by apply IH]. simpl. apply list.NoDup_cons. split; [|by apply IH].
      intros Hin. apply Hx. apply list_elem_of_fmap in Hin as (y & Ey & Hy). apply list_elem_of_fmap. exists y.
      split; [done|]. apply list_elem_of_In, List.filter_In in Hy as [Hy _]. by apply list_elem_of_In.
    + unfold zlen in *. pose proof (List.filter_length_le (entry_fresh now) (lc_entries c)). lia.
    + rewrite list.Forall_forall in *. intros e He. by apply Hok, Hin.
Qed.

(** Five seconds after the first measurement only the second is left. *)
Lemma latency_cache_evict_witness :
  lc_entries (meridian_latency_cache_evict_expired demo_cache (mkTimeval 13 999999)) = [mkMeasure 1 80 500 (mkTimeval 9 0)].
Proof.
  destruct (latency_cache_evict demo_cache (mkTimeval 13 999999)) as [H _].
  - split; [apply (bool_decide_eq_true_1 _); reflexivity|unfold zlen; simpl; lia|simpl; lia|].
    repeat constructor; vm_compute; congruence.
  - split; [discriminate|reflexivity].
  - rewrite H. reflexivity.
Defined.
