(* ===== verification/Gossip.v ===== *)
(** * Gossip: ring gossip and its schedule, [src/Network/Meridian/meridian_gossip.c]

    The two-phase scheduler, one gossip exchange, and the handle that sends
    gossip to peers and matches replies.  Clock readings are arguments; the
    outbound callback is the argument [out], which lists the datagrams a call
    hands to msquic, and the completion callback is the list of discovered nodes
    the receiver returns. *)

From stdpp Require Import sets.
From S2P Require Import Prelude.
From S2P Require Import Bitset.
From S2P Require Import Cbor.
From S2P Require Import Node.
From S2P Require Import Packet.

(** ** The scheduler *)

Record meridian_gossip_scheduler_t := mkScheduler {
  gs_init_interval_s : Z;
  gs_num_init_intervals : Z;
  gs_steady_state_interval_s : Z;
  gs_interval_idx : Z;
  gs_is_initial_phase : bool;
  gs_last_gossip : timeval
}.

Definition meridian_gossip_scheduler_create (init_interval_s num_init_intervals steady_state_interval_s : Z)
    (now : timeval) : meridian_gossip_scheduler_t :=
  mkScheduler init_interval_s num_init_intervals steady_state_interval_s 0 true now.

Definition meridian_gossip_scheduler_tick (s : meridian_gossip_scheduler_t) (now : timeval)
  : bool * meridian_gossip_scheduler_t :=
  let interval := mkTimeval (if gs_is_initial_phase s then gs_init_interval_s s else gs_steady_state_interval_s s) 0 in
  let next_gossip := timeradd (gs_last_gossip s) interval in
  if timercmp Z.geb now next_gossip then
    let '(idx, initial) :=
      if gs_is_initial_phase s then
        let idx := u32 (gs_interval_idx s + 1) in (idx, negb (gs_num_init_intervals s <=? idx))
      else (gs_interval_idx s, false) in
    (true, mkScheduler (gs_init_interval_s s) (gs_num_init_intervals s) (gs_steady_state_interval_s s) idx initial now)
  else (false, s).

Definition meridian_gossip_scheduler_set_steady_state (s : meridian_gossip_scheduler_t) (interval_s : Z)
  : meridian_gossip_scheduler_t :=
  mkScheduler (gs_init_interval_s s) (gs_num_init_intervals s) interval_s (gs_interval_idx s) (gs_is_initial_phase s)
    (gs_last_gossip s).

(** ** One exchange *)

Inductive meridian_gossip_state_t :=
| MERIDIAN_GOSSIP_STATE_INIT
| MERIDIAN_GOSSIP_STATE_ACTIVE
| MERIDIAN_GOSSIP_STATE_WAIT_REPLY.

Record meridian_gossip_t := mkExchange {
  gx_query_id : Z;
  gx_state : meridian_gossip_state_t;
  gx_target : meridian_node_t;
  gx_start_time : timeval;
  gx_reply_timeout : timeval;
  gx_active : bool
}.

Definition meridian_gossip_create (query_id : Z) (target : option meridian_node_t) (timeout_ms : Z) (now : timeval)
  : option meridian_gossip_t :=
  match target with
  | None => None
  | Some n => Some (mkExchange query_id MERIDIAN_GOSSIP_STATE_INIT n now (timeval_of_ms timeout_ms) false)
  end.

Definition meridian_gossip_start (g : meridian_gossip_t) : meridian_gossip_t :=
  mkExchange (gx_query_id g) MERIDIAN_GOSSIP_STATE_ACTIVE (gx_target g) (gx_start_time g) (gx_reply_timeout g) true.

Definition meridian_gossip_is_expired (g : option meridian_gossip_t) (now : timeval) : bool :=
  match g with
  | None => true
  | Some g => timercmp Z.gtb now (timeradd (gx_start_time g) (gx_reply_timeout g))
  end.

Definition meridian_gossip_handle_response (g : meridian_gossip_t) : meridian_gossip_t :=
  match gx_state g with
  | MERIDIAN_GOSSIP_STATE_WAIT_REPLY =>
      mkExchange (gx_query_id g) MERIDIAN_GOSSIP_STATE_ACTIVE (gx_target g) (gx_start_time g) (gx_reply_timeout g)
        (gx_active g)
  | _ => g
  end.

Definition meridian_gossip_build_packet (g : meridian_gossip_t) : meridian_gossip_packet_t :=
  let p := meridian_gossip_packet_create in
  let base := mkPacket (pkt_type (gossip_base p)) (gx_query_id g) (pkt_magic (gossip_base p))
                (node_rendv_addr (gx_target g)) (node_rendv_port (gx_target g)) in
  mkGossip base (gossip_targets p ++ [gx_target g]).

(** ** The handle *)

Record meridian_gossip_handle_t := mkGossipHandle {
  gh_scheduler : meridian_gossip_scheduler_t;
  gh_timeout_ms : Z;
  gh_active_gossips : list meridian_gossip_t;
  gh_running : bool
}.

Definition meridian_gossip_handle_create (init_interval_s num_init_intervals steady_state_interval_s timeout_ms : Z)
    (now : timeval) : meridian_gossip_handle_t :=
  mkGossipHandle (meridian_gossip_scheduler_create init_interval_s num_init_intervals steady_state_interval_s now)
    timeout_ms [] false.

Definition gh_with_running (h : meridian_gossip_handle_t) (b : bool) : meridian_gossip_handle_t :=
  mkGossipHandle (gh_scheduler h) (gh_timeout_ms h) (gh_active_gossips h) b.
Definition gh_with_gossips (h : meridian_gossip_handle_t) (l : list meridian_gossip_t) : meridian_gossip_handle_t :=
  mkGossipHandle (gh_scheduler h) (gh_timeout_ms h) l (gh_running h).
Definition gh_with_scheduler (h : meridian_gossip_handle_t) (s : meridian_gossip_scheduler_t) : meridian_gossip_handle_t :=
  mkGossipHandle s (gh_timeout_ms h) (gh_active_gossips h) (gh_running h).

Definition meridian_gossip_handle_start (h : meridian_gossip_handle_t) : meridian_gossip_handle_t := gh_with_running h true.
Definition meridian_gossip_handle_stop (h : meridian_gossip_handle_t) : meridian_gossip_handle_t := gh_with_running h false.

(** [qid = ((i + 1) << 32) | (targets[i] & 0xFFFFFFFF)]; [ptr] is the address of
    the target. *)
Definition gossip_query_id (i : nat) (ptr : Z) : Z :=
  Z.lor (u64 (Z.shiftl (u64 (Z.of_nat i + 1)) 32)) (Z.land ptr 0xFFFFFFFF).

Section handle.
Context (cbor_load : list Z → option cbor_item) (cbor_serialize_alloc : cbor_item → list Z).

(** The first exchange with the packet's query id is told of the reply. *)
Fixpoint match_reply (query_id : Z) (l : list meridian_gossip_t) : list meridian_gossip_t :=
  match l with
  | [] => []
  | g :: l' => if gx_query_id g =? query_id then meridian_gossip_handle_response g :: l'
               else g :: match_reply query_id l'
  end.

(** The result code, the handle, and the nodes passed to the completion
    callback (none when the packet lists none). *)
Definition meridian_gossip_handle_on_packet (h : meridian_gossip_handle_t) (data : list Z)
  : exec (Z * meridian_gossip_handle_t * list meridian_node_t) :=
  match cbor_load data with
  | None => Ret (-1, h, [])
  | Some item =>
      definite <- cbor_array_is_definite item ;;
      size <- cbor_array_size item ;;
      if negb definite || (size <? 1) then Ret (-1, h, [])
      else
        items <- cbor_array_handle item ;;
        type <- get8 items 0 ;;
        if type =? MERIDIAN_PACKET_TYPE_GOSSIP then
          r <- meridian_gossip_decode (Some item) ;;
          match r with
          | None => Ret (-1, h, [])
          | Some pkt =>
              Ret (0, gh_with_gossips h (match_reply (pkt_query_id (gossip_base pkt)) (gh_active_gossips h)),
                   gossip_targets pkt)
          end
        else Ret (-1, h, [])
  end.

Context (out : list Z → meridian_node_t → list (Z * list Z)).

(** The loop over the targets: each is given with its address. *)
Fixpoint send_gossip_loop (h : meridian_gossip_handle_t) (targets : list (option meridian_node_t * Z)) (i : nat)
    (clock : nat → timeval) : exec (meridian_gossip_handle_t * list (Z * list Z)) :=
  match targets with
  | [] => Ret (h, [])
  | (target, ptr) :: targets' =>
      match meridian_gossip_create (gossip_query_id i ptr) target (gh_timeout_ms h) (clock i) with
      | None => send_gossip_loop h targets' (S i) clock
      | Some g =>
          encoded <- meridian_gossip_encode (Some (meridian_gossip_build_packet g)) ;;
          let sent := match encoded with
                      | None => []
                      | Some e => let buffer := cbor_serialize_alloc e in
                                  if 0 <? zlen buffer then out buffer (gx_target g) else []
                      end in
          '(h', rest) <- send_gossip_loop (gh_with_gossips h (gh_active_gossips h ++ [g])) targets' (S i) clock ;;
          Ret (h', sent ++ rest)
      end
  end.

Definition meridian_gossip_handle_send_gossip (h : meridian_gossip_handle_t)
    (targets : list (option meridian_node_t * Z)) (clock : nat → timeval)
  : exec (Z * meridian_gossip_handle_t * list (Z * list Z)) :=
  match targets with
  | [] => Ret (-1, h, [])
  | _ => '(h', sent) <- send_gossip_loop h targets 0 clock ;; Ret (0, h', sent)
  end.
End handle.

(** ** When gossip is due *)

(** The schedule: after [k] rounds, the interval before the next. *)
Definition interval_after (init n steady : Z) (k : nat) : Z := if Z.of_nat k <? Z.max n 1 then init else steady.

(** The rounds among ticks at the given times, by the schedule alone: a round is
    due once the interval has passed since the last one. *)
Fixpoint scheduled_rounds (init n steady : Z) (k : nat) (last : Z) (times : list Z) : list bool :=
  match times with
  | [] => []
  | t :: times' =>
      if last + 1000000 * interval_after init n steady k <=? t
      then true :: scheduled_rounds init n steady (S k) t times'
      else false :: scheduled_rounds init n steady k last times'
  end.

Fixpoint scheduler_run (s : meridian_gossip_scheduler_t) (times : list timeval) : list bool :=
  match times with
  | [] => []
  | t :: times' => let '(b, s') := meridian_gossip_scheduler_tick s t in b :: scheduler_run s' times'
  end.

(** The scheduler after [k] rounds, the last at [last]. *)
Definition scheduler_rep (s : meridian_gossip_scheduler_t) (init n steady : Z) (k : nat) (last : Z) : Prop :=
  gs_init_interval_s s = init ∧ gs_num_init_intervals s = n ∧ gs_steady_state_interval_s s = steady
  ∧ tv_ok (gs_last_gossip s) ∧ tv_us (gs_last_gossip s) = last
  ∧ gs_is_initial_phase s = (Z.of_nat k <? Z.max n 1)
  ∧ (gs_is_initial_phase s = true → gs_interval_idx s = Z.of_nat k).

Lemma scheduler_tick_rep s init n steady k last t :
  is_u32 n → scheduler_rep s init n steady k last → tv_ok t →
  let due := last + 1000000 * interval_after init n steady k <=? tv_us t in
  let '(b, s') := meridian_gossip_scheduler_tick s t in
  b = due ∧ scheduler_rep s' init n steady (if due then S k else k) (if due then tv_us t else last).
Proof.
  intros Hn (Ei & En & Es & Hok & Hl & Hp & Hidx) Ht. cbv zeta. unfold meridian_gossip_scheduler_tick.
  set (interval := mkTimeval (if gs_is_initial_phase s then _ else _) 0).
  assert (Eint : tv_us interval = 1000000 * interval_after init n steady k).
  { unfold interval, interval_after, tv_us. cbn [tv_sec tv_usec]. rewrite Hp, Ei, Es.
    destruct (Z.of_nat k <? Z.max n 1); lia. }
  assert (Hiok : tv_ok interval) by (unfold tv_ok; simpl; lia).
  destruct (timeradd_us (gs_last_gossip s) interval Hok Hiok) as [Hdok Hd].
  rewrite timercmp_ge, Hd, Eint, Hl by done.
  destruct (Z.leb_spec (last + 1000000 * interval_after init n steady k) (tv_us t)); [|done].
  destruct (gs_is_initial_phase s) eqn:Eph.
  - rewrite Hidx by done. symmetry in Hp. apply Z.ltb_lt in Hp. unfold is_u32 in Hn.
    rewrite u32_id by (unfold is_u32; lia). split; [done|]. unfold scheduler_rep. simpl.
    rewrite En. repeat (split; [done|]). split.
    + apply eq_true_iff_eq. rewrite negb_true_iff, Z.leb_gt, Z.ltb_lt. lia.
    + intros _. lia.
  - split; [done|]. unfold scheduler_rep. simpl. repeat (split; [done|]). split; [|done].
    symmetry in Hp |- *. apply Z.ltb_ge in Hp. apply Z.ltb_ge. lia.
Qed.

(** The gossip scheduler implements its schedule: ticked at any times, it asks
    for a round exactly when the interval since the previous round (since its
    creation for the first) has passed, where the interval is the initial one for
    the first [num_init_intervals] rounds (for one round if that is 0) and the
    steady one afterwards. *)
Theorem scheduler_follows_schedule init n steady start times :
  is_u32 n → tv_ok start → Forall tv_ok times →
  scheduler_run (meridian_gossip_scheduler_create init n steady start) times
  = scheduled_rounds init n steady 0 (tv_us start) (tv_us <$> times).
Proof.
  intros Hn Hs Ht.
  assert (Hrep : scheduler_rep (meridian_gossip_scheduler_create init n steady start) init n steady 0 (tv_us start)).
  { unfold scheduler_rep, meridian_gossip_scheduler_create. simpl. repeat (split; [done|]). split; [|done].
    symmetry. apply Z.ltb_lt. lia. }
  revert Hrep. generalize (meridian_gossip_scheduler_create init n steady start) 0%nat (tv_us start).
  induction times as [|t times IH]; intros s k last Hrep; [done|]. apply Forall_cons_1 in Ht as [Ht Hts].
  pose proof (scheduler_tick_rep s init n steady k last t Hn Hrep Ht) as H. simpl.
  destruct (meridian_gossip_scheduler_tick s t) as [b s']. destruct H as [-> Hrep'].
  destruct (last + 1000000 * interval_after init n steady k <=? tv_us t); f_equal; by apply IH.
Qed.

(** Two initial rounds a second apart, then every ten seconds. *)
Lemma scheduler_follows_schedule_witness :
  scheduler_run (meridian_gossip_scheduler_create 1 2 10 (mkTimeval 100 0))
    [mkTimeval 100 999999; mkTimeval 101 0; mkTimeval 102 0; mkTimeval 103 0; mkTimeval 112 0]
  = [false; true; true; false; true].
Proof.
  rewrite (scheduler_follows_schedule 1 2 10 (mkTimeval 100 0)).
  - reflexivity.
  - split; [discriminate|reflexivity].
  - split; [discriminate|reflexivity].
  - repeat constructor; vm_compute; congruence.
Defined.

(** ** What gossip says *)

(** The packet for a peer lists that peer alone. *)
Lemma gossip_names_only_its_recipient g : gossip_targets (meridian_gossip_build_packet g) = [gx_target g].
Proof. reflexivity. Qed.

(** Exchanges are never taken off the active list. *)
Lemma send_gossip_grows cbor_serialize_alloc out targets h i clock h' sent :
  send_gossip_loop cbor_serialize_alloc out h targets i clock = Ret (h', sent) →
  ∃ l, gh_active_gossips h' = gh_active_gossips h ++ l
       ∧ gx_target <$> l = omap fst targets.
Proof.
  revert h i h' sent. induction targets as [|[[n|] ptr] targets IH]; intros h i h' sent E;
    cbn [send_gossip_loop meridian_gossip_create] in E.
  - simplify_eq. exists []. by rewrite app_nil_r.
  - apply bind_ret in E as (enc & _ & E). apply bind_ret in E as ([h1 rest] & E & Eq). simplify_eq.
    destruct (IH _ _ _ _ E) as (l & E1 & E2). eexists. rewrite E1. simpl. rewrite <- app_assoc. split; [done|].
    change (n :: (gx_target <$> l) = n :: omap fst targets). by rewrite E2.
  - by eapply IH.
Qed.
