(* ===== verification/Dispatch.v ===== *)
(** * Dispatch: received packets and periodic work of a Meridian endpoint

    [meridian_protocol_on_packet], the latency probes and the gossip round of
    [src/Network/Meridian/meridian_protocol.c], on the peer table of [Protocol],
    the latency cache of [Measure] and the gossip handle of [Gossip].  The calls
    a packet causes outside the endpoint (the application's callbacks and the
    channel manager's handlers) are returned as values of [upcall]. *)

From stdpp Require Import sets.
From S2P Require Import Prelude.
From S2P Require Import Bitset.
From S2P Require Import Endian.
From S2P Require Import Cbor.
From S2P Require Import CborWire.
From S2P Require Import Node.
From S2P Require Import Packet.
From S2P Require Import ChannelPacket.
From S2P Require Import Ring.
From S2P Require Import Route.
From S2P Require Import Protocol.
From S2P Require Import Quasar.
From S2P Require Import Measure.
From S2P Require Import Gossip.

Definition MERIDIAN_PACKET_TYPE_RET_PING : Z := 13.
Definition MERIDIAN_PACKET_TYPE_GOSSIP_PULL : Z := 23.

(** A measurement reported to the callback of its request. *)
Record meridian_measure_result_t := mkMeasureResult {
  mr_node : meridian_node_t;
  mr_latency_us : Z;
  mr_success : bool
}.

Inductive upcall :=
| CallPacket (data : list Z)
| CallQuasarGossip (data : list Z)
| CallBootstrapRequest (topic sender : list Z)
| CallBootstrapReply (r : bootstrap_reply)
| CallMeasured (query_id : Z) (r : meridian_measure_result_t).

Record endpoint := mkEndpoint {
  ep_protocol : meridian_protocol_t;
  ep_gossip : meridian_gossip_handle_t;
  ep_cache : meridian_latency_cache_t;
  ep_pending : list meridian_measure_request_t;
  ep_on_packet : bool;
  ep_on_quasar_gossip : bool;
  ep_channel_manager : bool
}.

Definition ep_with_gossip (e : endpoint) (h : meridian_gossip_handle_t) : endpoint :=
  mkEndpoint (ep_protocol e) h (ep_cache e) (ep_pending e) (ep_on_packet e) (ep_on_quasar_gossip e) (ep_channel_manager e).
Definition ep_with_measures (e : endpoint) (c : meridian_latency_cache_t) (l : list meridian_measure_request_t) : endpoint :=
  mkEndpoint (ep_protocol e) (ep_gossip e) c l (ep_on_packet e) (ep_on_quasar_gossip e) (ep_channel_manager e).
Definition ep_with_rings (e : endpoint) (s : meridian_ring_set_t) : endpoint :=
  let p := ep_protocol e in
  mkEndpoint (mkProtocol (mp_running p) (mp_local_s_addr p) (mp_local_sin_port p) (mp_seed_nodes p) (mp_peers p) s)
    (ep_gossip e) (ep_cache e) (ep_pending e) (ep_on_packet e) (ep_on_quasar_gossip e) (ep_channel_manager e).

(** [gossip_completed_cb]: discovered nodes enter the rings with latency 0. *)
Fixpoint gossip_completed (floor_log : Z → Z → Z) (s : meridian_ring_set_t) (peers : list meridian_node_t)
  : meridian_ring_set_t :=
  match peers with
  | [] => s
  | n :: peers' => gossip_completed floor_log (snd (meridian_ring_set_insert_nn floor_log s n 0)) peers'
  end.

(** The round-trip time of a request answered at [now], as a 32-bit integer. *)
Definition rtt_us (r : meridian_measure_request_t) (now : timeval) : Z :=
  let elapsed := timersub now (mq_start_time r) in u32 (tv_sec elapsed * 1000000 + tv_usec elapsed).

(** The pending request with the id is removed by moving the last into its place. *)
Definition measure_reply (e : endpoint) (query_id : Z) (clock : nat → timeval) : option (endpoint * list upcall) :=
  match find_index (fun r => mq_query_id r =? query_id) (ep_pending e) with
  | None => None
  | Some i =>
      match ep_pending e !! i with
      | None => None
      | Some req =>
          let rtt := rtt_us req (clock O) in
          Some (ep_with_measures e
                  (meridian_latency_cache_insert (ep_cache e) (mq_target req) rtt (fun k => clock (S k)))
                  (swap_remove i (ep_pending e)),
                [CallMeasured query_id (mkMeasureResult (mq_target req) rtt true)])
      end
  end.

Definition meridian_protocol_on_measure_result (e : endpoint) (r : meridian_measure_result_t) (clock : nat → timeval)
  : endpoint :=
  if mr_success r
  then ep_with_measures e (meridian_latency_cache_insert (ep_cache e) (mr_node r) (mr_latency_us r) clock) (ep_pending e)
  else e.

Section dispatch.
Context (floor_log : Z → Z → Z).
Context (cbor_load : list Z → option cbor_item) (cbor_serialize_alloc : cbor_item → list Z).
Context (DatagramSend : Z → list Z → bool).

(** The part of [meridian_protocol_on_packet] after the header: by packet type. *)
Definition dispatch_type (e : endpoint) (item : cbor_item) (type : Z) (data : list Z)
  : exec (Z * endpoint * list upcall) :=
  if (type =? MERIDIAN_PACKET_TYPE_GOSSIP) || (type =? MERIDIAN_PACKET_TYPE_GOSSIP_PULL) then
    '(rc, h, found) <- meridian_gossip_handle_on_packet cbor_load (ep_gossip e) data ;;
    let e' := ep_with_gossip e h in
    Ret (rc, ep_with_rings e' (gossip_completed floor_log (mp_ring_set (ep_protocol e')) found), [])
  else if type =? MERIDIAN_PACKET_TYPE_QUASAR_GOSSIP then
    Ret (0, e, if ep_on_quasar_gossip e then [CallQuasarGossip data] else [])
  else if type =? MERIDIAN_PACKET_TYPE_CHANNEL_BOOTSTRAP then
    if ep_channel_manager e then
      r <- meridian_channel_bootstrap_decode (Some item) 64 64 ;;
      Ret (0, e, match r with Some (topic, sender, _) => [CallBootstrapRequest topic sender] | None => [] end)
    else Ret (0, e, [])
  else if type =? MERIDIAN_PACKET_TYPE_CHANNEL_BOOTSTRAP_REPLY then
    if ep_channel_manager e then
      r <- meridian_channel_bootstrap_reply_decode (Some item) 64 64 16 ;;
      Ret (0, e, match r with Some reply => [CallBootstrapReply reply] | None => [] end)
    else Ret (0, e, [])
  else Ret (0, e, if ep_on_packet e then [CallPacket data] else []).

(** [magic = ntohl(first word)] of a packet of at least four bytes. *)
Definition is_route_packet (data : list Z) : bool :=
  (4 <=? zlen data) && (ntohl (le_decode (take 4 data)) =? QUASAR_ROUTE_MAGIC).

Definition meridian_protocol_on_packet (e : endpoint) (data : list Z) (clock : nat → timeval)
  : exec (Z * endpoint * list upcall) :=
  if is_route_packet data then Ret (0, e, if ep_on_packet e then [CallPacket data] else [])
  else
    match cbor_load data with
    | None => Ret (-1, e, [])
    | Some item =>
        header <- meridian_packet_decode (Some item) ;;
        let pong := match header with
                    | Some pkt => if pkt_type pkt =? MERIDIAN_PACKET_TYPE_RET_PING
                                  then measure_reply e (pkt_query_id pkt) clock else None
                    | None => None
                    end in
        match pong with
        | Some (e', calls) => Ret (0, e', calls)
        | None =>
            definite <- cbor_array_is_definite item ;;
            size <- cbor_array_size item ;;
            if negb definite || (size <? 1) then Ret (-1, e, [])
            else
              items <- cbor_array_handle item ;;
              type <- get8 items 0 ;;
              dispatch_type e item type data
        end
    end.

(** Sending a probe: the request is pending only once its packet was sent. *)
Definition meridian_protocol_send_measure (e : endpoint) (req : meridian_measure_request_t) (now : timeval)
  : exec (Z * endpoint * list (Z * list Z)) :=
  let req := mkMeasureRequest (mq_query_id req) (mq_target req) (mq_type req) now (mq_timeout req) (mq_completed req) in
  encoded <- meridian_packet_encode (Some (mkPacket MERIDIAN_PACKET_TYPE_PING (mq_query_id req) MERIDIAN_MAGIC_NUMBER 0 0)) ;;
  match encoded with
  | None => Ret (-1, e, [])
  | Some item =>
      let '(rc, sent) := meridian_protocol_send_packet DatagramSend (Some (ep_protocol e)) (cbor_serialize_alloc item)
                           (Some (mq_target req)) in
      if negb (rc =? 0) then Ret (-1, e, sent)
      else Ret (0, ep_with_measures e (ep_cache e) (ep_pending e ++ [req]), sent)
  end.

Definition meridian_measure_request_execute (e : endpoint) (req : meridian_measure_request_t) (now : timeval)
  : exec (Z * endpoint * list (Z * list Z)) :=
  if mq_completed req then Ret (-1, e, []) else meridian_protocol_send_measure e req now.

(** A gossip round to every slot of the peer table when the scheduler asks for
    one; [ptrs] are the addresses of the nodes. *)
Definition meridian_protocol_gossip (e : endpoint) (ptrs : nat → Z) (clock : nat → timeval)
  : exec (Z * endpoint * list (Z * list Z)) :=
  let '(should, s) := meridian_gossip_scheduler_tick (gh_scheduler (ep_gossip e)) (clock O) in
  let h := gh_with_scheduler (ep_gossip e) s in
  let targets := imap (fun i n => (n, ptrs i)) (meridian_protocol_get_connected_peers (ep_protocol e)) in
  if should && (0 <? zlen targets) then
    '(_, h', sent) <- meridian_gossip_handle_send_gossip cbor_serialize_alloc
                        (fun d n => snd (meridian_protocol_send_packet DatagramSend (Some (ep_protocol e)) d (Some n)))
                        h targets (fun k => clock (S k)) ;;
    Ret (0, ep_with_gossip e h', sent)
  else Ret (0, ep_with_gossip e h, []).
End dispatch.

(** ** Probes *)

(** The ping's encoder always gives up, so no probe is ever sent or awaited. *)
Lemma send_measure_fails cbor_serialize_alloc DatagramSend e req now :
  meridian_protocol_send_measure cbor_serialize_alloc DatagramSend e req now = Ret (-1, e, []).
Proof.
  unfold meridian_protocol_send_measure. destruct ring_packets_undecodable as (H & _). by rewrite H.
Qed.

(** A reply to a pending probe (which is not a route packet) takes the first
    request with its query id off the pending list and leaves every other one
    there, enters the target's round-trip time in microseconds into the latency
    cache, where it is then found, reports the same to the request's callback
    alone, and succeeds. *)
Theorem pong_records_latency floor_log cbor_load e data item pkt i req clock :
  is_route_packet data = false → cbor_load data = Some item →
  meridian_packet_decode (Some item) = Ret (Some pkt) → pkt_type pkt = MERIDIAN_PACKET_TYPE_RET_PING →
  find_index (fun r => mq_query_id r =? pkt_query_id pkt) (ep_pending e) = Some i → ep_pending e !! i = Some req →
  cache_wf (ep_cache e) → tv_ok (mq_start_time req) → (∀ k, tv_ok (clock k)) →
  0 <= tv_us (clock O) - tv_us (mq_start_time req) < 2 ^ 32 →
  let rtt := tv_us (clock O) - tv_us (mq_start_time req) in
  ∃ e', meridian_protocol_on_packet floor_log cbor_load e data clock
        = Ret (0, e', [CallMeasured (pkt_query_id pkt) (mkMeasureResult (mq_target req) rtt true)])
    ∧ req :: ep_pending e' ≡ₚ ep_pending e
    ∧ cache_wf (ep_cache e') ∧ meridian_latency_cache_get (ep_cache e') (mq_target req) = Some rtt
    ∧ ep_protocol e' = ep_protocol e ∧ ep_gossip e' = ep_gossip e.
Proof.
  intros Hr Hload Hdec Htype Hi Ereq Hwf Hstart Hclock Hrange rtt.
  assert (Ertt : rtt_us req (clock O) = rtt).
  { unfold rtt_us. destruct (timersub_us (clock O) (mq_start_time req) (Hclock O) Hstart) as [_ E].
    fold (tv_us (timersub (clock O) (mq_start_time req))). rewrite E. by apply u32_id. }
  unfold meridian_protocol_on_packet. rewrite Hr, Hload, Hdec, bind_Ret_l, Htype, Z.eqb_refl.
  unfold measure_reply. rewrite Hi, Ereq, Ertt. eexists. split; [done|].
  destruct (cache_insert_found (ep_cache e) (mq_target req) rtt (fun k => clock (S k))) as [W G]; [done|done|done|].
  simpl. split; [|done].
  rewrite swap_remove_perm by (by eapply lookup_lt_Some). symmetry. by apply delete_Permutation.
Qed.

Definition demo_endpoint : endpoint :=
  mkEndpoint demo_protocol (meridian_gossip_handle_create 1 2 10 500 (mkTimeval 100 0)) (meridian_latency_cache_create 0)
    [mkMeasureRequest 76 (meridian_node_create_unidentified 1 80) MERIDIAN_MEASURE_PING (mkTimeval 99 0) (mkTimeval 1 0) false;
     mkMeasureRequest 77 (meridian_node_create_unidentified 2 80) MERIDIAN_MEASURE_PING (mkTimeval 99 900000) (mkTimeval 1 0) false]
    true true false.

Definition demo_pong : cbor_item :=
  CArray true 6 (header_items (mkPacket MERIDIAN_PACKET_TYPE_RET_PING 77 MERIDIAN_MAGIC_NUMBER 0 0)).

(** The second probe is answered after 150 ms. *)
Lemma pong_records_latency_witness :
  ∃ e', meridian_protocol_on_packet (fun _ _ => 0) cbor_load demo_endpoint (cbor_serialize_alloc demo_pong)
          (fun _ => mkTimeval 100 50000)
        = Ret (0, e', [CallMeasured 77 (mkMeasureResult (meridian_node_create_unidentified 2 80) 150000 true)])
    ∧ meridian_latency_cache_get (ep_cache e') (meridian_node_create_unidentified 2 80) = Some 150000.
Proof.
  destruct (pong_records_latency (fun _ _ => 0) cbor_load demo_endpoint (cbor_serialize_alloc demo_pong) demo_pong
              (mkPacket MERIDIAN_PACKET_TYPE_RET_PING 77 MERIDIAN_MAGIC_NUMBER 0 0) 1
              (mkMeasureRequest 77 (meridian_node_create_unidentified 2 80) MERIDIAN_MEASURE_PING (mkTimeval 99 900000)
                 (mkTimeval 1 0) false) (fun _ => mkTimeval 100 50000)) as (e' & E & _ & _ & G & _).
  - vm_compute. reflexivity.
  - vm_compute. reflexivity.
  - vm_compute. reflexivity.
  - reflexivity.
  - reflexivity.
  - reflexivity.
  - split; [apply base.NoDup_nil_2|vm_compute; congruence|reflexivity|constructor].
  - split; [discriminate|reflexivity].
  - intros k. split; [discriminate|reflexivity].
  - split; [discriminate|reflexivity].
  - exists e'. split; [exact E|exact G].
Defined.

(** ** Routing of packets *)

(** A route packet never reaches the CBOR decoder, and is passed on unparsed. *)
Lemma route_packet_passed_on floor_log cbor_load e data clock :
  is_route_packet data = true →
  meridian_protocol_on_packet floor_log cbor_load e data clock
  = Ret (0, e, if ep_on_packet e then [CallPacket data] else []).
Proof. intros H. unfold meridian_protocol_on_packet. by rewrite H. Qed.

(** What a serialized route message looks like on arrival. *)
Lemma route_magic_recognised rest :
  bytes_ok rest → is_route_packet (be_bytes 4 QUASAR_ROUTE_MAGIC ++ rest) = true.
Proof.
  intros Hr. unfold is_route_packet. rewrite andb_true_iff. split.
  - apply Z.leb_le. unfold zlen. rewrite length_app, be_bytes_length. lia.
  - rewrite take_app_length' by (symmetry; apply be_bytes_length). by rewrite be32_roundtrip.
Qed.

(** A CBOR packet that is not an array violates libcbor's preconditions: one byte
    from any peer is enough. *)
Lemma non_array_packet_traps floor_log e clock :
  meridian_protocol_on_packet floor_log cbor_load e [0] clock = Trap.
Proof. reflexivity. Qed.
