(* ===== verification/Rendv.v ===== *)
(** * Rendv: rendezvous points and NAT types, [src/Network/Meridian/meridian_rendv.c]

    Rendezvous points are reference-counted heap objects shared between their
    creator and the handle, which keeps one for the local node and a list of
    peers'.  QUIC tunnels and the hole-punching socket are not modelled. *)

From stdpp Require Import gmap.
From S2P Require Import Prelude.
From S2P Require Import CString.
From S2P Require Import Refcount.

Inductive meridian_nat_type_t :=
| MERIDIAN_NAT_TYPE_UNKNOWN
| MERIDIAN_NAT_TYPE_OPEN
| MERIDIAN_NAT_TYPE_FULL_CONE
| MERIDIAN_NAT_TYPE_RESTRICTED_CONE
| MERIDIAN_NAT_TYPE_PORT_RESTRICTED_CONE
| MERIDIAN_NAT_TYPE_SYMMETRIC.

#[export] Instance nat_type_eq_dec : EqDecision meridian_nat_type_t.
Proof. solve_decision. Defined.

Record meridian_rendv_t := mkRendv {
  rv_refcounter : refcounter_t;
  rv_addr : Z;
  rv_port : Z;
  rv_nat_type : meridian_nat_type_t;
  rv_reflexive_addr : Z;
  rv_reflexive_port : Z
}.

Definition meridian_rendv_create (addr port : Z) : meridian_rendv_t :=
  mkRendv refcounter_init addr port MERIDIAN_NAT_TYPE_UNKNOWN 0 0.

Definition meridian_rendv_set_nat_type (r : meridian_rendv_t) (t : meridian_nat_type_t) : meridian_rendv_t :=
  mkRendv (rv_refcounter r) (rv_addr r) (rv_port r) t (rv_reflexive_addr r) (rv_reflexive_port r).

Definition meridian_rendv_set_reflexive_addr (r : meridian_rendv_t) (addr port : Z) : meridian_rendv_t :=
  mkRendv (rv_refcounter r) (rv_addr r) (rv_port r) (rv_nat_type r) addr port.

Definition rv_with_refs (r : meridian_rendv_t) (c : refcounter_t) : meridian_rendv_t :=
  mkRendv c (rv_addr r) (rv_port r) (rv_nat_type r) (rv_reflexive_addr r) (rv_reflexive_port r).

Definition meridian_rendv_can_direct_connect (r : option meridian_rendv_t) : bool :=
  match r with
  | None => false
  | Some r => match rv_nat_type r with
              | MERIDIAN_NAT_TYPE_OPEN | MERIDIAN_NAT_TYPE_FULL_CONE | MERIDIAN_NAT_TYPE_RESTRICTED_CONE
              | MERIDIAN_NAT_TYPE_PORT_RESTRICTED_CONE => true
              | MERIDIAN_NAT_TYPE_SYMMETRIC | MERIDIAN_NAT_TYPE_UNKNOWN => false
              end
  end.

(** ** Names of NAT types *)

Definition meridian_nat_type_to_string (t : meridian_nat_type_t) : list Z :=
  match t with
  | MERIDIAN_NAT_TYPE_OPEN => lit "open"
  | MERIDIAN_NAT_TYPE_FULL_CONE => lit "full_cone"
  | MERIDIAN_NAT_TYPE_RESTRICTED_CONE => lit "restricted_cone"
  | MERIDIAN_NAT_TYPE_PORT_RESTRICTED_CONE => lit "port_restricted"
  | MERIDIAN_NAT_TYPE_SYMMETRIC => lit "symmetric"
  | MERIDIAN_NAT_TYPE_UNKNOWN => lit "unknown"
  end.

Definition meridian_nat_type_from_string (s : option (list Z)) : meridian_nat_type_t :=
  match s with
  | None => MERIDIAN_NAT_TYPE_UNKNOWN
  | Some s =>
      if str_eq s (lit "open") then MERIDIAN_NAT_TYPE_OPEN
      else if str_eq s (lit "full_cone") then MERIDIAN_NAT_TYPE_FULL_CONE
      else if str_eq s (lit "restricted_cone") then MERIDIAN_NAT_TYPE_RESTRICTED_CONE
      else if str_eq s (lit "port_restricted") then MERIDIAN_NAT_TYPE_PORT_RESTRICTED_CONE
      else if str_eq s (lit "symmetric") then MERIDIAN_NAT_TYPE_SYMMETRIC
      else MERIDIAN_NAT_TYPE_UNKNOWN
  end.

Lemma nat_type_roundtrip t : meridian_nat_type_from_string (Some (meridian_nat_type_to_string t)) = t.
Proof. destruct t; vm_compute; reflexivity. Qed.

(** ** The handle *)

Definition rendv_heap := gmap Z meridian_rendv_t.

Record meridian_rendv_handle_t := mkRendvHandle {
  rh_local : option Z;
  rh_peers : list Z
}.

Definition meridian_rendv_handle_create : meridian_rendv_handle_t := mkRendvHandle None [].

Definition rendv_at (h : rendv_heap) (a : Z) : exec meridian_rendv_t :=
  match h !! a with Some r => Ret r | None => Trap end.

Definition rendv_ref (h : rendv_heap) (a : Z) : exec rendv_heap :=
  r <- rendv_at h a ;; Ret (<[a := rv_with_refs r (refcounter_reference (rv_refcounter r))]> h).

Definition meridian_rendv_destroy (h : rendv_heap) (a : Z) : exec rendv_heap :=
  r <- rendv_at h a ;;
  let '(c, free) := released (rv_refcounter r) in
  Ret (if free then delete a h else <[a := rv_with_refs r c]> h).

(** The previous local point is released before the new one is referenced. *)
Definition meridian_rendv_handle_set_local (h : rendv_heap) (hd : meridian_rendv_handle_t) (a : Z)
  : exec (rendv_heap * meridian_rendv_handle_t) :=
  h1 <- match rh_local hd with None => Ret h | Some old => meridian_rendv_destroy h old end ;;
  h2 <- rendv_ref h1 a ;;
  Ret (h2, mkRendvHandle (Some a) (rh_peers hd)).

(** The scan of the peers for an address and port. *)
Fixpoint peer_scan (h : rendv_heap) (l : list Z) (addr port : Z) : exec (option nat) :=
  match l with
  | [] => Ret None
  | a :: l' =>
      r <- rendv_at h a ;;
      if (rv_addr r =? addr) && (rv_port r =? port) then Ret (Some O)
      else i <- peer_scan h l' addr port ;; Ret (S <$> i)
  end.

Definition meridian_rendv_handle_add_peer (h : rendv_heap) (hd : meridian_rendv_handle_t) (a : Z)
  : exec (rendv_heap * meridian_rendv_handle_t) :=
  r <- rendv_at h a ;;
  i <- peer_scan h (rh_peers hd) (rv_addr r) (rv_port r) ;;
  match i with
  | Some _ => Ret (h, hd)
  | None => h' <- rendv_ref h a ;; Ret (h', mkRendvHandle (rh_local hd) (rh_peers hd ++ [a]))
  end.

Definition meridian_rendv_handle_remove_peer (h : rendv_heap) (hd : meridian_rendv_handle_t) (addr port : Z)
  : exec (Z * rendv_heap * meridian_rendv_handle_t) :=
  i <- peer_scan h (rh_peers hd) addr port ;;
  match i with
  | None => Ret (-1, h, hd)
  | Some i =>
      match rh_peers hd !! i with
      | None => Trap
      | Some a => h' <- meridian_rendv_destroy h a ;; Ret (0, h', mkRendvHandle (rh_local hd) (delete i (rh_peers hd)))
      end
  end.

Definition meridian_rendv_handle_find_peer (h : rendv_heap) (hd : meridian_rendv_handle_t) (addr port : Z)
  : exec (rendv_heap * option Z) :=
  i <- peer_scan h (rh_peers hd) addr port ;;
  match i with
  | None => Ret (h, None)
  | Some i => match rh_peers hd !! i with
              | None => Trap
              | Some a => h' <- rendv_ref h a ;; Ret (h', Some a)
              end
  end.

(** NAT detection classifies by the reflexive address known when it is called:
    the answers to the address requests it sends arrive later.  The callback's
    arguments are the result. *)
Definition classify_nat (local_addr reflexive_addr : Z) : meridian_nat_type_t :=
  if negb (local_addr =? 0) && (local_addr =? reflexive_addr) then MERIDIAN_NAT_TYPE_OPEN
  else if negb (reflexive_addr =? 0) then MERIDIAN_NAT_TYPE_PORT_RESTRICTED_CONE
  else MERIDIAN_NAT_TYPE_UNKNOWN.

Definition meridian_rendv_handle_detect_nat (h : rendv_heap) (hd : meridian_rendv_handle_t)
  : exec (Z * rendv_heap * option (Z * Z * meridian_nat_type_t)) :=
  match rh_local hd with
  | None => Ret (-1, h, None)
  | Some a =>
      r <- rendv_at h a ;;
      let t := classify_nat (rv_addr r) (rv_reflexive_addr r) in
      Ret (0, <[a := meridian_rendv_set_nat_type r t]> h, Some (rv_reflexive_addr r, rv_reflexive_port r, t))
  end.

(** Detection never reports a symmetric NAT, the one type that rules direct
    connections out. *)
Lemma symmetric_nat_never_detected h hd rc h' addr port t :
  meridian_rendv_handle_detect_nat h hd = Ret (rc, h', Some (addr, port, t)) → t ≠ MERIDIAN_NAT_TYPE_SYMMETRIC.
Proof.
  unfold meridian_rendv_handle_detect_nat, classify_nat. destruct (rh_local hd) as [a|]; [|done].
  intros (r & _ & E)%bind_ret. injection E as <- <- <- <- <-. by repeat case_match.
Qed.

(** Setting the local point to the one it already is, held by the handle alone,
    uses it after it was freed. *)
Lemma set_same_local_use_after_free :
  meridian_rendv_handle_set_local {[ 1 := meridian_rendv_create 7 8 ]} (mkRendvHandle (Some 1) []) 1 = Trap.
Proof. reflexivity. Qed.
