(* ===== verification/Relay.v ===== *)
(** * Relay: relay client, relay server and peer connections

    [src/Network/Meridian/meridian_relay.c], [meridian_relay_server.c] and
    [meridian_conn.c].  msquic's calls and events are arguments and results: a
    connection handle is an integer, a sent datagram a pair of handle and bytes,
    and each event of the callbacks is one function. *)

From stdpp Require Import sets.
From S2P Require Import Prelude.
From S2P Require Import Endian.
From S2P Require Import Cbor.
From S2P Require Import CborWire.
From S2P Require Import Node.
From S2P Require Import Packet.
From S2P Require Import Rendv.

Definition MERIDIAN_RELAY_MAX_CLIENTS : nat := 256.
Definition MERIDIAN_RELAY_ENDPOINT_ID_NONE : Z := 0.
Definition MERIDIAN_PACKET_TYPE_ADDR_REQUEST : Z := 30.
Definition MERIDIAN_PACKET_TYPE_RELAY_DATAGRAM : Z := 32.

(** ** The server *)

Record meridian_relay_client_t := mkRelayClient {
  cl_endpoint_id : Z;
  cl_connection : option Z;
  cl_authenticated : bool
}.

Record meridian_relay_server_t := mkRelayServer {
  sv_clients : list meridian_relay_client_t;
  sv_num_clients : Z;
  sv_next_endpoint_id : Z
}.

Definition free_client : meridian_relay_client_t := mkRelayClient MERIDIAN_RELAY_ENDPOINT_ID_NONE None false.

Definition meridian_relay_server_create : meridian_relay_server_t :=
  mkRelayServer (replicate MERIDIAN_RELAY_MAX_CLIENTS free_client) 0 1.

Definition relay_server_find_client_slot (s : meridian_relay_server_t) : option nat :=
  find_index (fun c => cl_endpoint_id c =? MERIDIAN_RELAY_ENDPOINT_ID_NONE) (sv_clients s).

Definition relay_server_find_client_by_connection (s : meridian_relay_server_t) (conn : Z) : option nat :=
  find_index (fun c => bool_decide (cl_connection c = Some conn)) (sv_clients s).

Definition relay_server_find_client_by_endpoint (s : meridian_relay_server_t) (endpoint_id : Z) : option nat :=
  find_index (fun c => cl_endpoint_id c =? endpoint_id) (sv_clients s).

(** [QUIC_LISTENER_EVENT_NEW_CONNECTION]; [configured]: whether msquic accepted
    the configuration.  The result tells whether the connection was accepted. *)
Definition RelayServerListenerCallback (s : meridian_relay_server_t) (conn : Z) (configured : bool)
  : bool * meridian_relay_server_t :=
  if negb configured then (false, s)
  else match relay_server_find_client_slot s with
       | None => (false, s)
       | Some slot =>
           (true, mkRelayServer (<[slot := mkRelayClient (sv_next_endpoint_id s) (Some conn) false]> (sv_clients s))
                    (sv_num_clients s + 1) (u32 (sv_next_endpoint_id s + 1)))
       end.

(** [QUIC_CONNECTION_EVENT_SHUTDOWN_COMPLETE]. *)
Definition relay_shutdown_complete (s : meridian_relay_server_t) (conn : Z) : meridian_relay_server_t :=
  match relay_server_find_client_by_connection s conn with
  | None => s
  | Some slot => mkRelayServer (<[slot := free_client]> (sv_clients s)) (u64 (sv_num_clients s - 1)) (sv_next_endpoint_id s)
  end.

(** [QUIC_CONNECTION_EVENT_DATAGRAM_RECEIVED]: the first four bytes name the
    destination, in host order; the rest is forwarded. *)
Definition relay_datagram_received (s : meridian_relay_server_t) (data : list Z) : list (Z * list Z) :=
  if zlen data <? 4 then []
  else match relay_server_find_client_by_endpoint s (le_decode (take 4 data)) with
       | None => []
       | Some slot => match cl_connection <$> sv_clients s !! slot with
                      | Some (Some conn) => [(conn, drop 4 data)]
                      | _ => []
                      end
       end.

Definition meridian_relay_server_stop (s : meridian_relay_server_t) : meridian_relay_server_t :=
  mkRelayServer ((fun c => match cl_connection c with Some _ => free_client | None => c end) <$> sv_clients s) 0
    (sv_next_endpoint_id s).

Definition meridian_relay_server_get_stats (s : meridian_relay_server_t) : Z := sv_num_clients s.

(** ** The client *)

Record meridian_relay_t := mkRelay {
  rl_connection : option Z;
  rl_local_endpoint_id : Z;
  rl_connected : bool;
  rl_on_datagram : bool;
  rl_on_addr_response : bool
}.

Definition meridian_relay_create : meridian_relay_t := mkRelay None 0 false false false.

(** [opened]: the handle from [ConnectionOpen]; [started]: whether
    [ConnectionStart] succeeded. *)
Definition meridian_relay_connect (r : meridian_relay_t) (opened : option Z) (started : bool) : Z * meridian_relay_t :=
  if rl_connected r then (-1, r)
  else match opened with
       | None => (-1, r)
       | Some conn =>
           let with_conn c := mkRelay c (rl_local_endpoint_id r) (rl_connected r) (rl_on_datagram r) (rl_on_addr_response r) in
           if started then (0, with_conn (Some conn)) else (-1, with_conn None)
       end.

Definition meridian_relay_disconnect (r : meridian_relay_t) : meridian_relay_t :=
  mkRelay None (rl_local_endpoint_id r) false (rl_on_datagram r) (rl_on_addr_response r).

Definition meridian_relay_on_datagram (r : meridian_relay_t) (set : bool) : meridian_relay_t :=
  mkRelay (rl_connection r) (rl_local_endpoint_id r) (rl_connected r) set (rl_on_addr_response r).
Definition meridian_relay_on_addr_response (r : meridian_relay_t) (set : bool) : meridian_relay_t :=
  mkRelay (rl_connection r) (rl_local_endpoint_id r) (rl_connected r) (rl_on_datagram r) set.

Definition relay_datagram_item (src dest : Z) (data : list Z) : exec (option cbor_item) :=
  push_all (cbor_new_definite_array 4)
    [cbor_build_uint8 MERIDIAN_PACKET_TYPE_RELAY_DATAGRAM; cbor_build_uint32 src; cbor_build_uint32 dest;
     cbor_build_bytestring data].

Section client.
Context (cbor_load : list Z → option cbor_item) (cbor_serialize_alloc : cbor_item → list Z).
Context (DatagramSend : option Z → list Z → bool).

(** The result code and the datagram handed to msquic. *)
Definition send_item (r : meridian_relay_t) (item : option cbor_item) : Z * list (option Z * list Z) :=
  match item with
  | None => (-1, [])
  | Some i =>
      let buffer := cbor_serialize_alloc i in
      if zlen buffer =? 0 then (-1, [])
      else (if DatagramSend (rl_connection r) buffer then 0 else -1, [(rl_connection r, buffer)])
  end.

Definition meridian_relay_send_datagram (r : meridian_relay_t) (data : list Z) (dest_endpoint_id : Z)
  : exec (Z * list (option Z * list Z)) :=
  if negb (rl_connected r) then Ret (-1, [])
  else item <- relay_datagram_item (rl_local_endpoint_id r) dest_endpoint_id data ;; Ret (send_item r item).

Definition meridian_relay_send_addr_request (r : meridian_relay_t) : exec (Z * list (option Z * list Z)) :=
  if negb (rl_connected r) then Ret (-1, [])
  else
    let query_id := u64 (Z.shiftl (rl_local_endpoint_id r) 32) in
    item <- push_all (cbor_new_definite_array 3)
              [cbor_build_uint8 MERIDIAN_PACKET_TYPE_ADDR_REQUEST; cbor_build_uint64 (qid_hi query_id);
               cbor_build_uint64 (qid_lo query_id)] ;;
    Ret (send_item r item).

(** The events of [RelayConnectionCallback]. *)
Definition relay_connected (r : meridian_relay_t) : exec (meridian_relay_t * list (option Z * list Z)) :=
  let r' := mkRelay (rl_connection r) (rl_local_endpoint_id r) true (rl_on_datagram r) (rl_on_addr_response r) in
  '(_, sent) <- meridian_relay_send_addr_request r' ;; Ret (r', sent).

Definition relay_shutdown_initiated (r : meridian_relay_t) : meridian_relay_t :=
  mkRelay (rl_connection r) (rl_local_endpoint_id r) false (rl_on_datagram r) (rl_on_addr_response r).

Definition relay_shutdown_done (r : meridian_relay_t) : meridian_relay_t :=
  mkRelay None (rl_local_endpoint_id r) false (rl_on_datagram r) (rl_on_addr_response r).

Inductive relay_upcall :=
| RelayDatagram (payload : list Z) (src_endpoint : Z)
| RelayAddress (reflexive_addr reflexive_port endpoint_id : Z).

Definition relay_received (r : meridian_relay_t) (data : list Z) : exec (meridian_relay_t * list relay_upcall) :=
  if zlen data =? 0 then Ret (r, [])
  else
    match cbor_load data with
    | None => Ret (r, [])
    | Some item =>
        definite <- cbor_array_is_definite item ;;
        if negb definite then Ret (r, [])
        else
          size <- cbor_array_size item ;;
          if size <? 1 then Ret (r, [])
          else
            items <- cbor_array_handle item ;;
            type <- get8 items 0 ;;
            if type =? MERIDIAN_PACKET_TYPE_ADDR_RESPONSE then
              a <- meridian_addr_response_decode (Some item) ;;
              Ret (match a with
                   | None => (r, [])
                   | Some a =>
                       (mkRelay (rl_connection r) (ar_endpoint_id a) (rl_connected r) (rl_on_datagram r) (rl_on_addr_response r),
                        if rl_on_addr_response r
                        then [RelayAddress (ar_reflexive_addr a) (ar_reflexive_port a) (ar_endpoint_id a)] else [])
                   end)
            else if type =? MERIDIAN_PACKET_TYPE_RELAY_DATAGRAM then
              if 4 <=? size then
                src <- get32 items 1 ;;
                payload <- elem_at items 3 ;;
                bytes <- cbor_bytestring_handle payload ;;
                Ret (r, if rl_on_datagram r then [RelayDatagram bytes src] else [])
              else Ret (r, [])
            else if (type =? MERIDIAN_PACKET_TYPE_PUNCH_REQUEST) || (type =? MERIDIAN_PACKET_TYPE_PUNCH_SYNC) then
              Ret (r, if rl_on_datagram r then [RelayDatagram data 0] else [])
            else Ret (r, [])
    end.
End client.

(** ** Connections to peers *)

Inductive meridian_conn_state_t :=
| MERIDIAN_CONN_STATE_DIRECT
| MERIDIAN_CONN_STATE_TRYING_DIRECT
| MERIDIAN_CONN_STATE_RELAY
| MERIDIAN_CONN_STATE_RELAY_ONLY.

#[export] Instance conn_state_eq_dec : EqDecision meridian_conn_state_t.
Proof. solve_decision. Defined.

Record meridian_conn_t := mkConn {
  cn_direct_connection : option Z;
  cn_relay : option meridian_relay_t;
  cn_relay_endpoint_id : Z;
  cn_state : meridian_conn_state_t;
  cn_local_nat_type : meridian_nat_type_t;
  cn_peer_nat_type : meridian_nat_type_t;
  cn_direct_attempts : Z;
  cn_direct_addr : Z;
  cn_direct_port : Z;
  cn_reflexive_addr : Z;
  cn_reflexive_port : Z;
  cn_direct_active : bool;
  cn_relay_active : bool
}.

Definition cn_with (c : meridian_conn_t) (state : meridian_conn_state_t) (attempts : Z) (direct_active relay_active : bool)
  : meridian_conn_t :=
  mkConn (cn_direct_connection c) (cn_relay c) (cn_relay_endpoint_id c) state (cn_local_nat_type c) (cn_peer_nat_type c)
    attempts (cn_direct_addr c) (cn_direct_port c) (cn_reflexive_addr c) (cn_reflexive_port c) direct_active relay_active.

Definition meridian_conn_create (peer : meridian_node_t) (relay : option meridian_relay_t)
    (local_nat_type : meridian_nat_type_t) : meridian_conn_t :=
  let state := if bool_decide (local_nat_type = MERIDIAN_NAT_TYPE_SYMMETRIC) then MERIDIAN_CONN_STATE_RELAY_ONLY
               else if negb (node_addr peer =? 0) && negb (node_port peer =? 0) then MERIDIAN_CONN_STATE_TRYING_DIRECT
               else MERIDIAN_CONN_STATE_RELAY in
  mkConn None relay MERIDIAN_RELAY_ENDPOINT_ID_NONE state local_nat_type MERIDIAN_NAT_TYPE_UNKNOWN 0
    (node_addr peer) (node_port peer) 0 0 false false.

Definition meridian_conn_connect (c : meridian_conn_t) : meridian_conn_t :=
  let relay_active := match cn_relay c with Some _ => true | None => cn_relay_active c end in
  match cn_state c with
  | MERIDIAN_CONN_STATE_RELAY_ONLY | MERIDIAN_CONN_STATE_RELAY =>
      cn_with c (cn_state c) (cn_direct_attempts c) (cn_direct_active c) relay_active
  | MERIDIAN_CONN_STATE_TRYING_DIRECT =>
      if negb (cn_direct_addr c =? 0) && negb (cn_direct_port c =? 0)
      then cn_with c (cn_state c) (u32 (cn_direct_attempts c + 1)) (cn_direct_active c) relay_active
      else cn_with c MERIDIAN_CONN_STATE_RELAY (cn_direct_attempts c) (cn_direct_active c) relay_active
  | MERIDIAN_CONN_STATE_DIRECT => c
  end.

Definition meridian_conn_disconnect (c : meridian_conn_t) : meridian_conn_t :=
  mkConn None (cn_relay c) (cn_relay_endpoint_id c) MERIDIAN_CONN_STATE_RELAY (cn_local_nat_type c) (cn_peer_nat_type c)
    (cn_direct_attempts c) (cn_direct_addr c) (cn_direct_port c) (cn_reflexive_addr c) (cn_reflexive_port c) false false.

(** The direct path reports the length without sending; the relay is the
    fallback. *)
Definition meridian_conn_send (cbor_serialize_alloc : cbor_item → list Z) (DatagramSend : option Z → list Z → bool)
    (c : meridian_conn_t) (data : list Z) : exec (Z * list (option Z * list Z)) :=
  if zlen data =? 0 then Ret (-1, [])
  else if cn_direct_active c && bool_decide (is_Some (cn_direct_connection c)) then Ret (zlen data, [])
  else match cn_relay c with
       | Some r => if cn_relay_active c
                   then meridian_relay_send_datagram cbor_serialize_alloc DatagramSend r data (cn_relay_endpoint_id c)
                   else Ret (-1, [])
       | None => Ret (-1, [])
       end.

Definition meridian_conn_upgrade_to_direct (c : meridian_conn_t) : Z * meridian_conn_t :=
  if negb (bool_decide (cn_state c = MERIDIAN_CONN_STATE_RELAY))
  then (if bool_decide (cn_state c = MERIDIAN_CONN_STATE_DIRECT) then 0 else -1, c)
  else if bool_decide (cn_peer_nat_type c = MERIDIAN_NAT_TYPE_SYMMETRIC)
          || bool_decide (cn_local_nat_type c = MERIDIAN_NAT_TYPE_SYMMETRIC) then (-1, c)
  else if cn_reflexive_addr c =? 0 then (-1, c)
  else (0, cn_with c MERIDIAN_CONN_STATE_TRYING_DIRECT (u32 (cn_direct_attempts c + 1)) (cn_direct_active c) (cn_relay_active c)).

Definition meridian_conn_set_peer_nat_type (c : meridian_conn_t) (t : meridian_nat_type_t) : meridian_conn_t :=
  let symmetric := bool_decide (t = MERIDIAN_NAT_TYPE_SYMMETRIC) in
  mkConn (cn_direct_connection c) (cn_relay c) (cn_relay_endpoint_id c)
    (if symmetric then MERIDIAN_CONN_STATE_RELAY_ONLY else cn_state c) (cn_local_nat_type c) t (cn_direct_attempts c)
    (cn_direct_addr c) (cn_direct_port c) (cn_reflexive_addr c) (cn_reflexive_port c)
    (if symmetric then false else cn_direct_active c) (cn_relay_active c).

Definition meridian_conn_set_peer_reflexive (c : meridian_conn_t) (addr port : Z) : meridian_conn_t :=
  mkConn (cn_direct_connection c) (cn_relay c) (cn_relay_endpoint_id c) (cn_state c) (cn_local_nat_type c)
    (cn_peer_nat_type c) (cn_direct_attempts c) (cn_direct_addr c) (cn_direct_port c) addr port (cn_direct_active c)
    (cn_relay_active c).

Definition meridian_conn_is_direct (c : option meridian_conn_t) : bool :=
  match c with None => false | Some c => bool_decide (cn_state c = MERIDIAN_CONN_STATE_DIRECT) end.

Definition meridian_conn_is_relay (c : option meridian_conn_t) : bool :=
  match c with
  | None => false
  | Some c => bool_decide (cn_state c = MERIDIAN_CONN_STATE_RELAY) || bool_decide (cn_state c = MERIDIAN_CONN_STATE_RELAY_ONLY)
  end.

(** ** The server's table *)

Definition client_live (c : meridian_relay_client_t) : bool := negb (cl_endpoint_id c =? MERIDIAN_RELAY_ENDPOINT_ID_NONE).

(** Live slots have a connection and a distinct id below the next one; free
    slots have neither; [num_clients] counts the live ones. *)
Record relay_server_wf (s : meridian_relay_server_t) : Prop := {
  sw_slots : length (sv_clients s) = MERIDIAN_RELAY_MAX_CLIENTS;
  sw_next : 0 < sv_next_endpoint_id s;
  sw_live : ∀ i c, sv_clients s !! i = Some c →
    (cl_endpoint_id c = 0 ∧ cl_connection c = None)
    ∨ (0 < cl_endpoint_id c < sv_next_endpoint_id s ∧ is_Some (cl_connection c));
  sw_ids : ∀ i j c d, sv_clients s !! i = Some c → sv_clients s !! j = Some d →
    0 < cl_endpoint_id c → cl_endpoint_id c = cl_endpoint_id d → i = j;
  sw_conns : ∀ i j c d k, sv_clients s !! i = Some c → sv_clients s !! j = Some d →
    cl_connection c = Some k → cl_connection d = Some k → i = j;
  sw_count : sv_num_clients s = zlen (List.filter client_live (sv_clients s))
}.

Lemma filter_insert_count {A} (p : A → bool) l i x y :
  l !! i = Some y →
  zlen (List.filter p (<[i := x]> l))
  = zlen (List.filter p l) + (if p x then 1 else 0) - (if p y then 1 else 0).
Proof.
  intros E. pose proof (lookup_lt_Some _ _ _ E) as Hi.
  rewrite insert_take_drop by done. rewrite <- (take_drop_middle _ _ _ E) at 3.
  rewrite !List.filter_app. unfold zlen. simpl. destruct (p x), (p y); rewrite !length_app; simpl; lia.
Qed.

Lemma relay_create_wf : relay_server_wf meridian_relay_server_create.
Proof.
  assert (Hrep : ∀ i c, sv_clients meridian_relay_server_create !! i = Some c → c = free_client)
    by (intros i c Hi; by apply lookup_replicate in Hi as [-> _]).
  split.
  - apply length_replicate.
  - reflexivity.
  - intros i c ->%Hrep. by left.
  - intros i j c d ->%Hrep ->%Hrep. simpl. unfold MERIDIAN_RELAY_ENDPOINT_ID_NONE. lia.
  - intros i j c d k ->%Hrep ->%Hrep. done.
  - vm_compute. reflexivity.
Qed.

(** Overwriting a slot by a client whose id and connection are new. *)
Lemma relay_put_wf s i old c next :
  relay_server_wf s → sv_clients s !! i = Some old → sv_next_endpoint_id s <= next →
  (cl_endpoint_id c = 0 ∧ cl_connection c = None
   ∨ sv_next_endpoint_id s <= cl_endpoint_id c < next ∧ ∃ k, cl_connection c = Some k
     ∧ ∀ j d, sv_clients s !! j = Some d → cl_connection d ≠ Some k) →
  relay_server_wf (mkRelayServer (<[i := c]> (sv_clients s))
    (sv_num_clients s + (if client_live c then 1 else 0) - (if client_live old then 1 else 0)) next).
Proof.
  intros [Hl Hn Hlive Hids Hconns Hcount] Ei Hnext Hc. pose proof (lookup_lt_Some _ _ _ Ei) as Hi.
  split; simpl.
  - by rewrite length_insert.
  - lia.
  - intros j d Hj. destruct (decide (j = i)) as [->|Hne].
    + rewrite list_lookup_insert_eq in Hj by done. simplify_eq.
      destruct Hc as [Hc|(Hr & k & Hk & _)]; [by left|]. right. split; [lia|by eexists].
    + rewrite list_lookup_insert_ne in Hj by done. destruct (Hlive j d Hj) as [?|[? ?]]; [by left|]. right. split; [lia|done].
  - intros j k d e Hj Hk Hpos Heq. destruct (decide (j = i)) as [->|Hj'], (decide (k = i)) as [->|Hk']; [done| | |].
    + rewrite list_lookup_insert_eq in Hj by done. rewrite list_lookup_insert_ne in Hk by done. simplify_eq.
      destruct (Hlive k e Hk) as [[? _]|[? _]]; destruct Hc as [[? _]|[? _]]; lia.
    + rewrite list_lookup_insert_ne in Hj by done. rewrite list_lookup_insert_eq in Hk by done. simplify_eq.
      destruct (Hlive j d Hj) as [[? _]|[? _]]; destruct Hc as [[? _]|[? _]]; lia.
    + rewrite !list_lookup_insert_ne in * by done. by eapply Hids.
  - intros j k d e x Hj Hk Hd He. destruct (decide (j = i)) as [->|Hj'], (decide (k = i)) as [->|Hk']; [done| | |].
    + rewrite list_lookup_insert_eq in Hj by done. rewrite list_lookup_insert_ne in Hk by done. simplify_eq.
      destruct Hc as [[_ ?]|(_ & y & Hy & Hfresh)]; [congruence|]. exfalso. apply (Hfresh k e Hk). congruence.
    + rewrite list_lookup_insert_ne in Hj by done. rewrite list_lookup_insert_eq in Hk by done. simplify_eq.
      destruct Hc as [[_ ?]|(_ & y & Hy & Hfresh)]; [congruence|]. exfalso. apply (Hfresh j d Hj). congruence.
    + rewrite !list_lookup_insert_ne in * by done. by eapply Hconns.
  - rewrite (filter_insert_count client_live _ _ _ _ Ei). lia.
Qed.

(** One event of the server. *)
Inductive relay_event :=
| EvConnect (conn : Z) (configured : bool)
| EvShutdown (conn : Z)
| EvDatagram (data : list Z).

Definition relay_step (s : meridian_relay_server_t) (e : relay_event) : meridian_relay_server_t :=
  match e with
  | EvConnect conn configured => snd (RelayServerListenerCallback s conn configured)
  | EvShutdown conn => relay_shutdown_complete s conn
  | EvDatagram _ => s
  end.

(** msquic gives a new connection a handle no open connection has. *)
Definition relay_event_ok (s : meridian_relay_server_t) (e : relay_event) : Prop :=
  match e with
  | EvConnect conn _ => ∀ j d, sv_clients s !! j = Some d → cl_connection d ≠ Some conn
  | _ => True
  end.

Lemma relay_step_wf s e :
  relay_server_wf s → relay_event_ok s e → sv_next_endpoint_id s < 2 ^ 32 - 1 →
  relay_server_wf (relay_step s e) ∧ sv_next_endpoint_id (relay_step s e) <= sv_next_endpoint_id s + 1.
Proof.
  intros W Hok Hn. destruct e as [conn configured|conn|data]; simpl in *; [| |split; [done|lia]].
  - unfold RelayServerListenerCallback. destruct configured; simpl; [|split; [done|lia]].
    unfold relay_server_find_client_slot. destruct (find_index _ _) as [i|] eqn:Ei; simpl; [|split; [done|lia]].
    apply find_index_Some in Ei as (old & Eo & Hold & _). pose proof (sw_next _ W) as Hpos.
    rewrite u32_id by (unfold is_u32; lia). split; [|lia].
    pose proof (relay_put_wf s i old (mkRelayClient (sv_next_endpoint_id s) (Some conn) false) (sv_next_endpoint_id s + 1) W Eo) as H.
    assert (E1 : client_live (mkRelayClient (sv_next_endpoint_id s) (Some conn) false) = true).
    { unfold client_live. simpl. apply negb_true_iff, Z.eqb_neq. unfold MERIDIAN_RELAY_ENDPOINT_ID_NONE. lia. }
    assert (E2 : client_live old = false) by (unfold client_live; by rewrite Hold).
    rewrite E1, E2, Z.sub_0_r in H. apply H; [lia|]. right. simpl. split; [lia|]. by exists conn.
  - unfold relay_shutdown_complete, relay_server_find_client_by_connection.
    destruct (find_index _ _) as [i|] eqn:Ei; simpl; [|split; [done|lia]].
    apply find_index_Some in Ei as (old & Eo & Hold & _). apply bool_decide_eq_true_1 in Hold.
    destruct (sw_live _ W i old Eo) as [[_ ?]|[Hid _]]; [congruence|].
    assert (E2 : client_live old = true).
    { unfold client_live. apply negb_true_iff, Z.eqb_neq. unfold MERIDIAN_RELAY_ENDPOINT_ID_NONE. lia. }
    pose proof (relay_put_wf s i old free_client (sv_next_endpoint_id s) W Eo) as H. rewrite E2 in H.
    assert (Hcnt : 0 < sv_num_clients s <= 256).
    { rewrite (sw_count _ W). pose proof (List.filter_length_le client_live (sv_clients s)) as Hle.
      rewrite (sw_slots _ W) in Hle. unfold MERIDIAN_RELAY_MAX_CLIENTS in Hle. unfold zlen. split; [|lia].
      assert (Hin : old ∈ List.filter client_live (sv_clients s)).
      { apply list_elem_of_In, List.filter_In. split; [|done]. apply list_elem_of_In. by eapply list_elem_of_lookup_2. }
      destruct (List.filter client_live (sv_clients s)); [set_solver|simpl; lia]. }
    rewrite u64_id by (unfold is_u64; lia). split; [|lia].
    replace (sv_num_clients s - 1) with (sv_num_clients s + (if client_live free_client then 1 else 0) - 1) by (simpl; lia).
    apply H; [lia|]. by left.
Qed.

(** Sequences of events in which every connection is new when it opens. *)
Fixpoint relay_run (s : meridian_relay_server_t) (l : list relay_event) : meridian_relay_server_t :=
  match l with [] => s | e :: l' => relay_run (relay_step s e) l' end.
Fixpoint relay_run_ok (s : meridian_relay_server_t) (l : list relay_event) : Prop :=
  match l with [] => True | e :: l' => relay_event_ok s e ∧ relay_run_ok (relay_step s e) l' end.

(** The relay server's table is consistent after any events (fewer than 2^32 - 2):
    live slots carry a connection and pairwise distinct endpoint ids and
    connections, free slots carry none, and the client count is the number of live
    slots, at most 256. *)
Theorem relay_server_invariant l :
  relay_run_ok meridian_relay_server_create l → zlen l < 2 ^ 32 - 2 →
  let s := relay_run meridian_relay_server_create l in
  relay_server_wf s ∧ 0 <= meridian_relay_server_get_stats s <= Z.of_nat MERIDIAN_RELAY_MAX_CLIENTS.
Proof.
  intros Hok Hlen s.
  assert (W : relay_server_wf s).
  { subst s. assert (Hn : sv_next_endpoint_id meridian_relay_server_create + zlen l < 2 ^ 32 - 1) by (simpl; lia).
    pose proof relay_create_wf as W0. clear Hlen. revert W0 Hn Hok. generalize meridian_relay_server_create.
    induction l as [|e l IH]; intros s0 W0 Hn Hok; simpl in *; [done|]. destruct Hok as [He Hok].
    unfold zlen in *. simpl in Hn.
    destruct (relay_step_wf s0 e W0 He) as [W1 Hn1]; [lia|]. apply IH; [done|lia|done]. }
  split; [done|]. unfold meridian_relay_server_get_stats. rewrite (sw_count _ W).
  pose proof (List.filter_length_le client_live (sv_clients s)) as Hle. rewrite (sw_slots _ W) in Hle. unfold zlen. lia.
Qed.

(** Checking a property of every slot by evaluation. *)
Lemma clients_check (p : meridian_relay_client_t → bool) s i c :
  forallb p (sv_clients s) = true → sv_clients s !! i = Some c → p c = true.
Proof.
  intros Hf Hi. rewrite forallb_forall in Hf. apply Hf, list_elem_of_In. by eapply list_elem_of_lookup_2.
Qed.

Lemma fresh_connection_check s conn configured :
  forallb (fun d => negb (bool_decide (cl_connection d = Some conn))) (sv_clients s) = true →
  relay_event_ok s (EvConnect conn configured).
Proof.
  intros Hf j d Hj E. apply (clients_check _ _ _ _ Hf) in Hj. by rewrite E, bool_decide_true in Hj.
Qed.

(** Two clients connect, the first leaves, a third takes its slot. *)
Lemma relay_server_invariant_witness :
  let s := relay_run meridian_relay_server_create [EvConnect 10 true; EvConnect 11 true; EvShutdown 10; EvConnect 12 true] in
  relay_server_wf s ∧ 0 <= meridian_relay_server_get_stats s <= Z.of_nat MERIDIAN_RELAY_MAX_CLIENTS.
Proof.
  apply (relay_server_invariant [EvConnect 10 true; EvConnect 11 true; EvShutdown 10; EvConnect 12 true]).
  - split; [apply fresh_connection_check; vm_compute; reflexivity|]. split; [apply fresh_connection_check; vm_compute; reflexivity|].
    split; [exact I|]. split; [apply fresh_connection_check; vm_compute; reflexivity|exact I].
  - reflexivity.
Defined.

(** ** Forwarding *)

Lemma find_by_endpoint s i c :
  relay_server_wf s → sv_clients s !! i = Some c → 0 < cl_endpoint_id c →
  relay_server_find_client_by_endpoint s (cl_endpoint_id c) = Some i.
Proof.
  intros W Ei Hpos. unfold relay_server_find_client_by_endpoint.
  destruct (find_index _ _) as [j|] eqn:Ej.
  - apply find_index_Some in Ej as (d & Ed & Hd & _). apply Z.eqb_eq in Hd. f_equal.
    eapply (sw_ids _ W); [exact Ed|exact Ei|lia|done].
  - apply find_index_None in Ej. rewrite list.Forall_forall in Ej. specialize (Ej c).
    rewrite Z.eqb_refl in Ej. exfalso. assert (true = false); [|done]. apply Ej. by eapply list_elem_of_lookup_2.
Qed.

(** A datagram that starts with the endpoint id of a connected client, in the
    server's byte order, is forwarded to that client's connection alone, without
    the id; one that names no client, or is shorter than an id, is dropped. *)
Theorem relay_forwards s :
  relay_server_wf s →
  (∀ i c conn payload, sv_clients s !! i = Some c → cl_connection c = Some conn → is_u32 (cl_endpoint_id c) →
     relay_datagram_received s (le_bytes 4 (cl_endpoint_id c) ++ payload) = [(conn, payload)])
  ∧ (∀ data, (∀ i c, sv_clients s !! i = Some c → is_Some (cl_connection c) → cl_endpoint_id c ≠ le_decode (take 4 data)) →
     relay_datagram_received s data = []).
Proof.
  intros W. split.
  - intros i c conn payload Ei Hc Hu. unfold relay_datagram_received.
    assert (Hlen : length (le_bytes 4 (cl_endpoint_id c)) = 4%nat) by apply le_bytes_length.
    destruct (Z.ltb_spec (zlen (le_bytes 4 (cl_endpoint_id c) ++ payload)) 4) as [Hs|_];
      [unfold zlen in Hs; rewrite length_app, Hlen in Hs; lia|].
    rewrite take_app_length' by done. rewrite drop_app_length' by done. rewrite le_decode_bytes.
    change (256 ^ Z.of_nat 4) with (2 ^ 32). rewrite Z.mod_small by done.
    destruct (sw_live _ W i c Ei) as [[_ ?]|[Hid _]]; [congruence|].
    rewrite (find_by_endpoint s i c) by (done || lia). rewrite Ei. simpl. by rewrite Hc.
  - intros data Hno. unfold relay_datagram_received. destruct (zlen data <? 4); [done|].
    unfold relay_server_find_client_by_endpoint. destruct (find_index _ _) as [j|] eqn:Ej; [|done].
    apply find_index_Some in Ej as (d & Ed & Hd & _). apply Z.eqb_eq in Hd. rewrite Ed. simpl.
    destruct (cl_connection d) as [k|] eqn:Ek; [|done]. exfalso. eapply (Hno j d Ed); [by rewrite Ek|done].
Qed.

Definition demo_relay_server : meridian_relay_server_t :=
  relay_run meridian_relay_server_create [EvConnect 10 true; EvConnect 11 true].

Lemma demo_relay_server_wf : relay_server_wf demo_relay_server.
Proof.
  destruct (relay_step_wf meridian_relay_server_create (EvConnect 10 true)) as [W1 _];
    [apply relay_create_wf|apply fresh_connection_check; vm_compute; reflexivity|reflexivity|].
  destruct (relay_step_wf (relay_step meridian_relay_server_create (EvConnect 10 true)) (EvConnect 11 true)) as [W2 _];
    [exact W1|apply fresh_connection_check; vm_compute; reflexivity|reflexivity|exact W2].
Qed.

(** Three bytes for the second client. *)
Lemma relay_forwards_witness :
  relay_datagram_received demo_relay_server (le_bytes 4 2 ++ [7; 8; 9]) = [(11, [7; 8; 9])].
Proof.
  destruct (relay_forwards demo_relay_server) as [H _]; [exact demo_relay_server_wf|].
  apply (H 1%nat (mkRelayClient 2 (Some 11) false) 11 [7; 8; 9]);
    [reflexivity|reflexivity|split; [discriminate|reflexivity]].
Defined.

(** ** What clients send is not what the server reads *)

(** The first four bytes of every datagram a client sends, read as an endpoint. *)
Definition relay_header_endpoint : Z := 438311044.

Lemma relay_datagram_bytes src dest data :
  ∃ rest, relay_datagram_item src dest data = Ret (Some (CArray true 4
      [cbor_build_uint8 MERIDIAN_PACKET_TYPE_RELAY_DATAGRAM; cbor_build_uint32 src; cbor_build_uint32 dest;
       cbor_build_bytestring data]))
    ∧ cbor_serialize_alloc (CArray true 4
      [cbor_build_uint8 MERIDIAN_PACKET_TYPE_RELAY_DATAGRAM; cbor_build_uint32 src; cbor_build_uint32 dest;
       cbor_build_bytestring data]) = [132; 24; 32; 26] ++ rest.
Proof. eexists. split; [reflexivity|]. unfold cbor_serialize_alloc. simpl. reflexivity. Qed.

(** No datagram sent through the relay is delivered: whatever a connected client
    sends, and to whichever endpoint, is a CBOR array whose first four bytes the
    server takes for endpoint 438311044, so that a server on which no client has
    that id forwards nothing. *)
Theorem relay_datagrams_lost s r data dest DatagramSend :
  rl_connected r = true →
  (∀ i c, sv_clients s !! i = Some c → cl_endpoint_id c ≠ relay_header_endpoint) →
  ∃ rc buf, meridian_relay_send_datagram cbor_serialize_alloc DatagramSend r data dest
            = Ret (rc, [(rl_connection r, buf)])
    ∧ relay_datagram_received s buf = [].
Proof.
  intros Hc Hno. unfold meridian_relay_send_datagram. rewrite Hc. simpl negb. cbv iota.
  destruct (relay_datagram_bytes (rl_local_endpoint_id r) dest data) as (rest & E1 & E2).
  rewrite E1, bind_Ret_l. unfold send_item. rewrite E2.
  destruct (Z.eqb_spec (zlen ([132; 24; 32; 26] ++ rest)) 0) as [Hz|_];
    [unfold zlen in Hz; rewrite length_app in Hz; simpl in Hz; lia|].
  eexists _, _. split; [reflexivity|]. unfold relay_datagram_received.
  destruct (_ <? 4); [done|]. change (take 4 ([132; 24; 32; 26] ++ rest)) with [132; 24; 32; 26].
  change (le_decode [132; 24; 32; 26]) with relay_header_endpoint.
  unfold relay_server_find_client_by_endpoint. destruct (find_index _ _) as [j|] eqn:Ej; [|done].
  apply find_index_Some in Ej as (d & Ed & Hd & _). apply Z.eqb_eq in Hd. by apply Hno in Ed.
Qed.

(** Client 1 writes to client 2. *)
Lemma relay_datagrams_lost_witness :
  ∃ rc buf, meridian_relay_send_datagram cbor_serialize_alloc (fun _ _ => true) (mkRelay (Some 10) 1 true true true) [1; 2; 3] 2
            = Ret (rc, [(Some 10, buf)])
    ∧ relay_datagram_received demo_relay_server buf = [].
Proof.
  apply (relay_datagrams_lost demo_relay_server (mkRelay (Some 10) 1 true true true) [1; 2; 3] 2 (fun _ _ => true)).
  - reflexivity.
  - intros i c Hi. apply Z.eqb_neq, negb_true_iff.
    revert Hi. apply (clients_check (fun c => negb (cl_endpoint_id c =? relay_header_endpoint))). vm_compute. reflexivity.
Defined.

(** The receiving side understands the client's format: payload and sender come
    back. *)
Lemma relay_client_roundtrip r src dest data :
  rl_on_datagram r = true → is_u32 src →
  ∀ item load, relay_datagram_item src dest data = Ret (Some item) → load (cbor_serialize_alloc item) = Some item →
  relay_received load r (cbor_serialize_alloc item) = Ret (r, [RelayDatagram data src]).
Proof.
  intros Hon Hsrc item load E Hload. destruct (relay_datagram_bytes src dest data) as (rest & E1 & E2).
  rewrite E1 in E. injection E as <-. unfold relay_received.
  destruct (Z.eqb_spec (zlen (cbor_serialize_alloc (CArray true 4
    [cbor_build_uint8 MERIDIAN_PACKET_TYPE_RELAY_DATAGRAM; cbor_build_uint32 src; cbor_build_uint32 dest;
     cbor_build_bytestring data]))) 0) as [Hz|_].
  { rewrite E2 in Hz. unfold zlen in Hz. rewrite length_app in Hz. simpl in Hz. lia. }
  rewrite Hload. simpl. rewrite Hon. do 4 f_equal. by apply u32_id.
Qed.

(** ** Connections stay on the relay *)

Inductive conn_op :=
| CnConnect
| CnDisconnect
| CnUpgrade
| CnPeerNat (t : meridian_nat_type_t)
| CnPeerReflexive (addr port : Z).

Definition conn_step (c : meridian_conn_t) (op : conn_op) : meridian_conn_t :=
  match op with
  | CnConnect => meridian_conn_connect c
  | CnDisconnect => meridian_conn_disconnect c
  | CnUpgrade => snd (meridian_conn_upgrade_to_direct c)
  | CnPeerNat t => meridian_conn_set_peer_nat_type c t
  | CnPeerReflexive addr port => meridian_conn_set_peer_reflexive c addr port
  end.

Record conn_inv (relay : option meridian_relay_t) (local : meridian_nat_type_t) (c : meridian_conn_t) : Prop := {
  ci_relay : cn_relay c = relay;
  ci_local : cn_local_nat_type c = local;
  ci_state : cn_state c ≠ MERIDIAN_CONN_STATE_DIRECT;
  ci_inactive : cn_direct_active c = false;
  ci_endpoint : cn_relay_endpoint_id c = MERIDIAN_RELAY_ENDPOINT_ID_NONE;
  ci_symmetric : local = MERIDIAN_NAT_TYPE_SYMMETRIC → cn_state c ≠ MERIDIAN_CONN_STATE_TRYING_DIRECT
}.

Lemma conn_step_inv relay local c op : conn_inv relay local c → conn_inv relay local (conn_step c op).
Proof.
  intros [H1 H2 H3 H4 H5 H6]. destruct op as [| | |t|addr port]; simpl.
  - unfold meridian_conn_connect. destruct (cn_state c) eqn:Es; [done| | |]; try case_match; split; simpl; try congruence;
      intros Hs; by specialize (H6 Hs).
  - by split; simpl.
  - unfold meridian_conn_upgrade_to_direct. repeat case_match; simpl; try by split.
    split; simpl; try done. intros ->. rewrite orb_false_iff in *.
    match goal with H : _ ∧ _ |- _ => destruct H as [_ Hl] end. apply bool_decide_eq_false_1 in Hl. congruence.
  - split; simpl; try done.
    + case_bool_decide; done.
    + case_bool_decide; [done|done].
    + case_bool_decide; done.
  - by split; simpl.
Qed.

(** A peer connection never becomes direct: after any sequence of connects,
    disconnects, upgrades and reports about the peer, it is not in the direct
    state, and what is sent on it goes to its relay (if it has one and the relay
    path is active), always addressed to endpoint 0, or nowhere.  Behind a
    symmetric NAT a direct connection is not even tried. *)
Theorem conn_only_relays peer relay local ops data DatagramSend :
  let c := fold_left conn_step ops (meridian_conn_create peer relay local) in
  meridian_conn_is_direct (Some c) = false
  ∧ (local = MERIDIAN_NAT_TYPE_SYMMETRIC → cn_state c ≠ MERIDIAN_CONN_STATE_TRYING_DIRECT)
  ∧ meridian_conn_send cbor_serialize_alloc DatagramSend c data
    = match relay with
      | Some r => if negb (zlen data =? 0) && cn_relay_active c
                  then meridian_relay_send_datagram cbor_serialize_alloc DatagramSend r data MERIDIAN_RELAY_ENDPOINT_ID_NONE
                  else Ret (-1, [])
      | None => Ret (-1, [])
      end.
Proof.
  intros c. assert (H : conn_inv relay local c).
  { subst c. assert (H0 : conn_inv relay local (meridian_conn_create peer relay local)).
    { split; try done; simpl.
      - by repeat case_match.
      - intros ->. rewrite bool_decide_true by done. done. }
    revert H0. generalize (meridian_conn_create peer relay local).
    induction ops as [|op ops IH]; intros c Hc; simpl; [done|]. by apply IH, conn_step_inv. }
  destruct H as [H1 H2 H3 H4 H5 H6]. split; [by apply bool_decide_eq_false_2|]. split; [done|].
  unfold meridian_conn_send. rewrite H1, H4, H5. destruct (zlen data =? 0); simpl; [by destruct relay|].
  by destruct relay.
Qed.
