(* ===== verification/Wheel.v ===== *)
(** * Wheel: the hierarchical timing wheel of [src/Time/wheel.c]

    Five wheels (milliseconds to days) of equally many slots.  Timers are heap
    objects shared by a slot list and by the map of timers, so that cancelling one
    marks the object the slot still holds: slots and map hold addresses into
    [hw_heap].  A timer counts its references and leaves the heap with the last one;
    reading an address that is not in the heap is undefined.  The operations here
    run one at a time; the module at the end interleaves their critical sections for
    one timer.
    Work handed to the pool is returned as a list: user callbacks, and the ticks
    of the wheels above. *)

From stdpp Require Import gmap.
From S2P Require Import Prelude Refcount.

Inductive wheel_level := milliseconds | seconds | minutes | hours | days.

Definition Time_Seconds : Z := 1000.
Definition Time_Minutes : Z := 60.
Definition Time_Hours : Z := 60.
Definition Time_Days : Z := 24.

(** Work for the pool: a user's callback (by its context), or the tick of a
    wheel. *)
Inductive wheel_work :=
| WCallback (ctx : Z)
| WTick (l : wheel_level).

Record timer_st := mkTimer {
  ti_refs : refcounter_t;
  ti_timerId : Z;
  ti_steps : list (Z * wheel_level);
  ti_current : nat;
  ti_work : wheel_work;
  ti_removed : bool;
  ti_circle : Z
}.

Record timing_wheel_t := mkWheel {
  tw_position : Z;
  tw_slots : list (list Z);
  tw_interval : Z;
  tw_stopped : bool
}.

Record hierarchical_timing_wheel_t := mkWheels {
  hw_heap : gmap Z timer_st;
  hw_next_addr : Z;
  hw_timers : gmap Z Z;
  hw_next_id : Z;
  hw_stopped : bool;
  hw_days : timing_wheel_t;
  hw_hours : timing_wheel_t;
  hw_minutes : timing_wheel_t;
  hw_seconds : timing_wheel_t;
  hw_milliseconds : timing_wheel_t
}.

Definition hw_wheel (hw : hierarchical_timing_wheel_t) (l : wheel_level) : timing_wheel_t :=
  match l with
  | days => hw_days hw | hours => hw_hours hw | minutes => hw_minutes hw | seconds => hw_seconds hw
  | milliseconds => hw_milliseconds hw
  end.

Definition hw_put (hw : hierarchical_timing_wheel_t) (l : wheel_level) (w : timing_wheel_t)
  : hierarchical_timing_wheel_t :=
  let f k := match l, k with
             | days, days | hours, hours | minutes, minutes | seconds, seconds | milliseconds, milliseconds => w
             | _, _ => hw_wheel hw k
             end in
  mkWheels (hw_heap hw) (hw_next_addr hw) (hw_timers hw) (hw_next_id hw) (hw_stopped hw)
    (f days) (f hours) (f minutes) (f seconds) (f milliseconds).

Definition hw_with (hw : hierarchical_timing_wheel_t) (heap : gmap Z timer_st) (timers : gmap Z Z)
  : hierarchical_timing_wheel_t :=
  mkWheels heap (hw_next_addr hw) timers (hw_next_id hw) (hw_stopped hw) (hw_days hw) (hw_hours hw)
    (hw_minutes hw) (hw_seconds hw) (hw_milliseconds hw).

(** Allocating a timer. *)
Definition hw_alloc (hw : hierarchical_timing_wheel_t) (t : timer_st) : Z * hierarchical_timing_wheel_t :=
  (hw_next_addr hw,
   mkWheels (<[hw_next_addr hw := t]> (hw_heap hw)) (hw_next_addr hw + 1) (hw_timers hw) (hw_next_id hw)
     (hw_stopped hw) (hw_days hw) (hw_hours hw) (hw_minutes hw) (hw_seconds hw) (hw_milliseconds hw)).

Definition timer_at (heap : gmap Z timer_st) (a : Z) : exec timer_st :=
  match heap !! a with Some t => Ret t | None => Trap end.

Definition ti_with_refs (t : timer_st) (r : refcounter_t) : timer_st :=
  mkTimer r (ti_timerId t) (ti_steps t) (ti_current t) (ti_work t) (ti_removed t) (ti_circle t).
Definition ti_with_circle (t : timer_st) (c : Z) : timer_st :=
  mkTimer (ti_refs t) (ti_timerId t) (ti_steps t) (ti_current t) (ti_work t) (ti_removed t) c.
Definition ti_with_current (t : timer_st) (n : nat) : timer_st :=
  mkTimer (ti_refs t) (ti_timerId t) (ti_steps t) n (ti_work t) (ti_removed t) (ti_circle t).
Definition ti_with_removed (t : timer_st) : timer_st :=
  mkTimer (ti_refs t) (ti_timerId t) (ti_steps t) (ti_current t) (ti_work t) true (ti_circle t).

Definition timer_ref (heap : gmap Z timer_st) (a : Z) : exec (gmap Z timer_st) :=
  t <- timer_at heap a ;; Ret (<[a := ti_with_refs t (refcounter_reference (ti_refs t))]> heap).

(** The last reference frees the timer. *)
Definition timer_unref (heap : gmap Z timer_st) (a : Z) : exec (gmap Z timer_st) :=
  t <- timer_at heap a ;;
  let r := refcounter_dereference (ti_refs t) in
  if refcounter_count r =? 0 then Ret (delete a heap) else Ret (<[a := ti_with_refs t r]> heap).

(** ** One wheel *)

Definition timing_wheel_create (interval : Z) (slot_count : nat) : timing_wheel_t :=
  mkWheel (u64 (Z.of_nat slot_count - 1)) (replicate slot_count []) interval false.

Definition tw_with (w : timing_wheel_t) (position : Z) (slots : list (list Z)) : timing_wheel_t :=
  mkWheel position slots (tw_interval w) (tw_stopped w).

(** The slot is found modulo the number of slots; [circle] counts the whole
    revolutions, as a 32-bit integer. *)
Definition timing_wheel_set_timer (hw : hierarchical_timing_wheel_t) (l : wheel_level) (a : Z)
  : exec hierarchical_timing_wheel_t :=
  let w := hw_wheel hw l in
  t <- timer_at (hw_heap hw) a ;;
  match ti_steps t !! ti_current t with
  | None => Trap
  | Some (steps, _) =>
      let n := zlen (tw_slots w) in
      if n =? 0 then Trap
      else
        let position := u64 (tw_position w + steps) mod n in
        let circle := s32 (u64 (steps - 1) / n) in
        heap <- timer_ref (<[a := ti_with_circle t circle]> (hw_heap hw)) a ;;
        Ret (hw_put (hw_with hw heap (hw_timers hw)) l
               (tw_with w (tw_position w) (alter (fun s => s ++ [a]) (Z.to_nat position) (tw_slots w))))
  end.

(** The scan of the current slot: removed timers are dropped, timers with
    revolutions left stay, the others expire and leave the map of timers.  The list
    of expired timers takes a reference, map and slot give theirs up. *)
Fixpoint maintenance_loop (heap : gmap Z timer_st) (timers : gmap Z Z) (slot : list Z)
  : exec (gmap Z timer_st * gmap Z Z * list Z * list Z) :=
  match slot with
  | [] => Ret (heap, timers, [], [])
  | a :: slot' =>
      t <- timer_at heap a ;;
      if ti_removed t then
        heap' <- timer_unref heap a ;;
        maintenance_loop heap' timers slot'
      else
        let t' := if 0 <? ti_circle t then ti_with_circle t (ti_circle t - 1) else t in
        let heap' := <[a := t']> heap in
        if 0 <? ti_circle t' then
          '(h, m, kept, expired) <- maintenance_loop heap' timers slot' ;;
          Ret (h, m, a :: kept, expired)
        else
          heap1 <- timer_ref heap' a ;;
          heap2 <- match timers !! ti_timerId t with Some _ => timer_unref heap1 a | None => Ret heap1 end ;;
          heap3 <- timer_unref heap2 a ;;
          '(h, m, kept, expired) <- maintenance_loop heap3 (delete (ti_timerId t) timers) slot' ;;
          Ret (h, m, kept, a :: expired)
  end.

Definition timing_wheel_maintenance (hw : hierarchical_timing_wheel_t) (l : wheel_level)
  : exec (hierarchical_timing_wheel_t * list Z) :=
  let w := hw_wheel hw l in
  match tw_slots w !! Z.to_nat (tw_position w) with
  | None => Trap
  | Some slot =>
      '(h, m, kept, expired) <- maintenance_loop (hw_heap hw) (hw_timers hw) slot ;;
      Ret (hw_put (hw_with hw h m) l
             (tw_with w (tw_position w) (<[Z.to_nat (tw_position w) := kept]> (tw_slots w))), expired)
  end.

(** The part of a tick under the wheel's lock. *)
Definition wheel_advance (hw : hierarchical_timing_wheel_t) (l : wheel_level)
  : exec (hierarchical_timing_wheel_t * list Z) :=
  let w := hw_wheel hw l in
  let n := zlen (tw_slots w) in
  if n =? 0 then Trap
  else timing_wheel_maintenance (hw_put hw l (tw_with w (u64 (tw_position w + 1) mod n) (tw_slots w))) l.

(** ** The hierarchy *)

Definition lower (l : wheel_level) : option wheel_level :=
  match l with
  | milliseconds => None | seconds => Some milliseconds | minutes => Some seconds | hours => Some minutes
  | days => Some hours
  end.

(** The fastest wheel is driven by the ticker, each other one by a timer on
    the wheel below. *)
Definition timing_wheel_run (hw : hierarchical_timing_wheel_t) (l : wheel_level)
  : exec (hierarchical_timing_wheel_t * list wheel_work) :=
  match lower l with
  | None =>
      let w := hw_wheel hw l in
      Ret (hw_put hw l (mkWheel (tw_position w) (tw_slots w) (tw_interval w) false), [WTick l])
  | Some below =>
      let '(a, hw1) := hw_alloc hw (mkTimer refcounter_init 0 [(tw_interval (hw_wheel hw l), below)] 0 (WTick l) false 0) in
      hw2 <- timing_wheel_set_timer hw1 below a ;;
      heap <- timer_unref (hw_heap hw2) a ;;
      Ret (hw_with hw2 heap (hw_timers hw2), [])
  end.

(** [while (current < size && steps[current].delay == 0) current++]. *)
Fixpoint skip_zero (steps : list (Z * wheel_level)) (current : nat) : nat :=
  match steps with
  | (0, _) :: steps' => skip_zero steps' (S current)
  | _ => current
  end.

Fixpoint timing_wheel_fire_expired (hw : hierarchical_timing_wheel_t) (expired : list Z)
  : exec (hierarchical_timing_wheel_t * list wheel_work) :=
  match expired with
  | [] => Ret (hw, [])
  | a :: expired' =>
      t <- timer_at (hw_heap hw) a ;;
      if ti_removed t then
        heap <- timer_unref (hw_heap hw) a ;;
        timing_wheel_fire_expired (hw_with hw heap (hw_timers hw)) expired'
      else
        let next := if (ti_current t <? length (ti_steps t) - 1)%nat
                    then skip_zero (drop (S (ti_current t)) (ti_steps t)) (S (ti_current t))
                    else length (ti_steps t) in
        match ti_steps t !! next with
        | Some (_, l) =>
            hw1 <- timing_wheel_set_timer
                     (hw_with hw (<[a := ti_with_current t next]> (hw_heap hw)) (hw_timers hw)) l a ;;
            heap <- timer_unref (hw_heap hw1) a ;;
            timing_wheel_fire_expired (hw_with hw1 heap (hw_timers hw1)) expired'
        | None =>
            heap <- timer_unref (hw_heap hw) a ;;
            '(hw1, works) <- timing_wheel_fire_expired (hw_with hw heap (hw_timers hw)) expired' ;;
            Ret (hw1, ti_work t :: works)
        end
  end.

Definition timing_wheel_on_tick (hw : hierarchical_timing_wheel_t) (l : wheel_level)
  : exec (hierarchical_timing_wheel_t * list wheel_work) :=
  if tw_stopped (hw_wheel hw l) then Ret (hw, [])
  else
    '(hw1, expired) <- wheel_advance hw l ;;
    '(hw2, works) <- timing_wheel_run hw1 l ;;
    '(hw3, works') <- timing_wheel_fire_expired hw2 expired ;;
    Ret (hw3, works ++ works').

(** ** Durations *)

Record timer_duration_t := mkDuration {
  du_days : Z;
  du_hours : Z;
  du_minutes : Z;
  du_seconds : Z;
  du_milliseconds : Z
}.

(** Carries happen only when the lower unit exceeds the upper one's length. *)
Definition timer_duration_rectify (d : timer_duration_t) : timer_duration_t :=
  let '(ms, s) := if Time_Seconds <? du_milliseconds d
                  then (du_milliseconds d mod Time_Seconds, u64 (du_seconds d + du_milliseconds d / Time_Seconds))
                  else (du_milliseconds d, du_seconds d) in
  let '(s, m) := if Time_Minutes <? s then (s mod Time_Minutes, u64 (du_minutes d + s / Time_Minutes))
                 else (s, du_minutes d) in
  let '(m, h) := if Time_Hours <? m then (m mod Time_Hours, u64 (du_hours d + m / Time_Hours)) else (m, du_hours d) in
  let '(h, dd) := if Time_Days <? h then (h mod Time_Days, u64 (du_days d + h / Time_Days)) else (h, du_days d) in
  mkDuration dd h m s ms.

(** The plan starts at the largest unit in use. *)
Definition timer_plan (d : timer_duration_t) : list (Z * wheel_level) :=
  let full := [(du_days d, days); (du_hours d, hours); (du_minutes d, minutes); (du_seconds d, seconds);
               (du_milliseconds d, milliseconds)] in
  if 0 <? du_days d then full
  else if 0 <? du_hours d then drop 1 full
  else if 0 <? du_minutes d then drop 2 full
  else if 0 <? du_seconds d then drop 3 full
  else drop 4 full.

Definition hierarchical_timing_wheel_create (slot_count : nat) : hierarchical_timing_wheel_t :=
  mkWheels ∅ 1 ∅ 1 false (timing_wheel_create Time_Days slot_count) (timing_wheel_create Time_Hours slot_count)
    (timing_wheel_create Time_Minutes slot_count) (timing_wheel_create Time_Seconds slot_count)
    (timing_wheel_create 1 slot_count).

(** The identifier is read from the timer after the creator's reference is given
    up. *)
Definition hierarchical_timing_wheel_set_timer (hw : hierarchical_timing_wheel_t) (ctx : Z)
    (delay : timer_duration_t) : exec (Z * hierarchical_timing_wheel_t) :=
  let steps := timer_plan (timer_duration_rectify delay) in
  let id := hw_next_id hw in
  let '(a, hw1) := hw_alloc hw (mkTimer refcounter_init id steps 0 (WCallback ctx) false 0) in
  heap1 <- timer_ref (hw_heap hw1) a ;;
  let hw2 := mkWheels heap1 (hw_next_addr hw1) (<[id := a]> (hw_timers hw1)) (u64 (id + 1)) (hw_stopped hw1)
               (hw_days hw1) (hw_hours hw1) (hw_minutes hw1) (hw_seconds hw1) (hw_milliseconds hw1) in
  match steps with
  | [] => Trap
  | (_, l) :: _ =>
      hw3 <- timing_wheel_set_timer hw2 l a ;;
      heap <- timer_unref (hw_heap hw3) a ;;
      t <- timer_at heap a ;;
      Ret (ti_timerId t, hw_with hw3 heap (hw_timers hw3))
  end.

Definition hierarchical_timing_wheel_cancel_timer (hw : hierarchical_timing_wheel_t) (id : Z)
  : exec hierarchical_timing_wheel_t :=
  match hw_timers hw !! id with
  | None => Ret hw
  | Some a =>
      t <- timer_at (hw_heap hw) a ;;
      heap <- timer_unref (<[a := ti_with_removed t]> (hw_heap hw)) a ;;
      Ret (hw_with hw heap (delete id (hw_timers hw)))
  end.

Fixpoint run_wheels (hw : hierarchical_timing_wheel_t) (l : list wheel_level)
  : exec (hierarchical_timing_wheel_t * list wheel_work) :=
  match l with
  | [] => Ret (hw, [])
  | k :: l' =>
      '(hw1, w1) <- timing_wheel_run hw k ;;
      '(hw2, w2) <- run_wheels hw1 l' ;;
      Ret (hw2, w1 ++ w2)
  end.

Definition hierarchical_timing_wheel_run (hw : hierarchical_timing_wheel_t)
  : exec (hierarchical_timing_wheel_t * list wheel_work) :=
  run_wheels hw [milliseconds; seconds; minutes; hours; days].

Definition timing_wheel_stop (w : timing_wheel_t) : timing_wheel_t :=
  mkWheel (tw_position w) (tw_slots w) (tw_interval w) true.

(** Every timer of the map is marked as removed, its abort callback runs (the
    result lists their work), and the map's reference is given up. *)
Fixpoint stop_loop (heap : gmap Z timer_st) (addrs : list Z) : exec (gmap Z timer_st * list wheel_work) :=
  match addrs with
  | [] => Ret (heap, [])
  | a :: addrs' =>
      t <- timer_at heap a ;;
      heap1 <- timer_unref (<[a := ti_with_removed t]> heap) a ;;
      '(heap2, aborted) <- stop_loop heap1 addrs' ;;
      Ret (heap2, ti_work t :: aborted)
  end.

Definition hierarchical_timing_wheel_stop (hw : hierarchical_timing_wheel_t)
  : exec (hierarchical_timing_wheel_t * list wheel_work) :=
  '(heap, aborted) <- stop_loop (hw_heap hw) (map_to_list (hw_timers hw)).*2 ;;
  Ret (mkWheels heap (hw_next_addr hw) ∅ (hw_next_id hw) true
         (timing_wheel_stop (hw_days hw)) (timing_wheel_stop (hw_hours hw)) (timing_wheel_stop (hw_minutes hw))
         (timing_wheel_stop (hw_seconds hw)) (timing_wheel_stop (hw_milliseconds hw)), aborted).

(** [timing_wheel_worker_abort]: the wheel stops and its slots are drained; the
    abort callback of a wheel's tick aborts that wheel in turn, the others are
    the users' (listed by their context).  A wheel's tick waits on the wheel
    below, so the recursion is at most as deep as there are wheels. *)
Fixpoint timing_wheel_worker_abort (fuel : nat) (hw : hierarchical_timing_wheel_t) (l : wheel_level)
  : exec (hierarchical_timing_wheel_t * list Z) :=
  match fuel with
  | O => Trap
  | S fuel' =>
      let w := hw_wheel hw l in
      let hw1 := hw_put hw l (mkWheel (tw_position w) ((fun _ => []) <$> tw_slots w) (tw_interval w) true) in
      (fix drain (st : hierarchical_timing_wheel_t) (addrs : list Z) :=
         match addrs with
         | [] => Ret (st, [])
         | a :: addrs' =>
             t <- timer_at (hw_heap st) a ;;
             '(st1, aborted1) <-
               (if ti_removed t then Ret (st, [])
                else match ti_work t with
                     | WCallback ctx => Ret (st, [ctx])
                     | WTick above => timing_wheel_worker_abort fuel' st above
                     end) ;;
             heap <- timer_unref (hw_heap st1) a ;;
             '(st2, aborted2) <- drain (hw_with st1 heap (hw_timers st1)) addrs' ;;
             Ret (st2, aborted1 ++ aborted2)
         end) hw1 (concat (tw_slots w))
  end.

(** The last reference on the hierarchy: map and slots give up theirs. *)
Fixpoint timers_release (heap : gmap Z timer_st) (addrs : list Z) : exec (gmap Z timer_st) :=
  match addrs with
  | [] => Ret heap
  | a :: addrs' => heap' <- timer_unref heap a ;; timers_release heap' addrs'
  end.

Definition timing_wheel_destroy (heap : gmap Z timer_st) (w : timing_wheel_t) : exec (gmap Z timer_st) :=
  timers_release heap (concat (tw_slots w)).

(** What is left of the timers. *)
Definition hierarchical_timing_wheel_destroy (hw : hierarchical_timing_wheel_t) : exec (gmap Z timer_st) :=
  heap <- timers_release (hw_heap hw) (map_to_list (hw_timers hw)).*2 ;;
  heap <- timing_wheel_destroy heap (hw_days hw) ;;
  heap <- timing_wheel_destroy heap (hw_hours hw) ;;
  heap <- timing_wheel_destroy heap (hw_minutes hw) ;;
  heap <- timing_wheel_destroy heap (hw_seconds hw) ;;
  timing_wheel_destroy heap (hw_milliseconds hw).

(** ** The references of one timer

    The thread that sets the timer, the map, slot lists and the list of expired
    timers each hold a reference.  The steps are the critical sections of the
    functions above, as the threads of the pool, of the users and of the daemon
    interleave them. *)

Module TimerRefs.

(** How far [hierarchical_timing_wheel_set_timer] has come. *)
Inductive creator := CAllocated | CMapped | CPlaced | CReleased | CReturned.

Record life := mkLife {
  lf_refs : refcounter_t;
  lf_freed : bool;
  lf_creator : creator;
  lf_map : bool;
  lf_slots : nat;
  lf_expired : nat;
  lf_removed : bool
}.

Definition life_ref (s : life) : life :=
  mkLife (refcounter_reference (lf_refs s)) (lf_freed s) (lf_creator s) (lf_map s) (lf_slots s) (lf_expired s) (lf_removed s).

Definition life_unref (s : life) : life :=
  let r := refcounter_dereference (lf_refs s) in
  mkLife r (u16 (rc_count r) =? 0) (lf_creator s) (lf_map s) (lf_slots s) (lf_expired s) (lf_removed s).

Definition holds_at (s : life) (c : creator) (map : bool) (slots expired : nat) (removed : bool) : life :=
  mkLife (lf_refs s) (lf_freed s) c map slots expired removed.

Definition timer_allocated : life := mkLife refcounter_init false CAllocated false 0 0 false.

Inductive life_event :=
| EPut          (* set_timer: into the map *)
| EPlace        (* set_timer: into a slot *)
| ERelease      (* set_timer: the creator's reference *)
| EReadId       (* set_timer: the result *)
| ECancel       (* cancel_timer, or stop, which treats every timer of the map so *)
| EDropRemoved  (* maintenance of a cancelled timer *)
| EExpire       (* maintenance of a timer that is due *)
| EFireRemoved  (* fire_expired of a timer cancelled meanwhile *)
| EFireNext     (* fire_expired: on to the next wheel *)
| EFireWork     (* fire_expired: the callback is queued *)
| EDrain        (* worker_abort, or timer_list_destroy *)
| EUnmap.       (* hierarchical_timing_wheel_destroy *)

Definition enabled (e : life_event) (s : life) : bool :=
  match e, lf_creator s with
  | EPut, CAllocated | EPlace, CMapped | ERelease, CPlaced | EReadId, CReleased => true
  | EPut, _ | EPlace, _ | ERelease, _ | EReadId, _ => false
  | (ECancel | EUnmap), _ => lf_map s
  | EDropRemoved, _ => (0 <? lf_slots s)%nat && lf_removed s
  | EExpire, _ => (0 <? lf_slots s)%nat && negb (lf_removed s)
  | EFireRemoved, _ => (0 <? lf_expired s)%nat && lf_removed s
  | (EFireNext | EFireWork), _ => (0 <? lf_expired s)%nat && negb (lf_removed s)
  | EDrain, _ => (0 <? lf_slots s)%nat
  end.

Definition life_effect (e : life_event) (s : life) : life :=
  let '(mkLife _ _ c m k x r) := s in
  match e with
  | EPut => life_ref (holds_at s CMapped true k x r)
  | EPlace => life_ref (holds_at s CPlaced m (S k) x r)
  | ERelease => life_unref (holds_at s CReleased m k x r)
  | EReadId => holds_at s CReturned m k x r
  | ECancel => life_unref (holds_at s c false k x true)
  | EDropRemoved => life_unref (holds_at s c m (pred k) x r)
  | EExpire =>
      let s1 := life_ref (holds_at s c false (pred k) (S x) r) in
      life_unref (if m then life_unref s1 else s1)
  | EFireRemoved | EFireWork => life_unref (holds_at s c m k (pred x) r)
  | EFireNext => life_unref (life_ref (holds_at s c m (S k) (pred x) r))
  | EDrain => life_unref (holds_at s c m (pred k) x r)
  | EUnmap => life_unref (holds_at s c false k x r)
  end.

(** Not possible, an access to freed memory, or the new state. *)
Definition life_apply (s : life) (e : life_event) : option (exec life) :=
  if enabled e s then Some (if lf_freed s then Trap else Ret (life_effect e s)) else None.

Definition life_step (s s' : life) : Prop := ∃ e, life_apply s e = Some (Ret s').
End TimerRefs.
