(* ===== verification/WheelTheorems.v ===== *)
(** * WheelTheorems: when timers fire

    The well-formedness of a hierarchical timing wheel (every scheduled timer is
    a live object of exactly one slot), its preservation by every operation, and
    the tick at which a timer's callback is handed to the work pool, under any
    interleaving of other timers' operations and of the ticks of all wheels. *)

From stdpp Require Import gmap relations.
From S2P Require Import Prelude Refcount.
From S2P Require Import Wheel.

#[export] Instance wheel_level_eq : EqDecision wheel_level.
Proof. solve_decision. Defined.
#[export] Instance wheel_work_eq : EqDecision wheel_work.
Proof. solve_decision. Defined.

(** ** Access to one wheel of the hierarchy *)

Lemma hw_wheel_put_eq hw l w : hw_wheel (hw_put hw l w) l = w.
Proof. by destruct l. Qed.

Lemma hw_wheel_put_ne hw l k w : k ≠ l → hw_wheel (hw_put hw l w) k = hw_wheel hw k.
Proof. by destruct l, k. Qed.

Lemma hw_wheel_with hw h m k : hw_wheel (hw_with hw h m) k = hw_wheel hw k.
Proof. by destruct k. Qed.

Lemma hw_put_fields hw l w :
  hw_heap (hw_put hw l w) = hw_heap hw ∧ hw_timers (hw_put hw l w) = hw_timers hw
  ∧ hw_next_addr (hw_put hw l w) = hw_next_addr hw ∧ hw_next_id (hw_put hw l w) = hw_next_id hw.
Proof. done. Qed.

Definition slot_of (hw : hierarchical_timing_wheel_t) (l : wheel_level) (i : nat) : list Z :=
  default [] (tw_slots (hw_wheel hw l) !! i).

Definition slots_len (hw : hierarchical_timing_wheel_t) (l : wheel_level) : Z := zlen (tw_slots (hw_wheel hw l)).

(** ** Well-formedness *)

Definition wheel_ok (w : timing_wheel_t) : Prop :=
  0 <= tw_position w < zlen (tw_slots w) ∧ zlen (tw_slots w) < 2 ^ 32.

Definition timer_ok (t : timer_st) : Prop := (ti_current t < length (ti_steps t))%nat.

Definition scheduled (hw : hierarchical_timing_wheel_t) (a : Z) : Prop := ∃ l i, a ∈ slot_of hw l i.

(** A timer's references: one of its slot (or of the list of expired timers),
    and one of the map, if the map finds it under its identifier; the map finds no
    other timer there, and no removed one. *)
Definition counted (timers : gmap Z Z) (a : Z) (t : timer_st) : Prop :=
  match timers !! ti_timerId t with
  | Some b => b = a ∧ ti_refs t = mkRefc 2 0 ∧ ti_removed t = false
  | None => ti_refs t = mkRefc 1 0
  end.

(** The invariant while the timers of [x] have expired and are held by nobody but
    the list of expired timers.  The live objects are exactly those some slot or [x]
    holds. *)
Record hw_wf_but (x : list Z) (hw : hierarchical_timing_wheel_t) : Prop := {
  wf_wheels : ∀ l, wheel_ok (hw_wheel hw l);
  wf_slots : ∀ l i, NoDup (slot_of hw l i);
  wf_unique : ∀ l i k j a, a ∈ slot_of hw l i → a ∈ slot_of hw k j → l = k ∧ i = j;
  wf_alive : ∀ a, is_Some (hw_heap hw !! a) ↔ scheduled hw a ∨ a ∈ x;
  wf_held : NoDup x ∧ ∀ a, a ∈ x → ¬ scheduled hw a;
  wf_timer : ∀ a t, hw_heap hw !! a = Some t → timer_ok t ∧ ti_timerId t < hw_next_id hw ∧ a < hw_next_addr hw;
  wf_count : ∀ a t, hw_heap hw !! a = Some t → counted (hw_timers hw) a t;
  wf_map : ∀ id a, hw_timers hw !! id = Some a →
    0 < id ∧ scheduled hw a ∧ ∃ t, hw_heap hw !! a = Some t ∧ ti_timerId t = id;
  wf_ids : 0 < hw_next_id hw < 2 ^ 64
}.
Arguments wf_wheels {x} hw _.
Arguments wf_slots {x} hw _.
Arguments wf_unique {x} hw _.
Arguments wf_alive {x} hw _.
Arguments wf_held {x} hw _.
Arguments wf_timer {x} hw _.
Arguments wf_count {x} hw _.
Arguments wf_map {x} hw _.
Arguments wf_ids {x} hw _.

(** Between operations nothing is held back. *)
Abbreviation hw_wf := (hw_wf_but []).

Lemma wf_live {x} hw a : hw_wf_but x hw → scheduled hw a → ∃ t, hw_heap hw !! a = Some t ∧ timer_ok t.
Proof.
  intros W Hs. destruct (proj2 (wf_alive _ W a)) as [t Et]; [by left|]. exists t. split; [done|]. by apply (wf_timer _ W a).
Qed.

Lemma wf_fresh {x} hw a : hw_wf_but x hw → is_Some (hw_heap hw !! a) → a < hw_next_addr hw.
Proof. intros W [t Et]. by apply (wf_timer _ W a t). Qed.

(** ** References *)

Lemma timer_ref_ok heap a t n :
  heap !! a = Some t → ti_refs t = mkRefc n 0 → 0 <= n < 2 ^ 16 →
  timer_ref heap a = Ret (<[a := ti_with_refs t (mkRefc (n + 1) 0)]> heap).
Proof.
  intros Et Er Hn. unfold timer_ref, timer_at. rewrite Et, bind_Ret_l, Er. unfold refcounter_reference. cbn [rc_count rc_yield].
  rewrite u64_id by (unfold is_u64; lia). done.
Qed.

Lemma timer_unref_more heap a t n :
  heap !! a = Some t → ti_refs t = mkRefc n 0 → 1 < n < 2 ^ 16 →
  timer_unref heap a = Ret (<[a := ti_with_refs t (mkRefc (n - 1) 0)]> heap).
Proof.
  intros Et Er Hn. unfold timer_unref, timer_at. rewrite Et, bind_Ret_l, Er. unfold refcounter_dereference, refcounter_count. cbn [rc_count rc_yield].
  change (0 <? 0) with false. cbv iota. rewrite (u16_id n) by (unfold is_u16; lia). rewrite (proj2 (Z.ltb_lt 0 n)) by lia. cbn [rc_count].
  rewrite u64_id by (unfold is_u64; lia). rewrite u16_id by (unfold is_u16; lia). rewrite (proj2 (Z.eqb_neq _ 0)) by lia. done.
Qed.

Lemma timer_unref_last heap a t :
  heap !! a = Some t → ti_refs t = mkRefc 1 0 → timer_unref heap a = Ret (delete a heap).
Proof. intros Et Er. unfold timer_unref, timer_at. rewrite Et, bind_Ret_l, Er. done. Qed.

(** ** The scan of one slot *)

Definition scanned (t : timer_st) : timer_st :=
  if 0 <? ti_circle t then ti_with_circle t (ti_circle t - 1) else t.

(** Which timers of a scanned slot stay (more than one revolution left) and
    which expire. *)
Definition stays (heap : gmap Z timer_st) (a : Z) : bool :=
  match heap !! a with Some t => negb (ti_removed t) && (1 <? ti_circle t) | None => false end.
Definition expires (heap : gmap Z timer_st) (a : Z) : bool :=
  match heap !! a with Some t => negb (ti_removed t) && negb (1 <? ti_circle t) | None => false end.

(** What becomes of a scanned timer: a removed one is freed, one that expires is
    left with the reference of the list of expired timers. *)
Definition settled (t : timer_st) : option timer_st :=
  if ti_removed t then None
  else Some (if 1 <? ti_circle t then scanned t else ti_with_refs (scanned t) refcounter_init).

Lemma scanned_circle t : (0 <? ti_circle (scanned t)) = (1 <? ti_circle t).
Proof.
  unfold scanned. destruct (Z.ltb_spec 0 (ti_circle t)); simpl; destruct (Z.ltb_spec 1 (ti_circle t));
    solve [apply Z.ltb_lt; lia | apply Z.ltb_ge; lia].
Qed.

Lemma scanned_same t : ti_work (scanned t) = ti_work t ∧ ti_timerId (scanned t) = ti_timerId t
  ∧ ti_steps (scanned t) = ti_steps t ∧ ti_current (scanned t) = ti_current t ∧ ti_removed (scanned t) = ti_removed t
  ∧ ti_refs (scanned t) = ti_refs t.
Proof. unfold scanned. by destruct (0 <? ti_circle t). Qed.

Lemma settled_same t t' : settled t = Some t' → ti_work t' = ti_work t ∧ ti_timerId t' = ti_timerId t
  ∧ ti_steps t' = ti_steps t ∧ ti_current t' = ti_current t ∧ ti_removed t' = ti_removed t.
Proof.
  unfold settled. destruct (scanned_same t) as (E1 & E2 & E3 & E4 & E5 & _). destruct (ti_removed t) eqn:Er; [done|].
  intros [= <-]. destruct (1 <? ti_circle t); cbn; rewrite ?E1, ?E2, ?E3, ?E4, ?E5; done.
Qed.

Lemma stays_frame (heap heap' : gmap Z timer_st) slot :
  (∀ b, b ∈ slot → heap' !! b = heap !! b) →
  List.filter (stays heap') slot = List.filter (stays heap) slot
  ∧ List.filter (expires heap') slot = List.filter (expires heap) slot.
Proof. intros H. split; apply List.filter_ext_in; intros b Hb%list_elem_of_In; unfold stays, expires; by rewrite H. Qed.

(** The references of a timer that expires. *)
Lemma expire_refs heap timers a t {B} (k : gmap Z timer_st → exec B) :
  heap !! a = Some t → counted timers a t →
  (heap1 <- timer_ref heap a ;;
   heap2 <- match timers !! ti_timerId t with Some _ => timer_unref heap1 a | None => Ret heap1 end ;;
   heap3 <- timer_unref heap2 a ;; k heap3) = k (<[a := ti_with_refs t refcounter_init]> heap).
Proof.
  intros Et Hc. unfold counted in Hc. destruct (timers !! ti_timerId t).
  - destruct Hc as (_ & Er & _). rewrite (timer_ref_ok _ _ _ _ Et Er), bind_Ret_l by lia.
    rewrite (timer_unref_more _ a (ti_with_refs t (mkRefc 3 0)) 3), bind_Ret_l by (apply lookup_insert_eq || done || lia).
    rewrite (timer_unref_more _ a (ti_with_refs t (mkRefc 2 0)) 2), bind_Ret_l by (apply lookup_insert_eq || done || lia).
    by rewrite !insert_insert_eq.
  - rewrite (timer_ref_ok _ _ _ _ Et Hc), !bind_Ret_l by lia.
    rewrite (timer_unref_more _ a (ti_with_refs t (mkRefc 2 0)) 2), bind_Ret_l by (apply lookup_insert_eq || done || lia).
    by rewrite insert_insert_eq.
Qed.

(** What the scan relies on: the timers of the slot are live and counted, and the
    map has timers under their identifiers. *)
Record scan_ok (heap : gmap Z timer_st) (timers : gmap Z Z) (slot : list Z) : Prop := {
  so_nodup : base.NoDup slot;
  so_live : ∀ a, a ∈ slot → ∃ t, heap !! a = Some t ∧ counted timers a t;
  so_map : ∀ id a t, timers !! id = Some a → heap !! a = Some t → ti_timerId t = id
}.

Lemma scan_ok_frame heap timers heap' timers' a slot :
  scan_ok heap timers (a :: slot) →
  (∀ b, b ≠ a → heap' !! b = heap !! b) → (∀ t', heap' !! a = Some t' → ∃ t, heap !! a = Some t ∧ ti_timerId t' = ti_timerId t) →
  timers' ⊆ timers → (∀ b t, b ∈ slot → heap !! b = Some t → timers' !! ti_timerId t = timers !! ti_timerId t) →
  scan_ok heap' timers' slot.
Proof.
  intros [[Ha Hnd]%list.NoDup_cons Hl Hm] Hh Hat Hsub Ht. split; [done| |].
  - intros b Hb. destruct (Hl b) as (t & Et & Hc); [set_solver|]. exists t. rewrite Hh by set_solver. split; [done|].
    unfold counted. by rewrite (Ht b t).
  - intros id b t' Hb Eb. eapply lookup_weaken in Hb; [|exact Hsub]. destruct (decide (b = a)) as [->|Hne].
    + destruct (Hat t' Eb) as (t & Et & ->). by apply (Hm id a).
    + rewrite Hh in Eb by done. by apply (Hm id b).
Qed.

(** The map forgets the timers that expire, and nothing else. *)
Lemma maintenance_loop_spec heap timers slot :
  scan_ok heap timers slot →
  ∃ h m, maintenance_loop heap timers slot
         = Ret (h, m, List.filter (stays heap) slot, List.filter (expires heap) slot)
    ∧ (∀ b, b ∉ slot → h !! b = heap !! b)
    ∧ (∀ b t, b ∈ slot → heap !! b = Some t → h !! b = settled t)
    ∧ (∀ id b, m !! id = Some b ↔ timers !! id = Some b ∧ b ∉ List.filter (expires heap) slot).
Proof.
  revert heap timers. induction slot as [|a slot IH]; intros heap timers Hok; simpl.
  { exists heap, timers. split; [done|]. split; [done|]. split; [set_solver|]. intros id b. set_solver. }
  pose proof Hok as [[Ha Hnd]%list.NoDup_cons Hl Hm]. destruct (Hl a) as (t & Et & Hc); [set_solver|].
  assert (Hs : stays heap a = negb (ti_removed t) && (1 <? ti_circle t)) by (unfold stays; by rewrite Et).
  assert (He : expires heap a = negb (ti_removed t) && negb (1 <? ti_circle t)) by (unfold expires; by rewrite Et).
  rewrite Hs, He. unfold timer_at at 1. rewrite Et, bind_Ret_l.
  assert (Hrest : ∀ heap' timers', scan_ok heap' timers' slot → (∀ b, b ≠ a → heap' !! b = heap !! b) → heap' !! a = settled t →
    ∃ h m, maintenance_loop heap' timers' slot = Ret (h, m, List.filter (stays heap) slot, List.filter (expires heap) slot)
      ∧ (∀ b, b ∉ a :: slot → h !! b = heap !! b)
      ∧ (∀ b t, b ∈ a :: slot → heap !! b = Some t → h !! b = settled t)
      ∧ (∀ id b, m !! id = Some b ↔ timers' !! id = Some b ∧ b ∉ List.filter (expires heap) slot)).
  { intros heap' timers' Hok' Hh Hat. destruct (IH heap' timers' Hok') as (h & m & E & H1 & H2 & H3).
    destruct (stays_frame heap heap' slot) as [Es Ee]; [intros b Hb; apply Hh; set_solver|]. rewrite Es, Ee in E. rewrite Ee in H3.
    exists h, m. split; [done|]. split; [intros b Hb; rewrite H1 by set_solver; apply Hh; set_solver|]. split; [|done].
    intros b tb [->|Hb]%elem_of_cons Eb; [rewrite H1 by done; congruence|]. apply H2; [done|]. rewrite Hh by set_solver. done. }
  destruct (ti_removed t) eqn:Er; cbn [negb andb].
  - assert (Hone : ti_refs t = mkRefc 1 0).
    { unfold counted in Hc. destruct (timers !! ti_timerId t); [|done]. destruct Hc as (_ & _ & Hr). congruence. }
    rewrite (timer_unref_last heap a t Et Hone), bind_Ret_l.
    destruct (Hrest (delete a heap) timers) as (h & m & E & H); [|intros; by apply lookup_delete_ne|rewrite lookup_delete_eq; unfold settled; by rewrite Er|by exists h, m].
    eapply scan_ok_frame; [exact Hok|intros; by apply lookup_delete_ne|intros t'; by rewrite lookup_delete_eq|done|done].
  - change (if 0 <? ti_circle t then ti_with_circle t (ti_circle t - 1) else t) with (scanned t).
    rewrite scanned_circle. destruct (scanned_same t) as (_ & Eid & _ & _ & Esr & Esc). destruct (1 <? ti_circle t) eqn:Eci; cbn [negb andb].
    + destruct (Hrest (<[a := scanned t]> heap) timers) as (h & m & E & H).
      * eapply scan_ok_frame; [exact Hok|intros; by apply lookup_insert_ne| |done|done].
        intros t'. rewrite lookup_insert_eq. intros [= <-]. by exists t.
      * intros. by apply lookup_insert_ne.
      * rewrite lookup_insert_eq. unfold settled. by rewrite Er, Eci.
      * exists h, m. by rewrite E.
    + assert (Hc' : counted timers a (scanned t)) by (unfold counted in *; rewrite Eid, Esc, Esr, Er; by rewrite Er in Hc).
      rewrite <- Eid. rewrite (expire_refs _ timers a (scanned t)); [|apply lookup_insert_eq|done]. rewrite insert_insert_eq.
      assert (Hkey : ∀ b, timers !! ti_timerId (scanned t) = Some b → b = a).
      { intros b Hb. unfold counted in Hc'. rewrite Hb in Hc'. apply Hc'. }
      destruct (Hrest (<[a := ti_with_refs (scanned t) refcounter_init]> heap) (delete (ti_timerId (scanned t)) timers)) as (h & m & E & H1 & H2 & H3).
      * eapply scan_ok_frame; [exact Hok|intros; by apply lookup_insert_ne| |apply delete_subseteq|].
        { intros t'. rewrite lookup_insert_eq. intros [= <-]. by exists t. }
        intros b tb Hb Eb. destruct (decide (ti_timerId (scanned t) = ti_timerId tb)) as [Heq|]; [|by apply lookup_delete_ne].
        rewrite <- Heq, lookup_delete_eq. destruct (timers !! ti_timerId (scanned t)) as [b'|] eqn:Eq; [|done].
        destruct (Hl b) as (tb' & Eb' & Hcb); [set_solver|]. simplify_eq. unfold counted in Hcb. rewrite <- Heq, Eq in Hcb.
        destruct Hcb as [-> _]. by rewrite (Hkey b eq_refl) in Hb.
      * intros. by apply lookup_insert_ne.
      * rewrite lookup_insert_eq. unfold settled. by rewrite Er, Eci.
      * exists h, m. rewrite E. split; [done|]. split; [done|]. split; [done|]. intros id b. rewrite H3, lookup_delete_Some.
        rewrite not_elem_of_cons. split; [|intros (Hb & Hne & Hnin); split_and!; [intros <-; by apply Hne, Hkey|done|done]]. intros ((Hne & Hb) & Hnin). split_and!; [done| |done].
        intros ->. apply Hne. rewrite Eid. by apply (Hm id a).
Qed.

(** ** What an operation leaves alone *)

(** The wheels turn only at ticks: every other operation keeps this. *)
Definition same_shape (hw hw' : hierarchical_timing_wheel_t) : Prop :=
  ∀ k, tw_position (hw_wheel hw' k) = tw_position (hw_wheel hw k)
       ∧ slots_len hw' k = slots_len hw k ∧ tw_stopped (hw_wheel hw' k) = tw_stopped (hw_wheel hw k)
       ∧ tw_interval (hw_wheel hw' k) = tw_interval (hw_wheel hw k).

#[export] Instance same_shape_preorder : PreOrder same_shape.
Proof.
  split; [by intros hw k|]. intros x y z H1 H2 k. destruct (H1 k) as (? & ? & ? & ?), (H2 k) as (? & ? & ? & ?).
  repeat split; by etrans.
Qed.

(** Timers keep their identity and their work, and removed ones stay removed. *)
Definition same_timers (hw hw' : hierarchical_timing_wheel_t) : Prop :=
  ∀ b t', hw_heap hw' !! b = Some t' →
    ∃ t, hw_heap hw !! b = Some t ∧ ti_work t' = ti_work t ∧ ti_timerId t' = ti_timerId t
      ∧ (ti_removed t' = false → ti_removed t = false).

Lemma wheel_ok_shape hw hw' : same_shape hw hw' → (∀ k, wheel_ok (hw_wheel hw k)) → ∀ k, wheel_ok (hw_wheel hw' k).
Proof.
  intros Hs Hw k. destruct (Hs k) as (E1 & E2 & _). unfold wheel_ok, slots_len in *. rewrite E1, E2. apply Hw.
Qed.

Lemma slot_of_put hw h m l w k i :
  slot_of (hw_put (hw_with hw h m) l w) k i
  = if decide (k = l) then default [] (tw_slots w !! i) else slot_of hw k i.
Proof.
  unfold slot_of. case_decide as Hk; [subst; by rewrite hw_wheel_put_eq|].
  by rewrite hw_wheel_put_ne, hw_wheel_with.
Qed.

Lemma slot_of_range hw l i a : a ∈ slot_of hw l i → (i < length (tw_slots (hw_wheel hw l)))%nat.
Proof.
  unfold slot_of. destruct (_ !! i) eqn:E; simpl; [intros _; by eapply lookup_lt_Some|set_solver].
Qed.

(** ** Scheduling a timer *)

(** The slot and the revolutions a delay of [d] gives on wheel [l]. *)
Definition slot_for (hw : hierarchical_timing_wheel_t) (l : wheel_level) (d : Z) : nat :=
  Z.to_nat (u64 (tw_position (hw_wheel hw l) + d) mod slots_len hw l).
Definition circle_for (hw : hierarchical_timing_wheel_t) (l : wheel_level) (d : Z) : Z :=
  s32 (u64 (d - 1) / slots_len hw l).

(** [hw'] is [hw] with the timer [a], now [t], appended to one slot. *)
Record appended (hw hw' : hierarchical_timing_wheel_t) (l : wheel_level) (p : nat) (a : Z) (t : timer_st) : Prop := {
  app_heap : hw_heap hw' = <[a := t]> (hw_heap hw);
  app_shape : same_shape hw hw';
  app_slots : ∀ k i, slot_of hw' k i = if decide (k = l ∧ i = p) then slot_of hw k i ++ [a] else slot_of hw k i
}.

(** The map and the two counters. *)
Definition same_books (hw hw' : hierarchical_timing_wheel_t) : Prop :=
  hw_timers hw' = hw_timers hw ∧ hw_next_addr hw' = hw_next_addr hw ∧ hw_next_id hw' = hw_next_id hw.

Lemma appended_elem hw hw' l p a t k i b :
  appended hw hw' l p a t → b ∈ slot_of hw' k i ↔ b ∈ slot_of hw k i ∨ (b = a ∧ k = l ∧ i = p).
Proof.
  intros H. rewrite (app_slots _ _ _ _ _ _ H). case_decide; [rewrite elem_of_app, list_elem_of_singleton|]; tauto.
Qed.

(** A timer taken from the list of expired timers, or a new one, possibly entered
    in the map under a new identifier. *)
Definition enters (x0 x : list Z) (hw : hierarchical_timing_wheel_t) (a : Z) : Prop :=
  x0 = a :: x ∨ (x0 = x ∧ hw_heap hw !! a = None).

Definition registers (hw hw' : hierarchical_timing_wheel_t) (a : Z) (t : timer_st) : Prop :=
  (hw_timers hw' = hw_timers hw ∧ hw_timers hw !! ti_timerId t = None ∧ ti_refs t = mkRefc 1 0) ∨
  (hw_timers hw' = <[ti_timerId t := a]> (hw_timers hw) ∧ ti_refs t = mkRefc 2 0 ∧ ti_removed t = false ∧ 0 < ti_timerId t ∧
   ∀ b tb, hw_heap hw !! b = Some tb → ti_timerId tb ≠ ti_timerId t).

Lemma enters_held x0 x hw a :
  hw_wf_but x0 hw → enters x0 x hw a → ¬ scheduled hw a ∧ NoDup x ∧ (a ∉ x) ∧ ∀ b, b ≠ a → b ∈ x0 ↔ b ∈ x.
Proof.
  intros W [->|[-> Ha]]; destruct (wf_held _ W) as [Hnd Hh].
  - apply list.NoDup_cons in Hnd as [Hn Hnd]. split_and!; [apply Hh; set_solver|done|done|set_solver].
  - assert (Hno : ¬ (scheduled hw a ∨ a ∈ x)) by (rewrite <- (wf_alive _ W a), Ha; by intros []).
    split_and!; [tauto|done|tauto|done].
Qed.

Lemma registers_count x0 hw hw' a t b tb :
  hw_wf_but x0 hw → registers hw hw' a t → hw_heap hw !! b = Some tb → b ≠ a →
  counted (hw_timers hw') b tb ∧ hw_timers hw' !! ti_timerId tb = hw_timers hw !! ti_timerId tb.
Proof.
  intros W Hr Eb Hne. pose proof (wf_count _ W b tb Eb) as Hc. destruct Hr as [(-> & _)|(-> & _ & _ & _ & Hnew)]; [done|].
  unfold counted in *. rewrite lookup_insert_ne; [done|]. intros E. by apply (Hnew b tb).
Qed.

Lemma appended_wf x0 x hw hw' l p a t :
  appended hw hw' l p a t → hw_wf_but x0 hw → enters x0 x hw a → registers hw hw' a t → timer_ok t →
  hw_next_addr hw <= hw_next_addr hw' → a < hw_next_addr hw' →
  hw_next_id hw <= hw_next_id hw' < 2 ^ 64 → ti_timerId t < hw_next_id hw' → hw_wf_but x hw'.
Proof.
  intros H Hwf Hent Hreg Hok Hna Ha Hni Hid. destruct (enters_held _ _ _ _ Hwf Hent) as (Hns & Hnd & Hax & Hx).
  assert (He : ∀ k i b, b ∈ slot_of hw' k i ↔ b ∈ slot_of hw k i ∨ (b = a ∧ k = l ∧ i = p))
    by (intros k i b; apply (appended_elem _ _ _ _ _ _ _ _ _ H)).
  assert (Hsa : scheduled hw' a) by (exists l, p; apply He; by right).
  assert (Hsb : ∀ b, b ≠ a → scheduled hw' b ↔ scheduled hw b).
  { intros b Hb. split; intros (k & i & Hi); exists k, i; [apply He in Hi as [Hi|[-> _]]; done|apply He; by left]. }
  assert (Hh : ∀ b, b ≠ a → hw_heap hw' !! b = hw_heap hw !! b) by (intros b Hb; rewrite (app_heap _ _ _ _ _ _ H); by apply lookup_insert_ne).
  assert (Hha : hw_heap hw' !! a = Some t) by (rewrite (app_heap _ _ _ _ _ _ H); apply lookup_insert_eq).
  split.
  - eapply wheel_ok_shape; [apply H|apply Hwf].
  - intros k i. rewrite (app_slots _ _ _ _ _ _ H). case_decide; [|apply Hwf].
    apply list.NoDup_app. split; [apply Hwf|]. split; [|apply list.NoDup_singleton].
    intros b Hb ->%list_elem_of_singleton. apply Hns. by exists k, i.
  - intros k i k' i' b [Hb|(-> & -> & ->)]%He [Hb'|(E & -> & ->)]%He; subst; try done.
    + by eapply (wf_unique _ Hwf).
    + exfalso. apply Hns. by exists k, i.
    + exfalso. apply Hns. by exists k', i'.
  - intros b. destruct (decide (b = a)) as [->|Hb]; [rewrite Hha; split; [by left|done]|].
    rewrite Hh, (Hsb b), (wf_alive _ Hwf b), (Hx b) by done. done.
  - split; [done|]. intros b Hb Hs. assert (Hne : b ≠ a) by set_solver. apply (Hsb b Hne) in Hs.
    by apply (proj2 (wf_held _ Hwf) b); [apply Hx|].
  - intros b tb Eb. destruct (decide (b = a)) as [->|Hb]; [by simplify_eq|]. rewrite Hh in Eb by done.
    destruct (wf_timer _ Hwf b tb Eb) as (? & ? & ?). split_and!; [done|lia|lia].
  - intros b tb Eb. destruct (decide (b = a)) as [->|Hb]; [|rewrite Hh in Eb by done; by apply (registers_count x0 hw hw' a t)].
    simplify_eq. unfold counted. destruct Hreg as [(-> & -> & ?)|(-> & ? & ? & _)]; [done|]. by rewrite lookup_insert_eq.
  - intros id b Hb.
    assert (hw_timers hw !! id = Some b ∨ (b = a ∧ id = ti_timerId t ∧ 0 < id)) as [Hold|(-> & -> & Hpos)].
    { destruct Hreg as [(E & _)|(E & _ & _ & Hp & _)]; rewrite E in Hb; [by left|].
      destruct (decide (id = ti_timerId t)) as [->|]; [rewrite lookup_insert_eq in Hb; by simplify_eq; right|].
      rewrite lookup_insert_ne in Hb by done. by left. }
    + destruct (wf_map _ Hwf _ _ Hold) as (Hp & Hs & tb & Eb & Ei). assert (Hne : b ≠ a) by (intros ->; done).
      split; [done|]. split; [by apply Hsb|]. exists tb. by rewrite Hh.
    + split; [done|]. split; [done|]. by exists t.
  - pose proof (wf_ids _ Hwf). lia.
Qed.

Lemma slot_for_range hw l d : (∀ k, wheel_ok (hw_wheel hw k)) → (slot_for hw l d < length (tw_slots (hw_wheel hw l)))%nat.
Proof.
  intros Hwf. destruct (Hwf l) as [[H0 H1] H2]. unfold slot_for, slots_len, zlen in *.
  pose proof (Z.mod_pos_bound (u64 (tw_position (hw_wheel hw l) + d)) (Z.of_nat (length (tw_slots (hw_wheel hw l))))).
  lia.
Qed.

Lemma ti_with_own_refs t r : ti_refs t = r → ti_with_refs t r = t.
Proof. by intros <-; destruct t. Qed.

(** Putting a timer in a slot, and giving up the reference of who put it there. *)
Lemma set_timer_spec {B} hw l a t d k n (cont : hierarchical_timing_wheel_t → gmap Z timer_st → exec B) :
  (∀ k, wheel_ok (hw_wheel hw k)) → hw_heap hw !! a = Some t → ti_refs t = mkRefc n 0 → 1 <= n < 2 ^ 15 →
  ti_steps t !! ti_current t = Some (d, k) →
  ∃ hw1 heap, (hw1 <- timing_wheel_set_timer hw l a ;; heap <- timer_unref (hw_heap hw1) a ;; cont hw1 heap) = cont hw1 heap
    ∧ appended hw (hw_with hw1 heap (hw_timers hw1)) l (slot_for hw l d) a (ti_with_circle t (circle_for hw l d))
    ∧ same_books hw (hw_with hw1 heap (hw_timers hw1)).
Proof.
  intros Hwf Ha Hr Hn Hd. unfold timing_wheel_set_timer, timer_at. rewrite Ha, bind_Ret_l, Hd.
  destruct (Hwf l) as [[H0 H1] H2].
  destruct (Z.eqb_spec (zlen (tw_slots (hw_wheel hw l))) 0) as [Hz|_]; [lia|].
  fold (slots_len hw l). fold (slot_for hw l d). fold (circle_for hw l d).
  set (t1 := ti_with_circle t (circle_for hw l d)).
  rewrite (timer_ref_ok _ a t1 n), !bind_Ret_l by (apply lookup_insert_eq || done || lia).
  set (hw1 := hw_put _ l _). cbn [hw_heap]. change (hw_heap hw1) with (<[a:=ti_with_refs t1 (mkRefc (n + 1) 0)]> (<[a:=t1]> (hw_heap hw))).
  rewrite (timer_unref_more _ a (ti_with_refs t1 (mkRefc (n + 1) 0)) (n + 1)), bind_Ret_l by (apply lookup_insert_eq || done || lia).
  eexists hw1, _. split; [done|]. rewrite !insert_insert_eq.
  replace (ti_with_refs (ti_with_refs t1 (mkRefc (n + 1) 0)) (mkRefc (n + 1 - 1) 0)) with t1
    by (replace (n + 1 - 1) with n by lia; symmetry; by apply (ti_with_own_refs t1)).
  split; [|done]. unfold hw1. split; [done| |].
  - intros k'. unfold slots_len. rewrite hw_wheel_with. destruct (decide (k' = l)) as [->|].
    + rewrite hw_wheel_put_eq. simpl. unfold zlen. by rewrite length_alter.
    + by rewrite hw_wheel_put_ne, hw_wheel_with.
  - intros k' i. unfold slot_of at 1. rewrite hw_wheel_with. fold (slot_of (hw_put (hw_with hw (<[a:=ti_with_refs t1 (mkRefc (n + 1) 0)]> (<[a:=t1]> (hw_heap hw))) (hw_timers hw)) l
       (tw_with (hw_wheel hw l) (tw_position (hw_wheel hw l)) (alter (fun s => s ++ [a]) (slot_for hw l d) (tw_slots (hw_wheel hw l))))) k' i).
    rewrite slot_of_put. case_decide as Hk; [subst|by rewrite decide_False by tauto]. simpl.
    destruct (decide (i = slot_for hw l d)) as [->|].
    + rewrite list_lookup_alter_eq, decide_True by done. unfold slot_of.
      destruct (lookup_lt_is_Some_2 _ _ (slot_for_range hw l d Hwf)) as [s ->]. done.
    + rewrite list_lookup_alter_ne, decide_False by naive_solver. done.
Qed.

(** ** One turn of a wheel *)

Definition next_pos (hw : hierarchical_timing_wheel_t) (l : wheel_level) : Z :=
  (tw_position (hw_wheel hw l) + 1) mod slots_len hw l.

Lemma next_pos_range {x} hw l : hw_wf_but x hw → 0 <= next_pos hw l < slots_len hw l.
Proof.
  intros Hwf. destruct (wf_wheels _ Hwf l) as [[H0 H1] H2]. apply Z.mod_pos_bound. unfold slots_len. lia.
Qed.

(** The timers due at the next turn. *)
Definition due_now (hw : hierarchical_timing_wheel_t) (l : wheel_level) : list Z :=
  List.filter (expires (hw_heap hw)) (slot_of hw l (Z.to_nat (next_pos hw l))).

Record turned (hw hw' : hierarchical_timing_wheel_t) (l : wheel_level) : Prop := {
  turn_pos : ∀ k, tw_position (hw_wheel hw' k) = if decide (k = l) then next_pos hw l else tw_position (hw_wheel hw k);
  turn_len : ∀ k, slots_len hw' k = slots_len hw k;
  turn_stopped : ∀ k, tw_stopped (hw_wheel hw' k) = tw_stopped (hw_wheel hw k);
  turn_next : hw_next_addr hw' = hw_next_addr hw;
  turn_ids : hw_next_id hw' = hw_next_id hw;
  turn_timers : ∀ id b, hw_timers hw' !! id = Some b ↔ hw_timers hw !! id = Some b ∧ b ∉ due_now hw l;
  turn_heap_out : ∀ b, b ∉ slot_of hw l (Z.to_nat (next_pos hw l)) → hw_heap hw' !! b = hw_heap hw !! b;
  turn_heap_in : ∀ b t, b ∈ slot_of hw l (Z.to_nat (next_pos hw l)) → hw_heap hw !! b = Some t →
    hw_heap hw' !! b = settled t;
  turn_slots : ∀ k i, slot_of hw' k i
    = if decide (k = l ∧ i = Z.to_nat (next_pos hw l)) then List.filter (stays (hw_heap hw)) (slot_of hw k i)
      else slot_of hw k i
}.

(** What survives a turn keeps its identity. *)
Lemma turned_heap hw hw' l b t' :
  hw_wf hw → turned hw hw' l → hw_heap hw' !! b = Some t' →
  ∃ t, hw_heap hw !! b = Some t ∧ ti_work t' = ti_work t ∧ ti_timerId t' = ti_timerId t ∧ ti_steps t' = ti_steps t
       ∧ ti_current t' = ti_current t ∧ ti_removed t' = ti_removed t.
Proof.
  intros Hwf H Eb. destruct (decide (b ∈ slot_of hw l (Z.to_nat (next_pos hw l)))) as [Hb|Hb].
  - destruct (wf_live hw b Hwf) as (t & Et & _); [by eexists _, _|]. rewrite (turn_heap_in _ _ _ H b t Hb Et) in Eb.
    exists t. split; [done|]. by apply settled_same.
  - rewrite (turn_heap_out _ _ _ H b Hb) in Eb. by exists t'.
Qed.

Lemma turned_elem hw hw' l k i b : turned hw hw' l → b ∈ slot_of hw' k i → b ∈ slot_of hw k i.
Proof.
  intros H. rewrite (turn_slots _ _ _ H). case_decide; [|done].
  rewrite !list_elem_of_In. by intros []%List.filter_In.
Qed.

Lemma filter_nodup (f : Z → bool) l : NoDup l → NoDup (List.filter f l).
Proof. rewrite !NoDup_ListNoDup. apply List.NoDup_filter. Qed.

Lemma due_elem hw l b :
  b ∈ due_now hw l ↔ b ∈ slot_of hw l (Z.to_nat (next_pos hw l)) ∧ expires (hw_heap hw) b = true.
Proof. unfold due_now. rewrite list_elem_of_In, List.filter_In, <- list_elem_of_In. done. Qed.

(** What is scheduled after a turn: what was, except what the scan takes out. *)
Lemma turned_scheduled hw hw' l b :
  hw_wf hw → turned hw hw' l →
  scheduled hw' b ↔ scheduled hw b ∧ (b ∈ slot_of hw l (Z.to_nat (next_pos hw l)) → stays (hw_heap hw) b = true).
Proof.
  intros Hwf H. split.
  - intros (k & i & Hi). pose proof (turned_elem _ _ _ _ _ _ H Hi) as Hi0. split; [by exists k, i|]. intros Hb.
    destruct (wf_unique _ Hwf _ _ _ _ _ Hi0 Hb) as [-> ->]. rewrite (turn_slots _ _ _ H), decide_True in Hi by done.
    by apply list_elem_of_In, List.filter_In in Hi as [_ Hi].
  - intros [(k & i & Hi) Hs]. exists k, i. rewrite (turn_slots _ _ _ H). case_decide as Hk; [|done]. destruct Hk as [-> ->].
    apply list_elem_of_In, List.filter_In. split; [by apply list_elem_of_In|by apply Hs].
Qed.

(** What has just expired is no longer scheduled. *)
Lemma due_unscheduled hw hw' l a : hw_wf hw → turned hw hw' l → a ∈ due_now hw l → ¬ scheduled hw' a.
Proof.
  intros Hwf H [Ha He]%due_elem Hs. apply (turned_scheduled hw hw' l a Hwf H) in Hs as [_ Hs]. specialize (Hs Ha).
  unfold stays, expires in *. destruct (hw_heap hw !! a) as [t|]; [|done]. by destruct (ti_removed t), (1 <? ti_circle t).
Qed.

Lemma turned_alive hw hw' l b :
  hw_wf hw → turned hw hw' l → is_Some (hw_heap hw' !! b) ↔ scheduled hw' b ∨ b ∈ due_now hw l.
Proof.
  intros Hwf H. rewrite (turned_scheduled hw hw' l b Hwf H), due_elem.
  destruct (decide (b ∈ slot_of hw l (Z.to_nat (next_pos hw l)))) as [Hb|Hb].
  - assert (Hs : scheduled hw b) by by eexists _, _. destruct (wf_live hw b Hwf Hs) as (t & Et & _).
    rewrite (turn_heap_in _ _ _ H b t Hb Et). unfold stays, expires, settled. rewrite Et.
    destruct (ti_removed t), (1 <? ti_circle t); cbn [negb andb]; split; try (by intros []); naive_solver.
  - rewrite (turn_heap_out _ _ _ H b Hb), (wf_alive _ Hwf b). set_solver.
Qed.

Lemma turned_count hw hw' l b t' :
  hw_wf hw → turned hw hw' l → hw_heap hw' !! b = Some t' → counted (hw_timers hw') b t'.
Proof.
  intros Hwf H Eb. destruct (turned_heap hw hw' l b t' Hwf H Eb) as (t & Et & _ & Ei & _ & _ & Er).
  pose proof (wf_count _ Hwf b t Et) as Hc. unfold counted in *. rewrite Ei, Er.
  assert (Hrefs : b ∉ due_now hw l → ti_refs t' = ti_refs t).
  { intros Hd. destruct (decide (b ∈ slot_of hw l (Z.to_nat (next_pos hw l)))) as [Hb|Hb].
    - rewrite (turn_heap_in _ _ _ H b t Hb Et) in Eb. rewrite due_elem in Hd. unfold expires in Hd. rewrite Et in Hd.
      unfold settled in Eb. destruct (ti_removed t); [done|]. destruct (1 <? ti_circle t); [|exfalso; by apply Hd].
      injection Eb as <-. apply scanned_same.
    - rewrite (turn_heap_out _ _ _ H b Hb) in Eb. congruence. }
  assert (Hinit : b ∈ due_now hw l → ti_refs t' = mkRefc 1 0).
  { intros [Hb He]%due_elem. rewrite (turn_heap_in _ _ _ H b t Hb Et) in Eb. unfold expires in He. rewrite Et in He.
    unfold settled in Eb. destruct (ti_removed t); [done|]. destruct (1 <? ti_circle t); [done|]. by injection Eb as <-. }
  destruct (hw_timers hw' !! ti_timerId t) as [b'|] eqn:E'.
  - apply (turn_timers _ _ _ H) in E' as [E' Hnd]. rewrite E' in Hc. destruct Hc as (-> & Hc & Hr). by rewrite Hrefs.
  - destruct (decide (b ∈ due_now hw l)) as [Hd|Hd]; [by apply Hinit|]. rewrite Hrefs by done.
    destruct (hw_timers hw !! ti_timerId t) as [b'|] eqn:E0; [|done]. destruct Hc as [-> _].
    pose proof (proj2 (turn_timers _ _ _ H (ti_timerId t) b) (conj E0 Hd)). congruence.
Qed.

Lemma turned_wf hw hw' l : hw_wf hw → turned hw hw' l → hw_wf_but (due_now hw l) hw'.
Proof.
  intros Hwf H. split.
  - intros k. unfold wheel_ok. fold (slots_len hw' k). rewrite (turn_len _ _ _ H), (turn_pos _ _ _ H).
    pose proof (next_pos_range hw l Hwf). destruct (wf_wheels _ Hwf k) as [? ?].
    case_decide; subst; [by split|by split].
  - intros k i. rewrite (turn_slots _ _ _ H). case_decide; [apply filter_nodup|]; apply Hwf.
  - intros k i k' i' b Hb%(turned_elem _ _ _ _ _ _ H) Hb'%(turned_elem _ _ _ _ _ _ H).
    by eapply (wf_unique _ Hwf).
  - intros b. by apply turned_alive.
  - split; [apply filter_nodup, Hwf|]. intros a. by apply due_unscheduled.
  - intros b t' Eb. destruct (turned_heap hw hw' l b t' Hwf H Eb) as (t & Et & _ & -> & E1 & E2 & _).
    rewrite (turn_next _ _ _ H), (turn_ids _ _ _ H). unfold timer_ok. rewrite E1, E2. by apply (wf_timer _ Hwf b t).
  - intros b t'. by apply (turned_count hw hw' l).
  - intros id b Hb. apply (turn_timers _ _ _ H) in Hb as [Hb Hnd]. destruct (wf_map _ Hwf _ _ Hb) as (Hp & Hs & t & Et & Ei).
    assert (Hs' : scheduled hw' b).
    { apply (turned_scheduled hw hw' l b Hwf H). split; [done|]. intros Hin. rewrite due_elem in Hnd.
      pose proof (wf_count _ Hwf b t Et) as Hc. unfold counted in Hc. rewrite Ei, Hb in Hc. destruct Hc as (_ & _ & Hr).
      unfold stays, expires in *. rewrite Et, Hr in *. destruct (1 <? ti_circle t); [done|]. exfalso. by apply Hnd. }
    split; [done|]. split; [done|]. destruct (proj2 (turned_alive hw hw' l b Hwf H)) as [t' Et']; [by left|].
    exists t'. split; [done|]. destruct (turned_heap hw hw' l b t' Hwf H Et') as (t0 & Et0 & _ & -> & _). congruence.
  - rewrite (turn_ids _ _ _ H). apply Hwf.
Qed.

Lemma wf_scan hw l i : hw_wf hw → scan_ok (hw_heap hw) (hw_timers hw) (slot_of hw l i).
Proof.
  intros Hwf. split; [apply Hwf| |].
  - intros a Ha. destruct (wf_live hw a Hwf) as (t & Et & _); [by exists l, i|]. exists t. split; [done|]. by apply (wf_count _ Hwf).
  - intros id a t Ha Et. destruct (wf_map _ Hwf _ _ Ha) as (_ & _ & t' & Et' & <-). congruence.
Qed.

Lemma wheel_advance_spec hw l :
  hw_wf hw → ∃ hw', wheel_advance hw l = Ret (hw', due_now hw l) ∧ turned hw hw' l.
Proof.
  intros Hwf. destruct (wf_wheels _ Hwf l) as [[H0 H1] H2]. pose proof (next_pos_range hw l Hwf) as Hp.
  unfold wheel_advance. destruct (Z.eqb_spec (zlen (tw_slots (hw_wheel hw l))) 0) as [Hz|_]; [lia|].
  rewrite u64_id by (unfold is_u64; lia). fold (slots_len hw l). fold (next_pos hw l).
  unfold timing_wheel_maintenance. rewrite hw_wheel_put_eq. simpl.
  assert (Hlt : (Z.to_nat (next_pos hw l) < length (tw_slots (hw_wheel hw l)))%nat)
    by (unfold slots_len, zlen in Hp; lia).
  destruct (lookup_lt_is_Some_2 _ _ Hlt) as [slot Eslot]. rewrite Eslot.
  assert (Es : slot_of hw l (Z.to_nat (next_pos hw l)) = slot) by (unfold slot_of; by rewrite Eslot).
  destruct (maintenance_loop_spec (hw_heap hw) (hw_timers hw) slot) as (h & m & E & G1 & G2 & G3).
  { rewrite <- Es. by apply wf_scan. }
  rewrite E, bind_Ret_l. eexists. split; [unfold due_now; by rewrite Es|].
  set (w' := tw_with _ _ _). set (hw0 := hw_put hw l _). split; try done.
  - intros k. case_decide; [subst; by rewrite hw_wheel_put_eq|].
    unfold hw0. by rewrite hw_wheel_put_ne, hw_wheel_with, hw_wheel_put_ne.
  - intros k. unfold slots_len. destruct (decide (k = l)) as [->|].
    + rewrite hw_wheel_put_eq. simpl. unfold zlen. by rewrite length_insert.
    + unfold hw0. by rewrite hw_wheel_put_ne, hw_wheel_with, hw_wheel_put_ne.
  - intros k. destruct (decide (k = l)) as [->|]; [by rewrite hw_wheel_put_eq|].
    unfold hw0. by rewrite hw_wheel_put_ne, hw_wheel_with, hw_wheel_put_ne.
  - unfold due_now. rewrite Es. exact G3.
  - intros b. rewrite Es. apply G1.
  - intros b t. rewrite Es. apply G2.
  - intros k i. rewrite slot_of_put. case_decide as Hk; [subst k|].
    + simpl. destruct (decide (i = Z.to_nat (next_pos hw l))) as [->|].
      * rewrite list_lookup_insert_eq, decide_True by done. by rewrite Es.
      * rewrite list_lookup_insert_ne, decide_False by naive_solver. done.
    + rewrite decide_False by tauto. unfold slot_of, hw0. by rewrite hw_wheel_put_ne.
Qed.

(** ** Handing over expired timers *)

Lemma slot_of_with hw h m k i : slot_of (hw_with hw h m) k i = slot_of hw k i.
Proof. unfold slot_of. by rewrite hw_wheel_with. Qed.

Lemma scheduled_with hw h m a : scheduled (hw_with hw h m) a ↔ scheduled hw a.
Proof. unfold scheduled. by setoid_rewrite slot_of_with. Qed.

(** The only reference of an expired timer is that of the list. *)
Lemma held_refs a x hw t : hw_wf_but (a :: x) hw → hw_heap hw !! a = Some t → hw_timers hw !! ti_timerId t = None ∧ ti_refs t = mkRefc 1 0.
Proof.
  intros W Et. pose proof (wf_count _ W a t Et) as Hc. unfold counted in Hc. destruct (hw_timers hw !! ti_timerId t) as [b|] eqn:E; [|done].
  destruct Hc as [-> _]. destruct (wf_map _ W _ _ E) as (_ & Hs & _). exfalso. apply (proj2 (wf_held _ W) a); [set_solver|done].
Qed.

(** Giving it up frees the timer. *)
Lemma dropped_wf a x hw : hw_wf_but (a :: x) hw → hw_wf_but x (hw_with hw (delete a (hw_heap hw)) (hw_timers hw)).
Proof.
  intros W. pose proof (wf_held _ W) as [[Ha Hnd]%list.NoDup_cons Hh].
  assert (Hns : ¬ scheduled hw a) by (apply Hh; set_solver). split; cbn [hw_heap hw_timers hw_next_addr hw_next_id hw_with].
  - intros k. rewrite hw_wheel_with. apply W.
  - intros k i. rewrite slot_of_with. apply W.
  - intros l i k j b. rewrite !slot_of_with. apply W.
  - intros b. rewrite scheduled_with. destruct (decide (b = a)) as [->|Hne].
    + rewrite lookup_delete_eq. split; [by intros []|tauto].
    + rewrite lookup_delete_ne, (wf_alive _ W b) by done. set_solver.
  - split; [done|]. intros b Hb. rewrite scheduled_with. apply Hh. set_solver.
  - intros b t [Hne Eb]%lookup_delete_Some. by apply (wf_timer _ W).
  - intros b t [Hne Eb]%lookup_delete_Some. by apply (wf_count _ W).
  - intros id b Hb. destruct (wf_map _ W _ _ Hb) as (Hp & Hs & t & Et & Ei). split; [done|]. rewrite scheduled_with.
    split; [done|]. exists t. rewrite lookup_delete_ne; [done|]. intros ->. done.
  - apply W.
Qed.

(** What is known after [timing_wheel_fire_expired]: the other timers are where
    they were, and the works handed over are those of expired timers. *)
Record fired (hw hw' : hierarchical_timing_wheel_t) (expired : list Z) (works : list wheel_work) : Prop := {
  fired_shape : same_shape hw hw';
  fired_books : same_books hw hw';
  fired_ident : same_timers hw hw';
  fired_heap : ∀ b, b ∉ expired → hw_heap hw' !! b = hw_heap hw !! b;
  fired_slots : ∀ b k i, b ∉ expired → b ∈ slot_of hw' k i ↔ b ∈ slot_of hw k i;
  fired_works : ∀ w, w ∈ works → ∃ b t, b ∈ expired ∧ hw_heap hw !! b = Some t ∧ ti_work t = w;
  fired_last : ∀ b t, b ∈ expired → hw_heap hw !! b = Some t → ti_removed t = false →
    (length (ti_steps t) <= S (ti_current t))%nat → ti_work t ∈ works
}.

Lemma same_books_trans hw1 hw2 hw3 : same_books hw1 hw2 → same_books hw2 hw3 → same_books hw1 hw3.
Proof. intros (? & ? & ?) (? & ? & ?). split_and!; congruence. Qed.

Lemma fired_cons hw hw1 hw' a t expired works works' :
  hw_heap hw !! a = Some t → a ∉ expired →
  same_shape hw hw1 → same_books hw hw1 → same_timers hw hw1 →
  (∀ b, b ≠ a → hw_heap hw1 !! b = hw_heap hw !! b) →
  (∀ b k i, b ≠ a → b ∈ slot_of hw1 k i ↔ b ∈ slot_of hw k i) →
  works' = works ∨ works' = ti_work t :: works →
  (ti_removed t = false → (length (ti_steps t) <= S (ti_current t))%nat → works' = ti_work t :: works) →
  fired hw1 hw' expired works → fired hw hw' (a :: expired) works'.
Proof.
  intros Ha Hna S1 N1 I1 H1 L1 Hw Hlast F. split.
  - etrans; [done|apply F].
  - eapply same_books_trans; [done|apply F].
  - intros b t' Eb. destruct (fired_ident _ _ _ _ F b t' Eb) as (t1 & E1 & W1 & D1 & R1).
    destruct (I1 b t1 E1) as (t2 & E2 & W2 & D2 & R2). exists t2. split; [done|]. split_and!; [by etrans|by etrans|auto].
  - intros b Hb. rewrite (fired_heap _ _ _ _ F) by set_solver. apply H1. set_solver.
  - intros b k i Hb. rewrite (fired_slots _ _ _ _ F) by set_solver. apply L1. set_solver.
  - intros w Hin. assert (w = ti_work t ∨ w ∈ works) as [->|Hin'] by (destruct Hw as [->| ->]; set_solver).
    + exists a, t. set_solver.
    + destruct (fired_works _ _ _ _ F w Hin') as (b & tb & Hb & Eb & Ew). exists b, tb.
      rewrite H1 in Eb by set_solver. set_solver.
  - intros b tb [->|Hb]%elem_of_cons Eb Hr Hl.
    + simplify_eq. rewrite Hlast by done. set_solver.
    + rewrite <- H1 in Eb by set_solver. pose proof (fired_last _ _ _ _ F b tb Hb Eb Hr Hl).
      destruct Hw as [->| ->]; set_solver.
Qed.

Lemma skip_zero_ge steps c : (c <= skip_zero steps c)%nat.
Proof.
  revert c. induction steps as [|[d k] steps IH]; intros c; [done|]. simpl.
  destruct d; [|done|done]. specialize (IH (S c)). lia.
Qed.

(** A fired timer moves to a later step of its plan, or has none left. *)
Definition next_step (t : timer_st) : nat :=
  if (ti_current t <? length (ti_steps t) - 1)%nat
  then skip_zero (drop (S (ti_current t)) (ti_steps t)) (S (ti_current t)) else length (ti_steps t).

(** A timer that leaves: it is freed, and the others are as before. *)
Lemma fired_drop hw hw' a t expired works works' :
  hw_heap hw !! a = Some t → a ∉ expired →
  works' = works ∨ works' = ti_work t :: works →
  (ti_removed t = false → works' = ti_work t :: works) →
  fired (hw_with hw (delete a (hw_heap hw)) (hw_timers hw)) hw' expired works → fired hw hw' (a :: expired) works'.
Proof.
  intros Et Ha Hw Hl F. eapply fired_cons; [exact Et|exact Ha| | | | | |exact Hw|intros Hr _; by apply Hl|exact F].
  - intros k. unfold slots_len. by rewrite hw_wheel_with.
  - done.
  - intros b t' E. cbn in E. apply lookup_delete_Some in E as [_ E]. by exists t'.
  - intros b Hb. by apply lookup_delete_ne.
  - intros b k i _. by rewrite slot_of_with.
Qed.

Lemma fire_expired_spec expired hw :
  hw_wf_but expired hw →
  ∃ hw' works, timing_wheel_fire_expired hw expired = Ret (hw', works) ∧ hw_wf hw' ∧ fired hw hw' expired works.
Proof.
  revert hw. induction expired as [|a expired IH]; intros hw Hwf; simpl.
  { exists hw, []. split; [done|]. split; [done|]. split; try done; try set_solver. intros b t' E. by exists t'. }
  pose proof (wf_held _ Hwf) as [[Ha Hnd]%list.NoDup_cons Hh].
  destruct (proj2 (wf_alive _ Hwf a)) as [t Et]; [right; set_solver|].
  destruct (held_refs a expired hw t Hwf Et) as [Hnm Hone]. pose proof (wf_timer _ Hwf a t Et) as (Hok & Hid & Hna).
  unfold timer_at. rewrite Et, bind_Ret_l. fold (next_step t).
  destruct (IH _ (dropped_wf a expired hw Hwf)) as (hwd & worksd & Ed & Wd & Fd).
  destruct (ti_removed t) eqn:Erm.
  { rewrite (timer_unref_last _ a t Et Hone), bind_Ret_l. exists hwd, worksd. split; [done|]. split; [done|].
    eapply fired_drop; [done|done|by left|congruence|exact Fd]. }
  destruct (ti_steps t !! next_step t) as [[d l]|] eqn:Estep.
  - set (t1 := ti_with_current t (next_step t)). set (hw0 := hw_with hw (<[a := t1]> (hw_heap hw)) (hw_timers hw)).
    destruct (set_timer_spec hw0 l a t1 d l 1 (fun hw1 heap => timing_wheel_fire_expired (hw_with hw1 heap (hw_timers hw1)) expired))
      as (hw1 & heap & E1 & App0 & (B1 & B2 & B3)); [intros k; unfold hw0; rewrite hw_wheel_with; apply Hwf|apply lookup_insert_eq|done|lia|done|].
    rewrite E1. set (hw2 := hw_with hw1 heap (hw_timers hw1)) in *.
    assert (App : appended hw hw2 l (slot_for hw0 l d) a (ti_with_circle t1 (circle_for hw0 l d))).
    { split; [rewrite (app_heap _ _ _ _ _ _ App0); apply insert_insert_eq| |].
      - etrans; [|apply App0]. intros k. unfold slots_len, hw0. by rewrite hw_wheel_with.
      - intros k i. rewrite (app_slots _ _ _ _ _ _ App0). unfold hw0. by rewrite slot_of_with. }
    assert (W1 : hw_wf_but expired hw2).
    { eapply (appended_wf (a :: expired)); [exact App|done|by left| | | | | |].
      - left. rewrite B1. done.
      - unfold timer_ok. cbn. by eapply lookup_lt_Some.
      - rewrite B2. cbn. lia.
      - rewrite B2. done.
      - rewrite B3. cbn. pose proof (wf_ids _ Hwf). lia.
      - rewrite B3. done. }
    destruct (IH hw2 W1) as (hw' & works & E & W & F).
    exists hw', works. split; [done|]. split; [done|].
    eapply (fired_cons hw hw2 hw'); [done|done|apply App|by split_and!| | | |by left| |done].
    + intros b t' E'. rewrite (app_heap _ _ _ _ _ _ App) in E'.
      destruct (decide (b = a)) as [->|]; [|rewrite !lookup_insert_ne in E' by done; by exists t'].
      rewrite lookup_insert_eq in E'. simplify_eq. by exists t.
    + intros b Hb. rewrite (app_heap _ _ _ _ _ _ App). by apply lookup_insert_ne.
    + intros b k i Hb. rewrite (appended_elem _ _ _ _ _ _ _ _ _ App). tauto.
    + intros _ Hl. apply lookup_lt_Some in Estep. unfold next_step in Estep. unfold timer_ok in Hok.
      destruct (Nat.ltb_spec (ti_current t) (length (ti_steps t) - 1)); lia.
  - rewrite (timer_unref_last _ a t Et Hone), bind_Ret_l, Ed, bind_Ret_l. exists hwd, (ti_work t :: worksd). split; [done|]. split; [done|].
    eapply fired_drop; [done|done|by right|done|exact Fd].
Qed.

(** ** The whole tick *)

(** An object and its place are the same in both states. *)
Definition keeps (b : Z) (hw hw' : hierarchical_timing_wheel_t) : Prop :=
  hw_heap hw' !! b = hw_heap hw !! b ∧ ∀ k i, b ∈ slot_of hw' k i ↔ b ∈ slot_of hw k i.

Lemma keeps_trans b hw1 hw2 hw3 : keeps b hw1 hw2 → keeps b hw2 hw3 → keeps b hw1 hw3.
Proof. intros [E1 S1] [E2 S2]. split; [congruence|]. intros k i. by rewrite S2. Qed.

Lemma appended_keeps hw hw' l p a t b : appended hw hw' l p a t → b ≠ a → keeps b hw hw'.
Proof.
  intros H Hb. split; [rewrite (app_heap _ _ _ _ _ _ H); by apply lookup_insert_ne|].
  intros k i. rewrite (appended_elem _ _ _ _ _ _ _ _ _ H). tauto.
Qed.

Lemma next_addr_free {x} hw : hw_wf_but x hw → hw_heap hw !! hw_next_addr hw = None.
Proof. intros Hwf. apply eq_None_not_Some. intros Hs%(wf_fresh hw _ Hwf). lia. Qed.

(** A fresh timer, possibly entered in the map of timers. *)
Definition with_new (hw : hierarchical_timing_wheel_t) (t : timer_st) (m : gmap Z Z) (id : Z)
  : hierarchical_timing_wheel_t :=
  mkWheels (<[hw_next_addr hw := t]> (hw_heap hw)) (hw_next_addr hw + 1) m id (hw_stopped hw) (hw_days hw)
    (hw_hours hw) (hw_minutes hw) (hw_seconds hw) (hw_milliseconds hw).

Lemma with_new_wheel hw t m id k : hw_wheel (with_new hw t m id) k = hw_wheel hw k.
Proof. by destruct k. Qed.

(** Creating and scheduling a timer in one go. *)
Lemma schedule_new {B} x hw t m id l d k n (cont : hierarchical_timing_wheel_t → gmap Z timer_st → exec B) :
  hw_wf_but x hw → ti_steps t !! ti_current t = Some (d, k) → ti_refs t = mkRefc n 0 → 1 <= n < 2 ^ 15 →
  hw_next_id hw <= id < 2 ^ 64 → ti_timerId t < id → registers hw (with_new hw t m id) (hw_next_addr hw) t →
  ∃ hw1 heap,
    (hw1 <- timing_wheel_set_timer (with_new hw t m id) l (hw_next_addr hw) ;;
     heap <- timer_unref (hw_heap hw1) (hw_next_addr hw) ;; cont hw1 heap) = cont hw1 heap ∧
    let hw' := hw_with hw1 heap (hw_timers hw1) in
    hw_wf_but x hw' ∧ appended hw hw' l (slot_for hw l d) (hw_next_addr hw) (ti_with_circle t (circle_for hw l d)) ∧
    hw_timers hw' = m ∧ hw_next_addr hw' = hw_next_addr hw + 1 ∧ hw_next_id hw' = id.
Proof.
  intros Hwf Hd Hr Hn Hni Hti Hreg. set (hw0 := with_new hw t m id).
  destruct (set_timer_spec hw0 l (hw_next_addr hw) t d k n cont) as (hw1 & heap & E & App0 & (B1 & B2 & B3));
    [intros k'; unfold hw0; rewrite with_new_wheel; apply Hwf|apply lookup_insert_eq|done|done|done|].
  exists hw1, heap. split; [done|]. cbv zeta. set (hw' := hw_with hw1 heap (hw_timers hw1)) in *.
  assert (Ec : circle_for hw0 l d = circle_for hw l d) by (unfold circle_for, slots_len, hw0; by rewrite with_new_wheel).
  assert (Es : slot_for hw0 l d = slot_for hw l d) by (unfold slot_for, slots_len, hw0; by rewrite with_new_wheel).
  assert (App : appended hw hw' l (slot_for hw l d) (hw_next_addr hw) (ti_with_circle t (circle_for hw l d))).
  { split; [rewrite (app_heap _ _ _ _ _ _ App0), Ec; apply insert_insert_eq| |].
    - etrans; [|apply App0]. intros k'. unfold slots_len, hw0. by rewrite with_new_wheel.
    - intros k' i. rewrite (app_slots _ _ _ _ _ _ App0), Es. unfold slot_of, hw0. by rewrite with_new_wheel. }
  split; [|done]. eapply (appended_wf x); [exact App|exact Hwf|right; split; [done|by eapply next_addr_free]| | | | | |].
  - unfold registers. rewrite B1. exact Hreg.
  - unfold timer_ok. cbn. by eapply lookup_lt_Some.
  - rewrite B2. cbn. lia.
  - rewrite B2. cbn. lia.
  - rewrite B3. cbn. lia.
  - rewrite B3. exact Hti.
Qed.

Lemma hw_put_id hw l : hw_put hw l (hw_wheel hw l) = hw.
Proof. by destruct hw, l. Qed.

Lemma run_spec {x} hw l :
  hw_wf_but x hw → tw_stopped (hw_wheel hw l) = false →
  ∃ hw' works, timing_wheel_run hw l = Ret (hw', works) ∧ hw_wf_but x hw' ∧ same_shape hw hw'
    ∧ (∀ w, w ∈ works → w = WTick l)
    ∧ (∀ b, b < hw_next_addr hw → keeps b hw hw')
    ∧ (∀ b t', hw_heap hw' !! b = Some t' → hw_heap hw !! b = Some t' ∨ (ti_work t' = WTick l ∧ ti_timerId t' = 0))
    ∧ hw_timers hw' = hw_timers hw ∧ hw_next_id hw' = hw_next_id hw ∧ hw_next_addr hw <= hw_next_addr hw'.
Proof.
  intros Hwf Hst. unfold timing_wheel_run. destruct (lower l) as [below|].
  - unfold hw_alloc. set (t := mkTimer refcounter_init 0 _ _ _ _ _). pose proof (wf_ids _ Hwf) as Hids.
    destruct (schedule_new x hw t (hw_timers hw) (hw_next_id hw) below (tw_interval (hw_wheel hw l)) below 1
      (fun hw2 heap => Ret (hw_with hw2 heap (hw_timers hw2), @nil wheel_work)) Hwf) as (hw1 & heap & E & W & App & B1 & B2 & B3);
      [done|done|lia|lia|cbn; lia| |].
    { left. split_and!; [done| |done]. cbn. destruct (hw_timers hw !! 0) as [b|] eqn:E0; [|done].
      apply (wf_map _ Hwf) in E0 as [H0 _]. lia. }
    unfold with_new in E. rewrite E. eexists _, []. split; [done|]. split; [exact W|]. split; [apply App|].
    split; [set_solver|]. split; [intros b Hb; eapply appended_keeps; [exact App|lia]|]. split; [|split_and!; [done|done|lia]].
    intros b t'. rewrite (app_heap _ _ _ _ _ _ App). destruct (decide (b = hw_next_addr hw)) as [->|].
    + rewrite lookup_insert_eq. intros. simplify_eq. by right.
    + rewrite lookup_insert_ne by done. by left.
  - assert (E : mkWheel (tw_position (hw_wheel hw l)) (tw_slots (hw_wheel hw l)) (tw_interval (hw_wheel hw l)) false
                = hw_wheel hw l) by (destruct (hw_wheel hw l); simpl in *; congruence).
    rewrite E, hw_put_id. eexists hw, _. split; [done|]. split; [done|]. split; [done|].
    split; [by intros w ->%list_elem_of_singleton|]. split; [done|]. split; [by left|]. split_and!; [done|done|lia].
Qed.

(** A turn does not touch timers of other slots. *)
Lemma turned_keeps hw hw' l b :
  turned hw hw' l → b ∉ slot_of hw l (Z.to_nat (next_pos hw l)) → keeps b hw hw'.
Proof.
  intros H Hb. split; [by apply H|]. intros k i. rewrite (turn_slots _ _ _ H). case_decide as Hk; [|done].
  destruct Hk as [-> ->]. rewrite !list_elem_of_In in *. rewrite List.filter_In. tauto.
Qed.

(** What one tick of wheel [l] does: the wheel turns, every due timer with no step
    left has its work handed over, and timers that are not due keep their place. *)
Record ticked (hw hw' : hierarchical_timing_wheel_t) (l : wheel_level) (works : list wheel_work) : Prop := {
  tick_turn : ∃ hw1, turned hw hw1 l ∧ same_shape hw1 hw'
              ∧ ∀ b, is_Some (hw_heap hw !! b) → b ∉ due_now hw l → keeps b hw1 hw';
  tick_works : ∀ ctx, WCallback ctx ∈ works →
    ∃ b t, b ∈ due_now hw l ∧ hw_heap hw !! b = Some t ∧ ti_work t = WCallback ctx ∧ ti_removed t = false;
  tick_last : ∀ b t, b ∈ due_now hw l → hw_heap hw !! b = Some t →
    (length (ti_steps t) <= S (ti_current t))%nat → ti_work t ∈ works;
  tick_ident : ∀ b t', hw_heap hw' !! b = Some t' →
    (∃ t, hw_heap hw !! b = Some t ∧ ti_work t' = ti_work t ∧ ti_timerId t' = ti_timerId t
       ∧ (ti_removed t' = false → ti_removed t = false))
    ∨ ((∃ k, ti_work t' = WTick k) ∧ ti_timerId t' = 0);
  tick_timers : ∀ id b, hw_timers hw' !! id = Some b ↔ hw_timers hw !! id = Some b ∧ b ∉ due_now hw l;
  tick_ids : hw_next_id hw' = hw_next_id hw
}.

Lemma on_tick_spec hw l :
  hw_wf hw → tw_stopped (hw_wheel hw l) = false →
  ∃ hw' works, timing_wheel_on_tick hw l = Ret (hw', works) ∧ hw_wf hw' ∧ ticked hw hw' l works.
Proof.
  intros Hwf Hst. unfold timing_wheel_on_tick. rewrite Hst.
  destruct (wheel_advance_spec hw l Hwf) as (hw1 & E1 & T). rewrite E1, bind_Ret_l.
  pose proof (turned_wf _ _ _ Hwf T) as W1.
  destruct (run_spec hw1 l W1) as (hw2 & ws & E2 & W2 & S2 & Hws & K2 & I2 & M2 & N2 & _); [by rewrite (turn_stopped _ _ _ T)|].
  rewrite E2, bind_Ret_l.
  assert (Hkeep : ∀ b, is_Some (hw_heap hw !! b) → keeps b hw1 hw2).
  { intros b Hb. apply K2. rewrite (turn_next _ _ _ T). by apply (wf_fresh hw b Hwf). }
  assert (Hdue : ∀ b, b ∈ due_now hw l → ∃ t t1, hw_heap hw !! b = Some t ∧ ti_removed t = false
            ∧ hw_heap hw2 !! b = Some t1 ∧ ti_work t1 = ti_work t
            ∧ ti_steps t1 = ti_steps t ∧ ti_current t1 = ti_current t ∧ ti_removed t1 = false).
  { intros b Hb. destruct (proj2 (turned_alive hw hw1 l b Hwf T)) as [t1 Et1]; [by right|].
    destruct (turned_heap hw hw1 l b t1 Hwf T Et1) as (t & Et & ? & _ & ? & ? & Er).
    destruct (Hkeep b) as [K _]; [by rewrite Et|]. apply due_elem in Hb as [_ He]. unfold expires in He. rewrite Et in He.
    exists t, t1. rewrite K. destruct (ti_removed t); [done|]. done. }
  destruct (fire_expired_spec (due_now hw l) hw2 W2) as (hw3 & ws' & E3 & W3 & F).
  rewrite E3, bind_Ret_l. exists hw3, (ws ++ ws'). split; [done|]. split; [done|]. destruct (fired_books _ _ _ _ F) as (M3 & _ & N3). split.
  - exists hw1. split; [done|]. split; [etrans; [done|apply F]|]. intros b Hb Hnd.
    eapply keeps_trans; [by apply Hkeep|]. split; [by apply (fired_heap _ _ _ _ F)|]. intros. by apply (fired_slots _ _ _ _ F).
  - intros ctx [Hw|Hw]%elem_of_app; [by apply Hws in Hw|].
    destruct (fired_works _ _ _ _ F _ Hw) as (b & t2 & Hb & Et2 & Ew).
    destruct (Hdue b Hb) as (t & t1 & Et & Hrt & Eh & Ewk & _).
    exists b, t. split; [done|]. split; [done|]. rewrite <- Ewk. simplify_eq. done.
  - intros b t Hb Et Hl. destruct (Hdue b Hb) as (t0 & t1 & Et0 & _ & Eh & Ewk & Es & Ec & Er).
    simplify_eq. rewrite <- Ewk. apply elem_of_app. right.
    apply (fired_last _ _ _ _ F b t1); [done|done|done|]. by rewrite Es, Ec.
  - intros b t' Et'. destruct (fired_ident _ _ _ _ F b t' Et') as (t2 & Et2 & Ew2 & Ed2 & Er2).
    destruct (I2 b t2 Et2) as [Et1|[Ew1 Ed1]]; [|right; split; [exists l|]; congruence].
    destruct (turned_heap hw hw1 l b t2 Hwf T Et1) as (t & Et & Ew1 & Ed1 & _ & _ & Er1). left. exists t. split; [done|].
    split; [congruence|]. split; [congruence|]. intros H. rewrite <- Er1. auto.
  - intros id b. rewrite M3, M2. apply (turn_timers _ _ _ T).
  - by rewrite N3, N2, (turn_ids _ _ _ T).
Qed.

(** ** Sequences of operations *)

(** What happens to a running hierarchy: ticks of its wheels, in any order, and
    timers set and cancelled. *)
Inductive wheel_op :=
| OpTick (l : wheel_level)
| OpSet (ctx : Z) (delay : timer_duration_t)
| OpCancel (id : Z).

Definition hw_step (hw : hierarchical_timing_wheel_t) (op : wheel_op)
  : exec (hierarchical_timing_wheel_t * list wheel_work) :=
  match op with
  | OpTick l => timing_wheel_on_tick hw l
  | OpSet ctx delay => '(_, hw') <- hierarchical_timing_wheel_set_timer hw ctx delay ;; Ret (hw', [])
  | OpCancel id => hw' <- hierarchical_timing_wheel_cancel_timer hw id ;; Ret (hw', [])
  end.

Fixpoint run_ops (hw : hierarchical_timing_wheel_t) (ops : list wheel_op)
  : exec (hierarchical_timing_wheel_t * list wheel_work) :=
  match ops with
  | [] => Ret (hw, [])
  | op :: ops' =>
      '(hw1, w1) <- hw_step hw op ;;
      '(hw2, w2) <- run_ops hw1 ops' ;;
      Ret (hw2, w1 ++ w2)
  end.

Definition running (hw : hierarchical_timing_wheel_t) : Prop := ∀ l, tw_stopped (hw_wheel hw l) = false.

Definition is_set (op : wheel_op) : bool := match op with OpSet _ _ => true | _ => false end.

(** The timers set in a sequence of operations.  Identifiers are not reused while
    the 64-bit counter does not run over. *)
Definition settings (ops : list wheel_op) : Z := zlen (List.filter is_set ops).

Definition ids_left (hw : hierarchical_timing_wheel_t) (ops : list wheel_op) : Prop := hw_next_id hw + settings ops < 2 ^ 64.

Lemma settings_cons op ops : settings (op :: ops) = (if is_set op then 1 else 0) + settings ops.
Proof. unfold settings, zlen. simpl. destruct (is_set op); simpl; lia. Qed.

Lemma settings_app ops1 ops2 : settings (ops1 ++ ops2) = settings ops1 + settings ops2.
Proof. unfold settings. by rewrite List.filter_app, zlen_app. Qed.

Lemma settings_nonneg ops : 0 <= settings ops.
Proof. unfold settings, zlen. lia. Qed.

(** Setting a timer: a fresh object with two references, in the slot of its first
    step. *)
Lemma hierarchical_set_spec hw ctx delay :
  hw_wf hw → hw_next_id hw + 1 < 2 ^ 64 →
  let plan := timer_plan (timer_duration_rectify delay) in
  ∃ d l hw', head plan = Some (d, l)
    ∧ hierarchical_timing_wheel_set_timer hw ctx delay = Ret (hw_next_id hw, hw') ∧ hw_wf hw' ∧ same_shape hw hw'
    ∧ hw_heap hw' = <[hw_next_addr hw := mkTimer (mkRefc 2 0) (hw_next_id hw) plan 0 (WCallback ctx) false (circle_for hw l d)]>
                      (hw_heap hw)
    ∧ hw_next_addr hw ∈ slot_of hw' l (slot_for hw l d)
    ∧ (∀ b, is_Some (hw_heap hw !! b) → keeps b hw hw')
    ∧ hw_timers hw' = <[hw_next_id hw := hw_next_addr hw]> (hw_timers hw) ∧ hw_next_id hw' = hw_next_id hw + 1.
Proof.
  intros Hwf Hlim plan. pose proof (wf_ids _ Hwf) as Hids. destruct plan as [|[d l] rest] eqn:Ep.
  { exfalso. subst plan. unfold timer_plan in Ep. repeat case_match; discriminate. }
  set (t := mkTimer (mkRefc 2 0) (hw_next_id hw) ((d, l) :: rest) 0 (WCallback ctx) false 0).
  set (m := <[hw_next_id hw := hw_next_addr hw]> (hw_timers hw)).
  destruct (schedule_new [] hw t m (hw_next_id hw + 1) l d l 2
    (fun hw3 heap => t <- timer_at heap (hw_next_addr hw) ;; Ret (ti_timerId t, hw_with hw3 heap (hw_timers hw3))) Hwf)
    as (hw1 & heap & E & W & App & B1 & B2 & B3); [done|done|lia|lia|cbn; lia| |].
  { right. split_and!; [done|done|done|cbn; lia|]. intros b tb Eb. destruct (wf_timer _ Hwf b tb Eb) as (_ & Hlt & _). cbn. lia. }
  cbv zeta in W, App, B1, B2, B3. set (hw' := hw_with hw1 heap (hw_timers hw1)) in *.
  pose proof (app_heap _ _ _ _ _ _ App) as Hh. change (hw_heap hw') with heap in Hh.
  assert (Ht : timer_at heap (hw_next_addr hw) = Ret (ti_with_circle t (circle_for hw l d)))
    by (unfold timer_at; by rewrite Hh, lookup_insert_eq).
  exists d, l, hw'. split; [done|]. split; [|split; [done|split; [apply App|split; [exact Hh|split; [|split; [|done]]]]]].
  - unfold hierarchical_timing_wheel_set_timer. fold plan. rewrite Ep. cbn [hw_alloc].
    rewrite (timer_ref_ok _ (hw_next_addr hw) (mkTimer refcounter_init (hw_next_id hw) ((d, l) :: rest) 0 (WCallback ctx) false 0) 1), bind_Ret_l
      by (apply lookup_insert_eq || done || lia).
    cbn [hw_heap hw_next_addr hw_timers hw_stopped hw_days hw_hours hw_minutes hw_seconds hw_milliseconds].
    rewrite insert_insert_eq, u64_id by (unfold is_u64; lia). change (mkRefc (1 + 1) 0) with (mkRefc 2 0).
    etrans; [exact E|]. by rewrite Ht.
  - rewrite (appended_elem _ _ _ _ _ _ _ _ _ App). by right.
  - intros b Hb. eapply appended_keeps; [exact App|]. intros ->. by rewrite (next_addr_free hw Hwf) in Hb; destruct Hb.
Qed.

(** A timer that leaves the map keeps the reference of its slot. *)
Lemma unmapped_wf hw id a t :
  hw_wf hw → hw_timers hw !! id = Some a → hw_heap hw !! a = Some t →
  hw_wf (hw_with hw (<[a := ti_with_refs (ti_with_removed t) (mkRefc 1 0)]> (hw_heap hw)) (delete id (hw_timers hw))).
Proof.
  intros W Em Et. set (t' := ti_with_refs _ _). destruct (wf_map _ W _ _ Em) as (Hp & Hs & t0 & Et0 & Ei). rewrite Et in Et0. injection Et0 as <-.
  assert (Hh : ∀ b tb, <[a := t']> (hw_heap hw) !! b = Some tb →
    ∃ tb0, hw_heap hw !! b = Some tb0 ∧ ti_timerId tb = ti_timerId tb0 ∧ timer_ok tb = timer_ok tb0 ∧ (b ≠ a → tb = tb0)).
  { intros b tb Eb. destruct (decide (b = a)) as [->|Hne].
    - rewrite lookup_insert_eq in Eb. injection Eb as <-. by exists t.
    - rewrite lookup_insert_ne in Eb by done. by exists tb. }
  assert (Hkey : ∀ b tb, hw_heap hw !! b = Some tb → b ≠ a → ti_timerId tb ≠ id).
  { intros b tb Eb Hne Heq. pose proof (wf_count _ W b tb Eb) as Hc. unfold counted in Hc. rewrite Heq, Em in Hc. by destruct Hc as [-> _]. }
  split; cbn [hw_heap hw_timers hw_next_addr hw_next_id hw_with].
  - intros k. rewrite hw_wheel_with. apply W.
  - intros k i. rewrite slot_of_with. apply W.
  - intros l i k j b. rewrite !slot_of_with. apply W.
  - intros b. rewrite scheduled_with, <- (wf_alive _ W b). destruct (decide (b = a)) as [->|Hne].
    + rewrite lookup_insert_eq, Et. by split.
    + by rewrite lookup_insert_ne.
  - split; [constructor|]. intros b Hb. by apply elem_of_nil in Hb.
  - intros b tb Eb. destruct (Hh b tb Eb) as (tb0 & Eb0 & -> & -> & _). by apply (wf_timer _ W).
  - intros b tb Eb. destruct (decide (b = a)) as [->|Hne].
    + rewrite lookup_insert_eq in Eb. injection Eb as <-. unfold counted, t'. cbn [ti_timerId ti_with_refs ti_with_removed ti_refs].
      by rewrite Ei, lookup_delete_eq.
    + rewrite lookup_insert_ne in Eb by done. pose proof (wf_count _ W b tb Eb) as Hc. unfold counted in *.
      rewrite lookup_delete_ne by (intros Heq; by apply (Hkey b tb)). done.
  - intros id' b [Hne Hb]%lookup_delete_Some. destruct (wf_map _ W _ _ Hb) as (Hp' & Hs' & tb & Eb & Eib). rewrite scheduled_with.
    split; [done|]. split; [done|]. exists tb. rewrite lookup_insert_ne; [done|]. intros <-. congruence.
  - apply W.
Qed.

Lemma mapped_refs {x} hw id a t : hw_wf_but x hw → hw_timers hw !! id = Some a → hw_heap hw !! a = Some t → ti_refs t = mkRefc 2 0.
Proof.
  intros W Em Et. destruct (wf_map _ W _ _ Em) as (_ & _ & t0 & Et0 & Ei). rewrite Et in Et0. injection Et0 as <-.
  pose proof (wf_count _ W a t Et) as Hc. unfold counted in Hc. rewrite Ei, Em in Hc. apply Hc.
Qed.

(** What cancelling a timer of the map leaves. *)
Lemma cancel_mapped hw id a :
  hw_wf hw → hw_timers hw !! id = Some a →
  ∃ t, hw_heap hw !! a = Some t ∧ ti_timerId t = id ∧
    hierarchical_timing_wheel_cancel_timer hw id
    = Ret (hw_with hw (<[a := ti_with_refs (ti_with_removed t) (mkRefc 1 0)]> (hw_heap hw)) (delete id (hw_timers hw))).
Proof.
  intros W Em. destruct (wf_map _ W _ _ Em) as (_ & _ & t & Et & Ei). exists t. split; [done|]. split; [done|].
  unfold hierarchical_timing_wheel_cancel_timer. rewrite Em. unfold timer_at. rewrite Et, bind_Ret_l.
  rewrite (timer_unref_more _ a (ti_with_removed t) 2), bind_Ret_l by (apply lookup_insert_eq || (cbn; by eapply mapped_refs) || lia).
  by rewrite insert_insert_eq.
Qed.

(** Cancelling touches only the timer the map holds under the id. *)
Lemma cancel_spec hw id :
  hw_wf hw →
  ∃ hw', hierarchical_timing_wheel_cancel_timer hw id = Ret hw' ∧ hw_wf hw' ∧ same_shape hw hw' ∧ same_timers hw hw'
    ∧ (∀ b t, hw_heap hw !! b = Some t → ti_timerId t ≠ id → keeps b hw hw')
    ∧ hw_timers hw' = delete id (hw_timers hw) ∧ hw_next_id hw' = hw_next_id hw.
Proof.
  intros Hwf. destruct (hw_timers hw !! id) as [a|] eqn:Em.
  - destruct (cancel_mapped hw id a Hwf Em) as (t & Et & Hid & E). eexists. split; [exact E|].
    split; [by apply unmapped_wf|]. split; [|split; [|split; [|done]]].
    + intros k. unfold slots_len. by rewrite hw_wheel_with.
    + intros b t'. simpl. destruct (decide (b = a)) as [->|].
      * rewrite lookup_insert_eq. intros. simplify_eq. by exists t.
      * rewrite lookup_insert_ne by done. intros. by exists t'.
    + intros b tb Eb Hne. split.
      * simpl. apply lookup_insert_ne. intros ->. congruence.
      * intros k i. by rewrite slot_of_with.
  - exists hw. unfold hierarchical_timing_wheel_cancel_timer. rewrite Em. split; [done|]. split; [done|]. split; [done|].
    split; [intros b t E; by exists t|]. split; [done|]. split; [|done]. by rewrite delete_id.
Qed.

(** The initial hierarchy is well-formed and running. *)
Lemma create_wf n : (0 < n)%nat → Z.of_nat n < 2 ^ 32 →
  hw_wf (hierarchical_timing_wheel_create n) ∧ running (hierarchical_timing_wheel_create n).
Proof.
  intros H0 Hn. assert (Hs : ∀ l i, slot_of (hierarchical_timing_wheel_create n) l i = []).
  { intros l i. unfold slot_of. destruct l; simpl;
      (destruct (replicate n [] !! i) eqn:E; [by apply lookup_replicate in E as [-> _]|done]). }
  split; [|by intros []]. split.
  - intros l. unfold wheel_ok, zlen. destruct l; simpl; rewrite length_replicate, u64_id by (unfold is_u64; lia); lia.
  - intros l i. rewrite Hs. apply base.NoDup_nil_2.
  - intros l i k j a. rewrite Hs. set_solver.
  - intros a. simpl. rewrite lookup_empty. split; [by intros []|]. intros [(l & i & Hi)|Hi]; [rewrite Hs in Hi|]; by apply elem_of_nil in Hi.
  - split; [constructor|]. intros a Ha. by apply elem_of_nil in Ha.
  - intros a t. simpl. by rewrite lookup_empty.
  - intros a t. simpl. by rewrite lookup_empty.
  - intros id a. simpl. by rewrite lookup_empty.
  - cbn. lia.
Qed.

(** ** When a timer fires *)

Definition remaining (hw : hierarchical_timing_wheel_t) (l : wheel_level) (p : nat) (c : Z) : Z :=
  (Z.of_nat p - tw_position (hw_wheel hw l) - 1) mod slots_len hw l + slots_len hw l * (Z.max c 1 - 1) + 1.

(** Timer [a] waits on wheel [l], [r] ticks before it is handed over. *)
Definition waits (hw : hierarchical_timing_wheel_t) (l : wheel_level) (a : Z) (t : timer_st) (r : Z) : Prop :=
  ∃ p c, a ∈ slot_of hw l p ∧ hw_heap hw !! a = Some (ti_with_circle t c) ∧ remaining hw l p c = r.

(** A timer that can still expire with the work [w]. *)
Definition armed (hw : hierarchical_timing_wheel_t) (w : wheel_work) (b : Z) : Prop :=
  scheduled hw b ∧ ∃ t, hw_heap hw !! b = Some t ∧ ti_work t = w ∧ ti_removed t = false.

(** No timer other than [a] can. *)
Definition sole (hw : hierarchical_timing_wheel_t) (w : wheel_work) (a : Z) : Prop := ∀ b, armed hw w b → b = a.

Lemma due_armed hw l b t : b ∈ due_now hw l → hw_heap hw !! b = Some t → ti_removed t = false → armed hw (ti_work t) b.
Proof.
  intros Hd Et Hr. apply list_elem_of_In, List.filter_In in Hd as [Hd _]. apply list_elem_of_In in Hd.
  split; [by eexists _, _|by exists t].
Qed.

(** No operation arms a callback that was not armed, except setting it. *)
Lemma ticked_armed hw hw' l works ctx b : ticked hw hw' l works → armed hw' (WCallback ctx) b → armed hw (WCallback ctx) b.
Proof.
  intros [(hw1 & T & _ & K) _ _ Hid] ((k & i & Hi) & t' & Et' & Ew & Hr).
  destruct (Hid b t' Et') as [(t & Et & Ewt & _ & Hrt)|[[k' Ek] _]]; [|congruence].
  destruct (decide (b ∈ due_now hw l)) as [Hd|Hnd]; [by rewrite <- Ew, Ewt; eapply due_armed; auto|].
  destruct (K b) as [_ Ks]; [by rewrite Et|done|]. apply Ks in Hi. split; [exists k, i; by eapply turned_elem|].
  exists t. split_and!; [done|congruence|auto].
Qed.

Lemma set_armed hw hw' ctx ctx' delay id b :
  hw_wf hw → hw_next_id hw + 1 < 2 ^ 64 → hierarchical_timing_wheel_set_timer hw ctx' delay = Ret (id, hw') → armed hw' (WCallback ctx) b →
  armed hw (WCallback ctx) b ∨ (ctx' = ctx ∧ b = hw_next_addr hw).
Proof.
  intros W Hn E ((k & i & Hi) & t & Et & Ew & Hr).
  destruct (hierarchical_set_spec hw ctx' delay W Hn) as (d & l & hw2 & _ & E2 & _ & _ & Hh & _ & K & _).
  rewrite E in E2. injection E2 as -> ->. rewrite Hh in Et. destruct (decide (b = hw_next_addr hw)) as [->|Hne].
  - rewrite lookup_insert_eq in Et. injection Et as <-. injection Ew as <-. by right.
  - rewrite lookup_insert_ne in Et by done. left. destruct (K b) as [_ Ks]; [by rewrite Et|]. apply Ks in Hi.
    split; [by exists k, i|by exists t].
Qed.

Lemma cancel_armed hw hw' w id b :
  hw_wf hw → hierarchical_timing_wheel_cancel_timer hw id = Ret hw' → armed hw' w b →
  armed hw w b ∧ hw_timers hw !! id ≠ Some b.
Proof.
  intros W E ((k & i & Hi) & t' & Et' & Ew & Hr). destruct (hw_timers hw !! id) as [a|] eqn:Em.
  - destruct (cancel_mapped hw id a W Em) as (t & Et & _ & E2). rewrite E in E2. injection E2 as ->.
    cbn in Et'. rewrite slot_of_with in Hi. destruct (decide (b = a)) as [->|Hne].
    + rewrite lookup_insert_eq in Et'. injection Et' as <-. done.
    + rewrite lookup_insert_ne in Et' by done. split; [|congruence]. split; [by exists k, i|by exists t'].
  - unfold hierarchical_timing_wheel_cancel_timer in E. rewrite Em in E. injection E as <-. split; [|done]. split; [by exists k, i|by exists t'].
Qed.

Lemma keeps_waits hw hw' l a t r :
  keeps a hw hw' → tw_position (hw_wheel hw' l) = tw_position (hw_wheel hw l) → slots_len hw' l = slots_len hw l →
  waits hw l a t r → waits hw' l a t r.
Proof.
  intros [E S] Ep El (p & c & Hin & Ea & Er). exists p, c.
  split; [by apply S|]. split; [by rewrite E|]. unfold remaining. by rewrite Ep, El.
Qed.

(** The distance to a slot counts down as the wheel turns. *)
Lemma distance_turn n pos p :
  0 <= pos < n → 0 <= p < n →
  ((p - pos - 1) mod n = 0 ↔ p = (pos + 1) mod n)
  ∧ ((p - pos - 1) mod n ≠ 0 → (p - (pos + 1) mod n - 1) mod n = (p - pos - 1) mod n - 1).
Proof.
  intros Hpos Hp.
  assert (E1 : (pos + 1) mod n = if pos + 1 =? n then 0 else pos + 1).
  { destruct (Z.eqb_spec (pos + 1) n) as [->|]; [apply Z_mod_same_full|apply Z.mod_small; lia]. }
  assert (E2 : ∀ x, - n <= x < n → x mod n = if x <? 0 then x + n else x).
  { intros x Hx. destruct (Z.ltb_spec x 0); [|apply Z.mod_small; lia].
    symmetry. apply Z.mod_unique with (-1); lia. }
  rewrite E1. rewrite !E2 by (destruct (pos + 1 =? n) eqn:?; lia).
  destruct (Z.eqb_spec (pos + 1) n); repeat case_match; lia.
Qed.

(** A turn of its wheel brings a waiting timer one tick closer, or expires it. *)
Lemma turn_waits hw hw' l a t r :
  hw_wf hw → turned hw hw' l → ti_removed t = false → waits hw l a t r →
  (r = 1 ∧ a ∈ due_now hw l) ∨ (1 < r ∧ (a ∉ due_now hw l) ∧ waits hw' l a t (r - 1)).
Proof.
  intros Hwf T Hr (p & c & Hin & Ea & Er).
  pose proof (next_pos_range hw l Hwf) as Hnp. destruct (wf_wheels _ Hwf l) as [Hpos _]. fold (slots_len hw l) in Hpos.
  pose proof (slot_of_range _ _ _ _ Hin) as Hp.
  assert (Hp' : 0 <= Z.of_nat p < slots_len hw l) by (unfold slots_len, zlen; lia).
  destruct (distance_turn _ _ _ Hpos Hp') as [D0 D1]. fold (next_pos hw l) in D0, D1.
  unfold remaining in Er. set (x := (Z.of_nat p - tw_position (hw_wheel hw l) - 1) mod slots_len hw l) in *.
  assert (Hx : 0 <= x < slots_len hw l) by (apply Z.mod_pos_bound; lia).
  assert (Hexp : expires (hw_heap hw) a = negb (1 <? c)) by (unfold expires; rewrite Ea; simpl; by rewrite Hr).
  assert (Hst : stays (hw_heap hw) a = (1 <? c)) by (unfold stays; rewrite Ea; simpl; by rewrite Hr).
  destruct (decide (x = 0)) as [H0|Hne].
  - apply D0 in H0 as Hpp. assert (Epos : Z.to_nat (next_pos hw l) = p) by lia.
    destruct (Z.ltb_spec 1 c) as [Hc|Hc].
    + right. split; [nia|]. split.
      { intros Hd. apply list_elem_of_In, List.filter_In in Hd as [_ Hd]. by rewrite Hexp in Hd. }
      exists p, (c - 1). split; [|split].
      * rewrite (turn_slots _ _ _ T), decide_True by done.
        apply list_elem_of_In, List.filter_In. split; [by apply list_elem_of_In|done].
      * rewrite (turn_heap_in _ _ _ T a _ ltac:(by rewrite Epos) Ea). unfold settled, scanned. cbn [ti_removed ti_circle ti_with_circle]. rewrite Hr.
        rewrite (proj2 (Z.ltb_lt 1 c)), (proj2 (Z.ltb_lt 0 c)) by lia. done.
      * unfold remaining. rewrite (turn_pos _ _ _ T), (turn_len _ _ _ T), decide_True by done.
        replace (Z.of_nat p - next_pos hw l - 1) with (-1) by lia.
        rewrite <- (Z.mod_unique (-1) (slots_len hw l) (-1) (slots_len hw l - 1)) by lia. nia.
    + left. split; [nia|]. apply list_elem_of_In, List.filter_In. rewrite Epos.
      split; [by apply list_elem_of_In|done].
  - assert (Hnot : a ∉ slot_of hw l (Z.to_nat (next_pos hw l))).
    { intros Hin'. destruct (wf_unique _ Hwf _ _ _ _ _ Hin Hin') as [_ ->]. apply Hne, D0. lia. }
    right. split; [nia|]. split.
    { intros Hd. apply list_elem_of_In, List.filter_In in Hd as [Hd _]. by apply list_elem_of_In in Hd. }
    destruct (turned_keeps _ _ _ a T Hnot) as [K1 K2]. exists p, c. split; [by apply K2|]. split; [by rewrite K1|].
    unfold remaining. rewrite (turn_pos _ _ _ T), (turn_len _ _ _ T), decide_True by done. rewrite D1 by done. lia.
Qed.

(** Operations that do not concern the timer with work [WCallback ctx] and
    identity [id]. *)
Definition unrelated (ctx id : Z) (op : wheel_op) : Prop :=
  match op with
  | OpTick _ => True
  | OpSet ctx' _ => ctx' ≠ ctx
  | OpCancel id' => id' ≠ id
  end.

Definition is_tick (l : wheel_level) (op : wheel_op) : bool :=
  match op with OpTick k => bool_decide (k = l) | _ => false end.

(** The ticks of wheel [l] in a sequence of operations. *)
Definition ticks (l : wheel_level) (ops : list wheel_op) : Z := zlen (List.filter (is_tick l) ops).

Record waiting (hw : hierarchical_timing_wheel_t) (l : wheel_level) (a : Z) (t : timer_st) (ctx r : Z) : Prop := {
  wg_wf : hw_wf hw;
  wg_run : running hw;
  wg_waits : waits hw l a t r;
  wg_sole : sole hw (WCallback ctx) a;
  wg_removed : ti_removed t = false;
  wg_work : ti_work t = WCallback ctx
}.

Lemma running_shape hw hw' : same_shape hw hw' → running hw → running hw'.
Proof. intros Hs Hr l. destruct (Hs l) as (_ & _ & -> & _). apply Hr. Qed.

Lemma waits_live hw l a t r : waits hw l a t r → is_Some (hw_heap hw !! a).
Proof. intros (p & c & _ & E & _). by rewrite E. Qed.

Lemma step_keeps_waiting hw hw' l a t ctx r :
  waiting hw l a t ctx r → hw_wf hw' → same_shape hw hw' → keeps a hw hw' → sole hw' (WCallback ctx) a →
  waiting hw' l a t ctx r.
Proof.
  intros [W R Wt So Hr Hw] W' Hs K So'. destruct (Hs l) as (Ep & El & _). split; [done| |  |done|done|done].
  - by eapply running_shape.
  - by eapply keeps_waits.
Qed.

(** One operation: the timer's wheel ticks and it comes one tick closer or is
    handed over; anything else leaves it waiting. *)
Lemma step_waiting hw l a t ctx r op :
  waiting hw l a t ctx r → ids_left hw [op] → unrelated ctx (ti_timerId t) op →
  ∃ hw' works, hw_step hw op = Ret (hw', works) ∧ hw_next_id hw' = hw_next_id hw + settings [op]
    ∧ if is_tick l op && (r =? 1)
      then (length (ti_steps t) <= S (ti_current t))%nat → WCallback ctx ∈ works
      else (WCallback ctx ∉ works) ∧ waiting hw' l a t ctx (if is_tick l op then r - 1 else r).
Proof.
  intros Wg Hn Hu. pose proof Wg as [W R Wt So Hr Hw]. unfold ids_left in Hn. rewrite settings_cons in *. change (settings []) with 0 in *. destruct op as [k|ctx' delay|id]; simpl in *.
  - destruct (on_tick_spec hw k W (R k)) as (hw' & works & E & W' & Tk). pose proof Tk as [(hw1 & T & S1 & K) Hworks Hlast _ _ Hni].
    exists hw', works. split; [done|]. split; [lia|].
    assert (Hlive : is_Some (hw_heap hw !! a)) by by eapply waits_live.
    assert (So' : sole hw' (WCallback ctx) a) by (intros b Hb; apply So; by eapply ticked_armed).
    assert (R' : running hw').
    { eapply running_shape; [done|]. intros l'. by rewrite (turn_stopped _ _ _ T). }
    assert (Hnw : a ∉ due_now hw k → WCallback ctx ∉ works).
    { intros Hnd Hin. destruct (Hworks ctx Hin) as (b & t0 & Hb & E0 & Ew & Hr0). apply Hnd. rewrite <- (So b); [done|].
      rewrite <- Ew. by eapply due_armed. }
    case_bool_decide as Hk; simpl; [subst k|].
    + destruct (turn_waits hw hw1 l a t r W T Hr Wt) as [[-> Hd]|(Hgt & Hnd & Wt')].
      * intros Hl. destruct Wt as (p & c & _ & Ea & _). rewrite <- Hw. by apply (Hlast a (ti_with_circle t c)).
      * destruct (Z.eqb_spec r 1); [lia|]. split; [by apply Hnw|].
        destruct (S1 l) as (Ep & El & _). split; [done|done| |done|done|done].
        eapply keeps_waits; [by apply K|done|done|done].
    + assert (Hns : a ∉ slot_of hw k (Z.to_nat (next_pos hw k))).
      { intros Hin'. destruct Wt as (p & c & Hin & _). by destruct (wf_unique _ W _ _ _ _ _ Hin Hin') as [-> _]. }
      assert (Hnd : a ∉ due_now hw k).
      { intros Hd. apply list_elem_of_In, List.filter_In in Hd as [Hd _]. by apply list_elem_of_In in Hd. }
      split; [by apply Hnw|]. destruct (S1 l) as (Ep & El & _). split; [done|done| |done|done|done].
      eapply keeps_waits; [|  | |exact Wt].
      * eapply keeps_trans; [by apply (turned_keeps _ _ _ _ T)|by apply K].
      * rewrite Ep, (turn_pos _ _ _ T), decide_False; done.
      * by rewrite El, (turn_len _ _ _ T).
  - destruct (hierarchical_set_spec hw ctx' delay W ltac:(lia)) as (d & k & hw' & _ & E & W' & S & Hh & _ & K & _ & Hni).
    exists hw', []. rewrite E. split; [done|]. split; [lia|]. split; [set_solver|].
    eapply step_keeps_waiting; [done|done|done|apply K; by eapply waits_live|].
    intros b Hb. apply So. by destruct (set_armed _ _ _ _ _ _ b W ltac:(lia) E Hb) as [?|[? _]].
  - destruct (cancel_spec hw id W) as (hw' & E & W' & S & I & K & _ & Hni). exists hw', []. rewrite E.
    split; [done|]. split; [lia|]. split; [set_solver|].
    assert (Ka : keeps a hw hw').
    { destruct Wt as (p & c & _ & Ea & _). eapply K; [done|]. done. }
    eapply step_keeps_waiting; [done|done|done|done|].
    intros b Hb. apply So. by apply (cancel_armed _ _ _ _ b W E).
Qed.

Lemma ticks_cons l op ops : ticks l (op :: ops) = (if is_tick l op then 1 else 0) + ticks l ops.
Proof. unfold ticks, zlen. simpl. destruct (is_tick l op); simpl; lia. Qed.

Lemma ticks_nonneg l ops : 0 <= ticks l ops.
Proof. unfold ticks, zlen. lia. Qed.

(** While fewer ticks have passed than remain, the timer waits. *)
Lemma run_waiting hw l a t ctx r ops :
  waiting hw l a t ctx r → ids_left hw ops → Forall (unrelated ctx (ti_timerId t)) ops → ticks l ops < r →
  ∃ hw' works, run_ops hw ops = Ret (hw', works) ∧ (WCallback ctx ∉ works)
    ∧ hw_next_id hw' = hw_next_id hw + settings ops ∧ waiting hw' l a t ctx (r - ticks l ops).
Proof.
  revert hw r. induction ops as [|op ops IH]; intros hw r Wg Hn Hu Hlt.
  { exists hw, []. split; [done|]. split; [set_solver|]. split; [change (settings []) with 0; lia|].
    unfold ticks, zlen. simpl. by rewrite Z.sub_0_r. }
  apply Forall_cons_1 in Hu as [Hop Hu]. rewrite ticks_cons in *. pose proof (ticks_nonneg l ops). pose proof (settings_nonneg ops).
  unfold ids_left in *. pose proof (settings_cons op ops) as Hc. pose proof (settings_cons op []) as Hc1. change (settings []) with 0 in Hc1.
  destruct (step_waiting hw l a t ctx r op Wg) as (hw1 & w1 & E1 & N1 & H1); [unfold ids_left; lia|done|]. simpl. rewrite E1, bind_Ret_l.
  destruct (is_tick l op) eqn:Et; simpl in H1.
  - destruct (Z.eqb_spec r 1); [lia|]. destruct H1 as [Hnw Wg1].
    destruct (IH hw1 (r - 1) Wg1) as (hw2 & w2 & E2 & Hn2 & N2 & Wg2); [lia|done|lia|]. rewrite E2, bind_Ret_l.
    exists hw2, (w1 ++ w2). split; [done|]. split; [by rewrite elem_of_app; tauto|]. split; [lia|].
    by replace (r - (1 + ticks l ops)) with (r - 1 - ticks l ops) by lia.
  - destruct H1 as [Hnw Wg1].
    destruct (IH hw1 r Wg1) as (hw2 & w2 & E2 & Hn2 & N2 & Wg2); [lia|done|lia|]. rewrite E2, bind_Ret_l.
    exists hw2, (w1 ++ w2). split; [done|]. split; [by rewrite elem_of_app; tauto|]. split; [lia|]. done.
Qed.

Lemma run_ops_app hw ops1 ops2 hw1 w1 hw2 w2 :
  run_ops hw ops1 = Ret (hw1, w1) → run_ops hw1 ops2 = Ret (hw2, w2) →
  run_ops hw (ops1 ++ ops2) = Ret (hw2, w1 ++ w2).
Proof.
  revert hw w1. induction ops1 as [|op ops1 IH]; intros hw w1 E1 E2; simpl in *.
  { by simplify_eq. }
  destruct (hw_step hw op) as [[h wk]|]; [|done]. simpl in *. apply bind_ret in E1 as ([h' wk'] & E & Eq).
  simplify_eq. rewrite (IH _ _ E E2). simpl. by rewrite app_assoc.
Qed.

(** A timer just set waits: a whole revolution less than asked for when the
    delay exceeds the wheel. *)
Lemma remaining_new hw l d :
  hw_wf hw → 1 <= d < 2 ^ 31 →
  remaining hw l (slot_for hw l d) (circle_for hw l d) = if d <=? slots_len hw l then d else d - slots_len hw l.
Proof.
  intros Hwf Hd. destruct (wf_wheels _ Hwf l) as [Hpos Hn]. fold (slots_len hw l) in Hpos, Hn.
  unfold remaining, slot_for, circle_for. set (n := slots_len hw l) in *. set (pos := tw_position (hw_wheel hw l)) in *.
  rewrite !u64_id by (unfold is_u64; lia).
  assert (Hdiv : 0 <= (d - 1) / n < 2 ^ 31).
  { split; [apply Z.div_pos; lia|]. apply Z.div_lt_upper_bound; nia. }
  rewrite s32_id by done. rewrite Z2Nat.id by (apply Z.mod_pos_bound; lia).
  assert (E : ((pos + d) mod n - pos - 1) mod n = (d - 1) mod n).
  { replace ((pos + d) mod n - pos - 1) with ((pos + d) mod n - (pos + 1)) by lia.
    rewrite Zminus_mod_idemp_l. f_equal. lia. }
  rewrite E. pose proof (Z.div_mod (d - 1) n ltac:(lia)) as Hdm.
  destruct (Z.leb_spec d n) as [Hle|Hgt].
  - rewrite Z.div_small, Z.mod_small by lia. simpl. lia.
  - assert (1 <= (d - 1) / n) by (apply Z.div_le_lower_bound; lia). rewrite Z.max_l by done. lia.
Qed.

(** A timer of [ms] milliseconds (at most a second). *)
Definition milliseconds_delay (ms : Z) : timer_duration_t := mkDuration 0 0 0 0 ms.

Lemma plan_milliseconds ms :
  1 <= ms <= 1000 → timer_plan (timer_duration_rectify (milliseconds_delay ms)) = [(ms, milliseconds)].
Proof.
  intros Hms. unfold timer_duration_rectify, milliseconds_delay, timer_plan, Time_Seconds. simpl.
  destruct (Z.ltb_spec 1000 ms); [lia|]. done.
Qed.

Lemma new_waiting hw ctx ms :
  hw_wf hw → running hw → hw_next_id hw + 1 < 2 ^ 64 → 1 <= ms <= 1000 → (∀ b, ¬ armed hw (WCallback ctx) b) →
  ∃ hw' t, hierarchical_timing_wheel_set_timer hw ctx (milliseconds_delay ms) = Ret (hw_next_id hw, hw') ∧ hw_next_id hw' = hw_next_id hw + 1
    ∧ ti_timerId t = hw_next_id hw ∧ ti_steps t = [(ms, milliseconds)] ∧ ti_current t = 0%nat
    ∧ waiting hw' milliseconds (hw_next_addr hw) t ctx
        (if ms <=? slots_len hw milliseconds then ms else ms - slots_len hw milliseconds).
Proof.
  intros Hwf Hrun Hn Hms Hfree.
  destruct (hierarchical_set_spec hw ctx (milliseconds_delay ms) Hwf Hn) as (d & l & hw' & Hh & E & W & S & He & Hin & K & _ & Hni).
  rewrite plan_milliseconds in Hh, He by done. simpl in Hh. simplify_eq.
  set (t := mkTimer (mkRefc 2 0) (hw_next_id hw) [(d, milliseconds)] 0 (WCallback ctx) false 0).
  exists hw', t. split; [done|]. split; [done|]. split; [done|]. split; [done|]. split; [done|].
  split; [done|by eapply running_shape| | |done|done].
  - exists (slot_for hw milliseconds d), (circle_for hw milliseconds d). split; [done|]. split.
    + rewrite He. apply lookup_insert_eq.
    + rewrite <- remaining_new by (done || lia). destruct (S milliseconds) as (Ep & El & _).
      unfold remaining. by rewrite Ep, El.
  - intros b Hb. by destruct (set_armed _ _ _ _ _ _ b Hwf Hn E Hb) as [?%Hfree|[_ ?]].
Qed.

(** C28. A timer of [ms] milliseconds (at most 1000), set on a running wheel of [n]
    slots under a context no timer waits with, is first handed to the work pool
    by one tick of the milliseconds wheel, whatever else happens in between
    (ticks of the other wheels, other timers set, cancelled and fired): tick number
    [ms] when [ms <= n], but tick number [ms - n] when [ms > n], one revolution
    before it is due, because a timer with one revolution left is expired instead
    of kept.  Until then its callback is not queued.  No operation on the way
    touches a freed timer, as long as the 64-bit counter of identifiers does not run
    over. *)
Theorem timer_fires_at hw ctx ms ops n :
  hw_wf hw → running hw → n = slots_len hw milliseconds → 1 <= ms <= 1000 →
  (∀ b, ¬ armed hw (WCallback ctx) b) →
  Forall (unrelated ctx (hw_next_id hw)) ops → hw_next_id hw + 1 + settings ops < 2 ^ 64 →
  let due := if ms <=? n then ms else ms - n in
  ∃ hw1, hierarchical_timing_wheel_set_timer hw ctx (milliseconds_delay ms) = Ret (hw_next_id hw, hw1)
    ∧ (ticks milliseconds ops < due →
       ∃ hw2 works, run_ops hw1 ops = Ret (hw2, works) ∧ WCallback ctx ∉ works)
    ∧ (ticks milliseconds ops = due - 1 →
       ∃ hw2 works, run_ops hw1 (ops ++ [OpTick milliseconds]) = Ret (hw2, works) ∧ WCallback ctx ∈ works).
Proof.
  intros Hwf Hrun -> Hms Hfree Hops Hn due. pose proof (settings_nonneg ops).
  destruct (new_waiting hw ctx ms Hwf Hrun ltac:(lia) Hms Hfree) as (hw1 & t & E & N1 & Eid & Es & Ec & Wg). fold due in Wg.
  assert (Hids : ids_left hw1 ops) by (unfold ids_left; lia).
  rewrite <- Eid in Hops. exists hw1. split; [done|]. split.
  - intros Hlt. destruct (run_waiting _ _ _ _ _ _ _ Wg Hids Hops Hlt) as (hw2 & works & E2 & Hnw & _). by exists hw2, works.
  - intros Heq. destruct (run_waiting _ _ _ _ _ _ _ Wg Hids Hops) as (hw2 & works & E2 & _ & N2 & Wg2); [lia|].
    destruct (step_waiting _ _ _ _ _ _ (OpTick milliseconds) Wg2) as (hw3 & w3 & E3 & _ & H3); [unfold ids_left, settings, zlen; cbn; lia|done|].
    simpl in H3. replace (due - ticks milliseconds ops) with 1 in H3 by lia. simpl in H3.
    assert (E4 : run_ops hw2 [OpTick milliseconds] = Ret (hw3, w3 ++ [])).
    { cbn [run_ops]. rewrite E3. done. }
    exists hw3, (works ++ (w3 ++ [])). split; [by eapply run_ops_app|].
    rewrite !elem_of_app. right. left. apply H3. rewrite Es, Ec. simpl. lia.
Qed.

(** The daemon's wheels have eight slots: a timer of 20 ms, with a second one set
    in between, is queued by the twelfth tick. *)
Lemma timer_fires_at_witness :
  ∃ hw1, hierarchical_timing_wheel_set_timer (hierarchical_timing_wheel_create 8) 7 (milliseconds_delay 20) = Ret (1, hw1)
    ∧ ∃ hw2 works, run_ops hw1 ((OpSet 9 (milliseconds_delay 3) :: replicate 11 (OpTick milliseconds))
                                  ++ [OpTick milliseconds]) = Ret (hw2, works) ∧ WCallback 7 ∈ works.
Proof.
  destruct (create_wf 8) as [W R]; [lia|lia|].
  destruct (timer_fires_at (hierarchical_timing_wheel_create 8) 7 20
              (OpSet 9 (milliseconds_delay 3) :: replicate 11 (OpTick milliseconds)) 8) as (hw1 & E & _ & H).
  - exact W.
  - exact R.
  - reflexivity.
  - lia.
  - intros b (_ & t & Hb & _). simpl in Hb. by rewrite lookup_empty in Hb.
  - apply Forall_cons_2; [simpl; lia|]. by apply Forall_replicate.
  - vm_compute. reflexivity.
  - exists hw1. split; [exact E|]. apply H. reflexivity.
Defined.

(** ** Every run is safe *)

Lemma step_wf hw op : hw_wf hw → running hw → ids_left hw [op] →
  ∃ hw' works, hw_step hw op = Ret (hw', works) ∧ hw_wf hw' ∧ running hw' ∧ hw_next_id hw' = hw_next_id hw + settings [op].
Proof.
  intros W R Hn. unfold ids_left in Hn. rewrite settings_cons in *. change (settings []) with 0 in *. destruct op as [k|ctx delay|id]; simpl in *.
  - destruct (on_tick_spec hw k W (R k)) as (hw' & works & E & W' & [(hw1 & T & S1 & _) _ _ _ _ Hni]).
    exists hw', works. split; [done|]. split; [done|]. split; [|lia].
    eapply running_shape; [done|]. intros l. by rewrite (turn_stopped _ _ _ T).
  - destruct (hierarchical_set_spec hw ctx delay W ltac:(lia)) as (d & k & hw' & _ & E & W' & S & _ & _ & _ & _ & Hni).
    exists hw', []. rewrite E. split; [done|]. split; [done|]. split; [by eapply running_shape|lia].
  - destruct (cancel_spec hw id W) as (hw' & E & W' & S & _ & _ & _ & Hni).
    exists hw', []. rewrite E. split; [done|]. split; [done|]. split; [by eapply running_shape|lia].
Qed.

Lemma run_wheels_wf levels hw : hw_wf hw → running hw →
  ∃ hw' works, run_wheels hw levels = Ret (hw', works) ∧ hw_wf hw' ∧ running hw' ∧ hw_next_id hw' = hw_next_id hw.
Proof.
  revert hw. induction levels as [|k levels IH]; intros hw W R; simpl; [by exists hw, []|].
  destruct (run_spec hw k W (R k)) as (hw1 & w1 & E1 & W1 & S1 & _ & _ & _ & _ & N1 & _). rewrite E1, bind_Ret_l.
  destruct (IH hw1 W1) as (hw2 & w2 & E2 & W2 & R2 & N2); [by eapply running_shape|]. rewrite E2, bind_Ret_l.
  exists hw2, (w1 ++ w2). split_and!; [done|done|done|congruence].
Qed.

Lemma ids_left_cons hw op ops :
  ids_left hw (op :: ops) → ids_left hw [op] ∧ ∀ hw', hw_next_id hw' = hw_next_id hw + settings [op] → ids_left hw' ops.
Proof.
  unfold ids_left. pose proof (settings_nonneg ops). pose proof (settings_cons op ops). pose proof (settings_cons op []).
  change (settings []) with 0 in *. intros. split; [lia|]. intros hw' ->. lia.
Qed.

Lemma run_ops_wf ops hw : hw_wf hw → running hw → ids_left hw ops →
  ∃ hw' works, run_ops hw ops = Ret (hw', works) ∧ hw_wf hw' ∧ running hw'.
Proof.
  revert hw. induction ops as [|op ops IH]; intros hw W R Hn; simpl; [by exists hw, []|].
  destruct (ids_left_cons hw op ops Hn) as [Hn1 Hn2].
  destruct (step_wf hw op W R Hn1) as (hw1 & w1 & E1 & W1 & R1 & N1). rewrite E1, bind_Ret_l.
  destruct (IH hw1 W1 R1 (Hn2 hw1 N1)) as (hw2 & w2 & E2 & W2 & R2). rewrite E2, bind_Ret_l. by exists hw2, (w1 ++ w2).
Qed.

(** ** Stopping and destroying *)

(** The map after the entries [l] are dropped. *)
Lemma stop_loop_spec l hw :
  hw_wf hw → base.NoDup l.*1 → (∀ id a, (id, a) ∈ l → hw_timers hw !! id = Some a) →
  ∃ heap aborted, stop_loop (hw_heap hw) l.*2 = Ret (heap, aborted) ∧
    hw_wf (hw_with hw heap (foldl (fun m id => delete id m) (hw_timers hw) l.*1)).
Proof.
  revert hw. induction l as [|[id a] l IH]; intros hw W Hnd Hin.
  { exists (hw_heap hw), []. split; [done|]. by destruct hw. }
  cbn [fmap list_fmap fst snd] in Hnd. apply list.NoDup_cons in Hnd as [Hid Hnd].
  assert (Em : hw_timers hw !! id = Some a) by (apply Hin; set_solver).
  destruct (wf_map _ W _ _ Em) as (_ & _ & t & Et & Ei). pose proof (unmapped_wf hw id a t W Em Et) as W1.
  destruct (IH _ W1 Hnd) as (heap & aborted & E & W2).
  { intros id' a' Hl. cbn. rewrite lookup_delete_ne; [apply Hin; set_solver|]. intros <-. apply Hid. apply list_elem_of_fmap. by exists (id, a'). }
  exists heap, (ti_work t :: aborted). split; [|exact W2]. cbn [fmap list_fmap snd stop_loop]. unfold timer_at. rewrite Et, bind_Ret_l.
  rewrite (timer_unref_more _ a (ti_with_removed t) 2), bind_Ret_l by (apply lookup_insert_eq || exact (mapped_refs hw id a t W Em Et) || lia).
  rewrite insert_insert_eq. cbn [hw_heap hw_with] in E. change (mkRefc (2 - 1) 0) with (mkRefc 1 0). by rewrite E.
Qed.

Lemma delete_all (m : gmap Z Z) l : (∀ id, is_Some (m !! id) → id ∈ l) → foldl (fun m id => delete id m) m l = ∅.
Proof.
  revert m. induction l as [|id l IH]; intros m H; cbn [foldl].
  - apply map_empty. intros k. apply eq_None_not_Some. intros Hk%H. by apply elem_of_nil in Hk.
  - apply IH. intros k [v [Hne Hk]%lookup_delete_Some]. assert (Hin : k ∈ id :: l) by (apply H; by exists v). set_solver.
Qed.

(** Neither the flags of the wheels nor that of the hierarchy matter. *)
Lemma stopped_wf hw :
  hw_wf hw → hw_wf (mkWheels (hw_heap hw) (hw_next_addr hw) (hw_timers hw) (hw_next_id hw) true (timing_wheel_stop (hw_days hw))
    (timing_wheel_stop (hw_hours hw)) (timing_wheel_stop (hw_minutes hw)) (timing_wheel_stop (hw_seconds hw)) (timing_wheel_stop (hw_milliseconds hw))).
Proof.
  intros W. set (hw' := mkWheels _ _ _ _ _ _ _ _ _ _).
  assert (Hs : ∀ l i, slot_of hw' l i = slot_of hw l i) by (by intros []).
  assert (Hsch : ∀ a, scheduled hw' a ↔ scheduled hw a) by (intros a; unfold scheduled; by setoid_rewrite Hs).
  split; [|intros l i; rewrite Hs; apply W|intros l i k j a; rewrite !Hs; apply W|intros a; rewrite Hsch; apply W| |apply W|apply W| |apply W].
  - intros l. pose proof (wf_wheels _ W l) as H. by destruct l.
  - split; [constructor|]. intros a Ha. by apply elem_of_nil in Ha.
  - intros id a Ha. rewrite Hsch. by apply (wf_map _ W).
Qed.

Lemma stop_spec hw :
  hw_wf hw → ∃ hw' aborted, hierarchical_timing_wheel_stop hw = Ret (hw', aborted) ∧ hw_wf hw' ∧ hw_timers hw' = ∅.
Proof.
  intros W. destruct (stop_loop_spec (map_to_list (hw_timers hw)) hw W) as (heap & aborted & E & W1).
  - apply NoDup_fst_map_to_list.
  - intros id a. by rewrite elem_of_map_to_list.
  - unfold hierarchical_timing_wheel_stop. rewrite E, bind_Ret_l. eexists _, aborted. split; [done|]. split; [|done].
    rewrite delete_all in W1; [exact (stopped_wf _ W1)|]. intros id [a Ha]. apply list_elem_of_fmap. exists (id, a).
    by rewrite elem_of_map_to_list.
Qed.

Lemma release_app heap l1 l2 : timers_release heap (l1 ++ l2) = (heap' <- timers_release heap l1 ;; timers_release heap' l2).
Proof.
  revert heap. induction l1 as [|a l1 IH]; intros heap; [done|]. cbn [timers_release app].
  destruct (timer_unref heap a); cbn [xbind]; [apply IH|done].
Qed.

(** Timers with a further reference lose one; timers without are freed. *)
Lemma release_mapped heap l :
  base.NoDup l → (∀ a, a ∈ l → ∃ t, heap !! a = Some t ∧ ti_refs t = mkRefc 2 0) →
  ∃ h, timers_release heap l = Ret h ∧
    ∀ b, h !! b = if decide (b ∈ l) then (fun t => ti_with_refs t (mkRefc 1 0)) <$> heap !! b else heap !! b.
Proof.
  revert heap. induction l as [|a l IH]; intros heap Hnd Hl; cbn [timers_release]; [by exists heap|].
  apply list.NoDup_cons in Hnd as [Ha Hnd]. destruct (Hl a) as (t & Et & Er); [set_solver|].
  rewrite (timer_unref_more heap a t 2 Et Er), bind_Ret_l by lia. change (mkRefc (2 - 1) 0) with (mkRefc 1 0).
  destruct (IH (<[a := ti_with_refs t (mkRefc 1 0)]> heap) Hnd) as (h & E & Hh).
  { intros b Hb. rewrite lookup_insert_ne by set_solver. apply Hl. set_solver. }
  exists h. split; [done|]. intros b. rewrite Hh. destruct (decide (b = a)) as [->|Hne].
  - rewrite lookup_insert_eq, (decide_False (P := a ∈ l)), (decide_True (P := a ∈ a :: l)), Et by (done || set_solver). done.
  - rewrite lookup_insert_ne by done. destruct (decide (b ∈ l)) as [Hb|Hb].
    + by rewrite decide_True by set_solver.
    + by rewrite decide_False by set_solver.
Qed.

Lemma release_last heap l :
  base.NoDup l → (∀ a, a ∈ l → ∃ t, heap !! a = Some t ∧ ti_refs t = mkRefc 1 0) →
  ∃ h, timers_release heap l = Ret h ∧ ∀ b, h !! b = if decide (b ∈ l) then None else heap !! b.
Proof.
  revert heap. induction l as [|a l IH]; intros heap Hnd Hl; cbn [timers_release]; [by exists heap|].
  apply list.NoDup_cons in Hnd as [Ha Hnd]. destruct (Hl a) as (t & Et & Er); [set_solver|].
  rewrite (timer_unref_last heap a t Et Er), bind_Ret_l.
  destruct (IH (delete a heap) Hnd) as (h & E & Hh).
  { intros b Hb. rewrite lookup_delete_ne by set_solver. apply Hl. set_solver. }
  exists h. split; [done|]. intros b. rewrite Hh. destruct (decide (b = a)) as [->|Hne].
  - rewrite lookup_delete_eq, (decide_True (P := a ∈ a :: l)) by set_solver. by destruct (decide _).
  - rewrite lookup_delete_ne by done. destruct (decide (b ∈ l)) as [Hb|Hb].
    + by rewrite decide_True by set_solver.
    + by rewrite decide_False by set_solver.
Qed.

Lemma elem_concat (ls : list (list Z)) a : a ∈ concat ls ↔ ∃ l, l ∈ ls ∧ a ∈ l.
Proof. rewrite list_elem_of_In, in_concat. by setoid_rewrite <- list_elem_of_In. Qed.

Lemma nodup_concat (ls : list (list Z)) :
  (∀ i l, ls !! i = Some l → base.NoDup l) →
  (∀ i j l l' a, ls !! i = Some l → ls !! j = Some l' → a ∈ l → a ∈ l' → i = j) → base.NoDup (concat ls).
Proof.
  induction ls as [|l ls IH]; intros Hnd Hd; cbn [concat]; [constructor|]. apply list.NoDup_app. split; [by apply (Hnd 0%nat)|]. split.
  - intros a Ha (l' & Hl' & Ha')%elem_concat. apply list_elem_of_lookup in Hl' as [j Hj].
    by specialize (Hd 0%nat (S j) l l' a eq_refl Hj Ha Ha').
  - apply IH; [intros i; by apply (Hnd (S i))|]. intros i j l1 l2 a H1 H2 Ha Ha'. by injection (Hd (S i) (S j) l1 l2 a H1 H2 Ha Ha').
Qed.

Definition levels : list wheel_level := [days; hours; minutes; seconds; milliseconds].

(** The timers of all slots. *)
Definition slot_addrs (hw : hierarchical_timing_wheel_t) (l : wheel_level) : list Z := concat (tw_slots (hw_wheel hw l)).

Lemma slot_addrs_elem hw l a : a ∈ slot_addrs hw l ↔ ∃ i, a ∈ slot_of hw l i.
Proof.
  unfold slot_addrs, slot_of. rewrite elem_concat. split.
  - intros (s & [i Hi]%list_elem_of_lookup & Ha). exists i. by rewrite Hi.
  - intros [i Ha]. destruct (tw_slots (hw_wheel hw l) !! i) as [s|] eqn:E; [|by apply elem_of_nil in Ha].
    exists s. split; [by eapply list_elem_of_lookup_2|done].
Qed.

Lemma slot_addrs_nodup hw : hw_wf hw → base.NoDup (concat (map (slot_addrs hw) levels)).
Proof.
  intros W. assert (Hof : ∀ l i s, tw_slots (hw_wheel hw l) !! i = Some s → slot_of hw l i = s) by (intros l i s E; unfold slot_of; by rewrite E).
  apply nodup_concat.
  - intros i s Hi. apply list_lookup_fmap_Some in Hi as (l & -> & Hi). apply nodup_concat.
    + intros j s <-%Hof. apply W.
    + intros j k s s' a <-%Hof <-%Hof Ha Ha'. by apply (wf_unique _ W l j l k a).
  - intros i j s s' a Hi Hj Ha Ha'. apply list_lookup_fmap_Some in Hi as (l & -> & Hi), Hj as (l' & -> & Hj).
    apply slot_addrs_elem in Ha as [p Hp], Ha' as [p' Hp']. destruct (wf_unique _ W l p l' p' a Hp Hp') as [<- _].
    apply (NoDup_lookup levels i j l); [by apply (bool_decide_unpack _)|done|done].
Qed.

(** Destroying a hierarchy frees every timer. *)
Lemma destroy_spec hw : hw_wf hw → hierarchical_timing_wheel_destroy hw = Ret ∅.
Proof.
  intros W.
  assert (E0 : hierarchical_timing_wheel_destroy hw =
    (heap <- timers_release (hw_heap hw) (map_to_list (hw_timers hw)).*2 ;; timers_release heap (concat (map (slot_addrs hw) levels)))).
  { unfold hierarchical_timing_wheel_destroy, timing_wheel_destroy. destruct (timers_release _ _) as [heap|]; [|done].
    cbn [xbind map levels concat slot_addrs hw_wheel]. rewrite app_nil_r. rewrite release_app. destruct (timers_release heap _); [|done]. cbn [xbind].
    rewrite release_app. destruct (timers_release _ _); [|done]. cbn [xbind]. rewrite release_app. destruct (timers_release _ _); [|done]. cbn [xbind].
    rewrite release_app. by destruct (timers_release _ _). }
  destruct (release_mapped (hw_heap hw) (map_to_list (hw_timers hw)).*2) as (h & E1 & Hh).
  { apply NoDup_fmap_2_strong; [|apply NoDup_map_to_list]. intros [i a] [j b] Hi Hj E. cbn in E. subst b.
    apply elem_of_map_to_list in Hi, Hj. destruct (wf_map _ W _ _ Hi) as (_ & _ & t & Et & <-), (wf_map _ W _ _ Hj) as (_ & _ & t' & Et' & <-). congruence. }
  { intros a Ha. apply list_elem_of_fmap in Ha as ([id b] & -> & Hb). apply elem_of_map_to_list in Hb.
    destruct (wf_map _ W _ _ Hb) as (_ & _ & t & Et & _). exists t. split; [done|]. by eapply mapped_refs. }
  assert (Hsch : ∀ a, a ∈ concat (map (slot_addrs hw) levels) ↔ scheduled hw a).
  { intros a. rewrite elem_concat. split.
    - intros (s & Hs & Ha). apply list_elem_of_fmap in Hs as (l & -> & _). apply slot_addrs_elem in Ha as [i Hi]. by exists l, i.
    - intros (l & i & Hi). exists (slot_addrs hw l). split; [apply list_elem_of_fmap; exists l; split; [done|destruct l; set_solver]|].
      apply slot_addrs_elem. by exists i. }
  destruct (release_last h (concat (map (slot_addrs hw) levels))) as (h' & E2 & Hh').
  { by apply slot_addrs_nodup. }
  { intros a Ha%Hsch. destruct (wf_live hw a W Ha) as (t & Et & _). rewrite Hh, Et. pose proof (wf_count _ W a t Et) as Hc. unfold counted in Hc.
    case_decide as Hm; [by eexists|]. exists t. split; [done|]. destruct (hw_timers hw !! ti_timerId t) as [b|] eqn:E; [|done].
    destruct Hc as [-> _]. exfalso. apply Hm. apply list_elem_of_fmap. exists (ti_timerId t, a). by rewrite elem_of_map_to_list. }
  rewrite E0, E1, bind_Ret_l, E2. f_equal. apply map_empty. intros b. rewrite Hh'. case_decide as Hb; [done|]. rewrite Hh.
  assert (Hn : hw_heap hw !! b = None).
  { apply eq_None_not_Some. rewrite (wf_alive _ W b). intros [Hs|Hs]; [by apply Hb, Hsch|by apply elem_of_nil in Hs]. }
  rewrite Hn. by destruct (decide _).
Qed.

(** C29. From its creation with any positive 32-bit number of slots, a started hierarchy
    runs any sequence of ticks, settings and cancellations (one at a time, and fewer
    than [2^64 - 1] settings) without touching a timer that has been freed, and keeps
    its invariant: positions in range; a timer is in memory exactly if some slot
    holds it, and exactly one slot of one wheel does, once; its reference count is
    one, or two while the map of timers finds it under its identifier, which it then
    does under no other; and every entry of the map is a timer in memory that is not
    cancelled.  Stopping it then empties the map and keeps the invariant, and destroying
    it, stopped or not, frees every timer and touches none twice.  Within
    [hierarchical_timing_wheel_set_timer] other threads can free the timer before its
    identifier is read. *)
Theorem wheel_invariant n ops :
  (0 < n)%nat → Z.of_nat n < 2 ^ 32 → 1 + settings ops < 2 ^ 64 →
  ∃ hw0 works0 hw works,
    hierarchical_timing_wheel_run (hierarchical_timing_wheel_create n) = Ret (hw0, works0)
    ∧ run_ops hw0 ops = Ret (hw, works) ∧ hw_wf hw ∧ hierarchical_timing_wheel_destroy hw = Ret ∅
    ∧ ∃ hw' aborted, hierarchical_timing_wheel_stop hw = Ret (hw', aborted) ∧ hw_wf hw' ∧ hw_timers hw' = ∅
        ∧ hierarchical_timing_wheel_destroy hw' = Ret ∅.
Proof.
  intros H0 Hn Hs. destruct (create_wf n H0 Hn) as [W R].
  destruct (run_wheels_wf [milliseconds; seconds; minutes; hours; days] _ W R) as (hw0 & w0 & E0 & W0 & R0 & N0).
  destruct (run_ops_wf ops hw0 W0 R0) as (hw & w & E & W1 & _); [unfold ids_left; rewrite N0; exact Hs|].
  destruct (stop_spec hw W1) as (hw' & aborted & E' & W' & Em). exists hw0, w0, hw, w. split_and!; [done|done|done|by apply destroy_spec|].
  exists hw', aborted. split_and!; [done|done|done|by apply destroy_spec].
Qed.

Lemma wheel_invariant_witness :
  ∃ hw0 works0 hw works,
    hierarchical_timing_wheel_run (hierarchical_timing_wheel_create 8) = Ret (hw0, works0)
    ∧ run_ops hw0 [OpSet 5 (mkDuration 0 0 0 1 1500); OpTick seconds; OpCancel 1; OpTick milliseconds] = Ret (hw, works)
    ∧ hw_wf hw ∧ hierarchical_timing_wheel_destroy hw = Ret ∅.
Proof.
  destruct (wheel_invariant 8 [OpSet 5 (mkDuration 0 0 0 1 1500); OpTick seconds; OpCancel 1; OpTick milliseconds])
    as (hw0 & w0 & hw & w & H1 & H2 & H3 & H4 & _); [lia|lia|vm_compute; reflexivity|].
  exists hw0, w0, hw, w. exact (conj H1 (conj H2 (conj H3 H4))).
Defined.

(** The bound on the settings is needed: the timer set after identifier [2^64 - 1]
    gets 0, the identifier of the wheels' own timers.  When the seconds wheel's timer
    expires, the map finds the other one under it, the tick loses a reference too
    many, and its list of expired timers holds freed memory. *)
Definition with_next_id (hw : hierarchical_timing_wheel_t) (id : Z) : hierarchical_timing_wheel_t :=
  mkWheels (hw_heap hw) (hw_next_addr hw) (hw_timers hw) id (hw_stopped hw) (hw_days hw) (hw_hours hw) (hw_minutes hw)
    (hw_seconds hw) (hw_milliseconds hw).

Example id_zero_frees_tick :
  ('(hw0, _) <- hierarchical_timing_wheel_run (with_next_id (hierarchical_timing_wheel_create 8) (2 ^ 64 - 1)) ;;
   st <- run_ops hw0 (replicate 2 (OpSet 5 (mkDuration 0 1 0 0 0)) ++ replicate 991 (OpTick milliseconds)) ;;
   Ret (hw_next_id (fst st))) = Ret 1 ∧
  ('(hw0, _) <- hierarchical_timing_wheel_run (with_next_id (hierarchical_timing_wheel_create 8) (2 ^ 64 - 1)) ;;
   run_ops hw0 (replicate 2 (OpSet 5 (mkDuration 0 1 0 0 0)) ++ replicate 992 (OpTick milliseconds))) = Trap.
Proof. split; vm_compute; reflexivity. Qed.

(** ** Cancelling *)

(** Nothing can expire with the callback of [ctx]. *)
Definition dead (hw : hierarchical_timing_wheel_t) (ctx : Z) : Prop := ∀ b, ¬ armed hw (WCallback ctx) b.

Definition never_sets (ctx : Z) (op : wheel_op) : Prop := match op with OpSet ctx' _ => ctx' ≠ ctx | _ => True end.

Lemma step_dead hw ctx op hw' works :
  hw_wf hw → running hw → ids_left hw [op] → dead hw ctx → never_sets ctx op →
  hw_step hw op = Ret (hw', works) → (WCallback ctx ∉ works) ∧ dead hw' ctx.
Proof.
  intros W R Hn Hd Hop E. unfold ids_left in Hn. rewrite settings_cons in Hn. change (settings []) with 0 in Hn. destruct op as [k|ctx' delay|id]; simpl in *.
  - destruct (on_tick_spec hw k W (R k)) as (hw2 & ws & E2 & W' & Tk). rewrite E2 in E. simplify_eq. split.
    + intros Hin. destruct (tick_works _ _ _ _ Tk ctx Hin) as (b & tb & Hb & Eb & Ew & Hr).
      apply (Hd b). rewrite <- Ew. by eapply due_armed.
    + intros b Hb. apply (Hd b). by eapply ticked_armed.
  - apply bind_ret in E as ([id hw2] & E & [= <- <-]). split; [set_solver|].
    intros b Hb. by destruct (set_armed _ _ _ _ _ _ b W ltac:(cbn in Hn; lia) E Hb) as [?%Hd|[? _]].
  - apply bind_ret in E as (hw2 & E & [= <- <-]). split; [set_solver|].
    intros b Hb. by destruct (cancel_armed _ _ _ _ b W E Hb) as [?%Hd _].
Qed.

Lemma run_dead ops hw ctx :
  hw_wf hw → running hw → ids_left hw ops → dead hw ctx → Forall (never_sets ctx) ops →
  ∃ hw' works, run_ops hw ops = Ret (hw', works) ∧ WCallback ctx ∉ works.
Proof.
  revert hw. induction ops as [|op ops IH]; intros hw W R Hn Hd Hops; simpl; [exists hw, []; set_solver|].
  destruct (ids_left_cons hw op ops Hn) as [Hn1 Hn2].
  apply Forall_cons_1 in Hops as [Hop Hops]. destruct (step_wf hw op W R Hn1) as (hw1 & w1 & E1 & W1 & R1 & N1).
  destruct (step_dead hw ctx op hw1 w1 W R Hn1 Hd Hop E1) as (Hnw & Hd1).
  destruct (IH hw1 W1 R1 (Hn2 hw1 N1) Hd1 Hops) as (hw2 & w2 & E2 & Hnw2). rewrite E1, bind_Ret_l, E2, bind_Ret_l.
  exists hw2, (w1 ++ w2). split; [done|]. rewrite elem_of_app. tauto.
Qed.

(** C30. A timer cancelled while the map of timers still holds it, under a context
    that is this timer's alone, never has its callback queued: under every later
    sequence of ticks, settings (of other contexts) and cancellations, which all
    succeed and touch no freed timer, as long as the 64-bit counter of identifiers
    does not run over. *)
Theorem cancelled_timer_never_fires hw id a ctx ops :
  hw_wf hw → running hw → hw_timers hw !! id = Some a →
  sole hw (WCallback ctx) a → Forall (never_sets ctx) ops → ids_left hw ops →
  ∃ hw' works, run_ops hw (OpCancel id :: ops) = Ret (hw', works) ∧ WCallback ctx ∉ works.
Proof.
  intros W R Hm So Hops Hn. simpl.
  destruct (cancel_spec hw id W) as (hw1 & E1 & W1 & S1 & I1 & _ & _ & N1). rewrite E1. simpl.
  destruct (run_dead ops hw1 ctx) as (hw' & works & E & Hnw); [done|by eapply running_shape|unfold ids_left; by rewrite N1| |done|].
  - intros b Hb. destruct (cancel_armed _ _ _ _ b W E1 Hb) as [Hb1 Hne]. apply Hne. by rewrite (So b Hb1).
  - rewrite E. by exists hw', works.
Qed.

(** A 5 ms timer cancelled right away. *)
Lemma cancelled_timer_never_fires_witness :
  ∃ hw1, hierarchical_timing_wheel_set_timer (hierarchical_timing_wheel_create 8) 7 (milliseconds_delay 5) = Ret (1, hw1)
    ∧ ∃ hw' works, run_ops hw1 (OpCancel 1 :: replicate 6 (OpTick milliseconds)) = Ret (hw', works)
                   ∧ WCallback 7 ∉ works.
Proof.
  destruct (create_wf 8) as [W R]; [lia|lia|].
  destruct (new_waiting (hierarchical_timing_wheel_create 8) 7 5 W R) as (hw1 & t & E & N1 & _ & _ & _ & [W1 R1 (p & c & _ & Et & _) So _ Hw]).
  { cbn. lia. }
  { lia. }
  { intros b (_ & t & Hb & _). simpl in Hb. by rewrite lookup_empty in Hb. }
  exists hw1. split; [exact E|].
  apply (cancelled_timer_never_fires hw1 1 1 7 (replicate 6 (OpTick milliseconds))).
  - exact W1.
  - exact R1.
  - vm_compute in E. injection E as <-. reflexivity.
  - exact So.
  - by apply Forall_replicate.
  - unfold ids_left. rewrite N1. vm_compute. reflexivity.
Defined.

(** A timer of more than one step leaves the map when its first step expires:
    cancelling it afterwards has no effect. *)
Lemma late_cancel_ignored :
  (st <- run_ops (hierarchical_timing_wheel_create 8)
           (OpSet 7 (mkDuration 0 0 0 1 5) :: OpTick seconds :: OpCancel 1 :: replicate 5 (OpTick milliseconds)) ;;
   Ret (snd st))
  = Ret (replicate 5 (WTick milliseconds) ++ [WCallback 7]).
Proof. vm_compute. reflexivity. Qed.

(** ** Durations *)

Definition total_ms (d : timer_duration_t) : Z :=
  du_milliseconds d
  + Time_Seconds * (du_seconds d + Time_Minutes * (du_minutes d + Time_Hours * (du_hours d + Time_Days * du_days d))).

Lemma carry_spec k x y :
  0 < k → 0 <= x → 0 <= y → y + x / k < 2 ^ 64 →
  let '(x', y') := if k <? x then (x mod k, u64 (y + x / k)) else (x, y) in
  x' + k * y' = x + k * y ∧ 0 <= x' <= k ∧ 0 <= y' <= y + x / k.
Proof.
  intros Hk Hx Hy Hof. pose proof (Z.div_mod x k ltac:(lia)) as Hdm. pose proof (Z.mod_pos_bound x k Hk) as Hm.
  pose proof (Z.div_pos x k Hx Hk). destruct (Z.ltb_spec k x); [rewrite u64_id by (unfold is_u64; lia)|]; nia.
Qed.

(** Rectifying a duration preserves its length in milliseconds and brings every
    unit within the length of the next one; the plan of the timer then starts at
    the largest unit in use and its steps add up to the duration. *)
Theorem rectify_preserves d :
  0 <= du_days d → 0 <= du_hours d → 0 <= du_minutes d → 0 <= du_seconds d → 0 <= du_milliseconds d →
  total_ms d < 2 ^ 63 →
  let r := timer_duration_rectify d in
  total_ms r = total_ms d
  ∧ 0 <= du_milliseconds r <= Time_Seconds ∧ 0 <= du_seconds r <= Time_Minutes
  ∧ 0 <= du_minutes r <= Time_Hours ∧ 0 <= du_hours r <= Time_Days
  ∧ foldr (fun s acc => acc + fst s * match snd s with
                                      | milliseconds => 1 | seconds => 1000 | minutes => 60000 | hours => 3600000
                                      | days => 86400000
                                      end) 0 (timer_plan r) = total_ms d.
Proof.
  destruct d as [dd h m s ms]. unfold total_ms, timer_duration_rectify. cbn [du_days du_hours du_minutes du_seconds du_milliseconds].
  intros Hd Hh Hm Hs Hms Ht. unfold Time_Seconds, Time_Minutes, Time_Hours, Time_Days in *.
  pose proof (carry_spec 1000 ms s) as C1. pose proof (Z.div_mod ms 1000 ltac:(lia)) as D1.
  pose proof (Z.mod_pos_bound ms 1000 ltac:(lia)) as M1. pose proof (Z.div_pos ms 1000 Hms ltac:(lia)) as P1.
  destruct (if 1000 <? ms then _ else _) as [ms' s'].
  destruct C1 as (C1 & B1 & U1); [lia|lia|lia|lia|].
  pose proof (carry_spec 60 s' m) as C2. pose proof (Z.div_mod s' 60 ltac:(lia)) as D2.
  pose proof (Z.mod_pos_bound s' 60 ltac:(lia)) as M2. pose proof (Z.div_pos s' 60 ltac:(lia) ltac:(lia)) as P2.
  destruct (if 60 <? s' then _ else _) as [s'' m'].
  destruct C2 as (C2 & B2 & U2); [lia|lia|lia|lia|].
  pose proof (carry_spec 60 m' h) as C3. pose proof (Z.div_mod m' 60 ltac:(lia)) as D3.
  pose proof (Z.mod_pos_bound m' 60 ltac:(lia)) as M3. pose proof (Z.div_pos m' 60 ltac:(lia) ltac:(lia)) as P3.
  destruct (if 60 <? m' then _ else _) as [m'' h'].
  destruct C3 as (C3 & B3 & U3); [lia|lia|lia|lia|].
  pose proof (carry_spec 24 h' dd) as C4. pose proof (Z.div_mod h' 24 ltac:(lia)) as D4.
  pose proof (Z.mod_pos_bound h' 24 ltac:(lia)) as M4. pose proof (Z.div_pos h' 24 ltac:(lia) ltac:(lia)) as P4.
  destruct (if 24 <? h' then _ else _) as [h'' dd'].
  destruct C4 as (C4 & B4 & U4); [lia|lia|lia|lia|].
  cbn [du_days du_hours du_minutes du_seconds du_milliseconds].
  split; [lia|]. split; [lia|]. split; [lia|]. split; [lia|]. split; [lia|].
  unfold timer_plan. cbn [du_days du_hours du_minutes du_seconds du_milliseconds].
  destruct (Z.ltb_spec 0 dd'), (Z.ltb_spec 0 h''), (Z.ltb_spec 0 m''), (Z.ltb_spec 0 s''); simpl; lia.
Qed.

(** Two hours, ninety minutes and 61 seconds. *)
Lemma rectify_preserves_witness :
  total_ms (timer_duration_rectify (mkDuration 0 2 90 61 2500)) = total_ms (mkDuration 0 2 90 61 2500)
  ∧ timer_plan (timer_duration_rectify (mkDuration 0 2 90 61 2500)) = [(3, hours); (31, minutes); (3, seconds); (500, milliseconds)].
Proof.
  split; [|reflexivity].
  apply (rectify_preserves (mkDuration 0 2 90 61 2500)); [simpl; lia|simpl; lia|simpl; lia|simpl; lia|simpl; lia|reflexivity].
Defined.

(** ** The references of one timer *)

Module TimerRefsTheorems.
Import TimerRefs.

Definition held_by_creator (c : creator) : nat := match c with CReleased | CReturned => 0 | _ => 1 end.

Definition owners (s : life) : nat :=
  (held_by_creator (lf_creator s) + (if lf_map s then 1 else 0) + lf_slots s + lf_expired s)%nat.

(** Where a timer can be while it is being set. *)
Definition placed_in_order (s : life) : Prop :=
  match lf_creator s with
  | CAllocated => lf_map s = false ∧ lf_slots s = 0%nat ∧ lf_expired s = 0%nat
  | CMapped => lf_slots s = 0%nat ∧ lf_expired s = 0%nat
  | _ => (lf_slots s + lf_expired s <= 1)%nat
  end.

Record counted (s : life) : Prop := {
  co_count : lf_refs s = mkRefc (Z.of_nat (owners s)) 0;
  co_freed : lf_freed s = (owners s =? 0)%nat;
  co_order : placed_in_order s
}.

Lemma counted_step s e : counted s → enabled e s = true → lf_freed s = false → counted (life_effect e s).
Proof.
  intros [Hc Hf Ho] He Hn. destruct s as [r f c m k x rem]. unfold placed_in_order, owners, enabled in *.
  cbn [lf_refs lf_freed lf_creator lf_map lf_slots lf_expired lf_removed] in *. subst r.
  destruct e, c, m; try done; cbn [held_by_creator] in *;
    repeat match goal with H : _ && _ = true |- _ => apply andb_true_iff in H as [? ?] | H : (_ <? _)%nat = true |- _ => apply Nat.ltb_lt in H end;
    try lia; destruct k as [|[|k]], x as [|[|x]]; try (exfalso; lia); try done; constructor; try reflexivity;
    unfold placed_in_order; cbn; lia || (split_and!; lia) || (split; [done|lia]) || exact Hn.
Qed.

Lemma counted_steps s s' : counted s → rtc life_step s s' → counted s'.
Proof.
  intros Hs H. induction H as [|s1 s2 s3 [e He] _ IH]; [done|]. apply IH. unfold life_apply in He.
  destruct (enabled e s1) eqn:Ee; [|done]. destruct (lf_freed s1) eqn:Ef; [done|]. injection He as <-. by apply counted_step.
Qed.

(** A timer is counted exactly: whatever the order in which it is set, cancelled,
    moved, fired, drained and dropped, its count is the number of its owners, it
    is freed when the last one lets go and not before, and nobody touches it
    afterwards, with one exception: the function that set it reads the
    identifier it returns after it has let go. *)
Theorem timer_counted s :
  rtc life_step timer_allocated s →
  rc_count (lf_refs s) = Z.of_nat (owners s) ∧ (lf_freed s = true ↔ owners s = 0%nat) ∧
  ∀ e, life_apply s e = Some Trap → e = EReadId.
Proof.
  intros H. assert (Hs : counted s) by (apply (counted_steps timer_allocated); [by constructor|done]). destruct Hs as [Hc Hf _].
  split_and!; [by rewrite Hc|rewrite Hf; apply Nat.eqb_eq|]. intros e He. unfold life_apply in He. destruct (enabled e s) eqn:Ee; [|done].
  destruct (lf_freed s); [|done]. symmetry in Hf. apply Nat.eqb_eq in Hf. unfold owners, enabled in *.
  destruct e, (lf_creator s), (lf_map s); try done; cbn [held_by_creator] in Hf; try lia;
    repeat match goal with H : _ && _ = true |- _ => apply andb_true_iff in H as [? ?] | H : (_ <? _)%nat = true |- _ => apply Nat.ltb_lt in H end; lia.
Qed.

(** The exception happens: the timer fires before the thread that set it lets
    go. *)
Fixpoint life_run (s : life) (es : list life_event) : option (exec life) :=
  match es with
  | [] => Some (Ret s)
  | e :: es' => match life_apply s e with Some (Ret s') => life_run s' es' | o => o end
  end.

Example id_read_after_free : life_run timer_allocated [EPut; EPlace; EExpire; EFireWork; ERelease; EReadId] = Some Trap.
Proof. reflexivity. Qed.

Lemma timer_counted_witness : ∃ s, life_run timer_allocated [EPut; EPlace; ECancel; EDropRemoved; ERelease] = Some (Ret s) ∧ lf_freed s = true.
Proof.
  eexists. split; [reflexivity|]. apply timer_counted; [|reflexivity]. unfold life_step.
  eapply rtc_l; [by exists EPut|]. eapply rtc_l; [by exists EPlace|]. eapply rtc_l; [by exists ECancel|].
  eapply rtc_l; [by exists EDropRemoved|]. eapply rtc_l; [by exists ERelease|]. apply rtc_refl.
Defined.
End TimerRefsTheorems.
