(* ===== verification/Debouncer.v ===== *)
(** * Debouncer: callbacks postponed while calls keep coming

    [src/Time/debouncer.c] on top of the timing wheel: a call arms a timer of
    [wait] milliseconds, a further call cancels it and arms a new one; [flush] and
    the last [destroy] run the callback at once.  The clock is an argument of the
    operations that read it; callbacks run by the debouncer itself are returned as
    their contexts, those of the wheel are the work it queues.

    [elapsed_time] computes in [double]: differences of microseconds below [2 ^ 42]
    milliseconds are far from the rounding of the 53-bit mantissa, so the result is
    the exact quotient; the conversion of a negative result to [uint64_t] is
    undefined. *)

From stdpp Require Import gmap.
From S2P Require Import Prelude Refcount Wheel WheelTheorems.

(** Seconds and microseconds. *)
Record timeval_t := mkTimeval {
  tv_sec : Z;
  tv_usec : Z
}.

Definition elapsed_time (start finish : timeval_t) : exec Z :=
  let us := (tv_sec finish - tv_sec start) * 1000000 + (tv_usec finish - tv_usec start) in
  if us <=? -1000 then Trap else Ret (Z.quot us 1000).

(** [db_cb] and [db_wheel]: the pointer is not null. *)
Record debouncer_t := mkDebouncer {
  db_refcounter : refcounter_t;
  db_timerId : Z;
  db_ctx : Z;
  db_cb : bool;
  db_interval_start : timeval_t;
  db_wait : Z;
  db_max_wait : Z;
  db_wheel : bool
}.

Definition db_with_timer (b : debouncer_t) (id : Z) : debouncer_t :=
  mkDebouncer (db_refcounter b) id (db_ctx b) (db_cb b) (db_interval_start b) (db_wait b) (db_max_wait b) (db_wheel b).

Definition db_with_start (b : debouncer_t) (t : timeval_t) : debouncer_t :=
  mkDebouncer (db_refcounter b) (db_timerId b) (db_ctx b) (db_cb b) t (db_wait b) (db_max_wait b) (db_wheel b).

Definition db_with_refs (b : debouncer_t) (r : refcounter_t) : debouncer_t :=
  mkDebouncer r (db_timerId b) (db_ctx b) (db_cb b) (db_interval_start b) (db_wait b) (db_max_wait b) (db_wheel b).

Definition debouncer_create (wheel : bool) (ctx : Z) (cb : bool) (wait max_wait : Z) : debouncer_t :=
  mkDebouncer refcounter_init 0 ctx cb (mkTimeval 0 0) wait max_wait wheel.

(** The timer of a debouncer. *)
Definition debouncer_arm (b : debouncer_t) (hw : hierarchical_timing_wheel_t)
  : exec (debouncer_t * hierarchical_timing_wheel_t) :=
  '(id, hw1) <- hierarchical_timing_wheel_set_timer hw (db_ctx b) (mkDuration 0 0 0 0 (db_wait b)) ;;
  Ret (db_with_timer b id, hw1).

(** [now] and [later] are the readings of the clock. *)
Definition debouncer_debounce (b : debouncer_t) (hw : hierarchical_timing_wheel_t) (now later : timeval_t)
  : exec (debouncer_t * hierarchical_timing_wheel_t) :=
  if negb (db_wheel b) then Ret (b, hw)
  else if db_timerId b =? 0 then
    '(b1, hw1) <- debouncer_arm b hw ;;
    Ret (if 0 <? db_max_wait b then db_with_start b1 now else b1, hw1)
  else
    '(b1, hw1) <-
      (if 0 <? db_max_wait b then
         elapsed <- elapsed_time (db_interval_start b) now ;;
         if db_max_wait b <=? elapsed then Ret (db_with_start b later, hw)
         else hw1 <- hierarchical_timing_wheel_cancel_timer hw (db_timerId b) ;; Ret (b, hw1)
       else hw1 <- hierarchical_timing_wheel_cancel_timer hw (db_timerId b) ;; Ret (b, hw1)) ;;
    debouncer_arm b1 hw1.

(** The callbacks run, by their contexts. *)
Definition debouncer_flush (b : debouncer_t) (hw : hierarchical_timing_wheel_t)
  : exec (debouncer_t * hierarchical_timing_wheel_t * list Z) :=
  if negb (db_wheel b) then Ret (b, hw, [])
  else if db_timerId b =? 0 then Ret (b, hw, [])
  else
    hw1 <- hierarchical_timing_wheel_cancel_timer hw (db_timerId b) ;;
    if db_cb b then Ret (db_with_timer b 0, hw1, [db_ctx b]) else Trap.

(** [None]: the debouncer is freed. *)
Definition debouncer_destroy (b : debouncer_t) (hw : hierarchical_timing_wheel_t)
  : exec (option debouncer_t * hierarchical_timing_wheel_t * list Z) :=
  let r := refcounter_dereference (db_refcounter b) in
  if refcounter_count r =? 0 then
    if db_wheel b && negb (db_timerId b =? 0) then
      hw1 <- hierarchical_timing_wheel_cancel_timer hw (db_timerId b) ;;
      Ret (None, hw1, if db_cb b then [db_ctx b] else [])
    else Ret (None, hw, [])
  else Ret (Some (db_with_refs b r), hw, []).

(** ** Bursts *)

(** When a timer of [wait] milliseconds on a wheel of [n] slots is handed over
    (as [timer_fires_at] has it). *)
Definition debounce_due (n wait : Z) : Z := if wait <=? n then wait else wait - n.

(** A run of a debouncer without maximum: [since] is the number of ticks of the
    milliseconds wheel since the last call.  Other users of the wheel do what they
    like, except setting the debouncer's callback or cancelling its timer; fewer
    than [2 ^ 64] timers are set in all. *)
Inductive bursts (b0 : debouncer_t) (hw0 : hierarchical_timing_wheel_t)
  : debouncer_t → hierarchical_timing_wheel_t → list wheel_work → Z → Prop :=
| burst_first now later b hw :
    hw_next_id hw0 + 1 < 2 ^ 64 → debouncer_debounce b0 hw0 now later = Ret (b, hw) → bursts b0 hw0 b hw [] 0
| burst_again b hw works since now later b' hw' :
    bursts b0 hw0 b hw works since → hw_next_id hw + 1 < 2 ^ 64 → debouncer_debounce b hw now later = Ret (b', hw') →
    bursts b0 hw0 b' hw' works 0
| burst_other b hw works since op hw' works' :
    bursts b0 hw0 b hw works since → hw_next_id hw + 1 < 2 ^ 64 → unrelated (db_ctx b) (db_timerId b) op →
    since + ticks milliseconds [op] < debounce_due (slots_len hw milliseconds) (db_wait b) →
    hw_step hw op = Ret (hw', works') →
    bursts b0 hw0 b hw' (works ++ works') (since + ticks milliseconds [op]).

(** ** The map of timers *)

(** One operation of a running hierarchy, whatever it is. *)
Lemma step_frame hw op hw' works :
  hw_wf hw → running hw → hw_next_id hw + 1 < 2 ^ 64 → hw_step hw op = Ret (hw', works) →
  hw_next_id hw <= hw_next_id hw' <= hw_next_id hw + 1 ∧ ∀ l, slots_len hw' l = slots_len hw l.
Proof.
  intros W R Hn E. destruct op as [k|ctx' delay|id']; cbn [hw_step] in E.
  - destruct (on_tick_spec hw k W (R k)) as (hw2 & ws & E3 & _ & [(hw1 & T & S & _) _ _ _ _ N]). rewrite E in E3. injection E3 as <- <-.
    split; [lia|]. intros l. destruct (S l) as (_ & -> & _). apply (turn_len _ _ _ T).
  - apply bind_ret in E as ([id1 hw1] & E & [= <- <-]).
    destruct (hierarchical_set_spec hw ctx' delay W Hn) as (d & k & hw2 & _ & E2 & _ & S & _ & _ & _ & _ & N).
    rewrite E in E2. injection E2 as -> ->. split; [lia|]. intros l. by destruct (S l) as (_ & -> & _).
  - apply bind_ret in E as (hw1 & E & [= <- <-]). destruct (cancel_spec hw id' W) as (hw2 & E2 & _ & S & _ & _ & _ & N).
    rewrite E in E2. injection E2 as <-. split; [lia|]. intros l. by destruct (S l) as (_ & -> & _).
Qed.

(** A timer that is not handed over stays registered. *)
Lemma mapped_step hw op hw' works ctx id a :
  hw_wf hw → running hw → hw_timers hw !! id = Some a → hw_next_id hw + 1 < 2 ^ 64 → unrelated ctx id op →
  (∀ l, op = OpTick l → a ∉ due_now hw l) → hw_step hw op = Ret (hw', works) → hw_timers hw' !! id = Some a.
Proof.
  intros W R Hm Hn Hu Hnd E. destruct op as [l|ctx' delay|id']; cbn [hw_step] in E; cbn [unrelated] in Hu.
  - destruct (on_tick_spec hw l W (R l)) as (hw2 & ws & E3 & _ & Tk). rewrite E in E3. injection E3 as <- <-.
    apply (tick_timers _ _ _ _ Tk). split; [done|by apply Hnd].
  - apply bind_ret in E as ([id1 hw1] & E & [= <- <-]).
    destruct (hierarchical_set_spec hw ctx' delay W Hn) as (d & k & hw2 & _ & E2 & _ & _ & _ & _ & _ & M & _).
    rewrite E in E2. injection E2 as -> ->. rewrite M, lookup_insert_ne; [done|].
    destruct (wf_map _ W _ _ Hm) as (_ & _ & t & Et & <-). destruct (wf_timer _ W _ _ Et) as (_ & Hlt & _). lia.
  - apply bind_ret in E as (hw1 & E & [= <- <-]). destruct (cancel_spec hw id' W) as (hw2 & E2 & _ & _ & _ & _ & M & _).
    rewrite E in E2. injection E2 as <-. by rewrite M, lookup_delete_ne.
Qed.

(** ** Runs *)

(** The debouncer's timer waits, registered, [r] ticks before it is due. *)
Definition pending (b : debouncer_t) (hw : hierarchical_timing_wheel_t) (r : Z) : Prop :=
  ∃ a t, waiting hw milliseconds a t (db_ctx b) r ∧ hw_timers hw !! db_timerId b = Some a ∧ ti_timerId t = db_timerId b ∧
    ti_steps t = [(db_wait b, milliseconds)] ∧ ti_current t = 0%nat.

Lemma arm_pending b hw b' hw' :
  hw_wf hw → running hw → 1 <= db_wait b <= 1000 → dead hw (db_ctx b) → hw_next_id hw + 1 < 2 ^ 64 →
  debouncer_arm b hw = Ret (b', hw') →
  b' = db_with_timer b (hw_next_id hw) ∧ same_shape hw hw' ∧
  pending b' hw' (debounce_due (slots_len hw milliseconds) (db_wait b)).
Proof.
  intros W R Hw Hd Hn. unfold debouncer_arm. change (mkDuration 0 0 0 0 (db_wait b)) with (milliseconds_delay (db_wait b)).
  destruct (new_waiting hw (db_ctx b) (db_wait b) W R Hn Hw Hd) as (hw1 & t & E & _ & Eid & Es & Ec & Wg).
  destruct (hierarchical_set_spec hw (db_ctx b) (milliseconds_delay (db_wait b)) W Hn) as (d & l & hw2 & _ & E2 & _ & S & _ & _ & _ & M & _).
  rewrite E in E2. injection E2 as <-. rewrite E. cbn [xbind]. intros [= <- <-]. split_and!; [done|done|].
  exists (hw_next_addr hw), t. split_and!; [exact Wg| |exact Eid|exact Es|exact Ec]. cbn. rewrite M. apply lookup_insert_eq.
Qed.

Lemma waiting_not_due hw l a t ctx r k :
  waiting hw l a t ctx r → is_tick l (OpTick k) && (r =? 1) = false → a ∉ due_now hw k.
Proof.
  intros [W R Wt So Hr Hw] Hk. cbn [is_tick] in Hk. case_bool_decide as Ek; [subst k|].
  - destruct (wheel_advance_spec hw l W) as (hw' & _ & T).
    destruct (turn_waits hw hw' l a t r W T Hr Wt) as [[-> _]|(_ & H & _)]; [done|exact H].
  - intros [Hd _]%due_elem. destruct Wt as (p & c & Hin & _). by destruct (wf_unique _ W _ _ _ _ _ Hin Hd) as [-> _].
Qed.

Lemma one_left hw op : hw_next_id hw + 1 < 2 ^ 64 → ids_left hw [op].
Proof. intros H. unfold ids_left. rewrite settings_cons. change (settings []) with 0. destruct (is_set op); lia. Qed.

Lemma pending_step b hw r op hw' works :
  pending b hw r → hw_next_id hw + 1 < 2 ^ 64 → unrelated (db_ctx b) (db_timerId b) op →
  ticks milliseconds [op] < r → hw_step hw op = Ret (hw', works) →
  pending b hw' (r - ticks milliseconds [op]) ∧ WCallback (db_ctx b) ∉ works.
Proof.
  intros (a & t & Wg & O & Ei & Es & Ec) Hn Hu Hlt E. pose proof Wg as [W R _ _ _ _].
  rewrite ticks_cons in *. change (ticks milliseconds []) with 0 in *. rewrite Z.add_0_r in *.
  assert (Hf : is_tick milliseconds op && (r =? 1) = false).
  { destruct (is_tick milliseconds op); [|done]. apply Z.eqb_neq. lia. }
  rewrite <- Ei in Hu. destruct (step_waiting _ _ _ _ _ _ _ Wg (one_left hw op Hn) Hu) as (hw2 & ws & E2 & _ & H). rewrite E in E2. injection E2 as <- <-.
  rewrite Hf in H. destruct H as [Hw Wg']. split; [|done]. rewrite Ei in Hu. exists a, t. split_and!; try done.
  - replace (r - _) with (if is_tick milliseconds op then r - 1 else r) by (destruct (is_tick _ _); lia). exact Wg'.
  - eapply mapped_step; [exact W|exact R|exact O|exact Hn|exact Hu| |exact E].
    intros l ->. eapply waiting_not_due; [exact Wg|exact Hf].
Qed.

(** What the operations never change. *)
Definition same_settings (b b' : debouncer_t) : Prop :=
  db_ctx b' = db_ctx b ∧ db_wait b' = db_wait b ∧ db_max_wait b' = db_max_wait b ∧ db_wheel b' = db_wheel b.

Lemma again_pending b hw r now later :
  pending b hw r → hw_next_id hw + 1 < 2 ^ 64 → 1 <= db_wait b <= 1000 → db_max_wait b = 0 →
  db_wheel b = true →
  ∃ b' hw', debouncer_debounce b hw now later = Ret (b', hw') ∧ same_settings b b' ∧
    slots_len hw' milliseconds = slots_len hw milliseconds ∧
    pending b' hw' (debounce_due (slots_len hw milliseconds) (db_wait b)).
Proof.
  intros (a & t & Wg & O & Ei & _) Hn Hw Hm Hwh. pose proof Wg as [W R _ So _ _]. destruct (wf_map _ W _ _ O) as (Hpos & _).
  unfold debouncer_debounce. rewrite Hwh, Hm. cbn [negb]. rewrite (proj2 (Z.eqb_neq _ 0)) by lia.
  destruct (cancel_spec hw (db_timerId b) W) as (hw1 & E1 & W1 & S1 & _ & _ & _ & Hid). cbn [Z.ltb Z.compare]. rewrite E1. cbn [xbind].
  assert (Hd : dead hw1 (db_ctx b)).
  { intros x Hx. destruct (cancel_armed _ _ _ _ x W E1 Hx) as [Hx1 Hne]. apply Hne. by rewrite (So x Hx1). }
  assert (R1 : running hw1) by by eapply running_shape.
  destruct (debouncer_arm b hw1) as [[b' hw']|] eqn:Ea.
  2:{ exfalso. unfold debouncer_arm in Ea. destruct (hierarchical_set_spec hw1 (db_ctx b) (mkDuration 0 0 0 0 (db_wait b)) W1)
        as (d & l & hw2 & _ & E2 & _); [lia|]. by rewrite E2 in Ea. }
  destruct (arm_pending b hw1 b' hw' W1 R1 Hw Hd) as (-> & S2 & Hp); [by rewrite Hid|done|].
  exists (db_with_timer b (hw_next_id hw1)), hw'. destruct (S1 milliseconds) as (_ & L1 & _), (S2 milliseconds) as (_ & L2 & _).
  rewrite L1 in Hp. split_and!; try done. by rewrite L2.
Qed.

Lemma bursts_pending b0 hw0 b hw works since :
  hw_wf hw0 → running hw0 → dead hw0 (db_ctx b0) → db_timerId b0 = 0 → db_max_wait b0 = 0 →
  db_wheel b0 = true → 1 <= db_wait b0 <= 1000 → bursts b0 hw0 b hw works since →
  same_settings b0 b ∧ slots_len hw milliseconds = slots_len hw0 milliseconds ∧ 0 <= since ∧
  pending b hw (debounce_due (slots_len hw0 milliseconds) (db_wait b0) - since) ∧ WCallback (db_ctx b0) ∉ works.
Proof.
  intros W R Hd Hid Hm Hwh Hw Hb. induction Hb as [now later b hw Hn E|b hw works since now later b' hw' _ IH Hn E
      |b hw works since op hw' works' _ IH Hn Hu Hlt E].
  - unfold debouncer_debounce in E. rewrite Hwh, Hid, Hm in E. cbn [negb Z.eqb Z.ltb Z.compare] in E.
    apply bind_ret in E as ([b1 hw1] & E & [= <- <-]).
    destruct (arm_pending b0 hw0 b1 hw1 W R Hw Hd Hn E) as (-> & S & Hp). destruct (S milliseconds) as (_ & L & _).
    rewrite Z.sub_0_r. split_and!; try done. set_solver.
  - destruct IH as ((S1 & S2 & S3 & S4) & Hl & _ & Hp & Hno).
    destruct (again_pending b hw _ now later Hp Hn) as (b2 & hw2 & E2 & (T1 & T2 & T3 & T4) & Hl2 & Hp2);
      [by rewrite S2|by rewrite S3|by rewrite S4|].
    rewrite E in E2. injection E2 as -> ->. rewrite Hl, S2 in Hp2. rewrite Z.sub_0_r.
    split_and!; try done; [split_and!; congruence|congruence].
  - destruct IH as ((S1 & S2 & S3 & S4) & Hl & H0 & Hp & Hno). rewrite Hl, S2 in Hlt.
    destruct (pending_step b hw _ op hw' works' Hp Hn Hu ltac:(lia) E) as [Hp' Hno'].
    destruct Hp as (a & t & [W1 R1 _ _ _ _] & _). destruct (step_frame hw op hw' works' W1 R1 Hn E) as [_ Hlen].
    pose proof (ticks_nonneg milliseconds [op]). rewrite S1 in Hno'.
    split_and!; [done..|by rewrite Hlen|lia| |by rewrite elem_of_app; tauto].
    by rewrite Z.sub_add_distr.
Qed.

(** A debouncer fires once calls stop: in every run of calls and other uses of
    the wheel in which no pause reaches [wait], the callback is never queued; a
    further call is always possible and succeeds; and the tick that completes a
    pause of [wait] (as the wheel counts it) queues the callback. *)
Theorem debouncer_fires_after_pause b0 hw0 b hw works since :
  hw_wf hw0 → running hw0 → dead hw0 (db_ctx b0) → db_timerId b0 = 0 → db_max_wait b0 = 0 →
  db_wheel b0 = true → 1 <= db_wait b0 <= 1000 → bursts b0 hw0 b hw works since →
  (WCallback (db_ctx b0) ∉ works) ∧
  (hw_next_id hw + 1 < 2 ^ 64 → ∀ now later, ∃ b' hw', debouncer_debounce b hw now later = Ret (b', hw')) ∧
  (since = debounce_due (slots_len hw0 milliseconds) (db_wait b0) - 1 →
     ∃ hw' works', hw_step hw (OpTick milliseconds) = Ret (hw', works') ∧ WCallback (db_ctx b0) ∈ works').
Proof.
  intros W R Hd Hid Hm Hwh Hw Hb.
  destruct (bursts_pending _ _ _ _ _ _ W R Hd Hid Hm Hwh Hw Hb) as ((S1 & S2 & S3 & S4) & Hl & H0 & Hp & Hno).
  split_and!; [done| |].
  - intros Hn now later. destruct (again_pending b hw _ now later Hp Hn) as (b' & hw' & E & _); [by rewrite S2|by rewrite S3|by rewrite S4|].
    by exists b', hw'.
  - intros ->. destruct Hp as (a & t & Wg & _ & _ & Es & Ec).
    assert (Hn : ids_left hw [OpTick milliseconds]) by (unfold ids_left, settings, zlen; cbn; pose proof (wf_ids _ (wg_wf _ _ _ _ _ _ Wg)); lia).
    destruct (step_waiting _ _ _ _ _ _ (OpTick milliseconds) Wg Hn I) as (hw' & works' & E & _ & H). exists hw', works'. split; [done|].
    replace (_ - (_ - 1)) with 1 in H by lia. rewrite S1, Es, Ec in H. apply H. cbn. lia.
Qed.

(** A call, a tick, a second call, a tick: with [wait] 2 the next tick fires. *)
Definition demo_call (st : debouncer_t * hierarchical_timing_wheel_t) : debouncer_t * hierarchical_timing_wheel_t :=
  match debouncer_debounce st.1 st.2 (mkTimeval 0 0) (mkTimeval 0 0) with Ret r => r | Trap => st end.

Definition demo_tick (hw : hierarchical_timing_wheel_t) : hierarchical_timing_wheel_t :=
  match hw_step hw (OpTick milliseconds) with Ret r => r.1 | Trap => hw end.

Definition demo_bouncer : debouncer_t := debouncer_create true 7 true 2 0.
Definition demo_wheel : hierarchical_timing_wheel_t := hierarchical_timing_wheel_create 8.
Definition demo_first : debouncer_t * hierarchical_timing_wheel_t := demo_call (demo_bouncer, demo_wheel).
Definition demo_second : debouncer_t * hierarchical_timing_wheel_t := demo_call (demo_first.1, demo_tick demo_first.2).

Lemma demo_bursts :
  bursts demo_bouncer demo_wheel demo_second.1 (demo_tick demo_second.2) ([WTick milliseconds] ++ [WTick milliseconds]) 1.
Proof.
  apply (burst_other _ _ demo_second.1 demo_second.2 [WTick milliseconds] 0 (OpTick milliseconds));
    [|vm_compute; reflexivity|exact I|vm_compute; reflexivity|vm_compute; reflexivity].
  apply (burst_again _ _ demo_first.1 (demo_tick demo_first.2) _ 1 (mkTimeval 0 0) (mkTimeval 0 0));
    [|vm_compute; reflexivity|vm_compute; reflexivity].
  apply (burst_other _ _ demo_first.1 demo_first.2 [] 0 (OpTick milliseconds));
    [|vm_compute; reflexivity|exact I|vm_compute; reflexivity|vm_compute; reflexivity].
  apply (burst_first _ _ (mkTimeval 0 0) (mkTimeval 0 0)); vm_compute; reflexivity.
Qed.

Lemma debouncer_fires_after_pause_witness :
  ∃ hw' works', hw_step (demo_tick demo_second.2) (OpTick milliseconds) = Ret (hw', works') ∧ WCallback 7 ∈ works'.
Proof.
  destruct (create_wf 8) as [W R]; [lia|lia|].
  apply (debouncer_fires_after_pause demo_bouncer demo_wheel demo_second.1 (demo_tick demo_second.2)
    ([WTick milliseconds] ++ [WTick milliseconds]) 1).
  - exact W.
  - exact R.
  - intros x (_ & t & Hx & _). cbn in Hx. by rewrite lookup_empty in Hx.
  - reflexivity.
  - reflexivity.
  - reflexivity.
  - cbn. lia.
  - exact demo_bursts.
  - reflexivity.
Defined.

(** ** Limits *)

(** The identifier of a timer that has fired is kept: flushing afterwards runs
    the callback a second time. *)
Lemma flush_after_fire_repeats :
  ('(b, hw) <- debouncer_debounce (debouncer_create true 7 true 3 0) (hierarchical_timing_wheel_create 8)
                 (mkTimeval 0 0) (mkTimeval 0 0) ;;
   '(hw1, works) <- run_ops hw (replicate 3 (OpTick milliseconds)) ;;
   '(_, _, again) <- debouncer_flush b hw1 ;;
   Ret (works, again)) = Ret (replicate 3 (WTick milliseconds) ++ [WCallback 7], [7]).
Proof. vm_compute. reflexivity. Qed.

(** Past the maximum wait the pending timer is not cancelled and a second one is
    set: the callback is queued twice. *)
Lemma max_wait_fires_twice :
  ('(b, hw) <- debouncer_debounce (debouncer_create true 7 true 5 2) (hierarchical_timing_wheel_create 8)
                 (mkTimeval 100 0) (mkTimeval 100 0) ;;
   '(hw1, _) <- run_ops hw (replicate 3 (OpTick milliseconds)) ;;
   '(_, hw2) <- debouncer_debounce b hw1 (mkTimeval 100 3000) (mkTimeval 100 3000) ;;
   '(_, works) <- run_ops hw2 (replicate 5 (OpTick milliseconds)) ;;
   Ret (List.filter (fun w => match w with WCallback _ => true | _ => false end) works)) = Ret [WCallback 7; WCallback 7].
Proof. vm_compute. reflexivity. Qed.

(** A clock that is set back by a millisecond or more makes the next call with a
    maximum wait undefined. *)
Lemma clock_back_undefined b hw now later :
  db_wheel b = true → db_timerId b ≠ 0 → 0 < db_max_wait b →
  tv_sec now = tv_sec (db_interval_start b) → tv_usec now + 1000 <= tv_usec (db_interval_start b) →
  debouncer_debounce b hw now later = Trap.
Proof.
  intros Hw Hid Hm Hs Hu. unfold debouncer_debounce, elapsed_time. rewrite Hw, (proj2 (Z.eqb_neq _ 0)) by done. cbn [negb].
  rewrite (proj2 (Z.ltb_lt 0 _)) by done. rewrite Hs, (proj2 (Z.leb_le _ _)) by lia. done.
Qed.
