(* ===== verification/KeyPair.v ===== *)
(** * KeyPair: key pairs and signatures, [src/Crypto/key_pair.c]

    OpenSSL is the interface [OpenSSL]; what the code relies on is [OpenSSLLaws].
    Whether an allocation or an initialisation of OpenSSL succeeds, and how far a
    write gets, are arguments.  Every object the code opens (contexts, keys,
    certificates, digests, files) is logged when it is opened and when it is
    closed.  The file implements the interface [SignatureScheme] the channel layer
    is proved against. *)

From stdpp Require Import gmap.
From S2P Require Import Prelude CString Refcount Cbor Endian Base58 Node NodeId Packet ChannelPacket Notice.

(** ** OpenSSL *)

Definition EVP_PKEY_RSA : Z := 6.
Definition EVP_PKEY_EC : Z := 408.
Definition EVP_PKEY_ED25519 : Z := 1087.

Inductive digest := EVP_sha256.

#[export] Instance digest_eq_dec : EqDecision digest.
Proof. solve_decision. Defined.

(** [P] is the content of an [EVP_PKEY], with or without its private half.
    [i2d_PUBKEY] writes nothing when it fails; [EVP_DigestSign] is given the room
    for the signature. *)
Class OpenSSL (P : Type) := {
  EVP_PKEY_base_id : P → Z;
  EVP_PKEY_size : P → Z;
  i2d_PUBKEY : P → list Z;
  d2i_PUBKEY : list Z → option P;
  EVP_DigestSign : P → Z → list Z → option (list Z);
  EVP_DigestVerify : option digest → P → list Z → list Z → bool;
  PEM_PrivateKey : P → list Z;
  PEM_PUBKEY : P → list Z;
  PEM_read_PrivateKey : list Z → option P
}.

(** Reading a written key gives the key; the encoded public half checks what the
    private half signed, without a digest for Ed25519 (RFC 8410), and the
    signature fits the size announced for it. *)
Class OpenSSLLaws (P : Type) `{!OpenSSL P} : Prop := {
  pem_law : ∀ k, PEM_read_PrivateKey (PEM_PrivateKey k) = Some k;
  public_law : ∀ k, ∃ p, d2i_PUBKEY (i2d_PUBKEY k) = Some p ∧
    ∀ m s, EVP_PKEY_base_id k = EVP_PKEY_ED25519 → EVP_DigestSign k (EVP_PKEY_size k) m = Some s →
      EVP_DigestVerify None p m s = true;
  size_law : ∀ k m s, EVP_DigestSign k (EVP_PKEY_size k) m = Some s → zlen s <= EVP_PKEY_size k
}.

Inductive ssl_object := OPkeyCtx | OPkey | OCert | OMdCtx | OFile.

#[export] Instance ssl_object_eq_dec : EqDecision ssl_object.
Proof. solve_decision. Defined.

Inductive ssl_call := Opened (o : ssl_object) | Closed (o : ssl_object).

(** A file has permission bits and content. *)
Record file_t := mkFile { fl_mode : Z; fl_data : list Z }.

Abbreviation files := (gmap (list Z) file_t).

Record key_world := mkKeyWorld {
  kw_umask : Z;
  kw_files : files;
  kw_log : list ssl_call
}.

Definition kw_say (w : key_world) (l : list ssl_call) : key_world :=
  mkKeyWorld (kw_umask w) (kw_files w) (kw_log w ++ l).

Definition kw_put (w : key_world) (path : list Z) (f : file_t) : key_world :=
  mkKeyWorld (kw_umask w) (<[path := f]> (kw_files w)) (kw_log w).

(** Opening for writing with creation and truncation: the mode is that of an
    existing file, else the one asked for less the mask. *)
Definition open_truncated (w : key_world) (path : list Z) (mode : Z) : file_t :=
  mkFile (match kw_files w !! path with Some f => fl_mode f | None => Z.land mode (Z.lnot (kw_umask w)) end) [].

(** How writing a file goes: whether it opens, whether [fdopen] serves a stream,
    what the PEM writer returns, and what of its output is on the disk after
    [fclose]. *)
Record write_outcome := mkWrite {
  wo_open : bool;
  wo_fdopen : bool;
  wo_ret : Z;
  wo_disk : list Z → list Z
}.

Definition write_ok : write_outcome := mkWrite true true 1 id.

Section key_pair.
Context {P : Type} `{!OpenSSL P}.

Record poseidon_key_pair_t := mkKeyPair {
  kp_refs : refcounter_t;
  kp_pkey : P;
  kp_key_type : list Z
}.

(** ** Generation *)

(** Context, initialisation, parameters, generation. *)
Record keygen_outcome := mkKeygen {
  kg_ctx : bool;
  kg_init : Z;
  kg_params : Z;
  kg_key : option P
}.

Definition generate_key (o : keygen_outcome) (w : key_world) : option P * key_world :=
  match kg_key o with
  | None => (None, kw_say w [Closed OPkeyCtx])
  | Some k => (Some k, kw_say w [Opened OPkey; Closed OPkeyCtx])
  end.

Definition generate_ed25519 (o : keygen_outcome) (w : key_world) : option P * key_world :=
  if negb (kg_ctx o) then (None, w)
  else
    let w1 := kw_say w [Opened OPkeyCtx] in
    if kg_init o <=? 0 then (None, kw_say w1 [Closed OPkeyCtx]) else generate_key o w1.

Definition generate_rsa (o : keygen_outcome) (w : key_world) : option P * key_world :=
  if negb (kg_ctx o) then (None, w)
  else
    let w1 := kw_say w [Opened OPkeyCtx] in
    if kg_init o <=? 0 then (None, kw_say w1 [Closed OPkeyCtx])
    else if kg_params o <=? 0 then (None, kw_say w1 [Closed OPkeyCtx])
    else generate_key o w1.

Definition generate_ec (o : keygen_outcome) (w : key_world) : option P * key_world :=
  if negb (kg_ctx o) then (None, w)
  else
    let w1 := kw_say w [Opened OPkeyCtx] in
    if kg_init o <=? 0 then (None, kw_say w1 [Closed OPkeyCtx])
    else if kg_params o <=? 0 then (None, kw_say w1 [Closed OPkeyCtx])
    else generate_key o w1.

Definition default_key_type (key_type : option (list Z)) : list Z := default (lit "ED25519") key_type.

Definition strdup_key_type (key_type : option (list Z)) : list Z := default_key_type key_type.

Definition new_key_pair (pkey : P) (key_type : list Z) : poseidon_key_pair_t :=
  mkKeyPair refcounter_init pkey (strdup_key_type (Some key_type)).

Definition poseidon_key_pair_create (key_type : option (list Z)) (o : keygen_outcome) (w : key_world)
  : option poseidon_key_pair_t * key_world :=
  let kt := default_key_type key_type in
  let '(pkey, w1) :=
    if bool_decide (kt = lit "ED25519") then generate_ed25519 o w
    else if bool_decide (kt = lit "RSA") then generate_rsa o w
    else if bool_decide (kt = lit "EC") then generate_ec o w
    else (None, w) in
  match pkey with
  | None => (None, w1)
  | Some k => (Some (new_key_pair k kt), w1)
  end.

(** The key pair that is left, if it is still referenced. *)
Definition poseidon_key_pair_destroy (kp : poseidon_key_pair_t) (w : key_world)
  : option poseidon_key_pair_t * key_world :=
  let '(refs, freed) := released (kp_refs kp) in
  if freed then (None, kw_say w [Closed OPkey]) else (Some (mkKeyPair refs (kp_pkey kp) (kp_key_type kp)), w).

Definition poseidon_key_pair_get_public_key (kp : option poseidon_key_pair_t) : option (list Z) :=
  match kp with
  | None => None
  | Some k => let der := i2d_PUBKEY (kp_pkey k) in if zlen der <=? 0 then None else Some der
  end.

Definition poseidon_key_pair_get_key_type (kp : option poseidon_key_pair_t) : option (list Z) :=
  kp_key_type <$> kp.

(** ** PEM files *)

(** The stream is written and closed; the result of [fclose] is not looked at. *)
Definition write_stream (w : key_world) (path : list Z) (f : file_t) (o : write_outcome) (pem : list Z) : Z * key_world :=
  (if wo_ret o =? 1 then 0 else -1, kw_say (kw_put w path (mkFile (fl_mode f) (wo_disk o pem))) [Closed OFile]).

Definition poseidon_key_pair_save_private_key (kp : poseidon_key_pair_t) (filepath : list Z)
    (o : write_outcome) (w : key_world) : Z * key_world :=
  if negb (wo_open o) then (-1, w)
  else
    let f := open_truncated w filepath 0x180 in
    let w1 := kw_say (kw_put w filepath f) [Opened OFile] in
    if negb (wo_fdopen o) then (-1, kw_say w1 [Closed OFile])
    else write_stream w1 filepath f o (PEM_PrivateKey (kp_pkey kp)).

(** [fopen(filepath, "w")], then the PEM form of [what]. *)
Definition save_pem (filepath : list Z) (o : write_outcome) (pem : list Z) (w : key_world) : Z * key_world :=
  if negb (wo_open o) then (-1, w)
  else
    let f := open_truncated w filepath 0x1B6 in
    write_stream (kw_say (kw_put w filepath f) [Opened OFile]) filepath f o pem.

Definition poseidon_key_pair_save_public_key (kp : poseidon_key_pair_t) (filepath : list Z)
    (o : write_outcome) (w : key_world) : Z * key_world :=
  save_pem filepath o (PEM_PUBKEY (kp_pkey kp)) w.

(** [readable]: whether an existing file opens. *)
Definition poseidon_key_pair_load_from_pem (filepath : list Z) (readable : bool) (w : key_world)
  : option poseidon_key_pair_t * key_world :=
  match kw_files w !! filepath with
  | Some f =>
      if negb readable then (None, w)
      else
        let w1 := kw_say w [Opened OFile] in
        match PEM_read_PrivateKey (fl_data f) with
        | None => (None, kw_say w1 [Closed OFile])
        | Some pkey =>
            let w2 := kw_say w1 [Opened OPkey; Closed OFile] in
            let id := EVP_PKEY_base_id pkey in
            if id =? EVP_PKEY_ED25519 then (Some (new_key_pair pkey (lit "ED25519")), w2)
            else if id =? EVP_PKEY_RSA then (Some (new_key_pair pkey (lit "RSA")), w2)
            else if id =? EVP_PKEY_EC then (Some (new_key_pair pkey (lit "EC")), w2)
            else (None, kw_say w2 [Closed OPkey])
        end
  | None => (None, w)
  end.

(** ** Certificates *)

(** The fields the code sets; the name is absent when it could not be added. *)
Record x509_t := mkX509 {
  xc_version : Z;
  xc_serial : Z;
  xc_not_before : Z;
  xc_not_after : Z;
  xc_subject : option (list Z);
  xc_issuer : option (list Z);
  xc_pubkey : P;
  xc_digest : option digest
}.

Record cert_outcome := mkCert {
  co_new : bool;
  co_name : bool;
  co_sign : Z
}.

Definition signing_digest (pkey : P) : option digest :=
  if EVP_PKEY_base_id pkey =? EVP_PKEY_ED25519 then None else Some EVP_sha256.

(** [now] is the time of the call, in seconds. *)
Definition poseidon_key_pair_generate_certificate (kp : poseidon_key_pair_t) (node_id_str : list Z)
    (now : Z) (o : cert_outcome) (w : key_world) : option x509_t * key_world :=
  if negb (co_new o) then (None, w)
  else
    let w1 := kw_say w [Opened OCert] in
    let name := if co_name o then Some node_id_str else None in
    let cert := mkX509 2 1 now (now + 3650 * 24 * 60 * 60) name name (kp_pkey kp) (signing_digest (kp_pkey kp)) in
    if co_sign o <=? 0 then (None, kw_say w1 [Closed OCert]) else (Some cert, w1).

Section tls_files.
Context (PEM_X509 : x509_t → list Z).

Definition poseidon_certificate_save_to_pem (cert : x509_t) (filepath : list Z) (o : write_outcome) (w : key_world)
  : Z * key_world :=
  save_pem filepath o (PEM_X509 cert) w.

Definition poseidon_key_pair_generate_tls_files (kp : poseidon_key_pair_t) (node_id_str key_path cert_path : list Z)
    (now : Z) (oc : cert_outcome) (ok ox : write_outcome) (w : key_world) : Z * key_world :=
  match poseidon_key_pair_generate_certificate kp node_id_str now oc w with
  | (None, w1) => (-1, w1)
  | (Some cert, w1) =>
      let '(rk, w2) := poseidon_key_pair_save_private_key kp key_path ok w1 in
      if negb (rk =? 0) then (-1, kw_say w2 [Closed OCert])
      else
        let '(rc, w3) := poseidon_certificate_save_to_pem cert cert_path ox w2 in
        if negb (rc =? 0) then (-1, kw_say w3 [Closed OCert]) else (0, kw_say w3 [Closed OCert])
  end.
End tls_files.

(** ** Signatures *)

(** Whether the digest context is served, and what its initialisation returns. *)
Record md_outcome := mkMd {
  md_new : bool;
  md_init : Z
}.

Definition poseidon_key_pair_sign (kp : poseidon_key_pair_t) (data : list Z) (o : md_outcome) (w : key_world)
  : option (list Z) * key_world :=
  if negb (EVP_PKEY_base_id (kp_pkey kp) =? EVP_PKEY_ED25519) then (None, w)
  else
    let sig_sz := EVP_PKEY_size (kp_pkey kp) in
    if negb (md_new o) then (None, w)
    else
      let w1 := kw_say w [Opened OMdCtx] in
      let sig := if md_init o =? 1 then EVP_DigestSign (kp_pkey kp) sig_sz data else None in
      (sig, kw_say w1 [Closed OMdCtx]).

Definition poseidon_verify_signature (topic_id_str data signature : list Z) : Z := -1.

(** The result of a check with the digest [md]. *)
Definition digest_verify (md : option digest) (pkey : P) (data signature : list Z) (o : md_outcome) : Z :=
  if md_init o =? 1 then (if EVP_DigestVerify md pkey data signature then 0 else -1) else -1.

Definition poseidon_verify_signature_with_key (key_type public_key data signature : list Z) (o : md_outcome)
    (w : key_world) : Z * key_world :=
  match d2i_PUBKEY public_key with
  | None => (-1, w)
  | Some pkey =>
      let w1 := kw_say w [Opened OPkey] in
      if negb (md_new o) then (-1, kw_say w1 [Closed OPkey])
      else
        let w2 := kw_say w1 [Opened OMdCtx] in
        let result :=
          if bool_decide (key_type = lit "ED25519") then digest_verify None pkey data signature o
          else if bool_decide (key_type = lit "RSA") then digest_verify (Some EVP_sha256) pkey data signature o
          else if bool_decide (key_type = lit "EC") then digest_verify (Some EVP_sha256) pkey data signature o
          else -1 in
        (result, kw_say w2 [Closed OMdCtx; Closed OPkey])
  end.
End key_pair.

Arguments poseidon_key_pair_t P : clear implicits.
Arguments keygen_outcome P : clear implicits.
Arguments x509_t P : clear implicits.

(** ** Opened and closed *)

Definition object_delta (o : ssl_object) (c : ssl_call) : Z :=
  match c with
  | Opened x => if bool_decide (x = o) then 1 else 0
  | Closed x => if bool_decide (x = o) then -1 else 0
  end.

(** The objects of a kind that are open after the calls of a log. *)
Definition live (o : ssl_object) (l : list ssl_call) : Z := foldr (fun c n => object_delta o c + n) 0 l.

Lemma live_app o l1 l2 : live o (l1 ++ l2) = live o l1 + live o l2.
Proof. induction l1 as [|c l1 IH]; cbn [live foldr app] in *; [done|]. unfold live in *. lia. Qed.

(** The keys an operation leaves open are [d] more than before, and nothing else
    is left open. *)
Definition opens (d : Z) (w w' : key_world) : Prop :=
  ∀ o, live o (kw_log w') = live o (kw_log w) + if bool_decide (o = OPkey) then d else 0.

Lemma opens_refl w : opens 0 w w.
Proof. intros o. case_bool_decide; lia. Qed.

Lemma opens_trans d1 d2 w1 w2 w3 : opens d1 w1 w2 → opens d2 w2 w3 → opens (d1 + d2) w1 w3.
Proof. intros H1 H2 o. rewrite (H2 o), (H1 o). case_bool_decide; lia. Qed.

Definition one_if {A} (x : option A) : Z := match x with Some _ => 1 | None => 0 end.

Ltac opens_case :=
  intros []; unfold kw_say, kw_put; cbn [kw_log negb fst snd one_if]; rewrite ?live_app;
  unfold live, object_delta; cbn [foldr]; repeat case_bool_decide; try done; lia.

Section key_pair_lemmas.
Context {P : Type} `{!OpenSSL P}.
Implicit Types (kp : poseidon_key_pair_t P) (w : key_world).

Lemma generate_opens (o : keygen_outcome P) w :
  opens (one_if (generate_ed25519 o w).1) w (generate_ed25519 o w).2 ∧
  opens (one_if (generate_rsa o w).1) w (generate_rsa o w).2 ∧
  opens (one_if (generate_ec o w).1) w (generate_ec o w).2.
Proof.
  unfold generate_ed25519, generate_rsa, generate_ec, generate_key.
  destruct (kg_ctx o), (kg_init o <=? 0), (kg_params o <=? 0), (kg_key o); cbn; split_and!; opens_case.
Qed.

Lemma create_opens kt (o : keygen_outcome P) w :
  opens (one_if (poseidon_key_pair_create kt o w).1) w (poseidon_key_pair_create kt o w).2.
Proof.
  destruct (generate_opens o w) as (H1 & H2 & H3). unfold poseidon_key_pair_create.
  destruct (generate_ed25519 o w) as [[] ?], (generate_rsa o w) as [[] ?], (generate_ec o w) as [[] ?];
    repeat case_bool_decide; cbn in *; first [done|apply opens_refl].
Qed.

Lemma load_opens path readable w :
  opens (one_if (poseidon_key_pair_load_from_pem (P := P) path readable w).1) w
    (poseidon_key_pair_load_from_pem (P := P) path readable w).2.
Proof.
  unfold poseidon_key_pair_load_from_pem. destruct (kw_files w !! path) as [f|]; [|opens_case].
  destruct readable; [|opens_case]. cbn [negb].
  destruct (PEM_read_PrivateKey (fl_data f)) as [k|]; [|opens_case].
  repeat case_match; opens_case.
Qed.

Lemma destroy_opens kp w :
  opens (one_if (poseidon_key_pair_destroy kp w).1 - 1) w (poseidon_key_pair_destroy kp w).2.
Proof. unfold poseidon_key_pair_destroy. destruct (released (kp_refs kp)) as [r []]; opens_case. Qed.

Lemma save_opens path o pem w : opens 0 w (save_pem path o pem w).2.
Proof. unfold save_pem, write_stream. destruct (wo_open o); opens_case. Qed.

Lemma save_private_opens kp path o w : opens 0 w (poseidon_key_pair_save_private_key kp path o w).2.
Proof.
  unfold poseidon_key_pair_save_private_key, write_stream. destruct (wo_open o); [|opens_case].
  destruct (wo_fdopen o); opens_case.
Qed.

Lemma tls_opens pem kp s pk pc now oc ok ox w :
  opens 0 w (poseidon_key_pair_generate_tls_files pem kp s pk pc now oc ok ox w).2.
Proof.
  unfold poseidon_key_pair_generate_tls_files, poseidon_key_pair_generate_certificate.
  destruct (co_new oc); [|opens_case]. cbn [negb]. destruct (co_sign oc <=? 0); [opens_case|].
  destruct (poseidon_key_pair_save_private_key kp pk ok (kw_say w [Opened OCert])) as [rk w2] eqn:E2.
  pose proof (save_private_opens kp pk ok (kw_say w [Opened OCert])) as H2. rewrite E2 in H2. cbn [snd] in H2.
  assert (Hc : ∀ w3, opens 0 (kw_say w [Opened OCert]) w3 → opens 0 w (kw_say w3 [Closed OCert])).
  { intros w3 H3 o. unfold kw_say at 1. cbn [kw_log]. rewrite live_app, (H3 o). unfold kw_say. cbn [kw_log].
    rewrite live_app. unfold live, object_delta. cbn [foldr]. repeat case_bool_decide; lia. }
  destruct (negb (rk =? 0)); [by apply Hc|]. unfold poseidon_certificate_save_to_pem.
  match goal with |- context [save_pem pc ox ?x w2] =>
    pose proof (save_opens pc ox x w2) as H3; destruct (save_pem pc ox x w2) as [rc w3] end.
  destruct (negb (rc =? 0)); (apply Hc; exact (opens_trans 0 0 _ _ _ H2 H3)).
Qed.

Lemma sign_opens kp data o w : opens 0 w (poseidon_key_pair_sign kp data o w).2.
Proof.
  unfold poseidon_key_pair_sign. destruct (negb (_ =? _)); [opens_case|]. destruct (md_new o); opens_case.
Qed.

Lemma verify_opens kt pk data s o w :
  opens 0 w (poseidon_verify_signature_with_key (P := P) kt pk data s o w).2.
Proof.
  unfold poseidon_verify_signature_with_key. destruct (d2i_PUBKEY pk); [|opens_case]. destruct (md_new o); opens_case.
Qed.
End key_pair_lemmas.

(** ** A program that uses key pairs *)

Section key_runs.
Context {P : Type} `{!OpenSSL P} (PEM_X509 : x509_t P → list Z).

(** The name the code gives to an algorithm. *)
Definition name_of_id (id : Z) : option (list Z) :=
  if id =? EVP_PKEY_ED25519 then Some (lit "ED25519")
  else if id =? EVP_PKEY_RSA then Some (lit "RSA")
  else if id =? EVP_PKEY_EC then Some (lit "EC") else None.

Definition pair_wf (kp : poseidon_key_pair_t P) : Prop :=
  name_of_id (EVP_PKEY_base_id (kp_pkey kp)) = Some (kp_key_type kp).

Inductive key_op :=
| KCreate (key_type : option (list Z)) (o : keygen_outcome P)
| KLoad (filepath : list Z) (readable : bool)
| KReference (i : nat)
| KDestroy (i : nat)
| KSavePrivate (i : nat) (filepath : list Z) (o : write_outcome)
| KSavePublic (i : nat) (filepath : list Z) (o : write_outcome)
| KTlsFiles (i : nat) (node_id_str key_path cert_path : list Z) (now : Z) (oc : cert_outcome) (ok ox : write_outcome)
| KSign (i : nat) (data : list Z) (o : md_outcome)
| KVerify (key_type public_key data signature : list Z) (o : md_outcome).

(** The live key pairs, and the world. *)
Abbreviation key_state := (list (poseidon_key_pair_t P) * key_world)%type.

Definition keep_pair (ks : list (poseidon_key_pair_t P)) (r : option (poseidon_key_pair_t P) * key_world) : key_state :=
  match r with (Some kp, w) => (ks ++ [kp], w) | (None, w) => (ks, w) end.

(** An operation on a key pair that is not there is not executed. *)
Definition key_step (s : key_state) (op : key_op) : key_state :=
  let '(ks, w) := s in
  let on i (f : poseidon_key_pair_t P → key_state) := match ks !! i with Some kp => f kp | None => s end in
  match op with
  | KCreate kt o => keep_pair ks (poseidon_key_pair_create kt o w)
  | KLoad path readable => keep_pair ks (poseidon_key_pair_load_from_pem path readable w)
  | KReference i =>
      on i (fun kp => (<[i := mkKeyPair (refcounter_reference (kp_refs kp)) (kp_pkey kp) (kp_key_type kp)]> ks, w))
  | KDestroy i =>
      on i (fun kp => match poseidon_key_pair_destroy kp w with
                      | (None, w') => (delete i ks, w')
                      | (Some kp', w') => (<[i := kp']> ks, w')
                      end)
  | KSavePrivate i path o => on i (fun kp => (ks, (poseidon_key_pair_save_private_key kp path o w).2))
  | KSavePublic i path o => on i (fun kp => (ks, (poseidon_key_pair_save_public_key kp path o w).2))
  | KTlsFiles i n pk pc now oc ok ox =>
      on i (fun kp => (ks, (poseidon_key_pair_generate_tls_files PEM_X509 kp n pk pc now oc ok ox w).2))
  | KSign i data o => on i (fun kp => (ks, (poseidon_key_pair_sign kp data o w).2))
  | KVerify kt pk data sig o => (ks, (poseidon_verify_signature_with_key (P := P) kt pk data sig o w).2)
  end.

(** Key generation makes keys of the algorithm it was asked for. *)
Definition keygen_makes (key_type : option (list Z)) (o : keygen_outcome P) : Prop :=
  ∀ k, kg_key o = Some k → default_key_type key_type ∈ [lit "ED25519"; lit "RSA"; lit "EC"] →
    name_of_id (EVP_PKEY_base_id k) = Some (default_key_type key_type).

Definition key_op_ok (op : key_op) : Prop := match op with KCreate kt o => keygen_makes kt o | _ => True end.

Definition key_inv (s : key_state) : Prop :=
  Forall pair_wf s.1 ∧ ∀ o, live o (kw_log s.2) = if bool_decide (o = OPkey) then zlen s.1 else 0.

Lemma key_inv_kept ks w w' : key_inv (ks, w) → opens 0 w w' → key_inv (ks, w').
Proof. intros [Hf Hl] Ho. split; [done|]. intros o. cbn [fst snd] in *. rewrite (Ho o), (Hl o). case_bool_decide; lia. Qed.

Lemma key_inv_added ks w r :
  key_inv (ks, w) → opens (one_if r.1) w r.2 → (∀ kp, r.1 = Some kp → pair_wf kp) → key_inv (keep_pair ks r).
Proof.
  intros [Hf Hl] Ho Hw. destruct r as [[kp|] w']; cbn [keep_pair fst snd one_if] in *; [|by apply (key_inv_kept ks w)].
  split; cbn [fst snd] in *; [by apply Forall_app_2; [|constructor; [apply Hw|]]|].
  intros o. rewrite (Ho o), (Hl o). unfold zlen. rewrite length_app. cbn [length]. case_bool_decide; lia.
Qed.

Lemma generated (o : keygen_outcome P) w k :
  (generate_ed25519 o w).1 = Some k ∨ (generate_rsa o w).1 = Some k ∨ (generate_ec o w).1 = Some k → kg_key o = Some k.
Proof.
  unfold generate_ed25519, generate_rsa, generate_ec, generate_key.
  destruct (kg_ctx o), (kg_init o <=? 0), (kg_params o <=? 0), (kg_key o); cbn; naive_solver.
Qed.

Lemma created_pair_wf kt (o : keygen_outcome P) w kp :
  keygen_makes kt o → (poseidon_key_pair_create kt o w).1 = Some kp → pair_wf kp.
Proof.
  intros Hm. pose proof (generated o w) as Hg. unfold poseidon_key_pair_create.
  assert (Hp : ∀ k, kg_key o = Some k → default_key_type kt ∈ [lit "ED25519"; lit "RSA"; lit "EC"] →
    pair_wf (new_key_pair k (default_key_type kt))) by (intros k Hk; by apply Hm).
  destruct (generate_ed25519 o w) as [[k1|] w1], (generate_rsa o w) as [[k2|] w2], (generate_ec o w) as [[k3|] w3];
    repeat case_bool_decide; cbn in *; intros [= <-]; apply Hp; first [by auto|set_solver].
Qed.

Lemma loaded_pair_wf path readable w (kp : poseidon_key_pair_t P) :
  (poseidon_key_pair_load_from_pem path readable w).1 = Some kp → pair_wf kp.
Proof.
  unfold poseidon_key_pair_load_from_pem, pair_wf, name_of_id.
  destruct (kw_files w !! path) as [f|]; [|done]. destruct readable; [|done]. cbn [negb].
  destruct (PEM_read_PrivateKey (fl_data f)) as [k|]; [|done].
  destruct (EVP_PKEY_base_id k =? EVP_PKEY_ED25519) eqn:E1; [intros [= <-]; cbn [kp_pkey new_key_pair]; by rewrite E1|].
  destruct (EVP_PKEY_base_id k =? EVP_PKEY_RSA) eqn:E2; [intros [= <-]; cbn [kp_pkey new_key_pair]; by rewrite E1, E2|].
  destruct (EVP_PKEY_base_id k =? EVP_PKEY_EC) eqn:E3; [|done]. intros [= <-]. cbn [kp_pkey new_key_pair]. by rewrite E1, E2, E3.
Qed.

Lemma key_step_inv s op : key_inv s → key_op_ok op → key_inv (key_step s op).
Proof.
  destruct s as [ks w]. intros Hinv Hop. destruct op as [kt o|path rd|i|i|i path o|i path o|i n pk pc now oc ok ox|i d o|kt pk d sg o];
    cbn [key_step key_op_ok] in *.
  1: apply (key_inv_added ks w); [done|apply create_opens|intros kp; by apply created_pair_wf].
  1: apply (key_inv_added ks w); [done|apply load_opens|intros kp; apply loaded_pair_wf].
  all: try (destruct (ks !! i) as [kp|] eqn:Ei; [|done]).
  - destruct Hinv as [Hf Hl]. pose proof (Forall_lookup_1 _ _ _ _ Hf Ei) as Hkp.
    split; cbn [fst snd] in *; [by apply Forall_insert|]. unfold zlen in *. by rewrite length_insert.
  - pose proof (destroy_opens kp w) as Ho. destruct Hinv as [Hf Hl]. pose proof (Forall_lookup_1 _ _ _ _ Hf Ei) as Hkp.
    unfold poseidon_key_pair_destroy in *. destruct (released (kp_refs kp)) as [r []]; cbn [fst snd one_if] in *;
      (split; cbn [fst snd] in *).
    + by apply Forall_delete.
    + pose proof (lookup_lt_Some _ _ _ Ei). intros o. rewrite (Ho o), (Hl o). unfold zlen. rewrite length_delete by done.
      case_bool_decide; lia.
    + by apply Forall_insert.
    + unfold zlen in *. by rewrite length_insert.
  - eapply key_inv_kept; [done|apply save_private_opens].
  - eapply key_inv_kept; [done|apply save_opens].
  - eapply key_inv_kept; [done|apply tls_opens].
  - eapply key_inv_kept; [done|apply sign_opens].
  - eapply key_inv_kept; [done|apply verify_opens].
Qed.
End key_runs.

(** ** Properties *)

(** Whatever a program does with key pairs, and whichever allocation,
    initialisation, file access or signature fails: the OpenSSL keys that are open
    are those of the live key pairs, no context, digest, certificate or file is
    left open, and every key pair names the algorithm of its key. *)
Theorem key_objects_accounted {P} `{!OpenSSL P} (PEM_X509 : x509_t P → list Z) umask files ops :
  Forall key_op_ok ops →
  let '(ks, w) := fold_left (key_step PEM_X509) ops ([], mkKeyWorld umask files []) in
  Forall pair_wf ks ∧ live OPkey (kw_log w) = zlen ks ∧
  ∀ o, o ≠ OPkey → live o (kw_log w) = 0.
Proof.
  intros Hops.
  assert (Hgen : ∀ s, key_inv s → key_inv (fold_left (key_step PEM_X509) ops s)).
  { induction Hops as [|op ops Hop _ IH]; intros s Hs; cbn; [done|]. by apply IH, key_step_inv. }
  specialize (Hgen ([], mkKeyWorld umask files [])).
  destruct (fold_left _ _ _) as [ks w]. destruct Hgen as [Hf Hl].
  { split; [constructor|]. intros []; reflexivity. }
  cbn [fst snd] in *. split_and!; [done|by rewrite Hl, bool_decide_true|]. intros o Ho. by rewrite Hl, bool_decide_false.
Qed.

(** A private key that was written completely is read back as the same key
    with the same algorithm name and one reference, and a file that did not exist
    is created without access for group and others. *)
Theorem key_pem_roundtrip {P} `{!OpenSSL P, !OpenSSLLaws P} (kp : poseidon_key_pair_t P) path o w w1 :
  pair_wf kp → poseidon_key_pair_save_private_key kp path o w = (0, w1) →
  wo_disk o (PEM_PrivateKey (kp_pkey kp)) = PEM_PrivateKey (kp_pkey kp) →
  (poseidon_key_pair_load_from_pem path true w1).1 = Some (mkKeyPair refcounter_init (kp_pkey kp) (kp_key_type kp)) ∧
  (kw_files w !! path = None → ∃ f, kw_files w1 !! path = Some f ∧ Z.land (fl_mode f) 0x3F = 0).
Proof.
  unfold poseidon_key_pair_save_private_key, write_stream, pair_wf, name_of_id. intros Hwf Hs Hd.
  destruct (wo_open o); [|done]. destruct (wo_fdopen o); [|done]. cbn [negb] in Hs. destruct (wo_ret o =? 1); [|done].
  simplify_eq/=. unfold poseidon_key_pair_load_from_pem, kw_say, kw_put. cbn [kw_files]. rewrite !lookup_insert_eq. cbn [negb fl_data].
  rewrite Hd, pem_law. split.
  - unfold new_key_pair, strdup_key_type, default_key_type. cbn [default from_option].
    destruct (_ =? EVP_PKEY_ED25519); [by injection Hwf as <-|]. destruct (_ =? EVP_PKEY_RSA); [by injection Hwf as <-|].
    destruct (_ =? EVP_PKEY_EC); [by injection Hwf as <-|done].
  - intros Hn. eexists. split; [reflexivity|]. unfold open_truncated. rewrite Hn. cbn [fl_mode].
    rewrite Z.land_comm, Z.land_assoc. by change (Z.land 63 384) with 0.
Qed.

(** ** The signature scheme of the channel layer *)

Section scheme.
Context {P : Type} `{!OpenSSL P} `{!EqDecision P}.

(** A key pair as [create] and [load_from_pem] make them. *)
Record owned_key := mkOwnedKey {
  ok_pair : poseidon_key_pair_t P;
  ok_named : bool_decide (name_of_id (EVP_PKEY_base_id (kp_pkey ok_pair)) = Some (kp_key_type ok_pair)) = true
}.

Definition served : md_outcome := mkMd true 1.
Definition still_world : key_world := mkKeyWorld 0 ∅ [].

(** The functions of [key_pair.c], when OpenSSL serves its contexts. *)
#[export] Instance key_pair_scheme : SignatureScheme owned_key := {
  key_type k := kp_key_type (ok_pair k);
  public_key k := default [] (poseidon_key_pair_get_public_key (Some (ok_pair k)));
  sign k m := (poseidon_key_pair_sign (ok_pair k) m served still_world).1;
  verify kt pk m s := (poseidon_verify_signature_with_key (P := P) kt pk m s served still_world).1 =? 0
}.

Lemma sign_inv kp m o w s :
  (poseidon_key_pair_sign kp m o w).1 = Some s →
  EVP_PKEY_base_id (kp_pkey kp) = EVP_PKEY_ED25519 ∧ EVP_DigestSign (kp_pkey kp) (EVP_PKEY_size (kp_pkey kp)) m = Some s.
Proof.
  unfold poseidon_key_pair_sign. destruct (Z.eqb_spec (EVP_PKEY_base_id (kp_pkey kp)) EVP_PKEY_ED25519); [|done].
  cbn [negb]. destruct (md_new o); [|done]. cbn. by destruct (md_init o =? 1).
Qed.

Lemma public_key_der (k : owned_key) : public_key k = i2d_PUBKEY (kp_pkey (ok_pair k)).
Proof.
  cbn. destruct (Z.leb_spec (zlen (i2d_PUBKEY (kp_pkey (ok_pair k)))) 0) as [H|]; [|done]. cbn.
  unfold zlen in H. by destruct (i2d_PUBKEY _); [|cbn in H; lia].
Qed.

Lemma ed25519_named (k : owned_key) :
  EVP_PKEY_base_id (kp_pkey (ok_pair k)) = EVP_PKEY_ED25519 → kp_key_type (ok_pair k) = lit "ED25519".
Proof.
  intros He. pose proof (ok_named k) as Hn. apply bool_decide_eq_true in Hn. rewrite He in Hn. by injection Hn.
Qed.

(** What one key pair signs, everyone verifies with its name and public key. *)
#[export] Instance key_pair_laws `{!OpenSSLLaws P} : SignatureLaws owned_key.
Proof.
  constructor. intros k m s Hs. destruct (sign_inv _ _ _ _ _ Hs) as [He Hsig].
  destruct (public_law (kp_pkey (ok_pair k))) as (p & Hp & Hv). rewrite public_key_der. cbn [verify key_pair_scheme].
  unfold poseidon_verify_signature_with_key. rewrite Hp. cbn [served md_new negb fst].
  cbn [key_type key_pair_scheme]. rewrite (ed25519_named k He), bool_decide_true by done. unfold digest_verify.
  cbn [served md_init]. by rewrite (Hv m s).
Qed.

Definition signs_all (k : P) : Prop := ∀ m, ∃ s, EVP_DigestSign k (EVP_PKEY_size k) m = Some s.

Lemma ed25519_key_ok `{!OpenSSLLaws P} (k : owned_key) :
  EVP_PKEY_base_id (kp_pkey (ok_pair k)) = EVP_PKEY_ED25519 → EVP_PKEY_size (kp_pkey (ok_pair k)) = 64 →
  0 < zlen (i2d_PUBKEY (kp_pkey (ok_pair k))) <= 64 → signs_all (kp_pkey (ok_pair k)) → key_ok k.
Proof.
  intros He Hz Hd Ha. constructor.
  - cbn [key_type key_pair_scheme]. rewrite (ed25519_named k He).
    split; [repeat (constructor; [cbn; lia|]); constructor|vm_compute; lia].
  - by rewrite public_key_der.
  - intros m. destruct (Ha m) as [s Hs]. exists s. split; [|by rewrite <- Hz; apply (size_law _ m)].
    cbn [sign key_pair_scheme]. unfold poseidon_key_pair_sign. rewrite He. cbn. by rewrite Hs.
Qed.
End scheme.

Arguments owned_key P {_}.

(** The channel owner's Ed25519 key, with the functions of [key_pair.c] on
    OpenSSL: the delete and modify notices it makes for its own channel are
    accepted by every node. *)
Theorem ed25519_notices_verify {P} `{!OpenSSL P, !OpenSSLLaws P, !EqDecision P} blake3 ser (k : owned_key P) s now c :
  (∀ x, length (blake3 x) = POSEIDON_NODE_ID_HASH_SIZE) → (∀ x, bytes_ok (blake3 x)) → (∀ i, ser i ≠ []) →
  EVP_PKEY_base_id (kp_pkey (ok_pair k)) = EVP_PKEY_ED25519 → EVP_PKEY_size (kp_pkey (ok_pair k)) = 64 →
  0 < zlen (i2d_PUBKEY (kp_pkey (ok_pair k))) <= 64 → signs_all (kp_pkey (ok_pair k)) →
  identity blake3 k s → is_u64 now → config_wf c →
  (∃ n, poseidon_channel_create_delete_notice ser s (Some k) now = Ret (Some n) ∧
     poseidon_channel_verify_delete_notice (K := owned_key P) blake3 ser (Some n) = Ret 0) ∧
  (∃ m, poseidon_channel_create_modify_notice ser s (Some k) (Some c) now = Ret (Some m) ∧
     poseidon_channel_verify_modify_notice (K := owned_key P) blake3 ser (Some m) = Ret 0).
Proof.
  intros Hbl Hbb Hser He Hz Hd Ha Hid Hnow Hc.
  destruct (owner_notices_verify blake3 ser k s now c) as [(n & Hn & _ & Hv) (m & Hm & _ & _ & Hw)];
    [done|done|done|by apply ed25519_key_ok|done|done|done|]. split; eauto.
Qed.

(** Other keys sign nothing, so the owner of an RSA or EC channel can neither
    delete nor modify it. *)
Lemma other_keys_cannot_administer {P} `{!OpenSSL P, !EqDecision P} ser (k : owned_key P) s now c :
  EVP_PKEY_base_id (kp_pkey (ok_pair k)) ≠ EVP_PKEY_ED25519 →
  (∀ n, poseidon_channel_create_delete_notice ser s (Some k) now ≠ Ret (Some n)) ∧
  (∀ n, poseidon_channel_create_modify_notice ser s (Some k) (Some c) now ≠ Ret (Some n)).
Proof.
  intros Hne.
  assert (Hs : ∀ m, sign k m = None).
  { intros m. cbn [sign key_pair_scheme]. unfold poseidon_key_pair_sign.
    by destruct (Z.eqb_spec (EVP_PKEY_base_id (kp_pkey (ok_pair k))) EVP_PKEY_ED25519). }
  unfold poseidon_channel_create_delete_notice, poseidon_channel_create_modify_notice. split.
  - intros n. destruct (unsigned_notice _ _ _ _ _ _); [|done].
    destruct (signable_bytes _ _) as [[b|]|]; [|done|done]. cbn [xbind]. by rewrite Hs.
  - intros n. destruct (unsigned_notice _ _ _ _ _ _); [|done].
    destruct (signable_bytes _ _) as [[b|]|]; [|done|done]. cbn [xbind]. by rewrite Hs.
Qed.

(** A private key written over an existing file keeps that file's permissions. *)
Lemma existing_mode_kept {P} `{!OpenSSL P} (kp : poseidon_key_pair_t P) path w f :
  kw_files w !! path = Some f →
  kw_files (poseidon_key_pair_save_private_key kp path write_ok w).2 !! path
  = Some (mkFile (fl_mode f) (PEM_PrivateKey (kp_pkey kp))).
Proof.
  intros Hf. unfold poseidon_key_pair_save_private_key, write_stream, open_truncated. cbn -[PEM_PrivateKey].
  by rewrite lookup_insert_eq, Hf.
Qed.

(** A full disk found out by [fclose] is reported as success. *)
Lemma full_disk_reported_written {P} `{!OpenSSL P} (kp : poseidon_key_pair_t P) path w :
  let r := poseidon_key_pair_save_private_key kp path (mkWrite true true 1 (fun _ => [])) w in
  r.1 = 0 ∧ fl_data <$> kw_files r.2 !! path = Some [].
Proof. cbn. by rewrite lookup_insert_eq. Qed.

(** ** A concrete OpenSSL, for the examples *)

(** A key is its algorithm and a byte; a signature is the sum of key and message. *)
Definition toy_sum (k : Z) (m : list Z) : list Z := [u8 (k + foldr Z.add 0 m)].

#[export] Instance toy_ssl : OpenSSL (Z * Z) := {
  EVP_PKEY_base_id := fst;
  EVP_PKEY_size _ := 64;
  i2d_PUBKEY k := [k.1; k.2];
  d2i_PUBKEY l := match l with [a; b] => Some (a, b) | _ => None end;
  EVP_DigestSign k _ m := Some (toy_sum k.2 m);
  EVP_DigestVerify _ k m s := bool_decide (s = toy_sum k.2 m);
  PEM_PrivateKey k := [45; k.1; k.2];
  PEM_PUBKEY k := [43; k.1; k.2];
  PEM_read_PrivateKey l := match l with [45; a; b] => Some (a, b) | _ => None end
}.

#[export] Instance toy_ssl_laws : OpenSSLLaws (Z * Z).
Proof.
  constructor.
  - by intros [].
  - intros [a b]. exists (a, b). split; [done|]. intros m s _ [= <-]. by apply bool_decide_eq_true.
  - intros k m s [= <-]. change (1 <= 64). lia.
Qed.

Definition toy_pair : poseidon_key_pair_t (Z * Z) := mkKeyPair refcounter_init (EVP_PKEY_ED25519, 7) (lit "ED25519").
Definition toy_owned : owned_key (Z * Z) := mkOwnedKey toy_pair eq_refl.

Definition demo_key_ops : list (key_op (P := Z * Z)) :=
  [KCreate None (mkKeygen true 1 1 (Some (EVP_PKEY_ED25519, 7))); KSavePrivate 0 [1] write_ok; KLoad [1] true;
   KTlsFiles 1 [2] [3] [4] 0 (mkCert true true 1) write_ok (mkWrite false true 1 id); KDestroy 0; KSign 0 [5] served].

Lemma key_objects_accounted_witness :
  let '(ks, w) := fold_left (key_step (fun _ => [])) demo_key_ops ([], mkKeyWorld 18 ∅ []) in
  Forall pair_wf ks ∧ live OPkey (kw_log w) = zlen ks ∧ ∀ o, o ≠ OPkey → live o (kw_log w) = 0.
Proof.
  apply (key_objects_accounted (fun _ => []) 18 ∅ demo_key_ops). repeat constructor. intros k [= <-] _. reflexivity.
Defined.

Lemma key_pem_roundtrip_witness :
  let w1 := (poseidon_key_pair_save_private_key toy_pair [1] write_ok still_world).2 in
  (poseidon_key_pair_load_from_pem [1] true w1).1 = Some (mkKeyPair refcounter_init (EVP_PKEY_ED25519, 7) (lit "ED25519")) ∧
  (kw_files still_world !! [1] = None → ∃ f, kw_files w1 !! [1] = Some f ∧ Z.land (fl_mode f) 0x3F = 0).
Proof. apply (key_pem_roundtrip toy_pair [1] write_ok still_world); reflexivity. Defined.

Lemma toy_owned_identity : ∃ s, identity toy_blake3 toy_owned s.
Proof.
  destruct (from_public_key_ret toy_blake3 (fun k => proj1 (toy_blake3_ok k)) (fun k => proj2 (toy_blake3_ok k))
    (public_key toy_owned) poseidon_node_id_clear eq_refl) as (s & id & E & _ & Hs & _).
  exists s, poseidon_node_id_clear, id. split_and!; [done|exact E|done].
Qed.

Lemma ed25519_notices_verify_witness :
  ∃ s n, poseidon_channel_create_delete_notice toy_writer s (Some toy_owned) 42 = Ret (Some n) ∧
    poseidon_channel_verify_delete_notice (K := owned_key (Z * Z)) toy_blake3 toy_writer (Some n) = Ret 0.
Proof.
  destruct toy_owned_identity as [s Hid].
  destruct (ed25519_notices_verify toy_blake3 toy_writer toy_owned s 42 poseidon_channel_config_defaults) as [(n & Hn & Hv) _];
    [intros x; apply toy_blake3_ok|intros x; apply toy_blake3_ok|apply toy_writes|reflexivity|reflexivity|by vm_compute
    |intros m; eexists; reflexivity|exact Hid|by vm_compute|exact demo_config_wf|].
  exists s, n. split; assumption.
Defined.
