(* ===== verification/QuicStore.v ===== *)
(** * QuicStore: the handles of msquic

    msquic is not part of the sources.  What it opens is an argument of the code
    that opens it, and every call that opens, uses or closes a handle is logged.
    A log is replayed on the tree of open handles: a registration belongs to the
    library, configurations, listeners and connections to a registration.  Using
    or closing a handle that is not open, closing a registration that still has
    children or the library while a registration is open is a misuse, as msquic
    documents it: the replay has no result then.

    The library itself is opened through the reference count of
    [src/Network/Meridian/msquic_singleton.c]. *)

From stdpp Require Import gmap.
From S2P Require Import Prelude StreamTransport.

Inductive quic_call :=
| MsQuicOpen2
| MsQuicClose
| QRegistrationOpen (r : Z)
| QRegistrationClose (r : Z)
| QConfigurationOpen (r c : Z)
| QConfigurationLoadCredential (c : Z)
| QConfigurationClose (c : Z)
| QListenerOpen (r l : Z)
| QListenerSetCallback (l : Z)
| QListenerStart (l : Z)
| QListenerStop (l : Z)
| QListenerClose (l : Z)
| QConnectionOpen (r k : Z)
| QConnectionStart (k : Z) (c : option Z)
| QConnectionAccepted (l k c : Z)  (** the listener's new connection, given a configuration *)
| QConnectionShutdown (k : Z)
| QConnectionClose (k : Z).

(** Children with the registration they belong to. *)
Record quic_store := mkStore {
  qt_open : bool;
  qt_registrations : gset Z;
  qt_configurations : gmap Z Z;
  qt_listeners : gmap Z Z;
  qt_connections : gmap Z Z
}.

Definition empty_store : quic_store := mkStore false ∅ ∅ ∅ ∅.

Definition childless (r : Z) (m : gmap Z Z) : bool := bool_decide (map_Forall (fun _ r' => r' ≠ r) m).

Definition has (m : gmap Z Z) (k : Z) : bool := bool_decide (is_Some (m !! k)).

Definition st_with_registrations (s : quic_store) (x : gset Z) : quic_store :=
  mkStore (qt_open s) x (qt_configurations s) (qt_listeners s) (qt_connections s).
Definition st_with_configurations (s : quic_store) (x : gmap Z Z) : quic_store :=
  mkStore (qt_open s) (qt_registrations s) x (qt_listeners s) (qt_connections s).
Definition st_with_listeners (s : quic_store) (x : gmap Z Z) : quic_store :=
  mkStore (qt_open s) (qt_registrations s) (qt_configurations s) x (qt_connections s).
Definition st_with_connections (s : quic_store) (x : gmap Z Z) : quic_store :=
  mkStore (qt_open s) (qt_registrations s) (qt_configurations s) (qt_listeners s) x.

Definition guarded (b : bool) (s : quic_store) : option quic_store := if b then Some s else None.

Definition quic_do (s : quic_store) (call : quic_call) : option quic_store :=
  match call with
  | MsQuicOpen2 =>
      guarded (negb (qt_open s)) (mkStore true (qt_registrations s) (qt_configurations s) (qt_listeners s) (qt_connections s))
  | MsQuicClose =>
      guarded (qt_open s && bool_decide (qt_registrations s = ∅))
        (mkStore false (qt_registrations s) (qt_configurations s) (qt_listeners s) (qt_connections s))
  | QRegistrationOpen r =>
      guarded (qt_open s && bool_decide (r ∉ qt_registrations s)) (st_with_registrations s ({[r]} ∪ qt_registrations s))
  | QRegistrationClose r =>
      guarded (bool_decide (r ∈ qt_registrations s) && childless r (qt_configurations s) && childless r (qt_listeners s)
               && childless r (qt_connections s)) (st_with_registrations s (qt_registrations s ∖ {[r]}))
  | QConfigurationOpen r c =>
      guarded (bool_decide (r ∈ qt_registrations s) && negb (has (qt_configurations s) c))
        (st_with_configurations s (<[c := r]> (qt_configurations s)))
  | QConfigurationLoadCredential c => guarded (has (qt_configurations s) c) s
  | QConfigurationClose c =>
      guarded (has (qt_configurations s) c) (st_with_configurations s (delete c (qt_configurations s)))
  | QListenerOpen r l =>
      guarded (bool_decide (r ∈ qt_registrations s) && negb (has (qt_listeners s) l))
        (st_with_listeners s (<[l := r]> (qt_listeners s)))
  | QListenerSetCallback l | QListenerStart l | QListenerStop l => guarded (has (qt_listeners s) l) s
  | QListenerClose l => guarded (has (qt_listeners s) l) (st_with_listeners s (delete l (qt_listeners s)))
  | QConnectionOpen r k =>
      guarded (bool_decide (r ∈ qt_registrations s) && negb (has (qt_connections s) k))
        (st_with_connections s (<[k := r]> (qt_connections s)))
  | QConnectionStart k c =>
      guarded (has (qt_connections s) k && match c with Some c => has (qt_configurations s) c | None => true end) s
  | QConnectionAccepted l k c =>
      match qt_listeners s !! l with
      | Some r => guarded (negb (has (qt_connections s) k) && has (qt_configurations s) c)
                    (st_with_connections s (<[k := r]> (qt_connections s)))
      | None => None
      end
  | QConnectionShutdown k => guarded (has (qt_connections s) k) s
  | QConnectionClose k => guarded (has (qt_connections s) k) (st_with_connections s (delete k (qt_connections s)))
  end.

Fixpoint replay (s : quic_store) (l : list quic_call) : option quic_store :=
  match l with
  | [] => Some s
  | c :: l' => match quic_do s c with Some s' => replay s' l' | None => None end
  end.

Lemma replay_app s l1 l2 :
  replay s (l1 ++ l2) = match replay s l1 with Some s' => replay s' l2 | None => None end.
Proof. revert s. induction l1 as [|c l1 IH]; intros s; cbn; [done|]. destruct (quic_do s c); [apply IH|done]. Qed.

(** ** The library and its log *)

Record quic_world := mkQuicWorld {
  qw_library : msquic_singleton;
  qw_log : list quic_call
}.

Definition say (w : quic_world) (l : list quic_call) : quic_world := mkQuicWorld (qw_library w) (qw_log w ++ l).

(** [poseidon_msquic_open] with its call of [MsQuicOpen2], if it makes one. *)
Definition open_library (w : quic_world) (opened : option Z) : option Z * quic_world :=
  let '(t, g) := poseidon_msquic_open (qw_library w) opened in
  let called := match g_msquic (qw_library w), t with None, Some _ => [MsQuicOpen2] | _, _ => [] end in
  (t, mkQuicWorld g (qw_log w ++ called)).

Definition close_library (w : quic_world) : quic_world :=
  let '(closed, g) := poseidon_msquic_close (qw_library w) in
  mkQuicWorld g (qw_log w ++ if closed then [MsQuicClose] else []).

(** [if (h) f(h)]. *)
Definition on_handle (f : Z → list quic_call) (h : option Z) : list quic_call :=
  match h with Some x => f x | None => [] end.

(** ** Lemmas *)

Lemma has_true m k r : m !! k = Some r → has m k = true.
Proof. intros H. unfold has. rewrite H. by apply bool_decide_eq_true_2. Qed.

Lemma has_false m k : m !! k = None → has m k = false.
Proof. intros H. unfold has. rewrite H. apply bool_decide_eq_false_2. by intros [? ?]. Qed.

Lemma childless_true r m : (∀ k, m !! k ≠ Some r) → childless r m = true.
Proof. intros H. apply bool_decide_eq_true_2. intros k r' E ->. exact (H k E). Qed.

(** A closed loop over connections, as every stop has it. *)
Definition shut_connection (k : Z) : list quic_call := [QConnectionShutdown k; QConnectionClose k].

Definition without (m : gmap Z Z) (ks : list Z) : gmap Z Z := filter (fun p => p.1 ∉ ks) m.

Lemma without_nil m : without m [] = m.
Proof. apply map_filter_id. intros k x _ Hk. by apply elem_of_nil in Hk. Qed.

Lemma without_lookup m ks k : without m ks !! k = if decide (k ∈ ks) then None else m !! k.
Proof.
  unfold without. destruct (decide (k ∈ ks)) as [H|H].
  - apply map_lookup_filter_None_2. right. intros x _. by intros [].
  - apply option_eq. intros x. rewrite map_lookup_filter_Some. tauto.
Qed.

Lemma replay_shut s ks :
  base.NoDup ks → (∀ k, k ∈ ks → is_Some (qt_connections s !! k)) →
  replay s (concat (map shut_connection ks)) = Some (st_with_connections s (without (qt_connections s) ks)).
Proof.
  revert s. induction ks as [|k ks IH]; intros s Hnd Hin.
  - cbn. rewrite without_nil. by destruct s.
  - apply list.NoDup_cons in Hnd as [Hk Hnd]. destruct (Hin k) as [r Hr]; [by left|].
    cbn [map concat shut_connection app replay quic_do]. rewrite (has_true _ _ _ Hr). cbn [guarded replay quic_do]. rewrite (has_true _ _ _ Hr).
    cbn [guarded]. rewrite IH; [|done|].
    + cbn [qt_connections st_with_connections]. f_equal. unfold st_with_connections. cbn. f_equal.
      apply map_eq. intros j. rewrite !without_lookup. destruct (decide (j = k)) as [->|Hj].
      * rewrite lookup_delete_eq, (decide_True (P := k ∈ k :: ks)) by (by left). by case_decide.
      * rewrite lookup_delete_ne by done. destruct (decide (j ∈ ks)); [rewrite decide_True by (by right); done|].
        rewrite decide_False; [done|]. intros [->|?]%elem_of_cons; done.
    + intros j Hj. cbn. rewrite lookup_delete_ne by (intros ->; done). apply Hin. by right.
Qed.

(** ** A component among others *)

(** The rest of the process: its own handles, below its own registrations. *)
Record frame_ok (F : quic_store) : Prop := {
  fo_configurations : map_Forall (fun _ r => r ∈ qt_registrations F) (qt_configurations F);
  fo_listeners : map_Forall (fun _ r => r ∈ qt_registrations F) (qt_listeners F);
  fo_connections : map_Forall (fun _ r => r ∈ qt_registrations F) (qt_connections F)
}.

Definition rooted (F : quic_store) (b : bool) : quic_store :=
  mkStore b (qt_registrations F) (qt_configurations F) (qt_listeners F) (qt_connections F).

Definition under (r : Z) (h : option Z) (m : gmap Z Z) : gmap Z Z := match h with Some x => <[x := r]> m | None => m end.

(** The rest of the process and a registration with the children given. *)
Definition tree (F : quic_store) (r : Z) (c l : option Z) : quic_store :=
  mkStore true ({[r]} ∪ qt_registrations F) (under r c (qt_configurations F)) (under r l (qt_listeners F)) (qt_connections F).

Lemma frame_childless (R : gset Z) (m : gmap Z Z) r : map_Forall (fun _ r' => r' ∈ R) m → r ∉ R → childless r m = true.
Proof. intros H Hr. apply childless_true. intros k E. exact (Hr (H k r E)). Qed.

Section tree.
Context (F : quic_store) (Ff : frame_ok F) (r : Z) (Fr : r ∉ qt_registrations F).

Lemma tree_open_registration : replay (rooted F true) [QRegistrationOpen r] = Some (tree F r None None).
Proof. cbn. by rewrite bool_decide_eq_true_2. Qed.

Lemma tree_open_configuration c l :
  qt_configurations F !! c = None →
  replay (tree F r None l) [QConfigurationOpen r c; QConfigurationLoadCredential c] = Some (tree F r (Some c) l).
Proof.
  intros H. cbn. rewrite bool_decide_eq_true_2 by set_solver. rewrite has_false by done. cbn.
  by rewrite (has_true _ _ r) by (by rewrite lookup_insert_eq).
Qed.

Lemma tree_open_listener c l :
  qt_listeners F !! l = None →
  replay (tree F r c None) [QListenerOpen r l; QListenerSetCallback l; QListenerStart l] = Some (tree F r c (Some l)).
Proof.
  intros H. cbn. rewrite bool_decide_eq_true_2 by set_solver. rewrite has_false by done. cbn.
  rewrite !(has_true _ _ r) by (by rewrite lookup_insert_eq). cbn. by rewrite (has_true _ _ r) by (by rewrite lookup_insert_eq).
Qed.

Lemma tree_close_registration : replay (tree F r None None) [QRegistrationClose r] = Some (rooted F true).
Proof.
  cbn. rewrite bool_decide_eq_true_2 by set_solver. destruct Ff as [F1 F2 F3].
  rewrite !(frame_childless (qt_registrations F)) by done. cbn. f_equal. unfold rooted, st_with_registrations. cbn. f_equal. set_solver.
Qed.

Lemma tree_close_configuration c l :
  qt_configurations F !! c = None → replay (tree F r (Some c) l) [QConfigurationClose c] = Some (tree F r None l).
Proof.
  intros H. cbn. rewrite (has_true _ _ r) by (by rewrite lookup_insert_eq). cbn. f_equal. unfold tree, st_with_configurations. cbn. f_equal.
  by rewrite delete_insert_id.
Qed.

Lemma tree_close_listener c l :
  qt_listeners F !! l = None → replay (tree F r c (Some l)) [QListenerClose l] = Some (tree F r c None).
Proof.
  intros H. cbn. rewrite (has_true _ _ r) by (by rewrite lookup_insert_eq). cbn. f_equal. unfold tree, st_with_listeners. cbn. f_equal.
  by rewrite delete_insert_id.
Qed.

Lemma tree_stop_listener c l : replay (tree F r c (Some l)) [QListenerStop l] = Some (tree F r c (Some l)).
Proof. cbn. by rewrite (has_true _ _ r) by (by rewrite lookup_insert_eq). Qed.
End tree.

(** A log that replays, extended. *)
Lemma replay_say w l st : replay empty_store (qw_log w) = Some st → replay empty_store (qw_log (say w l)) = replay st l.
Proof. intros E. cbn. by rewrite replay_app, E. Qed.

Lemma say_say w l1 l2 : say (say w l1) l2 = say w (l1 ++ l2).
Proof. unfold say. cbn. by rewrite (assoc_L (++)). Qed.

Lemma replay_step s c l s' : replay s [c] = Some s' → replay s (c :: l) = replay s' l.
Proof. intros E. change (c :: l) with ([c] ++ l). by rewrite replay_app, E. Qed.

Lemma replay_glue s l1 l2 s1 s2 : replay s l1 = Some s1 → replay s1 l2 = Some s2 → replay s (l1 ++ l2) = Some s2.
Proof. intros E1 E2. by rewrite replay_app, E1. Qed.

Definition children_of (F st : quic_store) : Prop := st = rooted F (qt_open st).

(** The connections [ks] of the registration are shut down and closed. *)
Lemma shut_all F r c l st ks :
  base.NoDup ks → (∀ k, k ∈ ks → qt_connections F !! k = None) →
  (∀ k, qt_connections st !! k = if decide (k ∈ ks) then Some r else qt_connections F !! k) →
  st = st_with_connections (tree F r c l) (qt_connections st) →
  replay st (concat (map shut_connection ks)) = Some (tree F r c l).
Proof.
  intros Hnd HF S Es. rewrite replay_shut; [|done|intros k Hk; rewrite S, decide_True by done; by eexists].
  f_equal. rewrite Es. unfold tree, st_with_connections. cbn. f_equal. apply map_eq. intros k.
  rewrite without_lookup, S. by case_decide; [symmetry; apply HF|].
Qed.

(** A listener, its configuration and the registration are closed. *)
Lemma close_all F r c l :
  frame_ok F → r ∉ qt_registrations F → qt_configurations F !! c = None → qt_listeners F !! l = None →
  replay (tree F r (Some c) (Some l)) [QListenerClose l; QConfigurationClose c; QRegistrationClose r] = Some (rooted F true).
Proof.
  intros Ff Fr Fc Fl. rewrite (replay_step _ _ _ _ (tree_close_listener F r (Some c) l Fl)).
  rewrite (replay_step _ _ _ _ (tree_close_configuration F r c None Fc)). by apply tree_close_registration.
Qed.
