(* ===== verification/ProtocolLifecycle.v ===== *)
(** * ProtocolLifecycle: starting and stopping a Meridian node

    The handles [src/Network/Meridian/meridian_protocol.c] holds, from
    [meridian_protocol_create] to [meridian_protocol_destroy], around the peer
    table of [Protocol]; every call to msquic is logged ([QuicStore]).  The
    outcomes of the calls that can fail are arguments. *)

From stdpp Require Import gmap relations.
From S2P Require Import Prelude Refcount Node Ring Protocol Gossip StreamTransport QuicStore.

Inductive meridian_protocol_state_t :=
| MERIDIAN_PROTOCOL_STATE_INIT
| MERIDIAN_PROTOCOL_STATE_BOOTSTRAPPING
| MERIDIAN_PROTOCOL_STATE_RUNNING
| MERIDIAN_PROTOCOL_STATE_SHUTTING_DOWN.

(** The fields the protocol reads. *)
Record meridian_protocol_config_t := mkProtocolConfig {
  pc_listen_port : Z;
  pc_primary_ring_size : Z;
  pc_secondary_ring_size : Z;
  pc_ring_exponent_base : Z;
  pc_init_gossip_interval_s : Z;
  pc_num_init_gossip_intervals : Z;
  pc_steady_state_gossip_interval_s : Z;
  pc_gossip_timeout_ms : Z;
  pc_tls_key_path : option (list Z);
  pc_tls_cert_path : option (list Z)
}.

(** The protocol structure: its peer table, and the handles and pointers around
    it.  The last two are the pointers the rendezvous handle borrows. *)
Record protocol_node := mkNode {
  pn_refcounter : refcounter_t;
  pn_state : meridian_protocol_state_t;
  pn_config : meridian_protocol_config_t;
  pn_protocol : meridian_protocol_t;
  pn_gossip_handle : option meridian_gossip_handle_t;
  pn_msquic : option Z;
  pn_registration : option Z;
  pn_configuration : option Z;
  pn_listener : option Z;
  pn_rendv_msquic : option Z;
  pn_rendv_registration : option Z
}.

Definition pn_with_quic (n : protocol_node) (msquic registration configuration listener : option Z) : protocol_node :=
  mkNode (pn_refcounter n) (pn_state n) (pn_config n) (pn_protocol n) (pn_gossip_handle n)
    msquic registration configuration listener (pn_rendv_msquic n) (pn_rendv_registration n).

Definition pn_with_protocol (n : protocol_node) (p : meridian_protocol_t) : protocol_node :=
  mkNode (pn_refcounter n) (pn_state n) (pn_config n) p (pn_gossip_handle n)
    (pn_msquic n) (pn_registration n) (pn_configuration n) (pn_listener n) (pn_rendv_msquic n) (pn_rendv_registration n).

Definition pn_with_refs (n : protocol_node) (c : refcounter_t) : protocol_node :=
  mkNode c (pn_state n) (pn_config n) (pn_protocol n) (pn_gossip_handle n)
    (pn_msquic n) (pn_registration n) (pn_configuration n) (pn_listener n) (pn_rendv_msquic n) (pn_rendv_registration n).

Definition meridian_protocol_create (config : option meridian_protocol_config_t) : option protocol_node :=
  match config with
  | None => None
  | Some c =>
      let rings := meridian_ring_set_create (pc_primary_ring_size c) (pc_secondary_ring_size c) (pc_ring_exponent_base c) in
      Some (mkNode refcounter_init MERIDIAN_PROTOCOL_STATE_INIT c (mkProtocol false 0 0 [] [] rings) None
              None None None None None None)
  end.

(** What msquic answers to the calls of a start; a credential is the pair of
    files, or none when one of the paths is NULL. *)
Record start_outcomes := mkOutcomes {
  so_library : option Z;
  so_registration : option Z;
  so_configuration : option Z;
  so_credential : option (list Z * list Z) → bool;
  so_listener : option Z;
  so_listening : bool
}.

Definition protocol_credential (c : meridian_protocol_config_t) : option (list Z * list Z) :=
  match pc_tls_key_path c, pc_tls_cert_path c with
  | Some key, Some cert => Some (key, cert)
  | _, _ => None
  end.

(** The last steps: the local address, the gossip handle (which is never NULL
    for a configuration) and the rendezvous handle's pointers. *)
Definition protocol_started (n : protocol_node) (t r c l : Z) (now : timeval) : protocol_node :=
  let cf := pn_config n in
  let p := pn_protocol n in
  mkNode (pn_refcounter n) MERIDIAN_PROTOCOL_STATE_BOOTSTRAPPING cf
    (mkProtocol true 0 (ntohs (pc_listen_port cf)) (mp_seed_nodes p) (mp_peers p) (mp_ring_set p))
    (Some (meridian_gossip_handle_create (pc_init_gossip_interval_s cf) (pc_num_init_gossip_intervals cf)
             (pc_steady_state_gossip_interval_s cf) (pc_gossip_timeout_ms cf) now))
    (Some t) (Some r) (Some c) (Some l) (Some t) (Some r).

Definition meridian_protocol_start (n : protocol_node) (w : quic_world) (o : start_outcomes) (now : timeval)
  : Z * protocol_node * quic_world :=
  if mp_running (pn_protocol n) then (0, n, w)
  else
    let '(lib, w1) := open_library w (so_library o) in
    match lib with
    | None => (-1, pn_with_quic n None (pn_registration n) (pn_configuration n) (pn_listener n), w1)
    | Some t =>
        match so_registration o with
        | None => (-1, pn_with_quic n None (pn_registration n) (pn_configuration n) (pn_listener n), close_library w1)
        | Some r =>
            let w2 := say w1 [QRegistrationOpen r] in
            match so_configuration o with
            | None => (-1, pn_with_quic n None None (pn_configuration n) (pn_listener n),
                       close_library (say w2 [QRegistrationClose r]))
            | Some c =>
                let w3 := say w2 [QConfigurationOpen r c; QConfigurationLoadCredential c] in
                if negb (so_credential o (protocol_credential (pn_config n))) then
                  (-1, pn_with_quic n None None None (pn_listener n),
                   close_library (say w3 [QConfigurationClose c; QRegistrationClose r]))
                else
                  match so_listener o with
                  | None => (-1, pn_with_quic n None None None (pn_listener n),
                             close_library (say w3 [QConfigurationClose c; QRegistrationClose r]))
                  | Some l =>
                      let w4 := say w3 [QListenerOpen r l; QListenerSetCallback l; QListenerStart l] in
                      if negb (so_listening o) then
                        (-1, pn_with_quic n None None None None,
                         close_library (say w4 [QListenerClose l; QConfigurationClose c; QRegistrationClose r]))
                      else (0, protocol_started n t r c l now, w4)
                  end
            end
        end
    end.

(** The handles of the peer table. *)
Definition peer_handles (p : meridian_protocol_t) : list Z := omap peer_conn (mp_peers p).

Definition node_stop (n : protocol_node) (w : quic_world) : Z * protocol_node * quic_world :=
  if negb (mp_running (pn_protocol n)) then (0, n, w)
  else
    (0, mkNode (pn_refcounter n) MERIDIAN_PROTOCOL_STATE_SHUTTING_DOWN (pn_config n) (meridian_protocol_stop (pn_protocol n)).2
          (meridian_gossip_handle_stop <$> pn_gossip_handle n) (pn_msquic n) None None None
          (pn_rendv_msquic n) (pn_rendv_registration n),
     say w (concat (map shut_connection (peer_handles (pn_protocol n)))
              ++ on_handle (fun l => [QListenerStop l; QListenerClose l]) (pn_listener n)
              ++ on_handle (fun c => [QConfigurationClose c]) (pn_configuration n)
              ++ on_handle (fun r => [QRegistrationClose r]) (pn_registration n))).

(** [ConnectionOpen] reads the registration. *)
Definition node_connect (n : protocol_node) (w : quic_world) (addr port : Z) (opened : option Z) (started : bool)
  : exec (Z * protocol_node * quic_world) :=
  let p := pn_protocol n in
  let '(rc, p') := meridian_protocol_connect p addr port opened started in
  if negb (mp_running p) || (MAX_CONNECTED_PEERS <=? zlen (mp_peers p)) || existsb (slot_matches addr port) (mp_peers p)
  then Ret (rc, n, w)
  else
    match pn_registration n with
    | None => Trap
    | Some r =>
        let calls := match opened with
                     | None => []
                     | Some k => [QConnectionOpen r k; QConnectionStart k (pn_configuration n)]
                                   ++ if started then [] else [QConnectionClose k]
                     end in
        Ret (rc, pn_with_protocol n p', say w calls)
    end.

Definition node_disconnect (n : protocol_node) (w : quic_world) (addr port : Z) : Z * protocol_node * quic_world :=
  let p := pn_protocol n in
  let '(rc, p') := meridian_protocol_disconnect p addr port in
  let calls := if mp_running p then
                 match List.find (slot_matches addr port) (mp_peers p) with
                 | Some s => on_handle shut_connection (peer_conn s)
                 | None => []
                 end
               else [] in
  (rc, pn_with_protocol n p', say w calls).

(** A new connection of the listener; [configured] is the result of
    [ConnectionSetConfiguration]. *)
Definition ListenerCallback (n : protocol_node) (w : quic_world) (conn : Z) (configured : bool)
  : exec (bool * protocol_node * quic_world) :=
  match pn_listener n, pn_configuration n with
  | Some l, Some c =>
      if negb configured then Ret (false, n, w)
      else Ret (true, pn_with_protocol n (listener_new_connection (pn_protocol n) conn), say w [QConnectionAccepted l conn c])
  | _, _ => Trap
  end.

Inductive protocol_connection_event :=
| PC_CONNECTED | PC_SHUTDOWN_INITIATED_BY_TRANSPORT | PC_SHUTDOWN_INITIATED_BY_PEER | PC_SHUTDOWN_COMPLETE
| PC_DATAGRAM_RECEIVED (data : list Z) | PC_PEER_ADDRESS_CHANGED | PC_OTHER.

(** The packet handed to [on_packet], if it is set; the callback always succeeds. *)
Definition ConnectionCallback (on_packet : bool) (event : protocol_connection_event) : option (list Z) :=
  match event with
  | PC_DATAGRAM_RECEIVED data => if on_packet then Some data else None
  | _ => None
  end.

(** [None]: freed. *)
Definition meridian_protocol_destroy (n : protocol_node) (w : quic_world) : option protocol_node * quic_world :=
  let '(c, free) := released (pn_refcounter n) in
  if negb free then (Some (pn_with_refs n c), w)
  else
    let '(_, n1, w1) := node_stop n w in
    let w2 := match pn_msquic n1 with
              | Some _ => say w1 (concat (map shut_connection (peer_handles (pn_protocol n1))))
              | None => w1
              end in
    let w3 := say w2 (on_handle (fun c => [QConfigurationClose c]) (pn_configuration n1)
                        ++ on_handle (fun r => [QRegistrationClose r]) (pn_registration n1)) in
    (None, match pn_msquic n1 with Some _ => close_library w3 | None => w3 end).

(** ** What a node owns *)

(** The connections of the peer table, and those accepted while it was full. *)
Definition open_below (p : meridian_protocol_t) (X : list Z) : list Z := peer_handles p ++ X.

(** A running node has a registration with one configuration, one listener and
    these connections below it; a node that is not running has nothing. *)
Definition owns (F : quic_store) (n : protocol_node) (X : list Z) (st : quic_store) : Prop :=
  if mp_running (pn_protocol n) then
    ∃ t r c l, pn_msquic n = Some t ∧ pn_registration n = Some r ∧ pn_configuration n = Some c ∧ pn_listener n = Some l ∧
      (r ∉ qt_registrations F) ∧ qt_configurations F !! c = None ∧ qt_listeners F !! l = None ∧
      base.NoDup (open_below (pn_protocol n) X) ∧
      (∀ k, k ∈ open_below (pn_protocol n) X → qt_connections F !! k = None) ∧
      qt_registrations st = {[r]} ∪ qt_registrations F ∧
      qt_configurations st = <[c := r]> (qt_configurations F) ∧
      qt_listeners st = <[l := r]> (qt_listeners F) ∧
      ∀ k, qt_connections st !! k = if decide (k ∈ open_below (pn_protocol n) X) then Some r else qt_connections F !! k
  else
    pn_registration n = None ∧ pn_configuration n = None ∧ pn_listener n = None ∧ mp_peers (pn_protocol n) = [] ∧ X = [] ∧
    qt_registrations st = qt_registrations F ∧ qt_configurations st = qt_configurations F ∧
    qt_listeners st = qt_listeners F ∧ qt_connections st = qt_connections F.

(** [others] references to the library are held by the rest of the process, [held]
    by the node's starts. *)
Record library_ok (F : quic_store) (others held : Z) (w : quic_world) (st : quic_store) : Prop := {
  lo_count : g_msquic_refcount (qw_library w) = others + held;
  lo_table : is_Some (g_msquic (qw_library w)) ↔ 0 < others + held;
  lo_open : qt_open st = (0 <? others + held);
  lo_others : 0 <= others ∧ 0 <= held ∧ (others = 0 → qt_registrations F = ∅)
}.

Definition node_inv (F : quic_store) (others held : Z) (n : protocol_node) (X : list Z) (w : quic_world) : Prop :=
  ∃ st, replay empty_store (qw_log w) = Some st ∧ owns F n X st ∧ library_ok F others held w st ∧
    (is_Some (pn_msquic n) → 0 < held).

(** ** Steps *)

Definition fresh_in (m : quic_store → gmap Z Z) (h : option Z) (w : quic_world) : Prop :=
  ∀ st k, replay empty_store (qw_log w) = Some st → h = Some k → m st !! k = None.

(** msquic hands out handles that are not in use. *)
Record outcomes_fresh (o : start_outcomes) (w : quic_world) : Prop := {
  of_registration : ∀ st r, replay empty_store (qw_log w) = Some st → so_registration o = Some r → r ∉ qt_registrations st;
  of_configuration : fresh_in qt_configurations (so_configuration o) w;
  of_listener : fresh_in qt_listeners (so_listener o) w
}.

(** What a node is asked to do, with the connections accepted while the peer table
    was full: no slot holds them and nothing closes them.  Stopping the node with
    such connections is not a step ([stop_strands]). *)
Inductive node_step : protocol_node * quic_world * list Z → protocol_node * quic_world * list Z → Prop :=
| nstep_start n w X o now rc n' w' :
    outcomes_fresh o w → g_msquic_refcount (qw_library w) + 1 < 2 ^ 32 →
    meridian_protocol_start n w o now = (rc, n', w') → node_step (n, w, X) (n', w', X)
| nstep_stop n w rc n' w' : node_stop n w = (rc, n', w') → node_step (n, w, []) (n', w', [])
| nstep_connect n w X addr port opened started rc n' w' :
    fresh_in qt_connections opened w →
    node_connect n w addr port opened started = Ret (rc, n', w') → node_step (n, w, X) (n', w', X)
| nstep_disconnect n w X addr port rc n' w' :
    node_disconnect n w addr port = (rc, n', w') → node_step (n, w, X) (n', w', X)
| nstep_accept n w X conn configured accepted n' w' :
    fresh_in qt_connections (Some conn) w →
    ListenerCallback n w conn configured = Ret (accepted, n', w') →
    node_step (n, w, X)
      (n', w', if accepted && (MAX_CONNECTED_PEERS <=? zlen (mp_peers (pn_protocol n))) then X ++ [conn] else X).

Lemma library_open F others held w st opened :
  library_ok F others held w st → replay empty_store (qw_log w) = Some st → children_of F st →
  g_msquic_refcount (qw_library w) + 1 < 2 ^ 32 →
  let '(t, w1) := open_library w opened in
  match t with
  | None => qw_library w1 = qw_library w ∧ qw_log w1 = qw_log w
  | Some _ => replay empty_store (qw_log w1) = Some (rooted F true) ∧ library_ok F others (held + 1) w1 (rooted F true)
  end.
Proof.
  intros [Lc Lt Lo (P1 & P2 & P3)] Er Ec Hb. unfold open_library, poseidon_msquic_open. destruct (g_msquic (qw_library w)) as [t|] eqn:Et.
  - assert (0 < others + held) by (by apply Lt). rewrite (proj2 (Z.ltb_lt _ _)) in Lo by done. cbn. rewrite app_nil_r, Er. split.
    + f_equal. by rewrite Ec, Lo.
    + split; cbn; [rewrite u32_id by (unfold is_u32; lia); lia| |symmetry; apply Z.ltb_lt; lia|split_and!; [lia|lia|done]].
      split; [lia|by eexists].
  - assert (¬ 0 < others + held) by (intros H; apply Lt in H as [? ?]; congruence).
    destruct opened as [t|]; cbn; [|split; [by destruct (qw_library w)|apply app_nil_r]].
    rewrite replay_app, Er. rewrite (proj2 (Z.ltb_ge _ _)) in Lo by lia. cbn. rewrite Lo. cbn. split.
    + f_equal. rewrite Ec. unfold rooted. cbn. done.
    + split; cbn; [lia| |symmetry; apply Z.ltb_lt; lia|split_and!; [lia|lia|done]]. split; [lia|by eexists].
Qed.

Lemma library_close F others held w :
  0 < held → others + held < 2 ^ 32 → library_ok F others held w (rooted F true) → replay empty_store (qw_log w) = Some (rooted F true) →
  ∃ st, replay empty_store (qw_log (close_library w)) = Some st ∧ children_of F st ∧ library_ok F others (held - 1) (close_library w) st.
Proof.
  intros Hh Hb [Lc Lt Lo (P1 & P2 & P3)] Er. unfold close_library, poseidon_msquic_close.
  destruct (g_msquic (qw_library w)) as [t|] eqn:Et; [|destruct Lt as [_ Lt]; destruct (Lt ltac:(lia)); congruence].
  rewrite Lc, (proj2 (Z.eqb_neq _ _)) by lia. rewrite u32_id by (unfold is_u32; lia).
  destruct (Z.eqb_spec (others + held - 1) 0) as [E|E]; cbn [qw_log].
  - exists (rooted F false). rewrite replay_app, Er. cbn. rewrite bool_decide_eq_true_2 by (apply P3; lia). split_and!; [done|done|]. split; cbn; [lia| |symmetry; apply Z.ltb_ge; lia|split_and!; [lia|lia|done]].
    split; [by intros [? ?]|lia].
  - exists (rooted F true). rewrite app_nil_r, Er. split_and!; [done|done|]. split; cbn; [lia| |symmetry; apply Z.ltb_lt; lia|split_and!; [lia|lia|done]].
    split; [lia|by eexists].
Qed.

(** ** Every operation keeps the account *)

(** The fields of a node that is not running. *)
Record idle (n : protocol_node) : Prop := {
  id_running : mp_running (pn_protocol n) = false;
  id_registration : pn_registration n = None;
  id_configuration : pn_configuration n = None;
  id_listener : pn_listener n = None;
  id_peers : mp_peers (pn_protocol n) = []
}.

Lemma idle_inv F others held n w st :
  idle n → replay empty_store (qw_log w) = Some st → children_of F st → library_ok F others held w st →
  (is_Some (pn_msquic n) → 0 < held) → node_inv F others held n [] w.
Proof.
  intros [I1 I2 I3 I4 I5] Er Ec Lo Hm. exists st. split_and!; [done| |done|done]. unfold owns. rewrite I1, Ec. by split_and!.
Qed.

Lemma inv_idle F others held n X w :
  node_inv F others held n X w → mp_running (pn_protocol n) = false →
  idle n ∧ X = [] ∧ ∃ st, replay empty_store (qw_log w) = Some st ∧ children_of F st ∧ library_ok F others held w st.
Proof.
  intros (st & Er & Ho & Lo & _) Hr. unfold owns in Ho. rewrite Hr in Ho. destruct Ho as (O1 & O2 & O3 & O4 & O5 & E1 & E2 & E3 & E4).
  split; [by split|]. split; [done|]. exists st. split_and!; [done| |done]. destruct st. cbn in *. unfold children_of, rooted. cbn. congruence.
Qed.

Lemma with_quic_idle n m : idle n → idle (pn_with_quic n m None None None).
Proof. intros [I1 I2 I3 I4 I5]. by split. Qed.

Lemma idle_quic n m : idle n → pn_with_quic n m (pn_registration n) (pn_configuration n) (pn_listener n) = pn_with_quic n m None None None.
Proof. intros [I1 I2 I3 I4 I5]. by rewrite I2, I3, I4. Qed.

(** A start that gives up after its calls have been undone. *)
Lemma rolled_back F others held n w calls :
  idle n → 0 <= held → others + held + 1 < 2 ^ 32 → library_ok F others (held + 1) w (rooted F true) →
  replay empty_store (qw_log w) = Some (rooted F true) → replay (rooted F true) calls = Some (rooted F true) →
  node_inv F others held (pn_with_quic n None None None None) [] (close_library (say w calls)).
Proof.
  intros Hi Hh Hb Lo Er Ec. destruct (library_close F others (held + 1) (say w calls)) as (st & Es & Cs & Ls); [lia|lia| | |].
  - destruct Lo. by split.
  - by rewrite (replay_say _ _ _ Er).
  - rewrite Z.add_simpl_r in Ls. apply (idle_inv F others held _ _ st); [by apply with_quic_idle|done|done|done|by intros [? ?]].
Qed.

Lemma start_inv F others held n X w o now rc n' w' :
  frame_ok F → node_inv F others held n X w → outcomes_fresh o w → g_msquic_refcount (qw_library w) + 1 < 2 ^ 32 →
  mp_running (pn_protocol n) = false → meridian_protocol_start n w o now = (rc, n', w') →
  (rc = 0 ∧ mp_running (pn_protocol n') = true ∧ node_inv F others (held + 1) n' X w') ∨
  (rc = -1 ∧ idle n' ∧ node_inv F others held n' X w').
Proof.
  intros Ff Hn [Or Oc Ol] Hb Hrun. destruct (inv_idle F others held n X w Hn Hrun) as (Hi & -> & st & Er & Ec & Lo).
  pose proof (lo_count _ _ _ _ _ Lo) as Hc. pose proof (lo_others _ _ _ _ _ Lo) as (P1 & P2 & _).
  pose proof (library_open F others held w st (so_library o) Lo Er Ec Hb) as Hopen.
  unfold meridian_protocol_start. rewrite Hrun, !(idle_quic n _ Hi). destruct (open_library w (so_library o)) as [[t|] w1].
  2:{ destruct Hopen as [H1 H2]. intros [= <- <- <-]. right. split_and!; [done|by apply with_quic_idle|].
      apply (idle_inv F others held _ _ st); [by apply with_quic_idle|by rewrite H2|done| |by intros [? ?]].
      destruct Lo as [L1 L2 L3 L4]. split; by rewrite ?H1. }
  destruct Hopen as [E1 L1].
  assert (Rb : ∀ calls, replay (rooted F true) calls = Some (rooted F true) →
    (-1, pn_with_quic n None None None None, close_library (say w1 calls)) = (rc, n', w') →
    (rc = 0 ∧ mp_running (pn_protocol n') = true ∧ node_inv F others (held + 1) n' [] w') ∨
    (rc = -1 ∧ idle n' ∧ node_inv F others held n' [] w')).
  { intros calls Hcalls [= <- <- <-]. right. split_and!; [done|by apply with_quic_idle|]. apply rolled_back; done || lia. }
  assert (Fr : ∀ r, so_registration o = Some r → r ∉ qt_registrations F) by (intros r H; pose proof (Or st r Er H) as X; by rewrite Ec in X).
  assert (Fc : ∀ c, so_configuration o = Some c → qt_configurations F !! c = None) by (intros c H; pose proof (Oc st c Er H) as X; by rewrite Ec in X).
  assert (Fl : ∀ l, so_listener o = Some l → qt_listeners F !! l = None) by (intros l H; pose proof (Ol st l Er H) as X; by rewrite Ec in X).
  destruct (so_registration o) as [r|]; [|intros H; apply (Rb []); [done|]; unfold say; rewrite app_nil_r; by destruct w1].
  specialize (Fr r eq_refl). cbn zeta. destruct (so_configuration o) as [c|].
  2:{ rewrite (id_configuration n Hi), (id_listener n Hi), say_say. apply Rb. rewrite replay_app, tree_open_registration by done. by apply tree_close_registration. }
  specialize (Fc c eq_refl). rewrite !(id_listener n Hi), !say_say. cbn [app].
  assert (Eo : replay (rooted F true) [QRegistrationOpen r; QConfigurationOpen r c; QConfigurationLoadCredential c] = Some (tree F r (Some c) None)).
  { rewrite (replay_step _ _ _ _ (tree_open_registration F r Fr)). by apply tree_open_configuration. }
  assert (Ex : replay (tree F r (Some c) None) [QConfigurationClose c; QRegistrationClose r] = Some (rooted F true)).
  { rewrite (replay_step _ _ _ _ (tree_close_configuration F r c None Fc)). by apply tree_close_registration. }
  pose proof (replay_glue _ _ _ _ _ Eo Ex) as Eu.
  destruct (so_credential o _); cbn [negb]; [|by apply Rb]. destruct (so_listener o) as [l|]; [|by apply Rb].
  specialize (Fl l eq_refl).
  assert (El : replay (tree F r (Some c) None) [QListenerOpen r l; QListenerSetCallback l; QListenerStart l]
    = Some (tree F r (Some c) (Some l))) by (by apply tree_open_listener).
  apply (replay_glue _ _ _ _ _ Eo) in El. cbn [app] in El.
  destruct (so_listening o); cbn [negb]; rewrite ?say_say; cbn [app].
  - intros [= <- <- <-]. left. split_and!; [done|done|]. exists (tree F r (Some c) (Some l)).
    split_and!; [by rewrite (replay_say _ _ _ E1)| |destruct L1; by split|lia]. unfold owns. cbn. exists t, r, c, l.
    unfold open_below, peer_handles. cbn. rewrite (id_peers n Hi). split_and!; try done; [constructor|by intros k ?%elem_of_nil].
  - apply Rb, (replay_glue _ _ _ _ _ El). by apply close_all.
Qed.

(** A running node whose handles are [t], [r], [c], [l], seen from the store. *)
Lemma inv_running F others held n X w :
  node_inv F others held n X w → mp_running (pn_protocol n) = true →
  ∃ st r c l, replay empty_store (qw_log w) = Some st ∧ library_ok F others held w st ∧ 0 < held ∧
    is_Some (pn_msquic n) ∧ pn_registration n = Some r ∧ pn_configuration n = Some c ∧ pn_listener n = Some l ∧
    (r ∉ qt_registrations F) ∧ qt_configurations F !! c = None ∧ qt_listeners F !! l = None ∧
    base.NoDup (open_below (pn_protocol n) X) ∧ (∀ k, k ∈ open_below (pn_protocol n) X → qt_connections F !! k = None) ∧
    (∀ k, qt_connections st !! k = if decide (k ∈ open_below (pn_protocol n) X) then Some r else qt_connections F !! k) ∧
    st = st_with_connections (tree F r (Some c) (Some l)) (qt_connections st).
Proof.
  intros (st & Er & Ho & Lo & Hm) Hr. unfold owns in Ho. rewrite Hr in Ho.
  destruct Ho as (t & r & c & l & E1 & E2 & E3 & E4 & O1 & O2 & O3 & O4 & O5 & S1 & S2 & S3 & S4).
  assert (Hh : 0 < held) by (apply Hm; by rewrite E1). exists st, r, c, l. split_and!; try done.
  pose proof (lo_open _ _ _ _ _ Lo) as Hopen. pose proof (lo_others _ _ _ _ _ Lo) as (P1 & _).
  rewrite (proj2 (Z.ltb_lt _ _)) in Hopen by lia. destruct st. cbn in *. unfold st_with_connections. cbn. congruence.
Qed.

Lemma stop_inv F others held n w rc n' w' :
  frame_ok F → node_inv F others held n [] w → node_stop n w = (rc, n', w') →
  idle n' ∧ node_inv F others held n' [] w' ∧ pn_msquic n' = pn_msquic n.
Proof.
  intros Ff Hn. unfold node_stop. destruct (mp_running (pn_protocol n)) eqn:Hr; cbn [negb].
  2:{ intros [= <- <- <-]. by split_and!; [eapply inv_idle|..]. }
  destruct (inv_running F others held n [] w Hn Hr) as (st & r & c & l & Er & Lo & Hh & Em & E1 & E2 & E3 & O1 & O2 & O3 & O4 & O5 & S & Es).
  rewrite E1, E2, E3. unfold meridian_protocol_stop. rewrite Hr. cbn [negb]. intros [= <- <- <-].
  unfold open_below in *. rewrite app_nil_r in *. set (ks := peer_handles (pn_protocol n)) in *.
  pose proof (shut_all F r (Some c) (Some l) st ks O4 O5 S Es) as Eshut.
  assert (Eclose : replay (tree F r (Some c) (Some l)) [QListenerStop l; QListenerClose l; QConfigurationClose c; QRegistrationClose r]
      = Some (rooted F true)).
  { rewrite (replay_step _ _ _ _ (tree_stop_listener F r (Some c) l)). by apply close_all. }
  assert (Hi : idle (mkNode (pn_refcounter n) MERIDIAN_PROTOCOL_STATE_SHUTTING_DOWN (pn_config n)
    (mkProtocol false (mp_local_s_addr (pn_protocol n)) (mp_local_sin_port (pn_protocol n)) (mp_seed_nodes (pn_protocol n)) [] (mp_ring_set (pn_protocol n)))
    (meridian_gossip_handle_stop <$> pn_gossip_handle n) (pn_msquic n) None None None (pn_rendv_msquic n) (pn_rendv_registration n))) by done.
  split_and!; [done| |done]. apply (idle_inv F others held _ _ (rooted F true)); [done| |done| |done].
  - rewrite (replay_say _ _ _ Er). exact (replay_glue _ _ _ _ _ Eshut Eclose).
  - destruct Lo as [L1 L2 L3 (L4 & L5 & L6)]. split; cbn; [done|done|symmetry; apply Z.ltb_lt; lia|done].
Qed.

(** With connections no slot holds, stopping closes the registration above open
    connections. *)
Lemma stop_strands F others held n X w :
  node_inv F others held n X w → X ≠ [] → replay empty_store (qw_log (node_stop n w).2) = None.
Proof.
  intros Hn HX. destruct (mp_running (pn_protocol n)) eqn:Hr; [|by destruct (inv_idle F others held n X w Hn Hr) as (_ & ? & _)].
  destruct (inv_running F others held n X w Hn Hr) as (st & r & c & l & Er & Lo & Hh & Em & E1 & E2 & E3 & O1 & O2 & O3 & O4 & O5 & S & Es).
  unfold node_stop. rewrite Hr, E1, E2, E3. cbn [negb snd]. rewrite (replay_say _ _ _ Er). unfold open_below in *.
  apply list.NoDup_app in O4 as (N1 & N2 & _).
  rewrite replay_app, (replay_shut st); [|done|intros k Hk; rewrite S, decide_True by (apply elem_of_app; by left); by eexists].
  destruct X as [|x X]; [done|].
  assert (Hx : without (qt_connections st) (peer_handles (pn_protocol n)) !! x = Some r).
  { rewrite without_lookup, decide_False by (intros Hin; apply (N2 x Hin); by left). rewrite S, decide_True by (apply elem_of_app; right; by left). done. }
  assert (Hl : qt_listeners st !! l = Some r) by (rewrite Es; cbn; by rewrite lookup_insert_eq).
  assert (Hc : qt_configurations st !! c = Some r) by (rewrite Es; cbn; by rewrite lookup_insert_eq).
  cbn. rewrite (has_true _ _ r) by done. cbn. rewrite (has_true _ _ r) by done. cbn. rewrite (has_true _ _ r) by done. cbn.
  assert (Hch : childless r (without (qt_connections st) (peer_handles (pn_protocol n))) = false)
    by (apply bool_decide_eq_false_2; intros Hall; by apply (Hall x r Hx)).
  rewrite Hch, andb_false_r. done.
Qed.

(** The handles below the registration after a connection has been added or
    taken away. *)
Lemma running_inv F others held n X w r c l p' X' calls m :
  node_inv F others held n X w → mp_running (pn_protocol n) = true →
  pn_registration n = Some r → pn_configuration n = Some c → pn_listener n = Some l → mp_running p' = true →
  (∀ st, replay empty_store (qw_log w) = Some st →
     (∀ k, qt_connections st !! k = if decide (k ∈ open_below (pn_protocol n) X) then Some r else qt_connections F !! k) →
     qt_listeners st !! l = Some r → is_Some (qt_configurations st !! c) → r ∈ qt_registrations st →
     replay st calls = Some (st_with_connections st (m st)) ∧
     ∀ k, m st !! k = if decide (k ∈ open_below p' X') then Some r else qt_connections F !! k) →
  base.NoDup (open_below p' X') → (∀ k, k ∈ open_below p' X' → qt_connections F !! k = None) →
  node_inv F others held (pn_with_protocol n p') X' (say w calls).
Proof.
  intros Hn Hr E1 E2 E3 Hr' Hcalls N1 N2.
  destruct (inv_running F others held n X w Hn Hr) as (st & r0 & c0 & l0 & Er & Lo & Hh & [t Em] & X1 & X2 & X3 & O1 & O2 & O3 & O4 & O5 & S & Es).
  rewrite E1 in X1. rewrite E2 in X2. rewrite E3 in X3. injection X1 as <-. injection X2 as <-. injection X3 as <-.
  destruct (Hcalls st Er S) as [Ec Em'];
    [rewrite Es; cbn; by rewrite lookup_insert_eq|rewrite Es; cbn; rewrite lookup_insert_eq; by eexists|rewrite Es; cbn; set_solver|].
  exists (st_with_connections st (m st)). split_and!; [by rewrite (replay_say _ _ _ Er)| |destruct Lo; by split|done].
  unfold owns. cbn [pn_protocol pn_with_protocol]. rewrite Hr'. exists t, r, c, l. cbn. rewrite Es. cbn. rewrite <- Es. by split_and!.
Qed.

(** A fresh connection is added, at the end of the table or to those outside it. *)
Lemma add_connection_inv F others held n X w r c l k p' X' calls :
  node_inv F others held n X w → mp_running (pn_protocol n) = true →
  pn_registration n = Some r → pn_configuration n = Some c → pn_listener n = Some l → mp_running p' = true →
  open_below p' X' ≡ₚ k :: open_below (pn_protocol n) X →
  fresh_in qt_connections (Some k) w →
  (∀ st, qt_listeners st !! l = Some r → is_Some (qt_configurations st !! c) → r ∈ qt_registrations st → qt_connections st !! k = None →
     replay st calls = Some (st_with_connections st (<[k := r]> (qt_connections st)))) →
  node_inv F others held (pn_with_protocol n p') X' (say w calls).
Proof.
  intros Hn Hr E1 E2 E3 Hr' Eh Hf Hcalls.
  destruct (inv_running F others held n X w Hn Hr) as (st & r0 & c0 & l0 & Er & Lo & Hh & Em & X1 & X2 & X3 & O1 & O2 & O3 & O4 & O5 & S & Es).
  pose proof (Hf st k Er eq_refl) as Hk. pose proof (S k) as Sk. rewrite Hk in Sk.
  destruct (decide (k ∈ open_below (pn_protocol n) X)) as [?|Hnin]; [done|].
  assert (Hel : ∀ j, j ∈ open_below p' X' ↔ j = k ∨ j ∈ open_below (pn_protocol n) X) by (intros j; by rewrite Eh, elem_of_cons).
  apply (running_inv F others held n X w r c l p' X' calls (fun st => <[k := r]> (qt_connections st))); try done.
  - intros st' Er' S' Hl Hc Hreg. rewrite Er in Er'. injection Er' as <-. split; [by apply Hcalls|].
    intros j. destruct (decide (j = k)) as [->|Hj]; [rewrite lookup_insert_eq, decide_True by (apply Hel; by left); done|].
    rewrite lookup_insert_ne, S' by done. destruct (decide (j ∈ open_below (pn_protocol n) X)) as [H1|H1].
    + by rewrite decide_True by (apply Hel; by right).
    + by rewrite decide_False by (intros [?|?]%Hel; done).
  - rewrite Eh. by apply list.NoDup_cons.
  - intros j [-> |Hj]%Hel; [by symmetry|by apply O5].
Qed.

Lemma peers_snoc p k node X :
  open_below (mp_with_peers p (mp_peers p ++ [mkPeer (Some k) node])) X ≡ₚ k :: open_below p X.
Proof. unfold open_below, peer_handles. cbn. rewrite omap_app. cbn. rewrite <- (assoc_L (++)). cbn. by rewrite Permutation_middle. Qed.

Lemma connect_inv F others held n X w addr port opened started rc n' w' :
  node_inv F others held n X w → fresh_in qt_connections opened w →
  node_connect n w addr port opened started = Ret (rc, n', w') → node_inv F others held n' X w'.
Proof.
  intros Hn Hf. unfold node_connect. destruct (meridian_protocol_connect _ _ _ _ _) as [rc0 p'] eqn:Ep. unfold meridian_protocol_connect in Ep.
  destruct (mp_running (pn_protocol n)) eqn:Hr; cbn [negb orb] in *; [|by intros [= <- <- <-]].
  destruct (MAX_CONNECTED_PEERS <=? _); cbn [orb] in *; [by intros [= <- <- <-]|].
  destruct (existsb _ _); cbn [orb] in *; [by intros [= <- <- <-]|].
  destruct (inv_running F others held n X w Hn Hr) as (st & r & c & l & Er & Lo & Hh & Em & X1 & X2 & X3 & O1 & O2 & O3 & O4 & O5 & S & Es).
  rewrite X1, X2. destruct opened as [k|]; [destruct started|]; injection Ep as <- <-; cbn [negb app]; intros [= <- <- <-].
  - apply (add_connection_inv F others held n X w r c l k); try done; [apply peers_snoc|]. intros s Hl [x Hx] Hreg Hk. cbn.
    rewrite bool_decide_eq_true_2, has_false by done. cbn.
    by rewrite (has_true _ _ r), (has_true _ _ x) by (done || by rewrite lookup_insert_eq).
  - apply (running_inv F others held n X w r c l _ _ _ qt_connections); try done. intros s Es' Ss Hl [x Hx] Hreg. split; [|done].
    pose proof (Hf s k Es' eq_refl) as Hk. cbn. rewrite bool_decide_eq_true_2, has_false by done. cbn.
    rewrite (has_true _ _ r), (has_true _ _ x) by (done || by rewrite lookup_insert_eq). cbn. rewrite (has_true _ _ r) by (by rewrite lookup_insert_eq).
    cbn. by rewrite delete_insert_id by done.
  - apply (running_inv F others held n X w r c l _ _ _ qt_connections); try done. intros s Es' Ss _ _ _. split; [by destruct s|done].
Qed.

(** Accepting succeeds whether the table is full or not. *)
Lemma accept_inv F others held n X w conn configured accepted n' w' :
  node_inv F others held n X w → fresh_in qt_connections (Some conn) w →
  ListenerCallback n w conn configured = Ret (accepted, n', w') →
  node_inv F others held n' (if accepted && (MAX_CONNECTED_PEERS <=? zlen (mp_peers (pn_protocol n))) then X ++ [conn] else X) w'.
Proof.
  intros Hn Hf. unfold ListenerCallback. destruct (mp_running (pn_protocol n)) eqn:Hr.
  2:{ destruct (inv_idle F others held n X w Hn Hr) as ([_ _ _ -> _] & _). done. }
  destruct (inv_running F others held n X w Hn Hr) as (st & r & c & l & Er & Lo & Hh & Em & X1 & X2 & X3 & O1 & O2 & O3 & O4 & O5 & S & Es).
  rewrite X2, X3. destruct configured; cbn [negb]; intros [= <- <- <-]; [|done]. cbn [andb].
  assert (Hcall : ∀ s, qt_listeners s !! l = Some r → is_Some (qt_configurations s !! c) → r ∈ qt_registrations s → qt_connections s !! conn = None →
    replay s [QConnectionAccepted l conn c] = Some (st_with_connections s (<[conn := r]> (qt_connections s)))).
  { intros s Hl [x Hx] Hreg Hk. cbn. rewrite Hl, has_false by done. by rewrite (has_true _ _ x). }
  unfold listener_new_connection. destruct (Z.ltb_spec (zlen (mp_peers (pn_protocol n))) MAX_CONNECTED_PEERS) as [Hlt|Hge].
  - rewrite (proj2 (Z.leb_gt _ _)) by done. apply (add_connection_inv F others held n X w r c l conn); try done. apply peers_snoc.
  - rewrite (proj2 (Z.leb_le _ _)) by done. apply (add_connection_inv F others held n X w r c l conn); try done.
    unfold open_below. rewrite (assoc_L (++)). by rewrite <- Permutation_cons_append.
Qed.

Lemma remove_peer_find a q l l' :
  remove_peer a q l = Some l' → ∃ l1 s l2, l = l1 ++ s :: l2 ∧ l' = l1 ++ l2 ∧ List.find (slot_matches a q) l = Some s.
Proof.
  revert l'. induction l as [|s l IH]; intros l'; cbn; [done|]. destruct (slot_matches a q s).
  - intros [= <-]. by exists [], s, l.
  - intros (l0 & H0 & ->)%fmap_Some. destruct (IH l0 H0) as (l1 & t & l2 & -> & -> & Hf). by exists (s :: l1), t, l2.
Qed.

Lemma remove_peer_none a q l : remove_peer a q l = None → List.find (slot_matches a q) l = None.
Proof.
  induction l as [|s l IH]; cbn; [done|]. destruct (slot_matches a q s); [done|].
  destruct (remove_peer a q l); [done|]. by intros _; apply IH.
Qed.

Lemma disconnect_inv F others held n X w addr port rc n' w' :
  node_inv F others held n X w → node_disconnect n w addr port = (rc, n', w') → node_inv F others held n' X w'.
Proof.
  intros Hn. unfold node_disconnect, meridian_protocol_disconnect.
  assert (Esame : node_inv F others held (pn_with_protocol n (pn_protocol n)) X (say w [])).
  { destruct Hn as (st & Er & Ho & Lo & Hm). exists st. split_and!; [by rewrite (replay_say _ _ _ Er)|done|destruct Lo; by split|done]. }
  destruct (mp_running (pn_protocol n)) eqn:Hr; cbn [negb]; [|by intros [= <- <- <-]].
  destruct (remove_peer addr port (mp_peers (pn_protocol n))) as [l'|] eqn:E.
  2:{ rewrite (remove_peer_none _ _ _ E). by intros [= <- <- <-]. }
  apply remove_peer_find in E as (l1 & s & l2 & El & -> & Hf). rewrite Hf. intros [= <- <- <-].
  destruct (inv_running F others held n X w Hn Hr) as (st & r & c & l & Er & Lo & Hh & Em & X1 & X2 & X3 & O1 & O2 & O3 & O4 & O5 & S & Es).
  set (p' := mp_with_peers (pn_protocol n) (l1 ++ l2)).
  assert (Ep : open_below p' X = omap peer_conn l1 ++ omap peer_conn l2 ++ X) by (unfold open_below, peer_handles; cbn; by rewrite omap_app, <- (assoc_L (++))).
  assert (En : open_below (pn_protocol n) X = omap peer_conn l1 ++ omap peer_conn (s :: l2) ++ X)
    by (unfold open_below, peer_handles; by rewrite El, omap_app, <- (assoc_L (++))).
  cbn [omap list_omap] in En. destruct (peer_conn s) as [k|]; cbn [on_handle].
  - assert (Eperm : open_below (pn_protocol n) X ≡ₚ k :: open_below p' X) by (rewrite En, Ep; symmetry; apply Permutation_middle).
    rewrite Eperm in O4. apply list.NoDup_cons in O4 as [Hk N4].
    assert (Hel : ∀ j, j ∈ open_below (pn_protocol n) X ↔ j = k ∨ j ∈ open_below p' X) by (intros j; by rewrite Eperm, elem_of_cons).
    apply (running_inv F others held n X w r c l p' X _ (fun st => delete k (qt_connections st))); try done.
    + intros s' Es' Ss _ _ _. assert (Hks : qt_connections s' !! k = Some r) by (rewrite Ss, decide_True; [done|apply Hel; by left]).
      cbn. rewrite (has_true _ _ r) by done. cbn. rewrite (has_true _ _ r) by done. split; [done|]. intros j.
      change (omap peer_conn (l1 ++ l2) ++ X) with (open_below p' X).
      destruct (decide (j = k)) as [->|Hj].
      * rewrite lookup_delete_eq, decide_False by done. symmetry. apply O5, Hel. by left.
      * rewrite lookup_delete_ne, Ss by done. destruct (decide (j ∈ open_below p' X)) as [H1|H1].
        -- by rewrite decide_True by (apply Hel; by right).
        -- by rewrite decide_False by (intros [?|?]%Hel; done).
    + intros j Hj. apply O5, Hel. by right.
  - assert (Esm : open_below p' X = open_below (pn_protocol n) X) by (by rewrite Ep, En).
    apply (running_inv F others held n X w r c l p' X _ qt_connections); try done; rewrite Esm; try done.
    intros s' Es' Ss _ _ _. split; [by destruct s'|done].
Qed.

Lemma running_start n w o now : mp_running (pn_protocol n) = true → meridian_protocol_start n w o now = (0, n, w).
Proof. intros H. unfold meridian_protocol_start. by rewrite H. Qed.

Lemma node_step_inv F others held x y :
  frame_ok F → node_step x y → node_inv F others held x.1.1 x.2 x.1.2 → ∃ held', node_inv F others held' y.1.1 y.2 y.1.2.
Proof.
  intros Ff Hs Hn. destruct Hs as [n w X o now rc n' w' Hf Hb E|n w rc n' w' E|n w X addr port opened started rc n' w' Hf E
    |n w X addr port rc n' w' E|n w X conn configured rc n' w' Hf E]; cbn [fst snd] in *.
  - destruct (mp_running (pn_protocol n)) eqn:Hr; [rewrite running_start in E by done; injection E as <- <- <-; by exists held|].
    destruct (start_inv F others held n X w o now rc n' w' Ff Hn Hf Hb Hr E) as [(_ & _ & H)|(_ & _ & H)]; by eexists.
  - exists held. eapply stop_inv; done.
  - exists held. by eapply connect_inv.
  - exists held. by eapply disconnect_inv.
  - exists held. by eapply accept_inv.
Qed.

Lemma start_refs n w o now : pn_refcounter (meridian_protocol_start n w o now).1.2 = pn_refcounter n.
Proof.
  unfold meridian_protocol_start. destruct (mp_running _); [done|]. destruct (open_library w (so_library o)) as [[t|] w1]; [|done].
  destruct (so_registration o); [|done]. destruct (so_configuration o); [|done]. cbn zeta. destruct (so_credential o _); [|done].
  destruct (so_listener o); [|done]. by destruct (so_listening o).
Qed.

Lemma node_step_refs x y : node_step x y → pn_refcounter y.1.1 = pn_refcounter x.1.1.
Proof.
  destruct 1 as [n w X o now rc n' w' _ _ E|n w rc n' w' E|n w X addr port opened started rc n' w' _ E
    |n w X addr port rc n' w' E|n w X conn configured rc n' w' _ E]; cbn [fst snd].
  - pose proof (start_refs n w o now) as H. by rewrite E in H.
  - unfold node_stop in E. by destruct (mp_running _); injection E as <- <- <-.
  - unfold node_connect in E. destruct (meridian_protocol_connect _ _ _ _ _). destruct (_ || _); [by injection E as <- <- <-|].
    destruct (pn_registration n); [by injection E as <- <- <-|done].
  - unfold node_disconnect in E. destruct (meridian_protocol_disconnect _ _ _). by injection E as <- <- <-.
  - unfold ListenerCallback in E. destruct (pn_listener n), (pn_configuration n); try done. by destruct configured; injection E as <- <- <-.
Qed.

(** [meridian_protocol_destroy] closes the library if it has the table. *)
Definition given_back (table : option Z) : Z := match table with Some _ => 1 | None => 0 end.

Lemma destroy_inv F others held n w :
  frame_ok F → node_inv F others held n [] w → pn_refcounter n = refcounter_init → others + held < 2 ^ 32 →
  let '(d, w') := meridian_protocol_destroy n w in
  d = None ∧ ∃ st, replay empty_store (qw_log w') = Some st ∧ children_of F st ∧
    library_ok F others (held - given_back (pn_msquic n)) w' st.
Proof.
  intros Ff Hn Hrc Hb. unfold meridian_protocol_destroy. rewrite Hrc. change (released refcounter_init) with (mkRefc 0 0, true). cbn [negb].
  destruct (node_stop n w) as [[rc n1] w1] eqn:Es. destruct (stop_inv F others held n w rc n1 w1 Ff Hn Es) as (Hi & Hn1 & Em).
  rewrite Em. destruct Hi as [I1 I2 I3 I4 I5]. unfold peer_handles. rewrite I2, I3, I5. cbn [omap list_omap map concat on_handle app].
  destruct (inv_idle F others held n1 [] w1 Hn1 I1) as (_ & _ & st & Er & Ec & Lo). split; [done|].
  assert (Enil : ∀ v, say v [] = v) by (intros v; unfold say; rewrite app_nil_r; by destruct v).
  destruct (pn_msquic n) as [t|] eqn:Et; rewrite !Enil; cbn [given_back]; [|rewrite Z.sub_0_r; by exists st].
  assert (Hh : 0 < held). { destruct Hn1 as (? & _ & _ & _ & Hm). apply Hm. rewrite Em. by eexists. }
  apply (library_close F others held w1); try done.
  - destruct Lo as [L1 L2 L3 (L4 & L5 & L6)]. split; cbn; [done|done|symmetry; apply Z.ltb_lt; lia|done].
  - rewrite Er. f_equal. rewrite Ec. pose proof (lo_open _ _ _ _ _ Lo) as ->. pose proof (lo_others _ _ _ _ _ Lo) as (? & _).
    by rewrite (proj2 (Z.ltb_lt _ _)) by lia.
Qed.

(** Destroying the last reference starts with stopping. *)
Lemma destroy_after_stop n w :
  pn_refcounter n = refcounter_init → replay empty_store (qw_log (node_stop n w).2) = None →
  replay empty_store (qw_log (meridian_protocol_destroy n w).2) = None.
Proof.
  intros Hrc H. unfold meridian_protocol_destroy. rewrite Hrc. change (released refcounter_init) with (mkRefc 0 0, true). cbn [negb].
  destruct (node_stop n w) as [[rc n1] w1]. cbn [snd] in *.
  assert (Hsay : ∀ v l, replay empty_store (qw_log v) = None → replay empty_store (qw_log (say v l)) = None)
    by (intros v l E; cbn; by rewrite replay_app, E).
  assert (Hclose : ∀ v, replay empty_store (qw_log v) = None → replay empty_store (qw_log (close_library v)) = None)
    by (intros v E; unfold close_library; destruct (poseidon_msquic_close _); cbn; by rewrite replay_app, E).
  destruct (pn_msquic n1); [apply Hclose|]; repeat apply Hsay; done.
Qed.

(** ** Properties *)

(** C36. Whatever a node is asked to do after its creation (starts, stops,
    connections opened, closed and accepted, also while the peer table is full; but
    no stop while [X], the list of connections accepted on a full table, is not
    empty), it never misuses msquic and loses account of nothing but [X]: in every
    reachable state the log replays, a running node has exactly one registration with
    one configuration, one listener and, below it, the connections of its peer table
    and those of [X]; a stopped one has none; and the handles of the rest of the
    process are untouched.  If [X] is empty (and the library's 32-bit count of
    references has not run over), destroying the node closes everything below its
    registration and gives back its reference to the library, if it has one.  If it is
    not, stopping the node closes the registration above open
    connections, and so does destroying it: the log does not replay any more. *)
Theorem protocol_handles_accounted F others config n0 w0 st0 n w X :
  frame_ok F → meridian_protocol_create (Some config) = Some n0 →
  replay empty_store (qw_log w0) = Some st0 → children_of F st0 → library_ok F others 0 w0 st0 →
  rtc node_step (n0, w0, []) (n, w, X) →
  ∃ held st, replay empty_store (qw_log w) = Some st ∧ owns F n X st ∧ library_ok F others held w st ∧
    (X = [] → others + held < 2 ^ 32 →
     ∃ w' st', meridian_protocol_destroy n w = (None, w') ∧ replay empty_store (qw_log w') = Some st' ∧ children_of F st' ∧
       library_ok F others (held - given_back (pn_msquic n)) w' st') ∧
    (X ≠ [] → replay empty_store (qw_log (node_stop n w).2) = None ∧
              replay empty_store (qw_log (meridian_protocol_destroy n w).2) = None).
Proof.
  intros Ff Hc Er Ec Lo Hrun.
  assert (H0 : pn_refcounter n0 = refcounter_init ∧ ∃ held, node_inv F others held n0 [] w0).
  { cbn in Hc. injection Hc as <-. split; [done|]. exists 0. by apply (idle_inv F others 0 _ _ st0); [done..|intros [? ?]]. }
  assert (H : pn_refcounter n = refcounter_init ∧ ∃ held, node_inv F others held n X w).
  { change (pn_refcounter (n, w, X).1.1 = refcounter_init ∧ ∃ held, node_inv F others held (n, w, X).1.1 (n, w, X).2 (n, w, X).1.2).
    change (pn_refcounter (n0, w0, @nil Z).1.1 = refcounter_init ∧ ∃ held, node_inv F others held (n0, w0, @nil Z).1.1 (n0, w0, @nil Z).2 (n0, w0, @nil Z).1.2) in H0.
    clear Hc Er Ec Lo. induction Hrun as [x|x y z Hs _ IH]; [done|]. apply IH. destruct H0 as [R [h Hn]].
    split; [by rewrite (node_step_refs _ _ Hs)|by eapply node_step_inv]. }
  destruct H as [Hrc [held Hn]]. pose proof Hn as (st & Es & Ho & Ls & _). exists held, st. split; [done|]. split; [done|]. split; [done|].
  split; [|intros HX; pose proof (stop_strands F others held n X w Hn HX); split; [done|by apply destroy_after_stop]].
  intros -> Hb. pose proof (destroy_inv F others held n w Ff Hn Hrc Hb) as Hd.
  destruct (meridian_protocol_destroy n w) as [d w']. destruct Hd as (-> & st' & H1 & H2 & H3). by exists w', st'.
Qed.

(** A start that fails leaves nothing behind, at whichever call it fails:
    it returns -1, the node owns no handle, is not running, and every reference
    to the library it took has been given back; a start that succeeds leaves the
    node running with one more reference. *)
Theorem protocol_start_rolls_back F others held n X w o now rc n' w' :
  frame_ok F → node_inv F others held n X w → mp_running (pn_protocol n) = false → outcomes_fresh o w →
  g_msquic_refcount (qw_library w) + 1 < 2 ^ 32 → meridian_protocol_start n w o now = (rc, n', w') →
  (rc = 0 ∧ mp_running (pn_protocol n') = true ∧ node_inv F others (held + 1) n' X w') ∨
  (rc = -1 ∧ idle n' ∧ node_inv F others held n' X w').
Proof. intros Ff Hn Hr Hf Hb. by apply start_inv. Qed.

Definition demo_config : meridian_protocol_config_t := mkProtocolConfig 4433 2 2 2 5 3 30 5000 None None.

Definition demo_outcomes (listening : bool) : start_outcomes :=
  mkOutcomes (Some 1) (Some 10) (Some 20) (fun _ => true) (Some 30) listening.

Definition empty_world : quic_world := mkQuicWorld (mkMsquic None 0) [].

Lemma empty_frame_ok : frame_ok empty_store.
Proof. by split. Qed.

Lemma empty_library_ok : library_ok empty_store 0 0 empty_world empty_store.
Proof. split; cbn; [done| |done|done]. split; [by intros [? ?]|lia]. Qed.

Definition created (c : meridian_protocol_config_t) : protocol_node :=
  default (mkNode refcounter_init MERIDIAN_PROTOCOL_STATE_INIT c demo_protocol None None None None None None None)
    (meridian_protocol_create (Some c)).

Lemma empty_fresh o : outcomes_fresh o empty_world.
Proof. split; [by intros st r [= <-] _|by intros st k [= <-] _|by intros st k [= <-] _]. Qed.

(** Started, and a connection accepted. *)
Definition demo_started : protocol_node * quic_world :=
  let '(_, n, w) := meridian_protocol_start (created demo_config) empty_world (demo_outcomes true) (mkTimeval 0 0) in (n, w).

Definition demo_accepted : protocol_node * quic_world :=
  match ListenerCallback demo_started.1 demo_started.2 40 true with Ret (_, n, w) => (n, w) | Trap => demo_started end.

Lemma protocol_handles_accounted_witness :
  peer_handles (pn_protocol demo_accepted.1) = [40] ∧
  ∃ held st, replay empty_store (qw_log demo_accepted.2) = Some st ∧ owns empty_store demo_accepted.1 [] st ∧
    library_ok empty_store 0 held demo_accepted.2 st ∧
    (0 + held < 2 ^ 32 →
     ∃ w' st', meridian_protocol_destroy demo_accepted.1 demo_accepted.2 = (None, w') ∧ replay empty_store (qw_log w') = Some st' ∧
       children_of empty_store st' ∧ library_ok empty_store 0 (held - given_back (pn_msquic demo_accepted.1)) w' st').
Proof.
  split; [reflexivity|].
  destruct (protocol_handles_accounted empty_store 0 demo_config (created demo_config) empty_world empty_store demo_accepted.1 demo_accepted.2 [])
    as (held & st & H1 & H2 & H3 & H4 & _); [apply empty_frame_ok|reflexivity|reflexivity|reflexivity|apply empty_library_ok| |].
  - eapply rtc_l; [apply (nstep_start _ _ [] (demo_outcomes true) (mkTimeval 0 0) 0 demo_started.1 demo_started.2);
      [apply empty_fresh|cbn; lia|reflexivity]|].
    apply rtc_once. apply (nstep_accept demo_started.1 demo_started.2 [] 40 true true demo_accepted.1 demo_accepted.2); [|reflexivity].
    intros st k Hst [= <-]. vm_compute in Hst. injection Hst as <-. reflexivity.
  - exists held, st. exact (conj H1 (conj H2 (conj H3 (H4 eq_refl)))).
Defined.

Lemma protocol_start_rolls_back_witness :
  let r := meridian_protocol_start (created demo_config) empty_world (demo_outcomes false) (mkTimeval 0 0) in
  (r.1.1 = 0 ∧ mp_running (pn_protocol r.1.2) = true ∧ node_inv empty_store 0 1 r.1.2 [] r.2) ∨
  (r.1.1 = -1 ∧ idle r.1.2 ∧ node_inv empty_store 0 0 r.1.2 [] r.2).
Proof.
  apply (protocol_start_rolls_back empty_store 0 0 (created demo_config) [] empty_world (demo_outcomes false) (mkTimeval 0 0));
    [apply empty_frame_ok| |reflexivity|apply empty_fresh|cbn; lia|reflexivity].
  apply (idle_inv empty_store 0 0 _ _ empty_store); [by split|reflexivity|reflexivity|apply empty_library_ok|by intros [? ?]].
Defined.

(** ** What the account does not balance *)

(** [node_stop] keeps the reference to the library and the next start takes
    another one: after two rounds the destroyed node leaves the library open. *)
Example restart_keeps_library :
  let o2 := mkOutcomes (Some 1) (Some 11) (Some 21) (fun _ => true) (Some 31) true in
  let '(_, n1, w1) := meridian_protocol_start (created demo_config) empty_world (demo_outcomes true) (mkTimeval 0 0) in
  let '(_, n2, w2) := node_stop n1 w1 in
  let '(_, n3, w3) := meridian_protocol_start n2 w2 o2 (mkTimeval 0 0) in
  let '(d, w4) := meridian_protocol_destroy n3 w3 in
  d = None ∧ g_msquic_refcount (qw_library w4) = 1 ∧ qt_open <$> replay empty_store (qw_log w4) = Some true.
Proof. vm_compute. done. Qed.

(** A connection accepted while the table is full is open below the
    registration and in no slot: nothing will close it. *)
Lemma accept_when_full F others held n X w conn :
  node_inv F others held n X w → mp_running (pn_protocol n) = true → zlen (mp_peers (pn_protocol n)) = MAX_CONNECTED_PEERS →
  fresh_in qt_connections (Some conn) w →
  ∃ n' w', ListenerCallback n w conn true = Ret (true, n', w') ∧ pn_protocol n' = pn_protocol n ∧
    node_inv F others held n' (X ++ [conn]) w'.
Proof.
  intros Hn Hr Hfull Hf.
  destruct (inv_running F others held n X w Hn Hr) as (st & r & c & l & _ & _ & _ & _ & X1 & X2 & X3 & _).
  assert (E : ListenerCallback n w conn true = Ret (true, pn_with_protocol n (pn_protocol n), say w [QConnectionAccepted l conn c])).
  { unfold ListenerCallback. rewrite X2, X3. cbn [negb]. unfold listener_new_connection. by rewrite Hfull, Z.ltb_irrefl. }
  do 2 eexists. split; [exact E|]. split; [done|]. pose proof (accept_inv F others held n X w conn true _ _ _ Hn Hf E) as H.
  by rewrite Hfull, Z.leb_refl in H.
Qed.

(** The rendezvous handle keeps the registration the node has closed. *)
Lemma stop_leaves_rendezvous F others held n w rc n' w' r :
  frame_ok F → node_inv F others held n [] w → node_stop n w = (rc, n', w') → pn_rendv_registration n = Some r →
  r ∉ qt_registrations F →
  pn_rendv_registration n' = Some r ∧ ∃ st, replay empty_store (qw_log w') = Some st ∧ ∀ k, quic_do st (QConnectionOpen r k) = None.
Proof.
  intros Ff Hn Es Hr HF. destruct (stop_inv F others held n w rc n' w' Ff Hn Es) as (Hi & Hn' & _).
  destruct (inv_idle F others held n' [] w' Hn' (id_running n' Hi)) as (_ & _ & st & Er & Ec & _). split.
  - unfold node_stop in Es. by destruct (mp_running _); injection Es as <- <- <-.
  - exists st. split; [done|]. intros k. rewrite Ec. cbn. by rewrite bool_decide_eq_false_2.
Qed.
