(* ===== verification/Isolation.v ===== *)
(** * Isolation: what the daemon's channels can reach

    [poseidon_channel_start], the only caller of [meridian_protocol_start], has
    no caller in the sources: neither the manager nor the daemon starts a channel,
    although the design of the bootstrap handshake ends with it.  This file follows
    a manager through everything the daemon and its clients do with it, and shows
    what that means: no channel's protocol ever runs, none gets a peer or a
    neighbour, and no route message is sent. *)

From stdpp Require Import relations.
From S2P Require Import Prelude CString Bitset Bloom ElasticBloom AttenuatedBloom Cbor Endian Base58.
From S2P Require Import MessageId Node NodeId Packet ChannelPacket Subtopic TopicAlias Notice Ring Route Protocol.
From S2P Require Import Quasar Channel ChannelManager ManagerTheorems ProtocolLifecycle.

(** A protocol that was never started. *)
Definition idle_protocol (p : meridian_protocol_t) : Prop := mp_running p = false ∧ mp_peers p = [].

Definition alone (q : quasar_t) : Prop :=
  q_neighbor_filters q = [] ∧ match q_protocol q with Some p => idle_protocol p | None => True end.

Definition not_sent (e : qevent) : Prop := match e with QSend _ _ _ => False | _ => True end.

(** No route message was handed to the protocol. *)
Definition silent (w : world) : Prop := List.Forall not_sent (w_log w).

Lemma silent_emit w e : not_sent e → silent w → silent (w_emit w e).
Proof. intros He Hw. unfold silent. cbn. by apply List.Forall_app; split; [|repeat constructor]. Qed.

(** ** One Quasar node *)

Section quasar.
Context (XXH3 : list Z → Z → Z) (clock : Z → Z * Z) (DatagramSend : Z → list Z → bool).
Context (cbor_serialize_alloc : cbor_item → list Z).

Lemma alone_same q q' :
  q_neighbor_filters q' = q_neighbor_filters q → q_protocol q' = q_protocol q → alone q → alone q'.
Proof. intros E1 E2 [H1 H2]. split; [by rewrite E1|by rewrite E2]. Qed.

Lemma alone_subscribe q t ttl r : alone q → quasar_subscribe XXH3 q t ttl = Ret r → alone r.2.
Proof.
  intros Ha. unfold quasar_subscribe. destruct t as [t|]; [|by intros [= <-]].
  destruct (attenuated_bloom_filter_subscribe_nn XXH3 (q_routing q) t) as [f|]; [|done]. cbn [xbind].
  destruct (q_protocol q) as [p|] eqn:Ep; [|intros [= <-]; by apply (alone_same q)].
  destruct (meridian_protocol_get_local_node (Some p)) as [? [a b]].
  destruct (negb (a =? 0) || negb (b =? 0)); [|intros [= <-]; by apply (alone_same q)].
  destruct (attenuated_bloom_filter_get_level (Some f) 0) as [l0|]; [|intros [= <-]; by apply (alone_same q)].
  destruct (elastic_bloom_filter_add_nn XXH3 l0 (node_key a b)); [|done]. intros [= <-]. by apply (alone_same q).
Qed.

Lemma alone_unsubscribe q t r : alone q → quasar_unsubscribe XXH3 q t = Ret r → alone r.2.
Proof.
  intros Ha. unfold quasar_unsubscribe. destruct t as [t|]; [|by intros [= <-]].
  destruct (attenuated_bloom_filter_unsubscribe_nn XXH3 (q_routing q) t); [|done]. intros [= <-]. by apply (alone_same q).
Qed.

Lemma alone_tick q r : alone q → quasar_tick XXH3 q = Ret r → alone r.2.
Proof.
  intros Ha. unfold quasar_tick. destruct (tick_subs XXH3 (q_routing q) (q_local_subs q)) as [[f subs]|]; [|done].
  intros [= <-]. by apply (alone_same q).
Qed.

Lemma alone_callback q b : alone q → alone (quasar_set_message_callback q b).
Proof. by apply alone_same. Qed.

Lemma alone_create p a b c d : match p with Some p => idle_protocol p | None => True end → alone (quasar_create p a b c d).
Proof. by split. Qed.

Lemma idle_stop p : idle_protocol p → idle_protocol (meridian_protocol_stop p).2.
Proof. intros [H1 H2]. unfold meridian_protocol_stop. by rewrite H1. Qed.

Lemma idle_connect p a b opened started : idle_protocol p → idle_protocol (meridian_protocol_connect p a b opened started).2.
Proof. intros [H1 H2]. unfold meridian_protocol_connect. by rewrite H1. Qed.

Lemma idle_seed p a b : idle_protocol p → idle_protocol (meridian_protocol_add_seed_node p a b).2.
Proof. intros H. unfold meridian_protocol_add_seed_node. by destruct (_ <=? _). Qed.

Lemma idle_seeds (seeds : list (Z * Z)) p :
  idle_protocol p → idle_protocol (foldl (fun p s => (meridian_protocol_add_seed_node p s.1 s.2).2) p seeds).
Proof. revert p. induction seeds as [|s l IH]; intros p H; cbn; [done|]. by apply IH, idle_seed. Qed.

(** Without neighbours no directed walk finds a next hop. *)
Lemma directed_alone q topic keys : q_neighbor_filters q = [] → directed_walk XXH3 q topic keys = Ret None.
Proof.
  intros H. unfold directed_walk. rewrite H. generalize (Z.to_nat (abf_level_count (q_routing q))) as n. generalize 0 as level.
  intros level n. revert level. induction n as [|n IH]; intros level; cbn; [done|apply IH].
Qed.

Lemma idle_peers p : idle_protocol p → meridian_protocol_get_connected_peers p = [].
Proof. intros [_ H]. unfold meridian_protocol_get_connected_peers. by rewrite H. Qed.

Lemma seen_add_alone q id q' : alone q → seen_add XXH3 q id = Ret q' → alone q'.
Proof.
  intros Ha. unfold seen_add. destruct (bloom_filter_add_nn XXH3 (q_seen q) (id_memory id)); [|done].
  intros [= <-]. by apply (alone_same q).
Qed.

Lemma publish_random_alone q topic data w r :
  alone q → silent w → publish_random XXH3 clock DatagramSend q topic data w = Ret r → alone r.1.2 ∧ silent r.2.
Proof.
  intros Ha Hw. unfold publish_random. destruct (quasar_route_message_create _ _ _ _ _ _ _) as [[m|] g]; [|by intros [= <-]].
  destruct (seen_add XXH3 q (rm_id m)) as [q'|] eqn:Es; [|done]. cbn [xbind]. pose proof (seen_add_alone _ _ _ Ha Es) as Ha'.
  destruct Ha as [_ Hp]. destruct (q_protocol q) as [p|]; [|by intros [= <-]].
  destruct (meridian_protocol_get_local_node (Some p)) as [? [a b]].
  destruct (quasar_route_message_add_visited XXH3 m _) as [[? m1]|]; [|done]. cbn [xbind].
  destruct (quasar_route_message_add_publisher m1 _) as [[? m2]|]; [|done]. cbn [xbind].
  rewrite (idle_peers p Hp). cbn [random_walk xbind]. by intros [= <-].
Qed.

Lemma publish_alone q topic data w r :
  alone q → silent w → quasar_publish XXH3 clock DatagramSend q topic data w = Ret r → alone r.1.2 ∧ silent r.2.
Proof.
  intros Ha Hw. unfold quasar_publish. destruct topic as [t|]; [|by intros [= <-]].
  destruct (meridian_protocol_get_local_node (q_protocol q)) as [? [a b]].
  assert (H1 : silent (if q_on_message q then w_emit w (QDeliver t data) else w))
    by (destruct (q_on_message q); [by apply silent_emit|done]).
  destruct (locally_subscribed q t).
  - pose proof Ha as [_ Hp]. destruct (q_protocol q) as [p|]; [|by intros [= <-]].
    rewrite (idle_peers p Hp). cbn [republish xbind]. by intros [= <-].
  - destruct (q_protocol q) as [p|] eqn:Ep; [|by apply publish_random_alone].
    rewrite (directed_alone q) by apply Ha. cbn [xbind]. by apply publish_random_alone.
Qed.

(** A broadcast reaches nobody. *)
Lemma propagate_alone q w r :
  silent w → quasar_propagate DatagramSend cbor_serialize_alloc q w = Ret r → silent r.2.
Proof.
  intros Hw. unfold quasar_propagate. destruct (q_protocol q) as [p|]; [|by intros [= <-]].
  destruct (gossip_packet q) as [[item|]|]; [|by intros [= <-]|done]. cbn [xbind].
  destruct (_ =? 0); intros [= <-]; [done|]. by apply silent_emit.
Qed.

Lemma broadcast_alone p data : idle_protocol p → meridian_protocol_broadcast DatagramSend (Some p) data = (0, []).
Proof. intros [_ H]. unfold meridian_protocol_broadcast. by rewrite H. Qed.
End quasar.

(** ** The manager *)

Section manager.
Context {K : Type} `{!SignatureScheme K} `{!EqDecision K}.

Abbreviation manager := (poseidon_channel_manager_t K).

Definition calm (m : manager) : Prop :=
  alone (ch_quasar (m_dial m)) ∧ List.Forall (fun e => alone (ch_quasar e.2)) (m_channels m).

Lemma calm_same (m m' : manager) : m_dial m' = m_dial m → m_channels m' = m_channels m → calm m → calm m'.
Proof. intros E1 E2 [H1 H2]. split; [by rewrite E1|by rewrite E2]. Qed.

Lemma calm_dial (m : manager) d : alone (ch_quasar d) → calm m → calm (m_with_dial m d).
Proof. intros Hd [_ H2]. by split. Qed.

Lemma calm_put (m : manager) i c : alone (ch_quasar c) → calm m → calm (put_channel m i c).
Proof. intros Hc [H1 H2]. split; [done|]. cbn. apply Forall_alter; [done|]. by intros e _. Qed.

Lemma calm_destroy (m : manager) n : calm m → calm (poseidon_channel_manager_destroy_channel m n).2.
Proof.
  intros [H1 H2]. unfold poseidon_channel_manager_destroy_channel. destruct n as [n|]; [|done].
  destruct (find_index _ _) as [i|] eqn:E; [|done]. split; [done|]. cbn.
  apply find_index_Some in E as (e & He & _). pose proof (swap_remove_elem _ _ _ He) as P.
  rewrite P in H2. exact (proj2 (Forall_cons_1 _ _ _ H2)).
Qed.

Lemma calm_add (m : manager) c : alone (ch_quasar c) → calm m → calm (m_add_channel m c).2.
Proof. intros Hc [H1 H2]. split; [done|]. cbn. apply Forall_app_2; [exact H2|]. constructor; [exact Hc|]. constructor. Qed.

Lemma calm_allocate (m : manager) : calm m → calm (allocate_port m).2.
Proof. intros H. unfold allocate_port. destruct (_ <? _); [done|]. by apply (calm_same m). Qed.

Lemma calm_tombstone (m : manager) t : calm m → calm (poseidon_channel_manager_add_tombstone m t).2.
Proof. intros H. unfold poseidon_channel_manager_add_tombstone. destruct (add_tombstone _ _). by apply (calm_same m). Qed.

Lemma calm_sessions (m : manager) s :
  calm m → calm (poseidon_channel_manager_register_session m s).2 ∧ calm (poseidon_channel_manager_unregister_session m s).2.
Proof.
  intros H. unfold poseidon_channel_manager_register_session, poseidon_channel_manager_unregister_session.
  destruct (s =? 0); [done|]. split; [destruct (_ <=? _)|destruct (find_index _ _)]; first [done|by apply (calm_same m)].
Qed.

Lemma calm_lookup (m : manager) i e : calm m → m_channels m !! i = Some e → alone (ch_quasar e.2).
Proof. intros [_ H] E. by apply (Forall_lookup_1 _ _ _ _ H E). Qed.

Section handlers.
Context (blake3 : list Z → list Z) (XXH3 : list Z → Z → Z) (clock : Z → Z * Z).
Context (DatagramSend : Z → list Z → bool) (time_us mono_us : world → Z).
Context (connect : Z → Z → option Z * bool).
Context (cbor_load : list Z → option cbor_item) (cbor_serialize_alloc : cbor_item → list Z).

(** What is kept: of the manager, and of the world. *)
Definition unheard (m : manager) (w : world) : Prop := calm m ∧ silent w.

Lemma unheard_reply (m : manager) topic addr port ts seeds :
  calm m →
  run_all (fun r => calm r.2) (lift (poseidon_channel_manager_handle_bootstrap_reply connect m topic addr port ts seeds)).
Proof.
  intros H. unfold poseidon_channel_manager_handle_bootstrap_reply.
  destruct (find_index _ _) as [i|]; [|done]. destruct (_ !! i) as [p|]; [|done]. destruct (_ =? 1); [|by apply (calm_same m)].
  unfold channel_at. destruct (find_index _ _) as [j|]; [|done]. destruct (m_channels m !! j) as [e|] eqn:Ej; [|done].
  cbn [xbind lift run_all]. pose proof (calm_lookup m j e H Ej) as [Hn Hp]. apply calm_put; [|by apply (calm_same m)].
  split; [done|]. cbn. destruct (q_protocol (ch_quasar e.2)) as [p'|]; [|done]. cbn. unfold bootstrap_protocol.
  destruct (connect addr port) as [opened started]. by apply idle_seeds, idle_connect.
Qed.

Lemma alone_delete_signed (c : poseidon_channel_t K) r :
  alone (ch_quasar c) → poseidon_channel_delete_signed XXH3 c = Ret r → alone (ch_quasar r.2).
Proof.
  intros Ha. unfold poseidon_channel_delete_signed. case_decide; [by intros [= <-]|].
  destruct (quasar_unsubscribe XXH3 (ch_quasar c) _) as [[rc q]|] eqn:E; [|done]. cbn [xbind]. intros [= <-].
  pose proof (alone_unsubscribe _ _ _ _ Ha E) as [Hn Hp]. split; [done|]. cbn in *.
  destruct (q_protocol q); [|done]. by apply idle_stop.
Qed.

Lemma alone_rejoin (c c' : poseidon_channel_t K) g :
  alone (ch_quasar c) → rejoin_channel XXH3 c g = Ret c' → alone (ch_quasar c').
Proof.
  intros Ha. unfold rejoin_channel. destruct (quasar_unsubscribe XXH3 (ch_quasar c) _) as [[rc q]|] eqn:E; [|done]. cbn [xbind].
  pose proof (alone_unsubscribe _ _ _ _ Ha E) as [_ Hp]. cbn [snd] in Hp.
  destruct (quasar_subscribe XXH3 _ _ 300) as [[rc2 q2]|] eqn:E2; [|done]. cbn [xbind]. intros [= <-].
  assert (Hq : alone q2).
  { eapply (alone_subscribe _ _ _ _ (rc2, q2)); [|exact E2]. apply alone_create. destruct (q_protocol q); [|done]. by apply idle_stop. }
  cbn. destruct (ch_message_cb c); [by apply alone_callback|done].
Qed.

Section publishing.
Context (pub : manager → list Z → list Z → world → run (Z * manager * world)).
Context (pub_ok : ∀ m t d w, unheard m w → run_all (fun r => unheard r.1.2 r.2) (pub m t d w)).

Lemma unheard_item (m : manager) topic item other w :
  unheard m w → run_all (fun r => unheard r.1.2 r.2) (publish_item cbor_serialize_alloc pub m topic item other w).
Proof. intros H. unfold publish_item. destruct item; [|done]. destruct (_ =? _); [done|by apply pub_ok]. Qed.

Lemma unheard_request (m : manager) topic w :
  unheard m w →
  run_all (fun r => unheard r.1.2 r.2)
    (poseidon_channel_manager_handle_bootstrap_request time_us cbor_serialize_alloc pub m topic w).
Proof.
  intros H. unfold poseidon_channel_manager_handle_bootstrap_request.
  destruct (poseidon_channel_manager_find_tombstone m topic).
  - apply run_all_lift. intros item. eapply run_all_bind; [by apply unheard_item|]. by intros [[? ?] ?] ?.
  - destruct (negb _); [done|]. destruct (meridian_protocol_get_local_node _) as [? [addr port]].
    apply run_all_lift. intros item. by apply unheard_item.
Qed.

Lemma unheard_redistribute (m : manager) topic e w :
  unheard m w → run_all (fun r => unheard r.1 r.2) (redistribute cbor_serialize_alloc pub m topic e w).
Proof.
  intros H. apply run_all_lift. intros item. eapply run_all_bind; [by apply unheard_item|]. by intros [[? ?] ?] ?.
Qed.

Lemma unheard_delete_notice (m : manager) n w :
  unheard m w →
  run_all (fun r => unheard r.1 r.2)
    (poseidon_channel_manager_handle_delete_notice XXH3 mono_us cbor_serialize_alloc pub m n w).
Proof.
  intros [H Hw]. unfold poseidon_channel_manager_handle_delete_notice. apply run_all_lift. intros topic.
  assert (H1 := calm_tombstone m (poseidon_tombstone_from_delete_notice n (mono_us w)) H).
  apply (run_all_bind calm); [|intros m2 H2; by apply unheard_redistribute].
  destruct (find_index _ _) as [i|]; [|done]. destruct (_ !! i) as [e|] eqn:Ei; [|done].
  destruct (poseidon_channel_delete_signed XXH3 e.2) as [[rc c]|] eqn:Ed; [|done]. cbn [xbind lift run_all].
  apply calm_destroy, calm_put; [|done]. apply (alone_delete_signed e.2 (rc, c)); [by eapply calm_lookup|done].
Qed.

Lemma unheard_rejoin (m : manager) i e g w :
  unheard m w → m_channels m !! i = Some e →
  run_all (fun r => unheard r.1.2 r.2) (poseidon_channel_rejoin_with_config XXH3 time_us cbor_serialize_alloc pub m i e.2 g w).
Proof.
  intros [H Hw] Ei. unfold poseidon_channel_rejoin_with_config. apply run_all_lift_eq. intros c' Ec. apply run_all_lift. intros item.
  eapply run_all_bind; [apply unheard_item|by intros [[? ?] ?] ?]. split; [|done]. apply calm_put; [|done].
  eapply alone_rejoin; [by eapply calm_lookup|done].
Qed.

Lemma unheard_modify_notice (m : manager) n w :
  unheard m w →
  run_all (fun r => unheard r.1 r.2)
    (poseidon_channel_manager_handle_modify_notice XXH3 time_us mono_us cbor_serialize_alloc pub m n w).
Proof.
  intros [H Hw]. unfold poseidon_channel_manager_handle_modify_notice. apply run_all_lift. intros topic.
  assert (H1 := calm_tombstone m (poseidon_tombstone_from_modify_notice n (mono_us w)) H).
  apply (run_all_bind (fun r => unheard r.1 r.2)); [|intros [m2 w2] H2; by apply unheard_redistribute].
  destruct (find_index _ _) as [i|]; [|done]. destruct (_ !! i) as [e|] eqn:Ei; [|done].
  apply (run_all_bind (fun r => unheard r.1.2 r.2)); [by apply unheard_rejoin|by intros [[? ?] ?] ?].
Qed.

Lemma unheard_intercept (m : manager) data w :
  unheard m w →
  run_all (fun r => unheard r.1.2 r.2)
    (channel_manager_bootstrap_intercept blake3 XXH3 time_us mono_us connect cbor_load cbor_serialize_alloc pub m data w).
Proof.
  intros H. unfold channel_manager_bootstrap_intercept. destruct (cbor_load data) as [item|]; [|done].
  apply run_all_lift. intros definite. destruct (negb definite); [done|].
  apply run_all_lift. intros size. destruct (_ <? _); [done|].
  apply run_all_lift. intros items. apply run_all_lift. intros i0. destruct (negb _); [done|].
  apply run_all_lift. intros ty. destruct (_ =? _).
  { apply run_all_lift. intros [[[topic ?] ?]|]; [|done].
    eapply run_all_bind; [by apply unheard_request|]. by intros [[? ?] ?] ?. }
  destruct (_ =? _).
  { apply run_all_lift. intros [r|]; [|done]. eapply run_all_bind; [apply unheard_reply, H|].
    intros [? ?] ?. split; [done|apply H]. }
  destruct (_ =? _).
  { apply run_all_lift. intros [n|]; [|done]. apply run_all_lift. intros rc. destruct (negb _); [done|].
    eapply run_all_bind; [by apply unheard_delete_notice|]. by intros [? ?] ?. }
  destruct (_ =? _); [|done].
  apply run_all_lift. intros [n|]; [|done]. apply run_all_lift. intros rc. destruct (negb _); [done|].
  eapply run_all_bind; [by apply unheard_modify_notice|]. by intros [? ?] ?.
Qed.

Lemma unheard_message (m : manager) data w :
  unheard m w →
  run_all (fun r => unheard r.1 r.2)
    (dial_message_handler blake3 XXH3 time_us mono_us connect cbor_load cbor_serialize_alloc pub m data w).
Proof.
  intros H. unfold dial_message_handler. apply (run_all_bind (fun r => unheard r.1.2 r.2)).
  - destruct (ch_intercept_cb _); [by apply unheard_intercept|done].
  - intros [[handled m'] w'] H'. destruct handled; [done|]. by apply run_all_lift.
Qed.
End publishing.

Lemma unheard_dial_publish fuel (m : manager) topic data w :
  unheard m w →
  run_all (fun r => unheard r.1.2 r.2)
    (dial_publish blake3 XXH3 clock DatagramSend time_us mono_us connect cbor_load cbor_serialize_alloc
       fuel m topic data w).
Proof.
  revert m topic data w. induction fuel as [|fuel IH]; intros m topic data w [H Hw]; [done|]. cbn [dial_publish].
  destruct (_ && _).
  - eapply run_all_bind; [by apply unheard_message; [apply IH|split; [|apply silent_emit]]|].
    intros [m1 w1] [H1 Hw1]. cbn [fst snd] in H1, Hw1. pose proof H1 as [[_ Hp] _].
    destruct (q_protocol _) as [p|]; [|done]. destruct (meridian_protocol_get_local_node _) as [? [addr port]].
    rewrite (idle_peers p Hp). cbn [republish lift rbind run_all fst snd]. split; [|done]. apply calm_dial; [apply H1|done].
  - unfold poseidon_channel_publish.
    destruct (quasar_publish _ _ _ _ _ _ _) as [[[rc q] w1]|] eqn:E; [|done].
    destruct (publish_alone _ _ _ _ _ _ _ _ (proj1 H) Hw E) as [Hq Hw1]. cbn [xbind lift rbind run_all fst snd] in *.
    split; [by apply calm_dial|done].
Qed.

Lemma calm_tick_channels (l : list (Z * poseidon_channel_t K)) rc r :
  List.Forall (fun e => alone (ch_quasar e.2)) l → tick_channels XXH3 l rc = Ret r →
  List.Forall (fun e => alone (ch_quasar e.2)) r.2.
Proof.
  intros H. revert rc r. induction H as [|e l He _ IH]; intros rc r; cbn [tick_channels]; [by intros [= <-]|].
  unfold poseidon_channel_tick. destruct (quasar_tick XXH3 (ch_quasar e.2)) as [[r1 q]|] eqn:E; [|done]. cbn [xbind].
  destruct (tick_channels XXH3 l _) as [[r2 rest]|] eqn:E2; [|done]. cbn [xbind]. intros [= <-].
  constructor; [by apply (alone_tick _ _ _ He E)|by apply (IH _ _ E2)].
Qed.

Lemma calm_tick (m : manager) w r : calm m → poseidon_channel_manager_tick_all XXH3 mono_us m w = Ret r → calm r.2.
Proof.
  intros [Hd Hc]. unfold poseidon_channel_manager_tick_all, poseidon_channel_tick.
  destruct (quasar_tick XXH3 (ch_quasar (m_dial m))) as [[r1 q]|] eqn:E; [|done]. cbn [xbind].
  destruct (tick_channels XXH3 (m_channels m) r1) as [[rc l]|] eqn:E2; [|done]. cbn [xbind]. intros [= <-].
  split; [by apply (alone_tick _ _ _ Hd E)|by apply (calm_tick_channels _ _ _ Hc E2)].
Qed.

Lemma silent_gossip (l : list (poseidon_channel_t K)) rc w r :
  silent w → gossip_channels DatagramSend cbor_serialize_alloc l rc w = Ret r → silent r.2.
Proof.
  revert rc w. induction l as [|c l IH]; intros rc w Hw; cbn [gossip_channels]; [by intros [= <-]|].
  unfold poseidon_channel_gossip. destruct (quasar_propagate _ _ _ w) as [[r1 w1]|] eqn:E; [|done]. cbn [xbind].
  intros Hg. eapply IH; [|exact Hg]. by apply (propagate_alone _ _ _ _ _ Hw E).
Qed.

(** ** What the daemon does *)

(** A channel as [poseidon_channel_create] makes it, with a new protocol. *)
Definition new_channel (key : option K) (name : option (list Z)) (port : Z) (config : poseidon_channel_config_t)
    (tls : bool) (pc : option meridian_protocol_config_t) : exec (option (poseidon_channel_t K)) :=
  poseidon_channel_create blake3 key name port config tls (pn_protocol <$> meridian_protocol_create pc).

Lemma new_channel_alone key name port config tls pc c :
  new_channel key name port config tls pc = Ret (Some c) → alone (ch_quasar c).
Proof.
  unfold new_channel, poseidon_channel_create. destruct key as [k|]; [|done].
  destruct (poseidon_node_id_from_public_key _ _ _) as [[id|]|]; [|done|done]. cbn [xbind]. destruct tls; [|done].
  destruct pc as [pc|]; [|done]. cbn [negb fmap option_fmap option_map meridian_protocol_create].
  intros [= <-]. by apply alone_create.
Qed.

(** The calls of the daemon and of client sessions on one channel. *)
Inductive channel_call (c : poseidon_channel_t K) (w : world) : poseidon_channel_t K → world → Prop :=
| ccall_publish topic data rc c' w' :
    poseidon_channel_publish XXH3 clock DatagramSend c topic data w = Ret (rc, c', w') → channel_call c w c' w'
| ccall_subscribe topic ttl rc c' : poseidon_channel_subscribe XXH3 c topic ttl = Ret (rc, c') → channel_call c w c' w
| ccall_unsubscribe topic rc c' : poseidon_channel_unsubscribe XXH3 c topic = Ret (rc, c') → channel_call c w c' w
| ccall_callback cb : channel_call c w (poseidon_channel_set_message_callback c cb).2 w
| ccall_alias name topic : channel_call c w (poseidon_channel_register_alias c name topic).2 w
| ccall_unalias name : channel_call c w (poseidon_channel_unregister_alias c name).2 w
| ccall_subtopic subtopic ttl : channel_call c w (poseidon_channel_subscribe_subtopic c subtopic ttl).2 w
| ccall_unsubtopic subtopic : channel_call c w (poseidon_channel_unsubscribe_subtopic c subtopic).2 w
| ccall_config config key : channel_call c w (poseidon_channel_update_config c config key).2 w
| ccall_delete rc c' : poseidon_channel_delete_signed XXH3 c = Ret (rc, c') → channel_call c w c' w
| ccall_stop : channel_call c w (poseidon_channel_stop c).2 w.

Lemma channel_call_alone c w c' w' :
  channel_call c w c' w' → alone (ch_quasar c) → silent w → alone (ch_quasar c') ∧ silent w'.
Proof.
  intros Hc Ha Hw. destruct Hc as [topic data rc c' w' E|topic ttl rc c' E|topic rc c' E|cb|name topic|name|st ttl|st|g k|rc c' E|].
  - unfold poseidon_channel_publish in E. destruct (quasar_publish _ _ _ _ _ _ _) as [[[r q] w1]|] eqn:Eq; [|done].
    injection E as <- <- <-. exact (publish_alone _ _ _ _ _ _ _ _ Ha Hw Eq).
  - unfold poseidon_channel_subscribe in E. destruct (quasar_subscribe _ _ _ _) as [[r q]|] eqn:Eq; [|done].
    injection E as <- <-. split; [exact (alone_subscribe _ _ _ _ _ Ha Eq)|done].
  - unfold poseidon_channel_unsubscribe in E. destruct (quasar_unsubscribe _ _ _) as [[r q]|] eqn:Eq; [|done].
    injection E as <- <-. split; [exact (alone_unsubscribe _ _ _ _ Ha Eq)|done].
  - split; [by apply alone_callback|done].
  - unfold poseidon_channel_register_alias. by destruct (topic_alias_register _ _ _).
  - unfold poseidon_channel_unregister_alias. by destruct (topic_alias_unregister _ _).
  - unfold poseidon_channel_subscribe_subtopic. by destruct (subtopic_table_subscribe _ _ _).
  - unfold poseidon_channel_unsubscribe_subtopic. by destruct (subtopic_table_unsubscribe _ _).
  - unfold poseidon_channel_update_config. by repeat case_match.
  - split; [exact (alone_delete_signed _ _ Ha E)|done].
  - unfold poseidon_channel_stop. pose proof Ha as [Hn Hp]. destruct (q_protocol (ch_quasar c)) as [p|] eqn:Ep; [|done].
    pose proof (idle_stop p Hp) as Hs. destruct (meridian_protocol_stop p) as [rc p']. by split; [split|].
Qed.

Abbreviation publish_dial fuel := (dial_publish blake3 XXH3 clock DatagramSend time_us mono_us connect cbor_load cbor_serialize_alloc fuel).

Inductive daemon_step : manager * world → manager * world → Prop :=
| dstep_create m w key name config tls pc r :
    poseidon_channel_manager_create_channel m key (fun k port => new_channel (Some k) name port config tls pc) = Ret r →
    daemon_step (m, w) (r.2, w)
| dstep_join m w fuel topic key config tls pc r :
    poseidon_channel_manager_join_channel blake3 XXH3 clock DatagramSend time_us mono_us connect cbor_load
      cbor_serialize_alloc fuel m topic (fun name port => new_channel key (Some name) port config tls pc) w = Some (Ret r) →
    daemon_step (m, w) (r.1.2, r.2)
| dstep_destroy m w n : daemon_step (m, w) ((poseidon_channel_manager_destroy_channel m n).2, w)
| dstep_publish m w fuel topic data r :
    publish_dial fuel m topic data w = Some (Ret r) → daemon_step (m, w) (r.1.2, r.2)
| dstep_message m w fuel data r :
    dial_message_handler blake3 XXH3 time_us mono_us connect cbor_load cbor_serialize_alloc (publish_dial fuel) m data w = Some (Ret r) →
    daemon_step (m, w) (r.1, r.2)
| dstep_rejoin m w fuel i e config r :
    m_channels m !! i = Some e →
    poseidon_channel_rejoin_with_config XXH3 time_us cbor_serialize_alloc (publish_dial fuel) m i e.2 config w = Some (Ret r) →
    daemon_step (m, w) (r.1.2, r.2)
| dstep_tombstone m w t : daemon_step (m, w) ((poseidon_channel_manager_add_tombstone m t).2, w)
| dstep_register m w s : daemon_step (m, w) ((poseidon_channel_manager_register_session m s).2, w)
| dstep_unregister m w s : daemon_step (m, w) ((poseidon_channel_manager_unregister_session m s).2, w)
| dstep_tick m w r : poseidon_channel_manager_tick_all XXH3 mono_us m w = Ret r → daemon_step (m, w) (r.2, w)
| dstep_gossip m w r :
    poseidon_channel_manager_gossip_all DatagramSend cbor_serialize_alloc m w = Ret r → daemon_step (m, w) (m, r.2)
| dstep_channel m w i e c' w' :
    m_channels m !! i = Some e → channel_call e.2 w c' w' → daemon_step (m, w) (put_channel m i c', w')
| dstep_dial m w c' w' : channel_call (m_dial m) w c' w' → daemon_step (m, w) (m_with_dial m c', w').

Lemma unheard_create (m : manager) key name config tls pc r :
  calm m →
  poseidon_channel_manager_create_channel m key (fun k port => new_channel (Some k) name port config tls pc) = Ret r → calm r.2.
Proof.
  intros H. unfold poseidon_channel_manager_create_channel. destruct (_ <=? _); [by intros [= <-]|].
  pose proof (calm_allocate m H) as H1. destruct (allocate_port m) as [port m1]. cbn [snd] in H1.
  destruct (port =? 0); [by intros [= <-]|]. destruct key as [k|]; [|by intros [= <-]].
  destruct (new_channel _ _ _ _ _ _) as [[c|]|] eqn:E; [|by intros [= <-]|done]. cbn [xbind]. intros [= <-].
  exact (calm_add m1 c (new_channel_alone _ _ _ _ _ _ _ E) H1).
Qed.

Lemma unheard_join (m : manager) fuel topic key config tls pc w :
  unheard m w →
  run_all (fun r => unheard r.1.2 r.2)
    (poseidon_channel_manager_join_channel blake3 XXH3 clock DatagramSend time_us mono_us connect cbor_load
       cbor_serialize_alloc fuel m topic (fun name port => new_channel key (Some name) port config tls pc) w).
Proof.
  intros [H Hw]. unfold poseidon_channel_manager_join_channel. destruct (_ <=? _); [done|]. destruct (_ <=? _); [done|].
  pose proof (calm_allocate m H) as H1. destruct (allocate_port m) as [port m1]. cbn [snd] in H1.
  destruct (port =? 0); [done|]. apply run_all_lift_eq. intros [c|] Ec; [|done].
  pose proof (calm_add m1 (ch_with_state c POSEIDON_CHANNEL_STATE_BOOTSTRAPPING) (new_channel_alone _ _ _ _ _ _ _ Ec) H1) as H2.
  unfold m_add_channel in H2 |- *. cbn [snd] in H2. apply run_all_lift_eq. intros [rc d] Ed. apply run_all_lift. intros item.
  eapply run_all_bind; [apply unheard_item; [intros; by apply unheard_dial_publish|]|by intros [[? ?] ?] ?].
  split; [|done]. unfold poseidon_channel_subscribe in Ed. destruct (quasar_subscribe _ _ _ _) as [[r q]|] eqn:Eq; [|done].
  injection Ed as <- <-. apply calm_dial; [exact (alone_subscribe _ _ _ _ _ (proj1 H2) Eq)|done].
Qed.

Lemma daemon_step_unheard x y : daemon_step x y → unheard x.1 x.2 → unheard y.1 y.2.
Proof.
  intros Hs [H Hw]. destruct Hs as [m w key name g tls pc r E|m w fuel topic key g tls pc r E|m w n|m w fuel topic data r E
    |m w fuel data r E|m w fuel i e g r Ei E|m w t|m w s|m w s|m w r E|m w r E|m w i e c' w' Ei Hc|m w c' w' Hc]; cbn [fst snd] in *.
  - split; [by eapply unheard_create|done].
  - pose proof (unheard_join m fuel topic key g tls pc w (conj H Hw)) as P. by rewrite E in P.
  - split; [by apply calm_destroy|done].
  - pose proof (unheard_dial_publish fuel m topic data w (conj H Hw)) as P. by rewrite E in P.
  - pose proof (unheard_message _ (unheard_dial_publish fuel) m data w (conj H Hw)) as P. by rewrite E in P.
  - pose proof (unheard_rejoin _ (unheard_dial_publish fuel) m i e g w (conj H Hw) Ei) as P.
    by rewrite E in P.
  - split; [by apply calm_tombstone|done].
  - split; [by apply calm_sessions|done].
  - split; [by apply calm_sessions|done].
  - split; [by eapply calm_tick|done].
  - split; [done|by eapply silent_gossip].
  - destruct (channel_call_alone _ _ _ _ Hc (calm_lookup m i e H Ei) Hw). split; [by apply calm_put|done].
  - destruct (channel_call_alone _ _ _ _ Hc (proj1 H) Hw). split; [by apply calm_dial|done].
Qed.
End handlers.
End manager.

(** ** Properties *)

(** C12. The daemon never takes part in the overlay.  Start a manager with a new
    dial channel, as the daemon does, and let the daemon and its clients do with it
    whatever the sources do (create, join, leave, publish, subscribe, administer,
    tick, gossip, handle messages of the dial channel), with any outcome of
    msquic: no channel's protocol is ever running, no channel has a peer or a
    neighbour filter, no route message is handed to a peer, and a gossip broadcast
    has no recipient. *)
Theorem daemon_isolated {K} `{!SignatureScheme K} `{!EqDecision K} blake3 XXH3 clock send time mono conn load ser
    key port config tls pc dial a b (m0 m : poseidon_channel_manager_t K) w0 w :
  new_channel blake3 key (Some (lit "dial")) port config tls pc = Ret dial →
  poseidon_channel_manager_create dial a b = Some m0 → w_log w0 = [] →
  rtc (daemon_step blake3 XXH3 clock send time mono conn load ser) (m0, w0) (m, w) →
  (∀ c, c ∈ m_dial m :: map snd (m_channels m) →
     q_neighbor_filters (ch_quasar c) = [] ∧
     ∀ p data, q_protocol (ch_quasar c) = Some p →
       mp_running p = false ∧ mp_peers p = [] ∧ meridian_protocol_broadcast send (Some p) data = (0, [])) ∧
  ∀ target buf rc, QSend target buf rc ∉ w_log w.
Proof.
  intros Hd Hm Hw0 Hr.
  assert (H0 : unheard m0 w0).
  { split; [|unfold silent; rewrite Hw0; constructor]. unfold poseidon_channel_manager_create in Hm.
    destruct (_ <=? _); [done|]. destruct dial as [d|]; [|done]. injection Hm as <-.
    split; [|constructor]. cbn. apply alone_callback. exact (new_channel_alone _ _ _ _ _ _ _ _ Hd). }
  assert (H1 : unheard m w).
  { change (unheard (m, w).1 (m, w).2). change (unheard (m0, w0).1 (m0, w0).2) in H0.
    induction Hr as [x|x y z Hs _ IH]; [done|]. apply IH. by eapply daemon_step_unheard. }
  destruct H1 as [[Hdial Hch] Hs]. split.
  - intros c Hc. assert (Ha : alone (ch_quasar c)).
    { apply elem_of_cons in Hc as [->|Hc]; [done|]. apply list_elem_of_fmap in Hc as (e & -> & He).
      unfold silent in *. rewrite list.Forall_forall in Hch. by apply Hch. }
    destruct Ha as [Hn Hp]. split; [done|]. intros p data Ep. rewrite Ep in Hp. split_and!; [apply Hp|apply Hp|by apply broadcast_alone].
  - intros target buf rc Hin. unfold silent in Hs. rewrite list.Forall_forall in Hs. exact (Hs _ Hin).
Qed.

Definition demo_dial : exec (option (poseidon_channel_t (list Z))) :=
  new_channel toy_blake3 (Some [7; 8; 9]) (Some (lit "dial")) 8000 poseidon_channel_config_defaults true (Some demo_config).

Definition demo_daemon : option (poseidon_channel_manager_t (list Z)) :=
  match demo_dial with Ret d => poseidon_channel_manager_create d 8001 8100 | Trap => None end.

(** The daemon's first manager, after a session registered. *)
Lemma daemon_isolated_witness :
  match demo_daemon with
  | Some m0 =>
      let m := (poseidon_channel_manager_register_session m0 5).2 in
      (∀ c, c ∈ m_dial m :: map snd (m_channels m) →
         q_neighbor_filters (ch_quasar c) = [] ∧
         ∀ p data, q_protocol (ch_quasar c) = Some p →
           mp_running p = false ∧ mp_peers p = [] ∧ meridian_protocol_broadcast (fun _ _ => true) (Some p) data = (0, []))
  | None => False
  end.
Proof.
  destruct demo_daemon as [m0|] eqn:Em; [|vm_compute in Em; discriminate].
  destruct demo_dial as [d|] eqn:Ed; [|vm_compute in Ed; discriminate].
  unfold demo_daemon in Em. rewrite Ed in Em.
  exact (proj1 (daemon_isolated toy_blake3 (fun _ s => s) (fun g => (0, g)) (fun _ _ => true) (fun _ => 0) (fun _ => 0)
    (fun _ _ => (None, false)) (fun _ => None) (fun _ => []) (Some [7; 8; 9]) 8000 poseidon_channel_config_defaults true
    (Some demo_config) d 8001 8100 m0 (poseidon_channel_manager_register_session m0 5).2 (mkWorld 0 []) (mkWorld 0 [])
    Ed Em eq_refl (rtc_once _ _ (dstep_register _ _ _ _ _ _ _ _ _ m0 (mkWorld 0 []) 5)))).
Defined.
