(* ===== verification/RelayLifecycle.v ===== *)
(** * RelayLifecycle: the handles of the relay and of the rendezvous

    The msquic handles of the relay server
    ([src/Network/Meridian/meridian_relay_server.c]), the relay client
    ([meridian_relay.c]) and the rendezvous handle ([meridian_rendv.c]): creating,
    starting, stopping and destroying them, with every call logged
    ([QuicStore]).  Their tables and packets are in [Relay] and [Rendv]. *)

From stdpp Require Import gmap.
From S2P Require Import Prelude CString Refcount Rendv Relay StreamTransport QuicStore.

(** ** The relay server *)

Record meridian_relay_server_config_t := mkServerConfig {
  sc_alpn : option (list Z);
  sc_listen_port : Z;
  sc_idle_timeout_ms : Z;
  sc_keepalive_interval_ms : Z;
  sc_tls_key_path : option (list Z);
  sc_tls_cert_path : option (list Z)
}.

Definition RELAY_ALPN : list Z := lit "meridian_relay".

(** What [ConfigurationOpen] is given: the protocol name, the idle timeout and the
    keep-alive interval. *)
Definition relay_server_settings (c : meridian_relay_server_config_t) : list Z * Z * Z :=
  (default RELAY_ALPN (sc_alpn c),
   if sc_idle_timeout_ms c =? 0 then 30000 else sc_idle_timeout_ms c,
   if sc_keepalive_interval_ms c =? 0 then 10000 else sc_keepalive_interval_ms c).

Definition credential_files (key cert : option (list Z)) : option (list Z * list Z) :=
  match key, cert with Some k, Some c => Some (k, c) | _, _ => None end.

Record relay_server_node := mkServerNode {
  sn_refcounter : refcounter_t;
  sn_server : meridian_relay_server_t;
  sn_listen_port : Z;
  sn_registration : option Z;
  sn_configuration : option Z;
  sn_listener : option Z
}.

Definition sn_with_server (s : relay_server_node) (v : meridian_relay_server_t) : relay_server_node :=
  mkServerNode (sn_refcounter s) v (sn_listen_port s) (sn_registration s) (sn_configuration s) (sn_listener s).

Definition sn_with_listener (s : relay_server_node) (l : option Z) : relay_server_node :=
  mkServerNode (sn_refcounter s) (sn_server s) (sn_listen_port s) (sn_registration s) (sn_configuration s) l.

(** [registration] and [configuration]: the handles msquic yields, if it does;
    [credential]: whether it loads the files. *)
Definition relay_server_create (msquic : option Z) (config : option meridian_relay_server_config_t) (w : quic_world)
    (registration configuration : option Z) (credential : option (list Z * list Z) → bool)
  : option relay_server_node * quic_world :=
  match msquic, config with
  | Some _, Some cf =>
      match registration with
      | None => (None, w)
      | Some r =>
          let w1 := say w [QRegistrationOpen r] in
          match configuration with
          | None => (None, say w1 [QRegistrationClose r])
          | Some c =>
              let w2 := say w1 [QConfigurationOpen r c; QConfigurationLoadCredential c] in
              if negb (credential (credential_files (sc_tls_key_path cf) (sc_tls_cert_path cf))) then
                (None, say w2 [QConfigurationClose c; QRegistrationClose r])
              else (Some (mkServerNode refcounter_init meridian_relay_server_create (sc_listen_port cf) (Some r) (Some c) None), w2)
          end
      end
  | _, _ => (None, w)
  end.

(** [ListenerOpen] reads the registration.  The listener is started for
    [RELAY_ALPN], whatever the configuration's protocol name. *)
Definition meridian_relay_server_start (s : relay_server_node) (w : quic_world) (opened : option Z) (started : bool)
  : exec (Z * relay_server_node * quic_world) :=
  match sn_registration s with
  | None => Trap
  | Some r =>
      match opened with
      | None => Ret (-1, s, w)
      | Some l =>
          let w1 := say w [QListenerOpen r l; QListenerSetCallback l; QListenerStart l] in
          if negb started then Ret (-1, sn_with_listener s None, say w1 [QListenerClose l])
          else Ret (0, sn_with_listener s (Some l), w1)
      end
  end.

Definition client_handles (v : meridian_relay_server_t) : list Z := omap cl_connection (sv_clients v).

Definition relay_server_stop (s : relay_server_node) (w : quic_world) : relay_server_node * quic_world :=
  (sn_with_listener (sn_with_server s (meridian_relay_server_stop (sn_server s))) None,
   say w (concat (map shut_connection (client_handles (sn_server s)))
            ++ on_handle (fun l => [QListenerStop l; QListenerClose l]) (sn_listener s))).

Definition meridian_relay_server_destroy (s : relay_server_node) (w : quic_world) : option relay_server_node * quic_world :=
  let '(c, free) := released (sn_refcounter s) in
  if negb free then
    (Some (mkServerNode c (sn_server s) (sn_listen_port s) (sn_registration s) (sn_configuration s) (sn_listener s)), w)
  else
    let '(s1, w1) := relay_server_stop s w in
    (None, say w1 (on_handle (fun c => [QConfigurationClose c]) (sn_configuration s1)
                     ++ on_handle (fun r => [QRegistrationClose r]) (sn_registration s1))).

(** A new connection; the flag is whether it is accepted. *)
Definition relay_server_accept (s : relay_server_node) (w : quic_world) (conn : Z) (configured : bool)
  : exec (bool * relay_server_node * quic_world) :=
  match sn_listener s, sn_configuration s with
  | Some l, Some c =>
      let '(accepted, v) := RelayServerListenerCallback (sn_server s) conn configured in
      Ret (accepted, sn_with_server s v, if accepted then say w [QConnectionAccepted l conn c] else w)
  | _, _ => Trap
  end.

(** [SHUTDOWN_COMPLETE]: the slot is emptied, nothing is called. *)
Definition relay_server_shutdown (s : relay_server_node) (conn : Z) : relay_server_node :=
  sn_with_server s (relay_shutdown_complete (sn_server s) conn).

(** ** The relay client *)

Record meridian_relay_config_t := mkRelayConfig {
  rc_alpn : option (list Z);
  rc_idle_timeout_ms : Z;
  rc_max_datagram_size : Z;
  rc_keepalive_interval_ms : Z;
  rc_tls_key_path : option (list Z);
  rc_tls_cert_path : option (list Z)
}.

Definition relay_config_defaults : meridian_relay_config_t := mkRelayConfig None 30000 4096 10000 None None.

(** [ln_registration] is borrowed. *)
Record relay_client_node := mkClientNode {
  ln_refcounter : refcounter_t;
  ln_relay : meridian_relay_t;
  ln_config : meridian_relay_config_t;
  ln_registration : Z;
  ln_configuration : option Z
}.

Definition ln_with_relay (n : relay_client_node) (r : meridian_relay_t) : relay_client_node :=
  mkClientNode (ln_refcounter n) r (ln_config n) (ln_registration n) (ln_configuration n).

Definition relay_client_create (msquic server : option Z) (registration : Z) (config : option meridian_relay_config_t)
    (w : quic_world) (configuration : option Z) (credential : option (list Z * list Z) → bool)
  : option relay_client_node * quic_world :=
  match msquic, server with
  | Some _, Some _ =>
      let cf := default relay_config_defaults config in
      let made cfg := mkClientNode refcounter_init meridian_relay_create cf registration cfg in
      match rc_alpn cf with
      | None => (Some (made None), w)
      | Some _ =>
          match configuration with
          | None => (None, w)
          | Some c =>
              let w1 := say w [QConfigurationOpen registration c; QConfigurationLoadCredential c] in
              if negb (credential (credential_files (rc_tls_key_path cf) (rc_tls_cert_path cf))) then (None, say w1 [QConfigurationClose c])
              else (Some (made (Some c)), w1)
          end
      end
  | _, _ => (None, w)
  end.

Definition relay_client_connect (n : relay_client_node) (w : quic_world) (opened : option Z) (started : bool)
  : Z * relay_client_node * quic_world :=
  let '(rc, r) := meridian_relay_connect (ln_relay n) opened started in
  let calls := if rl_connected (ln_relay n) then []
               else match opened with
                    | None => []
                    | Some k => [QConnectionOpen (ln_registration n) k; QConnectionStart k (ln_configuration n)]
                                  ++ if started then [] else [QConnectionClose k]
                    end in
  (rc, ln_with_relay n r, say w calls).

Definition relay_client_disconnect (n : relay_client_node) (w : quic_world) : relay_client_node * quic_world :=
  (ln_with_relay n (meridian_relay_disconnect (ln_relay n)), say w (on_handle shut_connection (rl_connection (ln_relay n)))).

Definition meridian_relay_destroy (n : relay_client_node) (w : quic_world) : option relay_client_node * quic_world :=
  let '(c, free) := released (ln_refcounter n) in
  if negb free then (Some (mkClientNode c (ln_relay n) (ln_config n) (ln_registration n) (ln_configuration n)), w)
  else
    let '(n1, w1) := if rl_connected (ln_relay n) then relay_client_disconnect n w else (n, w) in
    (None, say w1 (on_handle (fun c => [QConfigurationClose c]) (ln_configuration n1))).

(** ** The rendezvous handle *)

Record meridian_rendv_config_t := mkRendvConfig {
  rv_alpn : option (list Z);
  rv_cred_config : bool
}.

(** The connections of the handle's table are never filled. *)
Record rendv_node := mkRendvNode {
  rn_refcounter : refcounter_t;
  rn_handle : meridian_rendv_handle_t;
  rn_msquic : option Z;
  rn_registration : option Z;
  rn_configuration : option Z
}.

Definition rendv_node_create : rendv_node := mkRendvNode refcounter_init meridian_rendv_handle_create None None None.

(** With a protocol name, a configuration is opened through [msquic]; a NULL
    registration is passed on to msquic, which refuses it. *)
Definition meridian_rendv_handle_set_msquic (n : rendv_node) (msquic registration : option Z) (config : option meridian_rendv_config_t)
    (w : quic_world) (opened : option Z) (loaded : bool) : exec (Z * rendv_node * quic_world) :=
  let made cfg := mkRendvNode (rn_refcounter n) (rn_handle n) msquic registration cfg in
  match config with
  | Some (mkRendvConfig (Some _) cred_config) =>
      match msquic, registration, opened with
      | None, _, _ => Trap
      | Some _, Some r, Some c =>
          let w1 := say w [QConfigurationOpen r c] in
          if cred_config then
            let w2 := say w1 [QConfigurationLoadCredential c] in
            if negb loaded then Ret (-1, made None, say w2 [QConfigurationClose c]) else Ret (0, made (Some c), w2)
          else Ret (0, made (Some c), w1)
      | Some _, _, _ => Ret (-1, made None, w)
      end
  | _ => Ret (0, made (rn_configuration n), w)
  end.

(** The address of the peer is not used: the connection is started for the port
    only. *)
Definition meridian_rendv_handle_create_tunnel (n : rendv_node) (peer : option meridian_rendv_t) (w : quic_world)
    (opened : option Z) (started : Z → bool) : Z * option Z * quic_world :=
  match peer, rn_msquic n, rn_registration n with
  | Some p, Some _, Some r =>
      match opened with
      | None => (-1, None, w)
      | Some k =>
          let w1 := say w [QConnectionOpen r k; QConnectionStart k (rn_configuration n)] in
          if negb (started (rv_port p)) then (-1, None, say w1 [QConnectionClose k]) else (0, Some k, w1)
      end
  | _, _, _ => (-1, None, w)
  end.

Definition meridian_rendv_handle_close_tunnel (n : rendv_node) (conn : option Z) (w : quic_world) : Z * quic_world :=
  match conn, rn_msquic n with
  | Some k, Some _ => (0, say w (shut_connection k))
  | _, _ => (-1, w)
  end.

Fixpoint release_points (h : rendv_heap) (l : list Z) : exec rendv_heap :=
  match l with
  | [] => Ret h
  | a :: l' => h1 <- meridian_rendv_destroy h a ;; release_points h1 l'
  end.

(** [None]: freed.  The configuration is left open. *)
Definition meridian_rendv_handle_destroy (h : rendv_heap) (n : rendv_node) : exec (rendv_heap * option rendv_node) :=
  let '(c, free) := released (rn_refcounter n) in
  if negb free then Ret (h, Some (mkRendvNode c (rn_handle n) (rn_msquic n) (rn_registration n) (rn_configuration n)))
  else
    h1 <- match rh_local (rn_handle n) with Some a => meridian_rendv_destroy h a | None => Ret h end ;;
    h2 <- release_points h1 (rh_peers (rn_handle n)) ;;
    Ret (h2, None).

(** ** The server's account *)

(** A free slot has no connection. *)
Definition tidy (v : meridian_relay_server_t) : Prop :=
  Forall (fun c => cl_endpoint_id c = MERIDIAN_RELAY_ENDPOINT_ID_NONE → cl_connection c = None) (sv_clients v).

(** A server has its registration and configuration open, with its listener, if
    it has one, and the connections of its table below them; the rest of the
    process is [F]. *)
Definition serves (F : quic_store) (s : relay_server_node) (w : quic_world) : Prop :=
  ∃ st r c, replay empty_store (qw_log w) = Some st ∧ sn_registration s = Some r ∧ sn_configuration s = Some c ∧
    (r ∉ qt_registrations F) ∧ qt_configurations F !! c = None ∧
    (∀ l, sn_listener s = Some l → qt_listeners F !! l = None) ∧
    base.NoDup (client_handles (sn_server s)) ∧
    (∀ k, k ∈ client_handles (sn_server s) → qt_connections F !! k = None) ∧
    (∀ k, qt_connections st !! k = if decide (k ∈ client_handles (sn_server s)) then Some r else qt_connections F !! k) ∧
    st = st_with_connections (tree F r (Some c) (sn_listener s)) (qt_connections st) ∧
    tidy (sn_server s) ∧ sn_refcounter s = refcounter_init.

(** A server is started when it has no listener, and connections are new when
    they arrive; endpoint identifiers have not wrapped around. *)
Inductive server_step : relay_server_node * quic_world → relay_server_node * quic_world → Prop :=
| sstep_start s w opened started rc s' w' :
    sn_listener s = None → (∀ st l, replay empty_store (qw_log w) = Some st → opened = Some l → qt_listeners st !! l = None) →
    meridian_relay_server_start s w opened started = Ret (rc, s', w') → server_step (s, w) (s', w')
| sstep_accept s w conn configured ok s' w' :
    (∀ st, replay empty_store (qw_log w) = Some st → qt_connections st !! conn = None) →
    sv_next_endpoint_id (sn_server s) ≠ MERIDIAN_RELAY_ENDPOINT_ID_NONE →
    relay_server_accept s w conn configured = Ret (ok, s', w') → server_step (s, w) (s', w')
| sstep_stop s w s' w' : relay_server_stop s w = (s', w') → server_step (s, w) (s', w').

Lemma omap_insert_perm {A B} (f : A → option B) (l : list A) i x y k :
  l !! i = Some x → f x = None → f y = Some k → omap f (<[i := y]> l) ≡ₚ k :: omap f l.
Proof.
  intros Hi Hx Hy. pose proof (lookup_lt_Some _ _ _ Hi) as Hlt. rewrite insert_take_drop by done.
  rewrite <- (take_drop_middle l i x Hi) at 3. rewrite !omap_app. cbn [omap list_omap]. rewrite Hx, Hy. by rewrite Permutation_middle.
Qed.

Lemma serves_start F s w opened started rc s' w' :
  sn_listener s = None → (∀ st l, replay empty_store (qw_log w) = Some st → opened = Some l → qt_listeners st !! l = None) →
  meridian_relay_server_start s w opened started = Ret (rc, s', w') → serves F s w → serves F s' w'.
Proof.
  intros Hl Hf E (st & r & c & Er & E1 & E2 & O1 & O2 & O3 & O4 & O5 & S & Es & Ht & Hc).
  unfold meridian_relay_server_start in E. rewrite E1 in E. destruct opened as [l|]; [|injection E as <- <- <-; by exists st, r, c].
  rewrite Hl in Es. pose proof (Hf st l Er eq_refl) as Fl. rewrite Es in Fl. cbn in Fl.
  assert (Eo : replay st [QListenerOpen r l; QListenerSetCallback l; QListenerStart l]
      = Some (st_with_connections (tree F r (Some c) (Some l)) (qt_connections st))).
  { rewrite Es. cbn. rewrite bool_decide_eq_true_2 by set_solver. rewrite has_false by done. cbn.
    rewrite !(has_true _ _ r) by (by rewrite lookup_insert_eq). cbn. by rewrite (has_true _ _ r) by (by rewrite lookup_insert_eq). }
  destruct started; cbn [negb] in E; injection E as <- <- <-.
  - eexists _, r, c. split; [rewrite (replay_say _ _ _ Er); exact Eo|]. cbn. split_and!; try done. by intros ? [= <-].
  - exists st, r, c. split_and!; try done. rewrite say_say, (replay_say _ _ _ Er), replay_app, Eo. cbn.
    rewrite (has_true _ _ r) by (by rewrite lookup_insert_eq). cbn. f_equal. rewrite Es at 2. unfold st_with_listeners, st_with_connections, tree.
    cbn. by rewrite delete_insert_id.
Qed.

Lemma serves_accept F s w conn configured ok s' w' :
  (∀ st, replay empty_store (qw_log w) = Some st → qt_connections st !! conn = None) →
  sv_next_endpoint_id (sn_server s) ≠ MERIDIAN_RELAY_ENDPOINT_ID_NONE →
  relay_server_accept s w conn configured = Ret (ok, s', w') → serves F s w → serves F s' w'.
Proof.
  intros Hf Hn E (st & r & c & Er & E1 & E2 & O1 & O2 & O3 & O4 & O5 & S & Es & Ht & Hc).
  unfold relay_server_accept in E. rewrite E2 in E. destruct (sn_listener s) as [l|] eqn:El; [|done].
  unfold RelayServerListenerCallback in E.
  assert (Hsame : serves F (sn_with_server s (sn_server s)) w) by (exists st, r, c; cbn; rewrite El; by split_and!).
  destruct configured; cbn [negb] in E; [|by injection E as <- <- <-].
  destruct (relay_server_find_client_slot (sn_server s)) as [i|] eqn:Ei; [|by injection E as <- <- <-]. injection E as <- <- <-.
  apply find_index_Some in Ei as (old & Hi & Hid & _). apply Z.eqb_eq in Hid.
  assert (Hold : cl_connection old = None) by (exact (Forall_lookup_1 _ _ _ _ Ht Hi Hid)).
  set (new := mkRelayClient (sv_next_endpoint_id (sn_server s)) (Some conn) false).
  pose proof (omap_insert_perm cl_connection (sv_clients (sn_server s)) i old new conn Hi Hold eq_refl) as Hp.
  pose proof (Hf st Er) as Hk. pose proof (S conn) as Sk. rewrite Hk in Sk.
  destruct (decide (conn ∈ client_handles (sn_server s))) as [?|Hnin]; [done|].
  exists (st_with_connections st (<[conn := r]> (qt_connections st))), r, c. unfold client_handles in *. cbn -[replay say]. split_and!; try done.
  - rewrite (replay_say _ _ _ Er). cbn.
    assert (qt_listeners st !! l = Some r) as -> by (rewrite Es; cbn; by rewrite lookup_insert_eq).
    assert (Hcf : qt_configurations st !! c = Some r) by (rewrite Es; cbn; by rewrite lookup_insert_eq).
    by rewrite has_false, (has_true _ _ _ Hcf).
  - by rewrite El.
  - rewrite Hp. by apply list.NoDup_cons.
  - intros k Hin. rewrite Hp in Hin. apply elem_of_cons in Hin as [->|Hin]; [by symmetry|by apply O5].
  - intros k. destruct (decide (k = conn)) as [->|Hne].
    + rewrite lookup_insert_eq, decide_True; [done|]. rewrite Hp. by left.
    + rewrite lookup_insert_ne, S by done.
      destruct (decide (k ∈ omap cl_connection (sv_clients (sn_server s)))) as [H|H].
      * rewrite decide_True; [done|]. rewrite Hp. by right.
      * rewrite decide_False; [done|]. rewrite Hp. by intros [?|?]%elem_of_cons.
  - rewrite Es at 1. cbn. by rewrite El.
  - apply Forall_insert; [done|]. cbn. intros ?. done.
Qed.

Lemma stopped_handles v : client_handles (meridian_relay_server_stop v) = [].
Proof.
  unfold client_handles. cbn. induction (sv_clients v) as [|c l IH]; cbn; [done|].
  destruct (cl_connection c) eqn:E; cbn; [done|]. by rewrite E.
Qed.

Lemma stopped_tidy v : tidy v → tidy (meridian_relay_server_stop v).
Proof.
  intros H. unfold tidy. cbn. apply Forall_fmap. refine (List.Forall_impl _ _ H). intros c Hc. unfold compose.
  by destruct (cl_connection c) eqn:E.
Qed.

(** Stopping closes the connections and the listener. *)
Lemma serves_stop F s w s' w' :
  relay_server_stop s w = (s', w') → serves F s w →
  serves F s' w' ∧ sn_listener s' = None ∧ client_handles (sn_server s') = [] ∧
    ∃ r c, sn_registration s' = Some r ∧ sn_configuration s' = Some c ∧
      replay empty_store (qw_log w') = Some (tree F r (Some c) None) ∧ (r ∉ qt_registrations F) ∧ qt_configurations F !! c = None.
Proof.
  intros [= <- <-] (st & r & c & Er & E1 & E2 & O1 & O2 & O3 & O4 & O5 & S & Es & Ht & Hc).
  pose proof (stopped_handles (sn_server s)) as Eh.
  assert (Ew : replay empty_store (qw_log (say w (concat (map shut_connection (client_handles (sn_server s)))
      ++ on_handle (fun l => [QListenerStop l; QListenerClose l]) (sn_listener s)))) = Some (tree F r (Some c) None)).
  { rewrite (replay_say _ _ _ Er), replay_app, (shut_all F r (Some c) (sn_listener s) st) by done.
    destruct (sn_listener s) as [l|]; [|done]. cbn [on_handle].
    rewrite (replay_step _ _ _ _ (tree_stop_listener F r (Some c) l)). apply tree_close_listener, O3, eq_refl. }
  cbn [sn_listener sn_server sn_with_listener sn_with_server]. split_and!; [|done|done|by exists r, c].
  exists (tree F r (Some c) None), r, c. cbn -[replay say client_handles meridian_relay_server_stop]. split_and!; try done; rewrite ?Eh; [apply base.NoDup_nil_2|by intros k ?%elem_of_nil|done|by apply stopped_tidy].
Qed.

Lemma server_step_serves F x y : server_step x y → serves F x.1 x.2 → serves F y.1 y.2.
Proof.
  destruct 1 as [s w opened started rc s' w' Hl Hf E|s w conn configured ok s' w' Hf Hn E|s w s' w' E]; cbn [fst snd]; intros H.
  - by eapply serves_start.
  - by eapply serves_accept.
  - by apply (serves_stop F s w s' w' E).
Qed.

(** The account opens with the creation. *)
Lemma create_spec F w config registration configuration credential :
  frame_ok F → replay empty_store (qw_log w) = Some (rooted F true) →
  (∀ r, registration = Some r → r ∉ qt_registrations F) → (∀ c, configuration = Some c → qt_configurations F !! c = None) →
  let '(made, w') := relay_server_create (Some 0) (Some config) w registration configuration credential in
  match made with
  | None => replay empty_store (qw_log w') = Some (rooted F true)
  | Some s => serves F s w' ∧ sn_listener s = None
  end.
Proof.
  intros Ff Er Fr Fc. unfold relay_server_create. destruct registration as [r|]; [|done]. specialize (Fr r eq_refl).
  pose proof (tree_open_registration F r Fr) as E1. destruct configuration as [c|].
  2:{ rewrite say_say, (replay_say _ _ _ Er). by rewrite replay_app, E1, tree_close_registration. }
  specialize (Fc c eq_refl). rewrite !say_say.
  assert (E2 : replay (rooted F true) ([QRegistrationOpen r] ++ [QConfigurationOpen r c; QConfigurationLoadCredential c]) = Some (tree F r (Some c) None))
    by (rewrite replay_app, E1; by apply tree_open_configuration).
  destruct (credential _); cbn [negb].
  - split; [|done]. exists (tree F r (Some c) None), r, c. rewrite (replay_say _ _ _ Er), E2.
    assert (Eh : client_handles meridian_relay_server_create = []) by reflexivity. cbn -[client_handles meridian_relay_server_create]. rewrite Eh.
    split_and!; try done; [apply base.NoDup_nil_2|by intros k ?%elem_of_nil|]. apply Forall_replicate. done.
  - rewrite (replay_say _ _ _ Er), (assoc_L (++)), replay_app, E2. rewrite (replay_step _ _ _ _ (tree_close_configuration F r c None Fc)).
    by apply tree_close_registration.
Qed.

Lemma serves_destroy F s w :
  frame_ok F → serves F s w → ∃ w', meridian_relay_server_destroy s w = (None, w') ∧ replay empty_store (qw_log w') = Some (rooted F true).
Proof.
  intros Ff Hs. pose proof Hs as (_ & _ & _ & _ & _ & _ & _ & _ & _ & _ & _ & _ & _ & _ & Hc).
  unfold meridian_relay_server_destroy. rewrite Hc. change (released refcounter_init) with (mkRefc 0 0, true). cbn [negb].
  destruct (relay_server_stop s w) as [s1 w1] eqn:E. destruct (serves_stop F s w s1 w1 E Hs) as (_ & _ & _ & r & c & E1 & E2 & Er & O1 & O2).
  rewrite E1, E2. cbn [on_handle app]. eexists. split; [done|]. rewrite (replay_say _ _ _ Er).
  rewrite (replay_step _ _ _ _ (tree_close_configuration F r c None O2)). by apply tree_close_registration.
Qed.

(** A relay server loses no msquic handle as long as its connections are
    closed by the server: a creation that fails closes what it opened; a created
    server, started while it has no listener, stopped and given new connections
    in any order, has exactly its registration, configuration, listener and the
    connections of its client table open; and destroying it closes them all. *)
Theorem relay_server_handles F w config registration configuration credential :
  frame_ok F → replay empty_store (qw_log w) = Some (rooted F true) →
  (∀ r, registration = Some r → r ∉ qt_registrations F) → (∀ c, configuration = Some c → qt_configurations F !! c = None) →
  let '(made, w0) := relay_server_create (Some 0) (Some config) w registration configuration credential in
  match made with
  | None => replay empty_store (qw_log w0) = Some (rooted F true)
  | Some s0 =>
      ∀ s1 w1, rtc server_step (s0, w0) (s1, w1) →
        serves F s1 w1 ∧
        ∃ w2, meridian_relay_server_destroy s1 w1 = (None, w2) ∧ replay empty_store (qw_log w2) = Some (rooted F true)
  end.
Proof.
  intros Ff Er Fr Fc. pose proof (create_spec F w config registration configuration credential Ff Er Fr Fc) as H.
  destruct (relay_server_create _ _ _ _ _ _) as [[s0|] w0]; [|done]. destruct H as [H0 _]. intros s1 w1 Hrun.
  assert (H1 : serves F s1 w1).
  { change (serves F (s1, w1).1 (s1, w1).2). change (serves F (s0, w0).1 (s0, w0).2) in H0.
    induction Hrun as [x|x y z Hs _ IH]; [done|]. apply IH. by eapply server_step_serves. }
  split; [done|]. by apply serves_destroy.
Qed.

Definition demo_server_config : meridian_relay_server_config_t := mkServerConfig None 4433 0 0 None None.

Definition open_world : quic_world := mkQuicWorld (mkMsquic (Some 1) 1) [MsQuicOpen2].

Definition demo_server : relay_server_node :=
  mkServerNode refcounter_init meridian_relay_server_create 4433 (Some 10) (Some 20) None.

Definition demo_server_log : quic_world :=
  mkQuicWorld (mkMsquic (Some 1) 1) [MsQuicOpen2; QRegistrationOpen 10; QConfigurationOpen 10 20; QConfigurationLoadCredential 20].

Lemma relay_server_handles_witness :
  ∀ s1 w1, rtc server_step (demo_server, demo_server_log) (s1, w1) →
    serves empty_store s1 w1 ∧
    ∃ w2, meridian_relay_server_destroy s1 w1 = (None, w2) ∧ replay empty_store (qw_log w2) = Some (rooted empty_store true).
Proof.
  exact (relay_server_handles empty_store open_world demo_server_config (Some 10) (Some 20) (fun _ => true)
           (Build_frame_ok empty_store (map_Forall_empty _) (map_Forall_empty _) (map_Forall_empty _)) eq_refl
           (fun r _ => not_elem_of_empty r) (fun c _ => lookup_empty c)).
Defined.

(** ** What the account does not cover *)

(** A connection the peer shuts down leaves the table but stays open: nothing
    closes it, and the registration cannot be closed below it. *)
Example shutdown_leaks_connection :
  match relay_server_create (Some 0) (Some demo_server_config) open_world (Some 10) (Some 20) (fun _ => true) with
  | (Some s0, w0) =>
      match meridian_relay_server_start s0 w0 (Some 30) true with
      | Ret (_, s1, w1) =>
          match relay_server_accept s1 w1 40 true with
          | Ret (_, s2, w2) =>
              let s3 := relay_server_shutdown s2 40 in
              client_handles (sn_server s3) = [] ∧
              (qt_connections <$> replay empty_store (qw_log w2)) = Some {[40 := 10]} ∧
              replay empty_store (qw_log (meridian_relay_server_destroy s3 w2).2) = None
          | Trap => False
          end
      | Trap => False
      end
  | (None, _) => False
  end.
Proof. split_and!; vm_compute; reflexivity. Qed.

(** A second start forgets the first listener. *)
Lemma start_twice_leaks s w r l1 l2 rc s' w' :
  sn_registration s = Some r → sn_listener s = Some l1 → meridian_relay_server_start s w (Some l2) true = Ret (rc, s', w') →
  sn_listener s' = Some l2 ∧ qw_log w' = qw_log w ++ [QListenerOpen r l2; QListenerSetCallback l2; QListenerStart l2].
Proof. intros E _. unfold meridian_relay_server_start. rewrite E. cbn. by intros [= <- <- <-]. Qed.

(** A relay client destroyed between [ConnectionStart] and the connected event
    leaves its connection open, with the freed client as its context. *)
Lemma destroy_while_connecting n w k :
  rl_connection (ln_relay n) = Some k → rl_connected (ln_relay n) = false → ln_refcounter n = refcounter_init → ln_configuration n = None →
  meridian_relay_destroy n w = (None, w).
Proof.
  intros _ Hc Hr Hn. unfold meridian_relay_destroy. rewrite Hr. change (released refcounter_init) with (mkRefc 0 0, true).
  cbn [negb]. rewrite Hc, Hn. cbn. unfold say. rewrite app_nil_r. by destruct w.
Qed.

(** A connected client closes its connection and its configuration. *)
Lemma relay_client_destroy_closes F n w k c st :
  ln_refcounter n = refcounter_init → rl_connected (ln_relay n) = true → rl_connection (ln_relay n) = Some k → ln_configuration n = Some c →
  replay empty_store (qw_log w) = Some st → st = mkStore true (qt_registrations F) (<[c := ln_registration n]> (qt_configurations F)) (qt_listeners F)
    (<[k := ln_registration n]> (qt_connections F)) → qt_configurations F !! c = None → qt_connections F !! k = None →
  ∃ w', meridian_relay_destroy n w = (None, w') ∧ replay empty_store (qw_log w') = Some (rooted F true).
Proof.
  intros Hr Hcon Hk Hc Er Es Fc Fk. unfold meridian_relay_destroy. rewrite Hr. change (released refcounter_init) with (mkRefc 0 0, true).
  cbn [negb]. rewrite Hcon. unfold relay_client_disconnect. cbn [ln_configuration ln_with_relay]. rewrite Hc, Hk. eexists. split; [done|].
  rewrite say_say, (replay_say _ _ _ Er), Es. cbn. rewrite (has_true _ _ (ln_registration n)) by (by rewrite lookup_insert_eq). cbn.
  rewrite (has_true _ _ (ln_registration n)) by (by rewrite lookup_insert_eq). cbn.
  rewrite (has_true _ _ (ln_registration n)) by (by rewrite lookup_insert_eq). cbn. unfold rooted, st_with_configurations, st_with_connections. cbn.
  by rewrite !delete_insert_id.
Qed.

(** A configuration that the rendezvous handle opens is never closed. *)
Lemma rendv_configuration_leaks h hd r c w cf alpn :
  cf = mkRendvConfig (Some alpn) false →
  ∃ n w1, meridian_rendv_handle_set_msquic (mkRendvNode refcounter_init hd None None None) (Some 0) (Some r) (Some cf) w (Some c) true
            = Ret (0, n, w1) ∧ rn_configuration n = Some c ∧ qw_log w1 = qw_log w ++ [QConfigurationOpen r c] ∧
    (rh_local hd = None → rh_peers hd = [] → meridian_rendv_handle_destroy h n = Ret (h, None)).
Proof.
  intros ->. eexists _, _. cbn. split; [done|]. split_and!; [done|done|]. intros El Ep. unfold meridian_rendv_handle_destroy. cbn. by rewrite El, Ep.
Qed.

(** The tunnel goes to the port of the peer, whatever its address. *)
Lemma tunnel_ignores_address n p q w opened started :
  rv_port p = rv_port q →
  meridian_rendv_handle_create_tunnel n (Some p) w opened started = meridian_rendv_handle_create_tunnel n (Some q) w opened started.
Proof. intros E. unfold meridian_rendv_handle_create_tunnel. by rewrite E. Qed.

(** A tunnel that is created can be closed, and a tunnel that cannot be started
    leaves nothing open. *)
Lemma tunnel_closes F n p r w k started :
  rn_msquic n = Some 0 → rn_registration n = Some r → rn_configuration n = None → r ∈ qt_registrations F → qt_connections F !! k = None →
  replay empty_store (qw_log w) = Some (rooted F true) →
  let '(rc, conn, w1) := meridian_rendv_handle_create_tunnel n (Some p) w (Some k) started in
  (rc = 0 ↔ conn = Some k) ∧
  replay empty_store (qw_log (meridian_rendv_handle_close_tunnel n conn w1).2) = Some (rooted F true).
Proof.
  intros E1 E2 E3 Hr Hk Er. unfold meridian_rendv_handle_create_tunnel. rewrite E1, E2, E3.
  assert (Eo : replay (rooted F true) [QConnectionOpen r k; QConnectionStart k None] = Some (st_with_connections (rooted F true) (<[k := r]> (qt_connections F)))).
  { cbn. rewrite bool_decide_eq_true_2, has_false by done. cbn. by rewrite (has_true _ _ r) by (by rewrite lookup_insert_eq). }
  destruct (started (rv_port p)); cbn [negb]; (split; [done|]); unfold meridian_rendv_handle_close_tunnel; rewrite ?E1; cbn [snd].
  - rewrite say_say, (replay_say _ _ _ Er), replay_app, Eo. cbn. rewrite (has_true _ _ r) by (by rewrite lookup_insert_eq). cbn.
    rewrite (has_true _ _ r) by (by rewrite lookup_insert_eq). cbn. unfold st_with_connections. cbn. by rewrite delete_insert_id.
  - rewrite say_say, (replay_say _ _ _ Er), replay_app, Eo. cbn. rewrite (has_true _ _ r) by (by rewrite lookup_insert_eq). cbn.
    unfold st_with_connections. cbn. by rewrite delete_insert_id.
Qed.
