(* ===== verification/Daemon.v ===== *)
(** * Daemon: the two executables

    [src/poseidond.c], the daemon, and [src/relay_main.c], the relay server:
    their command lines, the order in which they start and stop the components,
    and what they do when one of them cannot start.  [getopt_long] and [atoi] are
    those of the C library; whether a component starts is an argument.

    The daemon's calls are logged and replayed on the state of the components it
    handles: a call a component does not allow in its state (destroying a pool
    whose threads run, a wheel that ticks, a manager that transports use) has no
    result there.  The relay server's calls of msquic are replayed on the store of
    [QuicStore]. *)

From stdpp Require Import gmap relations.
From S2P Require Import Prelude CString Cbor Packet ChannelPacket Client StreamTransport QuicStore Refcount Relay.
From S2P Require Import RelayLifecycle.

(** ** [getopt_long] *)

Record long_option := mkLong {
  lo_name : list Z;
  lo_arg : bool;
  lo_val : Z
}.

#[export] Instance long_option_eq_dec : EqDecision long_option.
Proof. solve_decision. Defined.

(** An option with its argument, or the answer ['?']. *)
Inductive opt_event :=
| Opt (c : Z) (arg : option (list Z))
| BadOpt.

(** The name before an equals sign, and the value after it. *)
Fixpoint split_value (l : list Z) : list Z * option (list Z) :=
  match l with
  | [] => ([], None)
  | b :: l' => if b =? 61 then ([], Some l') else let '(n, v) := split_value l' in (b :: n, v)
  end.

Definition starts_with (p l : list Z) : bool := bool_decide (take (length p) l = p).

(** An exact name, or the only name it abbreviates. *)
Definition find_long (longs : list long_option) (name : list Z) : option long_option :=
  match List.find (fun o => bool_decide (lo_name o = name)) longs with
  | Some o => Some o
  | None => match List.filter (fun o => starts_with name (lo_name o)) longs with [o] => Some o | _ => None end
  end.

Fixpoint short_scan (shorts : list (Z * bool)) (cs : list Z) : list opt_event * option Z :=
  match cs with
  | [] => ([], None)
  | c :: cs' =>
      match List.find (fun s => s.1 =? c) shorts with
      | None => ([BadOpt], None)
      | Some (_, false) => let '(evs, p) := short_scan shorts cs' in (Opt c None :: evs, p)
      | Some (_, true) => match cs' with [] => ([], Some c) | _ => ([Opt c (Some cs')], None) end
      end
  end.

(** Arguments that are no options are passed over; two dashes end the options. *)
Fixpoint getopt_long (shorts : list (Z * bool)) (longs : list long_option) (args : list (list Z)) : list opt_event :=
  match args with
  | [] => []
  | a :: rest =>
      if bool_decide (a = lit "--") then []
      else if starts_with (lit "--") a then
        let '(name, value) := split_value (drop 2 a) in
        match find_long longs name with
        | None => [BadOpt]
        | Some o =>
            if lo_arg o then
              match value with
              | Some v => Opt (lo_val o) (Some v) :: getopt_long shorts longs rest
              | None => match rest with v :: rest' => Opt (lo_val o) (Some v) :: getopt_long shorts longs rest' | [] => [BadOpt] end
              end
            else match value with Some _ => [BadOpt] | None => Opt (lo_val o) None :: getopt_long shorts longs rest end
        end
      else if starts_with (lit "-") a && negb (bool_decide (a = lit "-")) then
        let '(evs, pending) := short_scan shorts (drop 1 a) in
        match pending with
        | None => evs ++ getopt_long shorts longs rest
        | Some c => match rest with v :: rest' => evs ++ Opt c (Some v) :: getopt_long shorts longs rest' | [] => evs ++ [BadOpt] end
        end
      else getopt_long shorts longs rest
  end.

(** The character of an option. *)
Definition chr (s : String.string) : Z := match lit s with c :: _ => c | [] => 0 end.
Arguments chr s%_string_scope.

(** [atoi(optarg)]; reading a NULL argument is undefined. *)
Definition atoi_arg (arg : option (list Z)) : exec Z := match arg with Some a => atoi a | None => Trap end.

(** What the caller asks for, spelled with long names. *)
Definition render_option (longs : list long_option) (c : Z) (arg : option (list Z)) : list (list Z) :=
  match List.find (fun o => lo_val o =? c) longs with
  | Some o => (lit "--" ++ lo_name o) :: match arg with Some a => [a] | None => [] end
  | None => []
  end.

(** The option exists, takes an argument exactly when it has one, and its name
    has no equals sign. *)
Definition option_ok (longs : list long_option) (s : Z * option (list Z)) : bool :=
  match List.find (fun o => lo_val o =? s.1) longs with
  | Some o => Bool.eqb (lo_arg o) (bool_decide (is_Some s.2)) && negb (existsb (Z.eqb 61) (lo_name o))
              && negb (bool_decide (lo_name o = [])) && bool_decide (find_long longs (lo_name o) = Some o)
  | None => false
  end.

(** ** The relay server *)

Module RelayMain.

Definition DEFAULT_RELAY_PORT : Z := 9000.
Definition DEFAULT_MAX_CLIENTS : Z := 256.
Definition DEFAULT_IDLE_TIMEOUT_MS : Z := 30000.
Definition DEFAULT_KEEPALIVE_MS : Z := 10000.
Definition DEFAULT_MAX_DATAGRAM_SIZE : Z := 1400.

Record relay_options_t := mkRelayOptions {
  ro_port : Z;
  ro_max_clients : Z;
  ro_idle_timeout_ms : Z;
  ro_keepalive_ms : Z;
  ro_max_datagram_size : Z;
  ro_help : bool;
  ro_version : bool
}.

Definition relay_defaults : relay_options_t :=
  mkRelayOptions DEFAULT_RELAY_PORT DEFAULT_MAX_CLIENTS DEFAULT_IDLE_TIMEOUT_MS DEFAULT_KEEPALIVE_MS DEFAULT_MAX_DATAGRAM_SIZE
    false false.

Definition relay_longs : list long_option :=
  [mkLong (lit "port") true (chr "p"); mkLong (lit "max-clients") true (chr "c"); mkLong (lit "idle-timeout") true (chr "t");
   mkLong (lit "keepalive") true (chr "k"); mkLong (lit "max-datagram") true (chr "d"); mkLong (lit "help") false (chr "h");
   mkLong (lit "version") false (chr "v")].

Definition relay_shorts : list (Z * bool) :=
  [(chr "p", true); (chr "c", true); (chr "t", true); (chr "k", true); (chr "d", true); (chr "h", false); (chr "v", false)].

(** One case of the switch; [None] is the default case. *)
Definition relay_option (o : relay_options_t) (c : Z) (arg : option (list Z)) : exec (option relay_options_t) :=
  let '(mkRelayOptions p m t k d h v) := o in
  if c =? chr "p" then x <- atoi_arg arg ;; Ret (Some (mkRelayOptions (u16 x) m t k d h v))
  else if c =? chr "c" then x <- atoi_arg arg ;; Ret (Some (mkRelayOptions p (u32 x) t k d h v))
  else if c =? chr "t" then x <- atoi_arg arg ;; Ret (Some (mkRelayOptions p m (u32 x) k d h v))
  else if c =? chr "k" then x <- atoi_arg arg ;; Ret (Some (mkRelayOptions p m t (u32 x) d h v))
  else if c =? chr "d" then x <- atoi_arg arg ;; Ret (Some (mkRelayOptions p m t k (u32 x) h v))
  else if c =? chr "h" then Ret (Some (mkRelayOptions p m t k d true v))
  else if c =? chr "v" then Ret (Some (mkRelayOptions p m t k d h true))
  else Ret None.

Fixpoint relay_switch (evs : list opt_event) (o : relay_options_t) : exec (option relay_options_t) :=
  match evs with
  | [] => Ret (Some o)
  | BadOpt :: _ => Ret None
  | Opt c arg :: evs' => o' <-? relay_option o c arg ;; relay_switch evs' o'
  end.

(** [None] is the result -1. *)
Definition parse_options (args : list (list Z)) : exec (option relay_options_t) :=
  relay_switch (getopt_long relay_shorts relay_longs args) relay_defaults.

(** What msquic answers: the library, the registration, the configuration, its
    credential, the listener, whether it starts. *)
Record relay_outcomes := mkRelayOutcomes {
  re_library : option Z;
  re_registration : option Z;
  re_configuration : option Z;
  re_credential : option (list Z * list Z) → bool;
  re_listener : option Z;
  re_started : bool
}.

Definition relay_config (opts : relay_options_t) : meridian_relay_server_config_t :=
  mkServerConfig (Some RELAY_ALPN) (ro_port opts) (ro_idle_timeout_ms opts) (ro_keepalive_ms opts) None None.

(** The server it leaves in [g_server]. *)
Definition start_relay_server (opts : relay_options_t) (o : relay_outcomes) (w : quic_world)
  : exec (Z * option relay_server_node * quic_world) :=
  let '(msquic, w1) := open_library w (re_library o) in
  match msquic with
  | None => Ret (-1, None, w1)
  | Some _ =>
      let '(made, w2) := relay_server_create msquic (Some (relay_config opts)) w1 (re_registration o) (re_configuration o)
                           (re_credential o) in
      match made with
      | None => Ret (-1, None, close_library w2)
      | Some s =>
          '(rc, s1, w3) <- meridian_relay_server_start s w2 (re_listener o) (re_started o) ;;
          if negb (rc =? 0) then Ret (-1, None, close_library (meridian_relay_server_destroy s1 w3).2)
          else Ret (0, Some s1, w3)
      end
  end.

(** The part of [main] before its loop: the exit status, or the running server. *)
Definition relay_start (args : list (list Z)) (o : relay_outcomes) (w : quic_world)
  : exec (Z + relay_server_node) * quic_world :=
  match parse_options args with
  | Trap => (Trap, w)
  | Ret None => (Ret (inl 1), w)
  | Ret (Some opts) =>
      if ro_help opts then (Ret (inl 0), w)
      else if ro_version opts then (Ret (inl 0), w)
      else match start_relay_server opts o w with
      | Trap => (Trap, w)
      | Ret (_, Some s, w1) => (Ret (inr s), w1)
      | Ret (_, None, w1) => (Ret (inl 1), w1)
      end
  end.

(** The signal handler also stops the server. *)
Definition signal_handler (g_server : option relay_server_node) (w : quic_world) : option relay_server_node * quic_world :=
  match g_server with
  | Some s => let '(s', w') := relay_server_stop s w in (Some s', w')
  | None => (None, w)
  end.

(** The statistics of every tenth second: the rounds of the loop that print them. *)
Fixpoint stats_rounds (tick : Z) (rounds : nat) : list bool :=
  match rounds with
  | O => []
  | S n => let t := tick + 1 in if 10 <=? t then true :: stats_rounds 0 n else false :: stats_rounds t n
  end.

(** After the loop. *)
Definition relay_cleanup (g_server : option relay_server_node) (w : quic_world) : Z * quic_world :=
  let w1 := match g_server with Some s => (meridian_relay_server_destroy s w).2 | None => w end in
  (0, close_library w1).
End RelayMain.

(** ** The command line *)

Lemma split_value_name n : existsb (Z.eqb 61) n = false → split_value n = (n, None).
Proof.
  induction n as [|b n IH]; cbn [existsb split_value]; [done|]. intros [H1 H2]%orb_false_iff.
  rewrite Z.eqb_sym, H1. by rewrite IH.
Qed.

Lemma starts_with_app p l : starts_with p (p ++ l) = true.
Proof. unfold starts_with. apply bool_decide_eq_true. by rewrite take_app_length. Qed.

(** The options of a program spelled with their long names are read back
    as they were asked for, whatever their arguments look like. *)
Theorem getopt_reads_back shorts longs (settings : list (Z * option (list Z))) :
  Forall (fun s => option_ok longs s = true) settings →
  getopt_long shorts longs (concat (map (fun s => render_option longs s.1 s.2) settings))
  = map (fun s => Opt s.1 s.2) settings.
Proof.
  induction 1 as [|[c arg] l Hs _ IH]; [done|]. cbn [map concat fst snd]. unfold option_ok in Hs. cbn [fst snd] in Hs.
  destruct (List.find (fun o => lo_val o =? c) longs) as [o|] eqn:Ef; [|done].
  assert (Er : render_option longs c arg = (lit "--" ++ lo_name o) :: match arg with Some a => [a] | None => [] end)
    by (unfold render_option; by rewrite Ef).
  pose proof (List.find_some _ _ Ef) as [_ Hc]. apply Z.eqb_eq in Hc.
  apply andb_true_iff in Hs as [[[Ha He]%andb_true_iff Hn]%andb_true_iff Hl].
  apply negb_true_iff in He, Hn. apply bool_decide_eq_true in Hl. apply bool_decide_eq_false in Hn.
  apply Bool.eqb_prop in Ha.
  assert (Hd : bool_decide (lit "--" ++ lo_name o = lit "--") = false).
  { apply bool_decide_eq_false. intros H. apply Hn. apply (f_equal (drop 2)) in H. exact H. }
  assert (Hhead : ∀ rest, getopt_long shorts longs ((lit "--" ++ lo_name o) :: rest) =
    if lo_arg o then match rest with v :: rest' => Opt (lo_val o) (Some v) :: getopt_long shorts longs rest' | [] => [BadOpt] end
    else Opt (lo_val o) None :: getopt_long shorts longs rest).
  { intros rest. cbn [getopt_long]. rewrite Hd, starts_with_app. change (drop 2 (lit "--" ++ lo_name o)) with (lo_name o).
    by rewrite split_value_name, Hl by done. }
  rewrite Er, <- app_comm_cons, Hhead. destruct arg as [a|]; cbn [app].
  - rewrite bool_decide_true in Ha by done. by rewrite Ha, Hc, IH.
  - rewrite bool_decide_false in Ha by (by intros [? ?]). by rewrite Ha, Hc, IH.
Qed.

Definition demo_settings : list (Z * option (list Z)) := [(chr "p", Some (lit "--help")); (chr "v", None)].

Lemma getopt_reads_back_witness :
  getopt_long RelayMain.relay_shorts RelayMain.relay_longs
    (concat (map (fun s => render_option RelayMain.relay_longs s.1 s.2) demo_settings))
  = [Opt (chr "p") (Some (lit "--help")); Opt (chr "v") None].
Proof. apply (getopt_reads_back RelayMain.relay_shorts RelayMain.relay_longs demo_settings). repeat constructor. Defined.

(** ** The relay process *)

Section relay_process.
Import RelayMain.

Definition boot_world : quic_world := mkQuicWorld (mkMsquic None 0) [].

(** Nothing of msquic is open. *)
Definition all_closed (w : quic_world) : Prop :=
  replay empty_store (qw_log w) = Some empty_store ∧ qw_library w = mkMsquic None 0.

Lemma empty_frame : frame_ok empty_store.
Proof. split; apply map_Forall_empty. Qed.

Lemma close_last w table :
  qw_library w = mkMsquic (Some table) 1 → replay empty_store (qw_log w) = Some (rooted empty_store true) → all_closed (close_library w).
Proof.
  intros Hl Hr. unfold close_library. rewrite Hl. change (poseidon_msquic_close (mkMsquic (Some table) 1)) with (true, mkMsquic None 0).
  split; [|done]. cbn [qw_log]. by rewrite replay_app, Hr.
Qed.

Lemma server_step_library x y : server_step x y → qw_library y.2 = qw_library x.2.
Proof.
  destruct 1 as [s w opened started rc s' w' Hl Hf E|s w conn configured ok s' w' Hf Hn E|s w s' w' E]; cbn [snd].
  - unfold meridian_relay_server_start in E. destruct (sn_registration s); [|done].
    destruct opened; [destruct started|]; by injection E as <- <- <-.
  - unfold relay_server_accept in E. destruct (sn_listener s), (sn_configuration s); try done.
    destruct (RelayServerListenerCallback _ _ _) as [[] v]; by injection E as <- <- <-.
  - by injection E as <- <-.
Qed.

Lemma destroy_library s w : qw_library (meridian_relay_server_destroy s w).2 = qw_library w.
Proof. unfold meridian_relay_server_destroy. by destruct (released _) as [? []]. Qed.

Lemma create_library ms cf w r c cr : qw_library (relay_server_create ms cf w r c cr).2 = qw_library w.
Proof. unfold relay_server_create. destruct ms, cf, r, c; try done. by destruct (negb _). Qed.

Lemma create_any_table t t' cf w r c cr :
  relay_server_create (Some t) cf w r c cr = relay_server_create (Some t') cf w r c cr.
Proof. done. Qed.

(** A server without a listener, alone in the process, has no listeners in the
    store. *)
Lemma serves_no_listener s w st l :
  serves empty_store s w → sn_listener s = None → replay empty_store (qw_log w) = Some st → qt_listeners st !! l = None.
Proof.
  intros (st' & r & c & Er & _ & _ & _ & _ & _ & _ & _ & _ & Es & _) Hl E. rewrite E in Er. injection Er as <-.
  rewrite Es, Hl. cbn. apply lookup_empty.
Qed.

Lemma clean_exit s w table :
  serves empty_store s w → qw_library w = mkMsquic (Some table) 1 →
  all_closed (close_library (meridian_relay_server_destroy s w).2).
Proof.
  intros Hs Hl. destruct (serves_destroy empty_store s w empty_frame Hs) as (w' & E & Er). rewrite E. cbn [snd].
  apply (close_last _ table); [|done]. pose proof (destroy_library s w) as Hd. rewrite E in Hd. cbn in Hd. by rewrite Hd.
Qed.

Lemma start_spec opts o :
  match start_relay_server opts o boot_world with
  | Trap => False
  | Ret (_, None, w) => all_closed w
  | Ret (_, Some s, w) => serves empty_store s w ∧ ∃ table, qw_library w = mkMsquic (Some table) 1
  end.
Proof.
  unfold start_relay_server. destruct (re_library o) as [t|]; [|done].
  change (open_library boot_world (Some t)) with (Some t, mkQuicWorld (mkMsquic (Some t) 1) [MsQuicOpen2]).
  set (w1 := mkQuicWorld (mkMsquic (Some t) 1) [MsQuicOpen2]). cbv beta iota.
  pose proof (create_spec empty_store w1 (relay_config opts) (re_registration o) (re_configuration o) (re_credential o)
    empty_frame eq_refl (fun r _ => not_elem_of_empty r) (fun c _ => lookup_empty c)) as Hc.
  pose proof (create_library (Some t) (Some (relay_config opts)) w1 (re_registration o) (re_configuration o) (re_credential o)) as Hl.
  rewrite (create_any_table 0 t) in Hc.
  destruct (relay_server_create (Some t) (Some (relay_config opts)) w1 (re_registration o) (re_configuration o)
    (re_credential o)) as [[s|] w2]; cbn [snd] in Hl; [|by apply (close_last _ t)].
  destruct Hc as [Hs Hn].
  destruct (meridian_relay_server_start s w2 (re_listener o) (re_started o)) as [[[rc s1] w3]|] eqn:Es.
  - cbn [xbind]. assert (Hst : server_step (s, w2) (s1, w3)).
    { eapply sstep_start; [done| |exact Es]. intros st l Hr _. by eapply serves_no_listener. }
    pose proof (server_step_serves empty_store _ _ Hst Hs) as Hs1. pose proof (server_step_library _ _ Hst) as Hl1.
    cbn [fst snd] in Hs1, Hl1. destruct (negb (rc =? 0)).
    + apply (clean_exit _ _ t); [done|]. by rewrite Hl1, Hl.
    + split; [done|]. exists t. by rewrite Hl1, Hl.
  - exfalso. destruct Hs as (st & r & c & _ & Hr & _). unfold meridian_relay_server_start in Es. rewrite Hr in Es.
    destruct (re_listener o); [destruct (re_started o)|]; done.
Qed.
End relay_process.

(** The relay process gives back what it takes.  Whatever the command line
    and whatever msquic answers, a process that exits before serving has closed
    every msquic object it opened and the library; one that serves, after any
    sequence of new connections and stops, closes them all when it leaves its loop
    (connections the peer ends are lost, see [shutdown_leaks_connection]).
    Only a number outside [int] on the command line is undefined. *)
Theorem relay_process_releases args o :
  match RelayMain.relay_start args o boot_world with
  | (Trap, _) => RelayMain.parse_options args = Trap
  | (Ret (inl _), w) => all_closed w
  | (Ret (inr s), w) =>
      ∀ s' w', rtc server_step (s, w) (s', w') → all_closed (RelayMain.relay_cleanup (Some s') w').2
  end.
Proof.
  unfold RelayMain.relay_start. destruct (RelayMain.parse_options args) as [[opts|]|]; [|done|done].
  destruct (RelayMain.ro_help opts); [done|]. destruct (RelayMain.ro_version opts); [done|].
  pose proof (start_spec opts o) as H. destruct (RelayMain.start_relay_server opts o boot_world) as [[[rc [s|]] w]|]; [|done|done].
  destruct H as (Hs & table & Hl). intros s' w' Hr.
  assert (H : serves empty_store s' w' ∧ qw_library w' = mkMsquic (Some table) 1).
  { change (serves empty_store (s', w').1 (s', w').2 ∧ qw_library (s', w').2 = mkMsquic (Some table) 1).
    change (serves empty_store (s, w).1 (s, w).2) in Hs. change (qw_library (s, w).2 = mkMsquic (Some table) 1) in Hl.
    induction Hr as [x|x y z Hst _ IH]; [done|]. apply IH; [by eapply server_step_serves|].
    by rewrite (server_step_library _ _ Hst). }
  destruct H as [Hs' Hl']. by apply (clean_exit _ _ table).
Qed.

(** ** The daemon *)

Module Poseidond.

Definition DEFAULT_DIAL_PORT : Z := 8000.
Definition DEFAULT_PORT_RANGE_START : Z := 8001.
Definition DEFAULT_PORT_RANGE_END : Z := 8100.

Inductive transport_kind := UNIX_SOCKET | TCP | WEBSOCKET | QUIC | WEBTRANSPORT.

#[export] Instance transport_kind_eq_dec : EqDecision transport_kind.
Proof. solve_decision. Defined.

(** The Binder and XPC switches are never read. *)
Record poseidon_transport_config_t := mkTransportConfig {
  tc_enabled : list transport_kind;
  tc_unix_socket_path : list Z;
  tc_tcp_port : Z;
  tc_ws_port : Z;
  tc_quic_port : Z;
  tc_wt_port : Z;
  tc_tls_cert_path : option (list Z);
  tc_tls_key_path : option (list Z)
}.

Definition poseidon_transport_config_defaults : poseidon_transport_config_t :=
  mkTransportConfig [UNIX_SOCKET] (lit "/var/run/poseidond.sock") 9090 9091 9092 9093 None None.

(** The variables of [main] the options set. *)
Record daemon_options := mkOptions {
  op_config : poseidon_transport_config_t;
  op_dial_port : Z;
  op_range_start : Z;
  op_range_end : Z;
  op_help : bool
}.

Definition daemon_defaults : daemon_options :=
  mkOptions poseidon_transport_config_defaults DEFAULT_DIAL_PORT DEFAULT_PORT_RANGE_START DEFAULT_PORT_RANGE_END false.

Definition daemon_longs : list long_option :=
  [mkLong (lit "enable-unix") false (chr "U"); mkLong (lit "enable-tcp") false (chr "T"); mkLong (lit "enable-ws") false (chr "W");
   mkLong (lit "enable-quic") false (chr "Q"); mkLong (lit "enable-wt") false (chr "B"); mkLong (lit "dial-port") true (chr "d");
   mkLong (lit "port-range-start") true (chr "s"); mkLong (lit "port-range-end") true (chr "e");
   mkLong (lit "unix-socket") true (chr "u"); mkLong (lit "tcp-port") true (chr "t"); mkLong (lit "ws-port") true (chr "w");
   mkLong (lit "quic-port") true (chr "q"); mkLong (lit "wt-port") true (chr "b"); mkLong (lit "tls-cert") true (chr "c");
   mkLong (lit "tls-key") true (chr "k"); mkLong (lit "help") false (chr "h")].

Definition daemon_shorts : list (Z * bool) := [(chr "h", false)].

Definition enable (k : transport_kind) (c : poseidon_transport_config_t) : poseidon_transport_config_t :=
  mkTransportConfig (k :: tc_enabled c) (tc_unix_socket_path c) (tc_tcp_port c) (tc_ws_port c) (tc_quic_port c) (tc_wt_port c)
    (tc_tls_cert_path c) (tc_tls_key_path c).

Definition op_with_config (o : daemon_options) (c : poseidon_transport_config_t) : daemon_options :=
  mkOptions c (op_dial_port o) (op_range_start o) (op_range_end o) (op_help o).

(** One case of the switch; [None] is the default case. *)
Definition daemon_option (o : daemon_options) (c : Z) (arg : option (list Z)) : exec (option daemon_options) :=
  let '(mkOptions g dp s e h) := o in
  let '(mkTransportConfig en up tp wp qp bp ct ky) := g in
  let flag k := Ret (Some (op_with_config o (enable k g))) in
  if c =? chr "U" then flag UNIX_SOCKET
  else if c =? chr "T" then flag TCP
  else if c =? chr "W" then flag WEBSOCKET
  else if c =? chr "Q" then flag QUIC
  else if c =? chr "B" then flag WEBTRANSPORT
  else if c =? chr "d" then x <- atoi_arg arg ;; Ret (Some (mkOptions g (u16 x) s e h))
  else if c =? chr "s" then x <- atoi_arg arg ;; Ret (Some (mkOptions g dp (u16 x) e h))
  else if c =? chr "e" then x <- atoi_arg arg ;; Ret (Some (mkOptions g dp s (u16 x) h))
  else if c =? chr "u" then Ret (Some (op_with_config o (mkTransportConfig en (default up arg) tp wp qp bp ct ky)))
  else if c =? chr "t" then x <- atoi_arg arg ;; Ret (Some (op_with_config o (mkTransportConfig en up (u16 x) wp qp bp ct ky)))
  else if c =? chr "w" then x <- atoi_arg arg ;; Ret (Some (op_with_config o (mkTransportConfig en up tp (u16 x) qp bp ct ky)))
  else if c =? chr "q" then x <- atoi_arg arg ;; Ret (Some (op_with_config o (mkTransportConfig en up tp wp (u16 x) bp ct ky)))
  else if c =? chr "b" then x <- atoi_arg arg ;; Ret (Some (op_with_config o (mkTransportConfig en up tp wp qp (u16 x) ct ky)))
  else if c =? chr "c" then Ret (Some (op_with_config o (mkTransportConfig en up tp wp qp bp arg ky)))
  else if c =? chr "k" then Ret (Some (op_with_config o (mkTransportConfig en up tp wp qp bp ct arg)))
  else if c =? chr "h" then Ret (Some (mkOptions g dp s e true))
  else Ret None.

Fixpoint daemon_switch (evs : list opt_event) (o : daemon_options) : exec (option daemon_options) :=
  match evs with
  | [] => Ret (Some o)
  | BadOpt :: _ => Ret None
  | Opt c arg :: evs' => o' <-? daemon_option o c arg ;; daemon_switch evs' o'
  end.

(** *** What the daemon calls *)

Inductive daemon_call :=
| DMsquicOpen | DMsquicClose
| DPoolCreate | DPoolLaunch | DPoolShutdown | DPoolJoin | DPoolDestroy
| DWheelCreate | DWheelRun | DWheelWaitIdle | DWheelStop | DWheelDestroy
| DKeyCreate | DKeyDestroy
| DManagerCreate | DTickAll | DGossipAll | DManagerDestroy
| DTransportCreate (k : transport_kind)
| DTransportStart (k : transport_kind) (ok : bool)
| DTransportStop (k : transport_kind)
| DTransportDestroy (k : transport_kind).

(** Whether the components start.  [do_dial]: the dial channel is created. *)
Record daemon_outcomes := mkDaemonOutcomes {
  do_msquic : bool;
  do_key : bool;
  do_dial : bool;
  do_create : transport_kind → bool;
  do_start : transport_kind → bool
}.

(** [poseidon_channel_manager_create] fails on an empty range of ports. *)
Definition manager_made (o : daemon_options) (r : daemon_outcomes) : bool :=
  negb (op_range_end o <=? op_range_start o) && do_dial r.

(** The Unix socket needs no certificate. *)
Definition tls_given (c : poseidon_transport_config_t) (k : transport_kind) : bool :=
  match k with
  | UNIX_SOCKET => true
  | _ => bool_decide (is_Some (tc_tls_cert_path c)) && bool_decide (is_Some (tc_tls_key_path c))
  end.

(** The calls, and whether the transport is kept. *)
Definition start_transport (c : poseidon_transport_config_t) (r : daemon_outcomes) (k : transport_kind) : bool * list daemon_call :=
  if negb (bool_decide (k ∈ tc_enabled c)) then (false, [])
  else if negb (tls_given c k) then (false, [])
  else if negb (do_create r k) then (false, [])
  else if do_start r k then (true, [DTransportCreate k; DTransportStart k true])
  else (false, [DTransportCreate k; DTransportStart k false; DTransportDestroy k]).

Definition transports : list transport_kind := [UNIX_SOCKET; TCP; WEBSOCKET; QUIC; WEBTRANSPORT].

Definition stop_transport (c : poseidon_transport_config_t) (r : daemon_outcomes) (k : transport_kind) : list daemon_call :=
  if (start_transport c r k).1 then [DTransportStop k; DTransportDestroy k] else [].

Definition abandon : list daemon_call := [DMsquicClose; DPoolShutdown; DPoolJoin; DPoolDestroy; DWheelDestroy].

(** [rounds] is how often the loop runs before a signal ends it. *)
Definition daemon_run (o : daemon_options) (r : daemon_outcomes) (rounds : nat) : Z * list daemon_call :=
  if negb (do_msquic r) then (1, [])
  else
    let base := [DMsquicOpen; DPoolCreate; DPoolLaunch; DWheelCreate; DWheelRun] in
    if negb (do_key r) then (1, base ++ abandon)
    else if negb (manager_made o r) then (1, base ++ [DKeyCreate; DKeyDestroy] ++ abandon)
    else
      (0, base ++ [DKeyCreate; DManagerCreate]
          ++ concat (map (fun k => (start_transport (op_config o) r k).2) transports)
          ++ concat (replicate rounds [DTickAll; DGossipAll])
          ++ concat (map (stop_transport (op_config o) r) transports)
          ++ [DManagerDestroy; DKeyDestroy; DWheelWaitIdle; DWheelStop; DPoolShutdown; DPoolJoin; DPoolDestroy; DWheelDestroy;
              DMsquicClose]).

Definition daemon_main (args : list (list Z)) (r : daemon_outcomes) (rounds : nat) : exec (Z * list daemon_call) :=
  parsed <- daemon_switch (getopt_long daemon_shorts daemon_longs args) daemon_defaults ;;
  match parsed with
  | None => Ret (1, [])
  | Some o => Ret (if op_help o then (0, []) else daemon_run o r rounds)
  end.
End Poseidond.

(** ** The daemon's account *)

Section daemon_account.
Import Poseidond.

Inductive pool_phase := NoPool | PoolMade | PoolRunning | PoolStopping | PoolJoined.
Inductive wheel_phase := NoWheel | WheelMade | WheelTicking | WheelHalted.

#[export] Instance pool_phase_eq_dec : EqDecision pool_phase.
Proof. solve_decision. Defined.
#[export] Instance wheel_phase_eq_dec : EqDecision wheel_phase.
Proof. solve_decision. Defined.

(** References on msquic, the pool and the key; the wheel holds the pool once
    for each of its five levels, the manager's dial channel holds the key, the QUIC
    transport the library.  A transport is listed with whether its thread runs. *)
Record daemon_state := mkDaemonState {
  ds_library : Z;
  ds_pool : pool_phase;
  ds_pool_refs : Z;
  ds_wheel : wheel_phase;
  ds_key : Z;
  ds_manager : bool;
  ds_transports : list (transport_kind * bool)
}.

Definition nothing : daemon_state := mkDaemonState 0 NoPool 0 NoWheel 0 false [].

Definition pool_after (refs : Z) (p : pool_phase) : pool_phase := if refs =? 0 then NoPool else p.

Definition library_of (k : transport_kind) : Z := if bool_decide (k = QUIC) then 1 else 0.

Definition listed (k : transport_kind) (b : bool) (l : list (transport_kind * bool)) : bool := bool_decide ((k, b) ∈ l).

Definition marked (k : transport_kind) (b : bool) (l : list (transport_kind * bool)) : list (transport_kind * bool) :=
  map (fun p => if bool_decide (p.1 = k) then (k, b) else p) l.

Definition unlisted (k : transport_kind) (l : list (transport_kind * bool)) : list (transport_kind * bool) :=
  List.filter (fun p => negb (bool_decide (p.1 = k))) l.

(** The effect of a call in a state that allows it. *)
Definition daemon_do (s : daemon_state) (call : daemon_call) : option daemon_state :=
  let '(mkDaemonState lib pool refs wheel key mgr ts) := s in
  let when (b : bool) s' := if b then Some s' else None in
  match call with
  | DMsquicOpen => Some (mkDaemonState (lib + 1) pool refs wheel key mgr ts)
  | DMsquicClose => when (0 <? lib) (mkDaemonState (lib - 1) pool refs wheel key mgr ts)
  | DPoolCreate => when (bool_decide (pool = NoPool)) (mkDaemonState lib PoolMade 1 wheel key mgr ts)
  | DPoolLaunch => when (bool_decide (pool = PoolMade)) (mkDaemonState lib PoolRunning refs wheel key mgr ts)
  | DPoolShutdown => when (bool_decide (pool = PoolRunning)) (mkDaemonState lib PoolStopping refs wheel key mgr ts)
  | DPoolJoin => when (bool_decide (pool = PoolStopping)) (mkDaemonState lib PoolJoined refs wheel key mgr ts)
  | DPoolDestroy =>
      when (bool_decide (pool = PoolJoined) && (0 <? refs)) (mkDaemonState lib (pool_after (refs - 1) pool) (refs - 1) wheel key mgr ts)
  | DWheelCreate =>
      when (bool_decide (wheel = NoWheel) && (0 <? refs)) (mkDaemonState lib pool (refs + 5) WheelMade key mgr ts)
  | DWheelRun =>
      when (bool_decide (wheel = WheelMade) && bool_decide (pool = PoolRunning)) (mkDaemonState lib pool refs WheelTicking key mgr ts)
  | DWheelWaitIdle => when (negb (bool_decide (wheel = NoWheel))) s
  | DWheelStop => when (bool_decide (wheel = WheelTicking)) (mkDaemonState lib pool refs WheelHalted key mgr ts)
  | DWheelDestroy =>
      when (negb (bool_decide (wheel = NoWheel)) && (bool_decide (pool = PoolJoined) || bool_decide (wheel = WheelMade)) && negb mgr)
        (mkDaemonState lib (pool_after (refs - 5) pool) (refs - 5) NoWheel key mgr ts)
  | DKeyCreate => Some (mkDaemonState lib pool refs wheel (key + 1) mgr ts)
  | DKeyDestroy => when (0 <? key) (mkDaemonState lib pool refs wheel (key - 1) mgr ts)
  | DManagerCreate =>
      when (negb mgr && (0 <? key) && bool_decide (pool = PoolRunning) && bool_decide (wheel = WheelTicking))
        (mkDaemonState lib pool refs wheel (key + 1) true ts)
  | DTickAll | DGossipAll => when mgr s
  | DManagerDestroy =>
      when (mgr && bool_decide (ts = []) && (0 <? lib) && (0 <? key) && negb (bool_decide (pool = NoPool))
            && negb (bool_decide (wheel = NoWheel))) (mkDaemonState lib pool refs wheel (key - 1) false ts)
  | DTransportCreate k =>
      when (mgr && negb (listed k true ts) && negb (listed k false ts))
        (mkDaemonState (lib + library_of k) pool refs wheel key mgr (ts ++ [(k, false)]))
  | DTransportStart k ok => when (mgr && listed k false ts) (mkDaemonState lib pool refs wheel key mgr (marked k ok ts))
  | DTransportStop k => when (mgr && listed k true ts) (mkDaemonState lib pool refs wheel key mgr (marked k false ts))
  | DTransportDestroy k =>
      when (mgr && listed k false ts) (mkDaemonState (lib - library_of k) pool refs wheel key mgr (unlisted k ts))
  end.

Fixpoint daemon_replay (s : daemon_state) (l : list daemon_call) : option daemon_state :=
  match l with
  | [] => Some s
  | c :: l' => match daemon_do s c with Some s' => daemon_replay s' l' | None => None end
  end.

Lemma daemon_replay_app s l1 l2 :
  daemon_replay s (l1 ++ l2) = match daemon_replay s l1 with Some s' => daemon_replay s' l2 | None => None end.
Proof. revert s. induction l1 as [|c l1 IH]; intros s; cbn; [done|]. destruct (daemon_do s c); [apply IH|done]. Qed.

Definition quic_count (ks : list transport_kind) : Z := foldr (fun k n => library_of k + n) 0 ks.

(** The daemon in its loop, with the transports [ks]. *)
Definition serving (ks : list transport_kind) : daemon_state :=
  mkDaemonState (1 + quic_count ks) PoolRunning 6 WheelTicking 2 true (map (fun k => (k, true)) ks).

Lemma quic_count_app ks k : quic_count (ks ++ [k]) = quic_count ks + library_of k.
Proof. induction ks as [|x ks IH]; cbn [quic_count foldr app]; [lia|]. unfold quic_count in *. lia. Qed.

Lemma marked_other k b ks : k ∉ ks → marked k b (map (fun k => (k, true)) ks) = map (fun k => (k, true)) ks.
Proof.
  intros H. unfold marked. rewrite map_map. apply map_ext_in. intros x Hx. cbn. rewrite bool_decide_false; [done|].
  intros ->. by apply H, list_elem_of_In.
Qed.

Lemma unlisted_other k ks : k ∉ ks → unlisted k (map (fun k => (k, true)) ks) = map (fun k => (k, true)) ks.
Proof.
  induction ks as [|x ks IH]; intros H; [done|]. apply not_elem_of_cons in H as [H1 H2]. unfold unlisted in *. cbn.
  rewrite bool_decide_false by (cbn; congruence). cbn. by rewrite IH.
Qed.

Lemma listed_serving k b ks : k ∉ ks → listed k b (map (fun k => (k, true)) ks) = false.
Proof.
  intros H. apply bool_decide_eq_false. intros Hin. apply list_elem_of_fmap in Hin as (x & [= -> ->] & Hx). done.
Qed.

Lemma start_one c r k ks :
  k ∉ ks →
  daemon_replay (serving ks) (start_transport c r k).2 = Some (serving (if (start_transport c r k).1 then ks ++ [k] else ks)).
Proof.
  intros Hk. unfold start_transport. destruct (negb _); [done|]. destruct (negb _); [done|]. destruct (negb _); [done|].
  assert (H1 : daemon_do (serving ks) (DTransportCreate k) =
    Some (mkDaemonState (1 + quic_count ks + library_of k) PoolRunning 6 WheelTicking 2 true (map (fun k => (k, true)) ks ++ [(k, false)]))).
  { cbn. by rewrite !listed_serving. }
  assert (H2 : listed k false (map (fun k => (k, true)) ks ++ [(k, false)]) = true)
    by (apply bool_decide_eq_true, elem_of_app; right; by left).
  assert (H3 : ∀ b, marked k b (map (fun k => (k, true)) ks ++ [(k, false)]) = map (fun k => (k, true)) ks ++ [(k, b)]).
  { intros b. unfold marked. rewrite map_app. fold (marked k b (map (fun k => (k, true)) ks)). rewrite marked_other by done.
    cbn. by rewrite bool_decide_true. }
  destruct (do_start r k); cbn [snd fst daemon_replay]; rewrite H1; cbn [daemon_do andb]; rewrite H2, H3.
  - unfold serving. rewrite map_app, quic_count_app. cbn [map app]. by rewrite Z.add_assoc.
  - cbn [daemon_replay daemon_do andb]. rewrite H2. unfold unlisted. rewrite List.filter_app.
    fold (unlisted k (map (fun k => (k, true)) ks)). rewrite unlisted_other by done. cbn. rewrite bool_decide_true by done. cbn.
    rewrite app_nil_r. unfold serving. do 2 f_equal. lia.
Qed.

Definition kept (c : poseidon_transport_config_t) (r : daemon_outcomes) (ks : list transport_kind) : list transport_kind :=
  List.filter (fun k => (start_transport c r k).1) ks.

Lemma start_all c r ks pre :
  base.NoDup ks → (∀ k, k ∈ pre → k ∉ ks) →
  daemon_replay (serving pre) (concat (map (fun k => (start_transport c r k).2) ks)) = Some (serving (pre ++ kept c r ks)).
Proof.
  revert pre. induction ks as [|k ks IH]; intros pre Hnd Hpre; cbn [map concat kept List.filter].
  { by rewrite app_nil_r. }
  apply list.NoDup_cons in Hnd as [Hk Hnd]. rewrite daemon_replay_app, start_one by (intros Hin; apply (Hpre k Hin); by left).
  fold (kept c r ks). destruct (start_transport c r k).1.
  - rewrite IH; [by rewrite <- app_assoc|done|]. intros x [Hx| ->%list_elem_of_singleton]%elem_of_app; [|done].
    intros Hin. apply (Hpre x Hx). by right.
  - apply IH; [done|]. intros x Hx Hin. apply (Hpre x Hx). by right.
Qed.

Lemma stop_one k ks : k ∉ ks → daemon_replay (serving (k :: ks)) [DTransportStop k; DTransportDestroy k] = Some (serving ks).
Proof.
  intros Hk. unfold serving. cbn [daemon_replay daemon_do map andb].
  assert (H1 : listed k true ((k, true) :: map (fun k => (k, true)) ks) = true) by (apply bool_decide_eq_true; by left).
  assert (H2 : marked k false ((k, true) :: map (fun k => (k, true)) ks) = (k, false) :: map (fun k => (k, true)) ks).
  { cbn [marked map]. rewrite bool_decide_true by done. f_equal. by apply marked_other. }
  rewrite H1, H2. cbn [daemon_do andb].
  assert (H3 : listed k false ((k, false) :: map (fun k => (k, true)) ks) = true) by (apply bool_decide_eq_true; by left).
  rewrite H3. cbn [unlisted List.filter fst]. rewrite bool_decide_true by done. cbn [negb].
  fold (unlisted k (map (fun k => (k, true)) ks)). rewrite unlisted_other by done. do 2 f_equal. cbn. unfold quic_count. lia.
Qed.

Lemma stop_all c r ks :
  base.NoDup ks → daemon_replay (serving (kept c r ks)) (concat (map (stop_transport c r) ks)) = Some (serving []).
Proof.
  induction ks as [|k ks IH]; intros Hnd; cbn [map concat kept List.filter]; [done|].
  apply list.NoDup_cons in Hnd as [Hk Hnd]. unfold stop_transport at 1. rewrite daemon_replay_app. fold (kept c r ks).
  destruct (start_transport c r k).1; [|by apply IH]. rewrite stop_one; [by apply IH|].
  intros Hin. apply Hk. apply list_elem_of_In in Hin. apply List.filter_In in Hin as [Hin _]. by apply list_elem_of_In.
Qed.

Lemma loop_all ks rounds : daemon_replay (serving ks) (concat (replicate rounds [DTickAll; DGossipAll])) = Some (serving ks).
Proof. induction rounds as [|n IH]; cbn; [done|exact IH]. Qed.
End daemon_account.

(** C38. The daemon starts and stops its components in an order they allow,
    whatever the command line, whichever of them fail to start and however long it
    runs: no thread runs on a pool that is destroyed, the wheel does not tick when
    it is destroyed, the manager outlives the transports, and when the process
    exits, on every path, every component it created is released. *)
Theorem daemon_releases args r rounds :
  match Poseidond.daemon_main args r rounds with
  | Ret (_, calls) => daemon_replay nothing calls = Some nothing
  | Trap => Poseidond.daemon_switch (getopt_long Poseidond.daemon_shorts Poseidond.daemon_longs args) Poseidond.daemon_defaults = Trap
  end.
Proof.
  unfold Poseidond.daemon_main. destruct (Poseidond.daemon_switch _ _) as [[o|]|]; cbn [xbind]; [|done|done].
  destruct (Poseidond.op_help o); [done|]. unfold Poseidond.daemon_run.
  destruct (Poseidond.do_msquic r); [|done]. destruct (Poseidond.do_key r); [|done].
  destruct (Poseidond.manager_made o r); [|done]. cbn [negb].
  match goal with |- daemon_replay nothing (_ ++ _ ++ ?rest) = _ => change (daemon_replay (serving []) rest = Some nothing) end.
  assert (Hnd : base.NoDup Poseidond.transports) by (unfold Poseidond.transports; repeat constructor; set_solver).
  rewrite daemon_replay_app, start_all by (done || (intros k Hk; by apply elem_of_nil in Hk)). cbn [app].
  by rewrite daemon_replay_app, loop_all, daemon_replay_app, stop_all.
Qed.

(** A port on the command line is cut to sixteen bits without a word. *)
Example port_option_wraps :
  Poseidond.daemon_switch (getopt_long Poseidond.daemon_shorts Poseidond.daemon_longs [lit "--dial-port=70000"]) Poseidond.daemon_defaults
  = Ret (Some (Poseidond.mkOptions Poseidond.poseidon_transport_config_defaults 4464 8001 8100 false)).
Proof. vm_compute. reflexivity. Qed.

(** The relay server is always created without a certificate: no option names
    one. *)
Lemma relay_has_no_certificate opts :
  credential_files (sc_tls_key_path (RelayMain.relay_config opts)) (sc_tls_cert_path (RelayMain.relay_config opts)) = None.
Proof. done. Qed.
