(* ===== verification/QuasarSpec.v ===== *)
(** * QuasarSpec: what the overlay node promises

    Theorems about the handlers of [Quasar]: each message is processed at most
    once, a subscriber's node delivers and re-publishes it, the hop budget and
    the fan-out bound forwarding, the directed walk takes the nearest level,
    the random walk never revisits, subscriptions expire on time, and gossip
    makes a subscription visible to neighbours. *)

From stdpp Require Import relations.
From S2P Require Import Prelude Bitset Bloom ElasticBloom ElasticBloomSpec AttenuatedBloom Cbor BloomCodec Endian.
From S2P Require Import MessageId Node Route Ring Protocol Quasar.

(** ** Invariant *)

(** A filter all of whose levels are well formed; unlike [abf_wf] it may have
    no level. *)
Definition abf_ok (f : attenuated_bloom_filter_t) : Prop :=
  zlen (abf_levels f) = abf_level_count f ∧ Forall ebf_wf (abf_levels f).

Definition nf_wf (nf : quasar_neighbor_filter_t) : Prop :=
  is_u32 (nf_addr nf) ∧ is_u16 (nf_port nf) ∧ abf_ok (nf_filter nf).

Definition peer_wf (o : option meridian_node_t) : Prop :=
  match o with Some n => node_wf n | None => True end.

Record quasar_wf (q : quasar_t) : Prop := {
  q_wf_routing : abf_wf (q_routing q);
  q_wf_seen : bloom_wf (q_seen q);
  q_wf_neighbors : Forall nf_wf (q_neighbor_filters q);
  q_wf_nodup : base.NoDup (map (fun nf => (nf_addr nf, nf_port nf)) (q_neighbor_filters q));
  q_wf_hops : is_u32 (q_max_hops q);
  q_wf_alpha : is_u32 (q_alpha q);
  q_wf_protocol : ∀ p, q_protocol q = Some p →
    is_u32 (mp_local_s_addr p) ∧ Forall (fun s => peer_wf (peer_node s)) (mp_peers p)
}.

Lemma quasar_seen_wf q s : quasar_wf q → bloom_wf s → quasar_wf (q_with_seen q s).
Proof. intros [] Hs. by split. Qed.

Lemma ntohs_range x : is_u16 (ntohs x).
Proof.
  unfold ntohs. pose proof (le_decode_range (be_bytes 2 x) (be_bytes_ok 2 x)) as H.
  unfold zlen in H. by rewrite be_bytes_length in H.
Qed.

Lemma local_node_wf q rc addr port :
  quasar_wf q → meridian_protocol_get_local_node (q_protocol q) = (rc, (addr, port)) →
  node_wf (meridian_node_create_unidentified addr port).
Proof.
  intros Hwf. unfold meridian_protocol_get_local_node. destruct (q_protocol q) as [p|] eqn:E.
  - destruct (q_wf_protocol q Hwf p E) as [Ha _]. destruct (mp_running p); simpl; intros [= <- <- <-].
    + split; [done|apply ntohs_range].
    + by split.
  - intros [= <- <- <-]. by split.
Qed.

Lemma peers_wf q p :
  quasar_wf q → q_protocol q = Some p → Forall peer_wf (meridian_protocol_get_connected_peers p).
Proof. intros Hwf E. destruct (q_wf_protocol q Hwf p E) as [_ H]. by apply Forall_map. Qed.

(** ** The set of processed messages only grows *)

Section seen.
Context (XXH3 : list Z → Z → Z).
Abbreviation has := (bloom_filter_contains_nn XXH3).

Definition seen_le (q q' : quasar_t) : Prop :=
  bloom_wf (q_seen q) →
  bloom_wf (q_seen q') ∧ ∀ k, has (q_seen q) k = Ret true → has (q_seen q') k = Ret true.

#[export] Instance seen_le_preorder : PreOrder seen_le.
Proof.
  split; [by intros q|]. intros q1 q2 q3 H12 H23 H1. destruct (H12 H1) as [H2 Hk2].
  destruct (H23 H2) as [H3 Hk3]. auto.
Qed.

Lemma seen_le_eq q q' : q_seen q' = q_seen q → seen_le q q'.
Proof. unfold seen_le. by intros ->. Qed.

Lemma seen_add_le q id q' : seen_add XXH3 q id = Ret q' → seen_le q q'.
Proof.
  unfold seen_add, seen_le. intros H Hwf.
  destruct (mf_add_spec (MembershipFilter := bloom_membership XXH3) (q_seen q) (id_memory id) Hwf)
    as (s & E & Hs & _ & Hmono).
  simpl in E. rewrite E in H. injection H as <-. done.
Qed.

Lemma seen_add_spec q id :
  bloom_wf (q_seen q) →
  ∃ s, seen_add XXH3 q id = Ret (q_with_seen q s) ∧ bloom_wf s ∧ has s (id_memory id) = Ret true.
Proof.
  intros Hwf. destruct (mf_add_spec (MembershipFilter := bloom_membership XXH3) (q_seen q) (id_memory id) Hwf)
    as (s & E & Hs & Hhas & _).
  exists s. unfold seen_add. simpl in E. rewrite E. done.
Qed.
End seen.

(** ** Sending *)

Section sending.
Context (XXH3 : list Z → Z → Z) (DatagramSend : Z → list Z → bool).

(** The event of handing message [m] to the transport for [target]. *)
Definition route_event (protocol : option meridian_protocol_t) (m : quasar_route_message_t)
    (target : option meridian_node_t) : qevent :=
  QSend target (concat (route_fields m))
    (meridian_protocol_send_packet DatagramSend protocol (concat (route_fields m)) target).1.

Lemma send_route_ok protocol m target w :
  route_wf m → route_small m →
  send_route DatagramSend protocol m target w = Ret (w_emit w (route_event protocol m target)).
Proof. intros Hwf Hs. unfold send_route. by rewrite route_serialize_ok by done. Qed.

Lemma send_all_ok protocol m peers w :
  route_wf m → route_small m →
  send_all DatagramSend protocol m peers w =
  Ret (mkWorld (w_ids w) (w_log w ++ map (route_event protocol m) peers)).
Proof.
  intros Hwf Hs. revert w. induction peers as [|p peers IH]; intros w; simpl.
  - rewrite app_nil_r. by destruct w.
  - rewrite send_route_ok by done. simpl. rewrite IH. simpl. by rewrite <- (assoc_L (++)).
Qed.

Lemma rm_with_visited_small m v : route_small m → route_small (rm_with_visited m v).
Proof. done. Qed.

(** What the random walk has done: [walk_targets] are the peers it chose,
    with the message sent to each. *)
Record walk_result (protocol : option meridian_protocol_t) (limit : Z) (peers : list (option meridian_node_t))
    (m : quasar_route_message_t) (w : world) (m' : quasar_route_message_t) (w' : world)
    (walk_targets : list (option meridian_node_t * quasar_route_message_t)) : Prop := {
  walk_log : w_log w' = w_log w ++ map (fun t => route_event protocol t.2 t.1) walk_targets;
  walk_ids : w_ids w' = w_ids w;
  walk_limit : zlen walk_targets <= limit;
  walk_sub : (map fst walk_targets) `sublist_of` peers;
  walk_fresh : ∀ t, t ∈ walk_targets → quasar_route_message_has_visited XXH3 m t.1 = Ret false;
  walk_same : ∀ t, t ∈ walk_targets →
    route_wf t.2 ∧ rm_id t.2 = rm_id m ∧ rm_topic t.2 = rm_topic m ∧ rm_data t.2 = rm_data m ∧
    rm_hops_remaining t.2 = rm_hops_remaining m ∧ rm_pub_count t.2 = rm_pub_count m;
  walk_distinct : base.NoDup (omap (fun t => (fun n => (node_addr n, node_port n)) <$> t.1) walk_targets);
  walk_exhausts : zlen walk_targets < limit →
    ∀ n, Some n ∈ peers → quasar_route_message_has_visited XXH3 m' (Some n) = Ret true;
  walk_wf : route_wf m' ∧ route_small m'
}.

Lemma walk_nil protocol limit peers m w :
  route_wf m → route_small m → 0 <= limit →
  (0 < limit → ∀ n, Some n ∈ peers → quasar_route_message_has_visited XXH3 m (Some n) = Ret true) →
  walk_result protocol limit peers m w m w [].
Proof.
  intros Hwf Hs Hl Hex. split; simpl; try done.
  - by rewrite app_nil_r.
  - apply sublist_nil_l.
  - intros t Ht. by apply elem_of_nil in Ht.
  - intros t Ht. by apply elem_of_nil in Ht.
  - constructor.
Qed.

(** A peer that is skipped because it was visited. *)
Lemma walk_skip protocol limit peer peers m w m' w' ts :
  quasar_route_message_has_visited XXH3 m peer = Ret true →
  (∀ n, quasar_route_message_has_visited XXH3 m n = Ret true →
        quasar_route_message_has_visited XXH3 m' n = Ret true) →
  walk_result protocol limit peers m w m' w' ts →
  walk_result protocol limit (peer :: peers) m w m' w' ts.
Proof.
  intros Hv Hmono []. split; try done.
  - by apply sublist_cons.
  - intros Hlt n [<-|Hn]%elem_of_cons; auto.
Qed.

(** A peer that is sent to. *)
Lemma walk_take protocol limit peer peers m m1 w m' w' ts :
  route_wf m →
  quasar_route_message_has_visited XXH3 m peer = Ret false →
  m1 = rm_with_visited m (rm_visited m1) →
  (∀ n, quasar_route_message_has_visited XXH3 m n = Ret true →
        quasar_route_message_has_visited XXH3 m1 n = Ret true) →
  (∀ n, peer = Some n → quasar_route_message_has_visited XXH3 m1 (Some n) = Ret true) →
  (∀ n, quasar_route_message_has_visited XXH3 m1 n = Ret true →
        quasar_route_message_has_visited XXH3 m' n = Ret true) →
  walk_result protocol limit peers m1 (w_emit w (route_event protocol m peer)) m' w' ts →
  walk_result protocol (limit + 1) (peer :: peers) m w m' w' ((peer, m) :: ts).
Proof.
  intros Hwf Hv Hm1 Hmono Hself Hmono' [Hlog Hids Hlim Hsub Hfresh Hsame Hdist Hex Hw].
  assert (Hback : ∀ t, t ∈ ts → quasar_route_message_has_visited XXH3 m t.1 = Ret false).
  { intros t Ht. destruct (route_has_visited_total XXH3 m t.1 Hwf) as [[|] E]; [|done].
    apply Hmono in E. rewrite (Hfresh t Ht) in E. done. }
  split.
  - rewrite Hlog. simpl. by rewrite <- (assoc_L (++)).
  - done.
  - unfold zlen in *. simpl. lia.
  - simpl. by apply sublist_skip.
  - intros t [->|Ht]%elem_of_cons; [done|by apply Hback].
  - intros t [->|Ht]%elem_of_cons; [done|]. rewrite Hm1 in Hsame. by apply Hsame.
  - simpl. destruct peer as [n|]; simpl; [|done]. apply list.NoDup_cons. split; [|done].
    intros Hin. apply list_elem_of_omap in Hin as ([[n'|] mt] & Ht & E); [|done].
    simpl in E. injection E as Ea Ep. specialize (Hfresh _ Ht). specialize (Hself n eq_refl).
    simpl in Hfresh, Hself. rewrite Ea, Ep in Hfresh. congruence.
  - intros Hlt n [<-|Hn]%elem_of_cons; [by auto|]. apply Hex; [|done]. unfold zlen in *. simpl in Hlt. lia.
  - done.
Qed.

Lemma random_walk_spec protocol alpha peers sent m w :
  route_wf m → route_small m → is_u32 alpha → 0 <= sent <= alpha →
  ∃ m' w' ts, random_walk XXH3 DatagramSend protocol alpha peers sent m w = Ret (m', w') ∧
    walk_result protocol (alpha - sent) peers m w m' w' ts ∧
    m' = rm_with_visited m (rm_visited m') ∧
    (∀ n, quasar_route_message_has_visited XXH3 m n = Ret true →
          quasar_route_message_has_visited XXH3 m' n = Ret true).
Proof.
  intros Hwf Hs Ha. revert sent m w Hwf Hs. induction peers as [|peer peers IH]; intros sent m w Hwf Hs Hsent; simpl.
  - exists m, w, []. split_and!; [done| |by destruct m|done]. apply walk_nil; [done|done|lia|].
    intros _ n Hn. by apply elem_of_nil in Hn.
  - destruct (Z.leb_spec alpha sent).
    { exists m, w, []. split_and!; [done| |by destruct m|done]. apply walk_nil; [done|done|lia|lia]. }
    destruct (route_has_visited_total XXH3 m peer Hwf) as [b Eb]. rewrite Eb. simpl. destruct b.
    + destruct (IH sent m w Hwf Hs Hsent) as (m' & w' & ts & E & Hw & Hm & Hmono).
      exists m', w', ts. split_and!; [done|by apply walk_skip|done|done].
    + rewrite send_route_ok by done. cbn [xbind].
      rewrite u32_id by (unfold is_u32 in *; lia).
      assert (∃ rc m1, quasar_route_message_add_visited XXH3 m peer = Ret (rc, m1) ∧ route_wf m1 ∧
        m1 = rm_with_visited m (rm_visited m1) ∧
        (∀ n, quasar_route_message_has_visited XXH3 m n = Ret true →
              quasar_route_message_has_visited XXH3 m1 n = Ret true) ∧
        (∀ n, peer = Some n → quasar_route_message_has_visited XXH3 m1 (Some n) = Ret true))
        as (rc & m1 & E1 & Hwf1 & Hm1 & Hmono1 & Hself).
      { destruct peer as [n|].
        - destruct (route_add_visited_spec XXH3 m n Hwf) as (m1 & E1 & ? & ? & ? & ?).
          exists 0, m1. split_and!; [done..|]. by intros n' [= <-].
        - exists (-1), m. split_and!; [done|done|by destruct m|done|done]. }
      rewrite E1. cbn [xbind].
      destruct (IH (sent + 1) m1 (w_emit w (route_event protocol m peer)) Hwf1)
        as (m' & w' & ts & E & Hw & Hm & Hmono); [by rewrite Hm1|lia|].
      exists m', w', ((peer, m) :: ts). split_and!; [done| | |auto].
      * replace (alpha - sent) with (alpha - (sent + 1) + 1) by lia. by eapply walk_take.
      * rewrite Hm, Hm1. done.
Qed.
End sending.

(** ** Directed walk *)

Section directed.
Context (XXH3 : list Z → Z → Z) (topic : list Z) (keys : list (list Z)).

(** The neighbour knows the topic at this level, and the level recognises
    none of the publishers. *)
Definition directed_match (level : Z) (nf : quasar_neighbor_filter_t) : Prop :=
  ∃ ebf, attenuated_bloom_filter_get_level (Some (nf_filter nf)) level = Some ebf ∧
    elastic_bloom_filter_contains_nn XXH3 ebf topic = Ret true ∧
    ∀ k, k ∈ keys → elastic_bloom_filter_contains_nn XXH3 ebf k = Ret false.

Lemma any_contains_spec ebf :
  ebf_wf ebf →
  ∃ b, any_contains XXH3 ebf keys = Ret b ∧
    (b = false ↔ ∀ k, k ∈ keys → elastic_bloom_filter_contains_nn XXH3 ebf k = Ret false).
Proof.
  intros Hwf. induction keys as [|k ks IH]; simpl.
  - exists false. split; [done|]. split; [|done]. intros _ k Hk. by apply elem_of_nil in Hk.
  - destruct (ebf_contains_total XXH3 ebf k Hwf) as [b Eb]. rewrite Eb. simpl. destruct b.
    + exists true. split; [done|]. split; [done|]. intros H.
      specialize (H k ltac:(by left)). congruence.
    + destruct IH as (b & E & Hb). exists b. split; [done|]. rewrite Hb. split.
      * intros H k' [->|Hk]%elem_of_cons; auto.
      * intros H k' Hk. apply H. by right.
Qed.

Lemma get_level_wf f level ebf :
  abf_ok f → attenuated_bloom_filter_get_level (Some f) level = Some ebf → ebf_wf ebf.
Proof.
  intros [_ Hl]. simpl. destruct (_ <=? _); [done|]. intros H. exact (Forall_lookup_1 _ _ _ _ Hl H).
Qed.

Lemma directed_neighbor_spec level nfs :
  Forall nf_wf nfs →
  ∃ r, directed_neighbor XXH3 level nfs topic keys = Ret r ∧
    match r with
    | Some nf => nf ∈ nfs ∧ directed_match level nf
    | None => ∀ nf, nf ∈ nfs → ¬ directed_match level nf
    end.
Proof.
  induction nfs as [|nf nfs IH]; intros Hwf; simpl.
  - exists None. split; [done|]. intros nf Hnf. by apply elem_of_nil in Hnf.
  - apply Forall_cons_1 in Hwf as [(_ & _ & Hf) Hwf]. destruct (IH Hwf) as (r & Er & Hr).
    assert (Hrest : ¬ directed_match level nf →
      ∃ r, directed_neighbor XXH3 level nfs topic keys = Ret r ∧
      match r with
      | Some nf' => nf' ∈ nf :: nfs ∧ directed_match level nf'
      | None => ∀ nf', nf' ∈ nf :: nfs → ¬ directed_match level nf'
      end).
    { intros Hno. exists r. split; [done|]. destruct r as [nf'|].
      - destruct Hr. split; [by right|done].
      - intros nf' [->|H]%elem_of_cons; auto. }
    destruct (abf_level_count (nf_filter nf) <=? level) eqn:El.
    { apply Hrest. intros (ebf & E & _). simpl in E. by rewrite El in E. }
    destruct (abf_levels (nf_filter nf) !! Z.to_nat level) as [ebf|] eqn:Eebf.
    2: { apply Hrest. intros (e & E & _). simpl in E. rewrite El, Eebf in E. done. }
    assert (Hget : attenuated_bloom_filter_get_level (Some (nf_filter nf)) level = Some ebf)
      by (simpl; by rewrite El).
    pose proof (get_level_wf _ _ _ Hf Hget) as Hebf.
    destruct (ebf_contains_total XXH3 ebf topic Hebf) as [b Eb]. rewrite Eb. simpl.
    destruct b; simpl.
    + destruct (any_contains_spec ebf Hebf) as (neg & En & Hneg). rewrite En. simpl. destruct neg.
      * apply Hrest. intros (e & E & _ & Hk). rewrite Hget in E. injection E as <-.
        apply Hneg in Hk. done.
      * exists (Some nf). split; [done|]. split; [by left|]. exists ebf. split_and!; [done|done|by apply Hneg].
    + apply Hrest. intros (e & E & Ht & _). rewrite Hget in E. injection E as <-. congruence.
Qed.

(** The walk takes the lowest level at which some neighbour matches. *)
Lemma directed_level_spec n lo nfs :
  Forall nf_wf nfs →
  ∃ r, directed_level XXH3 n lo nfs topic keys = Ret r ∧
    match r with
    | Some nf => ∃ level, lo <= level < lo + Z.of_nat n ∧ nf ∈ nfs ∧ directed_match level nf ∧
                 ∀ l nf', lo <= l < level → nf' ∈ nfs → ¬ directed_match l nf'
    | None => ∀ l nf, lo <= l < lo + Z.of_nat n → nf ∈ nfs → ¬ directed_match l nf
    end.
Proof.
  intros Hwf. revert lo. induction n as [|n IH]; intros lo; cbn [directed_level].
  - exists None. split; [done|]. intros l nf Hl. lia.
  - destruct (directed_neighbor_spec lo nfs Hwf) as (r & E & Hr). rewrite E, bind_Ret_l. destruct r as [nf|].
    + exists (Some nf). split; [done|]. destruct Hr. exists lo. split_and!; [lia|lia|done|done|]. lia.
    + destruct (IH (lo + 1)) as (r & E' & Hr'). exists r. split; [done|]. destruct r as [nf|].
      * destruct Hr' as (level & Hl & Hin & Hm & Hmin). exists level. split_and!; [lia|lia|done|done|].
        intros l nf' Hl' Hin'. destruct (decide (l = lo)) as [->|]; [by apply Hr|]. apply Hmin; [lia|done].
      * intros l nf Hl Hin. destruct (decide (l = lo)) as [->|]; [by apply Hr|]. apply Hr'; [lia|done].
Qed.
End directed.

(** The nearest neighbour the directed walk of [q] would take, if any. *)
Definition nearest (XXH3 : list Z → Z → Z) (q : quasar_t) (topic : list Z) (keys : list (list Z))
    (r : option quasar_neighbor_filter_t) : Prop :=
  match r with
  | Some nf => ∃ level, 0 <= level < abf_level_count (q_routing q) ∧ nf ∈ q_neighbor_filters q ∧
      directed_match XXH3 topic keys level nf ∧
      ∀ l nf', 0 <= l < level → nf' ∈ q_neighbor_filters q → ¬ directed_match XXH3 topic keys l nf'
  | None => ∀ l nf, 0 <= l < abf_level_count (q_routing q) → nf ∈ q_neighbor_filters q →
      ¬ directed_match XXH3 topic keys l nf
  end.

Lemma directed_walk_spec XXH3 q topic keys :
  quasar_wf q → ∃ r, directed_walk XXH3 q topic keys = Ret r ∧ nearest XXH3 q topic keys r.
Proof.
  intros Hwf. destruct (directed_level_spec XXH3 topic keys (Z.to_nat (abf_level_count (q_routing q))) 0
    (q_neighbor_filters q)) as (r & E & Hr); [apply Hwf|].
  pose proof (abf_wf_pos _ (q_wf_routing q Hwf)).
  rewrite Z.add_0_l, Z2Nat.id in Hr by lia. exists r. split; [exact E|]. destruct r; exact Hr.
Qed.

(** ** Histories of one node *)

Section steps.
Context (XXH3 : list Z → Z → Z) (clock : Z → Z * Z) (DatagramSend : Z → list Z → bool).
Context (cbor_load : list Z → option cbor_item) (cbor_serialize_alloc : cbor_item → list Z).
Abbreviation on_route := (quasar_on_route_message XXH3 DatagramSend).
Abbreviation publish := (quasar_publish XXH3 clock DatagramSend).

Inductive quasar_step : quasar_t * world → quasar_t * world → Prop :=
| qstep_subscribe q w t ttl rc q' :
    quasar_subscribe XXH3 q t ttl = Ret (rc, q') → quasar_step (q, w) (q', w)
| qstep_unsubscribe q w t rc q' :
    quasar_unsubscribe XXH3 q t = Ret (rc, q') → quasar_step (q, w) (q', w)
| qstep_publish q w t d rc q' w' :
    publish q t d w = Ret (rc, q', w') → quasar_step (q, w) (q', w')
| qstep_route q w m rc q' m' w' :
    on_route q m w = Ret (rc, q', m', w') → quasar_step (q, w) (q', w')
| qstep_gossip q w d from rc q' :
    quasar_on_gossip cbor_load q d from = Ret (rc, q') → quasar_step (q, w) (q', w)
| qstep_propagate q w rc w' :
    quasar_propagate DatagramSend cbor_serialize_alloc q w = Ret (rc, w') → quasar_step (q, w) (q, w')
| qstep_tick q w rc q' :
    quasar_tick XXH3 q = Ret (rc, q') → quasar_step (q, w) (q', w)
| qstep_neighbor q w n :
    quasar_step (q, w) ((quasar_get_or_create_neighbor_filter q n).2, w)
| qstep_forget q w n :
    quasar_step (q, w) ((quasar_remove_neighbor_filter q n).2, w)
| qstep_callback q w cb :
    quasar_step (q, w) (quasar_set_message_callback q cb, w).

Lemma publish_to_seen q t d local target w q' w' :
  publish_to XXH3 clock DatagramSend q t d local target w = Ret (q', w') → seen_le XXH3 q q'.
Proof.
  unfold publish_to. destruct (quasar_route_message_create _ _ _ _ _ _ _) as [[m|] g].
  - intros H. apply bind_ret in H as (q1 & E1 & H). apply bind_ret in H as ([rc1 m1] & _ & H).
    apply bind_ret in H as ([rc2 m2] & _ & H). apply bind_ret in H as (w2 & _ & [= <- <-]).
    by eapply seen_add_le.
  - by intros [= <- <-].
Qed.

Lemma republish_seen q t d local peers w q' w' :
  republish XXH3 clock DatagramSend q t d local peers w = Ret (q', w') → seen_le XXH3 q q'.
Proof.
  revert q w. induction peers as [|p peers IH]; intros q w H; simpl in H; [by injection H as <- <-|].
  apply bind_ret in H as ([q1 w1] & E & H). etrans; [by eapply publish_to_seen|by eapply IH].
Qed.

Lemma publish_random_seen q t d w rc q' w' :
  publish_random XXH3 clock DatagramSend q t d w = Ret (rc, q', w') → seen_le XXH3 q q'.
Proof.
  unfold publish_random. destruct (quasar_route_message_create _ _ _ _ _ _ _) as [[m|] g];
    [|by intros [= <- <- <-]].
  intros H. apply bind_ret in H as (q1 & E1 & H). apply seen_add_le in E1.
  destruct (q_protocol q) as [p|]; [|by injection H as <- <- <-].
  destruct (meridian_protocol_get_local_node _) as [rc' [a po]].
  apply bind_ret in H as ([rc1 m1] & _ & H). apply bind_ret in H as ([rc2 m2] & _ & H).
  apply bind_ret in H as ([m3 w3] & _ & H). by injection H as <- <- <-.
Qed.

Lemma quasar_step_seen c c' : quasar_step c c' → seen_le XXH3 c.1 c'.1.
Proof.
  intros [q w t ttl rc q' H|q w t rc q' H|q w t d rc q' w' H|q w m rc q' m' w' H|q w d from rc q' H
         |q w rc w' H|q w rc q' H|q w n|q w n|q w cb]; simpl.
  - apply seen_le_eq. unfold quasar_subscribe in H. destruct t; [|by injection H as <- <-].
    apply bind_ret in H as (r & _ & H). destruct (q_protocol q) as [p|]; [|by injection H as <- <-].
    destruct (meridian_protocol_get_local_node (Some p)) as [rc' [a po]].
    destruct (_ || _); [|by injection H as <- <-].
    destruct (attenuated_bloom_filter_get_level _ _); [|by injection H as <- <-].
    by apply bind_ret in H as (? & _ & [= <- <-]).
  - apply seen_le_eq. unfold quasar_unsubscribe in H. destruct t; [|by injection H as <- <-].
    by apply bind_ret in H as (r & _ & [= <- <-]).
  - unfold quasar_publish in H. destruct t as [t|]; [|by injection H as <- <- <-].
    destruct (meridian_protocol_get_local_node _) as [rc' [a po]]. destruct (locally_subscribed q t).
    + destruct (q_protocol q) as [p|]; [|by injection H as <- <- <-].
      apply bind_ret in H as ([q1 w1] & E & [= <- <- <-]). by eapply republish_seen.
    + destruct (q_protocol q) as [p|]; [|by eapply publish_random_seen].
      apply bind_ret in H as ([nf|] & _ & H); [|by eapply publish_random_seen].
      apply bind_ret in H as ([q1 w1] & E & [= <- <- <-]). by eapply publish_to_seen.
  - unfold quasar_on_route_message in H. destruct m as [m|]; [|by injection H as <- <- <- <-].
    apply bind_ret in H as (dup & _ & H). destruct dup; [by injection H as <- <- <- <-|].
    apply bind_ret in H as (q1 & E1 & H). apply seen_add_le in E1.
    destruct (meridian_protocol_get_local_node _) as [rc' [a po]].
    apply bind_ret in H as ([rc1 m1] & _ & H). destruct (locally_subscribed q (rm_topic m)).
    + apply bind_ret in H as ([rc2 m2] & _ & H).
      destruct (q_protocol q); [apply bind_ret in H as (w2 & _ & H)|]; by injection H as <- <- <- <-.
    + destruct (_ =? 0); [by injection H as <- <- <- <-|].
      apply bind_ret in H as ([nf|] & _ & H); [apply bind_ret in H as (w2 & _ & H); by injection H as <- <- <- <-|].
      destruct (q_protocol q); [apply bind_ret in H as ([m3 w2] & _ & H)|]; by injection H as <- <- <- <-.
  - apply seen_le_eq. unfold quasar_on_gossip in H.
    repeat match type of H with
    | (match ?x with _ => _ end) = _ => destruct x eqn:?; try (by injection H as <- <-)
    | xbind _ _ = _ => apply bind_ret in H as (? & _ & H)
    end.
    all: by injection H as <- <-.
  - done.
  - apply seen_le_eq. unfold quasar_tick in H. by apply bind_ret in H as ([r subs] & _ & [= <- <-]).
  - apply seen_le_eq. destruct n as [n|]; simpl; [|done]. by destruct (find_neighbor _ _ _).
  - apply seen_le_eq. destruct n as [n|]; simpl; [|done]. by destruct (remove_neighbor _ _ _).
  - by apply seen_le_eq.
Qed.

Lemma quasar_steps_seen c c' : rtc quasar_step c c' → seen_le XXH3 c.1 c'.1.
Proof.
  induction 1 as [|c1 c2 c3 Hs _ IH]; [done|]. etrans; [by apply quasar_step_seen|done].
Qed.

(** Processing a message records it. *)
Lemma on_route_records q m w rc q' m' w' :
  bloom_wf (q_seen q) → on_route q (Some m) w = Ret (rc, q', m', w') →
  bloom_wf (q_seen q') ∧ bloom_filter_contains_nn XXH3 (q_seen q') (id_memory (rm_id m)) = Ret true.
Proof.
  intros Hwf H. assert (Hle : seen_le XXH3 q q').
  { apply (quasar_step_seen (q, w) (q', w')). by eapply qstep_route. }
  split; [by apply Hle|].
  unfold quasar_on_route_message in H. apply bind_ret in H as (dup & Edup & H). destruct dup.
  { by injection H as <- <- <- <-. }
  destruct (seen_add_spec XXH3 q (rm_id m) Hwf) as (s & Es & _ & Hs). rewrite Es in H. simpl in H.
  destruct (meridian_protocol_get_local_node _) as [rc' [a po]].
  apply bind_ret in H as ([rc1 m1] & _ & H). destruct (locally_subscribed q (rm_topic m)).
  - apply bind_ret in H as ([rc2 m2] & _ & H).
    destruct (q_protocol q); [apply bind_ret in H as (w2 & _ & H)|]; by injection H as <- <- <- <-.
  - destruct (_ =? 0); [by injection H as <- <- <- <-|].
    apply bind_ret in H as ([nf|] & _ & H); [apply bind_ret in H as (w2 & _ & H); by injection H as <- <- <- <-|].
    destruct (q_protocol q); [apply bind_ret in H as ([m3 w2] & _ & H)|]; by injection H as <- <- <- <-.
Qed.
End steps.

(** ** Handling of a fresh message *)

(** The local node as the routing layer sees it, and the peers it sends to. *)
Definition local_of (q : quasar_t) : meridian_node_t :=
  let '(_, (addr, port)) := meridian_protocol_get_local_node (q_protocol q) in
  meridian_node_create_unidentified addr port.

Definition peers_of (q : quasar_t) : list (option meridian_node_t) :=
  match q_protocol q with Some p => meridian_protocol_get_connected_peers p | None => [] end.

(** A received message that this node can process: well formed and far from
    the limits of the publisher array. *)
Definition route_ready (m : quasar_route_message_t) : Prop :=
  route_wf m ∧ route_small m ∧ rm_pub_count m < 2 ^ 30 ∧ rm_pub_capacity m < 2 ^ 30.

Lemma route_accepted_ready m : route_accepted m → 0 < bf_size (rm_visited m) → rm_pub_capacity m < 2 ^ 30 → route_ready m.
Proof.
  intros [Hf Hwf] Hs Hc. split_and!; [by apply Hwf|by apply route_fits_small| |done].
  destruct Hf as (_ & _ & H). unfold MERIDIAN_MAX_NODES in H. lia.
Qed.

Section receiving.
Context (XXH3 : list Z → Z → Z) (clock : Z → Z * Z) (DatagramSend : Z → list Z → bool).
Abbreviation on_route := (quasar_on_route_message XXH3 DatagramSend).
Abbreviation visited := (quasar_route_message_has_visited XXH3).
Abbreviation event := (route_event DatagramSend).

Context (q : quasar_t) (m : quasar_route_message_t) (w : world).
Context (Hq : quasar_wf q) (Hm : route_ready m).
Context (Hnew : bloom_filter_contains_nn XXH3 (q_seen q) (id_memory (rm_id m)) = Ret false).

Lemma local_of_wf : node_wf (local_of q).
Proof.
  unfold local_of. destruct (meridian_protocol_get_local_node (q_protocol q)) as [rc [a po]] eqn:E.
  by eapply local_node_wf.
Qed.

Lemma on_route_subscribed :
  locally_subscribed q (rm_topic m) = true →
  ∃ s m', bloom_wf s ∧ route_wf m' ∧
    on_route q (Some m) w =
      Ret (0, q_with_seen q s, Some m',
           mkWorld (w_ids w)
             (w_log w ++ (if q_on_message q then [QDeliver (rm_topic m) (Some (rm_data m))] else [])
                      ++ map (event (q_protocol q) m') (peers_of q))) ∧
    rm_id m' = rm_id m ∧ rm_topic m' = rm_topic m ∧ rm_data m' = rm_data m ∧
    rm_hops_remaining m' = rm_hops_remaining m ∧ rm_pub_count m' = rm_pub_count m + 1 ∧
    visited m' (Some (local_of q)) = Ret true ∧
    quasar_route_message_has_publisher m' (Some (local_of q)) = true.
Proof.
  intros Hsub. destruct Hm as (Hwf & Hsm & Hc & Hcap).
  destruct (seen_add_spec XXH3 q (rm_id m) (q_wf_seen q Hq)) as (s & Es & Hs & _).
  destruct (route_add_visited_spec XXH3 m (local_of q) Hwf) as (m1 & E1 & Hwf1 & Hm1 & Hv1 & _).
  destruct (route_add_publisher_spec m1 (local_of q) Hwf1 local_of_wf) as
    (m2 & E2 & Hwf2 & Hc2 & Hv2 & Hi2 & Ht2 & Hd2 & Hh2 & _ & _ & Hp2); [by rewrite Hm1..|].
  exists s, m2. split_and!; try done.
  - unfold quasar_on_route_message. rewrite Hnew, bind_Ret_l, Es, bind_Ret_l. unfold local_of in E1, E2.
    destruct (meridian_protocol_get_local_node (q_protocol q)) as [rc [a po]].
    rewrite E1, bind_Ret_l, Hsub, E2, bind_Ret_l. unfold peers_of.
    assert (Hsm2 : route_small m2) by (unfold route_small; rewrite Ht2, Hd2, Hm1; done).
    destruct (q_protocol q) as [p|].
    + rewrite send_all_ok by done. rewrite bind_Ret_l. destruct (q_on_message q); simpl; [|done].
      by rewrite <- (assoc_L (++)).
    + simpl. destruct (q_on_message q); simpl; rewrite ?app_nil_r; [done|by destruct w].
  - by rewrite Hi2, Hm1.
  - by rewrite Ht2, Hm1.
  - by rewrite Hd2, Hm1.
  - by rewrite Hh2, Hm1.
  - by rewrite Hc2, Hm1.
  - simpl in *. by rewrite Hv2.
Qed.

(** What a node that is not subscribed does. *)
Lemma on_route_forward :
  locally_subscribed q (rm_topic m) = false →
  ∃ s, bloom_wf s ∧
  if decide (rm_hops_remaining m = 0) then
    ∃ m', on_route q (Some m) w = Ret (0, q_with_seen q s, Some m', w)
  else
    ∃ m2, route_wf m2 ∧ rm_id m2 = rm_id m ∧ rm_topic m2 = rm_topic m ∧ rm_data m2 = rm_data m ∧
      rm_hops_remaining m2 = rm_hops_remaining m - 1 ∧ rm_pub_count m2 = rm_pub_count m ∧
      visited m2 (Some (local_of q)) = Ret true ∧
      ∃ r, nearest XXH3 q (rm_topic m) (pub_keys m) r ∧
        match r with
        | Some nf =>
            on_route q (Some m) w =
            Ret (0, q_with_seen q s, Some m2,
                 w_emit w (event (q_protocol q) m2
                             (Some (meridian_node_create_unidentified (nf_addr nf) (nf_port nf)))))
        | None =>
            ∃ m' w' ts, on_route q (Some m) w = Ret (0, q_with_seen q s, Some m', w') ∧
              walk_result XXH3 DatagramSend (q_protocol q) (q_alpha q) (peers_of q) m2 w m' w' ts
        end.
Proof.
  intros Hsub. destruct Hm as (Hwf & Hsm & Hc & Hcap).
  destruct (seen_add_spec XXH3 q (rm_id m) (q_wf_seen q Hq)) as (s & Es & Hs & _).
  destruct (route_add_visited_spec XXH3 m (local_of q) Hwf) as (m1 & E1 & Hwf1 & Hm1 & Hv1 & _).
  exists s. split; [done|].
  unfold quasar_on_route_message. rewrite Hnew, bind_Ret_l, Es, bind_Ret_l.
  assert (Elocal : local_of q = let '(_, (a, po)) := meridian_protocol_get_local_node (q_protocol q) in
            meridian_node_create_unidentified a po) by done.
  destruct (meridian_protocol_get_local_node (q_protocol q)) as [rc [a po]].
  rewrite Elocal in E1, Hv1 |- *. rewrite E1, bind_Ret_l, Hsub.
  assert (Hh : rm_hops_remaining m1 = rm_hops_remaining m) by by rewrite Hm1. rewrite Hh.
  destruct (route_wf_hops m Hwf) as [Hh0 Hh1].
  case_decide as Hz; [rewrite Hz; simpl; by eexists|].
  rewrite (proj2 (Z.eqb_neq _ _) Hz).
  set (m2 := rm_with_hops m1 (rm_hops_remaining m - 1)).
  assert (Hwf2 : route_wf m2) by (destruct Hwf1; split; simpl; try done; unfold is_u32 in *; lia).
  assert (Hsm2 : route_small m2) by (unfold m2, route_small; rewrite Hm1; done).
  exists m2. split_and!; [done|by (unfold m2; rewrite Hm1)..|done|by (unfold m2; rewrite Hm1)|exact Hv1|].
  destruct (directed_walk_spec XXH3 (q_with_seen q s) (rm_topic m) (pub_keys m)) as (r & Er & Hr);
    [by apply quasar_seen_wf|].
  exists r. split; [exact Hr|].
  replace (rm_topic m2) with (rm_topic m) by (unfold m2; by rewrite Hm1).
  replace (pub_keys m2) with (pub_keys m) by (unfold m2; by rewrite Hm1).
  rewrite Er, bind_Ret_l. destruct r as [nf|].
  - by rewrite send_route_ok, bind_Ret_l by done.
  - unfold peers_of. destruct (q_protocol q) as [p|] eqn:Ep.
    + destruct (random_walk_spec XXH3 DatagramSend (Some p) (q_alpha q)
        (meridian_protocol_get_connected_peers p) 0 m2 w) as (m' & w' & ts & E & Hw & _);
        [done|done|apply Hq|destruct (q_wf_alpha q Hq); lia|].
      rewrite Z.sub_0_r in Hw. rewrite E, bind_Ret_l. by exists m', w', ts.
    + exists m2, w, []. split; [done|]. apply walk_nil; [done|done|apply Hq|].
      intros _ n Hn. by apply elem_of_nil in Hn.
Qed.
End receiving.
