(* ===== verification/QuasarTheorems.v ===== *)
(** * QuasarTheorems: the contract of the overlay node

    The properties of [Quasar] a user of the overlay relies on, proved from the
    lemmas of [QuasarSpec]. *)

From stdpp Require Import relations.
From S2P Require Import Prelude Bitset Bloom ElasticBloom ElasticBloomSpec AttenuatedBloom Cbor BloomCodec Endian.
From S2P Require Import MessageId CborWire Node Route Ring Protocol Quasar QuasarSpec.

(** ** Expiry *)

(** A subscription after [k] ticks; TTL 0 never expires. *)
Definition age (k : Z) (s : quasar_subscription_t) : option quasar_subscription_t :=
  if sub_ttl s =? 0 then Some s
  else if sub_ttl s <=? k then None
  else Some (mkSub (sub_topic s) (sub_ttl s - k)).

Section expiry.
Context (XXH3 : list Z → Z → Z).

Definition sub_wf (s : quasar_subscription_t) : Prop := is_u32 (sub_ttl s).

Lemma tick_subs_spec routing l :
  abf_wf routing → Forall sub_wf l →
  ∃ r, tick_subs XXH3 routing l = Ret (r, omap (age 1) l) ∧ abf_wf r ∧
    abf_level_count r = abf_level_count routing.
Proof.
  revert routing. induction l as [|s l IH]; intros routing Hwf Hl; [by eexists|].
  apply Forall_cons_1 in Hl as [[Hs _] Hl]. cbn [tick_subs omap]. simpl. unfold age at 1.
  destruct (Z.ltb_spec 0 (sub_ttl s)).
  - rewrite (proj2 (Z.eqb_neq (sub_ttl s) 0)) by lia. destruct (Z.eqb_spec (sub_ttl s - 1) 0).
    + rewrite (proj2 (Z.leb_le _ _)) by lia.
      destruct (abf_unsubscribe_total XXH3 routing (sub_topic s) Hwf) as (r & E & Hr & Hc).
      rewrite E, bind_Ret_l. destruct (IH r Hr Hl) as (r' & E' & Hr' & Hc').
      exists r'. split_and!; [done|done|congruence].
    + rewrite (proj2 (Z.leb_gt _ _)) by lia. destruct (IH routing Hwf Hl) as (r & E & Hr & Hc).
      rewrite E, bind_Ret_l. by exists r.
  - rewrite (proj2 (Z.eqb_eq (sub_ttl s) 0)) by lia. destruct (IH routing Hwf Hl) as (r & E & Hr & Hc).
    rewrite E, bind_Ret_l. by exists r.
Qed.

(** [k] successive calls of [quasar_tick]. *)
Fixpoint ticks (k : nat) (q : quasar_t) : exec quasar_t :=
  match k with
  | O => Ret q
  | S k' => '(_, q') <- quasar_tick XXH3 q ;; ticks k' q'
  end.

Lemma age_age k s : 0 <= k → sub_wf s → age 1 s ≫= age k = age (k + 1) s.
Proof.
  intros Hk [Hs _]. unfold age. destruct (Z.eqb_spec (sub_ttl s) 0) as [E|].
  - simpl. by rewrite E.
  - destruct (Z.leb_spec (sub_ttl s) 1); simpl.
    + by rewrite (proj2 (Z.leb_le _ _)) by lia.
    + rewrite (proj2 (Z.eqb_neq _ _)) by lia.
      destruct (Z.leb_spec (sub_ttl s - 1) k), (Z.leb_spec (sub_ttl s) (k + 1)); simpl; try lia; [done|].
      do 2 f_equal. lia.
Qed.

Lemma omap_cons {A B} (f : A → option B) x l :
  omap f (x :: l) = match f x with Some y => y :: omap f l | None => omap f l end.
Proof. done. Qed.

Lemma omap_age k l : 0 <= k → Forall sub_wf l → omap (age k) (omap (age 1) l) = omap (age (k + 1)) l.
Proof.
  intros Hk. induction l as [|s l IH]; intros Hl; [done|]. apply Forall_cons_1 in Hl as [Hs Hl].
  rewrite !omap_cons, <- (age_age k s Hk Hs). destruct (age 1 s) as [s'|]; simpl; by rewrite <- IH.
Qed.

Lemma omap_age_0 l : Forall sub_wf l → omap (age 0) l = l.
Proof.
  induction l as [|s l IH]; intros Hl; [done|]. apply Forall_cons_1 in Hl as [[Hs _] Hl].
  rewrite omap_cons. unfold age at 1. destruct (Z.eqb_spec (sub_ttl s) 0); [by rewrite IH|].
  destruct (Z.leb_spec (sub_ttl s) 0); [lia|]. rewrite IH by done. f_equal.
  destruct s. simpl. f_equal. lia.
Qed.

Lemma age_wf k l : 0 <= k → Forall sub_wf l → Forall sub_wf (omap (age k) l).
Proof.
  intros Hk. induction l as [|s l IH]; intros Hl; [done|]. apply Forall_cons_1 in Hl as [Hs Hl].
  rewrite omap_cons. unfold age at 1. destruct (_ =? 0) eqn:E0; [constructor; auto|].
  destruct (Z.leb_spec (sub_ttl s) k); [auto|]. constructor; [|auto].
  unfold sub_wf, is_u32 in *. simpl. lia.
Qed.

Lemma ticks_spec k q :
  abf_wf (q_routing q) → Forall sub_wf (q_local_subs q) →
  ∃ q', ticks k q = Ret q' ∧ q_local_subs q' = omap (age (Z.of_nat k)) (q_local_subs q).
Proof.
  revert q. induction k as [|k IH]; intros q Hr Hs.
  - exists q. split; [done|]. by rewrite omap_age_0.
  - destruct (tick_subs_spec (q_routing q) (q_local_subs q) Hr Hs) as (r & E & Hr' & _).
    cbn [ticks]. unfold quasar_tick at 1. rewrite E, !bind_Ret_l. cbv beta iota.
    destruct (IH (q_with q r (q_neighbor_filters q) (omap (age 1) (q_local_subs q)) (q_seen q)))
      as (q' & E' & Hq'); [done|by apply age_wf|].
    exists q'. split; [done|]. rewrite Hq'. simpl. rewrite omap_age by (done || lia). f_equal. f_equal. lia.
Qed.
End expiry.

(** ** Echoes of published messages *)

Section echoes.
Context (XXH3 : list Z → Z → Z) (clock : Z → Z * Z) (DatagramSend : Z → list Z → bool).
Abbreviation has := (bloom_filter_contains_nn XXH3).

(** Every identifier drawn from the generator since [w] is recorded. *)
Definition ids_recorded (w w' : world) (q' : quasar_t) : Prop :=
  w_ids w <= w_ids w' ∧
  ∀ i, w_ids w <= i < w_ids w' → has (q_seen q') (id_memory (nth_id clock i)) = Ret true.

Lemma ids_recorded_refl w q : ids_recorded w w q.
Proof. split; [lia|]. intros i Hi. lia. Qed.

Lemma ids_recorded_trans w1 w2 w3 q2 q3 :
  bloom_wf (q_seen q2) → seen_le XXH3 q2 q3 →
  ids_recorded w1 w2 q2 → ids_recorded w2 w3 q3 → ids_recorded w1 w3 q3.
Proof.
  intros Hwf Hle [H1 R1] [H2 R2]. split; [lia|]. intros i Hi. destruct (decide (i < w_ids w2)).
  - apply Hle; [done|]. apply R1. lia.
  - apply R2. lia.
Qed.

Lemma send_route_ids protocol m t w w' :
  send_route DatagramSend protocol m t w = Ret w' → w_ids w' = w_ids w.
Proof. unfold send_route. intros H. apply bind_ret in H as ([buf|] & _ & [= <-]); done. Qed.

Lemma random_walk_ids protocol alpha peers sent m w m' w' :
  random_walk XXH3 DatagramSend protocol alpha peers sent m w = Ret (m', w') → w_ids w' = w_ids w.
Proof.
  revert sent m w. induction peers as [|p peers IH]; intros sent m w H; simpl in H; [by injection H as <- <-|].
  destruct (_ <=? _); [by injection H as <- <-|]. apply bind_ret in H as (b & _ & H). destruct b; [by eapply IH|].
  apply bind_ret in H as (w1 & E1 & H). apply bind_ret in H as ([rc m1] & _ & H).
  apply send_route_ids in E1. rewrite <- E1. by eapply IH.
Qed.

(** Drawing one identifier and recording it. *)
Lemma create_recorded q w t d hops size k m g s :
  0 <= w_ids w < 2 ^ 64 - 1 → bloom_wf (q_seen q) →
  quasar_route_message_create clock (w_ids w) (Some t) d hops size k = (Some m, g) →
  seen_add XXH3 q (rm_id m) = Ret s →
  g = w_ids w + 1 ∧ ∀ log, ids_recorded w (mkWorld g log) s.
Proof.
  intros Hw Hwf Hc Hs. destruct d as [d|]; [|done]. injection Hc as <- <-.
  rewrite u64_id by (unfold is_u64; lia). split; [done|]. intros log. split; [simpl; lia|]. simpl. intros i Hi.
  replace i with (w_ids w) by lia.
  destruct (seen_add_spec XXH3 q (nth_id clock (w_ids w)) Hwf) as (s' & E & _ & Hh).
  cbn [rm_id] in Hs. unfold nth_id in E. simpl in E. simpl in Hs. rewrite E in Hs. injection Hs as <-. exact Hh.
Qed.

Lemma publish_to_recorded q t d local target w q' w' :
  0 <= w_ids w < 2 ^ 64 - 1 → bloom_wf (q_seen q) →
  publish_to XXH3 clock DatagramSend q t d local target w = Ret (q', w') →
  w_ids w' <= w_ids w + 1 ∧ ids_recorded w w' q'.
Proof.
  intros Hw Hwf. unfold publish_to.
  destruct (quasar_route_message_create _ _ _ _ _ _ _) as [[m|] g] eqn:Ec.
  - intros H. apply bind_ret in H as (q1 & E1 & H). apply bind_ret in H as ([rc1 m1] & _ & H).
    apply bind_ret in H as ([rc2 m2] & _ & H). apply bind_ret in H as (w2 & Es & [= <- <-]).
    destruct (create_recorded q w t d _ _ _ m g q1 Hw Hwf Ec E1) as [-> Hr].
    apply send_route_ids in Es. simpl in Es. split; [lia|].
    specialize (Hr (w_log w2)). by destruct w2; simpl in *; subst.
  - intros [= <- <-]. destruct d; [done|]. injection Ec as <-. simpl. split; [lia|].
    destruct w. apply ids_recorded_refl.
Qed.

Lemma republish_recorded q t d local peers w q' w' :
  0 <= w_ids w → w_ids w + zlen peers < 2 ^ 64 → bloom_wf (q_seen q) →
  republish XXH3 clock DatagramSend q t d local peers w = Ret (q', w') → ids_recorded w w' q'.
Proof.
  revert q w. induction peers as [|p peers IH]; intros q w Hw Hb Hwf H; simpl in H.
  - injection H as <- <-. apply ids_recorded_refl.
  - apply bind_ret in H as ([q1 w1] & E & H). unfold zlen in Hb. simpl in Hb.
    pose proof (publish_to_seen XXH3 clock DatagramSend _ _ _ _ _ _ _ _ E Hwf) as [Hwf1 _].
    destruct (publish_to_recorded q t d local p w q1 w1) as [Hle Hr]; [lia|done|done|].
    destruct Hr as [Hge Hr]. eapply ids_recorded_trans; [exact Hwf1| |by split|].
    + by eapply republish_seen.
    + eapply IH; [lia|unfold zlen; lia|done|done].
Qed.

Lemma publish_random_recorded q t d w rc q' w' :
  0 <= w_ids w < 2 ^ 64 - 1 → bloom_wf (q_seen q) →
  publish_random XXH3 clock DatagramSend q t d w = Ret (rc, q', w') → ids_recorded w w' q'.
Proof.
  intros Hw Hwf. unfold publish_random.
  destruct (quasar_route_message_create _ _ _ _ _ _ _) as [[m|] g] eqn:Ec.
  - intros H. apply bind_ret in H as (q1 & E1 & H).
    destruct (create_recorded q w t d _ _ _ m g q1 Hw Hwf Ec E1) as [-> Hr].
    destruct (q_protocol q) as [p|]; [|injection H as <- <- <-; apply Hr].
    destruct (meridian_protocol_get_local_node _) as [rc' [a po]].
    apply bind_ret in H as ([rc1 m1] & _ & H). apply bind_ret in H as ([rc2 m2] & _ & H).
    apply bind_ret in H as ([m3 w3] & Ew & [= <- <- <-]). apply random_walk_ids in Ew. simpl in Ew.
    specialize (Hr (w_log w3)). by destruct w3; simpl in *; subst.
  - intros [= <- <- <-]. destruct d; [done|]. injection Ec as <-. destruct w. apply ids_recorded_refl.
Qed.
End echoes.

(** ** Gossip *)

Lemma remove_neighbor_keys l a p l' :
  remove_neighbor l a p = Some l' →
  base.NoDup (map (fun nf => (nf_addr nf, nf_port nf)) l) →
  base.NoDup (map (fun nf => (nf_addr nf, nf_port nf)) l') ∧ find_neighbor l' a p = None.
Proof.
  revert l'. induction l as [|nf l IH]; intros l' H Hnd; simpl in H; [done|].
  simpl in Hnd. apply list.NoDup_cons in Hnd as [Hn Hnd]. unfold nf_matches in H.
  destruct (Z.eqb_spec (nf_addr nf) a) as [Ea|Ea], (Z.eqb_spec (nf_port nf) p) as [Ep|Ep]; simpl in H.
  1: { injection H as <-. split; [done|]. clear IH Hnd. rewrite Ea, Ep in Hn.
       induction l as [|nf' l IH]; simpl; [done|]. unfold nf_matches.
       destruct (Z.eqb_spec (nf_addr nf') a) as [<-|], (Z.eqb_spec (nf_port nf') p) as [<-|]; simpl;
         try (apply IH; intros Hin; apply Hn; by right).
       destruct Hn. by left. }
  all: apply fmap_Some in H as (l0 & H0 & ->); destruct (IH l0 H0 Hnd) as [Hnd0 Hf0]; split.
  all: try (simpl; unfold nf_matches;
    destruct (Z.eqb_spec (nf_addr nf) a), (Z.eqb_spec (nf_port nf) p); simpl; done || congruence).
  all: simpl; apply list.NoDup_cons; split; [|done]; intros Hin; apply Hn.
  all: apply list_elem_of_fmap in Hin as (x & -> & Hx); apply list_elem_of_fmap; exists x; split; [done|].
  all: clear -H0 Hx; revert l0 H0 Hx; induction l as [|y l IH]; intros l0 H0 Hx; simpl in H0; [done|];
    destruct (nf_matches a p y); [injection H0 as <-; by right|];
    apply fmap_Some in H0 as (l1 & H1 & ->); apply elem_of_cons in Hx as [->|Hx]; [by left|right; by eapply IH].
Qed.

Lemma remove_neighbor_none l a p : remove_neighbor l a p = None → find_neighbor l a p = None.
Proof.
  induction l as [|nf l IH]; simpl; [done|]. destruct (nf_matches a p nf); [done|].
  intros H. apply IH. by destruct (remove_neighbor l a p).
Qed.

Lemma find_neighbor_app l a p f :
  find_neighbor l a p = None → find_neighbor (l ++ [mkNf a p f]) a p = Some f.
Proof.
  induction l as [|nf l IH]; simpl.
  - intros _. unfold nf_matches. simpl. by rewrite !Z.eqb_refl.
  - destruct (nf_matches a p nf); [done|apply IH].
Qed.

Lemma abf_received_wf a : abf_wf a → abf_wf (abf_received a).
Proof.
  intros [H1 H2 H3 H4]. split; simpl; [|done|done|].
  - unfold zlen in *. by rewrite length_map.
  - apply Forall_map. eapply Forall_impl; [|exact H4]. intros e []. by split.
Qed.

Lemma abf_received_like e0 a : abf_like e0 a → abf_like e0 (abf_received a).
Proof. intros H. apply Forall_map. eapply Forall_impl; [|exact H]. intros e [? ?]. done. Qed.

Lemma level_has_received XXH3 a i x b :
  level_has XXH3 (abf_levels a) i x b → level_has XXH3 (abf_levels (abf_received a)) i x b.
Proof.
  intros (e & He & Hx). apply level_at_Some in He. exists (ebf_received e). split; [|done].
  apply level_at_Some. simpl. by rewrite list_lookup_fmap, He.
Qed.

Lemma gossip_packet_ok q :
  abf_wf (q_routing q) →
  ∃ levels, encode_levels (CArray true (abf_level_count (q_routing q)) []) (abf_levels (q_routing q)) =
      Ret (Some levels) ∧
    gossip_packet q = Ret (Some (CArray true 3 [cbor_build_uint8 50; cbor_build_uint32 (abf_level_count (q_routing q));
      CArray true 2 [cbor_build_uint32 (abf_level_count (q_routing q)); levels]])).
Proof.
  intros Hwf. eexists. split.
  - apply encode_levels_ok. rewrite (abf_wf_len _ Hwf). unfold zlen. simpl. lia.
  - unfold gossip_packet, attenuated_bloom_filter_encode_nn, cbor_new_definite_array.
    rewrite encode_levels_ok by (rewrite (abf_wf_len _ Hwf); unfold zlen; simpl; lia). done.
Qed.

(** ** Properties *)

(** C1. At most once: when a node has handled a message, then after any
    further activity of the node (subscriptions, publications, other messages,
    gossip, ticks) a message with the same identifier is dropped: no delivery,
    no packet, no change of state. *)
Theorem quasar_at_most_once XXH3 clock DatagramSend cbor_load cbor_serialize_alloc
    q w m rc q1 m1 w1 q2 w2 m2 :
  bloom_wf (q_seen q) →
  quasar_on_route_message XXH3 DatagramSend q (Some m) w = Ret (rc, q1, m1, w1) →
  rtc (quasar_step XXH3 clock DatagramSend cbor_load cbor_serialize_alloc) (q1, w1) (q2, w2) →
  rm_id m2 = rm_id m →
  quasar_on_route_message XXH3 DatagramSend q2 (Some m2) w2 = Ret (0, q2, Some m2, w2).
Proof.
  intros Hwf H Hrun Hid. 
  destruct (on_route_records XXH3 clock DatagramSend cbor_load cbor_serialize_alloc q m w rc q1 m1 w1 Hwf H)
    as [Hwf1 Hs1].
  apply quasar_steps_seen in Hrun. destruct (Hrun Hwf1) as [_ Hs2]. simpl in Hs2.
  unfold quasar_on_route_message. by rewrite Hid, (Hs2 _ Hs1).
Qed.

(** C2. Delivery: a node subscribed to the topic of a fresh message hands it
    to the callback exactly once and sends it on to every peer, marked as
    visited by this node and with this node among the publishers; the hop
    budget is not consumed and only the set of processed messages changes. *)
Theorem quasar_delivers XXH3 DatagramSend q m w :
  quasar_wf q → route_ready m →
  bloom_filter_contains_nn XXH3 (q_seen q) (id_memory (rm_id m)) = Ret false →
  locally_subscribed q (rm_topic m) = true →
  ∃ s m', bloom_wf s ∧ route_wf m' ∧
    quasar_on_route_message XXH3 DatagramSend q (Some m) w =
      Ret (0, q_with_seen q s, Some m',
           mkWorld (w_ids w)
             (w_log w ++ (if q_on_message q then [QDeliver (rm_topic m) (Some (rm_data m))] else [])
                      ++ map (route_event DatagramSend (q_protocol q) m') (peers_of q))) ∧
    rm_id m' = rm_id m ∧ rm_topic m' = rm_topic m ∧ rm_data m' = rm_data m ∧
    rm_hops_remaining m' = rm_hops_remaining m ∧ rm_pub_count m' = rm_pub_count m + 1 ∧
    quasar_route_message_has_visited XXH3 m' (Some (local_of q)) = Ret true ∧
    quasar_route_message_has_publisher m' (Some (local_of q)) = true.
Proof. apply on_route_subscribed. Qed.

(** C3. Forwarding: a node that is not subscribed drops a fresh message
    whose hop budget is used up; otherwise it decrements the budget and either
    sends one copy to a neighbour that knows the topic at the lowest level at
    which any neighbour does (publishers negated), or, when none does, walks to
    at most [alpha] distinct peers that the message has not visited. *)
Theorem quasar_forwards XXH3 DatagramSend q m w :
  quasar_wf q → route_ready m →
  bloom_filter_contains_nn XXH3 (q_seen q) (id_memory (rm_id m)) = Ret false →
  locally_subscribed q (rm_topic m) = false →
  ∃ s, bloom_wf s ∧
  if decide (rm_hops_remaining m = 0) then
    ∃ m', quasar_on_route_message XXH3 DatagramSend q (Some m) w = Ret (0, q_with_seen q s, Some m', w)
  else
    ∃ m2, route_wf m2 ∧ rm_id m2 = rm_id m ∧ rm_topic m2 = rm_topic m ∧ rm_data m2 = rm_data m ∧
      rm_hops_remaining m2 = rm_hops_remaining m - 1 ∧ rm_pub_count m2 = rm_pub_count m ∧
      quasar_route_message_has_visited XXH3 m2 (Some (local_of q)) = Ret true ∧
      ∃ r, nearest XXH3 q (rm_topic m) (pub_keys m) r ∧
        match r with
        | Some nf =>
            quasar_on_route_message XXH3 DatagramSend q (Some m) w =
            Ret (0, q_with_seen q s, Some m2,
                 w_emit w (route_event DatagramSend (q_protocol q) m2
                             (Some (meridian_node_create_unidentified (nf_addr nf) (nf_port nf)))))
        | None =>
            ∃ m' w' ts, quasar_on_route_message XXH3 DatagramSend q (Some m) w = Ret (0, q_with_seen q s, Some m', w') ∧
              walk_result XXH3 DatagramSend (q_protocol q) (q_alpha q) (peers_of q) m2 w m' w' ts
        end.
Proof. apply on_route_forward. Qed.

(** A publisher ignores its own echoes: every identifier a publication
    draws is recorded as processed, so a copy of the message that comes back is
    dropped. *)
Theorem quasar_publish_records XXH3 clock DatagramSend q t d w rc q' w' :
  bloom_wf (q_seen q) → 0 <= w_ids w → w_ids w + zlen (peers_of q) + 1 < 2 ^ 64 →
  quasar_publish XXH3 clock DatagramSend q t d w = Ret (rc, q', w') →
  ids_recorded XXH3 clock w w' q' ∧
  ∀ m i w2, w_ids w <= i < w_ids w' → rm_id m = nth_id clock i →
    quasar_on_route_message XXH3 DatagramSend q' (Some m) w2 = Ret (0, q', Some m, w2).
Proof.
  intros Hwf Hw Hb H. pose proof (zlen_nonneg (peers_of q)).
  assert (Hr : ids_recorded XXH3 clock w w' q').
  { unfold quasar_publish in H. destruct t as [t|]; [|injection H as <- <- <-; apply ids_recorded_refl].
    destruct (meridian_protocol_get_local_node _) as [rc' [a po]]. unfold peers_of in *.
    destruct (locally_subscribed q t).
    - destruct (q_protocol q) as [p|].
      + apply bind_ret in H as ([q1 w1] & E & [= <- <- <-]).
        apply republish_recorded in E; [by destruct (q_on_message q)|by destruct (q_on_message q)| |done].
        destruct (q_on_message q); simpl; lia.
      + injection H as <- <- <-. destruct (q_on_message q); (split; simpl; [lia|intros; lia]).
    - destruct (q_protocol q) as [p|]; [|eapply publish_random_recorded; [|done|done]; simpl in *; lia].
      apply bind_ret in H as ([nf|] & _ & H); [|eapply publish_random_recorded; [|done|done]; lia].
      apply bind_ret in H as ([q1 w1] & E & [= <- <- <-]).
      apply publish_to_recorded in E as [_ ?]; [done|lia|done]. }
  split; [done|]. intros m i w2 Hi Hid. unfold quasar_on_route_message.
  rewrite Hid. destruct Hr as [_ Hr]. by rewrite (Hr i Hi).
Qed.

(** C7. Subscriptions expire on time: after [k] ticks a subscription with
    TTL [n > 0] is present exactly when [k < n], with [n - k] left, and one with
    TTL 0 is never removed; ticking always returns. *)
Theorem quasar_subscription_expiry XXH3 k q :
  abf_wf (q_routing q) → Forall sub_wf (q_local_subs q) →
  ∃ q', ticks XXH3 k q = Ret q' ∧ q_local_subs q' = omap (age (Z.of_nat k)) (q_local_subs q).
Proof. apply ticks_spec. Qed.

(** A neighbour that is not found has no entry under its key. *)
Lemma find_neighbor_fresh a p l :
  find_neighbor l a p = None → (a, p) ∉ map (fun nf => (nf_addr nf, nf_port nf)) l.
Proof.
  induction l as [|nf l IH]; simpl; [intros _ H; by apply elem_of_nil in H|]. unfold nf_matches.
  intros Hf [E|Hin]%elem_of_cons.
  - injection E as Ea Epo. rewrite Ea, Epo, !Z.eqb_refl in Hf. done.
  - destruct (_ && _); [done|]. by apply IH.
Qed.

(** Replacing the filter of a neighbour: the new one is found, and the keys
    stay distinct. *)
Lemma replace_neighbor nfs nf :
  base.NoDup (map (fun nf => (nf_addr nf, nf_port nf)) nfs) →
  let l := default nfs (remove_neighbor nfs (nf_addr nf) (nf_port nf)) ++ [nf] in
  find_neighbor l (nf_addr nf) (nf_port nf) = Some (nf_filter nf) ∧
  base.NoDup (map (fun nf => (nf_addr nf, nf_port nf)) l).
Proof.
  intros Hnd. simpl. set (l := default _ _).
  assert (Hl : base.NoDup (map (fun nf => (nf_addr nf, nf_port nf)) l)
               ∧ find_neighbor l (nf_addr nf) (nf_port nf) = None).
  { subst l. destruct (remove_neighbor _ _ _) as [l|] eqn:E; simpl.
    - exact (remove_neighbor_keys _ _ _ _ E Hnd).
    - split; [done|]. by apply remove_neighbor_none. }
  destruct Hl as [Hl Hf]. split.
  - destruct nf. by apply find_neighbor_app.
  - rewrite map_app. simpl. apply list.NoDup_app. split_and!; [done| |apply list.NoDup_singleton].
    intros x Hx ->%list_elem_of_singleton. by apply (find_neighbor_fresh _ _ _ Hf).
Qed.

(** Reception of a well-formed gossip packet: the filter replaces the
    sender's older one and is merged into the routing filter. *)
Lemma on_gossip_ok cbor_load d q n fitem f r :
  28 <= zlen d →
  cbor_load d = Some (CArray true 3 [cbor_build_uint8 MERIDIAN_PACKET_TYPE_QUASAR_GOSSIP;
                                     cbor_build_uint32 (abf_level_count f); fitem]) →
  0 <= abf_level_count f < 2 ^ 32 →
  attenuated_bloom_filter_decode_nn fitem = Ret (Some f) →
  attenuated_bloom_filter_merge_nn (q_routing q) f = Ret r →
  quasar_on_gossip cbor_load q (Some d) (Some n)
  = Ret (0, q_with q r (default (q_neighbor_filters q)
                          (remove_neighbor (q_neighbor_filters q) (node_addr n) (node_port n))
                        ++ [mkNf (node_addr n) (node_port n) f]) (q_local_subs q) (q_seen q)).
Proof.
  intros Hlen Hload Hu Edec Em.
  unfold quasar_on_gossip. rewrite (proj2 (Z.ltb_ge _ _)) by lia. rewrite Hload.
  cbn [is_definite_array negb cbor_array_handle]. rewrite bind_Ret_l.
  replace (zlen _ <? 3) with false by done. unfold elem_at.
  change (Z.to_nat 0) with 0%nat. change (Z.to_nat 1) with 1%nat. change (Z.to_nat 2) with 2%nat.
  cbn [lookup list_lookup negb xbind cbor_isa_uint cbor_build_uint8 cbor_build_uint32].
  change (cbor_get_uint8 (cbor_build_uint8 MERIDIAN_PACKET_TYPE_QUASAR_GOSSIP)) with (Ret 50).
  change (cbor_get_uint32 (cbor_build_uint32 (abf_level_count f))) with (Ret (u32 (abf_level_count f))).
  rewrite Edec, !bind_Ret_l. replace (50 =? MERIDIAN_PACKET_TYPE_QUASAR_GOSSIP) with true by done.
  cbn [negb]. rewrite u32_id by done. rewrite Z.eqb_refl. cbn [negb]. rewrite Em. reflexivity.
Qed.

(** C6. Gossip spreads subscriptions between nodes whose filters have one
    shape.  Let the levels of the sender's and of the receiver's routing filter
    have the same size, hash count, fingerprint width and seeds ([abf_like]: both
    nodes were created alike and neither filter has been resized since; filters of
    different sizes are not merged), and let the sender's filter fit in memory.
    When the sender propagates its routing filter and the receiver reads the packet
    back as it was written, from at least 28 bytes, the receiver stores the filter
    under the sender's address, replacing an older one, keeps what it knew, and its
    own routing filter finds each topic the sender knew at level [i] at a distance
    of at most [i + 1], as long as the receiver has that level. *)
Theorem quasar_gossip_spreads XXH3 cbor_load cbor_serialize_alloc e0 qs qr n :
  quasar_wf qs → quasar_wf qr → abf_in_memory (q_routing qs) →
  abf_like e0 (q_routing qs) → abf_like e0 (q_routing qr) →
  ∃ item, gossip_packet qs = Ret (Some item) ∧
    (cbor_load (cbor_serialize_alloc item) = Some item → 28 <= zlen (cbor_serialize_alloc item) →
     ∃ qr', quasar_on_gossip cbor_load qr (Some (cbor_serialize_alloc item)) (Some n) = Ret (0, qr') ∧
       quasar_get_neighbor_filter qr' (Some n) = Some (abf_received (q_routing qs)) ∧
       base.NoDup (map (fun nf => (nf_addr nf, nf_port nf)) (q_neighbor_filters qr')) ∧
       (∀ i x, 0 <= i < abf_level_count (q_routing qr) →
          level_has XXH3 (abf_levels (q_routing qr)) i x true →
          level_has XXH3 (abf_levels (q_routing qr')) i x true) ∧
       (∀ i x, 0 <= i < abf_level_count (q_routing qs) → i + 1 < abf_level_count (q_routing qr) →
          level_has XXH3 (abf_levels (q_routing qs)) i x true →
          ∃ h, attenuated_bloom_filter_check XXH3 (Some (q_routing qr')) (Some x) = Ret (Some h) ∧
               0 <= h <= i + 1)).
Proof.
  intros Hs Hr Hmem Hls Hlr. pose proof (q_wf_routing qs Hs) as Hws. pose proof (q_wf_routing qr Hr) as Hwr.
  destruct (gossip_packet_ok qs Hws) as (levels & El & Ep). rewrite Ep.
  eexists. split; [reflexivity|]. intros Hload Hlen. set (item := CArray true 3 _) in *.
  pose proof (abf_received_wf _ Hws) as Hwd. pose proof (abf_wf_u32 _ Hws) as Hu.
  destruct (abf_merge_levels (q_routing qr) (abf_received (q_routing qs)) Hwr Hwd) as (r & Em & Hc & _).
  set (d := abf_received (q_routing qs)) in *.
  pose proof (abf_merge_keeps XXH3 (q_routing qr) d r) as Hkeep.
  pose proof (abf_merge_shifts XXH3 e0 (q_routing qr) d r) as Hshift.
  assert (Edec : attenuated_bloom_filter_decode_nn
            (CArray true 2 [cbor_build_uint32 (abf_level_count (q_routing qs)); levels])
            = Ret (Some (abf_received (q_routing qs)))).
  { destruct (abf_codec_lemma (q_routing qs) Hws Hmem) as (levels' & El' & Ed).
    rewrite El in El'. injection El' as <-. exact Ed. }
  destruct (replace_neighbor (q_neighbor_filters qr) (mkNf (node_addr n) (node_port n) d) (q_wf_nodup qr Hr))
    as [Hfind Hnd].
  eexists. split; [|split_and!].
  - by apply (on_gossip_ok cbor_load _ qr n _ d r Hlen Hload Hu Edec Em).
  - exact Hfind.
  - exact Hnd.
  - intros i x Hi Hx. simpl. apply (Hkeep i x Hwr Hwd Em); [lia|done].
  - intros i x Hi Hi1 Hx. simpl. apply check_bound; [exact (abf_merge_wf _ _ Hwr Hwd r Em)|rewrite Hc; lia|].
    apply Hshift; [done|done|done|by apply abf_received_like|done|done|done|by apply level_has_received].
Qed.

(** Inbound connections consume the fan-out: their slots have no node,
    count as unvisited and as sent to, so with [alpha = 1] and an inbound
    connection first in the table a random walk reaches nobody although a known,
    unvisited peer is connected. *)
Theorem quasar_inbound_wastes_fanout :
  ∃ (XXH3 : list Z → Z → Z) clock q q' w',
    q_protocol q = Some demo_protocol ∧
    meridian_protocol_get_connected_peers demo_protocol = [None; Some demo_node] ∧
    quasar_publish XXH3 clock (fun _ _ => true) q (Some [116]) (Some [104]) (mkWorld 0 []) = Ret (0, q', w') ∧
    ∃ buf, w_log w' = [QSend None buf (-1)].
Proof.
  pose (q := quasar_create (Some demo_protocol) 3 1 64 2).
  pose (r := quasar_publish sum_hash (fun n => (0, n)) (fun _ _ => true) q (Some [116]) (Some [104]) (mkWorld 0 [])).
  exists sum_hash, (fun n => (0, n)), q,
    (match r with Ret (_, q', _) => q' | Trap => q end), (match r with Ret (_, _, w') => w' | Trap => mkWorld 0 [] end).
  split_and!; [reflexivity|reflexivity|vm_compute; reflexivity|]. vm_compute. eexists. reflexivity.
Qed.

(** ** Concrete instances *)

Lemma quasar_create_wf protocol hops alpha size k :
  0 < hops → is_u32 hops → is_u32 alpha → 0 < size → is_u32 k →
  (∀ p, protocol = Some p → is_u32 (mp_local_s_addr p) ∧ Forall (fun s => peer_wf (peer_node s)) (mp_peers p)) →
  quasar_wf (quasar_create protocol hops alpha size k).
Proof.
  intros H1 H2 H3 H4 H5 H6. split; simpl; try done.
  - apply abf_create_wf; [done|done|by vm_compute|by vm_compute|by vm_compute].
  - by apply bloom_create_wf.
  - constructor.
Qed.

Definition demo_quasar : quasar_t :=
  q_with_subs (quasar_create (Some demo_protocol) 3 2 256 2) [mkSub [116] 5; mkSub [117] 0].

Lemma demo_quasar_wf : quasar_wf demo_quasar.
Proof.
  assert (quasar_wf (quasar_create (Some demo_protocol) 3 2 256 2)) as [].
  { apply quasar_create_wf; [lia|unfold is_u32; lia|unfold is_u32; lia|lia|unfold is_u32; lia|].
    intros p [= <-]. split; [by vm_compute|]. repeat constructor; by vm_compute. }
  by split.
Qed.

Lemma demo_route_ready : route_ready demo_route.
Proof. split_and!; [apply demo_route_wf|by vm_compute|by vm_compute|by vm_compute]. Qed.

Definition demo_after : quasar_t * world :=
  match quasar_on_route_message sum_hash (fun _ _ => true) demo_quasar (Some demo_route) (mkWorld 0 []) with
  | Ret (_, q', _, w') => (q', w') | Trap => (demo_quasar, mkWorld 0 []) end.

Lemma quasar_at_most_once_witness :
  quasar_on_route_message sum_hash (fun _ _ => true) demo_after.1 (Some demo_route) demo_after.2 =
  Ret (0, demo_after.1, Some demo_route, demo_after.2).
Proof.
  destruct (on_route_subscribed sum_hash (fun _ _ => true) demo_quasar demo_route (mkWorld 0 [])
    demo_quasar_wf demo_route_ready ltac:(vm_compute; reflexivity) ltac:(vm_compute; reflexivity))
    as (s & m' & _ & _ & E & _).
  eapply (quasar_at_most_once sum_hash (fun n => (0, n)) (fun _ _ => true) (fun _ => None) (fun _ => [])
    demo_quasar (mkWorld 0 []) demo_route 0 demo_after.1 (Some m') demo_after.2 _ _ demo_route);
    [apply demo_quasar_wf| |apply rtc_refl|reflexivity].
  unfold demo_after. rewrite E. reflexivity.
Defined.

Lemma quasar_delivers_witness :
  ∃ q' m' w', quasar_on_route_message sum_hash (fun _ _ => true) demo_quasar (Some demo_route) (mkWorld 0 [])
    = Ret (0, q', Some m', w').
Proof.
  destruct (quasar_delivers sum_hash (fun _ _ => true) demo_quasar demo_route (mkWorld 0 [])
    demo_quasar_wf demo_route_ready) as (s & m' & _ & _ & E & _); [vm_compute; reflexivity..|].
  rewrite E. by eexists _, _, _.
Defined.

Lemma quasar_forwards_witness :
  ∃ s, bloom_wf s ∧ ∃ m2, rm_hops_remaining m2 = 4 ∧ route_wf m2.
Proof.
  destruct (quasar_forwards sum_hash (fun _ _ => true) (q_with_subs demo_quasar []) demo_route (mkWorld 0 []))
    as (s & Hs & H).
  - destruct demo_quasar_wf. by split.
  - apply demo_route_ready.
  - vm_compute. reflexivity.
  - reflexivity.
  - exists s. split; [exact Hs|]. rewrite decide_False in H by done.
    destruct H as (m2 & Hwf & _ & _ & _ & Hh & _). by exists m2.
Defined.

Definition demo_published : quasar_t * world :=
  match quasar_publish sum_hash (fun n => (0, n)) (fun _ _ => true) demo_quasar (Some [116]) (Some [1]) (mkWorld 0 []) with
  | Ret (_, q', w') => (q', w') | Trap => (demo_quasar, mkWorld 0 []) end.

Lemma quasar_publish_records_witness :
  ids_recorded sum_hash (fun n => (0, n)) (mkWorld 0 []) demo_published.2 demo_published.1.
Proof.
  apply (quasar_publish_records sum_hash (fun n => (0, n)) (fun _ _ => true) demo_quasar (Some [116]) (Some [1])
    (mkWorld 0 []) 0 demo_published.1 demo_published.2);
    [apply demo_quasar_wf|by vm_compute|by vm_compute|vm_compute; reflexivity].
Defined.

Lemma quasar_subscription_expiry_witness :
  ∃ q', ticks sum_hash 4 demo_quasar = Ret q' ∧ q_local_subs q' = [mkSub [116] 1; mkSub [117] 0].
Proof.
  apply (quasar_subscription_expiry sum_hash 4 demo_quasar); [apply demo_quasar_wf|].
  repeat constructor; vm_compute; congruence.
Defined.

(** A node with a subscription at level 0, on a small routing filter. *)
Definition demo_sender : quasar_t := q_with_routing demo_quasar demo_subscribed.

Lemma demo_routing_wf a : abf_wf a → quasar_wf (q_with_routing demo_quasar a).
Proof. intros Ha. destruct demo_quasar_wf. by split. Qed.

Definition demo_gossip : cbor_item :=
  match gossip_packet demo_sender with Ret (Some i) => i | _ => CFloatCtrl 0 0 end.

Lemma quasar_gossip_spreads_witness :
  ∃ qr', quasar_on_gossip cbor_load (q_with_routing demo_quasar demo_abf)
           (Some (cbor_serialize_alloc demo_gossip)) (Some demo_node) = Ret (0, qr') ∧
    quasar_get_neighbor_filter qr' (Some demo_node) = Some (abf_received demo_subscribed).
Proof.
  destruct (quasar_gossip_spreads sum_hash cbor_load cbor_serialize_alloc demo_ebf demo_sender
    (q_with_routing demo_quasar demo_abf) demo_node) as (item & E & H).
  - apply demo_routing_wf, demo_subscribed_wf.
  - apply demo_routing_wf, demo_abf_wf.
  - repeat (constructor; [split; [by vm_compute| |by vm_compute|by vm_compute];
      repeat (constructor; [by vm_compute|]); constructor|]). constructor.
  - apply demo_subscribed_like.
  - apply demo_abf_like.
  - assert (item = demo_gossip) as -> by (unfold demo_gossip; by rewrite E).
    destruct H as (qr' & Eg & En & _); [vm_compute; reflexivity|by vm_compute|].
    exists qr'. split; [exact Eg|exact En].
Defined.
