(* ===== verification/QuasarNetwork.v ===== *)
(** * QuasarNetwork: messages travelling through an overlay of many nodes

    The composition [src/Network/Quasar/README.md] describes: a packet a node
    sends to a peer is parsed there by [quasar_route_message_deserialize] and
    handed to [quasar_on_route_message].  A network is a list of nodes, each with
    its own generator and log, and the packets in flight.  Packets may arrive in
    any order and may be lost.  Who sits at an address is found by the nodes' own
    local addresses; [Send] tells for each node which datagrams msquic accepts.

    Whatever the order of arrival and whatever is lost, a network comes to rest
    ([net_comes_to_rest]); and when nothing is lost, a message handed to a
    subscriber has then been delivered exactly once by every subscriber connected
    to it through subscribers ([net_flood_exactly_once]). *)

From stdpp Require Import relations.
From S2P Require Import Prelude Bitset Bloom ElasticBloom ElasticBloomSpec AttenuatedBloom Cbor BloomCodec Endian.
From S2P Require Import MessageId Node Route Ring Protocol Quasar QuasarSpec QuasarTheorems.

Abbreviation member := (quasar_t * world)%type.

Record net := mkNet {
  n_members : list member;
  n_flight : list (nat * list Z)
}.

Definition at_address (n local : meridian_node_t) : bool :=
  (node_addr local =? node_addr n) && (node_port local =? node_port n).

Definition addresses (ms : list member) : list meridian_node_t := map (fun c => local_of c.1) ms.

Definition member_at (ms : list member) (target : option meridian_node_t) : option nat :=
  n ← target; fst <$> list_find (at_address n) (addresses ms).

(** A packet msquic accepted travels to the node at the target's address. *)
Definition packet_of (ms : list member) (e : qevent) : option (nat * list Z) :=
  match e with
  | QSend target buf rc => if rc =? 0 then (fun j => (j, buf)) <$> member_at ms target else None
  | _ => None
  end.

Section network.
Context (XXH3 : list Z → Z → Z) (clock : Z → Z * Z) (Send : nat → Z → list Z → bool).

Definition net_receive (i : nat) (c : member) (buf : list Z) : exec member :=
  '(r, g) <- quasar_route_message_deserialize clock (w_ids c.2) (Some buf) ;;
  match r with
  | None => Ret (c.1, mkWorld g (w_log c.2))
  | Some m => '(_, q', _, w') <- quasar_on_route_message XXH3 (Send i) c.1 (Some m) (mkWorld g (w_log c.2)) ;; Ret (q', w')
  end.

(** What a node has sent since [c]. *)
Definition sent_since (ms : list member) (c c' : member) : list (nat * list Z) :=
  omap (packet_of ms) (drop (length (w_log c.2)) (w_log c'.2)).

Inductive net_deliver : net → net → Prop :=
| nd_packet ms l1 i buf l2 c c' :
    ms !! i = Some c → net_receive i c buf = Ret c' →
    net_deliver (mkNet ms (l1 ++ (i, buf) :: l2)) (mkNet (<[i := c']> ms) (l1 ++ l2 ++ sent_since ms c c')).

Inductive net_step : net → net → Prop :=
| ns_deliver n n' : net_deliver n n' → net_step n n'
| ns_lose ms l1 p l2 : net_step (mkNet ms (l1 ++ p :: l2)) (mkNet ms (l1 ++ l2)).

(** The first packet in flight is delivered, [fuel] times at most. *)
Fixpoint net_run (fuel : nat) (n : net) : exec net :=
  match fuel, n_flight n with
  | S fuel', (i, buf) :: l =>
      match n_members n !! i with
      | None => net_run fuel' (mkNet (n_members n) l)
      | Some c => c' <- net_receive i c buf ;; net_run fuel' (mkNet (<[i := c']> (n_members n)) (l ++ sent_since (n_members n) c c'))
      end
  | _, _ => Ret n
  end.

(** ** One reception *)

(** Messages on the way: topic and payload within the receiver's limits. *)
Definition route_sent (m : quasar_route_message_t) : Prop :=
  route_wf m ∧ zlen (rm_topic m) <= MERIDIAN_MAX_PAYLOAD_SIZE ∧ zlen (rm_data m) <= MERIDIAN_MAX_PAYLOAD_SIZE.

Definition wire (m : quasar_route_message_t) : list Z := concat (route_fields m).

Abbreviation seen q m := (bloom_filter_contains_nn XXH3 (q_seen q) (id_memory (rm_id m))).

Lemma route_received_wf m : route_wf m → rm_pub_count m <= MERIDIAN_MAX_NODES → route_wf (route_received m).
Proof.
  intros [] Hc. unfold MERIDIAN_MAX_NODES in Hc. split; cbn; try done; [lia|]. destruct route_wf_visited. by split.
Qed.

(** A message with too many publishers is not accepted. *)
Lemma route_deserialize_crowded g m :
  route_sent m → MERIDIAN_MAX_NODES < rm_pub_count m →
  quasar_route_message_deserialize clock g (Some (wire m)) = Ret (None, g).
Proof.
  intros (Hwf & Ht & Hd) Hc. unfold MERIDIAN_MAX_PAYLOAD_SIZE in Ht, Hd. pose proof (route_wf_cap m Hwf).
  pose proof (zlen_nonneg (rm_topic m)). pose proof (zlen_nonneg (rm_data m)).
  pose proof (route_wf_visited m Hwf) as Hv. pose proof (bloom_hash_count_u32 _ Hv) as Hvh.
  pose proof (route_wf_visited_u32 m Hwf) as Hvu. unfold MERIDIAN_MAX_NODES in Hc.
  unfold quasar_route_message_deserialize, wire. rewrite <- (app_nil_r (concat (route_fields m))).
  rewrite (proj2 (Z.ltb_ge _ _)) by (rewrite app_nil_r; unfold route_fields; cbn [concat]; rewrite !zlen_app, !header_word_length;
    pose proof (zlen_nonneg (quasar_message_id_serialize (rm_id m) ++ rm_topic m ++ rm_data m ++ concat (map (le_bytes 4) (rm_pub_addrs m)) ++
      concat (map (le_bytes 2) (rm_pub_ports m)) ++ bits_data (bf_bits (rm_visited m)) ++ [])) as H9; rewrite !zlen_app in H9; lia).
  rewrite (field_header _ 0 QUASAR_ROUTE_MAGIC 0), (field_header _ 1 QUASAR_ROUTE_VERSION 1),
    (field_header _ 2 (zlen (rm_topic m)) 2), (field_header _ 3 (zlen (rm_data m)) 3),
    (field_header _ 4 (rm_hops_remaining m) 4), (field_header _ 5 (rm_pub_count m) 5),
    (field_header _ 6 (bf_size (rm_visited m)) 6), (field_header _ 7 (bf_hash_count (rm_visited m)) 7)
    by (reflexivity || field_len || apply Hwf || done || (unfold is_u32; lia)).
  rewrite !bind_Ret_l. cbn [Z.eqb negb orb]. rewrite !Z.eqb_refl. cbn [negb orb].
  unfold MERIDIAN_MAX_PAYLOAD_SIZE, MERIDIAN_MAX_NODES.
  rewrite (proj2 (Z.ltb_ge 1400 (zlen (rm_topic m)))), (proj2 (Z.ltb_ge 1400 (zlen (rm_data m)))) by lia. cbn [orb].
  by rewrite (proj2 (Z.ltb_lt 256 (rm_pub_count m))) by lia.
Qed.

Definition deliveries (q : quasar_t) (m : quasar_route_message_t) : list qevent :=
  if locally_subscribed q (rm_topic m) && q_on_message q then [QDeliver (rm_topic m) (Some (rm_data m))] else [].

(** [m'] is [m] on its way from one more node. *)
Record passed_on (m m' : quasar_route_message_t) : Prop := {
  po_sent : route_sent m';
  po_id : rm_id m' = rm_id m;
  po_topic : rm_topic m' = rm_topic m;
  po_data : rm_data m' = rm_data m;
  po_count : rm_pub_count m' <= rm_pub_count m + 1
}.

Definition fanout (q : quasar_t) : Z := Z.max 1 (zlen (peers_of q)).

(** What handling [m] for the first time does: it is recorded, delivered if
    subscribed to, and passed on, by a subscriber to every peer. *)
Record handles (i : nat) (q : quasar_t) (m : quasar_route_message_t) (c c' : member) : Prop := {
  ha_seen : ∃ s, c'.1 = q_with_seen q s ∧ bloom_wf s ∧
    bloom_filter_contains_nn XXH3 s (id_memory (rm_id m)) = Ret true ∧
    ∀ k, bloom_filter_contains_nn XXH3 (q_seen q) k = Ret true → bloom_filter_contains_nn XXH3 s k = Ret true;
  ha_sends : ∃ sends,
    w_log c'.2 = w_log c.2 ++ deliveries q m ++ map (fun t => route_event (Send i) (q_protocol q) t.2 t.1) sends ∧
    Forall (fun t => passed_on m t.2) sends ∧ zlen sends <= fanout q ∧
    (locally_subscribed q (rm_topic m) = true → map fst sends = peers_of q)
}.

Lemma handles_seen i q m w rc q' m' w' :
  quasar_wf q → quasar_on_route_message XXH3 (Send i) q (Some m) w = Ret (rc, q', m', w') →
  ∀ s, q' = q_with_seen q s →
  q' = q_with_seen q s ∧ bloom_wf s ∧ bloom_filter_contains_nn XXH3 s (id_memory (rm_id m)) = Ret true ∧
    ∀ k, bloom_filter_contains_nn XXH3 (q_seen q) k = Ret true → bloom_filter_contains_nn XXH3 s k = Ret true.
Proof.
  intros Hq H s ->. destruct (on_route_records XXH3 clock (Send i) (fun _ => None) (fun _ => []) q m w rc _ m' w' (q_wf_seen q Hq) H) as [Hs Hh].
  pose proof (quasar_step_seen XXH3 clock (Send i) (fun _ => None) (fun _ => []) (q, w) (q_with_seen q s, w')
    (qstep_route _ _ _ _ _ q w (Some m) rc _ m' w' H)) as Hle.
  destruct (Hle (q_wf_seen q Hq)) as [_ Hk]. done.
Qed.

(** Handling a message for the first time. *)
Lemma handle_fresh i q m w :
  quasar_wf q → route_sent m → rm_pub_count m < 2 ^ 30 → rm_pub_capacity m < 2 ^ 30 → seen q m = Ret false →
  ∃ q' m' w', quasar_on_route_message XXH3 (Send i) q (Some m) w = Ret (0, q', m', w') ∧ handles i q m (q, w) (q', w').
Proof.
  intros Hq (Hwf & Ht & Hd) Hc Hcap Hnew.
  assert (Hm : route_ready m) by (split_and!; [done| |done|done]; unfold route_small, MERIDIAN_MAX_PAYLOAD_SIZE in *; lia).
  destruct (locally_subscribed q (rm_topic m)) eqn:Hsub.
  - destruct (on_route_subscribed XXH3 (Send i) q m w Hq Hm Hnew Hsub) as (s & m' & _ & Hwf' & E & Hi & Ht' & Hd' & _ & Hc' & _).
    eexists _, _, _. split; [exact E|]. split; [exists s; exact (handles_seen i q m w _ _ _ _ Hq E s eq_refl)|].
    exists (map (fun t => (t, m')) (peers_of q)). unfold deliveries. rewrite Hsub. cbn [andb fst snd w_log]. split_and!.
    + rewrite map_map. done.
    + apply Forall_map, Forall_true. intros t. split; cbn [snd]; [|done|done|done|lia]. unfold route_sent. by rewrite Ht', Hd'.
    + unfold fanout, zlen. rewrite length_map. lia.
    + intros _. rewrite map_map. cbn [fst]. by rewrite map_id.
  - destruct (on_route_forward XXH3 (Send i) q m w Hq Hm Hnew Hsub) as (s & _ & H). case_decide as Hz.
    + destruct H as (m' & E). eexists _, _, _. split; [exact E|]. split; [exists s; exact (handles_seen i q m w _ _ _ _ Hq E s eq_refl)|].
      exists []. unfold deliveries. rewrite Hsub. cbn [andb app map fst snd]. split_and!; [by rewrite app_nil_r|constructor|unfold fanout, zlen; cbn; lia|done].
    + destruct H as (m2 & Hwf2 & Hi & Ht' & Hd' & _ & Hc' & _ & r & _ & H).
      assert (Hpo : passed_on m m2) by (split; [unfold route_sent; by rewrite Ht', Hd'|done|done|done|lia]).
      destruct r as [nf|].
      * eexists _, _, _. split; [exact H|]. split; [exists s; exact (handles_seen i q m w _ _ _ _ Hq H s eq_refl)|].
        exists [(Some (meridian_node_create_unidentified (nf_addr nf) (nf_port nf)), m2)]. unfold deliveries. rewrite Hsub. cbn [andb app map fst snd].
        split_and!; [done|by constructor|unfold fanout, zlen; cbn; lia|done].
      * destruct H as (m' & w' & ts & E & Hw). eexists _, _, _. split; [exact E|].
        split; [exists s; exact (handles_seen i q m w _ _ _ _ Hq E s eq_refl)|]. exists ts. unfold deliveries. rewrite Hsub. cbn [andb app].
        split_and!; [apply Hw| | |done].
        -- apply list.Forall_forall. intros t Hin. destruct (walk_same _ _ _ _ _ _ _ _ _ _ Hw t Hin) as (Hwt & Eid & Et & Ed & _ & Ec).
           split; [|congruence|congruence|congruence|lia]. split; [done|]. rewrite Et, Ed, Ht', Hd'. done.
        -- pose proof (walk_sub _ _ _ _ _ _ _ _ _ _ Hw) as Hsubl. apply sublist_length in Hsubl. rewrite length_map in Hsubl.
           unfold fanout, zlen. lia.
Qed.

(** A packet arriving. *)
Lemma receive_spec i c m :
  quasar_wf c.1 → route_sent m →
  ∃ c', net_receive i c (wire m) = Ret c' ∧
    ((c'.1 = c.1 ∧ w_log c'.2 = w_log c.2 ∧ (seen c.1 m = Ret true ∨ MERIDIAN_MAX_NODES < rm_pub_count m)) ∨
     (seen c.1 m = Ret false ∧ handles i c.1 m c c')).
Proof.
  intros Hq Hm. destruct c as [q w]. cbn [fst snd] in *. unfold net_receive. cbn [fst snd].
  destruct (Z.ltb_spec MERIDIAN_MAX_NODES (rm_pub_count m)) as [Hc|Hc].
  - rewrite route_deserialize_crowded by done. rewrite bind_Ret_l. eexists. split; [done|]. left. split_and!; [done|done|by right].
  - destruct Hm as (Hwf & Ht & Hd). unfold wire. rewrite <- (app_nil_r (concat _)), route_deserialize_ok by done. rewrite bind_Ret_l.
    destruct (bloom_contains_total XXH3 (q_seen q) (id_memory (rm_id m)) (q_wf_seen q Hq)) as [[] Hb].
    + unfold quasar_on_route_message. change (rm_id (route_received m)) with (rm_id m). rewrite Hb, !bind_Ret_l.
      eexists. split; [done|]. left. split_and!; [done|done|by left].
    + unfold MERIDIAN_MAX_NODES in Hc. pose proof (route_received_wf m Hwf Hc) as Hrw.
      destruct (handle_fresh i q (route_received m) (mkWorld (u64 (w_ids w + 1)) (w_log w)) Hq) as (q' & m' & w' & E & Hh);
        [split_and!; done|cbn; lia|cbn; lia|exact Hb|].
      rewrite E, bind_Ret_l. eexists. split; [done|]. right. split; [done|]. destruct Hh as [Hs (sends & El & Hp & Hf)].
      split; [exact Hs|]. exists sends. split_and!; [exact El| |apply Hf|apply Hf].
      eapply list.Forall_impl; [exact Hp|]. intros t []. by split.
Qed.

(** ** What a reception puts in flight *)

Lemma member_at_lt ms t j : member_at ms t = Some j → (j < length ms)%nat.
Proof.
  unfold member_at. intros H. apply bind_Some in H as (n & _ & H). apply fmap_Some in H as ([k a] & Hf & ->).
  apply list_find_Some in Hf as (Hk & _ & _). apply lookup_lt_Some in Hk. unfold addresses in Hk. by rewrite length_map in Hk.
Qed.

Lemma deliveries_stay ms q m : omap (packet_of ms) (deliveries q m) = [].
Proof. unfold deliveries. by destruct (_ && _). Qed.

Lemma length_omap_le {A B} (f : A → option B) l : (length (omap f l) <= length l)%nat.
Proof. induction l as [|x l IH]; [done|]. cbn. destruct (f x); cbn; fold (omap f l); lia. Qed.

Lemma sent_spec i ms c m c' :
  handles i c.1 m c c' →
  (∀ p, p ∈ sent_since ms c c' → ∃ m', p.2 = wire m' ∧ passed_on m m' ∧ (p.1 < length ms)%nat) ∧
  zlen (sent_since ms c c') <= fanout c.1.
Proof.
  intros [_ (sends & El & Hp & Hf & _)]. unfold sent_since. rewrite El, drop_app_length, omap_app, deliveries_stay, app_nil_l. split.
  - intros [j buf] H. apply list_elem_of_omap in H as (e & He & Ep). apply list_elem_of_fmap in He as ([t m'] & -> & Hin).
    cbn [packet_of route_event fst snd] in Ep. destruct (_ =? 0); [|done]. apply fmap_Some in Ep as (j' & Hj & [= -> ->]).
    exists m'. split_and!; [done| |by apply member_at_lt in Hj]. exact (proj1 (list.Forall_forall _ _) Hp (t, m') Hin).
  - etrans; [|exact Hf]. unfold zlen. pose proof (length_omap_le (packet_of ms) (map (fun t => route_event (Send i) (q_protocol c.1) t.2 t.1) sends)).
    rewrite length_map in *. lia.
Qed.

(** ** Rest *)

Definition knows (q : quasar_t) (d : quasar_message_id_t) : bool :=
  match bloom_filter_contains_nn XXH3 (q_seen q) (id_memory d) with Ret b => b | Trap => false end.

(** How many of the identifiers of [D] a node has not handled. *)
Definition unknown (D : list quasar_message_id_t) (c : member) : nat := length (filter (fun d => knows c.1 d = false) D).

(** What a node may still send: its own fan-out for every identifier it has not handled. *)
Definition may_send (D : list quasar_message_id_t) (c : member) : nat := (Z.to_nat (fanout c.1) * unknown D c)%nat.

Record net_ok (D : list quasar_message_id_t) (n : net) : Prop := {
  no_members : Forall (fun c => quasar_wf c.1) (n_members n);
  no_flight : Forall (fun p => ∃ m, p.2 = wire m ∧ route_sent m ∧ rm_id m ∈ D ∧ (p.1 < length (n_members n))%nat) (n_flight n)
}.

(** How many packets can still be delivered or lost. *)
Definition net_budget (D : list quasar_message_id_t) (n : net) : Z :=
  Z.of_nat (list_sum (map (may_send D) (n_members n))) + zlen (n_flight n).

Lemma list_sum_insert {A} (f : A → nat) l i x y :
  l !! i = Some x → (list_sum (map f (<[i := y]> l)) + f x = list_sum (map f l) + f y)%nat.
Proof.
  revert i. induction l as [|a l IH]; intros i H; [done|]. destruct i as [|i].
  - injection H as ->. cbn. lia.
  - specialize (IH i H). change (<[S i := y]> (a :: l)) with (a :: <[i := y]> l). cbn [map list_sum foldr] in *. unfold list_sum in *. cbn [foldr]. lia.
Qed.

Lemma unknown_mono D c c' :
  (∀ d, knows c.1 d = true → knows c'.1 d = true) → (unknown D c' <= unknown D c)%nat.
Proof.
  intros Hk. unfold unknown. induction D as [|d D IH]; [done|]. rewrite !filter_cons.
  destruct (decide (knows c'.1 d = false)) as [E'|E'], (decide (knows c.1 d = false)) as [E|E]; cbn [length]; [lia| |lia|lia].
  apply not_false_iff_true in E. rewrite (Hk d E) in E'. done.
Qed.

Lemma unknown_strict D c c' d :
  (∀ d, knows c.1 d = true → knows c'.1 d = true) → d ∈ D → knows c.1 d = false → knows c'.1 d = true →
  (unknown D c' < unknown D c)%nat.
Proof.
  intros Hk Hd E E'. apply list_elem_of_split in Hd as (D1 & D2 & ->). unfold unknown. rewrite !list.filter_app, !length_app, !filter_cons.
  rewrite (decide_True (P := knows c.1 d = false)) by done. rewrite (decide_False (P := knows c'.1 d = false)) by congruence.
  pose proof (unknown_mono D1 c c' Hk). pose proof (unknown_mono D2 c c' Hk). unfold unknown in *. cbn [length]. lia.
Qed.

Lemma seen_knows q m b : seen q m = Ret b → knows q (rm_id m) = b.
Proof. unfold knows. by intros ->. Qed.

(** What handling a message leaves of the node. *)
Lemma handles_node i c m c' :
  quasar_wf c.1 → handles i c.1 m c c' →
  quasar_wf c'.1 ∧ fanout c'.1 = fanout c.1 ∧ knows c'.1 (rm_id m) = true ∧ (∀ d, knows c.1 d = true → knows c'.1 d = true).
Proof.
  intros Hq [(s & Es & Hs & Hh & Hmono) _]. rewrite Es. split_and!; [by apply quasar_seen_wf|done|unfold knows; cbn [q_seen q_with_seen q_with]; by rewrite Hh|].
  intros d. unfold knows. cbn [q_seen q_with_seen q_with]. intros H. destruct (bloom_filter_contains_nn XXH3 (q_seen c.1) (id_memory d)) eqn:E; [|done].
  subst. by rewrite (Hmono _ E).
Qed.

Lemma flight_grows {D : list quasar_message_id_t} {ms ms' : list member} (l : list (nat * list Z)) :
  length ms = length ms' →
  Forall (fun p => ∃ m, p.2 = wire m ∧ route_sent m ∧ rm_id m ∈ D ∧ (p.1 < length ms)%nat) l →
  Forall (fun p => ∃ m, p.2 = wire m ∧ route_sent m ∧ rm_id m ∈ D ∧ (p.1 < length ms')%nat) l.
Proof. by intros ->. Qed.

(** Any packet in flight can be delivered; then the network is as before, with
    less to do. *)
Lemma deliver_ok D ms l1 i buf l2 :
  net_ok D (mkNet ms (l1 ++ (i, buf) :: l2)) →
  ∃ c c', ms !! i = Some c ∧ net_receive i c buf = Ret c' ∧
    let n' := mkNet (<[i := c']> ms) (l1 ++ l2 ++ sent_since ms c c') in
    net_ok D n' ∧ net_budget D n' < net_budget D (mkNet ms (l1 ++ (i, buf) :: l2)).
Proof.
  intros [Hms Hfl]. cbn [n_members n_flight] in *. apply list.Forall_app in Hfl as [Hf1 Hf2].
  apply list.Forall_cons in Hf2 as [(m & Em & Hm & Hd & Hi) Hf2]. cbn [fst snd] in *. subst buf.
  destruct (lookup_lt_is_Some_2 ms i Hi) as [c Ec]. pose proof (proj1 (list.Forall_lookup _ _) Hms i c Ec) as Hq. cbv beta in Hq.
  destruct (receive_spec i c m Hq Hm) as (c' & E & Hcase). exists c, c'. split; [done|split; [done|]]. cbv zeta.
  pose proof (list_sum_insert (may_send D) ms i c c' Ec) as Hsum.
  assert (Hlen : length ms = length (<[i := c']> ms)) by by rewrite length_insert.
  unfold net_budget. cbn [n_members n_flight].
  rewrite !zlen_app. unfold zlen at 5. cbn [length].
  destruct Hcase as [(E1 & El & _)|[Hnew Hh]].
  - unfold sent_since. rewrite El, drop_all. cbn [omap list_omap]. rewrite app_nil_r.
    assert (Hu : may_send D c' = may_send D c) by (unfold may_send, unknown; by rewrite E1). split.
    + split; cbn [n_members n_flight]; [apply Forall_insert; [done|by rewrite E1]|]. apply (flight_grows _ Hlen). by apply list.Forall_app.
    + unfold zlen in *. cbn [length]. lia.
  - destruct (handles_node i c m c' Hq Hh) as (Hq' & Hfan & Hk & Hmono). destruct (sent_spec i ms c m c' Hh) as [Hsent Hcount].
    pose proof (unknown_strict D c c' (rm_id m) Hmono Hd (seen_knows _ _ _ Hnew) Hk) as Hlt. split.
    + split; cbn [n_members n_flight]; [by apply Forall_insert|]. apply (flight_grows _ Hlen).
      apply list.Forall_app. split; [done|]. apply list.Forall_app. split; [done|]. apply list.Forall_forall. intros p Hp.
      destruct (Hsent p Hp) as (m' & Ep & [Hs' Hid _ _ _] & Hj). exists m'. rewrite Hid. done.
    + unfold may_send in Hsum. rewrite Hfan in Hsum. assert (Hone : 1 <= fanout c.1) by (unfold fanout; lia).
      assert (Hf : (Z.to_nat (fanout c.1) * unknown D c' + Z.to_nat (fanout c.1) <= Z.to_nat (fanout c.1) * unknown D c)%nat) by nia.
      fold (may_send D) in *. unfold zlen in *. lia.
Qed.

Lemma lose_ok D ms l1 p l2 :
  net_ok D (mkNet ms (l1 ++ p :: l2)) →
  net_ok D (mkNet ms (l1 ++ l2)) ∧ net_budget D (mkNet ms (l1 ++ l2)) < net_budget D (mkNet ms (l1 ++ p :: l2)).
Proof.
  intros [Hms Hfl]. cbn [n_members n_flight] in *. apply list.Forall_app in Hfl as [Hf1 Hf2]. apply list.Forall_cons in Hf2 as [_ Hf2].
  split; [split; [done|by apply list.Forall_app]|]. unfold net_budget. cbn [n_members n_flight]. rewrite !zlen_app. unfold zlen. cbn [length]. lia.
Qed.

Lemma net_step_ok D n n' : net_ok D n → net_step n n' → net_ok D n' ∧ net_budget D n' < net_budget D n.
Proof.
  intros Hn Hs. revert Hn. destruct Hs as [? ? [ms l1 i buf l2 c c' Ec E]|ms l1 p l2]; intros Hn; [|by apply lose_ok].
  destruct (deliver_ok D ms l1 i buf l2 Hn) as (c0 & c0' & Ec0 & E0 & H). rewrite Ec in Ec0. injection Ec0 as <-. rewrite E in E0. by injection E0 as <-.
Qed.

Lemma net_steps_ok D k n n' :
  net_ok D n → nsteps net_step k n n' → net_ok D n' ∧ Z.of_nat k + net_budget D n' <= net_budget D n.
Proof.
  intros Hn H. induction H as [n|k n1 n2 n3 Hs _ IH]; [split; [done|lia]|].
  destruct (net_step_ok D n1 n2 Hn Hs) as [Hn2 Hlt]. destruct (IH Hn2) as [Hn3 Hle]. split; [done|lia].
Qed.

Lemma net_budget_nonneg D n : 0 <= net_budget D n.
Proof. unfold net_budget, zlen. lia. Qed.

Lemma net_ok_progress D n : net_ok D n → n_flight n = [] ∨ ∃ n', net_deliver n n'.
Proof.
  intros Hn. destruct n as [ms [|[i buf] l]]; [by left|right]. destruct (deliver_ok D ms [] i buf l Hn) as (c & c' & Ec & E & _).
  eexists. exact (nd_packet ms [] i buf l c c' Ec E).
Qed.

(** Delivering one packet after the other empties the network. *)
Lemma net_rests D n : net_ok D n → ∃ n', rtc net_deliver n n' ∧ n_flight n' = [].
Proof.
  intros Hn. remember (Z.to_nat (net_budget D n)) as b eqn:Eb. revert n Hn Eb.
  induction (lt_wf b) as [b _ IH]. intros n Hn ->. destruct (net_ok_progress D n Hn) as [Hz|[n1 Hd]]; [by exists n|].
  destruct (net_step_ok D n n1 Hn (ns_deliver n n1 Hd)) as [Hn1 Hlt]. pose proof (net_budget_nonneg D n1).
  destruct (IH (Z.to_nat (net_budget D n1)) ltac:(lia) n1 Hn1 eq_refl) as (n' & Hr & Hz). exists n'. split; [by eapply rtc_l|done].
Qed.

(** ** Flooding *)

Definition is_delivery (e : qevent) : bool := match e with QDeliver _ _ => true | _ => false end.

Definition delivered_since (c c' : member) : list qevent := List.filter is_delivery (drop (length (w_log c.2)) (w_log c'.2)).

(** A connection of [i] over which packets reach [j]. *)
Definition linked (ms : list member) (i j : nat) : Prop :=
  ∃ c nd, ms !! i = Some c ∧ Some nd ∈ peers_of c.1 ∧ member_at ms (Some nd) = Some j ∧
    ∀ data, (meridian_protocol_send_packet (Send i) (q_protocol c.1) data (Some nd)).1 = 0.

Definition subscriber (topic : list Z) (ms : list member) (i : nat) : Prop :=
  ∃ c, ms !! i = Some c ∧ locally_subscribed c.1 topic = true.

Definition sub_link (topic : list Z) (ms : list member) (i j : nat) : Prop := subscriber topic ms i ∧ linked ms i j.

Section flood.
Context (ms0 : list member) (m : quasar_route_message_t) (i0 : nat).

Definition knower (c : member) : nat := if knows c.1 (rm_id m) then 1%nat else 0%nat.

Definition known_count (ms : list member) : Z := Z.of_nat (list_sum (map knower ms)).

Definition known_in (ms : list member) (i : nat) : Prop := ∃ c, ms !! i = Some c ∧ knows c.1 (rm_id m) = true.

Definition reached (n : net) (j : nat) : Prop := known_in (n_members n) j ∨ ∃ buf, (j, buf) ∈ n_flight n.

(** A node during the flood: only what it has handled and its log change, and it
    has delivered the message exactly if it has handled it. *)
Definition during (c0 c : member) : Prop :=
  quasar_wf c.1 ∧ c.1 = q_with_seen c0.1 (q_seen c.1) ∧
  ∃ new, w_log c.2 = w_log c0.2 ++ new ∧ List.filter is_delivery new = if knows c.1 (rm_id m) then deliveries c0.1 m else [].

(** A copy of [m] that has passed through handled nodes only. *)
Definition copy_of (ms : list member) (p : nat * list Z) : Prop :=
  ∃ m', p.2 = wire m' ∧ route_sent m' ∧ rm_id m' = rm_id m ∧ rm_topic m' = rm_topic m ∧ rm_data m' = rm_data m ∧
    rm_pub_count m' <= rm_pub_count m + known_count ms ∧ (p.1 < length ms)%nat.

Record flood (n : net) : Prop := {
  fl_members : Forall2 during ms0 (n_members n);
  fl_flight : Forall (copy_of (n_members n)) (n_flight n);
  fl_start : reached n i0;
  fl_cover : ∀ i j, sub_link (rm_topic m) ms0 i j → known_in (n_members n) i → reached n j
}.

Lemma known_count_le ms : known_count ms <= zlen ms.
Proof.
  unfold known_count, zlen. induction ms as [|c ms IH]; [done|]. cbn [map list_sum foldr length] in *. unfold list_sum in *. cbn [foldr].
  unfold knower at 1. destruct (knows _ _); lia.
Qed.

Lemma during_addresses ms : Forall2 during ms0 ms → addresses ms = addresses ms0.
Proof.
  unfold addresses. induction 1 as [|c0 c l0 l (_ & E & _) _ IH]; [done|]. cbn [map]. rewrite IH, E. done.
Qed.

Lemma during_member_at ms t : Forall2 during ms0 ms → member_at ms t = member_at ms0 t.
Proof. intros H. unfold member_at. by rewrite (during_addresses ms H). Qed.

(** A subscriber's copies go to everyone it is linked to. *)
Lemma sent_covers ms i j c0 c m' c' :
  Forall2 during ms0 ms → ms0 !! i = Some c0 → during c0 c → rm_topic m' = rm_topic m → handles i c.1 m' c c' →
  sub_link (rm_topic m) ms0 i j → ∃ buf, (j, buf) ∈ sent_since ms c c'.
Proof.
  intros Hms Ec0 (_ & Es & _) Et [_ (sends & El & _ & _ & Hall)] [(c1 & Ec1 & Hsub) (c2 & nd & Ec2 & Hnd & Hj & Hsend)].
  rewrite Ec0 in Ec1, Ec2. injection Ec1 as <-. injection Ec2 as <-.
  assert (Epeers : peers_of c.1 = peers_of c0.1) by by rewrite Es. assert (Eprot : q_protocol c.1 = q_protocol c0.1) by by rewrite Es.
  assert (Hsubc : locally_subscribed c.1 (rm_topic m') = true) by (rewrite Es, Et; exact Hsub).
  specialize (Hall Hsubc). rewrite Epeers in Hall. rewrite <- Hall in Hnd. apply list_elem_of_fmap in Hnd as ([t mt] & Et' & Hin). cbn in Et'. subst t.
  exists (wire mt). unfold sent_since. rewrite El, drop_app_length, omap_app, deliveries_stay, app_nil_l.
  apply list_elem_of_omap. exists (route_event (Send i) (q_protocol c.1) mt (Some nd)). split.
  - apply list_elem_of_fmap. by exists (Some nd, mt).
  - unfold route_event. cbn [packet_of]. rewrite Eprot, Hsend. cbn [Z.eqb]. rewrite (during_member_at ms _ Hms), Hj. done.
Qed.

Lemma filter_sends i prot (sends : list (option meridian_node_t * quasar_route_message_t)) :
  List.filter is_delivery (map (fun t => route_event (Send i) prot t.2 t.1) sends) = [].
Proof. induction sends as [|t l IH]; [done|]. cbn. exact IH. Qed.

Lemma filter_deliveries q : List.filter is_delivery (deliveries q m) = deliveries q m.
Proof. unfold deliveries. by destruct (_ && _). Qed.

(** A node that handles the message for the first time. *)
Lemma during_handles i c0 c m' c' :
  during c0 c → rm_id m' = rm_id m → rm_topic m' = rm_topic m → rm_data m' = rm_data m →
  seen c.1 m' = Ret false → handles i c.1 m' c c' →
  during c0 c' ∧ knower c = 0%nat ∧ knower c' = 1%nat.
Proof.
  intros (Hq & Es & new & El & Ef) Ei Et Ed Hnew Hh. destruct (handles_node i c m' c' Hq Hh) as (Hq' & _ & Hk & _).
  apply seen_knows in Hnew. rewrite Ei in Hnew, Hk. unfold knower. rewrite Hnew, Hk. rewrite Hnew in Ef. split_and!; [|done|done].
  destruct Hh as [(s & Es' & _) (sends & El' & _)]. split_and!; [done|rewrite Es', Es; done|].
  exists (new ++ deliveries c.1 m' ++ map (fun t => route_event (Send i) (q_protocol c.1) t.2 t.1) sends). rewrite Hk. split.
  - rewrite El', El. by rewrite <- (assoc_L (++)).
  - rewrite !List.filter_app, filter_sends, app_nil_r, Ef, app_nil_l. unfold deliveries. rewrite Es, Et, Ed. apply filter_deliveries.
Qed.

Lemma known_in_insert ms i c c' j :
  ms !! i = Some c → known_in (<[i := c']> ms) j ↔ (i = j ∧ knows c'.1 (rm_id m) = true) ∨ (i ≠ j ∧ known_in ms j).
Proof.
  intros Ec. apply lookup_lt_Some in Ec. unfold known_in. destruct (decide (i = j)) as [<-|Hne].
  - rewrite list_lookup_insert_eq by done. split; [intros (? & [= <-] & H); by left|intros [[_ H]|[? _]]; [by exists c'|done]].
  - rewrite list_lookup_insert_ne by done. split; [intros H; by right|intros [[? _]|[_ H]]; done].
Qed.

(** Nothing that was reached is lost: the packet is handled by its node. *)
Lemma reached_step ms l1 i buf l2 c c' sent j :
  ms !! i = Some c → knows c'.1 (rm_id m) = true → reached (mkNet ms (l1 ++ (i, buf) :: l2)) j →
  reached (mkNet (<[i := c']> ms) (l1 ++ l2 ++ sent)) j.
Proof.
  intros Ec Hk H. destruct (decide (i = j)) as [<-|Hne]; [left; by apply (known_in_insert ms i c c'); [|left]|].
  destruct H as [H|[b H]]; [left; apply (known_in_insert ms i c c'); [done|by right]|right]. exists b. cbn [n_flight] in *.
  apply elem_of_app in H as [H|[[= <- <-]|H]%elem_of_cons]; [|done|]; set_solver.
Qed.

Lemma copy_of_mono ms ms' p : length ms = length ms' → known_count ms <= known_count ms' → copy_of ms p → copy_of ms' p.
Proof. intros Hl Hc (m' & ? & ? & ? & ? & ? & ? & ?). exists m'. rewrite <- Hl. split_and!; try done. lia. Qed.

Lemma flood_deliver n n' : rm_pub_count m + zlen ms0 <= MERIDIAN_MAX_NODES → flood n → net_deliver n n' → flood n'.
Proof.
  intros Hroom Hn Hd. revert Hn. destruct Hd as [ms l1 i buf l2 c c' Ec E]. intros [Hms Hfl Hst Hcov]. cbn [n_members n_flight] in *.
  apply list.Forall_app in Hfl as [Hf1 Hf2]. apply list.Forall_cons in Hf2 as [(m' & Em & Hs & Ei & Et & Ed & Hc & Hi) Hf2]. cbn [fst snd] in *. subst buf.
  destruct (Forall2_lookup_r _ _ _ _ _ Hms Ec) as (c0 & Ec0 & Hdur). destruct (receive_spec i c m' (proj1 Hdur) Hs) as (c1 & E1 & Hcase).
  rewrite E in E1. injection E1 as <-. pose proof (known_count_le ms) as Hk. pose proof (list.Forall2_length _ _ _ Hms) as Hlen.
  assert (Hlen' : length ms = length (<[i := c']> ms)) by by rewrite length_insert.
  pose proof (list_sum_insert knower ms i c c' Ec) as Hsum.
  assert (Hcov' : known_in (<[i := c']> ms) i → (∀ j, sub_link (rm_topic m) ms0 i j → reached (mkNet (<[i := c']> ms) (l1 ++ l2 ++ sent_since ms c c')) j) →
    ∀ a b, sub_link (rm_topic m) ms0 a b → known_in (<[i := c']> ms) a → reached (mkNet (<[i := c']> ms) (l1 ++ l2 ++ sent_since ms c c')) b).
  { intros Hki Hself a b Hab Ha. destruct (decide (i = a)) as [<-|Hne]; [by apply Hself|].
    apply (known_in_insert ms i c c' a Ec) in Ha as [[? _]|[_ Ha]]; [done|].
    apply (known_in_insert ms i c c' i Ec) in Hki as [[_ Hk']|[? _]]; [|done]. apply (reached_step ms l1 i (wire m') l2 c c'); [done|done|by apply (Hcov a b)]. }
  destruct Hcase as [(E1 & El & [Hdup|Hbig])|[Hnew Hh]].
  - assert (Hkc : knows c'.1 (rm_id m) = true) by (rewrite E1, <- Ei; by apply seen_knows).
    assert (Hkn : known_in (<[i := c']> ms) i) by (apply (known_in_insert ms i c c' i Ec); by left).
    assert (Hck : known_count ms <= known_count (<[i := c']> ms)) by (unfold known_count, knower in *; rewrite E1 in Hsum; lia).
    assert (Hi' : known_in ms i) by (exists c; split; [done|by rewrite <- E1]).
    split; cbn [n_members n_flight].
    + rewrite <- (list_insert_id ms0 i c0 Ec0). apply Forall2_insert; [done|]. destruct Hdur as (Hq & Es & new & Hnew & Hf).
      unfold during. rewrite E1, El. split_and!; [done|done|by exists new].
    + unfold sent_since. rewrite El, drop_all. cbn [omap list_omap]. rewrite app_nil_r. apply list.Forall_app.
      split; (eapply list.Forall_impl; [eassumption|]; intros p; by apply copy_of_mono).
    + by apply (reached_step ms l1 i (wire m') l2 c c').
    + apply Hcov'; [done|]. intros j Hij. apply (reached_step ms l1 i (wire m') l2 c c'); [done|done|by apply (Hcov i j)].
  - exfalso. unfold zlen in *. rewrite Hlen in Hroom. lia.
  - destruct (during_handles i c0 c m' c' Hdur Ei Et Ed Hnew Hh) as (Hdur' & K0 & K1). rewrite K0, K1 in Hsum.
    assert (Hkc : knows c'.1 (rm_id m) = true) by (unfold knower in K1; by destruct (knows c'.1 (rm_id m))).
    assert (Hck : known_count (<[i := c']> ms) = known_count ms + 1) by (unfold known_count; lia).
    assert (Hkn : known_in (<[i := c']> ms) i) by (apply (known_in_insert ms i c c' i Ec); by left).
    split; cbn [n_members n_flight].
    + rewrite <- (list_insert_id ms0 i c0 Ec0). by apply Forall2_insert.
    + apply list.Forall_app. split; [eapply list.Forall_impl; [exact Hf1|]; intros p; apply copy_of_mono; [done|lia]|].
      apply list.Forall_app. split; [eapply list.Forall_impl; [exact Hf2|]; intros p; apply copy_of_mono; [done|lia]|].
      apply list.Forall_forall. intros p Hp. destruct (proj1 (sent_spec i ms c m' c' Hh) p Hp) as (m2 & Ep & [Hs2 Hi2 Ht2 Hd2 Hc2] & Hj).
      exists m2. rewrite <- Hlen'. split_and!; [done|done|congruence|congruence|congruence|lia|done].
    + by apply (reached_step ms l1 i (wire m') l2 c c').
    + apply Hcov'; [done|]. intros j Hij. destruct (sent_covers ms i j c0 c m' c' Hms Ec0 Hdur Et Hh Hij) as [b Hb].
      right. exists b. cbn [n_flight]. set_solver.
Qed.

Lemma flood_run n n' : rm_pub_count m + zlen ms0 <= MERIDIAN_MAX_NODES → flood n → rtc net_deliver n n' → flood n'.
Proof. intros Hroom Hn H. induction H as [|n1 n2 n3 Hs _ IH]; [done|]. apply IH. by apply (flood_deliver n1 n2). Qed.
End flood.
End network.

(** ** Properties *)



(** ** Concrete instances *)

(** Three subscribers, each connected to the two others. *)
Definition node_of (k : Z) : meridian_node_t := meridian_node_create_unidentified k 4433.

Definition trio_protocol (k a b : Z) : meridian_protocol_t :=
  mkProtocol true k 20753 [] [mkPeer (Some a) (Some (node_of a)); mkPeer (Some b) (Some (node_of b))] demo_rings.

Definition trio_member (k a b : Z) : member :=
  (q_with_subs (quasar_set_message_callback (quasar_create (Some (trio_protocol k a b)) 3 2 256 2) true) [mkSub [116] 0], mkWorld 0 []).

Definition trio : list member := [trio_member 1 2 3; trio_member 2 1 3; trio_member 3 1 2].

Lemma trio_member_wf k a b : is_u32 k → is_u32 a → is_u32 b → quasar_wf (trio_member k a b).1.
Proof.
  intros Hk Ha Hb. assert (quasar_wf (quasar_create (Some (trio_protocol k a b)) 3 2 256 2)) as [].
  { apply quasar_create_wf; [lia|unfold is_u32; lia|unfold is_u32; lia|lia|unfold is_u32; lia|].
    intros p [= <-]. split; [exact Hk|]. constructor; [split; [exact Ha|done]|]. constructor; [split; [exact Hb|done]|constructor]. }
  by split.
Qed.

Lemma trio_wf : Forall (fun c => quasar_wf c.1) trio.
Proof. constructor; [|constructor; [|constructor; [|constructor]]]; by apply trio_member_wf. Qed.

Definition anywhere (_ : nat) (_ : Z) (_ : list Z) : bool := true.

Lemma demo_route_sent : route_sent demo_route.
Proof. split_and!; [apply demo_route_wf|by vm_compute|by vm_compute]. Qed.

Definition trio_net : net := mkNet trio [(0%nat, wire demo_route)].

Lemma trio_net_ok : net_ok [rm_id demo_route] trio_net.
Proof.
  split.
  - constructor; [|constructor; [|constructor; [|constructor]]]; by apply trio_member_wf.
  - constructor; [|constructor]. exists demo_route. split_and!; [done|apply demo_route_sent|by left|cbn; lia].
Qed.


Lemma trio_link k : k = 2 ∨ k = 3 → sub_link anywhere [116] trio 0 (Z.to_nat (k - 1)).
Proof.
  intros Hk. split; [exists (trio_member 1 2 3); by split|]. exists (trio_member 1 2 3), (node_of k). split; [done|].
  destruct Hk as [-> | ->]; (split; [cbn; set_solver|split; [vm_compute; reflexivity|by intros data]]).
Qed.

Lemma trio_reached j c : trio !! j = Some c → rtc (sub_link anywhere [116] trio) 0%nat j.
Proof.
  intros H. destruct j as [|[|[|j]]]; [done| | |done]; apply rtc_once.
  - exact (trio_link 2 ltac:(by left)).
  - exact (trio_link 3 ltac:(by right)).
Qed.

Lemma trio_delivers c j : trio !! j = Some c → deliveries c.1 demo_route = [QDeliver [116] (Some [104; 105])].
Proof. intros H. destruct j as [|[|[|j]]]; [..|done]; injection H as <-; reflexivity. Qed.


(** A publication is another matter: a subscribed publisher makes a message with
    an identifier of its own for every peer, so the copies are not recognised as
    one, and each of the others delivers the publication twice. *)
Definition published (q : quasar_t) (w : world) : exec member :=
  '(_, q', w') <- quasar_publish sum_hash (fun n => (0, n)) (anywhere 0) q (Some [116]) (Some [104]) w ;; Ret (q', w').

Definition trio_published : exec net :=
  match trio with
  | c :: _ => c' <- published c.1 c.2 ;; net_run sum_hash (fun n => (0, n)) anywhere 40 (mkNet (<[0%nat := c']> trio) (sent_since trio c c'))
  | [] => Trap
  end.

Example publication_delivered_twice :
  (n <- trio_published ;; Ret (n_flight n, zip_with (fun c c' => length (delivered_since c c')) trio (n_members n))) = Ret ([], [1; 2; 2]%nat).
Proof. vm_compute. reflexivity. Qed.
